(* ===== verification/_CoqProject ===== *)
-Q . S2P
Prelude.v
Ordering.v
Control.v
Budget.v
Ids.v
DomainIr.v
Model.v
Analysis.v
Erasure.v
UnionFind.v
Components.v
Lexicographic.v
Validation.v
ValidationAgreement.v
Rejection.v
Bounds.v
Provenance.v
Scoping.v
Admission.v
Canonical.v
CanonicalFacts.v
Projection.v
ProjectionFacts.v
Evaluator.v
EvaluatorFacts.v
Accounting.v
Conflict.v
ConflictFacts.v
AssumptionFacts.v
Protocol.v
Strict.v
Frame.v
VarintFacts.v
StrictFacts.v
FrameFacts.v
Session.v
SessionFacts.v
Stderr.v
Translation.v
TranslationFacts.v
TranslationExact.v
CandidateFacts.v
SolverApi.v
Adapter.v
AdapterFacts.v
SolverApiFacts.v
Support.v
Preflight.v
PreflightFacts.v
Router.v
Execution.v
RouterFacts.v
ExecutionFacts.v
RoutedExecution.v
ExecutionReturns.v
VerificationIr.v
Counterfactual.v
Json.v
Portable.v
PortableFacts.v
ObjectiveContext.v
Scenario.v
Contract.v
ContractFacts.v
Command.v
CommandFacts.v
CommandUndo.v
CommandReplay.v
CommandWitnesses.v
Acceptance.v
AcceptanceFacts.v
AcceptanceErrors.v
AcceptanceComplete.v
CandidateReviewer.v
ReviewedExecution.v
Witnesses.v
ProtocolWitnesses.v
SolverWitnesses.v
RouterWitnesses.v
GateWitnesses.v
