(* ===== verification/Prelude.v ===== *)
(** * Eutheto planning kernel, solver boundary and scenario commands: verification development

    Eutheto plans under constraints.  Domain packs compile a scenario into a solver-independent
    intermediate representation (the planning IR), the kernel validates, analyzes, canonicalizes and
    hashes it, an adapter translates it to a native model which a worker process solves, and the
    kernel projects the candidate that comes back into a domain solution.  When there is none, the
    core of assumptions the worker returns is mapped back and shrunk to an explanation.  A router
    chooses the backends that may solve a problem, dispatches them in turn and has what they return
    reviewed: an acceptance gate projects, scores and verifies a candidate through the domain pack
    before it becomes an accepted result.  The scenario itself changes through commands, pure functions
    from a document to a changed document and an inverse, which packs extend through a registry of
    checked contracts.  This library
    models these paths and proves them correct: the crate [eutheto-planning-ir] with the parts of
    [eutheto-types] and [eutheto-domain-ir] it rests on, [eutheto-protocol],
    [eutheto-solver-api], the pure parts of [eutheto-solver-ortools], [eutheto-solver-router],
    [eutheto-verify] with the reviewer of [eutheto-core], the conflict algorithms of
    [eutheto-explain] with its admission of counterfactuals, [eutheto-command], and the contracts of
    [eutheto-domain-api].  All paths below are relative to [crates/].

    ** The parts and where they are

    Foundations.
    - [Prelude], [Ordering]: Rust's [Result], the state-and-error monad of a function that takes
      [&mut], the loops, checked, saturating and casting integer operations at their width; [Ord] as
      a class with its laws, stable sorting, [dedup], [BTreeSet] order and binary search.
    - [Control] (eutheto-types/src/budget.rs): millisecond durations, the tree of cancellation
      tokens, the monotonic clock, solve budgets and phase views, [OperationControl::check].  Tokens
      are shared and mutable, so they are indices into a store.
    - [Budget] (eutheto-planning-ir/src/budget.rs, limits of validation.rs): cumulative work, live
      transient bytes with raw and owned reservations, [Drop], and the counting writer.  A budget
      carries the sequence of worlds (clock reading and token store) its successive checks observe;
      theorems quantify over that sequence, hence over every schedule of cancellations and clock
      readings.

    The planning kernel (eutheto-planning-ir/src).
    - [Ids] (ids.rs and the grammar of eutheto-domain-ir/src/lib.rs), [DomainIr]
      (eutheto-domain-ir/src/lib.rs): identifiers, assigned intervals, normalized solutions, score
      vectors.
    - [Model] (model.rs): the data of the IR and its constructors.
    - [Analysis] (analysis.rs): feature usage, mathematical components by union-find, lexicographic
      strategy.  [UnionFind], [Components] and [Lexicographic] prove them.
    - [Validation] (validation.rs): every check in source order, over the optional budget of the
      validation context.  Its last section, [Bounds], [Provenance], [Scoping] read acceptance back
      as propositions; [Admission] collects them in the interface [Admissible], against which
      projection, evaluation, canonicalization and translation are proved.
    - [Erasure], [ValidationAgreement], [Rejection]: the budgeted runs against the uncontrolled ones.
    - [Canonical] (canonical.rs): normalization, canonical JSON and hashes, solve fingerprints,
      summaries, prepared models.  [CanonicalFacts] proves them.
    - [Projection] (projection.rs), [Evaluator] (test_evaluator.rs, the semantics of constraints the
      crate tests against) with [ProjectionFacts] and [EvaluatorFacts].
    - [Accounting]: the live bytes of whole budgeted operations.

    Explanations (eutheto-explain/src).
    - [Conflict] (shrink.rs and the evidence records of eutheto-domain-ir/src/explanation.rs): the
      deletion pass over conflict groups as a state machine driven by trial answers;
      [ConflictFacts].
      Its second part (assumption.rs) maps native core literals to conflict groups, plain and under a
      preparation budget; [AssumptionFacts].
    - [Counterfactual] (counterfactual.rs and the condition and binding records of
      eutheto-domain-ir/src/explanation.rs): conditions, what satisfies them, and the check that a
      derived problem only adds to its base.

    The worker protocol (eutheto-protocol/src).
    - [Protocol] (fault.rs, limits.rs, protocol/version.json): faults, policy, checked-in limits;
      the messages and enumerations of the generated binding; UTF-8 as Rust's standard library
      validates and lossily decodes it.
    - [Strict] (strict.rs): the schema built from a descriptor set and the validation of a payload
      before it is decoded; [VarintFacts], [StrictFacts].
    - [Frame] (frame.rs): length-prefixed frames, read from a reader that delivers any chunks, and
      written, allocating or streaming; [FrameFacts].
    - [Session] (state.rs): the parent's state machine, events in, evidence or fault out;
      [SessionFacts].
    - [Stderr] (stderr.rs): the bounded, sanitized diagnostics of a worker.

    The solver interface and the OR-Tools adapter (eutheto-solver-api/src, eutheto-solver-ortools/src).
    - [Translation] (translation.rs and the generated CP-SAT binding): what a CP-SAT model means, as
      workers/ortools/proto/ortools/sat/cp_model.proto documents it for the message fields the adapter
      fills; an accepted problem to a native model, its index maps and candidate requests; [TranslationFacts] computes every native
      constraint's meaning, [TranslationExact] composes them.
      Its last part (candidate.rs) decodes native values back to typed candidate values;
      [CandidateFacts].
    - [SolverApi] (contracts.rs, solve options of eutheto-types/src/contracts.rs): dispatch budgets,
      requests, evidence, the bounded sink a backend reports to, and (preflight.rs) the checks on a
      finished outcome.
    - [Adapter] (status.rs, evidence.rs, progress.rs): classification of terminals, the evidence
      recorder, progress events; [AdapterFacts], [SolverApiFacts].

    - [Support] (generated_support_matrix.rs, support.rs, descriptor.rs, namespaced
      identifiers of eutheto-types/src/ids.rs): the checked-in support claims, the capability matrix
      built from them and its reports.
    - [Preflight] (preflight.rs, registry.rs; descriptor.rs and compatibility.rs of the adapter): the
      requirements of a problem, the registry of backends and the checks before a dispatch;
      [PreflightFacts].

    The router (eutheto-solver-router/src).
    - [Router] (profile.rs, decision.rs): the decision, made without invoking a backend;
      [RouterFacts].
    - [Execution] (execution.rs): the attempts of one routed solve, with their preflight, the backend
      behind the bounded sink, the reviews, the fallback and the observed times.  [Prelude] has
      the triples by which [ExecutionFacts] specifies each part; [RoutedExecution] and
      [ExecutionReturns] compose them.

    The acceptance gate (eutheto-verify/src, eutheto-core/src/verification.rs).
    - [VerificationIr] (eutheto-domain-ir/src/lib.rs): scopes of required rules, contexts, reports and
      accepted results, checksummed.
    - [ObjectiveContext] (eutheto-domain-ir/src/objective_context.rs): the recorded objective of a run
      and the byte-limited reader of captured baselines.
    - [Acceptance] (eutheto-verify/src/lib.rs): the review of one candidate, stage by stage.  A stage
      that returns early is a computation that fails with its decision.  [AcceptanceFacts] says what is
      accepted, [AcceptanceErrors] why something is refused, [AcceptanceComplete] that honest packs
      are accepted.
    - [CandidateReviewer] (eutheto-core/src/verification.rs): the reviewer given to the router, with its
      state; [ReviewedExecution] puts it in the router's place and composes the theorems of both.

    Documents and commands (eutheto-types/src, eutheto-domain-api/src, eutheto-command/src).
    - [Json]: JSON values as [serde_json] reads and writes them, their length and equality.
    - [Portable] (portable.rs, identity.rs): the policy on portable JSON, over a value and while its
      text is read, the rules on fields and strings, declared references, archival results,
      self-declared identities; [PortableFacts].
    - [Scenario] (contracts.rs, values.rs, identity.rs): documents, commands, changes and results with
      the trees [serde] writes for them, and the identities a document owns.
    - [Contract] (schema.rs and lib.rs of eutheto-domain-api): the schema vocabulary, the check of a
      value against a schema, catalogs, descriptors, and the registry of packs; [ContractFacts].
    - [Command] (lib.rs and reconciled.rs of eutheto-command): preflight, leaves, nested batches, runs
      of domain commands in chunks, settings, the counters that bound every output, the change in
      validation, and reconciled commands.  [CommandFacts] counts, [CommandUndo] undoes, and
      [CommandReplay] replays: each has a small logic for the computations of a command ([counts],
      [may], [sim]).

    [Witnesses] starts with a worked scheduling problem; it,
    [ProtocolWitnesses], [SolverWitnesses], [RouterWitnesses], [GateWitnesses] and [CommandWitnesses]
    apply every conditional theorem to concrete data.

    ** How the code is modelled

    Functions keep their names; a type or function whose name Rocq reserves ends in an underscore,
    and an associated function carries its type ([IntDomain_new]).  A function that takes
    [&mut PlanningPreparationBudget] is a computation [SE PlanningPreparationBudget E A]; one that
    takes [Option<&mut PlanningPreparationBudget>] is [SE Ctx E A] with [Ctx] an optional budget, so
    one definition is both the uncontrolled and the budgeted traversal, as in the source.  The state
    reached before an early return is kept.  An owned reservation is retired where the source drops
    it, on early returns too.  Integers are [Z] with the width of every operation written out;
    [usize] is 64 bits wide; [f64] and [f32] are their IEEE bits.  Identifier newtypes are strings;
    [BTreeMap] and [BTreeSet] are [gmap] and [gset] iterated in key order.  Each compare-exchange
    loop on the shared byte counter is one step: it retries until it has applied its update to the
    value it read.  A function that reads the clock takes the world it observes, one per reading
    ([submit_candidate] takes the world of its entry and the world of its commit).  A reader is the
    list of chunks its successive reads deliver.

    Parameters: BLAKE3 and SHA-256 ([blake3_hex], [sha256], any functions from bytes), the
    serializers of [serde_json] (any sequence of written chunks, complete or failing) and its
    deserializer, the encoders and decoders of [prost] ([encode_to_vec] and its like, any functions),
    the checked-in descriptor set, the parser of [semver], memory reservation ([try_reserve], any
    answers) and the sink that receives progress events.  Of a routed solve, the environment is what
    each invoked backend submits and how its future completes, when the notification of a first
    candidate is received, the answers of the reviewer (any function of the calls made to it so far),
    and the worlds its successive clock and token readings observe.  Of a review by the gate it is the
    domain pack, the clock, the identities generated and the token readings: any functions of the
    number of the interaction.  Of a command it is the pack and the token, again by the number of the
    interaction, Unicode lowercasing ([unicode_lowercase]) and the parsers of UUIDs and timestamps
    ([parse_uuid], [parse_timestamp]).  No theorem assumes a law of them except
    where its statement says so.

    Loops that are not structural take fuel.  [find_root] runs with the length of the parent array:
    each step moves to a grandparent of strictly larger size class ([UnionFind] proves that it
    reaches the root, and how many steps it takes).  The chain walk of provenance runs with two steps
    more than there are records, because its path never repeats a record; the ancestor closure runs
    with one step for every pending identifier and every record, because it pushes a parent once;
    [is_cancelled] runs with the number of tokens, because a parent is older than its child.  A varint
    has at most ten groups; the field and packed loops of strict validation run one step longer than
    the bytes, since each step consumes one; the loops that read a frame run one step longer than
    the chunks delivered.  The checks of schemas and values run as deep as the nesting limit lets
    them and the scrubbing of field references as far as the schema has nodes; a chunk of domain
    commands is halved at most as often as it has commands.
    [Provenance], [Control], [StrictFacts], [FrameFacts] and [ContractFacts] prove the loops
    equivalent to unbounded descriptions, so no answer depends on the fuel.

    ** What the theorems show

    - Results: on an accepted problem, projection returns exactly the solution the candidate denotes
      or an actual fault of the candidate, or refuses it because the problem's revision is too large for
      a solution; the evaluator decides the declarative meaning of every constraint without overflow,
      except that an empty interval inside another one fails a no-overlap constraint; checking a
      cumulative capacity at task starts suffices.
    - Translation: the solutions of the native model are exactly the encodings of the feasible
      assignments of the problem, and its optima are the assignments no other scores better than;
      decoding a projected candidate inverts the encoding; a bound reported as progress bounds every
      feasible assignment.
    - Structure: the components are the connected components of the constraint hypergraph, in
      canonical order, at logarithmic cost per union; provenance chains and coverage are decided
      exactly.
    - Arithmetic: expression bounds are the exact extremes and certify evaluation; the interval
      equation is decided exactly although only endpoints are inspected; exact scalarization orders
      candidates as the authoritative score comparison does.
    - Normal forms: domains, expressions, solutions and whole problems have idempotent,
      order-insensitive normal forms; validation accepts normal forms only; the canonical hash
      depends on semantic content only; fingerprint and parameter preimages are injective.
    - Resources: budgeted validation accepts and refuses what uncontrolled validation does, with the
      same analyses, unless its preparation is exhausted or interrupted; every operation gives back
      the bytes it does not hand to its caller; the account holds over every history; dropping a guard
      never panics; uncontrolled validation never reaches its [unreachable!].
    - Control: cancellation reaches exactly the descendants, interruption is permanent, phases never
      outlive their parent's deadline; a dispatched backend leaves its parent the reserved time.
    - Explanations: whatever the solver answers, a shrinking pass returns, keeps a core the solver
      has refuted, and claims minimality only where every remaining group was tried; a mapped core
      names exactly the assumption groups of its literals; a counterfactual is admitted exactly when
      it adds justified constraints to its base and changes nothing else, so that it keeps the base's
      plans that meet them, with their scores.
    - Protocol: strict validation accepts well-formed canonical payloads within the policy only;
      varints and frames round trip; reading in chunks agrees with inspecting the whole; the session
      refines the specification of an exchange and its evidence is correlated with the request; the
      diagnostics of a worker are a bounded, sanitized prefix.
    - Solver interface: every candidate the sink retains is typed, in sequence and within the limits
      of the request; an outcome assembled from the sink and the recorder passes outcome validation
      exactly when the execution evidence attached to it conforms to the request and its assumption
      core and termination are coherent; terminals are classified by what the worker proved.
    - Routing: the adapter's compatibility report agrees with the guards of its translator; a
      decision lists exactly the compatible backends, in order; attempts follow that order and a
      fallback follows only an attempt without candidates; a result reported as verified was verified
      by the reviewer and assigns every variable, an optimum is backed by a validated bound; and every
      execution returns.
    - Acceptance: a solve that reports a result has an accepted one, whose assignments are the
      candidate's projections, whose required rules are all satisfied and whose score is the pack's
      own; a reported optimum's proven bound is that score.  Every refusal has the cause it names; an
      honest pack's candidate is accepted; the reviewer never replaces a result by a worse one; what
      the constructors of the verification contracts build validates and is read back; and the reader
      of captured baselines admits exactly the texts within its limit.
    - Commands: the leaves, changes and inverse bytes charged while a command is applied are exactly
      those of the command and of what it returns, so the limits hold of the output however it was
      nested; the inverse of a command restores the document, with the command as its own inverse,
      or is too large and refused as such, or has no revision left; the effective command of a reconciliation, applied as an
      ordinary command, gives exactly what was prepared.
    - Contracts: reading portable JSON and checking the value read are one policy; the identities of a
      document are unique exactly when they are admitted; the values a contract admits are exactly
      those that conform to its schema, keyword by keyword; a built registry finds exactly the commands
      of its catalogs.

    ** What is not modelled

    Serialization formats, [Display], [Debug] and error text are left out, as are the asynchronous
    frame writers, which repeat the blocking ones.  A backend's calls are made in their order and its
    future completes after them: what a routed execution can do when a backend is cancelled between
    two calls is what it does for the shorter list of calls.  Reading documents and commands from JSON is
    [serde]'s; the synthetic test pack of [eutheto-command] is a pack like any other, a parameter.
    The diagnostic review of the gate, the interpretation of counterfactual runs, the comparison and infeasibility
    records of the domain IR, and the workforce pack, which compiles shifts to the IR, build on the parts
    modelled here and are left for an extension.  The worker process, storage, import, export,
    rendering, the command line and the desktop application are input and output and stay outside. *)
From stdpp Require Import base tactics list gmap strings pretty.
From Stdlib Require Import ZArith Lia.
#[global] Unset Universe Polymorphism.
Open Scope Z_scope.

(** ** Hint databases of the development *)
Create HintDb erasure discriminated.
Create HintDb accounting discriminated.

(** ** Results: Rust's [Result<A, E>] *)

Inductive Result (E A : Type) : Type :=
| Ok (a : A)
| Err (e : E).
Arguments Ok {E A} a.
Arguments Err {E A} e.

#[global] Instance Result_ret E : MRet (Result E) := λ A a, Ok a.
#[global] Instance Result_bind E : MBind (Result E) :=
  λ A B k m, match m with Ok a => k a | Err e => Err e end.
#[global] Instance Result_eq_dec E A `{EqDecision E, EqDecision A} : EqDecision (Result E A).
Proof. solve_decision. Defined.

(** [Result::map_err] *)
Definition map_err {E F A} (f : E → F) (m : Result E A) : Result F A :=
  match m with Ok a => Ok a | Err e => Err (f e) end.

(** [Option::ok_or] *)
Definition ok_or {E A} (e : E) (o : option A) : Result E A :=
  match o with Some a => Ok a | None => Err e end.

Definition is_ok {E A} (m : Result E A) : bool :=
  match m with Ok _ => true | Err _ => false end.

(** ** State and error: a computation over a [&mut S] that may return early with [?].
    The state reached before an early return is kept, as it is in Rust. *)
Definition SE (S E A : Type) : Type := S → Result E A * S.

#[global] Instance SE_ret S E : MRet (SE S E) := λ A a s, (Ok a, s).
#[global] Instance SE_bind S E : MBind (SE S E) :=
  λ A B k m s, match m s with
               | (Ok a, s') => k a s'
               | (Err e, s') => (Err e, s')
               end.

Definition se_lift {S E A} (r : Result E A) : SE S E A := λ s, (r, s).
Definition se_state {S E A} (f : S → Result E A * S) : SE S E A := f.
Definition se_fail {S E A} (e : E) : SE S E A := λ s, (Err e, s).

(** ** Loops. Each body may return early through the monad. *)
Section loops.
Context {M : Type → Type} `{MRet M, MBind M}.

Fixpoint for_each {A} (f : A → M unit) (l : list A) : M unit :=
  match l with
  | [] => mret tt
  | x :: l => f x ≫= λ _, for_each f l
  end.

Fixpoint for_each_from {A} (i : nat) (f : nat → A → M unit) (l : list A) : M unit :=
  match l with
  | [] => mret tt
  | x :: l => f i x ≫= λ _, for_each_from (S i) f l
  end.

Fixpoint fold_m {A B} (f : B → A → M B) (b : B) (l : list A) : M B :=
  match l with
  | [] => mret b
  | x :: l => f b x ≫= λ b', fold_m f b' l
  end.

Fixpoint fold_m_from {A B} (i : nat) (f : nat → B → A → M B) (b : B) (l : list A) : M B :=
  match l with
  | [] => mret b
  | x :: l => f i b x ≫= λ b', fold_m_from (S i) f b' l
  end.
End loops.
Definition enumerate_each {M} `{MRet M, MBind M} {A} (f : nat → A → M unit) (l : list A) : M unit :=
  for_each_from 0 f l.

(** [slice::windows(2)] *)
Definition windows2 {A} (l : list A) : list (A * A) := zip l (tail l).

(** ** Machine integers: every integer keeps its width by checked or saturating operations. *)
Definition i64_min : Z := - 2 ^ 63.
Definition i64_max : Z := 2 ^ 63 - 1.
Definition u64_max : Z := 2 ^ 64 - 1.
Definition is_i64 (z : Z) : Prop := i64_min ≤ z ≤ i64_max.
Definition is_u64 (z : Z) : Prop := 0 ≤ z ≤ u64_max.
Definition checked_i64 (z : Z) : option Z :=
  if (i64_min <=? z) && (z <=? i64_max) then Some z else None.
Definition checked_u64 (z : Z) : option Z :=
  if (0 <=? z) && (z <=? u64_max) then Some z else None.
Definition i64_checked_add (a b : Z) : option Z := checked_i64 (a + b).
Definition i64_checked_sub (a b : Z) : option Z := checked_i64 (a - b).
Definition i64_checked_mul (a b : Z) : option Z := checked_i64 (a * b).
Definition i64_checked_abs (a : Z) : option Z := checked_i64 (Z.abs a).
Definition u64_checked_add (a b : Z) : option Z := checked_u64 (a + b).
Definition u64_checked_sub (a b : Z) : option Z := checked_u64 (a - b).
Definition u64_checked_mul (a b : Z) : option Z := checked_u64 (a * b).
Definition u64_saturating_add (a b : Z) : Z := Z.min (a + b) u64_max.
Definition u64_saturating_mul (a b : Z) : Z := Z.min (a * b) u64_max.
(** [i64::unsigned_abs] and [i64::cast_unsigned] *)
Definition unsigned_abs (a : Z) : Z := Z.abs a.
Definition cast_unsigned (a : Z) : Z := a mod 2 ^ 64.
(** [Vec::len] as a [usize], and [u64::try_from] of it *)
Definition len {A} (l : list A) : Z := Z.of_nat (length l).
Definition usize_to_u64 (n : Z) : option Z := checked_u64 n.

(** ** Lemmas *)
Lemma result_bind_Ok {E A B} (m : Result E A) (k : A → Result E B) b :
  m ≫= k = Ok b ↔ ∃ a, m = Ok a ∧ k a = Ok b.
Proof. destruct m; cbn; naive_solver. Qed.
Lemma unit_bind_Ok {E B} (m : Result E unit) (k : unit → Result E B) b :
  mbind k m = Ok b ↔ m = Ok tt ∧ k tt = Ok b.
Proof. rewrite result_bind_Ok. split; [by intros ([] & ? & ?)|intros [? ?]; by exists tt]. Qed.
Lemma guard_Ok {E B} (g : bool) (e : E) (k : Result E B) b : (if g then Err e else k) = Ok b ↔ g = false ∧ k = Ok b.
Proof. destruct g; naive_solver. Qed.

Lemma se_bind_Ok {S E A B} (m : SE S E A) (k : A → SE S E B) s b s' :
  (m ≫= k) s = (Ok b, s') ↔ ∃ a s1, m s = (Ok a, s1) ∧ k a s1 = (Ok b, s').
Proof.
  unfold mbind, SE_bind. destruct (m s) as [[a|e] s1]; naive_solver.
Qed.

Lemma se_lift_Ok {S E A} (r : Result E A) (s : S) a s' :
  se_lift r s = (Ok a, s') ↔ r = Ok a ∧ s' = s.
Proof. unfold se_lift. naive_solver. Qed.

Lemma se_ret_Ok {S E A} (a b : A) (s s' : S) :
  (mret a : SE S E A) s = (Ok b, s') ↔ b = a ∧ s' = s.
Proof. unfold mret, SE_ret. naive_solver. Qed.

Lemma se_fail_Ok {S E A} (e : E) (s : S) (a : A) s' :
  se_fail e s = (Ok a, s') ↔ False.
Proof. unfold se_fail. naive_solver. Qed.

Lemma ok_or_Ok {E A} (e : E) (o : option A) a : ok_or e o = Ok a ↔ o = Some a.
Proof. destruct o; cbn; naive_solver. Qed.

Lemma map_err_Ok {E F A} (f : E → F) (m : Result E A) a : map_err f m = Ok a ↔ m = Ok a.
Proof. destruct m; cbn; naive_solver. Qed.

Lemma checked_i64_Some z v : checked_i64 z = Some v ↔ v = z ∧ is_i64 z.
Proof. unfold checked_i64, is_i64. destruct (_ && _) eqn:E; split; intros; naive_solver lia. Qed.
Lemma checked_i64_None z : checked_i64 z = None ↔ ¬ is_i64 z.
Proof. unfold checked_i64, is_i64. destruct (_ && _) eqn:E; split; intros; naive_solver lia. Qed.
Lemma checked_u64_Some z v : checked_u64 z = Some v ↔ v = z ∧ is_u64 z.
Proof. unfold checked_u64, is_u64. destruct (_ && _) eqn:E; split; intros; naive_solver lia. Qed.
Lemma checked_u64_None z : checked_u64 z = None ↔ ¬ is_u64 z.
Proof. unfold checked_u64, is_u64. destruct (_ && _) eqn:E; split; intros; naive_solver lia. Qed.

(** ** Lists *)
Lemma Forall_fmap_id {A} (f : A → A) l : Forall (λ x, f x = x) l → f <$> l = l.
Proof. induction 1 as [|x l Hx _ IH]; cbn; [done|]. by rewrite Hx, IH. Qed.

(** ** Loops that succeed *)
Lemma se_fold_m_cons {S E A B} (f : B → A → SE S E B) b x l s :
  fold_m f b (x :: l) s =
  match f b x s with (Ok b', s') => fold_m f b' l s' | (Err e, s') => (Err e, s') end.
Proof. cbn. unfold mbind, SE_bind. by destruct (f b x s) as [[]]. Qed.
Lemma for_each_Ok {E A} (f : A → Result E unit) l :
  for_each f l = Ok tt ↔ Forall (λ x, f x = Ok tt) l.
Proof.
  induction l as [|x l IH]; cbn; [split; [constructor|done]|].
  rewrite result_bind_Ok, Forall_cons, <-IH. split; [intros ([] & ? & ?)|intros [??]; exists tt]; done.
Qed.

Lemma se_for_each_Ok {S E A} (f : A → SE S E unit) (P : A → Prop) :
  (∀ x s s', f x s = (Ok tt, s') → P x) →
  ∀ l s s', for_each f l s = (Ok tt, s') → Forall P l.
Proof.
  intros Hf. induction l as [|x l IH]; intros s s'; cbn; [constructor|].
  rewrite se_bind_Ok. intros ([] & s1 & Hx & Hl). constructor; eauto.
Qed.

Lemma se_for_each_from_Ok {S E A} (f : nat → A → SE S E unit) (P : A → Prop) :
  (∀ i x s s', f i x s = (Ok tt, s') → P x) →
  ∀ l i s s', for_each_from i f l s = (Ok tt, s') → Forall P l.
Proof.
  intros Hf. induction l as [|x l IH]; intros i s s'; cbn; [constructor|].
  rewrite se_bind_Ok. intros ([] & s1 & Hx & Hl). constructor; eauto.
Qed.

(** A loop that succeeds preserves any invariant its body preserves. *)
Lemma result_fold_m_inv {E A B} (f : B → A → Result E B) (I : list A → B → Prop) :
  (∀ b x b' done_, I done_ b → f b x = Ok b' → I (done_ ++ [x]) b') →
  ∀ l b b' done_, I done_ b → fold_m f b l = Ok b' → I (done_ ++ l) b'.
Proof.
  intros Hf. induction l as [|x l IH]; intros b b' done_ Hb; cbn.
  - intros [= <-]. by rewrite app_nil_r.
  - rewrite result_bind_Ok. intros (b1 & Hx & Hl). rewrite cons_middle, app_assoc. eauto.
Qed.
Lemma se_fold_m_inv {S E A B} (f : B → A → SE S E B) (I : list A → B → Prop) :
  (∀ b x s b' s' done_, I done_ b → f b x s = (Ok b', s') → I (done_ ++ [x]) b') →
  ∀ l b s b' s' done_, I done_ b → fold_m f b l s = (Ok b', s') → I (done_ ++ l) b'.
Proof.
  intros Hf. induction l as [|x l IH]; intros b s b' s' done_ Hb; cbn.
  - rewrite se_ret_Ok. intros [-> ->]. by rewrite app_nil_r.
  - rewrite se_bind_Ok. intros (b1 & s1 & Hx & Hl).
    rewrite cons_middle, app_assoc. eauto.
Qed.

Lemma se_fold_m_from_inv {S E A B} (f : nat → B → A → SE S E B) (I : list A → B → Prop) :
  (∀ i b x s b' s' done_, I done_ b → f i b x s = (Ok b', s') → I (done_ ++ [x]) b') →
  ∀ l i b s b' s' done_, I done_ b → fold_m_from i f b l s = (Ok b', s') → I (done_ ++ l) b'.
Proof.
  intros Hf. induction l as [|x l IH]; intros i b s b' s' done_ Hb; cbn.
  - rewrite se_ret_Ok. intros [-> ->]. by rewrite app_nil_r.
  - rewrite se_bind_Ok. intros (b1 & s1 & Hx & Hl).
    rewrite cons_middle, app_assoc. eauto.
Qed.

(** ** Triples for computations over a state that may stop early *)
(** [triple P m Q R]: from a state in [P], [m] either returns a value and a state in [Q] or stops with
    an error and a state in [R]. *)
Definition triple {S E A} (P : S → Prop) (m : SE S E A) (Q : A → S → Prop) (R : E → S → Prop) : Prop :=
  ∀ s, P s → match m s with (Ok a, s') => Q a s' | (Err e, s') => R e s' end.
Section rules.
Context {S E : Type}.
Implicit Types (R : E → S → Prop).
Lemma triple_ret {A} (a : A) (P : S → Prop) (Q : A → S → Prop) R : (∀ s, P s → Q a s) → triple P (mret a) Q R.
Proof. intros H s Hs. by apply H. Qed.
Lemma triple_fail {A} (e : E) (P : S → Prop) (Q : A → S → Prop) R : (∀ s, P s → R e s) → triple P (se_fail e) Q R.
Proof. intros H s Hs. by apply H. Qed.
Lemma triple_bind {A B} (m : SE S E A) (k : A → SE S E B) P (M : A → S → Prop) Q R :
  triple P m M R → (∀ a, triple (M a) (k a) Q R) → triple P (m ≫= k) Q R.
Proof.
  intros Hm Hk s Hs. specialize (Hm s Hs). unfold mbind, SE_bind. destruct (m s) as [[a|e] s']; [by apply Hk|done].
Qed.
Lemma triple_conseq {A} (m : SE S E A) (P P' : S → Prop) (Q Q' : A → S → Prop) R R' :
  triple P m Q R → (∀ s, P' s → P s) → (∀ a s, Q a s → Q' a s) → (∀ e s, R e s → R' e s) → triple P' m Q' R'.
Proof.
  intros H HP HQ HR s Hs. specialize (H s (HP s Hs)). destruct (m s) as [[a|e] s']; auto.
Qed.
(** The state is fixed for the rest of the computation. *)
Lemma triple_fix {A} (m : SE S E A) (P : S → Prop) Q R :
  (∀ s0, P s0 → triple (λ s, s = s0) m Q R) → triple P m Q R.
Proof. intros H s Hs. by apply (H s Hs). Qed.
Lemma triple_pure {A} (m : SE S E A) (P : S → Prop) (φ : Prop) Q R :
  (φ → triple P m Q R) → triple (λ s, φ ∧ P s) m Q R.
Proof. intros H s [Hφ Hs]. by apply H. Qed.
Lemma triple_fold_m {A B} (f : B → A → SE S E B) (I : list A → B → S → Prop) R l :
  (∀ done_ b a, triple (I done_ b) (f b a) (I (done_ ++ [a])) R) →
  ∀ b, triple (I [] b) (fold_m f b l) (I l) R.
Proof.
  intros Hf. assert (∀ done_ b, triple (I done_ b) (fold_m f b l) (I (done_ ++ l)) R) as H; [|by intros b; apply (H [])].
  induction l as [|a l IH]; intros done_ b; cbn [fold_m].
  - apply triple_ret. by rewrite app_nil_r.
  - eapply triple_bind; [apply Hf|]. intros b'.
    replace (done_ ++ a :: l) with ((done_ ++ [a]) ++ l) by (by rewrite <-app_assoc). apply IH.
Qed.
End rules.
(** The function at the head of an application. *)
Ltac head_of m := lazymatch m with ?f _ => head_of f | _ => m end.
