(* ===== verification/Ordering.v ===== *)
(** * Total orders, stable sorting, deduplication and binary search

    The code orders identifiers with Rust's [Ord], sorts with the stable [slice::sort] /
    [sort_by], removes consecutive duplicates with [Vec::dedup], keeps [BTreeSet]s whose
    iteration order is the key order, and looks records up with [binary_search].  This file holds
    the [Ord] trait as a typeclass with its laws, the instances the data model uses, and the
    facts about sorting shared by the components. *)
From stdpp Require Import base tactics list gmap strings.
From Stdlib Require Import ZArith Lia Ascii Sorted.
From S2P Require Import Prelude.
Open Scope Z_scope.

(** ** The [Ord] trait *)
Class Ord (A : Type) := cmp : A → A → comparison.
Class OrdLaws (A : Type) `{Ord A} := {
  cmp_eq_iff : ∀ x y : A, cmp x y = Eq ↔ x = y;
  cmp_opp : ∀ x y : A, cmp y x = CompOpp (cmp x y);
  cmp_lt_trans : ∀ x y z : A, cmp x y = Lt → cmp y z = Lt → cmp x z = Lt
}.

Definition ltb {A} `{Ord A} (x y : A) : bool := match cmp x y with Lt => true | _ => false end.
Definition leb {A} `{Ord A} (x y : A) : bool := match cmp x y with Gt => false | _ => true end.
Definition lt {A} `{Ord A} (x y : A) : Prop := cmp x y = Lt.
Definition le {A} `{Ord A} (x y : A) : Prop := cmp x y ≠ Gt.

Declare Scope ord_scope.
Delimit Scope ord_scope with ord.
Infix "≺" := lt (at level 70) : ord_scope.
Infix "≼" := le (at level 70) : ord_scope.
Open Scope ord_scope.

#[global] Instance lt_dec {A} `{Ord A} (x y : A) : Decision (x ≺ y).
Proof. unfold lt. solve_decision. Defined.
#[global] Instance le_dec {A} `{Ord A} (x y : A) : Decision (x ≼ y).
Proof. unfold le. solve_decision. Defined.

(** ** Instances *)
#[global] Instance Z_ord : Ord Z := Z.compare.
#[global] Instance nat_ord : Ord nat := Nat.compare.
#[global] Instance N_ord : Ord N := N.compare.
#[global] Instance bool_ord : Ord bool := λ x y,
  match x, y with false, true => Lt | true, false => Gt | _, _ => Eq end.

Fixpoint list_cmp {A} `{Ord A} (l k : list A) : comparison :=
  match l, k with
  | [], [] => Eq
  | [], _ :: _ => Lt
  | _ :: _, [] => Gt
  | x :: l, y :: k => match cmp x y with Eq => list_cmp l k | c => c end
  end.
#[global] Instance list_ord {A} `{Ord A} : Ord (list A) := list_cmp.
#[global] Instance prod_ord {A B} `{Ord A, Ord B} : Ord (A * B) := λ p q,
  match cmp p.1 q.1 with Eq => cmp p.2 q.2 | c => c end.
(** A derived order: field by field, through an injective view of the type. *)
Definition ord_on {A B} `{Ord B} (f : A → B) : Ord A := λ x y, cmp (f x) (f y).

(** [str] compares as its bytes do. *)
Definition string_bytes (s : string) : list N := N_of_ascii <$> String.list_ascii_of_string s.
#[global] Instance string_ord : Ord string := ord_on string_bytes.

(** ** Stable sort by a key, deduplication, strictly sorted slices *)
Section sorting.
Context {A K : Type} `{Ord K}.

Fixpoint insert_by_key (key : A → K) (x : A) (l : list A) : list A :=
  match l with
  | [] => [x]
  | y :: l' => if leb (key x) (key y) then x :: l else y :: insert_by_key key x l'
  end.

Fixpoint sort_by_key (key : A → K) (l : list A) : list A :=
  match l with
  | [] => []
  | x :: l => insert_by_key key x (sort_by_key key l)
  end.

(** [windows(2).all(|p| key(p[0]) < key(p[1]))] *)
Fixpoint strictly_sorted_by (key : A → K) (l : list A) : bool :=
  match l with
  | x :: (y :: _) as l' => ltb (key x) (key y) && strictly_sorted_by key l'
  | _ => true
  end.
End sorting.
Definition ord_sort {A} `{Ord A} (l : list A) : list A := sort_by_key (λ x, x) l.
Definition strictly_sorted {A} `{Ord A} (l : list A) : bool := strictly_sorted_by (λ x, x) l.

(** [Vec::dedup] *)
Fixpoint dedup {A} `{EqDecision A} (l : list A) : list A :=
  match l with
  | x :: (y :: _) as l' => if decide (x = y) then dedup l' else x :: dedup l'
  | _ => l
  end.

(** Collecting into a [BTreeSet] and iterating over it. *)
Definition btree_set {A} `{Ord A, EqDecision A} (l : list A) : list A := dedup (ord_sort l).

(** [slice::binary_search_by]: on a slice strictly sorted by the key it finds the position of the
    key, and reports its absence otherwise; the standard library leaves every other slice
    unspecified, and the code searches slices it has checked to be strictly sorted. *)
Fixpoint binary_search_by_key {A K} `{Ord K} (key : A → K) (k : K) (l : list A) : option nat :=
  match l with
  | [] => None
  | x :: l => match cmp (key x) k with
              | Eq => Some O
              | _ => S <$> binary_search_by_key key k l
              end
  end.

(** ** Laws of the instances *)
#[global] Instance Z_ord_laws : OrdLaws Z.
Proof.
  split; unfold cmp, Z_ord.
  - apply Z.compare_eq_iff.
  - intros. apply Z.compare_antisym.
  - intros x y z. rewrite !Z.compare_lt_iff. lia.
Qed.
#[global] Instance nat_ord_laws : OrdLaws nat.
Proof.
  split; unfold cmp, nat_ord.
  - apply Nat.compare_eq_iff.
  - intros. apply Nat.compare_antisym.
  - intros x y z. rewrite !Nat.compare_lt_iff. lia.
Qed.
#[global] Instance N_ord_laws : OrdLaws N.
Proof.
  split; unfold cmp, N_ord.
  - apply N.compare_eq_iff.
  - intros. apply N.compare_antisym.
  - intros x y z. rewrite !N.compare_lt_iff. lia.
Qed.
#[global] Instance bool_ord_laws : OrdLaws bool.
Proof. split; [intros [] []|intros [] []|intros [] [] []]; cbn; done. Qed.

Section laws.
Context {A : Type} `{OrdLaws A}.

Lemma cmp_refl (x : A) : cmp x x = Eq.
Proof. by apply cmp_eq_iff. Qed.
Lemma lt_irrefl (x : A) : ¬ x ≺ x.
Proof. unfold lt. by rewrite cmp_refl. Qed.
Lemma lt_trans (x y z : A) : x ≺ y → y ≺ z → x ≺ z.
Proof. apply cmp_lt_trans. Qed.
Lemma lt_ne (x y : A) : x ≺ y → x ≠ y.
Proof. intros Hlt ->. by apply lt_irrefl in Hlt. Qed.
Lemma cmp_gt_lt (x y : A) : cmp x y = Gt ↔ y ≺ x.
Proof. unfold lt. rewrite (cmp_opp x y). destruct (cmp x y); naive_solver. Qed.
Lemma le_lt_eq (x y : A) : x ≼ y ↔ x ≺ y ∨ x = y.
Proof.
  unfold le, lt. rewrite <-(cmp_eq_iff x y). destruct (cmp x y); naive_solver.
Qed.
Lemma lt_le (x y : A) : x ≺ y → x ≼ y.
Proof. rewrite le_lt_eq. auto. Qed.
Lemma le_refl (x : A) : x ≼ x.
Proof. rewrite le_lt_eq. auto. Qed.
Lemma le_trans (x y z : A) : x ≼ y → y ≼ z → x ≼ z.
Proof. rewrite !le_lt_eq. naive_solver eauto using lt_trans. Qed.
Lemma lt_le_trans (x y z : A) : x ≺ y → y ≼ z → x ≺ z.
Proof. rewrite !le_lt_eq. naive_solver eauto using lt_trans. Qed.
Lemma le_lt_trans (x y z : A) : x ≼ y → y ≺ z → x ≺ z.
Proof. rewrite !le_lt_eq. naive_solver eauto using lt_trans. Qed.
Lemma le_antisymm (x y : A) : x ≼ y → y ≼ x → x = y.
Proof.
  rewrite !le_lt_eq. intros [?| ->] [?|?]; auto. destruct (lt_irrefl x). by eapply lt_trans.
Qed.
Lemma not_le_lt (x y : A) : ¬ x ≼ y ↔ y ≺ x.
Proof.
  unfold le. rewrite <-cmp_gt_lt. destruct (cmp x y); naive_solver.
Qed.
Lemma le_total (x y : A) : x ≼ y ∨ y ≼ x.
Proof. destruct (decide (x ≼ y)) as [|Hn]; [by left|]. right. by apply lt_le, not_le_lt. Qed.
Lemma ltb_lt (x y : A) : ltb x y = true ↔ x ≺ y.
Proof. unfold ltb, lt. destruct (cmp x y); naive_solver. Qed.
Lemma leb_le (x y : A) : leb x y = true ↔ x ≼ y.
Proof. unfold leb, le. destruct (cmp x y); naive_solver. Qed.
Lemma leb_false (x y : A) : leb x y = false ↔ y ≺ x.
Proof. rewrite <-not_le_lt, <-leb_le. destruct (leb x y); naive_solver. Qed.
End laws.

#[global] Instance list_ord_laws {A} `{OrdLaws A} : OrdLaws (list A).
Proof.
  split; unfold cmp, list_ord.
  - intros x; induction x as [|a x IH]; intros [|b y]; cbn; try naive_solver.
    destruct (cmp a b) eqn:E; [rewrite cmp_eq_iff in E; subst; rewrite IH; naive_solver| |];
      split; try done; intros [= -> ->]; by rewrite cmp_refl in E.
  - intros x; induction x as [|a x IH]; intros [|b y]; cbn; try done.
    rewrite (cmp_opp a b). destruct (cmp a b); cbn; auto.
  - intros x; induction x as [|a x IH]; intros [|b y] [|c z]; cbn; try done.
    destruct (cmp a b) eqn:E1, (cmp b c) eqn:E2; try done; intros H1 H2.
    + rewrite cmp_eq_iff in E1, E2; subst. rewrite cmp_refl. eauto.
    + rewrite cmp_eq_iff in E1; subst. by rewrite E2.
    + rewrite cmp_eq_iff in E2; subst. by rewrite E1.
    + by rewrite (cmp_lt_trans _ _ _ E1 E2).
Qed.
#[global] Instance prod_ord_laws {A B} `{OrdLaws A, OrdLaws B} : OrdLaws (A * B).
Proof.
  split; unfold cmp, prod_ord.
  - intros [a b] [c d]; cbn. destruct (cmp a c) eqn:E.
    + rewrite cmp_eq_iff in E; subst. rewrite cmp_eq_iff. naive_solver.
    + split; [done|]. intros [= -> ->]. by rewrite cmp_refl in E.
    + split; [done|]. intros [= -> ->]. by rewrite cmp_refl in E.
  - intros [a b] [c d]; cbn. rewrite (cmp_opp a c). destruct (cmp a c); cbn; auto. apply cmp_opp.
  - intros [a b] [c d] [e f]; cbn.
    destruct (cmp a c) eqn:E1, (cmp c e) eqn:E2; try done; intros H1' H2'.
    + rewrite cmp_eq_iff in E1, E2; subst. rewrite cmp_refl. by eapply cmp_lt_trans.
    + rewrite cmp_eq_iff in E1; subst. by rewrite E2.
    + rewrite cmp_eq_iff in E2; subst. by rewrite E1.
    + by rewrite (cmp_lt_trans _ _ _ E1 E2).
Qed.

Lemma ord_on_laws {A B} `{OrdLaws B} (f : A → B) :
  Inj (=) (=) f → @OrdLaws A (ord_on f).
Proof.
  intros Hf. split; unfold cmp, ord_on.
  - intros x y. rewrite cmp_eq_iff. split; [apply Hf|by intros ->].
  - intros. apply cmp_opp.
  - intros x y z. apply cmp_lt_trans.
Qed.

#[global] Instance string_bytes_inj : Inj (=) (=) string_bytes.
Proof.
  intros s t Hst. unfold string_bytes in Hst.
  assert (Inj (=) (=) N_of_ascii).
  { intros a b Hab. by rewrite <-(ascii_N_embedding a), <-(ascii_N_embedding b), Hab. }
  apply (inj (fmap N_of_ascii)) in Hst.
  rewrite <-(String.string_of_list_ascii_of_string s), <-(String.string_of_list_ascii_of_string t).
  by rewrite Hst.
Qed.
#[global] Instance string_ord_laws : OrdLaws string := ord_on_laws string_bytes _.

(** ** Sorting facts *)
Section sorting_facts.
Context {A K : Type} `{OrdLaws K} (key : A → K).
Implicit Types l : list A.

Lemma insert_by_key_perm x l : insert_by_key key x l ≡ₚ x :: l.
Proof.
  induction l as [|y l IH]; cbn; [done|]. destruct (leb _ _); [done|].
  rewrite IH. by rewrite Permutation_swap.
Qed.

Lemma sort_by_key_perm l : sort_by_key key l ≡ₚ l.
Proof. induction l as [|x l IH]; cbn; [done|]. by rewrite insert_by_key_perm, IH. Qed.

Lemma insert_by_key_sorted x l :
  StronglySorted (λ x y, key x ≼ key y) l →
  StronglySorted (λ x y, key x ≼ key y) (insert_by_key key x l).
Proof.
  induction 1 as [|y l Hs IH Hall]; cbn; [by repeat constructor|].
  destruct (leb (key x) (key y)) eqn:E.
  - rewrite leb_le in E. constructor; [by constructor|]. constructor; [done|].
    eapply Forall_impl; [done|]. eauto using le_trans.
  - rewrite leb_false in E. constructor; [done|]. rewrite insert_by_key_perm.
    constructor; [by apply lt_le|done].
Qed.

Lemma sort_by_key_sorted l : StronglySorted (λ x y, key x ≼ key y) (sort_by_key key l).
Proof. induction l; cbn; [constructor|]. by apply insert_by_key_sorted. Qed.

Lemma strictly_sorted_by_cons x l :
  strictly_sorted_by key (x :: l) = true ↔
  Forall (λ y, key x ≺ key y) l ∧ strictly_sorted_by key l = true.
Proof.
  revert x. induction l as [|y l IH]; intros x.
  { cbn. split; [by repeat constructor|done]. }
  change (strictly_sorted_by key (x :: y :: l))
    with (ltb (key x) (key y) && strictly_sorted_by key (y :: l)).
  rewrite andb_true_iff, ltb_lt. split.
  - intros [Hxy Hs]. split; [|done]. constructor; [done|].
    apply IH in Hs as [Hall _]. eapply Forall_impl; [done|]. eauto using lt_trans.
  - intros [Hall Hs]. by apply Forall_cons_1 in Hall as [? _].
Qed.

Lemma strictly_sorted_by_spec l :
  strictly_sorted_by key l = true ↔ StronglySorted (λ x y, key x ≺ key y) l.
Proof.
  induction l as [|x l IH]; [split; [constructor|done]|].
  rewrite strictly_sorted_by_cons, IH. split.
  - intros [??]. by constructor.
  - inversion 1; subst. done.
Qed.

Lemma sort_by_key_id l : strictly_sorted_by key l = true → sort_by_key key l = l.
Proof.
  induction l as [|x l IH]; [done|]. rewrite strictly_sorted_by_cons. intros [Hall Hs].
  cbn. rewrite IH by done. destruct l as [|y l]; [done|]. cbn.
  apply Forall_cons_1 in Hall as [Hxy _]. apply lt_le, leb_le in Hxy. by rewrite Hxy.
Qed.

Lemma strictly_sorted_by_NoDup l : strictly_sorted_by key l = true → NoDup (key <$> l).
Proof.
  induction l as [|x l IH]; [constructor|]. rewrite strictly_sorted_by_cons. intros [Hall Hs].
  cbn. constructor; [|auto]. rewrite list_elem_of_fmap. intros (y & Heq & Hy).
  rewrite Forall_forall in Hall. specialize (Hall y Hy). rewrite Heq in Hall.
  by apply lt_irrefl in Hall.
Qed.

Lemma strictly_sorted_by_lt l i j x y :
  strictly_sorted_by key l = true → l !! i = Some x → l !! j = Some y → (i < j)%nat → key x ≺ key y.
Proof.
  revert i j. induction l as [|z l IH]; intros i j; [done|].
  rewrite strictly_sorted_by_cons. intros [Hall Hs] Hi Hj Hij.
  destruct i as [|i], j as [|j]; cbn in *; try lia; simplify_eq.
  - rewrite Forall_forall in Hall. apply Hall. by eapply list_elem_of_lookup_2.
  - eapply (IH i j); eauto with lia.
Qed.

Lemma strictly_sorted_by_inj l i j x y :
  strictly_sorted_by key l = true → l !! i = Some x → l !! j = Some y → key x = key y → i = j.
Proof.
  intros Hs Hi Hj Heq. destruct (Nat.lt_trichotomy i j) as [Hlt|[?|Hlt]]; [|done|].
  - eapply strictly_sorted_by_lt in Hlt; eauto. rewrite Heq in Hlt. by apply lt_irrefl in Hlt.
  - eapply strictly_sorted_by_lt in Hlt; eauto. rewrite Heq in Hlt. by apply lt_irrefl in Hlt.
Qed.

Lemma binary_search_Some k l i :
  binary_search_by_key key k l = Some i → ∃ x, l !! i = Some x ∧ key x = k.
Proof.
  revert i. induction l as [|x l IH]; intros i; [done|]. cbn.
  destruct (cmp (key x) k) eqn:E.
  { intros [= <-]. rewrite cmp_eq_iff in E. eauto. }
  all: intros (j & Hj & ->)%fmap_Some; cbn; eauto.
Qed.

Lemma binary_search_None k l :
  binary_search_by_key key k l = None ↔ ∀ x, x ∈ l → key x ≠ k.
Proof.
  induction l as [|x l IH]; cbn; [split; [intros _ x []%not_elem_of_nil|done]|].
  destruct (cmp (key x) k) eqn:E.
  { rewrite cmp_eq_iff in E. split; [done|]. intros Hall. by destruct (Hall x (list_elem_of_here _ _)). }
  all: assert (key x ≠ k) by (intros <-; by rewrite cmp_refl in E);
    rewrite fmap_None, IH; setoid_rewrite elem_of_cons; naive_solver.
Qed.

Lemma binary_search_lookup l i x :
  strictly_sorted_by key l = true → l !! i = Some x → binary_search_by_key key (key x) l = Some i.
Proof.
  intros Hs Hi. destruct (binary_search_by_key key (key x) l) as [j|] eqn:E.
  - apply binary_search_Some in E as (y & Hj & Heq). f_equal.
    by eapply strictly_sorted_by_inj.
  - rewrite binary_search_None in E. destruct (E x); [by eapply list_elem_of_lookup_2|done].
Qed.
End sorting_facts.

Section set_facts.
Context {A : Type} `{OrdLaws A, EqDecision A}.
Implicit Types l : list A.

Lemma elem_of_dedup x l : x ∈ dedup l ↔ x ∈ l.
Proof.
  induction l as [|y l IH]; [done|]. destruct l as [|z l]; [done|].
  change (dedup (y :: z :: l)) with (if decide (y = z) then dedup (z :: l) else y :: dedup (z :: l)).
  case_decide; subst.
  - rewrite IH, !elem_of_cons. tauto.
  - rewrite elem_of_cons, IH, (elem_of_cons (z :: l)). done.
Qed.

Lemma dedup_id l : strictly_sorted l = true → dedup l = l.
Proof.
  unfold strictly_sorted.
  induction l as [|x l IH]; [done|]. rewrite strictly_sorted_by_cons. intros [Hall Hs].
  destruct l as [|y l]; [done|].
  change (dedup (x :: y :: l)) with (if decide (x = y) then dedup (y :: l) else x :: dedup (y :: l)).
  apply Forall_cons_1 in Hall as [Hxy _]. case_decide; [subst; by apply lt_irrefl in Hxy|].
  by rewrite IH.
Qed.

Lemma dedup_sorted l : StronglySorted le l → strictly_sorted (dedup l) = true.
Proof.
  unfold strictly_sorted. induction 1 as [|x l Hs IH Hall]; [done|].
  destruct l as [|y l]; [done|].
  change (dedup (x :: y :: l)) with (if decide (x = y) then dedup (y :: l) else x :: dedup (y :: l)).
  case_decide as Hne; [done|]. rewrite strictly_sorted_by_cons. split; [|done].
  rewrite Forall_forall. intros z Hz. rewrite elem_of_dedup in Hz.
  pose proof (Forall_cons_1 _ _ _ Hall) as [Hxy _].
  apply le_lt_eq in Hxy as [Hxy|]; [|done].
  apply elem_of_cons in Hz as [->|Hz]; [done|].
  apply StronglySorted_inv in Hs as [_ Hy]. rewrite Forall_forall in Hy.
  eapply lt_le_trans; eauto.
Qed.

Lemma ord_sort_id l : strictly_sorted l = true → ord_sort l = l.
Proof. apply sort_by_key_id. Qed.
Lemma elem_of_ord_sort x l : x ∈ ord_sort l ↔ x ∈ l.
Proof. unfold ord_sort. by rewrite sort_by_key_perm. Qed.
Lemma elem_of_btree_set x l : x ∈ btree_set l ↔ x ∈ l.
Proof. unfold btree_set. by rewrite elem_of_dedup, elem_of_ord_sort. Qed.
Lemma btree_set_sorted l : strictly_sorted (btree_set l) = true.
Proof. apply dedup_sorted, sort_by_key_sorted. Qed.
Lemma btree_set_id l : strictly_sorted l = true → btree_set l = l.
Proof. intros Hs. unfold btree_set. by rewrite ord_sort_id, dedup_id. Qed.

Lemma strictly_sorted_NoDup l : strictly_sorted l = true → NoDup l.
Proof. intros Hs. rewrite <-(list_fmap_id l). by apply strictly_sorted_by_NoDup. Qed.

End set_facts.

(** Two lists strictly sorted by a key with the same elements are the same list. *)
Lemma strictly_sorted_by_ext {A K} `{OrdLaws K} (key : A → K) (l k : list A) :
  strictly_sorted_by key l = true → strictly_sorted_by key k = true →
  (∀ x, x ∈ l ↔ x ∈ k) → l = k.
Proof.
  revert k. induction l as [|x l IH]; intros [|y k] Hl Hk Heq; [done| | |].
  - destruct (not_elem_of_nil y). apply Heq. by left.
  - destruct (not_elem_of_nil x). apply Heq. by left.
  - rewrite strictly_sorted_by_cons in Hl, Hk. destruct Hl as [Hxl Hl], Hk as [Hyk Hk].
    rewrite Forall_forall in Hxl, Hyk.
    assert (x = y) as ->.
    { assert (x ∈ y :: k) as [?|Hx]%elem_of_cons by (apply Heq; by left); [done|].
      assert (y ∈ x :: l) as [?|Hy]%elem_of_cons by (apply Heq; by left); [done|].
      destruct (lt_irrefl (key x)). eapply lt_trans; eauto. }
    f_equal. apply IH; [done..|]. intros z. specialize (Heq z). rewrite !elem_of_cons in Heq.
    split; intros Hz.
    + destruct (proj1 Heq (or_intror Hz)) as [->|]; [|done]. by apply Hxl, lt_irrefl in Hz.
    + destruct (proj2 Heq (or_intror Hz)) as [->|]; [|done]. by apply Hyk, lt_irrefl in Hz.
Qed.
Lemma strictly_sorted_ext {A} `{OrdLaws A} (l k : list A) :
  strictly_sorted l = true → strictly_sorted k = true → (∀ x, x ∈ l ↔ x ∈ k) → l = k.
Proof. apply strictly_sorted_by_ext. Qed.
