(* ===== verification/Control.v ===== *)
(** * Cancellation tokens, monotonic deadlines and operation control

    Models [crates/eutheto-types/src/budget.rs].  Cancellation nodes are shared ([Arc]) and
    mutable, so they live in a store indexed by allocation number, and a token is the number of
    its node.  The clock is a trait object whose readings the environment chooses: a [World] is
    what one observation of the environment returns.  A [Duration] is its number of
    nanoseconds. *)
From stdpp Require Import base tactics list gmap.
From Stdlib Require Import ZArith Lia.
From S2P Require Import Prelude.
Open Scope Z_scope.

(** ** Durations *)
Definition DURATION_MILLIS_MAX_V1 : Z := 9007199254740991.
Inductive DurationMillisError := AboveMaximum | SubMillisecondPrecision.
(** [Duration::MAX] in nanoseconds, and [Duration::checked_add] / [checked_sub]. *)
Definition duration_max : Z := u64_max * 1000000000 + 999999999.
Definition duration_checked_add (a b : Z) : option Z :=
  if a + b <=? duration_max then Some (a + b) else None.
Definition duration_checked_sub (a b : Z) : option Z :=
  if b <=? a then Some (a - b) else None.
Definition as_millis (d : Z) : Z := d / 1000000.

Definition DurationMillis_new (value : Z) : Result DurationMillisError Z :=
  if DURATION_MILLIS_MAX_V1 <? value then Err AboveMaximum else Ok value.
Definition to_duration (millis : Z) : Z := millis * 1000000.
Definition from_duration_floor_saturating (duration : Z) : Z :=
  let bounded := Z.min (as_millis duration) DURATION_MILLIS_MAX_V1 in
  match checked_u64 bounded with Some value => value | None => DURATION_MILLIS_MAX_V1 end.
Definition DurationMillis_try_from (value : Z) : Result DurationMillisError Z :=
  let milliseconds := as_millis value in
  if DURATION_MILLIS_MAX_V1 <? milliseconds then Err AboveMaximum
  else if negb (value mod 1000000 =? 0) then Err SubMillisecondPrecision
  else match checked_u64 milliseconds with
       | Some milliseconds => DurationMillis_new milliseconds
       | None => Err AboveMaximum
       end.

(** ** Cancellation tokens *)
Record CancellationNode := { node_cancelled : bool; node_parent : option nat }.
(** Every node ever allocated; the token of the [i]-th allocated node is [i]. *)
Notation TokenStore := (list CancellationNode).
Definition CancellationToken_new (store : TokenStore) : nat * TokenStore :=
  (length store, store ++ [{| node_cancelled := false; node_parent := None |}]).
Definition CancellationToken_child (token : nat) (store : TokenStore) : nat * TokenStore :=
  (length store, store ++ [{| node_cancelled := false; node_parent := Some token |}]).
Definition CancellationToken_cancel (token : nat) (store : TokenStore) : TokenStore :=
  alter (λ node, {| node_cancelled := true; node_parent := node_parent node |}) token store.
Fixpoint is_cancelled_loop (fuel : nat) (store : TokenStore) (node : option nat) : bool :=
  match fuel, node with
  | S fuel, Some current =>
      match store !! current with
      | Some n => if node_cancelled n then true else is_cancelled_loop fuel store (node_parent n)
      | None => false
      end
  | _, _ => false
  end.
(** The walk visits each ancestor once, and a node is allocated after its parent: the number of
    nodes bounds the walk. *)
Definition is_cancelled (store : TokenStore) (token : nat) : bool :=
  is_cancelled_loop (length store) store (Some token).

(** ** Clocks and solve budgets *)
Inductive FixedMonotonicClockError := WouldMoveBackwards | ClockOverflow.
Definition FixedMonotonicClock_set (now current : Z) : Result FixedMonotonicClockError unit * Z :=
  if now <? current then (Err WouldMoveBackwards, current) else (Ok tt, now).
Definition FixedMonotonicClock_advance (elapsed current : Z) :
    Result FixedMonotonicClockError unit * Z :=
  match duration_checked_add current elapsed with
  | None => (Err ClockOverflow, current)
  | Some next => (Ok tt, next)
  end.

(** What one observation of the environment returns: a clock reading and the cancellation flags. *)
Record World := { now : Z; tokens : TokenStore }.

Inductive ParentSolveBudgetError := DeadlineOverflow.
Record SolveBudgetState := { started_at : Z; deadline : Z; cancellation : nat }.
Record RemainingSolveBudget :=
  { remaining_milliseconds : Z; expired : bool; cancelled : bool }.

Definition remaining_duration_until (w : World) (deadline : Z) : Z * bool :=
  if deadline <=? now w then (0, true)
  else match duration_checked_sub deadline (now w) with
       | Some remaining => (remaining, false)
       | None => (0, true)
       end.
Definition snapshot_until (w : World) (state : SolveBudgetState) (deadline : Z) :
    RemainingSolveBudget :=
  let '(remaining, expired) := remaining_duration_until w deadline in
  {| remaining_milliseconds := from_duration_floor_saturating remaining;
     expired := expired;
     cancelled := is_cancelled (tokens w) (cancellation state) |}.

Definition ParentSolveBudget_new (w : World) (time_limit : Z) (cancellation : nat) :
    Result ParentSolveBudgetError SolveBudgetState :=
  match duration_checked_add (now w) (to_duration time_limit) with
  | None => Err DeadlineOverflow
  | Some deadline =>
      Ok {| started_at := now w; deadline := deadline; cancellation := cancellation |}
  end.

Record SolveBudgetView := { view_state : SolveBudgetState; view_deadline : Z }.
Definition parent_phase_view (parent : SolveBudgetState) : SolveBudgetView :=
  {| view_state := parent; view_deadline := deadline parent |}.
Definition phase_view (view : SolveBudgetView) : SolveBudgetView := view.
Definition capped_phase_view (w : World) (view : SolveBudgetView) (cap : Z) : SolveBudgetView :=
  let cap_deadline := default duration_max (duration_checked_add (now w) cap) in
  {| view_state := view_state view; view_deadline := Z.min (view_deadline view) cap_deadline |}.
Definition view_snapshot (w : World) (view : SolveBudgetView) : RemainingSolveBudget :=
  snapshot_until w (view_state view) (view_deadline view).
Definition checked_elapsed (w : World) (view : SolveBudgetView) : option Z :=
  duration_checked_sub (now w) (started_at (view_state view)).
Definition remaining_duration (w : World) (view : SolveBudgetView) : Z :=
  (remaining_duration_until w (view_deadline view)).1.
Definition is_expired (w : World) (view : SolveBudgetView) : bool :=
  (remaining_duration_until w (view_deadline view)).2.

(** ** Operation control *)
Inductive OperationControl :=
| Cancellation (token : nat)
| Solve (budget : SolveBudgetView).
Inductive OperationInterruption := Cancelled | DeadlineExceeded.
#[global] Instance OperationInterruption_eq_dec : EqDecision OperationInterruption.
Proof. solve_decision. Defined.

Definition control_check (w : World) (control : OperationControl) :
    Result OperationInterruption unit :=
  match control with
  | Cancellation token => if is_cancelled (tokens w) token then Err Cancelled else Ok tt
  | Solve budget =>
      let remaining := view_snapshot w budget in
      if cancelled remaining then Err Cancelled
      else if expired remaining || (remaining_milliseconds remaining =? 0)
      then Err DeadlineExceeded
      else Ok tt
  end.

(** ** The states a token store can reach *)
Inductive token_step : TokenStore → TokenStore → Prop :=
| step_new store : token_step store (CancellationToken_new store).2
| step_child token store :
    (token < length store)%nat → token_step store (CancellationToken_child token store).2
| step_cancel token store :
    (token < length store)%nat → token_step store (CancellationToken_cancel token store).
Definition reachable_store : TokenStore → Prop := rtc token_step [].

(** [anc store a t]: [a] is [t] itself or one of its ancestors. *)
Inductive anc (store : TokenStore) : nat → nat → Prop :=
| anc_self t : anc store t t
| anc_up a t p node :
    store !! t = Some node → node_parent node = Some p → anc store a p → anc store a t.

(** A parent is allocated before its children. *)
Definition wf_store (store : TokenStore) : Prop :=
  ∀ t node p, store !! t = Some node → node_parent node = Some p → (p < t)%nat.

(** ** Durations: lemmas *)
Lemma duration_millis_max_u64 z : 0 ≤ z ≤ DURATION_MILLIS_MAX_V1 → checked_u64 z = Some z.
Proof.
  intros Hz. apply checked_u64_Some. split; [done|].
  unfold is_u64, u64_max, DURATION_MILLIS_MAX_V1 in *. lia.
Qed.

(** Strict millisecond durations and standard durations convert into each other without loss:
    every duration within the version-1 bound comes back, and a conversion that succeeds is exact. *)
Theorem duration_millis_roundtrip :
  (∀ m, 0 ≤ m ≤ DURATION_MILLIS_MAX_V1 → DurationMillis_try_from (to_duration m) = Ok m) ∧
  (∀ d m, 0 ≤ d → DurationMillis_try_from d = Ok m →
     to_duration m = d ∧ 0 ≤ m ≤ DURATION_MILLIS_MAX_V1).
Proof.
  unfold DurationMillis_try_from, to_duration, as_millis, DurationMillis_new. split.
  - intros m Hm. rewrite Z.div_mul, Z.mod_mul by lia.
    destruct (Z.ltb_spec DURATION_MILLIS_MAX_V1 m); [lia|]. cbn.
    rewrite duration_millis_max_u64 by done.
    destruct (Z.ltb_spec DURATION_MILLIS_MAX_V1 m); [lia|done].
  - intros d m Hd. assert (0 ≤ d / 1000000) by (apply Z.div_pos; lia).
    destruct (Z.ltb_spec DURATION_MILLIS_MAX_V1 (d / 1000000)); [done|].
    destruct (Z.eqb_spec (d mod 1000000) 0) as [Hmod|]; cbn; [|done].
    rewrite duration_millis_max_u64 by lia.
    destruct (Z.ltb_spec DURATION_MILLIS_MAX_V1 (d / 1000000)); [done|].
    intros [= <-]. split; [|lia]. pose proof (Z.div_mod d 1000000). lia.
Qed.

(** ** Cancellation: lemmas *)
Lemma wf_store_snoc store node :
  wf_store store → (∀ p, node_parent node = Some p → (p < length store)%nat) →
  wf_store (store ++ [node]).
Proof.
  intros Hwf Hnode t n p Ht Hp. apply lookup_app_Some in Ht as [Ht|[Hge Ht]]; [by eapply Hwf|].
  apply list_lookup_singleton_Some in Ht as [? ->]. apply Hnode in Hp. lia.
Qed.

Lemma token_step_wf s s' : token_step s s' → wf_store s → wf_store s'.
Proof.
  destruct 1 as [s|t s Ht|t s Ht]; intros Hwf; cbn.
  - apply wf_store_snoc; [done|]. cbn. done.
  - apply wf_store_snoc; [done|]. cbn. congruence.
  - intros u node p Hu Hp. unfold CancellationToken_cancel in Hu.
    destruct (decide (t = u)) as [->|Hne].
    + rewrite list_lookup_alter_eq in Hu. apply fmap_Some in Hu as (n & Hn & ->). by eapply Hwf.
    + rewrite list_lookup_alter_ne in Hu by done. by eapply Hwf.
Qed.

Lemma token_steps_wf s s' : rtc token_step s s' → wf_store s → wf_store s'.
Proof. induction 1; eauto using token_step_wf. Qed.

Lemma reachable_wf store : reachable_store store → wf_store store.
Proof. intros H. eapply token_steps_wf; [done|]. intros t node p Ht. by rewrite lookup_nil in Ht. Qed.

Definition flag_set (store : TokenStore) (t : nat) : Prop :=
  ∃ node, store !! t = Some node ∧ node_cancelled node = true.

Lemma is_cancelled_loop_spec store fuel t :
  wf_store store → (t < fuel)%nat →
  is_cancelled_loop fuel store (Some t) = true ↔ ∃ a, anc store a t ∧ flag_set store a.
Proof.
  intros Hwf. revert t. induction fuel as [|fuel IH]; intros t Hlt; [lia|]. cbn.
  destruct (store !! t) as [node|] eqn:Ht; cycle 1.
  { split; [done|]. intros (a & Ha & n & Hn & _).
    inversion Ha; subst; rewrite Ht in *; congruence. }
  destruct (node_cancelled node) eqn:Hflag.
  { split; [|done]. intros _. exists t. split; [constructor|by exists node]. }
  destruct (node_parent node) as [p|] eqn:Hp.
  - rewrite IH by (specialize (Hwf _ _ _ Ht Hp); lia). split.
    + intros (a & Ha & Hset). exists a. split; [|done]. by eapply anc_up.
    + intros (a & Ha & Hset). exists a. split; [|done].
      inversion Ha as [|? ? ? n Hn Hnp Hup]; subst; [|rewrite Ht in Hn; naive_solver].
      destruct Hset as (n & Hn & ?). congruence.
  - split; [by destruct fuel|]. intros (a & Ha & n & Hn & Hs).
    inversion Ha; subst; congruence.
Qed.

Lemma is_cancelled_spec store t :
  wf_store store → is_cancelled store t = true ↔ ∃ a, anc store a t ∧ flag_set store a.
Proof.
  intros Hwf. unfold is_cancelled. destruct (decide (t < length store)%nat) as [Hlt|Hge].
  { by apply is_cancelled_loop_spec. }
  assert (store !! t = None) as Hnone by (apply lookup_ge_None_2; lia).
  split.
  - destruct (length store) as [|n]; cbn; [done|]. by rewrite Hnone.
  - intros (a & Ha & n & Hn & Hset). inversion Ha; subst; congruence.
Qed.

Lemma cancel_lookup store t u node :
  CancellationToken_cancel t store !! u = Some node →
  ∃ n, store !! u = Some n ∧ node_parent node = node_parent n ∧
       node_cancelled node = bool_decide (t = u) || node_cancelled n.
Proof.
  unfold CancellationToken_cancel. destruct (decide (t = u)) as [->|Hne].
  - rewrite list_lookup_alter_eq. intros (n & Hn & ->)%fmap_Some. exists n.
    by rewrite bool_decide_true.
  - rewrite list_lookup_alter_ne by done. intros Hn. exists node. by rewrite bool_decide_false.
Qed.

Lemma cancel_anc store t a u : anc (CancellationToken_cancel t store) a u ↔ anc store a u.
Proof.
  split.
  - induction 1 as [|a u p node Hu Hp _ IH]; [constructor|].
    apply cancel_lookup in Hu as (n & Hn & Heq & _). eapply anc_up; [done| |done]. congruence.
  - induction 1 as [|a u p node Hu Hp _ IH]; [constructor|].
    unfold CancellationToken_cancel. destruct (decide (t = u)) as [->|Hne].
    + eapply anc_up; [by rewrite list_lookup_alter_eq, Hu|done|done].
    + eapply anc_up; [by rewrite list_lookup_alter_ne, Hu|done|done].
Qed.

(** Cancelling a token is observed by exactly the token and its descendants: ancestors,
    siblings and unrelated tokens answer as before. *)
Theorem cancel_reaches_exactly_descendants store t u :
  reachable_store store → (t < length store)%nat →
  is_cancelled (CancellationToken_cancel t store) u = true ↔
  is_cancelled store u = true ∨ anc store t u.
Proof.
  intros Hreach Hlt. pose proof (reachable_wf _ Hreach) as Hwf.
  pose proof (token_step_wf _ _ (step_cancel t store Hlt) Hwf) as Hwf'.
  rewrite !is_cancelled_spec by done. setoid_rewrite cancel_anc. split.
  - intros (a & Ha & node & Hnode & Hset). apply cancel_lookup in Hnode as (n & Hn & _ & Hc).
    rewrite Hset in Hc. destruct (decide (t = a)) as [->|Hne]; [by right|].
    rewrite bool_decide_false in Hc by done. left. exists a. split; [done|]. by exists n.
  - intros [(a & Ha & n & Hn & Hset)|Ht].
    + exists a. split; [done|]. unfold flag_set, CancellationToken_cancel.
      destruct (decide (t = a)) as [->|Hne];
        [rewrite list_lookup_alter_eq, Hn|rewrite list_lookup_alter_ne, Hn by done]; eauto.
    + exists t. split; [done|]. destruct (lookup_lt_is_Some_2 store t Hlt) as [n Hn].
      exists {| node_cancelled := true; node_parent := node_parent n |}.
      unfold CancellationToken_cancel. by rewrite list_lookup_alter_eq, Hn.
Qed.

Lemma anc_snoc store node a t : anc store a t → anc (store ++ [node]) a t.
Proof.
  induction 1 as [|a t p n Ht Hp _ IH]; [constructor|]. eapply anc_up; [|done|done].
  by apply lookup_app_l_Some.
Qed.
Lemma flag_set_snoc store node t : flag_set store t → flag_set (store ++ [node]) t.
Proof. intros (n & Hn & ?). exists n. split; [|done]. by apply lookup_app_l_Some. Qed.

Lemma cancelled_step s s' t :
  token_step s s' → wf_store s → is_cancelled s t = true → is_cancelled s' t = true.
Proof.
  intros Hstep Hwf. pose proof (token_step_wf _ _ Hstep Hwf) as Hwf'.
  rewrite !is_cancelled_spec by done. intros (a & Ha & Hset). exists a.
  destruct Hstep as [s|u s Hu|u s Hu]; cbn in *.
  - split; [by apply anc_snoc|by apply flag_set_snoc].
  - split; [by apply anc_snoc|by apply flag_set_snoc].
  - split; [by apply cancel_anc|]. destruct Hset as (n & Hn & Hset).
    unfold flag_set, CancellationToken_cancel. destruct (decide (u = a)) as [->|Hne];
      [rewrite list_lookup_alter_eq, Hn|rewrite list_lookup_alter_ne, Hn by done]; eauto.
Qed.

Lemma cancelled_steps s s' t :
  rtc token_step s s' → wf_store s → is_cancelled s t = true → is_cancelled s' t = true.
Proof. induction 1; eauto using cancelled_step, token_step_wf. Qed.

(** ** Deadlines *)

(** Every view handed out below one parent budget, whatever the clock read at each cap. *)
Inductive derived_view (parent : SolveBudgetState) : SolveBudgetView → Prop :=
| derived_parent : derived_view parent (parent_phase_view parent)
| derived_phase view : derived_view parent view → derived_view parent (phase_view view)
| derived_capped w cap view :
    derived_view parent view → derived_view parent (capped_phase_view w view cap).

Lemma derived_view_deadline parent view :
  derived_view parent view → view_state view = parent ∧ view_deadline view ≤ deadline parent.
Proof.
  induction 1 as [|view _ [IHs IHd]|w cap view _ [IHs IHd]]; cbn; [done|done|]. split; [done|lia].
Qed.

Lemma remaining_until_spec w d :
  remaining_duration_until w d = (Z.max 0 (d - now w), bool_decide (d ≤ now w)).
Proof.
  unfold remaining_duration_until, duration_checked_sub.
  destruct (Z.leb_spec d (now w)).
  - rewrite bool_decide_true by done. f_equal. lia.
  - destruct (Z.leb_spec (now w) d); [|lia]. rewrite bool_decide_false by lia. f_equal. lia.
Qed.

Lemma floor_millis_zero d :
  0 ≤ d → from_duration_floor_saturating d = 0 ↔ d < 1000000.
Proof.
  intros Hd. unfold from_duration_floor_saturating, as_millis.
  assert (0 ≤ d / 1000000) by (apply Z.div_pos; lia).
  rewrite duration_millis_max_u64 by (unfold DURATION_MILLIS_MAX_V1 in *; lia).
  assert (d / 1000000 < 1 ↔ d < 1000000).
  { split; intros; [|by apply Z.div_lt_upper_bound; lia].
    pose proof (Z.mul_succ_div_gt d 1000000). lia. }
  unfold DURATION_MILLIS_MAX_V1 in *. lia.
Qed.

Lemma control_check_solve w view :
  control_check w (Solve view) =
  if is_cancelled (tokens w) (cancellation (view_state view)) then Err Cancelled
  else if bool_decide (now w + 1000000 ≤ view_deadline view) then Ok tt
  else Err DeadlineExceeded.
Proof.
  cbn. unfold view_snapshot, snapshot_until. rewrite remaining_until_spec. cbn.
  destruct (is_cancelled _ _); [done|].
  destruct (decide (view_deadline view ≤ now w)) as [Hle|Hgt].
  { rewrite bool_decide_true by done. cbn. by rewrite bool_decide_false by lia. }
  rewrite bool_decide_false by done. cbn.
  destruct (Z.eqb_spec (from_duration_floor_saturating (Z.max 0 (view_deadline view - now w))) 0)
    as [Hz|Hz]; rewrite floor_millis_zero in Hz by lia.
  - by rewrite bool_decide_false by lia.
  - by rewrite bool_decide_true by lia.
Qed.

(** A phase of a solve is admitted only while its token is live and at least one whole
    millisecond of the ORIGINAL parent deadline remains: no chain of phase views and caps extends
    it, and cancellation takes precedence over the deadline. *)
Theorem phase_check_respects_parent_deadline parent view w :
  derived_view parent view →
  (control_check w (Solve view) = Ok tt →
     is_cancelled (tokens w) (cancellation parent) = false ∧
     now w + 1000000 ≤ view_deadline view ≤ deadline parent) ∧
  (is_cancelled (tokens w) (cancellation parent) = true →
     control_check w (Solve view) = Err Cancelled) ∧
  (is_cancelled (tokens w) (cancellation parent) = false → deadline parent < now w + 1000000 →
     control_check w (Solve view) = Err DeadlineExceeded).
Proof.
  intros [Hs Hd]%derived_view_deadline. rewrite control_check_solve, Hs.
  destruct (is_cancelled _ _); [naive_solver|]. case_bool_decide; [naive_solver lia|].
  split_and!; [done|done|]. done.
Qed.

(** Interruption is permanent: along any later observation of the environment (a clock that
    does not run backwards, tokens created, derived or cancelled in any order) a control that has
    been interrupted stays interrupted. *)
Theorem interruption_is_permanent w w' control e :
  wf_store (tokens w) → rtc token_step (tokens w) (tokens w') → now w ≤ now w' →
  control_check w control = Err e → ∃ e', control_check w' control = Err e'.
Proof.
  intros Hwf Hsteps Hnow. destruct control as [t|view].
  - cbn. destruct (is_cancelled (tokens w) t) eqn:Hc; [|done]. intros _.
    rewrite (cancelled_steps _ _ _ Hsteps Hwf Hc). eauto.
  - rewrite !control_check_solve. destruct (is_cancelled (tokens w) _) eqn:Hc.
    + rewrite (cancelled_steps _ _ _ Hsteps Hwf Hc). eauto.
    + destruct (is_cancelled (tokens w') _); [eauto|]. case_bool_decide; [done|].
      intros _. rewrite bool_decide_false by lia. eauto.
Qed.
