(* ===== verification/Budget.v ===== *)
(** * Planning-IR limits and cooperative preparation admission

    Models [PlanningIrLimitsV1] of [crates/eutheto-planning-ir/src/validation.rs] and
    [crates/eutheto-planning-ir/src/budget.rs]: cumulative work, live transient bytes and their
    peak, raw and owned (RAII) reservations, and the counting writer that precharges a
    serialization.  The environment is the sequence of worlds that successive control checks
    observe, so every theorem holds for every schedule of cancellation and clock readings. *)
From stdpp Require Import base tactics list relations.
From Stdlib Require Import ZArith Lia.
From S2P Require Import Prelude Control.
Open Scope Z_scope.

(** ** Limits *)
Definition MAX_SCORE_LEVELS : Z := 16.

Record PlanningIrLimitsV1 := {
  max_ir_bytes : Z;
  max_variables : Z;
  max_constraints : Z;
  max_assumptions : Z;
  max_objective_levels : Z;
  max_objective_terms : Z;
  max_provenance_records : Z;
  max_provenance_depth : Z;
  max_parameters_per_record : Z;
  max_parameter_text_bytes : Z;
  max_entity_refs_per_record : Z;
  max_projections : Z;
  max_projection_expression_depth : Z;
  max_domain_ranges : Z;
  max_refs_per_node : Z;
  max_total_refs : Z;
  max_table_rows : Z;
  max_table_arity : Z;
  max_table_cells : Z;
  max_intervals_per_global : Z;
  max_enforcement_literals : Z;
  max_tags : Z;
  max_component_nodes : Z;
  max_component_edges : Z;
  max_id_bytes : Z;
  max_metadata_text_bytes : Z;
  max_abs_coefficient : Z;
  max_abs_value : Z
}.

Definition limits_default : PlanningIrLimitsV1 := {|
  max_ir_bytes := 64 * 1024 * 1024;
  max_variables := 100000;
  max_constraints := 500000;
  max_assumptions := 100000;
  max_objective_levels := MAX_SCORE_LEVELS;
  max_objective_terms := 100000;
  max_provenance_records := 500000;
  max_provenance_depth := 32;
  max_parameters_per_record := 64;
  max_parameter_text_bytes := 1024;
  max_entity_refs_per_record := 1024;
  max_projections := 100000;
  max_projection_expression_depth := 16;
  max_domain_ranges := 64;
  max_refs_per_node := 100000;
  max_total_refs := 5000000;
  max_table_rows := 100000;
  max_table_arity := 64;
  max_table_cells := 1000000;
  max_intervals_per_global := 100000;
  max_enforcement_literals := 1024;
  max_tags := 32;
  max_component_nodes := 100000;
  max_component_edges := 5000000;
  max_id_bytes := 160;
  max_metadata_text_bytes := 4 * 1024;
  max_abs_coefficient := 1000000000000;
  max_abs_value := 1000000000000000
|}.

Record ResourceLimits := {
  caller_max_entities : Z;
  caller_max_rules : Z;
  caller_max_variables : Z;
  caller_max_constraints : Z
}.

Definition min_u64 (left right : Z) : Z := if left <? right then left else right.

Definition tightened_by (self : PlanningIrLimitsV1) (caller : ResourceLimits) :
    PlanningIrLimitsV1 := {|
  max_ir_bytes := max_ir_bytes self;
  max_variables := min_u64 (max_variables self) (caller_max_variables caller);
  max_constraints := min_u64 (max_constraints self) (caller_max_constraints caller);
  max_assumptions := max_assumptions self;
  max_objective_levels := max_objective_levels self;
  max_objective_terms := max_objective_terms self;
  max_provenance_records := max_provenance_records self;
  max_provenance_depth := max_provenance_depth self;
  max_parameters_per_record := max_parameters_per_record self;
  max_parameter_text_bytes := max_parameter_text_bytes self;
  max_entity_refs_per_record := max_entity_refs_per_record self;
  max_projections := max_projections self;
  max_projection_expression_depth := max_projection_expression_depth self;
  max_domain_ranges := max_domain_ranges self;
  max_refs_per_node := max_refs_per_node self;
  max_total_refs := max_total_refs self;
  max_table_rows := max_table_rows self;
  max_table_arity := max_table_arity self;
  max_table_cells := max_table_cells self;
  max_intervals_per_global := max_intervals_per_global self;
  max_enforcement_literals := max_enforcement_literals self;
  max_tags := max_tags self;
  max_component_nodes := max_component_nodes self;
  max_component_edges := max_component_edges self;
  max_id_bytes := max_id_bytes self;
  max_metadata_text_bytes := max_metadata_text_bytes self;
  max_abs_coefficient := max_abs_coefficient self;
  max_abs_value := max_abs_value self
|}.

(** The two signed limits are [i64] values; the positive ones bound values symmetrically. *)
Definition wf_limits (limits : PlanningIrLimitsV1) : Prop :=
  0 ≤ max_abs_value limits ≤ i64_max ∧ 0 ≤ max_abs_coefficient limits ≤ i64_max.

(** ** Preparation budgets *)
Inductive PlanningPreparationError :=
| PrepCancelled
| PrepDeadlineExceeded
| WorkLimitExceeded
| TransientLimitExceeded
| SerializedLimitExceeded
| PrepArithmeticOverflow
| Serialization.
#[global] Instance PlanningPreparationError_eq_dec : EqDecision PlanningPreparationError.
Proof. solve_decision. Defined.

(** [env] and [observed] are the environment: the world the next control check will see. *)
Record PlanningPreparationBudget := {
  control : OperationControl;
  max_work : Z;
  max_transient_bytes : Z;
  work : Z;
  raw_transient_bytes : Z;
  transient_bytes : Z;
  peak_transient_bytes : Z;
  counter_id : nat;
  env : nat → World;
  observed : nat
}.

(** A live reservation: the shared counter it debits when dropped, and its size. *)
Record TransientReservation := { counter : nat; bytes : Z }.
Definition belongs_to (r : TransientReservation) (b : PlanningPreparationBudget) : bool :=
  Nat.eqb (counter r) (counter_id b).

Notation Prep := (SE PlanningPreparationBudget PlanningPreparationError).

Definition MIN_TRANSIENT_BYTES : Z := 64 * 1024 * 1024.

Definition budget_new (control : OperationControl) (limits : PlanningIrLimitsV1)
    (id : nat) (env : nat → World) : PlanningPreparationBudget := {|
  control := control;
  max_work := u64_saturating_mul (max_total_refs limits) 8;
  max_transient_bytes := Z.max (u64_saturating_mul (max_ir_bytes limits) 4) MIN_TRANSIENT_BYTES;
  work := 0;
  raw_transient_bytes := 0;
  transient_bytes := 0;
  peak_transient_bytes := 0;
  counter_id := id;
  env := env;
  observed := 0
|}.

Definition set_work (v : Z) (b : PlanningPreparationBudget) : PlanningPreparationBudget :=
  {| control := control b; max_work := max_work b; max_transient_bytes := max_transient_bytes b;
     work := v; raw_transient_bytes := raw_transient_bytes b;
     transient_bytes := transient_bytes b; peak_transient_bytes := peak_transient_bytes b;
     counter_id := counter_id b; env := env b; observed := observed b |}.
Definition set_transient (raw live peak : Z) (b : PlanningPreparationBudget) :
    PlanningPreparationBudget :=
  {| control := control b; max_work := max_work b; max_transient_bytes := max_transient_bytes b;
     work := work b; raw_transient_bytes := raw;
     transient_bytes := live; peak_transient_bytes := peak;
     counter_id := counter_id b; env := env b; observed := observed b |}.
Definition replace_control (c : OperationControl) (b : PlanningPreparationBudget) :
    OperationControl * PlanningPreparationBudget :=
  (control b,
   {| control := c; max_work := max_work b; max_transient_bytes := max_transient_bytes b;
      work := work b; raw_transient_bytes := raw_transient_bytes b;
      transient_bytes := transient_bytes b; peak_transient_bytes := peak_transient_bytes b;
      counter_id := counter_id b; env := env b; observed := observed b |}).
Definition restore_control (c : OperationControl) (b : PlanningPreparationBudget) :
    PlanningPreparationBudget := (replace_control c b).2.
(** [token] is the token the constructor allocates; nobody else holds it. *)
Definition budget_uncontrolled (token : nat) (limits : PlanningIrLimitsV1) (id : nat)
    (env : nat → World) : PlanningPreparationBudget := budget_new (Cancellation token) limits id env.
Definition observe (b : PlanningPreparationBudget) : PlanningPreparationBudget :=
  {| control := control b; max_work := max_work b; max_transient_bytes := max_transient_bytes b;
     work := work b; raw_transient_bytes := raw_transient_bytes b;
     transient_bytes := transient_bytes b; peak_transient_bytes := peak_transient_bytes b;
     counter_id := counter_id b; env := env b; observed := S (observed b) |}.

Definition budget_check : Prep unit := λ b,
  (match control_check (env b (observed b)) (control b) with
   | Ok _ => Ok tt
   | Err Cancelled => Err PrepCancelled
   | Err DeadlineExceeded => Err PrepDeadlineExceeded
   end, observe b).

Definition reserve_work (amount : Z) : Prep unit :=
  _ ← budget_check;
  se_state (λ b,
    match u64_checked_add (work b) amount with
    | None => (Err PrepArithmeticOverflow, b)
    | Some next =>
        if max_work b <? next then (Err WorkLimitExceeded, b)
        else (Ok tt, set_work next b)
    end).

Definition add_transient (amount : Z) : Prep unit := λ b,
  match u64_checked_add (transient_bytes b) amount with
  | None => (Err PrepArithmeticOverflow, b)
  | Some next =>
      if max_transient_bytes b <? next then (Err TransientLimitExceeded, b)
      else (Ok tt, set_transient (raw_transient_bytes b) next
                     (Z.max (peak_transient_bytes b) next) b)
  end.

Definition reserve_transient (amount : Z) : Prep unit :=
  _ ← budget_check;
  raw ← se_state (λ b, (ok_or PrepArithmeticOverflow
                          (u64_checked_add (raw_transient_bytes b) amount), b));
  _ ← add_transient amount;
  se_state (λ b, (Ok tt, set_transient raw (transient_bytes b) (peak_transient_bytes b) b)).

Definition reserve_transient_owned (amount : Z) : Prep TransientReservation :=
  _ ← budget_check;
  _ ← add_transient amount;
  se_state (λ b, (Ok {| counter := counter_id b; bytes := amount |}, b)).

Definition release_transient (amount : Z) : Prep unit := λ b,
  match u64_checked_sub (raw_transient_bytes b) amount with
  | None => (Err PrepArithmeticOverflow, b)
  | Some raw =>
      match u64_checked_sub (transient_bytes b) amount with
      | None => (Err PrepArithmeticOverflow, b)
      | Some next => (Ok tt, set_transient raw next (peak_transient_bytes b) b)
      end
  end.

(** [Drop for TransientReservation]; [None] is the panic of its [expect]. *)
Definition drop_reservation (r : TransientReservation) (b : PlanningPreparationBudget) :
    option PlanningPreparationBudget :=
  next ← u64_checked_sub (transient_bytes b) (bytes r);
  Some (set_transient (raw_transient_bytes b) next (peak_transient_bytes b) b).

(** The end of a guard's scope, reached by a normal exit or by an early return. *)
Definition retire (amount : Z) (b : PlanningPreparationBudget) : PlanningPreparationBudget :=
  set_transient (raw_transient_bytes b) (transient_bytes b - amount) (peak_transient_bytes b) b.
Definition with_reservation {A} (amount : Z) (body : Prep A) : Prep A :=
  r ← reserve_transient_owned amount;
  se_state (λ b, let '(res, b') := body b in (res, retire (bytes r) b')).

Definition serialized_scratch_bytes (n : Z) : Result PlanningPreparationError Z :=
  ok_or PrepArithmeticOverflow (u64_checked_mul n 2).

(** What [serde_json::to_writer] does with a writer: the lengths of the successive [write] calls,
    and whether the value serializes to the end. *)
Record Encoding := { enc_chunks : list Z; enc_complete : bool }.

(** [CountingWriter::write] *)
Definition counting_write (max_bytes length : Z) (total : Z) : Prep Z :=
  match u64_checked_add total length with
  | None => se_fail Serialization
  | Some next =>
      if max_bytes <? next then se_fail SerializedLimitExceeded
      else _ ← reserve_work (length / 64 + 1); mret next
  end.
Definition precharge_serialized (value : Encoding) (max_bytes : Z) : Prep Z :=
  _ ← budget_check;
  total ← fold_m (λ total length, counting_write max_bytes length total) 0 (enc_chunks value);
  if enc_complete value then mret total else se_fail Serialization.

(** ** Histories of one budget *)

(** The budget together with the owned reservations that are still alive. *)
Definition AccountState : Type := PlanningPreparationBudget * list TransientReservation.
Inductive budget_step : AccountState → AccountState → Prop :=
| bs_check b rs : budget_step (b, rs) ((budget_check b).2, rs)
| bs_work amount b rs : 0 ≤ amount → budget_step (b, rs) ((reserve_work amount b).2, rs)
| bs_raw amount b rs : 0 ≤ amount → budget_step (b, rs) ((reserve_transient amount b).2, rs)
| bs_release amount b rs : 0 ≤ amount → budget_step (b, rs) ((release_transient amount b).2, rs)
| bs_owned amount r b b' rs :
    0 ≤ amount → reserve_transient_owned amount b = (Ok r, b') →
    budget_step (b, rs) (b', r :: rs)
| bs_owned_err amount e b b' rs :
    0 ≤ amount → reserve_transient_owned amount b = (Err e, b') → budget_step (b, rs) (b', rs)
| bs_drop r b b' rs1 rs2 :
    drop_reservation r b = Some b' → budget_step (b, rs1 ++ r :: rs2) (b', rs1 ++ rs2)
| bs_control c b rs : budget_step (b, rs) ((replace_control c b).2, rs).

Definition outstanding (rs : list TransientReservation) : Z := foldr Z.add 0 (bytes <$> rs).

Record accounted (st : AccountState) : Prop := {
  acc_work : 0 ≤ work st.1 ≤ max_work st.1;
  acc_live : transient_bytes st.1 = raw_transient_bytes st.1 + outstanding st.2;
  acc_raw : 0 ≤ raw_transient_bytes st.1;
  acc_owned : Forall (λ r, 0 ≤ bytes r ∧ counter r = counter_id st.1) st.2;
  acc_peak : transient_bytes st.1 ≤ peak_transient_bytes st.1 ≤ max_transient_bytes st.1;
  acc_width : max_transient_bytes st.1 ≤ u64_max ∧ max_work st.1 ≤ u64_max
}.

(** ** Lemmas *)
Arguments outstanding : simpl never.
Arguments budget_check : simpl never.
Arguments reserve_work : simpl never.
Arguments add_transient : simpl never.
Arguments reserve_transient : simpl never.
Arguments reserve_transient_owned : simpl never.
Arguments release_transient : simpl never.

Ltac prep_unfold := unfold mbind, SE_bind, mret, SE_ret, se_state, se_lift, se_fail in *; cbn in *.
(** Splits every checked operation and comparison a budget operation makes. *)
Ltac prep_cases :=
  repeat match goal with
  | H : context [match checked_u64 ?z with _ => _ end] |- _ => destruct (checked_u64 z) eqn:?
  | |- context [match checked_u64 ?z with _ => _ end] => destruct (checked_u64 z) eqn:?
  | H : context [Z.ltb ?x ?y] |- _ => destruct (Z.ltb_spec x y)
  | |- context [Z.ltb ?x ?y] => destruct (Z.ltb_spec x y)
  | H : checked_u64 _ = Some _ |- _ => apply checked_u64_Some in H as [-> ?]
  end.

Lemma budget_check_cases b :
  budget_check b = (Ok tt, observe b) ∨ ∃ e, budget_check b = (Err e, observe b).
Proof.
  unfold budget_check. destruct (control_check _ _) as [[]|[]]; eauto.
Qed.

Ltac prep_check b :=
  destruct (budget_check_cases b) as [Hchk|[? Hchk]]; rewrite Hchk; cbn; clear Hchk.

Lemma reserve_work_cases n b :
  (reserve_work n b = (Ok tt, set_work (work b + n) (observe b)) ∧
   is_u64 (work b + n) ∧ work b + n ≤ max_work b) ∨
  ∃ e, reserve_work n b = (Err e, observe b).
Proof.
  unfold reserve_work, u64_checked_add. prep_unfold. prep_check b; [|eauto].
  prep_cases; [eauto| |eauto]. left. split; [done|]. split; [done|lia].
Qed.

Lemma add_transient_cases n b :
  (add_transient n b =
     (Ok tt, set_transient (raw_transient_bytes b) (transient_bytes b + n)
               (Z.max (peak_transient_bytes b) (transient_bytes b + n)) b) ∧
   is_u64 (transient_bytes b + n) ∧ transient_bytes b + n ≤ max_transient_bytes b) ∨
  ∃ e, add_transient n b = (Err e, b).
Proof.
  unfold add_transient, u64_checked_add. prep_cases; [eauto| |eauto]. left. split; [done|]. split; [done|lia].
Qed.

Lemma reserve_transient_cases n b :
  (reserve_transient n b =
     (Ok tt, set_transient (raw_transient_bytes b + n) (transient_bytes b + n)
               (Z.max (peak_transient_bytes b) (transient_bytes b + n)) (observe b)) ∧
   transient_bytes b + n ≤ max_transient_bytes b) ∨
  ∃ e, reserve_transient n b = (Err e, observe b).
Proof.
  unfold reserve_transient, u64_checked_add. prep_unfold. prep_check b; [|eauto].
  destruct (checked_u64 _) eqn:Hraw; cbn; [|eauto]. apply checked_u64_Some in Hraw as [-> _].
  destruct (add_transient_cases n (observe b)) as [(-> & _ & Hle)|[e ->]]; [|eauto].
  left. done.
Qed.

Lemma reserve_owned_cases n b :
  (reserve_transient_owned n b =
     (Ok {| counter := counter_id b; bytes := n |},
      set_transient (raw_transient_bytes b) (transient_bytes b + n)
        (Z.max (peak_transient_bytes b) (transient_bytes b + n)) (observe b)) ∧
   transient_bytes b + n ≤ max_transient_bytes b) ∨
  ∃ e, reserve_transient_owned n b = (Err e, observe b).
Proof.
  unfold reserve_transient_owned. prep_unfold. prep_check b; [|eauto].
  destruct (add_transient_cases n (observe b)) as [(-> & _ & Hle)|[e ->]]; [|eauto].
  left. done.
Qed.

Lemma release_transient_cases n b :
  (release_transient n b =
     (Ok tt, set_transient (raw_transient_bytes b - n) (transient_bytes b - n)
               (peak_transient_bytes b) b) ∧
   0 ≤ raw_transient_bytes b - n ∧ 0 ≤ transient_bytes b - n) ∨
  (∃ e, release_transient n b = (Err e, b)).
Proof.
  unfold release_transient, u64_checked_sub. unfold is_u64 in *.
  prep_cases; [|eauto..]. left. unfold is_u64 in *. split; [done|lia].
Qed.

Lemma outstanding_nonneg rs P :
  Forall (λ r, 0 ≤ bytes r ∧ P r) rs → 0 ≤ outstanding rs.
Proof. unfold outstanding. induction 1 as [|r rs [? _] _ IH]; cbn in *; lia. Qed.
Lemma outstanding_app rs1 rs2 : outstanding (rs1 ++ rs2) = outstanding rs1 + outstanding rs2.
Proof. unfold outstanding. induction rs1 as [|r rs1 IH]; cbn; [done|]. rewrite IH. lia. Qed.
Lemma outstanding_cons r rs : outstanding (r :: rs) = bytes r + outstanding rs.
Proof. done. Qed.

Lemma accounted_init c limits id w :
  0 ≤ max_total_refs limits → 0 ≤ max_ir_bytes limits → accounted (budget_new c limits id w, []).
Proof.
  intros. unfold budget_new, MIN_TRANSIENT_BYTES, u64_saturating_mul.
  split; cbn; [|done|done|constructor|lia|]; unfold u64_max; lia.
Qed.

Lemma budget_step_accounted st st' : budget_step st st' → accounted st → accounted st'.
Proof.
  destruct 1 as [b rs|n b rs Hn|n b rs Hn|n b rs Hn|n r b b' rs Hn Hres|n e b b' rs Hn Hres
                |r b b' rs1 rs2 Hdrop|c b rs]; intros [Hw Hlive Hraw Howned Hpeak Hwidth]; cbn in *;
    pose proof (outstanding_nonneg _ _ Howned) as Hpos.
  - prep_check b; by split.
  - destruct (reserve_work_cases n b) as [(-> & _ & Hle)|[e ->]]; split; cbn; auto; lia.
  - destruct (reserve_transient_cases n b) as [(-> & Hle)|[e ->]]; split; cbn; auto; lia.
  - destruct (release_transient_cases n b) as [(-> & ? & ?)|[e ->]]; split; cbn; auto; lia.
  - destruct (reserve_owned_cases n b) as [(Heq & Hle)|[e Heq]]; rewrite Heq in Hres; simplify_eq.
    split; cbn; auto; rewrite ?outstanding_cons; cbn; lia.
  - destruct (reserve_owned_cases n b) as [(Heq & Hle)|[e' Heq]]; rewrite Heq in Hres; simplify_eq.
    by split.
  - unfold drop_reservation, u64_checked_sub in Hdrop.
    destruct (checked_u64 _) eqn:Hsub; cbn in Hdrop; simplify_eq.
    apply checked_u64_Some in Hsub as [-> Hsub].
    apply Forall_app in Howned as [H1 [[Hr _] H2]%Forall_cons_1].
    rewrite outstanding_app, outstanding_cons in Hlive, Hpos.
    pose proof (outstanding_nonneg _ _ H1). pose proof (outstanding_nonneg _ _ H2).
    split; cbn; auto; rewrite ?outstanding_app; try lia.
    by apply Forall_app.
  - by split.
Qed.

Lemma budget_steps_accounted st st' : rtc budget_step st st' → accounted st → accounted st'.
Proof. induction 1; eauto using budget_step_accounted. Qed.

(** Over every history of one preparation budget — checks, work, raw and owned reservations,
    releases, drops and control replacements in any order, under any schedule of cancellation and
    clock readings — cumulative work stays under its ceiling, live bytes are exactly the raw
    reservations plus the guards still alive, the recorded peak covers the live bytes and stays
    under the transient ceiling. *)
Theorem budget_history_accounted c limits id w st :
  0 ≤ max_total_refs limits → 0 ≤ max_ir_bytes limits →
  rtc budget_step (budget_new c limits id w, []) st → accounted st.
Proof. intros. eapply budget_steps_accounted; [done|]. by apply accounted_init. Qed.

(** Retiring a guard can never underflow the shared counter: the [expect] of its [Drop] does
    not panic in any reachable history, and a raw release that would debit guard-owned bytes is
    refused without changing the account. *)
Theorem reservation_drop_never_panics c limits id w b rs r amount :
  0 ≤ max_total_refs limits → 0 ≤ max_ir_bytes limits →
  rtc budget_step (budget_new c limits id w, []) (b, rs) →
  (r ∈ rs → ∃ b', drop_reservation r b = Some b') ∧
  (raw_transient_bytes b < amount → ∃ e, release_transient amount b = (Err e, b)).
Proof.
  intros Hr Hi Hst. destruct (budget_steps_accounted _ _ Hst (accounted_init _ _ _ _ Hr Hi))
    as [_ Hlive Hraw Howned Hpeak [Hwidth _]]; cbn in *. split.
  - intros (rs1 & rs2 & ->)%list_elem_of_split.
    apply Forall_app in Howned as [H1 [[Hb _] H2]%Forall_cons_1].
    rewrite outstanding_app, outstanding_cons in Hlive.
    pose proof (outstanding_nonneg _ _ H1). pose proof (outstanding_nonneg _ _ H2).
    unfold drop_reservation, u64_checked_sub.
    destruct (checked_u64 (transient_bytes b - bytes r)) eqn:Hc; cbn; [eauto|].
    apply checked_u64_None in Hc. destruct Hc. unfold is_u64. lia.
  - intros Hlt. destruct (release_transient_cases amount b) as [(_ & ? & _)|?]; [lia|done].
Qed.

Definition chunk_work (length : Z) : Z := length / 64 + 1.
Definition total_of (f : Z → Z) (l : list Z) : Z := foldr Z.add 0 (f <$> l).

Lemma counting_write_Ok max_bytes n total b total' b' :
  counting_write max_bytes n total b = (Ok total', b') →
  total' = total + n ∧ total' ≤ max_bytes ∧ work b + chunk_work n ≤ max_work b ∧
  b' = set_work (work b + chunk_work n) (observe b).
Proof.
  unfold counting_write, u64_checked_add. prep_unfold.
  destruct (checked_u64 _) eqn:Ht; [|done]. apply checked_u64_Some in Ht as [-> _].
  destruct (Z.ltb_spec max_bytes (total + n)); [done|].
  destruct (reserve_work_cases (n / 64 + 1) b) as [(-> & _ & Hle)|[e ->]]; [|done].
  intros [= <- <-]. split_and!; auto.
Qed.

(** A precharge that succeeds has counted the exact encoded length, kept it within the byte
    ceiling, and charged one unit of work per write plus one per 64 bytes of it, against the same
    account. *)
Theorem precharge_counts_exactly value max_bytes b n b' :
  precharge_serialized value max_bytes b = (Ok n, b') →
  n = total_of id (enc_chunks value) ∧ enc_complete value = true ∧
  (enc_chunks value ≠ [] → n ≤ max_bytes) ∧
  work b' = work b + total_of chunk_work (enc_chunks value) ∧
  (enc_chunks value ≠ [] → work b' ≤ max_work b') ∧
  transient_bytes b' = transient_bytes b ∧ max_work b' = max_work b.
Proof.
  unfold precharge_serialized. rewrite se_bind_Ok. intros ([] & b1 & Hchk & H).
  rewrite se_bind_Ok in H. destruct H as (total & b2 & Hfold & Hend).
  destruct (budget_check_cases b) as [Hc|[e Hc]]; rewrite Hc in Hchk; simplify_eq. clear Hc.
  assert (∀ l t b1,
    fold_m (λ total length, counting_write max_bytes length total) t l b1 = (Ok total, b2) →
    total = t + total_of id l ∧ (l ≠ [] → total ≤ max_bytes) ∧
    work b2 = work b1 + total_of chunk_work l ∧ (l ≠ [] → work b2 ≤ max_work b2) ∧
    transient_bytes b2 = transient_bytes b1 ∧ max_work b2 = max_work b1) as Hloop.
  { clear. induction l as [|x l IH]; intros t b1; cbn [fold_m].
    - rewrite se_ret_Ok. intros [-> ->]. cbn. split_and!; try done; lia.
    - rewrite se_bind_Ok. intros (t' & b' & Hw & Hrest).
      apply counting_write_Ok in Hw as (-> & Hle & Hwork & ->).
      apply IH in Hrest as (-> & Hmax & Hw2 & Hle2 & Ht & Hm). cbn in *.
      destruct l as [|y l]; cbn in *; split_and!; try (intros _); try lia; naive_solver lia. }
  apply Hloop in Hfold as (-> & Hmax & Hw & Hle & Ht & Hm).
  destruct (enc_complete value); [|done]. apply se_ret_Ok in Hend as [-> ->]. cbn in *.
  split_and!; auto; try lia. 
Qed.

(** ** Witnesses *)
Definition quiet_world : World := {| now := 0; tokens := [{| node_cancelled := false; node_parent := None |}] |}.
Definition quiet_budget : PlanningPreparationBudget :=
  budget_uncontrolled 0 limits_default 0 (λ _, quiet_world).
