(* ===== verification/Ids.v ===== *)
(** * Stable planning and domain identifiers

    Models [crates/eutheto-planning-ir/src/ids.rs] and the identifier grammar of
    [crates/eutheto-domain-ir/src/lib.rs].  Both crates accept the same strings; the identifier
    newtypes are the strings themselves. *)
From stdpp Require Import base tactics list strings.
From Stdlib Require Import ZArith Lia Ascii.
From S2P Require Import Prelude.
Open Scope Z_scope.

Definition MAX_PLANNING_ID_BYTES : Z := 160.
Definition MAX_DOMAIN_ID_BYTES : Z := 160.

Definition byte_code (c : ascii) : Z := Z.of_N (N_of_ascii c).
Definition is_ascii_lowercase (c : ascii) : bool := (97 <=? byte_code c) && (byte_code c <=? 122).
Definition is_ascii_uppercase (c : ascii) : bool := (65 <=? byte_code c) && (byte_code c <=? 90).
Definition is_ascii_digit (c : ascii) : bool := (48 <=? byte_code c) && (byte_code c <=? 57).
Definition is_ascii_alphanumeric (c : ascii) : bool :=
  is_ascii_lowercase c || is_ascii_uppercase c || is_ascii_digit c.

(** [str::split('.')]: always at least one segment. *)
Fixpoint split_dot (s : list ascii) : list (list ascii) :=
  match s with
  | [] => [[]]
  | c :: s' =>
      if decide (c = "."%char) then [] :: split_dot s'
      else match split_dot s' with
           | seg :: segs => (c :: seg) :: segs
           | [] => [[c]]
           end
  end.

Definition segment_byte (c : ascii) : bool :=
  is_ascii_lowercase c || is_ascii_digit c || bool_decide (c = "_"%char)
  || bool_decide (c = "-"%char).
Definition valid_segment (segment : list ascii) : bool :=
  negb (bool_decide (segment = [])) && forallb segment_byte segment
  && match head segment with Some c => is_ascii_alphanumeric c | None => false end
  && match last segment with Some c => is_ascii_alphanumeric c | None => false end.

(** [ids.rs]: [valid] *)
Definition valid (value : string) : bool :=
  (Z.of_nat (String.length value) <=? MAX_PLANNING_ID_BYTES)
  && (2 <=? len (split_dot (String.list_ascii_of_string value)))
  && forallb valid_segment (split_dot (String.list_ascii_of_string value)).
(** [lib.rs] of the domain IR: [valid_id] *)
Definition valid_id (value : string) : bool :=
  (Z.of_nat (String.length value) <=? MAX_DOMAIN_ID_BYTES)
  && (2 <=? len (split_dot (String.list_ascii_of_string value)))
  && forallb valid_segment (split_dot (String.list_ascii_of_string value)).

Inductive PlanningIdError := PlanningIdError_.
Inductive DomainIdError := DomainIdError_.
Definition PlanningId_new (value : string) : Result PlanningIdError string :=
  if valid value then Ok value else Err PlanningIdError_.
Definition DomainId_new (value : string) : Result DomainIdError string :=
  if valid_id value then Ok value else Err DomainIdError_.

(** ** The grammar of identifiers *)
Fixpoint join_dot (segs : list (list ascii)) : list ascii :=
  match segs with
  | [] => []
  | [seg] => seg
  | seg :: segs => seg ++ "."%char :: join_dot segs
  end.
Definition name_start (c : ascii) : Prop := is_ascii_lowercase c = true ∨ is_ascii_digit c = true.
Definition name_part (c : ascii) : Prop := name_start c ∨ c = "_"%char ∨ c = "-"%char.
(** A namespace segment: nonempty, of name characters, starting and ending with a letter or digit. *)
Definition namespace_segment (seg : list ascii) : Prop :=
  Forall name_part seg ∧
  (∃ c, head seg = Some c ∧ name_start c) ∧ (∃ c, last seg = Some c ∧ name_start c).

Lemma split_dot_nonempty s : ∃ seg segs, split_dot s = seg :: segs.
Proof.
  destruct s as [|c s]; cbn; [eauto|]. destruct (decide _); [eauto|].
  destruct (split_dot s); eauto.
Qed.

Lemma join_split_dot s : join_dot (split_dot s) = s.
Proof.
  induction s as [|c s IH]; [done|]. cbn. destruct (split_dot_nonempty s) as (seg & segs & Hs).
  rewrite Hs in *. case_decide as Hc; [rewrite Hc|].
  - change (join_dot ([] :: seg :: segs)) with ("."%char :: join_dot (seg :: segs)). by rewrite IH.
  - destruct segs as [|seg' segs]; cbn in *; by rewrite IH.
Qed.

Lemma split_dot_app seg s :
  "."%char ∉ seg → split_dot (seg ++ "."%char :: s) = seg :: split_dot s.
Proof.
  induction seg as [|c seg IH]; intros Hdot; cbn; [done|].
  rewrite not_elem_of_cons in Hdot. destruct Hdot as [Hc Hdot].
  rewrite decide_False by done. by rewrite (IH Hdot).
Qed.

Lemma split_dot_no_dot seg : "."%char ∉ seg → split_dot seg = [seg].
Proof.
  induction seg as [|c seg IH]; intros Hdot; cbn; [done|].
  rewrite not_elem_of_cons in Hdot. destruct Hdot as [Hc Hdot].
  rewrite decide_False by done. by rewrite (IH Hdot).
Qed.

Lemma split_join_dot segs :
  segs ≠ [] → Forall (λ seg, "."%char ∉ seg) segs → split_dot (join_dot segs) = segs.
Proof.
  induction segs as [|seg segs IH]; intros Hne Hall; [done|].
  apply Forall_cons_1 in Hall as [Hseg Hall]. destruct segs as [|seg' segs].
  { cbn. by apply split_dot_no_dot. }
  change (join_dot (seg :: seg' :: segs)) with (seg ++ "."%char :: join_dot (seg' :: segs)).
  rewrite split_dot_app by done. by rewrite IH.
Qed.

Lemma segment_byte_spec c : segment_byte c = true ↔ name_part c.
Proof.
  unfold segment_byte, name_part, name_start. rewrite !orb_true_iff, !bool_decide_eq_true. tauto.
Qed.

Lemma name_part_alphanumeric c : name_part c → is_ascii_alphanumeric c = true ↔ name_start c.
Proof.
  unfold name_part, name_start, is_ascii_alphanumeric. rewrite !orb_true_iff.
  intros [H|[-> | ->]]; [tauto| |]; cbn; naive_solver.
Qed.

Lemma valid_segment_spec seg : valid_segment seg = true ↔ namespace_segment seg.
Proof.
  unfold valid_segment, namespace_segment. rewrite !andb_true_iff, negb_true_iff, bool_decide_eq_false.
  assert (forallb segment_byte seg = true ↔ Forall name_part seg) as Hall.
  { rewrite forallb_forall, List.Forall_forall. by setoid_rewrite segment_byte_spec. }
  rewrite Hall. split.
  - intros [[[Hne Hparts] Hhd] Hlast]. split; [done|]. rewrite Forall_forall in Hparts. split.
    + destruct (head seg) as [c|] eqn:E; [|done]. exists c. split; [done|].
      apply name_part_alphanumeric; [|done]. apply Hparts. destruct seg; simplify_eq/=. by left.
    + destruct (last seg) as [c|] eqn:E; [|done]. exists c. split; [done|].
      apply name_part_alphanumeric; [|done]. apply Hparts. by apply last_Some_elem_of.
  - intros (Hparts & (c & Hc & Hsc) & (d & Hd & Hsd)). rewrite Hc, Hd.
    assert (∀ c, name_start c → is_ascii_alphanumeric c = true) as Han.
    { intros x Hx. apply name_part_alphanumeric; [by left|done]. }
    rewrite !Han by done. destruct seg; [done|]. naive_solver.
Qed.

Lemma namespace_segment_no_dot seg : namespace_segment seg → "."%char ∉ seg.
Proof.
  intros [Hparts _] Hdot. rewrite Forall_forall in Hparts. apply Hparts in Hdot.
  destruct Hdot as [[|]|[|]]; done.
Qed.

Lemma valid_grammar s :
  valid s = true ↔
  Z.of_nat (String.length s) ≤ MAX_PLANNING_ID_BYTES ∧
  ∃ segs, String.list_ascii_of_string s = join_dot segs ∧ (2 ≤ length segs)%nat ∧
          Forall namespace_segment segs.
Proof.
  unfold valid. rewrite !andb_true_iff, !Z.leb_le, forallb_forall.
  setoid_rewrite valid_segment_spec. unfold len. split.
  - intros [[Hlen Hcount] Hall]. split; [done|].
    exists (split_dot (String.list_ascii_of_string s)). rewrite join_split_dot.
    split_and!; [done|lia|]. by apply List.Forall_forall.
  - intros [Hlen (segs & Hs & Hcount & Hall)]. rewrite Hs, split_join_dot.
    + split_and!; [done|lia|]. by apply List.Forall_forall.
    + by destruct segs; cbn in *; [lia|].
    + eapply Forall_impl; [done|]. apply namespace_segment_no_dot.
Qed.

(** The identifier check accepts exactly the documented grammar: at most 160 bytes, at least
    two dot-separated namespace segments. *)
Theorem planning_id_grammar s :
  valid s = true ↔
  Z.of_nat (String.length s) ≤ MAX_PLANNING_ID_BYTES ∧
  ∃ segs, String.list_ascii_of_string s = join_dot segs ∧ (2 ≤ length segs)%nat ∧
          Forall namespace_segment segs.
Proof. apply valid_grammar. Qed.

Lemma valid_id_valid s : valid_id s = valid s.
Proof. done. Qed.
