(* ===== verification/DomainIr.v ===== *)
(** * Solver-independent domain result contracts

    Models the part of [crates/eutheto-domain-ir/src/lib.rs] that the planning kernel produces and
    compares: entity references, assigned intervals and values, normalized solutions with their
    validation and canonicalization, and lexicographic score vectors. *)
From stdpp Require Import base tactics list gmap strings.
From Stdlib Require Import ZArith Lia.
From S2P Require Import Prelude Ordering Budget.
Open Scope Z_scope.

Definition NORMALIZED_SOLUTION_SCHEMA_VERSION : Z := 1.
Definition MAX_SCORE_CATEGORIES_PER_LEVEL : Z := 1024.
Definition REVISION_MAX_V1 : Z := 9007199254740991.

(** The contract errors the modelled operations return. *)
Inductive DomainContractError :=
| UnsupportedVersion (version : Z)
| InvalidInterval
| NonCanonicalAssignments
| DuplicateAssignment (id : string)
| NonCanonicalEvidence
| NegativeFeasibility
| DuplicateScoreLevel
| ScoreShapeMismatch
| LimitExceeded (what : string)
| InvalidExplanationContract (invariant : string)
| NonCanonicalExplanationCollection (label : string)
| InvalidBlake3
| InvalidMessageKey
| CanonicalSerialization
| MalformedJson
| ChecksumMismatch
| DuplicateRequiredRule (id : string)
| NonCanonicalRequiredRules
| InvalidVerificationText
| InvalidMetricRatio
| DuplicateAffectedEntity
| NonCanonicalAffectedEntities
| DuplicateVerificationEvidence
| NonCanonicalVerificationEvidence
| DuplicateRuleEvaluation (id : string)
| NonCanonicalRuleEvaluations
| DuplicateVerificationWarning
| NonCanonicalVerificationWarnings
| InconsistentVerification
| VerificationBindingMismatch
| NotVerifiedFeasible
| InvalidObjectiveContext (what : string).

Definition MAX_VERIFICATION_RULES : Z := 100000.
Record DomainEntityRef := { entity_kind : string; entity_id : string }.
#[global] Instance DomainEntityRef_eq_dec : EqDecision DomainEntityRef.
Proof. solve_decision. Defined.
#[global] Instance DomainEntityRef_ord : Ord DomainEntityRef :=
  ord_on (λ r, (entity_kind r, entity_id r)).
#[global] Instance DomainEntityRef_ord_laws : OrdLaws DomainEntityRef.
Proof. apply ord_on_laws. intros [] [] [=]; by simplify_eq. Qed.

(** ** Intervals and assignments *)
Record AssignedInterval := { ai_start : Z; ai_duration : Z; ai_end : Z }.
#[global] Instance AssignedInterval_eq_dec : EqDecision AssignedInterval.
Proof. solve_decision. Defined.
Definition AssignedInterval_new (start duration end_ : Z) :
    Result DomainContractError AssignedInterval :=
  if (duration <? 0) || negb (bool_decide (i64_checked_add start duration = Some end_))
  then Err InvalidInterval
  else Ok {| ai_start := start; ai_duration := duration; ai_end := end_ |}.
Definition AssignedInterval_validate (i : AssignedInterval) : Result DomainContractError unit :=
  _ ← AssignedInterval_new (ai_start i) (ai_duration i) (ai_end i); Ok tt.

Inductive AssignmentValue :=
| AVBoolean (b : bool)
| AVInteger (z : Z)
| AVInterval (i : AssignedInterval)
| AVAbsent.
#[global] Instance AssignmentValue_eq_dec : EqDecision AssignmentValue.
Proof. solve_decision. Defined.

Record DomainAssignment := {
  da_id : string;
  da_entity : DomainEntityRef;
  da_value : AssignmentValue;
  da_evidence : list string
}.
#[global] Instance DomainAssignment_eq_dec : EqDecision DomainAssignment.
Proof. solve_decision. Defined.

Record NormalizedSolution := {
  ns_schema_version : Z;
  ns_pack_id : string;
  ns_scenario_id : string;
  ns_scenario_revision : Z;
  ns_projection_version : Z;
  ns_solution_id : string;
  ns_assignments : list DomainAssignment
}.

Definition validate_revision (value : Z) : Result DomainContractError unit :=
  if REVISION_MAX_V1 <? value then Err (LimitExceeded "scenario revision") else Ok tt.

(** One iteration of the loop of [NormalizedSolution::validate]; the state is [prior]. *)
Definition validate_assignment (prior : option string) (assignment : DomainAssignment) :
    Result DomainContractError (option string) :=
  if match prior with Some id => leb (da_id assignment) id | None => false end
  then Err NonCanonicalAssignments
  else
    _ ← match da_value assignment with
        | AVInterval interval => AssignedInterval_validate interval
        | _ => Ok tt
        end;
    if negb (strictly_sorted (da_evidence assignment)) then Err NonCanonicalEvidence
    else Ok (Some (da_id assignment)).

Definition NormalizedSolution_validate (self : NormalizedSolution) :
    Result DomainContractError unit :=
  if negb (ns_schema_version self =? NORMALIZED_SOLUTION_SCHEMA_VERSION)
  then Err (UnsupportedVersion (ns_schema_version self))
  else
    _ ← validate_revision (ns_scenario_revision self);
    _ ← fold_m validate_assignment None (ns_assignments self);
    Ok tt.

Definition set_assignments (l : list DomainAssignment) (s : NormalizedSolution) :
    NormalizedSolution :=
  {| ns_schema_version := ns_schema_version s; ns_pack_id := ns_pack_id s;
     ns_scenario_id := ns_scenario_id s; ns_scenario_revision := ns_scenario_revision s;
     ns_projection_version := ns_projection_version s; ns_solution_id := ns_solution_id s;
     ns_assignments := l |}.
Definition canonical_evidence (a : DomainAssignment) : DomainAssignment :=
  {| da_id := da_id a; da_entity := da_entity a; da_value := da_value a;
     da_evidence := dedup (ord_sort (da_evidence a)) |}.

Definition NormalizedSolution_canonicalize (self : NormalizedSolution) :
    Result DomainContractError NormalizedSolution :=
  let sorted := sort_by_key da_id (ns_assignments self) in
  _ ← for_each (λ '(a, b),
        if decide (da_id a = da_id b) then Err (DuplicateAssignment (da_id a)) else Ok tt)
        (windows2 sorted);
  let canonical := set_assignments (canonical_evidence <$> sorted) self in
  _ ← NormalizedSolution_validate canonical;
  Ok canonical.

(** ** Scores *)
Inductive OptimizationDirection := Minimize | Maximize.
#[global] Instance OptimizationDirection_eq_dec : EqDecision OptimizationDirection.
Proof. solve_decision. Defined.

Record ScoreLevelValue := {
  sl_level_id : string;
  sl_value : Z;
  sl_direction : OptimizationDirection;
  sl_category_breakdown : gmap string Z
}.
#[global] Instance ScoreLevelValue_eq_dec : EqDecision ScoreLevelValue.
Proof. solve_decision. Defined.
Record ScoreVector := { feasibility : Z; levels : list ScoreLevelValue }.
#[global] Instance ScoreVector_eq_dec : EqDecision ScoreVector.
Proof. solve_decision. Defined.

Definition validate_shape (self : ScoreVector) : Result DomainContractError unit :=
  if feasibility self <? 0 then Err NegativeFeasibility
  else if negb (bool_decide (NoDup (sl_level_id <$> levels self))) then Err DuplicateScoreLevel
  else Ok tt.
Definition validate_current_shape (self : ScoreVector) : Result DomainContractError unit :=
  _ ← validate_shape self;
  if MAX_SCORE_LEVELS <? len (levels self) then Err (LimitExceeded "score levels")
  else if existsb (λ level,
            MAX_SCORE_CATEGORIES_PER_LEVEL <? Z.of_nat (size (sl_category_breakdown level)))
          (levels self)
  then Err (LimitExceeded "score categories")
  else Ok tt.

Definition level_cmp (direction : OptimizationDirection) (left right : Z) : comparison :=
  match direction with Minimize => cmp left right | Maximize => cmp right left end.
Definition ScoreVector_compare (self other : ScoreVector) :
    Result DomainContractError comparison :=
  _ ← validate_current_shape self;
  _ ← validate_current_shape other;
  if negb (len (levels self) =? len (levels other)) then Err ScoreShapeMismatch
  else fold_m (λ ordering '(l, r),
         if negb (bool_decide (sl_level_id l = sl_level_id r))
            || negb (bool_decide (sl_direction l = sl_direction r))
         then Err ScoreShapeMismatch
         else Ok (match ordering with
                  | Eq => level_cmp (sl_direction l) (sl_value l) (sl_value r)
                  | _ => ordering
                  end))
       (cmp (feasibility self) (feasibility other)) (zip (levels self) (levels other)).

(** ** Lemmas on intervals and solutions *)
Lemma AssignedInterval_new_Ok s d e i :
  AssignedInterval_new s d e = Ok i ↔
  0 ≤ d ∧ s + d = e ∧ is_i64 e ∧ i = {| ai_start := s; ai_duration := d; ai_end := e |}.
Proof.
  unfold AssignedInterval_new, i64_checked_add. destruct (Z.ltb_spec d 0); cbn.
  { split; [done|lia]. }
  case_bool_decide as Hadd; cbn.
  - apply checked_i64_Some in Hadd as [-> Hr]. naive_solver.
  - split; [done|]. intros (_ & <- & Hr & _). destruct Hadd. by apply checked_i64_Some.
Qed.
Lemma AssignedInterval_validate_Ok i :
  AssignedInterval_validate i = Ok tt ↔
  0 ≤ ai_duration i ∧ ai_start i + ai_duration i = ai_end i ∧ is_i64 (ai_end i).
Proof.
  unfold AssignedInterval_validate. rewrite result_bind_Ok. setoid_rewrite AssignedInterval_new_Ok.
  naive_solver.
Qed.

Definition assignment_ok (a : DomainAssignment) : Prop :=
  (∀ i, da_value a = AVInterval i → AssignedInterval_validate i = Ok tt) ∧
  strictly_sorted (da_evidence a) = true.
(** What a consumer of a normalized solution relies on. *)
Record canonical_solution (s : NormalizedSolution) : Prop := {
  cs_version : ns_schema_version s = NORMALIZED_SOLUTION_SCHEMA_VERSION;
  cs_revision : ns_scenario_revision s ≤ REVISION_MAX_V1;
  cs_sorted : strictly_sorted_by da_id (ns_assignments s) = true;
  cs_assignments : Forall assignment_ok (ns_assignments s)
}.

Lemma validate_assignment_Ok prior a r :
  validate_assignment prior a = Ok r ↔
  r = Some (da_id a) ∧ assignment_ok a ∧ (∀ id, prior = Some id → lt id (da_id a)).
Proof.
  unfold validate_assignment.
  set (out := match prior with Some id => leb (da_id a) id | None => false end).
  assert (out = false ↔ ∀ id, prior = Some id → lt id (da_id a)) as Hout.
  { subst out. destruct prior as [id|]; [rewrite leb_false|]; split; [| |done|done].
    - intros ? id' [= <-]. done.
    - intros H. by apply H. }
  clearbody out. destruct out; cbn.
  { split; [done|]. intros (_ & _ & H). by apply Hout in H. }
  unfold assignment_ok. rewrite result_bind_Ok.
  assert (∀ v u, match v with AVInterval i => AssignedInterval_validate i | _ => Ok tt end = Ok u ↔
    ∀ i, v = AVInterval i → AssignedInterval_validate i = Ok tt) as Hv.
  { intros [| |i|] []; split; try done; [intros H ? [= <-]; done|intros H; by apply H]. }
  destruct (strictly_sorted (da_evidence a)); cbn.
  - split.
    + intros (u & Hu & [= <-]). pose proof (proj1 (Hv _ _) Hu). naive_solver.
    + intros (-> & [Hi _] & _). exists tt. split; [by apply Hv|done].
  - naive_solver.
Qed.

Lemma validate_assignments_Ok l prior r :
  fold_m validate_assignment prior l = Ok r →
  strictly_sorted_by da_id l = true ∧ Forall assignment_ok l ∧
  (∀ id a, prior = Some id → head l = Some a → lt id (da_id a)).
Proof.
  revert prior. induction l as [|a l IH]; intros prior; cbn [fold_m]; [done|].
  rewrite result_bind_Ok. intros (r' & Hstep & Hrest).
  apply validate_assignment_Ok in Hstep as (-> & Hok & Hlt).
  apply IH in Hrest as (Hs & Hall & Hhd). split_and!; [|by constructor|].
  - destruct l as [|b l]; [done|]. change (strictly_sorted_by da_id (a :: b :: l)) with
      (ltb (da_id a) (da_id b) && strictly_sorted_by da_id (b :: l)).
    rewrite Hs, andb_true_r. apply ltb_lt. by eapply Hhd.
  - intros id b Hid [= <-]. by apply Hlt.
Qed.

Lemma validate_assignments_complete l prior :
  strictly_sorted_by da_id l = true → Forall assignment_ok l →
  (∀ id a, prior = Some id → head l = Some a → lt id (da_id a)) →
  ∃ r, fold_m validate_assignment prior l = Ok r.
Proof.
  revert prior. induction l as [|a l IH]; intros prior Hs Hall Hp; cbn [fold_m]; [by eexists|].
  apply Forall_cons_1 in Hall as [Ha Hall]. apply strictly_sorted_by_cons in Hs as [Hlt Hs].
  rewrite (proj2 (validate_assignment_Ok prior a (Some (da_id a)))); cbn.
  - apply IH; [done|done|]. intros id b [= <-] Hb. rewrite Forall_forall in Hlt. apply Hlt.
    destruct l; [done|]. simplify_eq/=. by left.
  - split_and!; [done|done|]. intros id Hid. by eapply Hp.
Qed.

Lemma NormalizedSolution_validate_spec s :
  NormalizedSolution_validate s = Ok tt ↔ canonical_solution s.
Proof.
  unfold NormalizedSolution_validate.
  destruct (Z.eqb_spec (ns_schema_version s) NORMALIZED_SOLUTION_SCHEMA_VERSION) as [Hv|Hv]; cbn;
    [|split; [done|by intros []]].
  unfold validate_revision. destruct (Z.ltb_spec REVISION_MAX_V1 (ns_scenario_revision s)); cbn.
  { split; [done|intros []; lia]. }
  rewrite result_bind_Ok. split.
  - intros (r & Hr & _). apply validate_assignments_Ok in Hr as (? & ? & _). done.
  - intros [_ _ Hs Hall]. destruct (validate_assignments_complete _ None Hs Hall) as [r Hr]; [done|].
    eauto.
Qed.

Lemma canonical_evidence_id a : strictly_sorted (da_evidence a) = true → canonical_evidence a = a.
Proof.
  intros Hs. unfold canonical_evidence. rewrite (ord_sort_id _ Hs), (dedup_id _ Hs). by destruct a.
Qed.

Lemma windows2_cons {A} (x y : A) l : windows2 (x :: y :: l) = (x, y) :: windows2 (y :: l).
Proof. done. Qed.

Lemma no_duplicate_windows l :
  strictly_sorted_by da_id l = true →
  for_each (λ '(a, b),
    if decide (da_id a = da_id b) then Err (DuplicateAssignment (da_id a)) else Ok tt)
    (windows2 l) = Ok tt.
Proof.
  induction l as [|a l IH]; [done|]. rewrite strictly_sorted_by_cons. intros [Hlt Hs].
  destruct l as [|b l]; [done|]. rewrite windows2_cons. cbn [for_each].
  apply Forall_cons_1 in Hlt as [Hlt _]. apply lt_ne in Hlt.
  rewrite decide_False by done. by apply IH.
Qed.

(** Canonicalizing a solution yields a canonical one with the same assignments up to order and
    evidence normal form, and it is a fixed point on canonical solutions; a duplicate assignment
    identity or an incoherent interval is refused. *)
Theorem solution_canonicalize_spec s :
  (∀ s', NormalizedSolution_canonicalize s = Ok s' →
     canonical_solution s' ∧
     ns_assignments s' ≡ₚ canonical_evidence <$> ns_assignments s ∧
     NoDup (da_id <$> ns_assignments s)) ∧
  (canonical_solution s → NormalizedSolution_canonicalize s = Ok s).
Proof.
  unfold NormalizedSolution_canonicalize. split.
  - intros s'. rewrite result_bind_Ok. intros ([] & _ & H). rewrite result_bind_Ok in H.
    destruct H as ([] & Hv & [= <-]). apply NormalizedSolution_validate_spec in Hv as Hc.
    split; [done|]. cbn. rewrite sort_by_key_perm. split; [done|].
    destruct Hc as [_ _ Hs _]. apply strictly_sorted_by_NoDup in Hs. cbn in Hs.
    rewrite sort_by_key_perm, <-list_fmap_compose in Hs. done.
  - intros Hc. pose proof Hc as [_ _ Hs Hall].
    rewrite (sort_by_key_id _ _ Hs), (no_duplicate_windows _ Hs). cbn.
    assert (canonical_evidence <$> ns_assignments s = ns_assignments s) as ->.
    { apply Forall_fmap_id. eapply Forall_impl; [done|]. intros a [_ ?]. by apply canonical_evidence_id. }
    assert (set_assignments (ns_assignments s) s = s) as -> by by destruct s.
    by rewrite (proj2 (NormalizedSolution_validate_spec s) Hc).
Qed.
