(* ===== verification/Model.v ===== *)
(** * The planning IR: data model and shape-safe constructors

    Models [crates/eutheto-planning-ir/src/model.rs].  Identifiers are strings, integers are [Z]
    with the width of each operation written out by the checked operations of [Prelude]. *)
From stdpp Require Import base tactics list gmap strings.
From Stdlib Require Import ZArith Lia Sorted.
From S2P Require Import Prelude Ordering DomainIr.
Open Scope Z_scope.

Definition PLANNING_IR_SCHEMA_VERSION : Z := 2.
Definition PROJECTION_SCHEMA_VERSION : Z := 1.

Inductive ModelError := EmptyDomain | ReversedRange | Shape | ArithmeticOverflow.
#[global] Instance ModelError_eq_dec : EqDecision ModelError.
Proof. solve_decision. Defined.

(** ** Integer domains *)
Record InclusiveRange := { start : Z; end_ : Z }.
#[global] Instance InclusiveRange_eq_dec : EqDecision InclusiveRange.
Proof. solve_decision. Defined.
#[global] Instance InclusiveRange_ord : Ord InclusiveRange := ord_on (λ r, (start r, end_ r)).
#[global] Instance InclusiveRange_ord_laws : OrdLaws InclusiveRange.
Proof. apply ord_on_laws. intros [] [] [=]; by simplify_eq. Qed.

Record IntDomain := { inclusive_ranges : list InclusiveRange }.
#[global] Instance IntDomain_eq_dec : EqDecision IntDomain.
Proof. solve_decision. Defined.

Definition touches (range last : InclusiveRange) : bool :=
  (start range <=? end_ last)
  || match i64_checked_add (end_ last) 1 with
     | Some next => start range <=? next
     | None => false
     end.
(** One iteration of the merge loop; [normalized] is kept in reverse, its last element first. *)
Definition merge_range (normalized : list InclusiveRange) (range : InclusiveRange) :
    list InclusiveRange :=
  match normalized with
  | last :: rest =>
      if touches range last
      then {| start := start last; end_ := Z.max (end_ last) (end_ range) |} :: rest
      else range :: normalized
  | [] => [range]
  end.
Definition IntDomain_new (ranges : list InclusiveRange) : Result ModelError IntDomain :=
  if bool_decide (ranges = []) then Err EmptyDomain
  else if existsb (λ range, end_ range <? start range) ranges then Err ReversedRange
  else Ok {| inclusive_ranges := reverse (foldl merge_range [] (ord_sort ranges)) |}.
Definition range_contains (value : Z) (range : InclusiveRange) : bool :=
  (start range <=? value) && (value <=? end_ range).
Definition contains (self : IntDomain) (value : Z) : bool :=
  existsb (range_contains value) (inclusive_ranges self).
Definition bounds (self : IntDomain) : option (Z * Z) :=
  match head (inclusive_ranges self), last (inclusive_ranges self) with
  | Some first, Some last => Some (start first, end_ last)
  | _, _ => None
  end.

(** ** Literals and variables *)
Record Literal := { lit_variable : string; lit_positive : bool }.
#[global] Instance Literal_eq_dec : EqDecision Literal.
Proof. solve_decision. Defined.
#[global] Instance Literal_ord : Ord Literal := ord_on (λ l, (lit_variable l, lit_positive l)).
#[global] Instance Literal_ord_laws : OrdLaws Literal.
Proof. apply ord_on_laws. intros [] [] [=]; by simplify_eq. Qed.
Definition Literal_positive (variable : string) : Literal :=
  {| lit_variable := variable; lit_positive := true |}.
Definition Literal_negative (variable : string) : Literal :=
  {| lit_variable := variable; lit_positive := false |}.
Definition negated (self : Literal) : Literal :=
  {| lit_variable := lit_variable self; lit_positive := negb (lit_positive self) |}.

Record BoolVariable := { bv_id : string; bv_provenance : string }.
Record IntVariable := { iv_id : string; iv_domain : IntDomain; iv_provenance : string }.
Record IntervalVariable := {
  itv_id : string;
  itv_start : string;
  itv_duration : string;
  itv_end : string;
  itv_presence : option Literal;
  itv_provenance : string
}.
Inductive Variable_ :=
| VBoolean (v : BoolVariable)
| VInteger (v : IntVariable)
| VInterval (v : IntervalVariable).
#[global] Instance BoolVariable_eq_dec : EqDecision BoolVariable.
Proof. solve_decision. Defined.
#[global] Instance IntVariable_eq_dec : EqDecision IntVariable.
Proof. solve_decision. Defined.
#[global] Instance IntervalVariable_eq_dec : EqDecision IntervalVariable.
Proof. solve_decision. Defined.
#[global] Instance Variable_eq_dec : EqDecision Variable_.
Proof. solve_decision. Defined.
Definition canonical_id (self : Variable_) : string :=
  match self with VBoolean v => bv_id v | VInteger v => iv_id v | VInterval v => itv_id v end.
Definition variable_provenance (self : Variable_) : string :=
  match self with
  | VBoolean v => bv_provenance v
  | VInteger v => iv_provenance v
  | VInterval v => itv_provenance v
  end.

(** ** Linear expressions *)
Record LinearTerm := { lt_variable : string; lt_coefficient : Z }.
#[global] Instance LinearTerm_eq_dec : EqDecision LinearTerm.
Proof. solve_decision. Defined.
Record LinearExpression := { le_terms : list LinearTerm; le_constant : Z }.
#[global] Instance LinearExpression_eq_dec : EqDecision LinearExpression.
Proof. solve_decision. Defined.

Definition combine_term (combined : gmap string Z) (term : LinearTerm) :
    Result ModelError (gmap string Z) :=
  let prior := default 0 (combined !! lt_variable term) in
  coefficient ← ok_or ArithmeticOverflow (i64_checked_add prior (lt_coefficient term));
  Ok (<[lt_variable term := coefficient]> combined).
(** [BTreeMap::into_iter]: the entries in key order. *)
Definition btree_iter {V} (m : gmap string V) : list (string * V) := sort_by_key fst (map_to_list m).
Definition nonzero_term (entry : string * Z) : option LinearTerm :=
  if entry.2 =? 0 then None else Some {| lt_variable := entry.1; lt_coefficient := entry.2 |}.
Definition LinearExpression_new (terms : list LinearTerm) (constant : Z) :
    Result ModelError LinearExpression :=
  combined ← fold_m combine_term ∅ terms;
  Ok {| le_terms := omap nonzero_term (btree_iter combined); le_constant := constant |}.

Inductive ComparisonOp := Equal | LessOrEqual | GreaterOrEqual.
#[global] Instance ComparisonOp_eq_dec : EqDecision ComparisonOp.
Proof. solve_decision. Defined.
Record LinearComparison := {
  lc_expression : LinearExpression;
  lc_op : ComparisonOp;
  lc_rhs : Z
}.
#[global] Instance LinearComparison_eq_dec : EqDecision LinearComparison.
Proof. solve_decision. Defined.

(** ** Constraints *)
Inductive Constraint_ :=
| BoolOr (literals : list Literal)
| BoolAnd (literals : list Literal)
| Implication (antecedent consequent : Literal)
| Equivalence_ (l r : Literal)
| AtMostOne (literals : list Literal)
| ExactlyOne (literals : list Literal)
| CardinalityRange (literals : list Literal) (min max : Z)
| LinearComparison_ (comparison : LinearComparison)
| ReifiedLinearComparison (literal : Literal) (comparison : LinearComparison)
| AllDifferent (variables : list string)
| AllowedTable (variables : list string) (rows : list (list Z))
| ForbiddenTable (variables : list string) (rows : list (list Z))
| Element (index : string) (values : list Z) (target : string)
| Min (target : string) (inputs : list string)
| Max (target : string) (inputs : list string)
| Equality (l r : string)
| AbsDifference (target l r : string)
| NoOverlap (intervals : list string)
| Cumulative (intervals : list string) (demands : list Z) (capacity : Z).
#[global] Instance Constraint_eq_dec : EqDecision Constraint_.
Proof. solve_decision. Defined.

Definition canonical_literals (literals : list Literal) : list Literal := dedup (ord_sort literals).
Definition canonical_ids (ids : list string) : list string := dedup (ord_sort ids).
Definition canonical_table (variables : list string) (rows : list (list Z)) :
    Result ModelError (list (list Z)) :=
  if existsb (λ row, negb (len row =? len variables)) rows then Err Shape
  else Ok (dedup (ord_sort rows)).

Definition bool_or (literals : list Literal) : Constraint_ := BoolOr (canonical_literals literals).
Definition bool_and (literals : list Literal) : Constraint_ := BoolAnd (canonical_literals literals).
Definition at_most_one (literals : list Literal) : Constraint_ :=
  AtMostOne (canonical_literals literals).
Definition exactly_one (literals : list Literal) : Constraint_ :=
  ExactlyOne (canonical_literals literals).
Definition cardinality (literals : list Literal) (min max : Z) : Result ModelError Constraint_ :=
  let literals := canonical_literals literals in
  n ← ok_or Shape (usize_to_u64 (len literals));
  if (max <? min) || (n <? max) then Err Shape else Ok (CardinalityRange literals min max).
Definition all_different (variables : list string) : Constraint_ :=
  AllDifferent (canonical_ids variables).
Definition allowed_table (variables : list string) (rows : list (list Z)) :
    Result ModelError Constraint_ :=
  rows ← canonical_table variables rows; Ok (AllowedTable variables rows).
Definition forbidden_table (variables : list string) (rows : list (list Z)) :
    Result ModelError Constraint_ :=
  rows ← canonical_table variables rows; Ok (ForbiddenTable variables rows).
Definition min_ (target : string) (inputs : list string) : Result ModelError Constraint_ :=
  if bool_decide (inputs = []) then Err Shape else Ok (Min target (canonical_ids inputs)).
Definition max_ (target : string) (inputs : list string) : Result ModelError Constraint_ :=
  if bool_decide (inputs = []) then Err Shape else Ok (Max target (canonical_ids inputs)).
Definition no_overlap (intervals : list string) : Constraint_ := NoOverlap (canonical_ids intervals).
Definition cumulative (intervals : list string) (demands : list Z) (capacity : Z) :
    Result ModelError Constraint_ :=
  if negb (len intervals =? len demands) || (capacity <? 0)
     || existsb (λ demand, demand <? 0) demands
  then Err Shape
  else
    let pairs := sort_by_key fst (zip intervals demands) in
    if existsb (λ '(a, b), bool_decide (a.1 = b.1)) (windows2 pairs) then Err Shape
    else
      _ ← fold_m (λ sum '(_, demand), ok_or ArithmeticOverflow (i64_checked_add sum demand)) 0 pairs;
      Ok (Cumulative pairs.*1 pairs.*2 capacity).

Record ConstraintRecord := {
  cr_id : string;
  cr_body : Constraint_;
  cr_enforcement : list Literal;
  cr_provenance : string;
  cr_tags : list string
}.
#[global] Instance ConstraintRecord_eq_dec : EqDecision ConstraintRecord.
Proof. solve_decision. Defined.

Definition canonicalize_body (body : Constraint_) : Constraint_ :=
  match body with
  | BoolOr literals => BoolOr (canonical_literals literals)
  | BoolAnd literals => BoolAnd (canonical_literals literals)
  | AtMostOne literals => AtMostOne (canonical_literals literals)
  | ExactlyOne literals => ExactlyOne (canonical_literals literals)
  | CardinalityRange literals min max => CardinalityRange (canonical_literals literals) min max
  | AllDifferent variables => AllDifferent (canonical_ids variables)
  | Min target inputs => Min target (canonical_ids inputs)
  | Max target inputs => Max target (canonical_ids inputs)
  | AllowedTable variables rows => AllowedTable variables (dedup (ord_sort rows))
  | ForbiddenTable variables rows => ForbiddenTable variables (dedup (ord_sort rows))
  | NoOverlap intervals => NoOverlap (canonical_ids intervals)
  | Cumulative intervals demands capacity =>
      let pairs := sort_by_key fst (zip intervals demands) in
      Cumulative pairs.*1 pairs.*2 capacity
  | Implication _ _ | Equivalence_ _ _ | LinearComparison_ _ | ReifiedLinearComparison _ _
  | Element _ _ _ | Equality _ _ | AbsDifference _ _ _ => body
  end.
Definition ConstraintRecord_canonicalize (self : ConstraintRecord) : ConstraintRecord :=
  {| cr_id := cr_id self;
     cr_body := canonicalize_body (cr_body self);
     cr_enforcement := canonical_literals (cr_enforcement self);
     cr_provenance := cr_provenance self;
     cr_tags := canonical_ids (cr_tags self) |}.

(** ** Objectives, assumptions, provenance, projections *)
Inductive ObjectiveTermKind := Penalty | Reward.
#[global] Instance ObjectiveTermKind_eq_dec : EqDecision ObjectiveTermKind.
Proof. solve_decision. Defined.
Record ObjectiveTerm := {
  ot_id : string;
  ot_expression : LinearExpression;
  ot_kind : ObjectiveTermKind;
  ot_category : string;
  ot_provenance : string
}.
Record ObjectiveLevel := {
  ol_id : string;
  ol_direction : OptimizationDirection;
  ol_lower_bound : Z;
  ol_upper_bound : Z;
  ol_terms : list ObjectiveTerm;
  ol_provenance : string
}.
Record ObjectivePlan := { op_levels : list ObjectiveLevel }.
Record Assumption := {
  as_id : string;
  as_literal : Literal;
  as_required_rules : list string;
  as_provenance : string
}.
Inductive ProvenanceParameter :=
| PBoolean (b : bool)
| PInteger (z : Z)
| PText (s : string)
| PEntity (e : DomainEntityRef).
Inductive ProvenanceSourceKind := RequiredRule | Preference | Fact_ | Derived | Projection.
#[global] Instance ProvenanceSourceKind_eq_dec : EqDecision ProvenanceSourceKind.
Proof. solve_decision. Defined.
Record ProvenanceRecord := {
  pr_id : string;
  pr_source_kind : ProvenanceSourceKind;
  pr_source_id : string;
  pr_entity_refs : list DomainEntityRef;
  pr_message_key : string;
  pr_parameters : gmap string ProvenanceParameter;
  pr_parent : option string
}.
Inductive ProjectionExpression :=
| PEBoolean (id : string)
| PEInteger (id : string)
| PELinear (expression : LinearExpression)
| PEInterval (id : string)
| PEConstant (value : AssignmentValue).
Record SolutionProjection := {
  sp_id : string;
  sp_assignment_id : string;
  sp_entity : DomainEntityRef;
  sp_required : bool;
  sp_expression : ProjectionExpression;
  sp_provenance : string
}.
Record PlanningMetadata := {
  pm_pack_id : string;
  pm_scenario_id : string;
  pm_scenario_revision : Z;
  pm_projection_version : Z;
  pm_compiler_id : string;
  pm_compiler_version : string;
  pm_compile_metadata : gmap string ProvenanceParameter;
  pm_display_text : gmap string string
}.
#[global] Instance ObjectiveTerm_eq_dec : EqDecision ObjectiveTerm.
Proof. solve_decision. Defined.
#[global] Instance ObjectiveLevel_eq_dec : EqDecision ObjectiveLevel.
Proof. solve_decision. Defined.
#[global] Instance ObjectivePlan_eq_dec : EqDecision ObjectivePlan.
Proof. solve_decision. Defined.
#[global] Instance Assumption_eq_dec : EqDecision Assumption.
Proof. solve_decision. Defined.
#[global] Instance ProvenanceParameter_eq_dec : EqDecision ProvenanceParameter.
Proof. solve_decision. Defined.
#[global] Instance ProvenanceRecord_eq_dec : EqDecision ProvenanceRecord.
Proof. solve_decision. Defined.
#[global] Instance ProjectionExpression_eq_dec : EqDecision ProjectionExpression.
Proof. solve_decision. Defined.
#[global] Instance SolutionProjection_eq_dec : EqDecision SolutionProjection.
Proof. solve_decision. Defined.
#[global] Instance PlanningMetadata_eq_dec : EqDecision PlanningMetadata.
Proof. solve_decision. Defined.

(** Capabilities in their declaration order, which is their derived [Ord]. *)
Inductive Capability :=
| CapBoolOr | CapBoolAnd | CapImplication | CapEquivalence | CapAtMostOne | CapExactlyOne
| CapCardinalityRange | CapLinearComparison | CapReifiedLinearComparison | CapAllDifferent
| CapAllowedTable | CapForbiddenTable | CapElement | CapMin | CapMax | CapEquality
| CapAbsDifference | CapNoOverlap | CapCumulative | CapOptionalIntervals | CapObjectivePenalty
| CapObjectiveReward | CapAssumptions | CapBooleanProjection | CapIntegerProjection
| CapIntervalProjection | CapAbsentProjection.
#[global] Instance Capability_eq_dec : EqDecision Capability.
Proof. solve_decision. Defined.
Definition all_capabilities : list Capability :=
  [CapBoolOr; CapBoolAnd; CapImplication; CapEquivalence; CapAtMostOne; CapExactlyOne;
   CapCardinalityRange; CapLinearComparison; CapReifiedLinearComparison; CapAllDifferent;
   CapAllowedTable; CapForbiddenTable; CapElement; CapMin; CapMax; CapEquality;
   CapAbsDifference; CapNoOverlap; CapCumulative; CapOptionalIntervals; CapObjectivePenalty;
   CapObjectiveReward; CapAssumptions; CapBooleanProjection; CapIntegerProjection;
   CapIntervalProjection; CapAbsentProjection].
#[global] Program Instance Capability_finite : finite.Finite Capability :=
  {| finite.enum := all_capabilities |}.
Next Obligation. by apply (bool_decide_unpack _). Qed.
Next Obligation. intros []; by apply (bool_decide_unpack _). Qed.
#[global] Instance Capability_countable : Countable Capability := finite.finite_countable.

Record SplitAuthorization := {
  sa_component_hash : string;
  sa_domain_merge_contract : string;
  sa_projection_independent : bool
}.
#[global] Instance SplitAuthorization_eq_dec : EqDecision SplitAuthorization.
Proof. solve_decision. Defined.

Record PlanningProblem := {
  schema_version : Z;
  variables : list Variable_;
  constraints : list ConstraintRecord;
  objectives : ObjectivePlan;
  assumptions : list Assumption;
  projections : list SolutionProjection;
  provenance : list ProvenanceRecord;
  metadata : PlanningMetadata;
  declared_capabilities : gset Capability;
  split_authorization : option SplitAuthorization
}.

(** ** Integer domains: lemmas *)
Arguments contains : simpl never.
Arguments bounds : simpl never.
Definition range_ok (r : InclusiveRange) : Prop := start r ≤ end_ r.
Definition range_i64 (r : InclusiveRange) : Prop := is_i64 (start r) ∧ is_i64 (end_ r).
Definition gap (r1 r2 : InclusiveRange) : Prop := end_ r1 + 1 < start r2.
(** The canonical representation: nonempty ranges, increasing, with a gap between neighbours. *)
Definition canonical_ranges (rs : list InclusiveRange) : Prop :=
  Forall range_ok rs ∧ StronglySorted gap rs.
Definition member (rs : list InclusiveRange) (v : Z) : Prop :=
  Exists (λ r, start r ≤ v ≤ end_ r) rs.

Lemma contains_member d v : contains d v = true ↔ member (inclusive_ranges d) v.
Proof.
  unfold contains, member. rewrite existsb_exists, List.Exists_exists. unfold range_contains.
  setoid_rewrite andb_true_iff. by setoid_rewrite Z.leb_le.
Qed.

Lemma member_perm rs rs' v : rs ≡ₚ rs' → member rs v ↔ member rs' v.
Proof. unfold member. by intros ->. Qed.
Lemma member_cons r rs v : member (r :: rs) v ↔ (start r ≤ v ≤ end_ r) ∨ member rs v.
Proof. unfold member. by rewrite Exists_cons. Qed.
Lemma member_reverse rs v : member (reverse rs) v ↔ member rs v.
Proof. apply member_perm, reverse_Permutation. Qed.

Lemma touches_spec range last :
  touches range last = true →
  start range ≤ end_ last + 1.
Proof.
  unfold touches, i64_checked_add. rewrite orb_true_iff, Z.leb_le. intros [|H]; [lia|].
  destruct (checked_i64 _) eqn:E; [|done]. apply checked_i64_Some in E as [-> _].
  apply Z.leb_le in H. lia.
Qed.
Lemma not_touches_gap range last :
  range_i64 range → touches range last = false → gap last range.
Proof.
  unfold touches, i64_checked_add, gap. rewrite orb_false_iff, Z.leb_gt.
  intros [Hs _] [Hlt H]. destruct (checked_i64 _) eqn:E.
  - apply checked_i64_Some in E as [-> _]. apply Z.leb_gt in H. lia.
  - apply checked_i64_None in E. unfold is_i64 in *. lia.
Qed.

(** The merge loop: what is still to be read starts no earlier than the last merged range. *)
Lemma merge_ranges_inv todo acc :
  Forall range_ok todo → Forall range_i64 todo →
  StronglySorted le todo →
  Forall range_ok acc → StronglySorted (λ a b, gap b a) acc →
  (∀ r last, r ∈ todo → head acc = Some last → start last ≤ start r) →
  let out := foldl merge_range acc todo in
  Forall range_ok out ∧ StronglySorted (λ a b, gap b a) out ∧
  (∀ v, member out v ↔ member acc v ∨ member todo v).
Proof.
  revert acc. induction todo as [|r todo IH]; intros acc Hok Hi64 Hsort Haok Hasort Hhd; cbn.
  { split_and!; [done|done|]. intros v. unfold member. rewrite Exists_nil. tauto. }
  apply Forall_cons_1 in Hok as [Hr Hok]. apply Forall_cons_1 in Hi64 as [Hri Hi64].
  apply StronglySorted_inv in Hsort as [Hsort Hle]. rewrite Forall_forall in Hle.
  assert (∀ r', r' ∈ todo → start r ≤ start r') as Hstart.
  { intros r' Hr'. apply Hle in Hr'. unfold le, cmp, InclusiveRange_ord, ord_on, prod_ord, cmp, Z_ord in Hr'.
    cbn in Hr'. destruct (Z.compare_spec (start r) (start r')); [lia|lia|done]. }
  destruct acc as [|last rest]; cbn [merge_range].
  { edestruct (IH [r]) as (H1 & H2 & H3); [done|done|done|by repeat constructor|by repeat constructor| |].
    { intros r' l Hr' [= <-]. auto. }
    split_and!; [done|done|]. intros v. rewrite H3, !member_cons. unfold member.
    rewrite Exists_nil. tauto. }
  apply Forall_cons_1 in Haok as [Hlast Hrest].
  apply StronglySorted_inv in Hasort as [Hrsort Hgap].
  assert (start last ≤ start r) as Hlr by (apply Hhd; [by left|done]).
  unfold range_ok in *. destruct (touches r last) eqn:Ht.
  - apply touches_spec in Ht.
    edestruct (IH ({| start := start last; end_ := Z.max (end_ last) (end_ r) |} :: rest))
      as (H1 & H2 & H3); [done|done|done| | | |].
    + constructor; [cbn; lia|done].
    + constructor; [done|]. eapply Forall_impl; [done|]. unfold gap. cbn. done.
    + intros r' l Hr' [= <-]. cbn. specialize (Hstart r' Hr'). lia.
    + split_and!; [done|done|]. intros v. rewrite H3, !member_cons. cbn. intuition lia.
  - apply not_touches_gap in Ht; [|done].
    edestruct (IH (r :: last :: rest)) as (H1 & H2 & H3); [done|done|done| | | |].
    + by repeat constructor.
    + constructor; [by constructor|]. constructor; [done|]. eapply Forall_impl; [done|].
      unfold gap in *. intros; lia.
    + intros r' l Hr' [= <-]. auto.
    + split_and!; [done|done|]. intros v. rewrite H3, !member_cons. tauto.
Qed.

Lemma StronglySorted_app_iff {A} (R : A → A → Prop) l k :
  StronglySorted R (l ++ k) ↔
  StronglySorted R l ∧ StronglySorted R k ∧ Forall (λ x, Forall (R x) k) l.
Proof.
  induction l as [|x l IH]; cbn.
  - split; [intros; split_and!; [constructor|done|constructor]|tauto].
  - split.
    + intros [Hs Hall]%StronglySorted_inv. apply IH in Hs as (H1 & H2 & H3).
      apply Forall_app in Hall as [??]. split_and!; [by constructor|done|by constructor].
    + intros ([Hs Hall]%StronglySorted_inv & Hk & [Hx Hlk]%Forall_cons_1).
      constructor; [apply IH; done|]. by apply Forall_app.
Qed.

Lemma StronglySorted_reverse {A} (R : A → A → Prop) l :
  StronglySorted R l → StronglySorted (λ x y, R y x) (reverse l).
Proof.
  induction 1 as [|x l Hs IH Hall]; [constructor|]. rewrite reverse_cons.
  apply StronglySorted_app_iff. split_and!; [done|by repeat constructor|].
  rewrite Forall_forall in *. intros y Hy. constructor; [|constructor]. apply Hall.
  by apply elem_of_reverse.
Qed.

(** Normalization: [IntDomain::new] succeeds exactly on nonempty lists of ranges that are not
    reversed, and the result is the canonical representation of their union. *)
Lemma IntDomain_new_spec rs d :
  Forall range_i64 rs → IntDomain_new rs = Ok d →
  canonical_ranges (inclusive_ranges d) ∧ (∀ v, contains d v = true ↔ member rs v) ∧
  rs ≠ [] ∧ Forall range_ok rs.
Proof.
  intros Hi64. unfold IntDomain_new. case_bool_decide as Hne; [done|].
  destruct (existsb _ _) eqn:Hrev; [done|]. intros [= <-]. cbn.
  assert (Forall range_ok rs) as Hok.
  { apply List.Forall_forall. intros r Hr. unfold range_ok.
    destruct (Z.le_gt_cases (start r) (end_ r)); [done|].
    assert (existsb (λ range, end_ range <? start range) rs = true) as Hx; [|congruence].
    apply existsb_exists. exists r. split; [done|]. by apply Z.ltb_lt. }
  assert (ord_sort rs ≡ₚ rs) as Hperm by apply sort_by_key_perm.
  destruct (merge_ranges_inv (ord_sort rs) []) as (H1 & H2 & H3); try by rewrite Hperm.
  - apply sort_by_key_sorted.
  - constructor.
  - constructor.
  - done.
  - split_and!; [| |done|done].
    + split; [by apply Forall_reverse|]. by apply StronglySorted_reverse in H2.
    + intros v. rewrite contains_member. cbn. rewrite member_reverse, H3.
      rewrite (member_perm _ _ _ Hperm). unfold member. rewrite Exists_nil. tauto.
Qed.

Lemma IntDomain_new_total rs :
  rs ≠ [] → Forall range_ok rs → ∃ d, IntDomain_new rs = Ok d.
Proof.
  intros Hne Hok. unfold IntDomain_new. rewrite bool_decide_false by done.
  destruct (existsb _ _) eqn:Hrev; [|eauto]. apply existsb_exists in Hrev as (r & Hr & Hlt).
  apply Z.ltb_lt in Hlt. rewrite List.Forall_forall in Hok. apply Hok in Hr. unfold range_ok in Hr. lia.
Qed.

Lemma member_gap r rs v : Forall (gap r) rs → Forall range_ok rs → member rs v → end_ r + 1 < v.
Proof.
  unfold member. rewrite !Forall_forall, Exists_exists. unfold gap. intros Hg Hok (x & Hx & Hv).
  apply Hg in Hx. lia.
Qed.

(** The canonical representation of a set of integers is unique. *)
Lemma canonical_ranges_unique rs ks :
  canonical_ranges rs → canonical_ranges ks → (∀ v, member rs v ↔ member ks v) → rs = ks.
Proof.
  intros [Hok Hs] [Kok Ks]. revert ks Kok Ks Hs.
  induction Hok as [|r rs Hr Hok IH]; intros [|k ks] Kok Ks Hs Heq; [done| | |].
  - apply Forall_cons_1 in Kok as [Hk _]. unfold range_ok in Hk.
    assert (member [] (start k)) as H by (apply Heq, member_cons; lia). by inversion H.
  - unfold range_ok in Hr.
    assert (member [] (start r)) as H by (apply Heq, member_cons; lia). by inversion H.
  - apply Forall_cons_1 in Kok as [Hk Kok]. unfold range_ok in Hr, Hk.
    apply StronglySorted_inv in Hs as [Hs Hg]. apply StronglySorted_inv in Ks as [Ks Kg].
    assert (∀ v, member rs v → end_ r + 1 < v) as Hlo by (intros; by eapply member_gap).
    assert (∀ v, member ks v → end_ k + 1 < v) as Klo by (intros; by eapply member_gap).
    setoid_rewrite member_cons in Heq.
    assert (start r = start k) as Hst.
    { pose proof (proj1 (Heq (start r)) ltac:(left; lia)) as [|?%Klo];
        pose proof (proj2 (Heq (start k)) ltac:(left; lia)) as [|?%Hlo]; lia. }
    assert (end_ r = end_ k) as Hen.
    { destruct (Z.lt_trichotomy (end_ r) (end_ k)) as [Hlt|[?|Hlt]]; [|done|].
      - pose proof (proj2 (Heq (end_ r + 1)) ltac:(left; lia)) as [|?%Hlo]; lia.
      - pose proof (proj1 (Heq (end_ k + 1)) ltac:(left; lia)) as [|?%Klo]; lia. }
    f_equal; [by destruct r, k; cbn in *; subst|]. apply IH; [done|done|done|].
    intros v. specialize (Heq v). split; intros Hv.
    + destruct (proj1 Heq (or_intror Hv)); [|done]. apply Hlo in Hv. lia.
    + destruct (proj2 Heq (or_intror Hv)); [|done]. apply Klo in Hv. lia.
Qed.

(** [IntDomain::new] is total and exact: it rejects the empty list and any reversed range, and
    otherwise returns the canonical sorted union (a gap between any two ranges) that contains
    precisely the values of the given ranges. *)
Theorem int_domain_normalization rs :
  Forall range_i64 rs →
  (rs = [] → IntDomain_new rs = Err EmptyDomain) ∧
  (rs ≠ [] → ¬ Forall range_ok rs → IntDomain_new rs = Err ReversedRange) ∧
  (rs ≠ [] → Forall range_ok rs →
     ∃ d, IntDomain_new rs = Ok d ∧ canonical_ranges (inclusive_ranges d) ∧
          ∀ v, contains d v = true ↔ ∃ r, r ∈ rs ∧ start r ≤ v ≤ end_ r).
Proof.
  intros Hi64. split_and!.
  - by intros ->.
  - intros Hne Hok. unfold IntDomain_new. rewrite bool_decide_false by done.
    destruct (existsb _ _) eqn:Hrev; [done|]. destruct Hok.
    apply List.Forall_forall. intros r Hr. unfold range_ok.
    destruct (Z.le_gt_cases (start r) (end_ r)); [done|].
    assert (existsb (λ range, end_ range <? start range) rs = true) as Hx; [|congruence].
    apply existsb_exists. exists r. split; [done|]. by apply Z.ltb_lt.
  - intros Hne Hok. destruct (IntDomain_new_total rs Hne Hok) as [d Hd]. exists d.
    destruct (IntDomain_new_spec rs d Hi64 Hd) as (Hc & Hm & _).
    split_and!; [done|done|]. intros v. rewrite Hm. unfold member. by rewrite Exists_exists.
Qed.

Lemma IntDomain_new_canonical rs :
  Forall range_i64 rs → rs ≠ [] → canonical_ranges rs →
  IntDomain_new rs = Ok {| inclusive_ranges := rs |}.
Proof.
  intros Hi64 Hne Hc. destruct (IntDomain_new_total rs Hne (proj1 Hc)) as [[ks] Hd]. rewrite Hd.
  destruct (IntDomain_new_spec rs _ Hi64 Hd) as (Hk & Hm & _). do 2 f_equal.
  apply canonical_ranges_unique; [done|done|]. intros v.
  rewrite <-Hm, contains_member. done.
Qed.

(** Canonical domains are fixed points of the constructor, and two domains in canonical form
    denote the same set of integers only when they are the same value: equality of serialized
    domains is equality of meaning. *)
Theorem int_domain_canonical_form d1 d2 :
  Forall range_i64 (inclusive_ranges d1) → inclusive_ranges d1 ≠ [] →
  canonical_ranges (inclusive_ranges d1) → canonical_ranges (inclusive_ranges d2) →
  IntDomain_new (inclusive_ranges d1) = Ok d1 ∧
  ((∀ v, contains d1 v = contains d2 v) → d1 = d2).
Proof.
  destruct d1 as [rs], d2 as [ks]. cbn. intros Hi64 Hne Hc1 Hc2. split.
  - by apply IntDomain_new_canonical.
  - intros Heq. f_equal. apply canonical_ranges_unique; [done|done|]. intros v.
    rewrite <-(contains_member {| inclusive_ranges := rs |}),
      <-(contains_member {| inclusive_ranges := ks |}). by rewrite Heq.
Qed.

Lemma canonical_ranges_last_max r rs l :
  canonical_ranges (r :: rs) → last (r :: rs) = Some l → end_ r ≤ end_ l ∧ start r ≤ start l.
Proof.
  intros [[Hr Hok]%Forall_cons_1 [_ Hg]%StronglySorted_inv]. destruct rs as [|k rs].
  { intros [= <-]. lia. }
  rewrite last_cons_cons. intros Hl%last_Some_elem_of. rewrite Forall_forall in Hg, Hok.
  pose proof (Hg l Hl) as Hgap. pose proof (Hok l Hl) as Hrl. unfold gap, range_ok in *. lia.
Qed.

Lemma bounds_spec d :
  canonical_ranges (inclusive_ranges d) → inclusive_ranges d ≠ [] →
  ∃ lo hi, bounds d = Some (lo, hi) ∧ contains d lo = true ∧ contains d hi = true ∧
           ∀ v, contains d v = true → lo ≤ v ≤ hi.
Proof.
  destruct d as [rs]. cbn. unfold bounds. cbn. intros Hc Hne.
  destruct rs as [|r rs]; [done|]. cbn [head].
  destruct (last (r :: rs)) as [l|] eqn:Hl; [|by apply last_None in Hl].
  exists (start r), (end_ l). split; [done|].
  pose proof Hc as [Hok Hs]. rewrite Forall_forall in Hok.
  assert (range_ok r ∧ range_ok l) as [Hr Hlok].
  { split; apply Hok; [by left|by eapply last_Some_elem_of]. }
  unfold range_ok in *. rewrite !contains_member. cbn. split_and!.
  - apply member_cons. lia.
  - unfold member. apply Exists_exists. exists l. split; [by eapply last_Some_elem_of|lia].
  - intros v. rewrite contains_member. cbn. unfold member. rewrite Exists_exists.
    intros (x & Hx & Hv). split.
    + apply elem_of_cons in Hx as [->|Hx]; [lia|]. apply StronglySorted_inv in Hs as [_ Hg].
      rewrite Forall_forall in Hg. apply Hg in Hx. unfold gap in Hx. lia.
    + apply list_elem_of_split in Hx as (l1 & l2 & Heq). rewrite Heq in Hc, Hl.
      rewrite last_app_cons in Hl.
      assert (canonical_ranges (x :: l2)) as Hc'.
      { destruct Hc as [[_ Hok']%Forall_app (_ & Hs' & _)%StronglySorted_app_iff]. done. }
      apply (canonical_ranges_last_max _ _ _ Hc') in Hl. lia.
Qed.

(** ** Linear expressions: lemmas *)
Definition term_value (σ : string → Z) (t : LinearTerm) : Z := lt_coefficient t * σ (lt_variable t).
Definition terms_value (σ : string → Z) (l : list LinearTerm) : Z :=
  foldr Z.add 0 (term_value σ <$> l).
(** The mathematical meaning of an expression under an assignment of the integer variables. *)
Definition expression_value (σ : string → Z) (e : LinearExpression) : Z :=
  le_constant e + terms_value σ (le_terms e).
Definition entries_value (σ : string → Z) (l : list (string * Z)) : Z :=
  foldr Z.add 0 ((λ p, p.2 * σ p.1) <$> l).
(** Canonical expressions: strictly sorted by variable, no zero coefficient. *)
Definition canonical_expression (e : LinearExpression) : Prop :=
  strictly_sorted_by lt_variable (le_terms e) = true ∧
  Forall (λ t, lt_coefficient t ≠ 0) (le_terms e).

Lemma entries_value_perm σ l k : l ≡ₚ k → entries_value σ l = entries_value σ k.
Proof. unfold entries_value. induction 1; cbn; lia. Qed.

Lemma combine_term_value σ m t m' :
  combine_term m t = Ok m' →
  entries_value σ (map_to_list m') = entries_value σ (map_to_list m) + term_value σ t.
Proof.
  unfold combine_term. rewrite result_bind_Ok. intros (c & Hc%ok_or_Ok & [= <-]).
  unfold i64_checked_add in Hc. apply checked_i64_Some in Hc as [-> _]. unfold term_value.
  set (v := lt_variable t). rewrite <-insert_delete_eq.
  rewrite (entries_value_perm σ _ _ (map_to_list_insert _ _ _ (lookup_delete_eq m v))).
  destruct (m !! v) as [p|] eqn:Hm; cbn.
  - rewrite (entries_value_perm σ _ _ (symmetry (map_to_list_delete m v p Hm))).
    unfold entries_value. cbn. ring.
  - rewrite (delete_id m v Hm). unfold entries_value. cbn. ring.
Qed.

Lemma combine_terms_value σ l m m' :
  fold_m combine_term m l = Ok m' →
  entries_value σ (map_to_list m') = entries_value σ (map_to_list m) + terms_value σ l.
Proof.
  revert m. induction l as [|t l IH]; intros m; cbn.
  - intros [= <-]. cbn. lia.
  - rewrite result_bind_Ok. intros (m1 & H1 & H2). apply IH in H2.
    apply (combine_term_value σ) in H1. unfold terms_value in *. lia.
Qed.

Lemma nonzero_terms_value σ l :
  terms_value σ (omap nonzero_term l) = entries_value σ l.
Proof.
  unfold terms_value, entries_value. induction l as [|[v c] l IH]; cbn; [done|].
  unfold nonzero_term at 1. cbn. destruct (Z.eqb_spec c 0) as [->|]; cbn; [lia|].
  unfold term_value at 1. cbn. lia.
Qed.

Lemma btree_iter_sorted {V} (m : gmap string V) : strictly_sorted_by fst (btree_iter m) = true.
Proof.
  unfold btree_iter. apply strictly_sorted_by_spec.
  pose proof (sort_by_key_sorted fst (map_to_list m)) as Hs.
  assert (NoDup (sort_by_key fst (map_to_list m)).*1) as Hnd.
  { rewrite sort_by_key_perm. apply NoDup_fst_map_to_list. }
  induction Hs as [|x l Hs IH Hall]; [constructor|]. cbn in Hnd. apply NoDup_cons in Hnd as [Hx Hnd].
  constructor; [auto|]. rewrite Forall_forall in *. intros y Hy.
  pose proof (Hall y Hy) as Hle. apply le_lt_eq in Hle as [|Heq]; [done|].
  destruct Hx. rewrite Heq. by apply list_elem_of_fmap_2.
Qed.

Lemma nonzero_terms_sorted l :
  strictly_sorted_by fst l = true → strictly_sorted_by lt_variable (omap nonzero_term l) = true.
Proof.
  rewrite !strictly_sorted_by_spec. induction 1 as [|[v c] l Hs IH Hall]; [constructor|].
  cbn. unfold nonzero_term at 1. cbn. destruct (c =? 0); cbn; [done|]. constructor; [done|].
  rewrite Forall_forall in Hall. rewrite Forall_forall. intros t (p & Hp & Ht)%list_elem_of_omap.
  unfold nonzero_term in Ht. destruct (p.2 =? 0); [done|]. simplify_eq. cbn. by apply (Hall p).
Qed.

Lemma LinearExpression_new_Ok terms constant e :
  LinearExpression_new terms constant = Ok e →
  canonical_expression e ∧ le_constant e = constant ∧
  ∀ σ, expression_value σ e = constant + terms_value σ terms.
Proof.
  unfold LinearExpression_new. rewrite result_bind_Ok. intros (m & Hm & [= <-]).
  unfold expression_value, canonical_expression. cbn [le_terms le_constant]. split_and!; [| |done|].
  - apply nonzero_terms_sorted, btree_iter_sorted.
  - rewrite Forall_forall. intros t (p & _ & Ht)%list_elem_of_omap.
    unfold nonzero_term in Ht. destruct (Z.eqb_spec p.2 0); [done|]. by simplify_eq.
  - intros σ. rewrite nonzero_terms_value. f_equal.
    rewrite (entries_value_perm σ (btree_iter m) (map_to_list m)) by apply sort_by_key_perm.
    apply (combine_terms_value σ) in Hm. rewrite map_to_list_empty in Hm. cbn in Hm. done.
Qed.

Definition indicator (v : string) : string → Z := λ w, if decide (w = v) then 1 else 0.

Lemma terms_value_cons σ t l : terms_value σ (t :: l) = term_value σ t + terms_value σ l.
Proof. done. Qed.
Lemma indicator_absent v l : v ∉ lt_variable <$> l → terms_value (indicator v) l = 0.
Proof.
  induction l as [|t l IH]; [done|]. cbn [fmap list_fmap]. rewrite not_elem_of_cons, terms_value_cons.
  intros [Hne Hl]. rewrite IH by done. unfold term_value, indicator. rewrite decide_False by done. lia.
Qed.
Lemma indicator_present t l :
  NoDup (lt_variable <$> l) → t ∈ l → terms_value (indicator (lt_variable t)) l = lt_coefficient t.
Proof.
  induction l as [|u l IH]; [by intros _ ?%not_elem_of_nil|]. cbn [fmap list_fmap].
  rewrite NoDup_cons, elem_of_cons, terms_value_cons. intros [Hu Hnd] [->|Ht].
  - rewrite indicator_absent by done. unfold term_value, indicator. rewrite decide_True by done. lia.
  - rewrite IH by done. unfold term_value, indicator. rewrite decide_False; [lia|].
    intros Heq. destruct Hu. rewrite Heq. by apply list_elem_of_fmap_2.
Qed.

Lemma canonical_expression_sub e1 e2 t :
  canonical_expression e1 → canonical_expression e2 →
  (∀ v, terms_value (indicator v) (le_terms e1) = terms_value (indicator v) (le_terms e2)) →
  t ∈ le_terms e1 → t ∈ le_terms e2.
Proof.
  intros [Hs1 Hz1] [Hs2 _] Heq Ht. specialize (Heq (lt_variable t)).
  apply strictly_sorted_by_NoDup in Hs1, Hs2. rewrite Forall_forall in Hz1.
  rewrite (indicator_present t _ Hs1 Ht) in Heq.
  destruct (decide (lt_variable t ∈ lt_variable <$> le_terms e2)) as [(u & Hu & Hin)%list_elem_of_fmap|Hn].
  - rewrite Hu, (indicator_present u _ Hs2 Hin) in Heq.
    assert (t = u) as -> by (destruct t, u; cbn in *; by subst). done.
  - rewrite (indicator_absent _ _ Hn) in Heq. by destruct (Hz1 t Ht).
Qed.

Lemma canonical_expression_unique e1 e2 :
  canonical_expression e1 → canonical_expression e2 →
  (∀ σ, expression_value σ e1 = expression_value σ e2) → e1 = e2.
Proof.
  intros H1 H2 Heq.
  assert (le_constant e1 = le_constant e2) as Hc.
  { specialize (Heq (λ _, 0)). unfold expression_value in Heq.
    assert (∀ l, terms_value (λ _, 0) l = 0) as Hz.
    { induction l as [|t l IH]; [done|]. rewrite terms_value_cons, IH. unfold term_value. lia. }
    rewrite !Hz in Heq. lia. }
  assert (∀ σ, terms_value σ (le_terms e1) = terms_value σ (le_terms e2)) as Ht.
  { intros σ. specialize (Heq σ). unfold expression_value in Heq. lia. }
  assert (le_terms e1 = le_terms e2).
  { apply (strictly_sorted_by_ext lt_variable); [apply H1|apply H2|]. intros t.
    split; eapply canonical_expression_sub; eauto. }
  destruct e1, e2; cbn in *; by subst.
Qed.

Lemma combine_terms_fresh l m :
  NoDup (lt_variable <$> l) → Forall (λ t, is_i64 (lt_coefficient t)) l →
  (∀ v, v ∈ lt_variable <$> l → m !! v = None) → ∃ m', fold_m combine_term m l = Ok m'.
Proof.
  revert m. induction l as [|t l IH]; intros m Hnd Hi Hm; cbn [fold_m]; [by eexists|].
  cbn [fmap list_fmap] in *. apply NoDup_cons in Hnd as [Ht Hnd].
  apply Forall_cons_1 in Hi as [Hti Hi].
  assert (combine_term m t = Ok (<[lt_variable t := lt_coefficient t]> m)) as ->.
  { unfold combine_term, i64_checked_add. rewrite Hm by by left. change (default 0 None) with 0.
    rewrite Z.add_0_l.
    by rewrite (proj2 (checked_i64_Some (lt_coefficient t) _) (conj eq_refl Hti)). }
  cbn. apply IH; [done|done|]. intros v Hv. rewrite lookup_insert_ne by congruence.
  apply Hm. by right.
Qed.

Lemma LinearExpression_new_canonical e :
  canonical_expression e → Forall (λ t, is_i64 (lt_coefficient t)) (le_terms e) →
  LinearExpression_new (le_terms e) (le_constant e) = Ok e.
Proof.
  intros Hc Hi. pose proof Hc as [Hs _]. apply strictly_sorted_by_NoDup in Hs.
  destruct (combine_terms_fresh (le_terms e) ∅ Hs Hi) as [m Hm]; [done|].
  destruct (LinearExpression_new (le_terms e) (le_constant e)) as [e'|] eqn:He.
  - f_equal. destruct (LinearExpression_new_Ok _ _ _ He) as (Hc' & _ & Hv).
    apply canonical_expression_unique; [done|done|]. intros σ. by rewrite Hv.
  - unfold LinearExpression_new in He. by rewrite Hm in He.
Qed.

(** [LinearExpression::new] keeps the meaning of the expression under every assignment and
    returns a canonical expression (sorted, one term per variable, no zero coefficient); two
    canonical expressions with the same meaning are equal, so canonicalization is a normal form. *)
Theorem linear_expression_normal_form :
  (∀ terms constant e, LinearExpression_new terms constant = Ok e →
     canonical_expression e ∧ ∀ σ, expression_value σ e = constant + terms_value σ terms) ∧
  (∀ e1 e2, canonical_expression e1 → canonical_expression e2 →
     (∀ σ, expression_value σ e1 = expression_value σ e2) → e1 = e2) ∧
  (∀ e, canonical_expression e → Forall (λ t, is_i64 (lt_coefficient t)) (le_terms e) →
     LinearExpression_new (le_terms e) (le_constant e) = Ok e).
Proof.
  split_and!.
  - intros terms constant e He. apply LinearExpression_new_Ok in He as (? & _ & ?). done.
  - apply canonical_expression_unique.
  - apply LinearExpression_new_canonical.
Qed.
