(* ===== verification/Analysis.v ===== *)
(** * Feature usage, mathematical components, lexicographic strategy

    Models [crates/eutheto-planning-ir/src/analysis.rs].  Every traversal takes the optional
    preparation budget of the source: [None] is the uncontrolled entry point, [Some] charges work
    and transient bytes.  BLAKE3 is a parameter of the component hash. *)
From stdpp Require Import base tactics list gmap strings pretty relations.
From Stdlib Require Import ZArith Lia Ascii.
From S2P Require Import Prelude Ordering Control Budget Ids DomainIr Model.
Open Scope Z_scope.

(** ** Optional budgets *)
Notation Ctx := (option PlanningPreparationBudget).
Notation AM := (SE Ctx PlanningPreparationError).

(** Runs a budget operation when there is a budget. *)
Definition budgeted {A} (m : Prep A) : AM (option A) := λ ctx,
  match ctx with
  | None => (Ok None, None)
  | Some b => let '(r, b') := m b in
              (match r with Ok a => Ok (Some a) | Err e => Err e end, Some b')
  end.
Definition charge (amount : Z) : AM unit := _ ← budgeted (reserve_work amount); mret tt.
Definition visit : AM unit := charge 1.
Definition visits {A} (l : list A) : AM unit := for_each (λ _, visit) l.
(** A live owned reservation of the given size, or none without a budget. *)
Definition Guard : Type := option Z.
Definition open_guard (m : Prep Z) : AM Guard :=
  budgeted (amount ← m; r ← reserve_transient_owned amount; mret (bytes r)).
Definition retire_guard {E} (g : Guard) : SE Ctx E unit := λ ctx,
  (Ok tt, match g, ctx with Some n, Some b => Some (retire n b) | _, _ => ctx end).
(** The region in which a guard is alive: an early return drops it. *)
Definition on_err {E A} (g : Guard) (m : SE Ctx E A) : SE Ctx E A := λ ctx,
  match m ctx with
  | (Ok a, ctx') => (Ok a, ctx')
  | (Err e, ctx') => (Err e, (retire_guard (E := E) g ctx').2)
  end.
(** A guard whose scope is exactly [m]. *)
Definition guarded {E A} (g : Guard) (m : SE Ctx E A) : SE Ctx E A :=
  a ← on_err g m; _ ← retire_guard g; mret a.

(** ** Feature usage *)
Record FeatureUsageManifest := {
  capability_counts : gmap Capability Z;
  optional_interval_count : Z;
  global_interval_constraint_count : Z;
  table_row_count : Z;
  table_cell_count : Z;
  linear_term_count : Z;
  literal_reference_count : Z
}.
Definition manifest_default : FeatureUsageManifest := {|
  capability_counts := ∅; optional_interval_count := 0; global_interval_constraint_count := 0;
  table_row_count := 0; table_cell_count := 0; linear_term_count := 0;
  literal_reference_count := 0 |}.
Definition manifest_add (capability : Capability) (u : FeatureUsageManifest) :
    FeatureUsageManifest := {|
  capability_counts :=
    <[capability := u64_saturating_add (default 0 (capability_counts u !! capability)) 1]>
      (capability_counts u);
  optional_interval_count := optional_interval_count u;
  global_interval_constraint_count := global_interval_constraint_count u;
  table_row_count := table_row_count u; table_cell_count := table_cell_count u;
  linear_term_count := linear_term_count u;
  literal_reference_count := literal_reference_count u |}.
Definition required_capabilities (u : FeatureUsageManifest) : gset Capability :=
  dom (capability_counts u).
Definition add_optional_interval (u : FeatureUsageManifest) : FeatureUsageManifest := {|
  capability_counts := capability_counts u;
  optional_interval_count := u64_saturating_add (optional_interval_count u) 1;
  global_interval_constraint_count := global_interval_constraint_count u;
  table_row_count := table_row_count u; table_cell_count := table_cell_count u;
  linear_term_count := linear_term_count u;
  literal_reference_count := literal_reference_count u |}.
Definition add_literals (n : Z) (u : FeatureUsageManifest) : FeatureUsageManifest := {|
  capability_counts := capability_counts u;
  optional_interval_count := optional_interval_count u;
  global_interval_constraint_count := global_interval_constraint_count u;
  table_row_count := table_row_count u; table_cell_count := table_cell_count u;
  linear_term_count := linear_term_count u;
  literal_reference_count := u64_saturating_add (literal_reference_count u) n |}.
Definition add_linear_terms (n : Z) (u : FeatureUsageManifest) : FeatureUsageManifest := {|
  capability_counts := capability_counts u;
  optional_interval_count := optional_interval_count u;
  global_interval_constraint_count := global_interval_constraint_count u;
  table_row_count := table_row_count u; table_cell_count := table_cell_count u;
  linear_term_count := u64_saturating_add (linear_term_count u) n;
  literal_reference_count := literal_reference_count u |}.
Definition add_table (rows cells : Z) (u : FeatureUsageManifest) : FeatureUsageManifest := {|
  capability_counts := capability_counts u;
  optional_interval_count := optional_interval_count u;
  global_interval_constraint_count := global_interval_constraint_count u;
  table_row_count := u64_saturating_add (table_row_count u) rows;
  table_cell_count := u64_saturating_add (table_cell_count u) cells;
  linear_term_count := linear_term_count u;
  literal_reference_count := literal_reference_count u |}.
Definition add_global_interval (u : FeatureUsageManifest) : FeatureUsageManifest := {|
  capability_counts := capability_counts u;
  optional_interval_count := optional_interval_count u;
  global_interval_constraint_count := u64_saturating_add (global_interval_constraint_count u) 1;
  table_row_count := table_row_count u; table_cell_count := table_cell_count u;
  linear_term_count := linear_term_count u;
  literal_reference_count := literal_reference_count u |}.

Definition constraint_capability (constraint : Constraint_) : Capability :=
  match constraint with
  | BoolOr _ => CapBoolOr
  | BoolAnd _ => CapBoolAnd
  | Implication _ _ => CapImplication
  | Equivalence_ _ _ => CapEquivalence
  | AtMostOne _ => CapAtMostOne
  | ExactlyOne _ => CapExactlyOne
  | CardinalityRange _ _ _ => CapCardinalityRange
  | LinearComparison_ _ => CapLinearComparison
  | ReifiedLinearComparison _ _ => CapReifiedLinearComparison
  | AllDifferent _ => CapAllDifferent
  | AllowedTable _ _ => CapAllowedTable
  | ForbiddenTable _ _ => CapForbiddenTable
  | Element _ _ _ => CapElement
  | Min _ _ => CapMin
  | Max _ _ => CapMax
  | Equality _ _ => CapEquality
  | AbsDifference _ _ _ => CapAbsDifference
  | NoOverlap _ => CapNoOverlap
  | Cumulative _ _ _ => CapCumulative
  end.

Definition variable_usage (v : Variable_) (usage : FeatureUsageManifest) : FeatureUsageManifest :=
  match v with
  | VInterval interval =>
      match itv_presence interval with
      | Some _ => add_literals 1 (add_optional_interval (manifest_add CapOptionalIntervals usage))
      | None => usage
      end
  | _ => usage
  end.
Definition expression_terms (e : LinearExpression) : Z := len (le_terms e).
Definition constraint_usage (record : ConstraintRecord) (usage : FeatureUsageManifest) :
    FeatureUsageManifest :=
  let usage := add_literals (len (cr_enforcement record)) usage in
  let usage := manifest_add (constraint_capability (cr_body record)) usage in
  match cr_body record with
  | BoolOr literals | BoolAnd literals | AtMostOne literals | ExactlyOne literals
  | CardinalityRange literals _ _ => add_literals (len literals) usage
  | Implication _ _ | Equivalence_ _ _ => add_literals 2 usage
  | LinearComparison_ comparison =>
      add_linear_terms (expression_terms (lc_expression comparison)) usage
  | ReifiedLinearComparison _ comparison =>
      add_linear_terms (expression_terms (lc_expression comparison)) (add_literals 1 usage)
  | AllowedTable variables rows | ForbiddenTable variables rows =>
      add_table (len rows) (u64_saturating_mul (len variables) (len rows)) usage
  | NoOverlap _ | Cumulative _ _ _ => add_global_interval usage
  | AllDifferent _ | Element _ _ _ | Min _ _ | Max _ _ | Equality _ _ | AbsDifference _ _ _ => usage
  end.
Definition kind_capability (kind : ObjectiveTermKind) : Capability :=
  match kind with Penalty => CapObjectivePenalty | Reward => CapObjectiveReward end.
Definition term_usage (term : ObjectiveTerm) (usage : FeatureUsageManifest) : FeatureUsageManifest :=
  add_linear_terms (expression_terms (ot_expression term))
    (manifest_add (kind_capability (ot_kind term)) usage).
Definition value_capability (value : AssignmentValue) : Capability :=
  match value with
  | AVBoolean _ => CapBooleanProjection
  | AVInteger _ => CapIntegerProjection
  | AVInterval _ => CapIntervalProjection
  | AVAbsent => CapAbsentProjection
  end.
Definition projection_usage (projection : SolutionProjection) (usage : FeatureUsageManifest) :
    FeatureUsageManifest :=
  match sp_expression projection with
  | PEBoolean _ => manifest_add CapBooleanProjection usage
  | PEInteger _ => manifest_add CapIntegerProjection usage
  | PELinear expression =>
      add_linear_terms (expression_terms expression) (manifest_add CapIntegerProjection usage)
  | PEInterval _ => manifest_add CapIntervalProjection usage
  | PEConstant value => manifest_add (value_capability value) usage
  end.

Definition visit_fold {A B} (f : A → B → B) (l : list A) (b : B) : AM B :=
  fold_m (λ b a, _ ← visit; mret (f a b)) b l.
Definition feature_usage_inner (problem : PlanningProblem) : AM FeatureUsageManifest :=
  usage ← visit_fold variable_usage (variables problem) manifest_default;
  usage ← visit_fold constraint_usage (constraints problem) usage;
  usage ← fold_m (λ usage level, _ ← visit; visit_fold term_usage (ol_terms level) usage)
            usage (op_levels (objectives problem));
  usage ← (if bool_decide (assumptions problem = []) then mret usage
           else _ ← visit;
                mret (add_literals (len (assumptions problem)) (manifest_add CapAssumptions usage)));
  visit_fold projection_usage (projections problem) usage.
(** [feature_usage]: without a budget the traversal cannot fail ([expect]). *)
Definition feature_usage (problem : PlanningProblem) : FeatureUsageManifest :=
  match (feature_usage_inner problem None).1 with Ok usage => usage | Err _ => manifest_default end.
Definition feature_usage_with_budget (problem : PlanningProblem) : Prep FeatureUsageManifest :=
  λ b, match feature_usage_inner problem (Some b) with
       | (r, Some b') => (r, b')
       | (r, None) => (r, b)
       end.

(** ** Lexicographic strategy *)
Inductive LexicographicStrategy := ExactScalarization (weights : list Z) | Multipass.

(** The levels are visited from the last to the first; [weights] collects the weights of the levels
    already visited, in level order, and [lower_span] their joint radix. *)
Fixpoint scalarization_weights (levels_rev : list ObjectiveLevel) (lower_span : Z)
    (weights : list Z) : option (list Z) :=
  match levels_rev with
  | [] => Some weights
  | level :: rest =>
      span ← i64_checked_sub (ol_upper_bound level) (ol_lower_bound level);
      radix ← i64_checked_add span 1;
      next ← i64_checked_mul lower_span radix;
      scalarization_weights rest next (lower_span :: weights)
  end.
Definition lexicographic_strategy (plan : ObjectivePlan) : LexicographicStrategy :=
  if bool_decide (op_levels plan = []) then ExactScalarization []
  else match scalarization_weights (reverse (op_levels plan)) 1 [] with
       | Some weights => ExactScalarization weights
       | None => Multipass
       end.

(** ** Variable nodes and hyperedges *)
Inductive VariableNode := NBool (id : string) | NInt (id : string) | NInterval (id : string).
#[global] Instance VariableNode_eq_dec : EqDecision VariableNode.
Proof. solve_decision. Defined.
Definition node_key (n : VariableNode) : nat * string :=
  match n with NBool id => (0%nat, id) | NInt id => (1%nat, id) | NInterval id => (2%nat, id) end.
#[global] Instance VariableNode_ord : Ord VariableNode := ord_on node_key.
#[global] Instance VariableNode_ord_laws : OrdLaws VariableNode.
Proof. apply ord_on_laws. intros [] [] [=]; by subst. Qed.

Definition encoded (n : VariableNode) : string :=
  match n with
  | NBool id => "bool:" +:+ id
  | NInt id => "int:" +:+ id
  | NInterval id => "interval:" +:+ id
  end.

Definition expression_nodes (expression : LinearExpression) : list VariableNode :=
  (λ term, NInt (lt_variable term)) <$> le_terms expression.
Definition projection_nodes (expression : ProjectionExpression) : list VariableNode :=
  match expression with
  | PEBoolean id => [NBool id]
  | PEInteger id => [NInt id]
  | PELinear expression => expression_nodes expression
  | PEInterval id => [NInterval id]
  | PEConstant _ => []
  end.
Definition literal_node (l : Literal) : VariableNode := NBool (lit_variable l).
Definition constraint_nodes (constraint : Constraint_) : list VariableNode :=
  match constraint with
  | BoolOr literals | BoolAnd literals | AtMostOne literals | ExactlyOne literals
  | CardinalityRange literals _ _ => literal_node <$> literals
  | Implication antecedent consequent => [literal_node antecedent; literal_node consequent]
  | Equivalence_ l r => [literal_node l; literal_node r]
  | LinearComparison_ comparison => expression_nodes (lc_expression comparison)
  | ReifiedLinearComparison literal comparison =>
      expression_nodes (lc_expression comparison) ++ [literal_node literal]
  | AllDifferent variables | AllowedTable variables _ | ForbiddenTable variables _ =>
      NInt <$> variables
  | Min target inputs | Max target inputs => NInt target :: (NInt <$> inputs)
  | Element index _ target => [NInt index; NInt target]
  | Equality l r => [NInt l; NInt r]
  | AbsDifference target l r => [NInt target; NInt l; NInt r]
  | NoOverlap intervals | Cumulative intervals _ _ => NInterval <$> intervals
  end.
Definition variable_node (v : Variable_) : VariableNode :=
  match v with
  | VBoolean v => NBool (bv_id v)
  | VInteger v => NInt (iv_id v)
  | VInterval v => NInterval (itv_id v)
  end.
Definition interval_edge (interval : IntervalVariable) : list VariableNode :=
  [NInterval (itv_id interval); NInt (itv_start interval); NInt (itv_duration interval);
   NInt (itv_end interval)]
  ++ match itv_presence interval with Some literal => [literal_node literal] | None => [] end.

(** [constraint_node_capacity] and [projection_node_capacity] *)
Definition constraint_node_capacity (constraint : Constraint_) : Prep Z :=
  match constraint with
  | BoolOr literals | BoolAnd literals | AtMostOne literals | ExactlyOne literals
  | CardinalityRange literals _ _ => mret (len literals)
  | Implication _ _ | Equivalence_ _ _ | Element _ _ _ | Equality _ _ => mret 2
  | LinearComparison_ comparison => mret (len (le_terms (lc_expression comparison)))
  | ReifiedLinearComparison _ comparison =>
      se_lift (ok_or PrepArithmeticOverflow
                 (u64_checked_add (len (le_terms (lc_expression comparison))) 1))
  | AllDifferent variables | AllowedTable variables _ | ForbiddenTable variables _ =>
      mret (len variables)
  | Min _ inputs | Max _ inputs =>
      se_lift (ok_or PrepArithmeticOverflow (u64_checked_add (len inputs) 1))
  | AbsDifference _ _ _ => mret 3
  | NoOverlap intervals | Cumulative intervals _ _ => mret (len intervals)
  end.
Definition projection_node_capacity (expression : ProjectionExpression) : Z :=
  match expression with
  | PEBoolean _ | PEInteger _ | PEInterval _ => 1
  | PELinear expression => len (le_terms expression)
  | PEConstant _ => 0
  end.

(** Pushing one node after the other, each after a visit: [constraint_nodes_into_with_budget] and
    [projection_nodes_with_budget] push the nodes of [constraint_nodes] and [projection_nodes] in
    their order. *)
Definition push_nodes (nodes edge : list VariableNode) : AM (list VariableNode) :=
  fold_m (λ edge node, _ ← visit; mret (edge ++ [node])) edge nodes.
Definition constraint_nodes_into_with_budget (constraint : Constraint_) : AM (list VariableNode) :=
  push_nodes (constraint_nodes constraint) [].
Definition projection_nodes_with_budget (expression : ProjectionExpression) :
    AM (list VariableNode) :=
  let nodes := projection_nodes expression in _ ← visits nodes; mret nodes.

(** ** Edge reservations *)
Definition edge_scratch_bytes (edge_len : Z) : Prep Z :=
  se_lift (ok_or PrepArithmeticOverflow
    (n ← usize_to_u64 edge_len; n ← u64_checked_mul n 192; u64_checked_add n 1024)).
Definition reserve_edge (capacity : Prep Z) : AM Guard :=
  open_guard (
    edge_len ← capacity;
    scratch ← edge_scratch_bytes edge_len;
    edge_len ← se_lift (ok_or PrepArithmeticOverflow (usize_to_u64 edge_len));
    _ ← reserve_work edge_len;
    mret scratch).

(** ** Union-find with size linking and path halving *)
(** Parent and size arrays. *)
Record Forest := { parent : list nat; size_ : list Z }.
(** The [while parent[node] != node] loop; [fuel] bounds its iterations. *)
Fixpoint find_root (fuel : nat) (parent : list nat) (node : nat) : AM (nat * list nat) :=
  match fuel with
  | O => mret (node, parent)
  | S fuel =>
      if Nat.eqb (parent !!! node) node then mret (node, parent)
      else
        _ ← visit;
        let grandparent := parent !!! (parent !!! node) in
        find_root fuel (<[node := grandparent]> parent) grandparent
  end.
Definition find (parent : list nat) (node : nat) : AM (nat * list nat) :=
  find_root (length parent) parent node.
Definition link_roots (size : list Z) (left_root right_root : nat) : nat * nat :=
  if (size !!! right_root <? size !!! left_root)
     || ((size !!! left_root =? size !!! right_root) && Nat.ltb left_root right_root)
  then (left_root, right_root) else (right_root, left_root).
Definition union_ (f : Forest) (left right : nat) : AM Forest :=
  _ ← charge 6;
  '(left_root, parent) ← find (parent f) left;
  '(right_root, parent) ← find parent right;
  if Nat.eqb left_root right_root then mret {| parent := parent; size_ := size_ f |}
  else
    combined ← se_lift (ok_or PrepArithmeticOverflow
                 (u64_checked_add (size_ f !!! left_root) (size_ f !!! right_root)));
    let '(winner, loser) := link_roots (size_ f) left_root right_root in
    mret {| parent := <[loser := winner]> parent; size_ := <[winner := combined]> (size_ f) |}.

(** The index of a declared node: [indexes.get]. The declared nodes are sorted and deduplicated, so
    each has one index. *)
Definition index_of (ordered : list VariableNode) (node : VariableNode) : option nat :=
  fst <$> list_find (λ n, n = node) ordered.
Definition is_budgeted {E} : SE Ctx E bool := λ ctx, (Ok (match ctx with Some _ => true | None => false end), ctx).
Definition bump_edges (edge_count : Z) : AM Z :=
  controlled ← is_budgeted;
  if (controlled : bool)
  then se_lift (ok_or PrepArithmeticOverflow (u64_checked_add edge_count 1))
  else mret (u64_saturating_add edge_count 1).
Definition union_edge (ordered : list VariableNode) (edge : list VariableNode)
    (st : Forest * Z) : AM (Forest * Z) :=
  scratch ← reserve_edge (mret (len edge));
  guarded scratch (
    match omap (index_of ordered) (btree_set edge) with
    | [] => mret st
    | first :: positions =>
        fold_m (λ '(f, edge_count) position,
          f ← union_ f first position;
          edge_count ← bump_edges edge_count;
          mret (f, edge_count)) st positions
    end).

(** ** Component analysis *)
Record MathematicalComponent := { mc_id : string; variable_nodes : list string }.
Record ComponentAnalysis := {
  components : list MathematicalComponent;
  edge_count : Z;
  component_hash : string
}.
(** The reservation that keeps the output charged to its phase. *)
Record BudgetedComponentAnalysis := {
  bca_analysis : ComponentAnalysis;
  bca_reservation : Guard
}.

Definition declared_scratch (vars : list Variable_) : Prep Z :=
  scratch ← fold_m (λ scratch v,
    _ ← reserve_work 1;
    se_lift (ok_or PrepArithmeticOverflow
      (id_bytes ← usize_to_u64 (Z.of_nat (String.length (canonical_id v)));
       n ← u64_checked_add id_bytes 128;
       u64_checked_add scratch n))) 4096 vars;
  count ← se_lift (ok_or PrepArithmeticOverflow (usize_to_u64 (len vars)));
  _ ← reserve_work count;
  mret scratch.
Definition declared_nodes (problem : PlanningProblem) : AM (Guard * list VariableNode) :=
  reservation ← open_guard (declared_scratch (variables problem));
  mret (reservation, btree_set (variable_node <$> variables problem)).

(** Checked [n * factor + extra] bytes. *)
Definition scratch_of (n factor extra : Z) : Prep Z :=
  se_lift (ok_or PrepArithmeticOverflow
    (v ← u64_checked_mul n factor; u64_checked_add v extra)).
Definition index_scratch (node_count : Z) : Prep Z :=
  scratch ← scratch_of node_count 192 4096; _ ← reserve_work node_count; mret scratch.
Definition parent_scratch (node_count : Z) : Prep Z :=
  scratch ← se_lift (ok_or PrepArithmeticOverflow
              (v ← u64_checked_mul node_count 8; v ← u64_checked_mul v 2; u64_checked_add v 4096));
  double ← se_lift (ok_or PrepArithmeticOverflow (u64_checked_mul node_count 2));
  _ ← reserve_work double;
  mret scratch.

Definition variable_edges (ordered : list VariableNode) (st : Forest * Z) (v : Variable_) :
    AM (Forest * Z) :=
  _ ← visit;
  match v with
  | VInterval interval =>
      let edge := interval_edge interval in
      g ← reserve_edge (mret (len edge));
      guarded g (edge ← push_nodes edge []; union_edge ordered edge st)
  | _ => mret st
  end.
Definition constraint_edges (ordered : list VariableNode) (st : Forest * Z)
    (record : ConstraintRecord) : AM (Forest * Z) :=
  _ ← visit;
  g ← reserve_edge (n ← constraint_node_capacity (cr_body record);
                    se_lift (ok_or PrepArithmeticOverflow
                      (u64_checked_add n (len (cr_enforcement record)))));
  guarded g (
    edge ← constraint_nodes_into_with_budget (cr_body record);
    edge ← push_nodes (literal_node <$> cr_enforcement record) edge;
    union_edge ordered edge st).
Definition level_edge (level : ObjectiveLevel) : list VariableNode :=
  ol_terms level ≫= λ term, expression_nodes (ot_expression term).
Definition objective_edges (ordered : list VariableNode) (st : Forest * Z) (level : ObjectiveLevel) :
    AM (Forest * Z) :=
  _ ← visit;
  edge_len ← budgeted (fold_m (λ edge_len term,
      _ ← reserve_work 1;
      se_lift (ok_or PrepArithmeticOverflow
        (u64_checked_add edge_len (len (le_terms (ot_expression term)))))) 0 (ol_terms level));
  g ← reserve_edge (mret (default 0 edge_len));
  guarded g (
    edge ← fold_m (λ edge term, _ ← visit; push_nodes (expression_nodes (ot_expression term)) edge)
             [] (ol_terms level);
    union_edge ordered edge st).
Definition projection_edges (ordered : list VariableNode) (st : Forest * Z)
    (projection : SolutionProjection) : AM (Forest * Z) :=
  _ ← visit;
  g ← reserve_edge (mret (projection_node_capacity (sp_expression projection)));
  guarded g (
    edge ← projection_nodes_with_budget (sp_expression projection);
    union_edge ordered edge st).
Definition assumption_edges (ordered : list VariableNode) (st : Forest * Z)
    (assumption : Assumption) : AM (Forest * Z) :=
  _ ← visit;
  g ← reserve_edge (mret 1);
  guarded g (union_edge ordered [literal_node (as_literal assumption)] st).

Definition all_edges (ordered : list VariableNode) (problem : PlanningProblem) (st : Forest * Z) :
    AM (Forest * Z) :=
  st ← fold_m (variable_edges ordered) st (variables problem);
  st ← fold_m (constraint_edges ordered) st (constraints problem);
  st ← fold_m (objective_edges ordered) st (op_levels (objectives problem));
  st ← fold_m (projection_edges ordered) st (projections problem);
  fold_m (assumption_edges ordered) st (assumptions problem).

(** [grouped.entry(root).or_default().push(node.encoded())] for every node in order. *)
Definition group_step (st : list nat * gmap nat (list string)) (entry : nat * VariableNode) :
    AM (list nat * gmap nat (list string)) :=
  let '(parent, grouped) := st in
  let '(index, node) := entry in
  _ ← visit;
  '(root, parent) ← find parent index;
  mret (parent, <[root := default [] (grouped !! root) ++ [encoded node]]> grouped).
Definition enumerate {A} (l : list A) : list (nat * A) := imap pair l.

(** Little-endian bytes of a [u64], and the bytes of a string. *)
Fixpoint le_bytes (n : nat) (v : Z) : list Z :=
  match n with O => [] | S n => v mod 256 :: le_bytes n (v / 256) end.
Definition str_bytes (s : string) : list Z := Z.of_N <$> string_bytes s.
Definition str_len (s : string) : Z := Z.of_nat (String.length s).
Definition component_id (index : nat) : Result PlanningIdError string :=
  PlanningId_new ("component.c" +:+ pretty index).

Section components.
(** [blake3::hash(...).to_hex()]: the lowercase hexadecimal digest of the bytes fed to the hasher. *)
Context (blake3_hex : list Z → string).

Definition hash_component (bytes : list Z) (component : MathematicalComponent) : AM (list Z) :=
  _ ← visit;
  let bytes := bytes ++ le_bytes 8 (len (variable_nodes component)) in
  fold_m (λ bytes node, _ ← visit; mret (bytes ++ le_bytes 8 (str_len node) ++ str_bytes node))
    bytes (variable_nodes component).
Definition hash_components (cs : list MathematicalComponent) (edges : Z) : AM string :=
  g ← open_guard (mret 4096);
  guarded g (
    bytes ← fold_m hash_component (le_bytes 8 edges) cs;
    mret (blake3_hex bytes)).

Definition sort_groups (raw_groups : list (list string)) : AM (list (list string)) :=
  raw_groups ← fold_m (λ acc group, _ ← visit; mret (acc ++ [ord_sort group])) [] raw_groups;
  _ ← charge (len raw_groups);
  mret (ord_sort raw_groups).
Definition make_components (groups : list (list string)) : list MathematicalComponent :=
  omap (λ '(index, nodes), match component_id index with
                           | Ok id => Some {| mc_id := id; variable_nodes := nodes |}
                           | Err _ => None
                           end) (enumerate groups).

Definition analyze_components_inner (problem : PlanningProblem) : AM BudgetedComponentAnalysis :=
  _ ← visit;
  '(declared, ordered) ← declared_nodes problem;
  let node_count := len ordered in
  '(groups, edges, output, grouping) ← on_err declared (
    index ← open_guard (index_scratch node_count);
    '(st, parent_guard) ← on_err index (
      parent_guard ← open_guard (parent_scratch node_count);
      st ← on_err parent_guard
             (all_edges ordered problem
                ({| parent := seq 0 (length ordered); size_ := replicate (length ordered) 1 |}, 0));
      mret (st, parent_guard));
    _ ← retire_guard index;
    result ← on_err parent_guard (
      output ← open_guard (
        output_bytes ← scratch_of node_count 512 8192;
        _ ← scratch_of node_count 128 4096;
        _ ← reserve_work node_count;
        mret output_bytes);
      grouping ← on_err output (open_guard (scratch_of node_count 128 4096));
      '(_, grouped) ← on_err output (on_err grouping
        (fold_m group_step (parent st.1, ∅) (enumerate ordered)));
      mret ((sort_by_key fst (map_to_list grouped)).*2, st.2, output, grouping));
    _ ← retire_guard parent_guard;
    mret result);
  _ ← retire_guard declared;
  groups ← on_err output (on_err grouping (sort_groups groups));
  let cs := make_components groups in
  _ ← retire_guard grouping;
  hash ← on_err output (_ ← visit; hash_components cs edges);
  mret {| bca_analysis := {| components := cs; edge_count := edges; component_hash := hash |};
          bca_reservation := output |}.

Definition empty_analysis : ComponentAnalysis :=
  {| components := []; edge_count := 0; component_hash := "" |}.
(** [analyze_components]: without a budget only the size overflow of the union-find could fail. *)
Definition analyze_components (problem : PlanningProblem) : ComponentAnalysis :=
  match (analyze_components_inner problem None).1 with
  | Ok a => bca_analysis a
  | Err _ => empty_analysis
  end.
Definition analyze_components_with_budget (problem : PlanningProblem) :
    Prep BudgetedComponentAnalysis :=
  λ b, match analyze_components_inner problem (Some b) with
       | (r, Some b') => (r, b')
       | (r, None) => (r, b)
       end.
End components.
