(* ===== verification/Erasure.v ===== *)
(** * Budgeted traversals agree with uncontrolled ones

    Most entry points of the planning IR come in two forms: an uncontrolled one, and one that
    charges a preparation budget.  [erases R m m'] says that whenever the budgeted run [m] succeeds,
    the uncontrolled run of [m'] succeeds too, with a result related by [R].  The relation is closed
    under the monad and the loops of the model, so that the agreement of a whole traversal follows
    from the few places where the source tests for a budget. *)
From stdpp Require Import base tactics list gmap strings.
From Stdlib Require Import ZArith Lia.
From S2P Require Import Prelude Ordering Control Budget Ids DomainIr Model Analysis.
Open Scope Z_scope.

Definition erases {E1 E2 A1 A2} (R : A1 → A2 → Prop)
    (m : SE (option PlanningPreparationBudget) E1 A1)
    (m' : SE (option PlanningPreparationBudget) E2 A2) : Prop :=
  ∀ b a s, m (Some b) = (Ok a, s) →
    (∃ b', s = Some b') ∧ ∃ a', m' None = (Ok a', None) ∧ R a a'.

(** The budget and only the budget is threaded through. *)
Definition anything {A1 A2} : A1 → A2 → Prop := λ _ _, True.

Section erasure.
Context {E1 E2 : Type}.
Implicit Types (A B : Type).

Lemma erases_weaken {A1 A2} (R Q : A1 → A2 → Prop) (m : SE _ E1 A1) (m' : SE _ E2 A2) :
  (∀ a a', R a a' → Q a a') → erases R m m' → erases Q m m'.
Proof. intros HRQ H b a s Hm. destruct (H b a s Hm) as (Hs & a' & Hm' & Ha). eauto 6. Qed.

Lemma erases_ret {A1 A2} (R : A1 → A2 → Prop) a a' :
  R a a' → erases R (mret a : SE _ E1 A1) (mret a' : SE _ E2 A2).
Proof. intros HR b ? s [= <- <-]. eauto. Qed.

Lemma erases_lift {A} (r : Result E1 A) : erases eq (se_lift r) (se_lift r).
Proof. intros b a s [= -> <-]. eauto. Qed.

Lemma erases_lift_err {A} (r : Result E1 A) (r' : Result E2 A) :
  (∀ a, r = Ok a → r' = Ok a) → erases eq (se_lift r) (se_lift r').
Proof. intros Hr b a s [= Hm <-]. unfold se_lift. rewrite (Hr a Hm). eauto. Qed.

Lemma erases_fail {A1 A2} (R : A1 → A2 → Prop) (e : E1) (m' : SE _ E2 A2) :
  erases R (se_fail e) m'.
Proof. intros b a s [=]. Qed.

Lemma erases_bind {A1 A2 B1 B2} (R : A1 → A2 → Prop) (Q : B1 → B2 → Prop)
    (m : SE _ E1 A1) (m' : SE _ E2 A2) k k' :
  erases R m m' → (∀ a a', R a a' → erases Q (k a) (k' a')) → erases Q (m ≫= k) (m' ≫= k').
Proof.
  intros Hm Hk b c s. rewrite se_bind_Ok. intros (a & s1 & Ha & Hc).
  destruct (Hm b a s1 Ha) as ([b1 ->] & a' & Hm' & HR).
  destruct (Hk a a' HR b1 c s Hc) as (Hs & c' & Hk' & HQ).
  split; [done|]. exists c'. split; [|done]. apply se_bind_Ok. eauto.
Qed.

Lemma erases_bind_eq {A B1 B2} (Q : B1 → B2 → Prop) (m : SE _ E1 A) (m' : SE _ E2 A) k k' :
  erases eq m m' → (∀ a, erases Q (k a) (k' a)) → erases Q (m ≫= k) (m' ≫= k').
Proof. intros Hm Hk. apply (erases_bind eq); [done|]. intros a ? <-. auto. Qed.

Lemma erases_bind_any {A1 A2 B1 B2} (Q : B1 → B2 → Prop) (m : SE _ E1 A1) (m' : SE _ E2 A2) k k' :
  erases anything m m' → (∀ a a', erases Q (k a) (k' a')) → erases Q (m ≫= k) (m' ≫= k').
Proof. intros Hm Hk. apply (erases_bind anything); auto. Qed.

Lemma erases_for_each {A} (f : A → SE _ E1 unit) (f' : A → SE _ E2 unit) l :
  (∀ x, erases eq (f x) (f' x)) → erases eq (for_each f l) (for_each f' l).
Proof.
  intros Hf. induction l; cbn; [by apply erases_ret|]. apply erases_bind_eq; auto.
Qed.

Lemma erases_for_each_from {A} (f : nat → A → SE _ E1 unit) (f' : nat → A → SE _ E2 unit) l i :
  (∀ i x, erases eq (f i x) (f' i x)) → erases eq (for_each_from i f l) (for_each_from i f' l).
Proof.
  intros Hf. revert i. induction l; intros i; cbn; [by apply erases_ret|]. apply erases_bind_eq; auto.
Qed.

Lemma erases_fold_m {A B} (f : B → A → SE _ E1 B) (f' : B → A → SE _ E2 B) l b :
  (∀ b x, erases eq (f b x) (f' b x)) → erases eq (fold_m f b l) (fold_m f' b l).
Proof.
  intros Hf. revert b. induction l; intros b; cbn; [by apply erases_ret|]. apply erases_bind_eq; auto.
Qed.

Lemma erases_fold_m_from {A B} (f : nat → B → A → SE _ E1 B) (f' : nat → B → A → SE _ E2 B) l i b :
  (∀ i b x, erases eq (f i b x) (f' i b x)) → erases eq (fold_m_from i f b l) (fold_m_from i f' b l).
Proof.
  intros Hf. revert i b. induction l; intros i b; cbn; [by apply erases_ret|].
  apply erases_bind_eq; auto.
Qed.
End erasure.

(** ** The primitives of the analysis *)
Lemma erases_budgeted {A} (m : Prep A) : erases anything (budgeted m) (budgeted m).
Proof.
  intros b a s. unfold budgeted. destruct (m b) as [[?|?] b']; intros [=]; subst. eauto 6.
  split; [eauto|]. exists None. done.
Qed.
Lemma erases_charge n : erases eq (charge n) (charge n).
Proof.
  unfold charge. apply erases_bind_any; [apply erases_budgeted|]. intros. by apply erases_ret.
Qed.
Lemma erases_visit : erases eq visit visit.
Proof. apply erases_charge. Qed.
Lemma erases_visits {A} (l : list A) : erases eq (visits l) (visits l).
Proof. apply erases_for_each. intros _. apply erases_visit. Qed.
Lemma erases_open_guard m m' : erases anything (open_guard m) (open_guard m').
Proof.
  intros b a s Hm. destruct (erases_budgeted _ b a s Hm) as (Hs & _). split; [done|]. by exists None.
Qed.
Lemma erases_retire_guard {E1 E2} g g' :
  erases eq (retire_guard (E := E1) g) (retire_guard (E := E2) g').
Proof.
  intros b a s. unfold retire_guard. destruct g; intros [= <- <-]; split; eauto; exists tt;
    (split; [|done]); by destruct g'.
Qed.
Lemma erases_on_err {E1 E2 A1 A2} (R : A1 → A2 → Prop) g g' (m : SE Ctx E1 A1) (m' : SE Ctx E2 A2) :
  erases R m m' → erases R (on_err g m) (on_err g' m').
Proof.
  intros H b a s. unfold on_err. destruct (m (Some b)) as [[a1|e] s1] eqn:Hm; intros [= <- <-].
  destruct (H b a1 s1 Hm) as (Hs & a' & -> & HR). eauto.
Qed.
Lemma erases_guarded {E1 E2 A} g g' (m : SE Ctx E1 A) (m' : SE Ctx E2 A) :
  erases eq m m' → erases eq (guarded g m) (guarded g' m').
Proof.
  intros H. unfold guarded. apply erases_bind_eq; [by apply erases_on_err|]. intros a.
  apply erases_bind_eq; [apply erases_retire_guard|]. intros. by apply erases_ret.
Qed.
Lemma erases_bump_edges n : erases eq (bump_edges n) (bump_edges n).
Proof.
  intros b a s. unfold bump_edges, is_budgeted, mbind, SE_bind, se_lift, ok_or, u64_checked_add.
  destruct (checked_u64 (n + 1)) as [v|] eqn:Hv; [|done]. intros [= <- <-].
  apply checked_u64_Some in Hv as [-> Hv]. split; [eauto|]. eexists. split; [done|].
  unfold u64_saturating_add, is_u64 in *. lia.
Qed.
#[export] Hint Resolve erases_lift erases_fail erases_charge erases_visit erases_visits
  erases_retire_guard erases_bump_edges : erasure.

(** Walks through a monadic body whose two runs differ in nothing but their budgets. *)
Ltac erase :=
  repeat first
  [ progress intros
  | solve [auto with erasure]
  | apply erases_ret; reflexivity
  | apply erases_fold_m | apply erases_fold_m_from
  | apply erases_for_each | apply erases_for_each_from
  | apply erases_guarded | apply erases_on_err
  | apply erases_bind_any; [apply erases_open_guard|]
  | apply erases_bind_any; [apply erases_budgeted|]
  | apply erases_bind_eq
  | match goal with
    | |- erases _ (match ?x with _ => _ end) (match ?x with _ => _ end) => destruct x
    | |- erases _ ((let '_ := ?x in _) _) _ => destruct x
    end ].

(** ** Uncontrolled runs *)
Definition runs {E A} (P : A → Prop) (m : SE (option PlanningPreparationBudget) E A) : Prop :=
  ∃ a, m None = (Ok a, None) ∧ P a.

Lemma runs_ret {E A} (P : A → Prop) a : P a → runs P (mret a : SE _ E A).
Proof. intros. by exists a. Qed.
Lemma runs_bind {E A B} (P : A → Prop) (Q : B → Prop) (m : SE _ E A) k :
  runs P m → (∀ a, P a → runs Q (k a)) → runs Q (m ≫= k).
Proof.
  intros (a & Hm & Ha) Hk. destruct (Hk a Ha) as (c & Hc & HQ). exists c.
  split; [|done]. apply se_bind_Ok. eauto.
Qed.
Lemma runs_seq {E A B} (Q : B → Prop) (m : SE _ E A) k :
  runs (λ _, True) m → (∀ a, runs Q (k a)) → runs Q (m ≫= k).
Proof. intros Hm Hk. apply (runs_bind (λ _, True)); auto. Qed.
Lemma runs_weaken {E A} (P Q : A → Prop) (m : SE _ E A) :
  (∀ a, P a → Q a) → runs P m → runs Q m.
Proof. intros HPQ (a & Hm & Ha). exists a. auto. Qed.
(** A loop keeps an invariant over the elements already processed. *)
Lemma runs_fold_m {E A B} (I : list A → B → Prop) (f : B → A → SE _ E B) l b :
  I [] b → (∀ done_ x todo b, l = done_ ++ x :: todo → I done_ b → runs (I (done_ ++ [x])) (f b x)) →
  runs (I l) (fold_m f b l).
Proof.
  intros Hb Hf. cut (∀ todo done_ b, l = done_ ++ todo → I done_ b → runs (I l) (fold_m f b todo)).
  { intros H. by apply (H l []). }
  induction todo as [|x todo IH]; intros done_ b' Hl HI; cbn.
  { apply runs_ret. by rewrite Hl, app_nil_r. }
  eapply runs_bind; [by apply (Hf _ _ _ _ Hl)|]. intros b2 Hb2. apply (IH (done_ ++ [x])); [|done].
  by rewrite Hl, <-app_assoc.
Qed.
Lemma runs_visit : runs (λ _, True) visit.
Proof. by exists tt. Qed.
Lemma runs_charge n : runs (λ _, True) (charge n).
Proof. by exists tt. Qed.
Lemma runs_open_guard m : runs (λ g, g = None) (open_guard m).
Proof. by exists None. Qed.
Lemma runs_budgeted {A} (m : Prep A) : runs (λ g, g = None) (budgeted m).
Proof. by exists None. Qed.
Lemma runs_retire_guard {E} g : runs (λ _, True) (retire_guard (E := E) g).
Proof. exists tt. split; [|done]. by destruct g. Qed.
Lemma runs_on_err {E A} (P : A → Prop) g (m : SE Ctx E A) : runs P m → runs P (on_err g m).
Proof. intros (a & Hm & Ha). exists a. unfold on_err. by rewrite Hm. Qed.
Lemma runs_guarded {E A} (P : A → Prop) g (m : SE Ctx E A) : runs P m → runs P (guarded g m).
Proof.
  intros Hm. unfold guarded. eapply runs_bind; [by apply runs_on_err|]. intros a Ha.
  apply runs_seq; [apply runs_retire_guard|]. intros. by apply runs_ret.
Qed.
Lemma runs_reserve_edge m : runs (λ _, True) (reserve_edge m).
Proof. by exists None. Qed.
#[export] Hint Resolve runs_ret runs_visit runs_charge runs_retire_guard runs_reserve_edge : erasure.

Lemma runs_push_nodes nodes edge : runs (λ r, r = edge ++ nodes) (push_nodes nodes edge).
Proof.
  unfold push_nodes. apply (runs_fold_m (λ done_ r, r = edge ++ done_)); [by rewrite app_nil_r|].
  intros done_ x todo b _ ->. apply runs_seq; [auto with erasure|]. intros _. apply runs_ret.
  by rewrite <-app_assoc.
Qed.

(** ** Agreement of the component analysis *)
Lemma erases_find_root fuel p x : erases eq (find_root fuel p x) (find_root fuel p x).
Proof. revert p x. induction fuel as [|fuel IH]; intros p x; cbn [find_root]; erase. Qed.
Lemma erases_union f l r : erases eq (union_ f l r) (union_ f l r).
Proof.
  unfold union_, find. erase; apply erases_find_root.
Qed.
#[export] Hint Resolve erases_find_root erases_union : erasure.
Lemma erases_push_nodes nodes edge : erases eq (push_nodes nodes edge) (push_nodes nodes edge).
Proof. unfold push_nodes. erase. Qed.
#[export] Hint Resolve erases_push_nodes : erasure.
Lemma erases_union_edge ordered edge st :
  erases eq (union_edge ordered edge st) (union_edge ordered edge st).
Proof. unfold union_edge, reserve_edge. erase. Qed.
#[export] Hint Resolve erases_union_edge : erasure.
Lemma erases_all_edges ordered problem st :
  erases eq (all_edges ordered problem st) (all_edges ordered problem st).
Proof.
  unfold all_edges, variable_edges, constraint_edges, objective_edges, projection_edges,
    assumption_edges, reserve_edge, constraint_nodes_into_with_budget, projection_nodes_with_budget.
  erase.
Qed.
Lemma erases_group_step st entry : erases eq (group_step st entry) (group_step st entry).
Proof. unfold group_step, find. erase. Qed.
Lemma erases_sort_groups groups : erases eq (sort_groups groups) (sort_groups groups).
Proof. unfold sort_groups. erase. Qed.
#[export] Hint Resolve erases_all_edges erases_group_step erases_sort_groups : erasure.
Lemma erases_hash_components h cs n : erases eq (hash_components h cs n) (hash_components h cs n).
Proof. unfold hash_components, hash_component. erase. Qed.
#[export] Hint Resolve erases_hash_components : erasure.

Section analysis.
Context (blake3_hex : list Z → string).

Definition same_analysis (a a' : BudgetedComponentAnalysis) : Prop :=
  bca_analysis a = bca_analysis a'.

Lemma erases_analyze_components_inner problem :
  erases same_analysis (analyze_components_inner blake3_hex problem)
    (analyze_components_inner blake3_hex problem).
Proof.
  unfold analyze_components_inner. apply erases_bind_eq; [apply erases_visit|]. intros _.
  apply (erases_bind (λ x y, x.2 = y.2)).
  { unfold declared_nodes. apply erases_bind_any; [apply erases_open_guard|]. intros.
    by apply erases_ret. }
  intros [g ordered] [g' ?] [= <-]. cbn [snd].
  apply (erases_bind (λ x y : list (list string) * Z * Guard * Guard, x.1.1 = y.1.1)).
  { apply erases_on_err. apply erases_bind_any; [apply erases_open_guard|]. intros i i'.
    apply (erases_bind (λ x y : Forest * Z * Guard, x.1 = y.1)).
    { apply erases_on_err. apply erases_bind_any; [apply erases_open_guard|]. intros.
      apply erases_bind_eq; [apply erases_on_err, erases_all_edges|]. intros. by apply erases_ret. }
    intros [st pg] [? pg'] [= <-]. apply erases_bind_eq; [apply erases_retire_guard|]. intros _.
    apply (erases_bind (λ x y : list (list string) * Z * Guard * Guard, x.1.1 = y.1.1)).
    { apply erases_on_err. apply erases_bind_any; [apply erases_open_guard|]. intros.
      apply erases_bind_any; [apply erases_on_err, erases_open_guard|]. intros.
      apply erases_bind_eq; [do 2 apply erases_on_err; erase|]. intros []. by apply erases_ret. }
    intros. apply erases_bind_eq; [apply erases_retire_guard|]. intros. by apply erases_ret. }
  intros [[[groups edges] o] gr] [[[? ?] o'] gr'] [= <- <-]. erase.
Qed.

Lemma budgeted_analysis_erases problem b a b' :
  analyze_components_with_budget blake3_hex problem b = (Ok a, b') →
  bca_analysis a = analyze_components blake3_hex problem.
Proof.
  unfold analyze_components_with_budget, analyze_components.
  destruct (analyze_components_inner _ problem (Some b)) as [r s] eqn:Hrun. intros Heq.
  assert (r = Ok a) as -> by (destruct s; congruence).
  destruct (erases_analyze_components_inner problem b a s Hrun) as (_ & a' & -> & Ha). done.
Qed.
End analysis.

(** ** Agreement of the feature manifest *)
Lemma erases_visit_fold {A B} (f : A → B → B) l b : erases eq (visit_fold f l b) (visit_fold f l b).
Proof. unfold visit_fold. erase. Qed.
#[export] Hint Resolve erases_visit_fold : erasure.
Lemma erases_feature_usage problem :
  erases eq (feature_usage_inner problem) (feature_usage_inner problem).
Proof. unfold feature_usage_inner. erase. Qed.

Lemma budgeted_usage_erases problem b u b' :
  feature_usage_with_budget problem b = (Ok u, b') → u = feature_usage problem.
Proof.
  unfold feature_usage_with_budget, feature_usage.
  destruct (feature_usage_inner problem (Some b)) as [r s] eqn:Hrun. intros Heq.
  assert (r = Ok u) as -> by (destruct s; congruence).
  by destruct (erases_feature_usage problem b u s Hrun) as (_ & ? & -> & <-).
Qed.
