(* ===== verification/UnionFind.v ===== *)
(** * The union-find of the component analysis

    Correctness and cost of [find_root] and [union] of
    [crates/eutheto-planning-ir/src/analysis.rs] (defined in [Analysis]): path halving and size
    linking keep a ranked forest whose roots represent the classes of the links made so far. *)
From stdpp Require Import base tactics list relations.
From Stdlib Require Import ZArith Lia.
From S2P Require Import Prelude Control Budget Analysis Erasure.
Open Scope Z_scope.

(** The uncontrolled traversal never fails and has no state. *)
Lemma visit_None : visit None = (Ok tt, None).
Proof. done. Qed.
Lemma charge_None n : charge n None = (Ok tt, None).
Proof. done. Qed.

(** ** Ranked forests *)
(** The number of elements below [n] that [rep] maps to [r]. *)
Definition class_size (n : nat) (rep : nat → nat) (r : nat) : nat :=
  length (filter (λ x, rep x = r) (seq 0 n)).

(** [rep] names the root of every element, [rk] grows strictly towards the roots, and a root of
    rank [k] represents at least [2 ^ k] elements. *)
Record ranked (p : list nat) (rep rk : nat → nat) : Prop := {
  rk_range x : (x < length p → p !!! x < length p)%nat;
  rk_rep_range x : (x < length p → rep x < length p)%nat;
  rk_rep_parent x : (x < length p)%nat → rep (p !!! x) = rep x;
  rk_rep_root x : (x < length p)%nat → p !!! rep x = rep x;
  rk_root x : (x < length p)%nat → p !!! x = x → rep x = x;
  rk_up x : (x < length p)%nat → p !!! x ≠ x → (rk x < rk (p !!! x))%nat;
  rk_size x : (x < length p)%nat → (2 ^ rk (rep x) ≤ class_size (length p) rep (rep x))%nat
}.

Lemma total_insert_eq (p : list nat) x v : (x < length p)%nat → <[x := v]> p !!! x = v.
Proof. intros. by rewrite list_lookup_total_insert_eq. Qed.
Lemma total_insert_ne (p : list nat) x y v : x ≠ y → <[x := v]> p !!! y = p !!! y.
Proof. intros. by rewrite list_lookup_total_insert_ne. Qed.

Lemma ranked_up_le p rep rk x :
  ranked p rep rk → (x < length p)%nat → (rk x ≤ rk (p !!! x))%nat.
Proof.
  intros H Hx. destruct (decide (p !!! x = x)) as [->|Hne]; [lia|]. pose proof (rk_up _ _ _ H x Hx Hne). lia.
Qed.

(** Path halving keeps the forest, its classes and its ranks. *)
Lemma ranked_halve p rep rk x :
  ranked p rep rk → (x < length p)%nat → p !!! x ≠ x →
  ranked (<[x := p !!! (p !!! x)]> p) rep rk ∧ (rk x < rk (p !!! (p !!! x)))%nat.
Proof.
  intros H Hx Hne.
  pose proof (rk_range _ _ _ H x Hx) as Hpx. pose proof (rk_up _ _ _ H x Hx Hne) as Hup.
  pose proof (ranked_up_le _ _ _ _ H Hpx) as Hup2.
  assert (rep (p !!! (p !!! x)) = rep x) as Hrep by (rewrite !(rk_rep_parent _ _ _ H); auto).
  assert (rk x < rk (p !!! (p !!! x)))%nat as Hlt by lia.
  split; [|done]. split; intros y; rewrite ?length_insert; intros Hy.
  all: try (destruct (decide (x = y)) as [<-|Hxy];
            [rewrite ?total_insert_eq by done | rewrite ?total_insert_ne by done]).
  all: try (by eauto using rk_range, rk_rep_range, rk_rep_parent, rk_root, rk_up, rk_size).
  - rewrite total_insert_ne; [by apply (rk_rep_root _ _ _ H)|].
    intros Heq. apply Hne. pose proof (rk_rep_root _ _ _ H x Hx). congruence.
  - rewrite total_insert_ne; [by apply (rk_rep_root _ _ _ H)|].
    intros Heq. apply Hne. pose proof (rk_rep_root _ _ _ H y Hy). congruence.
  - intros Heq. rewrite Heq in Hlt. lia.
Qed.

Lemma ranked_rank_le_rep p rep rk :
  ranked p rep rk → ∀ d x, (x < length p)%nat → (list_max (rk <$> seq 0 (length p)) - rk x ≤ d)%nat →
  (rk x ≤ rk (rep x))%nat ∧ (p !!! x ≠ x → rk (p !!! x) ≤ rk (rep x))%nat.
Proof.
  intros H. assert (∀ x, (x < length p)%nat → (rk x ≤ list_max (rk <$> seq 0 (length p)))%nat) as Hmax.
  { intros x Hx. pose proof (proj1 (list_max_le (rk <$> seq 0 (length p)) _) (Nat.le_refl _)) as HF.
    rewrite Forall_forall in HF. apply HF. apply list_elem_of_fmap. exists x. split; [done|].
    apply elem_of_seq. lia. }
  induction d as [d IH] using lt_wf_ind. intros x Hx Hd.
  destruct (decide (p !!! x = x)) as [Heq|Hne].
  { rewrite (rk_root _ _ _ H x Hx Heq). split; [lia|done]. }
  pose proof (rk_up _ _ _ H x Hx Hne) as Hup. pose proof (rk_range _ _ _ H x Hx) as Hpx.
  pose proof (Hmax _ Hpx).
  destruct (IH (list_max (rk <$> seq 0 (length p)) - rk (p !!! x))%nat ltac:(lia) (p !!! x) Hpx ltac:(lia))
    as [Hle _]. rewrite (rk_rep_parent _ _ _ H x Hx) in Hle. lia.
Qed.

Lemma ranked_rep_ge p rep rk x :
  ranked p rep rk → (x < length p)%nat → (rk x ≤ rk (rep x))%nat.
Proof. intros H Hx. by apply (ranked_rank_le_rep _ _ _ H _ x Hx (Nat.le_refl _)). Qed.

Lemma class_size_le n rep r : (class_size n rep r ≤ n)%nat.
Proof. unfold class_size. etrans; [apply length_filter|]. by rewrite length_seq. Qed.

(** Size linking: no path is longer than the logarithm of the number of nodes. *)
Lemma ranked_log2 p rep rk x :
  ranked p rep rk → (x < length p)%nat → (rk (rep x) ≤ Nat.log2 (length p))%nat.
Proof.
  intros H Hx. apply Nat.log2_le_pow2; [lia|].
  etrans; [apply (rk_size _ _ _ H x Hx)|]. apply class_size_le.
Qed.

(** ** Finding *)
Lemma find_root_spec fuel p rep rk x :
  ranked p rep rk → (x < length p)%nat → (rk (rep x) - rk x ≤ fuel)%nat →
  ∃ p', find_root fuel p x None = (Ok (rep x, p'), None) ∧ ranked p' rep rk ∧ length p' = length p.
Proof.
  revert p x. induction fuel as [|fuel IH]; intros p x H Hx Hf.
  - exists p. cbn. split; [|done].
    destruct (decide (p !!! x = x)) as [Heq|Hne]; [by rewrite (rk_root _ _ _ H x Hx Heq)|].
    pose proof (rk_up _ _ _ H x Hx Hne).
    destruct (ranked_rank_le_rep _ _ _ H _ x Hx (Nat.le_refl _)) as [_ Hle].
    specialize (Hle Hne). lia.
  - cbn [find_root]. destruct (Nat.eqb_spec (p !!! x) x) as [Heq|Hne].
    { exists p. by rewrite (rk_root _ _ _ H x Hx Heq). }
    destruct (ranked_halve _ _ _ _ H Hx Hne) as [H' Hlt].
    pose proof (rk_range _ _ _ H x Hx) as Hpx. pose proof (rk_range _ _ _ H _ Hpx) as Hgp.
    assert (rep (p !!! (p !!! x)) = rep x) as Hrep by (rewrite !(rk_rep_parent _ _ _ H); auto).
    destruct (IH (<[x := p !!! (p !!! x)]> p) (p !!! (p !!! x)) H') as (p' & Hf' & Hp' & Hl).
    { by rewrite length_insert. }
    { rewrite Hrep. lia. }
    exists p'. unfold mbind, SE_bind. rewrite visit_None, Hf', Hrep, Hl, length_insert. done.
Qed.

Lemma find_spec p rep rk x :
  ranked p rep rk → (x < length p)%nat →
  ∃ p', find p x None = (Ok (rep x, p'), None) ∧ ranked p' rep rk ∧ length p' = length p.
Proof.
  intros H Hx. apply find_root_spec; [done..|].
  pose proof (ranked_log2 _ _ _ _ H Hx). pose proof (Nat.log2_le_lin (length p)). lia.
Qed.

(** ** Linking *)
(** The forest state: [size_] holds the size of every class at its root. *)
Record forest_inv (n : nat) (f : Forest) (rep : nat → nat) : Prop := {
  fi_length : length (parent f) = n;
  fi_size_length : length (size_ f) = n;
  fi_ranked : ∃ rk, ranked (parent f) rep rk;
  fi_size x : (x < n)%nat → rep x = x → size_ f !!! x = Z.of_nat (class_size n rep x)
}.

Lemma forest_inv_init n :
  forest_inv n {| parent := seq 0 n; size_ := replicate n 1 |} id.
Proof.
  assert (∀ x, (x < n)%nat → class_size n id x = 1%nat) as Hone.
  { intros x Hx. unfold class_size.
    assert (filter (λ y, id y = x) (seq 0 n) ≡ₚ [x]) as ->; [|done].
    apply NoDup_Permutation; [apply NoDup_filter, NoDup_seq|apply NoDup_singleton|].
    intros y. rewrite list_elem_of_filter, elem_of_seq, list_elem_of_singleton. unfold id. lia. }
  split; cbn; rewrite ?length_seq, ?length_replicate; try done.
  - exists (λ _, 0%nat).
    assert (∀ x, (x < n)%nat → seq 0 n !!! x = x) as Hseq.
    { intros x Hx. apply list_lookup_total_correct. apply lookup_seq. lia. }
    split; intros x; rewrite length_seq; intros Hx; unfold id; rewrite ?Hseq by done; try done.
    rewrite Hone; done.
  - intros x Hx _. rewrite lookup_total_replicate_2, Hone; done.
Qed.

Definition relink (rep : nat → nat) (winner loser x : nat) : nat :=
  if decide (rep x = loser) then winner else rep x.

Lemma class_size_relink n rep winner loser :
  winner ≠ loser →
  class_size n (relink rep winner loser) winner = (class_size n rep winner + class_size n rep loser)%nat.
Proof.
  intros Hne. unfold class_size, relink. induction (seq 0 n) as [|x l IH]; [done|].
  rewrite !filter_cons. repeat case_decide; cbn [length]; try lia; congruence.
Qed.
Lemma class_size_relink_other n rep winner loser r :
  r ≠ winner → r ≠ loser → class_size n (relink rep winner loser) r = class_size n rep r.
Proof.
  intros Hw Hl. unfold class_size, relink. induction (seq 0 n) as [|x l IH]; [done|].
  rewrite !filter_cons. repeat case_decide; cbn [length]; try lia; congruence.
Qed.

(** Linking two roots, the larger class winning. *)
Lemma ranked_link p rep rk winner loser :
  ranked p rep rk → (winner < length p)%nat → (loser < length p)%nat →
  rep winner = winner → rep loser = loser → winner ≠ loser →
  (class_size (length p) rep loser ≤ class_size (length p) rep winner)%nat →
  ranked (<[loser := winner]> p) (relink rep winner loser)
    (λ x, if decide (x = winner) then Nat.max (rk winner) (S (rk loser)) else rk x).
Proof.
  intros H Hw Hl Rw Rl Hne Hsize.
  assert (p !!! winner = winner) as Pw by (pose proof (rk_rep_root _ _ _ H winner Hw); congruence).
  assert (p !!! loser = loser) as Pl by (pose proof (rk_rep_root _ _ _ H loser Hl); congruence).
  split; intros x; rewrite ?length_insert; intros Hx; cbv beta.
  - destruct (decide (loser = x)) as [<-|?]; [by rewrite total_insert_eq|].
    rewrite total_insert_ne by done. by apply (rk_range _ _ _ H).
  - unfold relink. case_decide; [done|]. by apply (rk_rep_range _ _ _ H).
  - destruct (decide (loser = x)) as [<-|?].
    + rewrite total_insert_eq by done. unfold relink. rewrite Rw, Rl.
      repeat case_decide; congruence.
    + rewrite total_insert_ne by done. unfold relink. by rewrite (rk_rep_parent _ _ _ H).
  - unfold relink. case_decide as Hd.
    + by rewrite total_insert_ne.
    + rewrite total_insert_ne by done. by apply (rk_rep_root _ _ _ H).
  - destruct (decide (loser = x)) as [<-|?]; [rewrite total_insert_eq by done; congruence|].
    rewrite total_insert_ne by done. intros Hr. apply (rk_root _ _ _ H) in Hr as Hrep; [|done].
    unfold relink. rewrite Hrep. case_decide; congruence.
  - destruct (decide (loser = x)) as [<-|?].
    + rewrite total_insert_eq by done. intros _. repeat case_decide; try congruence. lia.
    + rewrite total_insert_ne by done. intros Hr. pose proof (rk_up _ _ _ H x Hx Hr).
      repeat case_decide; subst; try congruence; lia.
  - pose proof (rk_size _ _ _ H winner Hw) as Sw. pose proof (rk_size _ _ _ H loser Hl) as Sl.
    pose proof (rk_size _ _ _ H x Hx) as Sx. rewrite Rw in Sw. rewrite Rl in Sl.
    destruct (decide (relink rep winner loser x = winner)) as [->|Hnw].
    + rewrite class_size_relink by done. destruct (decide (winner = winner)); [|done].
      destruct (Nat.max_spec (rk winner) (S (rk loser))) as [[_ ->]|[_ ->]]; cbn [Nat.pow]; lia.
    + destruct (decide (relink rep winner loser x = winner)); [done|].
      assert (relink rep winner loser x = rep x ∧ rep x ≠ loser) as [Hrx Hxl].
      { unfold relink in *. by case_decide. }
      rewrite Hrx in *. by rewrite class_size_relink_other.
Qed.

Lemma link_roots_cases size l r :
  (link_roots size l r = (l, r) ∧ size !!! r ≤ size !!! l) ∨
  (link_roots size l r = (r, l) ∧ size !!! l ≤ size !!! r).
Proof.
  unfold link_roots. destruct (Z.ltb_spec (size !!! r) (size !!! l)); cbn [orb]; [left; split; [done|lia]|].
  destruct (Z.eqb_spec (size !!! l) (size !!! r)); cbn [andb]; [|right; split; [done|lia]].
  destruct (Nat.ltb l r); [left|right]; (split; [done|lia]).
Qed.

(** [union] merges exactly the classes of its two arguments; without a budget it never fails. *)
Lemma union_spec n f rep l r :
  forest_inv n f rep → (l < n)%nat → (r < n)%nat → Z.of_nat n ≤ u64_max →
  ∃ f' rep', union_ f l r None = (Ok f', None) ∧ forest_inv n f' rep' ∧
    ∀ x y, (x < n)%nat → (y < n)%nat →
      rep' x = rep' y ↔
        rep x = rep y ∨ (rep x = rep l ∧ rep y = rep r) ∨ (rep x = rep r ∧ rep y = rep l).
Proof.
  intros [Hlen Hslen [rk H] Hsize] Hl Hr Hn. unfold union_. rewrite <-Hlen in Hl, Hr.
  unfold mbind, SE_bind. rewrite charge_None.
  destruct (find_spec _ _ _ l H Hl) as (p1 & -> & H1 & Hl1). cbn.
  rewrite <-Hl1 in Hr. destruct (find_spec _ _ _ r H1 Hr) as (p2 & -> & H2 & Hl2). cbn.
  rewrite Hl1 in Hr. assert (length p2 = n) as Hl2' by congruence.
  destruct (Nat.eqb_spec (rep l) (rep r)) as [Heq|Hne].
  { eexists _, rep. split; [done|]. split; [split; cbn; eauto|]. naive_solver congruence. }
  rewrite <-Hl1, <-Hl2 in Hl. rewrite <-Hl1, <-Hl2 in Hr.
  pose proof (rk_rep_range _ _ _ H2 l Hl) as Rl. pose proof (rk_rep_range _ _ _ H2 r Hr) as Rr.
  assert (rep (rep l) = rep l) as RRl by (eapply rk_root, rk_rep_root; eauto).
  assert (rep (rep r) = rep r) as RRr by (eapply rk_root, rk_rep_root; eauto).
  rewrite !Hsize by (congruence || lia).
  assert (class_size n rep (rep l) + class_size n rep (rep r) ≤ n)%nat as Hsum.
  { rewrite <-class_size_relink by done. apply class_size_le. }
  unfold u64_checked_add. destruct (checked_u64 _) as [c|] eqn:Hc.
  2:{ apply checked_u64_None in Hc. unfold is_u64 in Hc. lia. }
  apply checked_u64_Some in Hc as [-> _]. unfold ok_or, se_lift.
  set (w := (link_roots (size_ f) (rep l) (rep r)).1).
  set (o := (link_roots (size_ f) (rep l) (rep r)).2).
  assert (((w = rep l ∧ o = rep r) ∨ (w = rep r ∧ o = rep l)) ∧
          (class_size n rep o ≤ class_size n rep w)%nat) as [Hwo Hcs].
  { subst w o. destruct (link_roots_cases (size_ f) (rep l) (rep r)) as [[-> Hs]|[-> Hs]];
      rewrite !Hsize in Hs by (congruence || lia); cbn; split; auto; lia. }
  rewrite (surjective_pairing (link_roots (size_ f) (rep l) (rep r))). fold w o.
  assert (ranked (<[o := w]> p2) (relink rep w o)
            (λ x, if decide (x = w) then Nat.max (rk w) (S (rk o)) else rk x)) as Hlink.
  { apply ranked_link; rewrite ?Hl2'; try done; destruct Hwo as [[-> ->]|[-> ->]]; done || congruence. }
  assert (w < n)%nat as Hw by (destruct Hwo as [[-> ->]|[-> ->]]; lia).
  assert (w ≠ o) as Hwne by (destruct Hwo as [[-> ->]|[-> ->]]; congruence).
  eexists _, (relink rep w o). split; [done|]. split; [split; cbn|].
  - by rewrite length_insert.
  - by rewrite length_insert.
  - eauto.
  - intros x Hx Hrx. destruct (decide (x = w)) as [->|Hxw].
    + rewrite list_lookup_total_insert_eq by lia. rewrite class_size_relink by done.
      destruct Hwo as [[-> ->]|[-> ->]]; lia.
    + rewrite list_lookup_total_insert_ne by done.
      unfold relink in Hrx. case_decide as Hd; [congruence|].
      rewrite class_size_relink_other; [by apply Hsize|done|]. congruence.
  - intros x y Hx Hy. unfold relink.
    destruct Hwo as [[-> ->]|[-> ->]]; repeat case_decide; split; intros; naive_solver congruence.
Qed.

(** ** Cost *)
(** What a budgeted run may add to the work account. *)
Definition costs {A} (bound : Z) (P : A → Prop) (m : AM A) : Prop :=
  ∀ b, ∃ r b', m (Some b) = (r, Some b') ∧ work b ≤ work b' ≤ work b + bound ∧
    match r with Ok a => P a | Err _ => True end.

Lemma costs_ret {A} (P : A → Prop) bound a : 0 ≤ bound → P a → costs bound P (mret a).
Proof. intros Hb HP b. exists (Ok a), b. split; [done|]. split; [lia|done]. Qed.
Lemma costs_bind {A B} n k (P : A → Prop) (Q : B → Prop) (m : AM A) f :
  costs n P m → (∀ a, P a → costs k Q (f a)) → 0 ≤ k → costs (n + k) Q (m ≫= f).
Proof.
  intros Hm Hf Hk b. destruct (Hm b) as ([a|e] & b1 & Hr & Hw & HP).
  - destruct (Hf a HP b1) as (r & b2 & Hr2 & Hw2 & HQ). exists r, b2.
    unfold mbind, SE_bind. rewrite Hr. split; [done|]. split; [lia|done].
  - exists (Err e), b1. unfold mbind, SE_bind. rewrite Hr. split; [done|]. split; [lia|done].
Qed.
Lemma costs_weaken {A} n k (P Q : A → Prop) (m : AM A) :
  costs n P m → n ≤ k → (∀ a, P a → Q a) → costs k Q m.
Proof.
  intros Hm Hn HPQ b. destruct (Hm b) as (r & b' & Hr & Hw & HP). exists r, b'.
  split; [done|]. split; [lia|]. destruct r; auto.
Qed.
Lemma costs_charge n : 0 ≤ n → costs n (λ _, True) (charge n).
Proof.
  intros Hn b. unfold charge, budgeted, mbind, SE_bind.
  destruct (reserve_work_cases n b) as [(-> & _ & _)|[e ->]]; cbn;
    eexists _, _; (split; [done|]); (split; [|done]); cbn; lia.
Qed.
Lemma costs_lift {A} (r : Result PlanningPreparationError A) (P : A → Prop) :
  (∀ a, r = Ok a → P a) → costs 0 P (se_lift r).
Proof.
  intros HP b. exists r, b. split; [done|]. split; [lia|]. destruct r; auto.
Qed.

(** One visit per two ranks climbed. *)
Lemma find_root_cost fuel p rep rk x :
  ranked p rep rk → (x < length p)%nat →
  costs (Z.of_nat ((rk (rep x) - rk x + 1) / 2))
    (λ rp, ranked rp.2 rep rk ∧ length rp.2 = length p) (find_root fuel p x).
Proof.
  revert p x. induction fuel as [|fuel IH]; intros p x H Hx; cbn [find_root].
  { apply costs_ret; [lia|done]. }
  destruct (Nat.eqb_spec (p !!! x) x) as [Heq|Hne]; [apply costs_ret; [lia|done]|].
  destruct (ranked_halve _ _ _ _ H Hx Hne) as [H' Hlt].
  pose proof (rk_range _ _ _ H x Hx) as Hpx. pose proof (rk_range _ _ _ H _ Hpx) as Hgp.
  assert (rep (p !!! (p !!! x)) = rep x) as Hrep by (rewrite !(rk_rep_parent _ _ _ H); auto).
  pose proof (ranked_rep_ge _ _ _ _ H Hgp) as Hge. rewrite Hrep in Hge.
  set (gp := p !!! (p !!! x)) in *.
  assert (costs (Z.of_nat ((rk (rep x) - rk gp + 1) / 2))
    (λ rp, ranked rp.2 rep rk ∧ length rp.2 = length p) (find_root fuel (<[x := gp]> p) gp)) as Hrec.
  { specialize (IH (<[x := gp]> p) gp H'). rewrite length_insert, Hrep in IH. auto. }
  eapply costs_weaken; [eapply (costs_bind 1); [by apply costs_charge|intros _ _; exact Hrec|lia]| |auto].
  assert (rep x = p !!! x ∧ gp = p !!! x ∨ (rk x + 2 ≤ rk gp)%nat) as [[Hr Hg]|Htwo].
  { destruct (decide (gp = p !!! x)) as [Hg|Hg].
    - left. split; [|done]. rewrite <-(rk_rep_parent _ _ _ H x Hx). by apply (rk_root _ _ _ H).
    - right. pose proof (rk_up _ _ _ H x Hx Hne). pose proof (rk_up _ _ _ H _ Hpx Hg). subst gp. lia. }
  - rewrite Hg, <-Hr. rewrite Hg, <-Hr in Hlt. rewrite Nat.sub_diag.
    change ((0 + 1) / 2)%nat with 0%nat.
    assert (1 ≤ (rk (rep x) - rk x + 1) / 2)%nat; [|lia].
    apply Nat.div_le_lower_bound; lia.
  - assert (S ((rk (rep x) - rk gp + 1) / 2) ≤ (rk (rep x) - rk x + 1) / 2)%nat; [|lia].
    assert (1 + (rk (rep x) - rk gp + 1) / 2 = (1 * 2 + (rk (rep x) - rk gp + 1)) / 2)%nat as Heq.
    { by rewrite Nat.div_add_l by lia. }
    cbn [Nat.add] in Heq. rewrite Heq. apply Nat.Div0.div_le_mono. lia.
Qed.

Definition visit_bound (n : nat) : Z := Z.of_nat ((Nat.log2 n + 1) / 2).
Lemma find_cost p rep rk x :
  ranked p rep rk → (x < length p)%nat →
  costs (visit_bound (length p)) (λ rp, ranked rp.2 rep rk ∧ length rp.2 = length p) (find p x).
Proof.
  intros H Hx. eapply costs_weaken; [by apply find_root_cost| |auto].
  pose proof (ranked_log2 _ _ _ _ H Hx). unfold visit_bound.
  apply Nat2Z.inj_le. apply Nat.Div0.div_le_mono. lia.
Qed.

Lemma union_cost n f rep l r :
  forest_inv n f rep → (l < n)%nat → (r < n)%nat →
  costs (6 + 2 * visit_bound n) (λ _, True) (union_ f l r).
Proof.
  intros [Hlen _ [rk H] _] Hl Hr. unfold union_. rewrite <-Hlen in *.
  replace (6 + 2 * visit_bound (length (parent f)))
    with (6 + (visit_bound (length (parent f)) + (visit_bound (length (parent f)) + 0))) by lia.
  assert (0 ≤ visit_bound (length (parent f))) by (unfold visit_bound; lia).
  eapply costs_bind; [by apply costs_charge| |lia]. intros _ _.
  eapply costs_bind; [by apply (find_cost _ _ _ _ H)| |lia]. intros [lr p1] [H1 Hl1]. cbn in H1, Hl1.
  eapply costs_bind; [|cbn|lia].
  { rewrite <-Hl1. apply (find_cost _ _ _ _ H1). lia. }
  intros [rr p2] [H2 Hl2]. case_match; [by apply costs_ret|].
  replace 0 with (0 + 0) by lia. apply (costs_bind _ _ (λ _, True)); [by apply costs_lift| |done]. intros c _.
  case_match. by apply costs_ret.
Qed.

(** The forests the analysis goes through: unions, budgeted or not, from singletons. *)
Inductive reachable_forest (n : nat) : Forest → Prop :=
| rf_init : reachable_forest n {| parent := seq 0 n; size_ := replicate n 1 |}
| rf_union f l r ctx f' ctx' :
    reachable_forest n f → (l < n)%nat → (r < n)%nat →
    union_ f l r ctx = (Ok f', ctx') → reachable_forest n f'.

Lemma reachable_forest_inv n f :
  Z.of_nat n ≤ u64_max → reachable_forest n f → ∃ rep, forest_inv n f rep.
Proof.
  intros Hn. induction 1 as [|f l r ctx f' ctx' _ [rep IH] Hl Hr Hu].
  { exists id. apply forest_inv_init. }
  destruct (union_spec n f rep l r IH Hl Hr Hn) as (g & rep' & Hg & Hinv & _).
  exists rep'. destruct ctx as [b|].
  - destruct (erases_union f l r b f' ctx' Hu) as (_ & g' & Hg' & ->). congruence.
  - congruence.
Qed.

(** The comment above [union] holds: with size linking and path halving, one union over [n]
    nodes costs at most 6 units plus [ceil (floor (log2 n) / 2)] visits per find, whatever the
    budget decides, for every forest the analysis can reach. *)
Theorem union_work_is_logarithmic n f l r b :
  Z.of_nat n ≤ u64_max → reachable_forest n f → (l < n)%nat → (r < n)%nat →
  ∃ res b', union_ f l r (Some b) = (res, Some b') ∧
    work b ≤ work b' ≤ work b + 6 + 2 * Z.of_nat ((Nat.log2 n + 1) / 2).
Proof.
  intros Hn Hf Hl Hr. destruct (reachable_forest_inv n f Hn Hf) as [rep Hinv].
  destruct (union_cost n f rep l r Hinv Hl Hr b) as (res & b' & Hrun & Hw & _).
  exists res, b'. split; [done|]. unfold visit_bound in Hw. lia.
Qed.
