(* ===== verification/Components.v ===== *)
(** * Mathematical components are the connected components

    Specifies and proves [analyze_components] of [crates/eutheto-planning-ir/src/analysis.rs]
    against the hypergraph of the problem: every interval variable, constraint record, objective
    level, projection and assumption contributes one hyperedge over the nodes it mentions. *)
From stdpp Require Import base tactics list gmap strings pretty relations.
From Stdlib Require Import ZArith Lia Ascii Sorting.Sorted.
From S2P Require Import Prelude Ordering Control Budget Ids DomainIr Model Analysis Erasure UnionFind.
Open Scope Z_scope.

(** ** Specification *)
Definition declared (problem : PlanningProblem) : list VariableNode :=
  btree_set (variable_node <$> variables problem).
Definition hyperedges (problem : PlanningProblem) : list (list VariableNode) :=
  (variables problem ≫= λ v, match v with VInterval i => [interval_edge i] | _ => [] end)
  ++ ((λ r, constraint_nodes (cr_body r) ++ (literal_node <$> cr_enforcement r))
        <$> constraints problem)
  ++ (level_edge <$> op_levels (objectives problem))
  ++ ((λ p, projection_nodes (sp_expression p)) <$> projections problem)
  ++ ((λ a, [literal_node (as_literal a)]) <$> assumptions problem).
(** Two declared nodes are adjacent when one hyperedge mentions both. *)
Definition adjacent (problem : PlanningProblem) (u v : VariableNode) : Prop :=
  u ∈ declared problem ∧ v ∈ declared problem ∧
  ∃ e, e ∈ hyperedges problem ∧ u ∈ e ∧ v ∈ e.
Definition connected (problem : PlanningProblem) : relation VariableNode :=
  rtsc (adjacent problem).

(** ** Forests that represent a relation *)
Definition represents (n : nat) (R : relation nat) (f : Forest) : Prop :=
  (∀ x y, R x y → (x < n)%nat ∧ (y < n)%nat) ∧
  ∃ rep, forest_inv n f rep ∧
    ∀ x y, (x < n)%nat → (y < n)%nat → rep x = rep y ↔ rtsc R x y.

Lemma represents_init n :
  represents n (λ _ _, False) {| parent := seq 0 n; size_ := replicate n 1 |}.
Proof.
  split; [done|]. exists id. split; [apply forest_inv_init|]. intros x y _ _. unfold id. split.
  - intros ->. reflexivity.
  - induction 1 as [|x z y [[]|[]] _ _]; done.
Qed.

Lemma rtsc_ext {A} (R R' : relation A) :
  (∀ x y, R x y → rtsc R' x y) → (∀ x y, R' x y → rtsc R x y) →
  ∀ x y, rtsc R x y ↔ rtsc R' x y.
Proof.
  intros H H' x y. split; induction 1 as [|x z y [Hxz|Hxz] _ IH]; try reflexivity;
    (etrans; [|exact IH]); auto; symmetry; auto.
Qed.

Lemma represents_ext n R R' f :
  (∀ x y, R x y → rtsc R' x y) → (∀ x y, R' x y → rtsc R x y) →
  (∀ x y, R' x y → (x < n)%nat ∧ (y < n)%nat) → represents n R f → represents n R' f.
Proof.
  intros H1 H2 Hb [_ (rep & Hf & Hrep)]. split; [done|]. exists rep. split; [done|].
  intros x y Hx Hy. rewrite Hrep by done. by apply rtsc_ext.
Qed.

Lemma rtsc_invariant {A} (R : relation A) (P : A → Prop) {B} (g : A → B) :
  (∀ x y, R x y → P x ∧ P y) → (∀ x y, R x y → g x = g y) →
  ∀ x y, P x → rtsc R x y → P y ∧ g x = g y.
Proof.
  intros HP Hg x y Hx. induction 1 as [|x z y Hs _ IH]; [done|].
  assert (P z ∧ g x = g z) as [Hz Heq].
  { destruct Hs as [Hs|Hs]; destruct (HP _ _ Hs); pose proof (Hg _ _ Hs); auto. }
  rewrite Heq. auto.
Qed.

Lemma represents_union n R f l r :
  represents n R f → (l < n)%nat → (r < n)%nat → Z.of_nat n ≤ u64_max →
  runs (represents n (λ x y, R x y ∨ (x = l ∧ y = r))) (union_ f l r).
Proof.
  intros [Hb (rep & Hf & Hrep)] Hl Hr Hn.
  destruct (union_spec n f rep l r Hf Hl Hr Hn) as (f' & rep' & Hu & Hf' & Hrep').
  exists f'. split; [done|]. split; [naive_solver|]. exists rep'. split; [done|].
  assert (∀ x y, rtsc R x y → rtsc (λ x y, R x y ∨ (x = l ∧ y = r)) x y) as Hmono.
  { intros x y. induction 1 as [|x z y Hs _ IH]; [reflexivity|]. etrans; [|done].
    destruct Hs; [apply rtsc_lr|apply rtsc_rl]; auto. }
  intros x y Hx Hy. split.
  - intros Heq. apply Hrep' in Heq; [|done..].
    assert (rtsc (λ x y, R x y ∨ (x = l ∧ y = r)) l r) as Hlr by (apply rtsc_lr; auto).
    destruct Heq as [Heq|[[H1 H2]|[H1 H2]]].
    + by apply Hmono, Hrep.
    + etrans; [by apply Hmono, (Hrep x l)|]. etrans; [exact Hlr|]. by apply Hmono, (Hrep r y).
    + etrans; [by apply Hmono, (Hrep x r)|]. etrans; [symmetry; exact Hlr|]. by apply Hmono, (Hrep l y).
  - intros Hxy. eapply (rtsc_invariant _ (λ x, (x < n)%nat)); [| |exact Hx|exact Hxy].
    + naive_solver.
    + intros u v [Huv|[-> ->]]; apply Hrep'; try (by destruct (Hb _ _ Huv)); try done; [|naive_solver].
      left. apply Hrep; [by destruct (Hb _ _ Huv)..|]. by apply rtsc_lr.
Qed.

(** ** Hyperedges *)
(** Indices whose nodes one of the hyperedges mentions together. *)
Definition shares (ordered : list VariableNode) (E : list (list VariableNode)) (x y : nat) : Prop :=
  ∃ e u v, e ∈ E ∧ ordered !! x = Some u ∧ ordered !! y = Some v ∧ u ∈ e ∧ v ∈ e.

Lemma index_of_Some ordered u x :
  NoDup ordered → index_of ordered u = Some x ↔ ordered !! x = Some u.
Proof.
  intros Hnd. unfold index_of. split.
  - intros Hx. apply fmap_Some in Hx as ([i w] & Hf & ->). apply list_find_Some in Hf. naive_solver.
  - intros Hx. destruct (list_find_elem_of (λ n, n = u) ordered u) as [[i w] Hf];
      [by eapply list_elem_of_lookup_2|done|].
    rewrite Hf. cbn. apply list_find_Some in Hf as (Hi & -> & _).
    f_equal. eapply NoDup_lookup; eauto.
Qed.

Lemma elem_of_positions ordered edge x :
  NoDup ordered →
  x ∈ omap (index_of ordered) (btree_set edge) ↔ ∃ u, ordered !! x = Some u ∧ u ∈ edge.
Proof.
  intros Hnd. rewrite list_elem_of_omap. setoid_rewrite elem_of_btree_set.
  setoid_rewrite index_of_Some; [|done..]. naive_solver.
Qed.

Lemma runs_bump_edges n : runs (λ _, True) (bump_edges n).
Proof. by eexists. Qed.

(** The unions one hyperedge makes link its first declared node to the others. *)
Lemma runs_link_positions n R first positions st :
  represents n R st.1 → (first < n)%nat → Forall (λ x, (x < n)%nat) positions →
  Z.of_nat n ≤ u64_max →
  runs (λ st', represents n (λ x y, R x y ∨ (x = first ∧ y ∈ positions)) st'.1)
    (fold_m (λ '(f, edge_count) position,
       f ← union_ f first position; edge_count ← bump_edges edge_count; mret (f, edge_count))
     st positions).
Proof.
  intros HR Hfirst Hpos Hn.
  eapply (runs_fold_m (λ done_ st', represents n (λ x y, R x y ∨ (x = first ∧ y ∈ done_)) st'.1)).
  - eapply represents_ext; [..|exact HR].
    + intros x y H. apply rtsc_lr. auto.
    + intros x y [H|[_ H]]; [by apply rtsc_lr|by apply not_elem_of_nil in H].
    + intros x y [H|[_ H]]; [by apply HR|by apply not_elem_of_nil in H].
  - intros done_ x todo [f ec] Hl Hst. cbn in Hst.
    assert (x < n)%nat as Hx.
    { rewrite Forall_forall in Hpos. apply Hpos. rewrite Hl. set_solver. }
    eapply runs_bind; [by apply (represents_union _ _ _ first x Hst)|]. intros f' Hf'.
    apply runs_seq; [apply runs_bump_edges|]. intros ec'. apply runs_ret. cbn.
    eapply represents_ext; [..|exact Hf'].
    + intros u v H. apply rtsc_lr. set_solver.
    + intros u v H. apply rtsc_lr. set_solver.
    + intros u v H. apply Hf'. set_solver.
Qed.

Lemma shares_bounded ordered E x y :
  shares ordered E x y → (x < length ordered)%nat ∧ (y < length ordered)%nat.
Proof. intros (e & u & v & _ & Hx & Hy & _). apply lookup_lt_Some in Hx, Hy. done. Qed.

Definition tracks (ordered : list VariableNode) (E : list (list VariableNode)) (st : Forest * Z) : Prop :=
  represents (length ordered) (shares ordered E) st.1.

Lemma tracks_trivial_edge ordered E edge st :
  (∀ x y, shares ordered [edge] x y → x = y) → tracks ordered E st → tracks ordered (E ++ [edge]) st.
Proof.
  intros Htriv. apply represents_ext; [| |apply shares_bounded].
  - intros x y (e & u & v & He & H). apply rtsc_lr. exists e, u, v. set_solver.
  - intros x y (e & u & v & He & H). apply elem_of_app in He as [He|He].
    + apply rtsc_lr. exists e, u, v. done.
    + rewrite (Htriv x y); [reflexivity|]. exists e, u, v. done.
Qed.

Lemma runs_union_edge ordered E edge st :
  NoDup ordered → Z.of_nat (length ordered) ≤ u64_max → tracks ordered E st →
  runs (tracks ordered (E ++ [edge])) (union_edge ordered edge st).
Proof.
  intros Hnd Hn Hst. unfold union_edge. apply runs_seq; [auto with erasure|]. intros g.
  apply runs_guarded. pose proof (elem_of_positions ordered edge) as Hpos.
  destruct (omap _ _) as [|first positions].
  { apply runs_ret. apply tracks_trivial_edge; [|done].
    intros x y (e & u & v & ->%list_elem_of_singleton & Hx & Hy & Hu & Hv).
    assert (x ∈ @nil nat) as H by (apply Hpos; eauto). by apply not_elem_of_nil in H. }
  assert (∀ x, x ∈ first :: positions → (x < length ordered)%nat) as Hlt.
  { intros x Hx. apply Hpos in Hx as (u & Hx & _); [|done]. by apply lookup_lt_Some in Hx. }
  eapply runs_weaken.
  2:{ apply (runs_link_positions (length ordered) (shares ordered E)); [done| | |done].
      - apply Hlt. by left.
      - apply Forall_forall. intros x Hx. apply Hlt. by right. }
  intros st'. apply represents_ext; [| |apply shares_bounded].
  - intros x y [(e & u & v & He & H)|[-> Hy]]; apply rtsc_lr.
    + exists e, u, v. set_solver.
    + destruct (proj1 (Hpos first Hnd)) as (u & Hu & Hue); [by left|].
      destruct (proj1 (Hpos y Hnd)) as (v & Hv & Hve); [by right|].
      exists edge, u, v. set_solver.
  - set (R := λ x y, shares ordered E x y ∨ x = first ∧ y ∈ positions).
    assert (∀ x u, ordered !! x = Some u → u ∈ edge → rtsc R first x) as Hstar.
    { intros x u Hx Hu. assert (x ∈ first :: positions) as Hin by (apply Hpos; eauto).
      apply elem_of_cons in Hin as [->|Hin]; [reflexivity|]. apply rtsc_lr. by right. }
    intros x y (e & u & v & He & Hx & Hy & Hu & Hv). apply elem_of_app in He as [He|He].
    + apply rtsc_lr. left. exists e, u, v. done.
    + apply list_elem_of_singleton in He as ->. etrans; [symmetry|]; eapply Hstar; eauto.
Qed.

Lemma fmap_as_bind {A B} (f : A → B) l : f <$> l = l ≫= λ x, [f x].
Proof. induction l as [|x l IH]; cbn; [done|]. by rewrite <-IH. Qed.

(** A loop whose body adds the hyperedges of one element adds the hyperedges of all. *)
Lemma runs_edges {A} ordered (edges_of : A → list (list VariableNode))
    (step : Forest * Z → A → AM (Forest * Z)) E st l :
  (∀ E st x, tracks ordered E st → runs (tracks ordered (E ++ edges_of x)) (step st x)) →
  tracks ordered E st → runs (tracks ordered (E ++ (l ≫= edges_of))) (fold_m step st l).
Proof.
  intros Hstep Hst.
  eapply (runs_fold_m (λ done_ st, tracks ordered (E ++ (done_ ≫= edges_of)) st)).
  { cbn. by rewrite app_nil_r. }
  intros done_ x todo st' _ H'. rewrite bind_app, app_assoc. cbn. rewrite app_nil_r. by apply Hstep.
Qed.

Section edges.
Context (ordered : list VariableNode).
Hypothesis ordered_NoDup : NoDup ordered.
Hypothesis ordered_len : Z.of_nat (length ordered) ≤ u64_max.

Lemma runs_variable_edges E st v :
  tracks ordered E st →
  runs (tracks ordered (E ++ match v with VInterval i => [interval_edge i] | _ => [] end))
    (variable_edges ordered st v).
Proof.
  intros Hst. unfold variable_edges. apply runs_seq; [auto with erasure|]. intros _.
  destruct v; [apply runs_ret; by rewrite app_nil_r..|].
  apply runs_seq; [auto with erasure|]. intros g. apply runs_guarded.
  eapply runs_bind; [apply runs_push_nodes|]. intros ? ->. by apply runs_union_edge.
Qed.
Lemma runs_constraint_edges E st r :
  tracks ordered E st →
  runs (tracks ordered (E ++ [constraint_nodes (cr_body r) ++ (literal_node <$> cr_enforcement r)]))
    (constraint_edges ordered st r).
Proof.
  intros Hst. unfold constraint_edges. do 2 (apply runs_seq; [auto with erasure|]; intros ?).
  apply runs_guarded. eapply runs_bind; [apply runs_push_nodes|]. intros ? ->.
  eapply runs_bind; [apply runs_push_nodes|]. intros ? ->. by apply runs_union_edge.
Qed.
Lemma runs_objective_edges E st level :
  tracks ordered E st → runs (tracks ordered (E ++ [level_edge level])) (objective_edges ordered st level).
Proof.
  intros Hst. unfold objective_edges. apply runs_seq; [auto with erasure|]; intros _.
  eapply runs_bind; [apply runs_budgeted|]. intros ? ->.
  apply runs_seq; [auto with erasure|]; intros g. apply runs_guarded.
  eapply (runs_bind (λ edge, edge = level_edge level)); [|intros ? ->; by apply runs_union_edge].
  unfold level_edge.
  apply (runs_fold_m (λ done_ edge, edge = done_ ≫= λ term, expression_nodes (ot_expression term)));
    [done|].
  intros done_ term todo ? _ ->. apply runs_seq; [auto with erasure|]; intros _.
  eapply runs_weaken; [|apply runs_push_nodes]. intros ? ->. rewrite bind_app. cbn. by rewrite app_nil_r.
Qed.
Lemma runs_projection_edges E st p :
  tracks ordered E st →
  runs (tracks ordered (E ++ [projection_nodes (sp_expression p)])) (projection_edges ordered st p).
Proof.
  intros Hst. unfold projection_edges. do 2 (apply runs_seq; [auto with erasure|]; intros ?).
  apply runs_guarded. unfold projection_nodes_with_budget.
  eapply (runs_bind (λ nodes, nodes = projection_nodes (sp_expression p))).
  - apply runs_seq; [|intros; by apply runs_ret].
    induction (projection_nodes _); cbn; [by apply runs_ret|].
    apply runs_seq; [auto with erasure|]; done.
  - intros ? ->. by apply runs_union_edge.
Qed.
Lemma runs_assumption_edges E st a :
  tracks ordered E st →
  runs (tracks ordered (E ++ [[literal_node (as_literal a)]])) (assumption_edges ordered st a).
Proof.
  intros Hst. unfold assumption_edges. do 2 (apply runs_seq; [auto with erasure|]; intros ?).
  apply runs_guarded. by apply runs_union_edge.
Qed.

Lemma runs_all_edges problem st :
  tracks ordered [] st → runs (tracks ordered (hyperedges problem)) (all_edges ordered problem st).
Proof.
  intros Hst. unfold all_edges, hyperedges. rewrite !fmap_as_bind.
  eapply runs_bind; [by apply (runs_edges _ _ _ _ _ _ runs_variable_edges Hst)|]. intros st1 H1.
  eapply runs_bind; [by apply (runs_edges _ _ _ _ _ _ runs_constraint_edges H1)|]. intros st2 H2.
  eapply runs_bind; [by apply (runs_edges _ _ _ _ _ _ runs_objective_edges H2)|]. intros st3 H3.
  eapply runs_bind; [by apply (runs_edges _ _ _ _ _ _ runs_projection_edges H3)|]. intros st4 H4.
  eapply runs_weaken; [|apply (runs_edges _ _ _ _ _ _ runs_assumption_edges H4)].
  intros st5. by rewrite <-!app_assoc.
Qed.
End edges.

(** ** Grouping *)
Definition class_of {A} (rep : nat → nat) (r : nat) (l : list (nat * A)) : list A :=
  (filter (λ e, rep e.1 = r) l).*2.

(** The groups after the entries [done_]: one nonempty list per root, in order. *)
Definition groups_inv (n : nat) (rep : nat → nat) (done_ : list (nat * VariableNode))
    (st : list nat * gmap nat (list string)) : Prop :=
  length st.1 = n ∧ (∃ rk, ranked st.1 rep rk) ∧
  (∀ r, default [] (st.2 !! r) = encoded <$> class_of rep r done_) ∧
  (∀ r, st.2 !! r ≠ Some []) ∧
  concat (map_to_list st.2).*2 ≡ₚ encoded <$> done_.*2.

Lemma concat_insert_group (m : gmap nat (list string)) r x :
  concat (map_to_list (<[r := default [] (m !! r) ++ [x]]> m)).*2
  ≡ₚ concat (map_to_list m).*2 ++ [x].
Proof.
  destruct (m !! r) as [l|] eqn:Hr.
  - rewrite <-insert_delete_eq, map_to_list_insert by apply lookup_delete_eq.
    rewrite <-(insert_delete_id m r l Hr) at 2. rewrite map_to_list_insert by apply lookup_delete_eq.
    cbn. solve_Permutation.
  - rewrite map_to_list_insert by done. cbn. solve_Permutation.
Qed.

Lemma runs_group_step n rep done_ st index node :
  (index < n)%nat → groups_inv n rep done_ st →
  runs (groups_inv n rep (done_ ++ [(index, node)])) (group_step st (index, node)).
Proof.
  intros Hi (Hlen & [rk Hrk] & Hdef & Hne & Hperm). destruct st as [p grouped]. cbn in *.
  unfold group_step. apply runs_seq; [auto with erasure|]. intros _.
  rewrite <-Hlen in Hi. destruct (find_spec _ _ _ _ Hrk Hi) as (p' & Hf & Hrk' & Hlen').
  apply (runs_bind (λ r, r = (rep index, p'))); [by exists (rep index, p')|]. intros ? ->.
  apply runs_ret. split_and!; cbn.
  - congruence.
  - eauto.
  - intros r. unfold class_of. rewrite filter_app, fmap_app, fmap_app.
    destruct (decide (rep index = r)) as [<-|Hr].
    + rewrite lookup_insert_eq, filter_cons_True, filter_nil by done. cbn. by rewrite Hdef.
    + rewrite lookup_insert_ne by done. rewrite Hdef, filter_cons_False by done. cbn. by rewrite app_nil_r.
  - intros r. destruct (decide (rep index = r)) as [<-|Hr].
    + rewrite lookup_insert_eq. intros [= H]. by apply app_nil in H as [_ ?].
    + by rewrite lookup_insert_ne.
  - rewrite concat_insert_group, Hperm, !fmap_app. done.
Qed.

(** ** Component identifiers *)
Lemma list_ascii_of_string_app s t :
  String.list_ascii_of_string (s +:+ t) = String.list_ascii_of_string s ++ String.list_ascii_of_string t.
Proof. induction s as [|c s IH]; [done|]. change (String c s +:+ t) with (String c (s +:+ t)). cbn. by rewrite IH. Qed.
Lemma length_list_ascii s : length (String.list_ascii_of_string s) = String.length s.
Proof. induction s; cbn; auto. Qed.

Lemma pretty_N_char_digit x : is_ascii_digit (pretty_N_char x) = true.
Proof. destruct x as [|p]; [done|]. do 4 (destruct p as [p|p|]; try done). Qed.

Lemma pretty_N_go_digits k x s :
  (x < 10 ^ N.of_nat k)%N → ∃ ds, String.list_ascii_of_string (pretty_N_go x s)
    = ds ++ String.list_ascii_of_string s ∧ Forall (λ c, is_ascii_digit c = true) ds ∧ (length ds ≤ k)%nat.
Proof.
  revert x s. induction k as [|k IH]; intros x s Hx.
  { replace x with 0%N by (cbn in Hx; lia). exists []. rewrite pretty_N_go_0. repeat split; cbn; auto. }
  destruct (decide (x = 0)%N) as [->|Hne].
  { exists []. rewrite pretty_N_go_0. repeat split; cbn; auto; lia. }
  rewrite pretty_N_go_step by lia.
  destruct (IH (x `div` 10)%N (String (pretty_N_char (x `mod` 10)) s)) as (ds & -> & Hds & Hlen).
  { rewrite Nat2N.inj_succ, N.pow_succ_r' in Hx. apply N.Div0.div_lt_upper_bound. lia. }
  exists (ds ++ [pretty_N_char (x `mod` 10)]). split_and!.
  - cbn. by rewrite <-app_assoc.
  - apply Forall_app. split; [done|]. apply Forall_singleton. apply pretty_N_char_digit.
  - rewrite length_app. cbn. lia.
Qed.

Lemma pretty_nat_digits (i : nat) :
  Z.of_nat i ≤ u64_max → ∃ ds, String.list_ascii_of_string (pretty i) = ds ∧
    Forall (λ c, is_ascii_digit c = true) ds ∧ (length ds ≤ 20)%nat.
Proof.
  intros Hi. change (pretty i) with (pretty (N.of_nat i)). unfold pretty, pretty_N. case_decide.
  { exists ["0"%char]. repeat split; [|cbn; lia]. by apply Forall_singleton. }
  destruct (pretty_N_go_digits 20 (N.of_nat i) "") as (ds & -> & Hds & Hlen).
  { unfold u64_max in Hi. change (10 ^ N.of_nat 20)%N with 100000000000000000000%N. lia. }
  exists ds. rewrite app_nil_r. done.
Qed.

Lemma component_id_Ok (i : nat) :
  Z.of_nat i ≤ u64_max → component_id i = Ok ("component.c" +:+ pretty i).
Proof.
  intros Hi. unfold component_id, PlanningId_new.
  destruct (pretty_nat_digits i Hi) as (ds & Hds & Hdig & Hlen).
  assert (valid ("component.c" +:+ pretty i) = true) as ->; [|done].
  apply valid_grammar. split.
  { rewrite <-length_list_ascii, list_ascii_of_string_app, Hds, length_app. cbn.
    unfold MAX_PLANNING_ID_BYTES. lia. }
  exists [String.list_ascii_of_string "component"; "c"%char :: ds]. split_and!.
  - rewrite list_ascii_of_string_app, Hds. done.
  - cbn. lia.
  - apply Forall_cons; split; [by apply valid_segment_spec|]. apply Forall_singleton.
    split; [|split].
    + constructor; [by do 2 left|]. eapply Forall_impl; [exact Hdig|]. intros c Hc. left. by right.
    + exists "c"%char. split; [done|]. by left.
    + destruct (last ("c"%char :: ds)) as [c|] eqn:Hlast; [|by apply last_None in Hlast].
      exists c. split; [done|]. apply last_Some_elem_of in Hlast. apply elem_of_cons in Hlast as [->|Hin].
      * by left.
      * right. rewrite Forall_forall in Hdig. auto.
Qed.

(** ** The analysis *)
Lemma length_btree_set {A} `{OrdLaws A, EqDecision A} (l : list A) : (length (btree_set l) ≤ length l)%nat.
Proof.
  apply submseteq_length, NoDup_submseteq.
  - apply strictly_sorted_NoDup, btree_set_sorted.
  - intros x. by rewrite elem_of_btree_set.
Qed.

Lemma encoded_inj u v : encoded u = encoded v → u = v.
Proof. destruct u, v; unfold encoded; cbv [String.app]; intros [=]; by subst. Qed.

Lemma runs_sort_groups groups :
  runs (λ gs, gs = ord_sort (ord_sort <$> groups)) (sort_groups groups).
Proof.
  unfold sort_groups. apply (runs_bind (λ gs, gs = ord_sort <$> groups)).
  - apply (runs_fold_m (λ done_ gs, gs = ord_sort <$> done_)); [done|].
    intros done_ x todo ? _ ->. apply runs_seq; [auto with erasure|]. intros _. apply runs_ret.
    by rewrite fmap_app.
  - intros ? ->. apply runs_seq; [auto with erasure|]. intros _. by apply runs_ret.
Qed.

Lemma runs_hash_components h cs n : runs (λ _, True) (hash_components h cs n).
Proof.
  unfold hash_components. apply runs_seq; [by exists None|]. intros g. apply runs_guarded.
  apply runs_seq; [|intros; by apply runs_ret].
  apply (runs_fold_m (λ _ _, True)); [done|]. intros _ c _ bytes _ _.
  unfold hash_component. apply runs_seq; [auto with erasure|]. intros _.
  apply (runs_fold_m (λ _ _, True)); [done|]. intros _ node _ bytes' _ _.
  apply runs_seq; [auto with erasure|]. intros _. by apply runs_ret.
Qed.

Lemma make_components_spec groups :
  len groups ≤ u64_max →
  make_components groups
  = imap (λ i nodes, {| mc_id := "component.c" +:+ pretty i; variable_nodes := nodes |}) groups.
Proof.
  unfold make_components, enumerate, len. intros Hlen.
  assert (∀ k, (k + Z.of_nat (length groups) ≤ u64_max)%Z → 0 ≤ k →
    omap (λ '(index, nodes), match component_id index with
          | Ok id => Some {| mc_id := id; variable_nodes := nodes |} | Err _ => None end)
      (imap (λ i x, ((Z.to_nat k + i)%nat, x)) groups)
    = imap (λ i nodes, {| mc_id := "component.c" +:+ pretty (Z.to_nat k + i)%nat;
                          variable_nodes := nodes |}) groups) as Hgen.
  { clear Hlen. induction groups as [|g gs IH]; intros k Hk Hk0; [done|]. cbn [imap omap list_omap].
    cbn [length] in Hk. rewrite component_id_Ok by lia. f_equal.
    specialize (IH (k + 1) ltac:(lia) ltac:(lia)).
    assert (∀ i, (Z.to_nat (k + 1) + i = Z.to_nat k + S i)%nat) as Hshift by lia.
    etrans; [|etrans; [exact IH|]]; [f_equal|]; apply imap_ext; intros i x _; cbn; by rewrite Hshift. }
  exact (Hgen 0 Hlen ltac:(lia)).
Qed.

Section analysis.
Context (blake3_hex : list Z → string) (problem : PlanningProblem).
Hypothesis variables_fit : len (variables problem) ≤ u64_max.

(** What the loops compute: a representative per declared node whose kernel is connectivity of
    indices, and the groups of that representative. *)
Definition analysis_result (a : BudgetedComponentAnalysis) : Prop :=
  ∃ rep grouped,
    (∀ x y, (x < length (declared problem))%nat → (y < length (declared problem))%nat →
       rep x = rep y ↔ rtsc (shares (declared problem) (hyperedges problem)) x y) ∧
    (∃ p, groups_inv (length (declared problem)) rep (enumerate (declared problem)) (p, grouped)) ∧
    components (bca_analysis a)
    = make_components (ord_sort (ord_sort <$> (sort_by_key fst (map_to_list grouped)).*2)).

Lemma declared_fits : Z.of_nat (length (declared problem)) ≤ u64_max.
Proof.
  unfold declared. pose proof (length_btree_set (variable_node <$> variables problem)) as Hle.
  rewrite length_fmap in Hle. unfold len in variables_fit. lia.
Qed.

Lemma runs_analyze : runs analysis_result (analyze_components_inner blake3_hex problem).
Proof.
  pose proof declared_fits as Hfit.
  assert (NoDup (declared problem)) as Hnd by apply strictly_sorted_NoDup, btree_set_sorted.
  unfold analyze_components_inner. apply runs_seq; [auto with erasure|]. intros _.
  apply (runs_bind (λ x, x = (None, declared problem))).
  { unfold declared_nodes. eapply runs_bind; [apply runs_open_guard|]. intros ? ->. by apply runs_ret. }
  intros ? ->.
  set (P := λ x : list (list string) * Z * Guard * Guard, ∃ rep grouped,
    (∀ x y, (x < length (declared problem))%nat → (y < length (declared problem))%nat →
       rep x = rep y ↔ rtsc (shares (declared problem) (hyperedges problem)) x y) ∧
    (∃ p, groups_inv (length (declared problem)) rep (enumerate (declared problem)) (p, grouped)) ∧
    x.1.1.1 = (sort_by_key fst (map_to_list grouped)).*2).
  apply (runs_bind P).
  - apply runs_on_err. eapply runs_bind; [apply runs_open_guard|]. intros ? ->.
    apply (runs_bind (λ r, tracks (declared problem) (hyperedges problem) r.1)).
    { apply runs_on_err. eapply runs_bind; [apply runs_open_guard|]. intros ? ->.
      eapply runs_bind; [|intros st Hst; apply runs_ret; exact Hst].
      apply runs_on_err, runs_all_edges; [done..|].
      eapply represents_ext; [..|apply represents_init]; [done| |];
        intros x y (e & _ & _ & He & _); by apply not_elem_of_nil in He. }
    intros [st pg] [_ (rep & [Hl1 Hl2 [rk Hrk] Hsz] & Hrep)].
    apply runs_seq; [auto with erasure|]. intros _.
    apply (runs_bind P); [|intros r Hr; apply runs_seq; [auto with erasure|]; intros _; by apply runs_ret].
    apply runs_on_err. eapply runs_bind; [apply runs_open_guard|]. intros ? ->.
    eapply runs_bind; [apply runs_on_err, runs_open_guard|]. intros ? ->.
    eapply (runs_bind (groups_inv (length (declared problem)) rep (enumerate (declared problem)))).
    { do 2 apply runs_on_err. apply runs_fold_m.
      - split_and!; cbn; eauto.
      - intros done_ [i node] todo st' Hl Hst'. apply runs_group_step; [|done].
        assert (enumerate (declared problem) !! length done_ = Some (i, node)) as Hlk.
        { rewrite Hl. by apply list_lookup_middle. }
        unfold enumerate in Hlk. rewrite list_lookup_imap in Hlk.
        apply fmap_Some in Hlk as (u & Hu & [= -> ->]). by apply lookup_lt_Some in Hu. }
    intros [p grouped] Hg. apply runs_ret. exists rep, grouped. eauto.
  - intros [[[groups edges] o] g] (rep & grouped & Hrep & Hg & Heq). cbn in Heq. subst groups.
    apply runs_seq; [auto with erasure|]. intros _.
    eapply runs_bind; [do 2 apply runs_on_err; apply runs_sort_groups|]. intros ? ->.
    apply runs_seq; [auto with erasure|]. intros _.
    apply runs_seq; [apply runs_on_err, runs_seq; [auto with erasure|]; intros _; apply runs_hash_components|].
    intros hash. apply runs_ret. exists rep, grouped. eauto.
Qed.
End analysis.

Lemma connected_indices problem x y u v :
  declared problem !! x = Some u → declared problem !! y = Some v →
  rtsc (shares (declared problem) (hyperedges problem)) x y ↔ connected problem u v.
Proof.
  assert (NoDup (declared problem)) as Hnd by apply strictly_sorted_NoDup, btree_set_sorted.
  intros Hx Hy. split.
  - intros H. revert u Hx. induction H as [x|x z y Hs _ IH]; intros u Hx.
    { assert (u = v) as -> by congruence. reflexivity. }
    assert (∃ w, declared problem !! z = Some w ∧ sc (adjacent problem) u w) as (w & Hw & Hstep).
    { destruct Hs as [(e & a & c & He & Ha & Hc & Hae & Hce)|(e & a & c & He & Ha & Hc & Hae & Hce)];
        simplify_eq; [exists c|exists a]; (split; [done|]); [left|right];
        (split_and!; [by eapply list_elem_of_lookup_2..|eauto]). }
    eapply rtc_l; [exact Hstep|]. by apply IH.
  - intros H. revert x Hx. induction H as [u|u w v Hs _ IH]; intros x Hx.
    { assert (x = y) as -> by (eapply NoDup_lookup; eauto). reflexivity. }
    assert (∃ z, declared problem !! z = Some w ∧
              sc (shares (declared problem) (hyperedges problem)) x z) as (z & Hz & Hstep).
    { destruct Hs as [(Hu & Hw & e & He & Hue & Hwe)|(Hw & Hu & e & He & Hwe & Hue)];
        apply list_elem_of_lookup in Hw as [z Hz]; exists z; (split; [done|]);
        [left; exists e, u, w|right; exists e, w, u]; done. }
    eapply rtc_l; [exact Hstep|]. by apply IH.
Qed.

Lemma elem_of_class {A} (rep : nat → nat) r (l : list A) u :
  u ∈ class_of rep r (enumerate l) ↔ ∃ i, rep i = r ∧ l !! i = Some u.
Proof.
  unfold class_of, enumerate. rewrite list_elem_of_fmap. setoid_rewrite list_elem_of_filter.
  setoid_rewrite list_elem_of_lookup. setoid_rewrite list_lookup_imap. split.
  - intros ([i w] & -> & Hr & j & Hj). apply fmap_Some in Hj as (w' & Hw & [= -> ->]). eauto.
  - intros (i & Hr & Hi). exists (i, u). split_and!; [done..|]. exists i. by rewrite Hi.
Qed.

Lemma concat_sorted_perm {A} `{OrdLaws A} (l : list (list A)) : concat (ord_sort <$> l) ≡ₚ concat l.
Proof. induction l as [|x l IH]; cbn; [done|]. unfold ord_sort at 1. by rewrite sort_by_key_perm, IH. Qed.
Lemma concat_perm {A} (l k : list (list A)) : l ≡ₚ k → concat l ≡ₚ concat k.
Proof.
  induction 1 as [|x l k _ IH|x y l|l1 l2 l3 _ IH1 _ IH2]; cbn; [done|by rewrite IH| |by etrans].
  rewrite !app_assoc. by rewrite (Permutation_app_comm y x).
Qed.
Lemma length_concat_nonempty {A} (l : list (list A)) :
  Forall (λ g, g ≠ []) l → (length l ≤ length (concat l))%nat.
Proof.
  induction 1 as [|g l Hg _ IH]; cbn; [lia|]. rewrite length_app. destruct g; [done|cbn; lia].
Qed.

Lemma enumerate_snd {A} (l : list A) : (enumerate l).*2 = l.
Proof.
  apply list_eq. intros i. unfold enumerate. rewrite list_lookup_fmap, list_lookup_imap.
  by destruct (l !! i).
Qed.

(** What the grouping yields, independently of the union-find. *)
Record is_partition (problem : PlanningProblem) (cs : list MathematicalComponent) : Prop := {
  part_ids : mc_id <$> cs = (λ i : nat, "component.c" +:+ pretty i) <$> seq 0 (length cs);
  part_cover : concat (variable_nodes <$> cs) ≡ₚ encoded <$> declared problem;
  part_nonempty : Forall (λ c, variable_nodes c ≠ []) cs;
  part_sorted : Forall (λ c, StronglySorted le (variable_nodes c)) cs;
  part_ordered : StronglySorted le (variable_nodes <$> cs);
  part_connected u v : u ∈ declared problem → v ∈ declared problem →
    (∃ c, c ∈ cs ∧ encoded u ∈ variable_nodes c ∧ encoded v ∈ variable_nodes c)
    ↔ connected problem u v
}.

Lemma imap_components_nodes groups :
  variable_nodes <$> imap (λ i nodes, {| mc_id := "component.c" +:+ pretty i; variable_nodes := nodes |}) groups
  = groups.
Proof. apply list_eq. intros i. rewrite list_lookup_fmap, list_lookup_imap. by destruct (groups !! i). Qed.
Lemma imap_components_ids groups :
  mc_id <$> imap (λ i nodes, {| mc_id := "component.c" +:+ pretty i; variable_nodes := nodes |}) groups
  = (λ i : nat, "component.c" +:+ pretty i) <$> seq 0 (length groups).
Proof.
  apply list_eq. intros i. rewrite list_lookup_fmap, list_lookup_imap, list_lookup_fmap.
  destruct (groups !! i) as [g|] eqn:Hg; cbn.
  - apply lookup_lt_Some in Hg. rewrite (proj2 (lookup_seq 0 (length groups) i i)) by lia. done.
  - apply lookup_ge_None in Hg. rewrite lookup_seq_ge; done.
Qed.

(** The group of a root holds exactly the nodes it represents. *)
Lemma group_members problem rep (grouped : gmap nat (list string)) w z r l :
  (∀ r, default [] (grouped !! r) = encoded <$> class_of rep r (enumerate (declared problem))) →
  declared problem !! z = Some w → grouped !! r = Some l → encoded w ∈ l ↔ rep z = r.
Proof.
  intros Hdef Hw Hr. specialize (Hdef r). rewrite Hr in Hdef. cbn in Hdef. rewrite Hdef.
  rewrite list_elem_of_fmap. setoid_rewrite elem_of_class. split.
  - intros (w' & ->%encoded_inj & i & <- & Hi). f_equal.
    eapply NoDup_lookup; eauto. apply strictly_sorted_NoDup, btree_set_sorted.
  - intros <-. eauto.
Qed.
Lemma group_exists problem rep (grouped : gmap nat (list string)) x u :
  (∀ r, default [] (grouped !! r) = encoded <$> class_of rep r (enumerate (declared problem))) →
  declared problem !! x = Some u → ∃ l, grouped !! rep x = Some l.
Proof.
  intros Hdef Hx. specialize (Hdef (rep x)). destruct (grouped !! rep x) as [l|]; [eauto|].
  cbn in Hdef. symmetry in Hdef. apply fmap_nil_inv in Hdef.
  assert (u ∈ class_of rep (rep x) (enumerate (declared problem))) as H by (apply elem_of_class; eauto).
  rewrite Hdef in H. by apply not_elem_of_nil in H.
Qed.

Lemma analysis_partition problem a :
  len (variables problem) ≤ u64_max → analysis_result problem a →
  is_partition problem (components (bca_analysis a)).
Proof.
  intros Hfit (rep & grouped & Hrep & (p & _ & _ & Hdef & Hne & Hperm) & ->). cbn [fst snd] in *.
  set (values := (sort_by_key fst (map_to_list grouped)).*2).
  set (groups := ord_sort (ord_sort <$> values)).
  assert (values ≡ₚ (map_to_list grouped).*2) as Hv by (apply fmap_Permutation, sort_by_key_perm).
  assert (groups ≡ₚ ord_sort <$> values) as Hg by apply sort_by_key_perm.
  assert (∀ g, g ∈ values ↔ ∃ r, grouped !! r = Some g) as Hin.
  { intros g. rewrite Hv, list_elem_of_fmap. setoid_rewrite elem_of_map_to_list'. split.
    - intros ([r l] & -> & Hl). eauto.
    - intros [r Hr]. by exists (r, g). }
  assert (∀ g, g ∈ groups ↔ ∃ r l, grouped !! r = Some l ∧ g = ord_sort l) as Hing.
  { intros g. rewrite Hg, list_elem_of_fmap. setoid_rewrite Hin. naive_solver. }
  assert (concat groups ≡ₚ encoded <$> declared problem) as Hcover.
  { rewrite (concat_perm _ _ Hg), concat_sorted_perm, (concat_perm _ _ Hv), Hperm.
    rewrite enumerate_snd. done. }
  assert (Forall (λ g, g ≠ []) groups) as Hnonempty.
  { apply Forall_forall. intros g Hgin. apply Hing in Hgin as (r & l & Hr & ->). intros Hnil.
    apply (Hne r). rewrite Hr. f_equal. apply Permutation_nil_r. rewrite <-Hnil. symmetry. apply sort_by_key_perm. }
  rewrite make_components_spec.
  2:{ unfold len. pose proof (length_concat_nonempty _ Hnonempty) as Hl.
      rewrite Hcover, length_fmap in Hl. pose proof (declared_fits problem Hfit). lia. }
  split; rewrite ?imap_components_ids, ?imap_components_nodes, ?length_imap; try done.
  - apply (Forall_fmap variable_nodes (λ g, g ≠ [])). by rewrite imap_components_nodes.
  - apply (Forall_fmap variable_nodes (StronglySorted le)). rewrite imap_components_nodes. apply Forall_forall.
    intros g Hgin. apply Hing in Hgin as (r & l & Hr & ->). apply sort_by_key_sorted.
  - apply sort_by_key_sorted.
  - intros u v Hu Hv'. apply list_elem_of_lookup in Hu as [x Hx], Hv' as [y Hy].
    rewrite <-(connected_indices problem x y u v), <-Hrep by eauto using lookup_lt_Some.
    split.
    + intros (c & Hc & Huc & Hvc). apply (list_elem_of_fmap_2 variable_nodes) in Hc.
      rewrite imap_components_nodes in Hc. apply Hing in Hc as (r & l & Hr & Hl).
      rewrite Hl, elem_of_ord_sort in Huc, Hvc. apply (group_members problem rep grouped u x r l Hdef Hx Hr) in Huc.
      apply (group_members problem rep grouped v y r l Hdef Hy Hr) in Hvc. congruence.
    + intros Heq. destruct (group_exists problem rep grouped x u Hdef Hx) as [l Hr].
      assert (ord_sort l ∈ groups) as Hgl by (apply Hing; eauto).
      rewrite <-(imap_components_nodes groups) in Hgl. apply list_elem_of_fmap in Hgl as (c & Hcl & Hc).
      exists c. rewrite <-Hcl, !elem_of_ord_sort. split; [done|].
      by rewrite (group_members problem rep grouped u x (rep x) l), (group_members problem rep grouped v y (rep x) l).
Qed.

(** C3. The component analysis is total without a budget, and its components are exactly the
    connected components of the problem's hypergraph: every declared variable lies in exactly one
    nonempty component, two declared variables lie in one component iff a chain of hyperedges joins
    them, and nodes, components and component identifiers come in canonical order. *)
Theorem components_are_connected_components blake3_hex problem :
  len (variables problem) ≤ u64_max →
  (∃ a, analyze_components_inner blake3_hex problem None = (Ok a, None)) ∧
  is_partition problem (components (analyze_components blake3_hex problem)).
Proof.
  intros Hfit. destruct (runs_analyze blake3_hex problem Hfit) as (a & Hrun & Ha).
  split; [by exists a|]. unfold analyze_components. rewrite Hrun. by apply analysis_partition.
Qed.
