(* ===== verification/Lexicographic.v ===== *)
(** * Lexicographic objectives: scalarization is exact

    [lexicographic_strategy] (analysis.rs) either proves that weighted sums order candidates
    exactly as the ordered levels do, or asks for multipass solving.  The same order is the one
    [ScoreVector::compare] (domain IR) uses on authoritative scores.  This file proves the
    agreement. *)
From stdpp Require Import base tactics list gmap strings.
From Stdlib Require Import ZArith Lia.
From S2P Require Import Prelude Ordering Budget DomainIr Model Analysis.
Open Scope Z_scope.

(** The level values of a candidate, smaller is better. *)
Definition signed (direction : OptimizationDirection) (v : Z) : Z :=
  match direction with Minimize => v | Maximize => - v end.
Definition in_level (level : ObjectiveLevel) (v : Z) : Prop :=
  ol_lower_bound level ≤ v ≤ ol_upper_bound level.
(** The ordered comparison of two candidates: the first level that differs decides. *)
Fixpoint lex_cmp (ls : list ObjectiveLevel) (u v : list Z) : comparison :=
  match ls, u, v with
  | level :: ls, a :: u, b :: v =>
      match level_cmp (ol_direction level) a b with Eq => lex_cmp ls u v | c => c end
  | _, _, _ => Eq
  end.
(** The single objective a backend minimizes with the exact weights. *)
Fixpoint scalar_value (ls : list ObjectiveLevel) (weights u : list Z) : Z :=
  match ls, weights, u with
  | level :: ls, w :: weights, a :: u =>
      w * signed (ol_direction level) a + scalar_value ls weights u
  | _, _, _ => 0
  end.

(** [scalarization_weights] with its final span exposed. *)
Fixpoint run_weights (levels_rev : list ObjectiveLevel) (st : Z * list Z) : option (Z * list Z) :=
  match levels_rev with
  | [] => Some st
  | level :: rest =>
      span ← i64_checked_sub (ol_upper_bound level) (ol_lower_bound level);
      radix ← i64_checked_add span 1;
      next ← i64_checked_mul st.1 radix;
      run_weights rest (next, st.1 :: st.2)
  end.

Lemma scalarization_weights_run ls span ws :
  scalarization_weights ls span ws = snd <$> run_weights ls (span, ws).
Proof.
  revert span ws. induction ls as [|l ls IH]; intros span ws; [done|]. cbn.
  destruct (i64_checked_sub _ _); [|done]. cbn. destruct (i64_checked_add _ _); [|done]. cbn.
  destruct (i64_checked_mul _ _); [|done]. cbn. apply IH.
Qed.

Lemma run_weights_app ls ks st : run_weights (ls ++ ks) st = run_weights ls st ≫= run_weights ks.
Proof.
  revert st. induction ls as [|l ls IH]; intros st; [done|]. cbn.
  destruct (i64_checked_sub _ _); [|done]. cbn. destruct (i64_checked_add _ _); [|done]. cbn.
  destruct (i64_checked_mul _ _); [|done]. cbn. apply IH.
Qed.

Lemma run_weights_one l span ws span' ws' :
  run_weights [l] (span, ws) = Some (span', ws') →
  span' = span * (ol_upper_bound l - ol_lower_bound l + 1) ∧ is_i64 span' ∧ ws' = span :: ws.
Proof.
  cbn. unfold i64_checked_sub, i64_checked_add, i64_checked_mul.
  destruct (checked_i64 _) eqn:E1; [|done]. apply checked_i64_Some in E1 as [-> _]. cbn.
  destruct (checked_i64 _) eqn:E2; [|done]. apply checked_i64_Some in E2 as [-> _]. cbn.
  destruct (checked_i64 _) eqn:E3; [|done]. apply checked_i64_Some in E3 as [-> ?]. cbn.
  by intros [= <- <-].
Qed.

Lemma signed_diff l a b :
  in_level l a → in_level l b →
  Z.abs (signed (ol_direction l) a - signed (ol_direction l) b) ≤
  ol_upper_bound l - ol_lower_bound l.
Proof. unfold in_level, signed. destruct (ol_direction l); lia. Qed.

Lemma level_cmp_signed d a b : level_cmp d a b = Z.compare (signed d a) (signed d b).
Proof.
  destruct d; [done|]. cbn. unfold cmp, Z_ord, signed.
  destruct (Z.compare_spec b a), (Z.compare_spec (- a) (- b)); lia || done.
Qed.

(** The heart of the argument: below each level the remaining weighted differences are smaller in
    absolute value than one unit of that level. *)
Lemma weighted_difference_sign ls span ws :
  Forall (λ l, ol_lower_bound l ≤ ol_upper_bound l) ls →
  run_weights (reverse ls) (1, []) = Some (span, ws) →
  length ws = length ls ∧ 1 ≤ span ∧ Forall (λ w, 1 ≤ w) ws ∧ (ls ≠ [] → is_i64 span) ∧
  ∀ u v, Forall2 in_level ls u → Forall2 in_level ls v →
    Z.abs (scalar_value ls ws u - scalar_value ls ws v) < span ∧
    Z.compare (scalar_value ls ws u) (scalar_value ls ws v) = lex_cmp ls u v.
Proof.
  revert span ws. induction ls as [|l ls IH]; intros span ws Hok Hrun.
  { cbn in Hrun. simplify_eq. split_and!; [done|lia|constructor|done|].
    intros u v Hu Hv. cbn. split; [lia|done]. }
  apply Forall_cons_1 in Hok as [Hl Hok]. rewrite reverse_cons, run_weights_app in Hrun.
  destruct (run_weights (reverse ls) (1, [])) as [[span0 ws0]|] eqn:Hrest; [|done]. cbn [mbind option_bind] in Hrun.
  apply run_weights_one in Hrun as (-> & Hi64 & ->).
  destruct (IH _ _ Hok eq_refl) as (Hlen & Hspan & Hws & _ & Hcmp).
  split_and!; [cbn; lia|nia|by constructor|done|].
  intros u v Hu Hv. apply Forall2_cons_inv_l in Hu as (a & u' & Ha & Hu & ->).
  apply Forall2_cons_inv_l in Hv as (b & v' & Hb & Hv & ->).
  destruct (Hcmp u' v' Hu Hv) as [Habs Hc]. pose proof (signed_diff l a b Ha Hb) as Hd.
  cbn [scalar_value lex_cmp]. rewrite level_cmp_signed.
  set (x := signed (ol_direction l) a) in *. set (y := signed (ol_direction l) b) in *.
  set (p := scalar_value ls ws0 u') in *. set (q := scalar_value ls ws0 v') in *.
  split; [nia|]. destruct (Z.compare_spec x y) as [->|Hlt|Hgt].
  - rewrite <-Hc. destruct (Z.compare_spec p q), (Z.compare_spec (span0 * y + p) (span0 * y + q)); lia || done.
  - apply Z.compare_lt_iff. nia.
  - apply Z.compare_gt_iff. nia.
Qed.

Lemma scalarization_exact plan weights u v :
  Forall (λ l, ol_lower_bound l ≤ ol_upper_bound l) (op_levels plan) →
  lexicographic_strategy plan = ExactScalarization weights →
  Forall2 in_level (op_levels plan) u → Forall2 in_level (op_levels plan) v →
  length weights = length (op_levels plan) ∧ Forall (λ w, 1 ≤ w) weights ∧
  Z.compare (scalar_value (op_levels plan) weights u) (scalar_value (op_levels plan) weights v) =
  lex_cmp (op_levels plan) u v ∧
  (op_levels plan ≠ [] →
   is_i64 (scalar_value (op_levels plan) weights u - scalar_value (op_levels plan) weights v)).
Proof.
  intros Hok Hstrategy Hu Hv. unfold lexicographic_strategy in Hstrategy.
  case_bool_decide as Hempty.
  { rewrite Hempty in *. simplify_eq. split_and!; [done|constructor|done|done]. }
  rewrite scalarization_weights_run in Hstrategy.
  destruct (run_weights _ _) as [[span ws]|] eqn:Hrun; [|done]. cbn in Hstrategy. simplify_eq.
  destruct (weighted_difference_sign _ _ _ Hok Hrun) as (Hlen & Hspan & Hws & Hi64 & Hcmp).
  destruct (Hcmp u v Hu Hv) as [Habs Hc]. split_and!; [done|done|done|].
  intros Hne. specialize (Hi64 Hne). unfold is_i64, i64_min, i64_max in *. lia.
Qed.

(** Whenever [lexicographic_strategy] chooses exact scalarization, there is one positive weight
    per level and minimizing the single weighted sum orders any two candidates within the proven
    level bounds exactly as the ordered levels do, each in its own direction. *)
Theorem scalarization_is_exact plan weights u v :
  Forall (λ l, ol_lower_bound l ≤ ol_upper_bound l) (op_levels plan) →
  lexicographic_strategy plan = ExactScalarization weights →
  Forall2 in_level (op_levels plan) u → Forall2 in_level (op_levels plan) v →
  length weights = length (op_levels plan) ∧ Forall (λ w, 1 ≤ w) weights ∧
  Z.compare (scalar_value (op_levels plan) weights u) (scalar_value (op_levels plan) weights v) =
  lex_cmp (op_levels plan) u v ∧
  (op_levels plan ≠ [] →
   is_i64 (scalar_value (op_levels plan) weights u - scalar_value (op_levels plan) weights v)).
Proof. apply scalarization_exact. Qed.

(** ** Agreement with authoritative scores *)
Definition score_of (ls : list ObjectiveLevel) (values : list Z) : ScoreVector :=
  {| feasibility := 0;
     levels := zip_with (λ l v, {| sl_level_id := ol_id l; sl_value := v;
                                   sl_direction := ol_direction l; sl_category_breakdown := ∅ |})
                 ls values |}.

Lemma score_of_shape ls u :
  NoDup (ol_id <$> ls) → length u = length ls → len ls ≤ MAX_SCORE_LEVELS →
  validate_current_shape (score_of ls u) = Ok tt.
Proof.
  intros Hnd Hlen Hmax. unfold validate_current_shape, validate_shape. cbn.
  assert (sl_level_id <$> levels (score_of ls u) = ol_id <$> ls) as Hids.
  { cbn. clear -Hlen. revert u Hlen. induction ls as [|l ls IH]; intros [|a u] Hlen; try done.
    cbn. f_equal. apply IH. cbn in Hlen. lia. }
  cbn in Hids. rewrite Hids, bool_decide_true by done. cbn.
  unfold len in *. rewrite length_zip_with, Hlen, Nat.min_id.
  destruct (Z.ltb_spec MAX_SCORE_LEVELS (Z.of_nat (length ls))); [lia|].
  replace (existsb _ _) with false; [done|]. symmetry. apply not_true_is_false.
  rewrite existsb_exists. intros (x & Hx & Hc). apply list_elem_of_In in Hx.
  apply elem_of_lookup_zip_with in Hx as (i & l & a & -> & _). cbn in Hc. done.
Qed.

Lemma score_levels_cmp ls u v c :
  length u = length ls → length v = length ls →
  fold_m (λ ordering '(l, r),
    if negb (bool_decide (sl_level_id l = sl_level_id r))
       || negb (bool_decide (sl_direction l = sl_direction r))
    then Err ScoreShapeMismatch
    else Ok (match ordering with
             | Eq => level_cmp (sl_direction l) (sl_value l) (sl_value r)
             | _ => ordering
             end)) c (zip (levels (score_of ls u)) (levels (score_of ls v))) =
  Ok (match c with Eq => lex_cmp ls u v | _ => c end).
Proof.
  revert u v c. induction ls as [|l ls IH]; intros [|a u] [|b v] c Hu Hv; try done; [by destruct c|].
  cbn in Hu, Hv. specialize (IH u v). cbn in *. rewrite !bool_decide_true by done. cbn.
  rewrite IH by lia. destruct c; [|done|done]. by destruct (level_cmp _ _ _).
Qed.

Lemma scores_compare_scalar plan weights u v :
  Forall (λ l, ol_lower_bound l ≤ ol_upper_bound l) (op_levels plan) →
  NoDup (ol_id <$> op_levels plan) → len (op_levels plan) ≤ MAX_SCORE_LEVELS →
  lexicographic_strategy plan = ExactScalarization weights →
  Forall2 in_level (op_levels plan) u → Forall2 in_level (op_levels plan) v →
  ScoreVector_compare (score_of (op_levels plan) u) (score_of (op_levels plan) v) =
  Ok (Z.compare (scalar_value (op_levels plan) weights u) (scalar_value (op_levels plan) weights v)).
Proof.
  intros Hok Hnd Hmax Hs Hu Hv.
  destruct (scalarization_exact _ _ _ _ Hok Hs Hu Hv) as (_ & _ & -> & _).
  apply Forall2_length in Hu, Hv. unfold ScoreVector_compare.
  rewrite !score_of_shape by done. cbn [mbind Result_bind].
  assert (len (levels (score_of (op_levels plan) u)) = len (levels (score_of (op_levels plan) v))) as Hlen.
  { unfold len. cbn. rewrite !length_zip_with. lia. }
  rewrite Hlen, Z.eqb_refl. cbn [negb]. rewrite score_levels_cmp by done. done.
Qed.

(** Two feasible authoritative scores over the planning objective levels compare, by
    [ScoreVector::compare], exactly as the backend's scalarized objective does. *)
Theorem scalarization_agrees_with_scores plan weights u v :
  Forall (λ l, ol_lower_bound l ≤ ol_upper_bound l) (op_levels plan) →
  NoDup (ol_id <$> op_levels plan) → len (op_levels plan) ≤ MAX_SCORE_LEVELS →
  lexicographic_strategy plan = ExactScalarization weights →
  Forall2 in_level (op_levels plan) u → Forall2 in_level (op_levels plan) v →
  ScoreVector_compare (score_of (op_levels plan) u) (score_of (op_levels plan) v) =
  Ok (Z.compare (scalar_value (op_levels plan) weights u) (scalar_value (op_levels plan) weights v)).
Proof. apply scores_compare_scalar. Qed.
