(* ===== verification/Validation.v ===== *)
(** * Strict bounded validation

    Models [crates/eutheto-planning-ir/src/validation.rs]: every check in the order of the source,
    over the optional preparation budget of its [ValidationContext].  Limits are in [Budget];
    [BTreeSet] and [BTreeMap] of references are finite sets and maps of identifiers. *)
From stdpp Require Import base tactics list gmap strings pretty.
From Stdlib Require Import ZArith Lia.
From S2P Require Import Prelude Ordering Control Budget Ids DomainIr Model Analysis.
Open Scope Z_scope.

(** ** Errors *)
Inductive ValidationCode :=
| CodeUnsupportedVersion | CodeMalformedJson | CodeLimitExceeded | CodeDuplicateId
| CodeMissingReference | CodeMissingProvenance | CodeNonCanonical | CodeInvalidDomain
| CodeInvalidShape | CodeArithmeticOverflow | CodeValueOutOfBounds | CodeInvalidObjectiveBounds
| CodeInvalidProjection | CodeProvenanceCycle | CodeOrphanProvenance | CodeUndeclaredCapability
| CodeInvalidSplitAuthorization.
#[global] Instance ValidationCode_eq_dec : EqDecision ValidationCode.
Proof. solve_decision. Defined.
Record ValidationError := { code : ValidationCode; path : string }.
#[global] Instance ValidationError_eq_dec : EqDecision ValidationError.
Proof. solve_decision. Defined.
Inductive BudgetedValidationError :=
| Invalid (error : ValidationError)
| Preparation (error : PlanningPreparationError).
#[global] Instance BudgetedValidationError_eq_dec : EqDecision BudgetedValidationError.
Proof. solve_decision. Defined.

Notation VR := (Result ValidationError).
Notation VM := (SE Ctx BudgetedValidationError).
Definition verr {A} (c : ValidationCode) (p : string) : VR A := Err {| code := c; path := p |}.
Definition ok_or_code {A} (c : ValidationCode) (p : string) (o : option A) : VR A :=
  ok_or {| code := c; path := p |} o.
Definition duplicate {A} (p : string) : VR A := verr CodeDuplicateId p.
Definition noncanonical {A} (p : string) : VR A := verr CodeNonCanonical p.
Definition shape {A} (p : string) : VR A := verr CodeInvalidShape p.

(** [?] on a [ValidationError], and on a preparation error, inside a [BudgetedResult]. *)
Definition invalid {A} (r : VR A) : VM A := se_lift (map_err Invalid r).
Definition prep {A} (m : AM A) : VM A := λ ctx, let '(r, ctx') := m ctx in (map_err Preparation r, ctx').
(** [ValidationContext::visit] *)
Definition context_visit : VM unit := prep visit.
Definition context_charge (amount : Z) : VM unit := prep (charge amount).

(** ** Scalar checks *)
Definition count (value : Z) : VR Z := ok_or_code CodeArithmeticOverflow "count" (usize_to_u64 value).
Definition check_limit (value maximum : Z) (p : string) : VR unit :=
  n ← count value; if maximum <? n then verr CodeLimitExceeded p else Ok tt.
Definition check_value (value : Z) (limits : PlanningIrLimitsV1) (p : string) : VR unit :=
  if cast_unsigned (max_abs_value limits) <? unsigned_abs value
  then verr CodeValueOutOfBounds p else Ok tt.
Definition check_text (value : string) (maximum : Z) (p : string) : VR unit :=
  if bool_decide (value = EmptyString) then verr CodeLimitExceeded p
  else n ← count (str_len value); if maximum <? n then verr CodeLimitExceeded p else Ok tt.
Definition add_refs (total additional : Z) (limits : PlanningIrLimitsV1) : VR Z :=
  value ← ok_or_code CodeArithmeticOverflow "totalReferences" (u64_checked_add total additional);
  if max_total_refs limits <? value then verr CodeLimitExceeded "totalReferences" else Ok value.

Definition require_bool (id : string) (bools : gset string) (p : string) : VR unit :=
  if decide (id ∈ bools) then Ok tt else verr CodeMissingReference p.
Definition require_literal (literal : Literal) (bools : gset string) (p : string) : VR unit :=
  require_bool (lit_variable literal) bools p.
Definition require_int (id : string) (ints : gmap string IntDomain) (p : string) : VR IntDomain :=
  ok_or_code CodeMissingReference p (ints !! id).
Definition require_interval (id : string) (intervals : gset string) (p : string) : VR unit :=
  if decide (id ∈ intervals) then Ok tt else verr CodeMissingReference p.
Definition require_provenance (id : string) (ids : gset string) (p : string) : VR unit :=
  if decide (id ∈ ids) then Ok tt else verr CodeMissingProvenance p.

Definition strict_by_with_context {T K} `{Ord K} (key : T → K) (values : list T) (p : string) :
    VM unit :=
  for_each (λ '(a, b), _ ← context_visit;
                       if leb (key b) (key a) then invalid (noncanonical p) else mret tt)
    (windows2 values).
Definition strict_with_context {T} `{Ord T} (values : list T) (p : string) : VM unit :=
  strict_by_with_context id values p.

(** Paths such as [variables[3].id]. *)
Definition at_ (root : string) (index : nat) (rest : string) : string :=
  root +:+ "[" +:+ pretty index +:+ "]" +:+ rest.

(** ** Root *)
Definition validate_root_admission (problem : PlanningProblem) (limits : PlanningIrLimitsV1) :
    VR unit :=
  if negb (schema_version problem =? PLANNING_IR_SCHEMA_VERSION)
  then verr CodeUnsupportedVersion "schemaVersion"
  else
    _ ← check_limit (len (variables problem)) (max_variables limits) "variables";
    _ ← check_limit (len (constraints problem)) (max_constraints limits) "constraints";
    _ ← check_limit (len (assumptions problem)) (max_assumptions limits) "assumptions";
    _ ← check_limit (len (op_levels (objectives problem))) (max_objective_levels limits)
          "objectives.levels";
    _ ← check_limit (len (projections problem)) (max_projections limits) "projections";
    check_limit (len (provenance problem)) (max_provenance_records limits) "provenance".
Definition validate_root_order (problem : PlanningProblem) : VM unit :=
  _ ← strict_by_with_context canonical_id (variables problem) "variables";
  _ ← strict_by_with_context cr_id (constraints problem) "constraints";
  _ ← strict_by_with_context as_id (assumptions problem) "assumptions";
  _ ← strict_by_with_context sp_id (projections problem) "projections";
  strict_by_with_context pr_id (provenance problem) "provenance".
Definition validate_root (problem : PlanningProblem) (limits : PlanningIrLimitsV1) : VM unit :=
  _ ← context_visit;
  _ ← invalid (validate_root_admission problem limits);
  validate_root_order problem.

(** ** Variables *)
Record VariableReferences := {
  vr_provenance : gset string;
  vr_bools : gset string;
  vr_ints : gmap string IntDomain;
  vr_intervals : gset string
}.

Definition validate_domain (domain : IntDomain) (limits : PlanningIrLimitsV1) (p : string) :
    VM unit :=
  _ ← invalid (check_limit (len (inclusive_ranges domain)) (max_domain_ranges limits) p);
  _ ← for_each (λ _, context_visit) (inclusive_ranges domain);
  normalized ← invalid (map_err (λ _, {| code := CodeInvalidDomain; path := p |})
                          (IntDomain_new (inclusive_ranges domain)));
  if negb (bool_decide (normalized = domain)) then invalid (noncanonical p)
  else for_each (λ range,
         _ ← context_visit;
         _ ← invalid (check_value (start range) limits p);
         invalid (check_value (end_ range) limits p)) (inclusive_ranges domain).

(** The sets the loop of [validate_variables] fills, and the reference count. *)
Record VariableScan := {
  vs_bools : gset string;
  vs_ints : gmap string IntDomain;
  vs_intervals : gset string;
  vs_all_ids : gset string;
  vs_total_refs : Z
}.
Definition scan_variable (limits : PlanningIrLimitsV1) (ids : gset string)
    (index : nat) (st : VariableScan) (variable : Variable_) : VM VariableScan :=
  _ ← context_visit;
  st ← match variable with
       | VBoolean value =>
           if decide (bv_id value ∈ vs_bools st) then invalid (duplicate (at_ "variables" index ".id"))
           else mret {| vs_bools := {[ bv_id value ]} ∪ vs_bools st; vs_ints := vs_ints st;
                        vs_intervals := vs_intervals st; vs_all_ids := vs_all_ids st;
                        vs_total_refs := vs_total_refs st |}
       | VInteger value =>
           _ ← validate_domain (iv_domain value) limits (at_ "variables" index ".domain");
           match vs_ints st !! iv_id value with
           | Some _ => invalid (duplicate (at_ "variables" index ".id"))
           | None => mret {| vs_bools := vs_bools st;
                             vs_ints := <[iv_id value := iv_domain value]> (vs_ints st);
                             vs_intervals := vs_intervals st; vs_all_ids := vs_all_ids st;
                             vs_total_refs := vs_total_refs st |}
           end
       | VInterval value =>
           if decide (itv_id value ∈ vs_intervals st)
           then invalid (duplicate (at_ "variables" index ".id"))
           else
             total_refs ← invalid (add_refs (vs_total_refs st) 4 limits);
             mret {| vs_bools := vs_bools st; vs_ints := vs_ints st;
                     vs_intervals := {[ itv_id value ]} ∪ vs_intervals st;
                     vs_all_ids := vs_all_ids st; vs_total_refs := total_refs |}
       end;
  if decide (canonical_id variable ∈ vs_all_ids st)
  then invalid (duplicate (at_ "variables" index ".id"))
  else
    _ ← invalid (require_provenance (variable_provenance variable) ids (at_ "variables" index EmptyString));
    mret {| vs_bools := vs_bools st; vs_ints := vs_ints st; vs_intervals := vs_intervals st;
            vs_all_ids := {[ canonical_id variable ]} ∪ vs_all_ids st;
            vs_total_refs := vs_total_refs st |}.

(** [slice::partition_point]: the length of the prefix satisfying the predicate. *)
Fixpoint partition_point {A} (p : A → bool) (l : list A) : nat :=
  match l with
  | x :: l => if p x then S (partition_point p l) else 0
  | [] => 0
  end.
Definition domain_intersects_range (domain : IntDomain) (minimum maximum : Z) : bool :=
  let first_after_maximum :=
    partition_point (λ range, start range <=? maximum) (inclusive_ranges domain) in
  negb (Nat.eqb first_after_maximum 0)
  && match last (take first_after_maximum (inclusive_ranges domain)) with
     | Some range => minimum <=? end_ range
     | None => false
     end.

(** The inner loop of [validate_interval_equation]: [(found, has_representable_sum)]. *)
Fixpoint scan_durations (start_range : InclusiveRange) (durations : list InclusiveRange)
    (end_domain : IntDomain) (representable : bool) : VM (bool * bool) :=
  match durations with
  | [] => mret (false, representable)
  | duration_range :: rest =>
      _ ← context_visit;
      let duration_minimum := Z.max (start duration_range) 0 in
      if end_ duration_range <? duration_minimum
      then scan_durations start_range rest end_domain representable
      else match i64_checked_add (start start_range) duration_minimum with
           | None => scan_durations start_range rest end_domain representable
           | Some sum_minimum =>
               let sum_maximum :=
                 default i64_max (i64_checked_add (end_ start_range) (end_ duration_range)) in
               if domain_intersects_range end_domain sum_minimum sum_maximum then mret (true, true)
               else scan_durations start_range rest end_domain true
           end
  end.
Fixpoint scan_starts (starts durations : list InclusiveRange) (end_domain : IntDomain)
    (representable : bool) : VM (bool * bool) :=
  match starts with
  | [] => mret (false, representable)
  | start_range :: rest =>
      _ ← context_visit;
      '(found, representable) ← scan_durations start_range durations end_domain representable;
      if (found : bool) then mret (true, representable)
      else scan_starts rest durations end_domain representable
  end.
Definition validate_interval_equation (start_domain duration end_domain : IntDomain) (index : nat) :
    VM unit :=
  let nonnegative := existsb (λ range, 0 <=? end_ range) (inclusive_ranges duration) in
  '(found, representable) ←
    scan_starts (inclusive_ranges start_domain) (inclusive_ranges duration) end_domain false;
  if (found : bool) then mret tt
  else invalid (verr (if negb nonnegative || (representable : bool) then CodeInvalidDomain
                      else CodeArithmeticOverflow) (at_ "variables" index EmptyString)).

Definition validate_interval_variable (references : VariableReferences) (index : nat)
    (variable : Variable_) : VM unit :=
  _ ← context_visit;
  match variable with
  | VInterval interval =>
      start_ ← invalid (require_int (itv_start interval) (vr_ints references)
                          (at_ "variables" index ".start"));
      duration ← invalid (require_int (itv_duration interval) (vr_ints references)
                            (at_ "variables" index ".duration"));
      end_domain ← invalid (require_int (itv_end interval) (vr_ints references)
                              (at_ "variables" index ".end"));
      _ ← match itv_presence interval with
          | Some literal =>
              invalid (require_literal literal (vr_bools references)
                         (at_ "variables" index ".presence"))
          | None =>
              if existsb (λ range, start range <? 0) (inclusive_ranges duration)
              then invalid (verr CodeInvalidDomain (at_ "variables" index ".duration"))
              else mret tt
          end;
      validate_interval_equation start_ duration end_domain index
  | _ => mret tt
  end.
Definition validate_interval_variables (problem : PlanningProblem)
    (references : VariableReferences) : VM unit :=
  enumerate_each (validate_interval_variable references) (variables problem).

Definition validate_variables (problem : PlanningProblem) (limits : PlanningIrLimitsV1) :
    VM (VariableReferences * Z) :=
  ids ← fold_m (λ (ids : gset string) record,
                  _ ← context_visit; mret ({[ pr_id record ]} ∪ ids)) ∅ (provenance problem);
  st ← fold_m_from 0 (scan_variable limits ids)
         {| vs_bools := ∅; vs_ints := ∅; vs_intervals := ∅; vs_all_ids := ∅; vs_total_refs := 0 |}
         (variables problem);
  let references := {| vr_provenance := ids; vr_bools := vs_bools st; vr_ints := vs_ints st;
                       vr_intervals := vs_intervals st |} in
  _ ← validate_interval_variables problem references;
  mret (references, vs_total_refs st).

(** ** Linear expressions *)
Definition expression_bounds_term (ints : gmap string IntDomain) (limits : PlanningIrLimitsV1)
    (p : string) (acc : Z * Z) (term : LinearTerm) : VM (Z * Z) :=
  let '(minimum, maximum) := acc in
  _ ← context_visit;
  if (lt_coefficient term =? 0)
     || (cast_unsigned (max_abs_coefficient limits) <? unsigned_abs (lt_coefficient term))
  then invalid (verr CodeValueOutOfBounds p)
  else
    domain ← invalid (require_int (lt_variable term) ints p);
    '(lower, upper) ← invalid (ok_or_code CodeInvalidDomain p (bounds domain));
    first ← invalid (ok_or_code CodeArithmeticOverflow p
                       (i64_checked_mul (lt_coefficient term) lower));
    second ← invalid (ok_or_code CodeArithmeticOverflow p
                        (i64_checked_mul (lt_coefficient term) upper));
    minimum ← invalid (ok_or_code CodeArithmeticOverflow p
                         (i64_checked_add minimum (Z.min first second)));
    maximum ← invalid (ok_or_code CodeArithmeticOverflow p
                         (i64_checked_add maximum (Z.max first second)));
    mret (minimum, maximum).
Definition expression_bounds (expression : LinearExpression) (ints : gmap string IntDomain)
    (limits : PlanningIrLimitsV1) (p : string) : VM (Z * Z) :=
  _ ← strict_by_with_context lt_variable (le_terms expression) p;
  _ ← invalid (check_value (le_constant expression) limits p);
  fold_m (expression_bounds_term ints limits p) (le_constant expression, le_constant expression)
    (le_terms expression).
Definition validate_comparison (comparison : LinearComparison) (ints : gmap string IntDomain)
    (limits : PlanningIrLimitsV1) (p : string) : VM unit :=
  _ ← expression_bounds (lc_expression comparison) ints limits p;
  invalid (check_value (lc_rhs comparison) limits p).
Definition prove_abs_bounds (left right : IntDomain) (p : string) : VR unit :=
  '(left_min, left_max) ← ok_or_code CodeInvalidDomain p (bounds left);
  '(right_min, right_max) ← ok_or_code CodeInvalidDomain p (bounds right);
  _ ← ok_or_code CodeArithmeticOverflow p
        (d ← i64_checked_sub left_min right_max; i64_checked_abs d);
  _ ← ok_or_code CodeArithmeticOverflow p
        (d ← i64_checked_sub left_max right_min; i64_checked_abs d);
  Ok tt.

(** ** Constraints *)
Definition usize_saturating_add (a b : Z) : Z := Z.min (a + b) u64_max.
Definition constraint_node_count (constraint : Constraint_) : Z :=
  match constraint with
  | BoolOr literals | BoolAnd literals | AtMostOne literals | ExactlyOne literals
  | CardinalityRange literals _ _ => len literals
  | Implication _ _ | Equivalence_ _ _ | Element _ _ _ | Equality _ _ => 2
  | LinearComparison_ comparison => len (le_terms (lc_expression comparison))
  | ReifiedLinearComparison _ comparison =>
      usize_saturating_add (len (le_terms (lc_expression comparison))) 1
  | AllDifferent variables | AllowedTable variables _ | ForbiddenTable variables _ => len variables
  | Min _ inputs | Max _ inputs => usize_saturating_add (len inputs) 1
  | AbsDifference _ _ _ => 3
  | NoOverlap intervals | Cumulative intervals _ _ => len intervals
  end.
Definition projection_node_count (expression : ProjectionExpression) : Z :=
  match expression with
  | PEBoolean _ | PEInteger _ | PEInterval _ => 1
  | PELinear expression => len (le_terms expression)
  | PEConstant _ => 0
  end.

Definition validate_literals (literals : list Literal) (bools : gset string) (p : string) : VM unit :=
  _ ← strict_with_context literals p;
  for_each (λ literal, _ ← context_visit; invalid (require_literal literal bools p)) literals.
Definition require_ints (ids : list string) (ints : gmap string IntDomain) (p : string) : VM unit :=
  for_each (λ id, _ ← context_visit; _ ← invalid (require_int id ints p); mret tt) ids.
Definition validate_integer_aggregate (target : string) (inputs : list string)
    (ints : gmap string IntDomain) (p : string) : VM unit :=
  _ ← invalid (require_int target ints p);
  if bool_decide (inputs = []) then invalid (shape p)
  else
    _ ← strict_with_context inputs p;
    require_ints inputs ints p.

(** The comparison loop of [strict_table_rows_with_context]. *)
Fixpoint row_ordering (cells : list (Z * Z)) : VM (option comparison) :=
  match cells with
  | [] => mret None
  | (l, r) :: rest =>
      _ ← context_visit;
      if negb (l =? r) then mret (Some (l ?= r)) else row_ordering rest
  end.
Definition strict_table_rows_with_context (rows : list (list Z)) (p : string) : VM unit :=
  for_each (λ '(a, b),
    _ ← context_visit;
    ordering ← row_ordering (zip a b);
    match default (len a ?= len b) ordering with
    | Lt => mret tt
    | _ => invalid (noncanonical p)
    end) (windows2 rows).
Definition count_cells (arity : Z) (p : string) (cells : Z) (row : list Z) : VM Z :=
  _ ← context_visit;
  if negb (len row =? arity) then invalid (shape p)
  else
    n ← invalid (count (len row));
    invalid (ok_or_code CodeArithmeticOverflow p (u64_checked_add cells n)).
Definition validate_table (variables : list string) (rows : list (list Z))
    (ints : gmap string IntDomain) (limits : PlanningIrLimitsV1) (p : string) : VM unit :=
  _ ← invalid (check_limit (len variables) (max_table_arity limits) p);
  _ ← invalid (check_limit (len rows) (max_table_rows limits) p);
  let arity := len variables in
  controlled ← is_budgeted;
  _ ← (if (controlled : bool) then
         _ ← require_ints variables ints p;
         cells ← fold_m (count_cells arity p) 0 rows;
         if max_table_cells limits <? cells then invalid (verr CodeLimitExceeded p)
         else strict_table_rows_with_context rows p
       else
         _ ← strict_with_context rows p;
         _ ← require_ints variables ints p;
         if existsb (λ row, negb (len row =? arity)) rows then invalid (shape p)
         else
           rows_count ← invalid (count (len rows));
           arity_count ← invalid (count arity);
           cells ← invalid (ok_or_code CodeArithmeticOverflow p
                              (u64_checked_mul rows_count arity_count));
           if max_table_cells limits <? cells then invalid (verr CodeLimitExceeded p) else mret tt);
  for_each (λ row,
    _ ← context_visit;
    for_each (λ value, _ ← context_visit; invalid (check_value value limits p)) row) rows.

Definition validate_demand (intervals : gset string) (limits : PlanningIrLimitsV1) (p : string)
    (total : Z) (entry : string * Z) : VM Z :=
  let '(interval, demand) := entry in
  _ ← context_visit;
  _ ← invalid (require_interval interval intervals p);
  if demand <? 0 then invalid (shape p)
  else
    _ ← invalid (check_value demand limits p);
    invalid (ok_or_code CodeArithmeticOverflow p (i64_checked_add total demand)).
Definition validate_cumulative (values : list string) (demands : list Z) (capacity : Z)
    (intervals : gset string) (limits : PlanningIrLimitsV1) (p : string) : VM unit :=
  if negb (len values =? len demands) || (capacity <? 0) then invalid (shape p)
  else
    _ ← strict_with_context values p;
    _ ← invalid (check_limit (len values) (max_intervals_per_global limits) p);
    _ ← invalid (check_value capacity limits p);
    _ ← fold_m (validate_demand intervals limits p) 0 (zip values demands);
    mret tt.

Definition validate_constraint (constraint : Constraint_) (bools : gset string)
    (ints : gmap string IntDomain) (intervals : gset string) (limits : PlanningIrLimitsV1)
    (p : string) : VM unit :=
  match constraint with
  | BoolOr literals | BoolAnd literals | AtMostOne literals | ExactlyOne literals =>
      validate_literals literals bools p
  | CardinalityRange literals min max =>
      _ ← validate_literals literals bools p;
      n ← invalid (count (len literals));
      if (max <? min) || (n <? max) then invalid (shape p) else mret tt
  | Implication l r | Equivalence_ l r =>
      _ ← context_visit;
      _ ← invalid (require_literal l bools p);
      invalid (require_literal r bools p)
  | LinearComparison_ comparison => validate_comparison comparison ints limits p
  | ReifiedLinearComparison literal comparison =>
      _ ← context_visit;
      _ ← invalid (require_literal literal bools p);
      validate_comparison comparison ints limits p
  | AllDifferent variables =>
      _ ← strict_with_context variables p;
      require_ints variables ints p
  | AllowedTable variables rows | ForbiddenTable variables rows =>
      validate_table variables rows ints limits p
  | Element index values target =>
      _ ← invalid (require_int index ints p);
      _ ← invalid (require_int target ints p);
      for_each (λ value, _ ← context_visit; invalid (check_value value limits p)) values
  | Min target inputs | Max target inputs => validate_integer_aggregate target inputs ints p
  | Equality l r =>
      _ ← context_visit;
      _ ← invalid (require_int l ints p);
      _ ← invalid (require_int r ints p);
      mret tt
  | AbsDifference target l r =>
      _ ← context_visit;
      _ ← invalid (require_int target ints p);
      left_domain ← invalid (require_int l ints p);
      right_domain ← invalid (require_int r ints p);
      invalid (prove_abs_bounds left_domain right_domain p)
  | NoOverlap values =>
      _ ← strict_with_context values p;
      _ ← invalid (check_limit (len values) (max_intervals_per_global limits) p);
      for_each (λ interval, _ ← context_visit; invalid (require_interval interval intervals p)) values
  | Cumulative values demands capacity =>
      validate_cumulative values demands capacity intervals limits p
  end.

(** One record of [validate_constraints]; the state is the set of constraint ids seen and the
    reference count. *)
Definition validate_constraint_record (references : VariableReferences)
    (limits : PlanningIrLimitsV1) (index : nat) (st : gset string * Z) (record : ConstraintRecord) :
    VM (gset string * Z) :=
  let '(constraint_ids, total_refs) := st in
  _ ← context_visit;
  if decide (cr_id record ∈ constraint_ids) then invalid (duplicate (at_ "constraints" index ".id"))
  else
    _ ← invalid (require_provenance (cr_provenance record) (vr_provenance references)
                   (at_ "constraints" index EmptyString));
    _ ← invalid (check_limit (len (cr_enforcement record)) (max_enforcement_literals limits)
                   (at_ "constraints" index ".enforcement"));
    _ ← invalid (check_limit (len (cr_tags record)) (max_tags limits) (at_ "constraints" index ".tags"));
    _ ← strict_with_context (cr_enforcement record) (at_ "constraints" index ".enforcement");
    _ ← strict_with_context (cr_tags record) (at_ "constraints" index ".tags");
    _ ← for_each (λ literal, _ ← context_visit;
                    invalid (require_literal literal (vr_bools references)
                               (at_ "constraints" index ".enforcement"))) (cr_enforcement record);
    let refs := constraint_node_count (cr_body record) in
    _ ← invalid (check_limit refs (max_refs_per_node limits) (at_ "constraints" index ".body"));
    n ← invalid (count refs);
    total_refs ← invalid (add_refs total_refs n limits);
    _ ← validate_constraint (cr_body record) (vr_bools references) (vr_ints references)
          (vr_intervals references) limits (at_ "constraints" index ".body");
    mret ({[ cr_id record ]} ∪ constraint_ids, total_refs).
Definition validate_constraints (problem : PlanningProblem) (references : VariableReferences)
    (limits : PlanningIrLimitsV1) (total_refs : Z) : VM Z :=
  '(_, total_refs) ← fold_m_from 0 (validate_constraint_record references limits) (∅, total_refs)
                       (constraints problem);
  mret total_refs.

(** ** Objectives *)
Definition validate_term (ints : gmap string IntDomain) (ids : gset string)
    (limits : PlanningIrLimitsV1) (level_index : nat) (st : Z * Z * Z * Z) (term : ObjectiveTerm) :
    VM (Z * Z * Z * Z) :=
  let '(term_count, exact_min, exact_max, total_refs) := st in
  _ ← context_visit;
  term_count ← invalid (ok_or_code CodeArithmeticOverflow "objectives.terms"
                          (u64_checked_add term_count 1));
  _ ← invalid (require_provenance (ot_provenance term) ids "objectives.term");
  '(min, max) ← expression_bounds (ot_expression term) ints limits "objectives.term";
  if min <? 0
  then invalid (verr CodeInvalidObjectiveBounds (at_ "objectives.levels" level_index ".terms"))
  else
    exact_min ← invalid (ok_or_code CodeArithmeticOverflow "objectives.lowerBound"
                           (i64_checked_add exact_min min));
    exact_max ← invalid (ok_or_code CodeArithmeticOverflow "objectives.upperBound"
                           (i64_checked_add exact_max max));
    n ← invalid (count (len (le_terms (ot_expression term))));
    total_refs ← invalid (add_refs total_refs n limits);
    mret (term_count, exact_min, exact_max, total_refs).
Definition validate_level (ints : gmap string IntDomain) (ids : gset string)
    (limits : PlanningIrLimitsV1) (level_index : nat) (st : gset string * Z * Z)
    (level : ObjectiveLevel) : VM (gset string * Z * Z) :=
  let '(level_ids, term_count, total_refs) := st in
  _ ← context_visit;
  if decide (ol_id level ∈ level_ids)
  then invalid (duplicate (at_ "objectives.levels" level_index ".id"))
  else
    _ ← invalid (require_provenance (ol_provenance level) ids
                   (at_ "objectives.levels" level_index EmptyString));
    if ol_upper_bound level <? ol_lower_bound level
    then invalid (verr CodeInvalidObjectiveBounds (at_ "objectives.levels" level_index EmptyString))
    else
      _ ← invalid (check_value (ol_lower_bound level) limits "objectives.lowerBound");
      _ ← invalid (check_value (ol_upper_bound level) limits "objectives.upperBound");
      _ ← strict_by_with_context ot_id (ol_terms level) "objectives.terms";
      '(term_count, exact_min, exact_max, total_refs) ←
        fold_m (validate_term ints ids limits level_index) (term_count, 0, 0, total_refs)
          (ol_terms level);
      if negb (exact_min =? ol_lower_bound level) || negb (exact_max =? ol_upper_bound level)
      then invalid (verr CodeInvalidObjectiveBounds (at_ "objectives.levels" level_index EmptyString))
      else mret ({[ ol_id level ]} ∪ level_ids, term_count, total_refs).
Definition validate_objectives (problem : PlanningProblem) (ints : gmap string IntDomain)
    (ids : gset string) (limits : PlanningIrLimitsV1) (total_refs : Z) : VM Z :=
  '(_, term_count, total_refs) ←
    fold_m_from 0 (validate_level ints ids limits) (∅, 0, total_refs)
      (op_levels (objectives problem));
  if max_objective_terms limits <? term_count
  then invalid (verr CodeLimitExceeded "objectives.terms")
  else mret total_refs.

(** ** Assumptions *)
(** The state is the set of rules, the set of literal variables, and the reference count. *)
Definition validate_assumption (bools ids : gset string) (limits : PlanningIrLimitsV1)
    (records : gmap string ProvenanceRecord) (index : nat)
    (st : gset string * gset string * Z) (assumption : Assumption) :
    VM (gset string * gset string * Z) :=
  let '(rule_ids, literal_variables, total_refs) := st in
  _ ← context_visit;
  if bool_decide (as_required_rules assumption = [])
  then invalid (shape (at_ "assumptions" index ".requiredRules"))
  else
    refs ← invalid (ok_or_code CodeArithmeticOverflow (at_ "assumptions" index ".references")
                      (u64_checked_add (len (as_required_rules assumption)) 1));
    _ ← invalid (check_limit refs (max_refs_per_node limits) (at_ "assumptions" index ".references"));
    n ← invalid (count refs);
    total_refs ← invalid (add_refs total_refs n limits);
    _ ← strict_with_context (as_required_rules assumption) (at_ "assumptions" index ".requiredRules");
    if decide (lit_variable (as_literal assumption) ∈ literal_variables)
    then invalid (duplicate (at_ "assumptions" index ".literal.variable"))
    else
      _ ← invalid (require_literal (as_literal assumption) bools
                     (at_ "assumptions" index ".literal"));
      _ ← invalid (require_provenance (as_provenance assumption) ids
                     (at_ "assumptions" index ".provenance"));
      if match records !! as_provenance assumption with
         | None => true
         | Some record => negb (bool_decide (pr_source_kind record = RequiredRule))
         end
      then invalid (shape (at_ "assumptions" index ".provenance"))
      else
        rule_ids ← fold_m_from 0 (λ rule_index (rule_ids : gset string) rule_id,
            _ ← context_visit;
            if decide (rule_id ∈ rule_ids)
            then invalid (duplicate (at_ (at_ "assumptions" index ".requiredRules") rule_index EmptyString))
            else mret ({[ rule_id ]} ∪ rule_ids)) rule_ids (as_required_rules assumption);
        mret (rule_ids, {[ lit_variable (as_literal assumption) ]} ∪ literal_variables, total_refs).
Definition validate_assumptions (problem : PlanningProblem) (bools ids : gset string)
    (total_refs : Z) (limits : PlanningIrLimitsV1) : VM Z :=
  if bool_decide (assumptions problem = []) then mret total_refs
  else
    records ← fold_m (λ (records : gmap string ProvenanceRecord) record,
                 _ ← context_visit; mret (<[pr_id record := record]> records)) ∅ (provenance problem);
    '(_, _, total_refs) ←
      fold_m_from 0 (validate_assumption bools ids limits records) (∅, ∅, total_refs)
        (assumptions problem);
    mret total_refs.

(** ** Projections *)
Definition validate_projection_expression (bools : gset string) (ints : gmap string IntDomain)
    (intervals : gset string) (limits : PlanningIrLimitsV1) (expression : ProjectionExpression) :
    VM unit :=
  match expression with
  | PEBoolean id => invalid (require_bool id bools "projections.expression")
  | PEInteger id => _ ← invalid (require_int id ints "projections.expression"); mret tt
  | PELinear expression =>
      _ ← expression_bounds expression ints limits "projections.expression";
      for_each (λ _, context_visit) (le_terms expression)
  | PEInterval id => invalid (require_interval id intervals "projections.expression")
  | PEConstant (AVInterval interval) =>
      invalid (map_err (λ _, {| code := CodeInvalidProjection; path := "projections.expression" |})
                 (AssignedInterval_validate interval))
  | PEConstant _ => mret tt
  end.
Definition validate_projection (bools : gset string) (ints : gmap string IntDomain)
    (intervals ids : gset string) (limits : PlanningIrLimitsV1) (st : gset string * Z)
    (projection : SolutionProjection) : VM (gset string * Z) :=
  let '(assignments, total_refs) := st in
  _ ← context_visit;
  if decide (sp_assignment_id projection ∈ assignments)
  then invalid (duplicate "projections.assignmentId")
  else
    _ ← invalid (require_provenance (sp_provenance projection) ids "projections");
    _ ← validate_projection_expression bools ints intervals limits (sp_expression projection);
    let refs := projection_node_count (sp_expression projection) in
    _ ← invalid (check_limit refs (max_refs_per_node limits) "projections.expression");
    n ← invalid (count refs);
    total_refs ← invalid (add_refs total_refs n limits);
    if max_projection_expression_depth limits <? 1
    then invalid (verr CodeLimitExceeded "projections.expressionDepth")
    else mret ({[ sp_assignment_id projection ]} ∪ assignments, total_refs).
Definition validate_projections (problem : PlanningProblem) (bools : gset string)
    (ints : gmap string IntDomain) (intervals ids : gset string) (total_refs : Z)
    (limits : PlanningIrLimitsV1) : VM Z :=
  '(_, total_refs) ← fold_m (validate_projection bools ints intervals ids limits) (∅, total_refs)
                       (projections problem);
  mret total_refs.

(** ** Provenance *)
(** [usize::BITS - n.leading_zeros()] *)
Definition bit_length (n : Z) : Z := if n =? 0 then 0 else Z.log2 n + 1.
Definition find_record (records : list ProvenanceRecord) (id : string) : option nat :=
  binary_search_by_key pr_id id records.
Definition record_parent (records : list ProvenanceRecord) (index : nat) : option string :=
  r ← records !! index; pr_parent r.

(** The cycle test: does the path already hold [id]? *)
Definition check_cycle (records : list ProvenanceRecord) (path : list nat) (id : string) : VM unit :=
  for_each (λ index,
    _ ← context_visit;
    if bool_decide (pr_id <$> records !! index = Some id)
    then invalid (verr CodeProvenanceCycle "provenance.parent") else mret tt) path.
(** The walk towards the root of [validate_provenance_chain]: the extended path and the memoized
    depth of the tail. The path holds distinct records, so the walk makes at most one more step
    than there are records; [fuel] bounds it. *)
Fixpoint walk_chain (fuel : nat) (records : list ProvenanceRecord) (completed : list (option Z))
    (depth_limit : Z) (path : list nat) (current : option string) : VM (list nat * Z) :=
  match fuel, current with
  | O, _ | _, None => mret (path, 0)
  | S fuel, Some id =>
      _ ← context_charge 8;
      _ ← check_cycle records path id;
      prefix_depth ← invalid (count (len path));
      partial_depth ← invalid (ok_or_code CodeArithmeticOverflow "provenance.depth"
                                 (u64_checked_add prefix_depth 1));
      if depth_limit <? partial_depth then invalid (verr CodeLimitExceeded "provenance.depth")
      else
        _ ← context_charge (bit_length (len records) + 1);
        index ← invalid (ok_or_code CodeMissingReference "provenance.parent"
                           (find_record records id));
        match completed !!! index with
        | Some depth =>
            total_depth ← invalid (ok_or_code CodeArithmeticOverflow "provenance.depth"
                                     (u64_checked_add prefix_depth depth));
            if depth_limit <? total_depth then invalid (verr CodeLimitExceeded "provenance.depth")
            else mret (path, depth)
        | None =>
            walk_chain fuel records completed depth_limit (path ++ [index])
              (record_parent records index)
        end
  end.
(** The unwinding: exact depths from the end of the path. *)
Definition unwind_step (st : list (option Z) * Z) (index : nat) : VM (list (option Z) * Z) :=
  let '(completed, tail_depth) := st in
  _ ← context_visit;
  tail_depth ← invalid (ok_or_code CodeArithmeticOverflow "provenance.depth"
                          (u64_checked_add tail_depth 1));
  mret (<[index := Some tail_depth]> completed, tail_depth).
Definition unwind_chain (completed : list (option Z)) (path : list nat) (tail_depth : Z) :
    VM (list (option Z) * Z) :=
  fold_m unwind_step (completed, tail_depth) (reverse path).
Definition validate_provenance_chain (start_id : string) (records : list ProvenanceRecord)
    (completed : list (option Z)) (depth_limit : Z) : VM (list (option Z)) :=
  '(path, tail_depth) ← walk_chain (S (S (length records))) records completed depth_limit []
                          (Some start_id);
  '(completed, _) ← unwind_chain completed path tail_depth;
  mret completed.

Definition check_parameter (limits : PlanningIrLimitsV1) (entry : string * ProvenanceParameter) :
    VM unit :=
  let '(key, value) := entry in
  _ ← context_visit;
  _ ← invalid (check_text key (max_parameter_text_bytes limits) "provenance.parameters.key");
  match value with
  | PText text =>
      invalid (check_text text (max_parameter_text_bytes limits) "provenance.parameters.text")
  | _ => mret tt
  end.
(** The checks on the fields of one record, before its chain is walked. *)
Definition validate_record_fields (limits : PlanningIrLimitsV1) (record : ProvenanceRecord) :
    VM unit :=
  _ ← context_visit;
  _ ← invalid (check_limit (len (pr_entity_refs record)) (max_entity_refs_per_record limits)
                 "provenance.entityRefs");
  _ ← invalid (check_limit (Z.of_nat (size (pr_parameters record))) (max_parameters_per_record limits)
                 "provenance.parameters");
  _ ← strict_with_context (pr_entity_refs record) "provenance.entityRefs";
  _ ← invalid (check_text (pr_source_id record) (max_metadata_text_bytes limits)
                 "provenance.sourceId");
  _ ← invalid (check_text (pr_message_key record) (max_metadata_text_bytes limits)
                 "provenance.messageKey");
  for_each (check_parameter limits) (btree_iter (pr_parameters record)).
Definition validate_provenance_record (limits : PlanningIrLimitsV1)
    (records : list ProvenanceRecord) (completed : list (option Z)) (record : ProvenanceRecord) :
    VM (list (option Z)) :=
  _ ← validate_record_fields limits record;
  validate_provenance_chain (pr_id record) records completed (max_provenance_depth limits).

(** Records in use: those named by variables, constraints, levels, terms, assumptions and
    projections, and their ancestors. *)
Definition use_ids {A} (ids_of : A → string) (used : gset string) (l : list A) : VM (gset string) :=
  fold_m (λ (used : gset string) x, _ ← context_visit; mret ({[ ids_of x ]} ∪ used)) used l.
Definition use_level (used : gset string) (level : ObjectiveLevel) : VM (gset string) :=
  _ ← context_visit;
  use_ids ot_provenance ({[ ol_provenance level ]} ∪ used) (ol_terms level).
(** The loop over [pending], whose last element is kept first; every identifier is pushed at most
    once, when it enters [used]. *)
Fixpoint use_ancestors (fuel : nat) (records : list ProvenanceRecord) (used : gset string)
    (pending : list string) : VM (gset string) :=
  match fuel, pending with
  | O, _ | _, [] => mret used
  | S fuel, id :: pending =>
      _ ← context_visit;
      _ ← context_charge (bit_length (len records) + 1);
      index ← invalid (ok_or_code CodeMissingProvenance "provenance" (find_record records id));
      match record_parent records index with
      | Some parent =>
          if decide (parent ∈ used) then use_ancestors fuel records used pending
          else use_ancestors fuel records ({[ parent ]} ∪ used) (parent :: pending)
      | None => use_ancestors fuel records used pending
      end
  end.
Definition validate_provenance_coverage (problem : PlanningProblem) : VM unit :=
  used ← use_ids variable_provenance ∅ (variables problem);
  used ← use_ids cr_provenance used (constraints problem);
  used ← fold_m use_level used (op_levels (objectives problem));
  used ← use_ids as_provenance used (assumptions problem);
  used ← use_ids sp_provenance used (projections problem);
  let ids := ord_sort (elements used) in
  _ ← for_each (λ _, context_visit) ids;
  used ← use_ancestors (S (length ids + length (provenance problem))) (provenance problem) used
           (reverse ids);
  if negb (Z.of_nat (size used) =? len (provenance problem))
  then invalid (verr CodeOrphanProvenance "provenance") else mret tt.

Definition memo_bytes (record_count path_capacity : Z) : option Z :=
  memo ← u64_checked_mul record_count 16;
  path_bytes ← u64_checked_mul path_capacity 8;
  u64_checked_add memo path_bytes.
Definition validate_provenance (problem : PlanningProblem) (limits : PlanningIrLimitsV1) : VM unit :=
  record_count ← invalid (count (len (provenance problem)));
  let path_capacity := Z.min record_count (max_provenance_depth limits) in
  g ← prep (open_guard (se_lift (ok_or PrepArithmeticOverflow
                                   (memo_bytes record_count path_capacity))));
  _ ← guarded g (
    _ ← context_charge record_count;
    fold_m (validate_provenance_record limits (provenance problem))
      (replicate (length (provenance problem)) None) (provenance problem));
  validate_provenance_coverage problem.

(** ** Metadata *)
Definition validate_metadata (m : PlanningMetadata) (limits : PlanningIrLimitsV1) : VM unit :=
  _ ← invalid (check_text (pm_compiler_version m) (max_metadata_text_bytes limits)
                 "metadata.compilerVersion");
  _ ← for_each (λ '(key, value),
        _ ← context_visit;
        _ ← invalid (check_text key (max_id_bytes limits) "metadata.compileMetadata.key");
        match value with
        | PText text => invalid (check_text text (max_metadata_text_bytes limits)
                                   "metadata.compileMetadata.text")
        | _ => mret tt
        end) (btree_iter (pm_compile_metadata m));
  for_each (λ '(key, value),
    _ ← context_visit;
    _ ← invalid (check_text key (max_metadata_text_bytes limits) "metadata.displayText.key");
    invalid (check_text value (max_metadata_text_bytes limits) "metadata.displayText.value"))
    (btree_iter (pm_display_text m)).

(** ** Features, components, entry points *)
Definition add_units (units value : Z) : Result PlanningPreparationError Z :=
  ok_or PrepArithmeticOverflow (n ← usize_to_u64 value; u64_checked_add units n).
(** Adds [values x] for every [x], each after one unit of work. *)
Definition add_each {A} (values : A → list Z) (units : Z) (l : list A) : Prep Z :=
  fold_m (λ units x,
    _ ← reserve_work 1;
    fold_m (λ units value, se_lift (add_units units value)) units (values x)) units l.
Definition validation_scratch_bytes (problem : PlanningProblem) : Prep Z :=
  units ← add_each (λ value, [value]) 0
    [len (variables problem); len (constraints problem); len (assumptions problem);
     len (op_levels (objectives problem)); len (projections problem); len (provenance problem)];
  units ← add_each (λ record, [constraint_node_count (cr_body record);
                               len (cr_enforcement record); len (cr_tags record)])
            units (constraints problem);
  units ← add_each (λ assumption, [len (as_required_rules assumption)]) units (assumptions problem);
  units ← add_each (λ projection, [projection_node_count (sp_expression projection)])
            units (projections problem);
  units ← fold_m (λ units level,
            _ ← reserve_work 1;
            units ← se_lift (add_units units (len (ol_terms level)));
            add_each (λ term, [len (le_terms (ot_expression term))]) units (ol_terms level))
            units (op_levels (objectives problem));
  se_lift (ok_or PrepArithmeticOverflow (v ← u64_checked_mul units 128; u64_checked_add v 4096)).

Definition invalid_authorization (limits : PlanningIrLimitsV1) (hash : string)
    (authorization : SplitAuthorization) : VR bool :=
  if negb (bool_decide (sa_component_hash authorization = hash)) then Ok true
  else if bool_decide (sa_domain_merge_contract authorization = EmptyString) then Ok true
  else
    n ← count (str_len (sa_domain_merge_contract authorization));
    if max_metadata_text_bytes limits <? n then Ok true
    else Ok (negb (sa_projection_independent authorization)).
Definition validate_features_and_components_with_analysis (problem : PlanningProblem)
    (total_refs : Z) (limits : PlanningIrLimitsV1) (usage : FeatureUsageManifest)
    (analysis : ComponentAnalysis) : VR unit :=
  if negb (bool_decide (required_capabilities usage ⊆ declared_capabilities problem))
  then verr CodeUndeclaredCapability "declaredCapabilities"
  else if (max_table_rows limits <? table_row_count usage)
          || (max_table_cells limits <? table_cell_count usage)
  then verr CodeLimitExceeded "tables"
  else if max_total_refs limits <? total_refs then verr CodeLimitExceeded "totalReferences"
  else
    _ ← check_limit (len (components analysis)) (max_component_nodes limits) "components.nodes";
    if max_component_edges limits <? edge_count analysis
    then verr CodeLimitExceeded "components.edges"
    else
      match split_authorization problem with
      | Some authorization =>
          bad ← invalid_authorization limits (component_hash analysis) authorization;
          if (bad : bool) then verr CodeInvalidSplitAuthorization "splitAuthorization" else Ok tt
      | None => Ok tt
      end.

Definition validate_core (problem : PlanningProblem) (limits : PlanningIrLimitsV1) :
    VM (VariableReferences * Z) :=
  _ ← validate_root problem limits;
  '(references, total_refs) ← validate_variables problem limits;
  total_refs ← validate_constraints problem references limits total_refs;
  total_refs ← validate_objectives problem (vr_ints references) (vr_provenance references) limits
                 total_refs;
  total_refs ← validate_assumptions problem (vr_bools references) (vr_provenance references)
                 total_refs limits;
  total_refs ← validate_projections problem (vr_bools references) (vr_ints references)
                 (vr_intervals references) (vr_provenance references) total_refs limits;
  _ ← validate_provenance problem limits;
  _ ← validate_metadata (metadata problem) limits;
  mret (references, total_refs).

Section entry_points.
Context (blake3_hex : list Z → string).

(** [None] is the [unreachable!] of an uncontrolled preparation failure. *)
Definition validate_outcome (problem : PlanningProblem) (limits : PlanningIrLimitsV1) :
    option (VR unit) :=
  match (validate_core problem limits None).1 with
  | Err (Preparation _) => None
  | Err (Invalid e) => Some (Err e)
  | Ok (_, total_refs) =>
      Some (validate_features_and_components_with_analysis problem total_refs limits
              (feature_usage problem) (analyze_components blake3_hex problem))
  end.
Definition validate (problem : PlanningProblem) (limits : PlanningIrLimitsV1) : VR unit :=
  default (verr CodeInvalidShape "unreachable") (validate_outcome problem limits).

(** Budget operations inside a function that owns the budget. *)
Notation BV := (SE PlanningPreparationBudget BudgetedValidationError).
Definition bprep {A} (m : Prep A) : BV A := λ b, let '(r, b') := m b in (map_err Preparation r, b').
Definition binvalid {A} (r : VR A) : BV A := se_lift (map_err Invalid r).
(** Runs a context computation on the budget. *)
Definition with_context {A} (m : VM A) : BV A := λ b,
  match m (Some b) with (r, Some b') => (r, b') | (r, None) => (r, b) end.
(** Drops a reservation whose scope ends with an early return of [m]. *)
Definition or_drop {A} (amount : Z) (m : BV A) : BV A := λ b,
  match m b with (Ok a, b') => (Ok a, b') | (Err e, b') => (Err e, retire amount b') end.
Definition validate_with_budget (problem : PlanningProblem) (limits : PlanningIrLimitsV1) :
    BV (FeatureUsageManifest * BudgetedComponentAnalysis) :=
  _ ← bprep budget_check;
  _ ← binvalid (validate_root_admission problem limits);
  scratch ← bprep (validation_scratch_bytes problem);
  reservation ← bprep (reserve_transient_owned scratch);
  '(_, total_refs) ← or_drop (bytes reservation) (with_context (validate_core problem limits));
  _ ← (λ b, (Ok tt, retire (bytes reservation) b)) : BV unit;
  manifest ← bprep (feature_usage_with_budget problem);
  analysis ← bprep (analyze_components_with_budget blake3_hex problem);
  _ ← or_drop (default 0 (bca_reservation analysis)) (
        _ ← binvalid (validate_features_and_components_with_analysis problem total_refs limits
                        manifest (bca_analysis analysis));
        bprep budget_check);
  mret (manifest, analysis).

(** [serde_json::from_slice] for a [PlanningProblem], and its failure. *)
Context (from_slice : list Z → option PlanningProblem).
Definition parse_and_validate (bytes_ : list Z) (limits : PlanningIrLimitsV1) : VR PlanningProblem :=
  n ← count (len bytes_);
  if max_ir_bytes limits <? n then verr CodeLimitExceeded "bytes"
  else
    problem ← ok_or_code CodeMalformedJson "json" (from_slice bytes_);
    _ ← validate problem limits;
    Ok problem.
End entry_points.

(** * Rules of the validation monad

    [ensures P m]: whenever [m] succeeds, in whatever context, its result satisfies [P].  The rules
    follow the structure of the validation code; the lemmas after them read the scalar checks, the
    ordering checks and the reference checks back as propositions. *)
Definition ensures {S E A} (P : A → Prop) (m : SE S E A) : Prop :=
  ∀ s a s', m s = (Ok a, s') → P a.

Section rules.
Context {S E : Type}.
Lemma ensures_ret {A} (P : A → Prop) a : P a → ensures P (mret a : SE S E A).
Proof. intros HP s b s' [= <- <-]. done. Qed.
Lemma ensures_bind {A B} (P : A → Prop) (Q : B → Prop) (m : SE S E A) k :
  ensures P m → (∀ a, P a → ensures Q (k a)) → ensures Q (m ≫= k).
Proof. intros Hm Hk s b s'. rewrite se_bind_Ok. intros (a & s1 & Ha & Hb). eapply Hk; eauto. Qed.
Lemma ensures_skip {A B} (Q : B → Prop) (m : SE S E A) k :
  (∀ a, ensures Q (k a)) → ensures Q (m ≫= k).
Proof. intros Hk. apply (ensures_bind (λ _, True)); [by intros|auto]. Qed.
Lemma ensures_weaken {A} (P Q : A → Prop) (m : SE S E A) :
  ensures P m → (∀ a, P a → Q a) → ensures Q m.
Proof. intros Hm HPQ s a s' Ha. eauto. Qed.
Lemma ensures_and {A} (P Q : A → Prop) (m : SE S E A) :
  ensures P m → ensures Q m → ensures (λ a, P a ∧ Q a) m.
Proof. intros HP HQ s a s' Ha. eauto. Qed.
Lemma ensures_fail {A} (P : A → Prop) e : ensures P (se_fail e : SE S E A).
Proof. by intros s a s' [=]. Qed.
Lemma ensures_lift {A} (P : A → Prop) (r : Result E A) :
  (∀ a, r = Ok a → P a) → ensures P (se_lift r : SE S E A).
Proof. intros HP s a s' [= Hr _]. auto. Qed.
Lemma ensures_for_each {A} (P : A → Prop) (f : A → SE S E unit) l :
  (∀ x, ensures (λ _, P x) (f x)) → ensures (λ _, Forall P l) (for_each f l).
Proof. intros Hf s [] s' Hs. eapply se_for_each_Ok; [|exact Hs]. intros x s1 s2. apply Hf. Qed.
Lemma ensures_for_each_from {A} (P : A → Prop) (f : nat → A → SE S E unit) l i :
  (∀ i x, ensures (λ _, P x) (f i x)) → ensures (λ _, Forall P l) (for_each_from i f l).
Proof. intros Hf s [] s' Hs. eapply se_for_each_from_Ok; [|exact Hs]. intros j x s1 s2. apply Hf. Qed.
Lemma ensures_fold_m {A B} (I : list A → B → Prop) (f : B → A → SE S E B) l b :
  I [] b → (∀ b x done_, I done_ b → ensures (I (done_ ++ [x])) (f b x)) →
  ensures (I l) (fold_m f b l).
Proof.
  intros Hb Hf s b' s' Hs. apply (se_fold_m_inv f I) with (done_ := []) in Hs; [done| |done].
  intros b1 x s1 b2 s2 done_ Hd Hr. eapply Hf; eauto.
Qed.
Lemma ensures_fold_m_from {A B} (I : list A → B → Prop) (f : nat → B → A → SE S E B) l i b :
  I [] b → (∀ i b x done_, I done_ b → ensures (I (done_ ++ [x])) (f i b x)) →
  ensures (I l) (fold_m_from i f b l).
Proof.
  intros Hb Hf s b' s' Hs. apply (se_fold_m_from_inv f I) with (done_ := []) in Hs; [done| |done].
  intros j b1 x s1 b2 s2 done_ Hd Hr. eapply Hf; eauto.
Qed.
Lemma ensures_if {A} (P : A → Prop) (b : bool) (m n : SE S E A) :
  (b = true → ensures P m) → (b = false → ensures P n) → ensures P (if b then m else n).
Proof. destruct b; auto. Qed.
End rules.

Lemma ensures_invalid {A} (P : A → Prop) (r : VR A) :
  (∀ a, r = Ok a → P a) → ensures P (invalid r).
Proof. intros HP. apply ensures_lift. intros a Ha. apply map_err_Ok in Ha. auto. Qed.
Lemma ensures_verr {A} (P : A → Prop) c p : ensures P (invalid (verr c p)).
Proof. by apply ensures_invalid. Qed.
Lemma ensures_guarded {E A} (P : A → Prop) g (m : SE Ctx E A) :
  ensures P m → ensures P (guarded g m).
Proof.
  intros Hm. unfold guarded. apply (ensures_bind P).
  - intros s a s'. unfold on_err. destruct (m s) as [[b|e] s1] eqn:Hr; intros [= <- <-]. eauto.
  - intros a Ha. apply ensures_skip. intros _. by apply ensures_ret.
Qed.

(** ** Scalar checks *)
Lemma count_Ok v n : count v = Ok n ↔ n = v ∧ is_u64 v.
Proof. unfold count, ok_or_code. rewrite ok_or_Ok. apply checked_u64_Some. Qed.
Lemma check_limit_Ok v m p : check_limit v m p = Ok tt ↔ is_u64 v ∧ v ≤ m.
Proof.
  unfold check_limit. rewrite result_bind_Ok. setoid_rewrite count_Ok. split.
  - intros (n & [-> Hv] & H). destruct (Z.ltb_spec m v); [done|]. auto.
  - intros [Hv Hm]. exists v. split; [done|]. destruct (Z.ltb_spec m v); [lia|done].
Qed.
Lemma check_value_Ok v limits p :
  wf_limits limits → check_value v limits p = Ok tt ↔ Z.abs v ≤ max_abs_value limits.
Proof.
  intros [[Hm1 Hm2] _]. unfold check_value, cast_unsigned, unsigned_abs.
  rewrite Z.mod_small by (unfold i64_max in *; lia).
  destruct (Z.ltb_spec (max_abs_value limits) (Z.abs v)); split; intros; try done; lia.
Qed.
Lemma require_bool_Ok id bools p : require_bool id bools p = Ok tt ↔ id ∈ bools.
Proof. unfold require_bool. by destruct (decide _). Qed.
Lemma require_interval_Ok id ids p : require_interval id ids p = Ok tt ↔ id ∈ ids.
Proof. unfold require_interval. by destruct (decide _). Qed.
Lemma require_provenance_Ok id ids p : require_provenance id ids p = Ok tt ↔ id ∈ ids.
Proof. unfold require_provenance. by destruct (decide _). Qed.
Lemma require_int_Ok id ints p d : require_int id ints p = Ok d ↔ ints !! id = Some d.
Proof. unfold require_int, ok_or_code. apply ok_or_Ok. Qed.

(** ** Ordering checks *)
Lemma strictly_sorted_by_windows {T K} `{OrdLaws K} (key : T → K) l :
  strictly_sorted_by key l = true ↔ Forall (λ '(a, b), ltb (key a) (key b) = true) (windows2 l).
Proof.
  induction l as [|x [|y l] IH]; [by split; [constructor|]..|].
  change (strictly_sorted_by key (x :: y :: l))
    with (ltb (key x) (key y) && strictly_sorted_by key (y :: l)).
  change (windows2 (x :: y :: l)) with ((x, y) :: windows2 (y :: l)).
  by rewrite andb_true_iff, IH, Forall_cons.
Qed.
Lemma strict_by_ensures {T K} `{OrdLaws K} (key : T → K) values p :
  ensures (λ _, strictly_sorted_by key values = true) (strict_by_with_context key values p).
Proof.
  unfold strict_by_with_context. eapply ensures_weaken.
  - apply (ensures_for_each (λ '(a, b), ltb (key a) (key b) = true)). intros [a b].
    apply ensures_skip. intros _. apply ensures_if; intros Hle; [apply ensures_verr|].
    apply ensures_ret. apply ltb_lt. by apply leb_false.
  - intros [] Hall. by apply strictly_sorted_by_windows.
Qed.
Lemma strict_ensures {T} `{OrdLaws T} (values : list T) p :
  ensures (λ _, strictly_sorted values = true) (strict_with_context values p).
Proof. apply strict_by_ensures. Qed.
