(* ===== verification/ValidationAgreement.v ===== *)
(** * Budgeted validation agrees with uncontrolled validation

    Every traversal of [validation.rs] erases to its uncontrolled run.  The only place where the
    source takes another path under a budget is [validate_table], which reorders its checks and
    compares rows cell by cell; the two paths are shown to accept the same tables. *)
From stdpp Require Import base tactics list gmap strings.
From Stdlib Require Import ZArith Lia.
From S2P Require Import Prelude Ordering Control Budget Ids DomainIr Model Analysis Erasure.
From S2P Require Import Validation.
Open Scope Z_scope.

Lemma erases_prep {A1 A2} (R : A1 → A2 → Prop) (m : AM A1) (m' : AM A2) :
  erases R m m' → erases R (prep m) (prep m').
Proof.
  intros H b a s. unfold prep. destruct (m (Some b)) as [[a1|e] s1] eqn:Hm; intros [= <- <-].
  destruct (H b a1 s1 Hm) as (Hs & a' & -> & HR). eauto.
Qed.
Lemma erases_context_visit : erases eq context_visit context_visit.
Proof. apply erases_prep, erases_visit. Qed.
Lemma erases_context_charge n : erases eq (context_charge n) (context_charge n).
Proof. apply erases_prep, erases_charge. Qed.
Lemma erases_invalid {A} (r : VR A) : erases eq (invalid r) (invalid r).
Proof. apply erases_lift. Qed.
#[export] Hint Resolve erases_context_visit erases_context_charge erases_invalid : erasure.

Lemma erases_strict_by {T K} `{Ord K} (key : T → K) values p :
  erases eq (strict_by_with_context key values p) (strict_by_with_context key values p).
Proof. unfold strict_by_with_context. erase. Qed.
Lemma erases_strict {T} `{Ord T} (values : list T) p :
  erases eq (strict_with_context values p) (strict_with_context values p).
Proof. apply erases_strict_by. Qed.
#[export] Hint Resolve erases_strict_by erases_strict : erasure.

(** ** Uncontrolled acceptance *)
Lemma runs_invalid {A} (P : A → Prop) (r : VR A) a : r = Ok a → P a → runs P (invalid r).
Proof. intros -> HP. by exists a. Qed.
Lemma runs_context_visit : runs (λ _, True) context_visit.
Proof. by exists tt. Qed.
#[export] Hint Resolve runs_context_visit : erasure.
Lemma runs_for_each {E A} (f : A → SE _ E unit) l :
  Forall (λ x, runs (λ _, True) (f x)) l → runs (λ _, True) (for_each f l).
Proof.
  induction 1 as [|x l Hx _ IH]; cbn; [by apply runs_ret|]. apply runs_seq; [done|auto].
Qed.
Lemma runs_strict {T} `{OrdLaws T} (values : list T) p :
  strictly_sorted values = true → runs (λ _, True) (strict_with_context values p).
Proof.
  intros Hs. unfold strict_with_context, strict_by_with_context. apply runs_for_each.
  apply strictly_sorted_by_windows in Hs. eapply Forall_impl; [exact Hs|]. intros [a b] Hlt.
  apply runs_seq; [auto with erasure|]. intros _. unfold id.
  apply ltb_lt, leb_false in Hlt. rewrite Hlt. by apply runs_ret.
Qed.

(** ** Tables *)
Lemma row_ordering_cmp (a b : list Z) :
  length a = length b → ensures (λ o, default Eq o = cmp a b) (row_ordering (zip a b)).
Proof.
  revert b. induction a as [|x a IH]; intros [|y b] Hlen; try done.
  { by apply ensures_ret. }
  change (cmp (x :: a) (y :: b)) with (match x ?= y with Eq => cmp a b | c => c end).
  cbn [zip zip_with row_ordering]. apply ensures_skip. intros _.
  destruct (Z.eqb_spec x y) as [->|Hne]; cbn [negb].
  - rewrite Z.compare_refl. apply IH. cbn in Hlen. lia.
  - apply ensures_ret. cbn. destruct (Z.compare_spec x y); done || congruence.
Qed.

Lemma strict_table_rows_ensures rows p arity :
  Forall (λ row, len row = arity) rows →
  ensures (λ _, strictly_sorted rows = true) (strict_table_rows_with_context rows p).
Proof.
  intros Har. unfold strict_table_rows_with_context. eapply ensures_weaken.
  - apply (ensures_for_each (λ '(a, b), len a = len b → ltb a b = true)). intros [a b].
    apply ensures_skip. intros _. destruct (decide (len a = len b)) as [Heq|?].
    2:{ apply ensures_skip. intros o. destruct (default _ o); try apply ensures_verr.
        by apply ensures_ret. }
    eapply ensures_bind; [apply row_ordering_cmp; unfold len in Heq; lia|]. intros o Ho.
    rewrite Heq, Z.compare_refl, Ho. unfold ltb.
    destruct (cmp a b); [apply ensures_verr|by apply ensures_ret|apply ensures_verr].
  - intros [] Hall. apply strictly_sorted_by_windows. rewrite Forall_forall in Har.
    rewrite Forall_forall in Hall |- *. intros [a b] Hin. apply (Hall (a, b) Hin).
    unfold windows2 in Hin. apply elem_of_zip_l in Hin as Ha. apply elem_of_zip_r in Hin as Hb.
    rewrite (Har a), (Har b); [done| |done]. destruct rows; [by apply not_elem_of_nil in Hb|by right].
Qed.

Lemma count_cells_ensures arity p rows :
  ensures (λ cells, Forall (λ row, len row = arity) rows ∧ cells = len rows * arity ∧ is_u64 cells)
    (fold_m (count_cells arity p) 0 rows).
Proof.
  apply (ensures_fold_m (λ rows cells,
    Forall (λ row, len row = arity) rows ∧ cells = len rows * arity ∧ is_u64 cells)).
  { split; [constructor|]. split; [done|]. unfold is_u64, u64_max. lia. }
  intros cells row done_ (Hall & -> & _). unfold count_cells. apply ensures_skip. intros _.
  apply ensures_if; intros Hrow; [apply ensures_verr|].
  apply negb_false_iff, Z.eqb_eq in Hrow.
  eapply ensures_bind; [apply ensures_invalid; intros n Hn; exact (proj1 (proj1 (count_Ok _ _) Hn))|].
  intros n ->. apply ensures_invalid. intros c Hc.
  apply ok_or_Ok, checked_u64_Some in Hc as [-> Hc].
  split; [apply Forall_app; split; [done|by apply Forall_singleton]|].
  split; [|done]. unfold len. rewrite length_app. cbn. unfold len in Hrow. lia.
Qed.

Lemma require_ints_ensures ids ints p :
  ensures (λ _, Forall (λ id, is_Some (ints !! id)) ids) (require_ints ids ints p).
Proof.
  unfold require_ints. apply ensures_for_each. intros id. apply ensures_skip. intros _.
  eapply ensures_bind; [apply ensures_invalid; intros d Hd; apply require_int_Ok in Hd; exact (mk_is_Some _ _ Hd)|].
  intros ? Hs. by apply ensures_ret.
Qed.
Lemma runs_require_ints ids ints p :
  Forall (λ id, is_Some (ints !! id)) ids → runs (λ _, True) (require_ints ids ints p).
Proof.
  intros Hall. apply runs_for_each. eapply Forall_impl; [exact Hall|]. intros id [d Hd].
  apply runs_seq; [auto with erasure|]. intros _.
  apply runs_seq; [by apply (runs_invalid _ _ d); [apply require_int_Ok|]|]. intros _. by apply runs_ret.
Qed.

(** A successful run in any context whose result satisfies [P], against a run that succeeds. *)
Lemma erases_ensures {E1 E2 A1 A2} (R : A1 → A2 → Prop) (P : A1 → Prop)
    (m : SE _ E1 A1) (m' : SE _ E2 A2) :
  (∀ b a s, m (Some b) = (Ok a, s) → ∃ b', s = Some b') →
  ensures P m → (∀ a, P a → runs (R a) m') → erases R m m'.
Proof.
  intros Hs HP Hr b a s Hm. split; [eauto|]. destruct (Hr a (HP _ _ _ Hm)) as (a' & Ha & HR). eauto.
Qed.

Lemma erases_budget_kept {E A} (m : SE Ctx E A) :
  (∃ m' : SE Ctx E A, erases anything m m') →
  ∀ b a s, m (Some b) = (Ok a, s) → ∃ b', s = Some b'.
Proof. intros [m' H] b a s Hm. by destruct (H b a s Hm) as [Hs _]. Qed.

Lemma erases_row_ordering cells : erases eq (row_ordering cells) (row_ordering cells).
Proof. induction cells as [|[]]; cbn [row_ordering]; erase. Qed.
Lemma erases_require_ints ids ints p : erases eq (require_ints ids ints p) (require_ints ids ints p).
Proof. unfold require_ints. erase. Qed.
#[export] Hint Resolve erases_row_ordering erases_require_ints : erasure.
Lemma erases_strict_table_rows rows p :
  erases eq (strict_table_rows_with_context rows p) (strict_table_rows_with_context rows p).
Proof. unfold strict_table_rows_with_context. erase. Qed.
#[export] Hint Resolve erases_strict_table_rows : erasure.

(** The two paths of [validate_table]. *)
Definition table_controlled (variables : list string) (rows : list (list Z))
    (ints : gmap string IntDomain) (limits : PlanningIrLimitsV1) (p : string) : VM unit :=
  _ ← require_ints variables ints p;
  cells ← fold_m (count_cells (len variables) p) 0 rows;
  if max_table_cells limits <? cells then invalid (verr CodeLimitExceeded p)
  else strict_table_rows_with_context rows p.
Definition table_uncontrolled (variables : list string) (rows : list (list Z))
    (ints : gmap string IntDomain) (limits : PlanningIrLimitsV1) (p : string) : VM unit :=
  _ ← strict_with_context rows p;
  _ ← require_ints variables ints p;
  if existsb (λ row, negb (len row =? len variables)) rows then invalid (shape p)
  else
    rows_count ← invalid (count (len rows));
    arity_count ← invalid (count (len variables));
    cells ← invalid (ok_or_code CodeArithmeticOverflow p (u64_checked_mul rows_count arity_count));
    if max_table_cells limits <? cells then invalid (verr CodeLimitExceeded p) else mret tt.

Definition table_ok (variables : list string) (rows : list (list Z))
    (ints : gmap string IntDomain) (limits : PlanningIrLimitsV1) : Prop :=
  Forall (λ id, is_Some (ints !! id)) variables ∧
  Forall (λ row, len row = len variables) rows ∧ strictly_sorted rows = true ∧
  is_u64 (len rows * len variables) ∧ len rows * len variables ≤ max_table_cells limits.

Lemma table_controlled_ensures variables rows ints limits p :
  ensures (λ _, table_ok variables rows ints limits) (table_controlled variables rows ints limits p).
Proof.
  unfold table_controlled. eapply ensures_bind; [apply require_ints_ensures|]. intros ? Hv.
  eapply ensures_bind; [apply count_cells_ensures|]. intros cells (Hrows & -> & Hc).
  apply ensures_if; intros Hm; [apply ensures_verr|]. apply Z.ltb_ge in Hm.
  eapply ensures_weaken; [by apply (strict_table_rows_ensures _ _ (len variables))|]. intros ? Hs. done.
Qed.
Lemma runs_table_uncontrolled variables rows ints limits p :
  is_u64 (len rows) → is_u64 (len variables) → table_ok variables rows ints limits →
  runs (λ _, True) (table_uncontrolled variables rows ints limits p).
Proof.
  intros Hr Ha (Hv & Hrows & Hs & Hc & Hm). unfold table_uncontrolled.
  apply runs_seq; [by apply runs_strict|]. intros _.
  apply runs_seq; [by apply runs_require_ints|]. intros _.
  destruct (existsb _ rows) eqn:Hex.
  { apply existsb_exists in Hex as (row & Hin & Hne). rewrite Forall_forall in Hrows.
    rewrite (Hrows row) in Hne by (by apply list_elem_of_In). by rewrite Z.eqb_refl in Hne. }
  eapply runs_bind; [apply (runs_invalid (λ n, n = len rows) _ (len rows)); [by apply count_Ok|done]|].
  intros ? ->.
  eapply runs_bind; [apply (runs_invalid (λ n, n = len variables) _ (len variables)); [by apply count_Ok|done]|].
  intros ? ->.
  eapply runs_bind; [apply (runs_invalid (λ n, n = len rows * len variables) _ (len rows * len variables));
                     [apply ok_or_Ok; by apply checked_u64_Some|done]|].
  intros ? ->. destruct (Z.ltb_spec (max_table_cells limits) (len rows * len variables)); [lia|].
  by apply runs_ret.
Qed.

Lemma erases_table variables rows ints limits p :
  is_u64 (len rows) → is_u64 (len variables) →
  erases eq (table_controlled variables rows ints limits p) (table_uncontrolled variables rows ints limits p).
Proof.
  intros Hr Ha. eapply erases_ensures; [|apply table_controlled_ensures|].
  - apply erases_budget_kept. exists (table_controlled variables rows ints limits p).
    apply (erases_weaken eq); [done|]. unfold table_controlled, count_cells. erase.
  - intros [] Hok. eapply runs_weaken; [|by apply runs_table_uncontrolled]. by intros [] _.
Qed.

Lemma erases_validate_table variables rows ints limits p :
  erases eq (validate_table variables rows ints limits p) (validate_table variables rows ints limits p).
Proof.
  unfold validate_table.
  apply (erases_bind (λ _ _, is_u64 (len variables))).
  { intros b [] s Hs. unfold invalid, se_lift in *. injection Hs as Hr <-.
    split; [eauto|]. exists tt. rewrite Hr. split; [done|].
    apply map_err_Ok, check_limit_Ok in Hr. tauto. }
  intros _ _ Ha. apply (erases_bind (λ _ _, is_u64 (len rows))).
  { intros b [] s Hs. unfold invalid, se_lift in *. injection Hs as Hr <-.
    split; [eauto|]. exists tt. rewrite Hr. split; [done|].
    apply map_err_Ok, check_limit_Ok in Hr. tauto. }
  intros _ _ Hr. apply (erases_bind (λ c c', c = true ∧ c' = false)).
  { intros b c s [= <- <-]. split; [eauto|]. by exists false. }
  intros ? ? [-> ->]. apply erases_bind_eq; [|erase]. by apply erases_table.
Qed.
#[export] Hint Resolve erases_validate_table : erasure.

(** ** The whole traversal *)
Lemma erases_expression_bounds e ints limits p :
  erases eq (expression_bounds e ints limits p) (expression_bounds e ints limits p).
Proof. unfold expression_bounds, expression_bounds_term. erase. Qed.
#[export] Hint Resolve erases_expression_bounds : erasure.
Lemma erases_validate_constraint c bools ints intervals limits p :
  erases eq (validate_constraint c bools ints intervals limits p)
    (validate_constraint c bools ints intervals limits p).
Proof.
  unfold validate_constraint, validate_literals, validate_comparison, validate_integer_aggregate,
    validate_cumulative, validate_demand. erase.
Qed.
Lemma erases_validate_domain d limits p :
  erases eq (validate_domain d limits p) (validate_domain d limits p).
Proof. unfold validate_domain. erase. Qed.
#[export] Hint Resolve erases_validate_constraint erases_validate_domain : erasure.
Lemma erases_scan_durations r ds e rep : erases eq (scan_durations r ds e rep) (scan_durations r ds e rep).
Proof. revert rep. induction ds; intros rep; cbn [scan_durations]; erase. Qed.
#[export] Hint Resolve erases_scan_durations : erasure.
Lemma erases_scan_starts ss ds e rep : erases eq (scan_starts ss ds e rep) (scan_starts ss ds e rep).
Proof. revert rep. induction ss; intros rep; cbn [scan_starts]; erase. Qed.
#[export] Hint Resolve erases_scan_starts : erasure.
Lemma erases_validate_interval_variable refs i v :
  erases eq (validate_interval_variable refs i v) (validate_interval_variable refs i v).
Proof. unfold validate_interval_variable, validate_interval_equation. erase. Qed.
Lemma erases_scan_variable limits ids i st v :
  erases eq (scan_variable limits ids i st v) (scan_variable limits ids i st v).
Proof. unfold scan_variable. erase. Qed.
#[export] Hint Resolve erases_validate_interval_variable erases_scan_variable : erasure.
Lemma erases_validate_variables problem limits :
  erases eq (validate_variables problem limits) (validate_variables problem limits).
Proof. unfold validate_variables, validate_interval_variables, enumerate_each. erase. Qed.
Lemma erases_validate_constraints problem refs limits n :
  erases eq (validate_constraints problem refs limits n) (validate_constraints problem refs limits n).
Proof. unfold validate_constraints, validate_constraint_record. erase. Qed.
Lemma erases_validate_objectives problem ints ids limits n :
  erases eq (validate_objectives problem ints ids limits n) (validate_objectives problem ints ids limits n).
Proof. unfold validate_objectives, validate_level, validate_term. erase. Qed.
Lemma erases_validate_assumptions problem bools ids n limits :
  erases eq (validate_assumptions problem bools ids n limits)
    (validate_assumptions problem bools ids n limits).
Proof. unfold validate_assumptions, validate_assumption. erase. Qed.
Lemma erases_validate_projections problem bools ints intervals ids n limits :
  erases eq (validate_projections problem bools ints intervals ids n limits)
    (validate_projections problem bools ints intervals ids n limits).
Proof. unfold validate_projections, validate_projection, validate_projection_expression. erase. Qed.
Lemma erases_walk_chain fuel records completed limit path current :
  erases eq (walk_chain fuel records completed limit path current)
    (walk_chain fuel records completed limit path current).
Proof.
  revert path current. induction fuel as [|fuel IH]; intros path [id|]; cbn [walk_chain];
    unfold check_cycle; erase.
Qed.
Lemma erases_use_ancestors fuel records used pending :
  erases eq (use_ancestors fuel records used pending) (use_ancestors fuel records used pending).
Proof.
  revert used pending. induction fuel as [|fuel IH]; intros used [|id pending]; cbn [use_ancestors]; erase.
Qed.
#[export] Hint Resolve erases_walk_chain erases_use_ancestors : erasure.
Lemma erases_validate_provenance problem limits :
  erases eq (validate_provenance problem limits) (validate_provenance problem limits).
Proof.
  unfold validate_provenance. apply erases_bind_eq; [auto with erasure|]. intros n.
  apply erases_bind_any; [apply erases_prep, erases_open_guard|]. intros.
  unfold validate_provenance_record, validate_record_fields, check_parameter, validate_provenance_chain, unwind_chain, unwind_step,
    validate_provenance_coverage, use_ids, use_level. erase.
Qed.
#[export] Hint Resolve erases_validate_variables erases_validate_constraints
  erases_validate_objectives erases_validate_assumptions erases_validate_projections
  erases_validate_provenance : erasure.
Lemma erases_validate_core problem limits :
  erases eq (validate_core problem limits) (validate_core problem limits).
Proof.
  unfold validate_core, validate_root, validate_root_order, validate_metadata. erase.
Qed.

Section entry_points.
Context (blake3_hex : list Z → string).

Lemma bprep_Ok {A} (m : Prep A) b a b' : bprep m b = (Ok a, b') ↔ m b = (Ok a, b').
Proof. unfold bprep. destruct (m b) as [[]]; cbn; naive_solver. Qed.
Lemma or_drop_Ok {A} n (m : SE PlanningPreparationBudget BudgetedValidationError A) b a b' :
  or_drop n m b = (Ok a, b') ↔ m b = (Ok a, b').
Proof. unfold or_drop. destruct (m b) as [[]]; naive_solver. Qed.
Lemma with_context_Ok {A} (m : VM A) b a b' :
  with_context m b = (Ok a, b') → ∃ s, m (Some b) = (Ok a, s).
Proof. unfold with_context. destruct (m (Some b)) as [r []]; intros [= -> _]; eauto. Qed.

Lemma validate_with_budget_Ok problem limits b manifest a b' :
  validate_with_budget blake3_hex problem limits b = (Ok (manifest, a), b') →
  ∃ refs total_refs, validate_core problem limits None = (Ok (refs, total_refs), None) ∧
    manifest = feature_usage problem ∧ bca_analysis a = analyze_components blake3_hex problem ∧
    validate_features_and_components_with_analysis problem total_refs limits manifest (bca_analysis a)
    = Ok tt.
Proof.
  unfold validate_with_budget.
  intros (? & b1 & _ & (? & b2 & _ & (scratch & b3 & _ & (r & b4 & _ & Hrest)%se_bind_Ok)%se_bind_Ok)%se_bind_Ok)%se_bind_Ok.
  apply se_bind_Ok in Hrest as ([refs total_refs] & b5 & Hcore & Hrest).
  apply or_drop_Ok, with_context_Ok in Hcore as [s Hcore].
  destruct (erases_validate_core problem limits _ _ _ Hcore) as (_ & ? & Hcore' & <-).
  apply se_bind_Ok in Hrest as (? & b6 & _ & Hrest).
  apply se_bind_Ok in Hrest as (m & b7 & Hm%bprep_Ok%budgeted_usage_erases & Hrest).
  apply se_bind_Ok in Hrest as (a' & b8 & Ha%bprep_Ok%budgeted_analysis_erases & Hrest).
  apply se_bind_Ok in Hrest as (? & b9 & Hf%or_drop_Ok & Hret).
  apply se_bind_Ok in Hf as ([] & b10 & Hf & _). unfold binvalid in Hf.
  apply se_lift_Ok in Hf as [Hf%map_err_Ok _]. apply se_ret_Ok in Hret as [[= -> ->] _]. eauto 8.
Qed.
End entry_points.

(** ** Uncontrolled validation never meets a preparation failure *)
(** Without a budget [m] keeps the context empty and fails, if at all, with an error [ok]. *)
Definition quiet {E A} (ok : E → Prop) (m : SE Ctx E A) : Prop :=
  (m None).2 = None ∧ ∀ e, (m None).1 = Err e → ok e.
Definition is_invalid (e : BudgetedValidationError) : Prop := ∃ v, e = Invalid v.

Section quiet.
Context {E : Type} (ok : E → Prop).
Lemma quiet_ret {A} (a : A) : quiet ok (mret a).
Proof. by split. Qed.
Lemma quiet_bind {A B} (m : SE Ctx E A) (k : A → SE Ctx E B) :
  quiet ok m → (∀ a, quiet ok (k a)) → quiet ok (m ≫= k).
Proof.
  intros [Hs He] Hk. unfold quiet, mbind, SE_bind. destruct (m None) as [[a|e] s]; cbn in *; subst.
  - apply Hk.
  - split; [done|]. intros ? [= <-]. auto.
Qed.
Lemma quiet_runs {A} (P : A → Prop) (m : SE Ctx E A) : runs P m → quiet ok m.
Proof. intros (a & Hm & _). unfold quiet. by rewrite Hm. Qed.
Lemma quiet_for_each {A} (f : A → SE Ctx E unit) l : (∀ x, quiet ok (f x)) → quiet ok (for_each f l).
Proof. intros Hf. induction l; cbn; [apply quiet_ret|]. by apply quiet_bind. Qed.
Lemma quiet_for_each_from {A} (f : nat → A → SE Ctx E unit) l i :
  (∀ i x, quiet ok (f i x)) → quiet ok (for_each_from i f l).
Proof. intros Hf. revert i. induction l; intros i; cbn; [apply quiet_ret|]. by apply quiet_bind. Qed.
Lemma quiet_fold_m {A B} (f : B → A → SE Ctx E B) l b :
  (∀ b x, quiet ok (f b x)) → quiet ok (fold_m f b l).
Proof. intros Hf. revert b. induction l; intros b; cbn; [apply quiet_ret|]. by apply quiet_bind. Qed.
Lemma quiet_fold_m_from {A B} (f : nat → B → A → SE Ctx E B) l i b :
  (∀ i b x, quiet ok (f i b x)) → quiet ok (fold_m_from i f b l).
Proof. intros Hf. revert i b. induction l; intros i b; cbn; [apply quiet_ret|]. by apply quiet_bind. Qed.
Lemma quiet_guarded {A} g (m : SE Ctx E A) : quiet ok m → quiet ok (guarded g m).
Proof.
  intros [Hs He]. unfold guarded. apply quiet_bind.
  - unfold quiet, on_err. destruct (m None) as [[a|e] s]; cbn in *; subst; [done|].
    split; [by destruct g|]. intros ? [= <-]. auto.
  - intros a. apply quiet_bind; [|intros; apply quiet_ret]. split; [by destruct g|done].
Qed.
End quiet.
Lemma quiet_context_visit : quiet is_invalid context_visit.
Proof. by split. Qed.
Lemma quiet_context_charge n : quiet is_invalid (context_charge n).
Proof. by split. Qed.
Lemma quiet_is_budgeted : quiet is_invalid is_budgeted.
Proof. by split. Qed.
Lemma quiet_open_guard m : quiet is_invalid (prep (open_guard m)).
Proof. by split. Qed.
Lemma quiet_invalid {A} (r : VR A) : quiet is_invalid (invalid r).
Proof. split; [done|]. intros e. cbn. destruct r; intros [= <-]. by eexists. Qed.
#[export] Hint Resolve quiet_ret quiet_context_visit quiet_context_charge quiet_is_budgeted
  quiet_open_guard quiet_invalid : erasure.
Ltac hush :=
  repeat first
  [ progress intros
  | solve [auto with erasure]
  | apply quiet_fold_m | apply quiet_fold_m_from | apply quiet_for_each | apply quiet_for_each_from
  | apply quiet_guarded | apply quiet_bind
  | match goal with
    | |- quiet _ (match ?x with _ => _ end) => destruct x
    | |- quiet _ ((let '_ := ?x in _) _) => destruct x
    end ].

Lemma quiet_strict_by {T K} `{Ord K} (key : T → K) values p :
  quiet is_invalid (strict_by_with_context key values p).
Proof. unfold strict_by_with_context. hush. Qed.
Lemma quiet_strict {T} `{Ord T} (values : list T) p : quiet is_invalid (strict_with_context values p).
Proof. apply quiet_strict_by. Qed.
Lemma quiet_row_ordering cells : quiet is_invalid (row_ordering cells).
Proof. induction cells as [|[]]; cbn [row_ordering]; hush. Qed.
Lemma quiet_expression_bounds e ints limits p : quiet is_invalid (expression_bounds e ints limits p).
Proof. unfold expression_bounds, expression_bounds_term. hush; apply quiet_strict_by. Qed.
#[export] Hint Resolve quiet_strict_by quiet_strict quiet_row_ordering quiet_expression_bounds : erasure.
Lemma quiet_validate_constraint c bools ints intervals limits p :
  quiet is_invalid (validate_constraint c bools ints intervals limits p).
Proof.
  unfold validate_constraint, validate_literals, validate_comparison, validate_integer_aggregate,
    validate_cumulative, validate_demand, validate_table, require_ints,
    strict_table_rows_with_context, count_cells. hush.
Qed.
Lemma quiet_scan_durations r ds e rep : quiet is_invalid (scan_durations r ds e rep).
Proof. revert rep. induction ds; intros rep; cbn [scan_durations]; hush. Qed.
#[export] Hint Resolve quiet_validate_constraint quiet_scan_durations : erasure.
Lemma quiet_scan_starts ss ds e rep : quiet is_invalid (scan_starts ss ds e rep).
Proof. revert rep. induction ss; intros rep; cbn [scan_starts]; hush. Qed.
Lemma quiet_walk_chain fuel records completed limit path current :
  quiet is_invalid (walk_chain fuel records completed limit path current).
Proof.
  revert path current. induction fuel as [|fuel IH]; intros path [id|]; cbn [walk_chain];
    unfold check_cycle; hush.
Qed.
Lemma quiet_use_ancestors fuel records used pending :
  quiet is_invalid (use_ancestors fuel records used pending).
Proof.
  revert used pending. induction fuel as [|fuel IH]; intros used [|id pending]; cbn [use_ancestors]; hush.
Qed.
#[export] Hint Resolve quiet_scan_starts quiet_walk_chain quiet_use_ancestors : erasure.
Lemma quiet_validate_core problem limits : quiet is_invalid (validate_core problem limits).
Proof.
  unfold validate_core, validate_root, validate_root_order, validate_metadata, validate_variables,
    scan_variable, validate_domain, validate_interval_variables, enumerate_each,
    validate_interval_variable, validate_interval_equation, validate_constraints,
    validate_constraint_record, validate_objectives, validate_level, validate_term,
    validate_assumptions, validate_assumption, validate_projections, validate_projection,
    validate_projection_expression, validate_provenance, validate_provenance_record,
    validate_record_fields, check_parameter, validate_provenance_chain, unwind_chain, unwind_step, validate_provenance_coverage,
    use_ids, use_level. hush.
Qed.

(** The [unreachable!] of [validate] is unreachable: an uncontrolled validation ends with
    success or with a validation error, for every problem and every limits. *)
Theorem uncontrolled_validation_total blake3_hex problem limits :
  validate_outcome blake3_hex problem limits = Some (validate blake3_hex problem limits).
Proof.
  unfold validate, validate_outcome. destruct (quiet_validate_core problem limits) as [_ He].
  destruct (validate_core problem limits None) as [[[refs n]|e] s]; cbn in *; [done|].
  by destruct (He e eq_refl) as [v ->].
Qed.
