(* ===== verification/Rejection.v ===== *)
(** * Budgeted validation refuses only what uncontrolled validation refuses

    The other half of the agreement of [ValidationAgreement]: when a budgeted run of [validation.rs]
    ends with a validation error, as opposed to an exhausted or interrupted budget, the uncontrolled
    run of the same problem ends with a validation error too.  The first error reported may differ in
    one place only: tables, whose checks the budgeted path reorders. *)
From stdpp Require Import base tactics list gmap strings.
From Stdlib Require Import ZArith Lia.
From S2P Require Import Prelude Ordering Control Budget Ids DomainIr Model Analysis Erasure.
From S2P Require Import Validation ValidationAgreement.
Open Scope Z_scope.

Definition refuses {A1 A2} (m : VM A1) (m' : VM A2) : Prop :=
  ∀ b e s, m (Some b) = (Err (Invalid e), s) → ∃ e' s', m' None = (Err e', s').
(** The budgeted run [m] and the uncontrolled run [m'] accept and refuse alike. *)
Definition mirrors {A} (m m' : VM A) : Prop := erases eq m m' ∧ refuses m m'.

Section rules.
Implicit Types (A B : Type).
Lemma se_bind_Err {S E A B} (m : SE S E A) (k : A → SE S E B) s e s' :
  (m ≫= k) s = (Err e, s') ↔
  m s = (Err e, s') ∨ ∃ a s1, m s = (Ok a, s1) ∧ k a s1 = (Err e, s').
Proof.
  unfold mbind, SE_bind. destruct (m s) as [[a|e1] s1]; naive_solver.
Qed.
Lemma refuses_bind {A1 A2 B1 B2} (R : A1 → A2 → Prop) (m : VM A1) (m' : VM A2)
    (k : A1 → VM B1) (k' : A2 → VM B2) :
  erases R m m' → refuses m m' → (∀ a a', R a a' → refuses (k a) (k' a')) →
  refuses (m ≫= k) (m' ≫= k').
Proof.
  intros He Hm Hk b e s [H|(a & s1 & Ha & H)]%se_bind_Err.
  - destruct (Hm b e s H) as (e' & s' & H'). exists e', s'. apply se_bind_Err. by left.
  - destruct (He b a s1 Ha) as ([b1 ->] & a' & Ha' & HR).
    destruct (Hk a a' HR b1 e s H) as (e' & s' & H'). exists e', s'. apply se_bind_Err. right. eauto.
Qed.
Lemma mirrors_bind {A B} (m m' : VM A) (k k' : A → VM B) :
  mirrors m m' → (∀ a, mirrors (k a) (k' a)) → mirrors (m ≫= k) (m' ≫= k').
Proof.
  intros [He Hr] Hk. split.
  - apply erases_bind_eq; [done|]. intros a. apply Hk.
  - apply (refuses_bind eq); [done..|]. intros a ? <-. apply Hk.
Qed.
(** A step without validation errors. *)
Lemma refuses_prep {A1 A2} (m : AM A1) (m' : VM A2) : refuses (prep m) m'.
Proof. intros b e s. unfold prep. by destruct (m (Some b)) as [[]]. Qed.
Lemma mirrors_open_guard {B} n (k k' : Guard → VM B) :
  (∀ g g', mirrors (k g) (k' g')) → mirrors (prep (open_guard n) ≫= k) (prep (open_guard n) ≫= k').
Proof.
  intros Hk. split.
  - apply erases_bind_any; [apply erases_prep, erases_open_guard|]. intros. apply Hk.
  - apply (refuses_bind anything); [apply erases_prep, erases_open_guard|apply refuses_prep|].
    intros. apply Hk.
Qed.
Lemma mirrors_ret {A} (a : A) : mirrors (mret a) (mret a).
Proof. split; [by apply erases_ret|]. by intros b e s [=]. Qed.
Lemma mirrors_invalid {A} (r : VR A) : mirrors (invalid r) (invalid r).
Proof. split; [apply erases_invalid|]. intros b e s [= Hr <-]. unfold invalid, se_lift. rewrite Hr. eauto. Qed.
Lemma mirrors_context_visit : mirrors context_visit context_visit.
Proof. split; [apply erases_context_visit|apply refuses_prep]. Qed.
Lemma mirrors_context_charge n : mirrors (context_charge n) (context_charge n).
Proof. split; [apply erases_context_charge|apply refuses_prep]. Qed.
Lemma mirrors_guarded {A} g g' (m m' : VM A) : mirrors m m' → mirrors (guarded g m) (guarded g' m').
Proof.
  intros [He Hr]. split; [by apply erases_guarded|]. intros b e s [H|(a & s1 & _ & H)]%se_bind_Err.
  - unfold on_err in H. destruct (m (Some b)) as [[a|e1] s1] eqn:Hm; [done|]. injection H as -> _.
    destruct (Hr _ _ _ Hm) as (e' & s' & H'). unfold guarded, on_err, mbind, SE_bind. rewrite H'. eauto.
  - unfold retire_guard, mbind, SE_bind in H. by destruct g, s1.
Qed.
Lemma mirrors_for_each {A} (f f' : A → VM unit) l :
  (∀ x, mirrors (f x) (f' x)) → mirrors (for_each f l) (for_each f' l).
Proof. intros Hf. induction l; cbn; [apply mirrors_ret|]. by apply mirrors_bind. Qed.
Lemma mirrors_for_each_from {A} (f f' : nat → A → VM unit) l i :
  (∀ i x, mirrors (f i x) (f' i x)) → mirrors (for_each_from i f l) (for_each_from i f' l).
Proof. intros Hf. revert i. induction l; intros i; cbn; [apply mirrors_ret|]. by apply mirrors_bind. Qed.
Lemma mirrors_fold_m {A B} (f f' : B → A → VM B) l b :
  (∀ b x, mirrors (f b x) (f' b x)) → mirrors (fold_m f b l) (fold_m f' b l).
Proof. intros Hf. revert b. induction l; intros b; cbn; [apply mirrors_ret|]. by apply mirrors_bind. Qed.
Lemma mirrors_fold_m_from {A B} (f f' : nat → B → A → VM B) l i b :
  (∀ i b x, mirrors (f i b x) (f' i b x)) → mirrors (fold_m_from i f b l) (fold_m_from i f' b l).
Proof. intros Hf. revert i b. induction l; intros i b; cbn; [apply mirrors_ret|]. by apply mirrors_bind. Qed.
End rules.
#[export] Hint Resolve mirrors_ret mirrors_invalid mirrors_context_visit mirrors_context_charge : erasure.
Ltac mirror :=
  repeat first
  [ progress intros
  | solve [auto with erasure]
  | apply mirrors_fold_m | apply mirrors_fold_m_from | apply mirrors_for_each | apply mirrors_for_each_from
  | apply mirrors_guarded | apply mirrors_open_guard | apply mirrors_bind
  | match goal with
    | |- mirrors (match ?x with _ => _ end) (match ?x with _ => _ end) => destruct x
    | |- mirrors ((let '_ := ?x in _) _) _ => destruct x
    end ].

(** ** Tables *)
(** [m] never ends with a validation error, in whatever context, and its results satisfy [P]. *)
Definition spares {A} (P : A → Prop) (m : VM A) : Prop :=
  ensures P m ∧ ∀ s e s', m s ≠ (Err (Invalid e), s').
Lemma spares_ret {A} (P : A → Prop) a : P a → spares P (mret a).
Proof. intros Ha. split; [by apply ensures_ret|]. by intros s e s' [=]. Qed.
Lemma spares_bind {A B} (P : A → Prop) (Q : B → Prop) (m : VM A) k :
  spares P m → (∀ a, P a → spares Q (k a)) → spares Q (m ≫= k).
Proof.
  intros [Hp Hm] Hk. split; [eapply ensures_bind; [done|]; intros a Ha; by apply Hk|].
  intros s e s' [H|(a & s1 & Ha & H)]%se_bind_Err; [by eapply Hm|].
  by eapply (Hk a (Hp _ _ _ Ha)).
Qed.
Lemma spares_visit {B} (Q : B → Prop) k : spares Q (k tt) → spares Q (context_visit ≫= k).
Proof.
  intros Hk. apply (spares_bind (λ _, True)); [|by intros []]. split; [done|]. intros s e s'.
  unfold context_visit, prep. by destruct (visit s) as [[]].
Qed.
Lemma spares_invalid {A} (P : A → Prop) (r : VR A) a : r = Ok a → P a → spares P (invalid r).
Proof. intros -> Ha. by apply spares_ret. Qed.
Lemma spares_for_each {A} (f : A → VM unit) l :
  Forall (λ x, spares (λ _, True) (f x)) l → spares (λ _, True) (for_each f l).
Proof. induction 1; cbn; [by apply spares_ret|]. eapply spares_bind; [done|]. by intros. Qed.

Lemma spares_require_ints ids ints p :
  Forall (λ id, is_Some (ints !! id)) ids → spares (λ _, True) (require_ints ids ints p).
Proof.
  intros Hall. apply spares_for_each. eapply Forall_impl; [exact Hall|]. intros id [d Hd].
  apply spares_visit. eapply (spares_bind (λ _, True)); [by eapply spares_invalid; [apply require_int_Ok|]|].
  intros. by apply spares_ret.
Qed.
Lemma spares_count_cells arity p rows cells :
  0 ≤ cells → is_u64 arity → Forall (λ row, len row = arity) rows → is_u64 (cells + len rows * arity) →
  spares (λ c, c = cells + len rows * arity) (fold_m (count_cells arity p) cells rows).
Proof.
  intros Hc Ha Hrows. revert cells Hc. induction Hrows as [|row rows Hrow _ IH]; intros cells Hc Hu.
  { apply spares_ret. unfold len. cbn. lia. }
  assert (len (row :: rows) = len rows + 1) as Hlen by (unfold len; cbn; lia). rewrite Hlen in *.
  assert (0 ≤ len rows * arity) by (unfold len, is_u64 in *; nia).
  cbn [fold_m]. eapply (spares_bind (λ c, c = cells + arity)).
  - unfold count_cells. apply spares_visit. rewrite Hrow, Z.eqb_refl. cbn [negb].
    eapply (spares_bind (λ n, n = arity)); [eapply spares_invalid; [by apply count_Ok|done]|]. intros ? ->.
    eapply spares_invalid; [|done]. apply ok_or_Ok, checked_u64_Some. split; [done|].
    unfold is_u64 in *. lia.
  - intros ? ->. replace (cells + (len rows + 1) * arity) with (cells + arity + len rows * arity) in * by lia.
    apply IH; [unfold is_u64 in Ha; lia|done].
Qed.
Lemma spares_row_ordering (a b : list Z) :
  length a = length b → spares (λ o, default Eq o = cmp a b) (row_ordering (zip a b)).
Proof.
  intros Hlen. split; [by apply row_ordering_cmp|]. generalize (zip a b) as cells.
  induction cells as [|[x y] cells IH]; intros s e s'; [done|]. cbn [row_ordering].
  apply (spares_visit (λ _, True)). destruct (negb (x =? y)); [by apply spares_ret|]. by split.
Qed.
Lemma spares_strict_table_rows rows p arity :
  Forall (λ row, len row = arity) rows → strictly_sorted rows = true →
  spares (λ _, True) (strict_table_rows_with_context rows p).
Proof.
  intros Har Hs. unfold strict_table_rows_with_context. apply spares_for_each.
  apply strictly_sorted_by_windows in Hs. rewrite Forall_forall in Hs. rewrite Forall_forall in Har. apply Forall_forall. intros [a b] Hin.
  specialize (Hs (a, b) Hin). cbn in Hs. unfold windows2 in Hin.
  apply elem_of_zip_l in Hin as Ha. apply elem_of_zip_r in Hin as Hb.
  assert (len a = len b) as Heq.
  { rewrite (Har a Ha), (Har b); [done|]. destruct rows; [by apply not_elem_of_nil in Hb|by right]. }
  apply spares_visit. eapply spares_bind; [apply spares_row_ordering; unfold len in Heq; lia|].
  intros o Ho. rewrite Heq, Z.compare_refl, Ho. unfold ltb, id in Hs.
  destruct (cmp a b); [done|by apply spares_ret|done].
Qed.
Lemma spares_table_controlled variables rows ints limits p :
  is_u64 (len variables) → table_ok variables rows ints limits →
  spares (λ _, True) (table_controlled variables rows ints limits p).
Proof.
  intros Ha (Hv & Hrows & Hs & Hc & Hm). unfold table_controlled.
  eapply spares_bind; [by apply spares_require_ints|]. intros ? _.
  eapply spares_bind; [by apply (spares_count_cells (len variables))|]. intros ? ->.
  destruct (Z.ltb_spec (max_table_cells limits) (0 + len rows * len variables)); [lia|].
  by apply (spares_strict_table_rows _ _ (len variables)).
Qed.
Lemma table_uncontrolled_ensures variables rows ints limits p :
  ensures (λ _, table_ok variables rows ints limits) (table_uncontrolled variables rows ints limits p).
Proof.
  unfold table_uncontrolled. eapply ensures_bind; [apply strict_ensures|]. intros ? Hs.
  eapply ensures_bind; [apply require_ints_ensures|]. intros ? Hv.
  apply ensures_if; intros Hex; [apply ensures_verr|].
  eapply ensures_bind; [apply ensures_invalid; intros n Hn; exact (proj1 (count_Ok _ _) Hn)|]. intros n [-> Hn].
  eapply ensures_bind; [apply ensures_invalid; intros k Hk; exact (proj1 (count_Ok _ _) Hk)|]. intros k [-> Hk].
  eapply ensures_bind; [apply ensures_invalid; intros c Hc; apply ok_or_Ok in Hc; exact (proj1 (checked_u64_Some _ _) Hc)|].
  intros c [-> Hc]. apply ensures_if; intros Hm; [apply ensures_verr|]. apply Z.ltb_ge in Hm.
  apply ensures_ret. split; [done|]. split; [|done]. apply Forall_forall. intros row Hrow.
  destruct (Z.eqb_spec (len row) (len variables)) as [|Hne]; [done|].
  exfalso. apply Bool.not_true_iff_false in Hex. apply Hex, existsb_exists. exists row.
  split; [by apply list_elem_of_In|]. by apply negb_true_iff, Z.eqb_neq.
Qed.
Lemma mirrors_table variables rows ints limits p :
  is_u64 (len rows) → is_u64 (len variables) →
  mirrors (table_controlled variables rows ints limits p) (table_uncontrolled variables rows ints limits p).
Proof.
  intros Hr Ha. split; [by apply erases_table|]. intros b e s Hm.
  destruct (table_uncontrolled variables rows ints limits p None) as [[u|e'] s'] eqn:Hu; [|eauto].
  apply table_uncontrolled_ensures in Hu.
  by eapply (spares_table_controlled _ _ _ _ _ Ha Hu) in Hm.
Qed.
Lemma mirrors_check_limit {B} v m p (k k' : unit → VM B) :
  (is_u64 v → mirrors (k tt) (k' tt)) →
  mirrors (invalid (check_limit v m p) ≫= k) (invalid (check_limit v m p) ≫= k').
Proof.
  destruct (check_limit v m p) as [[]|e] eqn:Hv; intros Hk.
  - apply Hk. by apply check_limit_Ok in Hv as [].
  - split; [by intros b a s [=]|]. intros b ? s ?. by exists (Invalid e), None.
Qed.
Lemma mirrors_validate_table variables rows ints limits p :
  mirrors (validate_table variables rows ints limits p) (validate_table variables rows ints limits p).
Proof.
  unfold validate_table. apply mirrors_check_limit. intros Ha. apply mirrors_check_limit. intros Hr.
  set (tail := for_each _ rows). assert (mirrors tail tail) as Ht by (subst tail; mirror).
  destruct (mirrors_bind _ _ (λ _, tail) (λ _, tail)
    (mirrors_table variables rows ints limits p Hr Ha) (λ _, Ht)) as [He Hf].
  split; [exact He|exact Hf].
Qed.
#[export] Hint Resolve mirrors_validate_table : erasure.

(** ** The whole traversal *)
Lemma mirrors_strict_by {T K} `{Ord K} (key : T → K) values p :
  mirrors (strict_by_with_context key values p) (strict_by_with_context key values p).
Proof. unfold strict_by_with_context. mirror. Qed.
Lemma mirrors_strict {T} `{Ord T} (values : list T) p :
  mirrors (strict_with_context values p) (strict_with_context values p).
Proof. apply mirrors_strict_by. Qed.
Lemma mirrors_require_ints ids ints p : mirrors (require_ints ids ints p) (require_ints ids ints p).
Proof. unfold require_ints. mirror. Qed.
#[export] Hint Resolve mirrors_strict_by mirrors_strict mirrors_require_ints : erasure.
Lemma mirrors_expression_bounds e ints limits p :
  mirrors (expression_bounds e ints limits p) (expression_bounds e ints limits p).
Proof. unfold expression_bounds, expression_bounds_term. mirror. Qed.
#[export] Hint Resolve mirrors_expression_bounds : erasure.
Lemma mirrors_validate_constraint c bools ints intervals limits p :
  mirrors (validate_constraint c bools ints intervals limits p)
    (validate_constraint c bools ints intervals limits p).
Proof.
  unfold validate_constraint, validate_literals, validate_comparison, validate_integer_aggregate,
    validate_cumulative, validate_demand. mirror.
Qed.
Lemma mirrors_scan_durations r ds e rep : mirrors (scan_durations r ds e rep) (scan_durations r ds e rep).
Proof. revert rep. induction ds; intros rep; cbn [scan_durations]; mirror. Qed.
#[export] Hint Resolve mirrors_validate_constraint mirrors_scan_durations : erasure.
Lemma mirrors_scan_starts ss ds e rep : mirrors (scan_starts ss ds e rep) (scan_starts ss ds e rep).
Proof. revert rep. induction ss; intros rep; cbn [scan_starts]; mirror. Qed.
Lemma mirrors_walk_chain fuel records completed limit path current :
  mirrors (walk_chain fuel records completed limit path current)
    (walk_chain fuel records completed limit path current).
Proof.
  revert path current. induction fuel as [|fuel IH]; intros path [id|]; cbn [walk_chain];
    unfold check_cycle; mirror.
Qed.
Lemma mirrors_use_ancestors fuel records used pending :
  mirrors (use_ancestors fuel records used pending) (use_ancestors fuel records used pending).
Proof.
  revert used pending. induction fuel as [|fuel IH]; intros used [|id pending]; cbn [use_ancestors]; mirror.
Qed.
#[export] Hint Resolve mirrors_scan_starts mirrors_walk_chain mirrors_use_ancestors : erasure.
Lemma mirrors_validate_core problem limits :
  mirrors (validate_core problem limits) (validate_core problem limits).
Proof.
  unfold validate_core, validate_root, validate_root_order, validate_metadata, validate_variables,
    scan_variable, validate_domain, validate_interval_variables, enumerate_each,
    validate_interval_variable, validate_interval_equation, validate_constraints,
    validate_constraint_record, validate_objectives, validate_level, validate_term,
    validate_assumptions, validate_assumption, validate_projections, validate_projection,
    validate_projection_expression, validate_provenance, validate_provenance_record,
    validate_record_fields, check_parameter, validate_provenance_chain, unwind_chain, unwind_step,
    validate_provenance_coverage, use_ids, use_level. mirror.
Qed.

Section entry_points.
Context (blake3_hex : list Z → string).

Lemma bprep_Err {A} (m : Prep A) b e b' : bprep m b ≠ (Err (Invalid e), b').
Proof. unfold bprep. by destruct (m b) as [[]]. Qed.
Lemma or_drop_Err {A} n (m : SE PlanningPreparationBudget BudgetedValidationError A) b e b' :
  or_drop n m b = (Err e, b') → ∃ b'', m b = (Err e, b'').
Proof. unfold or_drop. destruct (m b) as [[]]; naive_solver. Qed.
Lemma with_context_Err {A} (m : VM A) b e b' :
  with_context m b = (Err e, b') → ∃ s, m (Some b) = (Err e, s).
Proof. unfold with_context. destruct (m (Some b)) as [r []]; intros [= -> _]; eauto. Qed.
Lemma binvalid_Err {A} (r : VR A) b e b' : binvalid r b = (Err (Invalid e), b') → r = Err e.
Proof. unfold binvalid, se_lift. destruct r; cbn; congruence. Qed.

Lemma validate_core_Err problem limits e s :
  validate_core problem limits None = (Err e, s) → ∃ v, validate blake3_hex problem limits = Err v.
Proof.
  intros H. destruct (quiet_validate_core problem limits) as [_ He].
  destruct (He e) as [v ->]; [by rewrite H|]. exists v. unfold validate, validate_outcome. by rewrite H.
Qed.
Lemma validate_root_Err problem limits e :
  validate_root_admission problem limits = Err e → ∃ v, validate blake3_hex problem limits = Err v.
Proof.
  intros H. eapply validate_core_Err. unfold validate_core, validate_root, invalid.
  apply se_bind_Err. left. apply se_bind_Err. right. do 2 eexists. split; [reflexivity|].
  apply se_bind_Err. left. unfold se_lift. by rewrite H.
Qed.
Lemma validate_core_refused problem limits b e s :
  validate_core problem limits (Some b) = (Err (Invalid e), s) →
  ∃ v, validate blake3_hex problem limits = Err v.
Proof. intros (e' & s' & H)%(proj2 (mirrors_validate_core problem limits)). by eapply validate_core_Err. Qed.
Lemma validate_features_Err problem limits b refs total s e :
  validate_core problem limits (Some b) = (Ok (refs, total), s) →
  validate_features_and_components_with_analysis problem total limits (feature_usage problem)
    (analyze_components blake3_hex problem) = Err e →
  validate blake3_hex problem limits = Err e.
Proof.
  intros (_ & ? & Hcore & <-)%erases_validate_core Hf. unfold validate, validate_outcome.
  rewrite Hcore. cbn. by rewrite Hf.
Qed.

Lemma validate_with_budget_refused problem limits b e b' :
  validate_with_budget blake3_hex problem limits b = (Err (Invalid e), b') →
  ∃ v, validate blake3_hex problem limits = Err v.
Proof.
  unfold validate_with_budget.
  intros [[]%bprep_Err|(? & b1 & _ & H)]%se_bind_Err.
  apply se_bind_Err in H as [H%binvalid_Err|(? & b2 & _ & H)]; [by eapply validate_root_Err|].
  apply se_bind_Err in H as [[]%bprep_Err|(? & b3 & _ & H)].
  apply se_bind_Err in H as [[]%bprep_Err|(? & b4 & _ & H)].
  apply se_bind_Err in H as [H|([refs total] & b5 & Hcore & H)].
  { apply or_drop_Err in H as [? [s H]%with_context_Err]. by eapply validate_core_refused. }
  apply or_drop_Ok, with_context_Ok in Hcore as [s Hcore].
  apply se_bind_Err in H as [H|(? & b6 & _ & H)]; [done|].
  apply se_bind_Err in H as [[]%bprep_Err|(m & b7 & ->%bprep_Ok%budgeted_usage_erases & H)].
  apply se_bind_Err in H as [[]%bprep_Err|(a & b8 & Ha%bprep_Ok%budgeted_analysis_erases & H)].
  apply se_bind_Err in H as [H|(? & b9 & _ & H)]; [|done].
  apply or_drop_Err in H as [? H]. apply se_bind_Err in H as [H%binvalid_Err|(? & ? & _ & H)];
    [|by apply bprep_Err in H].
  rewrite Ha in H. exists e. by eapply validate_features_Err.
Qed.

(** C16. Budgeted and uncontrolled validation agree: what the budgeted one accepts, the uncontrolled
    one accepts, with the feature manifest and the component analysis of the uncontrolled entry
    points; what it refuses as invalid, the uncontrolled one refuses; the only other outcome is an
    exhausted or interrupted preparation. *)
Theorem budgeted_validation_agrees problem limits b :
  match (validate_with_budget blake3_hex problem limits b).1 with
  | Ok (manifest, a) =>
      validate blake3_hex problem limits = Ok tt ∧ manifest = feature_usage problem ∧
      bca_analysis a = analyze_components blake3_hex problem
  | Err (Invalid _) => ∃ e, validate blake3_hex problem limits = Err e
  | Err (Preparation _) => True
  end.
Proof.
  destruct (validate_with_budget blake3_hex problem limits b) as [[[manifest a]|[|e]] b'] eqn:H; cbn; try done.
  - apply validate_with_budget_Ok in H as (refs & total_refs & Hcore & -> & Ha & Hf).
    split; [|done]. unfold validate, validate_outcome. rewrite Hcore. cbn. by rewrite <-Ha.
  - by eapply validate_with_budget_refused.
Qed.
End entry_points.
