(* ===== verification/Bounds.v ===== *)
(** * Exactness of the arithmetic checks of validation

    The interval equation [end = start + duration] is decided exactly over the domains of its
    variables, the bounds of a linear expression are the exact extremes of its values and certify
    that its evaluation cannot overflow, and the absolute-difference check certifies the subtraction
    and the absolute value.  Models nothing; proves [Validation] and [Model] correct. *)
From stdpp Require Import base tactics list gmap strings.
From Stdlib Require Import ZArith Lia Sorting.Sorted.
From S2P Require Import Prelude Ordering Control Budget Ids DomainIr Model Analysis Erasure.
From S2P Require Import Validation.
Open Scope Z_scope.

(** A domain the validator has admitted. *)
Definition domain_ok (d : IntDomain) : Prop :=
  canonical_ranges (inclusive_ranges d) ∧ Forall range_i64 (inclusive_ranges d).

Lemma partition_point_cons {A} (p : A → bool) x l :
  partition_point p (x :: l) = if p x then S (partition_point p l) else 0%nat.
Proof. done. Qed.

(** The last range starting no later than [maximum] decides the intersection. *)
Lemma domain_intersects_range_spec d minimum maximum :
  canonical_ranges (inclusive_ranges d) → minimum ≤ maximum →
  domain_intersects_range d minimum maximum = true
  ↔ ∃ v, minimum ≤ v ≤ maximum ∧ contains d v = true.
Proof.
  destruct d as [rs]. intros [Hok Hgap] Hmm. setoid_rewrite contains_member. cbn [inclusive_ranges] in *.
  unfold domain_intersects_range. cbn [inclusive_ranges].
  set (n := partition_point (λ range, start range <=? maximum) rs).
  assert (negb (Nat.eqb n 0) && match last (take n rs) with Some range => minimum <=? end_ range | None => false end
          = match last (take n rs) with Some range => minimum <=? end_ range | None => false end) as ->.
  { destruct n; [done|]. done. }
  subst n. induction rs as [|r rs IH].
  { split; [done|]. intros (v & _ & Hv). inversion Hv. }
  apply Forall_cons_1 in Hok as [Hr Hok]. inversion Hgap as [|? ? Hgap' Hall]; subst.
  specialize (IH Hok Hgap'). rewrite partition_point_cons.
  destruct (Z.leb_spec (start r) maximum) as [Hle|Hgt].
  2:{ cbn. split; [done|]. intros (v & Hv & Hm). rewrite member_cons in Hm. destruct Hm as [Hm|Hm]; [lia|].
      apply List.Exists_exists in Hm as (r' & Hin & Hr'). rewrite List.Forall_forall in Hall.
      specialize (Hall r' Hin). unfold gap, range_ok in *. lia. }
  destruct (take (partition_point (λ range, start range <=? maximum) rs) rs) as [|r' t] eqn:Ht.
  - cbn [take]. rewrite Ht. cbn [last]. cbn [last] in IH. rewrite Z.leb_le. split.
    + intros Hmin. exists (Z.max minimum (start r)). split; [lia|]. apply member_cons. left.
      unfold range_ok in Hr. lia.
    + intros (v & Hv & Hm). apply member_cons in Hm as [Hm|Hm]; [lia|].
      assert (false = true) by (apply IH; eauto). done.
  - cbn [take]. rewrite Ht. change (last (r :: r' :: t)) with (last (r' :: t)).
    rewrite IH. split.
    + intros (v & Hv & Hm). exists v. split; [done|]. apply member_cons. by right.
    + intros (v & Hv & Hm). apply member_cons in Hm as [Hm|Hm]; [|by exists v].
      (* the next range lies within reach as well *)
      destruct rs as [|r0 rs0]; [by destruct (partition_point _ _)|].
      rewrite partition_point_cons in Ht. destruct (Z.leb_spec (start r0) maximum); [|done].
      exists (start r0). apply Forall_cons_1 in Hall as [Hg _]. unfold gap in Hg.
      apply Forall_cons_1 in Hok as [Hr0 _]. unfold range_ok in Hr0.
      split; [lia|]. apply member_cons. left. lia.
Qed.

(** ** The interval equation *)
(** Some start, and some nonnegative duration, whose sum satisfies [P]. *)
Definition some_sum (starts durations : list InclusiveRange) (P : Z → Prop) : Prop :=
  ∃ s d, member starts s ∧ member durations d ∧ 0 ≤ d ∧ P (s + d).
Definition in_domain (d : IntDomain) (v : Z) : Prop := contains d v = true.

Lemma domain_ok_i64 d v : domain_ok d → in_domain d v → is_i64 v.
Proof.
  intros [_ Hall] Hv. apply contains_member, List.Exists_exists in Hv as (x & Hx & Hv).
  rewrite List.Forall_forall in Hall. destruct (Hall x Hx). unfold is_i64 in *. lia.
Qed.

Lemma some_sum_cons_duration s r ds P :
  some_sum s (r :: ds) P ↔ some_sum s [r] P ∨ some_sum s ds P.
Proof.
  unfold some_sum. setoid_rewrite member_cons. split.
  - intros (x & d & Hs & [Hd|Hd] & H); [left|right]; exists x, d; auto.
  - intros [(x & d & Hs & [Hd|Hd] & H)|(x & d & Hs & Hd & H)]; [..|by eauto 8]; [by eauto 8|].
    by apply Exists_nil in Hd.
Qed.
Lemma some_sum_cons_start r ss ds P :
  some_sum (r :: ss) ds P ↔ some_sum [r] ds P ∨ some_sum ss ds P.
Proof.
  unfold some_sum. setoid_rewrite member_cons. split.
  - intros (x & d & [Hs|Hs] & H); [left|right]; exists x, d; auto.
  - intros [(x & d & [Hs|Hs] & H)|(x & d & Hs & H)]; [by eauto 8| |by eauto 8].
    by apply Exists_nil in Hs.
Qed.
Lemma member_one r v : member [r] v ↔ start r ≤ v ≤ end_ r.
Proof. rewrite member_cons. split; [intros [?|H]; [done|by apply Exists_nil in H]|by left]. Qed.
Lemma some_sum_nil_duration ss P : ¬ some_sum ss [] P.
Proof. intros (s & d & _ & Hd & _). by apply Exists_nil in Hd. Qed.
Lemma some_sum_nil_start ds P : ¬ some_sum [] ds P.
Proof. intros (s & d & Hs & _). by apply Exists_nil in Hs. Qed.

(** The sums of two ranges are themselves a range. *)
Lemma some_sum_ranges r d P :
  range_ok r → range_ok d →
  some_sum [r] [d] P ↔ 0 ≤ end_ d ∧ ∃ v, start r + Z.max (start d) 0 ≤ v ≤ end_ r + end_ d ∧ P v.
Proof.
  unfold range_ok. intros Hr Hd. unfold some_sum. setoid_rewrite member_one. split.
  - intros (x & y & Hx & Hy & Hy0 & H). split; [lia|]. exists (x + y). split; [lia|done].
  - intros (Hd0 & v & Hv & H).
    set (y := Z.min (end_ d) (v - start r)). exists (v - y), y.
    replace (v - y + y) with v by lia. repeat split; try done; subst y; lia.
Qed.

Definition scan_spec (ss ds : list InclusiveRange) (e : IntDomain) (rep : bool) (r : bool * bool) : Prop :=
  (r.1 = true ↔ some_sum ss ds (in_domain e)) ∧
  (r.1 = false → r.2 = true ↔ rep = true ∨ some_sum ss ds is_i64).

Lemma scan_spec_seq rep r1 r2 ss1 ss2 ss ds1 ds2 ds e :
  (∀ P, some_sum ss ds P ↔ some_sum ss1 ds1 P ∨ some_sum ss2 ds2 P) →
  scan_spec ss1 ds1 e rep r1 → r1.1 = false → scan_spec ss2 ds2 e r1.2 r2 → scan_spec ss ds e rep r2.
Proof.
  intros Hor [H1 H1'] Hf [H2 H2']. specialize (H1' Hf). rewrite Hf in H1. split.
  - rewrite H2, Hor. naive_solver.
  - intros Hf2. rewrite (H2' Hf2), H1', Hor. tauto.
Qed.
Lemma scan_spec_found ss ds e rep : some_sum ss ds (in_domain e) → scan_spec ss ds e rep (true, true).
Proof. by split. Qed.

(** One step of the inner loop on a single pair of ranges. *)
Lemma scan_pair r d e rep :
  range_ok r → range_i64 r → range_ok d → range_i64 d → domain_ok e →
  runs (scan_spec [r] [d] e rep) (scan_durations r [d] e rep).
Proof.
  intros Hr [Hr1 Hr2] Hd [Hd1 Hd2] He. cbn [scan_durations].
  apply runs_seq; [by exists tt|]. intros _.
  pose proof (some_sum_ranges r d (in_domain e) Hr Hd) as Hin.
  pose proof (some_sum_ranges r d is_i64 Hr Hd) as Hi.
  unfold range_ok in *. unfold is_i64 in *.
  destruct (Z.ltb_spec (end_ d) (Z.max (start d) 0)) as [Hneg|Hnn].
  { apply runs_ret. split; cbn; [rewrite Hin|rewrite Hi]; split; intros; try done; [lia|tauto|].
    destruct H0; [done|lia]. }
  unfold i64_checked_add. destruct (checked_i64 (start r + _)) as [m|] eqn:Hm.
  2:{ apply checked_i64_None in Hm. unfold is_i64 in Hm. apply runs_ret.
      split; cbn; [rewrite Hin|rewrite Hi]; split; intros; try done; [|tauto|].
      - destruct H as (_ & v & Hv & Hve). apply domain_ok_i64 in Hve; [|done]. unfold is_i64 in Hve. lia.
      - destruct H0 as [?|(_ & v & Hv & Hve)]; [done|lia]. }
  apply checked_i64_Some in Hm as [-> Hm]. unfold is_i64 in Hm.
  set (smax := default i64_max (checked_i64 (end_ r + end_ d))).
  assert (smax = Z.min (end_ r + end_ d) i64_max) as Hsmax.
  { subst smax. destruct (checked_i64 (end_ r + end_ d)) eqn:Hc.
    - apply checked_i64_Some in Hc as [-> Hc]. unfold is_i64 in Hc. cbn. lia.
    - apply checked_i64_None in Hc. unfold is_i64 in Hc. cbn. lia. }
  destruct (domain_intersects_range e _ smax) eqn:Hx.
  - apply runs_ret. apply scan_spec_found, Hin. split; [lia|].
    apply domain_intersects_range_spec in Hx as (v & Hv & Hve); [|apply He|lia].
    exists v. split; [lia|done].
  - apply runs_ret. split; cbn.
    + split; [done|]. rewrite Hin. intros (_ & v & Hv & Hve).
      rewrite <-Hx. apply domain_intersects_range_spec; [apply He|lia|]. exists v. split; [|done].
      apply domain_ok_i64 in Hve; [|done]. unfold is_i64 in Hve. lia.
    + intros _. split; [|done]. intros _. right. apply Hi. split; [lia|].
      exists (start r + Z.max (start d) 0). lia.
Qed.

Lemma scan_durations_cons r d ds e rep :
  scan_durations r (d :: ds) e rep None
  = match scan_durations r [d] e rep None with
    | (Ok (true, rep), s) => (Ok (true, rep), s)
    | (Ok (false, rep), s) => scan_durations r ds e rep s
    | (Err e, s) => (Err e, s)
    end.
Proof.
  cbn [scan_durations]. unfold mbind, SE_bind, mret, SE_ret. cbn [context_visit prep visit charge].
  change (context_visit None) with (@Ok BudgetedValidationError _ tt, @None PlanningPreparationBudget).
  cbn beta iota. destruct (_ <? _); [done|]. destruct (i64_checked_add _ _); [|done].
  by destruct (domain_intersects_range _ _ _).
Qed.

Lemma runs_scan_durations r ds e rep :
  range_ok r → range_i64 r → Forall range_ok ds → Forall range_i64 ds → domain_ok e →
  runs (scan_spec [r] ds e rep) (scan_durations r ds e rep).
Proof.
  intros Hr Hr64 Hds Hds64 He. revert rep. induction ds as [|d ds IH]; intros rep.
  { apply runs_ret. split; cbn.
    - split; [done|]. intros H. by apply some_sum_nil_duration in H.
    - intros _. split; [by left|]. intros [?|H]; [done|]. by apply some_sum_nil_duration in H. }
  apply Forall_cons_1 in Hds as [Hd Hds], Hds64 as [Hd64 Hds64].
  destruct (scan_pair r d e rep Hr Hr64 Hd Hd64 He) as ([found rep1] & Hrun & Hspec).
  unfold runs. rewrite scan_durations_cons, Hrun. destruct found.
  - exists (true, rep1). split; [done|]. destruct Hspec as [Hf _]. split; [|done]. cbn. split; [|done].
    intros _. apply some_sum_cons_duration. left. by apply Hf.
  - destruct (IH Hds Hds64 rep1) as (res & Hres & Hs2). exists res. split; [done|].
    eapply scan_spec_seq; [|exact Hspec|done|exact Hs2]. apply some_sum_cons_duration.
Qed.

Lemma runs_scan_starts ss ds e rep :
  Forall range_ok ss → Forall range_i64 ss → Forall range_ok ds → Forall range_i64 ds → domain_ok e →
  runs (scan_spec ss ds e rep) (scan_starts ss ds e rep).
Proof.
  intros Hss Hss64 Hds Hds64 He. revert rep. induction ss as [|r ss IH]; intros rep.
  { apply runs_ret. split; cbn.
    - split; [done|]. intros H. by apply some_sum_nil_start in H.
    - intros _. split; [by left|]. intros [?|H]; [done|]. by apply some_sum_nil_start in H. }
  apply Forall_cons_1 in Hss as [Hr Hss], Hss64 as [Hr64 Hss64]. cbn [scan_starts].
  apply runs_seq; [by exists tt|]. intros _.
  eapply runs_bind; [by apply runs_scan_durations|]. intros [[] rep1] Hspec.
  - apply runs_ret. destruct Hspec as [Hf _]. split; [|done]. cbn. split; [|done].
    intros _. apply some_sum_cons_start. left. by apply Hf.
  - eapply runs_weaken; [|by apply IH]. intros res Hs2.
    eapply scan_spec_seq; [|exact Hspec|done|exact Hs2]. apply some_sum_cons_start.
Qed.

Lemma nonnegative_duration ds :
  Forall range_ok ds → existsb (λ range, 0 <=? end_ range) ds = true ↔ ∃ v, member ds v ∧ 0 ≤ v.
Proof.
  intros Hok. rewrite existsb_exists. setoid_rewrite Z.leb_le. unfold member.
  setoid_rewrite List.Exists_exists. rewrite Forall_forall in Hok. unfold range_ok in Hok. split.
  - intros (r & Hin & Hr). apply list_elem_of_In in Hin as Hin'. specialize (Hok r Hin').
    exists (end_ r). split; [|done]. exists r. split; [done|lia].
  - intros (v & (r & Hin & Hr) & Hv). exists r. split; [done|lia].
Qed.

(** C15. The interval equation [end = start + duration] is decided exactly over admitted domains,
    although only range endpoints are inspected and sums may overflow: the check passes iff some
    start and nonnegative duration sum to a value of the end domain; it reports an arithmetic
    overflow iff there is a nonnegative duration but no such sum is representable, and an invalid
    domain otherwise. *)
Theorem interval_equation_exact s d e index :
  domain_ok s → domain_ok d → domain_ok e →
  let sum P := some_sum (inclusive_ranges s) (inclusive_ranges d) P in
  let outcome := (validate_interval_equation s d e index None).1 in
  let failure c := Err (Invalid {| code := c; path := at_ "variables" index EmptyString |}) in
  (outcome = Ok tt ↔ sum (in_domain e)) ∧
  (outcome = failure CodeArithmeticOverflow ↔
     ¬ sum is_i64 ∧ ∃ v, member (inclusive_ranges d) v ∧ 0 ≤ v) ∧
  (outcome = Ok tt ∨ outcome = failure CodeArithmeticOverflow ∨ outcome = failure CodeInvalidDomain).
Proof.
  intros [[Hs _] Hs64] [[Hd _] Hd64] He sum outcome failure.
  destruct (runs_scan_starts (inclusive_ranges s) (inclusive_ranges d) e false Hs Hs64 Hd Hd64 He)
    as ([found rep] & Hrun & Hf & Hrep).
  assert (sum (in_domain e) → sum is_i64) as Himp.
  { intros (x & y & Hx & Hy & H0 & H). exists x, y. split_and!; [done..|]. by eapply domain_ok_i64. }
  pose proof (nonnegative_duration (inclusive_ranges d) Hd) as Hnn.
  subst outcome. unfold validate_interval_equation, mbind, SE_bind. rewrite Hrun. cbn [fst snd] in *.
  fold (sum (in_domain e)) in Hf. fold (sum is_i64) in Hrep. destruct found; cbn.
  - assert (sum (in_domain e)) by (by apply Hf). split; [done|]. split; [|by left].
    split; [done|]. naive_solver.
  - specialize (Hrep eq_refl). destruct (existsb _ _); cbn; [destruct rep; cbn|].
    all: split; [split; [done|]; intros H; apply Hf in H; done|].
    all: split; [|auto]; split; [done || (intros _; naive_solver)|naive_solver].
Qed.

(** ** Linear expressions *)
(** The domains [validate_variables] has admitted. *)
Definition ints_ok (ints : gmap string IntDomain) : Prop :=
  map_Forall (λ _ d, domain_ok d ∧ inclusive_ranges d ≠ []) ints.
(** An assignment of integers to variables that respects every domain. *)
Definition respects (ints : gmap string IntDomain) (σ : string → Z) : Prop :=
  ∀ id d, ints !! id = Some d → in_domain d (σ id).

(** [lo] and [hi] are attained extremes of the terms, and every partial sum is representable. *)
Record term_bounds (ints : gmap string IntDomain) (constant : Z) (l : list LinearTerm) (lo hi : Z) :
    Prop := {
  tb_declared : Forall (λ t, is_Some (ints !! lt_variable t)) l;
  tb_between σ : respects ints σ → lo ≤ constant + terms_value σ l ≤ hi;
  tb_products σ : respects ints σ → Forall (λ t, is_i64 (term_value σ t)) l;
  tb_prefixes σ k : respects ints σ → is_i64 constant → is_i64 (constant + terms_value σ (take k l));
  tb_attained : NoDup (lt_variable <$> l) → ints_ok ints →
    (∃ σ, respects ints σ ∧ constant + terms_value σ l = lo) ∧
    (∃ σ, respects ints σ ∧ constant + terms_value σ l = hi)
}.

Lemma terms_value_app σ l k : terms_value σ (l ++ k) = terms_value σ l + terms_value σ k.
Proof.
  induction l as [|t l IH]; [done|]. cbn [app]. rewrite !terms_value_cons, IH. lia.
Qed.
Lemma terms_value_ext σ τ l :
  (∀ v, v ∈ lt_variable <$> l → σ v = τ v) → terms_value σ l = terms_value τ l.
Proof.
  induction l as [|t l IH]; intros H; [done|]. rewrite !terms_value_cons. cbn in H. f_equal.
  - unfold term_value. rewrite H; [done|by left].
  - apply IH. intros v Hv. apply H. by right.
Qed.

(** Every admitted set of domains has a respecting assignment. *)
Lemma respects_exists ints : ints_ok ints → ∃ σ, respects ints σ.
Proof.
  intros Hok. exists (λ id, match ints !! id with
                      | Some d => match bounds d with Some (lo, _) => lo | None => 0 end
                      | None => 0
                      end).
  intros id d Hd. rewrite Hd. destruct (Hok id d Hd) as [[Hc Hi] Hne].
  destruct (bounds_spec d Hc Hne) as (lo & hi & -> & Hlo & _). done.
Qed.

Definition update (σ : string → Z) (v : string) (x : Z) : string → Z :=
  λ w, if decide (w = v) then x else σ w.
Lemma respects_update ints σ v x d :
  respects ints σ → ints !! v = Some d → in_domain d x → respects ints (update σ v x).
Proof. intros Hσ Hd Hx w d' Hw. unfold update. case_decide; [subst; congruence|auto]. Qed.
Lemma terms_value_update σ v x l :
  v ∉ lt_variable <$> l → terms_value (update σ v x) l = terms_value σ l.
Proof. intros Hv. apply terms_value_ext. intros w Hw. unfold update. case_decide; [by subst|done]. Qed.

Lemma term_bounds_nil ints c : term_bounds ints c [] c c.
Proof.
  split; try done.
  - intros σ _. cbn. lia.
  - intros σ k _ Hc. rewrite take_nil. cbn. by rewrite Z.add_0_r.
  - intros _ Hok. destruct (respects_exists ints Hok) as [σ Hσ]. cbn.
    split; exists σ; (split; [done|lia]).
Qed.

Lemma scale_between c a b v :
  a ≤ v ≤ b → Z.min (c * a) (c * b) ≤ c * v ≤ Z.max (c * a) (c * b).
Proof.
  intros Hv. destruct (Z.le_gt_cases 0 c).
  - rewrite Z.min_l, Z.max_r by nia. nia.
  - rewrite Z.min_r, Z.max_l by nia. nia.
Qed.

Lemma term_bounds_snoc ints c l lo hi t d a b :
  is_i64 lo → is_i64 hi → term_bounds ints c l lo hi → ints !! lt_variable t = Some d →
  canonical_ranges (inclusive_ranges d) → bounds d = Some (a, b) →
  is_i64 (lt_coefficient t * a) → is_i64 (lt_coefficient t * b) →
  let lo' := lo + Z.min (lt_coefficient t * a) (lt_coefficient t * b) in
  let hi' := hi + Z.max (lt_coefficient t * a) (lt_coefficient t * b) in
  is_i64 lo' → is_i64 hi' → term_bounds ints c (l ++ [t]) lo' hi'.
Proof.
  intros Hlo Hhi [Hdecl Hbet Hprod Hpre Hatt] Hd Hcan Hb Ha64 Hb64 lo' hi' Hlo' Hhi'.
  assert (inclusive_ranges d ≠ []) as Hne by (intros Hnil; unfold bounds in Hb; by rewrite Hnil in Hb).
  destruct (bounds_spec d Hcan Hne) as (a' & b' & Hb' & Hina & Hinb & Hbnd). simplify_eq.
  assert (∀ σ, respects ints σ →
    Z.min (lt_coefficient t * a) (lt_coefficient t * b) ≤ term_value σ t ≤
    Z.max (lt_coefficient t * a) (lt_coefficient t * b)) as Hterm.
  { intros σ Hσ. specialize (Hσ _ _ Hd). apply Hbnd in Hσ. by apply scale_between. }
  assert (∀ σ, terms_value σ (l ++ [t]) = terms_value σ l + term_value σ t) as Hsnoc.
  { intros σ. rewrite terms_value_app, terms_value_cons. cbn. lia. }
  unfold is_i64 in *. split.
  - apply Forall_app. split; [done|]. apply Forall_singleton. eauto.
  - intros σ Hσ. rewrite Hsnoc. specialize (Hbet σ Hσ). specialize (Hterm σ Hσ). subst lo' hi'. lia.
  - intros σ Hσ. apply Forall_app. split; [by apply Hprod|]. apply Forall_singleton.
    specialize (Hterm σ Hσ). unfold is_i64 in *. lia.
  - intros σ k Hσ Hc. destruct (decide (k ≤ length l)%nat) as [Hk|Hk].
    + rewrite take_app_le by done. by apply Hpre.
    + rewrite take_ge by (rewrite length_app; cbn; lia). rewrite Hsnoc.
      specialize (Hbet σ Hσ). specialize (Hterm σ Hσ). unfold is_i64. lia.
  - intros Hnd Hok. rewrite fmap_app in Hnd. apply NoDup_app in Hnd as (Hnd & Hdis & _).
    assert (lt_variable t ∉ lt_variable <$> l) as Hfresh.
    { intros Hin. apply (Hdis _ Hin). by left. }
    destruct (Hatt Hnd Hok) as [(σ1 & Hσ1 & H1) (σ2 & Hσ2 & H2)].
    assert (∀ σ x, term_value (update σ (lt_variable t) x) t = lt_coefficient t * x) as Hup.
    { intros. unfold term_value, update. by rewrite decide_True. }
    split; [set (σ := σ1) in *|set (σ := σ2) in *].
    + exists (update σ (lt_variable t) (if lt_coefficient t * a <=? lt_coefficient t * b then a else b)).
      split; [eapply respects_update; [done..|]; by case_match|].
      rewrite Hsnoc, Hup, terms_value_update by done.
      destruct (Z.leb_spec (lt_coefficient t * a) (lt_coefficient t * b)); lia.
    + exists (update σ (lt_variable t) (if lt_coefficient t * a <=? lt_coefficient t * b then b else a)).
      split; [eapply respects_update; [done..|]; by case_match|].
      rewrite Hsnoc, Hup, terms_value_update by done.
      destruct (Z.leb_spec (lt_coefficient t * a) (lt_coefficient t * b)); lia.
Qed.

Lemma ok_or_code_Ok {A} c p (o : option A) a : ok_or_code c p o = Ok a ↔ o = Some a.
Proof. apply ok_or_Ok. Qed.

Lemma expression_bounds_ensures e ints limits p :
  is_i64 (le_constant e) → ints_ok ints →
  ensures (λ r, is_i64 r.1 ∧ is_i64 r.2 ∧ strictly_sorted_by lt_variable (le_terms e) = true ∧
                Forall (λ t, lt_coefficient t ≠ 0) (le_terms e) ∧
                term_bounds ints (le_constant e) (le_terms e) r.1 r.2)
    (expression_bounds e ints limits p).
Proof.
  intros Hc Hints. unfold expression_bounds.
  eapply ensures_bind; [apply strict_by_ensures|]. intros ? Hs. apply ensures_skip. intros _.
  eapply ensures_weaken.
  - apply (ensures_fold_m (λ l r, is_i64 r.1 ∧ is_i64 r.2 ∧ Forall (λ t, lt_coefficient t ≠ 0) l ∧
             term_bounds ints (le_constant e) l r.1 r.2)).
    { split_and!; [done..|constructor|apply term_bounds_nil]. }
    intros [lo hi] t l (Hlo & Hhi & Hnz & Htb). cbn [fst snd] in *. unfold expression_bounds_term.
    apply ensures_skip. intros _. apply ensures_if; intros Hcoef; [apply ensures_verr|].
    apply orb_false_iff in Hcoef as [Hcoef%Z.eqb_neq _].
    eapply ensures_bind; [apply ensures_invalid; intros d Hd; apply require_int_Ok in Hd; exact Hd|].
    intros d Hd. destruct (Hints _ _ Hd) as [[Hcan _] _].
    eapply ensures_bind; [apply ensures_invalid; intros ab Hab; apply ok_or_code_Ok in Hab; exact Hab|].
    intros [da db] Hab.
    eapply ensures_bind; [apply ensures_invalid; intros x Hx; apply ok_or_code_Ok, checked_i64_Some in Hx; exact Hx|].
    intros x [-> Hx].
    eapply ensures_bind; [apply ensures_invalid; intros y Hy; apply ok_or_code_Ok, checked_i64_Some in Hy; exact Hy|].
    intros y [-> Hy].
    eapply ensures_bind; [apply ensures_invalid; intros y' Hy'; apply ok_or_code_Ok, checked_i64_Some in Hy'; exact Hy'|].
    intros lo' [-> Hlo'].
    eapply ensures_bind; [apply ensures_invalid; intros y' Hy'; apply ok_or_code_Ok, checked_i64_Some in Hy'; exact Hy'|].
    intros hi' [-> Hhi']. apply ensures_ret. cbn [fst snd].
    split_and!; [done|done| |by apply (term_bounds_snoc ints (le_constant e) l lo hi t d da db)].
    apply Forall_app. split; [done|]. by apply Forall_singleton.
  - intros [lo hi] (H1 & H2 & H3 & H4). done.
Qed.

(** C14. The bounds [expression_bounds] computes are the exact minimum and maximum of the expression
    over all assignments that respect the variable domains, and they certify evaluation: every
    product and every partial sum, in the order of the terms, is a representable [i64]. *)
Theorem expression_bounds_exact e ints limits p ctx ctx' lo hi :
  is_i64 (le_constant e) → ints_ok ints →
  expression_bounds e ints limits p ctx = (Ok (lo, hi), ctx') →
  (∀ σ, respects ints σ → lo ≤ expression_value σ e ≤ hi) ∧
  (∃ σ, respects ints σ ∧ expression_value σ e = lo) ∧
  (∃ σ, respects ints σ ∧ expression_value σ e = hi) ∧
  (∀ σ, respects ints σ →
     Forall (λ t, is_i64 (lt_coefficient t * σ (lt_variable t))) (le_terms e) ∧
     ∀ k, is_i64 (le_constant e + terms_value σ (take k (le_terms e)))).
Proof.
  intros Hc Hints Hrun.
  destruct (expression_bounds_ensures e ints limits p Hc Hints _ _ _ Hrun)
    as (_ & _ & Hs & _ & Htb). cbn [fst snd] in Htb.
  destruct (tb_attained _ _ _ _ _ Htb) as [Hlo Hhi]; [by apply strictly_sorted_by_NoDup|done|].
  split_and!; [apply Htb|done|done|]. intros σ Hσ.
  split; [by apply (tb_products _ _ _ _ _ Htb)|]. intros k. by apply (tb_prefixes _ _ _ _ _ Htb).
Qed.

(** ** Absolute differences *)
Lemma prove_abs_bounds_sound l r p :
  domain_ok l → domain_ok r → prove_abs_bounds l r p = Ok tt →
  ∀ x y, in_domain l x → in_domain r y → is_i64 (x - y) ∧ is_i64 (Z.abs (x - y)).
Proof.
  intros [Hl _] [Hr _] Hok x y Hx Hy. unfold prove_abs_bounds in Hok.
  apply result_bind_Ok in Hok as ([la lb] & Hbl%ok_or_code_Ok & Hok).
  apply result_bind_Ok in Hok as ([ra rb] & Hbr%ok_or_code_Ok & Hok).
  apply result_bind_Ok in Hok as (d1 & Hd1%ok_or_code_Ok & Hok).
  apply result_bind_Ok in Hok as (d2 & Hd2%ok_or_code_Ok & _).
  apply bind_Some in Hd1 as (m1 & Hm1%checked_i64_Some & Ha1%checked_i64_Some).
  apply bind_Some in Hd2 as (m2 & Hm2%checked_i64_Some & Ha2%checked_i64_Some).
  assert (∀ d a b v, canonical_ranges (inclusive_ranges d) → bounds d = Some (a, b) → in_domain d v →
            a ≤ v ≤ b) as Hin.
  { intros d a b v Hc Hb Hv. destruct (decide (inclusive_ranges d = [])) as [Hnil|Hne].
    - unfold bounds in Hb. by rewrite Hnil in Hb.
    - destruct (bounds_spec d Hc Hne) as (a' & b' & Hb' & _ & _ & Hall). simplify_eq. auto. }
  pose proof (Hin l la lb x Hl Hbl Hx). pose proof (Hin r ra rb y Hr Hbr Hy).
  destruct Hm1 as [-> ?], Ha1 as [-> ?], Hm2 as [-> ?], Ha2 as [-> ?]. unfold is_i64 in *. lia.
Qed.

(** ** Admissible domains *)
Lemma validate_domain_ensures d limits p :
  Forall range_i64 (inclusive_ranges d) →
  ensures (λ _, domain_ok d ∧ inclusive_ranges d ≠ []) (validate_domain d limits p).
Proof.
  intros Hi. unfold validate_domain. do 2 (apply ensures_skip; intros _).
  eapply ensures_bind; [apply ensures_invalid; intros n Hn; apply map_err_Ok in Hn; exact Hn|].
  intros n Hn. apply ensures_if; intros Heq; [apply ensures_verr|].
  apply negb_false_iff, bool_decide_eq_true in Heq as ->.
  intros s a s' _. destruct (IntDomain_new_spec _ _ Hi Hn) as (Hc & _ & Hne & _). done.
Qed.
