(* ===== verification/Provenance.v ===== *)
(** * Provenance: chains, memoized depths, coverage

    [validate_provenance_chain] of [validation.rs] walks from a record towards its root, stops at a
    record whose depth is already known, and memoizes exact depths while unwinding.  This file
    proves that the whole loop accepts exactly the record lists in which every chain of parents ends
    at a root within the depth limit, and that the coverage check accepts exactly when every record
    is used by the model or is an ancestor of a used one. *)
From stdpp Require Import base tactics list gmap strings relations.
From Stdlib Require Import ZArith Lia.
From S2P Require Import Prelude Ordering Control Budget Ids DomainIr Model Analysis Erasure.
From S2P Require Import Validation ValidationAgreement.
Open Scope Z_scope.

Section chains.
Context (records : list ProvenanceRecord).
Hypothesis records_sorted : strictly_sorted_by pr_id records = true.

(** The chain of parents from [id] visits [n] records and ends at a root. *)
Inductive chain : string → Z → Prop :=
| chain_root r : r ∈ records → pr_parent r = None → chain (pr_id r) 1
| chain_step r parent n :
    r ∈ records → pr_parent r = Some parent → chain parent n → chain (pr_id r) (n + 1).
Definition chain_from (current : option string) (n : Z) : Prop :=
  match current with Some id => chain id n | None => n = 0 end.

Lemma record_unique r r' : r ∈ records → r' ∈ records → pr_id r = pr_id r' → r = r'.
Proof.
  intros [i Hi]%list_elem_of_lookup [j Hj]%list_elem_of_lookup Heq.
  pose proof (strictly_sorted_by_inj pr_id records i j r r' records_sorted Hi Hj Heq) as ->. congruence.
Qed.
Lemma find_record_Some id i :
  find_record records id = Some i ↔ ∃ r, records !! i = Some r ∧ pr_id r = id.
Proof.
  split; [apply binary_search_Some|]. intros (r & Hr & <-). by apply binary_search_lookup.
Qed.
Lemma chain_positive id n : chain id n → 1 ≤ n.
Proof. induction 1; lia. Qed.
Lemma chain_cons r n : r ∈ records → chain_from (pr_parent r) n → chain (pr_id r) (n + 1).
Proof.
  intros Hr Hn. destruct (pr_parent r) as [p|] eqn:Hp; cbn in Hn.
  - by eapply chain_step.
  - subst n. by apply chain_root.
Qed.
Lemma chain_inv id n : chain id n → ∃ r, r ∈ records ∧ pr_id r = id ∧ chain_from (pr_parent r) (n - 1).
Proof.
  inversion 1 as [r Hr Hp|r p m Hr Hp Hc]; subst; exists r; rewrite Hp; (split; [done|]); (split; [done|]).
  - done.
  - cbn. by replace (m + 1 - 1) with m by lia.
Qed.
Lemma chain_functional id n m : chain id n → chain id m → n = m.
Proof.
  intros Hn. revert m. induction Hn as [r Hr Hp|r p n Hr Hp Hn IH]; intros m Hm;
    apply chain_inv in Hm as (r' & Hr' & Heq & Hm);
    rewrite (record_unique r' r Hr' Hr Heq), Hp in Hm; cbn in Hm.
  - lia.
  - apply IH in Hm. lia.
Qed.
Lemma chain_from_functional cur n m : chain_from cur n → chain_from cur m → n = m.
Proof. destruct cur; cbn; [apply chain_functional|lia]. Qed.

(** ** The walk *)
(** The reversed path: every record's parent is the next one walked, the last one's is [current]. *)
Fixpoint linked (rpath : list nat) (current : option string) : Prop :=
  match rpath with
  | [] => True
  | i :: rpath => ∃ r, records !! i = Some r ∧ pr_parent r = current ∧ linked rpath (Some (pr_id r))
  end.
(** The record the walk started from. *)
Fixpoint origin (rpath : list nat) (current : option string) : option string :=
  match rpath with
  | [] => current
  | i :: rpath => origin rpath (pr_id <$> records !! i)
  end.

Lemma linked_chain rpath current n :
  linked rpath current → chain_from current n → chain_from (origin rpath current) (n + len rpath).
Proof.
  revert current n. induction rpath as [|i rpath IH]; intros cur n; cbn [linked origin].
  - intros _ Hn. by replace (n + len []) with n by (unfold len; cbn; lia).
  - intros (r & Hi & Hp & Hl) Hn. rewrite Hi. cbn [fmap option_fmap option_map].
    replace (n + len (i :: rpath)) with (n + 1 + len rpath) by (unfold len; cbn; lia).
    apply IH; [done|]. cbn. rewrite <-Hp in Hn. apply chain_cons; [|done]. by eapply list_elem_of_lookup_2.
Qed.
Lemma linked_chain_inv rpath current n :
  linked rpath current → chain_from (origin rpath current) n → 
  chain_from current (n - len rpath).
Proof.
  revert current n. induction rpath as [|i rpath IH]; intros cur n; cbn [linked origin].
  - intros _ Hn. by replace (n - len []) with n by (unfold len; cbn; lia).
  - intros (r & Hi & Hp & Hl) Hn. rewrite Hi in Hn. cbn in Hn. apply IH in Hn; [|done]. cbn in Hn.
    apply chain_inv in Hn as (r' & Hr' & Heq & Hn).
    rewrite (record_unique r' r Hr') in Hn; [|by eapply list_elem_of_lookup_2|done].
    rewrite Hp in Hn. by replace (n - len (i :: rpath)) with (n - len rpath - 1) by (unfold len; cbn; lia).
Qed.
(** The records on the path have longer chains than what is still to be walked. *)
Lemma linked_longer rpath current n i r :
  linked rpath current → chain_from current n → i ∈ rpath → records !! i = Some r →
  ∃ m, n < m ∧ chain (pr_id r) m.
Proof.
  revert current n. induction rpath as [|j rpath IH]; intros cur n; [by intros _ _ ?%not_elem_of_nil|].
  cbn [linked]. intros (r' & Hj & Hp & Hl) Hn Hi Hr.
  assert (chain (pr_id r') (n + 1)) as Hc.
  { rewrite <-Hp in Hn. apply chain_cons; [|done]. by eapply list_elem_of_lookup_2. }
  apply elem_of_cons in Hi as [->|Hi].
  - exists (n + 1). split; [lia|]. congruence.
  - destruct (IH (Some (pr_id r')) (n + 1) Hl Hc Hi Hr) as (m & Hm & Hcm). exists m. split; [lia|done].
Qed.

(** ** Memoized depths *)
Definition memo_ok (limit : Z) (completed : list (option Z)) : Prop :=
  length completed = length records ∧
  ∀ i d r, completed !! i = Some (Some d) → records !! i = Some r → chain (pr_id r) d ∧ d ≤ limit.
Definition memo_has (completed : list (option Z)) (id : string) : Prop :=
  ∃ i d r, completed !! i = Some (Some d) ∧ records !! i = Some r ∧ pr_id r = id.

Definition walked (limit : Z) (completed : list (option Z)) (start_ : option string)
    (r : list nat * Z) : Prop :=
  ∃ cur, linked (reverse r.1) cur ∧ chain_from cur r.2 ∧ origin (reverse r.1) cur = start_ ∧
    len r.1 + r.2 ≤ limit ∧ (∀ id, cur = Some id → memo_has completed id).

Lemma check_cycle_ensures path id :
  ensures (λ _, ∀ i r, i ∈ path → records !! i = Some r → pr_id r ≠ id) (check_cycle records path id).
Proof.
  unfold check_cycle. eapply ensures_weaken.
  - apply (ensures_for_each (λ i, pr_id <$> records !! i ≠ Some id)). intros i.
    apply ensures_skip. intros _. apply ensures_if; intros H; [apply ensures_verr|].
    apply ensures_ret. by apply bool_decide_eq_false in H.
  - intros ? Hall i r Hi Hr Heq. cbn beta in Hall. rewrite Forall_forall in Hall. apply (Hall i Hi). rewrite Hr. cbn. by rewrite Heq.
Qed.

Lemma walk_ensures fuel completed limit path current :
  memo_ok limit completed → linked (reverse path) current → NoDup path →
  Forall (λ i, (i < length records)%nat) path → len path ≤ limit →
  (length records < fuel + length path)%nat →
  ensures (walked limit completed (origin (reverse path) current))
    (walk_chain fuel records completed limit path current).
Proof.
  intros Hmemo. revert path current.
  assert (∀ path, NoDup path → Forall (λ i, (i < length records)%nat) path →
            (length path ≤ length records)%nat) as Hpigeon.
  { intros path Hnd Hlt. rewrite <-(length_seq (length records) 0). apply submseteq_length.
    apply NoDup_submseteq; [done|]. intros i Hi. rewrite Forall_forall in Hlt. apply elem_of_seq.
    specialize (Hlt i Hi). lia. }
  induction fuel as [|fuel IH]; intros path current Hl Hnd Hlt Hlim Hfuel.
  { specialize (Hpigeon path Hnd Hlt). lia. }
  destruct current as [id|]; cbn [walk_chain].
  2:{ apply ensures_ret. exists None. cbn. split_and!; [done..|lia|done]. }
  apply ensures_skip. intros _. eapply ensures_bind; [apply check_cycle_ensures|]. intros ? Hcyc.
  eapply ensures_bind; [apply ensures_invalid; intros n Hn; apply count_Ok in Hn as [-> _]; exact (eq_refl (len path))|].
  intros ? <-.
  eapply ensures_bind; [apply ensures_invalid; intros n Hn; apply ok_or_Ok, checked_u64_Some in Hn as [-> _];
                        exact (eq_refl (len path + 1))|]. intros ? <-.
  apply ensures_if; intros Hd; [apply ensures_verr|]. apply Z.ltb_ge in Hd.
  apply ensures_skip. intros _.
  eapply ensures_bind; [apply ensures_invalid; intros i Hi; apply ok_or_Ok, find_record_Some in Hi; exact Hi|].
  intros i (r & Hr & <-). destruct (completed !!! i) as [d|] eqn:Hc.
  - eapply ensures_bind; [apply ensures_invalid; intros n Hn; apply ok_or_Ok, checked_u64_Some in Hn as [-> _];
                          exact (eq_refl (len path + d))|]. intros ? <-.
    apply ensures_if; intros Ht; [apply ensures_verr|]. apply Z.ltb_ge in Ht.
    assert (completed !! i = Some (Some d)) as Hci.
    { rewrite <-Hc. apply list_lookup_lookup_total_lt. destruct Hmemo as [-> _]. by apply lookup_lt_Some in Hr. }
    destruct Hmemo as [_ Hm]. destruct (Hm i d r Hci Hr) as [Hchain _].
    apply ensures_ret. exists (Some (pr_id r)). cbn. split_and!; [done..|].
    intros ? [= <-]. exists i, d, r. done.
  - assert (record_parent records i = pr_parent r) as -> by (unfold record_parent; by rewrite Hr).
    apply lookup_lt_Some in Hr as Hlen.
    eapply ensures_weaken; [apply IH|].
    + rewrite reverse_snoc. exists r. done.
    + apply NoDup_app. split_and!; [done| |apply NoDup_singleton].
      intros j Hj ->%list_elem_of_singleton. by apply (Hcyc i r Hj Hr).
    + apply Forall_app. split; [done|]. by apply Forall_singleton.
    + unfold len in *. rewrite length_app. cbn. lia.
    + rewrite length_app. cbn. lia.
    + intros res. by rewrite reverse_snoc; cbn [origin]; rewrite Hr.
Qed.

Definition unwound (limit : Z) (completed : list (option Z)) (start_ : option string)
    (completed' : list (option Z)) : Prop :=
  memo_ok limit completed' ∧ (∀ id, memo_has completed id → memo_has completed' id) ∧
  (∀ id, start_ = Some id → memo_has completed' id).

Lemma unwind_ensures limit rpath completed cur tail :
  memo_ok limit completed → linked rpath cur → chain_from cur tail → len rpath + tail ≤ limit →
  (∀ id, cur = Some id → memo_has completed id) →
  ensures (λ r, unwound limit completed (origin rpath cur) r.1)
    (fold_m unwind_step (completed, tail) rpath).
Proof.
  revert completed cur tail. induction rpath as [|i rpath IH]; intros completed cur tail Hm Hl Hc Hlim Hcur;
    cbn [fold_m linked origin] in *.
  { apply ensures_ret. cbn. split; [done|]. split; [done|]. auto. }
  destruct Hl as (r & Hi & Hp & Hl). apply lookup_lt_Some in Hi as Hilen.
  rewrite <-Hp in Hc. assert (chain (pr_id r) (tail + 1)) as Hchain.
  { apply chain_cons; [by eapply list_elem_of_lookup_2|done]. }
  eapply (ensures_bind (λ r, r = (<[i := Some (tail + 1)]> completed, tail + 1))).
  { unfold unwind_step. apply ensures_skip. intros _.
    eapply ensures_bind; [apply ensures_invalid; intros n Hn; apply ok_or_Ok, checked_u64_Some in Hn as [-> _];
                          exact (eq_refl (tail + 1))|]. intros ? <-. by apply ensures_ret. }
  intros ? ->. assert (0 ≤ len rpath) by (unfold len; lia).
  assert (tail + 1 + len rpath ≤ limit) by (unfold len in *; cbn in Hlim; lia).
  destruct Hm as [Hlen Hm].
  assert (memo_ok limit (<[i := Some (tail + 1)]> completed)) as Hm'.
  { split; [by rewrite length_insert|]. intros j d r' Hj Hr'.
    apply list_lookup_insert_Some in Hj as [(<- & [= <-] & _)|[_ Hj]]; [|eauto].
    assert (r' = r) as -> by congruence. split; [done|lia]. }
  assert (∀ id, memo_has completed id → memo_has (<[i := Some (tail + 1)]> completed) id) as Hmono.
  { intros id (j & d & r' & Hj & Hr' & Hid). destruct (decide (i = j)) as [<-|Hne].
    - exists i, (tail + 1), r'. rewrite list_lookup_insert_eq by lia. done.
    - exists j, d, r'. by rewrite list_lookup_insert_ne. }
  assert (memo_has (<[i := Some (tail + 1)]> completed) (pr_id r)) as Hhas.
  { exists i, (tail + 1), r. rewrite list_lookup_insert_eq by lia. done. }
  rewrite Hi. cbn [fmap option_fmap option_map].
  eapply ensures_weaken; [apply (IH _ (Some (pr_id r)) (tail + 1)); [done..| |lia|by intros ? [= <-]]; done|].
  intros res (H1 & H2 & H3). split; [done|]. split; [auto|done].
Qed.

Lemma chain_ensures limit completed id :
  0 ≤ limit → memo_ok limit completed →
  ensures (unwound limit completed (Some id)) (validate_provenance_chain id records completed limit).
Proof.
  intros Hlim Hm. unfold validate_provenance_chain.
  eapply ensures_bind.
  { apply (walk_ensures _ completed limit [] (Some id)); cbn; try done; [apply NoDup_nil_2|lia]. }
  intros [path tail] (cur & Hl & Hc & Ho & Hlen & Hcur). cbn [fst snd reverse] in *.
  unfold unwind_chain. eapply ensures_bind.
  { apply (unwind_ensures limit (reverse path) completed cur tail); try done.
    unfold len in *. by rewrite length_reverse. }
  intros [completed' t] Hu. apply ensures_ret. rewrite Ho in Hu. exact Hu.
Qed.

(** ** Acceptance *)
Lemma runs_ensures {E A} (P Q : A → Prop) (m : SE Ctx E A) : runs P m → ensures Q m → runs Q m.
Proof. intros (a & Hm & _) HQ. exists a. eauto. Qed.

Lemma runs_check_cycle path id :
  (∀ i r, i ∈ path → records !! i = Some r → pr_id r ≠ id) → runs (λ _, True) (check_cycle records path id).
Proof.
  intros Hcyc. unfold check_cycle. apply runs_for_each, Forall_forall. intros i Hi.
  apply runs_seq; [auto with erasure|]. intros _. rewrite bool_decide_false; [by apply runs_ret|].
  intros (r & Hr & Heq)%fmap_Some. by apply (Hcyc i r Hi).
Qed.

Lemma runs_walk fuel completed limit path current n :
  limit ≤ u64_max → memo_ok limit completed → linked (reverse path) current →
  chain_from current n → 0 ≤ n → len path + n ≤ limit →
  runs (λ _, True) (walk_chain fuel records completed limit path current).
Proof.
  intros Hu Hmemo. revert path current n.
  induction fuel as [|fuel IH]; intros path current n Hl Hn Hn0 Hlim; [by apply runs_ret|].
  destruct current as [id|]; cbn [walk_chain]; [|by apply runs_ret].
  cbn in Hn. apply chain_positive in Hn as Hpos. assert (0 ≤ len path) by (unfold len; lia).
  apply runs_seq; [by exists tt|]. intros _.
  apply runs_seq.
  { apply runs_check_cycle. intros i r Hi Hr Heq.
    destruct (linked_longer (reverse path) (Some id) n i r) as (m & Hm & Hcm);
      [done|done|by apply elem_of_reverse|done|].
    rewrite Heq in Hcm. pose proof (chain_functional _ _ _ Hn Hcm). lia. }
  intros _. eapply runs_bind; [apply (runs_invalid (λ v, v = len path) _ (len path)); [|done]|].
  { apply count_Ok. unfold is_u64. split; [done|lia]. }
  intros ? ->. eapply runs_bind; [apply (runs_invalid (λ v, v = len path + 1) _ (len path + 1)); [|done]|].
  { apply ok_or_Ok, checked_u64_Some. unfold is_u64. split; [done|lia]. }
  intros ? ->. destruct (Z.ltb_spec limit (len path + 1)); [lia|].
  apply runs_seq; [by exists tt|]. intros _.
  apply chain_inv in Hn as Hinv. destruct Hinv as (r & [i Hi]%list_elem_of_lookup & Hid & Htail).
  eapply runs_bind; [apply (runs_invalid (λ v, v = i) _ i); [|done]|].
  { apply ok_or_Ok, find_record_Some. eauto. }
  intros ? ->. destruct (completed !!! i) as [d|] eqn:Hc.
  - assert (completed !! i = Some (Some d)) as Hci.
    { rewrite <-Hc. apply list_lookup_lookup_total_lt. destruct Hmemo as [-> _]. by apply lookup_lt_Some in Hi. }
    destruct Hmemo as [_ Hm]. destruct (Hm i d r Hci Hi) as [Hchain _]. rewrite Hid in Hchain.
    pose proof (chain_functional _ _ _ Hn Hchain) as <-.
    eapply runs_bind; [apply (runs_invalid (λ v, v = len path + n) _ (len path + n)); [|done]|].
    { apply ok_or_Ok, checked_u64_Some. unfold is_u64. split; [done|lia]. }
    intros ? ->. destruct (Z.ltb_spec limit (len path + n)); [lia|]. by apply runs_ret.
  - assert (record_parent records i = pr_parent r) as -> by (unfold record_parent; by rewrite Hi).
    apply (IH _ _ (n - 1)); [|done|lia|].
    + rewrite reverse_snoc. exists r. by subst id.
    + unfold len. rewrite length_app. cbn. unfold len in Hlim. lia.
Qed.

Lemma runs_unwind rpath completed tail :
  0 ≤ tail → len rpath + tail ≤ u64_max →
  runs (λ _, True) (fold_m unwind_step (completed, tail) rpath).
Proof.
  revert completed tail. induction rpath as [|i rpath IH]; intros completed tail H0 Hu; cbn [fold_m].
  { by apply runs_ret. }
  assert (0 ≤ len rpath ∧ len (i :: rpath) = len rpath + 1) as [??] by (unfold len; cbn; lia).
  eapply (runs_bind (λ r, r = (<[i := Some (tail + 1)]> completed, tail + 1))).
  - unfold unwind_step. apply runs_seq; [auto with erasure|]. intros _.
    eapply runs_bind; [apply (runs_invalid (λ v, v = tail + 1) _ (tail + 1)); [|done]|].
    { apply ok_or_Ok, checked_u64_Some. unfold is_u64. split; [done|lia]. }
    intros ? ->. by apply runs_ret.
  - intros ? ->. apply IH; lia.
Qed.

Lemma runs_chain limit completed id n :
  0 ≤ limit ≤ u64_max → memo_ok limit completed → chain id n → n ≤ limit →
  runs (unwound limit completed (Some id)) (validate_provenance_chain id records completed limit).
Proof.
  intros [H0 Hu] Hm Hn Hlim. apply (runs_ensures (λ _, True)); [|by apply chain_ensures].
  apply chain_positive in Hn as Hpos. unfold validate_provenance_chain. eapply runs_bind.
  { eapply runs_ensures.
    - apply (runs_walk _ completed limit [] (Some id) n); try done; unfold len; cbn; lia.
    - apply (walk_ensures _ completed limit [] (Some id)); cbn; try done; [apply NoDup_nil_2|lia]. }
  intros [path tail] (cur & Hl & Hc & Ho & Hlen & Hcur). cbn [fst snd] in *.
  apply runs_seq; [|by intros []; apply runs_ret]. apply runs_unwind.
  - destruct cur; cbn in Hc; [apply chain_positive in Hc|]; lia.
  - unfold len in *. rewrite length_reverse. lia.
Qed.
End chains.

(** Every chain of parents ends at a root within the depth limit. *)
Definition chains_bounded (limit : Z) (records : list ProvenanceRecord) : Prop :=
  ∀ r, r ∈ records → ∃ n, chain records (pr_id r) n ∧ n ≤ limit.

Lemma memo_init limit records : memo_ok records limit (replicate (length records) None).
Proof.
  split; [by rewrite length_replicate|]. intros i d r Hi. by apply lookup_replicate in Hi as [? _].
Qed.

Lemma provenance_records_ensures limits records :
  strictly_sorted_by pr_id records = true → 0 ≤ max_provenance_depth limits →
  ensures (λ _, chains_bounded (max_provenance_depth limits) records)
    (fold_m (validate_provenance_record limits records) (replicate (length records) None) records).
Proof.
  intros Hs Hlim. eapply ensures_weaken.
  - apply (ensures_fold_m (λ done_ completed, memo_ok records (max_provenance_depth limits) completed ∧
             ∀ r, r ∈ done_ → memo_has records completed (pr_id r))).
    { split; [apply memo_init|]. by intros r ?%not_elem_of_nil. }
    intros completed r done_ [Hm Hdone]. unfold validate_provenance_record. apply ensures_skip. intros _.
    eapply ensures_weaken; [by apply chain_ensures|]. intros completed' (H1 & H2 & H3).
    split; [done|]. intros r' [Hr'| ->%list_elem_of_singleton]%elem_of_app; eauto.
  - intros completed [[Hlen Hm] Hdone] r Hr. destruct (Hdone r Hr) as (i & d & r' & Hi & Hr' & Hid).
    exists d. rewrite <-Hid. eauto.
Qed.

Lemma runs_provenance_records limits records :
  strictly_sorted_by pr_id records = true → 0 ≤ max_provenance_depth limits ≤ u64_max →
  Forall (λ r, validate_record_fields limits r None = (Ok tt, None)) records →
  chains_bounded (max_provenance_depth limits) records →
  runs (λ _, True)
    (fold_m (validate_provenance_record limits records) (replicate (length records) None) records).
Proof.
  intros Hs Hlim Hf Hb. eapply runs_weaken; [by intros ? _|].
  apply (runs_fold_m (λ _ completed, memo_ok records (max_provenance_depth limits) completed));
    [apply memo_init|].
  intros done_ r todo completed Heq Hm.
  assert (r ∈ records) as Hr by (rewrite Heq; set_solver).
  destruct (Hb r Hr) as (n & Hn & Hle). rewrite Forall_forall in Hf.
  unfold validate_provenance_record. apply runs_seq; [by exists tt; auto|]. intros _.
  eapply runs_weaken; [|by apply (runs_chain records Hs _ completed (pr_id r) n)]. by intros ? [? _].
Qed.

Lemma quiet_record_fields limits r : quiet is_invalid (validate_record_fields limits r).
Proof. unfold validate_record_fields, check_parameter. hush. Qed.
Lemma quiet_provenance_chain id records completed limit :
  quiet is_invalid (validate_provenance_chain id records completed limit).
Proof. unfold validate_provenance_chain, unwind_chain, unwind_step. hush. Qed.

Lemma fold_record_fields limits all rs memo completed s :
  fold_m (validate_provenance_record limits all) memo rs None = (Ok completed, s) →
  Forall (λ r, validate_record_fields limits r None = (Ok tt, None)) rs.
Proof.
  revert memo. induction rs as [|r rs IH]; intros memo; [constructor|].
  cbn [fold_m]. intros (memo' & s1 & Hr & Hrs)%se_bind_Ok.
  unfold validate_provenance_record in Hr. apply se_bind_Ok in Hr as ([] & s2 & Hf & Hc).
  destruct (quiet_record_fields limits r) as [Hq _]. rewrite Hf in Hq. cbn in Hq. subst s2.
  destruct (quiet_provenance_chain (pr_id r) all memo (max_provenance_depth limits)) as [Hq _].
  rewrite Hc in Hq. cbn in Hq. subst s1. constructor; [done|]. by eapply IH.
Qed.

(** C19. The memoized walk over the provenance records accepts exactly the lists in which every
    record's own fields are admissible and every chain of parents, followed record by record without
    any memo, ends at a root after at most [max_provenance_depth] records: no cycle, no dangling
    parent and no over-deep chain passes, and nothing else is rejected. *)
Theorem provenance_chains_exact limits records :
  strictly_sorted_by pr_id records = true → 0 ≤ max_provenance_depth limits ≤ u64_max →
  (∃ completed,
     fold_m (validate_provenance_record limits records) (replicate (length records) None) records None
     = (Ok completed, None)) ↔
  Forall (λ r, validate_record_fields limits r None = (Ok tt, None)) records ∧
  chains_bounded (max_provenance_depth limits) records.
Proof.
  intros Hs Hlim. split.
  - intros [completed Hrun]. split; [|by eapply provenance_records_ensures; [..|exact Hrun]; [|lia]].
    by eapply fold_record_fields.
  - intros [Hf Hb]. destruct (runs_provenance_records limits records Hs Hlim Hf Hb) as (c & Hc & _). eauto.
Qed.

(** ** Coverage *)
(** The provenance identifiers the parts of the model name. *)
Definition named_ids (problem : PlanningProblem) : list string :=
  (variable_provenance <$> variables problem)
  ++ (cr_provenance <$> constraints problem)
  ++ (op_levels (objectives problem) ≫= λ level, ol_provenance level :: (ot_provenance <$> ol_terms level))
  ++ (as_provenance <$> assumptions problem)
  ++ (sp_provenance <$> projections problem).
Definition parent_of (records : list ProvenanceRecord) (child parent : string) : Prop :=
  ∃ r, r ∈ records ∧ pr_id r = child ∧ pr_parent r = Some parent.
(** An identifier in use: named by the model, or an ancestor of a named one. *)
Definition in_use (records : list ProvenanceRecord) (names : string → Prop) (id : string) : Prop :=
  ∃ name, names name ∧ rtc (parent_of records) name id.

Section coverage.
Context (records : list ProvenanceRecord).
Hypothesis records_sorted : strictly_sorted_by pr_id records = true.

Definition parents : gset string := list_to_set (omap pr_parent records).
Definition settled (used : gset string) (pending : list string) : Prop :=
  ∀ id, id ∈ used → id ∉ pending →
    ∃ r, r ∈ records ∧ pr_id r = id ∧ ∀ p, pr_parent r = Some p → p ∈ used.

Lemma in_use_mono (names names' : string → Prop) id :
  (∀ x, names x → in_use records names' x) → in_use records names id → in_use records names' id.
Proof. intros H (x & Hx & Hr). destruct (H x Hx) as (y & Hy & Hr'). exists y. split; [done|]. by etrans. Qed.

Lemma parent_in_parents r p : r ∈ records → pr_parent r = Some p → p ∈ parents.
Proof.
  intros Hr Hp. unfold parents. apply elem_of_list_to_set, list_elem_of_omap. eauto.
Qed.
Lemma parents_size : (size parents ≤ length records)%nat.
Proof.
  unfold parents. clear. induction records as [|r rs IH]; cbn; [by rewrite size_empty|].
  destruct (pr_parent r); cbn; [|lia]. rewrite size_union_alt, size_singleton.
  assert (size ((list_to_set (omap pr_parent rs) : gset string) ∖ {[s]})
          ≤ size (list_to_set (omap pr_parent rs) : gset string))%nat by (apply subseteq_size; set_solver).
  lia.
Qed.
Lemma parents_measure (used : gset string) p :
  p ∈ parents → p ∉ used → (size (parents ∖ ({[ p ]} ∪ used)) < size (parents ∖ used))%nat.
Proof. intros Hp Hu. apply subset_size. set_solver. Qed.

Lemma use_ancestors_ensures fuel used pending :
  (size (parents ∖ used) + length pending < fuel)%nat →
  (∀ id, id ∈ pending → id ∈ used) → settled used pending →
  ensures (λ used' : gset string, used ⊆ used' ∧ settled used' [] ∧
             ∀ id, id ∈ used' → in_use records (.∈ used) id)
    (use_ancestors fuel records used pending).
Proof.
  revert used pending. induction fuel as [|fuel IH]; intros used pending Hfuel Hsub Hset; [lia|].
  destruct pending as [|id pending]; cbn [use_ancestors].
  { apply ensures_ret. split_and!; [done|done|]. intros x Hx. exists x. split; [done|reflexivity]. }
  do 2 (apply ensures_skip; intros _).
  eapply ensures_bind; [apply ensures_invalid; intros i Hi; apply ok_or_Ok, (find_record_Some records records_sorted) in Hi; exact Hi|].
  intros i (r & Hr & Hid). assert (r ∈ records) as Hin by (by eapply list_elem_of_lookup_2).
  assert (record_parent records i = pr_parent r) as -> by (unfold record_parent; by rewrite Hr).
  cbn [length] in Hfuel.
  assert (∀ used', used ⊆ used' → (∀ p, pr_parent r = Some p → p ∈ used') →
            ∀ pending', (∀ x, x ∈ used' → x ∉ pending' → x ∈ used ∧ (x = id ∨ x ∉ id :: pending)) →
            settled used' pending') as Hsettled.
  { intros used' Hs Hp pending' Hpend x Hx Hnp. destruct (Hpend x Hx Hnp) as [Hxu [->|Hxp]].
    - eauto.
    - destruct (Hset x Hxu Hxp) as (r' & ? & ? & Hp'). exists r'. set_solver. }
  destruct (pr_parent r) as [p|] eqn:Hp; [destruct (decide (p ∈ used)) as [Hpu|Hpu]|].
  - apply IH; [lia|set_solver|]. apply Hsettled; [done|naive_solver|]. intros x Hx Hnp.
    destruct (decide (x = id)); set_solver.
  - pose proof (parents_measure used p (parent_in_parents r p Hin Hp) Hpu).
    eapply ensures_weaken; [apply IH|].
    + cbn [length]. lia.
    + set_solver.
    + apply Hsettled; [set_solver|set_solver|]. intros x Hx Hnp. destruct (decide (x = id)); set_solver.
    + intros used' (Hs & Hset' & Huse). split_and!; [set_solver|done|]. intros x Hx.
      eapply in_use_mono; [|by apply Huse]. intros y [Hy|Hy]%elem_of_union.
      * apply elem_of_singleton in Hy as ->. exists id. split; [set_solver|]. apply rtc_once. by exists r.
      * exists y. split; [done|reflexivity].
  - apply IH; [lia|set_solver|]. apply Hsettled; [done|naive_solver|]. intros x Hx Hnp.
    destruct (decide (x = id)); set_solver.
Qed.

Lemma runs_use_ancestors fuel used pending :
  (∀ id, id ∈ pending → id ∈ used) → (∀ id, in_use records (.∈ used) id → id ∈ pr_id <$> records) →
  runs (λ _, True) (use_ancestors fuel records used pending).
Proof.
  revert used pending. induction fuel as [|fuel IH]; intros used pending Hsub Hall; [by apply runs_ret|].
  destruct pending as [|id pending]; cbn [use_ancestors]; [by apply runs_ret|].
  apply runs_seq; [auto with erasure|]. intros _. apply runs_seq; [by exists tt|]. intros _.
  assert (id ∈ pr_id <$> records) as Hid.
  { apply Hall. exists id. split; [set_solver|reflexivity]. }
  apply list_elem_of_fmap in Hid as (r & -> & [i Hr]%list_elem_of_lookup).
  eapply runs_bind; [apply (runs_invalid (λ v, v = i) _ i); [|done]|].
  { apply ok_or_Ok, (find_record_Some records records_sorted). eauto. }
  intros ? ->. assert (record_parent records i = pr_parent r) as -> by (unfold record_parent; by rewrite Hr).
  assert (r ∈ records) as Hin by (by eapply list_elem_of_lookup_2).
  destruct (pr_parent r) as [p|] eqn:Hp; [destruct (decide (p ∈ used)) as [Hpu|Hpu]|].
  - apply IH; [set_solver|done].
  - apply IH; [set_solver|]. intros x Hx. apply Hall. eapply in_use_mono; [|exact Hx].
    intros y [Hy|Hy]%elem_of_union.
    + apply elem_of_singleton in Hy as ->. exists (pr_id r). split; [set_solver|]. apply rtc_once. by exists r.
    + exists y. split; [done|reflexivity].
  - apply IH; [set_solver|done].
Qed.
End coverage.

Lemma runs_use_ids {A} (ids_of : A → string) (used : gset string) l :
  runs (λ used', ∀ id, id ∈ used' ↔ id ∈ used ∨ id ∈ ids_of <$> l) (use_ids ids_of used l).
Proof.
  unfold use_ids. apply (runs_fold_m (λ done_ (used' : gset string), ∀ id, id ∈ used' ↔ id ∈ used ∨ id ∈ ids_of <$> done_)).
  { set_solver. }
  intros done_ x todo used' _ Hu. apply runs_seq; [auto with erasure|]. intros _. apply runs_ret.
  intros id. rewrite fmap_app. set_solver.
Qed.
Lemma runs_use_levels (used : gset string) levels :
  runs (λ used', ∀ id, id ∈ used' ↔ id ∈ used ∨
          id ∈ levels ≫= λ level, ol_provenance level :: (ot_provenance <$> ol_terms level))
    (fold_m use_level used levels).
Proof.
  apply (runs_fold_m (λ done_ (used' : gset string), ∀ id, id ∈ used' ↔ id ∈ used ∨
    id ∈ done_ ≫= λ level, ol_provenance level :: (ot_provenance <$> ol_terms level))).
  { set_solver. }
  intros done_ level todo used' _ Hu. unfold use_level. apply runs_seq; [auto with erasure|]. intros _.
  eapply runs_weaken; [|apply runs_use_ids]. intros used2 H2 id. cbn beta in H2. rewrite H2, bind_app. cbn. rewrite app_nil_r.
  set_solver.
Qed.

Lemma record_ids_size records :
  strictly_sorted_by pr_id records = true →
  Z.of_nat (size (list_to_set (pr_id <$> records) : gset string)) = len records.
Proof.
  intros Hs. rewrite size_list_to_set by (by apply strictly_sorted_by_NoDup).
  unfold len. by rewrite length_fmap.
Qed.

(** The collection of the named identifiers, before the ancestors are added. *)
Definition collect_named (problem : PlanningProblem) : VM (gset string) :=
  used ← use_ids variable_provenance ∅ (variables problem);
  used ← use_ids cr_provenance used (constraints problem);
  used ← fold_m use_level used (op_levels (objectives problem));
  used ← use_ids as_provenance used (assumptions problem);
  use_ids sp_provenance used (projections problem).
Lemma runs_collect_named problem :
  runs (λ used, ∀ id, id ∈ used ↔ id ∈ named_ids problem) (collect_named problem).
Proof.
  unfold collect_named, named_ids.
  eapply runs_bind; [apply runs_use_ids|]. intros u1 H1.
  eapply runs_bind; [apply runs_use_ids|]. intros u2 H2.
  eapply runs_bind; [apply runs_use_levels|]. intros u3 H3.
  eapply runs_bind; [apply runs_use_ids|]. intros u4 H4.
  eapply runs_weaken; [|apply runs_use_ids]. intros u5 H5 id. cbn beta in *.
  rewrite H5, H4, H3, H2, H1. set_solver.
Qed.

Definition add_ancestors (problem : PlanningProblem) (used : gset string) : VM unit :=
  let ids := ord_sort (elements used) in
  _ ← for_each (λ _, context_visit) ids;
  used ← use_ancestors (S (length ids + length (provenance problem))) (provenance problem) used
           (reverse ids);
  if negb (Z.of_nat (size used) =? len (provenance problem))
  then invalid (verr CodeOrphanProvenance "provenance") else mret tt.
Lemma coverage_split problem ctx :
  validate_provenance_coverage problem ctx = (collect_named problem ≫= add_ancestors problem) ctx.
Proof.
  unfold validate_provenance_coverage, collect_named, mbind, SE_bind.
  repeat (match goal with |- context [match ?m with _ => _ end] => destruct m as [[]] end; try done).
Qed.

Section add_ancestors.
Context (problem : PlanningProblem) (used : gset string).
Hypothesis records_sorted : strictly_sorted_by pr_id (provenance problem) = true.

Lemma sorted_ids id : id ∈ reverse (ord_sort (elements used)) ↔ id ∈ used.
Proof. rewrite elem_of_reverse, elem_of_ord_sort. apply elem_of_elements. Qed.

Lemma ancestors_fuel :
  (size (parents (provenance problem) ∖ used) + length (reverse (ord_sort (elements used)))
   < S (length (ord_sort (elements used)) + length (provenance problem)))%nat.
Proof.
  rewrite length_reverse.
  assert (size (parents (provenance problem)) ≤ length (provenance problem))%nat as Hp.
  { apply parents_size. }
  assert (size (parents (provenance problem) ∖ used) ≤ size (parents (provenance problem)))%nat.
  { apply subseteq_size. set_solver. }
  lia.
Qed.

Lemma add_ancestors_ensures :
  ensures (λ _, ∀ id, in_use (provenance problem) (.∈ used) id ↔ id ∈ pr_id <$> provenance problem)
    (add_ancestors problem used).
Proof.
  unfold add_ancestors. apply ensures_skip. intros _. eapply ensures_bind.
  { apply use_ancestors_ensures; [done|apply ancestors_fuel| |].
    - intros id. by rewrite sorted_ids.
    - intros id Hid Hnot. by rewrite sorted_ids in Hnot. }
  intros used' (Hsub & Hset & Huse). apply ensures_if; intros Hsz; [apply ensures_verr|].
  apply negb_false_iff, Z.eqb_eq in Hsz. rewrite <-(record_ids_size _ records_sorted) in Hsz.
  apply ensures_ret. intros id.
  assert (used' = list_to_set (pr_id <$> provenance problem)) as Heq.
  { apply leibniz_equiv, set_subseteq_size_equiv; [|lia]. intros x Hx.
    destruct (Hset x Hx) as (r & Hr & <- & _); [by apply not_elem_of_nil|].
    apply elem_of_list_to_set, list_elem_of_fmap. eauto. }
  split.
  - intros (x & Hx & Hrtc). assert (x ∈ used') as Hx' by set_solver. clear Hx.
    apply (elem_of_list_to_set (C := gset string)). rewrite <-Heq. induction Hrtc as [|x y z Hxy _ IH]; [done|].
    apply IH. destruct Hxy as (r & Hr & Hid & Hp). destruct (Hset x Hx') as (r' & Hr' & Hid' & Hp').
    { by apply not_elem_of_nil. }
    rewrite (record_unique _ records_sorted r' r Hr' Hr) in Hp' by congruence. auto.
  - intros Hid. apply Huse. rewrite Heq. by apply elem_of_list_to_set.
Qed.

Lemma runs_add_ancestors :
  (∀ id, in_use (provenance problem) (.∈ used) id ↔ id ∈ pr_id <$> provenance problem) →
  runs (λ _, True) (add_ancestors problem used).
Proof.
  intros Hall. unfold add_ancestors. apply runs_seq.
  { apply runs_for_each, Forall_forall. intros. auto with erasure. }
  intros _. eapply runs_bind.
  { eapply runs_ensures.
    - apply runs_use_ancestors; [done| |].
      + intros id. by rewrite sorted_ids.
      + intros id Hid. by apply Hall.
    - apply use_ancestors_ensures; [done|apply ancestors_fuel| |].
      + intros id. by rewrite sorted_ids.
      + intros id Hid Hnot. by rewrite sorted_ids in Hnot. }
  intros used' (Hsub & Hset & Huse).
  assert (used' = list_to_set (pr_id <$> provenance problem)) as ->.
  { apply set_eq. intros id. rewrite elem_of_list_to_set, <-Hall. split; [apply Huse|].
    intros (x & Hx & Hrtc). assert (x ∈ used') as Hx' by set_solver. clear Hx.
    induction Hrtc as [|x y z Hxy _ IH]; [done|].
    apply IH. destruct Hxy as (r & Hr & Hid & Hp). destruct (Hset x Hx') as (r' & Hr' & Hid' & Hp').
    { by apply not_elem_of_nil. }
    rewrite (record_unique _ records_sorted r' r Hr' Hr) in Hp' by congruence. auto. }
  rewrite record_ids_size, Z.eqb_refl by done. by apply runs_ret.
Qed.
End add_ancestors.

(** C20. The coverage check accepts exactly when the provenance records are the identifiers in use:
    every identifier the model names, and every ancestor of one, is a record, and no record is an
    orphan. *)
Theorem provenance_coverage_exact problem :
  strictly_sorted_by pr_id (provenance problem) = true →
  validate_provenance_coverage problem None = (Ok tt, None) ↔
  ∀ id, in_use (provenance problem) (.∈ named_ids problem) id ↔ id ∈ pr_id <$> provenance problem.
Proof.
  intros Hs. rewrite coverage_split. destruct (runs_collect_named problem) as (used & Hrun & Hused).
  assert (∀ id, in_use (provenance problem) (.∈ used) id ↔ in_use (provenance problem) (.∈ named_ids problem) id) as Hiff.
  { intros id. split; apply in_use_mono; intros x Hx; exists x; (split; [by apply Hused|reflexivity]). }
  unfold mbind, SE_bind. rewrite Hrun. split.
  - intros Hok id. rewrite <-Hiff. by eapply add_ancestors_ensures.
  - intros Hall. destruct (runs_add_ancestors problem used Hs) as ([] & Ha & _); [|done].
    intros id. by rewrite Hiff.
Qed.
