(* ===== verification/Scoping.v ===== *)
(** * What validation establishes of variables, constraints and projections

    The reference sets [validate_variables] builds are exactly the declared variables, and every
    constraint, projection and interval of an accepted problem is well scoped, canonical, and safe to
    evaluate over the declared domains. *)
From stdpp Require Import base tactics list gmap strings.
From Stdlib Require Import ZArith Lia.
From S2P Require Import Prelude Ordering Control Budget Ids DomainIr Model Analysis Erasure.
From S2P Require Import Validation ValidationAgreement Bounds.
Open Scope Z_scope.

(** ** Declared variables *)
Definition add_bool (ids : gset string) (v : Variable_) : gset string :=
  match v with VBoolean v => {[ bv_id v ]} ∪ ids | _ => ids end.
Definition add_int (ints : gmap string IntDomain) (v : Variable_) : gmap string IntDomain :=
  match v with VInteger v => <[iv_id v := iv_domain v]> ints | _ => ints end.
Definition add_interval (m : gmap string IntervalVariable) (v : Variable_) :
    gmap string IntervalVariable :=
  match v with VInterval v => <[itv_id v := v]> m | _ => m end.
Definition bool_ids (problem : PlanningProblem) : gset string := foldl add_bool ∅ (variables problem).
Definition int_domains (problem : PlanningProblem) : gmap string IntDomain :=
  foldl add_int ∅ (variables problem).
Definition interval_values (problem : PlanningProblem) : gmap string IntervalVariable :=
  foldl add_interval ∅ (variables problem).

(** ** Well-formed expressions and constraints *)
Record expression_wf (ints : gmap string IntDomain) (e : LinearExpression) : Prop := {
  ew_constant : is_i64 (le_constant e);
  ew_canonical : canonical_expression e;
  ew_bounds : ∃ lo hi, term_bounds ints (le_constant e) (le_terms e) lo hi
}.
Definition declared_int (ints : gmap string IntDomain) (id : string) : Prop := is_Some (ints !! id).

Definition constraint_wf (bools : gset string) (ints : gmap string IntDomain)
    (intervals : gset string) (c : Constraint_) : Prop :=
  let lit l := lit_variable l ∈ bools in
  match c with
  | BoolOr ls | BoolAnd ls | AtMostOne ls | ExactlyOne ls =>
      strictly_sorted ls = true ∧ Forall lit ls
  | CardinalityRange ls min max =>
      strictly_sorted ls = true ∧ Forall lit ls ∧ min ≤ max ≤ len ls
  | Implication l r | Equivalence_ l r => lit l ∧ lit r
  | LinearComparison_ cmp => expression_wf ints (lc_expression cmp)
  | ReifiedLinearComparison l cmp => lit l ∧ expression_wf ints (lc_expression cmp)
  | AllDifferent vs => strictly_sorted vs = true ∧ Forall (declared_int ints) vs
  | AllowedTable vs rows | ForbiddenTable vs rows =>
      Forall (declared_int ints) vs ∧ Forall (λ row, len row = len vs) rows ∧
      strictly_sorted rows = true
  | Element index _ target => declared_int ints index ∧ declared_int ints target
  | Min target inputs | Max target inputs =>
      declared_int ints target ∧ inputs ≠ [] ∧ strictly_sorted inputs = true ∧
      Forall (declared_int ints) inputs
  | Equality l r => declared_int ints l ∧ declared_int ints r
  | AbsDifference target l r =>
      declared_int ints target ∧
      ∃ dl dr, ints !! l = Some dl ∧ ints !! r = Some dr ∧
        ∀ x y, in_domain dl x → in_domain dr y → is_i64 (x - y) ∧ is_i64 (Z.abs (x - y))
  | NoOverlap ivs => strictly_sorted ivs = true ∧ Forall (.∈ intervals) ivs
  | Cumulative ivs demands capacity =>
      strictly_sorted ivs = true ∧ Forall (.∈ intervals) ivs ∧ len ivs = len demands ∧ 0 ≤ capacity ∧
      Forall (λ d, 0 ≤ d) demands ∧ is_i64 (foldr Z.add 0 demands)
  end.

(** ** Expressions and simple references *)
Section checks.
Context (limits : PlanningIrLimitsV1).
Hypothesis limits_wf : wf_limits limits.

Lemma check_value_ensures v p : ensures (λ _, is_i64 v) (invalid (check_value v limits p)).
Proof.
  apply ensures_invalid. intros [] Hv. apply check_value_Ok in Hv; [|done].
  destruct limits_wf as [[? ?] _]. unfold is_i64, i64_min, i64_max in *. lia.
Qed.
Lemma expression_wf_ensures e ints p :
  ints_ok ints → ensures (λ _, expression_wf ints e) (expression_bounds e ints limits p).
Proof.
  intros Hok s [lo hi] s' Hrun.
  assert (is_i64 (le_constant e)) as Hc.
  { pose proof Hrun as Hrun'. unfold expression_bounds in Hrun'.
    apply se_bind_Ok in Hrun' as (? & s1 & _ & (? & s2 & Hv & _)%se_bind_Ok).
    by eapply check_value_ensures. }
  destruct (expression_bounds_ensures e ints limits p Hc Hok _ _ _ Hrun) as (_ & _ & Hs & Hnz & Htb).
  split; [done|by split|]. by exists lo, hi.
Qed.
Lemma require_literal_ensures l bools p :
  ensures (λ _, lit_variable l ∈ bools) (invalid (require_literal l bools p)).
Proof. apply ensures_invalid. intros []. apply require_bool_Ok. Qed.
Lemma require_int_ensures id ints p :
  ensures (λ d, ints !! id = Some d) (invalid (require_int id ints p)).
Proof. apply ensures_invalid. intros d. apply require_int_Ok. Qed.
Lemma require_interval_ensures id intervals p :
  ensures (λ _, id ∈ intervals) (invalid (require_interval id intervals p)).
Proof. apply ensures_invalid. intros []. apply require_interval_Ok. Qed.
Lemma validate_literals_ensures ls bools p :
  ensures (λ _, strictly_sorted ls = true ∧ Forall (λ l, lit_variable l ∈ bools) ls)
    (validate_literals ls bools p).
Proof.
  unfold validate_literals. eapply ensures_bind; [apply strict_ensures|]. intros ? Hs.
  eapply ensures_weaken; [|intros ? H; split; [exact Hs|exact H]].
  apply (ensures_for_each (λ l, lit_variable l ∈ bools)). intros l. apply ensures_skip. intros _.
  apply require_literal_ensures.
Qed.

Lemma validate_cumulative_ensures ivs demands capacity intervals p :
  ensures (λ _, constraint_wf ∅ ∅ intervals (Cumulative ivs demands capacity))
    (validate_cumulative ivs demands capacity intervals limits p).
Proof.
  unfold validate_cumulative. apply ensures_if; intros Hshape; [apply ensures_verr|].
  apply orb_false_iff in Hshape as [Hlen%negb_false_iff%Z.eqb_eq Hcap%Z.ltb_ge].
  eapply ensures_bind; [apply strict_ensures|]. intros ? Hs. do 2 (apply ensures_skip; intros _).
  eapply ensures_bind; [|intros total Ht; apply ensures_ret; exact Ht].
  eapply ensures_weaken.
  - apply (ensures_fold_m (λ done_ total, Forall (.∈ intervals) done_.*1 ∧
             Forall (λ d, 0 ≤ d) done_.*2 ∧ total = foldr Z.add 0 done_.*2 ∧ is_i64 total)).
    { cbn. split_and!; [constructor..|done|]. unfold is_i64, i64_min, i64_max. lia. }
    intros total [i d] done_ (Hi & Hd & -> & _). unfold validate_demand.
    apply ensures_skip. intros _. eapply ensures_bind; [apply require_interval_ensures|]. intros ? Hin.
    apply ensures_if; intros Hneg; [apply ensures_verr|]. apply Z.ltb_ge in Hneg.
    apply ensures_skip. intros _. apply ensures_invalid. intros t Ht.
    apply ok_or_code_Ok, checked_i64_Some in Ht as [-> Ht]. rewrite !fmap_app. cbn [fmap list_fmap].
    split_and!; [apply Forall_app; split; [done|by apply Forall_singleton]..| |done].
    rewrite foldr_app. cbn. clear. induction done_.*2; cbn; lia.
  - intros total (Hi & Hd & -> & Ht). unfold len in Hlen.
    assert (length ivs = length demands) as Hl by lia.
    rewrite fst_zip in Hi by lia. rewrite snd_zip in Hd, Ht by lia.
    cbn. split_and!; done.
Qed.
Lemma validate_table_ensures vs rows ints p :
  ensures (λ _, Forall (declared_int ints) vs ∧ Forall (λ row, len row = len vs) rows ∧
                strictly_sorted rows = true)
    (validate_table vs rows ints limits p).
Proof.
  unfold validate_table. do 2 (apply ensures_skip; intros _). apply ensures_skip. intros controlled.
  eapply ensures_bind; [|intros ? H; intros ??? _; exact H].
  destruct controlled.
  - eapply ensures_weaken; [apply table_controlled_ensures|]. intros ? (H1 & H2 & H3 & _). done.
  - eapply ensures_bind; [apply strict_ensures|]. intros ? Hs.
    eapply ensures_bind; [apply require_ints_ensures|]. intros ? Hv.
    apply ensures_if; intros Hrows; [apply ensures_verr|]. intros ??? _. split; [done|]. split; [|done].
    apply Forall_forall. intros row Hrow. destruct (Z.eqb_spec (len row) (len vs)) as [|Hne]; [done|].
    assert (existsb (λ row, negb (len row =? len vs)) rows = true) as Ht; [|congruence].
    apply existsb_exists. exists row. split; [by apply list_elem_of_In|]. by apply negb_true_iff, Z.eqb_neq.
Qed.

Lemma validate_constraint_ensures c bools ints intervals p :
  ints_ok ints →
  ensures (λ _, constraint_wf bools ints intervals c)
    (validate_constraint c bools ints intervals limits p).
Proof.
  intros Hok. destruct c; cbn [validate_constraint constraint_wf].
  - apply validate_literals_ensures.
  - apply validate_literals_ensures.
  - apply ensures_skip. intros _. eapply ensures_bind; [apply require_literal_ensures|]. intros ? Hl.
    eapply ensures_weaken; [apply require_literal_ensures|]. done.
  - apply ensures_skip. intros _. eapply ensures_bind; [apply require_literal_ensures|]. intros ? Hl.
    eapply ensures_weaken; [apply require_literal_ensures|]. done.
  - apply validate_literals_ensures.
  - apply validate_literals_ensures.
  - eapply ensures_bind; [apply validate_literals_ensures|]. intros ? [Hs Hl].
    eapply ensures_bind; [apply ensures_invalid; intros n Hn; apply count_Ok in Hn as [-> _]; exact (eq_refl (len literals))|].
    intros ? <-. apply ensures_if; intros Hmm; [apply ensures_verr|].
    apply orb_false_iff in Hmm as [?%Z.ltb_ge ?%Z.ltb_ge]. apply ensures_ret. split_and!; [done..|lia|lia].
  - eapply ensures_bind; [by apply expression_wf_ensures|]. intros ? He. by intros ???.
  - apply ensures_skip. intros _. eapply ensures_bind; [apply require_literal_ensures|]. intros ? Hl.
    eapply ensures_bind; [by apply expression_wf_ensures|]. intros ? He. by intros ???.
  - eapply ensures_bind; [apply strict_ensures|]. intros ? Hs.
    eapply ensures_weaken; [apply require_ints_ensures|]. done.
  - apply validate_table_ensures.
  - apply validate_table_ensures.
  - eapply ensures_bind; [apply require_int_ensures|]. intros ? Hi.
    eapply ensures_bind; [apply require_int_ensures|]. intros ? Ht. intros ??? _. cbn beta in *. split; eapply mk_is_Some; eassumption.
  - unfold validate_integer_aggregate. eapply ensures_bind; [apply require_int_ensures|]. intros ? Ht.
    apply ensures_if; intros Hne; [apply ensures_verr|]. apply bool_decide_eq_false in Hne.
    eapply ensures_bind; [apply strict_ensures|]. intros ? Hs.
    eapply ensures_weaken; [apply require_ints_ensures|]. intros ? Hi. cbn beta in *. split_and!; [eapply mk_is_Some; eassumption|done..].
  - unfold validate_integer_aggregate. eapply ensures_bind; [apply require_int_ensures|]. intros ? Ht.
    apply ensures_if; intros Hne; [apply ensures_verr|]. apply bool_decide_eq_false in Hne.
    eapply ensures_bind; [apply strict_ensures|]. intros ? Hs.
    eapply ensures_weaken; [apply require_ints_ensures|]. intros ? Hi. cbn beta in *. split_and!; [eapply mk_is_Some; eassumption|done..].
  - apply ensures_skip. intros _. eapply ensures_bind; [apply require_int_ensures|]. intros ? Hi.
    eapply ensures_bind; [apply require_int_ensures|]. intros ? Ht. intros ??? _. cbn beta in *. split; eapply mk_is_Some; eassumption.
  - apply ensures_skip. intros _. eapply ensures_bind; [apply require_int_ensures|]. intros ? Ht.
    eapply ensures_bind; [apply require_int_ensures|]. intros dl Hl.
    eapply ensures_bind; [apply require_int_ensures|]. intros dr Hr.
    apply ensures_invalid. intros [] Hab. cbn beta in *. split; [eapply mk_is_Some; eassumption|]. exists dl, dr. split_and!; [done..|].
    eapply prove_abs_bounds_sound; [by apply (Hok _ _ Hl)|by apply (Hok _ _ Hr)|done].
  - eapply ensures_bind; [apply strict_ensures|]. intros ? Hs. apply ensures_skip. intros _.
    eapply ensures_weaken; [|intros ? H; split; [exact Hs|exact H]].
    apply (ensures_for_each (.∈ intervals)). intros i. apply ensures_skip. intros _.
    apply require_interval_ensures.
  - apply validate_cumulative_ensures.
Qed.

(** ** Variables *)
Lemma check_values_ensures d p :
  ensures (λ _, Forall range_i64 (inclusive_ranges d) ∧ domain_ok d ∧ inclusive_ranges d ≠ [])
    (validate_domain d limits p).
Proof.
  intros s [] s' Hrun.
  assert (Forall range_i64 (inclusive_ranges d)) as Hi.
  { pose proof Hrun as H. unfold validate_domain in H.
    apply se_bind_Ok in H as (? & s1 & _ & (? & s2 & _ & (n & s3 & Hn & H)%se_bind_Ok)%se_bind_Ok).
    destruct (negb _); [done|]. eapply se_for_each_Ok; [|exact H].
    intros r t t' (? & t1 & _ & (? & t2 & H1 & H2)%se_bind_Ok)%se_bind_Ok.
    split; by eapply check_value_ensures. }
  split; [done|]. by eapply validate_domain_ensures.
Qed.

Definition variable_domain_ok (v : Variable_) : Prop :=
  match v with
  | VInteger i => domain_ok (iv_domain i) ∧ inclusive_ranges (iv_domain i) ≠ []
  | _ => True
  end.
Record scanned (done_ : list Variable_) (ids : gset string) (st : VariableScan) : Prop := {
  sc_bools : vs_bools st = foldl add_bool ∅ done_;
  sc_ints : vs_ints st = foldl add_int ∅ done_;
  sc_intervals : vs_intervals st = dom (foldl add_interval ∅ done_);
  sc_ints_ok : ints_ok (vs_ints st);
  sc_provenance : Forall (λ v, variable_provenance v ∈ ids) done_;
  sc_domains : Forall variable_domain_ok done_
}.

Lemma scan_variable_ensures ids index st v done_ :
  scanned done_ ids st →
  ensures (scanned (done_ ++ [v]) ids) (scan_variable limits ids index st v).
Proof.
  intros [Hb Hi Hv Hok Hp Hdom]. unfold scan_variable. apply ensures_skip. intros _.
  eapply (ensures_bind (λ st' : VariableScan,
    vs_bools st' = foldl add_bool ∅ (done_ ++ [v]) ∧ vs_ints st' = foldl add_int ∅ (done_ ++ [v]) ∧
    vs_intervals st' = dom (foldl add_interval ∅ (done_ ++ [v])) ∧ ints_ok (vs_ints st') ∧
    variable_domain_ok v)).
  - rewrite !foldl_app. cbn [foldl]. rewrite <-Hb, <-Hi. destruct v as [v|v|v]; cbn [add_bool add_int add_interval].
    + destruct (decide _); [apply ensures_verr|]. by apply ensures_ret.
    + eapply ensures_bind; [apply check_values_ensures|]. intros ? (_ & Hd & Hne).
      destruct (vs_ints st !! _) eqn:Hlk; [apply ensures_verr|]. apply ensures_ret. cbn. split_and!; [done..| |done|done].
      by apply map_Forall_insert_2.
    + destruct (decide _); [apply ensures_verr|]. apply ensures_skip. intros ?. apply ensures_ret. cbn.
      split_and!; [done..| |done|done]. by rewrite Hv, dom_insert_L.
  - intros st' (H1 & H2 & H3 & H4 & H5). destruct (decide _); [apply ensures_verr|].
    apply (ensures_bind (λ _, variable_provenance v ∈ ids));
      [apply ensures_invalid; intros []; apply require_provenance_Ok|]. intros ? Hpv.
    apply ensures_ret. split; cbn; try done; apply Forall_app; (split; [done|]); by apply Forall_singleton.
Qed.

Lemma provenance_ids_ensures problem :
  ensures (λ ids : gset string, ∀ id, id ∈ ids ↔ id ∈ pr_id <$> provenance problem)
    (fold_m (λ (ids : gset string) record, _ ← context_visit; mret ({[ pr_id record ]} ∪ ids)) ∅
       (provenance problem)).
Proof.
  apply (ensures_fold_m (λ done_ (ids : gset string), ∀ id, id ∈ ids ↔ id ∈ pr_id <$> done_)).
  { set_solver. }
  intros ids r done_ Hids. apply ensures_skip. intros _. apply ensures_ret. intros id.
  rewrite fmap_app. set_solver.
Qed.

(** An interval variable of an accepted problem. *)
Definition interval_wf (bools : gset string) (ints : gmap string IntDomain) (v : Variable_) : Prop :=
  match v with
  | VInterval i =>
      ∃ s d e, ints !! itv_start i = Some s ∧ ints !! itv_duration i = Some d ∧
        ints !! itv_end i = Some e ∧
        match itv_presence i with
        | Some l => lit_variable l ∈ bools
        | None => Forall (λ r, 0 ≤ start r) (inclusive_ranges d)
        end
  | _ => True
  end.
Lemma interval_variable_ensures refs index v :
  ensures (λ _, interval_wf (vr_bools refs) (vr_ints refs) v) (validate_interval_variable refs index v).
Proof.
  unfold validate_interval_variable. apply ensures_skip. intros _.
  destruct v as [v|v|i]; [by apply ensures_ret..|]. cbn [interval_wf].
  eapply ensures_bind; [apply require_int_ensures|]. intros s Hs.
  eapply ensures_bind; [apply require_int_ensures|]. intros d Hd.
  eapply ensures_bind; [apply require_int_ensures|]. intros e He. cbn beta in *.
  eapply (ensures_bind (λ _, match itv_presence i with
        | Some l => lit_variable l ∈ vr_bools refs
        | None => Forall (λ r, 0 ≤ start r) (inclusive_ranges d)
        end)).
  - destruct (itv_presence i) as [l|]; [apply require_literal_ensures|].
    apply ensures_if; intros Hneg; [apply ensures_verr|]. apply ensures_ret. apply Forall_forall. intros r Hr.
    destruct (Z.ltb_spec (start r) 0) as [Hlt|]; [|done].
    assert (existsb (λ r, start r <? 0) (inclusive_ranges d) = true); [|congruence].
    apply existsb_exists. exists r. split; [by apply list_elem_of_In|lia].
  - intros ? Hp. intros ??? _. exists s, d, e. done.
Qed.

Record references_ok (problem : PlanningProblem) (refs : VariableReferences) : Prop := {
  ro_provenance id : id ∈ vr_provenance refs ↔ id ∈ pr_id <$> provenance problem;
  ro_bools : vr_bools refs = bool_ids problem;
  ro_ints : vr_ints refs = int_domains problem;
  ro_intervals : vr_intervals refs = dom (interval_values problem);
  ro_ints_ok : ints_ok (int_domains problem);
  ro_domains : Forall variable_domain_ok (variables problem);
  ro_variables : Forall (interval_wf (bool_ids problem) (int_domains problem)) (variables problem)
}.
Lemma validate_variables_ensures problem :
  ensures (λ r, references_ok problem r.1) (validate_variables problem limits).
Proof.
  unfold validate_variables. eapply ensures_bind; [apply provenance_ids_ensures|]. intros ids Hids.
  eapply ensures_bind.
  { apply (ensures_fold_m_from (λ done_ st, scanned done_ ids st)).
    - by split.
    - intros i st v done_. apply scan_variable_ensures. }
  intros st [H1 H2 H3 H4 H5 H6].
  eapply ensures_bind.
  { apply (ensures_for_each_from (interval_wf (vs_bools st) (vs_ints st))). intros i v.
    apply (interval_variable_ensures {| vr_provenance := ids; vr_bools := vs_bools st; vr_ints := vs_ints st;
                       vr_intervals := vs_intervals st |}). }
  intros ? Hall. apply ensures_ret. cbn. rewrite H2 in H4. rewrite H1, H2 in Hall.
  split; cbn; try done.
Qed.

(** ** Constraint records and projections *)
Record record_wf (problem : PlanningProblem) (r : ConstraintRecord) : Prop := {
  rw_enforcement : strictly_sorted (cr_enforcement r) = true;
  rw_tags : strictly_sorted (cr_tags r) = true;
  rw_literals : Forall (λ l, lit_variable l ∈ bool_ids problem) (cr_enforcement r);
  rw_body : constraint_wf (bool_ids problem) (int_domains problem) (dom (interval_values problem)) (cr_body r)
}.
Lemma validate_constraints_ensures problem refs n :
  references_ok problem refs →
  ensures (λ _, Forall (record_wf problem) (constraints problem))
    (validate_constraints problem refs limits n).
Proof.
  intros [_ Hb Hi Hv Hok _ _]. unfold validate_constraints.
  apply (ensures_bind (λ _, Forall (record_wf problem) (constraints problem)));
    [|intros [] H; apply ensures_ret; exact H].
  apply (ensures_fold_m_from (λ done_ _, Forall (record_wf problem) done_)); [constructor|].
  intros i [cids refs_n] r done_ Hdone. unfold validate_constraint_record. apply ensures_skip. intros _.
  destruct (decide _); [apply ensures_verr|]. do 3 (apply ensures_skip; intros _).
  eapply ensures_bind; [apply strict_ensures|]. intros ? Hs1.
  eapply ensures_bind; [apply strict_ensures|]. intros ? Hs2.
  eapply ensures_bind.
  { apply (ensures_for_each (λ l, lit_variable l ∈ vr_bools refs)). intros l. apply ensures_skip. intros _.
    apply require_literal_ensures. }
  intros ? Hl. do 3 (apply ensures_skip; intros ?).
  eapply ensures_bind; [apply validate_constraint_ensures; by rewrite Hi|]. intros ? Hc. apply ensures_ret.
  apply Forall_app. split; [done|]. apply Forall_singleton. cbn beta in *. rewrite Hb, ?Hi, ?Hv in *. by split.
Qed.

Definition projection_wf (problem : PlanningProblem) (p : SolutionProjection) : Prop :=
  match sp_expression p with
  | PEBoolean id => id ∈ bool_ids problem
  | PEInteger id => declared_int (int_domains problem) id
  | PELinear e => expression_wf (int_domains problem) e
  | PEInterval id => id ∈ dom (interval_values problem)
  | PEConstant (AVInterval i) => AssignedInterval_validate i = Ok tt
  | PEConstant _ => True
  end.
Lemma validate_projections_ensures problem refs n :
  references_ok problem refs →
  ensures (λ _, Forall (projection_wf problem) (projections problem) ∧
                NoDup (sp_assignment_id <$> projections problem))
    (validate_projections problem (vr_bools refs) (vr_ints refs) (vr_intervals refs)
       (vr_provenance refs) n limits).
Proof.
  intros [_ Hb Hi Hv Hok _ _]. unfold validate_projections.
  apply (ensures_bind (λ _, Forall (projection_wf problem) (projections problem) ∧
                            NoDup (sp_assignment_id <$> projections problem)));
    [|intros [] H; apply ensures_ret; exact H].
  eapply ensures_weaken.
  - apply (ensures_fold_m (λ done_ (st : gset string * Z), (∀ id, id ∈ st.1 ↔ id ∈ sp_assignment_id <$> done_) ∧
      Forall (projection_wf problem) done_ ∧ NoDup (sp_assignment_id <$> done_))).
    { cbn. split_and!; [set_solver|constructor|constructor]. }
    intros [ids m] p done_ (Hids & Hall & Hnd). cbn [fst] in Hids. unfold validate_projection.
    apply ensures_skip. intros _. destruct (decide _) as [|Hfresh]; [apply ensures_verr|].
    apply ensures_skip. intros _. eapply (ensures_bind (λ _, projection_wf problem p)).
    + unfold validate_projection_expression, projection_wf. rewrite <-Hb, <-Hi, <-Hv. rewrite <-Hi in Hok.
      destruct (sp_expression p) as [id|id|e|id|[| |iv|]].
      * apply ensures_invalid. intros []. apply require_bool_Ok.
      * eapply ensures_bind; [apply require_int_ensures|]. intros ? Hd. apply ensures_ret.
        cbn beta in *. eapply mk_is_Some; eassumption.
      * eapply ensures_bind; [by apply expression_wf_ensures|]. intros ? He. by intros ???.
      * apply require_interval_ensures.
      * by apply ensures_ret.
      * by apply ensures_ret.
      * apply ensures_invalid. intros [] Hr. by apply map_err_Ok in Hr.
      * by apply ensures_ret.
    + intros ? Hp. do 3 (apply ensures_skip; intros ?). apply ensures_if; intros _; [apply ensures_verr|].
      apply ensures_ret. cbn [fst]. rewrite fmap_app. split_and!.
      * set_solver.
      * apply Forall_app. split; [done|]. by apply Forall_singleton.
      * apply NoDup_app. split_and!; [done| |apply NoDup_singleton].
        intros id Hid ->%list_elem_of_singleton. by apply Hfresh, Hids.
  - intros ? (_ & H1 & H2). done.
Qed.
End checks.
