(* ===== verification/Admission.v ===== *)
(** * Admissible problems

    Everything [validate_core] of [validation.rs] establishes about a problem it accepts, collected
    in one interface ([Admissible]) against which the projection, the evaluator and the canonical form
    are proved; the objective bounds and their consequence for lexicographic scalarization. *)
From stdpp Require Import base tactics list gmap strings.
From Stdlib Require Import ZArith Lia.
From S2P Require Import Prelude Ordering Control Budget Ids DomainIr Model Analysis Erasure.
From S2P Require Import Validation ValidationAgreement Bounds Scoping Provenance.
From S2P Require Import Lexicographic.
Open Scope Z_scope.

(** ** Objective levels *)
Definition level_value (σ : string → Z) (level : ObjectiveLevel) : Z :=
  foldr Z.add 0 ((λ t, expression_value σ (ot_expression t)) <$> ol_terms level).
Record level_wf (problem : PlanningProblem) (level : ObjectiveLevel) : Prop := {
  lw_ordered : ol_lower_bound level ≤ ol_upper_bound level;
  lw_terms_sorted : strictly_sorted_by ot_id (ol_terms level) = true;
  lw_terms : Forall (λ t, expression_wf (int_domains problem) (ot_expression t)) (ol_terms level);
  lw_values σ : respects (int_domains problem) σ → in_level level (level_value σ level);
  lw_prefixes σ k : respects (int_domains problem) σ →
    is_i64 (foldr Z.add 0 ((λ t, expression_value σ (ot_expression t)) <$> take k (ol_terms level)))
}.

Section objectives.
Context (problem : PlanningProblem) (limits : PlanningIrLimitsV1) (ids : gset string).
Hypothesis limits_wf : wf_limits limits.
Hypothesis ints_good : ints_ok (int_domains problem).

(** The running extremes bound the terms seen so far, and no partial sum overflows. *)
Definition terms_between (terms : list ObjectiveTerm) (lo hi : Z) : Prop :=
  Forall (λ t, expression_wf (int_domains problem) (ot_expression t)) terms ∧
  (∀ σ, respects (int_domains problem) σ →
    lo ≤ foldr Z.add 0 ((λ t, expression_value σ (ot_expression t)) <$> terms) ≤ hi) ∧
  ∀ σ k, respects (int_domains problem) σ →
    is_i64 (foldr Z.add 0 ((λ t, expression_value σ (ot_expression t)) <$> take k terms)).

Lemma terms_between_snoc terms t lo hi tlo thi x y :
  terms_between terms lo hi → expression_wf (int_domains problem) (ot_expression t) →
  (∀ σ, respects (int_domains problem) σ → tlo ≤ expression_value σ (ot_expression t) ≤ thi) →
  x = lo + tlo → y = hi + thi → is_i64 x → is_i64 y → terms_between (terms ++ [t]) x y.
Proof.
  intros (Hwf & Hb & Hk) He Hab -> -> Hlo Hhi.
  assert (∀ z l, foldr Z.add z l = foldr Z.add 0 l + z) as Hf.
  { clear. intros z l. induction l; cbn; lia. }
  assert (∀ σ, respects (int_domains problem) σ →
    lo + tlo ≤ foldr Z.add 0 ((λ t, expression_value σ (ot_expression t)) <$> terms ++ [t]) ≤ hi + thi) as Hbetween.
  { intros σ Hσ. rewrite fmap_app, foldr_app. cbn. specialize (Hb σ Hσ). specialize (Hab σ Hσ). rewrite Hf. lia. }
  split_and!; [|done|].
  - apply Forall_app. split; [done|]. by apply Forall_singleton.
  - intros σ k Hσ. destruct (decide (k ≤ length terms)%nat).
    + rewrite take_app_le by done. by apply Hk.
    + rewrite take_ge by (rewrite length_app; cbn; lia). specialize (Hbetween σ Hσ). unfold is_i64 in *. lia.
Qed.
Lemma validate_terms_ensures level_index terms n m :
  ensures (λ r : Z * Z * Z * Z, terms_between terms r.1.1.2 r.1.2)
    (fold_m (validate_term (int_domains problem) ids limits level_index) (n, 0, 0, m) terms).
Proof.
  apply (ensures_fold_m (λ done_ (r : Z * Z * Z * Z), terms_between done_ r.1.1.2 r.1.2)).
  { split_and!; [constructor|cbn; lia|]. intros σ k _. rewrite take_nil. by cbn. }
  intros [[[c lo] hi] k] t done_ (Hwf & Hb & Hk). cbn [fst snd] in *. unfold validate_term.
  do 3 (apply ensures_skip; intros ?).
  eapply ensures_bind.
  { apply (ensures_and (λ _, expression_wf (int_domains problem) (ot_expression t))
      (λ r, ∀ σ, respects (int_domains problem) σ → r.1 ≤ expression_value σ (ot_expression t) ≤ r.2)).
    - by apply expression_wf_ensures.
    - intros s [x y] s' Hrun. pose proof (expression_wf_ensures limits limits_wf _ _ _ ints_good _ _ _ Hrun) as [Hc _ _].
      destruct (expression_bounds_ensures _ _ limits _ Hc ints_good _ _ _ Hrun) as (_ & _ & _ & _ & Htb).
      apply Htb. }
  intros [tlo thi] [He Hab]. cbn [fst snd] in Hab. apply ensures_if; intros _; [apply ensures_verr|].
  apply (ensures_bind (λ v, v = lo + tlo ∧ is_i64 v)).
  { apply ensures_invalid. intros v Hv. by apply ok_or_code_Ok, checked_i64_Some in Hv as [-> Hv]. }
  intros ? [-> Hlo]. apply (ensures_bind (λ v, v = hi + thi ∧ is_i64 v)).
  { apply ensures_invalid. intros v Hv. by apply ok_or_code_Ok, checked_i64_Some in Hv as [-> Hv]. }
  intros ? [-> Hhi].
  do 2 (apply ensures_skip; intros ?). apply ensures_ret. cbn [fst snd].
  apply terms_between_snoc with lo hi tlo thi; done.
Qed.

Lemma validate_objectives_ensures n :
  ensures (λ _, Forall (level_wf problem) (op_levels (objectives problem)) ∧
                NoDup (ol_id <$> op_levels (objectives problem)))
    (validate_objectives problem (int_domains problem) ids limits n).
Proof.
  unfold validate_objectives.
  apply (ensures_bind (λ _, Forall (level_wf problem) (op_levels (objectives problem)) ∧
                            NoDup (ol_id <$> op_levels (objectives problem)))).
  2:{ intros [[? ?] ?] H. apply ensures_if; intros _; [apply ensures_verr|]. by apply ensures_ret. }
  eapply ensures_weaken.
  - apply (ensures_fold_m_from (λ done_ (st : gset string * Z * Z),
      (∀ id, id ∈ st.1.1 ↔ id ∈ ol_id <$> done_) ∧ Forall (level_wf problem) done_ ∧ NoDup (ol_id <$> done_))).
    { cbn. split_and!; [set_solver|constructor|constructor]. }
    intros i [[lids c] k] level done_ (Hids & Hall & Hnd). cbn [fst] in Hids. unfold validate_level.
    apply ensures_skip. intros _. destruct (decide _) as [|Hfresh]; [apply ensures_verr|].
    apply ensures_skip. intros _. apply ensures_if; intros Hlu; [apply ensures_verr|]. apply Z.ltb_ge in Hlu.
    do 2 (apply ensures_skip; intros _). eapply ensures_bind; [apply strict_by_ensures|]. intros ? Hs.
    eapply ensures_bind; [apply validate_terms_ensures|]. intros [[[c' lo] hi] k'] (Hwf & Hb & Hk). cbn [fst snd] in *.
    apply ensures_if; intros Heq; [apply ensures_verr|].
    apply orb_false_iff in Heq as [->%negb_false_iff%Z.eqb_eq ->%negb_false_iff%Z.eqb_eq].
    apply ensures_ret. cbn [fst snd]. rewrite fmap_app. split_and!.
    + set_solver.
    + apply Forall_app. split; [done|]. apply Forall_singleton. by split.
    + apply NoDup_app. split_and!; [done| |apply NoDup_singleton].
      intros id Hid ->%list_elem_of_singleton. by apply Hfresh, Hids.
  - intros ? (_ & H1 & H2). done.
Qed.
End objectives.

(** ** Assumptions *)
Record assumption_ok (limits : PlanningIrLimitsV1) (a : Assumption) : Prop := {
  ao_nonempty : as_required_rules a ≠ [];
  ao_sorted : strictly_sorted (as_required_rules a) = true;
  ao_bounded : len (as_required_rules a) < max_refs_per_node limits
}.

(** ** The interface *)
Class Admissible (problem : PlanningProblem) (limits : PlanningIrLimitsV1) : Prop := {
  adm_version : schema_version problem = PLANNING_IR_SCHEMA_VERSION;
  adm_variable_count : len (variables problem) ≤ max_variables limits;
  adm_level_count : len (op_levels (objectives problem)) ≤ max_objective_levels limits;
  adm_variables_sorted : strictly_sorted_by canonical_id (variables problem) = true;
  adm_constraints_sorted : strictly_sorted_by cr_id (constraints problem) = true;
  adm_assumptions_sorted : strictly_sorted_by as_id (assumptions problem) = true;
  adm_projections_sorted : strictly_sorted_by sp_id (projections problem) = true;
  adm_provenance_sorted : strictly_sorted_by pr_id (provenance problem) = true;
  adm_ints : ints_ok (int_domains problem);
  adm_domains : Forall variable_domain_ok (variables problem);
  adm_intervals : Forall (interval_wf (bool_ids problem) (int_domains problem)) (variables problem);
  adm_constraints : Forall (record_wf problem) (constraints problem);
  adm_levels : Forall (level_wf problem) (op_levels (objectives problem));
  adm_level_ids : NoDup (ol_id <$> op_levels (objectives problem));
  adm_assumption_rules : Forall (assumption_ok limits) (assumptions problem);
  adm_assumption_variables : NoDup ((λ a, lit_variable (as_literal a)) <$> assumptions problem);
  adm_projections : Forall (projection_wf problem) (projections problem);
  adm_assignments : NoDup (sp_assignment_id <$> projections problem);
  adm_entity_refs : Forall (λ r, strictly_sorted (pr_entity_refs r) = true) (provenance problem);
  adm_chains : chains_bounded (max_provenance_depth limits) (provenance problem)
}.

Lemma validate_root_ensures problem limits :
  ensures (λ _, schema_version problem = PLANNING_IR_SCHEMA_VERSION ∧
    len (variables problem) ≤ max_variables limits ∧
    len (op_levels (objectives problem)) ≤ max_objective_levels limits ∧
    strictly_sorted_by canonical_id (variables problem) = true ∧
    strictly_sorted_by cr_id (constraints problem) = true ∧
    strictly_sorted_by as_id (assumptions problem) = true ∧
    strictly_sorted_by sp_id (projections problem) = true ∧
    strictly_sorted_by pr_id (provenance problem) = true) (validate_root problem limits).
Proof.
  unfold validate_root, validate_root_order. apply ensures_skip. intros _.
  apply (ensures_bind (λ _, schema_version problem = PLANNING_IR_SCHEMA_VERSION ∧
    len (variables problem) ≤ max_variables limits ∧
    len (op_levels (objectives problem)) ≤ max_objective_levels limits)).
  - apply ensures_invalid. intros [] H. unfold validate_root_admission in H.
    destruct (Z.eqb_spec (schema_version problem) PLANNING_IR_SCHEMA_VERSION); [|done]. cbn [negb] in H.
    apply result_bind_Ok in H as ([] & [_ H1]%check_limit_Ok & H).
    do 2 (apply result_bind_Ok in H as ([] & _ & H)).
    apply result_bind_Ok in H as ([] & [_ H2]%check_limit_Ok & H). done.
  - intros ? (H1 & H2 & H3). eapply ensures_bind; [apply strict_by_ensures|]. intros ? S1.
    eapply ensures_bind; [apply strict_by_ensures|]. intros ? S2.
    eapply ensures_bind; [apply strict_by_ensures|]. intros ? S3.
    eapply ensures_bind; [apply strict_by_ensures|]. intros ? S4.
    eapply ensures_weaken; [apply strict_by_ensures|]. done.
Qed.

Lemma validate_assumption_ensures bools ids limits records i st a :
  ensures (λ st', assumption_ok limits a ∧ lit_variable (as_literal a) ∉ st.1.2 ∧
                  st'.1.2 = {[ lit_variable (as_literal a) ]} ∪ st.1.2)
    (validate_assumption bools ids limits records i st a).
Proof.
  destruct st as [[rules lits] k]. unfold validate_assumption. apply ensures_skip. intros _.
  apply ensures_if; intros Hne; [apply ensures_verr|]. apply bool_decide_eq_false in Hne.
  apply (ensures_bind (λ refs, refs = len (as_required_rules a) + 1)).
  { apply ensures_invalid. intros refs. unfold ok_or_code, u64_checked_add, checked_u64.
    case_match eqn:E; repeat case_match; naive_solver. }
  intros refs ->. apply (ensures_bind (λ _, len (as_required_rules a) < max_refs_per_node limits)).
  { apply ensures_invalid. intros [] [_ Hle]%check_limit_Ok. lia. }
  intros _ Hlt. do 2 (apply ensures_skip; intros ?).
  eapply ensures_bind; [apply strict_ensures|]. intros ? Hs.
  destruct (decide _) as [|Hfresh]; [apply ensures_verr|]. do 2 (apply ensures_skip; intros _).
  apply ensures_if; intros _; [apply ensures_verr|]. apply ensures_skip. intros rules'. by apply ensures_ret.
Qed.
Lemma validate_assumptions_ensures problem bools ids n limits :
  ensures (λ _, Forall (assumption_ok limits) (assumptions problem) ∧
                NoDup ((λ a, lit_variable (as_literal a)) <$> assumptions problem))
    (validate_assumptions problem bools ids n limits).
Proof.
  unfold validate_assumptions. case_bool_decide as Hnil.
  { rewrite Hnil. apply ensures_ret. split; constructor. }
  apply ensures_skip. intros records.
  eapply (ensures_bind (λ _, Forall (assumption_ok limits) (assumptions problem) ∧
                NoDup ((λ a, lit_variable (as_literal a)) <$> assumptions problem))).
  2:{ intros [[? ?] ?] H. by apply ensures_ret. }
  eapply ensures_weaken.
  - apply (ensures_fold_m_from (λ done_ st, (Forall (assumption_ok limits) done_ ∧
      NoDup ((λ a, lit_variable (as_literal a)) <$> done_)) ∧
      ∀ v, v ∈ ((λ a, lit_variable (as_literal a)) <$> done_) → v ∈ st.1.2)).
    + repeat split; [constructor|constructor|set_solver].
    + intros i st a done_ [[Hok Hnd] Hin]. eapply ensures_weaken; [apply validate_assumption_ensures|].
      intros st' (Ha & Hfresh & ->). rewrite fmap_app. repeat split.
      * apply Forall_app. split; [done|]. by apply Forall_singleton.
      * apply NoDup_app. split_and!; [done| |apply NoDup_singleton].
        intros v Hv ->%list_elem_of_singleton. auto.
      * set_solver.
  - by intros st [? _].
Qed.

Lemma validate_provenance_ensures problem limits :
  strictly_sorted_by pr_id (provenance problem) = true → 0 ≤ max_provenance_depth limits →
  ensures (λ _, Forall (λ r, strictly_sorted (pr_entity_refs r) = true) (provenance problem) ∧
                chains_bounded (max_provenance_depth limits) (provenance problem))
    (validate_provenance problem limits).
Proof.
  intros Hs Hd. unfold validate_provenance. do 2 (apply ensures_skip; intros ?).
  eapply ensures_bind; [|intros ? H; intros ??? _; exact H].
  apply ensures_guarded. apply ensures_skip. intros _. apply ensures_and.
  - apply (ensures_fold_m (λ done_ _, Forall (λ r, strictly_sorted (pr_entity_refs r) = true) done_)); [constructor|].
    intros memo r done_ Hdone. unfold validate_provenance_record, validate_record_fields.
    apply (ensures_bind (λ _, strictly_sorted (pr_entity_refs r) = true)).
    + do 3 (apply ensures_skip; intros _). eapply ensures_bind; [apply strict_ensures|].
      intros ? H. by intros ???.
    + intros ? Hr. intros ??? _. apply Forall_app. split; [done|]. by apply Forall_singleton.
  - by apply provenance_records_ensures.
Qed.

Definition typed_limits (limits : PlanningIrLimitsV1) : Prop :=
  wf_limits limits ∧ 0 ≤ max_provenance_depth limits ≤ u64_max ∧ max_variables limits ≤ u64_max.

Lemma validate_core_ensures problem limits :
  typed_limits limits → ensures (λ _, Admissible problem limits) (validate_core problem limits).
Proof.
  intros (Hwf & Hd & _). unfold validate_core.
  eapply ensures_bind; [apply validate_root_ensures|]. intros ? (H1 & H2 & H3 & S1 & S2 & S3 & S4 & S5).
  eapply ensures_bind; [by apply validate_variables_ensures|]. intros [refs n] Hr. cbn [fst] in Hr.
  pose proof Hr as [_ Hb Hi Hv Hok Hdom Hvars].
  eapply ensures_bind; [by apply validate_constraints_ensures|]. intros ? Hcons.
  eapply ensures_bind; [rewrite Hi; by apply validate_objectives_ensures|]. intros ? [Hlev Hlids].
  eapply ensures_bind; [apply validate_assumptions_ensures|]. intros ? [Has Hav].
  eapply ensures_bind; [by apply validate_projections_ensures|]. intros ? [Hproj Hnd].
  eapply ensures_bind; [apply validate_provenance_ensures; [done|lia]|]. intros ? [Her Hch].
  apply ensures_skip. intros _. apply ensures_ret. by split.
Qed.

(** Acceptance by either entry point admits the problem. *)
Lemma validate_admits blake3_hex problem limits :
  typed_limits limits → validate blake3_hex problem limits = Ok tt → Admissible problem limits.
Proof.
  intros Hl. unfold validate, validate_outcome.
  destruct (validate_core problem limits None) as [[r|[e|e]] s] eqn:Hrun; cbn; [|done..]. intros _.
  by eapply validate_core_ensures.
Qed.

(** ** Objectives of accepted problems *)
Lemma admitted_levels problem limits σ :
  Admissible problem limits → respects (int_domains problem) σ →
  Forall2 in_level (op_levels (objectives problem)) (level_value σ <$> op_levels (objectives problem)).
Proof.
  intros Hadm Hσ. pose proof (adm_levels (limits := limits)) as Hl.
  apply Forall2_fmap_r, Forall_Forall2_diag. eapply Forall_impl; [exact Hl|]. intros level Hw. by apply Hw.
Qed.

(** C10. For a problem validation has accepted with at most [MAX_SCORE_LEVELS] levels, when the
    strategy is exact scalarization, the weighted sum a backend optimizes orders any two in-domain
    candidates exactly as [ScoreVector::compare] orders their level-by-level scores. *)
Theorem accepted_scalarization_is_exact blake3_hex problem limits weights σ τ :
  typed_limits limits → max_objective_levels limits ≤ MAX_SCORE_LEVELS →
  validate blake3_hex problem limits = Ok tt →
  lexicographic_strategy (objectives problem) = ExactScalarization weights →
  respects (int_domains problem) σ → respects (int_domains problem) τ →
  let ls := op_levels (objectives problem) in
  ScoreVector_compare (score_of ls (level_value σ <$> ls)) (score_of ls (level_value τ <$> ls)) =
  Ok (Z.compare (scalar_value ls weights (level_value σ <$> ls))
                (scalar_value ls weights (level_value τ <$> ls))).
Proof.
  intros Hl Hmax Hv Hstrat Hσ Hτ ls. pose proof (validate_admits _ _ _ Hl Hv) as Hadm.
  apply scores_compare_scalar; [|apply Hadm| |done|by eapply admitted_levels..].
  - eapply Forall_impl; [apply Hadm|]. by intros level [? _ _ _ _].
  - pose proof (adm_level_count (problem := problem) (limits := limits)). lia.
Qed.
