(* ===== verification/Canonical.v ===== *)
(** * Canonical form, hashes, summaries and prepared models

    Models [crates/eutheto-planning-ir/src/canonical.rs].  [serde_json] and BLAKE3 are parameters:
    a serializer is what it writes, chunk by chunk, and whether it reaches the end; the hash is a
    function of the bytes fed to it. *)
From stdpp Require Import base tactics list gmap strings.
From Stdlib Require Import ZArith Lia.
From S2P Require Import Prelude Ordering Control Budget Ids DomainIr Model Analysis Validation.
Open Scope Z_scope.

(** ** Normalization *)
Notation MR := (Result ModelError).
Definition traverse {A B} (f : A → MR B) (l : list A) : MR (list B) :=
  fold_m (λ acc x, y ← f x; Ok (acc ++ [y])) [] l.
(** The early return of [canonicalize_expression]. *)
Definition expression_is_canonical (e : LinearExpression) : bool :=
  forallb (λ t, negb (lt_coefficient t =? 0)) (le_terms e)
  && strictly_sorted_by lt_variable (le_terms e).
Definition canonicalize_expression (e : LinearExpression) : MR LinearExpression :=
  if expression_is_canonical e then Ok e else LinearExpression_new (le_terms e) (le_constant e).
Definition canonicalize_comparison (c : LinearComparison) : MR LinearComparison :=
  e ← canonicalize_expression (lc_expression c);
  Ok {| lc_expression := e; lc_op := lc_op c; lc_rhs := lc_rhs c |}.
Definition canonicalize_constraint_expressions (c : Constraint_) : MR Constraint_ :=
  match c with
  | LinearComparison_ comparison =>
      comparison ← canonicalize_comparison comparison; Ok (LinearComparison_ comparison)
  | ReifiedLinearComparison literal comparison =>
      comparison ← canonicalize_comparison comparison;
      Ok (ReifiedLinearComparison literal comparison)
  | _ => Ok c
  end.
Definition set_body (r : ConstraintRecord) (body : Constraint_) : ConstraintRecord :=
  {| cr_id := cr_id r; cr_body := body; cr_enforcement := cr_enforcement r;
     cr_provenance := cr_provenance r; cr_tags := cr_tags r |}.
Definition canonicalize_record (r : ConstraintRecord) : MR ConstraintRecord :=
  let r := ConstraintRecord_canonicalize r in
  body ← canonicalize_constraint_expressions (cr_body r); Ok (set_body r body).
Definition canonicalize_variable (v : Variable_) : MR Variable_ :=
  match v with
  | VInteger i =>
      d ← IntDomain_new (inclusive_ranges (iv_domain i));
      Ok (VInteger {| iv_id := iv_id i; iv_domain := d; iv_provenance := iv_provenance i |})
  | _ => Ok v
  end.
Definition canonicalize_term (t : ObjectiveTerm) : MR ObjectiveTerm :=
  e ← canonicalize_expression (ot_expression t);
  Ok {| ot_id := ot_id t; ot_expression := e; ot_kind := ot_kind t; ot_category := ot_category t;
        ot_provenance := ot_provenance t |}.
Definition canonicalize_level (l : ObjectiveLevel) : MR ObjectiveLevel :=
  terms ← traverse canonicalize_term (ol_terms l);
  Ok {| ol_id := ol_id l; ol_direction := ol_direction l; ol_lower_bound := ol_lower_bound l;
        ol_upper_bound := ol_upper_bound l; ol_terms := sort_by_key ot_id terms;
        ol_provenance := ol_provenance l |}.
Definition canonicalize_objectives (o : ObjectivePlan) : MR ObjectivePlan :=
  ls ← traverse canonicalize_level (op_levels o); Ok {| op_levels := ls |}.
Definition sort_rules (a : Assumption) : Assumption :=
  {| as_id := as_id a; as_literal := as_literal a; as_required_rules := ord_sort (as_required_rules a);
     as_provenance := as_provenance a |}.
Definition canonicalize_projection (p : SolutionProjection) : MR SolutionProjection :=
  match sp_expression p with
  | PELinear e =>
      e ← canonicalize_expression e;
      Ok {| sp_id := sp_id p; sp_assignment_id := sp_assignment_id p; sp_entity := sp_entity p;
            sp_required := sp_required p; sp_expression := PELinear e;
            sp_provenance := sp_provenance p |}
  | _ => Ok p
  end.
Definition canonicalize_provenance (r : ProvenanceRecord) : ProvenanceRecord :=
  {| pr_id := pr_id r; pr_source_kind := pr_source_kind r; pr_source_id := pr_source_id r;
     pr_entity_refs := dedup (ord_sort (pr_entity_refs r)); pr_message_key := pr_message_key r;
     pr_parameters := pr_parameters r; pr_parent := pr_parent r |}.
Definition set_capabilities (caps : gset Capability) (p : PlanningProblem) : PlanningProblem :=
  {| schema_version := schema_version p; variables := variables p; constraints := constraints p;
     objectives := objectives p; assumptions := assumptions p; projections := projections p;
     provenance := provenance p; metadata := metadata p; declared_capabilities := caps;
     split_authorization := split_authorization p |}.
(** [PlanningProblem::canonicalize]; its callers discard the problem on an error. *)
Definition canonicalize (self : PlanningProblem) : MR PlanningProblem :=
  vars ← traverse canonicalize_variable (variables self);
  records ← traverse canonicalize_record (constraints self);
  plan ← canonicalize_objectives (objectives self);
  projs ← traverse canonicalize_projection (sort_by_key sp_id (projections self));
  let canonical :=
    {| schema_version := schema_version self;
       variables := sort_by_key canonical_id vars;
       constraints := sort_by_key cr_id records;
       objectives := plan;
       assumptions := sort_by_key as_id (sort_rules <$> assumptions self);
       projections := projs;
       provenance := canonicalize_provenance <$> sort_by_key pr_id (provenance self);
       metadata := metadata self;
       declared_capabilities := declared_capabilities self;
       split_authorization := split_authorization self |} in
  Ok (set_capabilities (required_capabilities (feature_usage canonical)) canonical).

(** ** Errors *)
Inductive CanonicalError :=
| CModel (e : ModelError)
| CValidation (e : ValidationError)
| CPreparation (e : PlanningPreparationError)
| CSerialization.
Definition of_budgeted (e : BudgetedValidationError) : CanonicalError :=
  match e with Invalid e => CValidation e | Preparation e => CPreparation e end.
Notation CM := (SE PlanningPreparationBudget CanonicalError).
Definition cprep {A} (m : Prep A) : CM A := λ b, let '(r, b') := m b in (map_err CPreparation r, b').
Definition cmodel {A} (r : MR A) : CM A := se_lift (map_err CModel r).
Definition cvalid {A} (r : VR A) : CM A := se_lift (map_err CValidation r).
(** A reservation whose scope is [m], dropped on every path. *)
Definition cscoped {A} (amount : Z) (m : CM A) : CM A :=
  r ← cprep (reserve_transient_owned amount);
  se_state (λ b, let '(res, b') := m b in (res, retire (bytes r) b')).
(** A reservation that an early return of [m] drops. *)
Definition cor_drop {A} (amount : Z) (m : CM A) : CM A := λ b,
  match m b with (Ok a, b') => (Ok a, b') | (Err e, b') => (Err e, retire amount b') end.

(** ** The hashed view *)
Record CanonicalHashMetadata := {
  chm_pack_id : string; chm_scenario_id : string; chm_scenario_revision : Z;
  chm_projection_version : Z; chm_compiler_id : string; chm_compiler_version : string;
  chm_compile_metadata : gmap string ProvenanceParameter; chm_display_text : gmap string string
}.
Record CanonicalHashProblem := {
  ch_schema_version : Z; ch_variables : list Variable_; ch_constraints : list ConstraintRecord;
  ch_objectives : ObjectivePlan; ch_assumptions : list Assumption;
  ch_projections : list SolutionProjection; ch_provenance : list ProvenanceRecord;
  ch_metadata : CanonicalHashMetadata; ch_declared_capabilities : gset Capability;
  ch_split_authorization : option SplitAuthorization
}.
Definition canonical_hash_view (problem : PlanningProblem) (caps : gset Capability) :
    CanonicalHashProblem := {|
  ch_schema_version := schema_version problem;
  ch_variables := variables problem; ch_constraints := constraints problem;
  ch_objectives := objectives problem; ch_assumptions := assumptions problem;
  ch_projections := projections problem; ch_provenance := provenance problem;
  ch_metadata := {|
    chm_pack_id := pm_pack_id (metadata problem);
    chm_scenario_id := pm_scenario_id (metadata problem);
    chm_scenario_revision := pm_scenario_revision (metadata problem);
    chm_projection_version := pm_projection_version (metadata problem);
    chm_compiler_id := pm_compiler_id (metadata problem);
    chm_compiler_version := pm_compiler_version (metadata problem);
    chm_compile_metadata := pm_compile_metadata (metadata problem);
    chm_display_text := ∅ |};
  ch_declared_capabilities := caps;
  ch_split_authorization := None |}.
(** [semantic.metadata.display_text.clear()] and [semantic.split_authorization = None] *)
Definition clear_display (m : PlanningMetadata) : PlanningMetadata :=
  {| pm_pack_id := pm_pack_id m; pm_scenario_id := pm_scenario_id m;
     pm_scenario_revision := pm_scenario_revision m; pm_projection_version := pm_projection_version m;
     pm_compiler_id := pm_compiler_id m; pm_compiler_version := pm_compiler_version m;
     pm_compile_metadata := pm_compile_metadata m; pm_display_text := ∅ |}.
Definition semantic_part (p : PlanningProblem) : PlanningProblem :=
  {| schema_version := schema_version p; variables := variables p; constraints := constraints p;
     objectives := objectives p; assumptions := assumptions p; projections := projections p;
     provenance := provenance p; metadata := clear_display (metadata p);
     declared_capabilities := declared_capabilities p; split_authorization := None |}.

(** ** Solve fingerprints *)
Record SolveFingerprintInput := {
  sf_canonical_ir_hash : string; sf_backend_id : string; sf_backend_version : string;
  sf_adapter_version : string; sf_canonical_options : list Z
}.
Definition SOLVE_FINGERPRINT_DOMAIN : list Z := str_bytes "eutheto.routed-solve-fingerprint.v1".
(** [u64::to_be_bytes] *)
Definition be_bytes (n : nat) (v : Z) : list Z := reverse (le_bytes n v).
Definition fingerprint_field (value : list Z) : list Z := be_bytes 8 (len value mod 2 ^ 64) ++ value.
Definition fingerprint_preimage (input : SolveFingerprintInput) : list Z :=
  SOLVE_FINGERPRINT_DOMAIN
  ++ fingerprint_field (str_bytes (sf_canonical_ir_hash input))
  ++ fingerprint_field (str_bytes (sf_backend_id input))
  ++ fingerprint_field (str_bytes (sf_backend_version input))
  ++ fingerprint_field (str_bytes (sf_adapter_version input))
  ++ fingerprint_field (sf_canonical_options input).
Definition OBJECTIVE_POLICY_DOMAIN : list Z := str_bytes "eutheto/planning-objective-policy/v1" ++ [0].

(** ** Summaries *)
Record PlanningProblemSummary := {
  su_schema_version : Z; su_variable_count : Z; su_bool_variable_count : Z;
  su_int_variable_count : Z; su_interval_variable_count : Z; su_constraint_count : Z;
  su_assumption_count : Z; su_objective_level_count : Z; su_objective_term_count : Z;
  su_lexicographic_strategy : LexicographicStrategy; su_projection_count : Z;
  su_provenance_count : Z; su_domain_range_count : Z; su_total_reference_count : Z;
  su_min_coefficient : option Z; su_max_coefficient : option Z;
  su_manifest : FeatureUsageManifest; su_components : ComponentAnalysis;
  su_canonical_ir_hash : string
}.
Record BudgetedPlanningSummary := {
  bps_summary : PlanningProblemSummary;
  bps_component_reservation : Guard;
  bps_summary_reservation : Guard
}.
Definition summary_output_bytes (canonical : PlanningProblem) (manifest : FeatureUsageManifest) :
    Prep Z :=
  units ← fold_m (λ units value, se_lift (add_units units value)) 0
    [len (variables canonical); len (constraints canonical); len (assumptions canonical);
     len (op_levels (objectives canonical)); len (projections canonical);
     len (provenance canonical)];
  units ← fold_m (λ units value,
            se_lift (ok_or PrepArithmeticOverflow (u64_checked_add units value))) units
    [literal_reference_count manifest; linear_term_count manifest; table_cell_count manifest];
  se_lift (ok_or PrepArithmeticOverflow (v ← u64_checked_mul units 256; u64_checked_add v 8192)).

(** The variable counters of [summary_from_canonical_inner]. *)
Record VariableCounts := {
  vc_bools : Z; vc_ints : Z; vc_intervals : Z; vc_ranges : Z
}.
Definition count_variable (c : VariableCounts) (v : Variable_) : VariableCounts :=
  match v with
  | VBoolean _ => {| vc_bools := vc_bools c + 1; vc_ints := vc_ints c;
                     vc_intervals := vc_intervals c; vc_ranges := vc_ranges c |}
  | VInteger i => {| vc_bools := vc_bools c; vc_ints := vc_ints c + 1; vc_intervals := vc_intervals c;
                     vc_ranges := u64_saturating_add (vc_ranges c)
                                    (len (inclusive_ranges (iv_domain i))) |}
  | VInterval _ => {| vc_bools := vc_bools c; vc_ints := vc_ints c;
                      vc_intervals := vc_intervals c + 1; vc_ranges := vc_ranges c |}
  end.
(** [(min_coefficient, max_coefficient)] *)
Definition Extremes : Type := option Z * option Z.
Definition widen (e : Extremes) (coefficient : Z) : Extremes :=
  (Some (match e.1 with Some v => Z.min v coefficient | None => coefficient end),
   Some (match e.2 with Some v => Z.max v coefficient | None => coefficient end)).
Definition widen_terms (e : Extremes) (terms : list LinearTerm) : AM Extremes :=
  fold_m (λ e t, _ ← visit; mret (widen e (lt_coefficient t))) e terms.
Definition widen_constraint (e : Extremes) (r : ConstraintRecord) : AM Extremes :=
  _ ← visit;
  match cr_body r with
  | LinearComparison_ comparison | ReifiedLinearComparison _ comparison =>
      widen_terms e (le_terms (lc_expression comparison))
  | _ => mret e
  end.
Definition widen_level (st : Z * Extremes) (l : ObjectiveLevel) : AM (Z * Extremes) :=
  let '(n, e) := st in
  _ ← visit;
  e ← fold_m (λ e t, _ ← visit; widen_terms e (le_terms (ot_expression t))) e (ol_terms l);
  mret (u64_saturating_add n (len (ol_terms l)), e).
Definition summary_from_canonical_inner (canonical : PlanningProblem)
    (manifest : FeatureUsageManifest) (analysis : BudgetedComponentAnalysis) (hash : string) :
    AM BudgetedPlanningSummary :=
  summary_guard ← on_err (bca_reservation analysis)
                    (open_guard (summary_output_bytes canonical manifest));
  on_err (bca_reservation analysis) (on_err summary_guard (
    _ ← visit;
    counts ← fold_m (λ c v, _ ← visit; mret (count_variable c v))
               {| vc_bools := 0; vc_ints := 0; vc_intervals := 0; vc_ranges := 0 |}
               (variables canonical);
    extremes ← fold_m widen_constraint (None, None) (constraints canonical);
    '(term_count, extremes) ← fold_m widen_level (0, extremes) (op_levels (objectives canonical));
    mret {|
      bps_summary := {|
        su_schema_version := schema_version canonical;
        su_variable_count := len (variables canonical);
        su_bool_variable_count := vc_bools counts;
        su_int_variable_count := vc_ints counts;
        su_interval_variable_count := vc_intervals counts;
        su_constraint_count := len (constraints canonical);
        su_assumption_count := len (assumptions canonical);
        su_objective_level_count := len (op_levels (objectives canonical));
        su_objective_term_count := term_count;
        su_lexicographic_strategy := lexicographic_strategy (objectives canonical);
        su_projection_count := len (projections canonical);
        su_provenance_count := len (provenance canonical);
        su_domain_range_count := vc_ranges counts;
        su_total_reference_count :=
          u64_saturating_add (u64_saturating_add (u64_saturating_add
            (literal_reference_count manifest) (linear_term_count manifest))
            (table_cell_count manifest)) (edge_count (bca_analysis analysis));
        su_min_coefficient := extremes.1;
        su_max_coefficient := extremes.2;
        su_manifest := manifest;
        su_components := bca_analysis analysis;
        su_canonical_ir_hash := hash |};
      bps_component_reservation := bca_reservation analysis;
      bps_summary_reservation := summary_guard |})).
(** [summary_from_canonical]: the uncontrolled call. *)
Definition summary_from_canonical (canonical : PlanningProblem) (manifest : FeatureUsageManifest)
    (analysis : ComponentAnalysis) (hash : string) :
    Result PlanningPreparationError PlanningProblemSummary :=
  s ← (summary_from_canonical_inner canonical manifest
         {| bca_analysis := analysis; bca_reservation := None |} hash None).1;
  Ok (bps_summary s).
(** A computation over an optional budget, run on a budget. *)
Definition with_budget {A} (m : AM A) : Prep A := λ b,
  match m (Some b) with (r, Some b') => (r, b') | (r, None) => (r, b) end.

(** ** Entry points *)
(** What a serializer writes: the chunks of bytes, and whether it reaches the end. *)
Record Bytes := { by_chunks : list (list Z); by_complete : bool }.
Definition lengths (b : Bytes) : Encoding :=
  {| enc_chunks := len <$> by_chunks b; enc_complete := by_complete b |}.

Section entry_points.
Context (blake3_hex : list Z → string).
Context (serialize_problem : PlanningProblem → Bytes).
Context (serialize_view : CanonicalHashProblem → Bytes).
Context (serialize_objectives : ObjectivePlan → Bytes).

Definition routed_solve_fingerprint (input : SolveFingerprintInput) : string :=
  blake3_hex (fingerprint_preimage input).

(** [ControlledHashWriter::write], for every chunk. *)
Definition hash_write (fed chunk : list Z) : CM (list Z) :=
  _ ← cprep (reserve_work (len chunk / 64 + 1)); mret (fed ++ chunk).
Definition hash_canonical_problem_with_budget (problem : PlanningProblem) (caps : gset Capability) :
    CM string :=
  let view := serialize_view (canonical_hash_view problem caps) in
  fed ← fold_m hash_write [] (by_chunks view);
  if by_complete view then mret (blake3_hex fed) else se_fail CSerialization.

Definition admit_serialized {A} (problem : PlanningProblem) (limits : PlanningIrLimitsV1)
    (body : Z → CM A) : CM A :=
  encoded_bytes ← cprep (precharge_serialized (lengths (serialize_problem problem))
                           (max_ir_bytes limits));
  scratch ← cprep (se_lift (serialized_scratch_bytes encoded_bytes));
  cscoped scratch (body encoded_bytes).

(** The entry points without a budget run on a fresh uncontrolled one. *)
Definition canonical_json (problem : PlanningProblem) (limits : PlanningIrLimitsV1) : CM (list Z) :=
  admit_serialized problem limits (λ encoded_bytes,
    _ ← cvalid (validate blake3_hex problem limits);
    canonical ← cmodel (canonicalize problem);
    _ ← cvalid (validate blake3_hex canonical limits);
    _ ← cprep (reserve_work (encoded_bytes / 64 + 1));
    _ ← cprep budget_check;
    let out := serialize_problem canonical in
    if by_complete out then mret (concat (by_chunks out)) else se_fail CSerialization).

Definition canonical_ir_hash (problem : PlanningProblem) (limits : PlanningIrLimitsV1) : CM string :=
  admit_serialized problem limits (λ encoded_bytes,
    _ ← cprep (reserve_work (encoded_bytes / 64 + 1));
    _ ← cvalid (validate blake3_hex problem limits);
    canonical ← cmodel (canonicalize problem);
    let semantic := semantic_part canonical in
    _ ← cvalid (validate blake3_hex semantic limits);
    hash_canonical_problem_with_budget semantic (declared_capabilities semantic)).

Definition cvalid_with_budget (problem : PlanningProblem) (limits : PlanningIrLimitsV1) :
    CM (FeatureUsageManifest * BudgetedComponentAnalysis) := λ b,
  let '(r, b') := validate_with_budget blake3_hex problem limits b in (map_err of_budgeted r, b').
Definition retire_components (a : BudgetedComponentAnalysis) : CM unit := λ b,
  (Ok tt, retire (default 0 (bca_reservation a)) b).
Definition canonical_ir_hash_with_budget (problem : PlanningProblem) (limits : PlanningIrLimitsV1) :
    CM string :=
  admit_serialized problem limits (λ _,
    '(manifest, analysis) ← cvalid_with_budget problem limits;
    _ ← retire_components analysis;
    _ ← cprep budget_check;
    cscoped 4096 (
      hash_canonical_problem_with_budget problem (required_capabilities manifest))).

Definition canonical_objective_policy_hash (problem : PlanningProblem)
    (limits : PlanningIrLimitsV1) : Result CanonicalError string :=
  _ ← map_err CValidation (validate blake3_hex problem limits);
  plan ← map_err CModel (canonicalize_objectives (objectives problem));
  let out := serialize_objectives plan in
  if by_complete out
  then Ok (blake3_hex (OBJECTIVE_POLICY_DOMAIN ++ concat (by_chunks out)))
  else Err CSerialization.

Definition summarize (problem : PlanningProblem) (limits : PlanningIrLimitsV1) :
    CM PlanningProblemSummary :=
  admit_serialized problem limits (λ _,
    _ ← cvalid (validate blake3_hex problem limits);
    canonical ← cmodel (canonicalize problem);
    _ ← cvalid (validate blake3_hex canonical limits);
    let manifest := feature_usage canonical in
    let analysis := analyze_components blake3_hex canonical in
    hash ← hash_canonical_problem_with_budget canonical (required_capabilities manifest);
    se_lift (map_err CPreparation (summary_from_canonical canonical manifest analysis hash))).

Definition summarize_with_budget (problem : PlanningProblem) (limits : PlanningIrLimitsV1) :
    CM BudgetedPlanningSummary :=
  admit_serialized problem limits (λ _,
    '(manifest, analysis) ← cvalid_with_budget problem limits;
    hash ← cor_drop (default 0 (bca_reservation analysis)) (
      _ ← cprep budget_check;
      cscoped 4096 (
        hash_canonical_problem_with_budget problem (required_capabilities manifest)));
    cprep (with_budget (summary_from_canonical_inner problem manifest analysis hash))).

(** ** Prepared models *)
Record PreparedPlanningModel := {
  pp_problem : PlanningProblem;
  pp_summary : PlanningProblemSummary;
  pp_limits : PlanningIrLimitsV1;
  pp_retained : TransientReservation;
  pp_component_reservation : option TransientReservation;
  pp_summary_reservation : option TransientReservation
}.
Definition owned (b : PlanningPreparationBudget) (g : Guard) : option TransientReservation :=
  (λ n, {| counter := counter_id b; bytes := n |}) <$> g.
Definition prepare (problem : PlanningProblem) (limits : PlanningIrLimitsV1) :
    CM PreparedPlanningModel :=
  units ← cprep (fold_m (λ units value, se_lift (add_units units value)) 0
    [len (variables problem); len (constraints problem); len (assumptions problem);
     len (projections problem); len (provenance problem)]);
  retained ← cprep (se_lift (ok_or PrepArithmeticOverflow
               (v ← u64_checked_mul units 384; u64_checked_add v 4096)));
  reservation ← cprep (reserve_transient_owned retained);
  summary ← cor_drop (bytes reservation) (summarize_with_budget problem limits);
  se_state (λ b, (Ok {| pp_problem := problem; pp_summary := bps_summary summary; pp_limits := limits;
                        pp_retained := reservation;
                        pp_component_reservation := owned b (bps_component_reservation summary);
                        pp_summary_reservation := owned b (bps_summary_reservation summary) |}, b)).

(** [release]; [owners] is [Arc::strong_count]. A refused release drops the value all the same, which
    retires the reservations only when it was the last owner. *)
Definition release_all (model : PreparedPlanningModel) (b : PlanningPreparationBudget) :
    PlanningPreparationBudget :=
  let drop_if (r : option TransientReservation) b :=
    match r with Some r => if belongs_to r b then retire (bytes r) b else b | None => b end in
  drop_if (pp_summary_reservation model)
    (drop_if (pp_component_reservation model) (drop_if (Some (pp_retained model)) b)).
Definition release (owners : nat) (model : PreparedPlanningModel) : Prep unit := λ b,
  let owns_budget :=
    belongs_to (pp_retained model) b
    && match pp_component_reservation model with Some g => belongs_to g b | None => false end
    && match pp_summary_reservation model with Some g => belongs_to g b | None => false end in
  if negb (Nat.eqb owners 1) || negb owns_budget
  then (Err PrepArithmeticOverflow, if Nat.eqb owners 1 then release_all model b else b)
  else (Ok tt, release_all model b).
End entry_points.
