(* ===== verification/CanonicalFacts.v ===== *)
(** * Canonical form: facts

    Normalization is the identity on problems validation has admitted, up to the declared
    capabilities; the canonical hash is a function of the semantic content alone and both hash entry
    points compute it; solve fingerprints are unambiguous. *)
From stdpp Require Import base tactics list gmap strings.
From Stdlib Require Import ZArith Lia Ascii Sorting.Sorted.
From S2P Require Import Prelude Ordering Control Budget Ids DomainIr Model Analysis Erasure.
From S2P Require Import Validation ValidationAgreement Bounds Scoping Provenance.
From S2P Require Import Lexicographic Admission Canonical.
Open Scope Z_scope.

(** ** Traversals *)
Lemma traverse_snoc {A B} (f : A → MR B) acc l :
  fold_m (λ acc x, y ← f x; Ok (acc ++ [y])) acc l = r ← traverse f l; Ok (acc ++ r).
Proof.
  unfold traverse. assert (∀ a b, fold_m (λ acc x, y ← f x; Ok (acc ++ [y])) (a ++ b) l
    = r ← fold_m (λ acc x, y ← f x; Ok (acc ++ [y])) b l; Ok (a ++ r)) as H.
  { induction l as [|x l IH]; intros a b; [done|]. cbn. destruct (f x) as [y|]; cbn; [|done].
    rewrite <-app_assoc. apply IH. }
  rewrite <-(app_nil_r acc) at 1. apply H.
Qed.
Lemma traverse_cons {A B} (f : A → MR B) x l :
  traverse f (x :: l) = y ← f x; r ← traverse f l; Ok (y :: r).
Proof.
  unfold traverse at 1. cbn. destruct (f x) as [y|]; cbn; [|done]. rewrite traverse_snoc.
  by destruct (traverse f l).
Qed.
Lemma traverse_id {A} (f : A → MR A) l : Forall (λ x, f x = Ok x) l → traverse f l = Ok l.
Proof.
  induction 1 as [|x l Hx _ IH]; [done|]. by rewrite traverse_cons, Hx, IH.
Qed.
Lemma traverse_Ok {A B} (f : A → MR B) l k : traverse f l = Ok k ↔ Forall2 (λ x y, f x = Ok y) l k.
Proof.
  revert k. induction l as [|x l IH]; intros k.
  { split; [by intros [= <-]|by inversion 1]. }
  rewrite traverse_cons, result_bind_Ok. split.
  - intros (y & Hy & (r & Hr & [= <-])%result_bind_Ok). constructor; [done|]. by apply IH.
  - inversion 1 as [|? y ? r Hy Hr]; subst. exists y. split; [done|]. apply result_bind_Ok.
    exists r. split; [by apply IH|done].
Qed.

(** ** Normalization of admitted problems *)
Lemma expression_wf_fixed ints e : expression_wf ints e → canonicalize_expression e = Ok e.
Proof.
  intros [_ [Hs Hnz] _]. unfold canonicalize_expression, expression_is_canonical. rewrite Hs.
  assert (forallb (λ t, negb (lt_coefficient t =? 0)) (le_terms e) = true) as ->; [|done].
  apply forallb_forall. intros t Ht. rewrite Forall_forall in Hnz.
  apply negb_true_iff, Z.eqb_neq, Hnz. by apply list_elem_of_In.
Qed.
Lemma dedup_sort_id {A} `{OrdLaws A, EqDecision A} (l : list A) :
  strictly_sorted l = true → dedup (ord_sort l) = l.
Proof. intros Hs. rewrite ord_sort_id by done. by apply dedup_id. Qed.
Lemma zip_sorted (ids : list string) (demands : list Z) :
  strictly_sorted ids = true → strictly_sorted_by fst (zip ids demands) = true.
Proof.
  unfold strictly_sorted. rewrite !strictly_sorted_by_spec. intros Hs. revert demands.
  induction Hs as [|x l Hs IH Hall]; intros [|d ds]; cbn; try constructor; [apply IH|].
  apply Forall_forall. intros [y e] Hin%elem_of_zip_l. rewrite Forall_forall in Hall. by apply Hall.
Qed.

Lemma constraint_wf_fixed bools ints intervals c :
  constraint_wf bools ints intervals c →
  canonicalize_body c = c ∧ canonicalize_constraint_expressions c = Ok c.
Proof.
  unfold canonicalize_body, canonical_literals, canonical_ids, canonicalize_constraint_expressions,
    canonicalize_comparison.
  destruct c; cbn; intros H; (split; [|try done]).
  all: try (destruct H as [Hs _]; by rewrite dedup_sort_id).
  all: try (destruct H as (_ & _ & Hs & _); by rewrite dedup_sort_id).
  all: try (destruct H as (_ & _ & Hs); by rewrite dedup_sort_id).
  all: try done.
  - rewrite (expression_wf_fixed _ _ H). by destruct comparison.
  - destruct H as [_ H]. rewrite (expression_wf_fixed _ _ H). by destruct comparison.
  - destruct H as (Hs & _ & Hlen & _). unfold len in Hlen.
    rewrite sort_by_key_id by (by apply zip_sorted). rewrite fst_zip, snd_zip by lia. done.
Qed.

Section admitted.
Context (problem : PlanningProblem) (limits : PlanningIrLimitsV1) `{!Admissible problem limits}.

Lemma admitted_variables_fixed :
  Forall (λ v, canonicalize_variable v = Ok v) (variables problem).
Proof.
  eapply Forall_impl; [apply (adm_domains (problem := problem))|]. intros [v|i|v] H; try done.
  destruct H as [[Hc Hi] Hne]. cbn. rewrite IntDomain_new_canonical by done. by destruct i as [? [] ?].
Qed.
Lemma admitted_records_fixed :
  Forall (λ r, canonicalize_record r = Ok r) (constraints problem).
Proof.
  eapply Forall_impl; [apply (adm_constraints (problem := problem))|]. intros r [H1 H2 _ H3].
  destruct (constraint_wf_fixed _ _ _ _ H3) as [Hb He].
  unfold canonicalize_record, ConstraintRecord_canonicalize. cbn [cr_body].
  rewrite Hb, He. cbn. unfold canonical_literals, canonical_ids, set_body.
  rewrite !dedup_sort_id by done. by destruct r.
Qed.
Lemma admitted_levels_fixed :
  Forall (λ l, canonicalize_level l = Ok l) (op_levels (objectives problem)).
Proof.
  eapply Forall_impl; [apply (adm_levels (problem := problem))|]. intros l [_ Hs Ht _ _].
  unfold canonicalize_level. rewrite traverse_id.
  - cbn. rewrite sort_by_key_id by done. by destruct l.
  - eapply Forall_impl; [exact Ht|]. intros t He. unfold canonicalize_term.
    rewrite (expression_wf_fixed _ _ He). by destruct t.
Qed.
Lemma admitted_projections_fixed :
  Forall (λ p, canonicalize_projection p = Ok p) (projections problem).
Proof.
  eapply Forall_impl; [apply (adm_projections (problem := problem))|]. intros p Hp.
  unfold projection_wf, canonicalize_projection in *. destruct (sp_expression p) eqn:He; try done.
  rewrite (expression_wf_fixed _ _ Hp). destruct p; cbn in *; by subst.
Qed.

Lemma canonicalize_admitted :
  canonicalize problem = Ok (set_capabilities (required_capabilities (feature_usage problem)) problem).
Proof.
  unfold canonicalize, canonicalize_objectives.
  rewrite (traverse_id _ _ admitted_variables_fixed), (traverse_id _ _ admitted_records_fixed),
    (traverse_id _ _ admitted_levels_fixed).
  rewrite (sort_by_key_id sp_id) by apply (adm_projections_sorted (problem := problem)).
  rewrite (traverse_id _ _ admitted_projections_fixed). cbn [mbind Result_bind].
  rewrite (sort_by_key_id canonical_id) by apply (adm_variables_sorted (problem := problem)).
  rewrite (sort_by_key_id cr_id) by apply (adm_constraints_sorted (problem := problem)).
  rewrite (sort_by_key_id pr_id) by apply (adm_provenance_sorted (problem := problem)).
  assert (sort_rules <$> assumptions problem = assumptions problem) as ->.
  { apply Forall_fmap_id. eapply Forall_impl; [apply (adm_assumption_rules (problem := problem))|].
    intros a Ha. unfold sort_rules. rewrite ord_sort_id by apply Ha. by destruct a. }
  rewrite (sort_by_key_id as_id) by apply (adm_assumptions_sorted (problem := problem)).
  assert (canonicalize_provenance <$> provenance problem = provenance problem) as ->.
  { apply Forall_fmap_id. eapply Forall_impl; [apply (adm_entity_refs (problem := problem))|].
    intros r Hr. unfold canonicalize_provenance. rewrite dedup_sort_id by done. by destruct r. }
  replace {| op_levels := op_levels (objectives problem) |} with (objectives problem)
    by (by destruct (objectives problem)).
  by destruct problem.
Qed.
End admitted.

(** C17. Strict validation admits canonical models only: on every accepted problem the normalization
    pass changes nothing but the declared capabilities, which become exactly the required ones. *)
Theorem canonicalize_accepted_is_identity blake3_hex problem limits :
  typed_limits limits → validate blake3_hex problem limits = Ok tt →
  canonicalize problem = Ok (set_capabilities (required_capabilities (feature_usage problem)) problem).
Proof. intros Hl Hv. eapply canonicalize_admitted. by eapply validate_admits. Qed.

(** ** The canonical hash *)
Section hashes.
Context (blake3_hex : list Z → string).
Context (serialize_problem : PlanningProblem → Bytes) (serialize_view : CanonicalHashProblem → Bytes).

Definition hash_of (problem : PlanningProblem) : string :=
  blake3_hex (concat (by_chunks (serialize_view
    (canonical_hash_view problem (required_capabilities (feature_usage problem)))))).

Lemma cprep_Ok {A} (m : Prep A) b a b' : cprep m b = (Ok a, b') ↔ m b = (Ok a, b').
Proof. unfold cprep. destruct (m b) as [[]]; cbn; naive_solver. Qed.
Lemma cscoped_Ok {A} n (m : CM A) b a b' : cscoped n m b = (Ok a, b') → ∃ b1 b2, m b1 = (Ok a, b2).
Proof.
  unfold cscoped. intros (r & b1 & _ & H)%se_bind_Ok. unfold se_state in H.
  destruct (m b1) as [res b2] eqn:Hm. injection H as -> _. eauto.
Qed.
Lemma admit_serialized_Ok {A} problem limits (body : Z → CM A) b a b' :
  admit_serialized serialize_problem problem limits body b = (Ok a, b') →
  ∃ n b1 b2, body n b1 = (Ok a, b2).
Proof.
  unfold admit_serialized. intros (n & b1 & _ & (scratch & b2 & _ & H)%se_bind_Ok)%se_bind_Ok.
  apply cscoped_Ok in H as (b3 & b4 & H). eauto.
Qed.

Lemma hash_writes fed chunks b fed' b' :
  fold_m hash_write fed chunks b = (Ok fed', b') → fed' = fed ++ concat chunks.
Proof.
  revert fed b. induction chunks as [|c chunks IH]; intros fed b; cbn [fold_m].
  - intros [-> _]%se_ret_Ok. by rewrite app_nil_r.
  - intros (f1 & b1 & H & Hrest)%se_bind_Ok. unfold hash_write in H.
    apply se_bind_Ok in H as (? & b2 & _ & [-> _]%se_ret_Ok). apply IH in Hrest as ->.
    cbn. by rewrite app_assoc.
Qed.
Lemma hash_canonical_Ok problem caps b s b' :
  hash_canonical_problem_with_budget blake3_hex serialize_view problem caps b = (Ok s, b') →
  s = blake3_hex (concat (by_chunks (serialize_view (canonical_hash_view problem caps)))).
Proof.
  unfold hash_canonical_problem_with_budget. intros (fed & b1 & ->%hash_writes & H)%se_bind_Ok.
  destruct (by_complete _); [|done]. by apply se_ret_Ok in H as [-> _].
Qed.

Lemma canonical_ir_hash_Ok problem limits b s b' :
  typed_limits limits →
  canonical_ir_hash blake3_hex serialize_problem serialize_view problem limits b = (Ok s, b') →
  s = hash_of problem.
Proof.
  intros Hl (n & b1 & b2 & H)%admit_serialized_Ok.
  apply se_bind_Ok in H as (? & b3 & _ & H). apply se_bind_Ok in H as ([] & b4 & Hv & H).
  unfold cvalid in Hv. apply se_lift_Ok in Hv as [Hv%map_err_Ok _].
  apply se_bind_Ok in H as (canonical & b5 & Hc & H). unfold cmodel in Hc.
  apply se_lift_Ok in Hc as [Hc%map_err_Ok _].
  pose proof (validate_admits _ _ _ Hl Hv) as Hadm. rewrite (canonicalize_admitted problem limits) in Hc.
  injection Hc as <-. apply se_bind_Ok in H as (? & b6 & _ & H). by apply hash_canonical_Ok in H.
Qed.
Lemma canonical_ir_hash_with_budget_Ok problem limits b s b' :
  canonical_ir_hash_with_budget blake3_hex serialize_problem serialize_view problem limits b = (Ok s, b') →
  s = hash_of problem.
Proof.
  intros (n & b1 & b2 & H)%admit_serialized_Ok.
  apply se_bind_Ok in H as ([manifest a] & b3 & Hv & H).
  unfold cvalid_with_budget in Hv.
  destruct (validate_with_budget blake3_hex problem limits b1) as [r b4] eqn:Hrun.
  injection Hv as Hr ->. apply map_err_Ok in Hr as ->.
  apply validate_with_budget_Ok in Hrun as (refs & total & _ & -> & _).
  apply se_bind_Ok in H as (? & b5 & _ & H). apply se_bind_Ok in H as (? & b6 & _ & H).
  apply cscoped_Ok in H as (b7 & b8 & H). by apply hash_canonical_Ok in H.
Qed.
End hashes.

(** The fields the model hash is about: everything but display text, split authorization and the
    declared capabilities. *)
Definition semantic_content (p : PlanningProblem) : PlanningProblem :=
  semantic_part (set_capabilities ∅ p).
Lemma feature_usage_semantic p : feature_usage p = feature_usage (semantic_content p).
Proof. done. Qed.
Lemma hash_view_semantic p caps : canonical_hash_view p caps = canonical_hash_view (semantic_content p) caps.
Proof. done. Qed.

(** C18. Both hash entry points compute one function of the semantic content: the cloning,
    normalizing [canonical_ir_hash] and the borrowing [canonical_ir_hash_with_budget] agree on every
    model they accept, whatever their budgets, and display text, split authorization and
    over-declared capabilities do not enter. *)
Theorem canonical_hash_is_semantic blake3_hex serialize_problem serialize_view p p' limits b b1 h b' b1' h' :
  typed_limits limits → semantic_content p = semantic_content p' →
  canonical_ir_hash blake3_hex serialize_problem serialize_view p limits b = (Ok h, b1) →
  canonical_ir_hash_with_budget blake3_hex serialize_problem serialize_view p' limits b' = (Ok h', b1') →
  h = h'.
Proof.
  intros Hl Heq ->%(canonical_ir_hash_Ok blake3_hex _ serialize_view) ->%canonical_ir_hash_with_budget_Ok;
    [|done].
  unfold hash_of.
  by rewrite (feature_usage_semantic p), (feature_usage_semantic p'), (hash_view_semantic p),
    (hash_view_semantic p'), Heq.
Qed.

(** ** Fingerprints *)
Lemma le_bytes_length n v : length (le_bytes n v) = n.
Proof. revert v. induction n; intros v; cbn; [done|]. by f_equal. Qed.
Lemma le_bytes_inj n v w :
  0 ≤ v < 256 ^ Z.of_nat n → 0 ≤ w < 256 ^ Z.of_nat n → le_bytes n v = le_bytes n w → v = w.
Proof.
  revert v w. induction n as [|n IH]; intros v w Hv Hw; [cbn in *; lia|]. cbn [le_bytes].
  rewrite Nat2Z.inj_succ, Z.pow_succ_r in Hv, Hw by lia. intros [= Hm Hd].
  apply IH in Hd; [|split; [apply Z.div_pos; lia|apply Z.div_lt_upper_bound; lia]..].
  rewrite (Z.div_mod v 256), (Z.div_mod w 256) by lia. lia.
Qed.
Lemma be_bytes_inj v w : is_u64 v → is_u64 w → be_bytes 8 v = be_bytes 8 w → v = w.
Proof.
  unfold is_u64, u64_max, be_bytes. intros Hv Hw Heq. apply (inj reverse) in Heq.
  apply le_bytes_inj in Heq; [done| |]; change (256 ^ Z.of_nat 8) with (2 ^ 64); lia.
Qed.
Lemma fingerprint_field_inj v w r s :
  len v ≤ u64_max → len w ≤ u64_max →
  fingerprint_field v ++ r = fingerprint_field w ++ s → v = w ∧ r = s.
Proof.
  intros Hv Hw. unfold fingerprint_field.
  assert (0 ≤ len v ∧ 0 ≤ len w) as [? ?] by (unfold len; lia). unfold u64_max in *.
  rewrite !Z.mod_small by lia. rewrite <-!app_assoc. intros Heq.
  apply app_inj_1 in Heq as [Hl Heq]; [|unfold be_bytes; by rewrite !length_reverse, !le_bytes_length].
  apply be_bytes_inj in Hl; [|unfold is_u64, u64_max; lia..].
  apply app_inj_1 in Heq; [done|]. unfold len in Hl. lia.
Qed.
Lemma str_bytes_inj s t : str_bytes s = str_bytes t → s = t.
Proof.
  unfold str_bytes, string_bytes. intros H. apply (inj (fmap Z.of_N)) in H.
  revert t H. induction s as [|c s IH]; intros [|d t]; cbn; try done.
  intros [= Hc Hs]. f_equal; [|by apply IH]. rewrite <-(ascii_N_embedding c), <-(ascii_N_embedding d).
  by rewrite Hc.
Qed.

Definition fingerprint_fits (input : SolveFingerprintInput) : Prop :=
  str_len (sf_canonical_ir_hash input) ≤ u64_max ∧ str_len (sf_backend_id input) ≤ u64_max ∧
  str_len (sf_backend_version input) ≤ u64_max ∧ str_len (sf_adapter_version input) ≤ u64_max ∧
  len (sf_canonical_options input) ≤ u64_max.
Lemma len_str_bytes s : len (str_bytes s) = str_len s.
Proof.
  unfold len, str_bytes, string_bytes, str_len. rewrite !length_fmap. f_equal.
  induction s; cbn; auto.
Qed.

(** The routed solve fingerprint hashes an unambiguous encoding: two inputs with the same
    preimage are equal field by field, so no content can move across the boundary between backend
    identity, versions, model hash and options. *)
Theorem fingerprint_preimage_injective i j :
  fingerprint_fits i → fingerprint_fits j → fingerprint_preimage i = fingerprint_preimage j → i = j.
Proof.
  destruct i as [h1 b1 v1 a1 o1], j as [h2 b2 v2 a2 o2]. unfold fingerprint_fits, fingerprint_preimage.
  cbn [sf_canonical_ir_hash sf_backend_id sf_backend_version sf_adapter_version sf_canonical_options].
  rewrite <-!len_str_bytes. intros (?&?&?&?&?) (?&?&?&?&?) Heq.
  apply app_inj_1 in Heq as [_ Heq]; [|done].
  apply fingerprint_field_inj in Heq as [->%str_bytes_inj Heq]; [|done..].
  apply fingerprint_field_inj in Heq as [->%str_bytes_inj Heq]; [|done..].
  apply fingerprint_field_inj in Heq as [->%str_bytes_inj Heq]; [|done..].
  apply fingerprint_field_inj in Heq as [->%str_bytes_inj Heq]; [|done..].
  rewrite <-(app_nil_r (fingerprint_field o1)), <-(app_nil_r (fingerprint_field o2)) in Heq.
  by apply fingerprint_field_inj in Heq as [-> _].
Qed.

(** * Normalization is idempotent and insensitive to collection order

    [PlanningProblem::canonicalize] of [canonical.rs] on arbitrary, not yet validated models. *)
(** ** Sorting *)
Section sorting.
Context {A K : Type} `{OrdLaws K} (key : A → K).

Lemma sort_by_key_weak_id l : StronglySorted (λ x y, key x ≼ key y) l → sort_by_key key l = l.
Proof.
  induction 1 as [|x l Hs IH Hall]; [done|]. cbn. rewrite IH. destruct l as [|y l]; [done|]. cbn.
  apply Forall_cons_1 in Hall as [Hxy _]. apply leb_le in Hxy. by rewrite Hxy.
Qed.
Lemma sort_by_key_idemp l : sort_by_key key (sort_by_key key l) = sort_by_key key l.
Proof. apply sort_by_key_weak_id, sort_by_key_sorted. Qed.
Lemma sort_by_key_fmap_id (f : A → A) l :
  (∀ x, key (f x) = key x) → sort_by_key key (f <$> sort_by_key key l) = f <$> sort_by_key key l.
Proof.
  intros Hf. apply sort_by_key_weak_id. pose proof (sort_by_key_sorted key l) as Hs.
  induction Hs as [|x k Hs IH Hall]; cbn; constructor; [done|].
  apply Forall_fmap. eapply Forall_impl; [exact Hall|]. intros y. cbn. by rewrite !Hf.
Qed.
Lemma sort_by_key_Forall2_id (R : A → A → Prop) l k :
  (∀ x y, R x y → key y = key x) → Forall2 R (sort_by_key key l) k → sort_by_key key k = k.
Proof.
  intros HR HF. apply sort_by_key_weak_id. pose proof (sort_by_key_sorted key l) as Hs. revert Hs.
  induction HF as [|x y xs ys Hxy HF IH]; intros Hs; [constructor|].
  apply StronglySorted_inv in Hs as [Hs Hall]. constructor; [auto|].
  apply Forall_forall. intros y' [i Hi]%list_elem_of_lookup.
  destruct (Forall2_lookup_r _ _ _ _ _ HF Hi) as (x' & Hx' & HR').
  rewrite (HR _ _ Hxy), (HR _ _ HR'). rewrite Forall_forall in Hall. apply Hall. by eapply list_elem_of_lookup_2.
Qed.
Lemma sort_by_key_Forall (P : A → Prop) l : Forall P (sort_by_key key l) ↔ Forall P l.
Proof. by rewrite (sort_by_key_perm key l). Qed.
Lemma sort_by_key_strict l :
  NoDup (key <$> l) → strictly_sorted_by key (sort_by_key key l) = true.
Proof.
  intros Hnd. apply strictly_sorted_by_spec. pose proof (sort_by_key_sorted key l) as Hs.
  assert (NoDup (key <$> sort_by_key key l)) as Hnd' by (by rewrite sort_by_key_perm).
  clear Hnd. induction Hs as [|x k Hs IH Hall]; [constructor|]. cbn in Hnd'.
  apply NoDup_cons in Hnd' as [Hx Hnd']. constructor; [auto|]. rewrite Forall_forall in *. intros y Hy.
  pose proof (Hall y Hy) as Hle. apply le_lt_eq in Hle as [|Heq]; [done|].
  destruct Hx. rewrite Heq. by apply list_elem_of_fmap_2.
Qed.
Lemma sort_by_key_perm_eq l k : l ≡ₚ k → NoDup (key <$> l) → sort_by_key key l = sort_by_key key k.
Proof.
  intros Hp Hnd. apply (strictly_sorted_by_ext key).
  - by apply sort_by_key_strict.
  - apply sort_by_key_strict. by rewrite <-Hp.
  - intros x. by rewrite !sort_by_key_perm, Hp.
Qed.
End sorting.

Lemma btree_set_idemp {A} `{OrdLaws A, EqDecision A} (l : list A) :
  dedup (ord_sort (dedup (ord_sort l))) = dedup (ord_sort l).
Proof. apply dedup_sort_id. apply btree_set_sorted. Qed.

(** ** Typed models *)
(** The widths of the integers the normalization reads. *)
Definition typed_problem (p : PlanningProblem) : Prop :=
  Forall (λ v, match v with VInteger i => Forall range_i64 (inclusive_ranges (iv_domain i)) | _ => True end)
    (variables p).

(** ** Idempotence of each normalization *)
Lemma canonicalize_expression_idemp e e' :
  canonicalize_expression e = Ok e' → canonicalize_expression e' = Ok e'.
Proof.
  unfold canonicalize_expression at 1. destruct (expression_is_canonical e) eqn:Hc.
  - intros [= <-]. unfold canonicalize_expression. by rewrite Hc.
  - intros H. apply LinearExpression_new_Ok in H as ([Hs Hnz] & _). unfold canonicalize_expression,
      expression_is_canonical. rewrite Hs.
    assert (forallb (λ t, negb (lt_coefficient t =? 0)) (le_terms e') = true) as ->; [|done].
    apply forallb_forall. intros t Ht. rewrite Forall_forall in Hnz.
    apply negb_true_iff, Z.eqb_neq, Hnz. by apply list_elem_of_In.
Qed.
Lemma canonicalize_comparison_idemp c c' :
  canonicalize_comparison c = Ok c' → canonicalize_comparison c' = Ok c'.
Proof.
  unfold canonicalize_comparison. intros (e & He & [= <-])%result_bind_Ok. cbn.
  by rewrite (canonicalize_expression_idemp _ _ He).
Qed.
Lemma canonicalize_body_idemp c : canonicalize_body (canonicalize_body c) = canonicalize_body c.
Proof.
  destruct c; cbn; unfold canonical_literals, canonical_ids; rewrite ?btree_set_idemp; try done.
  rewrite zip_fst_snd, sort_by_key_idemp. done.
Qed.
Lemma canonicalize_expressions_body c c' :
  canonicalize_constraint_expressions (canonicalize_body c) = Ok c' →
  canonicalize_body c' = c' ∧ canonicalize_constraint_expressions c' = Ok c'.
Proof.
  destruct c; cbn; try (intros [= <-]; split; [|done]; cbn; unfold canonical_literals, canonical_ids;
    rewrite ?btree_set_idemp; done).
  - intros (d & Hd & [= <-])%result_bind_Ok. cbn. by rewrite (canonicalize_comparison_idemp _ _ Hd).
  - intros (d & Hd & [= <-])%result_bind_Ok. cbn. by rewrite (canonicalize_comparison_idemp _ _ Hd).
  - intros [= <-]. split; [|done]. cbn. by rewrite zip_fst_snd, sort_by_key_idemp.
Qed.
Lemma canonicalize_record_idemp r r' : canonicalize_record r = Ok r' → canonicalize_record r' = Ok r'.
Proof.
  unfold canonicalize_record. cbn [ConstraintRecord_canonicalize cr_body].
  intros (body & Hb & [= <-])%result_bind_Ok.
  destruct (canonicalize_expressions_body _ _ Hb) as [H1 H2].
  unfold set_body, ConstraintRecord_canonicalize, canonical_literals, canonical_ids.
  cbn [cr_id cr_body cr_enforcement cr_provenance cr_tags]. rewrite H1, H2. cbn [mbind Result_bind].
  by rewrite !btree_set_idemp.
Qed.
Lemma IntDomain_new_twice rs d :
  Forall range_i64 rs → IntDomain_new rs = Ok d →
  Forall range_i64 (inclusive_ranges d) ∧ IntDomain_new (inclusive_ranges d) = Ok d.
Proof.
  intros Hi Hd. destruct (IntDomain_new_spec rs d Hi Hd) as (Hc & Hm & Hne & Hok).
  assert (∀ v, contains d v = true → is_i64 v) as Hv.
  { intros v Hv. apply Hm, List.Exists_exists in Hv as (r & Hr & Hv).
    rewrite List.Forall_forall in Hi. destruct (Hi r Hr). unfold is_i64 in *. lia. }
  assert (Forall range_i64 (inclusive_ranges d)) as Hi'.
  { destruct Hc as [Hok' _]. rewrite Forall_forall in Hok'. apply Forall_forall. intros r Hr.
    specialize (Hok' r Hr). unfold range_ok in Hok'.
    split; apply Hv, contains_member; apply List.Exists_exists; exists r;
      (split; [by apply list_elem_of_In|lia]). }
  split; [done|]. rewrite IntDomain_new_canonical; [by destruct d|done| |done].
  intros Hnil. destruct rs as [|r rs]; [done|]. apply Forall_cons_1 in Hok as [Hr _].
  assert (contains d (start r) = true) as Hs.
  { apply Hm, member_cons. left. unfold range_ok in Hr. lia. }
  unfold contains in Hs. by rewrite Hnil in Hs.
Qed.
Lemma canonicalize_variable_idemp v v' :
  match v with VInteger i => Forall range_i64 (inclusive_ranges (iv_domain i)) | _ => True end →
  canonicalize_variable v = Ok v' → canonicalize_variable v' = Ok v'.
Proof.
  destruct v as [v|i|v]; cbn; [by intros _ [= <-]| |by intros _ [= <-]].
  intros Hi (d & Hd & [= <-])%result_bind_Ok. cbn.
  rewrite (proj2 (IntDomain_new_twice _ _ Hi Hd)). done.
Qed.
Lemma canonicalize_term_idemp t t' : canonicalize_term t = Ok t' → canonicalize_term t' = Ok t'.
Proof.
  unfold canonicalize_term. intros (e & He & [= <-])%result_bind_Ok. cbn.
  by rewrite (canonicalize_expression_idemp _ _ He).
Qed.
Lemma canonicalize_projection_idemp p p' :
  canonicalize_projection p = Ok p' → canonicalize_projection p' = Ok p' ∧ sp_id p' = sp_id p.
Proof.
  unfold canonicalize_projection at 1. destruct (sp_expression p) eqn:He;
    try (intros [= <-]; split; [|done]; unfold canonicalize_projection; by rewrite He).
  intros (e & H & [= <-])%result_bind_Ok. split; [|done]. unfold canonicalize_projection. cbn.
  by rewrite (canonicalize_expression_idemp _ _ H).
Qed.
(** A traversal by an idempotent step is a traversal by the identity afterwards. *)
Lemma traverse_fixed {A} (f : A → MR A) (P : A → Prop) l k :
  Forall P l → (∀ x y, P x → f x = Ok y → f y = Ok y) → traverse f l = Ok k →
  Forall (λ y, f y = Ok y) k.
Proof.
  intros HP Hf Hk%traverse_Ok. revert HP. induction Hk as [|x y l k Hxy _ IH]; intros HP; [constructor|].
  apply Forall_cons_1 in HP as [Hx HP]. constructor; eauto.
Qed.
Lemma Forall_true {A} (l : list A) : Forall (λ _, True) l.
Proof. apply Forall_forall. done. Qed.

Lemma canonicalize_level_idemp l l' : canonicalize_level l = Ok l' → canonicalize_level l' = Ok l'.
Proof.
  unfold canonicalize_level at 1. intros (terms & Ht & [= <-])%result_bind_Ok.
  unfold canonicalize_level.
  cbn [ol_id ol_direction ol_lower_bound ol_upper_bound ol_terms ol_provenance].
  rewrite traverse_id; [cbn [mbind Result_bind]; by rewrite sort_by_key_idemp|].
  apply sort_by_key_Forall. eapply (traverse_fixed _ (λ _, True)); [apply Forall_true| |exact Ht].
  intros x y _. apply canonicalize_term_idemp.
Qed.

(** Normalization is idempotent on every model, validated or not. *)
Theorem canonicalize_idempotent p p' :
  typed_problem p → canonicalize p = Ok p' → canonicalize p' = Ok p'.
Proof.
  intros Hty H. unfold canonicalize in H.
  apply result_bind_Ok in H as (vars & Hvars & H). apply result_bind_Ok in H as (recs & Hrecs & H).
  apply result_bind_Ok in H as (plan & Hplan & H). apply result_bind_Ok in H as (projs & Hprojs & [= <-]).
  unfold canonicalize_objectives in Hplan. apply result_bind_Ok in Hplan as (ls & Hls & [= <-]).
  unfold canonicalize, canonicalize_objectives, set_capabilities.
  cbn [variables constraints objectives assumptions projections provenance schema_version metadata
       declared_capabilities split_authorization op_levels].
  rewrite (traverse_id canonicalize_variable).
  2:{ apply sort_by_key_Forall. eapply traverse_fixed; [exact Hty| |exact Hvars].
      intros x y Hx. by apply canonicalize_variable_idemp. }
  rewrite (traverse_id canonicalize_record).
  2:{ apply sort_by_key_Forall. eapply (traverse_fixed _ (λ _, True)); [apply Forall_true| |exact Hrecs].
      intros x y _. apply canonicalize_record_idemp. }
  rewrite (traverse_id canonicalize_level).
  2:{ eapply (traverse_fixed _ (λ _, True)); [apply Forall_true| |exact Hls].
      intros x y _. apply canonicalize_level_idemp. }
  assert (sort_by_key sp_id projs = projs) as ->.
  { apply traverse_Ok in Hprojs. eapply sort_by_key_Forall2_id; [|exact Hprojs].
    intros x y Hxy. by apply canonicalize_projection_idemp in Hxy as [_ ?]. }
  rewrite (traverse_id canonicalize_projection).
  2:{ eapply (traverse_fixed _ (λ _, True)); [apply Forall_true| |exact Hprojs].
      intros x y _ Hxy. by apply canonicalize_projection_idemp in Hxy as [? _]. }
  cbn [mbind Result_bind]. rewrite !sort_by_key_idemp.
  assert (∀ l, sort_rules <$> sort_by_key as_id (sort_rules <$> l) = sort_by_key as_id (sort_rules <$> l)) as ->.
  { intros l. apply Forall_fmap_id, sort_by_key_Forall, Forall_fmap, Forall_forall. intros a _. cbn.
    unfold sort_rules at 1. cbn. unfold ord_sort. by rewrite sort_by_key_idemp. }
  rewrite sort_by_key_idemp, sort_by_key_fmap_id by done.
  assert (∀ l, canonicalize_provenance <$> (canonicalize_provenance <$> l) = canonicalize_provenance <$> l) as ->.
  { intros l. rewrite <-list_fmap_compose. apply list_fmap_ext. intros i r _. cbn.
    unfold canonicalize_provenance. cbn [pr_id pr_source_kind pr_source_id pr_entity_refs pr_message_key
      pr_parameters pr_parent]. by rewrite btree_set_idemp. }
  done.
Qed.

(** ** Order *)
(** The same model with its order-insensitive collections listed in another order. *)
Record reordered (p q : PlanningProblem) : Prop := {
  re_variables : variables p ≡ₚ variables q;
  re_constraints : constraints p ≡ₚ constraints q;
  re_assumptions : assumptions p ≡ₚ assumptions q;
  re_projections : projections p ≡ₚ projections q;
  re_provenance : provenance p ≡ₚ provenance q;
  re_objectives : objectives p = objectives q;
  re_version : schema_version p = schema_version q;
  re_metadata : metadata p = metadata q;
  re_split : split_authorization p = split_authorization q
}.
Definition distinct_ids (p : PlanningProblem) : Prop :=
  NoDup (canonical_id <$> variables p) ∧ NoDup (cr_id <$> constraints p) ∧
  NoDup (as_id <$> assumptions p) ∧ NoDup (sp_id <$> projections p) ∧ NoDup (pr_id <$> provenance p).

Lemma traverse_perm {A B} (f : A → MR B) l l' k :
  l ≡ₚ l' → traverse f l = Ok k → ∃ k', traverse f l' = Ok k' ∧ k ≡ₚ k'.
Proof.
  intros Hp Hk%traverse_Ok. destruct (Permutation_Forall2 Hp Hk) as (k' & Hkk & Hk').
  exists k'. split; [by apply traverse_Ok|done].
Qed.
Lemma traverse_keys {A K} (f : A → MR A) (key : A → K) l k :
  (∀ x y, f x = Ok y → key y = key x) → traverse f l = Ok k → key <$> k = key <$> l.
Proof.
  intros Hf Hk%traverse_Ok. induction Hk as [|x y l k Hxy _ IH]; cbn; [done|]. f_equal; auto.
Qed.

(** The canonical form does not depend on the order in which variables, constraints,
    assumptions, projections and provenance records are listed: two listings of a model with
    distinct identifiers have one canonical form. *)
Theorem canonical_form_is_order_insensitive p q c :
  reordered p q → distinct_ids p → canonicalize p = Ok c → canonicalize q = Ok c.
Proof.
  intros [Hv Hc Ha Hp Hr Ho Hver Hm Hs] (Nv & Nc & Na & Np & Nr) H. unfold canonicalize in *.
  apply result_bind_Ok in H as (vars & Hvars & H). apply result_bind_Ok in H as (recs & Hrecs & H).
  apply result_bind_Ok in H as (plan & Hplan & H). apply result_bind_Ok in H as (projs & Hprojs & [= <-]).
  assert (canonical_id <$> vars = canonical_id <$> variables p) as Kv.
  { eapply traverse_keys; [|exact Hvars]. intros [x|x|x] y; cbn; try (by intros [= <-]).
    by intros (d & _ & [= <-])%result_bind_Ok. }
  assert (cr_id <$> recs = cr_id <$> constraints p) as Kc.
  { eapply traverse_keys; [|exact Hrecs]. intros x y. unfold canonicalize_record.
    by intros (b & _ & [= <-])%result_bind_Ok. }
  destruct (traverse_perm _ _ _ _ Hv Hvars) as (vars' & Hvars' & Pv).
  destruct (traverse_perm _ _ _ _ Hc Hrecs) as (recs' & Hrecs' & Pc).
  rewrite Hvars', Hrecs', <-Ho, Hplan. cbn [mbind Result_bind].
  rewrite <-(sort_by_key_perm_eq sp_id (projections p) (projections q) Hp Np), Hprojs.
  cbn [mbind Result_bind].
  rewrite <-(sort_by_key_perm_eq canonical_id vars vars' Pv) by (by rewrite Kv).
  rewrite <-(sort_by_key_perm_eq cr_id recs recs' Pc) by (by rewrite Kc).
  rewrite <-(sort_by_key_perm_eq pr_id (provenance p) (provenance q) Hr Nr).
  rewrite <-(sort_by_key_perm_eq as_id (sort_rules <$> assumptions p)).
  2:{ by rewrite Ha. }
  2:{ by rewrite <-list_fmap_compose. }
  by rewrite <-Hver, <-Hm, <-Hs.
Qed.
