(* ===== verification/Projection.v ===== *)
(** * Candidate projection

    Models [crates/eutheto-planning-ir/src/projection.rs]: a backend's typed candidate values become
    a normalized domain solution. *)
From stdpp Require Import base tactics list gmap strings.
From Stdlib Require Import ZArith Lia.
From S2P Require Import Prelude Ordering Control Budget Ids DomainIr Model Analysis Validation Bounds Scoping.
Open Scope Z_scope.

Record CandidateValues := { booleans : gmap string bool; integers : gmap string Z }.
Inductive ProjectionError :=
| InvalidProblem (e : ValidationError)
| UnknownCandidateValue (id : string)
| OutOfDomain (id : string)
| MissingRequiredValue (id : string)
| InvalidInterval_ (id : string)
| ProjectionOverflow
| InvalidEvidence (id : string)
| DomainContract (e : DomainContractError).
Notation PR := (Result ProjectionError).

Definition missing (required : bool) (id : string) : PR AssignmentValue :=
  if required then Err (MissingRequiredValue id) else Ok AVAbsent.

(** The loop over the terms of a linear projection; a missing variable ends it. *)
Fixpoint project_terms (required : bool) (candidate : CandidateValues) (terms : list LinearTerm)
    (value : Z) : PR AssignmentValue :=
  match terms with
  | [] => Ok (AVInteger value)
  | term :: terms =>
      match integers candidate !! lt_variable term with
      | None => missing required (lt_variable term)
      | Some variable =>
          product ← ok_or ProjectionOverflow (i64_checked_mul (lt_coefficient term) variable);
          value ← ok_or ProjectionOverflow (i64_checked_add value product);
          project_terms required candidate terms value
      end
  end.
Definition project_interval (id : string) (required : bool) (candidate : CandidateValues)
    (interval : IntervalVariable) : PR AssignmentValue :=
  match integers candidate !! itv_start interval with
  | None => missing required (itv_start interval)
  | Some start_ =>
      match integers candidate !! itv_duration interval with
      | None => missing required (itv_duration interval)
      | Some duration =>
          match integers candidate !! itv_end interval with
          | None => missing required (itv_end interval)
          | Some end_ =>
              i ← map_err (λ _, InvalidInterval_ id) (AssignedInterval_new start_ duration end_);
              Ok (AVInterval i)
          end
      end
  end.
Definition evaluate_projection (expression : ProjectionExpression) (required : bool)
    (candidate : CandidateValues) (intervals : gmap string IntervalVariable) : PR AssignmentValue :=
  match expression with
  | PEBoolean id =>
      match booleans candidate !! id with
      | Some b => Ok (AVBoolean b)
      | None => missing required id
      end
  | PEInteger id =>
      match integers candidate !! id with
      | Some v => Ok (AVInteger v)
      | None => missing required id
      end
  | PELinear expression =>
      project_terms required candidate (le_terms expression) (le_constant expression)
  | PEInterval id =>
      interval ← ok_or (UnknownCandidateValue id) (intervals !! id);
      match itv_presence interval with
      | Some presence =>
          match booleans candidate !! lit_variable presence with
          | None => missing required (lit_variable presence)
          | Some boolean =>
              if negb (Bool.eqb boolean (lit_positive presence)) then Ok AVAbsent
              else project_interval id required candidate interval
          end
      | None => project_interval id required candidate interval
      end
  | PEConstant value => Ok value
  end.

Definition project_assignment (candidate : CandidateValues)
    (intervals : gmap string IntervalVariable) (projection : SolutionProjection) :
    PR DomainAssignment :=
  value ← evaluate_projection (sp_expression projection) (sp_required projection) candidate intervals;
  evidence ← map_err (λ _, InvalidEvidence (sp_provenance projection))
               (DomainId_new (sp_provenance projection));
  Ok {| da_id := sp_assignment_id projection; da_entity := sp_entity projection; da_value := value;
        da_evidence := [evidence] |}.
Definition check_candidate (problem : PlanningProblem) (candidate : CandidateValues) : PR unit :=
  _ ← for_each (λ '(id, _), if decide (id ∈ bool_ids problem) then Ok tt
                            else Err (UnknownCandidateValue id)) (btree_iter (booleans candidate));
  for_each (λ '(id, value),
    match int_domains problem !! id with
    | None => Err (UnknownCandidateValue id)
    | Some domain => if contains domain value then Ok tt else Err (OutOfDomain id)
    end) (btree_iter (integers candidate)).

Section projection.
Context (blake3_hex : list Z → string).
Definition project_candidate_inner (problem : PlanningProblem) (candidate : CandidateValues)
    (solution_id : string) (limits : PlanningIrLimitsV1) (validate_problem : bool) :
    PR NormalizedSolution :=
  _ ← (if validate_problem then map_err InvalidProblem (validate blake3_hex problem limits) else Ok tt);
  _ ← check_candidate problem candidate;
  assignments ← fold_m (λ acc projection,
                  a ← project_assignment candidate (interval_values problem) projection;
                  Ok (acc ++ [a])) [] (projections problem);
  map_err DomainContract (NormalizedSolution_canonicalize {|
    ns_schema_version := NORMALIZED_SOLUTION_SCHEMA_VERSION;
    ns_pack_id := pm_pack_id (metadata problem);
    ns_scenario_id := pm_scenario_id (metadata problem);
    ns_scenario_revision := pm_scenario_revision (metadata problem);
    ns_projection_version := pm_projection_version (metadata problem);
    ns_solution_id := solution_id;
    ns_assignments := sort_by_key da_id assignments |}).
Definition project_candidate (problem : PlanningProblem) (candidate : CandidateValues)
    (solution_id : string) (limits : PlanningIrLimitsV1) : PR NormalizedSolution :=
  project_candidate_inner problem candidate solution_id limits true.
Definition project_candidate_admitted (problem : PlanningProblem) (candidate : CandidateValues)
    (solution_id : string) (limits : PlanningIrLimitsV1) : PR NormalizedSolution :=
  project_candidate_inner problem candidate solution_id limits false.
End projection.
