(* ===== verification/ProjectionFacts.v ===== *)
(** * Projection of candidates through accepted problems

    What [project_candidate] of [projection.rs] returns: on an accepted problem every refusal names a
    fault of the candidate, and every normalized solution holds, for each declared projection, exactly
    the value its expression denotes. *)
From stdpp Require Import base tactics list gmap strings.
From Stdlib Require Import ZArith Lia.
From S2P Require Import Prelude Ordering Control Budget Ids DomainIr Model Analysis Erasure.
From S2P Require Import Validation ValidationAgreement Bounds Scoping Provenance.
From S2P Require Import Admission Projection CanonicalFacts.
Open Scope Z_scope.

(** ** What a candidate gives *)
(** Every value is that of a declared variable, and every integer lies in its domain. *)
Record fits (problem : PlanningProblem) (candidate : CandidateValues) : Prop := {
  fit_booleans : map_Forall (λ id _, id ∈ bool_ids problem) (booleans candidate);
  fit_integers : map_Forall (λ id v, ∃ d, int_domains problem !! id = Some d ∧ in_domain d v)
                   (integers candidate)
}.
Definition lacks_int (candidate : CandidateValues) (id : string) : Prop :=
  integers candidate !! id = None.
Definition lacks_bool (candidate : CandidateValues) (id : string) : Prop :=
  booleans candidate !! id = None.
(** [σ] agrees with the integers of the candidate. *)
Definition extends (candidate : CandidateValues) (σ : string → Z) : Prop :=
  ∀ id v, integers candidate !! id = Some v → σ id = v.

(** The interval is present and the candidate gives all its components. *)
Definition gives_interval (candidate : CandidateValues) (i : IntervalVariable) (s d e : Z) : Prop :=
  (∀ l, itv_presence i = Some l → booleans candidate !! lit_variable l = Some (lit_positive l)) ∧
  integers candidate !! itv_start i = Some s ∧ integers candidate !! itv_duration i = Some d ∧
  integers candidate !! itv_end i = Some e.

(** An input the projection reads and the candidate does not give. *)
Definition misses (problem : PlanningProblem) (candidate : CandidateValues)
    (expression : ProjectionExpression) (id : string) : Prop :=
  match expression with
  | PEBoolean b => id = b ∧ lacks_bool candidate id
  | PEInteger v => id = v ∧ lacks_int candidate id
  | PELinear e => id ∈ lt_variable <$> le_terms e ∧ lacks_int candidate id
  | PEInterval iv => ∃ i, interval_values problem !! iv = Some i ∧
      ((∃ l, itv_presence i = Some l ∧ id = lit_variable l ∧ lacks_bool candidate id) ∨
       (id ∈ [itv_start i; itv_duration i; itv_end i] ∧ lacks_int candidate id))
  | PEConstant _ => False
  end.

(** The value a projection expression denotes when all the inputs it reads are given. *)
Definition denotes (problem : PlanningProblem) (candidate : CandidateValues)
    (expression : ProjectionExpression) (value : AssignmentValue) : Prop :=
  match expression with
  | PEBoolean id => ∃ b, booleans candidate !! id = Some b ∧ value = AVBoolean b
  | PEInteger id => ∃ v, integers candidate !! id = Some v ∧ value = AVInteger v
  | PELinear e => Forall (λ t, is_Some (integers candidate !! lt_variable t)) (le_terms e) ∧
      ∀ σ, extends candidate σ → value = AVInteger (expression_value σ e)
  | PEInterval id => ∃ i, interval_values problem !! id = Some i ∧
      ((∃ l b, itv_presence i = Some l ∧ booleans candidate !! lit_variable l = Some b ∧
               b ≠ lit_positive l ∧ value = AVAbsent) ∨
       (∃ s d e, gives_interval candidate i s d e ∧ 0 ≤ d ∧ s + d = e ∧
                 value = AVInterval {| ai_start := s; ai_duration := d; ai_end := e |}))
  | PEConstant v => value = v
  end.
Definition projects (problem : PlanningProblem) (candidate : CandidateValues)
    (p : SolutionProjection) (value : AssignmentValue) : Prop :=
  denotes problem candidate (sp_expression p) value ∨
  (sp_required p = false ∧ value = AVAbsent ∧ ∃ id, misses problem candidate (sp_expression p) id).

(** The faults of a candidate, each with the error that reports it. *)
Inductive fault (problem : PlanningProblem) (candidate : CandidateValues) : ProjectionError → Prop :=
| fault_boolean id b :
    booleans candidate !! id = Some b → id ∉ bool_ids problem →
    fault problem candidate (UnknownCandidateValue id)
| fault_integer id v :
    integers candidate !! id = Some v → int_domains problem !! id = None →
    fault problem candidate (UnknownCandidateValue id)
| fault_domain id v d :
    integers candidate !! id = Some v → int_domains problem !! id = Some d → ¬ in_domain d v →
    fault problem candidate (OutOfDomain id)
| fault_missing p id :
    p ∈ projections problem → sp_required p = true → misses problem candidate (sp_expression p) id →
    fault problem candidate (MissingRequiredValue id)
| fault_interval p id i s d e :
    p ∈ projections problem → sp_expression p = PEInterval id → interval_values problem !! id = Some i →
    gives_interval candidate i s d e → ¬ (0 ≤ d ∧ s + d = e) →
    fault problem candidate (InvalidInterval_ id).
(** A revision of the problem that no normalized solution can carry, with the error that reports it. *)
Definition revision_too_large (problem : PlanningProblem) (e : ProjectionError) : Prop :=
  REVISION_MAX_V1 < pm_scenario_revision (metadata problem) ∧ e = DomainContract (LimitExceeded "scenario revision").

(** ** Candidate checks *)
Lemma btree_iter_elem {V} (m : gmap string V) id v : (id, v) ∈ btree_iter m ↔ m !! id = Some v.
Proof. unfold btree_iter. rewrite (sort_by_key_perm fst). apply elem_of_map_to_list. Qed.

Lemma for_each_Err {E A} (f : A → Result E unit) l e :
  for_each f l = Err e → ∃ x, x ∈ l ∧ f x = Err e.
Proof.
  induction l as [|x l IH]; cbn; [done|]. destruct (f x) as [[]|e'] eqn:Hx; cbn.
  - intros H. destruct (IH H) as (y & ? & ?). exists y. split; [by right|done].
  - intros [= ->]. exists x. split; [by left|done].
Qed.

Lemma check_candidate_spec problem candidate :
  match check_candidate problem candidate with
  | Ok _ => fits problem candidate
  | Err e => fault problem candidate e
  end.
Proof.
  destruct (check_candidate problem candidate) as [[]|e] eqn:H; unfold check_candidate in H.
  - apply result_bind_Ok in H as ([] & Hb%for_each_Ok & Hi%for_each_Ok). rewrite Forall_forall in Hb. rewrite Forall_forall in Hi.
    split; intros id v Hid%btree_iter_elem.
    + apply Hb in Hid. by destruct (decide _).
    + apply Hi in Hid. cbn in Hid. destruct (int_domains problem !! id) as [d|]; [|done]. exists d.
      unfold in_domain. by destruct (contains d v).
  - destruct (for_each _ (btree_iter (booleans candidate))) as [[]|e'] eqn:Hb; cbn in H.
    + apply for_each_Err in H as ([id v] & Hid%btree_iter_elem & H).
      destruct (int_domains problem !! id) as [d|] eqn:Hd; simplify_eq; [|by eapply fault_integer].
      destruct (contains d v) eqn:Hc; simplify_eq. eapply fault_domain; [done..|].
      unfold in_domain. by rewrite Hc.
    + simplify_eq. apply for_each_Err in Hb as ([id b] & Hid%btree_iter_elem & H).
      destruct (decide _); simplify_eq. by eapply fault_boolean.
Qed.

(** A candidate that fits is the restriction of an assignment that respects every domain. *)
Lemma fits_extends problem candidate :
  ints_ok (int_domains problem) → fits problem candidate →
  ∃ σ, respects (int_domains problem) σ ∧ extends candidate σ.
Proof.
  intros Hok [_ Hfit]. destruct (respects_exists _ Hok) as [σ0 Hσ0].
  exists (λ id, default (σ0 id) (integers candidate !! id)). split.
  - intros id d Hd. destruct (integers candidate !! id) as [v|] eqn:Hv; cbn; [|by apply Hσ0].
    destruct (Hfit id v Hv) as (d' & Hd' & Hin). by simplify_eq.
  - intros id v Hv. by rewrite Hv.
Qed.

(** ** Evaluation of one projection *)
Lemma checked_i64_ok z : is_i64 z → checked_i64 z = Some z.
Proof. intros H. by apply checked_i64_Some. Qed.

Lemma project_terms_spec required candidate σ l value :
  extends candidate σ → Forall (λ t, is_i64 (term_value σ t)) l →
  (∀ k, is_i64 (value + terms_value σ (take k l))) →
  (Forall (λ t, is_Some (integers candidate !! lt_variable t)) l ∧
   project_terms required candidate l value = Ok (AVInteger (value + terms_value σ l))) ∨
  (∃ id, id ∈ lt_variable <$> l ∧ lacks_int candidate id ∧
         project_terms required candidate l value = missing required id).
Proof.
  intros Hext. revert value. induction l as [|t l IH]; intros value Hp Hk; cbn [project_terms].
  { left. split; [constructor|]. cbn. by rewrite Z.add_0_r. }
  destruct (integers candidate !! lt_variable t) as [v|] eqn:Hv; [|right; exists (lt_variable t); split; [by left|done]].
  apply Forall_cons_1 in Hp as [Ht Hp]. pose proof (Hk 1%nat) as H1.
  cbn [take] in H1. rewrite take_0, terms_value_cons in H1. cbn in H1. rewrite Z.add_0_r in H1.
  assert (lt_coefficient t * v = term_value σ t) as Hprod by (unfold term_value; by rewrite (Hext _ _ Hv)).
  unfold i64_checked_mul, i64_checked_add. rewrite Hprod, (checked_i64_ok _ Ht). cbn [ok_or mbind Result_bind].
  rewrite (checked_i64_ok _ H1). cbn [ok_or mbind Result_bind]. destruct (IH (value + term_value σ t) Hp) as [[Hl Heq]|(id & Hin & Hl & Heq)].
  - intros k. specialize (Hk (S k)). cbn [take] in Hk. rewrite terms_value_cons in Hk. by rewrite <-Z.add_assoc.
  - left. split; [constructor; [by exists v|done]|]. rewrite Heq, terms_value_cons. by rewrite Z.add_assoc.
  - right. exists id. split; [by right|done].
Qed.

(** The outcome of evaluating a projection: its value, or the fault of the candidate. *)
Definition outcome (problem : PlanningProblem) (candidate : CandidateValues) (p : SolutionProjection)
    (r : PR AssignmentValue) : Prop :=
  match r with
  | Ok v => projects problem candidate p v ∧
            ∀ i, v = AVInterval i → AssignedInterval_validate i = Ok tt
  | Err e => fault problem candidate e
  end.

Lemma outcome_missing problem candidate p id :
  p ∈ projections problem → misses problem candidate (sp_expression p) id →
  outcome problem candidate p (missing (sp_required p) id).
Proof.
  intros Hp Hm. unfold missing. destruct (sp_required p) eqn:Hr; cbn.
  - by eapply fault_missing.
  - split; [right; eauto|done].
Qed.

Lemma project_interval_outcome problem limits candidate p id i :
  Admissible problem limits → fits problem candidate →
  p ∈ projections problem → sp_expression p = PEInterval id →
  interval_values problem !! id = Some i →
  (∀ l, itv_presence i = Some l → booleans candidate !! lit_variable l = Some (lit_positive l)) →
  outcome problem candidate p (project_interval id (sp_required p) candidate i).
Proof.
  intros Hadm Hfit Hp He Hi Hpres. unfold project_interval.
  assert (∀ x, x ∈ [itv_start i; itv_duration i; itv_end i] → lacks_int candidate x →
    outcome problem candidate p (missing (sp_required p) x)) as Hmiss.
  { intros x Hx Hl. apply outcome_missing; [done|]. rewrite He. cbn. exists i. split; [done|]. by right. }
  destruct (integers candidate !! itv_start i) as [s|] eqn:Hs; [|apply Hmiss; [set_solver|done]].
  destruct (integers candidate !! itv_duration i) as [d|] eqn:Hd; [|apply Hmiss; [set_solver|done]].
  destruct (integers candidate !! itv_end i) as [e|] eqn:Hend; [|apply Hmiss; [set_solver|done]].
  assert (is_i64 e) as Hei.
  { destruct (fit_integers _ _ Hfit _ _ Hend) as (dom & Hdom & Hin). eapply domain_ok_i64; [|exact Hin].
    by apply (adm_ints (limits := limits) _ _ Hdom). }
  destruct (AssignedInterval_new s d e) as [iv|e'] eqn:Hnew; cbn.
  - apply AssignedInterval_new_Ok in Hnew as (H0 & Hsum & _ & ->). split.
    + left. rewrite He. exists i. split; [done|]. right. by exists s, d, e.
    + intros ? [= <-]. by apply AssignedInterval_validate_Ok.
  - eapply fault_interval; [done..| |].
    + split_and!; [exact Hpres|exact Hs|exact Hd|exact Hend].
    + intros [H0 Hsum].
      assert (AssignedInterval_new s d e = Ok {| ai_start := s; ai_duration := d; ai_end := e |}) as Hok
        by by apply AssignedInterval_new_Ok.
      congruence.
Qed.

Lemma evaluate_projection_outcome problem limits candidate p :
  Admissible problem limits → fits problem candidate → p ∈ projections problem →
  outcome problem candidate p
    (evaluate_projection (sp_expression p) (sp_required p) candidate (interval_values problem)).
Proof.
  intros Hadm Hfit Hp.
  assert (projection_wf problem p) as Hwf.
  { pose proof (adm_projections (limits := limits)) as H. rewrite Forall_forall in H. by apply H. }
  unfold projection_wf in Hwf. destruct (sp_expression p) as [id|id|e|id|v] eqn:He; cbn [evaluate_projection].
  - destruct (booleans candidate !! id) as [b|] eqn:Hb; [|apply outcome_missing; [done|by rewrite He]].
    cbn. split; [|done]. left. rewrite He. by exists b.
  - destruct (integers candidate !! id) as [v|] eqn:Hv; [|apply outcome_missing; [done|by rewrite He]].
    cbn. split; [|done]. left. rewrite He. by exists v.
  - destruct (fits_extends _ _ (adm_ints (limits := limits)) Hfit) as (σ & Hσ & Hext).
    destruct Hwf as [Hc _ (lo & hi & Htb)].
    destruct (project_terms_spec (sp_required p) candidate σ (le_terms e) (le_constant e) Hext)
      as [[Hall ->]|(id & Hin & Hl & ->)].
    + by apply (tb_products _ _ _ _ _ Htb).
    + intros k. by apply (tb_prefixes _ _ _ _ _ Htb).
    + cbn. split; [|done]. left. rewrite He. split; [done|]. intros τ Hτ. f_equal.
      unfold expression_value. f_equal. apply terms_value_ext.
      intros w (t & -> & Ht)%list_elem_of_fmap. rewrite Forall_forall in Hall.
      destruct (Hall t Ht) as [v Hv]. by rewrite (Hext _ _ Hv), (Hτ _ _ Hv).
    + apply outcome_missing; [done|]. by rewrite He.
  - apply elem_of_dom in Hwf as [i Hi]. rewrite Hi. cbn.
    destruct (itv_presence i) as [l|] eqn:Hl; [|eapply project_interval_outcome; [done..|by rewrite Hl]].
    destruct (booleans candidate !! lit_variable l) as [b|] eqn:Hb.
    + destruct (Bool.eqb b (lit_positive l)) eqn:Heq; cbn.
      * apply eqb_prop in Heq as ->. eapply project_interval_outcome; [done..|].
        rewrite Hl. by intros ? [= <-].
      * split; [|done]. left. rewrite He. exists i. split; [done|]. left. exists l, b.
        split_and!; [done..| |done]. intros ->. by rewrite eqb_reflx in Heq.
    + apply outcome_missing; [done|]. rewrite He. exists i. split; [done|]. left. by exists l.
  - cbn. split; [left; by rewrite He|]. intros i ->. done.
Qed.

(** ** The assignments *)
(** Typed projections: their provenance identifiers are those of the planning IR. *)
Definition typed_projections (problem : PlanningProblem) : Prop :=
  Forall (λ p, valid (sp_provenance p) = true) (projections problem).
Definition assigns (problem : PlanningProblem) (candidate : CandidateValues) (p : SolutionProjection)
    (a : DomainAssignment) : Prop :=
  da_id a = sp_assignment_id p ∧ da_entity a = sp_entity p ∧ da_evidence a = [sp_provenance p] ∧
  projects problem candidate p (da_value a).

Lemma project_assignment_outcome problem limits candidate p :
  Admissible problem limits → typed_projections problem → fits problem candidate → p ∈ projections problem →
  match project_assignment candidate (interval_values problem) p with
  | Ok a => assigns problem candidate p a ∧ assignment_ok a
  | Err e => fault problem candidate e
  end.
Proof.
  intros Hadm Hty Hfit Hp. unfold project_assignment.
  pose proof (evaluate_projection_outcome problem limits candidate p Hadm Hfit Hp) as Ho.
  destruct (evaluate_projection _ _ _ _) as [v|e]; [|exact Ho]. destruct Ho as [Hv Hiv]. cbn.
  unfold typed_projections in Hty. rewrite Forall_forall in Hty. unfold DomainId_new.
  rewrite valid_id_valid, (Hty p Hp). cbn. split_and!; done.
Qed.

Lemma project_assignments_outcome problem limits candidate ps acc :
  Admissible problem limits → typed_projections problem → fits problem candidate →
  Forall (.∈ projections problem) ps →
  match fold_m (λ acc p, a ← project_assignment candidate (interval_values problem) p; Ok (acc ++ [a])) acc ps with
  | Ok l => ∃ l', l = acc ++ l' ∧ Forall2 (λ p a, assigns problem candidate p a ∧ assignment_ok a) ps l'
  | Err e => fault problem candidate e
  end.
Proof.
  intros Hadm Hty Hfit. revert acc. induction ps as [|p ps IH]; intros acc Hps; cbn [fold_m].
  { exists []. by rewrite app_nil_r. }
  apply Forall_cons_1 in Hps as [Hp Hps].
  pose proof (project_assignment_outcome problem limits candidate p Hadm Hty Hfit Hp) as Ho.
  destruct (project_assignment _ _ p) as [a|e]; cbn; [|exact Ho]. specialize (IH (acc ++ [a]) Hps).
  destruct (fold_m _ (acc ++ [a]) ps) as [l|e]; [|exact IH]. destruct IH as (l' & -> & Hl').
  exists (a :: l'). rewrite <-app_assoc. split; [done|]. by constructor.
Qed.

(** The solution a list of assignments becomes. *)
Definition solution_of (problem : PlanningProblem) (solution_id : string) (l : list DomainAssignment) :
    NormalizedSolution := {|
  ns_schema_version := NORMALIZED_SOLUTION_SCHEMA_VERSION;
  ns_pack_id := pm_pack_id (metadata problem);
  ns_scenario_id := pm_scenario_id (metadata problem);
  ns_scenario_revision := pm_scenario_revision (metadata problem);
  ns_projection_version := pm_projection_version (metadata problem);
  ns_solution_id := solution_id;
  ns_assignments := sort_by_key da_id l |}.

Lemma canonicalize_revision s :
  strictly_sorted_by da_id (ns_assignments s) = true → Forall assignment_ok (ns_assignments s) →
  ns_schema_version s = NORMALIZED_SOLUTION_SCHEMA_VERSION →
  REVISION_MAX_V1 < ns_scenario_revision s →
  NormalizedSolution_canonicalize s = Err (LimitExceeded "scenario revision").
Proof.
  intros Hs Hall Hv Hr. unfold NormalizedSolution_canonicalize.
  rewrite (sort_by_key_id _ _ Hs), (no_duplicate_windows _ Hs). cbn [mbind Result_bind].
  unfold NormalizedSolution_validate, validate_revision. cbn [ns_schema_version ns_scenario_revision set_assignments].
  rewrite Hv. rewrite (proj2 (Z.ltb_lt _ _) Hr). done.
Qed.

Lemma canonicalize_projected problem candidate solution_id ps l :
  Forall2 (λ p a, assigns problem candidate p a ∧ assignment_ok a) ps l →
  NoDup (sp_assignment_id <$> ps) →
  let s := solution_of problem solution_id l in
  match map_err DomainContract (NormalizedSolution_canonicalize s) with
  | Ok s' => s' = s ∧ canonical_solution s
  | Err e => revision_too_large problem e
  end.
Proof.
  intros HF Hnd s.
  assert (da_id <$> l = sp_assignment_id <$> ps) as Hids.
  { clear Hnd. induction HF as [|p a ps l [[Hid _] _] HF IH]; [done|]. cbn. by rewrite Hid, IH. }
  assert (Forall assignment_ok l) as Hok.
  { clear -HF. induction HF as [|p a ps l [_ Ha] HF IH]; by constructor. }
  assert (strictly_sorted_by da_id (ns_assignments s) = true) as Hs.
  { apply sort_by_key_strict. by rewrite Hids. }
  assert (Forall assignment_ok (ns_assignments s)) as Hall by by apply sort_by_key_Forall.
  destruct (Z.le_gt_cases (ns_scenario_revision s) REVISION_MAX_V1) as [Hr|Hr].
  - assert (canonical_solution s) as Hc by by split.
    pose proof Hc as Hc'. apply NormalizedSolution_validate_spec in Hc'.
    assert (NormalizedSolution_canonicalize s = Ok s) as ->; [|done].
    unfold NormalizedSolution_canonicalize. rewrite (sort_by_key_id _ _ Hs), (no_duplicate_windows _ Hs).
    cbn [mbind Result_bind].
    assert (set_assignments (canonical_evidence <$> ns_assignments s) s = s) as ->; [|by rewrite Hc'].
    unfold set_assignments. rewrite (Forall_fmap_id canonical_evidence); [by destruct s|].
    eapply Forall_impl; [exact Hall|]. intros a [_ Ha]. by apply canonical_evidence_id.
  - rewrite canonicalize_revision by (done || lia). done.
Qed.

(** ** The theorem on projection *)
Lemma project_candidate_outcome blake3_hex problem limits candidate solution_id :
  typed_limits limits → typed_projections problem → validate blake3_hex problem limits = Ok tt →
  match project_candidate blake3_hex problem candidate solution_id limits with
  | Ok s => fits problem candidate ∧ canonical_solution s ∧ ∃ l, s = solution_of problem solution_id l ∧
      Forall2 (assigns problem candidate) (projections problem) l
  | Err e => fault problem candidate e ∨ fits problem candidate ∧ revision_too_large problem e
  end.
Proof.
  intros Hl Hty Hv. pose proof (validate_admits _ _ _ Hl Hv) as Hadm.
  unfold project_candidate, project_candidate_inner. rewrite Hv. cbn [map_err mbind Result_bind].
  pose proof (check_candidate_spec problem candidate) as Hc.
  destruct (check_candidate problem candidate) as [[]|e]; [|by left]. cbn [mbind Result_bind].
  pose proof (project_assignments_outcome problem limits candidate (projections problem) [] Hadm Hty Hc) as Hp.
  ospecialize (Hp _); [by apply Forall_forall|].
  destruct (fold_m _ [] (projections problem)) as [l|e]; [|by left]. cbn [mbind Result_bind].
  destruct Hp as (l' & -> & HF). cbn [app].
  pose proof (canonicalize_projected problem candidate solution_id _ _ HF (adm_assignments (limits := limits))) as Hs.
  cbn zeta in Hs. fold (solution_of problem solution_id l').
  destruct (map_err _ _) as [s|e]; [|by right]. destruct Hs as [-> Hcan].
  split_and!; [done|done|]. exists l'. split; [done|]. eapply Forall2_impl; [exact HF|]. by intros p a [? _].
Qed.

(** C1. On a problem validation accepts, projecting a candidate either returns a canonical
    normalized solution whose assignments are exactly the declared projections — each with its
    entity, its provenance as evidence and the value its expression denotes (exact integer
    arithmetic, coherent intervals, absence only where the projection is optional or the interval is
    switched off) — or an error. The error names an actual fault of the candidate, unless the
    problem's own scenario revision exceeds [REVISION_MAX_V1], which validation does not check and a
    normalized solution cannot carry: then a candidate that fits is refused for the revision.
    Projecting never reports an invalid problem, an arithmetic overflow, bad evidence or a duplicate
    assignment. *)
Theorem projection_is_faithful blake3_hex problem limits candidate solution_id :
  typed_limits limits → typed_projections problem → validate blake3_hex problem limits = Ok tt →
  match project_candidate blake3_hex problem candidate solution_id limits with
  | Ok s => fits problem candidate ∧ canonical_solution s ∧ ∃ l, s = solution_of problem solution_id l ∧
      Forall2 (assigns problem candidate) (projections problem) l
  | Err e => fault problem candidate e ∨ fits problem candidate ∧ revision_too_large problem e
  end.
Proof. apply project_candidate_outcome. Qed.
