(* ===== verification/Evaluator.v ===== *)
(** * The reference evaluator

    Models [crates/eutheto-planning-ir/src/test_evaluator.rs]: the executable semantics of every
    constraint of the planning IR on a concrete candidate, with its checked arithmetic and its early
    returns. *)
From stdpp Require Import base tactics list gmap strings.
From Stdlib Require Import ZArith Lia.
From S2P Require Import Prelude Ordering DomainIr Model Scoping Projection.
Open Scope Z_scope.

Definition literal_value (literal : Literal) (candidate : CandidateValues) : PR bool :=
  ok_or (MissingRequiredValue (lit_variable literal))
    ((λ value, Bool.eqb value (lit_positive literal)) <$> booleans candidate !! lit_variable literal).
Definition integer (id : string) (candidate : CandidateValues) : PR Z :=
  ok_or (MissingRequiredValue id) (integers candidate !! id).
Definition linear_value (expression : LinearExpression) (candidate : CandidateValues) : PR Z :=
  fold_m (λ value term,
    v ← integer (lt_variable term) candidate;
    product ← ok_or ProjectionOverflow (i64_checked_mul (lt_coefficient term) v);
    ok_or ProjectionOverflow (i64_checked_add value product))
    (le_constant expression) (le_terms expression).

Fixpoint any_literals (literals : list Literal) (candidate : CandidateValues) : PR bool :=
  match literals with
  | [] => Ok false
  | literal :: literals =>
      v ← literal_value literal candidate;
      if (v : bool) then Ok true else any_literals literals candidate
  end.
Fixpoint all_literals (literals : list Literal) (candidate : CandidateValues) : PR bool :=
  match literals with
  | [] => Ok true
  | literal :: literals =>
      v ← literal_value literal candidate;
      if negb v then Ok false else all_literals literals candidate
  end.
Definition true_count (literals : list Literal) (candidate : CandidateValues) : PR Z :=
  fold_m (λ count literal,
    v ← literal_value literal candidate;
    if (v : bool) then ok_or ProjectionOverflow (u64_checked_add count 1) else Ok count) 0 literals.
Definition compare_op (left : Z) (op : ComparisonOp) (right : Z) : bool :=
  match op with
  | Equal => left =? right
  | LessOrEqual => left <=? right
  | GreaterOrEqual => right <=? left
  end.
(** The integers of the variables in order, up to the first missing one. *)
Definition row_values (variables : list string) (candidate : CandidateValues) : PR (list Z) :=
  fold_m (λ values id, v ← integer id candidate; Ok (values ++ [v])) [] variables.
Definition present_interval (interval : option IntervalVariable) (candidate : CandidateValues) :
    PR (option (Z * Z)) :=
  interval ← ok_or (UnknownCandidateValue "interval") interval;
  present ← match itv_presence interval with
            | Some presence => literal_value presence candidate
            | None => Ok true
            end;
  if negb present then Ok None
  else
    start_ ← integer (itv_start interval) candidate;
    duration ← integer (itv_duration interval) candidate;
    end_ ← integer (itv_end interval) candidate;
    if (duration <? 0) || negb (bool_decide (i64_checked_add start_ duration = Some end_))
    then Err (InvalidInterval_ (itv_id interval))
    else Ok (Some (start_, end_)).

(** [Iterator::min] and [Iterator::max] *)
Definition list_min (l : list Z) : option Z :=
  match l with [] => None | x :: l => Some (foldl Z.min x l) end.
Definition list_max (l : list Z) : option Z :=
  match l with [] => None | x :: l => Some (foldl Z.max x l) end.

(** The nested loops over the pairs [left < right]. *)
Definition overlap (left right : Z * Z) : bool := (left.1 <? right.2) && (right.1 <? left.2).
Fixpoint pairwise_disjoint (present : list (Z * Z)) : bool :=
  match present with
  | [] => true
  | interval :: rest => if existsb (overlap interval) rest then false else pairwise_disjoint rest
  end.

Definition covers (instant : Z) (task : Z * Z * Z) : bool :=
  (task.1.1 <=? instant) && (instant <? task.1.2).
Definition demand_at (present : list (Z * Z * Z)) (instant : Z) : PR Z :=
  fold_m (λ demand task,
    if covers instant task then ok_or ProjectionOverflow (i64_checked_add demand task.2) else Ok demand)
    0 present.
Fixpoint check_instants (present : list (Z * Z * Z)) (capacity : Z) (instants : list Z) : PR bool :=
  match instants with
  | [] => Ok true
  | instant :: instants =>
      demand ← demand_at present instant;
      if capacity <? demand then Ok false else check_instants present capacity instants
  end.

Definition evaluate_constraint (constraint : Constraint_) (problem : PlanningProblem)
    (candidate : CandidateValues) : PR bool :=
  let declared := interval_values problem in
  match constraint with
  | BoolOr literals => any_literals literals candidate
  | BoolAnd literals => all_literals literals candidate
  | Implication antecedent consequent =>
      a ← literal_value antecedent candidate;
      if negb a then Ok true else literal_value consequent candidate
  | Equivalence_ left_ right_ =>
      l ← literal_value left_ candidate;
      r ← literal_value right_ candidate;
      Ok (Bool.eqb l r)
  | AtMostOne literals => count ← true_count literals candidate; Ok (count <=? 1)
  | ExactlyOne literals => count ← true_count literals candidate; Ok (count =? 1)
  | CardinalityRange literals min max =>
      count ← true_count literals candidate;
      Ok ((min <=? count) && (count <=? max))
  | LinearComparison_ comparison =>
      value ← linear_value (lc_expression comparison) candidate;
      Ok (compare_op value (lc_op comparison) (lc_rhs comparison))
  | ReifiedLinearComparison literal comparison =>
      value ← linear_value (lc_expression comparison) candidate;
      l ← literal_value literal candidate;
      Ok (Bool.eqb l (compare_op value (lc_op comparison) (lc_rhs comparison)))
  | AllDifferent variables =>
      values ← row_values variables candidate;
      Ok (forallb (λ '(a, b), negb (a =? b)) (windows2 (ord_sort values)))
  | AllowedTable variables rows =>
      row ← row_values variables candidate;
      Ok (bool_decide (is_Some (binary_search_by_key (λ x, x) row rows)))
  | ForbiddenTable variables rows =>
      row ← row_values variables candidate;
      Ok (negb (bool_decide (is_Some (binary_search_by_key (λ x, x) row rows))))
  | Element index values target =>
      index ← integer index candidate;
      target ← integer target candidate;
      if index <? 0 then Ok false
      else Ok (bool_decide (values !! Z.to_nat index = Some target))
  | Min target inputs =>
      target ← integer target candidate;
      values ← row_values inputs candidate;
      Ok (bool_decide (list_min values = Some target))
  | Max target inputs =>
      target ← integer target candidate;
      values ← row_values inputs candidate;
      Ok (bool_decide (list_max values = Some target))
  | Equality left_ right_ =>
      l ← integer left_ candidate;
      r ← integer right_ candidate;
      Ok (l =? r)
  | AbsDifference target left_ right_ =>
      l ← integer left_ candidate;
      r ← integer right_ candidate;
      difference ← ok_or ProjectionOverflow (i64_checked_sub l r ≫= i64_checked_abs);
      t ← integer target candidate;
      Ok (t =? difference)
  | NoOverlap intervals =>
      present ← fold_m (λ present id,
                  interval ← present_interval (declared !! id) candidate;
                  Ok match interval with Some i => present ++ [i] | None => present end) [] intervals;
      Ok (pairwise_disjoint present)
  | Cumulative intervals demands capacity =>
      present ← fold_m (λ present '(id, demand),
                  interval ← present_interval (declared !! id) candidate;
                  Ok match interval with
                     | Some (s, e) => present ++ [(s, e, demand)]
                     | None => present
                     end) [] (zip intervals demands);
      check_instants present capacity ((λ task, task.1.1) <$> present)
  end.
Definition evaluate_record (record : ConstraintRecord) (problem : PlanningProblem)
    (candidate : CandidateValues) : PR bool :=
  enforced ← all_literals (cr_enforcement record) candidate;
  if negb enforced then Ok true else evaluate_constraint (cr_body record) problem candidate.
