(* ===== verification/EvaluatorFacts.v ===== *)
(** * The evaluator decides the meaning of constraints

    A declarative semantics of every constraint over total assignments, and the proof that on a problem
    validation accepts the evaluator of [test_evaluator.rs] decides it: no arithmetic overflow, no
    missing or unknown value, and a cumulative capacity checked only at task starts holds at every
    instant. *)
From stdpp Require Import base tactics list gmap strings.
From Stdlib Require Import ZArith Lia Sorted.
From S2P Require Import Prelude Ordering Control Budget Ids DomainIr Model Analysis Erasure.
From S2P Require Import Validation ValidationAgreement Bounds Scoping Provenance.
From S2P Require Import Admission Projection ProjectionFacts Evaluator.
Open Scope Z_scope.

(** ** Meaning *)
Definition op_holds (op : ComparisonOp) (x y : Z) : Prop :=
  match op with Equal => x = y | LessOrEqual => x ≤ y | GreaterOrEqual => y ≤ x end.

Section meaning.
Context (problem : PlanningProblem) (β : string → bool) (σ : string → Z).

Definition lit_true (l : Literal) : Prop := β (lit_variable l) = lit_positive l.
#[global] Instance lit_true_dec l : Decision (lit_true l).
Proof. unfold lit_true. solve_decision. Defined.
Definition trues (ls : list Literal) : nat := length (filter lit_true ls).
Definition comparison_holds (c : LinearComparison) : Prop :=
  op_holds (lc_op c) (expression_value σ (lc_expression c)) (lc_rhs c).
Definition interval_present (i : IntervalVariable) : Prop :=
  match itv_presence i with Some l => lit_true l | None => True end.
#[global] Instance interval_present_dec i : Decision (interval_present i).
Proof. unfold interval_present. destruct (itv_presence i); apply _. Defined.
(** Start, end and demand of the present intervals among those named. *)
Definition tasks (named : list (string * Z)) : list (Z * Z * Z) :=
  omap (λ '(id, demand),
    i ← interval_values problem !! id;
    if decide (interval_present i) then Some (σ (itv_start i), σ (itv_end i), demand) else None) named.
(** The demand of the tasks running at an instant. *)
Definition load (ts : list (Z * Z * Z)) (instant : Z) : Z :=
  foldr Z.add 0 ((λ t, if covers instant t then t.2 else 0) <$> ts).

Definition constraint_holds (c : Constraint_) : Prop :=
  match c with
  | BoolOr ls => Exists lit_true ls
  | BoolAnd ls => Forall lit_true ls
  | Implication l r => lit_true l → lit_true r
  | Equivalence_ l r => lit_true l ↔ lit_true r
  | AtMostOne ls => (trues ls ≤ 1)%nat
  | ExactlyOne ls => trues ls = 1%nat
  | CardinalityRange ls min max => min ≤ Z.of_nat (trues ls) ≤ max
  | LinearComparison_ c => comparison_holds c
  | ReifiedLinearComparison l c => lit_true l ↔ comparison_holds c
  | AllDifferent vs => NoDup (σ <$> vs)
  | AllowedTable vs rows => σ <$> vs ∈ rows
  | ForbiddenTable vs rows => σ <$> vs ∉ rows
  | Element index values target => ∃ i : nat, σ index = Z.of_nat i ∧ values !! i = Some (σ target)
  | Min target inputs => σ target ∈ σ <$> inputs ∧ Forall (λ i, σ target ≤ σ i) inputs
  | Max target inputs => σ target ∈ σ <$> inputs ∧ Forall (λ i, σ i ≤ σ target) inputs
  | Equality l r => σ l = σ r
  | AbsDifference target l r => σ target = Z.abs (σ l - σ r)
  | NoOverlap ivs =>
      ∀ i j x y instant, i ≠ j → tasks ((., 0) <$> ivs) !! i = Some x → tasks ((., 0) <$> ivs) !! j = Some y →
        covers instant x = true → covers instant y = false
  | Cumulative ivs demands capacity => ∀ instant, load (tasks (zip ivs demands)) instant ≤ capacity
  end.
(** A constraint binds when all its enforcement literals are true. *)
Definition record_holds (r : ConstraintRecord) : Prop :=
  Forall lit_true (cr_enforcement r) → constraint_holds (cr_body r).

(** An enforced no-overlap constraint with a present interval of zero duration strictly inside another one. *)
Definition pinched_body (c : Constraint_) : Prop :=
  match c with
  | NoOverlap ivs => ∃ i j x y, i ≠ j ∧ tasks ((., 0) <$> ivs) !! i = Some x ∧ tasks ((., 0) <$> ivs) !! j = Some y ∧
      x.1.1 = x.1.2 ∧ y.1.1 < x.1.1 < y.1.2
  | _ => False
  end.
Definition pinched (r : ConstraintRecord) : Prop := Forall lit_true (cr_enforcement r) ∧ pinched_body (cr_body r).

(** A present interval whose components do not fit together. *)
Definition incoherent (id : string) : Prop :=
  ∃ i, interval_values problem !! id = Some i ∧ interval_present i ∧
    ¬ (0 ≤ σ (itv_duration i) ∧ σ (itv_start i) + σ (itv_duration i) = σ (itv_end i)).
End meaning.

(** The candidate assigns every declared variable, integers within their domains. *)
Record total_candidate (problem : PlanningProblem) (candidate : CandidateValues)
    (β : string → bool) (σ : string → Z) : Prop := {
  tc_booleans id : id ∈ bool_ids problem → booleans candidate !! id = Some (β id);
  tc_integers id : declared_int (int_domains problem) id → integers candidate !! id = Some (σ id);
  tc_respects : respects (int_domains problem) σ
}.

(** [r] decides [P], or reports an incoherent interval. *)
Definition decides (problem : PlanningProblem) (β : string → bool) (σ : string → Z) (P : Prop)
    (r : PR bool) : Prop :=
  match r with
  | Ok b => b = true ↔ P
  | Err e => ∃ id, e = InvalidInterval_ id ∧ incoherent problem β σ id
  end.

(** ** Loads are maximal at a start *)
Lemma load_cons t ts instant :
  load (t :: ts) instant = (if covers instant t then t.2 else 0) + load ts instant.
Proof. done. Qed.
Lemma list_greatest (l : list Z) : l ≠ [] → ∃ m, m ∈ l ∧ Forall (λ x, x ≤ m) l.
Proof.
  induction l as [|x l IH]; [done|]. intros _. destruct l as [|y l]; [exists x; split; [by left|]; constructor; [lia|constructor]|].
  destruct IH as (m & Hm & Hall); [done|]. destruct (Z.le_ge_cases x m).
  - exists m. split; [by right|by constructor].
  - exists x. split; [by left|]. constructor; [lia|]. eapply Forall_impl; [done|]. cbn. lia.
Qed.
Lemma load_mono ts t u :
  Forall (λ task, 0 ≤ task.2) ts → Forall (λ task, covers t task = true → covers u task = true) ts →
  load ts t ≤ load ts u.
Proof.
  intros Hd Hc. induction ts as [|x ts IH]; [done|]. rewrite !load_cons.
  apply Forall_cons_1 in Hd as [Hx Hd], Hc as [Hxc Hc]. specialize (IH Hd Hc).
  destruct (covers t x); [rewrite Hxc by done; lia|]. destruct (covers u x); lia.
Qed.
Lemma load_idle ts t : Forall (λ task, covers t task = false) ts → load ts t = 0.
Proof. induction 1 as [|x ts Hx _ IH]; [done|]. rewrite load_cons, Hx, IH. done. Qed.
Lemma load_peak ts t :
  Forall (λ task, 0 ≤ task.2) ts →
  load ts t = 0 ∨ ∃ task, task ∈ ts ∧ load ts t ≤ load ts task.1.1.
Proof.
  intros Hd. set (running := (λ task, task.1.1) <$> filter (λ task, covers t task = true) ts).
  destruct (decide (running = [])) as [Hnil|Hne].
  - left. apply load_idle. apply Forall_forall. intros task Htask. apply not_true_iff_false. intros Hc.
    apply fmap_nil_inv in Hnil. assert (task ∈ filter (λ task, covers t task = true) ts) as Hin
      by by apply list_elem_of_filter. rewrite Hnil in Hin. by apply not_elem_of_nil in Hin.
  - right. destruct (list_greatest running Hne) as (m & (task & -> & [Hc Hin]%list_elem_of_filter)%list_elem_of_fmap & Hmax).
    exists task. split; [done|]. apply load_mono; [done|]. apply Forall_forall. intros x Hx Hcx.
    rewrite Forall_forall in Hmax.
    assert (x.1.1 ≤ task.1.1) as Hle.
    { apply Hmax. apply list_elem_of_fmap. exists x. split; [done|]. by apply list_elem_of_filter. }
    unfold covers in *. lia.
Qed.
Lemma load_at_starts ts capacity :
  0 ≤ capacity → Forall (λ task, 0 ≤ task.2) ts →
  Forall (λ task, load ts task.1.1 ≤ capacity) ts → ∀ t, load ts t ≤ capacity.
Proof.
  intros Hc Hd Hs t. destruct (load_peak ts t Hd) as [->|(task & Hin & Hle)]; [done|].
  rewrite Forall_forall in Hs. specialize (Hs task Hin). cbn in Hs. lia.
Qed.

Lemma load_bounds ts t :
  Forall (λ task, 0 ≤ task.2) ts → 0 ≤ load ts t ≤ foldr Z.add 0 ts.*2.
Proof.
  induction 1 as [|x ts Hx _ IH]; [done|]. rewrite load_cons. cbn. destruct (covers t x); lia.
Qed.
Lemma demand_at_load ts t acc :
  Forall (λ task, 0 ≤ task.2) ts → 0 ≤ acc → acc + foldr Z.add 0 ts.*2 ≤ i64_max →
  fold_m (λ demand task,
    if covers t task then ok_or ProjectionOverflow (i64_checked_add demand task.2) else Ok demand) acc ts =
  Ok (acc + load ts t).
Proof.
  intros Hd. revert acc. induction Hd as [|x ts Hx Hd IH]; intros acc Hacc Hmax; cbn [fold_m].
  { cbn. by rewrite Z.add_0_r. }
  rewrite load_cons. cbn [fmap list_fmap foldr] in Hmax.
  assert (0 ≤ foldr Z.add 0 ts.*2) by (pose proof (load_bounds ts 0 Hd); lia).
  destruct (covers t x).
  - unfold i64_checked_add. rewrite checked_i64_ok by (unfold is_i64, i64_min in *; lia).
    cbn [ok_or mbind Result_bind]. rewrite IH by lia. f_equal. lia.
  - cbn [mbind Result_bind]. rewrite IH by lia. done.
Qed.
Lemma check_instants_spec ts capacity instants :
  Forall (λ task, 0 ≤ task.2) ts → foldr Z.add 0 ts.*2 ≤ i64_max →
  ∃ b, check_instants ts capacity instants = Ok b ∧
       (b = true ↔ Forall (λ t, load ts t ≤ capacity) instants).
Proof.
  intros Hd Hmax. induction instants as [|t instants (b & Hb & Hiff)]; cbn [check_instants].
  { exists true. split; [done|]. split; [constructor|done]. }
  unfold demand_at. rewrite demand_at_load by (done || lia). cbn [mbind Result_bind]. rewrite Z.add_0_l.
  destruct (Z.ltb_spec capacity (load ts t)) as [Hlt|Hle].
  - exists false. split; [done|]. rewrite Forall_cons. split; [done|lia].
  - exists b. split; [done|]. rewrite Forall_cons, <-Hiff. tauto.
Qed.

(** ** Literals, integers and expressions of a total candidate *)
Lemma Ok_bind {E A B} (v : A) (k : A → Result E B) : Ok v ≫= k = k v.
Proof. done. Qed.
Section evaluation.
Context (problem : PlanningProblem) (limits : PlanningIrLimitsV1) `{!Admissible problem limits}.
Context (candidate : CandidateValues) (β : string → bool) (σ : string → Z).
Hypothesis typed : typed_limits limits.
Hypothesis total : total_candidate problem candidate β σ.

Lemma literal_value_total l :
  lit_variable l ∈ bool_ids problem → literal_value l candidate = Ok (bool_decide (lit_true β l)).
Proof.
  intros Hl. unfold literal_value. rewrite (tc_booleans _ _ _ _ total _ Hl). cbn. f_equal.
  case_bool_decide as H; unfold lit_true in H; [rewrite H; apply eqb_reflx|]. by apply eqb_false_iff.
Qed.
Lemma integer_total id : declared_int (int_domains problem) id → integer id candidate = Ok (σ id).
Proof. intros Hid. unfold integer. by rewrite (tc_integers _ _ _ _ total _ Hid). Qed.
Lemma any_literals_total ls :
  Forall (λ l, lit_variable l ∈ bool_ids problem) ls →
  any_literals ls candidate = Ok (bool_decide (Exists (lit_true β) ls)).
Proof.
  induction 1 as [|l ls Hl _ IH]; [done|]. cbn [any_literals]. rewrite literal_value_total by done.
  cbn [mbind Result_bind]. destruct (bool_decide_reflect (lit_true β l)) as [H|H].
  - rewrite bool_decide_true; [done|by constructor].
  - rewrite IH. f_equal. apply bool_decide_ext. rewrite Exists_cons. tauto.
Qed.
Lemma all_literals_total ls :
  Forall (λ l, lit_variable l ∈ bool_ids problem) ls →
  all_literals ls candidate = Ok (bool_decide (Forall (lit_true β) ls)).
Proof.
  induction 1 as [|l ls Hl _ IH]; [done|]. cbn [all_literals]. rewrite literal_value_total by done.
  cbn [mbind Result_bind]. destruct (bool_decide_reflect (lit_true β l)) as [H|H]; cbn [negb].
  - rewrite IH. f_equal. apply bool_decide_ext. rewrite Forall_cons. tauto.
  - rewrite bool_decide_false; [done|]. by intros [? _]%Forall_cons_1.
Qed.
Lemma true_count_from ls n :
  Forall (λ l, lit_variable l ∈ bool_ids problem) ls → 0 ≤ n → n + Z.of_nat (trues β ls) ≤ u64_max →
  fold_m (λ count literal,
    v ← literal_value literal candidate;
    if (v : bool) then ok_or ProjectionOverflow (u64_checked_add count 1) else Ok count) n ls =
  Ok (n + Z.of_nat (trues β ls)).
Proof.
  intros Hls. revert n. induction Hls as [|l ls Hl _ IH]; intros n Hn Hmax; cbn [fold_m].
  { cbn. by rewrite Z.add_0_r. }
  rewrite literal_value_total by done. rewrite Ok_bind. unfold trues in *. rewrite filter_cons in *.
  destruct (decide (lit_true β l)) as [H|H].
  - rewrite bool_decide_true by done. rewrite length_cons in *. unfold u64_checked_add.
    rewrite (proj2 (checked_u64_Some (n + 1) (n + 1))) by (split; [done|]; unfold is_u64; lia).
    cbn [ok_or]. rewrite Ok_bind, IH by lia. f_equal. lia.
  - rewrite bool_decide_false by done. by rewrite Ok_bind, IH.
Qed.
Lemma bool_ids_size : Z.of_nat (size (bool_ids problem)) ≤ len (variables problem).
Proof.
  unfold bool_ids, len.
  assert (∀ l (m : gset string), (size (foldl add_bool m l) ≤ size m + length l)%nat) as H.
  { induction l as [|v l IH]; intros m; cbn; [lia|]. etrans; [apply IH|]. destruct v; cbn; [|lia..].
    assert (size ({[bv_id v]} ∪ m) ≤ 1 + size m)%nat; [|lia].
    rewrite size_union_alt, size_singleton. apply le_n_S, subseteq_size. set_solver. }
  specialize (H (variables problem) ∅). rewrite size_empty in H. lia.
Qed.
(** At most one literal of each variable is true, so the counter of the loop fits. *)
Lemma trues_bound ls :
  strictly_sorted ls = true → Forall (λ l, lit_variable l ∈ bool_ids problem) ls →
  Z.of_nat (trues β ls) ≤ u64_max.
Proof.
  intros Hnd%strictly_sorted_NoDup Hls.
  assert (NoDup (lit_variable <$> filter (lit_true β) ls)) as Hnd'.
  { apply NoDup_fmap_2_strong; [|by apply NoDup_filter].
    intros x y [Hx _]%list_elem_of_filter [Hy _]%list_elem_of_filter Heq. unfold lit_true in *.
    destruct x, y; cbn in *; congruence. }
  assert (length (lit_variable <$> filter (lit_true β) ls) ≤ size (bool_ids problem))%nat as Hle.
  { rewrite <-(size_list_to_set (C := gset string)) by done. apply subseteq_size. intros v Hv.
    apply elem_of_list_to_set, list_elem_of_fmap in Hv as (l & -> & [_ Hl]%list_elem_of_filter).
    rewrite Forall_forall in Hls. by apply Hls. }
  rewrite length_fmap in Hle. unfold trues. pose proof bool_ids_size.
  pose proof (adm_variable_count (problem := problem) (limits := limits)).
  destruct typed as (_ & _ & ?). lia.
Qed.
Lemma true_count_total ls :
  strictly_sorted ls = true → Forall (λ l, lit_variable l ∈ bool_ids problem) ls →
  true_count ls candidate = Ok (Z.of_nat (trues β ls)).
Proof.
  intros Hs Hls. unfold true_count. rewrite true_count_from; [done|done|lia|]. by apply trues_bound.
Qed.
Lemma row_values_from ids acc :
  Forall (declared_int (int_domains problem)) ids →
  fold_m (λ values id, v ← integer id candidate; Ok (values ++ [v])) acc ids = Ok (acc ++ (σ <$> ids)).
Proof.
  intros Hids. revert acc. induction Hids as [|id ids Hid _ IH]; intros acc; cbn [fold_m].
  { cbn. by rewrite app_nil_r. }
  rewrite integer_total by done. rewrite !Ok_bind, IH. by rewrite <-app_assoc.
Qed.
Lemma row_values_total ids :
  Forall (declared_int (int_domains problem)) ids → row_values ids candidate = Ok (σ <$> ids).
Proof. apply row_values_from. Qed.

Lemma linear_value_from l value :
  Forall (λ t, declared_int (int_domains problem) (lt_variable t)) l →
  Forall (λ t, is_i64 (term_value σ t)) l → (∀ k, is_i64 (value + terms_value σ (take k l))) →
  fold_m (λ value term,
    v ← integer (lt_variable term) candidate;
    product ← ok_or ProjectionOverflow (i64_checked_mul (lt_coefficient term) v);
    ok_or ProjectionOverflow (i64_checked_add value product)) value l = Ok (value + terms_value σ l).
Proof.
  intros Hdecl. revert value. induction Hdecl as [|t l Ht _ IH]; intros value Hp Hk; cbn [fold_m].
  { cbn. by rewrite Z.add_0_r. }
  apply Forall_cons_1 in Hp as [Htp Hp]. pose proof (Hk 1%nat) as H1.
  cbn [take] in H1. rewrite take_0, terms_value_cons in H1. cbn in H1. rewrite Z.add_0_r in H1.
  rewrite integer_total by done. rewrite Ok_bind. unfold i64_checked_mul, i64_checked_add.
  fold (term_value σ t). rewrite (checked_i64_ok _ Htp). cbn [ok_or]. rewrite Ok_bind.
  rewrite (checked_i64_ok _ H1). cbn [ok_or]. rewrite Ok_bind, IH; [|done|].
  - f_equal. rewrite terms_value_cons. lia.
  - intros k. specialize (Hk (S k)). cbn [take] in Hk. rewrite terms_value_cons in Hk. by rewrite <-Z.add_assoc.
Qed.
Lemma linear_value_total e :
  expression_wf (int_domains problem) e → linear_value e candidate = Ok (expression_value σ e).
Proof.
  intros [Hc _ (lo & hi & [Hd _ Hp Hk _])]. unfold linear_value. pose proof (tc_respects _ _ _ _ total) as Hσ.
  rewrite linear_value_from; [done|exact Hd|by apply Hp|]. intros k. by apply Hk.
Qed.
Lemma compare_op_spec x op y : compare_op x op y = true ↔ op_holds op x y.
Proof. destruct op; cbn; lia. Qed.

(** ** Intervals *)
Lemma intervals_declared l m id i :
  foldl add_interval m l !! id = Some i → (VInterval i ∈ l ∧ itv_id i = id) ∨ m !! id = Some i.
Proof.
  revert m. induction l as [|v l IH]; intros m; cbn; [by right|]. intros [[H1 H2]|H]%IH.
  { left. split; [by right|done]. }
  destruct v as [v|v|v]; cbn in H; [by right|by right|].
  apply lookup_insert_Some in H as [[<- ->]|[_ H]]; [|by right]. left. split; [by left|done].
Qed.
Lemma interval_declared id i :
  interval_values problem !! id = Some i → VInterval i ∈ variables problem ∧ itv_id i = id.
Proof. by intros [H|H]%intervals_declared. Qed.
Lemma interval_components id i :
  interval_values problem !! id = Some i →
  declared_int (int_domains problem) (itv_start i) ∧ declared_int (int_domains problem) (itv_duration i) ∧
  declared_int (int_domains problem) (itv_end i) ∧
  (∀ l, itv_presence i = Some l → lit_variable l ∈ bool_ids problem).
Proof.
  intros [Hin _]%interval_declared. pose proof (adm_intervals (limits := limits)) as Hall.
  rewrite Forall_forall in Hall. destruct (Hall _ Hin) as (s & d & e & Hs & Hd & He & Hp).
  split_and!; [by eexists..|]. intros l Hl. by rewrite Hl in Hp.
Qed.
Lemma present_interval_total id :
  id ∈ dom (interval_values problem) →
  match present_interval (interval_values problem !! id) candidate with
  | Ok r => ∃ i, interval_values problem !! id = Some i ∧
      r = (if decide (interval_present β i) then Some (σ (itv_start i), σ (itv_end i)) else None) ∧
      (interval_present β i → σ (itv_start i) ≤ σ (itv_end i))
  | Err e => e = InvalidInterval_ id ∧ incoherent problem β σ id
  end.
Proof.
  intros [i Hi]%elem_of_dom. rewrite Hi. destruct (interval_components _ _ Hi) as (Hs & Hd & He & Hp).
  destruct (interval_declared _ _ Hi) as [_ Hid]. unfold present_interval. cbn [ok_or mbind Result_bind].
  assert (match itv_presence i with Some presence => literal_value presence candidate | None => Ok true end =
    Ok (bool_decide (interval_present β i))) as ->.
  { destruct (itv_presence i) as [l|] eqn:Hl.
    - rewrite literal_value_total by by apply Hp. f_equal. apply bool_decide_ext.
      unfold interval_present. by rewrite Hl.
    - rewrite bool_decide_true; [done|]. unfold interval_present. by rewrite Hl. }
  cbn [mbind Result_bind]. rewrite (integer_total _ Hs), (integer_total _ Hd), (integer_total _ He).
  cbn [mbind Result_bind]. case_bool_decide as Hpres; cbn [negb].
  2:{ exists i. by rewrite decide_False. }
  destruct (_ || _) eqn:Hbad.
  - rewrite Hid. split; [done|]. exists i. split_and!; [done..|]. intros [H0 Hsum].
    apply orb_true_iff in Hbad as [Hlt%Z.ltb_lt|Hne%negb_true_iff%bool_decide_eq_false]; [lia|].
    destruct Hne. apply checked_i64_Some. split; [done|]. rewrite Hsum.
    destruct He as [de Hde]. eapply domain_ok_i64; [by apply (adm_ints (limits := limits) _ _ Hde)|].
    by apply (tc_respects _ _ _ _ total).
  - exists i. rewrite decide_True by done. split_and!; [done..|]. intros _.
    apply orb_false_iff in Hbad as [Hlt%Z.ltb_ge Hsum%negb_false_iff%bool_decide_eq_true].
    apply checked_i64_Some in Hsum as [Hsum _]. lia.
Qed.

(** The loops that collect the present intervals: the tasks, or an incoherent interval. *)
Lemma present_tasks_total named acc :
  Forall (λ p : string * Z, p.1 ∈ dom (interval_values problem)) named →
  match fold_m (λ present '(id, demand),
          interval ← present_interval (interval_values problem !! id) candidate;
          Ok match interval with
             | Some (s, e) => present ++ [(s, e, demand)]
             | None => present
             end) acc named with
  | Ok l => l = acc ++ tasks problem β σ named
  | Err e => ∃ id, e = InvalidInterval_ id ∧ incoherent problem β σ id
  end.
Proof.
  intros Hn. revert acc. induction Hn as [|[id d] named Hid _ IH]; intros acc; cbn [fold_m].
  { cbn. by rewrite app_nil_r. }
  cbn [fst] in Hid. pose proof (present_interval_total id Hid) as Hp.
  destruct (present_interval _ _) as [r|e]; cbn [mbind Result_bind]; [|eauto].
  destruct Hp as (i & Hi & -> & _). unfold tasks. cbn [omap list_omap]. rewrite Hi. cbn [mbind option_bind].
  destruct (decide (interval_present β i)).
  - specialize (IH (acc ++ [(σ (itv_start i), σ (itv_end i), d)])). destruct (fold_m _ _ named); [|done].
    rewrite IH, <-app_assoc. done.
  - specialize (IH acc). by destruct (fold_m _ _ named).
Qed.
Lemma present_intervals_total ids acc acc' :
  Forall (.∈ dom (interval_values problem)) ids → acc' = acc.*1 →
  match fold_m (λ present id,
          interval ← present_interval (interval_values problem !! id) candidate;
          Ok match interval with Some i => present ++ [i] | None => present end) acc' ids with
  | Ok l => l = (acc ++ tasks problem β σ ((., 0) <$> ids)).*1 ∧
            Forall (λ t, t.1.1 ≤ t.1.2) (tasks problem β σ ((., 0) <$> ids))
  | Err e => ∃ id, e = InvalidInterval_ id ∧ incoherent problem β σ id
  end.
Proof.
  intros Hn. revert acc acc'. induction Hn as [|id ids Hid _ IH]; intros acc acc' ->; cbn [fold_m].
  { cbn. rewrite app_nil_r. split; [done|constructor]. }
  pose proof (present_interval_total id Hid) as Hp.
  destruct (present_interval _ _) as [r|e]; cbn [mbind Result_bind]; [|eauto].
  destruct Hp as (i & Hi & -> & Hle). unfold tasks. cbn [fmap list_fmap omap list_omap]. rewrite Hi.
  cbn [mbind option_bind]. destruct (decide (interval_present β i)).
  - specialize (IH (acc ++ [(σ (itv_start i), σ (itv_end i), 0)]) (acc.*1 ++ [(σ (itv_start i), σ (itv_end i))])).
    ospecialize (IH _); [by rewrite fmap_app|]. destruct (fold_m _ _ ids); [|done].
    destruct IH as [-> IH]. rewrite <-app_assoc. split; [done|]. constructor; [by apply Hle|exact IH].
  - specialize (IH acc _ eq_refl). by destruct (fold_m _ _ ids).
Qed.
Lemma pairwise_disjoint_spec l :
  pairwise_disjoint l = true ↔
  ∀ i j x y, (i < j)%nat → l !! i = Some x → l !! j = Some y → y.2 ≤ x.1 ∨ x.2 ≤ y.1.
Proof.
  induction l as [|p l IH]; cbn [pairwise_disjoint]; [done|]. destruct (existsb (overlap p) l) eqn:Hex.
  - split; [done|]. intros Hall. apply existsb_exists in Hex as (q & Hq%list_elem_of_In & Ho).
    apply list_elem_of_lookup in Hq as [j Hj]. unfold overlap in Ho.
    pose proof (Hall 0%nat (S j) p q ltac:(lia) eq_refl Hj). lia.
  - rewrite IH. split.
    + intros Hall [|i] [|j] x y Hij Hx Hy; [lia| |lia|eapply (Hall i j); [lia|done..]].
      simplify_eq/=. apply not_true_iff_false in Hex.
      destruct (decide (y.2 ≤ x.1 ∨ x.2 ≤ y.1)) as [|Hno]; [done|]. destruct Hex.
      apply existsb_exists. exists y. split; [by eapply list_elem_of_In, list_elem_of_lookup_2|]. unfold overlap. lia.
    + intros Hall i j x y Hij Hx Hy. by apply (Hall (S i) (S j)); [lia|..].
Qed.

(** ** Lists of values *)
Lemma sorted_windows_NoDup (l : list Z) :
  StronglySorted le l → forallb (λ '(a, b), negb (a =? b)) (windows2 l) = true ↔ NoDup l.
Proof.
  induction 1 as [|x l Hs IH Hall]; [split; [constructor|done]|]. destruct l as [|y l].
  { split; [intros _; apply NoDup_singleton|done]. }
  rewrite windows2_cons. cbn [forallb]. rewrite andb_true_iff, IH, negb_true_iff, Z.eqb_neq, (NoDup_cons x (y :: l)).
  split; [|by intros [Hx ?]; split; [set_solver|]]. intros [Hxy Hnd]. split; [|done].
  intros [?|Hin]%elem_of_cons; [done|]. apply Forall_cons_1 in Hall as [Hle _].
  apply StronglySorted_inv in Hs as [_ Hy]. rewrite Forall_forall in Hy. specialize (Hy x Hin).
  apply Hxy, le_antisymm; done.
Qed.
Lemma all_different_spec (l : list Z) :
  forallb (λ '(a, b), negb (a =? b)) (windows2 (ord_sort l)) = true ↔ NoDup l.
Proof.
  rewrite sorted_windows_NoDup by apply sort_by_key_sorted. unfold ord_sort. by rewrite (sort_by_key_perm (λ x, x)).
Qed.
Lemma list_min_spec l m : list_min l = Some m ↔ m ∈ l ∧ Forall (λ x, m ≤ x) l.
Proof.
  destruct l as [|x l]; cbn; [split; [done|by intros [?%not_elem_of_nil _]]|].
  assert (∀ x, foldl Z.min x l ∈ x :: l ∧ Forall (λ y, foldl Z.min x l ≤ y) (x :: l)) as Hfold.
  { induction l as [|y l IH]; intros z; cbn; [split; [by left|repeat constructor; lia]|].
    destruct (IH (Z.min z y)) as [Hin [Hz Hall]%Forall_cons_1]. split; [set_solver by lia|].
    repeat constructor; [lia|lia|done]. }
  destruct (Hfold x) as [Hin Hall]. split; [intros [= <-]; done|]. intros [Hm Hmall].
  f_equal. rewrite Forall_forall in Hall, Hmall. specialize (Hall m Hm). specialize (Hmall _ Hin). lia.
Qed.
Lemma list_max_spec l m : list_max l = Some m ↔ m ∈ l ∧ Forall (λ x, x ≤ m) l.
Proof.
  destruct l as [|x l]; cbn; [split; [done|by intros [?%not_elem_of_nil _]]|].
  assert (∀ x, foldl Z.max x l ∈ x :: l ∧ Forall (λ y, y ≤ foldl Z.max x l) (x :: l)) as Hfold.
  { induction l as [|y l IH]; intros z; cbn; [split; [by left|repeat constructor; lia]|].
    destruct (IH (Z.max z y)) as [Hin [Hz Hall]%Forall_cons_1]. split; [set_solver by lia|].
    repeat constructor; [lia|lia|done]. }
  destruct (Hfold x) as [Hin Hall]. split; [intros [= <-]; done|]. intros [Hm Hmall].
  f_equal. rewrite Forall_forall in Hall, Hmall. specialize (Hall m Hm). specialize (Hmall _ Hin). lia.
Qed.
Lemma table_search_spec (rows : list (list Z)) row :
  bool_decide (is_Some (binary_search_by_key (λ x, x) row rows)) = true ↔ row ∈ rows.
Proof.
  rewrite bool_decide_eq_true. split.
  - intros [i Hi]. apply binary_search_Some in Hi as (x & Hx & <-). by eapply list_elem_of_lookup_2.
  - intros Hin. destruct (binary_search_by_key _ row rows) eqn:E; [by eexists|].
    rewrite binary_search_None in E. by destruct (E row Hin).
Qed.
Lemma tasks_demands named :
  Forall (λ p : string * Z, 0 ≤ p.2) named →
  Forall (λ t : Z * Z * Z, 0 ≤ t.2) (tasks problem β σ named) ∧
  foldr Z.add 0 (tasks problem β σ named).*2 ≤ foldr Z.add 0 named.*2.
Proof.
  induction 1 as [|[id d] named Hd _ [IH1 IH2]]; [done|]. unfold tasks in *. cbn [omap list_omap snd] in *.
  cbn [fmap list_fmap foldr snd].
  destruct (interval_values problem !! id) as [i|]; cbn [mbind option_bind]; [|split; [done|lia]].
  destruct (decide _); [|split; [done|lia]]. cbn [fmap list_fmap foldr snd]. split; [by constructor|lia].
Qed.
Lemma cumulative_total ivs demands capacity :
  constraint_wf (bool_ids problem) (int_domains problem) (dom (interval_values problem))
    (Cumulative ivs demands capacity) →
  decides problem β σ (constraint_holds problem β σ (Cumulative ivs demands capacity))
    (evaluate_constraint (Cumulative ivs demands capacity) problem candidate).
Proof.
  cbn [constraint_wf constraint_holds evaluate_constraint]. intros (_ & Hin & Hlen & Hcap & Hd & Hsum).
  unfold len in Hlen.
  assert (Forall (λ p : string * Z, p.1 ∈ dom (interval_values problem)) (zip ivs demands)) as Hz.
  { assert (Forall (.∈ dom (interval_values problem)) (zip ivs demands).*1) as H by by rewrite fst_zip by lia.
    by rewrite Forall_fmap in H. }
  assert (Forall (λ p : string * Z, 0 ≤ p.2) (zip ivs demands)) as Hz2.
  { assert (Forall (λ d, 0 ≤ d) (zip ivs demands).*2) as H by by rewrite snd_zip by lia.
    by rewrite Forall_fmap in H. }
  pose proof (present_tasks_total _ [] Hz) as Hp. destruct (fold_m _ _ _) as [l|e]; [|exact Hp].
  cbn [app] in Hp. subst l. cbn [mbind Result_bind]. destruct (tasks_demands _ Hz2) as [Hpos Htot].
  rewrite snd_zip in Htot by lia.
  destruct (check_instants_spec (tasks problem β σ (zip ivs demands)) capacity
    ((λ task, task.1.1) <$> tasks problem β σ (zip ivs demands)) Hpos) as (b & -> & Hb).
  { unfold is_i64 in Hsum. lia. }
  cbn [decides]. rewrite Hb, Forall_fmap. split; [by apply load_at_starts|].
  intros Hall. apply Forall_forall. intros task _. apply Hall.
Qed.
(** Two intervals follow one another exactly when they share no instant and neither is an empty one strictly
    inside the other. *)
Lemma apart_iff (x y : Z * Z * Z) : x.1.1 ≤ x.1.2 → y.1.1 ≤ y.1.2 →
  (y.1.2 ≤ x.1.1 ∨ x.1.2 ≤ y.1.1) ↔
  (∀ instant, covers instant x = true → covers instant y = false) ∧
  ¬ (x.1.1 = x.1.2 ∧ y.1.1 < x.1.1 < y.1.2) ∧ ¬ (y.1.1 = y.1.2 ∧ x.1.1 < y.1.1 < x.1.2).
Proof using.
  unfold covers. intros Hx Hy. split.
  - intros H. split_and!; [intros instant|lia|lia]. rewrite andb_true_iff, andb_false_iff. lia.
  - intros (Hc & H1 & H2). specialize (Hc (Z.max x.1.1 y.1.1)). rewrite andb_true_iff, andb_false_iff in Hc. lia.
Qed.
Lemma no_overlap_total ivs :
  constraint_wf (bool_ids problem) (int_domains problem) (dom (interval_values problem)) (NoOverlap ivs) →
  decides problem β σ (constraint_holds problem β σ (NoOverlap ivs) ∧ ¬ pinched_body problem β σ (NoOverlap ivs))
    (evaluate_constraint (NoOverlap ivs) problem candidate).
Proof.
  cbn [constraint_wf constraint_holds pinched_body evaluate_constraint]. intros [_ Hin].
  pose proof (present_intervals_total ivs [] [] Hin eq_refl) as Hp.
  destruct (fold_m _ _ _) as [l|e]; [|exact Hp]. cbn [app] in Hp. destruct Hp as [-> Hle]. cbn [mbind Result_bind decides].
  rewrite Forall_lookup in Hle. generalize dependent (tasks problem β σ ((., 0) <$> ivs)). intros ts Hle.
  rewrite pairwise_disjoint_spec. setoid_rewrite list_lookup_fmap. setoid_rewrite fmap_Some. split.
  - intros H.
    assert (∀ i j x y, i ≠ j → ts !! i = Some x → ts !! j = Some y → y.1.2 ≤ x.1.1 ∨ x.1.2 ≤ y.1.1) as Hall.
    { intros i j x y Hij Hx Hy. destruct (decide (i < j)%nat); [by apply (H i j x.1 y.1); eauto|].
      destruct (H j i y.1 x.1) as [?|?]; [lia|eauto..|by right|by left]. }
    split.
    + intros i j x y instant Hij Hx Hy. by apply apart_iff; eauto.
    + intros (i & j & x & y & Hij & Hx & Hy & Hz). pose proof (Hall i j x y Hij Hx Hy). lia.
  - intros [Hc Hp] i j x y Hij (x' & Hx & ->) (y' & Hy & ->). apply apart_iff; [by eauto..|]. split_and!.
    + intros instant. by apply (Hc i j x' y'); [lia|..].
    + intros Hz. apply Hp. exists i, j, x', y'. split_and!; try done; lia.
    + intros Hz. apply Hp. exists j, i, y', x'. split_and!; try done; lia.
Qed.

Lemma evaluate_other_total c :
  constraint_wf (bool_ids problem) (int_domains problem) (dom (interval_values problem)) c →
  (∀ ivs, c ≠ NoOverlap ivs) → decides problem β σ (constraint_holds problem β σ c) (evaluate_constraint c problem candidate).
Proof.
  intros Hwf Hne. destruct c as [ls|ls|l r|l r|ls|ls|ls mn mx|cmp|l cmp|vs|vs rows|vs rows|ix vals tg|tg ins|tg ins|l r|tg l r|ivs|ivs ds cap];
    try (by apply cumulative_total); try (by destruct (Hne ivs));
    cbn [constraint_wf] in Hwf; cbn [evaluate_constraint constraint_holds].
  - destruct Hwf as [_ Hl]. rewrite any_literals_total by done. apply bool_decide_eq_true.
  - destruct Hwf as [_ Hl]. rewrite all_literals_total by done. apply bool_decide_eq_true.
  - destruct Hwf as [Hl Hr]. rewrite !literal_value_total by done. rewrite Ok_bind.
    destruct (bool_decide_reflect (lit_true β l)); cbn; [rewrite bool_decide_eq_true|]; tauto.
  - destruct Hwf as [Hl Hr]. rewrite !literal_value_total by done. rewrite !Ok_bind. cbn.
    rewrite eqb_true_iff. destruct (bool_decide_reflect (lit_true β l)), (bool_decide_reflect (lit_true β r)); naive_solver.
  - destruct Hwf as [Hs Hl]. rewrite true_count_total, Ok_bind by done. cbn. lia.
  - destruct Hwf as [Hs Hl]. rewrite true_count_total, Ok_bind by done. cbn. lia.
  - destruct Hwf as (Hs & Hl & _). rewrite true_count_total, Ok_bind by done. cbn. lia.
  - rewrite linear_value_total, Ok_bind by done. apply compare_op_spec.
  - destruct Hwf as [Hl He]. rewrite linear_value_total, Ok_bind, literal_value_total, Ok_bind by done. cbn.
    unfold comparison_holds. rewrite <-compare_op_spec, eqb_true_iff.
    destruct (bool_decide_reflect (lit_true β l)), (compare_op _ _ _); naive_solver.
  - destruct Hwf as [_ Hv]. rewrite row_values_total, Ok_bind by done. apply all_different_spec.
  - destruct Hwf as (Hv & _ & _). rewrite row_values_total, Ok_bind by done. apply table_search_spec.
  - destruct Hwf as (Hv & _ & _). rewrite row_values_total, Ok_bind by done. cbn.
    rewrite negb_true_iff, <-not_true_iff_false, table_search_spec. done.
  - destruct Hwf as [Hi Ht]. rewrite (integer_total _ Hi), Ok_bind, (integer_total _ Ht), Ok_bind.
    destruct (Z.ltb_spec (σ ix) 0); cbn; [split; [done|]; intros (i & ? & _); lia|].
    rewrite bool_decide_eq_true. split; [intros Hlk; exists (Z.to_nat (σ ix)); split; [lia|done]|].
    intros (i & -> & Hlk). by rewrite Nat2Z.id.
  - destruct Hwf as (Ht & _ & _ & Hi). rewrite (integer_total _ Ht), Ok_bind, row_values_total, Ok_bind by done.
    cbn. rewrite bool_decide_eq_true, list_min_spec, Forall_fmap. done.
  - destruct Hwf as (Ht & _ & _ & Hi). rewrite (integer_total _ Ht), Ok_bind, row_values_total, Ok_bind by done.
    cbn. rewrite bool_decide_eq_true, list_max_spec, Forall_fmap. done.
  - destruct Hwf as [Hl Hr]. rewrite (integer_total _ Hl), Ok_bind, (integer_total _ Hr), Ok_bind. cbn. lia.
  - destruct Hwf as (Ht & dl & dr & Hl & Hr & Hsafe).
    rewrite (integer_total l), Ok_bind, (integer_total r), Ok_bind by (by eexists).
    destruct (Hsafe (σ l) (σ r)) as [Hd Ha]; [by apply (tc_respects _ _ _ _ total)..|].
    unfold i64_checked_sub, i64_checked_abs. rewrite (checked_i64_ok _ Hd). cbn [mbind option_bind].
    rewrite (checked_i64_ok _ Ha). cbn [ok_or]. rewrite Ok_bind, (integer_total _ Ht), Ok_bind. cbn. lia.
Qed.
Lemma evaluate_constraint_total c :
  constraint_wf (bool_ids problem) (int_domains problem) (dom (interval_values problem)) c →
  decides problem β σ (constraint_holds problem β σ c ∧ ¬ pinched_body problem β σ c) (evaluate_constraint c problem candidate).
Proof.
  intros Hwf. assert ((∃ ivs, c = NoOverlap ivs) ∨ (∀ ivs, c ≠ NoOverlap ivs) ∧ ¬ pinched_body problem β σ c) as [[ivs ->]|[Hne Hp]]
    by (destruct c; naive_solver).
  - by apply no_overlap_total.
  - pose proof (evaluate_other_total c Hwf Hne) as H. destruct (evaluate_constraint _ _ _); cbn in *; [tauto|done].
Qed.
Lemma evaluate_record_total r :
  r ∈ constraints problem →
  decides problem β σ (record_holds problem β σ r ∧ ¬ pinched problem β σ r) (evaluate_record r problem candidate).
Proof.
  intros Hr. pose proof (adm_constraints (limits := limits)) as Hall. rewrite Forall_forall in Hall.
  destruct (Hall r Hr) as [_ _ Hl Hb]. unfold evaluate_record, record_holds, pinched.
  rewrite all_literals_total, Ok_bind by done. destruct (bool_decide_reflect (Forall (lit_true β) (cr_enforcement r))); cbn [negb].
  - pose proof (evaluate_constraint_total _ Hb) as Hd. destruct (evaluate_constraint _ _ _); cbn in *; [tauto|done].
  - cbn. tauto.
Qed.
End evaluation.

(** C32. On a problem validation accepts and a candidate that assigns every declared variable within
    its domain, the evaluator decides every constraint as documented, with one exception: it returns
    [true] exactly when the constraint holds and is not an enforced no-overlap constraint with a
    present interval of zero duration strictly inside another. By the documentation such an interval
    occupies no instant and half-open intervals that share no instant do not overlap, but the
    evaluator refuses it. Its only error names a present interval whose start, duration and end do
    not fit together. No arithmetic overflows and nothing is missing; in particular a capacity
    checked at the task starts alone holds at every instant. *)
Theorem evaluator_decides_constraints blake3_hex problem limits candidate β σ record :
  typed_limits limits → validate blake3_hex problem limits = Ok tt →
  total_candidate problem candidate β σ → record ∈ constraints problem →
  match evaluate_record record problem candidate with
  | Ok b => b = true ↔ record_holds problem β σ record ∧ ¬ pinched problem β σ record
  | Err e => ∃ id, e = InvalidInterval_ id ∧ incoherent problem β σ id
  end.
Proof.
  intros Hl Hv Ht Hr. pose proof (validate_admits _ _ _ Hl Hv) as Hadm.
  by apply (evaluate_record_total problem limits).
Qed.

(** A cumulative capacity respected at the start of every task is respected at every instant. *)
Theorem cumulative_starts_suffice ts capacity instants :
  0 ≤ capacity → Forall (λ task : Z * Z * Z, 0 ≤ task.2) ts → foldr Z.add 0 ts.*2 ≤ i64_max →
  (∀ start, start ∈ (λ task : Z * Z * Z, task.1.1) <$> ts → start ∈ instants) →
  check_instants ts capacity instants = Ok (bool_decide (Forall (λ t, load ts t ≤ capacity) instants)) ∧
  (Forall (λ t, load ts t ≤ capacity) instants ↔ ∀ t, load ts t ≤ capacity).
Proof.
  intros Hc Hd Hs Hst. destruct (check_instants_spec ts capacity instants Hd Hs) as (b & -> & Hb). split.
  - f_equal. case_bool_decide; destruct b; naive_solver.
  - split; [|intros H; by apply Forall_forall]. intros Hall. apply load_at_starts; [done|done|].
    apply Forall_forall. intros task Ht. rewrite Forall_forall in Hall. apply Hall, Hst.
    apply list_elem_of_fmap. by exists task.
Qed.
