(* ===== verification/Accounting.v ===== *)
(** * Live bytes across whole operations

    Every reservation that validation, analysis, canonical hashing, summaries and model preparation
    take from a preparation budget is given back on every path: an operation that fails, whatever the
    reason, leaves the live bytes as it found them, and one that succeeds keeps exactly the
    reservations its result owns.  Releasing a prepared model gives those back. *)
From stdpp Require Import base tactics list gmap strings.
From Stdlib Require Import ZArith Lia.
From S2P Require Import Prelude Ordering Control Budget Ids DomainIr Model Analysis.
From S2P Require Import Validation Canonical.
Open Scope Z_scope.

(** The second budget is the first with [d] more live bytes and the same raw bytes. *)
Record shifted (d : Z) (b b' : PlanningPreparationBudget) : Prop := {
  sh_live : transient_bytes b' = transient_bytes b + d;
  sh_raw : raw_transient_bytes b' = raw_transient_bytes b;
  sh_counter : counter_id b' = counter_id b
}.
Lemma shifted_refl b : shifted 0 b b.
Proof. split; lia || done. Qed.
Lemma shifted_trans d1 d2 b1 b2 b3 : shifted d1 b1 b2 → shifted d2 b2 b3 → shifted (d1 + d2) b1 b3.
Proof. intros [] []. split; [lia|congruence..]. Qed.
Lemma shifted_retire n d b b' : shifted d b b' → shifted (d - n) b (retire n b').
Proof. intros []. split; cbn; lia || done. Qed.

(** ** Computations over a budget, or over an optional one *)
Class Account (S : Type) := account : S → option PlanningPreparationBudget.
#[global] Instance budget_account : Account PlanningPreparationBudget := Some.
#[global] Instance ctx_account : Account Ctx := id.

Section moves.
Context {S : Type} `{!Account S}.

(** On success with [a] the live bytes move by [d a], on an error by [e]. *)
Definition moves {E A} (e : Z) (d : A → Z) (m : SE S E A) : Prop :=
  ∀ s b, account s = Some b → ∃ b', account (m s).2 = Some b' ∧
    shifted (match (m s).1 with Ok a => d a | Err _ => e end) b b'.
Definition neutral {E A} (m : SE S E A) : Prop := moves 0 (λ _, 0) m.

Lemma moves_eq {E A} e e' (d d' : A → Z) (m : SE S E A) :
  moves e d m → e = e' → (∀ a, d a = d' a) → moves e' d' m.
Proof.
  intros Hm <- Hd s b Hs. destruct (Hm s b Hs) as (b' & Hb & Hsh). exists b'. split; [done|].
  destruct (m s).1; [by rewrite <-Hd|done].
Qed.
Lemma moves_ret {E A} e (d : A → Z) a : d a = 0 → moves e d (mret a : SE S E A).
Proof. intros Hd s b Hs. exists b. cbn. rewrite Hd. split; [done|apply shifted_refl]. Qed.
Lemma moves_bind {E A B} e (d1 : A → Z) (d : B → Z) (m : SE S E A) k :
  moves e d1 m → (∀ a, moves (e - d1 a) (λ x, d x - d1 a) (k a)) → moves e d (m ≫= k).
Proof.
  intros Hm Hk s b Hs. destruct (Hm s b Hs) as (b1 & Hb1 & H1). unfold mbind, SE_bind.
  destruct (m s) as [[a|err] s1]; cbn in *; [|eauto].
  destruct (Hk a s1 b1 Hb1) as (b2 & Hb2 & H2). exists b2. split; [done|].
  pose proof (shifted_trans _ _ _ _ _ H1 H2) as H. destruct (k a s1).1.
  - replace (d a0) with (d1 a + (d a0 - d1 a)) by lia. done.
  - replace e with (d1 a + (e - d1 a)) by lia. done.
Qed.
Lemma moves_seq {E A B} (d : B → Z) (m : SE S E A) k :
  neutral m → (∀ a, moves 0 d (k a)) → moves 0 d (m ≫= k).
Proof.
  intros Hm Hk. eapply moves_bind; [exact Hm|]. intros a. eapply moves_eq; [apply Hk|lia|]. intros; cbn beta; lia.
Qed.

Lemma neutral_ret {E A} (a : A) : neutral (mret a : SE S E A).
Proof. by apply moves_ret. Qed.
Lemma neutral_lift {E A} (r : Result E A) : neutral (se_lift r : SE S E A).
Proof. intros s b Hs. exists b. split; [done|]. destruct r; apply shifted_refl. Qed.
Lemma neutral_fail {E A} (err : E) : neutral (se_fail err : SE S E A).
Proof. intros s b Hs. exists b. split; [done|]. apply shifted_refl. Qed.
Lemma neutral_bind {E A B} (m : SE S E A) (k : A → SE S E B) :
  neutral m → (∀ a, neutral (k a)) → neutral (m ≫= k).
Proof. apply moves_seq. Qed.
Lemma neutral_for_each {E A} (f : A → SE S E unit) l : (∀ x, neutral (f x)) → neutral (for_each f l).
Proof. intros Hf. induction l; cbn; [apply neutral_ret|]. by apply neutral_bind. Qed.
Lemma neutral_for_each_from {E A} i (f : nat → A → SE S E unit) l :
  (∀ i x, neutral (f i x)) → neutral (for_each_from i f l).
Proof. intros Hf. revert i. induction l; intros i; cbn; [apply neutral_ret|]. by apply neutral_bind. Qed.
Lemma neutral_fold_m {E A B} (f : B → A → SE S E B) b l :
  (∀ b x, neutral (f b x)) → neutral (fold_m f b l).
Proof. intros Hf. revert b. induction l; intros b; cbn; [apply neutral_ret|]. by apply neutral_bind. Qed.
Lemma neutral_fold_m_from {E A B} i (f : nat → B → A → SE S E B) b l :
  (∀ i b x, neutral (f i b x)) → neutral (fold_m_from i f b l).
Proof.
  intros Hf. revert i b. induction l; intros i b; cbn; [apply neutral_ret|]. by apply neutral_bind.
Qed.
End moves.
#[export] Hint Resolve neutral_ret neutral_lift neutral_fail : accounting.

(** ** Budget operations *)
Lemma neutral_budget_check : neutral budget_check.
Proof.
  intros s b [= ->]. exists (observe b). prep_check b; (split; [done|]); by split; cbn; lia || done.
Qed.
Lemma neutral_reserve_work n : neutral (reserve_work n).
Proof.
  intros s b [= ->]. destruct (reserve_work_cases n b) as [(-> & _)|[e ->]]; cbn;
    (eexists; split; [done|]); split; cbn; lia || done.
Qed.
Lemma moves_reserve_owned n : moves 0 bytes (reserve_transient_owned n).
Proof.
  intros s b [= ->]. destruct (reserve_owned_cases n b) as [(-> & _)|[e ->]]; cbn;
    (eexists; split; [done|]); split; cbn; lia || done.
Qed.
#[export] Hint Resolve neutral_budget_check neutral_reserve_work : accounting.

(** Running a computation on another form of state, or with another error. *)
Lemma moves_budgeted {A} (d : option A → Z) (m : Prep A) :
  d None = 0 → moves 0 (λ a, d (Some a)) m → moves 0 d (budgeted m).
Proof.
  intros _ Hm s b Hs. change (s = Some b) in Hs. subst s. destruct (Hm b b eq_refl) as (b' & [= Hb] & Hsh).
  unfold budgeted. destruct (m b) as [[a|e] b1]; cbn in *; subst; by eexists.
Qed.
Lemma moves_prep {A} (d : A → Z) (m : AM A) : moves 0 d m → moves 0 d (prep m).
Proof.
  intros Hm s b Hs. destruct (Hm s b Hs) as (b' & Hb & Hsh). exists b'. unfold prep.
  by destruct (m s) as [[a|e] s1].
Qed.
Lemma moves_bprep {A} (d : A → Z) (m : Prep A) : moves 0 d m → moves 0 d (bprep m).
Proof.
  intros Hm s b Hs. destruct (Hm s b Hs) as (b' & Hb & Hsh). exists b'. unfold bprep.
  by destruct (m s) as [[a|e] s1].
Qed.
Lemma neutral_bprep {A} (m : Prep A) : neutral m → neutral (bprep m).
Proof. apply moves_bprep. Qed.
Lemma moves_cprep {A} (d : A → Z) (m : Prep A) : moves 0 d m → moves 0 d (cprep m).
Proof.
  intros Hm s b Hs. destruct (Hm s b Hs) as (b' & Hb & Hsh). exists b'. unfold cprep.
  by destruct (m s) as [[a|e] s1].
Qed.
Lemma moves_on_budget {E A} e (d : A → Z) (m : SE Ctx E A) :
  moves e d m → moves (S := PlanningPreparationBudget) e d
    (λ b, match m (Some b) with (r, Some b') => (r, b') | (r, None) => (r, b) end).
Proof.
  intros Hm s b [= ->]. destruct (Hm (Some b) b eq_refl) as (b' & Hb & Hsh).
  destruct (m (Some b)) as [r [b1|]]; cbn in *; [|done]. by exists b1; simplify_eq.
Qed.
Lemma neutral_budgeted {A} (m : Prep A) : neutral m → neutral (budgeted m).
Proof. intros Hm. by apply (moves_budgeted (λ _, 0)). Qed.
Lemma neutral_charge n : neutral (charge n).
Proof. apply neutral_bind; [apply neutral_budgeted; auto with accounting|auto with accounting]. Qed.
Lemma neutral_visit : neutral visit.
Proof. apply neutral_charge. Qed.
Lemma neutral_context_visit : neutral context_visit.
Proof. apply moves_prep, neutral_visit. Qed.
Lemma neutral_context_charge n : neutral (context_charge n).
Proof. apply moves_prep, neutral_charge. Qed.
Lemma neutral_invalid {A} (r : VR A) : neutral (invalid r).
Proof. apply neutral_lift. Qed.
Lemma neutral_is_budgeted {E} : neutral (is_budgeted (E := E)).
Proof. intros s b Hs. exists b. split; [done|apply shifted_refl]. Qed.
#[export] Hint Resolve neutral_charge neutral_visit neutral_context_visit neutral_context_charge
  neutral_invalid neutral_is_budgeted : accounting.

(** ** Guards *)
Definition held (g : Guard) : Z := default 0 g.
Lemma moves_open_guard (m : Prep Z) : neutral m → moves 0 held (open_guard m).
Proof.
  intros Hm. apply moves_budgeted; [done|]. apply moves_seq; [done|]. intros n.
  eapply moves_bind; [apply moves_reserve_owned|]. intros r. apply moves_ret. unfold held. cbn. lia.
Qed.
Lemma moves_retire_guard {E} e g : moves e (λ _, - held g) (retire_guard (E := E) g).
Proof.
  intros s b Hs. change (s = Some b) in Hs. subst s. destruct g as [n|]; cbn.
  - exists (retire n b). split; [done|]. split; cbn; unfold held; cbn; lia || done.
  - exists b. split; [done|]. apply shifted_refl.
Qed.
Lemma moves_on_err {E A} g e (d : A → Z) (m : SE Ctx E A) :
  moves (e + held g) d m → moves e d (on_err g m).
Proof.
  intros Hm s b Hs. destruct (Hm s b Hs) as (b1 & Hb1 & H1). unfold on_err.
  destruct (m s) as [[a|err] s1]; cbn in *; [eauto|].
  change (s1 = Some b1) in Hb1. subst s1. unfold held in H1. destruct g as [n|]; cbn in *.
  - exists (retire n b1). split; [done|]. replace e with (e + n - n) by lia. by apply shifted_retire.
  - exists b1. split; [done|]. by rewrite Z.add_0_r in H1.
Qed.
Lemma moves_guarded {E A} g (m : SE Ctx E A) :
  neutral m → moves (- held g) (λ _, - held g) (guarded g m).
Proof.
  intros Hm. unfold guarded. apply (moves_bind _ (λ _, 0)).
  { apply moves_on_err. eapply moves_eq; [exact Hm|lia|done]. }
  intros ?. eapply moves_bind; [apply moves_retire_guard|]. intros ?. apply moves_ret. lia.
Qed.
(** A reservation whose scope is the rest of the computation. *)
Lemma neutral_scope {E A} (m : SE Ctx E Guard) (k : Guard → SE Ctx E A) :
  moves 0 held m → (∀ g, neutral (k g)) → neutral (m ≫= λ g, guarded g (k g)).
Proof.
  intros Hm Hk. eapply moves_bind; [exact Hm|]. intros g. eapply moves_eq; [by apply moves_guarded|lia|].
  intros; cbn beta; lia.
Qed.

Ltac settle :=
  repeat first
  [ progress intros
  | solve [auto with accounting]
  | apply neutral_for_each | apply neutral_for_each_from
  | apply neutral_fold_m | apply neutral_fold_m_from
  | apply neutral_budgeted
  | apply neutral_scope; [apply moves_prep, moves_open_guard|]
  | apply neutral_scope; [apply moves_open_guard|]
  | apply neutral_bind
  | match goal with
    | |- neutral (match ?x with _ => _ end) => destruct x
    | |- neutral ((let '_ := ?x in _) _) => destruct x
    end ].

(** ** Analysis *)
Lemma neutral_feature_usage problem : neutral (feature_usage_inner problem).
Proof. unfold visit_fold, feature_usage_inner. settle. Qed.
Lemma neutral_constraint_node_capacity c : neutral (constraint_node_capacity c).
Proof. destruct c; cbn [constraint_node_capacity]; settle. Qed.
Lemma neutral_edge_scratch n : neutral (edge_scratch_bytes n).
Proof. unfold edge_scratch_bytes. settle. Qed.
Lemma neutral_push_nodes nodes edge : neutral (push_nodes nodes edge).
Proof. unfold push_nodes. settle. Qed.
#[export] Hint Resolve neutral_constraint_node_capacity neutral_edge_scratch neutral_push_nodes : accounting.
Lemma moves_reserve_edge capacity : neutral capacity → moves 0 held (reserve_edge capacity).
Proof. intros Hc. unfold reserve_edge. apply moves_open_guard. settle. Qed.
Lemma neutral_find fuel parent node : neutral (find_root fuel parent node).
Proof.
  revert parent node. induction fuel as [|fuel IH]; intros parent node; cbn [find_root]; settle.
Qed.
#[export] Hint Resolve neutral_find : accounting.
Lemma neutral_union f l r : neutral (union_ f l r).
Proof. unfold union_, find. settle. Qed.
#[export] Hint Resolve neutral_union : accounting.
Lemma neutral_edge_scope {A} capacity (k : Guard → AM A) :
  neutral capacity → (∀ g, neutral (k g)) → neutral (reserve_edge capacity ≫= λ g, guarded g (k g)).
Proof. intros. by apply neutral_scope; [apply moves_reserve_edge|]. Qed.
Lemma neutral_union_edge ordered edge st : neutral (union_edge ordered edge st).
Proof. unfold union_edge, bump_edges. apply neutral_edge_scope; settle. Qed.
#[export] Hint Resolve neutral_union_edge : accounting.
Lemma neutral_all_edges ordered problem st : neutral (all_edges ordered problem st).
Proof.
  unfold all_edges, variable_edges, constraint_edges, objective_edges, projection_edges, assumption_edges,
    constraint_nodes_into_with_budget, projection_nodes_with_budget, visits.
  repeat (settle; try (apply neutral_edge_scope)).
Qed.
#[export] Hint Resolve neutral_all_edges : accounting.
Lemma neutral_scratch n factor extra : neutral (scratch_of n factor extra).
Proof. unfold scratch_of. settle. Qed.
#[export] Hint Resolve neutral_scratch : accounting.
Lemma neutral_sort_groups l : neutral (sort_groups l).
Proof. unfold sort_groups. settle. Qed.
Lemma neutral_hash_components blake3_hex cs edges : neutral (hash_components blake3_hex cs edges).
Proof. unfold hash_components, hash_component. settle. Qed.
Lemma neutral_group_step st entry : neutral (group_step st entry).
Proof. unfold group_step, find. settle. Qed.
#[export] Hint Resolve neutral_sort_groups neutral_hash_components neutral_group_step : accounting.
Lemma moves_on_err_neutral {E A} g (m : SE Ctx E A) e :
  neutral m → e = - held g → moves e (λ _, 0) (on_err g m).
Proof. intros Hm ->. apply moves_on_err. eapply moves_eq; [exact Hm|lia|done]. Qed.
Lemma moves_on_err2_neutral {E A} g h (m : SE Ctx E A) e :
  neutral m → e = - held g - held h → moves e (λ _, 0) (on_err g (on_err h m)).
Proof. intros Hm ->. do 2 apply moves_on_err. eapply moves_eq; [exact Hm|lia|done]. Qed.
Lemma moves_seq_at {S E A B} `{!Account S} e (d : B → Z) (m : SE S E A) k :
  moves e (λ _, 0) m → (∀ a, moves e d (k a)) → moves e d (m ≫= k).
Proof.
  intros Hm Hk. eapply moves_bind; [exact Hm|]. intros a. eapply moves_eq; [apply Hk|lia|].
  intros; cbn beta; lia.
Qed.

Arguments held : simpl never.

Section analysis.
Context (blake3_hex : list Z → string).

Lemma moves_declared_nodes problem : moves 0 (λ r, held r.1) (declared_nodes problem).
Proof.
  unfold declared_nodes. eapply moves_bind; [apply moves_open_guard; unfold declared_scratch; settle|].
  intros g. apply moves_ret. cbn. lia.
Qed.
(** The region in which the declared nodes are alive: it keeps the output and grouping guards. *)
Definition grouped_region (problem : PlanningProblem) (ordered : list VariableNode) :
    AM (list (list string) * Z * Guard * Guard) :=
  let node_count := len ordered in
  index ← open_guard (index_scratch node_count);
  '(st, parent_guard) ← on_err index (
    parent_guard ← open_guard (parent_scratch node_count);
    st ← on_err parent_guard
           (all_edges ordered problem
              ({| parent := seq 0 (length ordered); size_ := replicate (length ordered) 1 |}, 0));
    mret (st, parent_guard));
  _ ← retire_guard index;
  result ← on_err parent_guard (
    output ← open_guard (
      output_bytes ← scratch_of node_count 512 8192;
      _ ← scratch_of node_count 128 4096;
      _ ← reserve_work node_count;
      mret output_bytes);
    grouping ← on_err output (open_guard (scratch_of node_count 128 4096));
    '(_, grouped) ← on_err output (on_err grouping
      (fold_m group_step (parent st.1, ∅) (enumerate ordered)));
    mret ((sort_by_key fst (map_to_list grouped)).*2, st.2, output, grouping));
  _ ← retire_guard parent_guard;
  mret result.
Lemma moves_grouped_region problem ordered :
  moves 0 (λ r, held r.1.2 + held r.2) (grouped_region problem ordered).
Proof.
  unfold grouped_region. eapply moves_bind; [apply moves_open_guard; unfold index_scratch; settle|].
  intros index. apply (moves_bind _ (λ r, held r.2)).
  { apply moves_on_err, (moves_eq 0 _ (λ r, held r.2)); [|lia|done].
    eapply moves_bind; [apply moves_open_guard; unfold parent_scratch; settle|]. intros pg.
    apply moves_seq_at; [apply moves_on_err_neutral; [settle|lia]|]. intros st. apply moves_ret. cbn. lia. }
  intros [st pg]. eapply moves_bind; [apply moves_retire_guard|]. intros ?. cbn [snd].
  apply (moves_bind _ (λ r, held r.1.2 + held r.2)).
  { apply moves_on_err, (moves_eq 0 _ (λ r, held r.1.2 + held r.2)); [|lia|done].
    eapply moves_bind; [apply moves_open_guard; settle|]. intros output.
    apply (moves_bind _ held).
    { apply moves_on_err, (moves_eq 0 _ held); [apply moves_open_guard; settle|lia|done]. }
    intros grouping. apply moves_seq_at; [apply moves_on_err2_neutral; [settle|lia]|].
    intros [? grouped]. apply moves_ret. cbn. lia. }
  intros result. eapply moves_bind; [apply moves_retire_guard|]. intros ?. apply moves_ret. cbn. lia.
Qed.

Lemma moves_analyze problem :
  moves 0 (λ a, held (bca_reservation a)) (analyze_components_inner blake3_hex problem).
Proof.
  unfold analyze_components_inner. apply moves_seq; [settle|]. intros _.
  eapply moves_bind; [apply moves_declared_nodes|]. intros [declared ordered]. cbn [fst].
  fold (grouped_region problem ordered).
  apply (moves_bind _ (λ r, held r.1.2 + held r.2)).
  { apply moves_on_err, (moves_eq 0 _ (λ r, held r.1.2 + held r.2)); [apply moves_grouped_region|lia|done]. }
  intros [[[groups edges] output] grouping]. cbn [fst snd].
  eapply moves_bind; [apply moves_retire_guard|]. intros ?.
  apply moves_seq_at; [apply moves_on_err2_neutral; [settle|lia]|]. intros groups'.
  eapply moves_bind; [apply moves_retire_guard|]. intros ?.
  apply moves_seq_at; [apply moves_on_err_neutral; [settle|lia]|]. intros hash.
  apply moves_ret. cbn. lia.
Qed.
Lemma moves_analyze_with_budget problem :
  moves 0 (λ a, held (bca_reservation a)) (analyze_components_with_budget blake3_hex problem).
Proof. apply moves_on_budget, moves_analyze. Qed.
End analysis.
Lemma neutral_feature_usage_with_budget problem : neutral (feature_usage_with_budget problem).
Proof. apply moves_on_budget, neutral_feature_usage. Qed.
#[export] Hint Resolve neutral_feature_usage_with_budget : accounting.

(** ** Validation *)
Lemma neutral_strict_by {T K} `{Ord K} (key : T → K) values p : neutral (strict_by_with_context key values p).
Proof. unfold strict_by_with_context. settle. Qed.
Lemma neutral_strict {T} `{Ord T} (values : list T) p : neutral (strict_with_context values p).
Proof. apply neutral_strict_by. Qed.
Lemma neutral_require_ints ids ints p : neutral (require_ints ids ints p).
Proof. unfold require_ints. settle. Qed.
Lemma neutral_row_ordering cells : neutral (row_ordering cells).
Proof. induction cells as [|[]]; cbn [row_ordering]; settle. Qed.
#[export] Hint Resolve neutral_strict_by neutral_strict neutral_require_ints neutral_row_ordering : accounting.
Lemma neutral_expression_bounds e ints limits p : neutral (expression_bounds e ints limits p).
Proof. unfold expression_bounds, expression_bounds_term. settle. Qed.
Lemma neutral_validate_table vs rows ints limits p : neutral (validate_table vs rows ints limits p).
Proof. unfold validate_table, count_cells, strict_table_rows_with_context. settle. Qed.
#[export] Hint Resolve neutral_expression_bounds neutral_validate_table : accounting.
Lemma neutral_validate_constraint c bools ints intervals limits p :
  neutral (validate_constraint c bools ints intervals limits p).
Proof.
  unfold validate_constraint, validate_literals, validate_comparison, validate_integer_aggregate,
    validate_cumulative, validate_demand. settle.
Qed.
Lemma neutral_scan_durations r ds e rep : neutral (scan_durations r ds e rep).
Proof. revert rep. induction ds; intros rep; cbn [scan_durations]; settle. Qed.
#[export] Hint Resolve neutral_validate_constraint neutral_scan_durations : accounting.
Lemma neutral_scan_starts ss ds e rep : neutral (scan_starts ss ds e rep).
Proof. revert rep. induction ss; intros rep; cbn [scan_starts]; settle. Qed.
#[export] Hint Resolve neutral_scan_starts : accounting.
Lemma neutral_validate_variables problem limits : neutral (validate_variables problem limits).
Proof.
  unfold validate_variables, validate_interval_variables, enumerate_each, scan_variable, validate_domain,
    validate_interval_variable, validate_interval_equation. settle.
Qed.
Lemma neutral_validate_constraints problem refs limits n :
  neutral (validate_constraints problem refs limits n).
Proof. unfold validate_constraints, validate_constraint_record. settle. Qed.
Lemma neutral_validate_objectives problem ints ids limits n :
  neutral (validate_objectives problem ints ids limits n).
Proof. unfold validate_objectives, validate_level, validate_term. settle. Qed.
Lemma neutral_validate_assumptions problem bools ids n limits :
  neutral (validate_assumptions problem bools ids n limits).
Proof. unfold validate_assumptions, validate_assumption. settle. Qed.
Lemma neutral_validate_projections problem bools ints intervals ids n limits :
  neutral (validate_projections problem bools ints intervals ids n limits).
Proof. unfold validate_projections, validate_projection, validate_projection_expression. settle. Qed.
Lemma neutral_walk_chain fuel records completed limit path current :
  neutral (walk_chain fuel records completed limit path current).
Proof.
  revert path current. induction fuel as [|fuel IH]; intros path [id|]; cbn [walk_chain];
    unfold check_cycle; settle.
Qed.
Lemma neutral_use_ancestors fuel records used pending :
  neutral (use_ancestors fuel records used pending).
Proof.
  revert used pending. induction fuel as [|fuel IH]; intros used [|id pending]; cbn [use_ancestors]; settle.
Qed.
#[export] Hint Resolve neutral_walk_chain neutral_use_ancestors neutral_validate_variables
  neutral_validate_constraints neutral_validate_objectives neutral_validate_assumptions
  neutral_validate_projections : accounting.
Lemma neutral_validate_provenance problem limits : neutral (validate_provenance problem limits).
Proof.
  unfold validate_provenance. apply neutral_bind; [settle|]. intros n.
  eapply moves_bind; [apply moves_prep, moves_open_guard; settle|]. intros g.
  eapply moves_bind.
  { eapply moves_eq; [apply moves_guarded|lia|done].
    unfold validate_provenance_record, validate_record_fields, check_parameter, validate_provenance_chain,
      unwind_chain, unwind_step. settle. }
  intros ?. eapply moves_eq.
  - assert (neutral (validate_provenance_coverage problem)) as Hc; [|exact Hc].
    unfold validate_provenance_coverage, use_ids, use_level. settle.
  - cbn beta. lia.
  - intros; cbn beta. lia.
Qed.
#[export] Hint Resolve neutral_validate_provenance : accounting.
Lemma neutral_validate_core problem limits : neutral (validate_core problem limits).
Proof. unfold validate_core, validate_root, validate_root_order, validate_metadata. settle. Qed.
Lemma neutral_scratch_bytes problem : neutral (validation_scratch_bytes problem).
Proof. unfold validation_scratch_bytes, add_each. settle. Qed.

(** ** Reservations of functions that own the budget *)
Section owned.
Context {E : Type}.
Definition drop_on_err {A} (n : Z) (m : SE PlanningPreparationBudget E A) : SE PlanningPreparationBudget E A :=
  λ b, match m b with (Ok a, b') => (Ok a, b') | (Err e, b') => (Err e, retire n b') end.
Lemma moves_drop_on_err {A} n e (d : A → Z) (m : SE PlanningPreparationBudget E A) :
  moves (e + n) d m → moves e d (drop_on_err n m).
Proof.
  intros Hm s b [= ->]. destruct (Hm b b eq_refl) as (b1 & Hb1 & H1). unfold drop_on_err.
  destruct (m b) as [[a|err] s1]; cbn in *; [eauto|]. injection Hb1 as ->.
  exists (retire n b1). split; [done|]. replace e with (e + n - n) by lia. by apply shifted_retire.
Qed.
Lemma moves_retire n e :
  moves e (λ _, - n) ((λ b, (Ok tt, retire n b)) : SE PlanningPreparationBudget E unit).
Proof. intros s b [= ->]. exists (retire n b). split; [done|]. split; cbn; lia || done. Qed.
End owned.

Section entry_points.
Context (blake3_hex : list Z → string).

Lemma moves_validate_with_budget problem limits :
  moves 0 (λ r, held (bca_reservation r.2)) (validate_with_budget blake3_hex problem limits).
Proof.
  unfold validate_with_budget. apply moves_seq; [apply neutral_bprep; settle|]. intros ?.
  apply moves_seq; [apply neutral_lift|]. intros ?.
  apply moves_seq; [apply neutral_bprep, neutral_scratch_bytes|]. intros scratch.
  eapply moves_bind; [apply moves_bprep, moves_reserve_owned|]. intros r.
  apply moves_seq_at.
  { apply moves_drop_on_err, (moves_eq 0 _ (λ _, 0)); [|lia|done]. apply moves_on_budget, neutral_validate_core. }
  intros [refs total]. eapply moves_bind; [apply moves_retire|]. intros ?.
  apply (moves_eq 0 _ (λ r, held (bca_reservation r.2))); [|cbn beta; lia|intros; cbn beta; lia].
  apply moves_seq; [apply neutral_bprep; settle|]. intros manifest.
  eapply moves_bind; [apply moves_bprep, moves_analyze_with_budget|]. intros analysis.
  apply moves_seq_at; [|intros ?; apply moves_ret; cbn; lia].
  apply moves_drop_on_err, (moves_eq 0 _ (λ _, 0)); [|unfold held; lia|done].
  apply neutral_bind; [apply neutral_lift|]. intros ?. apply neutral_bprep. settle.
Qed.
End entry_points.

(** ** Canonical hashing, summaries, preparation *)
Lemma moves_cscoped {A} n (d : A → Z) (m : CM A) : moves 0 d m → moves 0 d (cscoped n m).
Proof.
  intros Hm. unfold cscoped. eapply moves_bind; [apply moves_cprep, moves_reserve_owned|]. intros r s b [= ->].
  destruct (Hm b b eq_refl) as (b1 & Hb1 & H1). unfold se_state. destruct (m b) as [res b2]; cbn in *.
  injection Hb1 as ->. exists (retire (bytes r) b1). split; [done|].
  apply (shifted_retire (bytes r)) in H1. by destruct res.
Qed.
Lemma neutral_cprep {A} (m : Prep A) : neutral m → neutral (cprep m).
Proof. apply moves_cprep. Qed.
Lemma neutral_precharge value n : neutral (precharge_serialized value n).
Proof. unfold precharge_serialized, counting_write. settle. Qed.
Lemma neutral_cvalid {A} (r : VR A) : neutral (cvalid r).
Proof. apply neutral_lift. Qed.
Lemma neutral_cmodel {A} (r : MR A) : neutral (cmodel r).
Proof. apply neutral_lift. Qed.
#[export] Hint Resolve neutral_cprep neutral_precharge neutral_cvalid neutral_cmodel : accounting.

Section canonical.
Context (blake3_hex : list Z → string).
Context (serialize_problem : PlanningProblem → Bytes) (serialize_view : CanonicalHashProblem → Bytes).

Lemma moves_admit_serialized {A} problem limits (d : A → Z) (body : Z → CM A) :
  (∀ n, moves 0 d (body n)) → moves 0 d (admit_serialized serialize_problem problem limits body).
Proof.
  intros Hb. unfold admit_serialized. apply moves_seq; [auto with accounting|]. intros n.
  apply moves_seq; [auto with accounting|]. intros scratch. by apply moves_cscoped.
Qed.
Lemma neutral_hash problem caps :
  neutral (hash_canonical_problem_with_budget blake3_hex serialize_view problem caps).
Proof.
  unfold hash_canonical_problem_with_budget, hash_write. settle.
Qed.
#[local] Hint Resolve neutral_hash : accounting.
Lemma moves_cvalid_with_budget problem limits :
  moves 0 (λ r, held (bca_reservation r.2)) (cvalid_with_budget blake3_hex problem limits).
Proof.
  intros s b Hs. destruct (moves_validate_with_budget blake3_hex problem limits s b Hs) as (b' & Hb & Hsh).
  exists b'. unfold cvalid_with_budget. by destruct (validate_with_budget _ _ _ _) as [[a|e] s1].
Qed.
Lemma moves_scoped_hash problem caps n :
  neutral (cscoped n (hash_canonical_problem_with_budget blake3_hex serialize_view problem caps)).
Proof. apply moves_cscoped, neutral_hash. Qed.

Lemma neutral_canonical_ir_hash_with_budget problem limits :
  neutral (canonical_ir_hash_with_budget blake3_hex serialize_problem serialize_view problem limits).
Proof.
  apply moves_admit_serialized. intros ?. eapply moves_bind; [apply moves_cvalid_with_budget|].
  intros [manifest analysis]. cbn [snd]. eapply moves_bind; [apply moves_retire|]. intros ?.
  apply (moves_eq 0 _ (λ _, 0)); [|unfold held; lia|intros; unfold held; cbn beta; lia].
  apply neutral_bind; [auto with accounting|]. intros ?. apply moves_scoped_hash.
Qed.

(** The reservations a budgeted summary owns. *)
Definition summary_held (s : BudgetedPlanningSummary) : Z :=
  held (bps_component_reservation s) + held (bps_summary_reservation s).
Lemma moves_summary_inner problem manifest analysis hash :
  moves (- held (bca_reservation analysis)) (λ s, summary_held s - held (bca_reservation analysis))
    (summary_from_canonical_inner problem manifest analysis hash).
Proof.
  unfold summary_from_canonical_inner. apply (moves_bind _ held).
  { apply moves_on_err, (moves_eq 0 _ held); [|lia|done]. apply moves_open_guard.
    unfold summary_output_bytes. settle. }
  intros g. do 2 apply moves_on_err.
  apply (moves_eq 0 _ (λ s, summary_held s - held (bca_reservation analysis) - held g)); [|lia|done].
  apply moves_seq; [settle|]. intros ?. apply moves_seq; [settle|]. intros counts.
  apply moves_seq; [unfold widen_constraint, widen_terms; settle|]. intros extremes.
  apply moves_seq; [unfold widen_level, widen_terms; settle|]. intros [n e]. apply moves_ret.
  unfold summary_held. cbn. lia.
Qed.
Lemma moves_summarize_with_budget problem limits :
  moves 0 summary_held (summarize_with_budget blake3_hex serialize_problem serialize_view problem limits).
Proof.
  apply moves_admit_serialized. intros ?. eapply moves_bind; [apply moves_cvalid_with_budget|].
  intros [manifest analysis]. cbn [snd]. apply moves_seq_at.
  { apply moves_drop_on_err, (moves_eq 0 _ (λ _, 0)); [|unfold held; lia|done].
    apply neutral_bind; [auto with accounting|]. intros ?. apply moves_scoped_hash. }
  intros hash s b Hs.
  destruct (moves_on_budget _ _ _ (moves_summary_inner problem manifest analysis hash) s b Hs)
    as (b' & Hb & Hsh).
  exists b'. unfold cprep, with_budget.
  destruct (summary_from_canonical_inner problem manifest analysis hash (Some s)) as [[a|e] [s1|]]; cbn in *;
    by rewrite ?Z.sub_0_l in *.
Qed.
End canonical.

(** ** Guards of a budgeted run are alive *)
Definition yields {S E A} `{!Account S} (P : A → Prop) (m : SE S E A) : Prop :=
  ∀ s b x s', account s = Some b → m s = (Ok x, s') → P x ∧ is_Some (account s').
Lemma yields_bind {S E A B} `{!Account S} (P : A → Prop) (Q : B → Prop) (m : SE S E A) k :
  yields P m → (∀ x, P x → yields Q (k x)) → yields Q (m ≫= k).
Proof.
  intros Hm Hk s b y s' Hs (x & s1 & H1 & H2)%se_bind_Ok. destruct (Hm s b x s1 Hs H1) as [HP [b1 Hb1]].
  by eapply Hk.
Qed.
Lemma yields_ret {S E A} `{!Account S} (P : A → Prop) x : P x → yields P (mret x : SE S E A).
Proof. intros HP s b y s' Hs [= <- <-]. split; [done|by eexists]. Qed.
Lemma yields_moves {S E A} `{!Account S} e d (m : SE S E A) : moves e d m → yields (λ _, True) m.
Proof.
  intros Hm s b x s' Hs Hr. split; [done|]. destruct (Hm s b Hs) as (b' & Hb' & _). rewrite Hr in Hb'.
  by eexists.
Qed.
Lemma yields_skip {S E A B} `{!Account S} e d (Q : B → Prop) (m : SE S E A) k :
  moves e d m → (∀ x, yields Q (k x)) → yields Q (m ≫= k).
Proof. intros Hm Hk. eapply yields_bind; [by eapply yields_moves|]. auto. Qed.
Lemma yields_on_err {E A} (P : A → Prop) g (m : SE Ctx E A) : yields P m → yields P (on_err g m).
Proof.
  intros Hm s b x s' Hs. unfold on_err. destruct (m s) as [[y|e] s1] eqn:Hr; intros [= <- <-]. by eapply Hm.
Qed.
Lemma yields_open_guard (m : Prep Z) : neutral m → yields is_Some (open_guard m).
Proof.
  intros Hm s b x s' Hs Hr. change (s = Some b) in Hs. subst s. unfold open_guard, budgeted in Hr.
  destruct (mbind _ m b) as [[n|e] b']; simplify_eq. split; by eexists.
Qed.

Lemma yields_grouped_region problem ordered :
  yields (λ r, is_Some r.1.2) (grouped_region problem ordered).
Proof.
  unfold grouped_region. eapply yields_skip; [apply moves_open_guard; unfold index_scratch; settle|]. intros index.
  apply (yields_bind (λ _, True)).
  { apply yields_on_err. eapply yields_skip; [apply moves_open_guard; unfold parent_scratch; settle|].
    intros pg. apply (yields_bind (λ _, True)); [|intros; by apply yields_ret].
    apply yields_on_err, (yields_moves 0 (λ _, 0)). apply neutral_all_edges. }
  intros [st pg] _. eapply yields_skip; [apply (moves_retire_guard 0)|]. intros ?.
  apply (yields_bind (λ r, is_Some r.1.2)).
  2:{ intros r Hr. eapply yields_skip; [apply (moves_retire_guard 0)|]. intros ?. by apply yields_ret. }
  apply yields_on_err. eapply yields_bind; [apply yields_open_guard; settle|]. intros output Ho.
  apply (yields_bind (λ _, True)).
  { apply yields_on_err. eapply yields_moves. apply moves_open_guard. settle. }
  intros grouping _. apply (yields_bind (λ _, True)); [|intros [? ?] _; by apply yields_ret].
  do 2 apply yields_on_err. apply (yields_moves 0 (λ _, 0)).
  assert (neutral (fold_m group_step (parent st.1, ∅) (enumerate ordered))) as H; [settle|exact H].
Qed.
Lemma yields_analyze blake3_hex problem :
  yields (λ a, is_Some (bca_reservation a)) (analyze_components_inner blake3_hex problem).
Proof.
  unfold analyze_components_inner. eapply yields_skip; [apply neutral_visit|]. intros ?.
  eapply yields_skip; [apply moves_declared_nodes|]. intros [declared ordered].
  fold (grouped_region problem ordered).
  eapply yields_bind; [apply yields_on_err, yields_grouped_region|].
  intros [[[groups edges] output] grouping] Ho. cbn in Ho.
  eapply yields_skip; [apply (moves_retire_guard 0)|]. intros ?.
  apply (yields_bind (λ _, True)).
  { do 2 apply yields_on_err. eapply yields_moves. apply neutral_sort_groups. }
  intros groups' _. eapply yields_skip; [apply (moves_retire_guard 0)|]. intros ?.
  apply (yields_bind (λ _, True)); [|intros; by apply yields_ret].
  apply yields_on_err, (yields_moves 0 (λ _, 0)).
  assert (neutral (_ ← visit; hash_components blake3_hex (make_components groups') edges)) as H; [settle|exact H].
Qed.

Lemma yields_on_budget {E A} (P : A → Prop) (m : SE Ctx E A) :
  yields P m → yields P (λ b, match m (Some b) with (r, Some b') => (r, b') | (r, None) => (r, b) end).
Proof.
  intros Hm s b x s' Hs. destruct (m (Some s)) as [r [b1|]] eqn:Hr; intros [= -> ->];
    (split; [|by eexists]); (eapply Hm; [|exact Hr]); done.
Qed.
Lemma yields_bprep {A} (P : A → Prop) (m : Prep A) : yields P m → yields P (bprep m).
Proof.
  intros Hm s b x s' Hs. unfold bprep. destruct (m s) as [[y|e] s1] eqn:Hr; intros [= <- <-]. by eapply Hm.
Qed.
Lemma yields_cprep {A} (P : A → Prop) (m : Prep A) : yields P m → yields P (cprep m).
Proof.
  intros Hm s b x s' Hs. unfold cprep. destruct (m s) as [[y|e] s1] eqn:Hr; intros [= <- <-]. by eapply Hm.
Qed.
Lemma yields_drop_on_err {E A} (P : A → Prop) n (m : SE PlanningPreparationBudget E A) :
  yields P m → yields P (drop_on_err n m).
Proof.
  intros Hm s b x s' Hs. unfold drop_on_err. destruct (m s) as [[y|e] s1] eqn:Hr; intros [= <- <-].
  by eapply Hm.
Qed.
Lemma yields_cscoped {A} (P : A → Prop) n (m : CM A) : yields P m → yields P (cscoped n m).
Proof.
  intros Hm. unfold cscoped. eapply yields_skip; [apply moves_cprep, moves_reserve_owned|].
  intros r s b x s' Hs. unfold se_state. destruct (m s) as [res b2] eqn:Hr. intros [= -> <-].
  destruct (Hm s b x b2 Hs Hr). split; [done|by eexists].
Qed.
(** Any run on a budget keeps one. *)
Lemma yields_any {E A} (m : SE PlanningPreparationBudget E A) : yields (λ _, True) m.
Proof. intros s b x s' _ _. split; [done|by eexists]. Qed.
Lemma yields_step {E A B} (Q : B → Prop) (m : SE PlanningPreparationBudget E A) k :
  (∀ x, yields Q (k x)) → yields Q (m ≫= k).
Proof. intros Hk. eapply yields_bind; [apply yields_any|]. auto. Qed.

Section prepared.
Context (blake3_hex : list Z → string).
Context (serialize_problem : PlanningProblem → Bytes) (serialize_view : CanonicalHashProblem → Bytes).

Lemma yields_validate_with_budget problem limits :
  yields (λ r, is_Some (bca_reservation r.2)) (validate_with_budget blake3_hex problem limits).
Proof.
  unfold validate_with_budget. do 4 (apply yields_step; intros ?). apply yields_step. intros [refs total].
  do 2 (apply yields_step; intros ?).
  eapply yields_bind; [apply yields_bprep, yields_on_budget, yields_analyze|]. intros analysis Ha.
  apply yields_step. intros ?. by apply yields_ret.
Qed.
Lemma yields_cvalid_with_budget problem limits :
  yields (λ r, is_Some (bca_reservation r.2)) (cvalid_with_budget blake3_hex problem limits).
Proof.
  intros s b x s' Hs. unfold cvalid_with_budget.
  destruct (validate_with_budget _ _ _ _) as [[y|e] s1] eqn:Hr; intros [= <- <-].
  by eapply yields_validate_with_budget.
Qed.
Lemma yields_summary_inner problem manifest analysis hash :
  is_Some (bca_reservation analysis) →
  yields (λ s, is_Some (bps_component_reservation s) ∧ is_Some (bps_summary_reservation s))
    (summary_from_canonical_inner problem manifest analysis hash).
Proof.
  intros Ha. unfold summary_from_canonical_inner.
  eapply yields_bind; [apply yields_on_err, yields_open_guard; unfold summary_output_bytes; settle|].
  intros g Hg. do 2 apply yields_on_err. eapply yields_skip; [apply neutral_visit|]. intros ?.
  apply (yields_bind (λ _, True)).
  { eapply yields_moves. apply neutral_fold_m. settle. }
  intros counts _. apply (yields_bind (λ _, True)).
  { eapply yields_moves. apply neutral_fold_m. unfold widen_constraint, widen_terms. settle. }
  intros extremes _. apply (yields_bind (λ _, True)).
  { eapply yields_moves. apply neutral_fold_m. unfold widen_level, widen_terms. settle. }
  intros [n e] _. by apply yields_ret.
Qed.
Lemma yields_summarize_with_budget problem limits :
  yields (λ s, is_Some (bps_component_reservation s) ∧ is_Some (bps_summary_reservation s))
    (summarize_with_budget blake3_hex serialize_problem serialize_view problem limits).
Proof.
  unfold summarize_with_budget, admit_serialized. do 2 (apply yields_step; intros ?). apply yields_cscoped.
  eapply yields_bind; [apply yields_cvalid_with_budget|]. intros [manifest analysis] Ha. cbn in Ha.
  apply yields_step. intros hash. by apply yields_cprep, yields_on_budget, yields_summary_inner.
Qed.

(** The bytes a prepared model owns, and that they are debited to the given budget. *)
Definition prepared_held (model : PreparedPlanningModel) : Z :=
  bytes (pp_retained model) + default 0 (bytes <$> pp_component_reservation model) +
  default 0 (bytes <$> pp_summary_reservation model).
Definition owned_by (b : PlanningPreparationBudget) (model : PreparedPlanningModel) : Prop :=
  belongs_to (pp_retained model) b = true ∧
  (∃ r, pp_component_reservation model = Some r ∧ belongs_to r b = true) ∧
  (∃ r, pp_summary_reservation model = Some r ∧ belongs_to r b = true).

Lemma moves_prepare problem limits :
  moves 0 prepared_held (prepare blake3_hex serialize_problem serialize_view problem limits).
Proof.
  unfold prepare. apply moves_seq; [apply neutral_cprep; settle|]. intros ?.
  apply moves_seq; [apply neutral_cprep; settle|]. intros retained.
  eapply moves_bind; [apply moves_cprep, moves_reserve_owned|]. intros r.
  apply (moves_bind _ summary_held).
  { apply moves_drop_on_err, (moves_eq 0 _ summary_held); [apply moves_summarize_with_budget|lia|done]. }
  intros s st b [= ->]. exists b. cbn. split; [done|].
  replace (_ - _ - _) with 0; [apply shifted_refl|].
  unfold prepared_held, summary_held, held, owned. cbn.
  destruct (bps_component_reservation s), (bps_summary_reservation s); cbn; lia.
Qed.
Lemma reserve_owned_counter n b r b' :
  reserve_transient_owned n b = (Ok r, b') → counter r = counter_id b.
Proof. destruct (reserve_owned_cases n b) as [(-> & _)|[e ->]]; by intros [= <- <-]. Qed.
Lemma prepare_owned problem limits b model b' :
  prepare blake3_hex serialize_problem serialize_view problem limits b = (Ok model, b') →
  owned_by b' model.
Proof.
  intros H. pose proof H as Hfull. unfold prepare in H.
  apply se_bind_Ok in H as (units & b1 & _ & (retained & b2 & _ & (r & b3 & Hr & H)%se_bind_Ok)%se_bind_Ok).
  apply se_bind_Ok in H as (s & b4 & Hs & [= <- <-]).
  assert (counter r = counter_id b4) as Hc.
  { unfold cprep in Hr. destruct (reserve_transient_owned _ b2) as [[r'|e] b3'] eqn:Hres; simplify_eq/=.
    rewrite (reserve_owned_counter _ _ _ _ Hres).
    destruct (moves_reserve_owned retained b2 b2 eq_refl) as (? & [= <-] & [_ _ Hc1]).
    rewrite Hres in Hc1. cbn in Hc1.
    destruct (moves_drop_on_err (bytes r) _ _ _ (moves_eq 0 (- bytes r + bytes r) _ summary_held _
      (moves_summarize_with_budget blake3_hex serialize_problem serialize_view problem limits)
      ltac:(lia) ltac:(done)) b3 b3 eq_refl) as (? & Hb4 & [_ _ Hc2]).
    change (cor_drop (bytes r) ?m) with (drop_on_err (bytes r) m) in Hs. rewrite Hs in Hb4. cbn in Hb4.
    injection Hb4 as <-. congruence. }
  assert (is_Some (bps_component_reservation s) ∧ is_Some (bps_summary_reservation s)) as [[x Hx] [y Hy]].
  { change (cor_drop (bytes r) ?m) with (drop_on_err (bytes r) m) in Hs.
    by eapply (yields_drop_on_err _ _ _ (yields_summarize_with_budget problem limits)). }
  split; cbn; [unfold belongs_to; rewrite Hc; apply Nat.eqb_refl|]. rewrite Hx, Hy.
  split; eexists; (split; [done|]); apply Nat.eqb_refl.
Qed.
Lemma retire_counter n b : counter_id (retire n b) = counter_id b.
Proof. done. Qed.
Lemma release_owned model b :
  owned_by b model → release 1 model b = (Ok tt, release_all model b) ∧
  shifted (- prepared_held model) b (release_all model b).
Proof.
  intros (H1 & (c & Hc & H2) & (s & Hs & H3)). unfold release, release_all, prepared_held.
  rewrite Hc, Hs. unfold belongs_to in *. rewrite H1, H2, H3. rewrite !retire_counter, H2. cbn. rewrite H3. cbn.
  split; [done|]. split; cbn; lia || done.
Qed.
End prepared.

Lemma moves_run {S E A} `{!Account S} e d (m : SE S E A) s b :
  moves e d m → account s = Some b →
  ∃ b', account (m s).2 = Some b' ∧ shifted (match (m s).1 with Ok x => d x | Err _ => e end) b b'.
Proof. auto. Qed.

(** C40. Under any budget, in any environment of cancellations and deadlines: a validation,
    component analysis or canonical hash that fails leaves the live bytes as they were; a hash that
    succeeds keeps nothing; and a successful validation or analysis keeps exactly the reservation of
    the component analysis it returns. *)
Theorem budgeted_operations_balanced blake3_hex serialize_problem serialize_view problem limits b :
  (let '(r, b') := validate_with_budget blake3_hex problem limits b in
   shifted (match r with Ok (_, a) => held (bca_reservation a) | Err _ => 0 end) b b') ∧
  (let '(r, b') := analyze_components_with_budget blake3_hex problem b in
   shifted (match r with Ok a => held (bca_reservation a) | Err _ => 0 end) b b') ∧
  (let '(_, b') := canonical_ir_hash_with_budget blake3_hex serialize_problem serialize_view problem limits b in
   shifted 0 b b').
Proof.
  split_and!.
  - destruct (moves_run _ _ _ b b (moves_validate_with_budget blake3_hex problem limits) eq_refl) as (? & Hb & Hs).
    destruct (validate_with_budget _ _ _ _) as [[[? a]|e] b']; by injection Hb as <-.
  - destruct (moves_run _ _ _ b b (moves_analyze_with_budget blake3_hex problem) eq_refl) as (? & Hb & Hs).
    destruct (analyze_components_with_budget _ _ _) as [[a|e] b']; by injection Hb as <-.
  - destruct (moves_run _ _ _ b b (neutral_canonical_ir_hash_with_budget blake3_hex serialize_problem
      serialize_view problem limits) eq_refl) as (? & Hb & Hs).
    destruct (canonical_ir_hash_with_budget _ _ _ _ _) as [[a|e] b']; by injection Hb as <-.
Qed.

(** Preparing a model that fails leaves the live bytes as they were; a prepared model owns
    exactly the bytes its preparation added, and its sole owner can always release it against the
    same counter, which gives exactly those bytes back. *)
Theorem prepare_release_balanced blake3_hex serialize_problem serialize_view problem limits b :
  match prepare blake3_hex serialize_problem serialize_view problem limits b with
  | (Err _, b') => shifted 0 b b'
  | (Ok model, b') =>
      shifted (prepared_held model) b b' ∧
      ∀ later, counter_id later = counter_id b →
        release 1 model later = (Ok tt, release_all model later) ∧
        shifted (- prepared_held model) later (release_all model later)
  end.
Proof.
  destruct (moves_run _ _ _ b b (moves_prepare blake3_hex serialize_problem serialize_view problem limits) eq_refl)
    as (b2 & Hb & Hs).
  destruct (prepare _ _ _ _ _ _) as [[model|e] b'] eqn:Hp; injection Hb as <-; [|done]. split; [done|].
  intros later Hc. apply prepare_owned in Hp as (H1 & (c & Hcomp & H2) & (s & Hsum & H3)).
  destruct Hs as [_ _ Hc2]. apply release_owned. unfold owned_by, belongs_to in *. rewrite Hc, <-Hc2. eauto 8.
Qed.
