(* ===== verification/Conflict.v ===== *)
(** * Conflict evidence: contracts and the bounded deletion pass

    Models the conflict part of [crates/eutheto-domain-ir/src/explanation.rs] — groups, shrink
    summaries and infeasibility evidence with their validation — and
    [crates/eutheto-explain/src/shrink.rs], the state machine that shrinks a sufficient conflict by
    deletion trials.  A [Vec] operation that would panic makes the run [None]; every inspection of the
    shared budget takes the world it observes. *)
From stdpp Require Import base tactics list gmap strings relations.
From Stdlib Require Import ZArith Lia Sorted.
From S2P Require Import Prelude Ordering Control Budget Ids DomainIr Model Analysis Validation.
Open Scope Z_scope.

(** ** The conflict contract *)
Definition MAX_EXPLANATION_RECORDS : Z := 100000.
Notation DR := (Result DomainContractError).
Definition explanation_error {A} (invariant : string) : DR A := Err (InvalidExplanationContract invariant).
Definition validate_bounded_strict {A} `{Ord A} (values : list A) (maximum : Z) (label : string) : DR unit :=
  if maximum <? len values then Err (LimitExceeded label)
  else if negb (strictly_sorted values) then Err (NonCanonicalExplanationCollection label)
  else Ok tt.

Record ConflictGroupV1 := { group_id : string; required_rules : list string }.
#[global] Instance ConflictGroupV1_eq_dec : EqDecision ConflictGroupV1.
Proof. solve_decision. Defined.
#[global] Instance ConflictGroupV1_ord : Ord ConflictGroupV1 := ord_on (λ g, (group_id g, required_rules g)).
#[global] Instance ConflictGroupV1_ord_laws : OrdLaws ConflictGroupV1.
Proof. apply ord_on_laws. intros [] [] [=]; by simplify_eq. Qed.
Definition ConflictGroupV1_validate (self : ConflictGroupV1) : DR unit :=
  if bool_decide (required_rules self = []) then explanation_error "empty conflict group"
  else validate_bounded_strict (required_rules self) MAX_VERIFICATION_RULES "conflict required rules".

Inductive ConflictMinimality := Sufficient | ProvenMinimal.
#[global] Instance ConflictMinimality_eq_dec : EqDecision ConflictMinimality.
Proof. solve_decision. Defined.
Inductive ConflictShrinkStopReason :=
| StopCompleted | StopNotAttempted | StopTrialLimit | StopBudgetExpired | StopCancelled | StopInconclusive.
#[global] Instance ConflictShrinkStopReason_eq_dec : EqDecision ConflictShrinkStopReason.
Proof. solve_decision. Defined.
Record ConflictShrinkSummaryV1 := {
  cs_initial_group_count : Z;
  cs_remaining_group_count : Z;
  cs_attempted_trials : Z;
  cs_max_trials : Z;
  cs_stop_reason : ConflictShrinkStopReason
}.
Definition ConflictShrinkSummaryV1_validate (self : ConflictShrinkSummaryV1) : DR unit :=
  let counts_valid :=
    (0 <? cs_initial_group_count self) && (0 <? cs_remaining_group_count self)
    && (cs_remaining_group_count self <=? cs_initial_group_count self) in
  let stop_valid :=
    match cs_stop_reason self with
    | StopCompleted =>
        (cs_attempted_trials self =? cs_initial_group_count self)
        && (cs_attempted_trials self <=? cs_max_trials self)
    | StopNotAttempted =>
        (cs_max_trials self =? 0) && (cs_attempted_trials self =? 0)
        && (cs_remaining_group_count self =? cs_initial_group_count self)
    | StopTrialLimit =>
        (0 <? cs_max_trials self) && (cs_attempted_trials self =? cs_max_trials self)
        && (cs_attempted_trials self <? cs_initial_group_count self)
    | StopBudgetExpired | StopCancelled | StopInconclusive =>
        cs_attempted_trials self <=? cs_max_trials self
    end in
  if negb counts_valid || negb stop_valid then explanation_error "conflict shrink summary" else Ok tt.

Inductive ConflictUnavailableReason :=
| AssumptionsUnavailable | FoundationalInfeasibility | ConflictNotReturned | InvalidAssumptionCore
| NotRequested | NotRecorded | UnsupportedDomainPack | UnavailableBudgetExpired | UnavailableCancelled
| ResourceLimitExceeded | DiagnosticFailed.
Inductive InfeasibilityEvidenceV1 :=
| Conflict (groups : list ConflictGroupV1) (minimality : ConflictMinimality)
    (shrink : ConflictShrinkSummaryV1)
| Unavailable (reason : ConflictUnavailableReason).
Definition InfeasibilityEvidenceV1_validate (self : InfeasibilityEvidenceV1) : DR unit :=
  match self with
  | Conflict groups minimality shrink =>
      if bool_decide (groups = []) then explanation_error "empty infeasibility conflict"
      else
        _ ← validate_bounded_strict groups MAX_EXPLANATION_RECORDS "conflict groups";
        _ ← for_each ConflictGroupV1_validate groups;
        _ ← ConflictShrinkSummaryV1_validate shrink;
        if negb (Bool.eqb (bool_decide (minimality = ProvenMinimal))
                          (bool_decide (cs_stop_reason shrink = StopCompleted)))
        then explanation_error "conflict minimality"
        else if negb (cs_remaining_group_count shrink =? len groups)
        then explanation_error "conflict remaining group count"
        else Ok tt
  | Unavailable _ => Ok tt
  end.

(** ** The shrinker *)
Inductive ConflictTrialOutcome := TrialInfeasible | TrialFeasible | TrialInconclusive.
Inductive ConflictShrinkTransition :=
| TransitionPendingTrial | DoubleCompletion | MissingTrial | PrematureResult.
Inductive ConflictShrinkError :=
| InvalidGroups
| InvalidGroup (error : DomainContractError)
| CountOverflow
| InvalidTransition (transition : ConflictShrinkTransition).

Record PendingTrial := { pt_index : nat; pt_removed : ConflictGroupV1 }.
Record ConflictShrinker := {
  remaining : list ConflictGroupV1;
  pending : option PendingTrial;
  initial_group_count : Z;
  attempted_trials : Z;
  max_trials : Z;
  index : nat;
  budget : SolveBudgetView;
  stop_reason : option ConflictShrinkStopReason;
  foundational : bool
}.

(** Record updates of [&mut self]. *)
Definition with_remaining (l : list ConflictGroupV1) (s : ConflictShrinker) : ConflictShrinker :=
  {| remaining := l; pending := pending s; initial_group_count := initial_group_count s;
     attempted_trials := attempted_trials s; max_trials := max_trials s; index := index s;
     budget := budget s; stop_reason := stop_reason s; foundational := foundational s |}.
Definition with_pending (p : option PendingTrial) (s : ConflictShrinker) : ConflictShrinker :=
  {| remaining := remaining s; pending := p; initial_group_count := initial_group_count s;
     attempted_trials := attempted_trials s; max_trials := max_trials s; index := index s;
     budget := budget s; stop_reason := stop_reason s; foundational := foundational s |}.
Definition with_attempted (n : Z) (s : ConflictShrinker) : ConflictShrinker :=
  {| remaining := remaining s; pending := pending s; initial_group_count := initial_group_count s;
     attempted_trials := n; max_trials := max_trials s; index := index s;
     budget := budget s; stop_reason := stop_reason s; foundational := foundational s |}.
Definition with_index (i : nat) (s : ConflictShrinker) : ConflictShrinker :=
  {| remaining := remaining s; pending := pending s; initial_group_count := initial_group_count s;
     attempted_trials := attempted_trials s; max_trials := max_trials s; index := i;
     budget := budget s; stop_reason := stop_reason s; foundational := foundational s |}.
Definition with_stop (r : ConflictShrinkStopReason) (s : ConflictShrinker) : ConflictShrinker :=
  {| remaining := remaining s; pending := pending s; initial_group_count := initial_group_count s;
     attempted_trials := attempted_trials s; max_trials := max_trials s; index := index s;
     budget := budget s; stop_reason := Some r; foundational := foundational s |}.
Definition with_foundational (s : ConflictShrinker) : ConflictShrinker :=
  {| remaining := remaining s; pending := pending s; initial_group_count := initial_group_count s;
     attempted_trials := attempted_trials s; max_trials := max_trials s; index := index s;
     budget := budget s; stop_reason := stop_reason s; foundational := true |}.

(** [Vec::remove] and [Vec::insert]; [None] is the panic on an index out of range. *)
Definition vec_remove {A} (i : nat) (l : list A) : option (A * list A) :=
  x ← l !! i; Some (x, take i l ++ drop (S i) l).
Definition vec_insert {A} (i : nat) (x : A) (l : list A) : option (list A) :=
  if decide (i ≤ length l)%nat then Some (take i l ++ x :: drop i l) else None.
Definition u32_max : Z := 2 ^ 32 - 1.
Definition u32_try_from (n : Z) : option Z := if n <=? u32_max then Some n else None.

Definition validate_groups (groups : list ConflictGroupV1) : Result ConflictShrinkError unit :=
  if bool_decide (groups = []) || (MAX_EXPLANATION_RECORDS <? len groups)
     || negb (strictly_sorted groups)
  then Err InvalidGroups
  else for_each (λ group, map_err InvalidGroup (ConflictGroupV1_validate group)) groups.
Definition ConflictShrinker_new (groups : list ConflictGroupV1) (max_trials : Z)
    (budget : SolveBudgetView) : Result ConflictShrinkError ConflictShrinker :=
  _ ← validate_groups groups;
  initial_group_count ← ok_or CountOverflow (u32_try_from (len groups));
  Ok {| remaining := groups; pending := None; initial_group_count := initial_group_count;
        attempted_trials := 0; max_trials := max_trials; index := 0; budget := budget;
        stop_reason := if max_trials =? 0 then Some StopNotAttempted else None;
        foundational := false |}.

Definition retained_groups (s : ConflictShrinker) : list ConflictGroupV1 := remaining s.

Definition next_trial (w : World) (s : ConflictShrinker) :
    option (Result ConflictShrinkError (option (list ConflictGroupV1)) * ConflictShrinker) :=
  if bool_decide (is_Some (pending s))
  then Some (Err (InvalidTransition TransitionPendingTrial), s)
  else if bool_decide (is_Some (stop_reason s)) || foundational s then Some (Ok None, s)
  else if max_trials s =? 0 then Some (Ok None, with_stop StopNotAttempted s)
  else if initial_group_count s <=? attempted_trials s then Some (Ok None, with_stop StopCompleted s)
  else if max_trials s <=? attempted_trials s then Some (Ok None, with_stop StopTrialLimit s)
  else
    let snapshot := view_snapshot w (budget s) in
    if cancelled snapshot then Some (Ok None, with_stop StopCancelled s)
    else if expired snapshot then Some (Ok None, with_stop StopBudgetExpired s)
    else
      '(removed, rest) ← vec_remove (index s) (remaining s);
      Some (Ok (Some rest),
            with_pending (Some {| pt_index := index s; pt_removed := removed |})
              (with_attempted (attempted_trials s + 1) (with_remaining rest s))).

Definition finish_after_trial (s : ConflictShrinker) : ConflictShrinker :=
  if initial_group_count s <=? attempted_trials s then with_stop StopCompleted s
  else if max_trials s <=? attempted_trials s then with_stop StopTrialLimit s
  else s.
Definition restore (p : PendingTrial) (s : ConflictShrinker) : option ConflictShrinker :=
  l ← vec_insert (pt_index p) (pt_removed p) (remaining s); Some (with_remaining l s).
Definition complete_trial (w : World) (outcome : ConflictTrialOutcome) (s : ConflictShrinker) :
    option (Result ConflictShrinkError unit * ConflictShrinker) :=
  match pending s with
  | None =>
      let transition := if attempted_trials s =? 0 then MissingTrial else DoubleCompletion in
      Some (Err (InvalidTransition transition), s)
  | Some p =>
      let s := with_pending None s in
      let snapshot := view_snapshot w (budget s) in
      if cancelled snapshot then s ← restore p s; Some (Ok tt, with_stop StopCancelled s)
      else if expired snapshot then s ← restore p s; Some (Ok tt, with_stop StopBudgetExpired s)
      else match outcome with
           | TrialInfeasible =>
               if bool_decide (remaining s = []) then Some (Ok tt, with_foundational s)
               else Some (Ok tt, finish_after_trial s)
           | TrialFeasible =>
               s ← restore p s;
               Some (Ok tt, finish_after_trial (with_index (S (index s)) s))
           | TrialInconclusive => s ← restore p s; Some (Ok tt, with_stop StopInconclusive s)
           end
  end.

Definition conflict_result (groups : list ConflictGroupV1) (initial_group_count attempted_trials
    max_trials : Z) (stop_reason : ConflictShrinkStopReason) :
    Result ConflictShrinkError InfeasibilityEvidenceV1 :=
  remaining_group_count ← ok_or CountOverflow (u32_try_from (len groups));
  let shrink := {| cs_initial_group_count := initial_group_count;
                   cs_remaining_group_count := remaining_group_count;
                   cs_attempted_trials := attempted_trials; cs_max_trials := max_trials;
                   cs_stop_reason := stop_reason |} in
  _ ← map_err InvalidGroup (ConflictShrinkSummaryV1_validate shrink);
  Ok (Conflict groups (if decide (stop_reason = StopCompleted) then ProvenMinimal else Sufficient) shrink).
Definition into_result (s : ConflictShrinker) : Result ConflictShrinkError InfeasibilityEvidenceV1 :=
  if bool_decide (is_Some (pending s)) then Err (InvalidTransition PrematureResult)
  else if foundational s then Ok (Unavailable FoundationalInfeasibility)
  else match stop_reason s with
       | None => Err (InvalidTransition PrematureResult)
       | Some stop_reason =>
           conflict_result (remaining s) (initial_group_count s) (attempted_trials s) (max_trials s)
             stop_reason
       end.

(** * Mapping of assumption cores

    Models [crates/eutheto-explain/src/assumption.rs]: the whole planning problem and the whole set of
    returned literals are validated before any group is exposed, and the budgeted entry point holds a
    raw reservation for the groups it returns.  [size_of::<RuleId>()] is the size of a UUID. *)
#[global] Instance Literal_countable : Countable Literal :=
  inj_countable' (λ l, (lit_variable l, lit_positive l))
    (λ p, {| lit_variable := p.1; lit_positive := p.2 |}) ltac:(by intros []).

Inductive AssumptionMappingError :=
| MapInvalidProblem (error : ValidationError)
| MapPreparation (error : PlanningPreparationError)
| MapEmpty
| MapLimitExceeded
| MapDuplicateLiteral (literal : Literal)
| MapUnknownLiteral (literal : Literal)
| MapWrongPolarity (literal : Literal).

Record MappedAssumptionGroups := { mg_groups : list ConflictGroupV1; mg_transient_bytes : Z }.
Definition MappedAssumptionGroups_groups (self : MappedAssumptionGroups) : list ConflictGroupV1 :=
  mg_groups self.
Definition MappedAssumptionGroups_into_parts (self : MappedAssumptionGroups) :
    list ConflictGroupV1 * Z := (mg_groups self, mg_transient_bytes self).
Definition MappedAssumptionGroups_release (self : MappedAssumptionGroups) :
    SE PlanningPreparationBudget AssumptionMappingError unit := λ b,
  let '(r, b') := release_transient (mg_transient_bytes self) b in (map_err MapPreparation r, b').

(** A computation with an optional budget. *)
Notation MM := (SE Ctx AssumptionMappingError).
Definition map_charge (amount : Z) : MM unit := λ ctx,
  let '(r, ctx') := charge amount ctx in (map_err MapPreparation r, ctx').
Definition of_budgeted_validation (e : BudgetedValidationError) : AssumptionMappingError :=
  match e with Invalid e => MapInvalidProblem e | Preparation e => MapPreparation e end.

(** The group an assumption stands for. *)
Definition assumption_group (assumption : Assumption) : ConflictGroupV1 :=
  {| group_id := as_id assumption; required_rules := as_required_rules assumption |}.
(** Collecting pairs into a [BTreeMap]: a later pair replaces an earlier one. *)
Definition assumptions_by_literal (problem : PlanningProblem) : gmap Literal Assumption :=
  foldl (λ m a, <[as_literal a := a]> m) ∅ (assumptions problem).
Definition assumption_variables (problem : PlanningProblem) : gset string :=
  list_to_set ((λ a, lit_variable (as_literal a)) <$> assumptions problem).

Definition map_literal (by_literal : gmap Literal Assumption) (variables : gset string)
    (st : gset Literal * list ConflictGroupV1) (literal : Literal) :
    MM (gset Literal * list ConflictGroupV1) :=
  let '(seen, mapped) := st in
  _ ← map_charge 1;
  if decide (literal ∈ seen) then se_fail (MapDuplicateLiteral literal)
  else match by_literal !! literal with
       | None =>
           if decide (lit_variable literal ∈ variables) then se_fail (MapWrongPolarity literal)
           else se_fail (MapUnknownLiteral literal)
       | Some assumption => mret ({[ literal ]} ∪ seen, mapped ++ [assumption_group assumption])
       end.

Section mapping.
Context (blake3_hex : list Z → string) (serialize_problem : PlanningProblem → Encoding).

(** The validation the budget, or its absence, selects; the manifest and the analysis, with its
    reservation, are dropped. *)
Definition map_validate (problem : PlanningProblem) (limits : PlanningIrLimitsV1) : MM unit := λ ctx,
  match ctx with
  | Some b =>
      match validate_with_budget blake3_hex problem limits b with
      | (Ok (_, analysis), b') => (Ok tt, Some (retire (default 0 (bca_reservation analysis)) b'))
      | (Err e, b') => (Err (of_budgeted_validation e), Some b')
      end
  | None => (map_err MapInvalidProblem (validate blake3_hex problem limits), None)
  end.
Definition map_assumption_literals_impl (problem : PlanningProblem) (literals : list Literal)
    (limits : PlanningIrLimitsV1) : MM (list ConflictGroupV1) :=
  _ ← map_validate problem limits;
  if bool_decide (literals = []) then se_fail MapEmpty
  else if max_assumptions limits <? len literals then se_fail MapLimitExceeded
  else
    '(_, mapped) ← fold_m (map_literal (assumptions_by_literal problem) (assumption_variables problem))
                     (∅, []) literals;
    _ ← map_charge (len mapped);
    mret (ord_sort mapped).
Definition map_assumption_literals (problem : PlanningProblem) (literals : list Literal)
    (limits : PlanningIrLimitsV1) : Result AssumptionMappingError (list ConflictGroupV1) :=
  (map_assumption_literals_impl problem literals limits None).1.

Notation BM := (SE PlanningPreparationBudget AssumptionMappingError).
Definition mprep {A} (m : Prep A) : BM A := λ b, let '(r, b') := m b in (map_err MapPreparation r, b').
Definition or_overflow {A} (o : option A) : BM A := mprep (se_lift (ok_or PrepArithmeticOverflow o)).
(** [try_fold(0_u64, u64::checked_add)] *)
Definition u64_checked_sum (values : list Z) : option Z :=
  foldl (λ acc v, acc ≫= λ acc, u64_checked_add acc v) (Some 0) values.
(** Runs the mapping on the budget: the groups keep the reservation, a failure gives it back. *)
Definition map_owning (transient : Z) (problem : PlanningProblem) (literals : list Literal)
    (limits : PlanningIrLimitsV1) : BM MappedAssumptionGroups := λ b,
  match map_assumption_literals_impl problem literals limits (Some b) with
  | (Ok groups, Some b') => (Ok {| mg_groups := groups; mg_transient_bytes := transient |}, b')
  | (Err e, Some b') => (Err e, (release_transient transient b').2)
  | (Ok groups, None) => (Ok {| mg_groups := groups; mg_transient_bytes := transient |}, b)
  | (Err e, None) => (Err e, b)
  end.
Definition rule_id_size : Z := 16.
Definition map_assumption_literals_with_budget (problem : PlanningProblem) (literals : list Literal)
    (limits : PlanningIrLimitsV1) : BM MappedAssumptionGroups :=
  _ ← mprep (precharge_serialized (serialize_problem problem) (max_ir_bytes limits));
  units ← or_overflow (u64_checked_sum
    [len (variables problem); len (constraints problem); len (assumptions problem);
     len (projections problem); len (provenance problem); len literals]);
  nested_rules ← or_overflow
    (u64_checked_sum ((λ a, len (as_required_rules a)) <$> assumptions problem));
  transient ← or_overflow (
    bytes ← u64_checked_mul units 256;
    nested ← u64_checked_mul nested_rules (rule_id_size + 256);
    u64_checked_add bytes nested);
  work ← or_overflow (u64_checked_mul units 4);
  _ ← mprep (reserve_work work);
  _ ← mprep (reserve_transient transient);
  map_owning transient problem literals limits.
End mapping.
