(* ===== verification/ConflictFacts.v ===== *)
(** * The deletion pass keeps a conflict, and ends

    Facts about the shrinker of [crates/eutheto-explain/src/shrink.rs]: the invariant of its states
    under every order of calls and every environment, the meaning of the evidence it returns when the
    caller reports truthful outcomes, and the driving loop the caller runs. *)
From stdpp Require Import base tactics list gmap strings relations.
From Stdlib Require Import ZArith Lia Sorted.
From S2P Require Import Prelude Ordering Control DomainIr Conflict.
Open Scope Z_scope.

(** ** Sublists and positions *)
Lemma StronglySorted_sublist {A} (R : relation A) (l k : list A) :
  l `sublist_of` k → StronglySorted R k → StronglySorted R l.
Proof.
  induction 1 as [|x l k Hsub IH|x l k Hsub IH]; [done| |]; inversion 1 as [|?? Hs Hall]; subst; auto.
  constructor; [auto|]. rewrite Forall_forall in Hall |- *.
  intros y Hy. apply Hall. by eapply sublist_subseteq.
Qed.
Lemma sublist_same_length {A} (l k : list A) : l `sublist_of` k → (length k ≤ length l)%nat → l = k.
Proof.
  induction 1 as [|x l k Hsub IH|x l k Hsub IH]; cbn; intros Hlen; [done|f_equal; apply IH; lia|].
  apply sublist_length in Hsub. lia.
Qed.
Lemma strictly_sorted_sublist {A} `{OrdLaws A} (l k : list A) :
  l `sublist_of` k → strictly_sorted k = true → strictly_sorted l = true.
Proof. unfold strictly_sorted. rewrite !strictly_sorted_by_spec. apply StronglySorted_sublist. Qed.

Lemma vec_remove_Some {A} (i : nat) (l k : list A) x :
  vec_remove i l = Some (x, k) → (i < length l)%nat ∧ k = delete i l ∧ take i k ++ x :: drop i k = l.
Proof.
  unfold vec_remove. intros (y & Hy & [= -> <-])%bind_Some.
  pose proof (lookup_lt_Some _ _ _ Hy) as Hlt. split; [done|]. split; [by rewrite delete_take_drop|].
  rewrite take_app_le, drop_app_ge by (rewrite length_take; lia).
  rewrite length_take, Nat.min_l, Nat.sub_diag, drop_0, take_take, Nat.min_id by lia.
  by apply take_drop_middle.
Qed.
Lemma vec_remove_lt {A} (i : nat) (l : list A) : (i < length l)%nat → ∃ x k, vec_remove i l = Some (x, k).
Proof. intros [x Hx]%lookup_lt_is_Some. unfold vec_remove. rewrite Hx. eauto. Qed.
Lemma vec_insert_le {A} (i : nat) (x : A) (l : list A) :
  (i ≤ length l)%nat → vec_insert i x l = Some (take i l ++ x :: drop i l).
Proof. intros ?. unfold vec_insert. by rewrite decide_True. Qed.
Lemma delete_inserted {A} (i : nat) (x : A) (l : list A) :
  (i ≤ length l)%nat → delete i (take i l ++ x :: drop i l) = l.
Proof.
  intros Hi. etrans; [|apply (take_drop i)].
  rewrite <-(delete_middle (take i l) (drop i l) x), length_take, Nat.min_l by lia. done.
Qed.
Lemma length_inserted {A} (i : nat) (x : A) (l : list A) : length (take i l ++ x :: drop i l) = S (length l).
Proof. rewrite length_app, length_take; cbn. rewrite length_drop. lia. Qed.

(** ** The retained set

    The groups the pass has not removed: during a trial, the pending group is back in its place. *)
Definition retained (s : ConflictShrinker) : list ConflictGroupV1 :=
  match pending s with
  | None => remaining s
  | Some p => take (pt_index p) (remaining s) ++ pt_removed p :: drop (pt_index p) (remaining s)
  end.
(** The pass was interrupted, possibly between a trial and its completion. *)
Definition interrupted (s : ConflictShrinker) : bool :=
  match stop_reason s with
  | Some (StopBudgetExpired | StopCancelled | StopInconclusive) => true
  | _ => false
  end.

Section pass.
Context (groups : list ConflictGroupV1) (max : Z).

(** What every reachable state satisfies, whatever the caller reports. *)
Record shape (s : ConflictShrinker) : Prop := {
  sh_initial : initial_group_count s = len groups;
  sh_max : max_trials s = max;
  sh_retained : retained s `sublist_of` groups;
  sh_index : (index s ≤ length (retained s))%nat;
  sh_trials : interrupted s = false →
    attempted_trials s = Z.of_nat (index s) + (len groups - len (retained s))
                         + (if pending s then 1 else 0);
  sh_attempted : 0 ≤ attempted_trials s ≤ max ∧ attempted_trials s ≤ len groups;
  sh_pending : ∀ p, pending s = Some p →
    pt_index p = index s ∧ (index s ≤ length (remaining s))%nat ∧ stop_reason s = None ∧
    foundational s = false;
  sh_foundational : if foundational s then retained s = [] else retained s ≠ [];
  sh_stop : match stop_reason s with
            | Some StopCompleted => attempted_trials s = len groups
            | Some StopNotAttempted => max = 0 ∧ attempted_trials s = 0 ∧ retained s = groups
            | Some StopTrialLimit => 0 < max ∧ attempted_trials s = max ∧ max < len groups
            | _ => True
            end
}.

Definition stop_allowed (s : ConflictShrinker) (r : ConflictShrinkStopReason) : Prop :=
  match r with
  | StopCompleted => attempted_trials s = len groups
  | StopNotAttempted => max = 0 ∧ attempted_trials s = 0 ∧ retained s = groups
  | StopTrialLimit => 0 < max ∧ attempted_trials s = max ∧ max < len groups
  | _ => True
  end.

(** An invalid group is the only reason to refuse a bounded canonical list, and the machine starts
    with every group retained. *)
Lemma shape_new (b : SolveBudgetView) s :
  0 ≤ max → ConflictShrinker_new groups max b = Ok s → shape s ∧ retained s = groups ∧ index s = 0%nat.
Proof.
  unfold ConflictShrinker_new, validate_groups, u32_try_from. intros Hmax.
  rewrite result_bind_Ok. intros ([] & Hv & Hs). case_bool_decide as Hne; [done|].
  destruct (len groups <=? u32_max); cbn in Hs; simplify_eq/=. split; [|done].
  split; cbn; try done; try (unfold len; lia).
  - destruct (Z.eqb_spec max 0) as [->|]; cbn; done.
Qed.

Lemma shape_stop r s :
  shape s → pending s = None → foundational s = false → interrupted s = false → stop_allowed s r →
  shape (with_stop r s).
Proof.
  intros [] Hp Hf Hi Hr. unfold retained, interrupted in *. rewrite Hp in *.
  split; cbn; unfold retained, interrupted; cbn; rewrite ?Hp; auto.
  - done.
  - unfold stop_allowed, retained in Hr. by rewrite Hp in Hr.
Qed.

Lemma next_trial_shape w s :
  shape s → ∃ r s', next_trial w s = Some (r, s') ∧ shape s'.
Proof.
  intros Hs. unfold next_trial. case_bool_decide as Hp; [eauto|].
  apply eq_None_not_Some in Hp. case_bool_decide as Hstop; [cbn; eauto|].
  apply eq_None_not_Some in Hstop. cbn [orb]. destruct (foundational s) eqn:Hf; [eauto|].
  assert (interrupted s = false) as Hi by (unfold interrupted; by rewrite Hstop).
  pose proof Hs as [Hinit Hm Hsub Hidx Ht Ha _ Hfo _].
  specialize (Ht Hi). rewrite Hp in Ht. rewrite Hinit, Hm.
  assert (retained s = remaining s) as Hret by (unfold retained; by rewrite Hp).
  destruct (Z.eqb_spec max 0) as [Hm0|Hm0].
  { do 2 eexists; split; [done|]. apply shape_stop; auto. cbn. repeat split; [done|lia|].
    rewrite Hret in *. apply sublist_same_length; [done|]. unfold len in *. lia. }
  destruct (Z.leb_spec (len groups) (attempted_trials s)).
  { do 2 eexists; split; [done|]. apply shape_stop; auto. cbn. lia. }
  destruct (Z.leb_spec max (attempted_trials s)).
  { do 2 eexists; split; [done|]. apply shape_stop; auto. cbn. lia. }
  destruct (cancelled _); [do 2 eexists; split; [done|]; by apply shape_stop|].
  destruct (expired _); [do 2 eexists; split; [done|]; by apply shape_stop|].
  rewrite Hret in *. unfold len in Ht.
  destruct (vec_remove_lt (index s) (remaining s)) as (x & k & Hrem); [unfold len in *; lia|].
  rewrite Hrem. cbn. do 2 eexists; split; [done|].
  apply vec_remove_Some in Hrem as (Hlt & -> & Hback).
  split; unfold retained, interrupted in *; cbn; rewrite ?Hback; auto.
  - intros _. unfold len. lia.
  - lia.
  - intros p [= <-]. cbn. rewrite length_delete by (by apply lookup_lt_is_Some). naive_solver lia.
  - by rewrite Hstop.
Qed.

Lemma finish_after_trial_shape s :
  shape s → pending s = None → foundational s = false → stop_reason s = None →
  0 < attempted_trials s → shape (finish_after_trial s).
Proof.
  intros Hs Hp Hf Hstop Hpos. unfold finish_after_trial.
  assert (interrupted s = false) as Hi by (unfold interrupted; by rewrite Hstop).
  pose proof Hs as [Hinit Hm _ _ _ Ha _ _ _]. rewrite Hinit, Hm.
  destruct (Z.leb_spec (len groups) (attempted_trials s)); [apply shape_stop; auto; cbn; lia|].
  destruct (Z.leb_spec max (attempted_trials s)); [|done]. apply shape_stop; auto. cbn. lia.
Qed.

(** The state once the pending group is back in its place. *)
Definition settled (s : ConflictShrinker) : ConflictShrinker :=
  with_remaining (retained s) (with_pending None s).
Lemma restore_settled s p :
  shape s → pending s = Some p → restore p (with_pending None s) = Some (settled s).
Proof.
  intros Hs Hp. destruct (sh_pending _ Hs p Hp) as (Hi & Hle & _).
  unfold restore, settled, retained. rewrite Hp. cbn [remaining with_pending].
  by rewrite vec_insert_le by lia.
Qed.
Lemma settled_stop_shape s p r :
  shape s → pending s = Some p → interrupted (with_stop r s) = true →
  shape (with_stop r (settled s)).
Proof.
  intros Hs Hp Hr. destruct (sh_pending _ Hs p Hp) as (_ & _ & Hstop & Hf). destruct Hs.
  split; cbn; try done.
  - intros Hi. unfold interrupted in *. cbn in *. congruence.
  - unfold interrupted in Hr. cbn in Hr. by destruct r.
Qed.
Lemma settled_index_shape s p :
  shape s → pending s = Some p → shape (with_index (S (index s)) (settled s)).
Proof.
  intros Hs Hp. destruct (sh_pending _ Hs p Hp) as (Hi & Hle & Hstop & Hf).
  assert (length (retained s) = S (length (remaining s))) as Hlen
    by (unfold retained; rewrite Hp; apply length_inserted).
  destruct Hs. unfold interrupted in *. rewrite Hp, Hstop in *.
  split; cbn; rewrite ?Hstop, ?Hf in *; try done.
  - change (S (index s) ≤ length (retained s))%nat. lia.
  - intros _. change (retained (with_index _ _)) with (retained s). rewrite sh_trials0 by done. lia.
Qed.
Lemma removed_shape s p :
  shape s → pending s = Some p →
  shape (if bool_decide (remaining s = []) then with_foundational (with_pending None s)
         else with_pending None s).
Proof.
  intros Hs Hp. destruct (sh_pending _ Hs p Hp) as (Hi & Hle & Hstop & Hf).
  assert (length (retained s) = S (length (remaining s))) as Hlen
    by (unfold retained; rewrite Hp; apply length_inserted).
  assert (remaining s = delete (index s) (retained s)) as Hdel
    by (unfold retained; rewrite Hp, Hi, delete_inserted by lia; done).
  destruct Hs. unfold interrupted in *. rewrite Hp, Hstop in *.
  assert (remaining s `sublist_of` groups) as Hsub
    by (etrans; [|exact sh_retained0]; rewrite Hdel; apply sublist_delete).
  assert (attempted_trials s = Z.of_nat (index s) + (len groups - len (remaining s)) + 0) as Ht
    by (rewrite sh_trials0 by done; unfold len; lia).
  case_bool_decide; split; cbn; rewrite ?Hstop, ?Hf; try done.
Qed.

Lemma complete_trial_shape w o s :
  shape s → ∃ r s', complete_trial w o s = Some (r, s') ∧ shape s'.
Proof.
  intros Hs. unfold complete_trial. destruct (pending s) as [p|] eqn:Hp; [|eauto].
  destruct (sh_pending _ Hs p Hp) as (Hi & Hle & Hstop & Hf).
  pose proof (restore_settled s p Hs Hp) as Hres.
  assert (0 < attempted_trials s) as Hpos.
  { pose proof (sublist_length _ _ (sh_retained _ Hs)).
    rewrite (sh_trials _ Hs); [rewrite Hp; unfold len; lia|unfold interrupted; by rewrite Hstop]. }
  rewrite Hres. cbn [mbind option_bind].
  destruct (cancelled _); [do 2 eexists; split; [done|]; by eapply settled_stop_shape|].
  destruct (expired _); [do 2 eexists; split; [done|]; by eapply settled_stop_shape|].
  destruct o.
  - pose proof (removed_shape s p Hs Hp) as Hrem. cbn [remaining with_pending].
    case_bool_decide as Hnil; do 2 eexists; (split; [done|]); [done|].
    by apply finish_after_trial_shape.
  - do 2 eexists; split; [done|]. apply finish_after_trial_shape; try done.
    exact (settled_index_shape s p Hs Hp).
  - do 2 eexists; split; [done|]; by eapply settled_stop_shape.
Qed.

(** ** How one call moves the retained set *)
Lemma next_trial_retained w s r s' :
  shape s → next_trial w s = Some (r, s') → retained s' = retained s ∧ index s' = index s.
Proof.
  intros Hs. unfold next_trial. case_bool_decide as Hp; [by intros [= <- <-]|].
  apply eq_None_not_Some in Hp.
  assert (retained s = remaining s) as Hret by (unfold retained; by rewrite Hp).
  repeat (case_match; [by intros [= <- <-]|]).
  intros ([x k] & Hrem & [= <- <-])%bind_Some. apply vec_remove_Some in Hrem as (_ & -> & Hback).
  rewrite Hret. unfold retained; cbn. by rewrite Hback.
Qed.
Lemma next_trial_candidate w s trial s' :
  shape s → next_trial w s = Some (Ok (Some trial), s') → trial = remaining s' ∧ is_Some (pending s').
Proof.
  intros Hs. unfold next_trial. repeat (case_match; [done|]).
  intros ([x k] & Hrem & [= <- <-])%bind_Some. eauto.
Qed.
Lemma retained_finish s : retained (finish_after_trial s) = retained s.
Proof. unfold finish_after_trial. by repeat case_match. Qed.
Lemma index_finish s : index (finish_after_trial s) = index s.
Proof. unfold finish_after_trial. by repeat case_match. Qed.

Lemma pending_remaining s p :
  shape s → pending s = Some p → remaining s = delete (index s) (retained s).
Proof.
  intros Hs Hp. destruct (sh_pending _ Hs p Hp) as (Hi & Hle & _).
  unfold retained. by rewrite Hp, Hi, delete_inserted by lia.
Qed.
Lemma complete_trial_retained w o s r s' :
  shape s → complete_trial w o s = Some (r, s') →
  (retained s' = retained s ∧ index s' = index s) ∨
  (o = TrialFeasible ∧ retained s' = retained s ∧ index s' = S (index s) ∧
   remaining s = delete (index s) (retained s)) ∨
  (o = TrialInfeasible ∧ retained s' = remaining s ∧ index s' = index s ∧
   remaining s = delete (index s) (retained s)).
Proof.
  intros Hs. unfold complete_trial. destruct (pending s) as [p|] eqn:Hp; [|intros [= <- <-]; auto].
  pose proof (pending_remaining s p Hs Hp) as Hrem.
  rewrite (restore_settled s p Hs Hp). cbn [mbind option_bind].
  destruct (cancelled _); [intros [= <- <-]; auto|].
  destruct (expired _); [intros [= <- <-]; auto|].
  destruct o; [case_bool_decide| |]; intros [= <- <-]; rewrite ?retained_finish, ?index_finish; auto 6.
Qed.
End pass.

(** ** Deletions and monotone properties *)
Lemma delete_lookup_elem {A} (i : nat) (l : list A) y :
  y ∈ delete i l ↔ ∃ j, j ≠ i ∧ l !! j = Some y.
Proof.
  rewrite list_elem_of_lookup. split.
  - intros [j Hj]. destruct (decide (j < i)%nat) as [Hlt|Hge].
    + rewrite list_lookup_delete_lt in Hj by done. exists j. split; [lia|done].
    + rewrite list_lookup_delete_ge in Hj by lia. exists (S j). split; [lia|done].
  - intros (j & Hne & Hj). destruct (decide (j < i)%nat) as [Hlt|Hge].
    + exists j. by rewrite list_lookup_delete_lt.
    + exists (j - 1)%nat. rewrite list_lookup_delete_ge by lia. by replace (S (j - 1)) with j by lia.
Qed.
Lemma delete_delete_subseteq {A} (i k : nat) (l : list A) :
  (i < k)%nat → delete i (delete k l) ⊆ delete i l.
Proof.
  intros Hik y. rewrite !delete_lookup_elem. intros (j & Hne & Hj).
  destruct (decide (j < k)%nat).
  - rewrite list_lookup_delete_lt in Hj by done. eauto.
  - rewrite list_lookup_delete_ge in Hj by lia. exists (S j). split; [lia|done].
Qed.
Lemma sublist_proper_delete {A} (l k : list A) :
  l `sublist_of` k → l ≠ k → ∃ i, (i < length k)%nat ∧ l ⊆ delete i k.
Proof.
  induction 1 as [|x l k Hsub IH|x l k Hsub IH]; intros Hne; [done| |].
  - destruct IH as (i & Hi & Hin); [congruence|]. exists (S i). cbn. split; [lia|].
    intros y [->|Hy]%elem_of_cons; [by left|]. right. by apply Hin.
  - exists 0%nat. cbn. split; [lia|]. by apply sublist_subseteq.
Qed.

(** ** Truthful trials

    Adding an assumption group never makes an infeasible set feasible. *)
Class Monotone (infeasible : list ConflictGroupV1 → Prop) :=
  infeasible_mono : ∀ l k, l ⊆ k → infeasible l → infeasible k.
Section truthful.
Context (infeasible : list ConflictGroupV1 → Prop) `{Monotone infeasible}.

Definition truthful (o : ConflictTrialOutcome) (l : list ConflictGroupV1) : Prop :=
  match o with
  | TrialInfeasible => infeasible l
  | TrialFeasible => ¬ infeasible l
  | TrialInconclusive => True
  end.

(** One call on the machine: the environment chooses the worlds, the caller the order of the calls,
    and the outcomes it reports of the proposed set are truthful. *)
Inductive shrink_step : ConflictShrinker → ConflictShrinker → Prop :=
| step_next w s r s' : next_trial w s = Some (r, s') → shrink_step s s'
| step_complete w o s r s' :
    truthful o (remaining s) → complete_trial w o s = Some (r, s') → shrink_step s s'.

Record proof_inv (s : ConflictShrinker) : Prop := {
  pf_infeasible : infeasible (retained s);
  pf_necessary : ∀ i, (i < index s)%nat → ¬ infeasible (delete i (retained s))
}.

Lemma shrink_step_inv groups max s s' :
  shape groups max s → proof_inv s → shrink_step s s' → shape groups max s' ∧ proof_inv s'.
Proof.
  intros Hs [Hinf Hnec]. inversion 1 as [w ? r ? Hn|w o ? r ? Ht Hc]; subst.
  - destruct (next_trial_shape groups max w s Hs) as (r1 & s1 & Hn1 & Hs1).
    replace s1 with s' in * by congruence. split; [done|].
    destruct (next_trial_retained groups max w s _ s' Hs Hn) as [Hr Hx].
    split; by rewrite Hr, ?Hx.
  - destruct (complete_trial_shape groups max w o s Hs) as (r1 & s1 & Hc1 & Hs1).
    replace s1 with s' in * by congruence. split; [done|].
    destruct (complete_trial_retained groups max w o s _ s' Hs Hc)
      as [[Hr Hx]|[(-> & Hr & Hx & Hrem)|(-> & Hr & Hx & Hrem)]]; split; rewrite Hr, ?Hx; try done.
    + cbn in Ht. rewrite Hrem in Ht. intros i Hi.
      destruct (decide (i = index s)) as [->|]; [done|]. apply Hnec. lia.
    + rewrite Hrem. intros i Hi Hbad. apply (Hnec i Hi).
      eapply infeasible_mono, Hbad. by apply delete_delete_subseteq.
Qed.
Lemma reachable_inv groups max s s' :
  rtc shrink_step s s' → shape groups max s ∧ proof_inv s → shape groups max s' ∧ proof_inv s'.
Proof. induction 1; [done|]. intros [??]. eauto using shrink_step_inv. Qed.

Lemma minimal_of_deletions l :
  (∀ i, (i < length l)%nat → ¬ infeasible (delete i l)) →
  ∀ k, k `sublist_of` l → k ≠ l → ¬ infeasible k.
Proof.
  intros Hdel k Hsub Hne Hk. destruct (sublist_proper_delete k l Hsub Hne) as (i & Hi & Hin).
  apply (Hdel i Hi). by eapply infeasible_mono.
Qed.
End truthful.

(** ** The evidence *)
Lemma validate_groups_Ok groups :
  validate_groups groups = Ok tt ↔
  groups ≠ [] ∧ len groups ≤ MAX_EXPLANATION_RECORDS ∧ strictly_sorted groups = true ∧
  Forall (λ g, ConflictGroupV1_validate g = Ok tt) groups.
Proof.
  unfold validate_groups. case_bool_decide as Hne; cbn [orb]; [naive_solver|].
  destruct (Z.ltb_spec MAX_EXPLANATION_RECORDS (len groups)); cbn [orb]; [naive_solver lia|].
  destruct (strictly_sorted groups); cbn [negb]; [|naive_solver].
  rewrite for_each_Ok. split.
  - intros Hall. repeat split; [done|done|]. eapply Forall_impl; [done|]. cbn.
    intros g. by destruct (ConflictGroupV1_validate g) as [[]|].
  - intros (_ & _ & _ & Hall). eapply Forall_impl; [done|]. cbn. by intros g ->.
Qed.
Lemma new_groups_valid groups max b s :
  ConflictShrinker_new groups max b = Ok s → validate_groups groups = Ok tt.
Proof. unfold ConflictShrinker_new. rewrite result_bind_Ok. by intros ([] & ? & _). Qed.

Lemma conflict_valid groups l m sum :
  validate_groups groups = Ok tt → l `sublist_of` groups → l ≠ [] →
  ConflictShrinkSummaryV1_validate sum = Ok tt → cs_remaining_group_count sum = len l →
  m = (if decide (cs_stop_reason sum = StopCompleted) then ProvenMinimal else Sufficient) →
  InfeasibilityEvidenceV1_validate (Conflict l m sum) = Ok tt.
Proof.
  rewrite validate_groups_Ok. intros (_ & Hlen & Hsort & Hall) Hsub Hne Hsum Hcount ->.
  pose proof (sublist_length _ _ Hsub) as Hle.
  cbn. rewrite bool_decide_false by done. unfold validate_bounded_strict.
  rewrite (proj2 (Z.ltb_ge _ _)) by (unfold len in *; lia).
  rewrite (strictly_sorted_sublist l groups) by done. cbn.
  rewrite (proj2 (for_each_Ok _ _)).
  2: { rewrite Forall_forall in Hall |- *. intros g Hg. apply Hall. by eapply sublist_subseteq. }
  cbn. rewrite Hsum, Hcount, Z.eqb_refl. cbn. by case_decide; repeat case_bool_decide.
Qed.

Section result.
Context (groups : list ConflictGroupV1) (max : Z) (s : ConflictShrinker).
Context (Hvalid : validate_groups groups = Ok tt) (Hshape : shape groups max s).

Lemma summary_valid r :
  stop_reason s = Some r → foundational s = false → pending s = None →
  ConflictShrinkSummaryV1_validate
    {| cs_initial_group_count := initial_group_count s; cs_remaining_group_count := len (remaining s);
       cs_attempted_trials := attempted_trials s; cs_max_trials := max_trials s;
       cs_stop_reason := r |} = Ok tt.
Proof using Hvalid Hshape.
  apply validate_groups_Ok in Hvalid as (Hne & _). intros Hstop Hf Hp. destruct Hshape.
  unfold retained in *. rewrite Hstop, Hf, Hp in *.
  pose proof (sublist_length _ _ sh_retained0) as Hle.
  assert (0 < len groups) by (destruct groups; [done|]; unfold len; cbn; lia).
  assert (0 < len (remaining s)) by (destruct (remaining s); [done|]; unfold len; cbn; lia).
  unfold ConflictShrinkSummaryV1_validate; cbn. rewrite sh_initial0, sh_max0.
  rewrite !(proj2 (Z.ltb_lt 0 _)), (proj2 (Z.leb_le (len (remaining s)) _)) by (unfold len in *; lia).
  cbn. destruct r; cbn; unfold len in *.
  - by rewrite (proj2 (Z.eqb_eq _ _)), (proj2 (Z.leb_le _ _)) by lia.
  - destruct sh_stop0 as (-> & -> & ->). by rewrite !Z.eqb_refl.
  - destruct sh_stop0 as (? & -> & ?).
    by rewrite (proj2 (Z.ltb_lt 0 _)), Z.eqb_refl, (proj2 (Z.ltb_lt _ _)) by lia.
  - by rewrite (proj2 (Z.leb_le _ _)) by lia.
  - by rewrite (proj2 (Z.leb_le _ _)) by lia.
  - by rewrite (proj2 (Z.leb_le _ _)) by lia.
Qed.

(** A finished machine returns evidence of its own state, and the evidence validates. *)
Lemma into_result_finished :
  pending s = None → (∃ r, stop_reason s = Some r) ∨ foundational s = true →
  ∃ ev, into_result s = Ok ev ∧ InfeasibilityEvidenceV1_validate ev = Ok tt ∧
    match ev with
    | Conflict gs m _ =>
        foundational s = false ∧ gs = remaining s ∧
        (m = ProvenMinimal ↔ stop_reason s = Some StopCompleted)
    | Unavailable r => foundational s = true ∧ r = FoundationalInfeasibility
    end.
Proof using Hvalid Hshape.
  intros Hp Hfin. unfold into_result. rewrite bool_decide_false by (rewrite Hp; apply is_Some_None).
  destruct (foundational s) eqn:Hf; [eexists; by split|].
  destruct Hfin as [[r Hr]|]; [|done]. rewrite Hr. unfold conflict_result, u32_try_from.
  pose proof (sh_retained _ _ _ Hshape) as Hsub. pose proof (sh_foundational _ _ _ Hshape) as Hne.
  unfold retained in *. rewrite Hp, Hf in *. pose proof (sublist_length _ _ Hsub) as Hle.
  pose proof (proj1 (validate_groups_Ok _) Hvalid) as (_ & Hmax & _).
  rewrite (proj2 (Z.leb_le _ _)).
  2: { unfold MAX_EXPLANATION_RECORDS, u32_max, len in *. lia. }
  cbn. rewrite summary_valid by done. cbn. eexists; split; [done|]. split.
  - eapply conflict_valid; eauto. by apply summary_valid.
  - repeat split; case_decide; naive_solver.
Qed.
Lemma into_result_Ok_finished ev :
  into_result s = Ok ev → pending s = None ∧ ((∃ r, stop_reason s = Some r) ∨ foundational s = true).
Proof.
  unfold into_result. case_bool_decide as Hp; [done|]. apply eq_None_not_Some in Hp.
  destruct (foundational s); [auto|]. destruct (stop_reason s); [eauto|done].
Qed.
End result.

(** C8. The evidence of a deletion pass means what it says. Start the machine on a sufficient
    conflict, call it in any order and under any cancellation and clock, reporting truthful trial
    outcomes: the evidence it returns passes its contract; a conflict is a part of the original one,
    is still infeasible, and when it is called minimal no proper part of it is infeasible; the only
    unavailability it reports is the foundational one, and then the empty set is infeasible. *)
Theorem shrink_evidence_sound infeasible `{Monotone infeasible} groups max b s0 s ev :
  0 ≤ max → ConflictShrinker_new groups max b = Ok s0 → infeasible groups →
  rtc (shrink_step infeasible) s0 s → into_result s = Ok ev →
  InfeasibilityEvidenceV1_validate ev = Ok tt ∧
  match ev with
  | Conflict gs m _ =>
      gs `sublist_of` groups ∧ infeasible gs ∧
      (m = ProvenMinimal → ∀ gs', gs' `sublist_of` gs → gs' ≠ gs → ¬ infeasible gs')
  | Unavailable r => r = FoundationalInfeasibility ∧ infeasible []
  end.
Proof.
  intros Hmax Hnew Hinf Hreach Hev. destruct (shape_new groups max b s0 Hmax Hnew) as (Hs0 & Hr0 & Hi0).
  destruct (reachable_inv infeasible groups max s0 s Hreach) as [Hs [Hi Hn]].
  { split; [done|]. split; [by rewrite Hr0|]. rewrite Hi0. lia. }
  destruct (into_result_Ok_finished s ev Hev) as [Hp Hfin].
  destruct (into_result_finished groups max s (new_groups_valid _ _ _ _ Hnew) Hs Hp Hfin)
    as (ev' & Hev' & Hval & Hmean).
  rewrite Hev in Hev'. injection Hev' as <-. split; [done|].
  assert (retained s = remaining s) as Hret by (unfold retained; by rewrite Hp).
  destruct ev as [gs m sum|r].
  - destruct Hmean as (Hf & -> & Hm). rewrite <-Hret. split; [by eapply sh_retained|]. split; [done|].
    intros Hmin%Hm. apply minimal_of_deletions; [done|]. intros i Hlt. apply Hn.
    pose proof (sh_stop _ _ _ Hs) as Hstop. rewrite Hmin in Hstop.
    pose proof (sh_trials _ _ _ Hs) as Ht. unfold interrupted in Ht. rewrite Hmin, Hp in Ht.
    specialize (Ht eq_refl). unfold len in *. lia.
  - destruct Hmean as (Hf & ->). split; [done|].
    pose proof (sh_foundational _ _ _ Hs) as Hfo. rewrite Hf in Hfo. by rewrite <-Hfo.
Qed.

(** ** The driving loop

    What a caller of the machine runs: ask for a trial, report its outcome, repeat until no trial is
    offered, and take the result.  Round [k] observes the worlds [before k] and [after k]. *)
Fixpoint drive (fuel : nat) (before after : nat → World)
    (answer : nat → list ConflictGroupV1 → ConflictTrialOutcome) (round : nat) (s : ConflictShrinker) :
    option (Result ConflictShrinkError InfeasibilityEvidenceV1) :=
  match fuel with
  | O => None
  | S fuel =>
      '(next, s) ← next_trial (before round) s;
      match next with
      | Err e => Some (Err e)
      | Ok None => Some (into_result s)
      | Ok (Some trial) =>
          '(completed, s) ← complete_trial (after round) (answer round trial) s;
          match completed with
          | Err e => Some (Err e)
          | Ok _ => drive fuel before after answer (S round) s
          end
      end
  end.

(** The deletion filter: walk over the groups once, dropping a group whenever the others stay
    infeasible without it. *)
Fixpoint deletion_filter (still_infeasible : list ConflictGroupV1 → bool)
    (kept rest : list ConflictGroupV1) : list ConflictGroupV1 :=
  match rest with
  | [] => kept
  | g :: rest =>
      if still_infeasible (kept ++ rest) then deletion_filter still_infeasible kept rest
      else deletion_filter still_infeasible (kept ++ [g]) rest
  end.

(** *** The loop ends *)
Lemma next_trial_none groups max w s s' :
  shape groups max s → next_trial w s = Some (Ok None, s') →
  pending s' = None ∧ ((∃ r, stop_reason s' = Some r) ∨ foundational s' = true).
Proof.
  intros Hs. unfold next_trial. case_bool_decide as Hp; [done|]. apply eq_None_not_Some in Hp.
  case_bool_decide as Hr; cbn [orb]; [destruct Hr; intros [= <-]; eauto|].
  destruct (foundational s) eqn:Hf; [intros [= <-]; eauto|].
  repeat (case_match; [intros [= <-]; cbn; eauto|]).
  by intros ([] & ? & ?)%bind_Some.
Qed.
Lemma next_trial_some w s trial s' :
  next_trial w s = Some (Ok (Some trial), s') →
  attempted_trials s' = attempted_trials s + 1 ∧ attempted_trials s < max_trials s ∧
  attempted_trials s < initial_group_count s.
Proof.
  unfold next_trial. repeat (case_match; [done|]).
  intros ([x k] & _ & [= _ <-])%bind_Some. cbn. lia.
Qed.
Lemma next_trial_settled w s s' e : pending s = None → next_trial w s ≠ Some (Err e, s').
Proof.
  intros Hp. unfold next_trial. rewrite bool_decide_false by (rewrite Hp; apply is_Some_None).
  repeat (case_match; [done|]). destruct (vec_remove _ _) as [[]|]; done.
Qed.
Lemma complete_trial_settles groups max w o s p r s' :
  shape groups max s → pending s = Some p → complete_trial w o s = Some (r, s') →
  r = Ok tt ∧ pending s' = None ∧ attempted_trials s' = attempted_trials s.
Proof.
  intros Hs Hp. unfold complete_trial. rewrite Hp.
  rewrite (restore_settled groups max s p Hs Hp). cbn [mbind option_bind].
  destruct (cancelled _); [by intros [= <- <-]|]. destruct (expired _); [by intros [= <- <-]|].
  unfold finish_after_trial.
  destruct o; [case_bool_decide| |]; intros [= <- <-]; repeat case_match; done.
Qed.

Lemma drive_returns groups max before after answer :
  validate_groups groups = Ok tt → ∀ fuel round s, shape groups max s → pending s = None →
  Z.min (len groups) max - attempted_trials s < Z.of_nat fuel →
  ∃ ev, drive fuel before after answer round s = Some (Ok ev) ∧
    InfeasibilityEvidenceV1_validate ev = Ok tt.
Proof.
  intros Hv fuel. induction fuel as [|fuel IH]; intros round s Hs Hp Hfuel.
  { destruct (sh_attempted _ _ _ Hs). lia. }
  destruct (next_trial_shape groups max (before round) s Hs) as ([[trial|]|e] & s1 & Hn & Hs1);
    cbn; rewrite Hn; cbn; [| |by apply next_trial_settled in Hn].
  - destruct (next_trial_candidate _ _ _ s trial s1 Hs Hn) as [-> [p Hp1]].
    apply next_trial_some in Hn as (Ha & Hlt & Hle).
    rewrite (sh_max _ _ _ Hs) in Hlt. rewrite (sh_initial _ _ _ Hs) in Hle.
    destruct (complete_trial_shape groups max (after round) (answer round (remaining s1)) s1 Hs1)
      as (r & s2 & Hc & Hs2).
    destruct (complete_trial_settles _ _ _ _ s1 p r s2 Hs1 Hp1 Hc) as (-> & Hp2 & Ha2).
    rewrite Hc; cbn. apply IH; [done|done|]. lia.
  - destruct (next_trial_none _ _ _ s s1 Hs Hn) as [Hp1 Hfin].
    destruct (into_result_finished groups max s1 Hv Hs1 Hp1 Hfin) as (ev & -> & Hval & _). eauto.
Qed.

(** *** An undisturbed pass is the deletion filter *)
Definition undisturbed (b : SolveBudgetView) (w : World) : Prop :=
  cancelled (view_snapshot w b) = false ∧ expired (view_snapshot w b) = false.
Definition conclusive (still_infeasible : list ConflictGroupV1 → bool) (l : list ConflictGroupV1) :
    ConflictTrialOutcome :=
  if still_infeasible l then TrialInfeasible else TrialFeasible.
Definition filter_evidence (n max : Z) (l : list ConflictGroupV1) : InfeasibilityEvidenceV1 :=
  if decide (l = []) then Unavailable FoundationalInfeasibility
  else Conflict l ProvenMinimal
         {| cs_initial_group_count := n; cs_remaining_group_count := len l; cs_attempted_trials := n;
            cs_max_trials := max; cs_stop_reason := StopCompleted |}.

Section undisturbed_pass.
Context (n max : Z) (b : SolveBudgetView) (still_infeasible : list ConflictGroupV1 → bool).
Context (before after : nat → World).
Context (Hbefore : ∀ k, undisturbed b (before k)) (Hafter : ∀ k, undisturbed b (after k)).
Context (Hmax : n ≤ max).

Definition pass_state (kept rest : list ConflictGroupV1) : ConflictShrinker :=
  {| remaining := kept ++ rest; pending := None; initial_group_count := n;
     attempted_trials := n - len rest; max_trials := max; index := length kept; budget := b;
     stop_reason := if decide (kept ++ rest = []) then None
                    else if decide (rest = []) then Some StopCompleted else None;
     foundational := bool_decide (kept ++ rest = []) |}.
Notation pass_drive fuel round s := (drive fuel before after (λ _, conclusive still_infeasible) round s).

Lemma vec_remove_middle {A} (l k : list A) x : vec_remove (length l) (l ++ x :: k) = Some (x, l ++ k).
Proof.
  unfold vec_remove. rewrite list_lookup_middle by done. cbn.
  rewrite take_app_length, drop_app_ge by lia. by replace (S (length l) - length l)%nat with 1%nat by lia.
Qed.
Lemma vec_insert_middle {A} (l k : list A) x :
  vec_insert (length l) x (l ++ k) = Some (l ++ x :: k).
Proof.
  rewrite vec_insert_le by (rewrite length_app; lia). by rewrite take_app_length, drop_app_length.
Qed.

Lemma pass_next round kept g rest :
  len (g :: rest) ≤ n →
  next_trial (before round) (pass_state kept (g :: rest)) =
  Some (Ok (Some (kept ++ rest)),
        {| remaining := kept ++ rest; pending := Some {| pt_index := length kept; pt_removed := g |};
           initial_group_count := n; attempted_trials := n - len rest; max_trials := max;
           index := length kept; budget := b; stop_reason := None; foundational := false |}).
Proof using Hbefore Hmax.
  intros Hn. unfold next_trial, pass_state; cbn [pending stop_reason foundational].
  assert (kept ++ g :: rest ≠ []) as Hne by (by destruct kept).
  rewrite (decide_False (P := kept ++ g :: rest = [])), (bool_decide_false _ Hne) by done. cbn [orb].
  rewrite !bool_decide_false by apply is_Some_None. cbn [orb max_trials initial_group_count attempted_trials].
  assert (len (g :: rest) = len rest + 1) as Hlen by (unfold len; cbn; lia).
  assert (0 ≤ len rest) by (unfold len; lia).
  rewrite (proj2 (Z.eqb_neq _ _)), !(proj2 (Z.leb_gt _ _)) by lia.
  destruct (Hbefore round) as [Hc He]. cbn [budget]. rewrite Hc, He. cbn [index remaining].
  rewrite vec_remove_middle. cbn. unfold with_pending, with_attempted, with_remaining; cbn.
  rewrite decide_False by done. do 3 f_equal. lia.
Qed.

Lemma pass_round fuel round kept g rest :
  len (g :: rest) ≤ n →
  pass_drive (S fuel) round (pass_state kept (g :: rest)) =
  pass_drive fuel (S round)
    (if still_infeasible (kept ++ rest) then pass_state kept rest else pass_state (kept ++ [g]) rest).
Proof using Hbefore Hafter Hmax.
  intros Hn. cbn [drive]. rewrite (pass_next round kept g rest Hn). cbn [mbind option_bind].
  unfold complete_trial; cbn [pending budget with_pending]. destruct (Hafter round) as [Hc He].
  rewrite Hc, He. unfold conclusive, restore. cbn [pt_index pt_removed remaining with_pending].
  rewrite vec_insert_middle. cbn [mbind option_bind].
  assert (0 ≤ len rest) by (unfold len; lia).
  assert (len rest = 0 ↔ rest = []) as Hlen by (unfold len; destruct rest; cbn; split; try done; lia).
  assert (∀ (s : ConflictShrinker), initial_group_count s = n → max_trials s = max →
    attempted_trials s = n - len rest → finish_after_trial s =
    if decide (rest = []) then with_stop StopCompleted s else s) as Hfinish.
  { intros s H1 H2 H3. unfold finish_after_trial. rewrite H1, H2, H3. case_decide as Hr.
    - apply Hlen in Hr. by rewrite (proj2 (Z.leb_le _ _)) by lia.
    - assert (len rest ≠ 0) by tauto. by rewrite !(proj2 (Z.leb_gt _ _)) by lia. }
  destruct (still_infeasible (kept ++ rest)).
  - unfold pass_state. case_bool_decide as Hnil; cbn.
    + by rewrite decide_True by done.
    + rewrite Hfinish, (decide_False (P := kept ++ rest = [])) by done. by case_decide.
  - assert ((kept ++ [g]) ++ rest ≠ []) by (by destruct kept).
    cbn. rewrite Hfinish by done. unfold pass_state.
    rewrite (decide_False (P := (kept ++ [g]) ++ rest = [])), bool_decide_false by done.
    rewrite <-app_assoc, length_app; cbn. rewrite Nat.add_1_r. by case_decide.
Qed.

Lemma pass_filter fuel round kept rest :
  0 < n → n ≤ u32_max → len (kept ++ rest) ≤ n → (length rest < fuel)%nat →
  pass_drive fuel round (pass_state kept rest) =
  Some (Ok (filter_evidence n max (deletion_filter still_infeasible kept rest))).
Proof using Hbefore Hafter Hmax.
  intros Hpos Hu. revert round kept rest. induction fuel as [|fuel IH]; [lia|].
  intros round kept [|g rest] Hn Hfuel; cbn [deletion_filter].
  - destruct (decide (kept = [])) as [->|Hne]; [done|]. rewrite app_nil_r in *.
    assert (0 < len kept) by (destruct kept; [done|]; unfold len; cbn; lia).
    unfold filter_evidence. rewrite decide_False by done.
    cbn. unfold next_trial, pass_state, into_result; cbn. rewrite app_nil_r, Z.sub_0_r.
    rewrite !(bool_decide_false (kept = [])), !(decide_False (P := kept = [])) by done.
    rewrite !(decide_True (P := @nil ConflictGroupV1 = [])) by done. cbn.
    unfold conflict_result, u32_try_from. rewrite (proj2 (Z.leb_le _ _)) by lia. cbn.
    unfold ConflictShrinkSummaryV1_validate; cbn.
    by rewrite !(proj2 (Z.ltb_lt 0 _)), !(proj2 (Z.leb_le _ _)), Z.eqb_refl by lia.
  - rewrite pass_round by (unfold len in *; rewrite length_app in Hn; cbn in *; lia).
    unfold len in *. rewrite length_app in Hn. cbn in *.
    destruct (still_infeasible (kept ++ rest)); apply IH; rewrite ?length_app; cbn; lia.
Qed.
End undisturbed_pass.

Lemma new_pass_state groups max b s :
  0 < max → ConflictShrinker_new groups max b = Ok s → s = pass_state (len groups) max b [] groups.
Proof.
  intros Hmax Hnew. pose proof (new_groups_valid _ _ _ _ Hnew) as Hv.
  pose proof (proj1 (validate_groups_Ok _) Hv) as (Hne & _). revert Hnew.
  unfold ConflictShrinker_new, u32_try_from. rewrite Hv. cbn. destruct (len groups <=? u32_max); [|done].
  intros [= <-]. unfold pass_state; cbn. rewrite !(decide_False (P := groups = [])) by done.
  rewrite (proj2 (Z.eqb_neq max 0)), bool_decide_false, Z.sub_diag by (done || lia). done.
Qed.

(** The loop that drives a deletion pass always ends with valid evidence: whatever the clock,
    the cancellation flags and the reported outcomes are, after at most one round per group and per
    permitted trial plus a last one it returns evidence that passes its contract, without a panic
    and without an error. When nothing interrupts it, every trial is conclusive and the trial limit
    admits one trial per group, the evidence is that of the deletion filter, and it is reported as
    minimal (or as foundational when nothing is left). *)
Theorem shrink_pass_returns groups max b s before after answer fuel :
  0 ≤ max → ConflictShrinker_new groups max b = Ok s → Z.min (len groups) max < Z.of_nat fuel →
  (∃ ev, drive fuel before after answer 0 s = Some (Ok ev) ∧
     InfeasibilityEvidenceV1_validate ev = Ok tt) ∧
  (∀ still_infeasible, len groups ≤ max →
     (∀ k, undisturbed b (before k)) → (∀ k, undisturbed b (after k)) →
     drive fuel before after (λ _, conclusive still_infeasible) 0 s =
     Some (Ok (filter_evidence (len groups) max (deletion_filter still_infeasible [] groups)))).
Proof.
  intros Hmax Hnew Hfuel. pose proof (new_groups_valid _ _ _ _ Hnew) as Hv.
  destruct (shape_new groups max b s Hmax Hnew) as (Hs & Hr & _). split.
  - destruct (sh_attempted _ _ _ Hs) as [[H0 _] _].
    apply (drive_returns groups max); [done|done| |lia].
    revert Hnew. unfold ConflictShrinker_new. rewrite Hv. cbn.
    destruct (u32_try_from (len groups)); cbn; [|done]. by intros [= <-].
  - intros still Hle Hb Ha. pose proof (proj1 (validate_groups_Ok _) Hv) as (Hne & Hmx & _).
    assert (0 < len groups) by (destruct groups; [done|]; unfold len; cbn; lia).
    rewrite (new_pass_state groups max b s) by (done || lia).
    apply pass_filter; [done|done|done|done| | |]; unfold u32_max, MAX_EXPLANATION_RECORDS, len in *;
      cbn; lia.
Qed.
