(* ===== verification/AssumptionFacts.v ===== *)
(** * What a mapped assumption core is

    Facts about [crates/eutheto-explain/src/assumption.rs]: on a valid problem the mapped groups are
    exactly those of the assumptions whose literal was returned, in canonical order, and the shrinker
    accepts them; every refusal says what it means; the budgeted entry point agrees with the plain one
    and balances its reservation. *)
From stdpp Require Import base tactics list gmap strings.
From Stdlib Require Import ZArith Lia Sorted.
From S2P Require Import Prelude Ordering Control Budget Ids DomainIr Model Analysis Validation.
From S2P Require Import Erasure ValidationAgreement Admission Accounting Conflict ConflictFacts.
Open Scope Z_scope.

(** ** The index of assumptions *)
Lemma insert_all_lookup {K A} `{Countable K} (key : A → K) (l : list A) (m : gmap K A) k :
  NoDup (key <$> l) →
  (∀ a, foldl (λ m a, <[key a := a]> m) m l !! k = Some a ↔
        (a ∈ l ∧ key a = k) ∨ (m !! k = Some a ∧ k ∉ key <$> l)).
Proof.
  revert m. induction l as [|x l IH]; intros m Hnd a; cbn.
  { set_solver. }
  apply NoDup_cons in Hnd as [Hx Hnd]. rewrite IH by done.
  destruct (decide (key x = k)) as [<-|Hne].
  - rewrite lookup_insert_eq. split; [intros [[]|[[= ->] _]]|intros [[[->|]%elem_of_cons]|]]; set_solver.
  - rewrite lookup_insert_ne by done. set_solver.
Qed.

Lemma literals_NoDup (l : list Assumption) :
  NoDup ((λ a, lit_variable (as_literal a)) <$> l) → NoDup (as_literal <$> l).
Proof.
  intros Hnd. apply (NoDup_fmap_1 lit_variable). by rewrite <-list_fmap_compose.
Qed.

Section index.
Context (problem : PlanningProblem).
Context (Hvars : NoDup ((λ a, lit_variable (as_literal a)) <$> assumptions problem)).

Lemma by_literal_Some k a :
  assumptions_by_literal problem !! k = Some a ↔ a ∈ assumptions problem ∧ as_literal a = k.
Proof using Hvars.
  unfold assumptions_by_literal. rewrite insert_all_lookup by (by apply literals_NoDup).
  rewrite lookup_empty. naive_solver.
Qed.
Lemma by_literal_None k :
  assumptions_by_literal problem !! k = None ↔ ∀ a, a ∈ assumptions problem → as_literal a ≠ k.
Proof using Hvars.
  rewrite eq_None_not_Some. split.
  - intros Hno a Ha <-. apply Hno. exists a. by apply by_literal_Some.
  - intros Hno [a [Ha Hk]%by_literal_Some]. by eapply Hno.
Qed.
Lemma elem_assumption_variables v :
  v ∈ assumption_variables problem ↔ ∃ a, a ∈ assumptions problem ∧ lit_variable (as_literal a) = v.
Proof. unfold assumption_variables. rewrite elem_of_list_to_set, list_elem_of_fmap. naive_solver. Qed.

(** The groups of the assumptions whose literal is in [literals]. *)
Definition core_assumptions (literals : list Literal) : list Assumption :=
  filter (λ a, as_literal a ∈ literals) (assumptions problem).
Definition core_groups (literals : list Literal) : list ConflictGroupV1 :=
  assumption_group <$> core_assumptions literals.
End index.

(** ** The loop over the returned literals *)
Section loop.
Context (by_literal : gmap Literal Assumption) (vars : gset string).
Definition mapped_to (l : Literal) (g : ConflictGroupV1) : Prop :=
  ∃ a, by_literal !! l = Some a ∧ g = assumption_group a.

Lemma map_literal_plain seen mapped l :
  map_literal by_literal vars (seen, mapped) l None =
  (if decide (l ∈ seen) then Err (MapDuplicateLiteral l)
   else match by_literal !! l with
        | None => if decide (lit_variable l ∈ vars) then Err (MapWrongPolarity l) else Err (MapUnknownLiteral l)
        | Some a => Ok ({[ l ]} ∪ seen, mapped ++ [assumption_group a])
        end, None).
Proof.
  change (map_literal by_literal vars (seen, mapped) l None) with
    ((if decide (l ∈ seen) then se_fail (MapDuplicateLiteral l)
      else match by_literal !! l with
           | None => if decide (lit_variable l ∈ vars) then se_fail (MapWrongPolarity l)
                     else se_fail (MapUnknownLiteral l)
           | Some a => mret ({[ l ]} ∪ seen, mapped ++ [assumption_group a])
           end : MM _) None).
  case_decide; [done|]. destruct (by_literal !! l); [done|]. by case_decide.
Qed.
Lemma map_loop literals : ∀ done_ mapped,
  NoDup done_ → Forall2 mapped_to done_ mapped →
  match fold_m (map_literal by_literal vars) (list_to_set done_, mapped) literals None with
  | (Ok (_, mapped'), ctx) =>
      ctx = None ∧ NoDup (done_ ++ literals) ∧ Forall2 mapped_to (done_ ++ literals) mapped'
  | (Err (MapDuplicateLiteral l), _) => l ∈ literals ∧ ¬ NoDup (done_ ++ literals)
  | (Err (MapWrongPolarity l), _) =>
      l ∈ literals ∧ by_literal !! l = None ∧ lit_variable l ∈ vars
  | (Err (MapUnknownLiteral l), _) =>
      l ∈ literals ∧ by_literal !! l = None ∧ lit_variable l ∉ vars
  | (Err _, _) => False
  end.
Proof.
  induction literals as [|l literals IH]; intros done_ mapped Hnd Hall.
  { cbn. by rewrite app_nil_r. }
  rewrite se_fold_m_cons, map_literal_plain. destruct (decide (l ∈ list_to_set done_)) as [Hin|Hfresh]; cbn.
  { split; [by left|]. rewrite NoDup_app. intros (_ & Hdis & _).
    apply (Hdis l); [by apply elem_of_list_to_set in Hin|by left]. }
  rewrite elem_of_list_to_set in Hfresh.
  destruct (by_literal !! l) as [a|] eqn:Ha; cbn.
  2:{ destruct (decide (lit_variable l ∈ vars)); cbn; (split; [by left|]); done. }
  assert (list_to_set (done_ ++ [l]) = ({[ l ]} ∪ list_to_set done_ : gset Literal)) as Heq by set_solver.
  rewrite <-Heq. specialize (IH (done_ ++ [l]) (mapped ++ [assumption_group a])).
  rewrite <-app_assoc in IH. cbn in IH.
  assert (NoDup (done_ ++ [l])) as H1.
  { apply NoDup_app. split_and!; [done| |apply NoDup_singleton]. by intros ? ? ->%list_elem_of_singleton. }
  assert (Forall2 mapped_to (done_ ++ [l]) (mapped ++ [assumption_group a])) as H2.
  { apply Forall2_app; [done|]. constructor; [by exists a|constructor]. }
  specialize (IH H1 H2). clear H1 H2.
  match type of IH with match ?run with _ => _ end =>
    destruct run as [[[seen mapped']|[]] ctx]; try done; destruct IH; (split; [by right|]); done end.
Qed.
End loop.

(** ** The mapped groups *)
Lemma StronglySorted_fmap_weaken {A B} (R : relation A) (Q : relation B) (f : A → B) (l : list A) :
  (∀ x y, R x y → Q (f x) (f y)) → StronglySorted R l → StronglySorted Q (f <$> l).
Proof.
  intros HRQ. induction 1 as [|x l Hs IH Hall]; cbn; constructor; [done|].
  apply Forall_fmap. eapply Forall_impl; [done|]. auto.
Qed.
Lemma strictly_sorted_group_ids (l : list ConflictGroupV1) :
  strictly_sorted_by group_id l = true → strictly_sorted l = true.
Proof.
  unfold strictly_sorted. rewrite !strictly_sorted_by_spec. rewrite <-(list_fmap_id l) at 2.
  apply StronglySorted_fmap_weaken.
  intros [i r] [j q]. unfold lt, cmp, ConflictGroupV1_ord, ord_on, cmp, prod_ord. cbn. by intros ->.
Qed.
Lemma core_groups_sorted problem literals :
  strictly_sorted_by as_id (assumptions problem) = true →
  strictly_sorted (core_groups problem literals) = true.
Proof.
  intros Hs. apply strictly_sorted_group_ids. rewrite strictly_sorted_by_spec in Hs. rewrite strictly_sorted_by_spec.
  unfold core_groups, core_assumptions.
  eapply (StronglySorted_fmap_weaken (λ x y, as_id x ≺ as_id y)); [done|].
  eapply StronglySorted_sublist; [apply sublist_filter|]. exact Hs.
Qed.
Lemma ord_sort_permutation {A} `{OrdLaws A} (l k : list A) :
  l ≡ₚ k → strictly_sorted k = true → ord_sort l = k.
Proof.
  intros Hp Hk. apply strictly_sorted_ext; [|done|intros x; by rewrite elem_of_ord_sort, Hp].
  assert (NoDup (ord_sort l)) as Hnd.
  { unfold ord_sort. rewrite sort_by_key_perm, Hp. by apply strictly_sorted_NoDup. }
  unfold strictly_sorted. rewrite strictly_sorted_by_spec. pose proof (sort_by_key_sorted (λ x, x) l) as Hs.
  change (sort_by_key (λ x, x) l) with (ord_sort l) in Hs. revert Hs Hnd.
  induction 1 as [|x xs Hs IH Hall]; [constructor|]. intros [Hx Hnd]%NoDup_cons. constructor; [auto|].
  rewrite Forall_forall in Hall |- *. intros y Hy. specialize (Hall y Hy).
  apply le_lt_eq in Hall as [|<-]; [done|]. done.
Qed.
Lemma core_group_valid limits a :
  assumption_ok limits a → max_refs_per_node limits ≤ MAX_VERIFICATION_RULES →
  ConflictGroupV1_validate (assumption_group a) = Ok tt.
Proof.
  intros [Hne Hs Hb] Hmax. unfold ConflictGroupV1_validate; cbn. rewrite bool_decide_false by done.
  unfold validate_bounded_strict. by rewrite (proj2 (Z.ltb_ge _ _)), Hs by lia.
Qed.
Lemma core_groups_start limits problem literals max b :
  Forall (assumption_ok limits) (assumptions problem) →
  max_refs_per_node limits ≤ MAX_VERIFICATION_RULES → strictly_sorted (core_groups problem literals) = true →
  core_groups problem literals ≠ [] → len (core_groups problem literals) ≤ MAX_EXPLANATION_RECORDS →
  ∃ s, ConflictShrinker_new (core_groups problem literals) max b = Ok s.
Proof.
  intros Hok Hrefs Hs Hne Hlen. eexists. unfold ConflictShrinker_new.
  rewrite (proj2 (validate_groups_Ok _)).
  2:{ split_and!; [done..|]. rewrite Forall_forall in Hok.
      apply Forall_fmap, Forall_forall. intros a [_ Ha]%list_elem_of_filter.
      exact (core_group_valid limits a (Hok a Ha) Hrefs). }
  cbn. unfold u32_try_from. rewrite (proj2 (Z.leb_le _ _)); [done|].
  unfold u32_max, MAX_EXPLANATION_RECORDS in *. lia.
Qed.
Lemma mapped_permutation problem literals mapped :
  NoDup ((λ a, lit_variable (as_literal a)) <$> assumptions problem) →
  NoDup (as_id <$> assumptions problem) → NoDup literals →
  Forall2 (mapped_to (assumptions_by_literal problem)) literals mapped →
  mapped ≡ₚ core_groups problem literals.
Proof.
  intros Hv Hid Hnd Hall. 
  assert (∃ l, mapped = assumption_group <$> l ∧ literals = as_literal <$> l ∧
            Forall (λ a, a ∈ assumptions problem) l) as (l & -> & -> & Hin).
  { induction Hall as [|x g xs gs (a & Ha & ->) Hall IH]; [by exists []|].
    apply NoDup_cons in Hnd as [_ Hnd]. destruct (IH Hnd) as (l & -> & -> & Hl).
    apply by_literal_Some in Ha as [Ha <-]; [|done]. exists (a :: l). by repeat constructor. }
  unfold core_groups. apply fmap_Permutation. apply NoDup_Permutation.
  - by apply NoDup_fmap_1 in Hnd.
  - apply NoDup_filter. by apply NoDup_fmap_1 in Hid.
  - intros a. unfold core_assumptions. rewrite list_elem_of_filter, list_elem_of_fmap.
    rewrite Forall_forall in Hin. split; [eauto|]. intros [(a' & Heq & Ha') Ha].
    replace a with a'; [done|]. apply literals_NoDup in Hv.
    destruct (proj1 (list_elem_of_lookup _ _) Ha) as [i Hi].
    destruct (proj1 (list_elem_of_lookup _ _) (Hin a' Ha')) as [j Hj].
    assert (i = j) as ->; [|congruence].
    eapply (NoDup_lookup _ _ _ (as_literal a) Hv); rewrite list_lookup_fmap, ?Hi, ?Hj; cbn; congruence.
Qed.

Lemma map_impl_plain blake3_hex problem literals limits :
  map_assumption_literals_impl blake3_hex problem literals limits None =
  match validate blake3_hex problem limits with
  | Err e => (Err (MapInvalidProblem e), None)
  | Ok _ =>
      if bool_decide (literals = []) then (Err MapEmpty, None)
      else if max_assumptions limits <? len literals then (Err MapLimitExceeded, None)
      else match fold_m (map_literal (assumptions_by_literal problem) (assumption_variables problem))
                   (list_to_set [], []) literals None with
           | (Ok (_, mapped), None) => (Ok (ord_sort mapped), None)
           | (Ok (_, mapped), Some b) => (map_charge (len mapped) ≫= λ _, mret (ord_sort mapped)) (Some b)
           | (Err e, s) => (Err e, s)
           end
  end.
Proof.
  unfold map_assumption_literals_impl. unfold mbind at 1, SE_bind at 1, map_validate.
  destruct (validate blake3_hex problem limits); cbn [map_err]; [|done].
  case_bool_decide; [done|]. destruct (_ <? _); [done|].
  change (list_to_set []) with (∅ : gset Literal). unfold mbind at 1, SE_bind at 1.
  match goal with |- context [fold_m ?f ?st literals] =>
    destruct (fold_m f st literals None) as [[[seen mapped]|e] [b|]] end; done.
Qed.

(** Mapping a returned core is total and says what it means: a success returns exactly the
    groups of the assumptions whose literal was returned, in canonical order, one for every literal,
    and the deletion pass starts on them; every refusal is the first of its reasons and is true. *)
Theorem mapped_core_characterized blake3_hex problem literals limits :
  typed_limits limits → max_refs_per_node limits ≤ MAX_VERIFICATION_RULES →
  max_assumptions limits ≤ MAX_EXPLANATION_RECORDS →
  match map_assumption_literals blake3_hex problem literals limits with
  | Ok groups =>
      validate blake3_hex problem limits = Ok tt ∧ NoDup literals ∧
      groups = assumption_group <$> filter (λ a, as_literal a ∈ literals) (assumptions problem) ∧
      length groups = length literals ∧
      (∀ max b, ∃ s, ConflictShrinker_new groups max b = Ok s)
  | Err (MapInvalidProblem e) => validate blake3_hex problem limits = Err e
  | Err (MapPreparation _) => False
  | Err MapEmpty => literals = []
  | Err MapLimitExceeded => max_assumptions limits < len literals
  | Err (MapDuplicateLiteral l) => l ∈ literals ∧ ¬ NoDup literals
  | Err (MapUnknownLiteral l) =>
      l ∈ literals ∧ ∀ a, a ∈ assumptions problem → lit_variable (as_literal a) ≠ lit_variable l
  | Err (MapWrongPolarity l) =>
      l ∈ literals ∧ ∃ a, a ∈ assumptions problem ∧
        as_literal a = {| lit_variable := lit_variable l; lit_positive := negb (lit_positive l) |}
  end.
Proof.
  intros Hl Hrefs Hass. unfold map_assumption_literals. rewrite map_impl_plain.
  destruct (validate blake3_hex problem limits) as [[]|e] eqn:Hval; [|done].
  pose proof (validate_admits blake3_hex problem limits Hl Hval) as Hadm.
  pose proof (adm_assumption_variables (problem := problem)) as Hv.
  pose proof (adm_assumptions_sorted (problem := problem)) as Hsort.
  case_bool_decide as Hne; [done|].
  destruct (Z.ltb_spec (max_assumptions limits) (len literals)) as [|Hlen]; [done|].
  pose proof (map_loop (assumptions_by_literal problem) (assumption_variables problem) literals [] []
    NoDup_nil_2 (Forall2_nil_2 _ _ _)) as Hloop. cbn [app] in Hloop.
  match type of Hloop with match ?run with _ => _ end => destruct run as [[[seen mapped]|[]] ctx] end;
    try done; cbn [fst].
  - destruct Hloop as (-> & Hnd & Hall). cbn [fst].
    pose proof (strictly_sorted_by_NoDup as_id _ Hsort) as Hids.
    pose proof (mapped_permutation problem literals mapped Hv Hids Hnd Hall) as Hperm.
    pose proof (core_groups_sorted problem literals Hsort) as Hcs.
    rewrite (ord_sort_permutation mapped _ Hperm Hcs).
    assert (length (core_groups problem literals) = length literals) as Hlg
      by (rewrite <-Hperm; symmetry; by eapply Forall2_length).
    split_and!; try done. intros max b. apply (core_groups_start limits); try done.
    + apply (adm_assumption_rules (problem := problem)).
    + intros Hnil. rewrite Hnil in Hlg. by destruct literals.
    + unfold len in *. lia.
  - destruct Hloop as (Hin & Hno & Hvar). split; [done|]. intros a Ha Heq.
    apply Hvar, elem_assumption_variables. eauto.
  - destruct Hloop as (Hin & Hno & (a & Ha & Heq)%elem_assumption_variables). split; [done|].
    exists a. split; [done|]. rewrite by_literal_None in Hno by done. specialize (Hno a Ha).
    destruct (as_literal a) as [v p], literal as [v' p']. cbn in *. subst v. by destruct p, p'.
Qed.

(** ** The budgeted entry point *)
Lemma neutral_map_charge n : neutral (map_charge n).
Proof.
  intros s b Hs. destruct (neutral_charge n s b Hs) as (b' & Hb & Hsh). exists b'. unfold map_charge.
  by destruct (charge n s) as [[]].
Qed.
Lemma neutral_mprep {A} (m : Prep A) : neutral m → neutral (mprep m).
Proof.
  intros Hm s b Hs. destruct (Hm s b Hs) as (b' & Hb & Hsh). exists b'. unfold mprep.
  by destruct (m s) as [[]].
Qed.
Lemma erases_map_charge n : erases eq (map_charge n) (map_charge n).
Proof.
  intros b a s Hm. unfold map_charge in *. destruct (charge n (Some b)) as [[a1|e] s1] eqn:Hc; [|done].
  destruct (erases_charge n b a1 s1 Hc) as (Hs & a' & Hn & <-). rewrite Hn. injection Hm as <- <-.
  split; [done|]. by exists a1.
Qed.
#[local] Hint Resolve neutral_map_charge neutral_mprep : accounting.

Section budgeted.
Context (blake3_hex : list Z → string) (serialize_problem : PlanningProblem → Encoding).
Context (problem : PlanningProblem) (literals : list Literal) (limits : PlanningIrLimitsV1).

Lemma neutral_map_validate : neutral (map_validate blake3_hex problem limits).
Proof.
  intros s b Hs. change (s = Some b) in Hs. subst s. unfold map_validate.
  destruct (moves_validate_with_budget blake3_hex problem limits b b eq_refl) as (b' & Hb & Hsh).
  destruct (validate_with_budget _ _ _ _) as [[[m a]|e] b1]; injection Hb as ->; cbn in *; [|by exists b'].
  eexists; split; [done|]. apply (shifted_retire (held (bca_reservation a))) in Hsh.
  by rewrite Z.sub_diag in Hsh.
Qed.
Lemma neutral_map_impl : neutral (map_assumption_literals_impl blake3_hex problem literals limits).
Proof.
  unfold map_assumption_literals_impl. apply neutral_bind; [apply neutral_map_validate|]. intros _.
  unfold map_literal. settle.
Qed.
Lemma erases_map_validate :
  erases eq (map_validate blake3_hex problem limits) (map_validate blake3_hex problem limits).
Proof.
  intros b [] s. unfold map_validate.
  destruct (validate_with_budget _ _ _ _) as [[[m a]|e] b1] eqn:Hv; [|done]. intros [= <-].
  split; [eauto|]. exists tt. split; [|done].
  apply validate_with_budget_Ok in Hv as (refs & total_refs & Hcore & -> & Ha & Hf).
  unfold validate, validate_outcome. rewrite Hcore. cbn. by rewrite <-Ha, Hf.
Qed.
Lemma erases_map_impl :
  erases eq (map_assumption_literals_impl blake3_hex problem literals limits)
    (map_assumption_literals_impl blake3_hex problem literals limits).
Proof.
  unfold map_assumption_literals_impl. apply erases_bind_eq; [apply erases_map_validate|]. intros _.
  case_bool_decide; [apply erases_fail|]. destruct (_ <? _); [apply erases_fail|].
  apply erases_bind_eq; [|intros [seen mapped]].
  - apply erases_fold_m. intros [seen mapped] l. unfold map_literal.
    apply erases_bind_eq; [apply erases_map_charge|]. intros _.
    case_decide; [apply erases_fail|]. destruct (_ !! _); [by apply erases_ret|].
    case_decide; apply erases_fail.
  - apply erases_bind_eq; [apply erases_map_charge|]. intros _. by apply erases_ret.
Qed.

(** What the budgeted entry point leaves behind, started on [b]. *)
Definition mapping_outcome (b : PlanningPreparationBudget)
    (out : Result AssumptionMappingError MappedAssumptionGroups * PlanningPreparationBudget) : Prop :=
  match out with
  | (Ok mapped, b') =>
      map_assumption_literals blake3_hex problem literals limits = Ok (mg_groups mapped) ∧
      transient_bytes b' = transient_bytes b + mg_transient_bytes mapped ∧
      (MappedAssumptionGroups_release mapped b').1 = Ok tt ∧
      shifted 0 b (MappedAssumptionGroups_release mapped b').2
  | (Err _, b') => shifted 0 b b'
  end.
Lemma outcome_bind {A} b b0 (m : SE _ AssumptionMappingError A) k :
  neutral m → shifted 0 b b0 → (∀ a b1, shifted 0 b b1 → mapping_outcome b (k a b1)) →
  mapping_outcome b ((m ≫= k) b0).
Proof.
  intros Hm Hb0 Hk. destruct (Hm b0 b0 eq_refl) as (b1 & Hb1 & Hsh). unfold mbind, SE_bind.
  destruct (m b0) as [[a|e] b2]; injection Hb1 as ->; cbn in Hsh;
    pose proof (shifted_trans _ _ _ _ _ Hb0 Hsh) as Hsh2; [by apply Hk|done].
Qed.
Lemma release_loaded t b b1 b2 :
  is_u64 (raw_transient_bytes b) → is_u64 (transient_bytes b) →
  transient_bytes b1 = transient_bytes b + t → raw_transient_bytes b1 = raw_transient_bytes b + t →
  counter_id b1 = counter_id b → shifted 0 b1 b2 →
  ∃ b3, release_transient t b2 = (Ok tt, b3) ∧ shifted 0 b b3.
Proof.
  intros Hr Hl H1 H2 H3 [H4 H5 H6]. unfold release_transient, u64_checked_sub.
  rewrite (proj2 (checked_u64_Some _ (raw_transient_bytes b))) by (unfold is_u64 in *; lia).
  rewrite (proj2 (checked_u64_Some _ (transient_bytes b))) by (unfold is_u64 in *; lia).
  eexists; split; [done|]. split; cbn; [lia|done|congruence].
Qed.
Lemma owning_outcome t b b0 :
  is_u64 (raw_transient_bytes b) → is_u64 (transient_bytes b) → shifted 0 b b0 →
  mapping_outcome b
    ((mprep (reserve_transient t) ≫= λ _, map_owning blake3_hex t problem literals limits) b0).
Proof.
  intros Hr Hl [H4 H5 H6]. unfold mbind, SE_bind, mprep.
  destruct (reserve_transient_cases t b0) as [[-> _]|[e ->]]; cbn [map_err].
  2:{ split; cbn; [lia|done..]. }
  set (b1 := set_transient _ _ _ _). unfold map_owning.
  destruct (neutral_map_impl (Some b1) b1 eq_refl) as (b2 & Hb2 & Hsh).
  destruct (release_loaded t b b1 b2) as (b3 & Hrel & Hsh3); [done|done|cbn; lia|cbn; lia|done| |].
  { by destruct (map_assumption_literals_impl blake3_hex problem literals limits (Some b1)) as [[]]. }
  destruct (map_assumption_literals_impl blake3_hex problem literals limits (Some b1)) as [[groups|e] s] eqn:Hrun;
    cbn in Hb2; change (s = Some b2) in Hb2; subst s; cbn.
  - unfold MappedAssumptionGroups_release; cbn. rewrite Hrel; cbn. split_and!; [|destruct Hsh; cbn in *; lia|done..].
    destruct (erases_map_impl b1 groups _ Hrun) as (_ & ? & Hn & <-).
    unfold map_assumption_literals. by rewrite Hn.
  - by rewrite Hrel.
Qed.
End budgeted.

(** The budgeted mapping agrees with the plain one and balances its reservation: in every
    environment of cancellations and deadlines, a success returns the groups the plain mapping
    returns and holds exactly the bytes it declares, which its release gives back; a failure,
    wherever it happens, leaves the live and the raw bytes as they were. *)
Theorem budgeted_mapping_balanced blake3_hex serialize_problem problem literals limits b :
  is_u64 (raw_transient_bytes b) → is_u64 (transient_bytes b) →
  match map_assumption_literals_with_budget blake3_hex serialize_problem problem literals limits b with
  | (Ok mapped, b') =>
      map_assumption_literals blake3_hex problem literals limits = Ok (mg_groups mapped) ∧
      transient_bytes b' = transient_bytes b + mg_transient_bytes mapped ∧
      (MappedAssumptionGroups_release mapped b').1 = Ok tt ∧
      shifted 0 b (MappedAssumptionGroups_release mapped b').2
  | (Err _, b') => shifted 0 b b'
  end.
Proof.
  intros Hr Hl. change (mapping_outcome blake3_hex problem literals limits b
    (map_assumption_literals_with_budget blake3_hex serialize_problem problem literals limits b)).
  unfold map_assumption_literals_with_budget, or_overflow.
  apply outcome_bind; [auto with accounting|apply shifted_refl|]. intros ? b1 H1.
  do 4 (apply outcome_bind; [auto with accounting|eassumption|]; intros ? ? ?).
  apply outcome_bind; [auto with accounting|eassumption|]. intros ? ? ?.
  by apply owning_outcome.
Qed.
