(* ===== verification/Protocol.v ===== *)
(** * Solver-worker protocol: faults and the checked-in policy

    Models [crates/eutheto-protocol/src/fault.rs] and [limits.rs], with the value of the document
    [protocol/version.json] that the crate embeds.  The text of a policy or descriptor message is
    represented by the reason it states; JSON decoding is a parameter of [ProtocolPolicy_parse].  A
    [usize] is a 64-bit unsigned integer, a byte slice a list of bytes in [0 .. 255]. *)
From stdpp Require Import base tactics list gmap strings.
From Stdlib Require Import ZArith Lia Ascii.
From S2P Require Import Prelude Ordering.
Open Scope string_scope.
Open Scope list_scope.
Open Scope Z_scope.

(** ** Faults *)
Inductive PolicyReason :=
| PolicyJson (error : string) | PolicyHash | PolicyIdentity | PolicyMajors | PolicyMajorsUnique
| PolicyFraming | PolicyCap (class : string) | PolicyRoutes (class : string) | PolicyZeroLimit
| PolicyFieldLimit (field : string) | PolicyUnqualified (name : string)
| PolicyUnknownMessage (name : string) | PolicyUnknownField (name : string)
| PolicyCountNotRepeated (name : string) | PolicyBytesNotBytes (name : string).
Inductive DescriptorReason :=
| DescMalformed (error : string) | DescEmpty | DescMissingName (kind : string)
| DescRange (message : string) | DescOverlap (message : string)
| DescNumber (field : string) | DescLabel (field : string) | DescType (field : string)
| DescOneof (field : string) | DescDuplicateMessage (message : string) | DescEnum (name : string)
| DescNoTypeName (field : string) | DescUnknownType (field : string) (target : string)
| DescUnknownMessage (message : string).
Inductive FrameFault :=
| TruncatedPrefix (received : Z)
| ZeroLength
| Oversized (class : string) (length cap : Z)
| WrongClass (class : string)
| TruncatedPayload (declared received : Z)
| LengthOverflow
| Allocation
| EmptyEncoding
| StreamingRequired
| Encode (error : string)
| SchemaDrift.
Inductive WireViolation :=
| MalformedTag | MalformedVarint | NonCanonicalVarint | InvalidFieldNumber
| InvalidWireType (wire_type : Z)
| ReservedField (number : Z)
| WrongWireType (field : string) (actual : Z) (expected : Z) (or_packed : bool)
| DuplicateSingular (field : string)
| ConflictingOneof (oneof first second : string)
| WireLengthOverflow | TruncatedLength | TruncatedFixed
| NestingDepth (cap : Z)
| RepeatedCount (field : string) (cap : Z)
| FieldBytes (field : string) (length cap : Z)
| InvalidBool (field : string) (value : Z)
| IntegerRange (field : string) (value : Z)
| InvalidUtf8 (field : string)
| Group.
Record WireFault := { wf_message : string; wf_offset : Z; wf_violation : WireViolation }.
Inductive StateFault :=
| UnexpectedParent (state message : string)
| UnexpectedWorker (state message : string)
| MissingWorkerBody
| MissingParentBody
| InvalidCapability
| DuplicateCapability (value : Z)
| CapabilityDisabled (value : Z)
| InvalidHandshake (field : string)
| ModelFingerprint
| InvalidSolveRequest (field : string)
| ProtocolVersionFault (expected_major expected_minor actual_major actual_minor : Z)
| InvalidVersion (field : string)
| VersionMismatch (field : string)
| BackendIdentity
| ManifestSha256
| MissingCapability (value : Z)
| UnnegotiatedCapability (field : string) (capability : Z)
| RequestId
| InvalidWorkerField (field : string)
| DuplicateProjection (id : Z)
| UnrequestedProjection (id : Z)
| MissingProjection (id : Z)
| MissingTerminal
| ContradictoryExit (code : Z)
| ExitBeforeEof
| DuplicateExit
| CompletionUnavailable (state : string)
| StderrLimit.
Inductive IoErrorKind := Interrupted | OtherIo (kind : string).
Inductive ProtocolFault :=
| FPolicy (reason : PolicyReason)
| FDescriptor (reason : DescriptorReason)
| FFrame (fault : FrameFault)
| FWire (fault : WireFault)
| FDecode (message reason : string)
| FState (fault : StateFault)
| FIo (operation : string) (kind : IoErrorKind).
Notation PR := (Result ProtocolFault).
Definition policy_err {A} (reason : PolicyReason) : PR A := Err (FPolicy reason).
Definition descriptor_err {A} (reason : DescriptorReason) : PR A := Err (FDescriptor reason).
Definition frame_err {A} (fault : FrameFault) : PR A := Err (FFrame fault).
Definition state_err {A} (fault : StateFault) : PR A := Err (FState fault).

(** [Result::map] *)
Definition map_ok {E A B} (f : A → B) (m : Result E A) : Result E B :=
  match m with Ok a => Ok (f a) | Err e => Err e end.

(** ** Bytes and strings *)
Definition as_bytes (s : string) : list Z := Z.of_N <$> string_bytes s.
Definition str_len (s : string) : Z := Z.of_nat (String.length s).
Definition is_byte (b : Z) : Prop := 0 ≤ b < 256.

(** ** The policy *)
Inductive FrameClass := Handshake | SolveRequestClass | WorkerEvent.
#[global] Instance FrameClass_eq_dec : EqDecision FrameClass.
Proof. solve_decision. Defined.
Definition policy_name (class : FrameClass) : string :=
  match class with
  | Handshake => "handshake"
  | SolveRequestClass => "solve_request"
  | WorkerEvent => "worker_event"
  end.

Definition SUFFICIENT_ASSUMPTIONS_ENABLED : bool := true.
Definition MAX_ORTOOLS_WORKER_THREADS : Z := 10000.
Definition APPLIED_PARAMETERS_HASH_ALGORITHM : string := "sha256".
Definition APPLIED_PARAMETERS_DOMAIN : list Z := as_bytes "eutheto.applied-solve-parameters.v1" ++ [0].
Definition PROTOCOL_IDENTITY : string := "eutheto.solver-worker".
Definition PROTOCOL_PACKAGE : string := "eutheto.worker.v1".
Definition UNKNOWN_MAJOR_ACTION : string := "typed_handshake_error_then_close".
Definition HANDSHAKE_ROUTES : list string :=
  ["ParentFrame.handshake_request"; "WorkerFrame.handshake_response"].
Definition SOLVE_REQUEST_ROUTES : list string := ["ParentFrame.solve_request"].
Definition WORKER_EVENT_ROUTES : list string :=
  ["WorkerFrame.started"; "WorkerFrame.progress"; "WorkerFrame.incumbent"; "WorkerFrame.finished";
   "WorkerFrame.error"].

Record AppliedParametersHashPolicy := { algorithm : string; domain_separator : string }.
Record ProtocolVersion := { major : Z; minor : Z }.
Record CompatibilityPolicy := { accepted_protocol_majors : list Z; unknown_major_action : string }.
Record FrameClassPolicy := { max_payload_bytes : Z; routes : list string }.
Record FrameClasses := {
  handshake : FrameClassPolicy; solve_request : FrameClassPolicy; worker_event : FrameClassPolicy }.
Record GlobalLimits := {
  gl_max_nesting_depth : Z;
  gl_max_repeated_field_items : Z;
  gl_max_worker_threads : Z;
  gl_max_string_bytes : Z;
  gl_total_session_bytes : Z;
  gl_frames_per_session : Z;
  gl_events_per_session : Z;
  gl_events_per_second : Z;
  gl_max_stderr_bytes : Z
}.
Record FramingPolicy := {
  fp_length_prefix_bytes : Z; fp_length_prefix_order : string; fp_min_payload_bytes : Z }.
Record FieldLimit := { max_bytes : option Z; max_count : option Z }.
Record ProtocolPolicy := {
  applied_parameters_hash : AppliedParametersHashPolicy;
  protocol : string;
  compatibility : CompatibilityPolicy;
  package : string;
  version : ProtocolVersion;
  frame_classes : FrameClasses;
  framing : FramingPolicy;
  limits : GlobalLimits;
  field_limits : gmap string FieldLimit
}.

Definition protocol_major (p : ProtocolPolicy) : Z := major (version p).
Definition protocol_minor (p : ProtocolPolicy) : Z := minor (version p).
Definition accepts_protocol_major (p : ProtocolPolicy) (m : Z) : bool :=
  bool_decide (m ∈ accepted_protocol_majors (compatibility p)).
Definition max_nesting_depth (p : ProtocolPolicy) : Z := gl_max_nesting_depth (limits p).
Definition max_repeated_field_items (p : ProtocolPolicy) : Z := gl_max_repeated_field_items (limits p).
Definition max_worker_threads (p : ProtocolPolicy) : Z := gl_max_worker_threads (limits p).
Definition max_string_bytes (p : ProtocolPolicy) : Z := gl_max_string_bytes (limits p).
Definition total_session_bytes (p : ProtocolPolicy) : Z := gl_total_session_bytes (limits p).
Definition frames_per_session (p : ProtocolPolicy) : Z := gl_frames_per_session (limits p).
Definition events_per_session (p : ProtocolPolicy) : Z := gl_events_per_session (limits p).
Definition events_per_second (p : ProtocolPolicy) : Z := gl_events_per_second (limits p).
Definition max_stderr_bytes (p : ProtocolPolicy) : Z := gl_max_stderr_bytes (limits p).
Definition length_prefix_bytes (p : ProtocolPolicy) : Z := fp_length_prefix_bytes (framing p).
Definition length_prefix_order (p : ProtocolPolicy) : string := fp_length_prefix_order (framing p).
Definition min_payload_bytes (p : ProtocolPolicy) : Z := fp_min_payload_bytes (framing p).
Definition frame (p : ProtocolPolicy) (class : FrameClass) : FrameClassPolicy :=
  match class with
  | Handshake => handshake (frame_classes p)
  | SolveRequestClass => solve_request (frame_classes p)
  | WorkerEvent => worker_event (frame_classes p)
  end.
Definition frame_cap (p : ProtocolPolicy) (class : FrameClass) : Z := max_payload_bytes (frame p class).
Definition field_limit (p : ProtocolPolicy) (name : string) : FieldLimit :=
  default {| max_bytes := None; max_count := None |} (field_limits p !! name).
(** The iteration order of a [BTreeMap]. *)
Definition field_limits_iter (p : ProtocolPolicy) : list (string * FieldLimit) :=
  sort_by_key fst (map_to_list (field_limits p)).

Definition validate_frame_class (name : string) (class : FrameClassPolicy) (expected : list string) :
    PR unit :=
  if max_payload_bytes class =? 0 then policy_err (PolicyCap name)
  else if negb (len (routes class) =? len expected)
          || negb (bool_decide (btree_set (routes class) = btree_set expected))
  then policy_err (PolicyRoutes name)
  else Ok tt.
(** Whether some accepted major is zero or occurs twice. *)
Fixpoint zero_or_repeated (seen : gset Z) (l : list Z) : bool :=
  match l with
  | [] => false
  | m :: l => (m =? 0) || bool_decide (m ∈ seen) || zero_or_repeated ({[ m ]} ∪ seen) l
  end.
Definition validate_field_limit (entry : string * FieldLimit) : PR unit :=
  let '(field, limit) := entry in
  if bool_decide (field = "") || bool_decide (max_bytes limit = Some 0)
     || bool_decide (max_count limit = Some 0)
     || (bool_decide (max_bytes limit = None) && bool_decide (max_count limit = None))
  then policy_err (PolicyFieldLimit field)
  else Ok tt.
Definition ProtocolPolicy_validate (self : ProtocolPolicy) : PR unit :=
  if negb (bool_decide (algorithm (applied_parameters_hash self) = APPLIED_PARAMETERS_HASH_ALGORITHM))
     || negb (bool_decide (as_bytes (domain_separator (applied_parameters_hash self))
                           = APPLIED_PARAMETERS_DOMAIN))
  then policy_err PolicyHash
  else if negb (bool_decide (package self = PROTOCOL_PACKAGE))
          || negb (bool_decide (protocol self = PROTOCOL_IDENTITY))
  then policy_err PolicyIdentity
  else if bool_decide (accepted_protocol_majors (compatibility self) = [])
          || negb (bool_decide (major (version self) ∈ accepted_protocol_majors (compatibility self)))
          || negb (bool_decide (unknown_major_action (compatibility self) = UNKNOWN_MAJOR_ACTION))
  then policy_err PolicyMajors
  else if zero_or_repeated ∅ (accepted_protocol_majors (compatibility self))
  then policy_err PolicyMajorsUnique
  else if negb (fp_length_prefix_bytes (framing self) =? 4)
          || negb (bool_decide (fp_length_prefix_order (framing self) = "big-endian"))
          || negb (fp_min_payload_bytes (framing self) =? 1)
  then policy_err PolicyFraming
  else
    _ ← validate_frame_class "handshake" (handshake (frame_classes self)) HANDSHAKE_ROUTES;
    _ ← validate_frame_class "solve_request" (solve_request (frame_classes self)) SOLVE_REQUEST_ROUTES;
    _ ← validate_frame_class "worker_event" (worker_event (frame_classes self)) WORKER_EVENT_ROUTES;
    let limits := limits self in
    if (gl_max_nesting_depth limits =? 0) || (gl_max_repeated_field_items limits =? 0)
       || (gl_max_string_bytes limits =? 0) || (gl_total_session_bytes limits =? 0)
       || (gl_frames_per_session limits =? 0) || (gl_events_per_session limits =? 0)
       || (gl_events_per_second limits =? 0) || (gl_max_stderr_bytes limits =? 0)
       || negb (gl_max_worker_threads limits =? MAX_ORTOOLS_WORKER_THREADS)
    then policy_err PolicyZeroLimit
    else for_each validate_field_limit (field_limits_iter self).
Definition ProtocolPolicy_parse (from_str : string → Result string ProtocolPolicy) (source : string) :
    PR ProtocolPolicy :=
  policy ← map_err (λ e, FPolicy (PolicyJson e)) (from_str source);
  _ ← ProtocolPolicy_validate policy;
  Ok policy.

(** ** The embedded document *)
Definition bytes_limit (n : Z) : FieldLimit := {| max_bytes := Some n; max_count := None |}.
Definition count_limit (n : Z) : FieldLimit := {| max_bytes := None; max_count := Some n |}.
Definition POLICY_FIELD_LIMITS : list (string * FieldLimit) := [
  ("eutheto.worker.v1.Finished.applied_parameters_sha256", bytes_limit 32);
  ("eutheto.worker.v1.Finished.best_bound_values", count_limit 64);
  ("eutheto.worker.v1.Finished.model_fingerprint", bytes_limit 32);
  ("eutheto.worker.v1.Finished.objective_values", count_limit 64);
  ("eutheto.worker.v1.Finished.request_id", bytes_limit 64);
  ("eutheto.worker.v1.Finished.sufficient_assumptions", count_limit 100000);
  ("eutheto.worker.v1.HandshakeError.message", bytes_limit 512);
  ("eutheto.worker.v1.HandshakeRequest.core_version", bytes_limit 64);
  ("eutheto.worker.v1.HandshakeRequest.expected_backend_id", bytes_limit 128);
  ("eutheto.worker.v1.HandshakeRequest.expected_manifest_sha256", bytes_limit 32);
  ("eutheto.worker.v1.HandshakeRequest.required_capabilities", count_limit 64);
  ("eutheto.worker.v1.HandshakeSuccess.adapter_version", bytes_limit 64);
  ("eutheto.worker.v1.HandshakeSuccess.backend_id", bytes_limit 128);
  ("eutheto.worker.v1.HandshakeSuccess.capabilities", count_limit 64);
  ("eutheto.worker.v1.HandshakeSuccess.manifest_sha256", bytes_limit 32);
  ("eutheto.worker.v1.HandshakeSuccess.ortools_version", bytes_limit 64);
  ("eutheto.worker.v1.HandshakeSuccess.worker_identity", bytes_limit 256);
  ("eutheto.worker.v1.HandshakeSuccess.worker_version", bytes_limit 64);
  ("eutheto.worker.v1.Incumbent.best_bound_values", count_limit 64);
  ("eutheto.worker.v1.Incumbent.objective_values", count_limit 64);
  ("eutheto.worker.v1.Incumbent.request_id", bytes_limit 64);
  ("eutheto.worker.v1.Progress.best_bound_values", count_limit 64);
  ("eutheto.worker.v1.Progress.objective_values", count_limit 64);
  ("eutheto.worker.v1.Progress.request_id", bytes_limit 64);
  ("eutheto.worker.v1.ProjectedCandidate.values", count_limit 100000);
  ("eutheto.worker.v1.SolveRequest.cp_model_proto", bytes_limit 267386880);
  ("eutheto.worker.v1.SolveRequest.model_fingerprint", bytes_limit 32);
  ("eutheto.worker.v1.SolveRequest.projections", count_limit 100000);
  ("eutheto.worker.v1.SolveRequest.request_id", bytes_limit 64);
  ("eutheto.worker.v1.Started.model_fingerprint", bytes_limit 32);
  ("eutheto.worker.v1.Started.request_id", bytes_limit 64);
  ("eutheto.worker.v1.WorkerError.message", bytes_limit 512);
  ("eutheto.worker.v1.WorkerError.request_id", bytes_limit 64)].
(** A NUL ends the domain separator, which a string literal cannot spell. *)
Definition POLICY_JSON_VALUE : ProtocolPolicy := {|
  applied_parameters_hash :=
    {| algorithm := "sha256";
       domain_separator := String.append "eutheto.applied-solve-parameters.v1" (String zero EmptyString) |};
  protocol := "eutheto.solver-worker";
  compatibility :=
    {| accepted_protocol_majors := [1]; unknown_major_action := "typed_handshake_error_then_close" |};
  package := "eutheto.worker.v1";
  version := {| major := 1; minor := 1 |};
  frame_classes := {|
    handshake := {| max_payload_bytes := 1048576; routes := HANDSHAKE_ROUTES |};
    solve_request := {| max_payload_bytes := 268435456; routes := SOLVE_REQUEST_ROUTES |};
    worker_event := {| max_payload_bytes := 16777216; routes := WORKER_EVENT_ROUTES |} |};
  framing := {| fp_length_prefix_bytes := 4; fp_length_prefix_order := "big-endian";
                fp_min_payload_bytes := 1 |};
  limits := {|
    gl_max_nesting_depth := 8; gl_max_repeated_field_items := 100000; gl_max_worker_threads := 10000;
    gl_max_string_bytes := 4096; gl_total_session_bytes := 536870912; gl_frames_per_session := 4099;
    gl_events_per_session := 4096; gl_events_per_second := 64; gl_max_stderr_bytes := 4194304 |};
  field_limits := list_to_map POLICY_FIELD_LIMITS
|}.
Definition checked_in_policy : PR ProtocolPolicy :=
  ProtocolPolicy_parse (λ _, Ok POLICY_JSON_VALUE) EmptyString.

(** The embedded document is a valid policy, so the fault of [checked_in_policy] never occurs. *)
Lemma checked_in_policy_valid : checked_in_policy = Ok POLICY_JSON_VALUE.
Proof. vm_compute. reflexivity. Qed.

(** * Messages of the wire

    The message structs and enumerations of [crates/eutheto-protocol/src/generated/eutheto.worker.v1.rs].
    A [double] is its 64-bit pattern; an enumeration field is the [i32] the wire carries, with the
    [TryFrom] of the generated enumeration. *)
(** ** Enumerations *)
Inductive Capability :=
| CapUnspecified | CapCpSat | CapIntermediateSolutions | CapProgress | CapSolutionProjection
| CapObjectiveBounds | CapSolutionStats | CapSufficientAssumptions | CapDeterministicTime.
Definition Capability_code (c : Capability) : Z :=
  match c with
  | CapUnspecified => 0 | CapCpSat => 1 | CapIntermediateSolutions => 2 | CapProgress => 3
  | CapSolutionProjection => 4 | CapObjectiveBounds => 5 | CapSolutionStats => 6
  | CapSufficientAssumptions => 7 | CapDeterministicTime => 8
  end.
Definition Capability_try_from (value : Z) : option Capability :=
  match value with
  | 0 => Some CapUnspecified | 1 => Some CapCpSat | 2 => Some CapIntermediateSolutions
  | 3 => Some CapProgress | 4 => Some CapSolutionProjection | 5 => Some CapObjectiveBounds
  | 6 => Some CapSolutionStats | 7 => Some CapSufficientAssumptions | 8 => Some CapDeterministicTime
  | _ => None
  end.
Inductive HandshakeErrorCode :=
| HecUnspecified | UnsupportedProtocolMajor | UnsupportedProtocolMinor | UnexpectedBackend
| HecMissingCapability | HecInvalidVersion | ManifestMismatch.
Definition HandshakeErrorCode_try_from (value : Z) : option HandshakeErrorCode :=
  match value with
  | 0 => Some HecUnspecified | 1 => Some UnsupportedProtocolMajor | 2 => Some UnsupportedProtocolMinor
  | 3 => Some UnexpectedBackend | 4 => Some HecMissingCapability | 5 => Some HecInvalidVersion
  | 6 => Some ManifestMismatch
  | _ => None
  end.
Inductive ProgressKind := PkUnspecified | Presolve | Search | BoundImproved.
Definition ProgressKind_try_from (value : Z) : option ProgressKind :=
  match value with
  | 0 => Some PkUnspecified | 1 => Some Presolve | 2 => Some Search | 3 => Some BoundImproved
  | _ => None
  end.
Inductive WorkerSolveStatus :=
| WsUnspecified | WsOptimal | WsFeasible | WsInfeasible | WsNoSolution | WsInvalidModel | WsCancelled
| WsFailed.
#[global] Instance WorkerSolveStatus_eq_dec : EqDecision WorkerSolveStatus.
Proof. solve_decision. Defined.
Definition WorkerSolveStatus_try_from (value : Z) : option WorkerSolveStatus :=
  match value with
  | 0 => Some WsUnspecified | 1 => Some WsOptimal | 2 => Some WsFeasible | 3 => Some WsInfeasible
  | 4 => Some WsNoSolution | 5 => Some WsInvalidModel | 6 => Some WsCancelled | 7 => Some WsFailed
  | _ => None
  end.
Inductive TerminationReason :=
| TrUnspecified | TrOptimal | TrInfeasible | TrTimeLimit | TrSolutionLimit | TrMemoryLimit | TrCancelled
| TrInvalidModel | TrInternalError | TrUnknown.
#[global] Instance TerminationReason_eq_dec : EqDecision TerminationReason.
Proof. solve_decision. Defined.
Definition TerminationReason_try_from (value : Z) : option TerminationReason :=
  match value with
  | 0 => Some TrUnspecified | 1 => Some TrOptimal | 2 => Some TrInfeasible | 3 => Some TrTimeLimit
  | 4 => Some TrSolutionLimit | 5 => Some TrMemoryLimit | 6 => Some TrCancelled
  | 7 => Some TrInvalidModel | 8 => Some TrInternalError | 9 => Some TrUnknown
  | _ => None
  end.
Inductive WorkerErrorCode :=
| WecUnspecified | MalformedFrame | ProtocolViolation | UnsupportedModel | WecInvalidModel
| InvalidParameters | ResourceLimit | OrtoolsInitialization | WecInternal.
Definition WorkerErrorCode_try_from (value : Z) : option WorkerErrorCode :=
  match value with
  | 0 => Some WecUnspecified | 1 => Some MalformedFrame | 2 => Some ProtocolViolation
  | 3 => Some UnsupportedModel | 4 => Some WecInvalidModel | 5 => Some InvalidParameters
  | 6 => Some ResourceLimit | 7 => Some OrtoolsInitialization | 8 => Some WecInternal
  | _ => None
  end.

(** ** Parent messages *)
Record HandshakeRequest := {
  hq_protocol_major : Z;
  hq_protocol_minor : Z;
  hq_core_version : string;
  hq_expected_backend_id : string;
  hq_required_capabilities : list Z;
  hq_expected_manifest_sha256 : list Z
}.
Record SolveParameters := {
  pm_random_seed : option Z;
  pm_stop_after_first_feasible : option bool;
  pm_emit_intermediate_solutions : option bool;
  pm_log_search_progress : option bool;
  pm_deterministic_test_profile : option bool
}.
Record ProjectionRequest := { pq_projection_id : Z; pq_cp_sat_variable_index : Z }.
Record ResourceLimits := {
  rl_wall_time_millis : Z; rl_memory_bytes : option Z; rl_worker_threads : Z }.
Record SolveRequest := {
  sq_request_id : string;
  sq_cp_model_proto : list Z;
  sq_parameters : option SolveParameters;
  sq_projections : list ProjectionRequest;
  sq_resource_limits : option ResourceLimits;
  sq_model_fingerprint : list Z
}.
Inductive ParentBody :=
| ParentHandshakeRequest (handshake : HandshakeRequest)
| ParentSolveRequest (solve : SolveRequest).
Record ParentFrame := { parent_body : option ParentBody }.

(** ** Worker messages *)
Record HandshakeSuccess := {
  hs_protocol_major : Z;
  hs_protocol_minor : Z;
  hs_worker_identity : string;
  hs_worker_version : string;
  hs_backend_id : string;
  hs_ortools_version : string;
  hs_adapter_version : string;
  hs_manifest_sha256 : list Z;
  hs_capabilities : list Z
}.
Record HandshakeError := {
  he_code : Z;
  he_message : string;
  he_supported_protocol_major : option Z;
  he_supported_protocol_minor : option Z
}.
Inductive Outcome := Success (success : HandshakeSuccess) | OutcomeError (error : HandshakeError).
Record HandshakeResponse := { outcome : option Outcome }.
Record Started := { sd_request_id : string; sd_model_fingerprint : list Z }.
Record Progress := {
  pg_request_id : string;
  pg_kind : Z;
  pg_objective_values : list Z;
  pg_best_bound_values : list Z;
  pg_wall_time_seconds : option Z;
  pg_deterministic_time : option Z
}.
Record ProjectedValue := { pv_projection_id : Z; pv_value : Z }.
Record ProjectedCandidate := { values : list ProjectedValue }.
Record Incumbent := {
  ic_request_id : string;
  ic_candidate : option ProjectedCandidate;
  ic_objective_values : list Z;
  ic_best_bound_values : list Z;
  ic_wall_time_seconds : option Z;
  ic_deterministic_time : option Z
}.
Record Finished := {
  fn_request_id : string;
  fn_raw_cp_sat_status : Z;
  fn_status : Z;
  fn_termination_reason : Z;
  fn_final_candidate : option ProjectedCandidate;
  fn_objective_values : list Z;
  fn_best_bound_values : list Z;
  fn_wall_time_seconds : option Z;
  fn_user_time_seconds : option Z;
  fn_deterministic_time : option Z;
  fn_conflicts : option Z;
  fn_branches : option Z;
  fn_binary_propagations : option Z;
  fn_integer_propagations : option Z;
  fn_sufficient_assumptions : list Z;
  fn_applied_parameters_sha256 : list Z;
  fn_model_fingerprint : list Z
}.
Record WorkerError := { we_request_id : string; we_code : Z; we_message : string; we_retryable : bool }.
Inductive WorkerBody :=
| WorkerHandshakeResponse (response : HandshakeResponse)
| WorkerStarted (started : Started)
| WorkerProgress (progress : Progress)
| WorkerIncumbent (incumbent : Incumbent)
| WorkerFinished (finished : Finished)
| WorkerErrorBody (error : WorkerError).
Record WorkerFrame := { worker_body : option WorkerBody }.

(** * UTF-8

    What the protocol uses of [core::str]: the chunks [utf8_chunks] splits a byte slice into,
    [from_utf8], [chars], [encode_utf8] and character boundaries.  A character is its scalar value. *)
Definition in_range (lo hi b : Z) : bool := (lo <=? b) && (b <=? hi).
Definition is_continuation (b : Z) : bool := in_range 128 191 b.
(** [utf8_char_width] *)
Definition utf8_char_width (b : Z) : Z :=
  if in_range 0 127 b then 1
  else if in_range 194 223 b then 2
  else if in_range 224 239 b then 3
  else if in_range 240 244 b then 4
  else 0.
(** The second bytes that may follow a lead byte of three or four bytes. *)
Definition second_byte_ok (lead second : Z) : bool :=
  ((lead =? 224) && in_range 160 191 second)
  || (in_range 225 236 lead && in_range 128 191 second)
  || ((lead =? 237) && in_range 128 159 second)
  || (in_range 238 239 lead && in_range 128 191 second)
  || ((lead =? 240) && in_range 144 191 second)
  || (in_range 241 243 lead && in_range 128 191 second)
  || ((lead =? 244) && in_range 128 143 second).

(** The next unit of a slice: a character and the bytes after it, or an ill-formed sequence and the
    bytes after it. *)
Inductive Utf8Unit := Character (c : Z) (rest : list Z) | Invalid (rest : list Z).
(** A byte past the end reads as 0, which continues nothing. *)
Definition next_unit (lead : Z) (rest : list Z) : Utf8Unit :=
  let width := utf8_char_width lead in
  if width =? 1 then Character lead rest
  else
    match rest with
    | b1 :: r1 =>
        if width =? 2 then
          if is_continuation b1 then Character ((lead - 192) * 64 + (b1 - 128)) r1 else Invalid rest
        else if width =? 3 then
          if second_byte_ok lead b1 then
            match r1 with
            | b2 :: r2 =>
                if is_continuation b2
                then Character ((lead - 224) * 4096 + (b1 - 128) * 64 + (b2 - 128)) r2
                else Invalid r1
            | [] => Invalid []
            end
          else Invalid rest
        else if width =? 4 then
          if second_byte_ok lead b1 then
            match r1 with
            | b2 :: r2 =>
                if is_continuation b2 then
                  match r2 with
                  | b3 :: r3 =>
                      if is_continuation b3
                      then Character ((lead - 240) * 262144 + (b1 - 128) * 4096 + (b2 - 128) * 64 + (b3 - 128)) r3
                      else Invalid r2
                  | [] => Invalid []
                  end
                else Invalid r1
            | [] => Invalid []
            end
          else Invalid rest
        else Invalid rest
    | [] => Invalid []
    end.

(** The units of a slice: [Some c] for a character, [None] for an ill-formed sequence. *)
Fixpoint utf8_units (fuel : nat) (bytes : list Z) : list (option Z) :=
  match fuel, bytes with
  | S fuel, lead :: rest =>
      match next_unit lead rest with
      | Character c rest => Some c :: utf8_units fuel rest
      | Invalid rest => None :: utf8_units fuel rest
      end
  | _, _ => []
  end.
(** A unit is at least one byte. *)
Definition utf8_chunks (bytes : list Z) : list (option Z) := utf8_units (length bytes) bytes.
Definition valid_utf8 (bytes : list Z) : bool := forallb (λ u, bool_decide (is_Some u)) (utf8_chunks bytes).
(** The characters of a [str], whose bytes are well formed. *)
Definition chars (s : string) : list Z := omap id (utf8_chunks (as_bytes s)).

(** [char::encode_utf8] and [char::len_utf8] *)
Definition encode_utf8 (c : Z) : list Z :=
  if c <? 128 then [c]
  else if c <? 2048 then [192 + c / 64; 128 + c mod 64]
  else if c <? 65536 then [224 + c / 4096; 128 + c / 64 mod 64; 128 + c mod 64]
  else [240 + c / 262144; 128 + c / 4096 mod 64; 128 + c / 64 mod 64; 128 + c mod 64].
Definition len_utf8 (c : Z) : Z := len (encode_utf8 c).
Definition is_scalar (c : Z) : Prop := 0 ≤ c < 55296 ∨ 57344 ≤ c < 1114112.
(** [str::is_char_boundary] *)
Definition is_char_boundary (bytes : list Z) (i : nat) : bool :=
  match i with
  | O => true
  | _ => match bytes !! i with
         | Some b => negb (is_continuation b)
         | None => bool_decide (i = length bytes)
         end
  end.
