(* ===== verification/Strict.v ===== *)
(** * Solver-worker protocol: strict wire validation

    Models [crates/eutheto-protocol/src/strict.rs]: the schema built from a descriptor set, and the
    validation of a protobuf payload against it before the generated decoder runs.  Decoding the
    descriptor bytes and the payloads themselves is the [prost] crate's: a parameter. *)
From stdpp Require Import base tactics list gmap strings.
From Stdlib Require Import ZArith Lia Ascii.
From S2P Require Import Prelude Ordering Protocol.
Open Scope Z_scope.

(** ** Descriptors *)
Inductive Label := LabelOptional | LabelRequired | LabelRepeated.
#[global] Instance Label_eq_dec : EqDecision Label.
Proof. solve_decision. Defined.
Definition Label_try_from (value : Z) : option Label :=
  match value with 1 => Some LabelOptional | 2 => Some LabelRequired | 3 => Some LabelRepeated | _ => None end.
Inductive Type_ :=
| TDouble | TFloat | TInt64 | TUint64 | TInt32 | TFixed64 | TFixed32 | TBool | TString | TGroup
| TMessage | TBytes | TUint32 | TEnum | TSfixed32 | TSfixed64 | TSint32 | TSint64.
#[global] Instance Type__eq_dec : EqDecision Type_.
Proof. solve_decision. Defined.
Definition Type_try_from (value : Z) : option Type_ :=
  match value with
  | 1 => Some TDouble | 2 => Some TFloat | 3 => Some TInt64 | 4 => Some TUint64 | 5 => Some TInt32
  | 6 => Some TFixed64 | 7 => Some TFixed32 | 8 => Some TBool | 9 => Some TString | 10 => Some TGroup
  | 11 => Some TMessage | 12 => Some TBytes | 13 => Some TUint32 | 14 => Some TEnum
  | 15 => Some TSfixed32 | 16 => Some TSfixed64 | 17 => Some TSint32 | 18 => Some TSint64
  | _ => None
  end.
Record FieldDescriptorProto := {
  fd_name : option string;
  fd_number : option Z;
  fd_label : option Z;
  fd_type : option Z;
  fd_type_name : option string;
  fd_oneof_index : option Z
}.
Record EnumDescriptorProto := { ed_name : option string; ed_value : list (option Z) }.
Inductive DescriptorProto := descriptor {
  dp_name : option string;
  dp_oneof_decl : list (option string);
  dp_reserved_range : list (option Z * option Z);
  dp_field : list FieldDescriptorProto;
  dp_enum_type : list EnumDescriptorProto;
  dp_nested_type : list DescriptorProto
}.
Record FileDescriptorProto := {
  fdp_package : option string;
  fdp_enum_type : list EnumDescriptorProto;
  fdp_message_type : list DescriptorProto
}.

(** ** The schema *)
Record FieldSchema := {
  fs_name : string;
  fs_full_name : string;
  fs_label : Label;
  fs_kind : Type_;
  fs_type_name : option string;
  fs_oneof : option string
}.
Record MessageSchema := { ms_fields : gmap Z FieldSchema; ms_reserved_ranges : list (Z * Z) }.
Record WireSchema := { messages : gmap string MessageSchema; enums : gmap string (gset Z) }.

Definition required_name (value : option string) (kind : string) : PR string :=
  match value with
  | Some name => if bool_decide (name = EmptyString) then descriptor_err (DescMissingName kind) else Ok name
  | None => descriptor_err (DescMissingName kind)
  end.
Definition dot : string := ".".
Definition qualify (parent name : string) : string :=
  if bool_decide (parent = EmptyString) then name else String.append parent (String.append dot name).
(** [trim_start_matches('.')] *)
Fixpoint trim_start_dots (s : string) : string :=
  match s with
  | String c rest => if decide (c = "."%char) then trim_start_dots rest else s
  | EmptyString => EmptyString
  end.
(** [rsplit_once('.')] *)
Fixpoint rsplit_once_dot (s : string) : option (string * string) :=
  match s with
  | EmptyString => None
  | String c rest =>
      match rsplit_once_dot rest with
      | Some (before, after) => Some (String c before, after)
      | None => if decide (c = "."%char) then Some (EmptyString, rest) else None
      end
  end.
Definition MAX_FIELD_NUMBER : Z := 536870911.
Definition u32_try_from_i32 (n : Z) : option Z := if n <? 0 then None else Some n.
Definition in_reserved (ranges : list (Z * Z)) (number : Z) : bool :=
  existsb (λ '(start, stop), (start <=? number) && (number <? stop)) ranges.
Definition in_protobuf_reserved (number : Z) : bool := (19000 <=? number) && (number <=? 19999).

Definition add_reserved_range (full_name : string) (range : option Z * option Z) : PR (Z * Z) :=
  start ← ok_or (FDescriptor (DescRange full_name)) (range.1 ≫= u32_try_from_i32);
  stop ← ok_or (FDescriptor (DescRange full_name)) (range.2 ≫= u32_try_from_i32);
  if (start =? 0) || (stop <=? start) || (536870912 <? stop) || ((start <? 20000) && (19000 <? stop))
  then descriptor_err (DescRange full_name)
  else Ok (start, stop).
Definition field_path (full_name name : string) : string := String.append full_name (String.append dot name).
Definition add_field (full_name : string) (oneofs : list string) (reserved : list (Z * Z))
    (fields : gmap Z FieldSchema) (field : FieldDescriptorProto) : PR (gmap Z FieldSchema) :=
  name ← required_name (fd_name field) "field";
  let path := field_path full_name name in
  number ← ok_or (FDescriptor (DescNumber path)) (fd_number field ≫= u32_try_from_i32);
  if (number =? 0) || (MAX_FIELD_NUMBER <? number) || in_protobuf_reserved number
     || in_reserved reserved number || bool_decide (is_Some (fields !! number))
  then descriptor_err (DescNumber path)
  else
    label ← ok_or (FDescriptor (DescLabel path)) (fd_label field ≫= Label_try_from);
    kind ← ok_or (FDescriptor (DescType path)) (fd_type field ≫= Type_try_from);
    oneof ← match fd_oneof_index field with
            | None => Ok None
            | Some index =>
                if index <? 0 then descriptor_err (DescOneof path)
                else map_ok Some (ok_or (FDescriptor (DescOneof path)) (oneofs !! Z.to_nat index))
            end;
    Ok (<[number := {| fs_name := name; fs_full_name := path; fs_label := label; fs_kind := kind;
                       fs_type_name := trim_start_dots <$> fd_type_name field; fs_oneof := oneof |}]> fields).

(** [for value in &descriptor.value { values.insert(value.number.ok_or_else(..)?); }] *)
Definition enum_values (full_name : string) (value : list (option Z)) : PR (gset Z) :=
  fold_m (λ values number,
    number ← ok_or (FDescriptor (DescEnum full_name)) number; Ok ({[ number ]} ∪ values)) ∅ value.
Definition add_enum (parent : string) (schema : WireSchema) (d : EnumDescriptorProto) : PR WireSchema :=
  name ← required_name (ed_name d) "enum";
  let full_name := qualify parent name in
  values ← enum_values full_name (ed_value d);
  if bool_decide (values = ∅) || bool_decide (is_Some (enums schema !! full_name))
  then descriptor_err (DescEnum full_name)
  else Ok {| messages := messages schema; enums := <[full_name := values]> (enums schema) |}.
Definition overlapping (ranges : list (Z * Z)) : bool :=
  existsb (λ '(a, b), b.1 <? a.2) (windows2 ranges).
Fixpoint add_message (parent : string) (d : DescriptorProto) (schema : WireSchema) : PR WireSchema :=
  short_name ← required_name (dp_name d) "message";
  let full_name := qualify parent short_name in
  oneofs ← fold_m (λ names oneof, name ← required_name oneof "oneof"; Ok (names ++ [name])) []
             (dp_oneof_decl d);
  reserved ← fold_m (λ ranges range, r ← add_reserved_range full_name range; Ok (ranges ++ [r])) []
               (dp_reserved_range d);
  let reserved := ord_sort reserved in
  if overlapping reserved then descriptor_err (DescOverlap full_name)
  else
    fields ← fold_m (add_field full_name oneofs reserved) ∅ (dp_field d);
    if bool_decide (is_Some (messages schema !! full_name))
    then descriptor_err (DescDuplicateMessage full_name)
    else
      let schema := {| messages := <[full_name := {| ms_fields := fields;
                                                     ms_reserved_ranges := reserved |}]> (messages schema);
                       enums := enums schema |} in
      schema ← fold_m (add_enum full_name) schema (dp_enum_type d);
      (fix go (l : list DescriptorProto) (schema : WireSchema) : PR WireSchema :=
         match l with
         | [] => Ok schema
         | nested :: l => schema ← add_message full_name nested schema; go l schema
         end) (dp_nested_type d) schema.

Definition validate_policy_limit (schema : WireSchema) (entry : string * FieldLimit) : PR unit :=
  let '(name, limit) := entry in
  names ← ok_or (FPolicy (PolicyUnqualified name)) (rsplit_once_dot name);
  let '(message_name, field_name) := names in
  message ← ok_or (FPolicy (PolicyUnknownMessage message_name)) (messages schema !! message_name);
  field ← ok_or (FPolicy (PolicyUnknownField name))
            (List.find (λ field, bool_decide (fs_name field = field_name))
               ((sort_by_key fst (map_to_list (ms_fields message))).*2));
  if bool_decide (is_Some (max_count limit)) && negb (bool_decide (fs_label field = LabelRepeated))
  then policy_err (PolicyCountNotRepeated name)
  else if bool_decide (is_Some (max_bytes limit))
          && negb (bool_decide (fs_kind field = TString) || bool_decide (fs_kind field = TBytes))
  then policy_err (PolicyBytesNotBytes name)
  else Ok tt.
Definition validate_field_type (schema : WireSchema) (message_name : string) (field : FieldSchema) :
    PR unit :=
  if bool_decide (fs_kind field = TMessage) || bool_decide (fs_kind field = TEnum)
  then
    target ← ok_or (FDescriptor (DescNoTypeName (field_path message_name (fs_name field)))) (fs_type_name field);
    let found := if decide (fs_kind field = TMessage) then bool_decide (is_Some (messages schema !! target))
                 else bool_decide (is_Some (enums schema !! target)) in
    if negb found
    then descriptor_err (DescUnknownType (field_path message_name (fs_name field)) target)
    else Ok tt
  else Ok tt.
Definition validate_policy (schema : WireSchema) (policy : ProtocolPolicy) : PR unit :=
  _ ← for_each (validate_policy_limit schema) (field_limits_iter policy);
  for_each (λ '(message_name, message),
      for_each (validate_field_type schema message_name)
        ((sort_by_key fst (map_to_list (ms_fields message))).*2))
    (sort_by_key fst (map_to_list (messages schema))).
Definition WireSchema_decode (descriptor : Result string (list FileDescriptorProto))
    (policy : ProtocolPolicy) : PR WireSchema :=
  files ← map_err (λ e, FDescriptor (DescMalformed e)) descriptor;
  schema ← fold_m (λ schema file,
      let package := default EmptyString (fdp_package file) in
      schema ← fold_m (add_enum package) schema (fdp_enum_type file);
      fold_m (λ schema message, add_message package message schema) schema (fdp_message_type file))
    {| messages := ∅; enums := ∅ |} files;
  if bool_decide (messages schema = ∅) then descriptor_err DescEmpty
  else
    _ ← validate_policy schema policy;
    Ok schema.

(** ** Varints *)
Inductive VarintError := VMalformed | VNonCanonical.
(** [while value >= 0x80]: a 64-bit value has at most ten groups of seven bits. *)
Fixpoint canonical_varint_len_loop (fuel : nat) (value length : Z) : Z :=
  match fuel with
  | O => length
  | S fuel =>
      if 128 <=? value then canonical_varint_len_loop fuel (Z.shiftr value 7) (length + 1) else length
  end.
Definition canonical_varint_len (value : Z) : Z := canonical_varint_len_loop 10 value 1.
(** Rounds [10 - fuel .. 9] of the loop. *)
Fixpoint parse_varint_loop (fuel : nat) (bytes : list Z) (start index value : Z) :
    Result VarintError (Z * Z) :=
  match fuel with
  | O => Err VMalformed
  | S fuel =>
      position ← ok_or VMalformed (checked_u64 (start + index));
      byte ← ok_or VMalformed (bytes !! Z.to_nat position);
      if (index =? 9) && (1 <? byte) then Err VMalformed
      else
        let value := Z.lor value (Z.shiftl (Z.land byte 127) (index * 7)) in
        if Z.land byte 128 =? 0 then
          if negb (index + 1 =? canonical_varint_len value) then Err VNonCanonical
          else Ok (value, position + 1)
        else parse_varint_loop fuel bytes start (index + 1) value
  end.
Definition parse_varint (bytes : list Z) (start : Z) : Result VarintError (Z * Z) :=
  parse_varint_loop 10 bytes start 0 0.
Definition varint_violation (error : VarintError) : WireViolation :=
  match error with VMalformed => MalformedVarint | VNonCanonical => NonCanonicalVarint end.
Definition wire_err {A} (message : string) (offset : Z) (violation : WireViolation) : PR A :=
  Err (FWire {| wf_message := message; wf_offset := offset; wf_violation := violation |}).
Definition wire_fault (message : string) (offset : Z) {A} (r : Result WireViolation A) : PR A :=
  map_err (λ v, FWire {| wf_message := message; wf_offset := offset; wf_violation := v |}) r.

(** The low 32 bits as a two's complement integer, when the 64-bit value is its sign extension. *)
Definition decode_i32_wire (value : Z) : option Z :=
  let low := value mod 2 ^ 32 in
  let numeric := if low <? 2 ^ 31 then low else low - 2 ^ 32 in
  let canonical := if numeric <? 0 then numeric mod 2 ^ 64 else numeric in
  if value =? canonical then Some numeric else None.

(** ** Values *)
Definition natural_wire_type (kind : Type_) : Z :=
  match kind with
  | TDouble | TFixed64 | TSfixed64 => 1
  | TString | TBytes | TMessage => 2
  | TFloat | TFixed32 | TSfixed32 => 5
  | TGroup => 3
  | TEnum | TBool | TInt32 | TInt64 | TUint32 | TUint64 | TSint32 | TSint64 => 0
  end.
Definition is_packable (kind : Type_) : bool :=
  match kind with TString | TBytes | TMessage | TGroup => false | _ => true end.
Definition fixed_end (bytes : list Z) (position width : Z) : Result WireViolation Z :=
  stop ← ok_or WireLengthOverflow (checked_u64 (position + width));
  if len bytes <? stop then Err TruncatedFixed else Ok stop.
(** The payload, the position after it, and its offset. *)
Definition take_length (bytes : list Z) (position : Z) : Result WireViolation (list Z * Z * Z) :=
  '(length, payload_offset) ← map_err varint_violation (parse_varint bytes position);
  stop ← ok_or WireLengthOverflow (checked_u64 (payload_offset + length));
  if len bytes <? stop then Err TruncatedLength
  else Ok (take (Z.to_nat length) (drop (Z.to_nat payload_offset) bytes), stop, payload_offset).

Definition validate_varint_value (message_name : string) (field : FieldSchema) (value offset : Z) : PR unit :=
  let range_valid :=
    match fs_kind field with
    | TInt32 => bool_decide (is_Some (decode_i32_wire value))
    | TUint32 | TSint32 => value <? 2 ^ 32
    | _ => true
    end in
  if negb range_valid then wire_err message_name offset (IntegerRange (fs_name field) value)
  else if bool_decide (fs_kind field = TBool) && (1 <? value)
  then wire_err message_name offset (InvalidBool (fs_name field) value)
  else if bool_decide (fs_kind field = TEnum) && bool_decide (decode_i32_wire value = None)
  then wire_err message_name offset (IntegerRange (fs_name field) value)
  else Ok tt.
Definition skip_unknown_value (message_name : string) (bytes : list Z) (position wire_type base_offset : Z) :
    PR Z :=
  wire_fault message_name (base_offset + position)
    match wire_type with
    | 0 => map_ok snd (map_err varint_violation (parse_varint bytes position))
    | 1 => fixed_end bytes position 8
    | 2 => map_ok (λ r, r.1.2) (take_length bytes position)
    | 5 => fixed_end bytes position 4
    | 3 | 4 => Err Group
    | _ => Err (InvalidWireType wire_type)
    end.
Definition packed_width (kind : Type_) : option Z :=
  match kind with
  | TDouble | TFixed64 | TSfixed64 => Some 8
  | TFloat | TFixed32 | TSfixed32 => Some 4
  | _ => None
  end.
(** Every round reads at least one byte of the payload. *)
Fixpoint validate_packed_loop (fuel : nat) (message_name : string) (field : FieldSchema)
    (payload : list Z) (base_offset remaining cap count position : Z) : PR Z :=
  match fuel with
  | O => Ok count
  | S fuel =>
      if len payload <=? position then Ok count
      else if count =? remaining
      then wire_err message_name (base_offset + position) (RepeatedCount (fs_name field) cap)
      else
        '(value, next) ← wire_fault message_name (base_offset + position)
                           (map_err varint_violation (parse_varint payload position));
        _ ← validate_varint_value message_name field value (base_offset + position);
        validate_packed_loop fuel message_name field payload base_offset remaining cap (count + 1) next
  end.
Definition validate_packed (message_name : string) (field : FieldSchema) (payload : list Z)
    (base_offset remaining cap : Z) : PR Z :=
  match packed_width (fs_kind field) with
  | Some width =>
      if negb (len payload mod width =? 0)
      then wire_err message_name (base_offset + len payload) TruncatedFixed
      else
        let count := len payload / width in
        if remaining <? count
        then wire_err message_name (base_offset + Z.min (remaining * width) u64_max)
               (RepeatedCount (fs_name field) cap)
        else Ok count
  | None =>
      validate_packed_loop (S (length payload)) message_name field payload base_offset remaining cap 0 0
  end.

(** ** Messages *)
Section validation.
Context (schema : WireSchema) (policy : ProtocolPolicy).

Section nested.
(** [validate_nested] one level deeper. *)
Context (nested : string → list Z → Z → PR unit).

Definition validate_value (message_name : string) (field : FieldSchema) (bytes : list Z)
    (position base_offset : Z) : PR Z :=
  match fs_kind field with
  | TDouble | TFixed64 | TSfixed64 =>
      wire_fault message_name (base_offset + position) (fixed_end bytes position 8)
  | TFloat | TFixed32 | TSfixed32 =>
      wire_fault message_name (base_offset + position) (fixed_end bytes position 4)
  | TString | TBytes | TMessage =>
      '(payload, next, payload_offset) ←
        wire_fault message_name (base_offset + position) (take_length bytes position);
      let limit := field_limit policy (fs_full_name field) in
      let cap := default (if decide (fs_kind field = TString) then max_string_bytes policy else len bytes)
                   (max_bytes limit) in
      if cap <? len payload
      then wire_err message_name (base_offset + payload_offset) (FieldBytes (fs_name field) (len payload) cap)
      else if bool_decide (fs_kind field = TString) && negb (valid_utf8 payload)
      then wire_err message_name (base_offset + payload_offset) (InvalidUtf8 (fs_name field))
      else
        _ ← (if decide (fs_kind field = TMessage) then
               nested_name ← ok_or (FDescriptor (DescNoTypeName (fs_full_name field))) (fs_type_name field);
               nested nested_name payload (base_offset + payload_offset)
             else Ok tt);
        Ok next
  | TEnum | TBool | TInt32 | TInt64 | TUint32 | TUint64 | TSint32 | TSint64 =>
      '(value, next) ← wire_fault message_name (base_offset + position)
                         (map_err varint_violation (parse_varint bytes position));
      _ ← validate_varint_value message_name field value (base_offset + position);
      Ok next
  | TGroup => wire_err message_name (base_offset + position) Group
  end.

(** The local variables of the loop. *)
Record Cursor := {
  cur_position : Z;
  cur_singular : gset Z;
  cur_oneofs : gmap string string;
  cur_counts : gmap Z Z;
  cur_unknown : Z
}.

(** The tag at the position: field number, wire type and the position after it. *)
Definition read_tag (message_name : string) (bytes : list Z) (position base_offset : Z) : PR (Z * Z * Z) :=
  let offset := base_offset + position in
  '(tag, after_tag) ← wire_fault message_name offset
    (map_err (λ e, match e with VNonCanonical => NonCanonicalVarint | VMalformed => MalformedTag end)
       (parse_varint bytes position));
  let wire_type := Z.land tag 7 in
  let number := Z.shiftr tag 3 in
  if in_protobuf_reserved number then wire_err message_name offset (ReservedField number)
  else if (number =? 0) || (MAX_FIELD_NUMBER <? number) then wire_err message_name offset InvalidFieldNumber
  else Ok (number, wire_type, after_tag).
Definition validate_unknown (message_name : string) (message : MessageSchema) (bytes : list Z)
    (cur : Cursor) (number wire_type after_tag base_offset : Z) : PR Cursor :=
  let offset := base_offset + cur_position cur in
  let unknown := cur_unknown cur + 1 in
  if (u64_max <? unknown) || (max_repeated_field_items policy <? unknown)
  then wire_err message_name offset (RepeatedCount "unknown fields" (max_repeated_field_items policy))
  else if in_protobuf_reserved number || in_reserved (ms_reserved_ranges message) number
  then wire_err message_name offset (ReservedField number)
  else
    next ← skip_unknown_value message_name bytes after_tag wire_type base_offset;
    Ok {| cur_position := next; cur_singular := cur_singular cur; cur_oneofs := cur_oneofs cur;
          cur_counts := cur_counts cur; cur_unknown := unknown |}.
Definition repeated_cap (field : FieldSchema) : Z :=
  Z.min (default (max_repeated_field_items policy) (max_count (field_limit policy (fs_full_name field))))
    (max_repeated_field_items policy).
(** The value of a known field: how many items it holds, and the position after it. *)
Definition validate_items (message_name : string) (field : FieldSchema) (bytes : list Z)
    (observed wire_type tag_offset position base_offset : Z) : PR (Z * Z) :=
  if bool_decide (fs_label field = LabelRepeated) && is_packable (fs_kind field) && (wire_type =? 2)
  then
    '(payload, next, payload_offset) ←
      wire_fault message_name (base_offset + position) (take_length bytes position);
    added ← validate_packed message_name field payload (base_offset + payload_offset)
              (Z.max 0 (repeated_cap field - observed)) (repeated_cap field);
    Ok (added, next)
  else
    let expected := natural_wire_type (fs_kind field) in
    if negb (wire_type =? expected)
    then wire_err message_name tag_offset
           (WrongWireType (fs_name field) wire_type expected
              (bool_decide (fs_label field = LabelRepeated) && is_packable (fs_kind field)))
    else
      next ← validate_value message_name field bytes position base_offset;
      Ok (1, next).
Definition validate_known (message_name : string) (field : FieldSchema) (bytes : list Z)
    (cur : Cursor) (number wire_type after_tag base_offset : Z) : PR Cursor :=
  let offset := base_offset + cur_position cur in
  let repeated := bool_decide (fs_label field = LabelRepeated) in
  if negb repeated && bool_decide (number ∈ cur_singular cur)
  then wire_err message_name offset (DuplicateSingular (fs_name field))
  else
    let singular := if repeated then cur_singular cur else {[ number ]} ∪ cur_singular cur in
    oneofs ← match fs_oneof field with
             | None => Ok (cur_oneofs cur)
             | Some oneof =>
                 match cur_oneofs cur !! oneof with
                 | Some first =>
                     if decide (first = fs_name field) then Ok (<[oneof := fs_name field]> (cur_oneofs cur))
                     else wire_err message_name offset (ConflictingOneof oneof first (fs_name field))
                 | None => Ok (<[oneof := fs_name field]> (cur_oneofs cur))
                 end
             end;
    let observed := default 0 (cur_counts cur !! number) in
    '(added, next) ← validate_items message_name field bytes observed wire_type offset after_tag base_offset;
    counts ← (if repeated then
                let count := observed + added in
                if (u64_max <? count) || (repeated_cap field <? count)
                then wire_err message_name offset (RepeatedCount (fs_name field) (repeated_cap field))
                else Ok (<[number := count]> (cur_counts cur))
              else Ok (cur_counts cur));
    Ok {| cur_position := next; cur_singular := singular; cur_oneofs := oneofs; cur_counts := counts;
          cur_unknown := cur_unknown cur |}.
(** One round of the loop. *)
Definition validate_field (message_name : string) (message : MessageSchema) (bytes : list Z)
    (base_offset : Z) (cur : Cursor) : PR Cursor :=
  '(number, wire_type, after_tag) ← read_tag message_name bytes (cur_position cur) base_offset;
  match ms_fields message !! number with
  | None => validate_unknown message_name message bytes cur number wire_type after_tag base_offset
  | Some field => validate_known message_name field bytes cur number wire_type after_tag base_offset
  end.
(** [while position < bytes.len()]: a round reads at least a tag. *)
Fixpoint validate_fields (fuel : nat) (message_name : string) (message : MessageSchema) (bytes : list Z)
    (base_offset : Z) (cur : Cursor) : PR unit :=
  match fuel with
  | O => Ok tt
  | S fuel =>
      if len bytes <=? cur_position cur then Ok tt
      else
        cur ← validate_field message_name message bytes base_offset cur;
        validate_fields fuel message_name message bytes base_offset cur
  end.
End nested.

(** [levels] counts the nesting levels still allowed: [max_nesting_depth + 1 - depth]. *)
Fixpoint validate_nested (levels : nat) (message_name : string) (bytes : list Z) (base_offset : Z) :
    PR unit :=
  match levels with
  | O => wire_err message_name base_offset (NestingDepth (max_nesting_depth policy))
  | S levels =>
      match messages schema !! message_name with
      | None => descriptor_err (DescUnknownMessage message_name)
      | Some message =>
          validate_fields (validate_nested levels) (S (length bytes)) message_name message bytes base_offset
            {| cur_position := 0; cur_singular := ∅; cur_oneofs := ∅; cur_counts := ∅; cur_unknown := 0 |}
      end
  end.
Definition WireSchema_validate (message_name : string) (bytes : list Z) : PR unit :=
  validate_nested (Z.to_nat (max_nesting_depth policy)) message_name bytes 0.
End validation.

(** ** The embedded schema *)
Section checked_in.
(** The embedded descriptor set, as the generated decoder reads it. *)
Context (descriptor : Result string (list FileDescriptorProto)).
Definition checked_in_schema : PR WireSchema :=
  policy ← checked_in_policy; WireSchema_decode descriptor policy.
Definition validate_checked_in (message_name : string) (bytes : list Z) : PR unit :=
  policy ← checked_in_policy;
  schema ← checked_in_schema;
  WireSchema_validate schema policy message_name bytes.
Definition decode_checked_in {M} (prost_decode : list Z → Result string M) (message_name : string)
    (bytes : list Z) : PR M :=
  _ ← validate_checked_in message_name bytes;
  map_err (λ reason, FDecode message_name reason) (prost_decode bytes).
End checked_in.
