(* ===== verification/Frame.v ===== *)
(** * Solver-worker protocol: framing

    Models [crates/eutheto-protocol/src/frame.rs].  A reader is the sequence of answers its [read]
    calls give — a chunk of bytes, an interruption or an error — and a writer is what it has received
    with the outcomes of its next [write_all] calls, so that every theorem holds for every chunking and
    every failure.  A protobuf message is what the encoder of the [prost] crate makes of it: its
    announced length and its bytes.  [try_reserve_exact] asks the environment. *)
From stdpp Require Import base tactics list gmap strings.
From Stdlib Require Import ZArith Lia.
From S2P Require Import Prelude Ordering Protocol Strict.
Open Scope Z_scope.

(** ** Integers on the wire *)
Definition u32_to_be_bytes (n : Z) : list Z :=
  [n / 2 ^ 24 mod 256; n / 2 ^ 16 mod 256; n / 2 ^ 8 mod 256; n mod 256].
Definition u32_from_be_bytes (b : list Z) : Z := foldl (λ acc byte, acc * 256 + byte) 0 b.
Definition usize_checked_add (a b : Z) : option Z := checked_u64 (a + b).
Definition u32_try_from_usize (n : Z) : option Z := if n <? 2 ^ 32 then Some n else None.

(** [&bytes[from..to]] *)
Definition slice (from to : Z) (bytes : list Z) : list Z :=
  take (Z.to_nat (to - from)) (drop (Z.to_nat from) bytes).

Definition validate_length (length : Z) (class : FrameClass) (policy : ProtocolPolicy) : PR unit :=
  if length =? 0 then frame_err ZeroLength
  else
    let cap := frame_cap policy class in
    if cap <? length then frame_err (Oversized (policy_name class) length cap) else Ok tt.

(** ** Inspecting a buffer *)
Record FrameSlice := { payload : list Z; remainder : list Z }.
Definition inspect_frame (input : list Z) (class : FrameClass) (policy : ProtocolPolicy) :
    PR FrameSlice :=
  if len input <? 4 then frame_err (TruncatedPrefix (len input))
  else
    let length := u32_from_be_bytes (slice 0 4 input) in
    _ ← validate_length length class policy;
    stop ← ok_or (FFrame LengthOverflow) (usize_checked_add 4 length);
    if len input <? stop then frame_err (TruncatedPayload length (len input - 4))
    else Ok {| payload := slice 4 stop input; remainder := drop (Z.to_nat stop) input |}.
Definition inspect_checked_in_frame (input : list Z) (class : FrameClass) : PR FrameSlice :=
  policy ← checked_in_policy; inspect_frame input class policy.

(** ** Reading from a stream *)
Inductive ReadEvent := Chunk (bytes : list Z) | ReadError (kind : IoErrorKind).
Notation Reader := (list ReadEvent).
(** One [read] into a buffer of [n] bytes; the end of the sequence is end of file. *)
Definition reader_read (n : nat) (reader : Reader) : Result IoErrorKind (list Z) * Reader :=
  match reader with
  | [] => (Ok [], [])
  | ReadError kind :: reader => (Err kind, reader)
  | Chunk bytes :: reader =>
      (Ok (take n bytes),
       if decide (length bytes ≤ n)%nat then reader else Chunk (drop n bytes) :: reader)
  end.
(** Interruptions are retried; each attempt consumes one answer of the reader. *)
Fixpoint read_some_loop (fuel : nat) (n : nat) (operation : string) (reader : Reader) :
    PR (list Z) * Reader :=
  match fuel with
  | O => (Ok [], reader)
  | S fuel =>
      match reader_read n reader with
      | (Ok bytes, reader) => (Ok bytes, reader)
      | (Err Interrupted, reader) => read_some_loop fuel n operation reader
      | (Err kind, reader) => (Err (FIo operation kind), reader)
      end
  end.
Definition read_some (n : nat) (operation : string) : SE Reader ProtocolFault (list Z) := λ reader,
  read_some_loop (S (length reader)) n operation reader.
(** The bytes read into a buffer of [n] bytes until it is full or the stream ends. *)
Fixpoint read_until_eof_loop (fuel : nat) (n : nat) (operation : string) :
    SE Reader ProtocolFault (list Z) :=
  match fuel with
  | O => mret []
  | S fuel =>
      if decide (n = O) then mret []
      else
        bytes ← read_some n operation;
        if decide (bytes = []) then mret []
        else
          rest ← read_until_eof_loop fuel (n - length bytes) operation;
          mret (bytes ++ rest)
  end.
(** Every round reads at least one byte: the size of the buffer bounds the rounds. *)
Definition read_until_eof (n : nat) (operation : string) : SE Reader ProtocolFault (list Z) :=
  read_until_eof_loop (S n) n operation.

Section read.
Context (try_reserve : Z → bool).
Definition read_frame (class : FrameClass) (policy : ProtocolPolicy) :
    SE Reader ProtocolFault (option (list Z)) :=
  first ← read_some 1 "reading frame prefix";
  if decide (first = []) then mret None
  else
    rest ← read_until_eof 3 "reading frame prefix";
    let prefix := first ++ rest in
    if negb (len prefix =? 4) then se_fail (FFrame (TruncatedPrefix (len prefix)))
    else
      let length := u32_from_be_bytes prefix in
      _ ← se_lift (validate_length length class policy);
      if negb (try_reserve length) then se_fail (FFrame Allocation)
      else
        payload ← read_until_eof (Z.to_nat length) "reading frame payload";
        if negb (len payload =? length)
        then se_fail (FFrame (TruncatedPayload length (len payload)))
        else mret (Some payload).
End read.

(** ** Encoding *)
(** What [prost::Message] makes of a message: [encoded_len] and [encode]. *)
Record Message := { encoded_len : Z; encode : Result string (list Z) }.
Section encode.
Context (try_reserve : Z → bool).
Definition encode_frame_allocating (message : Message) (class : FrameClass) (policy : ProtocolPolicy) :
    PR (list Z) :=
  let length := encoded_len message in
  if length =? 0 then frame_err EmptyEncoding
  else
    _ ← validate_length length class policy;
    encoded_length ← ok_or (FFrame LengthOverflow) (u32_try_from_usize length);
    capacity ← ok_or (FFrame LengthOverflow) (usize_checked_add length 4);
    if negb (try_reserve capacity) then frame_err Allocation
    else
      bytes ← map_err (λ e, FFrame (Encode e)) (encode message);
      Ok (u32_to_be_bytes encoded_length ++ bytes).
Definition encode_frame (message : Message) (class : FrameClass) (policy : ProtocolPolicy) :
    PR (list Z) :=
  if decide (class = SolveRequestClass) then frame_err StreamingRequired
  else encode_frame_allocating message class policy.
End encode.

(** ** Streaming a solve request *)
(** [None]: the call writes everything; [Some (n, kind)]: it fails after [n] bytes. *)
Record Writer := { written : list Z; outcomes : list (option (nat * IoErrorKind)) }.
Notation WM := (SE Writer ProtocolFault).
Definition write_all (bytes : list Z) (operation : string) : WM unit := λ w,
  match outcomes w with
  | Some (n, kind) :: rest =>
      (Err (FIo operation kind), {| written := written w ++ take n bytes; outcomes := rest |})
  | _ :: rest => (Ok tt, {| written := written w ++ bytes; outcomes := rest |})
  | [] => (Ok tt, {| written := written w ++ bytes; outcomes := [] |})
  end.

(** The groups of seven bits of a 64-bit value, low first; ten groups hold any of them. *)
Fixpoint varint_bytes (fuel : nat) (value : Z) : list Z :=
  match fuel with
  | O => []
  | S fuel =>
      let low := Z.land value 127 in
      let value := Z.shiftr value 7 in
      if value =? 0 then [low] else Z.lor low 128 :: varint_bytes fuel value
  end.
Definition write_varint (value : Z) (operation : string) : WM unit :=
  write_all (varint_bytes 10 value) operation.
Fixpoint varint_length_loop (fuel : nat) (value length : Z) : Z :=
  match fuel with
  | O => length
  | S fuel =>
      if 128 <=? value then varint_length_loop fuel (Z.shiftr value 7) (length + 1) else length
  end.
Definition varint_length (value : Z) : Z := varint_length_loop 10 value 1.

Definition write_length_delimited (tag : Z) (value : list Z) (operation : string) : WM unit :=
  _ ← write_all [tag] operation;
  _ ← write_varint (len value) operation;
  write_all value operation.
Definition write_nested (tag : Z) (message : Message) : WM unit :=
  scratch ← se_lift (map_err (λ e, FFrame (Encode e)) (encode message));
  write_length_delimited tag scratch "writing nested solve field".

Definition length_delimited_field_length (value_length : Z) : PR Z :=
  ok_or (FFrame LengthOverflow)
    (length ← usize_checked_add 1 (varint_length value_length); usize_checked_add length value_length).
Definition add_field_length (length value_length : Z) : PR Z :=
  field ← length_delimited_field_length value_length;
  ok_or (FFrame LengthOverflow) (usize_checked_add length field).

(** The messages nested in a solve request, as the generated encoders see them. *)
Class SolveEncoder := {
  parameters_message : SolveParameters → Message;
  projection_message : ProjectionRequest → Message;
  limits_message : ResourceLimits → Message;
  solve_encoded_len : SolveRequest → Z
}.
Section solve.
Context `{SolveEncoder} (try_reserve : Z → bool).

(** The lengths of the fields that are present, in the order they are written. *)
Definition manual_solve_request_length (request : SolveRequest) : PR Z :=
  length ← fold_m add_field_length 0 (omap id
    [ (if bool_decide (sq_request_id request = EmptyString) then None
       else Some (str_len (sq_request_id request)));
      (if bool_decide (sq_cp_model_proto request = []) then None
       else Some (len (sq_cp_model_proto request)));
      (λ p, encoded_len (parameters_message p)) <$> sq_parameters request ]);
  length ← fold_m (λ length p, add_field_length length (encoded_len (projection_message p)))
             length (sq_projections request);
  length ← match sq_resource_limits request with
           | Some l => add_field_length length (encoded_len (limits_message l))
           | None => Ok length
           end;
  if bool_decide (sq_model_fingerprint request = []) then Ok length
  else add_field_length length (len (sq_model_fingerprint request)).

Record PreparedSolveRequest := { solve_length : Z; frame_prefix : list Z; scratch_capacity : Z }.
Definition scratch (self : PreparedSolveRequest) : PR unit :=
  if try_reserve (scratch_capacity self) then Ok tt else frame_err Allocation.
Definition prepare_solve_request (request : SolveRequest) (policy : ProtocolPolicy) :
    PR PreparedSolveRequest :=
  solve_length ← manual_solve_request_length request;
  if negb (solve_length =? solve_encoded_len request) then frame_err SchemaDrift
  else
    payload_length ← ok_or (FFrame LengthOverflow)
      (length ← usize_checked_add 1 (varint_length solve_length); usize_checked_add length solve_length);
    _ ← validate_length payload_length SolveRequestClass policy;
    prefix ← ok_or (FFrame LengthOverflow) (u32_try_from_usize payload_length);
    Ok {| solve_length := solve_length; frame_prefix := u32_to_be_bytes prefix;
          scratch_capacity :=
            Z.max (Z.max (from_option (λ p, encoded_len (parameters_message p)) 0 (sq_parameters request))
                     (foldr Z.max 0 ((λ p, encoded_len (projection_message p)) <$> sq_projections request)))
                  (from_option (λ l, encoded_len (limits_message l)) 0 (sq_resource_limits request)) |}.

Definition write_solve_fields (request : SolveRequest) (solve_length : Z) : WM unit :=
  _ ← write_all [18] "writing parent solve tag";
  _ ← write_varint solve_length "writing parent solve length";
  _ ← (if bool_decide (sq_request_id request = EmptyString) then mret tt
       else write_length_delimited 10 (as_bytes (sq_request_id request)) "writing solve request ID");
  _ ← (if bool_decide (sq_cp_model_proto request = []) then mret tt
       else write_length_delimited 18 (sq_cp_model_proto request) "writing solve model");
  _ ← (match sq_parameters request with
       | Some parameters => write_nested 26 (parameters_message parameters)
       | None => mret tt
       end);
  _ ← for_each (λ projection, write_nested 34 (projection_message projection)) (sq_projections request);
  _ ← (match sq_resource_limits request with
       | Some resource_limits => write_nested 42 (limits_message resource_limits)
       | None => mret tt
       end);
  if bool_decide (sq_model_fingerprint request = []) then mret tt
  else write_length_delimited 50 (sq_model_fingerprint request) "writing solve fingerprint".
Definition write_solve_request_frame (request : SolveRequest) (policy : ProtocolPolicy) : WM unit :=
  prepared ← se_lift (prepare_solve_request request policy);
  _ ← se_lift (scratch prepared);
  _ ← write_all (frame_prefix prepared) "writing solve frame prefix";
  write_solve_fields request (solve_length prepared).
End solve.

(** ** Routes of decoded frames *)
Definition PARENT_FRAME_MESSAGE : string := "eutheto.worker.v1.ParentFrame".
Definition WORKER_FRAME_MESSAGE : string := "eutheto.worker.v1.WorkerFrame".
Section decode.
(** The embedded descriptor set and the generated decoders. *)
Context (descriptor : Result string (list FileDescriptorProto)).
Context (prost_parent : list Z → Result string ParentFrame) (prost_worker : list Z → Result string WorkerFrame).
Definition decode_parent_frame (payload : list Z) (class : FrameClass) : PR ParentFrame :=
  frame ← decode_checked_in descriptor prost_parent PARENT_FRAME_MESSAGE payload;
  match parent_body frame, class with
  | Some (ParentHandshakeRequest _), Handshake | Some (ParentSolveRequest _), SolveRequestClass => Ok frame
  | _, _ => frame_err (WrongClass (policy_name class))
  end.
Definition decode_worker_frame (payload : list Z) (class : FrameClass) : PR WorkerFrame :=
  frame ← decode_checked_in descriptor prost_worker WORKER_FRAME_MESSAGE payload;
  match worker_body frame, class with
  | Some (WorkerHandshakeResponse _), Handshake
  | Some (WorkerStarted _ | WorkerProgress _ | WorkerIncumbent _ | WorkerFinished _ | WorkerErrorBody _),
    WorkerEvent => Ok frame
  | _, _ => frame_err (WrongClass (policy_name class))
  end.
End decode.
