(* ===== verification/VarintFacts.v ===== *)
(** * Varints: one canonical encoding, read and written

    The varint writer of [frame.rs] and the strict varint parser of [strict.rs] agree: the parser
    accepts exactly what the writer emits, and both length functions are the length of it. *)
From stdpp Require Import base tactics list gmap strings.
From Stdlib Require Import ZArith Lia.
From S2P Require Import Prelude Ordering Protocol Strict Frame.
Open Scope Z_scope.

(** ** Bits as arithmetic *)
Lemma lor_shiftl_add a x k : 0 ≤ k → 0 ≤ a < 2 ^ k → 0 ≤ x → Z.lor a (Z.shiftl x k) = a + x * 2 ^ k.
Proof.
  intros Hk Ha Hx. rewrite <-Z.shiftl_mul_pow2 by lia.
  assert (Z.land a (Z.shiftl x k) = 0) as Hland.
  { apply Z.bits_inj'. intros n Hn. rewrite Z.land_spec, Z.bits_0.
    destruct (Z.lt_ge_cases n k).
    - rewrite Z.shiftl_spec_low by lia. by rewrite andb_false_r.
    - replace (Z.testbit a n) with false; [done|]. symmetry.
      destruct (decide (a = 0)) as [->|]; [apply Z.bits_0|].
      apply Z.bits_above_log2; [lia|]. apply Z.lt_le_trans with k; [|lia]. apply Z.log2_lt_pow2; lia. }
  pose proof (Z.add_lor_land a (Z.shiftl x k)). lia.
Qed.
Lemma low_bits v : Z.land v 127 = v mod 128.
Proof. change 127 with (Z.ones 7). by rewrite Z.land_ones by lia. Qed.
Lemma high_bits v : Z.shiftr v 7 = v / 128.
Proof. by rewrite Z.shiftr_div_pow2 by lia. Qed.
Lemma continue_bit low : 0 ≤ low < 128 → Z.lor low 128 = low + 128.
Proof. intros ?. change 128 with (Z.shiftl 1 7) at 1. rewrite lor_shiftl_add; lia. Qed.
(** A decidable fact about every byte, by enumeration. *)
Lemma every_byte (P : Z → bool) :
  forallb P (Z.of_nat <$> seq 0 256) = true → ∀ b, is_byte b → P b = true.
Proof.
  rewrite forallb_forall. intros Hall b [Hb0 Hb]. apply Hall. apply list_elem_of_In, list_elem_of_fmap.
  exists (Z.to_nat b). split; [lia|]. apply elem_of_seq. lia.
Qed.
Lemma continue_bit_test b : is_byte b → (Z.land b 128 =? 0) = (b <? 128).
Proof.
  intros Hb. apply eqb_prop. revert b Hb. by apply every_byte.
Qed.

(** ** The encoding *)
Lemma varint_bytes_S fuel v :
  0 ≤ v →
  varint_bytes (S fuel) v = if v <? 128 then [v] else (v mod 128 + 128) :: varint_bytes fuel (v / 128).
Proof.
  intros Hv. cbn [varint_bytes]. rewrite low_bits, high_bits.
  pose proof (Z.mod_pos_bound v 128). rewrite continue_bit by lia.
  destruct (Z.ltb_spec v 128).
  - by rewrite Z.div_small, Z.mod_small by lia.
  - assert (1 ≤ v / 128) by (apply Z.div_le_lower_bound; lia).
    by rewrite (proj2 (Z.eqb_neq _ _)) by lia.
Qed.
Lemma log2_div_128 v : 128 ≤ v → Z.log2 (v / 128) = Z.log2 v - 7.
Proof.
  intros Hv. rewrite <-high_bits, Z.log2_shiftr by lia.
  assert (7 ≤ Z.log2 v) by (apply Z.log2_le_pow2; lia). lia.
Qed.
Lemma groups_succ v : 128 ≤ v → Z.log2 v / 7 = Z.log2 (v / 128) / 7 + 1.
Proof.
  intros Hv. rewrite log2_div_128 by done. rewrite <-Z.div_add by lia. f_equal. lia.
Qed.
Lemma groups_small v : 0 ≤ v < 128 → Z.log2 v / 7 = 0.
Proof.
  intros Hv. apply Z.div_small. split; [apply Z.log2_nonneg|].
  destruct (decide (v = 0)) as [->|]; [done|]. apply Z.log2_lt_pow2; lia.
Qed.
Lemma div_128_bound fuel v : 0 ≤ v < 2 ^ (7 * Z.of_nat (S fuel)) → 0 ≤ v / 128 < 2 ^ (7 * Z.of_nat fuel).
Proof.
  intros Hv. split; [by apply Z.div_pos; lia|]. apply Z.div_lt_upper_bound; [lia|].
  change 128 with (2 ^ 7). rewrite <-Z.pow_add_r by lia. replace (7 + 7 * Z.of_nat fuel) with (7 * Z.of_nat (S fuel)) by lia. lia.
Qed.
(** The number of seven-bit groups, both as the length of the bytes and as the code counts it. *)
Lemma varint_bytes_len fuel v :
  0 ≤ v < 2 ^ (7 * Z.of_nat fuel) → (0 < fuel)%nat → len (varint_bytes fuel v) = 1 + Z.log2 v / 7.
Proof.
  revert v. induction fuel as [|fuel IH]; intros v Hv Hf; [lia|].
  rewrite varint_bytes_S by lia. destruct (Z.ltb_spec v 128).
  - rewrite groups_small by lia. done.
  - rewrite groups_succ by done. pose proof (div_128_bound fuel v Hv) as Hd.
    assert (1 ≤ v / 128) by (apply Z.div_le_lower_bound; lia).
    assert (0 < fuel)%nat by (destruct fuel; [change (2 ^ (7 * Z.of_nat 0)) with 1 in Hd; lia|lia]).
    unfold len in *. cbn [length]. rewrite Nat2Z.inj_succ, IH by done. lia.
Qed.
Lemma canonical_len_loop fuel v n :
  0 ≤ v < 2 ^ (7 * Z.of_nat fuel) → canonical_varint_len_loop fuel v n = n + Z.log2 v / 7.
Proof.
  revert v n. induction fuel as [|fuel IH]; intros v n Hv.
  - change (2 ^ (7 * Z.of_nat 0)) with 1 in Hv. assert (v = 0) as -> by lia. cbn [canonical_varint_len_loop].
    change (Z.log2 0 / 7) with 0. lia.
  - cbn [canonical_varint_len_loop]. rewrite high_bits. destruct (Z.leb_spec 128 v).
    + rewrite IH by (by apply div_128_bound). rewrite (groups_succ v) by done. lia.
    + rewrite groups_small by lia. lia.
Qed.
Lemma u64_ten_groups v : is_u64 v → 0 ≤ v < 2 ^ (7 * Z.of_nat 10).
Proof. unfold is_u64, u64_max. cbn. lia. Qed.
Lemma canonical_len_log2 v : is_u64 v → canonical_varint_len v = 1 + Z.log2 v / 7.
Proof. intros Hv. by apply canonical_len_loop, u64_ten_groups. Qed.
Lemma varint_length_canonical v : varint_length v = canonical_varint_len v.
Proof.
  unfold varint_length, canonical_varint_len. generalize 10%nat, 1. intros fuel. revert v.
  induction fuel as [|fuel IH]; intros v n; [done|]. cbn. by rewrite IH.
Qed.
Lemma varint_length_spec v : is_u64 v → varint_length v = len (varint_bytes 10 v).
Proof.
  intros Hv. rewrite varint_length_canonical, canonical_len_log2, varint_bytes_len by
    (done || lia || by apply u64_ten_groups). done.
Qed.
Lemma varint_bytes_is_byte fuel v : 0 ≤ v → Forall is_byte (varint_bytes fuel v).
Proof.
  revert v. induction fuel as [|fuel IH]; intros v Hv; [constructor|].
  rewrite varint_bytes_S by done. destruct (Z.ltb_spec v 128).
  - repeat constructor; lia.
  - constructor; [|apply IH; apply Z.div_pos; lia]. pose proof (Z.mod_pos_bound v 128). split; lia.
Qed.
Lemma varint_length_bounds v : is_u64 v → 1 ≤ varint_length v ≤ 10.
Proof.
  intros Hv. rewrite varint_length_canonical, canonical_len_log2 by done.
  assert (0 ≤ Z.log2 v / 7) by (apply Z.div_pos; [apply Z.log2_nonneg|lia]).
  assert (Z.log2 v / 7 < 10); [|lia]. apply Z.div_lt_upper_bound; [lia|].
  destruct (decide (v = 0)) as [->|]; [done|]. apply Z.log2_lt_pow2; unfold is_u64, u64_max in *; lia.
Qed.

(** ** The parser *)
Lemma drop_cons_lookup {A} (l : list A) n x rest : drop n l = x :: rest → l !! n = Some x ∧ drop (S n) l = rest.
Proof.
  intros Hd. split.
  - by rewrite <-(Nat.add_0_r n), <-lookup_drop, Hd.
  - rewrite <-Nat.add_1_r, <-drop_drop, Hd. done.
Qed.
Lemma log2_split a v k : 0 ≤ k → 0 ≤ a < 2 ^ k → 0 < v → Z.log2 (a + v * 2 ^ k) = k + Z.log2 v.
Proof.
  intros Hk Ha Hv. apply Z.log2_unique; [pose proof (Z.log2_nonneg v); lia|].
  pose proof (Z.log2_spec v Hv) as [Hlo Hhi]. rewrite <-Z.add_succ_r, !Z.pow_add_r by
    (pose proof (Z.log2_nonneg v); lia).
  assert (0 < 2 ^ k) by (apply Z.pow_pos_nonneg; lia). nia.
Qed.
Lemma groups_split a v i :
  0 ≤ i → 0 ≤ a < 2 ^ (7 * i) → 0 < v → Z.log2 (a + v * 2 ^ (7 * i)) / 7 = i + Z.log2 v / 7.
Proof.
  intros Hi Ha Hv. rewrite log2_split by lia. rewrite (Z.add_comm (7 * i)), (Z.mul_comm 7 i), Z.div_add by lia. lia.
Qed.

(** The tenth group holds one bit. *)
Lemma group_bound i value b :
  0 ≤ i ≤ 9 → 0 ≤ value < 2 ^ (7 * i) → 0 ≤ b < 128 → (i = 9 → b ≤ 1) →
  value + b * 2 ^ (7 * i) ≤ u64_max.
Proof.
  intros Hi Hval Hb Hnine. unfold u64_max. destruct (decide (i = 9)) as [->|].
  - specialize (Hnine eq_refl). change (2 ^ (7 * 9)) with 9223372036854775808 in *.
    change (2 ^ 64) with 18446744073709551616. lia.
  - assert (2 ^ (7 * i) ≤ 2 ^ 56) by (apply Z.pow_le_mono_r; lia).
    change (2 ^ 56) with 72057594037927936 in *. change (2 ^ 64) with 18446744073709551616. nia.
Qed.
(** A zero last group is not counted by the canonical length. *)
Lemma group_count i value b fuel :
  0 ≤ i ≤ 8 → 0 ≤ value < 2 ^ (7 * i) → 128 ≤ b < 256 →
  canonical_varint_len (value + b mod 128 * 2 ^ (7 * i) + 0 * 2 ^ (7 * (i + 1)))
  ≠ i + 1 + len (varint_bytes (S fuel) 0).
Proof.
  intros Hi Hval Hb. pose proof (Z.mod_pos_bound b 128).
  assert (2 ^ (7 * (i + 1)) = 128 * 2 ^ (7 * i)) as Hpow.
  { replace (7 * (i + 1)) with (7 + 7 * i) by lia. by rewrite Z.pow_add_r by lia. }
  rewrite Z.mul_0_l, Z.add_0_r. set (r := value + b mod 128 * 2 ^ (7 * i)).
  assert (0 ≤ r < 2 ^ (7 * (i + 1))) as Hr by (subst r; rewrite Hpow; nia).
  assert (2 ^ (7 * (i + 1)) ≤ 2 ^ 63) by (apply Z.pow_le_mono_r; lia).
  rewrite canonical_len_log2 by (unfold is_u64, u64_max; change (2 ^ 64) with (2 * 2 ^ 63); lia).
  change (len (varint_bytes (S fuel) 0)) with 1.
  assert (Z.log2 r / 7 < i + 1); [|lia]. apply Z.div_lt_upper_bound; [lia|].
  destruct (decide (r = 0)) as [->|]; [cbn; lia|]. apply Z.log2_lt_pow2; lia.
Qed.

Section parse.
Context (bytes : list Z) (start : Z).
Context (Hstart : 0 ≤ start) (Hsize : len bytes ≤ u64_max).

(** What one round of the parser does with a byte in place. *)
Lemma parse_round fuel i value b rest :
  0 ≤ i → drop (Z.to_nat (start + i)) bytes = b :: rest →
  parse_varint_loop (S fuel) bytes start i value =
  if (i =? 9) && (1 <? b) then Err VMalformed
  else let value := Z.lor value (Z.shiftl (Z.land b 127) (i * 7)) in
       if Z.land b 128 =? 0 then
         if negb (i + 1 =? canonical_varint_len value) then Err VNonCanonical
         else Ok (value, start + i + 1)
       else parse_varint_loop fuel bytes start (i + 1) value.
Proof using Hstart Hsize.
  intros Hi [Hb _]%drop_cons_lookup. cbn [parse_varint_loop].
  pose proof (lookup_lt_Some _ _ _ Hb). rewrite (proj2 (checked_u64_Some _ (start + i))).
  2:{ unfold is_u64, len in *. lia. }
  cbn [ok_or mbind Result_bind]. by rewrite Hb.
Qed.

Lemma parse_last fuel i value v rest :
  0 ≤ i → 0 ≤ value < 2 ^ (7 * i) → 0 ≤ v < 128 → (i = 0 ∨ 0 < v) →
  value + v * 2 ^ (7 * i) ≤ u64_max → drop (Z.to_nat (start + i)) bytes = v :: rest →
  parse_varint_loop (S fuel) bytes start i value = Ok (value + v * 2 ^ (7 * i), start + i + 1).
Proof using Hstart Hsize.
  intros Hi Hval [Hv Hsmall] Hlead Hmax Hdrop.
  assert (0 < 2 ^ (7 * i)) by (apply Z.pow_pos_nonneg; lia).
  assert (is_u64 (value + v * 2 ^ (7 * i))) as Hu64 by (unfold is_u64; nia).
  rewrite (parse_round _ _ _ v rest) by done.
  assert ((i =? 9) && (1 <? v) = false) as ->.
  { apply andb_false_iff. destruct (Z.eqb_spec i 9) as [->|]; [right|by left].
    change (2 ^ (7 * 9)) with 9223372036854775808 in *.
    unfold u64_max in *. change (2 ^ 64) with 18446744073709551616 in *. lia. }
  rewrite low_bits, (Z.mod_small v), (Z.mul_comm i) by lia. cbn zeta.
  rewrite lor_shiftl_add, continue_bit_test by (lia || done || (split; lia)).
  rewrite (proj2 (Z.ltb_lt v 128)), canonical_len_log2 by done.
  replace (Z.log2 (value + v * 2 ^ (7 * i)) / 7) with i.
  2:{ destruct (decide (v = 0)) as [->|].
      - destruct Hlead as [->|]; [|lia]. change (2 ^ (7 * 0)) with 1 in *.
        assert (value = 0) as -> by lia. done.
      - rewrite groups_split, (groups_small v) by lia. lia. }
  rewrite (proj2 (Z.eqb_eq (i + 1) (1 + i))) by lia. done.
Qed.
Lemma parse_written fuel : ∀ i value v rest,
  Z.of_nat fuel = 10 - i → 0 ≤ i → 0 ≤ value < 2 ^ (7 * i) → 0 ≤ v → (i = 0 ∨ 0 < v) →
  value + v * 2 ^ (7 * i) ≤ u64_max →
  drop (Z.to_nat (start + i)) bytes = varint_bytes fuel v ++ rest →
  parse_varint_loop fuel bytes start i value =
  Ok (value + v * 2 ^ (7 * i), start + i + len (varint_bytes fuel v)).
Proof using Hstart Hsize.
  induction fuel as [|fuel IH]; intros i value v rest Hf Hi Hval Hv Hlead Hmax Hdrop.
  { assert (i = 10) as -> by lia. exfalso. change (2 ^ (7 * 10)) with 1180591620717411303424 in *.
    unfold u64_max in *. change (2 ^ 64) with 18446744073709551616 in *. lia. }
  assert (0 < 2 ^ (7 * i)) by (apply Z.pow_pos_nonneg; lia).
  rewrite varint_bytes_S in Hdrop |- * by done. destruct (Z.ltb_spec v 128) as [Hsmall|Hbig].
  - rewrite (parse_last fuel i value v rest) by done. done.
  - pose proof (Z.mod_pos_bound v 128). assert (1 ≤ v / 128) by (apply Z.div_le_lower_bound; lia).
    rewrite (parse_round _ _ _ (v mod 128 + 128) (varint_bytes fuel (v / 128) ++ rest)) by done.
    assert (v = 128 * (v / 128) + v mod 128) as Hdm by (apply Z.div_mod; lia).
    assert (i < 9) as Hi9.
    { destruct (Z.lt_ge_cases i 9); [done|]. assert (2 ^ 63 ≤ 2 ^ (7 * i)) by (apply Z.pow_le_mono_r; lia).
      unfold u64_max in *. change (2 ^ 64) with (2 * 2 ^ 63) in *. nia. }
    rewrite (proj2 (Z.eqb_neq i 9)) by lia. cbn [andb].
    rewrite low_bits, continue_bit_test by (split; lia).
    rewrite (proj2 (Z.ltb_ge _ 128)) by lia. cbn zeta.
    rewrite <-Z.add_mod_idemp_r, Z.mod_same, Z.add_0_r, Z.mod_mod by lia.
    rewrite (Z.mul_comm i), lor_shiftl_add by lia.
    assert (2 ^ (7 * (i + 1)) = 128 * 2 ^ (7 * i)) as Hpow.
    { replace (7 * (i + 1)) with (7 + 7 * i) by lia. by rewrite Z.pow_add_r by lia. }
    assert (value + v mod 128 * 2 ^ (7 * i) + v / 128 * 2 ^ (7 * (i + 1)) = value + v * 2 ^ (7 * i)) as Hsum
      by (rewrite Hpow; nia).
    rewrite (IH (i + 1) _ (v / 128) rest), Hsum; try lia.
    + do 2 f_equal. unfold len; cbn. lia.
    + rewrite Hpow. nia.
    + apply drop_cons_lookup in Hdrop as [_ Hdrop].
      by replace (Z.to_nat (start + (i + 1))) with (S (Z.to_nat (start + i))) by lia.
Qed.

(** What the parser accepts is the canonical encoding of what it returns. *)
Lemma parse_accepted fuel : ∀ i value r next,
  Forall is_byte bytes → Z.of_nat fuel = 10 - i → 0 ≤ i → 0 ≤ value < 2 ^ (7 * i) →
  parse_varint_loop fuel bytes start i value = Ok (r, next) →
  ∃ v rest, 0 ≤ v ∧ r = value + v * 2 ^ (7 * i) ∧ is_u64 r ∧
    drop (Z.to_nat (start + i)) bytes = varint_bytes fuel v ++ rest ∧
    next = start + i + len (varint_bytes fuel v) ∧
    canonical_varint_len r = i + len (varint_bytes fuel v).
Proof using Hstart Hsize.
  intros i value r next Hbytes. revert i value.
  induction fuel as [|fuel IH]; intros i value Hf Hi Hval; [done|].
  destruct (drop (Z.to_nat (start + i)) bytes) as [|b rest] eqn:Hdrop.
  { cbn [parse_varint_loop]. destruct (checked_u64 (start + i)) as [p|] eqn:Hp; [|done]. cbn.
    apply checked_u64_Some in Hp as [-> _]. rewrite lookup_ge_None_2; [done|].
    apply (f_equal length) in Hdrop. rewrite length_drop in Hdrop. cbn in Hdrop. lia. }
  assert (is_byte b) as Hb.
  { apply drop_cons_lookup in Hdrop as [Hb _]. by eapply Forall_lookup_1. }
  rewrite (parse_round _ _ _ b rest) by done. cbn zeta.
  destruct ((i =? 9) && (1 <? b)) eqn:Hnine; [done|].
  rewrite low_bits, continue_bit_test by done. pose proof (Z.mod_pos_bound b 128).
  rewrite (Z.mul_comm i), lor_shiftl_add by lia. unfold is_byte in Hb.
  assert (0 < 2 ^ (7 * i)) by (apply Z.pow_pos_nonneg; lia).
  destruct (Z.ltb_spec b 128) as [Hlast|Hmore].
  - rewrite Z.mod_small by lia.
    destruct (Z.eqb_spec (i + 1) (canonical_varint_len (value + b * 2 ^ (7 * i)))) as [Hcan|]; [|done].
    intros [= <- <-]. exists b, rest. rewrite varint_bytes_S, (proj2 (Z.ltb_lt b 128)) by lia.
    assert (len [b] = 1) as -> by done. split_and!; try done; [lia|].
    split; [nia|]. apply (group_bound i value b); [lia..|].
    intros ->. by apply Z.ltb_ge in Hnine.
  - assert (2 ^ (7 * (i + 1)) = 128 * 2 ^ (7 * i)) as Hpow.
    { replace (7 * (i + 1)) with (7 + 7 * i) by lia. by rewrite Z.pow_add_r by lia. }
    intros Hrec. assert (i ≠ 9) as Hi9.
    { intros ->. cbn [Z.eqb andb] in Hnine. apply Z.ltb_ge in Hnine. lia. }
    apply IH in Hrec as (v & rest' & Hv & -> & Hu & Hd & -> & Hc); [|lia|lia|rewrite Hpow; nia].
    replace (Z.to_nat (start + (i + 1))) with (S (Z.to_nat (start + i))) in Hd by lia.
    apply drop_cons_lookup in Hdrop as [_ Hrest]. rewrite Hrest in Hd. subst rest.
    assert (v ≠ 0) as Hv0.
    { intros ->. destruct fuel as [|fuel]; [lia|]. apply (group_count i value b fuel); done || lia. }
    exists (b mod 128 + 128 * v), rest'.
    assert ((b mod 128 + 128 * v) mod 128 = b mod 128) as Hm
      by (rewrite (Z.mul_comm 128), Z.mod_add, Z.mod_mod by lia; done).
    assert ((b mod 128 + 128 * v) / 128 = v) as Hq
      by (rewrite (Z.mul_comm 128), Z.div_add, (Z.div_small (b mod 128)) by lia; lia).
    assert (b = b mod 128 + 128) as Hb128.
    { rewrite (Z.mod_eq b 128) by lia. assert (b / 128 = 1) as ->; [|lia].
      symmetry. apply (Z.div_unique b 128 1 (b - 128)); lia. }
    rewrite varint_bytes_S, (proj2 (Z.ltb_ge _ 128)), Hm, Hq, <-Hb128 by lia.
    assert (value + b mod 128 * 2 ^ (7 * i) + v * 2 ^ (7 * (i + 1))
            = value + (b mod 128 + 128 * v) * 2 ^ (7 * i)) as Hsum by (rewrite Hpow; ring).
    split_and!; try done; unfold len in *; cbn [length]; try lia. cbn. by rewrite Hd.
Qed.
End parse.

(** ** Reading and writing agree *)
Lemma parse_written_varint pre v rest :
  is_u64 v → len (pre ++ varint_bytes 10 v ++ rest) ≤ u64_max →
  parse_varint (pre ++ varint_bytes 10 v ++ rest) (len pre) = Ok (v, len pre + varint_length v).
Proof.
  intros Hv Hlen. unfold parse_varint.
  rewrite (parse_written _ (len pre) (Nat2Z.is_nonneg _) Hlen 10 0 0 v rest); try (lia || done).
  - rewrite varint_length_spec by done. by rewrite Z.mul_0_r, Z.pow_0_r, Z.mul_1_r, Z.add_0_l, Z.add_0_r.
  - apply Hv.
  - rewrite Z.mul_0_r, Z.pow_0_r, Z.mul_1_r. apply Hv.
  - unfold len. replace (Z.to_nat (Z.of_nat (length pre) + 0)) with (length pre) by lia. by rewrite drop_app_length.
Qed.
Lemma parse_varint_inv bytes start v next :
  Forall is_byte bytes → 0 ≤ start → len bytes ≤ u64_max → parse_varint bytes start = Ok (v, next) →
  is_u64 v ∧ next = start + varint_length v ∧ next ≤ len bytes ∧
  ∃ rest, drop (Z.to_nat start) bytes = varint_bytes 10 v ++ rest ∧ drop (Z.to_nat next) bytes = rest.
Proof.
  intros Hb Hs Hlen Hp.
  destruct (parse_accepted bytes start Hs Hlen 10 0 0 v next Hb) as (v' & rest & Hv & Hr & Hu & Hd & Hn & _);
    try (lia || done).
  rewrite Z.mul_0_r, Z.pow_0_r, Z.mul_1_r, Z.add_0_l in Hr. subst v'.
  rewrite Z.add_0_r in Hn, Hd. rewrite varint_length_spec by done.
  pose proof (f_equal length Hd) as Hl. rewrite length_drop, length_app in Hl.
  pose proof (varint_length_bounds v Hu) as Hvl. rewrite varint_length_spec in Hvl by done.
  split_and!; [done|done|unfold len in *; lia|]. exists rest. split; [done|]. subst next.
  replace (Z.to_nat (start + len (varint_bytes 10 v))) with (Z.to_nat start + length (varint_bytes 10 v))%nat
    by (unfold len in *; lia).
  by rewrite <-drop_drop, Hd, drop_app_length.
Qed.

(** The strict parser reads exactly the canonical varints: it accepts at a position, with a
    value and the position after it, if and only if the value is a 64-bit integer and the bytes
    between the two positions are the ones the writer emits for it. *)
Theorem varint_parsed_iff_written bytes start v next :
  Forall is_byte bytes → 0 ≤ start → len bytes ≤ u64_max →
  parse_varint bytes start = Ok (v, next) ↔
  is_u64 v ∧ next = start + varint_length v ∧ slice start next bytes = varint_bytes 10 v.
Proof.
  intros Hb Hs Hlen. split.
  - intros (Hu & -> & Hle & rest & Hd & _)%parse_varint_inv; [|done..]. split_and!; [done..|].
    unfold slice. rewrite Hd, varint_length_spec by done. apply take_app_length'. unfold len. lia.
  - intros (Hu & -> & Hsl). pose proof (varint_length_bounds v Hu) as Hv. rewrite varint_length_spec in Hv |- * by done.
    assert (start ≤ len bytes) as Hin.
    { destruct (Z.le_gt_cases start (len bytes)); [done|]. unfold slice in Hsl.
      rewrite drop_ge, take_nil in Hsl by (unfold len in *; lia). rewrite <-Hsl in Hv. unfold len in Hv; cbn in Hv. lia. }
    set (pre := take (Z.to_nat start) bytes). set (tl := drop (Z.to_nat start) bytes).
    assert (bytes = pre ++ varint_bytes 10 v ++ drop (length (varint_bytes 10 v)) tl) as Heq.
    { assert (take (length (varint_bytes 10 v)) tl = varint_bytes 10 v) as Htl.
      { rewrite <-Hsl at 2. unfold slice. rewrite varint_length_spec by done. f_equal. unfold len. lia. }
      rewrite <-(take_drop (Z.to_nat start) bytes) at 1. unfold pre. f_equal. fold tl.
      rewrite <-Htl at 1. by rewrite take_drop. }
    assert (len pre = start) as Hpre by (unfold pre, len in *; rewrite length_take; lia).
    rewrite Heq, <-Hpre. rewrite parse_written_varint; [by rewrite varint_length_spec|done|]. by rewrite <-Heq.
Qed.
