(* ===== verification/StrictFacts.v ===== *)
(** * What strict validation accepts

    The grammar of the payloads [strict.rs] lets through to the generated decoder, as a relation on
    records and bytes that mentions no cursor, and the theorem that the validator stays within it. *)
From stdpp Require Import base tactics list gmap strings.
From Stdlib Require Import ZArith Lia.
From S2P Require Import Prelude Ordering Protocol Strict Frame VarintFacts.
Open Scope Z_scope.

(** ** Slices *)
Section slices.
Context (bytes : list Z) (Hbytes : Forall is_byte bytes) (Hsize : len bytes ≤ u64_max).
Lemma slice_join p q r :
  0 ≤ p ≤ q → q ≤ r → slice p q bytes ++ slice q r bytes = slice p r bytes.
Proof using.
  intros Hp Hq. unfold slice. rewrite <-(take_drop (Z.to_nat (q - p)) (take (Z.to_nat (r - p)) _)).
  f_equal.
  - rewrite take_take. f_equal. lia.
  - rewrite skipn_firstn_comm, drop_drop. f_equal; [lia|]. f_equal. lia.
Qed.
Lemma slice_len p q : 0 ≤ p ≤ q → q ≤ len bytes → len (slice p q bytes) = q - p.
Proof using. intros Hp Hq. unfold slice, len in *. rewrite length_take, length_drop. lia. Qed.
Lemma slice_all : slice 0 (len bytes) bytes = bytes.
Proof using. unfold slice, len. rewrite drop_0, take_ge; [done|lia]. Qed.
Lemma slice_bytes p q : Forall is_byte (slice p q bytes).
Proof using Hbytes. apply Forall_take, Forall_drop, Hbytes. Qed.

Lemma parse_varint_slice p v next :
  0 ≤ p → parse_varint bytes p = Ok (v, next) →
  is_u64 v ∧ p < next ≤ len bytes ∧ slice p next bytes = varint_bytes 10 v.
Proof using Hbytes Hsize.
  intros Hp Hv. apply parse_varint_inv in Hv as (Hu & -> & Hle & rest & Hd & _); [|done..].
  pose proof (varint_length_bounds v Hu). split_and!; [done|lia|lia|].
  unfold slice. rewrite Hd, varint_length_spec by done. unfold len. apply take_app_length'. lia.
Qed.
Lemma fixed_end_slice p w stop :
  0 ≤ p → 0 < w → fixed_end bytes p w = Ok stop → p < stop ≤ len bytes ∧ len (slice p stop bytes) = w.
Proof using.
  unfold fixed_end. intros Hp Hw. destruct (checked_u64 (p + w)) as [s|] eqn:Hs; [|done]. cbn.
  apply checked_u64_Some in Hs as [-> _]. destruct (Z.ltb_spec (len bytes) (p + w)); [done|].
  intros [= <-]. split; [lia|]. rewrite slice_len; lia.
Qed.
(** A length prefix and what it announces. *)
Lemma take_length_slice p payload stop off :
  0 ≤ p → take_length bytes p = Ok (payload, stop, off) →
  is_u64 (len payload) ∧ p < stop ≤ len bytes ∧ Forall is_byte payload ∧ len payload ≤ len bytes ∧
  slice p stop bytes = varint_bytes 10 (len payload) ++ payload.
Proof using Hbytes Hsize.
  unfold take_length. intros Hp. destruct (parse_varint bytes p) as [[n o]|] eqn:Hv; [|done]. cbn [mbind Result_bind map_err].
  apply parse_varint_slice in Hv as (Hu & Ho & Hs); [|done].
  destruct (checked_u64 (o + n)) as [e|] eqn:He; [|done]. cbn [mbind Result_bind ok_or].
  apply checked_u64_Some in He as [-> _]. destruct (Z.ltb_spec (len bytes) (o + n)) as [|Hle]; [done|].
  intros [= <- <- <-]. pose proof Hu as [Hn _].
  assert (take (Z.to_nat n) (drop (Z.to_nat o) bytes) = slice o (o + n) bytes) as ->
    by (unfold slice; do 2 f_equal; lia).
  rewrite slice_len by lia. replace (o + n - o) with n by lia.
  split_and!; [done|lia|done|apply slice_bytes|lia|]. by rewrite <-Hs, slice_join by lia.
Qed.
End slices.

(** ** The grammar *)
(** The integers a varint field may hold: a 32-bit signed kind is sign-extended to 64 bits. *)
Definition varint_fits (kind : Type_) (v : Z) : Prop :=
  match kind with
  | TInt32 | TEnum => ∃ n, - 2 ^ 31 ≤ n < 2 ^ 31 ∧ v = n mod 2 ^ 64
  | TUint32 | TSint32 => v < 2 ^ 32
  | TBool => v ≤ 1
  | _ => True
  end.
Definition is_varint_kind (kind : Type_) : Prop := natural_wire_type kind = 0.
(** A field of the wire: its number, its wire type, the bytes after the tag, and how many items it
    contributes. *)
Record WireRecord := { wr_number : Z; wr_type : Z; wr_body : list Z; wr_items : Z }.
Definition record_bytes (r : WireRecord) : list Z := varint_bytes 10 (wr_number r * 8 + wr_type r) ++ wr_body r.
Definition delimited (payload : list Z) : list Z := varint_bytes 10 (len payload) ++ payload.

Section grammar.
Context (schema : WireSchema) (policy : ProtocolPolicy).
Section level.
Context (nested : string → list Z → Prop).
Definition byte_cap (field : FieldSchema) : option Z :=
  match max_bytes (field_limit policy (fs_full_name field)), fs_kind field with
  | Some cap, _ => Some cap
  | None, TString => Some (max_string_bytes policy)
  | None, _ => None
  end.
Definition delimited_ok (field : FieldSchema) (payload : list Z) : Prop :=
  (∀ cap, byte_cap field = Some cap → len payload ≤ cap) ∧
  (fs_kind field = TString → valid_utf8 payload = true) ∧
  (fs_kind field = TMessage → ∃ name, fs_type_name field = Some name ∧ nested name payload).
Inductive body_ok (field : FieldSchema) : Z → list Z → Z → Prop :=
| body_varint v :
    natural_wire_type (fs_kind field) = 0 → is_u64 v → varint_fits (fs_kind field) v →
    body_ok field 0 (varint_bytes 10 v) 1
| body_fixed b w :
    packed_width (fs_kind field) = Some w → len b = w → body_ok field (natural_wire_type (fs_kind field)) b 1
| body_delimited payload :
    natural_wire_type (fs_kind field) = 2 → delimited_ok field payload →
    body_ok field 2 (delimited payload) 1
| body_packed_fixed payload w :
    fs_label field = LabelRepeated → packed_width (fs_kind field) = Some w → len payload mod w = 0 →
    body_ok field 2 (delimited payload) (len payload / w)
| body_packed_varints vs :
    fs_label field = LabelRepeated → natural_wire_type (fs_kind field) = 0 →
    Forall (λ v, is_u64 v ∧ varint_fits (fs_kind field) v) vs →
    body_ok field 2 (delimited (concat (varint_bytes 10 <$> vs))) (len vs).
Inductive skipped_ok : Z → list Z → Prop :=
| skipped_varint v : is_u64 v → skipped_ok 0 (varint_bytes 10 v)
| skipped_fixed64 b : len b = 8 → skipped_ok 1 b
| skipped_delimited payload : skipped_ok 2 (delimited payload)
| skipped_fixed32 b : len b = 4 → skipped_ok 5 b.
Definition record_ok (message : MessageSchema) (r : WireRecord) : Prop :=
  0 < wr_number r ≤ MAX_FIELD_NUMBER ∧ in_protobuf_reserved (wr_number r) = false ∧
  0 ≤ wr_type r < 8 ∧
  match ms_fields message !! wr_number r with
  | Some field => body_ok field (wr_type r) (wr_body r) (wr_items r)
  | None => in_reserved (ms_reserved_ranges message) (wr_number r) = false ∧ skipped_ok (wr_type r) (wr_body r)
  end.
Definition known (message : MessageSchema) (r : WireRecord) : option FieldSchema :=
  ms_fields message !! wr_number r.
Definition is_singular (message : MessageSchema) (r : WireRecord) : Prop :=
  ∃ field, known message r = Some field ∧ fs_label field ≠ LabelRepeated.
#[global] Instance is_singular_dec message r : Decision (is_singular message r).
Proof.
  destruct (known message r) as [field|] eqn:Hk.
  - destruct (decide (fs_label field = LabelRepeated)) as [Hl|Hl].
    + right. intros (f & Hf & Hn). congruence.
    + left. by exists field.
  - right. intros (f & Hf & Hn). congruence.
Defined.
Definition items_of (number : Z) (records : list WireRecord) : Z :=
  foldr Z.add 0 (wr_items <$> filter (λ r, wr_number r = number) records).
Definition conforms_here (message : MessageSchema) (records : list WireRecord) : Prop :=
  Forall (record_ok message) records ∧
  NoDup (wr_number <$> filter (is_singular message) records) ∧
  (∀ number field, ms_fields message !! number = Some field → fs_label field = LabelRepeated →
     items_of number records ≤ Z.max 0 (repeated_cap policy field)) ∧
  (∀ r r' f f' oneof, r ∈ records → r' ∈ records → known message r = Some f → known message r' = Some f' →
     fs_oneof f = Some oneof → fs_oneof f' = Some oneof → fs_name f = fs_name f') ∧
  len (filter (λ r, known message r = None) records) ≤ Z.max 0 (max_repeated_field_items policy).
End level.
(** The payload conforms to the message: it is a sequence of canonical records within the limits, and so
    are its nested messages, [levels] deep. *)
Fixpoint conforms (levels : nat) (name : string) (bytes : list Z) : Prop :=
  match levels with
  | O => False
  | S levels =>
      ∃ message records, messages schema !! name = Some message ∧ bytes = concat (record_bytes <$> records) ∧
        conforms_here (conforms levels) message records
  end.
End grammar.

(** ** Values *)
Lemma wire_fault_Ok {A} m o (r : Result WireViolation A) a : wire_fault m o r = Ok a → r = Ok a.
Proof. destruct r; cbn; congruence. Qed.
Lemma map_err_Ok' {E F A} (f : E → F) (r : Result E A) a : map_err f r = Ok a → r = Ok a.
Proof. destruct r; cbn; congruence. Qed.
Lemma decode_i32_wire_Some v n : decode_i32_wire v = Some n → - 2 ^ 31 ≤ n < 2 ^ 31 ∧ v = n mod 2 ^ 64.
Proof.
  unfold decode_i32_wire. pose proof (Z.mod_pos_bound v (2 ^ 32)).
  destruct (Z.ltb_spec (v mod 2 ^ 32) (2 ^ 31)) as [Hl|Hl].
  - rewrite (proj2 (Z.ltb_ge (v mod 2 ^ 32) 0)) by lia. destruct (Z.eqb_spec v (v mod 2 ^ 32)) as [Hv|]; [|done].
    intros [= <-]. split; [lia|]. rewrite Z.mod_small by lia. done.
  - rewrite (proj2 (Z.ltb_lt (v mod 2 ^ 32 - 2 ^ 32) 0)) by lia. destruct (_ =? _) eqn:Hv; [|done].
    apply Z.eqb_eq in Hv. intros [= <-]. split; [lia|done].
Qed.
Lemma validate_varint_fits m field v o :
  validate_varint_value m field v o = Ok tt → varint_fits (fs_kind field) v.
Proof.
  unfold validate_varint_value. destruct (fs_kind field) eqn:Hk; cbn; try done;
    repeat case_bool_decide; cbn; try done; intros Hv.
  all: try (apply Z.ltb_lt; by destruct (v <? _)).
  all: try (apply Z.ltb_ge; by destruct (1 <? v)).
  all: destruct (decode_i32_wire v) as [n|] eqn:Hn; [|by (destruct H as [? [=]] || done)].
  all: exists n; by apply decode_i32_wire_Some.
Qed.

Section values.
Context (bytes : list Z) (Hbytes : Forall is_byte bytes) (Hsize : len bytes ≤ u64_max).

Lemma varint_value_sound m field o p v next :
  0 ≤ p → natural_wire_type (fs_kind field) = 0 → parse_varint bytes p = Ok (v, next) →
  validate_varint_value m field v o = Ok tt →
  p < next ≤ len bytes ∧ is_u64 v ∧ varint_fits (fs_kind field) v ∧ slice p next bytes = varint_bytes 10 v.
Proof using Hbytes Hsize.
  intros Hp Hk Hv Hval. apply parse_varint_slice in Hv as (Hu & Hn & Hs); [|done..].
  split_and!; [lia|lia|done..| |done]. by eapply validate_varint_fits.
Qed.
Lemma validate_packed_loop_sound fuel m field o remaining cap : ∀ count p n,
  natural_wire_type (fs_kind field) = 0 → 0 ≤ p ≤ len bytes → len bytes - p < Z.of_nat fuel →
  validate_packed_loop fuel m field bytes o remaining cap count p = Ok n →
  ∃ vs, slice p (len bytes) bytes = concat (varint_bytes 10 <$> vs) ∧ n = count + len vs ∧
    Forall (λ v, is_u64 v ∧ varint_fits (fs_kind field) v) vs.
Proof using Hbytes Hsize.
  induction fuel as [|fuel IH]; intros count p n Hk Hp Hf; [lia|]. cbn [validate_packed_loop].
  destruct (Z.leb_spec (len bytes) p) as [Hend|Hmore].
  { intros [= <-]. exists []. split_and!; [|unfold len; cbn; lia|constructor].
    unfold slice. by replace (Z.to_nat (len bytes - p)) with 0%nat by lia. }
  destruct (count =? remaining); [done|].
  destruct (parse_varint bytes p) as [[v next]|] eqn:Hv; [|done]. cbn [map_err wire_fault mbind Result_bind].
  destruct (validate_varint_value m field v (o + p)) as [[]|] eqn:Hval; [|done]. cbn [mbind Result_bind].
  destruct (varint_value_sound _ _ _ _ _ _ (proj1 Hp) Hk Hv Hval) as (Hn & Hu & Hfit & Hs).
  intros (vs & Hvs & -> & Hall)%IH; [|done|lia|lia]. exists (v :: vs). split_and!.
  - cbn [fmap list_fmap concat]. by rewrite <-Hvs, <-Hs, slice_join by lia.
  - unfold len; cbn [length]; lia.
  - by constructor.
Qed.
Lemma packed_kinds kind : is_packable kind = true →
  (∃ w, packed_width kind = Some w ∧ 0 < w) ∨ (packed_width kind = None ∧ natural_wire_type kind = 0).
Proof using. destruct kind; intros; try done; first [by right | by left; eexists]. Qed.
End values.
Lemma validate_packed_sound nested policy m field payload o remaining cap n :
  Forall is_byte payload → len payload ≤ u64_max → fs_label field = LabelRepeated →
  is_packable (fs_kind field) = true → validate_packed m field payload o remaining cap = Ok n →
  body_ok policy nested field 2 (delimited payload) n.
Proof.
  intros Hb Hs Hl Hk. unfold validate_packed. destruct (packed_kinds _ Hk) as [(w & Hw & Hpos)|[Hw Hv]]; rewrite Hw.
  - destruct (Z.eqb_spec (len payload mod w) 0) as [Hm|]; [|done]. cbn.
    destruct (_ <? _); [done|]. intros [= <-]. by econstructor.
  - intros Hp. apply validate_packed_loop_sound in Hp as (vs & Hvs & -> & Hall); [|done..|unfold len; lia|unfold len; lia].
    rewrite slice_all in Hvs. rewrite Hvs, Z.add_0_l. by constructor.
Qed.

(** The shapes of a value that is not packed. *)
Inductive value_shape (kind : Type_) : Prop :=
| shape_fixed w : packed_width kind = Some w → 0 < w → value_shape kind
| shape_delimited : natural_wire_type kind = 2 → kind ∈ [TString; TBytes; TMessage] → value_shape kind
| shape_varint : natural_wire_type kind = 0 → value_shape kind
| shape_group : kind = TGroup → value_shape kind.
Lemma value_shapes kind : value_shape kind.
Proof.
  destruct kind; try (by eapply shape_fixed); try (by apply shape_varint); try (by apply shape_group);
    apply shape_delimited; (done || set_solver).
Qed.

Section fields.
Context (policy : ProtocolPolicy) (bytes : list Z).
Context (Hbytes : Forall is_byte bytes) (Hsize : len bytes ≤ u64_max).
Context (nested : string → list Z → Z → PR unit) (Nested : string → list Z → Prop).
Context (nested_sound : ∀ name payload o,
  Forall is_byte payload → len payload ≤ u64_max → nested name payload o = Ok tt → Nested name payload).

Lemma delimited_value_sound m field p o next :
  0 ≤ p → fs_kind field ∈ [TString; TBytes; TMessage] →
  validate_value policy nested m field bytes p o = Ok next →
  p < next ≤ len bytes ∧ ∃ payload, slice p next bytes = delimited payload ∧ delimited_ok policy Nested field payload.
Proof using Hbytes Hsize nested_sound.
  intros Hp Hk Hval.
  assert (∃ payload stop off, take_length bytes p = Ok (payload, stop, off) ∧
    (default (if decide (fs_kind field = TString) then max_string_bytes policy else len bytes)
       (max_bytes (field_limit policy (fs_full_name field))) <? len payload) = false ∧
    bool_decide (fs_kind field = TString) && negb (valid_utf8 payload) = false ∧
    (fs_kind field = TMessage → ∃ name, fs_type_name field = Some name ∧ nested name payload (o + off) = Ok tt) ∧
    stop = next) as (payload & stop & off & Ht & Hcap & Hutf & Hmsg & ->).
  { unfold validate_value in Hval.
    destruct (fs_kind field) eqn:Hf; try (exfalso; set_solver);
      (destruct (take_length bytes p) as [[[payload stop] off]|] eqn:Ht; [|done]);
      cbn [wire_fault map_err mbind Result_bind] in Hval; exists payload, stop, off; split; try done;
      (destruct (_ <? len payload); [done|split; [done|]]);
      (destruct (_ && _) eqn:Hu; [done|split; [done|]]);
      (destruct (decide _) as [?|?]; try congruence); cbn in Hval; try (split; [done|congruence]).
    destruct (fs_type_name field) as [name|]; [|done]. cbn in Hval.
    destruct (nested name payload (o + off)) as [[]|] eqn:Hn; [|done]. cbn in Hval.
    split; [intros _; by exists name|congruence]. }
  apply take_length_slice in Ht as (Hu & Hn & Hpb & Hpl & Hs); [|done..].
  split; [done|]. exists payload. split; [done|]. apply Z.ltb_ge in Hcap. split_and!.
  - unfold byte_cap. intros cap. destruct (max_bytes _); [by intros [= <-]|].
    destruct (fs_kind field) eqn:Hf; try done. intros [= <-]. cbn in Hcap. done.
  - intros Hf. rewrite bool_decide_true in Hutf by done. by destruct (valid_utf8 payload).
  - intros Hf. destruct (Hmsg Hf) as (name & Hname & Hnest). exists name. split; [done|].
    eapply nested_sound; [done| |done]. lia.
Qed.
Lemma validate_value_sound m field p o next :
  0 ≤ p → validate_value policy nested m field bytes p o = Ok next →
  p < next ≤ len bytes ∧ body_ok policy Nested field (natural_wire_type (fs_kind field)) (slice p next bytes) 1.
Proof using Hbytes Hsize nested_sound.
  intros Hp Hval. destruct (value_shapes (fs_kind field)) as [w Hw Hpos|Hn Hk|Hv|Hg].
  - assert (fixed_end bytes p w = Ok next) as Hf.
    { unfold validate_value in Hval. destruct (fs_kind field); try done; injection Hw as <-;
        by apply wire_fault_Ok in Hval. }
    apply fixed_end_slice in Hf as [Hle Hlen]; [|lia..]. split; [done|]. by eapply body_fixed.
  - apply delimited_value_sound in Hval as (Hle & payload & -> & Hok); [|done..].
    split; [done|]. rewrite Hn. by apply body_delimited.
  - assert (∃ v, parse_varint bytes p = Ok (v, next) ∧ validate_varint_value m field v (o + p) = Ok tt)
      as (v & Hpv & Hvv).
    { unfold validate_value in Hval. destruct (fs_kind field); try done;
        (destruct (parse_varint bytes p) as [[v n]|]; [|done]);
        cbn [wire_fault map_err mbind Result_bind] in Hval;
        (destruct (validate_varint_value m field v (o + p)) as [[]|] eqn:Hvv; [|done]);
        cbn [mbind Result_bind] in Hval; exists v; split; congruence. }
    destruct (varint_value_sound bytes Hbytes Hsize m field _ p v next Hp Hv Hpv Hvv) as (Hle & Hu & Hfit & ->).
    split; [done|]. rewrite Hv. by apply body_varint.
  - unfold validate_value in Hval. by rewrite Hg in Hval.
Qed.
Lemma validate_items_sound m field observed wt to p o added next :
  0 ≤ p → validate_items policy nested m field bytes observed wt to p o = Ok (added, next) →
  p < next ≤ len bytes ∧ body_ok policy Nested field wt (slice p next bytes) added.
Proof using Hbytes Hsize nested_sound.
  intros Hp. unfold validate_items.
  destruct (bool_decide (fs_label field = LabelRepeated) && is_packable (fs_kind field) && (wt =? 2)) eqn:Hpk.
  - apply andb_true_iff in Hpk as [[Hl%bool_decide_eq_true Hk]%andb_true_iff ->%Z.eqb_eq].
    destruct (take_length bytes p) as [[[payload stop] off]|] eqn:Ht; [|done].
    cbn [wire_fault map_err mbind Result_bind].
    destruct (validate_packed _ _ _ _ _ _) as [n|] eqn:Hv; [|done]. intros [= <- <-].
    apply take_length_slice in Ht as (Hu & Hn & Hpb & Hpl & Hs); [|done..]. split; [done|]. rewrite Hs.
    eapply (validate_packed_sound Nested policy); [done|lia|done..].
  - destruct (Z.eqb_spec wt (natural_wire_type (fs_kind field))) as [->|]; [|done]. cbn [negb].
    destruct (validate_value _ _ _ _ _ _ _) as [n|] eqn:Hv; [|done]. intros [= <- <-].
    by apply validate_value_sound in Hv.
Qed.
Lemma skip_unknown_sound m p wt o next :
  0 ≤ p → skip_unknown_value m bytes p wt o = Ok next →
  p < next ≤ len bytes ∧ skipped_ok wt (slice p next bytes).
Proof using Hbytes Hsize.
  intros Hp Hs%wire_fault_Ok.
  destruct (decide (wt = 0)) as [->|]; [|destruct (decide (wt = 1)) as [->|]; [|
    destruct (decide (wt = 2)) as [->|]; [|destruct (decide (wt = 5)) as [->|]]]].
  - destruct (parse_varint bytes p) as [[v n]|] eqn:Hv; [|done]. injection Hs as <-.
    apply parse_varint_slice in Hv as (Hu & Hle & ->); [|done..]. split; [done|]. by constructor.
  - apply fixed_end_slice in Hs as [Hle Hl]; [|lia..]. split; [done|]. by constructor.
  - destruct (take_length bytes p) as [[[payload stop] off]|] eqn:Ht; [|done]. injection Hs as <-.
    apply take_length_slice in Ht as (_ & Hle & _ & _ & ->); [|done..]. split; [done|]. constructor.
  - apply fixed_end_slice in Hs as [Hle Hl]; [|lia..]. split; [done|]. by constructor.
  - exfalso. destruct wt as [|[[[]|[]|]|[[]|[]|]|]|]; try done.
Qed.
Lemma read_tag_sound m p o number wt after :
  0 ≤ p → read_tag m bytes p o = Ok (number, wt, after) →
  p < after ≤ len bytes ∧ slice p after bytes = varint_bytes 10 (number * 8 + wt) ∧
  0 < number ≤ MAX_FIELD_NUMBER ∧ in_protobuf_reserved number = false ∧ 0 ≤ wt < 8.
Proof using Hbytes Hsize.
  intros Hp. unfold read_tag. destruct (parse_varint bytes p) as [[tag a]|] eqn:Hv; [|done].
  cbn [wire_fault map_err mbind Result_bind]. destruct (in_protobuf_reserved (Z.shiftr tag 3)) eqn:Hr; [done|].
  destruct ((Z.shiftr tag 3 =? 0) || (MAX_FIELD_NUMBER <? Z.shiftr tag 3)) eqn:Hn; [done|].
  apply orb_false_iff in Hn as [Hn0%Z.eqb_neq Hmax%Z.ltb_ge].
  intros [= <- <- <-]. apply parse_varint_slice in Hv as (Hu & Hle & ->); [|done..].
  change 7 with (Z.ones 3). rewrite Z.land_ones, Z.shiftr_div_pow2 in * by lia.
  pose proof (Z.mod_pos_bound tag (2 ^ 3)). assert (0 ≤ tag / 2 ^ 3) by (apply Z.div_pos; unfold is_u64 in Hu; lia).
  pose proof (Z.div_mod tag (2 ^ 3)). change (2 ^ 3) with 8 in *. split_and!; try lia; [|done]. f_equal. lia.
Qed.
End fields.

(** ** The loop *)
Section loop.
Context (policy : ProtocolPolicy) (message : MessageSchema) (bytes : list Z).
Context (Hbytes : Forall is_byte bytes) (Hsize : len bytes ≤ u64_max).
Context (nested : string → list Z → Z → PR unit) (Nested : string → list Z → Prop).
Context (nested_sound : ∀ name payload o,
  Forall is_byte payload → len payload ≤ u64_max → nested name payload o = Ok tt → Nested name payload).

(** What the local variables say of the records read so far. *)
Record consumed (cur : Cursor) (rs : list WireRecord) : Prop := {
  co_range : 0 ≤ cur_position cur ≤ len bytes;
  co_bytes : slice 0 (cur_position cur) bytes = concat (record_bytes <$> rs);
  co_records : Forall (record_ok policy Nested message) rs;
  co_singular : cur_singular cur = list_to_set (wr_number <$> filter (is_singular message) rs);
  co_nodup : NoDup (wr_number <$> filter (is_singular message) rs);
  co_counts number field : ms_fields message !! number = Some field → fs_label field = LabelRepeated →
    default 0 (cur_counts cur !! number) = items_of number rs ∧
    items_of number rs ≤ Z.max 0 (repeated_cap policy field);
  co_oneofs r f oneof : r ∈ rs → known message r = Some f → fs_oneof f = Some oneof →
    cur_oneofs cur !! oneof = Some (fs_name f);
  co_unknown : cur_unknown cur = len (filter (λ r, known message r = None) rs) ∧
    cur_unknown cur ≤ Z.max 0 (max_repeated_field_items policy)
}.
Lemma items_of_app number rs r :
  items_of number (rs ++ [r]) = items_of number rs + (if decide (wr_number r = number) then wr_items r else 0).
Proof using.
  unfold items_of. rewrite filter_app, fmap_app, foldr_app.
  assert (∀ (l : list Z) x, foldr Z.add x l = foldr Z.add 0 l + x) as Hx
    by (intros l x; induction l as [|y l IH]; cbn; lia).
  rewrite Hx. f_equal. rewrite filter_cons, filter_nil. destruct (decide (wr_number r = number)); cbn; lia.
Qed.
Lemma record_consumed cur after next number wt added rs :
  consumed cur rs → cur_position cur < after → after < next ≤ len bytes →
  slice (cur_position cur) after bytes = varint_bytes 10 (number * 8 + wt) →
  slice 0 next bytes =
  concat (record_bytes <$> rs ++ [{| wr_number := number; wr_type := wt; wr_body := slice after next bytes; wr_items := added |}]).
Proof using.
  intros [Hr Hc _ _ _ _ _ _] Ha Hn Ht. rewrite fmap_app, concat_app, <-Hc. cbn [fmap list_fmap concat].
  unfold record_bytes at 1. cbn [wr_number wr_type wr_body].
  rewrite app_nil_r, <-Ht, slice_join, slice_join by lia. done.
Qed.
Lemma validate_unknown_sound m cur rs number wt after o cur' :
  consumed cur rs → ms_fields message !! number = None → cur_position cur < after ≤ len bytes →
  slice (cur_position cur) after bytes = varint_bytes 10 (number * 8 + wt) →
  0 < number ≤ MAX_FIELD_NUMBER → in_protobuf_reserved number = false → 0 ≤ wt < 8 →
  validate_unknown policy m message bytes cur number wt after o = Ok cur' →
  ∃ r, consumed cur' (rs ++ [r]) ∧ cur_position cur < cur_position cur'.
Proof using Hbytes Hsize.
  intros Hcon Hnone Ha Ht Hnum Hres Hwt. unfold validate_unknown.
  destruct (_ || (max_repeated_field_items policy <? _)) eqn:Hcap; [done|].
  apply orb_false_iff in Hcap as [_ Hcap%Z.ltb_ge]. rewrite Hres. cbn [orb].
  destruct (in_reserved _ _) eqn:Hr; [done|].
  destruct (skip_unknown_value _ _ _ _ _) as [next|] eqn:Hs; [|done]. intros [= <-].
  pose proof (co_range _ _ Hcon) as Hpos. apply skip_unknown_sound in Hs as (Hle & Hok); [|done..|lia].
  set (r := {| wr_number := number; wr_type := wt; wr_body := slice after next bytes; wr_items := 0 |}).
  assert (known message r = None) as Hk by done.
  assert (¬ is_singular message r) as Hns by (intros (f & Hf & _); congruence).
  exists r. pose proof Hcon as [_ Hb Hrec Hsing Hnd Hcnt Hone [Hunk _]]. split; [|cbn; lia].
  assert (filter (is_singular message) (rs ++ [r]) = filter (is_singular message) rs) as Hfs
    by (by rewrite filter_app, filter_cons_False, filter_nil, app_nil_r).
  split; cbn [cur_position cur_singular cur_counts cur_oneofs cur_unknown]; rewrite ?Hfs; try done.
  - lia.
  - by eapply record_consumed; [exact Hcon|lia|lia|].
  - apply Forall_app. split; [done|]. constructor; [|done]. unfold record_ok. cbn. by rewrite Hnone.
  - intros n field Hf Hl. rewrite items_of_app. rewrite decide_False by (cbn; congruence). rewrite Z.add_0_r. eauto.
  - intros r' f oneof [Hin| ->%list_elem_of_singleton]%elem_of_app; [by apply Hone|congruence].
  - rewrite filter_app, filter_cons_True by done. unfold len in *. rewrite length_app. cbn. lia.
Qed.
Lemma validate_known_inv m field cur number wt after o cur' :
  validate_known policy nested m field bytes cur number wt after o = Ok cur' →
  ∃ added, let observed := default 0 (cur_counts cur !! number) in
    validate_items policy nested m field bytes observed wt (o + cur_position cur) after o
      = Ok (added, cur_position cur') ∧
    cur_unknown cur' = cur_unknown cur ∧
    (fs_label field ≠ LabelRepeated → number ∉ cur_singular cur ∧
       cur_singular cur' = {[number]} ∪ cur_singular cur ∧ cur_counts cur' = cur_counts cur) ∧
    (fs_label field = LabelRepeated → cur_singular cur' = cur_singular cur ∧
       cur_counts cur' = <[number := observed + added]> (cur_counts cur) ∧
       observed + added ≤ repeated_cap policy field) ∧
    (∀ oneof name, cur_oneofs cur !! oneof = Some name → cur_oneofs cur' !! oneof = Some name) ∧
    (∀ oneof, fs_oneof field = Some oneof → cur_oneofs cur' !! oneof = Some (fs_name field)).
Proof using.
  unfold validate_known. cbn zeta. set (observed := default 0 (cur_counts cur !! number)).
  destruct (negb _ && bool_decide (number ∈ cur_singular cur)) eqn:Hdup; [done|].
  match goal with |- (?run ≫= _) = _ → _ => destruct run as [oneofs|] eqn:Hone end; [|done].
  cbn [mbind Result_bind].
  destruct (validate_items _ _ _ _ _ _ _ _ _ _) as [[added next]|]; [|done]. cbn [mbind Result_bind].
  intros Hc. exists added.
  assert ((∀ oneof name, cur_oneofs cur !! oneof = Some name → oneofs !! oneof = Some name) ∧
    (∀ oneof, fs_oneof field = Some oneof → oneofs !! oneof = Some (fs_name field))) as [Ho1 Ho2].
  { destruct (fs_oneof field) as [oneof|]; [|by injection Hone as <-].
    destruct (cur_oneofs cur !! oneof) as [first|] eqn:Hf; [destruct (decide (first = fs_name field)) as [->|]; [|done]|];
      injection Hone as <-; (split; [|intros ? [= <-]; apply lookup_insert_eq]); intros o1 n1 Hl;
      destruct (decide (oneof = o1)) as [<-|]; rewrite ?lookup_insert_eq, ?lookup_insert_ne by done; congruence. }
  case_bool_decide as Hl; cbn [negb andb] in Hdup.
  - destruct (_ || (repeated_cap policy field <? _)) eqn:Hcap; [done|].
    apply orb_false_iff in Hcap as [_ Hcap%Z.ltb_ge]. injection Hc as <-. cbn. split_and!; try done.
  - injection Hc as <-. cbn. apply bool_decide_eq_false in Hdup. split_and!; try done.
Qed.
Lemma singular_step field cur cur' rs r :
  cur_singular cur = list_to_set (wr_number <$> filter (is_singular message) rs) →
  NoDup (wr_number <$> filter (is_singular message) rs) →
  (is_singular message r ↔ fs_label field ≠ LabelRepeated) →
  (fs_label field = LabelRepeated → cur_singular cur' = cur_singular cur) →
  (fs_label field ≠ LabelRepeated → wr_number r ∉ cur_singular cur ∧
     cur_singular cur' = {[wr_number r]} ∪ cur_singular cur) →
  cur_singular cur' = list_to_set (wr_number <$> filter (is_singular message) (rs ++ [r])) ∧
  NoDup (wr_number <$> filter (is_singular message) (rs ++ [r])).
Proof using.
  intros Hsing Hnd His Hre Hsi. rewrite filter_app, fmap_app.
  destruct (decide (fs_label field = LabelRepeated)) as [Hl|Hl].
  - rewrite (Hre Hl), (filter_cons_False _ r), filter_nil, app_nil_r by tauto. done.
  - destruct (Hsi Hl) as (Hnin & ->). rewrite filter_cons_True by tauto. rewrite Hsing in Hnin |- *. split.
    + rewrite list_to_set_app_L. cbn. by rewrite (right_id_L ∅ (∪)), (comm_L (∪)).
    + apply NoDup_app. split; [done|]. split; [|apply NoDup_singleton].
      intros x Hx ->%list_elem_of_singleton. apply Hnin. by apply elem_of_list_to_set.
Qed.
Lemma validate_known_sound m field cur rs number wt after o cur' :
  consumed cur rs → ms_fields message !! number = Some field → cur_position cur < after ≤ len bytes →
  slice (cur_position cur) after bytes = varint_bytes 10 (number * 8 + wt) →
  0 < number ≤ MAX_FIELD_NUMBER → in_protobuf_reserved number = false → 0 ≤ wt < 8 →
  validate_known policy nested m field bytes cur number wt after o = Ok cur' →
  ∃ r, consumed cur' (rs ++ [r]) ∧ cur_position cur < cur_position cur'.
Proof using Hbytes Hsize nested_sound.
  intros Hcon Hfield Ha Ht Hnum Hres Hwt
    (added & Hit & Hu & Hsi & Hre & Ho1 & Ho2)%validate_known_inv. pose proof (co_range _ _ Hcon) as Hpos.
  eapply validate_items_sound in Hit as (Hle & Hok); [|done..|lia].
  set (r := {| wr_number := number; wr_type := wt; wr_body := slice after (cur_position cur') bytes; wr_items := added |}).
  assert (known message r = Some field) as Hk by done.
  exists r. pose proof Hcon as [_ Hb Hrec Hsing Hnd Hcnt Hone Hunk]. split; [|lia].
  assert (is_singular message r ↔ fs_label field ≠ LabelRepeated) as His.
  { split; [intros (f & Hf & Hl); congruence|by exists field]. }
  assert (slice 0 (cur_position cur') bytes = concat (record_bytes <$> rs ++ [r])) as Hbytes'
    by (by eapply record_consumed; [exact Hcon|lia|lia|]).
  assert (Forall (record_ok policy Nested message) (rs ++ [r])) as Hrec'.
  { apply Forall_app. split; [done|]. constructor; [|done]. unfold record_ok. cbn. by rewrite Hfield. }
  assert (∀ r' f oneof, r' ∈ rs ++ [r] → known message r' = Some f → fs_oneof f = Some oneof →
    cur_oneofs cur' !! oneof = Some (fs_name f)) as Hone'.
  { intros r' f oneof [Hin| ->%list_elem_of_singleton]%elem_of_app Hkn Hof; [by eapply Ho1, Hone|].
    assert (f = field) as -> by congruence. by apply Ho2. }
  assert (filter (λ r, known message r = None) (rs ++ [r]) = filter (λ r, known message r = None) rs) as Hfu
    by (rewrite filter_app, filter_cons_False, filter_nil, app_nil_r by (by rewrite Hk); done).
  destruct (singular_step field cur cur' rs r) as [Hsing' Hnd']; [done..|by intros Hl; apply Hre|by intros Hl; destruct (Hsi Hl) as (? & ? & _)|].
  split; try done; [lia| |by rewrite Hfu, Hu].
  intros n f Hf Hlf. destruct (Hcnt n f Hf Hlf) as [Hd Hi]. rewrite items_of_app. cbn [wr_number wr_items r].
  destruct (decide (number = n)) as [<-|Hne].
  - assert (f = field) as -> by congruence. destruct (Hre Hlf) as (_ & -> & Hcap).
    rewrite lookup_insert_eq. rewrite Hd in Hcap |- *. cbn [from_option id]. lia.
  - rewrite Z.add_0_r. split; [|done]. rewrite <-Hd. destruct (decide (fs_label field = LabelRepeated)) as [Hl|Hl].
    + destruct (Hre Hl) as (_ & -> & _). by rewrite lookup_insert_ne.
    + by destruct (Hsi Hl) as (_ & _ & ->).
Qed.
Lemma validate_fields_sound fuel m o : ∀ cur rs,
  consumed cur rs → len bytes - cur_position cur < Z.of_nat fuel →
  validate_fields policy nested fuel m message bytes o cur = Ok tt →
  ∃ rs', bytes = concat (record_bytes <$> rs') ∧ conforms_here policy Nested message rs'.
Proof using Hbytes Hsize nested_sound.
  induction fuel as [|fuel IH]; intros cur rs Hcon Hf; [pose proof (co_range _ _ Hcon); lia|].
  cbn [validate_fields]. destruct (Z.leb_spec (len bytes) (cur_position cur)) as [Hend|Hmore].
  - intros _. exists rs. destruct Hcon as [Hr Hb Hrec Hsing Hnd Hcnt Hone [Hu1 Hu2]].
    replace (cur_position cur) with (len bytes) in Hb by lia. rewrite slice_all in Hb.
    split; [done|]. split_and!; [done|done| |  |lia].
    + intros n f H1 H2. by apply (Hcnt n f).
    + intros r r' f f' oneof Hr1 Hr2 Hk1 Hk2 Ho1 Ho2.
      pose proof (Hone _ _ _ Hr1 Hk1 Ho1). pose proof (Hone _ _ _ Hr2 Hk2 Ho2). congruence.
  - destruct (validate_field _ _ _ _ _ _ _) as [cur'|] eqn:Hv; [|done]. cbn [mbind Result_bind].
    unfold validate_field in Hv. destruct (read_tag _ _ _ _) as [[[number wt] after]|] eqn:Ht; [|done].
    cbn [mbind Result_bind] in Hv. pose proof (co_range _ _ Hcon) as Hpos.
    apply read_tag_sound in Ht as (Ha & Hs & Hn & Hres & Hwt); [|done..|lia].
    assert (∃ r, consumed cur' (rs ++ [r]) ∧ cur_position cur < cur_position cur') as (r & Hcon' & Hlt).
    { destruct (ms_fields message !! number) as [field|] eqn:Hfield;
        [by eapply validate_known_sound|by eapply validate_unknown_sound]. }
    apply (IH cur' (rs ++ [r])); [done|lia].
Qed.
End loop.

(** ** Messages *)
Lemma validate_nested_sound schema policy levels : ∀ name bytes o,
  Forall is_byte bytes → len bytes ≤ u64_max → validate_nested schema policy levels name bytes o = Ok tt →
  conforms schema policy levels name bytes.
Proof.
  induction levels as [|levels IH]; intros name bytes o Hb Hs; [done|]. cbn [validate_nested conforms].
  destruct (messages schema !! name) as [message|]; [|done]. intros Hv.
  eapply validate_fields_sound with (rs := []) in Hv as (rs & Hrs & Hc); [by exists message, rs|done..| |].
  - split; cbn [cur_position cur_singular cur_counts cur_oneofs cur_unknown].
    + unfold len; lia.
    + done.
    + constructor.
    + done.
    + constructor.
    + intros n f _ _. rewrite lookup_empty. unfold items_of. cbn. lia.
    + by intros r f oneof ?%elem_of_nil.
    + unfold len; cbn; lia.
  - cbn [cur_position]. unfold len. lia.
Qed.

(** C11. Strict validation lets through only payloads of the grammar: a sequence of records with
    canonical tags and canonical varints, in range for their kinds, strings well-formed UTF-8, no
    singular field twice, one member per oneof, every repeated field and the unknown fields within
    their caps, no reserved number, and the same of every nested message, no deeper than the policy
    allows. *)
Theorem strict_validation_sound schema policy name bytes :
  Forall is_byte bytes → len bytes ≤ u64_max → WireSchema_validate schema policy name bytes = Ok tt →
  conforms schema policy (Z.to_nat (max_nesting_depth policy)) name bytes.
Proof. intros Hb Hs Hv. by eapply validate_nested_sound. Qed.
