(* ===== verification/FrameFacts.v ===== *)
(** * Framing: readers, writers and buffers agree

    Facts about [crates/eutheto-protocol/src/frame.rs]: reading a frame from a stream is inspecting the
    bytes of the stream, however they are chunked; what the encoders produce is read back; the streamed
    solve request announces exactly the bytes it writes. *)
From stdpp Require Import base tactics list gmap strings.
From Stdlib Require Import ZArith Lia.
From S2P Require Import Prelude Ordering Protocol Strict Frame VarintFacts.
Open Scope Z_scope.

(** ** Prefixes *)
Lemma be_bytes_roundtrip n : 0 ≤ n < 2 ^ 32 → u32_from_be_bytes (u32_to_be_bytes n) = n.
Proof.
  intros Hn. unfold u32_from_be_bytes, u32_to_be_bytes; cbn [foldl].
  change (2 ^ 24) with (256 * (256 * 256)). change (2 ^ 16) with (256 * 256). change (2 ^ 8) with 256.
  rewrite <-!Z.div_div by lia. rewrite !Z.mod_eq by lia. 
  assert (n / 256 / 256 / 256 / 256 = 0) as ->; [|lia].
  rewrite !Z.div_div by lia. apply Z.div_small. lia.
Qed.
Lemma be_bytes_bound b : Forall is_byte b → length b = 4%nat → 0 ≤ u32_from_be_bytes b < 2 ^ 32.
Proof.
  intros Hb Hl. destruct b as [|a [|b [|c [|d [|]]]]]; try done.
  repeat (apply Forall_cons in Hb as [? Hb]). unfold is_byte, u32_from_be_bytes in *; cbn [foldl]. lia.
Qed.
Lemma slice_prefix k (l : list Z) : slice 0 k l = take (Z.to_nat k) l.
Proof. unfold slice. by rewrite Z.sub_0_r. Qed.

(** ** Streams *)
(** The bytes a reader delivers before its end. *)
Definition stream (reader : Reader) : list Z :=
  concat ((λ e, match e with Chunk bytes => bytes | ReadError _ => [] end) <$> reader).
(** A reader that reports end of file only at its end, and fails only by interruptions. *)
Definition clean (reader : Reader) : Prop :=
  Forall (λ e, match e with Chunk bytes => bytes ≠ [] | ReadError kind => kind = Interrupted end) reader.

Lemma read_some_clean n op reader fuel :
  clean reader → (0 < n)%nat → (length reader < fuel)%nat →
  ∃ bytes reader', read_some_loop fuel n op reader = (Ok bytes, reader') ∧ clean reader' ∧
    stream reader = bytes ++ stream reader' ∧ (length bytes ≤ n)%nat ∧ (bytes = [] ↔ stream reader = []).
Proof.
  intros Hc Hn. revert fuel. induction Hc as [|e reader He Hc IH]; intros fuel Hf; cbn in Hf.
  - destruct fuel; [lia|]. cbn. exists [], []. split_and!; [done|constructor|done|cbn; lia|done].
  - destruct fuel as [|fuel]; [lia|]. destruct e as [bytes|kind]; cbn [read_some_loop reader_read].
    + eexists _, _. split; [done|]. case_decide as Hle.
      * rewrite take_ge by done. split_and!; [done|done|done|].
        change (stream (Chunk bytes :: reader)) with (bytes ++ stream reader).
        destruct bytes; [done|]. naive_solver.
      * split_and!.
        -- constructor; [|done]. intros Hnil. apply (f_equal length) in Hnil. rewrite length_drop in Hnil. cbn in Hnil. lia.
        -- change (stream (Chunk bytes :: reader)) with (bytes ++ stream reader).
           change (stream (Chunk (drop n bytes) :: reader)) with (drop n bytes ++ stream reader).
           by rewrite app_assoc, take_drop.
        -- rewrite length_take. lia.
        -- change (stream (Chunk bytes :: reader)) with (bytes ++ stream reader).
           destruct bytes; [done|]. destruct n; [lia|]. done.
    + subst kind. destruct (IH fuel) as (bytes & reader' & Hr & ?); [lia|]. exists bytes, reader'. by split.
Qed.

Lemma read_until_eof_clean n op : ∀ fuel reader,
  clean reader → (n < fuel)%nat →
  ∃ reader', read_until_eof_loop fuel n op reader = (Ok (take n (stream reader)), reader') ∧
    clean reader' ∧ stream reader' = drop n (stream reader).
Proof.
  induction (lt_wf n) as [n _ IH]. intros [|fuel] reader Hc Hf; [lia|]. cbn [read_until_eof_loop].
  case_decide as H0; [subst n; by exists reader|].
  destruct (read_some_clean n op reader (S (length reader)) Hc) as (bytes & r1 & Hr & Hc1 & Hst & Hle & Hnil); [lia|lia|].
  unfold mbind at 1, SE_bind at 1, read_some. rewrite Hr. case_decide as Hb.
  - rewrite (proj1 Hnil Hb), take_nil, drop_nil. exists r1. split; [done|]. split; [done|].
    rewrite (proj1 Hnil Hb), Hb in Hst. done.
  - assert (0 < length bytes)%nat by (destruct bytes; [done|cbn; lia]).
    destruct (IH (n - length bytes)%nat ltac:(lia) fuel r1 Hc1 ltac:(lia)) as (r2 & Hr2 & Hc2 & Hst2).
    unfold mbind, SE_bind. rewrite Hr2. exists r2. split; [|split; [done|]].
    + do 2 f_equal. rewrite Hst, take_app. by rewrite (take_ge bytes) by lia.
    + rewrite Hst, Hst2, drop_app. by rewrite (drop_ge bytes) by lia.
Qed.

Lemma read_prefix_clean reader :
  clean reader → stream reader ≠ [] →
  ∃ first r1 r2, read_some 1 "reading frame prefix" reader = (Ok first, r1) ∧ first ≠ [] ∧
    read_until_eof 3 "reading frame prefix" r1 = (Ok (drop 1 (take 4 (stream reader))), r2) ∧
    first ++ drop 1 (take 4 (stream reader)) = take 4 (stream reader) ∧ clean r2 ∧
    stream r2 = drop 4 (stream reader).
Proof.
  intros Hc Hne.
  destruct (read_some_clean 1 "reading frame prefix" reader (S (length reader)) Hc)
    as (first & r1 & Hr & Hc1 & Hst & Hle & Hnil); [lia|lia|].
  assert (first ≠ []) as Hf by tauto. destruct first as [|b [|]]; [done| |cbn in Hle; lia].
  destruct (read_until_eof_clean 3 "reading frame prefix" 4 r1 Hc1) as (r2 & Hr2 & Hc2 & Hst2); [lia|].
  exists [b], r1, r2. rewrite Hst. cbn in *. by split_and!.
Qed.

(** Reading a frame from a stream is inspecting its bytes, whatever the chunks and
    interruptions: the same payload, the same fault with the same counts, no frame exactly at the
    clean end, and after a success the reader stands at the remainder. *)
Theorem read_frame_is_inspect_frame try_reserve class policy reader :
  clean reader → Forall is_byte (stream reader) → (∀ n, try_reserve n = true) →
  ∃ reader',
    read_frame try_reserve class policy reader =
      (if decide (stream reader = []) then Ok None
       else match inspect_frame (stream reader) class policy with
            | Ok slice => Ok (Some (payload slice))
            | Err fault => Err fault
            end, reader') ∧
    (∀ slice, inspect_frame (stream reader) class policy = Ok slice →
       clean reader' ∧ stream reader' = remainder slice).
Proof.
  intros Hc Hbytes Hres. unfold read_frame. unfold mbind at 1, SE_bind at 1.
  destruct (decide (stream reader = [])) as [Hnil|Hne].
  { destruct (read_some_clean 1 "reading frame prefix" reader (S (length reader)) Hc)
      as (first & r1 & Hr & _ & _ & _ & Hiff); [lia|lia|]. apply Hiff in Hnil as Hf. subst first.
    unfold read_some. rewrite Hr, decide_True by done. exists r1. split; [done|]. by rewrite Hnil. }
  destruct (read_prefix_clean reader Hc Hne) as (first & r1 & r2 & -> & Hf & Hr2 & Hpre & Hc2 & Hst2).
  rewrite decide_False by done. unfold mbind at 1, SE_bind at 1. rewrite Hr2. cbn zeta. rewrite Hpre.
  set (s := stream reader) in *. unfold inspect_frame. rewrite slice_prefix. change (Z.to_nat 4) with 4%nat.
  destruct (Z.ltb_spec (len s) 4) as [Hshort|Hlong].
  { rewrite take_ge by (unfold len in *; lia). rewrite (proj2 (Z.eqb_neq (len s) 4)) by lia. by exists r2. }
  assert (length (take 4 s) = 4%nat) as Hl4 by (rewrite length_take; unfold len in *; lia).
  unfold len at 1. rewrite Hl4. change (Z.of_nat 4 =? 4) with true. cbn [negb].
  pose proof (be_bytes_bound (take 4 s) (Forall_take _ _ _ Hbytes) Hl4) as Hb.
  set (n := u32_from_be_bytes (take 4 s)) in *. unfold mbind at 1, SE_bind at 1, se_lift.
  destruct (validate_length n class policy) as [[]|e]; [|by exists r2]. cbn [mbind Result_bind]. rewrite Hres; cbn [negb].
  unfold usize_checked_add. rewrite (proj2 (checked_u64_Some _ (4 + n))) by (unfold is_u64, u64_max; lia).
  cbn [ok_or mbind Result_bind]. unfold mbind, SE_bind, read_until_eof.
  destruct (read_until_eof_clean (Z.to_nat n) "reading frame payload" (S (Z.to_nat n)) r2 Hc2) as (r3 & -> & Hc3 & Hst3); [lia|].
  rewrite Hst2 in *. assert (len (take (Z.to_nat n) (drop 4 s)) = Z.min n (len s - 4)) as ->.
  { unfold len. rewrite length_take, length_drop. unfold len in *. lia. }
  destruct (Z.ltb_spec (len s) (4 + n)).
  - rewrite (proj2 (Z.eqb_neq _ n)) by lia. exists r3. split; [|done]. by rewrite Z.min_r by lia.
  - rewrite (proj2 (Z.eqb_eq _ n)) by lia. exists r3. cbn. split.
    + unfold slice. by replace (4 + n - 4) with n by lia.
    + intros ? [= <-]. cbn. split; [done|]. rewrite Hst3, drop_drop. f_equal. lia.
Qed.

(** ** Encoded frames *)
(** The encoder of a message announces the length of the bytes it produces. *)
Definition encodes_to (message : Message) (bytes : list Z) : Prop :=
  encode message = Ok bytes ∧ encoded_len message = len bytes.

Lemma inspect_framed n bytes rest class policy :
  n = len bytes → n < 2 ^ 32 → validate_length n class policy = Ok tt →
  inspect_frame ((u32_to_be_bytes n ++ bytes) ++ rest) class policy
  = Ok {| payload := bytes; remainder := rest |}.
Proof.
  intros -> Hn Hv. unfold inspect_frame. rewrite slice_prefix, <-app_assoc.
  change (take (Z.to_nat 4) (u32_to_be_bytes (len bytes) ++ bytes ++ rest)) with (u32_to_be_bytes (len bytes)).
  rewrite be_bytes_roundtrip by (unfold len in *; lia). rewrite Hv. cbn [mbind Result_bind].
  assert (len (u32_to_be_bytes (len bytes) ++ bytes ++ rest) = 4 + len bytes + len rest) as ->
    by (unfold len; rewrite !length_app; cbn [length u32_to_be_bytes]; lia).
  rewrite (proj2 (Z.ltb_ge _ 4)) by (unfold len; lia).
  unfold usize_checked_add. rewrite (proj2 (checked_u64_Some _ (4 + len bytes))) by (unfold is_u64, u64_max, len in *; lia).
  cbn [ok_or mbind Result_bind]. rewrite (proj2 (Z.ltb_ge _ (4 + len bytes))) by (unfold len; lia).
  unfold slice. replace (4 + len bytes - 4) with (len bytes) by lia.
  replace (Z.to_nat (4 + len bytes)) with (4 + length bytes)%nat by (unfold len; lia).
  replace (Z.to_nat (len bytes)) with (length bytes) by (unfold len; lia).
  rewrite <-drop_drop. change (drop (Z.to_nat 4) (u32_to_be_bytes (len bytes) ++ bytes ++ rest)) with (bytes ++ rest).
  change (drop 4 (u32_to_be_bytes (len bytes) ++ bytes ++ rest)) with (bytes ++ rest).
  by rewrite take_app_length, drop_app_length.
Qed.
Lemma u32_try_from_usize_Some n m : u32_try_from_usize n = Some m → m = n ∧ n < 2 ^ 32.
Proof. unfold u32_try_from_usize. destruct (Z.ltb_spec n (2 ^ 32)); [|done]. by intros [= <-]. Qed.

Lemma encoded_frame_shape try_reserve message class policy bytes frame :
  encodes_to message bytes → encode_frame try_reserve message class policy = Ok frame →
  frame = u32_to_be_bytes (len bytes) ++ bytes ∧ validate_length (len bytes) class policy = Ok tt ∧
  len bytes < 2 ^ 32.
Proof.
  intros [He Hl]. unfold encode_frame, encode_frame_allocating. rewrite Hl, He.
  case_decide; [done|]. destruct (len bytes =? 0); [done|].
  destruct (validate_length (len bytes) class policy) as [[]|]; [|done]. cbn [mbind Result_bind].
  destruct (u32_try_from_usize (len bytes)) as [n|] eqn:Hn; [|done]. cbn [ok_or mbind Result_bind].
  destruct (usize_checked_add (len bytes) 4); [|done]. cbn [ok_or mbind Result_bind].
  destruct (try_reserve z); [|done]. cbn. intros [= <-]. by apply u32_try_from_usize_Some in Hn as [-> ?].
Qed.

(** ** Writers *)
(** A computation that writes [bytes], or fails after writing a part of them. *)
Definition emits (m : SE Writer ProtocolFault unit) (bytes : list Z) : Prop :=
  ∀ w, match m w with
       | (Ok _, w') => written w' = written w ++ bytes
       | (Err _, w') => ∃ pre, pre `prefix_of` bytes ∧ written w' = written w ++ pre
       end.
Lemma emits_write_all bytes op : emits (write_all bytes op) bytes.
Proof.
  intros w. unfold write_all. destruct (outcomes w) as [|[[n kind]|] rest]; [done| |done].
  exists (take n bytes). split; [|done]. eexists. symmetry. apply take_drop.
Qed.
Lemma emits_bind m k b1 b2 : emits m b1 → emits k b2 → emits (m ≫= λ _, k) (b1 ++ b2).
Proof.
  intros Hm Hk w. unfold mbind, SE_bind. specialize (Hm w). destruct (m w) as [[a|e] w1].
  - specialize (Hk w1). destruct (k w1) as [[a2|e] w2].
    + by rewrite Hk, Hm, app_assoc.
    + destruct Hk as (pre & Hpre & ->). exists (b1 ++ pre). split; [by apply prefix_app|].
      by rewrite Hm, app_assoc.
  - destruct Hm as (pre & [k' ->] & ->). exists pre. split; [|done]. exists (k' ++ b2). by rewrite app_assoc.
Qed.
Lemma emits_ret : emits (mret tt) [].
Proof. intros w. cbn. by rewrite app_nil_r. Qed.
Lemma emits_for_each {A} (f : A → SE Writer ProtocolFault unit) (g : A → list Z) l :
  (∀ x, emits (f x) (g x)) → emits (for_each f l) (concat (g <$> l)).
Proof. intros Hf. induction l as [|x l IH]; cbn; [apply emits_ret|]. by apply emits_bind. Qed.

(** A length-delimited field. *)
Definition field_bytes (tag : Z) (value : list Z) : list Z :=
  [tag] ++ varint_bytes 10 (len value) ++ value.
Arguments field_bytes : simpl never.
Lemma emits_field tag value op : emits (write_length_delimited tag value op) (field_bytes tag value).
Proof.
  apply emits_bind; [apply emits_write_all|]. apply emits_bind; [|apply emits_write_all].
  unfold write_varint. apply emits_write_all.
Qed.
Lemma emits_nested tag message bytes : encodes_to message bytes → emits (write_nested tag message) (field_bytes tag bytes).
Proof. intros [He _] w. unfold write_nested. rewrite He. apply emits_field. Qed.
Lemma field_bytes_len tag value :
  is_u64 (len value) → len (field_bytes tag value) = 1 + varint_length (len value) + len value.
Proof.
  intros Hv. rewrite varint_length_spec by done. unfold field_bytes, len. rewrite !length_app. cbn [length]. lia.
Qed.

(** ** Solve requests *)
(** The generated encoders of the nested messages do what [prost] documents. *)
Class LawfulEncoder `{SolveEncoder} := {
  parameters_bytes : SolveParameters → list Z;
  projection_bytes : ProjectionRequest → list Z;
  limits_bytes : ResourceLimits → list Z;
  parameters_encode : ∀ p, encodes_to (parameters_message p) (parameters_bytes p);
  projection_encode : ∀ p, encodes_to (projection_message p) (projection_bytes p);
  limits_encode : ∀ l, encodes_to (limits_message l) (limits_bytes l)
}.

Lemma as_bytes_len s : len (as_bytes s) = str_len s.
Proof.
  unfold as_bytes, string_bytes, str_len, len. rewrite !length_fmap. f_equal.
  induction s as [|c s IH]; [done|]. cbn. by rewrite IH.
Qed.
Lemma as_bytes_nil s : as_bytes s = [] ↔ s = EmptyString.
Proof. split; [|by intros ->]. by destruct s. Qed.

Section solve.
Context `{LawfulEncoder} (try_reserve : Z → bool).

(** An empty [string] or [bytes] field is not written. *)
Definition optional_field (tag : Z) (value : list Z) : list Z :=
  if decide (value = []) then [] else field_bytes tag value.
Definition solve_body (request : SolveRequest) : list Z :=
  optional_field 10 (as_bytes (sq_request_id request))
  ++ optional_field 18 (sq_cp_model_proto request)
  ++ from_option (λ p, field_bytes 26 (parameters_bytes p)) [] (sq_parameters request)
  ++ concat ((λ p, field_bytes 34 (projection_bytes p)) <$> sq_projections request)
  ++ from_option (λ l, field_bytes 42 (limits_bytes l)) [] (sq_resource_limits request)
  ++ optional_field 50 (sq_model_fingerprint request).
Definition solve_payload (request : SolveRequest) : list Z := field_bytes 18 (solve_body request).

Lemma emits_optional {P : Prop} `{Decision P} tag value op :
  (P ↔ value = []) →
  emits (if bool_decide P then mret tt else write_length_delimited tag value op) (optional_field tag value).
Proof.
  intros HP. unfold optional_field. case_decide as Hv.
  - rewrite bool_decide_true by tauto. apply emits_ret.
  - rewrite bool_decide_false by tauto. apply emits_field.
Qed.
Lemma emits_option {A} (o : option A) (f : A → SE Writer ProtocolFault unit) (g : A → list Z) :
  (∀ x, emits (f x) (g x)) →
  emits (match o with Some x => f x | None => mret tt end) (from_option g [] o).
Proof. intros Hf. destruct o; [apply Hf|apply emits_ret]. Qed.
Lemma emits_solve_fields request :
  emits (write_solve_fields request (len (solve_body request))) (solve_payload request).
Proof.
  unfold write_solve_fields, solve_payload, field_bytes. apply emits_bind; [apply emits_write_all|].
  apply emits_bind; [apply emits_write_all|]. unfold solve_body.
  apply emits_bind; [apply emits_optional; by rewrite as_bytes_nil|].
  apply emits_bind; [by apply emits_optional|].
  apply emits_bind; [apply emits_option; intros p; apply emits_nested, parameters_encode|].
  apply emits_bind; [apply emits_for_each; intros p; apply emits_nested, projection_encode|].
  apply emits_bind; [apply emits_option; intros l; apply emits_nested, limits_encode|].
  by apply emits_optional.
Qed.

(** The lengths the code adds up are those of the fields it writes. *)
Lemma add_field_length_Ok tag value length r :
  add_field_length length (len value) = Ok r → r = length + len (field_bytes tag value).
Proof.
  unfold add_field_length, length_delimited_field_length. rewrite result_bind_Ok.
  intros (field & Hf & Hr). unfold usize_checked_add in *.
  destruct (checked_u64 (1 + varint_length (len value))) as [a|] eqn:Ha; [|done].
  cbn [mbind option_bind] in Hf. destruct (checked_u64 (a + len value)) as [c|] eqn:Hc; [|done].
  injection Hf as <-. destruct (checked_u64 (length + c)) as [d|] eqn:Hd; [|done]. injection Hr as <-.
  apply checked_u64_Some in Ha as [-> Ha], Hc as [-> Hc], Hd as [-> _].
  rewrite field_bytes_len; [lia|]. unfold is_u64, len in *. lia.
Qed.
Lemma fold_present (l : Z) (o : option Z) os :
  fold_m add_field_length l (omap id (o :: os)) =
  (match o with Some v => add_field_length l v | None => Ok l end) ≫=
  λ l, fold_m add_field_length l (omap id os).
Proof. by destruct o. Qed.
Lemma add_optional_Ok {P : Prop} `{Decision P} tag value n l r :
  (P ↔ value = []) → n = len value →
  match (if bool_decide P then None else Some n) with Some v => add_field_length l v | None => Ok l end = Ok r →
  r = l + len (optional_field tag value).
Proof.
  intros HP ->. unfold optional_field. case_decide as Hv.
  - rewrite bool_decide_true by tauto. intros [= <-]. unfold len; cbn. lia.
  - rewrite bool_decide_false by tauto. apply add_field_length_Ok.
Qed.
Lemma add_option_Ok {A} (o : option A) (f : A → Message) (g : A → list Z) tag l r :
  (∀ x, encodes_to (f x) (g x)) →
  match (λ x, encoded_len (f x)) <$> o with Some v => add_field_length l v | None => Ok l end = Ok r →
  r = l + len (from_option (λ x, field_bytes tag (g x)) [] o).
Proof.
  intros Hf. destruct o as [x|]; cbn.
  - destruct (Hf x) as [_ ->]. apply add_field_length_Ok.
  - intros [= <-]. unfold len; cbn. lia.
Qed.
Lemma add_each_Ok {A} (l : list A) (f : A → Message) (g : A → list Z) tag : ∀ n r,
  (∀ x, encodes_to (f x) (g x)) →
  fold_m (λ n x, add_field_length n (encoded_len (f x))) n l = Ok r →
  r = n + len (concat ((λ x, field_bytes tag (g x)) <$> l)).
Proof.
  induction l as [|x l IH]; intros n r Hf; cbn.
  - intros [= <-]. unfold len; cbn. lia.
  - rewrite result_bind_Ok. intros (m & Hm & Hr). destruct (Hf x) as [_ Hx]. rewrite Hx in Hm.
    apply (add_field_length_Ok tag) in Hm as ->. apply IH in Hr as ->; [|done].
    unfold len. rewrite length_app. lia.
Qed.
Lemma manual_length_Ok request n :
  manual_solve_request_length request = Ok n → n = len (solve_body request).
Proof.
  unfold manual_solve_request_length. rewrite result_bind_Ok. intros (a & Ha & Hn).
  apply result_bind_Ok in Hn as (b & Hb & Hn). apply result_bind_Ok in Hn as (c & Hc & Hn).
  rewrite fold_present in Ha. apply result_bind_Ok in Ha as (a1 & H1 & Ha).
  rewrite fold_present in Ha. apply result_bind_Ok in Ha as (a2 & H2 & Ha).
  rewrite fold_present in Ha. apply result_bind_Ok in Ha as (a3 & H3 & [= ->]).
  apply (add_optional_Ok 10 (as_bytes (sq_request_id request))) in H1 as ->; [|by rewrite as_bytes_nil|by rewrite as_bytes_len].
  apply (add_optional_Ok 18 (sq_cp_model_proto request)) in H2 as ->; [|done|done].
  apply (add_option_Ok _ _ parameters_bytes 26) in H3 as ->; [|apply parameters_encode].
  apply (add_each_Ok _ _ projection_bytes 34) in Hb as ->; [|apply projection_encode].
  assert (c = 0 + len (optional_field 10 (as_bytes (sq_request_id request)))
      + len (optional_field 18 (sq_cp_model_proto request))
      + len (from_option (λ x, field_bytes 26 (parameters_bytes x)) [] (sq_parameters request))
      + len (concat ((λ x, field_bytes 34 (projection_bytes x)) <$> sq_projections request))
      + len (from_option (λ x, field_bytes 42 (limits_bytes x)) [] (sq_resource_limits request))) as ->.
  { apply (add_option_Ok _ limits_message); [apply limits_encode|]. by destruct (sq_resource_limits request). }
  unfold solve_body, len in *. rewrite !length_app.
  case_bool_decide as Hfp.
  - injection Hn as <-. assert (optional_field 50 (sq_model_fingerprint request) = []) as ->
      by (unfold optional_field; by rewrite decide_True by done). cbn [length]. lia.
  - apply (add_field_length_Ok 50) in Hn as ->. unfold optional_field, len. rewrite (decide_False (P := sq_model_fingerprint request = [])) by done. lia.
Qed.

Lemma prepared_Ok request policy prepared :
  prepare_solve_request request policy = Ok prepared →
  solve_length prepared = len (solve_body request) ∧
  frame_prefix prepared = u32_to_be_bytes (len (solve_payload request)) ∧
  validate_length (len (solve_payload request)) SolveRequestClass policy = Ok tt ∧
  len (solve_payload request) < 2 ^ 32 ∧ is_u64 (len (solve_body request)).
Proof.
  unfold prepare_solve_request. rewrite result_bind_Ok. intros (n & Hn & Hp).
  apply manual_length_Ok in Hn as ->. destruct (_ =? _); [|done]. cbn [negb] in Hp.
  apply result_bind_Ok in Hp as (p & Hlen & Hp). unfold usize_checked_add in Hlen.
  destruct (checked_u64 (1 + varint_length (len (solve_body request)))) as [a|] eqn:Ha; [|done].
  cbn [mbind option_bind] in Hlen. destruct (checked_u64 (a + len (solve_body request))) as [c|] eqn:Hc; [|done].
  injection Hlen as <-. apply checked_u64_Some in Ha as [-> Ha], Hc as [-> Hc].
  assert (is_u64 (len (solve_body request))) as Hu by (unfold is_u64, len in *; lia).
  rewrite <-(field_bytes_len 18) in Hp by done. fold (solve_payload request) in Hp.
  apply result_bind_Ok in Hp as ([] & Hv & Hp).
  destruct (u32_try_from_usize (len (solve_payload request))) as [q|] eqn:Hq; [|done].
  apply u32_try_from_usize_Some in Hq as [-> Hq]. by injection Hp as <-.
Qed.
(** The frame of a solve request. *)
Definition solve_frame (request : SolveRequest) : list Z :=
  u32_to_be_bytes (len (solve_payload request)) ++ solve_payload request.
Lemma streamed_frame request policy w :
  match write_solve_request_frame try_reserve request policy w with
  | (Ok _, w') =>
      written w' = written w ++ solve_frame request ∧
      validate_length (len (solve_payload request)) SolveRequestClass policy = Ok tt ∧
      len (solve_payload request) < 2 ^ 32 ∧ is_u64 (len (solve_body request))
  | (Err _, w') => ∃ pre, pre `prefix_of` solve_frame request ∧ written w' = written w ++ pre
  end.
Proof.
  unfold write_solve_request_frame. unfold mbind at 1, SE_bind at 1, se_lift at 1.
  destruct (prepare_solve_request request policy) as [prepared|e] eqn:Hp.
  2:{ exists []. split; [apply prefix_nil|by rewrite app_nil_r]. }
  apply prepared_Ok in Hp as (Hs & Hf & Hv & Hl & Hu).
  unfold mbind at 1, SE_bind at 1, se_lift at 1. unfold scratch. destruct (try_reserve _).
  2:{ exists []. split; [apply prefix_nil|by rewrite app_nil_r]. }
  rewrite Hs, Hf.
  pose proof (emits_bind _ _ _ _ (emits_write_all (u32_to_be_bytes (len (solve_payload request)))
    "writing solve frame prefix") (emits_solve_fields request) w) as Hem.
  destruct ((write_all _ _ ≫= _) w) as [[[]|e] w']; [|done]. done.
Qed.
Lemma solve_payload_parses request :
  is_u64 (len (solve_body request)) → len (solve_payload request) < 2 ^ 32 →
  take_length (solve_payload request) 1 =
  Ok (solve_body request, len (solve_payload request), 1 + varint_length (len (solve_body request))).
Proof.
  intros Hu Hl. unfold take_length, solve_payload, field_bytes.
  replace (parse_varint ([18] ++ varint_bytes 10 (len (solve_body request)) ++ solve_body request) 1)
    with (Ok (E := VarintError) (len (solve_body request), 1 + varint_length (len (solve_body request)))).
  2:{ symmetry. apply (parse_written_varint [18]); [done|]. fold (field_bytes 18 (solve_body request)).
      fold (solve_payload request). unfold u64_max. lia. }
  cbn [map_err mbind Result_bind]. fold (field_bytes 18 (solve_body request)).
  pose proof (field_bytes_len 18 (solve_body request) Hu) as Hlen.
  unfold solve_payload in Hl. rewrite (proj2 (checked_u64_Some _ (len (field_bytes 18 (solve_body request))))).
  2:{ split; [lia|]. unfold is_u64, u64_max. unfold len in *. lia. }
  cbn [ok_or mbind Result_bind]. rewrite Z.ltb_irrefl. do 3 f_equal.
  replace (Z.to_nat (1 + varint_length (len (solve_body request))))
    with (length ([18] ++ varint_bytes 10 (len (solve_body request)))).
  2:{ rewrite varint_length_spec by done. unfold len. rewrite length_app. cbn [length]. lia. }
  unfold field_bytes. rewrite app_assoc, drop_app_length. unfold len. by rewrite Nat2Z.id, firstn_all.
Qed.
End solve.

(** C39. Frames are read back. A frame [encode_frame] produced, followed by anything, yields the
    encoded message and leaves the rest. A solve request that was streamed without an error put
    exactly one frame on the wire, whatever the writer did before, and that frame is read back as
    one length-delimited field holding the request's fields; when a write fails, a prefix of that
    frame is all that was written. *)
Theorem frames_read_back `{LawfulEncoder} try_reserve message bytes class policy request w rest :
  encodes_to message bytes →
  (∀ frame, encode_frame try_reserve message class policy = Ok frame →
     inspect_frame (frame ++ rest) class policy = Ok {| payload := bytes; remainder := rest |}) ∧
  match write_solve_request_frame try_reserve request policy w with
  | (Ok _, w') =>
      written w' = written w ++ solve_frame request ∧
      inspect_frame (solve_frame request ++ rest) SolveRequestClass policy
      = Ok {| payload := solve_payload request; remainder := rest |} ∧
      take_length (solve_payload request) 1
      = Ok (solve_body request, len (solve_payload request), 1 + varint_length (len (solve_body request)))
  | (Err _, w') => ∃ pre, pre `prefix_of` solve_frame request ∧ written w' = written w ++ pre
  end.
Proof.
  intros He. split.
  - intros frame Hf. destruct (encoded_frame_shape _ _ _ _ _ _ He Hf) as (-> & Hv & Hl). by apply inspect_framed.
  - pose proof (streamed_frame try_reserve request policy w) as Hs.
    destruct (write_solve_request_frame try_reserve request policy w) as [[[]|e] w']; [|done].
    destruct Hs as (Hw & Hv & Hl & Hu). split_and!; [done| |by apply solve_payload_parses].
    by apply inspect_framed.
Qed.
