(* ===== verification/Session.v ===== *)
(** * Solver-worker protocol: the parent's session state machine

    Models [crates/eutheto-protocol/src/state.rs], with the control-character test of [stderr.rs] it
    uses.  SHA-256 and the semantic-version grammar are the [sha2] and [semver] crates': parameters.  A
    double is its bit pattern. *)
From stdpp Require Import base tactics list gmap strings.
From Stdlib Require Import ZArith Lia.
From S2P Require Import Prelude Ordering Protocol.
Open Scope Z_scope.

(** ** Text and numbers *)
(** [char::is_control] and the directional and invisible characters of [is_unsafe_control] *)
Definition is_control (c : Z) : bool := in_range 0 31 c || in_range 127 159 c.
Definition is_unsafe_control (c : Z) : bool :=
  is_control c || (c =? 1564) || in_range 8203 8207 c || in_range 8232 8238 c || in_range 8288 8303 c
  || (c =? 65279).
(** [f64::is_finite], and [value < 0.0] of a finite value *)
Definition f64_is_finite (bits : Z) : bool := negb (bits / 2 ^ 52 mod 2 ^ 11 =? 2047).
Definition f64_is_negative (bits : Z) : bool := 2 ^ 63 <? bits.

Definition validate_finite (values : list Z) (field : string) : PR unit :=
  if existsb (λ value, negb (f64_is_finite value)) values then state_err (InvalidWorkerField field)
  else Ok tt.
Definition validate_optional_nonnegative_finite (value : option Z) (field : string) : PR unit :=
  if match value with Some v => negb (f64_is_finite v) || f64_is_negative v | None => false end
  then state_err (InvalidWorkerField field)
  else Ok tt.
Definition validate_request_id (expected actual : string) : PR unit :=
  if negb (bool_decide (expected = actual)) then state_err RequestId else Ok tt.
Definition validate_safe_diagnostic (value field : string) : PR unit :=
  if bool_decide (value = EmptyString) || existsb is_unsafe_control (chars value)
  then state_err (InvalidWorkerField field)
  else Ok tt.
Definition text_cap (policy : ProtocolPolicy) (key : string) : Z :=
  Z.min (default (max_string_bytes policy) (max_bytes (field_limit policy key))) (max_string_bytes policy).
Definition validate_expected_text (policy : ProtocolPolicy) (policy_key field value : string) : PR unit :=
  if bool_decide (value = EmptyString) || (text_cap policy policy_key <? str_len value)
  then state_err (InvalidHandshake field)
  else Ok tt.

(** ** Capabilities *)
Definition capability_value (value : Z) (capabilities : gset Z) : PR (gset Z) :=
  match Capability_try_from value with
  | None | Some CapUnspecified => state_err InvalidCapability
  | Some capability =>
      if negb SUFFICIENT_ASSUMPTIONS_ENABLED
         && match capability with CapSufficientAssumptions => true | _ => false end
      then state_err (CapabilityDisabled value)
      else if decide (value ∈ capabilities) then state_err (DuplicateCapability value)
      else Ok ({[ value ]} ∪ capabilities)
  end.
Definition validate_capability_values (values : list Z) : PR (gset Z) :=
  fold_m (λ capabilities value, capability_value value capabilities) ∅ values.
Definition require_negotiated_capability (negotiated : gset Z) (capability : Capability) (field : string) :
    PR unit :=
  let capability := Capability_code capability in
  if decide (capability ∈ negotiated) then Ok tt else state_err (UnnegotiatedCapability field capability).
Definition require_if (condition : bool) (check : PR unit) : PR unit := if condition then check else Ok tt.

(** ** Applied parameters *)
Record NormalizedAppliedParameters := {
  wall_time_millis : Z;
  worker_threads : Z;
  random_seed : Z;
  stop_after_first_feasible : bool;
  emit_intermediate_solutions : bool;
  log_search_progress : bool;
  deterministic_test_profile : bool
}.
Definition normalize_applied_parameters (solve : SolveRequest) : PR NormalizedAppliedParameters :=
  policy ← checked_in_policy;
  parameters ← ok_or (FState (InvalidSolveRequest "parameters")) (sq_parameters solve);
  resource_limits ← ok_or (FState (InvalidSolveRequest "resource_limits")) (sq_resource_limits solve);
  if rl_wall_time_millis resource_limits =? 0
  then state_err (InvalidSolveRequest "resource_limits.wall_time_millis")
  else if (rl_worker_threads resource_limits =? 0)
          || (max_worker_threads policy <? rl_worker_threads resource_limits)
  then state_err (InvalidSolveRequest "resource_limits.worker_threads")
  else if bool_decide (rl_memory_bytes resource_limits = Some 0)
  then state_err (InvalidSolveRequest "resource_limits.memory_bytes")
  else
    let normalized := {|
      wall_time_millis := rl_wall_time_millis resource_limits;
      worker_threads := rl_worker_threads resource_limits;
      random_seed := default 1 (pm_random_seed parameters);
      stop_after_first_feasible := default false (pm_stop_after_first_feasible parameters);
      emit_intermediate_solutions := default false (pm_emit_intermediate_solutions parameters);
      log_search_progress := default false (pm_log_search_progress parameters);
      deterministic_test_profile := default false (pm_deterministic_test_profile parameters) |} in
    if deterministic_test_profile normalized
       && (negb (worker_threads normalized =? 1) || negb (random_seed normalized =? 1))
    then state_err (InvalidSolveRequest "parameters.deterministic_test_profile")
    else Ok normalized.

(** [to_be_bytes] of an [n]-byte integer, in two's complement *)
Fixpoint to_be_bytes (n : nat) (value : Z) : list Z :=
  match n with
  | O => []
  | S n => value / 2 ^ (8 * Z.of_nat n) mod 256 :: to_be_bytes n value
  end.
Definition u8_from (b : bool) : Z := if b then 1 else 0.
Definition applied_parameters_preimage (parameters : NormalizedAppliedParameters) : list Z :=
  APPLIED_PARAMETERS_DOMAIN
  ++ to_be_bytes 8 (wall_time_millis parameters)
  ++ to_be_bytes 4 (worker_threads parameters)
  ++ to_be_bytes 4 (random_seed parameters)
  ++ [u8_from (stop_after_first_feasible parameters); u8_from (emit_intermediate_solutions parameters);
      u8_from (log_search_progress parameters); u8_from (deterministic_test_profile parameters)].

(** ** Candidates *)
(** [windows(2).find(|pair| pair[0] == pair[1])] *)
Definition find_duplicate (sorted : list Z) : option Z :=
  fst <$> List.find (λ '(a, b), a =? b) (windows2 sorted).
Definition sorted_contains (sorted : list Z) (x : Z) : bool :=
  bool_decide (is_Some (binary_search_by_key (λ y, y) x sorted)).
Definition validate_candidate (candidate : ProjectedCandidate) (requested_projections : list Z) : PR unit :=
  let observed := ord_sort (pv_projection_id <$> values candidate) in
  match find_duplicate observed with
  | Some duplicate => state_err (DuplicateProjection duplicate)
  | None =>
      match List.find (λ p, negb (sorted_contains requested_projections p)) observed with
      | Some unrequested => state_err (UnrequestedProjection unrequested)
      | None =>
          match List.find (λ p, negb (sorted_contains observed p)) requested_projections with
          | Some missing => state_err (MissingProjection missing)
          | None => Ok tt
          end
      end
  end.

(** ** Finished *)
Definition finished_outcome_is_coherent (raw_status : Z) (status : WorkerSolveStatus)
    (termination : TerminationReason) (has_candidate : bool) : bool :=
  match raw_status with
  | 4 => bool_decide (status = WsOptimal) && bool_decide (termination = TrOptimal) && has_candidate
  | 3 => bool_decide (status = WsInfeasible) && bool_decide (termination = TrInfeasible) && negb has_candidate
  | 2 => bool_decide (status = WsFeasible)
         && match termination with
            | TrTimeLimit | TrSolutionLimit | TrMemoryLimit | TrCancelled => true
            | _ => false
            end
         && has_candidate
  | 1 => bool_decide (status = WsInvalidModel) && bool_decide (termination = TrInvalidModel)
         && negb has_candidate
  | 0 => (bool_decide (status = WsNoSolution)
          && match termination with TrTimeLimit | TrMemoryLimit | TrUnknown => true | _ => false end
          && negb has_candidate)
         || (bool_decide (status = WsCancelled) && bool_decide (termination = TrCancelled))
         || (bool_decide (status = WsFailed) && bool_decide (termination = TrInternalError)
             && negb has_candidate)
  | _ => false
  end.
Definition validate_finished_timing (finished : Finished) (negotiated : gset Z) : PR unit :=
  _ ← validate_finite (fn_objective_values finished) "finished.objective_values";
  _ ← validate_finite (fn_best_bound_values finished) "finished.best_bound_values";
  _ ← require_if (negb (bool_decide (fn_best_bound_values finished = [])))
        (require_negotiated_capability negotiated CapObjectiveBounds "finished.best_bound_values");
  _ ← require_if (bool_decide (is_Some (fn_deterministic_time finished)))
        (require_negotiated_capability negotiated CapDeterministicTime "finished.deterministic_time");
  _ ← require_if (bool_decide (is_Some (fn_conflicts finished)) || bool_decide (is_Some (fn_branches finished))
                  || bool_decide (is_Some (fn_binary_propagations finished))
                  || bool_decide (is_Some (fn_integer_propagations finished)))
        (require_negotiated_capability negotiated CapSolutionStats "finished.solution_stats");
  _ ← validate_optional_nonnegative_finite (fn_wall_time_seconds finished) "finished.wall_time_seconds";
  _ ← validate_optional_nonnegative_finite (fn_user_time_seconds finished) "finished.user_time_seconds";
  validate_optional_nonnegative_finite (fn_deterministic_time finished) "finished.deterministic_time".
Definition validate_finished (finished : Finished) (model_fingerprint : list Z)
    (requested_projections : list Z) (expected_applied_parameters_sha256 : list Z) (negotiated : gset Z) :
    PR unit :=
  if negb ((0 <=? fn_raw_cp_sat_status finished) && (fn_raw_cp_sat_status finished <=? 4))
  then state_err (InvalidWorkerField "finished.raw_cp_sat_status")
  else match WorkerSolveStatus_try_from (fn_status finished) with
  | None | Some WsUnspecified => state_err (InvalidWorkerField "finished.status")
  | Some status =>
  match TerminationReason_try_from (fn_termination_reason finished) with
  | None | Some TrUnspecified => state_err (InvalidWorkerField "finished.termination_reason")
  | Some termination =>
  if negb (finished_outcome_is_coherent (fn_raw_cp_sat_status finished) status termination
             (bool_decide (is_Some (fn_final_candidate finished))))
  then state_err (InvalidWorkerField "finished.outcome")
  else if negb (bool_decide (fn_model_fingerprint finished = model_fingerprint))
  then state_err ModelFingerprint
  else if negb (bool_decide (fn_applied_parameters_sha256 finished = expected_applied_parameters_sha256))
  then state_err (InvalidWorkerField "finished.applied_parameters_sha256")
  else
    _ ← validate_finished_timing finished negotiated;
    _ ← match fn_final_candidate finished with
        | None => Ok tt
        | Some candidate =>
            _ ← require_negotiated_capability negotiated CapSolutionProjection "finished.final_candidate";
            validate_candidate candidate requested_projections
        end;
    if bool_decide (fn_sufficient_assumptions finished = []) then Ok tt
    else if negb SUFFICIENT_ASSUMPTIONS_ENABLED
    then state_err (CapabilityDisabled (Capability_code CapSufficientAssumptions))
    else
      _ ← require_negotiated_capability negotiated CapSufficientAssumptions "finished.sufficient_assumptions";
      if negb (fn_raw_cp_sat_status finished =? 3) || negb (bool_decide (status = WsInfeasible))
         || negb (bool_decide (termination = TrInfeasible))
         || bool_decide (is_Some (fn_final_candidate finished))
      then state_err (InvalidWorkerField "finished.sufficient_assumptions")
      else Ok tt
  end
  end.
Definition validate_progress (progress : Progress) (negotiated : gset Z) : PR unit :=
  _ ← require_negotiated_capability negotiated CapProgress "progress";
  _ ← require_if (negb (bool_decide (pg_best_bound_values progress = [])))
        (require_negotiated_capability negotiated CapObjectiveBounds "progress.best_bound_values");
  _ ← require_if (bool_decide (is_Some (pg_deterministic_time progress)))
        (require_negotiated_capability negotiated CapDeterministicTime "progress.deterministic_time");
  match ProgressKind_try_from (pg_kind progress) with
  | None | Some PkUnspecified => state_err (InvalidWorkerField "progress.kind")
  | Some _ =>
      _ ← validate_finite (pg_objective_values progress) "progress.objective_values";
      _ ← validate_finite (pg_best_bound_values progress) "progress.best_bound_values";
      _ ← validate_optional_nonnegative_finite (pg_wall_time_seconds progress) "progress.wall_time_seconds";
      validate_optional_nonnegative_finite (pg_deterministic_time progress) "progress.deterministic_time"
  end.
Definition validate_incumbent (incumbent : Incumbent) (requested_projections : list Z) (negotiated : gset Z) :
    PR unit :=
  _ ← require_negotiated_capability negotiated CapIntermediateSolutions "incumbent";
  _ ← require_negotiated_capability negotiated CapSolutionProjection "incumbent.candidate";
  _ ← require_if (negb (bool_decide (ic_best_bound_values incumbent = [])))
        (require_negotiated_capability negotiated CapObjectiveBounds "incumbent.best_bound_values");
  _ ← require_if (bool_decide (is_Some (ic_deterministic_time incumbent)))
        (require_negotiated_capability negotiated CapDeterministicTime "incumbent.deterministic_time");
  _ ← validate_finite (ic_objective_values incumbent) "incumbent.objective_values";
  _ ← validate_finite (ic_best_bound_values incumbent) "incumbent.best_bound_values";
  _ ← validate_optional_nonnegative_finite (ic_wall_time_seconds incumbent) "incumbent.wall_time_seconds";
  _ ← validate_optional_nonnegative_finite (ic_deterministic_time incumbent) "incumbent.deterministic_time";
  candidate ← ok_or (FState (InvalidWorkerField "incumbent.candidate")) (ic_candidate incumbent);
  validate_candidate candidate requested_projections.

(** ** Expectations *)
Record HandshakeExpectations := {
  ex_protocol_major : Z;
  ex_protocol_minor : Z;
  ex_worker_identity : string;
  ex_worker_version : string;
  ex_backend_id : string;
  ex_ortools_version : string;
  ex_adapter_version : string;
  ex_manifest_sha256 : list Z;
  ex_required_capabilities : gset Z;
  ex_expected_advertised_capabilities : gset Z
}.

(** Evidence of a session. *)
Record StartedObservation := { so_request_id : string; so_model_fingerprint : list Z }.
Inductive WorkerObservation :=
| ObsHandshakeAccepted
| ObsHandshakeRejected
| ObsStarted (started : StartedObservation)
| ObsProgress (progress : Progress)
| ObsIncumbent (incumbent : Incumbent)
| ObsTerminal.
Record HandshakeRejectionEvidence := { rejection_error : HandshakeError }.
Record TerminalEvidence := { terminal_frame : WorkerFrame }.
Inductive CompletedSession :=
| CompletedSolve (evidence : TerminalEvidence)
| CompletedRejection (evidence : HandshakeRejectionEvidence).

(** What the parent remembers of the solve request it sent. *)
Record ActiveRequest := {
  request_id : string;
  model_fingerprint : list Z;
  requested_projections : list Z;
  applied_parameters : NormalizedAppliedParameters
}.
Inductive PhaseState :=
| PHandshakeRequest
| PHandshakeResponse
| PRejected (evidence : HandshakeRejectionEvidence)
| PRejectedEof (evidence : HandshakeRejectionEvidence)
| PRejectedComplete (evidence : HandshakeRejectionEvidence)
| PSolveRequest
| PStarted (request : ActiveRequest)
| PRunning (request : ActiveRequest)
| PTerminal (evidence : TerminalEvidence)
| PEof (evidence : TerminalEvidence)
| PComplete (evidence : TerminalEvidence)
| PFailed.
Definition phase_state_name (phase : PhaseState) : string :=
  match phase with
  | PHandshakeRequest => "handshake-request"
  | PHandshakeResponse => "handshake-response"
  | PRejected _ => "rejected"
  | PRejectedEof _ => "rejected-eof"
  | PRejectedComplete _ => "rejected-complete"
  | PSolveRequest => "solve-request"
  | PStarted _ => "started"
  | PRunning _ => "running"
  | PTerminal _ => "terminal"
  | PEof _ => "eof"
  | PComplete _ => "complete"
  | PFailed => "failed"
  end.
Record ParentProtocol := {
  expectations : HandshakeExpectations;
  negotiated_capabilities : gset Z;
  phase : PhaseState
}.
Definition ParentProtocol_new (expectations : HandshakeExpectations) : ParentProtocol :=
  {| expectations := expectations; negotiated_capabilities := ∅; phase := PHandshakeRequest |}.
Notation SM := (SE ParentProtocol ProtocolFault).
Definition set_phase (p : PhaseState) : SM unit := λ s,
  (Ok tt, {| expectations := expectations s; negotiated_capabilities := negotiated_capabilities s; phase := p |}).
Definition set_negotiated (c : gset Z) : SM unit := λ s,
  (Ok tt, {| expectations := expectations s; negotiated_capabilities := c; phase := phase s |}).
Definition get_state : SM ParentProtocol := λ s, (Ok s, s).
Definition state_fail {A} (fault : StateFault) : SM A := se_fail (FState fault).
(** Every failure of an operation leaves the session failed. *)
Definition absorb_failure {A} (m : SM A) : SM A := λ s,
  match m s with
  | (Ok a, s') => (Ok a, s')
  | (Err e, s') => (Err e, {| expectations := expectations s';
                             negotiated_capabilities := negotiated_capabilities s'; phase := PFailed |})
  end.

Definition parent_body_name (body : ParentBody) : string :=
  match body with ParentHandshakeRequest _ => "handshake-request" | ParentSolveRequest _ => "solve-request" end.
Definition worker_body_name (body : WorkerBody) : string :=
  match body with
  | WorkerHandshakeResponse _ => "handshake-response"
  | WorkerStarted _ => "started"
  | WorkerProgress _ => "progress"
  | WorkerIncumbent _ => "incumbent"
  | WorkerFinished _ => "finished"
  | WorkerErrorBody _ => "error"
  end.

Section session.
Context (sha256 : list Z → list Z) (semver_parses : string → bool).

Definition applied_parameters_sha256 (parameters : NormalizedAppliedParameters) : list Z :=
  sha256 (applied_parameters_preimage parameters).
Definition validate_semver (field value : string) : PR unit :=
  if semver_parses value then Ok tt else state_err (InvalidVersion field).
Definition validate_protocol_version (ex : HandshakeExpectations) (major minor : Z) : PR unit :=
  if negb (major =? ex_protocol_major ex) || negb (minor =? ex_protocol_minor ex)
  then state_err (ProtocolVersionFault (ex_protocol_major ex) (ex_protocol_minor ex) major minor)
  else Ok tt.

Definition HandshakeExpectations_new (protocol_major_ protocol_minor_ : Z)
    (worker_identity worker_version backend_id ortools_version adapter_version : string)
    (manifest_sha256 : list Z) (required advertised : list Capability) : PR HandshakeExpectations :=
  policy ← checked_in_policy;
  if negb (protocol_major_ =? protocol_major policy) || negb (protocol_minor_ =? protocol_minor policy)
  then state_err (ProtocolVersionFault (protocol_major policy) (protocol_minor policy) protocol_major_
                    protocol_minor_)
  else
    _ ← validate_expected_text policy "eutheto.worker.v1.HandshakeSuccess.worker_identity" "worker_identity"
          worker_identity;
    _ ← validate_expected_text policy "eutheto.worker.v1.HandshakeSuccess.worker_version" "worker_version"
          worker_version;
    _ ← validate_expected_text policy "eutheto.worker.v1.HandshakeSuccess.backend_id" "backend_id" backend_id;
    _ ← validate_expected_text policy "eutheto.worker.v1.HandshakeSuccess.ortools_version" "ortools_version"
          ortools_version;
    _ ← validate_expected_text policy "eutheto.worker.v1.HandshakeSuccess.adapter_version" "adapter_version"
          adapter_version;
    _ ← validate_semver "worker_version" worker_version;
    _ ← validate_semver "ortools_version" ortools_version;
    _ ← validate_semver "adapter_version" adapter_version;
    required ← validate_capability_values (Capability_code <$> required);
    advertised ← validate_capability_values (Capability_code <$> advertised);
    if negb (bool_decide (required ⊆ advertised))
    then state_err (InvalidHandshake "expected_advertised_capabilities")
    else Ok {| ex_protocol_major := protocol_major_; ex_protocol_minor := protocol_minor_;
               ex_worker_identity := worker_identity; ex_worker_version := worker_version;
               ex_backend_id := backend_id; ex_ortools_version := ortools_version;
               ex_adapter_version := adapter_version; ex_manifest_sha256 := manifest_sha256;
               ex_required_capabilities := required; ex_expected_advertised_capabilities := advertised |}.

Definition HandshakeExpectations_checked_in
    (worker_identity worker_version backend_id ortools_version adapter_version : string)
    (manifest_sha256 : list Z) (required advertised : list Capability) : PR HandshakeExpectations :=
  policy ← checked_in_policy;
  HandshakeExpectations_new (protocol_major policy) (protocol_minor policy) worker_identity worker_version
    backend_id ortools_version adapter_version manifest_sha256 required advertised.

Definition validate_handshake_request (ex : HandshakeExpectations) (handshake : HandshakeRequest) : PR unit :=
  _ ← validate_protocol_version ex (hq_protocol_major handshake) (hq_protocol_minor handshake);
  policy ← checked_in_policy;
  _ ← validate_expected_text policy "eutheto.worker.v1.HandshakeRequest.core_version" "core_version"
        (hq_core_version handshake);
  _ ← validate_semver "core_version" (hq_core_version handshake);
  if negb (bool_decide (hq_expected_backend_id handshake = ex_backend_id ex))
  then state_err (InvalidHandshake "backend_id")
  else if negb (len (hq_expected_manifest_sha256 handshake) =? 32)
          || negb (bool_decide (hq_expected_manifest_sha256 handshake = ex_manifest_sha256 ex))
  then state_err (InvalidHandshake "expected_manifest_sha256")
  else
    required ← validate_capability_values (hq_required_capabilities handshake);
    if negb (bool_decide (required = ex_required_capabilities ex))
    then state_err (InvalidHandshake "required_capabilities")
    else Ok tt.
Definition validate_handshake_success (ex : HandshakeExpectations) (success : HandshakeSuccess) : PR (gset Z) :=
  _ ← validate_protocol_version ex (hs_protocol_major success) (hs_protocol_minor success);
  policy ← checked_in_policy;
  _ ← for_each (λ '(key, field, value), validate_expected_text policy key field value)
        [ ("eutheto.worker.v1.HandshakeSuccess.worker_identity", "worker_identity", hs_worker_identity success);
          ("eutheto.worker.v1.HandshakeSuccess.worker_version", "worker_version", hs_worker_version success);
          ("eutheto.worker.v1.HandshakeSuccess.backend_id", "backend_id", hs_backend_id success);
          ("eutheto.worker.v1.HandshakeSuccess.ortools_version", "ortools_version", hs_ortools_version success);
          ("eutheto.worker.v1.HandshakeSuccess.adapter_version", "adapter_version",
           hs_adapter_version success) ]%string;
  _ ← validate_semver "worker_version" (hs_worker_version success);
  _ ← validate_semver "ortools_version" (hs_ortools_version success);
  _ ← validate_semver "adapter_version" (hs_adapter_version success);
  if negb (bool_decide (hs_worker_identity success = ex_worker_identity ex))
     || negb (bool_decide (hs_backend_id success = ex_backend_id ex))
  then state_err BackendIdentity
  else
    _ ← for_each (λ '(field, actual, expected),
          if negb (bool_decide (actual = expected)) then state_err (VersionMismatch field) else Ok tt)
          [ ("worker_version", hs_worker_version success, ex_worker_version ex);
            ("ortools_version", hs_ortools_version success, ex_ortools_version ex);
            ("adapter_version", hs_adapter_version success, ex_adapter_version ex) ]%string;
    if negb (bool_decide (hs_manifest_sha256 success = ex_manifest_sha256 ex)) then state_err ManifestSha256
    else
      capabilities ← validate_capability_values (hs_capabilities success);
      if negb (bool_decide (capabilities = ex_expected_advertised_capabilities ex))
      then state_err (InvalidHandshake "advertised_capabilities")
      else Ok capabilities.

(** ** Solve requests *)
Definition push_projection (requested : list Z) (projection : ProjectionRequest) : PR (list Z) :=
  if pq_cp_sat_variable_index projection <? 0
  then state_err (InvalidSolveRequest "projections.cp_sat_variable_index")
  else Ok (requested ++ [pq_projection_id projection]).
Definition projection_ids (projections : list ProjectionRequest) : PR (list Z) :=
  fold_m push_projection [] projections.
Definition validate_solve_request (solve : SolveRequest) (negotiated : gset Z) : PR ActiveRequest :=
  _ ← require_negotiated_capability negotiated CapCpSat "solve_request";
  policy ← checked_in_policy;
  if bool_decide (sq_request_id solve = EmptyString)
     || (text_cap policy "eutheto.worker.v1.SolveRequest.request_id" <? str_len (sq_request_id solve))
  then state_err (InvalidSolveRequest "request_id")
  else if default (frame_cap policy SolveRequestClass)
            (max_bytes (field_limit policy "eutheto.worker.v1.SolveRequest.cp_model_proto"))
          <? len (sq_cp_model_proto solve)
  then state_err (InvalidSolveRequest "cp_model_proto")
  else
    normalized ← normalize_applied_parameters solve;
    parameters ← ok_or (FState (InvalidSolveRequest "parameters")) (sq_parameters solve);
    _ ← require_if (bool_decide (pm_emit_intermediate_solutions parameters = Some true))
          (require_negotiated_capability negotiated CapIntermediateSolutions
             "solve_request.parameters.emit_intermediate_solutions");
    _ ← require_if (bool_decide (pm_log_search_progress parameters = Some true))
          (require_negotiated_capability negotiated CapProgress
             "solve_request.parameters.log_search_progress");
    let expected := sha256 (sq_cp_model_proto solve) in
    if negb (bool_decide (sq_model_fingerprint solve = expected))
    then state_err (InvalidSolveRequest "model_fingerprint")
    else if Z.min (default (max_repeated_field_items policy)
                     (max_count (field_limit policy "eutheto.worker.v1.SolveRequest.projections")))
              (max_repeated_field_items policy) <? len (sq_projections solve)
    then state_err (InvalidSolveRequest "projections")
    else
      _ ← require_if (negb (bool_decide (sq_projections solve = [] )))
            (require_negotiated_capability negotiated CapSolutionProjection "solve_request.projections");
      requested ← projection_ids (sq_projections solve);
      let requested := ord_sort requested in
      match find_duplicate requested with
      | Some duplicate => state_err (DuplicateProjection duplicate)
      | None => Ok {| request_id := sq_request_id solve; model_fingerprint := expected;
                      requested_projections := requested; applied_parameters := normalized |}
      end.

(** ** Transitions *)
Definition on_parent_frame_inner (frame : ParentFrame) : SM unit :=
  body ← se_lift (ok_or (FState MissingParentBody) (parent_body frame));
  s ← get_state;
  match phase s, body with
  | PHandshakeRequest, ParentHandshakeRequest handshake =>
      _ ← se_lift (validate_handshake_request (expectations s) handshake);
      set_phase PHandshakeResponse
  | PSolveRequest, ParentSolveRequest solve =>
      request ← se_lift (validate_solve_request solve (negotiated_capabilities s));
      set_phase (PStarted request)
  | phase, _ => state_fail (UnexpectedParent (phase_state_name phase) (parent_body_name body))
  end.
Definition on_parent_frame (frame : ParentFrame) : SM unit := absorb_failure (on_parent_frame_inner frame).

Definition tightened (request : ActiveRequest) (millis : Z) : ActiveRequest :=
  let p := applied_parameters request in
  {| request_id := request_id request; model_fingerprint := model_fingerprint request;
     requested_projections := requested_projections request;
     applied_parameters :=
       {| wall_time_millis := millis; worker_threads := worker_threads p; random_seed := random_seed p;
          stop_after_first_feasible := stop_after_first_feasible p;
          emit_intermediate_solutions := emit_intermediate_solutions p;
          log_search_progress := log_search_progress p;
          deterministic_test_profile := deterministic_test_profile p |} |}.
Definition tighten_started_wall_time_millis (millis : Z) : SM unit :=
  absorb_failure (
    s ← get_state;
    match phase s with
    | PStarted request =>
        if (0 <? millis) && (millis <=? wall_time_millis (applied_parameters request))
        then set_phase (PStarted (tightened request millis))
        else state_fail (InvalidSolveRequest "resource_limits.wall_time_millis")
    | phase => state_fail (UnexpectedParent (phase_state_name phase) "wall-time-tightening")
    end).

Definition take_started_observation (started : Started) : PR WorkerObservation :=
  if negb (len (sd_model_fingerprint started) =? 32) then state_err ModelFingerprint
  else Ok (ObsStarted {| so_request_id := sd_request_id started;
                         so_model_fingerprint := sd_model_fingerprint started |}).
Definition on_handshake_outcome (o : Outcome) : SM WorkerObservation :=
  s ← get_state;
  match o with
  | Success success =>
      capabilities ← se_lift (validate_handshake_success (expectations s) success);
      _ ← set_negotiated capabilities;
      _ ← set_phase PSolveRequest;
      mret ObsHandshakeAccepted
  | OutcomeError error =>
      match HandshakeErrorCode_try_from (he_code error) with
      | None | Some HecUnspecified => state_fail (InvalidWorkerField "handshake_error.code")
      | Some _ =>
          _ ← se_lift (validate_safe_diagnostic (he_message error) "handshake_error.message");
          _ ← set_phase (PRejected {| rejection_error := error |});
          mret ObsHandshakeRejected
      end
  end.
Definition on_worker_error (frame : WorkerFrame) (error : WorkerError) : SM WorkerObservation :=
  match WorkerErrorCode_try_from (we_code error) with
  | None | Some WecUnspecified => state_fail (InvalidWorkerField "error.code")
  | Some _ =>
      _ ← se_lift (validate_safe_diagnostic (we_message error) "error.message");
      _ ← set_phase (PTerminal {| terminal_frame := frame |});
      mret ObsTerminal
  end.
Definition on_worker_frame_inner (frame : WorkerFrame) : SM WorkerObservation :=
  body ← se_lift (ok_or (FState MissingWorkerBody) (worker_body frame));
  s ← get_state;
  match phase s, body with
  | PHandshakeResponse, WorkerHandshakeResponse response =>
      o ← se_lift (ok_or (FState MissingWorkerBody) (outcome response));
      on_handshake_outcome o
  | PStarted request, WorkerStarted started =>
      _ ← se_lift (validate_request_id (request_id request) (sd_request_id started));
      if negb (bool_decide (sd_model_fingerprint started = model_fingerprint request))
      then state_fail ModelFingerprint
      else
        _ ← set_phase (PRunning request);
        se_lift (take_started_observation started)
  | PRunning request, WorkerProgress progress =>
      _ ← se_lift (validate_request_id (request_id request) (pg_request_id progress));
      _ ← se_lift (validate_progress progress (negotiated_capabilities s));
      mret (ObsProgress progress)
  | PRunning request, WorkerIncumbent incumbent =>
      _ ← se_lift (validate_request_id (request_id request) (ic_request_id incumbent));
      _ ← se_lift (validate_incumbent incumbent (requested_projections request) (negotiated_capabilities s));
      mret (ObsIncumbent incumbent)
  | PRunning request, WorkerFinished finished =>
      _ ← se_lift (validate_request_id (request_id request) (fn_request_id finished));
      _ ← se_lift (validate_finished finished (model_fingerprint request) (requested_projections request)
                     (applied_parameters_sha256 (applied_parameters request)) (negotiated_capabilities s));
      _ ← set_phase (PTerminal {| terminal_frame := frame |});
      mret ObsTerminal
  | PRunning request, WorkerErrorBody error =>
      _ ← se_lift (validate_request_id (request_id request) (we_request_id error));
      on_worker_error frame error
  | phase, _ => state_fail (UnexpectedWorker (phase_state_name phase) (worker_body_name body))
  end.
Definition on_worker_frame (frame : WorkerFrame) : SM WorkerObservation :=
  absorb_failure (on_worker_frame_inner frame).

Definition on_eof : SM unit :=
  absorb_failure (
    s ← get_state;
    match phase s with
    | PTerminal evidence => set_phase (PEof evidence)
    | PRejected evidence => set_phase (PRejectedEof evidence)
    | PHandshakeRequest | PHandshakeResponse | PSolveRequest | PStarted _ | PRunning _ | PFailed =>
        state_fail MissingTerminal
    | PEof _ | PComplete _ | PRejectedEof _ | PRejectedComplete _ =>
        state_fail (UnexpectedWorker (phase_state_name (phase s)) "EOF")
    end).
Definition on_exit (code : Z) : SM unit :=
  absorb_failure (
    s ← get_state;
    match phase s with
    | PEof evidence =>
        if code =? 0 then set_phase (PComplete evidence) else state_fail (ContradictoryExit code)
    | PRejectedEof evidence =>
        if code =? 0 then set_phase (PRejectedComplete evidence) else state_fail (ContradictoryExit code)
    | PTerminal _ | PRejected _ => state_fail ExitBeforeEof
    | PComplete _ | PRejectedComplete _ => state_fail DuplicateExit
    | PHandshakeRequest | PHandshakeResponse | PSolveRequest | PStarted _ | PRunning _ | PFailed =>
        state_fail MissingTerminal
    end).
End session.

Definition completion (s : ParentProtocol) : option TerminalEvidence :=
  match phase s with PComplete evidence => Some evidence | _ => None end.
Definition handshake_rejection (s : ParentProtocol) : option HandshakeRejectionEvidence :=
  match phase s with PRejectedComplete evidence => Some evidence | _ => None end.
Definition into_completion (s : ParentProtocol) : PR CompletedSession :=
  match phase s with
  | PComplete evidence => Ok (CompletedSolve evidence)
  | PRejectedComplete evidence => Ok (CompletedRejection evidence)
  | phase => state_err (CompletionUnavailable (phase_state_name phase))
  end.
