(* ===== verification/SessionFacts.v ===== *)
(** * Which sessions produce evidence

    Facts about [crates/eutheto-protocol/src/state.rs].  A session is the sequence of frames, EOF and
    exit the parent observed, in any order.  The evidence it hands out exists exactly for the traces of
    the protocol, and what it says is correlated with the request. *)
From stdpp Require Import base tactics list gmap strings.
From Stdlib Require Import ZArith Lia Sorted.
From S2P Require Import Prelude Ordering Protocol Session.
Open Scope Z_scope.

(** ** Sessions *)
Inductive SessionEvent :=
| EvParent (frame : ParentFrame)
| EvTighten (millis : Z)
| EvWorker (frame : WorkerFrame)
| EvEof
| EvExit (code : Z).

Section traces.
Context (sha256 : list Z → list Z) (semver_parses : string → bool).
Context (ex : HandshakeExpectations).

Definition apply_event (s : ParentProtocol) (ev : SessionEvent) : ParentProtocol :=
  match ev with
  | EvParent frame => (on_parent_frame sha256 semver_parses frame s).2
  | EvTighten millis => (tighten_started_wall_time_millis millis s).2
  | EvWorker frame => (on_worker_frame sha256 semver_parses frame s).2
  | EvEof => (on_eof s).2
  | EvExit code => (on_exit code s).2
  end.
Definition run_session (events : list SessionEvent) : ParentProtocol :=
  foldl apply_event (ParentProtocol_new ex) events.

(** ** The protocol's own words: which frame may come next *)
Definition handshake_sent (frame : ParentFrame) : Prop :=
  ∃ handshake, parent_body frame = Some (ParentHandshakeRequest handshake) ∧
    validate_handshake_request semver_parses ex handshake = Ok tt.
Definition handshake_accepted (frame : WorkerFrame) (capabilities : gset Z) : Prop :=
  ∃ response success, worker_body frame = Some (WorkerHandshakeResponse response) ∧
    outcome response = Some (Success success) ∧
    validate_handshake_success semver_parses ex success = Ok capabilities.
Definition handshake_refused (frame : WorkerFrame) (evidence : HandshakeRejectionEvidence) : Prop :=
  ∃ response code, worker_body frame = Some (WorkerHandshakeResponse response) ∧
    outcome response = Some (OutcomeError (rejection_error evidence)) ∧
    HandshakeErrorCode_try_from (he_code (rejection_error evidence)) = Some code ∧ code ≠ HecUnspecified ∧
    validate_safe_diagnostic (he_message (rejection_error evidence)) "handshake_error.message" = Ok tt.
Definition solve_sent (capabilities : gset Z) (frame : ParentFrame) (request : ActiveRequest) : Prop :=
  ∃ solve, parent_body frame = Some (ParentSolveRequest solve) ∧
    validate_solve_request sha256 solve capabilities = Ok request.
(** Successive wall-time caps, each positive and no larger than the one before. *)
Inductive tightening (request : ActiveRequest) : list Z → ActiveRequest → Prop :=
| tighten_none : tightening request [] request
| tighten_more caps current millis :
    tightening request caps current → 0 < millis ≤ wall_time_millis (applied_parameters current) →
    tightening request (caps ++ [millis]) (tightened current millis).
Definition start_confirmed (request : ActiveRequest) (frame : WorkerFrame) : Prop :=
  ∃ started, worker_body frame = Some (WorkerStarted started) ∧
    sd_request_id started = request_id request ∧
    sd_model_fingerprint started = model_fingerprint request ∧ len (model_fingerprint request) = 32.
Definition reported (capabilities : gset Z) (request : ActiveRequest) (frame : WorkerFrame) : Prop :=
  (∃ progress, worker_body frame = Some (WorkerProgress progress) ∧
     pg_request_id progress = request_id request ∧ validate_progress progress capabilities = Ok tt) ∨
  (∃ incumbent, worker_body frame = Some (WorkerIncumbent incumbent) ∧
     ic_request_id incumbent = request_id request ∧
     validate_incumbent incumbent (requested_projections request) capabilities = Ok tt).
Definition terminated (capabilities : gset Z) (request : ActiveRequest) (frame : WorkerFrame) : Prop :=
  (∃ finished, worker_body frame = Some (WorkerFinished finished) ∧
     fn_request_id finished = request_id request ∧
     validate_finished finished (model_fingerprint request) (requested_projections request)
       (applied_parameters_sha256 sha256 (applied_parameters request)) capabilities = Ok tt) ∨
  (∃ error code, worker_body frame = Some (WorkerErrorBody error) ∧
     we_request_id error = request_id request ∧
     WorkerErrorCode_try_from (we_code error) = Some code ∧ code ≠ WecUnspecified ∧
     validate_safe_diagnostic (we_message error) "error.message" = Ok tt).

(** A session that accepted a handshake and sent a request, up to the tightened request. *)
Inductive opened : list SessionEvent → gset Z → ActiveRequest → Prop :=
| opened_intro f1 f2 f3 capabilities request caps current :
    handshake_sent f1 → handshake_accepted f2 capabilities → solve_sent capabilities f3 request →
    tightening request caps current →
    opened ([EvParent f1; EvWorker f2; EvParent f3] ++ (EvTighten <$> caps)) capabilities current.
(** The worker confirmed the start, and has reported since. *)
Inductive running : list SessionEvent → gset Z → ActiveRequest → Prop :=
| running_intro events capabilities request f4 reports :
    opened events capabilities request → start_confirmed request f4 →
    Forall (reported capabilities request) reports →
    running (events ++ EvWorker f4 :: (EvWorker <$> reports)) capabilities request.
(** The whole session: a terminal frame, then EOF, then exit code zero. *)
Inductive solve_trace : list SessionEvent → WorkerFrame → Prop :=
| solve_trace_intro events capabilities request frame :
    running events capabilities request → terminated capabilities request frame →
    solve_trace (events ++ [EvWorker frame; EvEof; EvExit 0]) frame.
Inductive rejection_trace : list SessionEvent → HandshakeRejectionEvidence → Prop :=
| rejection_trace_intro f1 f2 evidence :
    handshake_sent f1 → handshake_refused f2 evidence →
    rejection_trace [EvParent f1; EvWorker f2; EvEof; EvExit 0] evidence.

(** ** One operation at a time *)
(** What the events so far must have been for the session to be in a phase. *)
Definition explains (events : list SessionEvent) (capabilities : gset Z) (p : PhaseState) : Prop :=
  match p with
  | PHandshakeRequest => events = []
  | PHandshakeResponse => ∃ f1, events = [EvParent f1] ∧ handshake_sent f1
  | PRejected e => ∃ f1 f2, events = [EvParent f1; EvWorker f2] ∧ handshake_sent f1 ∧ handshake_refused f2 e
  | PRejectedEof e =>
      ∃ f1 f2, events = [EvParent f1; EvWorker f2; EvEof] ∧ handshake_sent f1 ∧ handshake_refused f2 e
  | PRejectedComplete e => rejection_trace events e
  | PSolveRequest =>
      ∃ f1 f2, events = [EvParent f1; EvWorker f2] ∧ handshake_sent f1 ∧ handshake_accepted f2 capabilities
  | PStarted request => opened events capabilities request
  | PRunning request => running events capabilities request
  | PTerminal e => ∃ before request, events = before ++ [EvWorker (terminal_frame e)] ∧
      running before capabilities request ∧ terminated capabilities request (terminal_frame e)
  | PEof e => ∃ before request, events = before ++ [EvWorker (terminal_frame e); EvEof] ∧
      running before capabilities request ∧ terminated capabilities request (terminal_frame e)
  | PComplete e => solve_trace events (terminal_frame e)
  | PFailed => True
  end.

(** The state a session of these events may be in. *)
Definition consistent (events : list SessionEvent) (s : ParentProtocol) : Prop :=
  expectations s = ex ∧ explains events (negotiated_capabilities s) (phase s).
Lemma absorbed {A} (m : SE ParentProtocol ProtocolFault A) events s :
  expectations (m s).2 = ex →
  (∀ a s', m s = (Ok a, s') → consistent events s') → consistent events (absorb_failure m s).2.
Proof.
  intros He Hok. unfold absorb_failure. destruct (m s) as [[a|e] s'] eqn:Hm; [by eapply Hok|]. by split.
Qed.

Ltac unfold_se := unfold mbind, SE_bind, se_lift, get_state, set_phase, set_negotiated, state_fail, se_fail,
  mret, SE_ret; cbn.

Lemma step_parent frame events s :
  consistent events s →
  consistent (events ++ [EvParent frame]) (on_parent_frame sha256 semver_parses frame s).2.
Proof.
  intros [He Hx]. apply absorbed.
  - unfold on_parent_frame_inner. unfold_se. repeat (case_match; simplify_eq/=); done.
  - intros [] s'. unfold on_parent_frame_inner. unfold_se.
    destruct (parent_body frame) as [body|] eqn:Hb; [|done]. cbn.
    destruct (phase s) eqn:Hp; try done; destruct body; try done; cbn.
    + destruct (validate_handshake_request _ _ _) as [[]|] eqn:Hv; [|done]. intros [= <-].
      rewrite He in Hv. cbn in Hx. subst events. split; [done|]. exists frame. split; [done|]. by eexists.
    + destruct (validate_solve_request _ _ _) as [request|] eqn:Hv; [|done]. intros [= <-].
      destruct Hx as (f1 & f2 & -> & H1 & H2). split; [done|]. cbn.
      apply (opened_intro f1 f2 frame _ request []); [done|done|by eexists|constructor].
Qed.
Lemma step_tighten millis events s :
  consistent events s → consistent (events ++ [EvTighten millis]) (tighten_started_wall_time_millis millis s).2.
Proof.
  intros [He Hx]. apply absorbed.
  - unfold_se. repeat (case_match; simplify_eq/=); done.
  - intros [] s'. unfold_se. destruct (phase s) eqn:Hp; try done.
    destruct ((0 <? millis) && _) eqn:Hm; [|done]. intros [= <-].
    apply andb_true_iff in Hm as [Hlo%Z.ltb_lt Hhi%Z.leb_le]. split; [done|]. cbn in *.
    inversion Hx as [f1 f2 f3 c r caps current H1 H2 H3 H4]; subst.
    change [EvTighten millis] with (EvTighten <$> [millis]).
    rewrite <-(app_assoc _ (EvTighten <$> caps)), <-(fmap_app EvTighten caps [millis]).
    eapply opened_intro; [done..|]. by constructor.
Qed.
Lemma step_eof events s : consistent events s → consistent (events ++ [EvEof]) (on_eof s).2.
Proof.
  intros [He Hx]. apply absorbed.
  - unfold_se. repeat (case_match; simplify_eq/=); done.
  - intros [] s'. unfold_se. destruct (phase s) eqn:Hp; try done; intros [= <-]; (split; [done|]); cbn in *.
    + destruct Hx as (f1 & f2 & -> & H1 & H2). by exists f1, f2.
    + destruct Hx as (before & request & -> & H1 & H2). exists before, request. by rewrite <-app_assoc.
Qed.
Lemma step_exit code events s : consistent events s → consistent (events ++ [EvExit code]) (on_exit code s).2.
Proof.
  intros [He Hx]. apply absorbed.
  - unfold_se. repeat (case_match; simplify_eq/=); done.
  - intros [] s'. unfold_se. destruct (phase s) eqn:Hp; try done;
      destruct (Z.eqb_spec code 0) as [->|]; try done; intros [= <-]; (split; [done|]); cbn in *.
    + destruct Hx as (f1 & f2 & -> & H1 & H2). by constructor.
    + destruct Hx as (before & request & -> & H1 & H2). rewrite <-app_assoc. by econstructor.
Qed.

Lemma validate_request_id_Ok expected actual : validate_request_id expected actual = Ok tt ↔ actual = expected.
Proof. unfold validate_request_id. case_bool_decide; cbn; naive_solver. Qed.
Lemma running_report events capabilities request frame :
  running events capabilities request → reported capabilities request frame →
  running (events ++ [EvWorker frame]) capabilities request.
Proof.
  intros [events' c r f4 reports Ho Hs Hall] Hr. change [EvWorker frame] with (EvWorker <$> [frame]).
  rewrite <-app_assoc, <-app_comm_cons, <-fmap_app. constructor; [done|done|].
  apply Forall_app. split; [done|]. by apply Forall_singleton.
Qed.

Lemma step_handshake events s frame response o a s' :
  consistent events s → phase s = PHandshakeResponse →
  worker_body frame = Some (WorkerHandshakeResponse response) → outcome response = Some o →
  on_handshake_outcome semver_parses o s = (Ok a, s') → consistent (events ++ [EvWorker frame]) s'.
Proof.
  intros [He Hx] Hp Hb Ho. rewrite Hp in Hx. destruct Hx as (f1 & -> & H1). unfold on_handshake_outcome. unfold_se.
  destruct o as [success|error].
  - destruct (validate_handshake_success _ _ _) as [capabilities|] eqn:Hv; [|done]. intros [= <- <-].
    rewrite He in Hv. split; [done|]. exists f1, frame. split; [done|]. split; [done|]. by eexists _, _.
  - destruct (HandshakeErrorCode_try_from (he_code error)) as [code|] eqn:Hc; [|done].
    destruct (validate_safe_diagnostic _ _) as [[]|] eqn:Hd.
    + assert (code ≠ HecUnspecified → s' = (set_phase (PRejected {| rejection_error := error |}) s).2 →
        consistent ([EvParent f1] ++ [EvWorker frame]) s') as Hdone.
      { intros Hcode ->. split; [done|]. exists f1, frame. split; [done|]. split; [done|].
        by exists response, code. }
      destruct code; [done|..]; intros [= <- <-]; by apply Hdone.
    + by destruct code.
Qed.
Lemma step_started events s frame request started a s' :
  consistent events s → phase s = PStarted request → worker_body frame = Some (WorkerStarted started) →
  on_worker_frame_inner sha256 semver_parses frame s = (Ok a, s') → consistent (events ++ [EvWorker frame]) s'.
Proof.
  intros [He Hx] Hp Hb. unfold on_worker_frame_inner. unfold_se. rewrite Hb, Hp. cbn. rewrite Hp in Hx.
  destruct (validate_request_id _ _) as [[]|] eqn:Hid; [|done]. apply validate_request_id_Ok in Hid.
  case_bool_decide as Hf; [|done]. cbn. unfold take_started_observation.
  destruct (Z.eqb_spec (len (sd_model_fingerprint started)) 32) as [Hl|]; [|done]. cbn. intros [= <- <-].
  split; [done|]. cbn. apply (running_intro events _ request frame []); [done| |constructor].
  exists started. split_and!; [done..|]. by rewrite <-Hf.
Qed.
Lemma step_running events s frame request a s' :
  consistent events s → phase s = PRunning request →
  on_worker_frame_inner sha256 semver_parses frame s = (Ok a, s') → consistent (events ++ [EvWorker frame]) s'.
Proof.
  intros [He Hx] Hp. unfold on_worker_frame_inner. unfold_se. destruct (worker_body frame) as [body|] eqn:Hb; [|done].
  cbn. rewrite Hp. rewrite Hp in Hx. cbn in Hx. destruct body as [| |progress|incumbent|finished|error]; try done;
    (destruct (validate_request_id _ _) as [[]|] eqn:Hid; [|done]; apply validate_request_id_Ok in Hid).
  - destruct (validate_progress _ _) as [[]|] eqn:Hv; [|done]. intros [= <- <-]. split; [done|].
    rewrite Hp. apply running_report; [done|]. left. by exists progress.
  - destruct (validate_incumbent _ _ _) as [[]|] eqn:Hv; [|done]. intros [= <- <-]. split; [done|].
    rewrite Hp. apply running_report; [done|]. right. by exists incumbent.
  - destruct (validate_finished _ _ _ _ _) as [[]|] eqn:Hv; [|done]. intros [= <- <-]. split; [done|].
    exists events, request. split_and!; [done..|]. left. by exists finished.
  - unfold on_worker_error. unfold_se. destruct (WorkerErrorCode_try_from (we_code error)) as [code|] eqn:Hc; [|done].
    destruct (validate_safe_diagnostic _ _) as [[]|] eqn:Hd; [|by destruct code].
    assert (code ≠ WecUnspecified → s' = (set_phase (PTerminal {| terminal_frame := frame |}) s).2 →
      consistent (events ++ [EvWorker frame]) s') as Hdone.
    { intros Hcode ->. split; [done|]. exists events, request. split_and!; [done..|]. right. by exists error, code. }
    destruct code; [done|..]; intros [= <- <-]; by apply Hdone.
Qed.
Lemma worker_inner_expectations frame s :
  expectations (on_worker_frame_inner sha256 semver_parses frame s).2 = expectations s.
Proof.
  unfold on_worker_frame_inner, on_handshake_outcome, on_worker_error. unfold_se.
  destruct (worker_body frame) as [body|]; [|done]. cbn.
  destruct (phase s), body; try done; repeat (case_match; simplify_eq/=); done.
Qed.
Lemma step_worker frame events s :
  consistent events s → consistent (events ++ [EvWorker frame]) (on_worker_frame sha256 semver_parses frame s).2.
Proof.
  intros Hcon. pose proof Hcon as [He _]. apply absorbed; [by rewrite worker_inner_expectations|].
  intros a s' Hrun. destruct (phase s) as [| | | | | |request|request| | | |] eqn:Hp.
  all: try (by eapply step_running).
  all: revert Hrun; unfold on_worker_frame_inner; unfold_se;
    destruct (worker_body frame) as [body|] eqn:Hb; [|done]; cbn; rewrite Hp; try done.
  - destruct body as [response| | | | |]; try done. destruct (outcome response) as [o|] eqn:Ho; [|done]. cbn.
    by eapply step_handshake.
  - intros Hrun. destruct body as [|started| | | |]; try done.
    eapply step_started; [done|done|done|]. unfold on_worker_frame_inner. unfold_se. rewrite Hb. cbn. by rewrite Hp.
Qed.

Lemma run_consistent events : consistent events (run_session events).
Proof.
  induction events as [|ev events IH] using rev_ind; [by split|].
  unfold run_session. rewrite foldl_snoc. fold (run_session events).
  destruct ev; [by apply step_parent|by apply step_tighten|by apply step_worker|by apply step_eof|by apply step_exit].
Qed.

(** ** Every trace of the protocol runs through *)
Definition at_phase (capabilities : gset Z) (p : PhaseState) : ParentProtocol :=
  {| expectations := ex; negotiated_capabilities := capabilities; phase := p |}.
Lemma do_handshake f1 :
  handshake_sent f1 → apply_event (ParentProtocol_new ex) (EvParent f1) = at_phase ∅ PHandshakeResponse.
Proof.
  intros (handshake & Hb & Hv). cbn. unfold on_parent_frame, absorb_failure, on_parent_frame_inner. unfold_se.
  by rewrite Hb; cbn; rewrite Hv.
Qed.
Lemma do_accept f2 capabilities :
  handshake_accepted f2 capabilities →
  apply_event (at_phase ∅ PHandshakeResponse) (EvWorker f2) = at_phase capabilities PSolveRequest.
Proof.
  intros (response & success & Hb & Ho & Hv). cbn.
  unfold on_worker_frame, absorb_failure, on_worker_frame_inner, on_handshake_outcome. unfold_se.
  by rewrite Hb; cbn; rewrite Ho; cbn; rewrite Hv.
Qed.
Lemma do_refuse f2 evidence :
  handshake_refused f2 evidence →
  apply_event (at_phase ∅ PHandshakeResponse) (EvWorker f2) = at_phase ∅ (PRejected evidence).
Proof.
  intros (response & code & Hb & Ho & Hc & Hne & Hd). cbn.
  unfold on_worker_frame, absorb_failure, on_worker_frame_inner, on_handshake_outcome. unfold_se.
  rewrite Hb; cbn; rewrite Ho; cbn; rewrite Hc. destruct evidence. destruct code; [done|..]; cbn in *; by rewrite Hd.
Qed.
Lemma do_solve f3 capabilities request :
  solve_sent capabilities f3 request →
  apply_event (at_phase capabilities PSolveRequest) (EvParent f3) = at_phase capabilities (PStarted request).
Proof.
  intros (solve & Hb & Hv). cbn. unfold on_parent_frame, absorb_failure, on_parent_frame_inner. unfold_se.
  by rewrite Hb; cbn; rewrite Hv.
Qed.
Lemma do_tighten capabilities request caps current :
  tightening request caps current →
  foldl apply_event (at_phase capabilities (PStarted request)) (EvTighten <$> caps)
  = at_phase capabilities (PStarted current).
Proof.
  induction 1 as [|caps current millis _ IH [Hlo Hhi]]; [done|]. rewrite fmap_app, foldl_app, IH. cbn.
  unfold tighten_started_wall_time_millis, absorb_failure. unfold_se.
  by rewrite (proj2 (Z.ltb_lt _ _) Hlo), (proj2 (Z.leb_le _ _) Hhi).
Qed.
Lemma do_start f4 capabilities request :
  start_confirmed request f4 →
  apply_event (at_phase capabilities (PStarted request)) (EvWorker f4) = at_phase capabilities (PRunning request).
Proof.
  intros (started & Hb & Hid & Hf & Hl). cbn. unfold on_worker_frame, absorb_failure, on_worker_frame_inner. unfold_se.
  rewrite Hb; cbn. rewrite (proj2 (validate_request_id_Ok _ _) Hid), bool_decide_true by done. cbn.
  unfold take_started_observation. by rewrite Hf, Hl.
Qed.
Lemma do_report f capabilities request :
  reported capabilities request f →
  apply_event (at_phase capabilities (PRunning request)) (EvWorker f) = at_phase capabilities (PRunning request).
Proof.
  intros [(x & Hb & Hid & Hv)|(x & Hb & Hid & Hv)]; cbn;
    unfold on_worker_frame, absorb_failure, on_worker_frame_inner; unfold_se; rewrite Hb; cbn;
    by rewrite (proj2 (validate_request_id_Ok _ _) Hid), Hv.
Qed.
Lemma do_reports fs capabilities request :
  Forall (reported capabilities request) fs →
  foldl apply_event (at_phase capabilities (PRunning request)) (EvWorker <$> fs) = at_phase capabilities (PRunning request).
Proof. induction 1 as [|f fs Hf _ IH]; [done|]. cbn [fmap list_fmap foldl]. by rewrite do_report. Qed.
Lemma do_terminal f capabilities request :
  terminated capabilities request f →
  apply_event (at_phase capabilities (PRunning request)) (EvWorker f)
  = at_phase capabilities (PTerminal {| terminal_frame := f |}).
Proof.
  intros [(x & Hb & Hid & Hv)|(x & code & Hb & Hid & Hc & Hne & Hd)]; cbn;
    unfold on_worker_frame, absorb_failure, on_worker_frame_inner, on_worker_error; unfold_se; rewrite Hb; cbn;
    rewrite (proj2 (validate_request_id_Ok _ _) Hid); cbn; [by rewrite Hv|].
  rewrite Hc. by destruct code; [done|..]; rewrite Hd.
Qed.

Lemma run_opened events capabilities request :
  opened events capabilities request → run_session events = at_phase capabilities (PStarted request).
Proof.
  intros [f1 f2 f3 c r caps current H1 H2 H3 H4]. unfold run_session. rewrite foldl_app.
  cbn [foldl]. rewrite (do_handshake f1 H1), (do_accept f2 c H2), (do_solve f3 c r H3). by apply do_tighten.
Qed.
Lemma run_running events capabilities request :
  running events capabilities request → run_session events = at_phase capabilities (PRunning request).
Proof.
  intros [ev c r f4 reports Ho Hs Hall]. unfold run_session. rewrite foldl_app. fold (run_session ev).
  rewrite (run_opened ev c r Ho). cbn [foldl]. rewrite (do_start f4 c r Hs). by apply do_reports.
Qed.
Lemma run_solve_trace events frame :
  solve_trace events frame → phase (run_session events) = PComplete {| terminal_frame := frame |}.
Proof.
  intros [ev c r f Hr Ht]. unfold run_session. rewrite foldl_app. fold (run_session ev).
  rewrite (run_running ev c r Hr). cbn [foldl]. by rewrite (do_terminal f c r Ht).
Qed.
Lemma run_rejection_trace events evidence :
  rejection_trace events evidence → phase (run_session events) = PRejectedComplete evidence.
Proof.
  intros [f1 f2 e H1 H2]. unfold run_session. cbn [foldl].
  by rewrite (do_handshake f1 H1), (do_refuse f2 e H2).
Qed.
End traces.

(** C4. A session hands out evidence exactly for the traces of the protocol. However frames, EOF and
    exit are interleaved, repeated or lost, the completed evidence is available iff the whole
    session was: a handshake request matching the expectations, the worker's acceptance of exactly
    the expected identity, versions, manifest and capabilities, one valid solve request, only
    decreasing wall-time caps, the correlated start, correlated valid reports, one valid terminal
    frame, then EOF, then exit code zero; and the evidence is that terminal frame. The evidence of a
    refused handshake is characterized likewise. *)
Theorem session_evidence_exact sha256 semver_parses ex events :
  (∀ evidence,
     into_completion (run_session sha256 semver_parses ex events) = Ok (CompletedSolve evidence) ↔
     solve_trace sha256 semver_parses ex events (terminal_frame evidence)) ∧
  (∀ evidence,
     into_completion (run_session sha256 semver_parses ex events) = Ok (CompletedRejection evidence) ↔
     rejection_trace semver_parses ex events evidence).
Proof.
  pose proof (run_consistent sha256 semver_parses ex events) as [_ Hx]. unfold into_completion.
  split; intros evidence; split.
  - destruct (phase _); try done. by intros [= ->].
  - intros ->%run_solve_trace. by destruct evidence.
  - destruct (phase _); try done. by intros [= ->].
  - intros Ht. by rewrite (run_rejection_trace sha256 _ _ _ _ Ht).
Qed.

(** ** Projections *)
Lemma sorted_contains_spec l x : sorted_contains l x = true ↔ x ∈ l.
Proof.
  unfold sorted_contains. rewrite bool_decide_eq_true.
  destruct (binary_search_by_key (λ y, y) x l) as [i|] eqn:Hb; split.
  - intros _. apply binary_search_Some in Hb as (y & Hy & <-). by eapply list_elem_of_lookup_2.
  - by eexists.
  - intros [? ?]. done.
  - intros Hx. by destruct (proj1 (binary_search_None (λ y : Z, y) x l) Hb x Hx).
Qed.
Lemma find_duplicate_None l :
  find_duplicate (ord_sort l) = None ↔ strictly_sorted (ord_sort l) = true.
Proof.
  assert (StronglySorted le (ord_sort l)) as Hs by apply sort_by_key_sorted.
  unfold find_duplicate, strictly_sorted. rewrite fmap_None. induction Hs as [|x xs Hs IH Hall]; [done|].
  destruct xs as [|y ys]; [done|]. change (windows2 (x :: y :: ys)) with ((x, y) :: windows2 (y :: ys)).
  change (strictly_sorted_by (λ z, z) (x :: y :: ys)) with (ltb x y && strictly_sorted_by (λ z, z) (y :: ys)).
  cbn [List.find]. apply Forall_cons_1 in Hall as [Hxy _]. rewrite andb_true_iff, <-IH, ltb_lt.
  destruct (Z.eqb_spec x y) as [->|Hne].
  - split; [done|]. intros [Hlt _]. by apply lt_irrefl in Hlt.
  - apply le_lt_eq in Hxy as [Hlt|]; [|done]. naive_solver.
Qed.
Lemma find_None {A} (f : A → bool) l : List.find f l = None ↔ ∀ x, x ∈ l → f x = false.
Proof.
  induction l as [|x l IH]; cbn; [split; [intros _ x []%not_elem_of_nil|done]|].
  setoid_rewrite elem_of_cons. destruct (f x) eqn:Hf; [|naive_solver].
  split; [done|]. intros Hall. by rewrite (Hall x) in Hf by auto.
Qed.
(** A candidate passes exactly when it names each requested projection once and nothing else. *)
Lemma validate_candidate_Ok candidate requested :
  strictly_sorted requested = true →
  validate_candidate candidate requested = Ok tt ↔ ord_sort (pv_projection_id <$> values candidate) = requested.
Proof.
  intros Hr. unfold validate_candidate. set (observed := ord_sort _).
  destruct (find_duplicate observed) eqn:Hd.
  { split; [done|]. intros Heq. subst observed. rewrite <-Heq in Hr.
    apply find_duplicate_None in Hr. congruence. }
  apply find_duplicate_None in Hd.
  destruct (List.find _ observed) eqn:Hu.
  { split; [done|]. intros Heq. exfalso. apply find_some in Hu as [Hin Hbad]. apply list_elem_of_In in Hin.
    rewrite Heq in Hin. apply sorted_contains_spec in Hin. by rewrite Hin in Hbad. }
  destruct (List.find _ requested) eqn:Hm.
  { split; [done|]. intros Heq. exfalso. apply find_some in Hm as [Hin Hbad]. apply list_elem_of_In in Hin.
    rewrite <-Heq in Hin. apply sorted_contains_spec in Hin. by rewrite Hin in Hbad. }
  rewrite find_None in Hu. rewrite find_None in Hm. split; [|done]. intros _.
  apply strictly_sorted_ext; [done|done|]. intros x. split; intros Hx.
  - specialize (Hu x Hx). apply negb_false_iff in Hu. by apply sorted_contains_spec.
  - specialize (Hm x Hx). apply negb_false_iff in Hm. by apply sorted_contains_spec.
Qed.
Lemma projection_ids_Ok projections ids :
  projection_ids projections = Ok ids → ids = pq_projection_id <$> projections.
Proof.
  unfold projection_ids. change (ids = pq_projection_id <$> projections) with (ids = [] ++ (pq_projection_id <$> projections)).
  generalize (@nil Z). induction projections as [|p projections IH]; intros acc; cbn.
  - rewrite app_nil_r. by intros [= <-].
  - unfold push_projection. destruct (_ <? 0); [done|]. cbn. intros ->%IH. by rewrite <-app_assoc.
Qed.
Lemma validate_solve_request_Ok sha256 solve capabilities request :
  validate_solve_request sha256 solve capabilities = Ok request →
  request_id request = sq_request_id solve ∧ model_fingerprint request = sha256 (sq_cp_model_proto solve) ∧
  normalize_applied_parameters solve = Ok (applied_parameters request) ∧
  requested_projections request = ord_sort (pq_projection_id <$> sq_projections solve) ∧
  strictly_sorted (requested_projections request) = true.
Proof.
  unfold validate_solve_request. rewrite checked_in_policy_valid.
  rewrite result_bind_Ok. intros ([] & _ & H). cbn [mbind Result_bind] in H.
  destruct (bool_decide _ || _); [done|]. destruct (_ <? _); [done|].
  apply result_bind_Ok in H as (normalized & Hn & H). apply result_bind_Ok in H as (parameters & _ & H).
  do 2 (apply result_bind_Ok in H as ([] & _ & H)).
  case_bool_decide; [|done]. cbn [negb] in H. destruct (_ <? _); [done|].
  apply result_bind_Ok in H as ([] & _ & H). apply result_bind_Ok in H as (ids & Hids & H).
  apply projection_ids_Ok in Hids as ->. destruct (find_duplicate _) eqn:Hd; [done|].
  apply find_duplicate_None in Hd. injection H as <-.
  split_and!; [reflexivity|reflexivity|exact Hn|reflexivity|exact Hd].
Qed.

(** ** Correlated evidence *)
Lemma validate_finished_Ok finished fingerprint requested expected capabilities :
  validate_finished finished fingerprint requested expected capabilities = Ok tt →
  fn_model_fingerprint finished = fingerprint ∧ fn_applied_parameters_sha256 finished = expected ∧
  (∃ status termination,
     WorkerSolveStatus_try_from (fn_status finished) = Some status ∧
     TerminationReason_try_from (fn_termination_reason finished) = Some termination ∧
     finished_outcome_is_coherent (fn_raw_cp_sat_status finished) status termination
       (bool_decide (is_Some (fn_final_candidate finished))) = true) ∧
  (∀ candidate, fn_final_candidate finished = Some candidate → validate_candidate candidate requested = Ok tt) ∧
  (fn_sufficient_assumptions finished ≠ [] → fn_raw_cp_sat_status finished = 3).
Proof.
  unfold validate_finished. destruct ((0 <=? _) && _); [|done]. cbn [negb].
  destruct (WorkerSolveStatus_try_from (fn_status finished)) as [status|] eqn:Hs; [|done].
  destruct (TerminationReason_try_from (fn_termination_reason finished)) as [termination|] eqn:Ht;
    [|by destruct status].
  intros H. assert (status ≠ WsUnspecified ∧ termination ≠ TrUnspecified) as [Hs0 Ht0]
    by (split; intros ->; [done|by destruct status]).
  destruct (finished_outcome_is_coherent _ _ _ _) eqn:Hc; [|by destruct status, termination].
  case_bool_decide as Hf; [|by destruct status, termination].
  case_bool_decide as Ha; [|by destruct status, termination].
  assert (Hrest : (_ ← validate_finished_timing finished capabilities;
    _ ← match fn_final_candidate finished with
        | None => Ok tt
        | Some candidate =>
            _ ← require_negotiated_capability capabilities CapSolutionProjection "finished.final_candidate";
            validate_candidate candidate requested
        end;
    if bool_decide (fn_sufficient_assumptions finished = []) then Ok tt
    else _ ← require_negotiated_capability capabilities CapSufficientAssumptions "finished.sufficient_assumptions";
      if negb (fn_raw_cp_sat_status finished =? 3) || negb (bool_decide (status = WsInfeasible))
         || negb (bool_decide (termination = TrInfeasible))
         || bool_decide (is_Some (fn_final_candidate finished))
      then state_err (InvalidWorkerField "finished.sufficient_assumptions")
      else Ok tt) = Ok tt) by (by destruct status, termination).
  apply result_bind_Ok in Hrest as ([] & _ & Hrest). apply result_bind_Ok in Hrest as ([] & Hcand & Hassume).
  split_and!; [done|done|by eauto| |].
  - intros candidate Heq. rewrite Heq in Hcand. by apply result_bind_Ok in Hcand as ([] & _ & ?).
  - intros Hne. rewrite bool_decide_false in Hassume by done. apply result_bind_Ok in Hassume as ([] & _ & Hassume).
    by destruct (Z.eqb_spec (fn_raw_cp_sat_status finished) 3).
Qed.

Definition with_wall_time (p : NormalizedAppliedParameters) (millis : Z) : NormalizedAppliedParameters :=
  {| wall_time_millis := millis; worker_threads := worker_threads p; random_seed := random_seed p;
     stop_after_first_feasible := stop_after_first_feasible p;
     emit_intermediate_solutions := emit_intermediate_solutions p;
     log_search_progress := log_search_progress p; deterministic_test_profile := deterministic_test_profile p |}.
Lemma tightening_spec request caps current :
  tightening request caps current →
  request_id current = request_id request ∧ model_fingerprint current = model_fingerprint request ∧
  requested_projections current = requested_projections request ∧
  ∃ millis, millis ≤ wall_time_millis (applied_parameters request) ∧
    applied_parameters current = with_wall_time (applied_parameters request) millis.
Proof.
  induction 1 as [|caps current millis _ (H1 & H2 & H3 & m & Hm & H4) [Hlo Hhi]].
  - split_and!; [done..|]. exists (wall_time_millis (applied_parameters request)). split; [lia|].
    by destruct (applied_parameters request).
  - split_and!; [done..|]. exists millis. cbn. rewrite H4 in Hhi |- *. cbn in *. split; [lia|done].
Qed.

(** C33. What a completed session says is about the request it answers. The finished frame that a
    session hands out repeats the identifier of a solve request of that session and the fingerprint
    of its model, and the hash of the parameters that were applied to it, with a wall time no longer
    than requested; its status, termination and candidate are coherent; its candidate gives exactly
    one value to every requested projection and to nothing else; it names assumptions only for an
    infeasible outcome. *)
Theorem finished_evidence_correlated sha256 semver_parses ex events evidence finished :
  into_completion (run_session sha256 semver_parses ex events) = Ok (CompletedSolve evidence) →
  worker_body (terminal_frame evidence) = Some (WorkerFinished finished) →
  ∃ frame solve requested millis,
    EvParent frame ∈ events ∧ parent_body frame = Some (ParentSolveRequest solve) ∧
    fn_request_id finished = sq_request_id solve ∧
    fn_model_fingerprint finished = sha256 (sq_cp_model_proto solve) ∧
    normalize_applied_parameters solve = Ok requested ∧ millis ≤ wall_time_millis requested ∧
    fn_applied_parameters_sha256 finished
    = sha256 (applied_parameters_preimage (with_wall_time requested millis)) ∧
    (∃ status termination,
       WorkerSolveStatus_try_from (fn_status finished) = Some status ∧
       TerminationReason_try_from (fn_termination_reason finished) = Some termination ∧
       finished_outcome_is_coherent (fn_raw_cp_sat_status finished) status termination
         (bool_decide (is_Some (fn_final_candidate finished))) = true) ∧
    (∀ candidate, fn_final_candidate finished = Some candidate →
       pv_projection_id <$> values candidate ≡ₚ pq_projection_id <$> sq_projections solve ∧
       NoDup (pv_projection_id <$> values candidate)) ∧
    (fn_sufficient_assumptions finished ≠ [] → fn_raw_cp_sat_status finished = 3).
Proof.
  unfold into_completion. pose proof (run_consistent sha256 semver_parses ex events) as [_ Hx].
  destruct (phase _) as [| | | | | | | | | |e|]; try done. intros [= ->] Hb. cbn in Hx.
  destruct Hx as [ev0 c r frame [ev c1 r1 f4 reports Hopen Hstart _] Hterm].
  destruct Hopen as [f1 f2 f3 c2 req caps current _ _ (solve & Hbody & Hsolve) Htight].
  apply validate_solve_request_Ok in Hsolve as (Hid & Hfp & Hnorm & Hproj & Hsorted).
  apply tightening_spec in Htight as (Tid & Tfp & Tproj & millis & Hmillis & Tap).
  destruct Hterm as [(fin & Hw & Hfid & Hfin)|(err & code & Hw & _)]; rewrite Hw in Hb; [|done].
  injection Hb as ->. apply validate_finished_Ok in Hfin as (F1 & F2 & F3 & F4 & F5).
  exists f3, solve, (applied_parameters req), millis.
  split; [rewrite !elem_of_app; left; left; left; by do 2 right; left|]. split; [exact Hbody|].
  split; [rewrite Hfid, Tid; exact Hid|]. split; [rewrite F1, Tfp; exact Hfp|]. split; [exact Hnorm|].
  split; [exact Hmillis|]. split; [rewrite F2, Tap; reflexivity|]. split; [exact F3|]. split; [|exact F5].
  intros candidate Hc%F4. rewrite Tproj in Hc. apply validate_candidate_Ok in Hc; [|done].
    rewrite Hproj in Hc, Hsorted. assert (ord_sort (pv_projection_id <$> values candidate)
      ≡ₚ ord_sort (pq_projection_id <$> sq_projections solve)) as Hperm by (by rewrite Hc).
    unfold ord_sort in Hperm. rewrite !sort_by_key_perm in Hperm. split; [done|].
    rewrite Hperm, <-(sort_by_key_perm (λ x, x)). by apply strictly_sorted_NoDup.
Qed.

(** ** The hashed parameters *)
Lemma from_be_to_be n value acc :
  foldl (λ acc byte, acc * 256 + byte) acc (to_be_bytes n value)
  = acc * 2 ^ (8 * Z.of_nat n) + value mod 2 ^ (8 * Z.of_nat n).
Proof.
  revert acc. induction n as [|n IH]; intros acc; cbn [to_be_bytes foldl].
  - change (2 ^ (8 * Z.of_nat 0)) with 1. rewrite Z.mod_1_r. lia.
  - rewrite IH. replace (8 * Z.of_nat (S n)) with (8 * Z.of_nat n + 8) by lia.
    assert (0 < 2 ^ (8 * Z.of_nat n)) by (apply Z.pow_pos_nonneg; lia).
    rewrite Z.pow_add_r, (Z.rem_mul_r value) by lia. change (2 ^ 8) with 256. ring.
Qed.
Lemma to_be_bytes_inj n v w : to_be_bytes n v = to_be_bytes n w → v mod 2 ^ (8 * Z.of_nat n) = w mod 2 ^ (8 * Z.of_nat n).
Proof. intros Heq. pose proof (from_be_to_be n v 0). pose proof (from_be_to_be n w 0). rewrite Heq in *. lia. Qed.
Lemma to_be_bytes_length n v : length (to_be_bytes n v) = n.
Proof. induction n; cbn; congruence. Qed.

(** The values the Rust types admit. *)
Record parameters_typed (p : NormalizedAppliedParameters) : Prop := {
  pt_wall : 0 ≤ wall_time_millis p < 2 ^ 64;
  pt_threads : 0 ≤ worker_threads p < 2 ^ 32;
  pt_seed : - 2 ^ 31 ≤ random_seed p < 2 ^ 31
}.
Lemma signed_mod_inj v w : - 2 ^ 31 ≤ v < 2 ^ 31 → - 2 ^ 31 ≤ w < 2 ^ 31 → v mod 2 ^ 32 = w mod 2 ^ 32 → v = w.
Proof.
  intros Hv Hw Heq. pose proof (Z.div_mod v (2 ^ 32)). pose proof (Z.div_mod w (2 ^ 32)).
  assert (-1 ≤ v / 2 ^ 32 ≤ 0) by (split; [apply Z.div_le_lower_bound|apply Z.lt_succ_r, Z.div_lt_upper_bound]; lia).
  assert (-1 ≤ w / 2 ^ 32 ≤ 0) by (split; [apply Z.div_le_lower_bound|apply Z.lt_succ_r, Z.div_lt_upper_bound]; lia).
  change (2 ^ 32) with 4294967296 in *. change (2 ^ 31) with 2147483648 in *.
  pose proof (Z.mod_pos_bound v 4294967296). pose proof (Z.mod_pos_bound w 4294967296). lia.
Qed.

(** The hashed preimage of the applied parameters is 56 bytes and unambiguous: two typed
    parameter sets with the same preimage are equal, so a matching hash means matching parameters up
    to a collision of the hash function. *)
Theorem applied_parameters_preimage_injective p q :
  parameters_typed p → parameters_typed q →
  length (applied_parameters_preimage p) = 56%nat ∧
  (applied_parameters_preimage p = applied_parameters_preimage q → p = q).
Proof.
  intros [Pw Pt Ps] [Qw Qt Qs]. split.
  { unfold applied_parameters_preimage. rewrite !length_app, !to_be_bytes_length. reflexivity. }
  unfold applied_parameters_preimage. intros Heq.
  apply app_inj_1 in Heq as [_ Heq]; [|done]. apply app_inj_1 in Heq as [Hw Heq]; [|by rewrite !to_be_bytes_length].
  apply app_inj_1 in Heq as [Ht Heq]; [|by rewrite !to_be_bytes_length].
  apply app_inj_1 in Heq as [Hs Heq]; [|by rewrite !to_be_bytes_length].
  apply to_be_bytes_inj in Hw, Ht, Hs. change (8 * Z.of_nat 8) with 64 in Hw.
  change (8 * Z.of_nat 4) with 32 in Ht, Hs. rewrite !Z.mod_small in Hw, Ht by lia.
  apply signed_mod_inj in Hs; [|lia..]. injection Heq as H1 H2 H3 H4.
  assert (∀ a b : bool, u8_from a = u8_from b → a = b) as Hb by (intros [] []; done).
  apply Hb in H1, H2, H3, H4. destruct p, q; cbn in *. congruence.
Qed.
