(* ===== verification/Stderr.v ===== *)
(** * Bounded, sanitized worker diagnostics

    Models [crates/eutheto-protocol/src/stderr.rs]: the text retained of a worker's standard error, under
    a byte ceiling, without control characters, cut at a character boundary when it overflows.  The
    retained [String] is its bytes. *)
From stdpp Require Import base tactics list gmap strings.
From Stdlib Require Import ZArith Lia.
From S2P Require Import Prelude Ordering Protocol Session.
Open Scope Z_scope.

Definition STDERR_TRUNCATION_MARKER : list Z := as_bytes "[stderr truncated]".
Record BoundedStderr := { retained : list Z; stderr_max : Z; truncated : bool }.
Definition BoundedStderr_new (max_bytes : Z) : PR BoundedStderr :=
  if max_bytes <? len STDERR_TRUNCATION_MARKER then state_err StderrLimit
  else Ok {| retained := []; stderr_max := max_bytes; truncated := false |}.

(** [while !is_char_boundary(boundary) { boundary -= 1; }]: zero is a boundary. *)
Fixpoint floor_boundary (bytes : list Z) (boundary : nat) : nat :=
  match boundary with
  | O => O
  | S below => if is_char_boundary bytes boundary then boundary else floor_boundary bytes below
  end.
Definition mark_truncated (self : BoundedStderr) : BoundedStderr :=
  let prefix_cap := stderr_max self - len STDERR_TRUNCATION_MARKER in
  let boundary := floor_boundary (retained self) (Z.to_nat (Z.min prefix_cap (len (retained self)))) in
  {| retained := take boundary (retained self) ++ STDERR_TRUNCATION_MARKER;
     stderr_max := stderr_max self; truncated := true |}.
Definition is_dropped (c : Z) : bool := is_unsafe_control c && negb ((c =? 10) || (c =? 9)).
(** Whether to go on, and the accumulator. *)
Definition push_character (c : Z) (self : BoundedStderr) : bool * BoundedStderr :=
  if is_dropped c then (true, self)
  else if stderr_max self <? u64_saturating_add (len (retained self)) (len_utf8 c)
  then (false, mark_truncated self)
  else (true, {| retained := retained self ++ encode_utf8 c; stderr_max := stderr_max self;
                 truncated := truncated self |}).
Definition REPLACEMENT : Z := 65533.
Fixpoint push_units (units : list (option Z)) (self : BoundedStderr) : BoundedStderr :=
  match units with
  | [] => self
  | u :: units =>
      let '(continue, self) := push_character (default REPLACEMENT u) self in
      if continue then push_units units self else self
  end.
Definition push (bytes : list Z) (self : BoundedStderr) : BoundedStderr :=
  if truncated self then self else push_units (utf8_chunks bytes) self.

(** ** What the retained diagnostics are *)
(** ** Encoding and decoding *)
Definition utf8 (cs : list Z) : list Z := concat (encode_utf8 <$> cs).
Lemma in_range_true lo hi b : in_range lo hi b = true ↔ lo ≤ b ≤ hi.
Proof. unfold in_range. rewrite andb_true_iff, !Z.leb_le. done. Qed.
Lemma in_range_false lo hi b : in_range lo hi b = false ↔ b < lo ∨ hi < b.
Proof. unfold in_range. rewrite andb_false_iff, !Z.leb_gt. lia. Qed.
Ltac ranges :=
  repeat match goal with
  | H : in_range _ _ _ = true |- _ => apply in_range_true in H
  | H : in_range _ _ _ = false |- _ => apply in_range_false in H
  | H : is_continuation _ = true |- _ => apply in_range_true in H
  | H : (_ && _) = true |- _ => apply andb_true_iff in H as [? ?]
  | H : (_ || _) = true |- _ => apply orb_true_iff in H as [?|?]
  | H : (_ =? _) = true |- _ => apply Z.eqb_eq in H
  end.
Lemma utf8_char_width_cases b :
  (utf8_char_width b = 1 ∧ 0 ≤ b ≤ 127) ∨ (utf8_char_width b = 2 ∧ 194 ≤ b ≤ 223) ∨
  (utf8_char_width b = 3 ∧ 224 ≤ b ≤ 239) ∨ (utf8_char_width b = 4 ∧ 240 ≤ b ≤ 244) ∨
  (utf8_char_width b = 0).
Proof.
  unfold utf8_char_width.
  repeat (match goal with |- context [if in_range ?lo ?hi b then _ else _] => destruct (in_range lo hi b) eqn:? end);
    ranges; lia.
Qed.
(** Decoding a character of a slice of bytes: its scalar value is in range, and encoding it gives the
    bytes that were consumed. *)
Lemma next_unit_character lead rest c rest' :
  next_unit lead rest = Character c rest' → is_scalar c ∧ encode_utf8 c ++ rest' = lead :: rest.
Proof.
  unfold next_unit. destruct (utf8_char_width_cases lead) as [[-> Hl]|[[-> Hl]|[[-> Hl]|[[-> Hl]| ->]]]]; cbn [Z.eqb Pos.eqb].
  - intros [= <- <-]. split; [left; lia|]. unfold encode_utf8. by rewrite (proj2 (Z.ltb_lt lead 128)) by lia.
  - destruct rest as [|b1 r1]; [done|]. destruct (is_continuation b1) eqn:H1; [|done]. intros [= <- <-]. ranges.
    split; [left; lia|]. unfold encode_utf8.
    rewrite (proj2 (Z.ltb_ge _ 128)), (proj2 (Z.ltb_lt _ 2048)) by lia.
    cbn. do 2 f_equal; Z.to_euclidean_division_equations; lia.
  - destruct rest as [|b1 r1]; [done|]. destruct (second_byte_ok lead b1) eqn:H1; [|done].
    destruct r1 as [|b2 r2]; [done|]. destruct (is_continuation b2) eqn:H2; [|done]. intros [= <- <-].
    unfold second_byte_ok in H1. ranges; try lia; (split; [unfold is_scalar; lia|]); unfold encode_utf8;
    rewrite (proj2 (Z.ltb_ge _ 128)), (proj2 (Z.ltb_ge _ 2048)), (proj2 (Z.ltb_lt _ 65536)) by lia;
    cbn; repeat f_equal; Z.to_euclidean_division_equations; lia.
  - destruct rest as [|b1 r1]; [done|]. destruct (second_byte_ok lead b1) eqn:H1; [|done].
    destruct r1 as [|b2 r2]; [done|]. destruct (is_continuation b2) eqn:H2; [|done].
    destruct r2 as [|b3 r3]; [done|]. destruct (is_continuation b3) eqn:H3; [|done]. intros [= <- <-].
    unfold second_byte_ok in H1. ranges; try lia; (split; [unfold is_scalar; lia|]); unfold encode_utf8;
    rewrite (proj2 (Z.ltb_ge _ 128)), (proj2 (Z.ltb_ge _ 2048)), (proj2 (Z.ltb_ge _ 65536)) by lia;
    cbn; repeat f_equal; Z.to_euclidean_division_equations; lia.
  - by destruct rest.
Qed.
Lemma width_of b w :
  (w = 1 ∧ 0 ≤ b ≤ 127) ∨ (w = 2 ∧ 194 ≤ b ≤ 223) ∨ (w = 3 ∧ 224 ≤ b ≤ 239) ∨ (w = 4 ∧ 240 ≤ b ≤ 244) →
  utf8_char_width b = w.
Proof.
  intros Hw. unfold utf8_char_width.
  repeat (match goal with |- context [if in_range ?lo ?hi b then _ else _] => destruct (in_range lo hi b) eqn:? end);
    ranges; lia.
Qed.
Lemma continuation_of x : is_continuation (128 + x mod 64) = true.
Proof. apply in_range_true. pose proof (Z.mod_pos_bound x 64). lia. Qed.
Lemma second_byte_true lead b :
  lead = 224 ∧ 160 ≤ b ≤ 191 ∨ 225 ≤ lead ≤ 236 ∧ 128 ≤ b ≤ 191 ∨ lead = 237 ∧ 128 ≤ b ≤ 159 ∨
  238 ≤ lead ≤ 239 ∧ 128 ≤ b ≤ 191 ∨ lead = 240 ∧ 144 ≤ b ≤ 191 ∨ 241 ≤ lead ≤ 243 ∧ 128 ≤ b ≤ 191 ∨
  lead = 244 ∧ 128 ≤ b ≤ 143 → second_byte_ok lead b = true.
Proof.
  unfold second_byte_ok. rewrite !orb_true_iff, !andb_true_iff, !Z.eqb_eq, !in_range_true. lia.
Qed.
(** The encoding of a scalar value: a lead byte that continues nothing, then continuation bytes; and
    it decodes to the scalar. *)
Lemma encode_utf8_spec c :
  is_scalar c → ∃ lead tl, encode_utf8 c = lead :: tl ∧ is_continuation lead = false ∧
    Forall (λ b, is_continuation b = true) tl ∧ ∀ rest, next_unit lead (tl ++ rest) = Character c rest.
Proof.
  intros Hc. unfold encode_utf8, is_scalar in *.
  destruct (Z.ltb_spec c 128); [|destruct (Z.ltb_spec c 2048); [|destruct (Z.ltb_spec c 65536)]].
  - exists c, []. split; [done|]. split; [apply in_range_false; lia|]. split; [constructor|]. intros rest.
    unfold next_unit. by rewrite (width_of c 1) by lia.
  - eexists _, _. split; [done|]. split; [apply in_range_false; Z.to_euclidean_division_equations; lia|].
    split; [repeat constructor; apply continuation_of|]. intros rest. unfold next_unit.
    rewrite (width_of _ 2) by (Z.to_euclidean_division_equations; lia). cbn [Z.eqb Pos.eqb app].
    rewrite continuation_of. f_equal. Z.to_euclidean_division_equations; lia.
  - eexists _, _. split; [done|]. split; [apply in_range_false; Z.to_euclidean_division_equations; lia|].
    split; [repeat constructor; apply continuation_of|]. intros rest. unfold next_unit.
    rewrite (width_of _ 3) by (Z.to_euclidean_division_equations; lia). cbn [Z.eqb Pos.eqb app].
    rewrite second_byte_true by (Z.to_euclidean_division_equations; lia).
    rewrite continuation_of. f_equal. Z.to_euclidean_division_equations; lia.
  - eexists _, _. split; [done|]. split; [apply in_range_false; Z.to_euclidean_division_equations; lia|].
    split; [repeat constructor; apply continuation_of|]. intros rest. unfold next_unit.
    rewrite (width_of _ 4) by (Z.to_euclidean_division_equations; lia). cbn [Z.eqb Pos.eqb app].
    rewrite second_byte_true by (Z.to_euclidean_division_equations; lia).
    rewrite !continuation_of. f_equal. Z.to_euclidean_division_equations; lia.
Qed.
Lemma utf8_units_encoded cs fuel :
  Forall is_scalar cs → (length (utf8 cs) ≤ fuel)%nat → utf8_units fuel (utf8 cs) = Some <$> cs.
Proof.
  intros Hcs. revert fuel. induction Hcs as [|c cs Hc Hcs IH]; intros fuel Hf; [by destruct fuel|].
  destruct (encode_utf8_spec c Hc) as (lead & tl & He & _ & _ & Hn).
  change (utf8 (c :: cs)) with (encode_utf8 c ++ utf8 cs) in *. rewrite He in *. cbn [app] in *.
  destruct fuel as [|fuel]; [cbn in Hf; lia|]. cbn [utf8_units]. rewrite Hn. cbn. f_equal. apply IH.
  cbn in Hf. rewrite length_app in Hf. lia.
Qed.
Lemma utf8_chunks_encoded cs : Forall is_scalar cs → utf8_chunks (utf8 cs) = Some <$> cs.
Proof. intros Hcs. by apply utf8_units_encoded. Qed.
Lemma utf8_units_scalar fuel bytes : Forall (λ u, from_option is_scalar True u) (utf8_units fuel bytes).
Proof.
  revert bytes. induction fuel as [|fuel IH]; intros [|lead rest]; cbn; try constructor.
  destruct (next_unit lead rest) eqn:Hn; constructor; auto; [|done].
  by apply next_unit_character in Hn as [? _].
Qed.

(** ** Boundaries *)
Lemma boundary_split cs i :
  Forall is_scalar cs → (i ≤ length (utf8 cs))%nat → is_char_boundary (utf8 cs) i = true →
  ∃ k, take i (utf8 cs) = utf8 (take k cs).
Proof.
  intros Hcs. revert i. induction Hcs as [|c cs Hc Hcs IH]; intros i Hi Hb.
  { exists 0%nat. by destruct i. }
  destruct (decide (i = 0%nat)) as [->|Hi0]; [by exists 0%nat|].
  destruct (encode_utf8_spec c Hc) as (lead & tl & He & _ & Htl & _).
  change (utf8 (c :: cs)) with (encode_utf8 c ++ utf8 cs) in *.
  destruct (decide (i < length (encode_utf8 c))%nat) as [Hin|Hout].
  - exfalso. destruct i as [|i]; [done|]. unfold is_char_boundary in Hb.
    rewrite lookup_app_l in Hb by done. rewrite He in Hb, Hin. cbn in Hb, Hin.
    destruct (tl !! i) as [b|] eqn:Hl; [|apply lookup_ge_None in Hl; lia].
    rewrite Forall_lookup in Htl. by rewrite (Htl _ _ Hl) in Hb.
  - destruct (IH (i - length (encode_utf8 c))%nat) as (k & Hk).
    + rewrite length_app in Hi. lia.
    + destruct (i - length (encode_utf8 c))%nat as [|j] eqn:Hj; [done|]. destruct i as [|i]; [done|].
      unfold is_char_boundary in *. rewrite lookup_app_r, Hj in Hb by lia.
      destruct (utf8 cs !! S j); [done|]. apply bool_decide_eq_true. apply bool_decide_eq_true in Hb.
      rewrite length_app in Hb. lia.
    + exists (S k). rewrite take_app. rewrite take_ge by lia. cbn [take].
      change (utf8 (c :: take k cs)) with (encode_utf8 c ++ utf8 (take k cs)). by rewrite Hk.
Qed.
Lemma floor_boundary_spec bytes n :
  (floor_boundary bytes n ≤ n)%nat ∧ is_char_boundary bytes (floor_boundary bytes n) = true.
Proof.
  induction n as [|n [IH1 IH2]]; [done|]. cbn [floor_boundary].
  destruct (is_char_boundary bytes (S n)) eqn:Hb; [done|]. split; [lia|done].
Qed.

(** ** The accumulator *)
(** The characters a push contributes: ill-formed sequences are replaced, unsafe controls dropped. *)
Definition sanitized (bytes : list Z) : list Z :=
  filter (λ c, is_dropped c = false) (default REPLACEMENT <$> utf8_chunks bytes).
Lemma replacement_scalar : is_scalar REPLACEMENT.
Proof. unfold is_scalar, REPLACEMENT. lia. Qed.
Lemma sanitized_scalar bytes : Forall is_scalar (sanitized bytes).
Proof.
  unfold sanitized, utf8_chunks. pose proof (utf8_units_scalar (length bytes) bytes) as Hu.
  rewrite Forall_forall in Hu. apply Forall_forall. intros c [_ (u & -> & Hin)%list_elem_of_fmap]%list_elem_of_filter.
  specialize (Hu u Hin). destruct u; [done|]. apply replacement_scalar.
Qed.

(** What the accumulator holds after pushing [text]. *)
Inductive holds (max : Z) (text : list Z) : BoundedStderr → Prop :=
| holds_all :
    len (utf8 text) ≤ max → holds max text {| retained := utf8 text; stderr_max := max; truncated := false |}
| holds_cut k :
    len (utf8 (take k text)) + len STDERR_TRUNCATION_MARKER ≤ max → max < len (utf8 text) →
    holds max text {| retained := utf8 (take k text) ++ STDERR_TRUNCATION_MARKER; stderr_max := max;
                      truncated := true |}.
Lemma utf8_app a b : utf8 (a ++ b) = utf8 a ++ utf8 b.
Proof. unfold utf8. by rewrite fmap_app, concat_app. Qed.
Lemma utf8_prefix_len a b : len (utf8 a) ≤ len (utf8 (a ++ b)).
Proof. rewrite utf8_app. unfold len. rewrite length_app. lia. Qed.
Lemma cut_extends k (text more : list Z) : take (k `min` length text) (text ++ more) = take k text.
Proof. rewrite take_app_le by lia. by rewrite <-take_take, firstn_all. Qed.
Lemma holds_cut_more max text more s :
  truncated s = true → holds max text s → holds max (text ++ more) s.
Proof.
  intros Ht Hh. inversion Hh as [|k Hle Hlt]; subst; [done|].
  rewrite <-(cut_extends k text more). constructor; [by rewrite cut_extends|].
  pose proof (utf8_prefix_len text more). lia.
Qed.

Section accumulator.
Context (max : Z) (Hmax : len STDERR_TRUNCATION_MARKER ≤ max) (Hword : max < u64_max).
Lemma len_app {A} (a b : list A) : len (a ++ b) = len a + len b.
Proof. unfold len. rewrite length_app. lia. Qed.
Lemma overflow_test n c :
  0 ≤ n ≤ max → (max <? u64_saturating_add n (len_utf8 c)) = (max <? n + len_utf8 c).
Proof.
  intros Hn. unfold u64_saturating_add in *.
  assert (0 ≤ len_utf8 c) by (unfold len_utf8, len; lia).
  destruct (Z.ltb_spec max (n + len_utf8 c)); [apply Z.ltb_lt|apply Z.ltb_ge]; lia.
Qed.
(** The character that does not fit: the text is cut at a boundary that leaves room for the marker. *)
Lemma mark_truncated_holds text c :
  Forall is_scalar text → len (utf8 text) ≤ max → max < len (utf8 text) + len_utf8 c →
  holds max (text ++ [c]) (mark_truncated {| retained := utf8 text; stderr_max := max; truncated := false |}).
Proof.
  intros Hs Hle Hlt. unfold mark_truncated. cbn [retained stderr_max truncated].
  set (n := Z.to_nat (Z.min (max - len STDERR_TRUNCATION_MARKER) (len (utf8 text)))).
  destruct (floor_boundary_spec (utf8 text) n) as [Hf Hb].
  assert ((n ≤ length (utf8 text))%nat) by (unfold n, len; lia).
  assert (Z.of_nat n ≤ max - len STDERR_TRUNCATION_MARKER).
  { unfold n. rewrite Z2Nat.id; [|unfold len at 2]; lia. }
  destruct (boundary_split text _ Hs (Nat.le_trans _ _ _ Hf ltac:(done)) Hb) as (k & Hk). rewrite Hk.
  rewrite <-(cut_extends k text [c]). constructor.
  - rewrite cut_extends, <-Hk. unfold len. rewrite length_take. unfold len in *. lia.
  - rewrite utf8_app, len_app. cbn [utf8 fmap list_fmap concat]. unfold utf8; cbn. rewrite app_nil_r. done.
Qed.
Lemma push_units_holds units text s :
  Forall (λ u, from_option is_scalar True u) units → Forall is_scalar text →
  truncated s = false → holds max text s →
  holds max (text ++ filter (λ c, is_dropped c = false) (default REPLACEMENT <$> units)) (push_units units s).
Proof.
  intros Hu. revert text s. induction Hu as [|u units Hc Hu IH]; intros text s Hs Ht Hh; [by rewrite app_nil_r|].
  inversion Hh as [Hle|]; subst; [|done].
  assert (is_scalar (default REPLACEMENT u)) by (destruct u; [done|apply replacement_scalar]).
  cbn [push_units fmap list_fmap]. unfold push_character. cbn [retained stderr_max truncated].
  set (c := default REPLACEMENT u) in *.
  destruct (is_dropped c) eqn:Hd.
  { rewrite filter_cons_False by (by rewrite Hd). by apply IH. }
  rewrite filter_cons_True by done. rewrite overflow_test by (unfold len in *; lia).
  rewrite (cons_middle c), app_assoc. destruct (Z.ltb_spec max (len (utf8 text) + len_utf8 c)) as [Hlt|Hge].
  - apply holds_cut_more; [done|]. by apply mark_truncated_holds.
  - replace (utf8 text ++ encode_utf8 c) with (utf8 (text ++ [c]))
      by (rewrite utf8_app; unfold utf8 at 2; cbn; by rewrite app_nil_r).
    apply IH; [apply Forall_app; split; [done|by constructor]|done|]. constructor.
    rewrite utf8_app, len_app. unfold utf8 at 2; cbn. rewrite app_nil_r. done.
Qed.
Lemma push_holds bytes text s :
  Forall is_scalar text → holds max text s → holds max (text ++ sanitized bytes) (push bytes s).
Proof.
  intros Hs Hh. unfold push. destruct (truncated s) eqn:Ht; [by apply holds_cut_more|].
  apply push_units_holds; [apply utf8_units_scalar|done..].
Qed.
Lemma pushes_hold chunks text s :
  Forall is_scalar text → holds max text s →
  holds max (text ++ concat (sanitized <$> chunks)) (fold_left (λ s bytes, push bytes s) chunks s).
Proof.
  revert text s. induction chunks as [|bytes chunks IH]; intros text s Hs Hh; [by rewrite app_nil_r|].
  cbn [fold_left fmap list_fmap concat]. rewrite app_assoc. apply IH; [|by apply push_holds].
  apply Forall_app. auto using sanitized_scalar.
Qed.
End accumulator.

Definition clean_char (c : Z) : Prop := is_scalar c ∧ is_dropped c = false.
Lemma sanitized_text chunks : Forall clean_char (concat (sanitized <$> chunks)).
Proof.
  apply Forall_concat, Forall_fmap, Forall_true. intros bytes. cbn.
  pose proof (sanitized_scalar bytes) as Hs. rewrite Forall_forall in Hs. apply Forall_forall. intros c Hc.
  split; [by apply Hs|]. by apply list_elem_of_filter in Hc as [? _].
Qed.
Definition marker_text : list Z := chars "[stderr truncated]".
Lemma marker_utf8 : utf8 marker_text = STDERR_TRUNCATION_MARKER.
Proof. vm_compute. reflexivity. Qed.
Lemma marker_clean : Forall clean_char marker_text.
Proof.
  let text := eval vm_compute in marker_text in change marker_text with text.
  repeat constructor; lia.
Qed.
Lemma clean_text cs :
  Forall clean_char cs → Forall (λ c, is_dropped c = false) (omap id (utf8_chunks (utf8 cs))) ∧ valid_utf8 (utf8 cs) = true.
Proof.
  intros Hcs. unfold valid_utf8. rewrite utf8_chunks_encoded by (eapply Forall_impl; [done|by intros ? []]).
  induction Hcs as [|c cs [_ Hc] Hcs [IH1 IH2]]; [by split; [constructor|]|]. split; [by constructor|].
  cbn. by rewrite IH2.
Qed.

(** Whatever a worker writes, in however many pieces, the accumulator holds either the whole
    sanitized text, when that fits the ceiling, or a prefix of it cut at a character and followed by
    the marker; in both cases within the ceiling. *)
Theorem stderr_accumulates max s0 chunks :
  max < u64_max → BoundedStderr_new max = Ok s0 →
  let text := concat (sanitized <$> chunks) in
  let s := fold_left (λ s bytes, push bytes s) chunks s0 in
  holds max text s ∧ (truncated s = true ↔ max < len (utf8 text)) ∧ len (retained s) ≤ max ∧
  Forall (λ c, is_dropped c = false) (omap id (utf8_chunks (retained s))) ∧ valid_utf8 (retained s) = true.
Proof.
  intros Hword Hnew. cbn zeta.
  assert (Hmax : len STDERR_TRUNCATION_MARKER ≤ max ∧ s0 = {| retained := utf8 []; stderr_max := max; truncated := false |}).
  { unfold BoundedStderr_new in Hnew. destruct (Z.ltb_spec max (len STDERR_TRUNCATION_MARKER)); [done|].
    injection Hnew as <-. done. }
  destruct Hmax as [Hmax ->].
  assert (Hh : holds max (concat (sanitized <$> chunks))
                 (fold_left (λ s bytes, push bytes s) chunks {| retained := utf8 []; stderr_max := max; truncated := false |})).
  { apply (pushes_hold max Hmax Hword chunks []); [constructor|]. constructor. unfold len in *; cbn; lia. }
  split; [done|]. pose proof (sanitized_text chunks) as Ht. inversion Hh as [Hle Heq|k Hle Hlt Heq]; cbn [retained truncated].
  - split; [split; [done|lia]|]. split; [done|]. by apply clean_text.
  - split; [done|]. split; [rewrite len_app; lia|]. rewrite <-marker_utf8, <-utf8_app. apply clean_text.
    apply Forall_app. split; [by apply Forall_take|]. apply marker_clean.
Qed.
