(* ===== verification/Translation.v ===== *)
(** * Translation of planning problems to CP-SAT

    Models [crates/eutheto-solver-ortools/src/translation.rs]: scalar variables, literals, constraints,
    the scalarized objective, assumptions, the requests for candidate values and the retained maps.  The
    native model is threaded through the steps that push to it.  Encoding it is the [prost] crate's: the
    parameter [encode_to_vec]. *)
From stdpp Require Import base tactics list gmap strings.
From Stdlib Require Import ZArith Lia.
From S2P Require Import Prelude Ordering Protocol Control Budget DomainIr Model Analysis Validation.
From S2P Require Import Projection.
Open Scope Z_scope.

(** * The meaning of a CP-SAT model

    The messages of [crates/eutheto-solver-ortools/src/generated/operations_research.sat.rs] that the
    translator builds, and what [workers/ortools/proto/ortools/sat/cp_model.proto] documents them to
    mean.  The constraint forms are the ones the translator emits. *)
(** ** Messages *)
Record IntegerVariableProto := { ivp_name : string; ivp_domain : list Z }.
Record BoolArgumentProto := { ba_literals : list Z }.
Record LinearExpressionProto := { lx_vars : list Z; lx_coeffs : list Z; lx_offset : Z }.
Record LinearArgumentProto := { la_target : option LinearExpressionProto; la_exprs : list LinearExpressionProto }.
Record LinearConstraintProto := { lp_vars : list Z; lp_coeffs : list Z; lp_domain : list Z }.
Inductive ConstraintForm :=
| CpBoolOr (argument : BoolArgumentProto)
| CpBoolAnd (argument : BoolArgumentProto)
| CpAtMostOne (argument : BoolArgumentProto)
| CpExactlyOne (argument : BoolArgumentProto)
| CpLinMax (argument : LinearArgumentProto)
| CpLinear (argument : LinearConstraintProto).
Record ConstraintProto := {
  cp_name : string;
  cp_enforcement_literal : list Z;
  cp_constraint : option ConstraintForm
}.
(** Floating-point fields are their IEEE 754 bits. *)
Record CpObjectiveProto := {
  co_vars : list Z;
  co_coeffs : list Z;
  co_offset : Z;
  co_scaling_factor : Z;
  co_domain : list Z
}.
Record CpModelProto := {
  cm_variables : list IntegerVariableProto;
  cm_constraints : list ConstraintProto;
  cm_objective : option CpObjectiveProto;
  cm_assumptions : list Z
}.
Definition CpModelProto_default : CpModelProto :=
  {| cm_variables := []; cm_constraints := []; cm_objective := None; cm_assumptions := [] |}.

(** ** Meaning

    A solution gives a value to every variable of the model, in order. *)
Definition variable_value (x : list Z) (index : Z) : Z := default 0 (x !! Z.to_nat index).
(** Literal 4 is the fact that variable 4 is one, literal -5 the fact that it is zero. *)
Definition literal_holds (x : list Z) (literal : Z) : bool :=
  if literal <? 0 then variable_value x (- literal - 1) =? 0 else variable_value x literal =? 1.
(** A negative reference is the negation of the variable. *)
Definition reference_value (x : list Z) (reference : Z) : Z :=
  if reference <? 0 then - variable_value x (- reference - 1) else variable_value x reference.
Definition linear_sum (x : list Z) (vars coeffs : list Z) : Z :=
  foldr Z.add 0 (zip_with (λ v c, reference_value x v * c) vars coeffs).
Definition linear_expression_value (x : list Z) (e : LinearExpressionProto) : Z :=
  linear_sum x (lx_vars e) (lx_coeffs e) + lx_offset e.
(** A domain is a list of disjoint intervals, flattened. *)
Fixpoint in_flat_domain (domain : list Z) (v : Z) : bool :=
  match domain with
  | lo :: hi :: domain => ((lo <=? v) && (v <=? hi)) || in_flat_domain domain v
  | _ => false
  end.
Definition holding (x : list Z) (literals : list Z) : Z := len (filter (λ l, literal_holds x l = true) literals).
Definition form_holds (x : list Z) (form : ConstraintForm) : bool :=
  match form with
  | CpBoolOr a => existsb (literal_holds x) (ba_literals a)
  | CpBoolAnd a => forallb (literal_holds x) (ba_literals a)
  | CpAtMostOne a => holding x (ba_literals a) <=? 1
  | CpExactlyOne a => holding x (ba_literals a) =? 1
  | CpLinMax a =>
      match la_target a with
      | Some target =>
          let t := linear_expression_value x target in
          let values := linear_expression_value x <$> la_exprs a in
          bool_decide (t ∈ values) && forallb (λ v, v <=? t) values
      | None => false
      end
  | CpLinear a => in_flat_domain (lp_domain a) (linear_sum x (lp_vars a) (lp_coeffs a))
  end.
(** A constraint is enforced iff all its enforcement literals are true. *)
Definition constraint_satisfied (x : list Z) (c : ConstraintProto) : bool :=
  negb (forallb (literal_holds x) (cp_enforcement_literal c))
  || match cp_constraint c with Some form => form_holds x form | None => true end.
Definition domains_respected (variables : list IntegerVariableProto) (x : list Z) : bool :=
  bool_decide (length x = length variables)
  && forallb (λ '(v, value), in_flat_domain (ivp_domain v) value) (zip variables x).
(** The model is solved assuming all its assumption literals are true. *)
Definition is_solution (model : CpModelProto) (x : list Z) : bool :=
  domains_respected (cm_variables model) x
  && forallb (constraint_satisfied x) (cm_constraints model)
  && forallb (literal_holds x) (cm_assumptions model).
(** The linear terms of the objective to minimize. *)
Definition objective_sum (model : CpModelProto) (x : list Z) : Z :=
  match cm_objective model with Some o => linear_sum x (co_vars o) (co_coeffs o) | None => 0 end.
Definition is_optimal (model : CpModelProto) (x : list Z) : Prop :=
  is_solution model x = true ∧ ∀ y, is_solution model y = true → objective_sum model x ≤ objective_sum model y.

(** ** Errors *)
Inductive TranslationError :=
| InvalidPlanningIr (e : ValidationError)
| VariableIndexOverflow
| ConstraintIndexOverflow
| MissingBooleanIndex
| UnsupportedIntervalVariable
| MissingIntegerIndex
| UnsupportedCapabilities (unsupported : list Model.Capability)
| UnsupportedConstraint
| CardinalityBoundOverflow
| NativeIntegerOverflow
| UnsupportedMultipassObjective
| ProjectionIndexOverflow.
Notation TR := (Result TranslationError).

(** ** Integers and maps *)
Definition i32_max : Z := 2 ^ 31 - 1.
(** [i32::try_from] of a [usize] *)
Definition i32_try_from_usize (n : Z) : option Z := if n <=? i32_max then Some n else None.
Definition i128_min : Z := - 2 ^ 127.
Definition i128_max : Z := 2 ^ 127 - 1.
Definition checked_i128 (z : Z) : option Z :=
  if (i128_min <=? z) && (z <=? i128_max) then Some z else None.
(** [!index] on an [i32] *)
Definition bitwise_not (n : Z) : Z := - n - 1.
(** The entries of a [BTreeMap] with integer keys, in key order. *)
Definition btree_entries {V} (m : gmap Z V) : list (Z * V) := sort_by_key fst (map_to_list m).

(** ** Variables *)
Definition BOOLEAN_DOMAIN : list Z := [0; 1].
Record VariableTranslation := {
  vt_model : CpModelProto;
  vt_boolean_indices : gmap string Z;
  vt_integer_indices : gmap string Z
}.
Definition push_variable (domain : list Z) (model : CpModelProto) : CpModelProto :=
  {| cm_variables := cm_variables model ++ [{| ivp_name := EmptyString; ivp_domain := domain |}];
     cm_constraints := cm_constraints model; cm_objective := cm_objective model;
     cm_assumptions := cm_assumptions model |}.
Definition flatten_domain (domain : IntDomain) : list Z :=
  concat ((λ range, [start range; end_ range]) <$> inclusive_ranges domain).
Definition ensure_native_domain (domain : IntDomain) : TR unit :=
  '(lower, upper) ← ok_or NativeIntegerOverflow (bounds domain);
  let limit := i64_max / 2 in
  if (lower <? - limit) || (limit <? upper) then Err NativeIntegerOverflow else Ok tt.
Definition translate_variable (t : VariableTranslation) (variable : Variable_) : TR VariableTranslation :=
  index ← ok_or VariableIndexOverflow (i32_try_from_usize (len (cm_variables (vt_model t))));
  match variable with
  | VBoolean boolean =>
      Ok {| vt_model := push_variable BOOLEAN_DOMAIN (vt_model t);
            vt_boolean_indices := <[bv_id boolean := index]> (vt_boolean_indices t);
            vt_integer_indices := vt_integer_indices t |}
  | VInteger integer =>
      _ ← ensure_native_domain (iv_domain integer);
      Ok {| vt_model := push_variable (flatten_domain (iv_domain integer)) (vt_model t);
            vt_boolean_indices := vt_boolean_indices t;
            vt_integer_indices := <[iv_id integer := index]> (vt_integer_indices t) |}
  | VInterval _ => Ok t
  end.
Definition is_interval (variable : Variable_) : bool :=
  match variable with VInterval _ => true | _ => false end.
Definition translate_variable_domains_validated (problem : PlanningProblem) (include_constant_one : bool) :
    TR VariableTranslation :=
  let scalar_count := len (List.filter (λ v, negb (is_interval v)) (variables problem)) in
  _ ← ok_or VariableIndexOverflow (checked_u64 (scalar_count + (if include_constant_one then 1 else 0)));
  let model := if include_constant_one then push_variable [1; 1] CpModelProto_default
               else CpModelProto_default in
  fold_m translate_variable
    {| vt_model := model; vt_boolean_indices := ∅; vt_integer_indices := ∅ |} (variables problem).

(** ** Literals *)
Definition translate_literal (boolean_indices : gmap string Z) (literal : Literal) : TR Z :=
  index ← ok_or MissingBooleanIndex (boolean_indices !! lit_variable literal);
  Ok (if lit_positive literal then index else bitwise_not index).
Definition translate_literals (literals : list Literal) (boolean_indices : gmap string Z) : TR (list Z) :=
  fold_m (λ translated literal, l ← translate_literal boolean_indices literal; Ok (translated ++ [l])) []
    literals.

(** ** Constraints *)
Definition native_constraint (form : ConstraintForm) : ConstraintProto :=
  {| cp_name := EmptyString; cp_enforcement_literal := []; cp_constraint := Some form |}.
Definition boolean_constraint (constructor : BoolArgumentProto → ConstraintForm) (literals : list Z) :
    ConstraintProto := native_constraint (constructor {| ba_literals := literals |}).
Definition count_literal (boolean_indices : gmap string Z) (st : gmap Z Z * Z) (literal : Literal) :
    TR (gmap Z Z * Z) :=
  let '(coefficients, negative_count) := st in
  index ← ok_or MissingBooleanIndex (boolean_indices !! lit_variable literal);
  '(coefficient, negative_count) ←
    (if lit_positive literal then Ok (1, negative_count)
     else n ← ok_or CardinalityBoundOverflow (u64_checked_add negative_count 1); Ok (-1, n));
  Ok (<[index := default 0 (coefficients !! index) + coefficient]> coefficients, negative_count).
(** [i64::try_from] of a [u64] *)
Definition i64_try_from_u64 (n : Z) : option Z := checked_i64 n.
Definition cardinality_constraint (literals : list Literal) (min max : Z)
    (boolean_indices : gmap string Z) : TR ConstraintProto :=
  '(coefficients, negative_count) ← fold_m (count_literal boolean_indices) (∅, 0) literals;
  let coefficients := filter (λ kv, kv.2 ≠ 0) coefficients in
  offset ← ok_or CardinalityBoundOverflow (i64_try_from_u64 negative_count);
  lower ← ok_or CardinalityBoundOverflow (i64_try_from_u64 min ≫= λ min, i64_checked_sub min offset);
  upper ← ok_or CardinalityBoundOverflow (i64_try_from_u64 max ≫= λ max, i64_checked_sub max offset);
  let entries := btree_entries coefficients in
  Ok (native_constraint (CpLinear {| lp_vars := entries.*1; lp_coeffs := entries.*2;
                                     lp_domain := [lower; upper] |})).

(** The running conservative minimum and maximum of a linear sum. *)
Definition linear_safe_step (variables : list IntegerVariableProto) (st : Z * Z) (term : Z * Z) : TR (Z * Z) :=
  let '(conservative_min, conservative_max) := st in
  let '(variable, coefficient) := term in
  let limit := i64_max / 2 in
  if coefficient =? i64_min then Err NativeIntegerOverflow
  else
    variable ← ok_or NativeIntegerOverflow
      (if variable <? 0 then None else variables !! Z.to_nat variable);
    lower ← ok_or NativeIntegerOverflow (head (ivp_domain variable));
    upper ← ok_or NativeIntegerOverflow (last (ivp_domain variable));
    let first := lower * coefficient in
    let second := upper * coefficient in
    conservative_min ← ok_or NativeIntegerOverflow
      (checked_i128 (conservative_min + Z.min (Z.min first second) 0));
    conservative_max ← ok_or NativeIntegerOverflow
      (checked_i128 (conservative_max + Z.max (Z.max first second) 0));
    if (conservative_min <? - limit) || (limit <? conservative_max) then Err NativeIntegerOverflow
    else Ok (conservative_min, conservative_max).
Definition ensure_native_linear_safe (native_variables coefficients : list Z)
    (variables : list IntegerVariableProto) : TR unit :=
  _ ← fold_m (linear_safe_step variables) (0, 0) (zip native_variables coefficients);
  Ok tt.

Definition difference_expression (positive negative : Z) : LinearExpressionProto :=
  if positive =? negative then {| lx_vars := []; lx_coeffs := []; lx_offset := 0 |}
  else {| lx_vars := [positive; negative]; lx_coeffs := [1; -1]; lx_offset := 0 |}.
Definition abs_difference_constraint (target left_ right_ : string) (integer_indices : gmap string Z)
    (variables : list IntegerVariableProto) : TR ConstraintProto :=
  target_index ← ok_or MissingIntegerIndex (integer_indices !! target);
  left_index ← ok_or MissingIntegerIndex (integer_indices !! left_);
  right_index ← ok_or MissingIntegerIndex (integer_indices !! right_);
  let target_expression := {| lx_vars := [target_index]; lx_coeffs := [1]; lx_offset := 0 |} in
  let left_minus_right := difference_expression left_index right_index in
  let right_minus_left := difference_expression right_index left_index in
  _ ← ensure_native_linear_safe (lx_vars target_expression) (lx_coeffs target_expression) variables;
  _ ← for_each (λ e, ensure_native_linear_safe (lx_vars e) (lx_coeffs e) variables)
        [left_minus_right; right_minus_left];
  Ok (native_constraint (CpLinMax {| la_target := Some target_expression;
                                     la_exprs := [left_minus_right; right_minus_left] |})).

Definition push_linear_term (integer_indices : gmap string Z) (st : list Z * list Z) (term : LinearTerm) :
    TR (list Z * list Z) :=
  index ← ok_or MissingIntegerIndex (integer_indices !! lt_variable term);
  Ok (st.1 ++ [index], st.2 ++ [lt_coefficient term]).
Definition comparison_domain (op : ComparisonOp) (rhs : Z) : list Z :=
  match op with
  | Equal => [rhs; rhs]
  | LessOrEqual => [i64_min; rhs]
  | GreaterOrEqual => [rhs; i64_max]
  end.
Definition linear_comparison_constraint (comparison : LinearComparison) (integer_indices : gmap string Z)
    (variables : list IntegerVariableProto) (constant_one_index : Z) : TR ConstraintProto :=
  let expression := lc_expression comparison in
  let st := if negb (le_constant expression =? 0) then ([constant_one_index], [le_constant expression])
            else ([], []) in
  '(native_variables, coefficients) ← fold_m (push_linear_term integer_indices) st (le_terms expression);
  _ ← ensure_native_linear_safe native_variables coefficients variables;
  Ok (native_constraint (CpLinear {| lp_vars := native_variables; lp_coeffs := coefficients;
                                     lp_domain := comparison_domain (lc_op comparison) (lc_rhs comparison) |})).

Definition push_constraint (constraint : ConstraintProto) (model : CpModelProto) : CpModelProto :=
  {| cm_variables := cm_variables model; cm_constraints := cm_constraints model ++ [constraint];
     cm_objective := cm_objective model; cm_assumptions := cm_assumptions model |}.
Definition translate_constraint_body (body : Constraint_) (is_enforced : bool)
    (boolean_indices integer_indices : gmap string Z) (constant_one_index : Z) (model : CpModelProto) :
    TR CpModelProto :=
  match body with
  | BoolOr literals =>
      literals ← translate_literals literals boolean_indices;
      Ok (push_constraint (boolean_constraint CpBoolOr literals) model)
  | BoolAnd literals =>
      literals ← translate_literals literals boolean_indices;
      Ok (push_constraint (boolean_constraint CpBoolAnd literals) model)
  | Implication antecedent consequent =>
      antecedent ← translate_literal boolean_indices antecedent;
      consequent ← translate_literal boolean_indices consequent;
      Ok (push_constraint (boolean_constraint CpBoolOr [bitwise_not antecedent; consequent]) model)
  | Equivalence_ left_ right_ =>
      left_ ← translate_literal boolean_indices left_;
      right_ ← translate_literal boolean_indices right_;
      let model := push_constraint (boolean_constraint CpBoolOr [bitwise_not left_; right_]) model in
      Ok (push_constraint (boolean_constraint CpBoolOr [left_; bitwise_not right_]) model)
  | AtMostOne literals =>
      if is_enforced then
        c ← cardinality_constraint literals 0 1 boolean_indices; Ok (push_constraint c model)
      else
        literals ← translate_literals literals boolean_indices;
        Ok (push_constraint (boolean_constraint CpAtMostOne literals) model)
  | ExactlyOne literals =>
      if is_enforced then
        c ← cardinality_constraint literals 1 1 boolean_indices; Ok (push_constraint c model)
      else
        literals ← translate_literals literals boolean_indices;
        Ok (push_constraint (boolean_constraint CpExactlyOne literals) model)
  | CardinalityRange literals min max =>
      c ← cardinality_constraint literals min max boolean_indices; Ok (push_constraint c model)
  | AbsDifference target left_ right_ =>
      c ← abs_difference_constraint target left_ right_ integer_indices (cm_variables model);
      Ok (push_constraint c model)
  | LinearComparison_ comparison =>
      c ← linear_comparison_constraint comparison integer_indices (cm_variables model) constant_one_index;
      Ok (push_constraint c model)
  | _ => Err UnsupportedConstraint
  end.
Definition with_enforcement (enforcement : list Z) (c : ConstraintProto) : ConstraintProto :=
  {| cp_name := cp_name c; cp_enforcement_literal := enforcement; cp_constraint := cp_constraint c |}.
Definition enforce_from (first_generated : nat) (enforcement : list Z) (model : CpModelProto) : CpModelProto :=
  {| cm_variables := cm_variables model;
     cm_constraints := take first_generated (cm_constraints model)
                       ++ (with_enforcement enforcement <$> drop first_generated (cm_constraints model));
     cm_objective := cm_objective model; cm_assumptions := cm_assumptions model |}.
Definition constraint_range (first last : nat) : TR (list Z) :=
  fold_m (λ indices index, i ← ok_or ConstraintIndexOverflow (i32_try_from_usize (Z.of_nat index));
                           Ok (indices ++ [i])) [] (seq first (last - first)).
Definition translate_record (boolean_indices integer_indices : gmap string Z) (constant_one_index : Z)
    (st : CpModelProto * gmap string (list Z)) (record : ConstraintRecord) :
    TR (CpModelProto * gmap string (list Z)) :=
  let '(model, constraint_indices) := st in
  enforcement ← translate_literals (cr_enforcement record) boolean_indices;
  let first_generated := length (cm_constraints model) in
  model ← translate_constraint_body (cr_body record) (negb (bool_decide (enforcement = []))) boolean_indices
            integer_indices constant_one_index model;
  let model := enforce_from first_generated enforcement model in
  native_indices ← constraint_range first_generated (length (cm_constraints model));
  Ok (model, <[cr_id record := native_indices]> constraint_indices).
Definition translate_constraints (problem : PlanningProblem) (boolean_indices integer_indices : gmap string Z)
    (constant_one_index : Z) (model : CpModelProto) : TR (CpModelProto * gmap string (list Z)) :=
  fold_m (translate_record boolean_indices integer_indices constant_one_index) (model, ∅) (constraints problem).

(** ** Objective *)
Definition signed_weight (level : ObjectiveLevel) (weight : Z) : Z :=
  match ol_direction level with Minimize => weight | Maximize => - weight end.
Definition add_objective_term (integer_indices : gmap string Z) (weight : Z) (combined : gmap Z Z)
    (term : LinearTerm) : TR (gmap Z Z) :=
  index ← ok_or MissingIntegerIndex (integer_indices !! lt_variable term);
  contribution ← ok_or NativeIntegerOverflow (checked_i128 (lt_coefficient term * weight));
  coefficient ← ok_or NativeIntegerOverflow
    (checked_i128 (default 0 (combined !! index) + contribution));
  Ok (<[index := coefficient]> combined).
Definition add_objective_expression (integer_indices : gmap string Z) (weight : Z)
    (st : gmap Z Z * Z) (term : ObjectiveTerm) : TR (gmap Z Z * Z) :=
  let '(combined, constant) := st in
  weighted_constant ← ok_or NativeIntegerOverflow
    (checked_i128 (le_constant (ot_expression term) * weight));
  constant ← ok_or NativeIntegerOverflow (checked_i128 (constant + weighted_constant));
  combined ← fold_m (add_objective_term integer_indices weight) combined (le_terms (ot_expression term));
  Ok (combined, constant).
Definition add_objective_level (integer_indices : gmap string Z) (st : gmap Z Z * Z)
    (entry : ObjectiveLevel * Z) : TR (gmap Z Z * Z) :=
  fold_m (add_objective_expression integer_indices (signed_weight entry.1 entry.2)) st (ol_terms entry.1).
Definition i64_coefficients (entries : list (Z * Z)) : TR (list Z * list Z) :=
  fold_m (λ st entry, c ← ok_or NativeIntegerOverflow (checked_i64 entry.2);
                      Ok (st.1 ++ [entry.1], st.2 ++ [c])) ([], []) entries.
(** The bits of [1.0_f64]. *)
Definition f64_one : Z := 4607182418800017408.
Definition with_objective (o : CpObjectiveProto) (model : CpModelProto) : CpModelProto :=
  {| cm_variables := cm_variables model; cm_constraints := cm_constraints model; cm_objective := Some o;
     cm_assumptions := cm_assumptions model |}.
Definition translate_objective (problem : PlanningProblem) (weights : list Z)
    (integer_indices : gmap string Z) (constant_one_index : Z) (model : CpModelProto) : TR CpModelProto :=
  let levels := op_levels (objectives problem) in
  if bool_decide (levels = []) then Ok model
  else
    '(combined, constant) ← fold_m (add_objective_level integer_indices) (∅, 0) (zip levels weights);
    let combined := if negb (constant =? 0) then <[constant_one_index := constant]> combined else combined in
    let combined := filter (λ kv, kv.2 ≠ 0) combined in
    '(native_variables, coefficients) ← i64_coefficients (btree_entries combined);
    _ ← ensure_native_linear_safe native_variables coefficients (cm_variables model);
    Ok (with_objective {| co_vars := native_variables; co_coeffs := coefficients; co_offset := 0;
                          co_scaling_factor := f64_one; co_domain := [] |} model).

(** ** Assumptions and candidate requests *)
Definition push_assumption (literal : Z) (model : CpModelProto) : CpModelProto :=
  {| cm_variables := cm_variables model; cm_constraints := cm_constraints model;
     cm_objective := cm_objective model; cm_assumptions := cm_assumptions model ++ [literal] |}.
Definition translate_assumptions (problem : PlanningProblem) (boolean_indices : gmap string Z)
    (model : CpModelProto) : TR (CpModelProto * gmap Z Assumption) :=
  fold_m (λ '(model, by_literal) assumption,
      native_literal ← translate_literal boolean_indices (as_literal assumption);
      Ok (push_assumption native_literal model, <[native_literal := assumption]> by_literal))
    (model, ∅) (assumptions problem).
Inductive CandidateProjectionVariable := CpvBoolean (id : string) | CpvInteger (id : string).
Definition requested_variables (boolean_indices integer_indices : gmap string Z) :
    gmap Z CandidateProjectionVariable :=
  let requested := foldl (λ requested '(id, index), <[index := CpvBoolean id]> requested) ∅
                     (btree_iter boolean_indices) in
  foldl (λ requested '(id, index), <[index := CpvInteger id]> requested) requested (btree_iter integer_indices).
Definition request_candidate (st : Z * (list ProjectionRequest * gmap Z CandidateProjectionVariable))
    (entry : Z * CandidateProjectionVariable) :
    TR (Z * (list ProjectionRequest * gmap Z CandidateProjectionVariable)) :=
  let '(position, (worker_requests, candidate_variables)) := st in
  projection_id ← ok_or ProjectionIndexOverflow (checked_u64 position);
  Ok (position + 1,
      (worker_requests ++ [{| pq_projection_id := projection_id; pq_cp_sat_variable_index := entry.1 |}],
       <[projection_id := entry.2]> candidate_variables)).
Definition translate_candidate_assignments (boolean_indices integer_indices : gmap string Z) :
    TR (list ProjectionRequest * gmap Z CandidateProjectionVariable) :=
  map_ok snd (fold_m request_candidate (0, ([], ∅))
                (btree_entries (requested_variables boolean_indices integer_indices))).

(** ** Retained maps *)
Record TranslationMaps := {
  tm_boolean_indices : gmap string Z;
  tm_integer_indices : gmap string Z;
  tm_integer_domains : gmap string IntDomain;
  tm_interval_constraint_indices : gmap string Z;
  tm_constraint_indices : gmap string (list Z);
  tm_objective_plan : ObjectivePlan;
  tm_objective_weights : gmap string Z;
  tm_assumptions_by_literal : gmap Z Assumption;
  tm_projection_requests : gmap string SolutionProjection;
  tm_worker_projection_requests : list ProjectionRequest;
  tm_candidate_projection_variables : gmap Z CandidateProjectionVariable;
  tm_provenance_records : gmap string ProvenanceRecord;
  tm_boolean_provenance : gmap string string;
  tm_integer_provenance : gmap string string;
  tm_interval_provenance : gmap string string;
  tm_constraint_provenance : gmap string string
}.
(** [collect] into a [BTreeMap]: a later entry replaces an earlier one. *)
Definition collect_map {V} (entries : list (string * V)) : gmap string V :=
  foldl (λ m '(k, v), <[k := v]> m) ∅ entries.
Definition retain_translation_maps (problem : PlanningProblem) (weights : list Z)
    (boolean_indices integer_indices : gmap string Z) (assumptions_by_literal : gmap Z Assumption)
    (constraint_indices : gmap string (list Z))
    (candidate_assignments : list ProjectionRequest * gmap Z CandidateProjectionVariable) : TranslationMaps := {|
  tm_boolean_indices := boolean_indices;
  tm_integer_indices := integer_indices;
  tm_integer_domains := collect_map (omap (λ v, match v with
                          | VInteger v => Some (iv_id v, iv_domain v) | _ => None end) (variables problem));
  tm_interval_constraint_indices := ∅;
  tm_constraint_indices := constraint_indices;
  tm_objective_plan := objectives problem;
  tm_objective_weights := collect_map (zip (ol_id <$> op_levels (objectives problem)) weights);
  tm_assumptions_by_literal := assumptions_by_literal;
  tm_projection_requests := collect_map ((λ p, (sp_id p, p)) <$> projections problem);
  tm_worker_projection_requests := candidate_assignments.1;
  tm_candidate_projection_variables := candidate_assignments.2;
  tm_provenance_records := collect_map ((λ r, (pr_id r, r)) <$> provenance problem);
  tm_boolean_provenance := collect_map (omap (λ v, match v with
                             | VBoolean v => Some (bv_id v, bv_provenance v) | _ => None end) (variables problem));
  tm_integer_provenance := collect_map (omap (λ v, match v with
                             | VInteger v => Some (iv_id v, iv_provenance v) | _ => None end) (variables problem));
  tm_interval_provenance := collect_map (omap (λ v, match v with
                             | VInterval v => Some (itv_id v, itv_provenance v) | _ => None end) (variables problem));
  tm_constraint_provenance := collect_map ((λ r, (cr_id r, cr_provenance r)) <$> constraints problem)
|}.

(** ** The supported subset *)
Definition supports_capability (capability : Model.Capability) : bool :=
  match capability with
  | Model.CapBoolOr | Model.CapBoolAnd | Model.CapImplication | Model.CapEquivalence
  | Model.CapAtMostOne | Model.CapExactlyOne | Model.CapCardinalityRange | Model.CapAbsDifference
  | Model.CapLinearComparison | Model.CapObjectivePenalty | Model.CapObjectiveReward
  | Model.CapAssumptions | Model.CapBooleanProjection | Model.CapIntegerProjection
  | Model.CapAbsentProjection => true
  | _ => false
  end.
Definition reject_unsupported_capabilities (problem : PlanningProblem) : TR unit :=
  let required := required_capabilities (feature_usage problem) in
  let unsupported := filter (λ c, c ∈ required ∧ supports_capability c = false) all_capabilities in
  if bool_decide (unsupported = []) then Ok tt else Err (UnsupportedCapabilities unsupported).
Definition needs_constant_one (problem : PlanningProblem) : bool :=
  existsb (λ record, match cr_body record with
                     | LinearComparison_ comparison => negb (le_constant (lc_expression comparison) =? 0)
                     | _ => false
                     end) (constraints problem)
  || existsb (λ level, existsb (λ term, negb (le_constant (ot_expression term) =? 0)) (ol_terms level))
       (op_levels (objectives problem)).

Record TranslatedCpSatModel := {
  cp_model_proto : list Z;
  tr_maps : TranslationMaps;
  translated_variable_count : Z;
  translated_constraint_count : Z
}.
Section translate.
Context (blake3_hex : list Z → string) (encode_to_vec : CpModelProto → list Z).

Definition translate_variable_domains (problem : PlanningProblem) (limits : PlanningIrLimitsV1) :
    TR VariableTranslation :=
  _ ← map_err InvalidPlanningIr (validate blake3_hex problem limits);
  translate_variable_domains_validated problem false.
(** The model and the maps, before the model is encoded. *)
Definition translate_model (problem : PlanningProblem) (limits : PlanningIrLimitsV1) :
    TR (CpModelProto * TranslationMaps) :=
  _ ← map_err InvalidPlanningIr (validate blake3_hex problem limits);
  if existsb is_interval (variables problem) then Err UnsupportedIntervalVariable
  else
    _ ← reject_unsupported_capabilities problem;
    objective_weights ← match lexicographic_strategy (objectives problem) with
                        | ExactScalarization weights => Ok weights
                        | Multipass => Err UnsupportedMultipassObjective
                        end;
    t ← translate_variable_domains_validated problem (needs_constant_one problem);
    '(model, assumptions_by_literal) ← translate_assumptions problem (vt_boolean_indices t) (vt_model t);
    candidate_assignments ← translate_candidate_assignments (vt_boolean_indices t) (vt_integer_indices t);
    '(model, constraint_indices) ←
      translate_constraints problem (vt_boolean_indices t) (vt_integer_indices t) 0 model;
    model ← translate_objective problem objective_weights (vt_integer_indices t) 0 model;
    Ok (model, retain_translation_maps problem objective_weights (vt_boolean_indices t)
                 (vt_integer_indices t) assumptions_by_literal constraint_indices candidate_assignments).
Definition translate_supported_model (problem : PlanningProblem) (limits : PlanningIrLimitsV1) :
    TR TranslatedCpSatModel :=
  '(model, maps) ← translate_model problem limits;
  translated_variable_count ← ok_or VariableIndexOverflow (checked_u64 (len (cm_variables model)));
  translated_constraint_count ← ok_or ConstraintIndexOverflow (checked_u64 (len (cm_constraints model)));
  Ok {| cp_model_proto := encode_to_vec model; tr_maps := maps;
        translated_variable_count := translated_variable_count;
        translated_constraint_count := translated_constraint_count |}.
End translate.

(** ** Accessors *)
Definition boolean_index (t : TranslatedCpSatModel) (id : string) : option Z :=
  tm_boolean_indices (tr_maps t) !! id.
Definition integer_index (t : TranslatedCpSatModel) (id : string) : option Z :=
  tm_integer_indices (tr_maps t) !! id.
Definition integer_domain (t : TranslatedCpSatModel) (id : string) : option IntDomain :=
  tm_integer_domains (tr_maps t) !! id.
Definition objective_plan (t : TranslatedCpSatModel) : ObjectivePlan := tm_objective_plan (tr_maps t).
Definition objective_weight (t : TranslatedCpSatModel) (id : string) : option Z :=
  tm_objective_weights (tr_maps t) !! id.
Definition assumption (t : TranslatedCpSatModel) (native_literal : Z) : option Assumption :=
  tm_assumptions_by_literal (tr_maps t) !! native_literal.
Definition worker_projection_requests (t : TranslatedCpSatModel) : list ProjectionRequest :=
  tm_worker_projection_requests (tr_maps t).
Definition candidate_projection_variable (t : TranslatedCpSatModel) (projection_id : Z) :
    option CandidateProjectionVariable := tm_candidate_projection_variables (tr_maps t) !! projection_id.
Definition variable_count (t : VariableTranslation) : Z := len (cm_variables (vt_model t)).
Definition vt_boolean_index (t : VariableTranslation) (id : string) : option Z := vt_boolean_indices t !! id.
Definition vt_integer_index (t : VariableTranslation) (id : string) : option Z := vt_integer_indices t !! id.
Definition interval_constraint_index (t : TranslatedCpSatModel) (id : string) : option Z :=
  tm_interval_constraint_indices (tr_maps t) !! id.
Definition constraint_indices (t : TranslatedCpSatModel) (id : string) : option (list Z) :=
  tm_constraint_indices (tr_maps t) !! id.
(** [values()], in key order *)
Definition projection_requests (t : TranslatedCpSatModel) : list SolutionProjection :=
  (btree_iter (tm_projection_requests (tr_maps t))).*2.
Definition provenance_record (t : TranslatedCpSatModel) (id : string) : option ProvenanceRecord :=
  tm_provenance_records (tr_maps t) !! id.
Definition boolean_provenance (t : TranslatedCpSatModel) (id : string) : option string :=
  tm_boolean_provenance (tr_maps t) !! id.
Definition integer_provenance (t : TranslatedCpSatModel) (id : string) : option string :=
  tm_integer_provenance (tr_maps t) !! id.
Definition interval_provenance (t : TranslatedCpSatModel) (id : string) : option string :=
  tm_interval_provenance (tr_maps t) !! id.
Definition constraint_provenance (t : TranslatedCpSatModel) (id : string) : option string :=
  tm_constraint_provenance (tr_maps t) !! id.

(** * Candidates of a translated model

    Models [crates/eutheto-solver-ortools/src/candidate.rs]: the values a worker reports for the
    requested projections become typed candidate values, and the objective levels are recomputed from
    them with checked arithmetic. *)
Record DecodedCandidate := { dc_values : CandidateValues; dc_objective_values : list Z }.
Inductive CandidateDecodeError :=
| CdDuplicateProjection (projection_id : Z)
| CdUnrequestedProjection (projection_id : Z)
| CdMissingProjection (projection_id : Z)
| CdInvalidBooleanValue (projection_id : Z)
| CdIntegerOutOfDomain (id : string)
| CdMissingIntegerDomain (id : string)
| CdMissingObjectiveVariable (id : string)
| CdObjectiveArithmeticOverflow (level : string)
| CdObjectiveOutOfBounds (level : string).
Notation CD := (Result CandidateDecodeError).

(** ** Collecting *)
(** [values.insert(..).is_some()] also reports a repeated identifier. *)
Definition collect_projected_value (st : gmap Z Z * list Z) (projected : ProjectedValue) : gmap Z Z * list Z :=
  let '(collected, duplicates) := st in
  (<[pv_projection_id projected := pv_value projected]> collected,
   match collected !! pv_projection_id projected with
   | Some _ => ord_sort (pv_projection_id projected :: duplicates)
   | None => duplicates
   end).
Definition collect_projected_values (candidate : ProjectedCandidate) : CD (gmap Z Z) :=
  let '(collected, duplicates) := foldl collect_projected_value (∅, []) (values candidate) in
  match duplicates with
  | duplicate :: _ => Err (CdDuplicateProjection duplicate)
  | [] => Ok collected
  end.

(** ** Objectives *)
Definition evaluate_expression_term (level : string) (decoded : CandidateValues) (term_value : Z)
    (expression_term : LinearTerm) : CD Z :=
  value ← ok_or (CdMissingObjectiveVariable (lt_variable expression_term))
            (integers decoded !! lt_variable expression_term);
  contribution ← ok_or (CdObjectiveArithmeticOverflow level)
                   (i64_checked_mul (lt_coefficient expression_term) value);
  ok_or (CdObjectiveArithmeticOverflow level) (i64_checked_add term_value contribution).
Definition evaluate_term (level : string) (decoded : CandidateValues) (level_value : Z) (term : ObjectiveTerm) :
    CD Z :=
  term_value ← fold_m (evaluate_expression_term level decoded) (le_constant (ot_expression term))
                 (le_terms (ot_expression term));
  ok_or (CdObjectiveArithmeticOverflow level) (i64_checked_add level_value term_value).
Definition evaluate_level (decoded : CandidateValues) (objective_values : list Z) (level : ObjectiveLevel) :
    CD (list Z) :=
  level_value ← fold_m (evaluate_term (ol_id level) decoded) 0 (ol_terms level);
  if (ol_lower_bound level <=? level_value) && (level_value <=? ol_upper_bound level)
  then Ok (objective_values ++ [level_value])
  else Err (CdObjectiveOutOfBounds (ol_id level)).
Definition evaluate_objectives (translated : TranslatedCpSatModel) (decoded : CandidateValues) : CD (list Z) :=
  fold_m (evaluate_level decoded) [] (op_levels (objective_plan translated)).

(** ** Decoding *)
(** The last branch is the [unreachable!] one: the caller has rejected unrequested identifiers. *)
Definition decode_value (translated : TranslatedCpSatModel) (decoded : CandidateValues) (entry : Z * Z) :
    CD CandidateValues :=
  let '(projection_id, value) := entry in
  match candidate_projection_variable translated projection_id with
  | Some (CpvBoolean id) =>
      boolean ← (if value =? 0 then Ok false else if value =? 1 then Ok true
                 else Err (CdInvalidBooleanValue projection_id));
      Ok {| booleans := <[id := boolean]> (booleans decoded); integers := integers decoded |}
  | Some (CpvInteger id) =>
      domain ← ok_or (CdMissingIntegerDomain id) (integer_domain translated id);
      if contains domain value
      then Ok {| booleans := booleans decoded; integers := <[id := value]> (integers decoded) |}
      else Err (CdIntegerOutOfDomain id)
  | None => Err (CdUnrequestedProjection projection_id)
  end.
Definition decode_projected_candidate (translated : TranslatedCpSatModel) (candidate : ProjectedCandidate) :
    CD DecodedCandidate :=
  observed ← collect_projected_values candidate;
  match List.find (λ id, bool_decide (candidate_projection_variable translated id = None))
          (btree_entries observed).*1 with
  | Some unrequested => Err (CdUnrequestedProjection unrequested)
  | None =>
      match List.find (λ id, bool_decide (observed !! id = None))
              (pq_projection_id <$> worker_projection_requests translated) with
      | Some missing => Err (CdMissingProjection missing)
      | None =>
          decoded ← fold_m (decode_value translated) {| booleans := ∅; integers := ∅ |} (btree_entries observed);
          objective_values ← evaluate_objectives translated decoded;
          Ok {| dc_values := decoded; dc_objective_values := objective_values |}
      end
  end.
