(* ===== verification/TranslationFacts.v ===== *)
(** * The translation to CP-SAT is exact

    Every solution of the native model is a planning assignment and every feasible planning assignment
    is a solution of it; the native objective is the scalarized lexicographic objective; so an optimum
    of the native model is a lexicographically best feasible assignment. *)
From stdpp Require Import base tactics list gmap strings.
From Stdlib Require Import ZArith Lia Sorted.
From S2P Require Import Prelude Ordering Protocol Control Budget Ids DomainIr Model Analysis Erasure.
From S2P Require Import Validation ValidationAgreement Bounds Scoping Provenance.
From S2P Require Import Lexicographic Admission Projection ProjectionFacts Evaluator EvaluatorFacts Translation.
Open Scope Z_scope.

(** ** Sums over index maps *)
Definition pairs_sum (x : list Z) (l : list (Z * Z)) : Z :=
  foldr Z.add 0 ((λ p, reference_value x p.1 * p.2) <$> l).
Lemma linear_sum_pairs x vars coeffs : linear_sum x vars coeffs = pairs_sum x (zip vars coeffs).
Proof.
  unfold linear_sum, pairs_sum. revert coeffs. induction vars as [|v vars IH]; intros [|c coeffs]; try done.
  cbn. by rewrite IH.
Qed.
Lemma zip_unzip {A B} (l : list (A * B)) : zip l.*1 l.*2 = l.
Proof. induction l as [|[a b] l IH]; [done|]. cbn. by rewrite IH. Qed.
Lemma pairs_sum_app x l k : pairs_sum x (l ++ k) = pairs_sum x l + pairs_sum x k.
Proof. unfold pairs_sum. rewrite fmap_app, foldr_app. induction (_ <$> l); cbn; lia. Qed.
Lemma pairs_sum_perm x l k : l ≡ₚ k → pairs_sum x l = pairs_sum x k.
Proof. unfold pairs_sum. induction 1; cbn; lia. Qed.
Definition map_sum (x : list Z) (m : gmap Z Z) : Z := pairs_sum x (map_to_list m).
Lemma btree_entries_sum x m : pairs_sum x (btree_entries m) = map_sum x m.
Proof. apply pairs_sum_perm, sort_by_key_perm. Qed.
Lemma map_sum_fresh x m k c : m !! k = None → map_sum x (<[k := c]> m) = map_sum x m + reference_value x k * c.
Proof.
  intros Hk. unfold map_sum. rewrite (pairs_sum_perm x _ _ (map_to_list_insert m k c Hk)).
  unfold pairs_sum. cbn. lia.
Qed.
Lemma map_sum_delete x m k c : m !! k = Some c → map_sum x m = map_sum x (delete k m) + reference_value x k * c.
Proof.
  intros Hk. unfold map_sum. rewrite <-(pairs_sum_perm x _ _ (map_to_list_delete m k c Hk)).
  unfold pairs_sum. cbn. lia.
Qed.
Lemma map_sum_add x m k c :
  map_sum x (<[k := default 0 (m !! k) + c]> m) = map_sum x m + reference_value x k * c.
Proof.
  destruct (m !! k) as [p|] eqn:Hk.
  - rewrite <-insert_delete_eq, map_sum_fresh by apply lookup_delete_eq.
    rewrite (map_sum_delete x m k p Hk). cbn [from_option id]. lia.
  - rewrite map_sum_fresh by done. cbn [from_option id]. lia.
Qed.
Lemma map_sum_nonzero x (m : gmap Z Z) : map_sum x (filter (λ kv, kv.2 ≠ 0) m) = map_sum x m.
Proof.
  induction m as [|k c m Hk IH] using map_ind; [done|]. rewrite map_sum_fresh by done.
  destruct (decide (c = 0)) as [->|Hc].
  - rewrite map_filter_insert_False by (cbn; lia). rewrite delete_id by done. rewrite IH. lia.
  - rewrite map_filter_insert_True by done.
    rewrite map_sum_fresh; [by rewrite IH|]. apply map_lookup_filter_None. by left.
Qed.

(** ** Domains *)
Lemma flatten_domain_contains d v : in_flat_domain (flatten_domain d) v = contains d v.
Proof.
  unfold flatten_domain, contains. induction (inclusive_ranges d) as [|r l IH]; [done|].
  cbn. rewrite IH. done.
Qed.

(** ** Variables *)
Definition native_domain (v : Variable_) : list Z :=
  match v with
  | VBoolean _ => BOOLEAN_DOMAIN
  | VInteger i => flatten_domain (iv_domain i)
  | VInterval _ => []
  end.
Definition native_variable (v : Variable_) : IntegerVariableProto :=
  {| ivp_name := EmptyString; ivp_domain := native_domain v |}.
Definition constant_variables (needs : bool) : list IntegerVariableProto :=
  if needs then [{| ivp_name := EmptyString; ivp_domain := [1; 1] |}] else [].
Definition is_boolean (id : string) (v : Variable_) : Prop := ∃ b, v = VBoolean b ∧ bv_id b = id.
Definition is_integer (id : string) (v : Variable_) : Prop := ∃ i, v = VInteger i ∧ iv_id i = id.
(** The index map of one kind of variable, over the variables already translated. *)
Definition indexes (kind : string → Variable_ → Prop) (offset : nat) (vs : list Variable_)
    (m : gmap string Z) : Prop :=
  (∀ id i, m !! id = Some i → ∃ k v, vs !! k = Some v ∧ kind id v ∧ i = Z.of_nat (offset + k)) ∧
  (∀ id v, v ∈ vs → kind id v → is_Some (m !! id)).
Lemma indexes_push (kind : string → Variable_ → Prop) offset vs m v :
  indexes kind offset vs m → (∀ id, ¬ kind id v) → indexes kind offset (vs ++ [v]) m.
Proof.
  intros [H1 H2] Hv. split.
  - intros id i Hi. destruct (H1 id i Hi) as (k & w & Hk & Hw & ->). exists k, w. split; [|done].
    by apply lookup_app_l_Some.
  - intros id w [Hw| ->%list_elem_of_singleton]%elem_of_app Hk; [by eapply H2|by apply Hv in Hk].
Qed.
Lemma indexes_insert (kind : string → Variable_ → Prop) offset vs m v id :
  indexes kind offset vs m → kind id v → (∀ id', kind id' v → id' = id) →
  indexes kind offset (vs ++ [v]) (<[id := Z.of_nat (offset + length vs)]> m).
Proof.
  intros [H1 H2] Hv Huniq. split.
  - intros id' i [[<- <-]|[Hne Hi]]%lookup_insert_Some.
    + exists (length vs), v. split; [|done]. by rewrite lookup_app_r, Nat.sub_diag by lia.
    + destruct (H1 id' i Hi) as (k & w & Hk & Hw & ->). exists k, w. split; [|done]. by apply lookup_app_l_Some.
  - intros id' w [Hw| ->%list_elem_of_singleton]%elem_of_app Hk.
    + destruct (decide (id = id')) as [<-|]; [rewrite lookup_insert_eq; by eexists|].
      rewrite lookup_insert_ne by done. by eapply H2.
    + rewrite (Huniq _ Hk), lookup_insert_eq. by eexists.
Qed.

Record variables_translated (needs : bool) (vs : list Variable_) (t : VariableTranslation) : Prop := {
  vtr_model : vt_model t =
    {| cm_variables := constant_variables needs ++ (native_variable <$> vs); cm_constraints := [];
       cm_objective := None; cm_assumptions := [] |};
  vtr_booleans : indexes is_boolean (length (constant_variables needs)) vs (vt_boolean_indices t);
  vtr_integers : indexes is_integer (length (constant_variables needs)) vs (vt_integer_indices t)
}.
Lemma translate_variable_translated needs vs t v t' :
  variables_translated needs vs t → is_interval v = false → translate_variable t v = Ok t' →
  variables_translated needs (vs ++ [v]) t'.
Proof.
  intros [Hm Hb Hi] Hv. unfold translate_variable. rewrite result_bind_Ok. intros (index & Hx%ok_or_Ok & Ht).
  rewrite Hm in Hx. cbn [cm_variables] in Hx. unfold i32_try_from_usize in Hx. destruct (_ <=? _); [|done].
  assert (index = Z.of_nat (length (constant_variables needs) + length vs)) as ->
    by (unfold len in Hx; rewrite length_app, length_fmap in Hx; congruence).
  destruct v as [b|i|]; [| |done].
  - injection Ht as <-. split; cbn [vt_model vt_boolean_indices vt_integer_indices].
    + rewrite Hm. unfold push_variable. cbn. by rewrite fmap_app, app_assoc.
    + apply indexes_insert; [done|by exists b|]. by intros id' (b' & [= <-] & <-).
    + apply indexes_push; [done|]. by intros id (i & ? & _).
  - apply result_bind_Ok in Ht as ([] & _ & Ht). injection Ht as <-.
    split; cbn [vt_model vt_boolean_indices vt_integer_indices].
    + rewrite Hm. unfold push_variable. cbn. by rewrite fmap_app, app_assoc.
    + apply indexes_push; [done|]. by intros id (b & ? & _).
    + apply indexes_insert; [done|by exists i|]. by intros id' (b' & [= <-] & <-).
Qed.
Lemma translated_variables problem needs t :
  existsb is_interval (variables problem) = false →
  translate_variable_domains_validated problem needs = Ok t → variables_translated needs (variables problem) t.
Proof.
  intros Hno. unfold translate_variable_domains_validated. rewrite result_bind_Ok. intros (n & _ & Hf).
  revert Hf Hno. apply (result_fold_m_inv translate_variable
    (λ vs t, existsb is_interval vs = false → variables_translated needs vs t)) with (done_ := []).
  - intros t0 v t1 done_ H0 Hv Hd. rewrite existsb_app in Hd. apply orb_false_iff in Hd as [Hd Hv'].
    cbn in Hv'. rewrite orb_false_r in Hv'. by eapply translate_variable_translated; [apply H0| |].
  - intros _. split; [by destruct needs|..]; (split; [done|]); by intros id v ?%elem_of_nil.
Qed.

(** ** Assignments *)
Definition scalar_of (β : string → bool) (σ : string → Z) (v : Variable_) : Z :=
  match v with VBoolean b => Z.b2z (β (bv_id b)) | VInteger i => σ (iv_id i) | VInterval _ => 0 end.
Definition constant_values (needs : bool) : list Z := if needs then [1] else [].
(** The native solution that stands for a planning assignment. *)
Definition native_values (problem : PlanningProblem) (β : string → bool) (σ : string → Z) : list Z :=
  constant_values (needs_constant_one problem) ++ (scalar_of β σ <$> variables problem).

(** What the constraint translation relies on: the index maps point at the assigned values. *)
Record represents (x : list Z) (β : string → bool) (σ : string → Z) (needs : bool)
    (bools ints : gmap string Z) : Prop := {
  rp_boolean id i : bools !! id = Some i → 0 ≤ i ∧ variable_value x i = Z.b2z (β id);
  rp_integer id i : ints !! id = Some i → (if needs then 0 < i else 0 ≤ i) ∧ variable_value x i = σ id;
  rp_one : needs = true → variable_value x 0 = 1
}.
Lemma native_lookup needs vs β σ k v :
  vs !! k = Some v →
  variable_value (constant_values needs ++ (scalar_of β σ <$> vs))
    (Z.of_nat (length (constant_variables needs) + k)) = scalar_of β σ v.
Proof.
  intros Hk. unfold variable_value. rewrite Nat2Z.id, lookup_app_r by (destruct needs; cbn; lia).
  replace (length (constant_variables needs) + k - length (constant_values needs))%nat with k
    by (destruct needs; cbn; lia).
  by rewrite list_lookup_fmap, Hk.
Qed.
Lemma native_represents problem t β σ :
  let needs := needs_constant_one problem in
  variables_translated needs (variables problem) t →
  represents (native_values problem β σ) β σ needs (vt_boolean_indices t) (vt_integer_indices t).
Proof.
  intros needs [_ [Hb _] [Hi _]]. split.
  - intros id i (k & v & Hk & (b & -> & <-) & ->)%Hb. split; [lia|]. unfold native_values. by rewrite (native_lookup _ _ _ _ k _ Hk).
  - intros id i (k & v & Hk & (b & -> & <-) & ->)%Hi. split; [unfold constant_variables; destruct needs; cbn; lia|].
    unfold native_values. by rewrite (native_lookup _ _ _ _ k _ Hk).
  - intros Hn. unfold native_values. fold needs. by rewrite Hn.
Qed.

Section meaning.
Context (problem : PlanningProblem) (x : list Z) (β : string → bool) (σ : string → Z) (needs : bool).
Context (bools ints : gmap string Z) (Hrep : represents x β σ needs bools ints).

(** *** Literals *)
Notation truth := (λ l, bool_decide (lit_true β l)).
Lemma truth_eqb l : truth l = Bool.eqb (β (lit_variable l)) (lit_positive l).
Proof using.
  apply eq_true_iff_eq. rewrite bool_decide_eq_true, eqb_true_iff. done.
Qed.
Lemma translate_literal_holds l n :
  translate_literal bools l = Ok n →
  literal_holds x n = truth l ∧ literal_holds x (bitwise_not n) = negb (truth l).
Proof using Hrep.
  unfold translate_literal. rewrite result_bind_Ok. intros (i & Hi%ok_or_Ok & [= <-]).
  destruct (rp_boolean _ _ _ _ _ _ Hrep _ _ Hi) as [Hpos Hv].
  rewrite truth_eqb. unfold literal_holds, bitwise_not.
  destruct (lit_positive l), (β (lit_variable l)); cbn in Hv;
    repeat (match goal with |- context [?a <? ?b] => destruct (Z.ltb_spec a b); [try lia|try lia] end);
    replace (- (- i - 1) - 1) with i by lia; rewrite Hv; done.
Qed.
Lemma translate_literals_holds ls ns :
  translate_literals ls bools = Ok ns → literal_holds x <$> ns = (λ l, truth l) <$> ls.
Proof using Hrep.
  intros Hf. apply (result_fold_m_inv _ (λ ls ns, literal_holds x <$> ns = (λ l, truth l) <$> ls)) with (done_ := []) in Hf;
    [done| |done].
  intros ns0 l ns1 done_ Hd. rewrite result_bind_Ok. intros (n & Hn & [= <-]).
  rewrite !fmap_app, Hd. cbn. by rewrite (proj1 (translate_literal_holds l n Hn)).
Qed.
Lemma existsb_fmap {A} (f : A → bool) l : existsb f l = existsb id (f <$> l).
Proof using. induction l as [|a l IH]; [done|]. cbn. by rewrite IH. Qed.
Lemma forallb_fmap {A} (f : A → bool) l : forallb f l = forallb id (f <$> l).
Proof using. induction l as [|a l IH]; [done|]. cbn. by rewrite IH. Qed.
Lemma count_fmap {A} (f : A → bool) l : len (filter (λ a, f a = true) l) = len (filter (λ b, b = true) (f <$> l)).
Proof using.
  induction l as [|a l IH]; [done|]. rewrite fmap_cons.
  destruct (f a) eqn:Ha; [rewrite !filter_cons_True by done|rewrite !filter_cons_False by (rewrite ?Ha; done)];
    [|done]. unfold len in *; cbn [length]; lia.
Qed.
Lemma all_literals_hold ls ns :
  translate_literals ls bools = Ok ns → forallb (literal_holds x) ns = true ↔ Forall (lit_true β) ls.
Proof using Hrep.
  intros Hn%translate_literals_holds. rewrite forallb_fmap, Hn, <-forallb_fmap, forallb_forall, Forall_forall.
  split; intros H l Hl.
  - apply list_elem_of_In, H, bool_decide_eq_true in Hl. done.
  - apply bool_decide_eq_true, H, list_elem_of_In. done.
Qed.
Lemma some_literal_holds ls ns :
  translate_literals ls bools = Ok ns → existsb (literal_holds x) ns = true ↔ Exists (lit_true β) ls.
Proof using Hrep.
  intros Hn%translate_literals_holds. rewrite existsb_fmap, Hn, <-existsb_fmap, existsb_exists, Exists_exists.
  setoid_rewrite <-list_elem_of_In. by setoid_rewrite bool_decide_eq_true.
Qed.
Lemma holding_trues ls ns :
  translate_literals ls bools = Ok ns → holding x ns = Z.of_nat (trues β ls).
Proof using Hrep.
  intros Hn%translate_literals_holds. unfold holding. rewrite count_fmap, Hn, <-count_fmap. unfold len, trues.
  f_equal. f_equal. apply list_filter_iff. intros l. apply bool_decide_eq_true.
Qed.

(** *** Cardinality *)
Lemma nonnegative_reference i : 0 ≤ i → reference_value x i = variable_value x i.
Proof using. intros Hi. unfold reference_value. by rewrite (proj2 (Z.ltb_ge i 0)). Qed.
Lemma trues_snoc ls l : Z.of_nat (trues β (ls ++ [l])) = Z.of_nat (trues β ls) + Z.b2z (truth l).
Proof using.
  unfold trues. rewrite filter_app, length_app, filter_cons, filter_nil.
  destruct (decide (lit_true β l)) as [H|H]; [rewrite bool_decide_true by done|rewrite bool_decide_false by done]; cbn; lia.
Qed.
Lemma counted_literals ls m n :
  fold_m (count_literal bools) (∅, 0) ls = Ok (m, n) → map_sum x m = Z.of_nat (trues β ls) - n.
Proof using Hrep.
  intros Hf. apply (result_fold_m_inv _ (λ ls st, map_sum x st.1 = Z.of_nat (trues β ls) - st.2)) with (done_ := []) in Hf;
    [done| |done].
  intros [m0 n0] l [m1 n1] done_ Hd. unfold count_literal. rewrite result_bind_Ok. intros (i & Hi%ok_or_Ok & Hl).
  destruct (rp_boolean _ _ _ _ _ _ Hrep _ _ Hi) as [Hpos Hv].
  apply result_bind_Ok in Hl as ([c n2] & Hc & [= <- <-]). cbn [fst snd] in *.
  rewrite map_sum_add, Hd, trues_snoc, nonnegative_reference, Hv, truth_eqb by done.
  destruct (lit_positive l).
  - injection Hc as <- <-. destruct (β (lit_variable l)); cbn; lia.
  - apply result_bind_Ok in Hc as (n3 & Hn%ok_or_Ok & [= <- <-]). apply checked_u64_Some in Hn as [-> _].
    destruct (β (lit_variable l)); cbn; lia.
Qed.
Lemma checked_difference a n z : i64_try_from_u64 a ≫= (λ a, i64_checked_sub a n) = Some z → z = a - n.
Proof using.
  unfold i64_try_from_u64, i64_checked_sub. destruct (checked_i64 a) as [b|] eqn:Ha; [|done].
  apply checked_i64_Some in Ha as [-> _]. cbn. by intros [-> _]%checked_i64_Some.
Qed.
(** A generated constraint: not yet enforced, with the meaning [P]. *)
Definition native_means (c : ConstraintProto) (P : Prop) : Prop :=
  cp_enforcement_literal c = [] ∧ (constraint_satisfied x c = true ↔ P).
Lemma cardinality_means ls min max c :
  cardinality_constraint ls min max bools = Ok c →
  native_means c (min ≤ Z.of_nat (trues β ls) ≤ max).
Proof using Hrep.
  unfold cardinality_constraint. rewrite result_bind_Ok. intros ([m n] & Hf & Hc).
  apply result_bind_Ok in Hc as (o & Ho%ok_or_Ok & Hc). apply checked_i64_Some in Ho as [-> _].
  apply result_bind_Ok in Hc as (lo & Hlo%ok_or_Ok%checked_difference & Hc).
  apply result_bind_Ok in Hc as (hi & Hhi%ok_or_Ok%checked_difference & [= <-]). subst lo hi.
  split; [done|]. cbn [constraint_satisfied cp_enforcement_literal native_constraint forallb negb orb cp_constraint form_holds lp_domain lp_vars lp_coeffs].
  unfold constraint_satisfied. cbn [cp_enforcement_literal native_constraint forallb negb orb cp_constraint form_holds lp_domain lp_vars lp_coeffs in_flat_domain].
  rewrite linear_sum_pairs, zip_unzip, btree_entries_sum, map_sum_nonzero, (counted_literals _ _ _ Hf).
  rewrite orb_false_r, andb_true_iff, !Z.leb_le. lia.
Qed.

(** *** Linear comparisons *)
Lemma linear_sum_single i c : linear_sum x [i] [c] = reference_value x i * c.
Proof using. unfold linear_sum. cbn [zip_with foldr]. lia. Qed.
Lemma pushed_terms terms : ∀ st vars coeffs,
  length st.1 = length st.2 → fold_m (push_linear_term ints) st terms = Ok (vars, coeffs) →
  linear_sum x vars coeffs = linear_sum x st.1 st.2 + terms_value σ terms.
Proof using Hrep.
  induction terms as [|t terms IH]; intros [vs cs] vars coeffs Hl; cbn [fold_m].
  { intros [= <- <-]. change (terms_value σ []) with 0. cbn [fst snd]. lia. }
  rewrite result_bind_Ok. intros (st & Hst & Hf). unfold push_linear_term in Hst.
  apply result_bind_Ok in Hst as (i & Hi%ok_or_Ok & [= <-]). cbn [fst snd] in *.
  destruct (rp_integer _ _ _ _ _ _ Hrep _ _ Hi) as [Hpos Hv].
  apply IH in Hf; [|cbn [fst snd]; rewrite !length_app; cbn; lia]. rewrite Hf. cbn [fst snd].
  rewrite !linear_sum_pairs, zip_with_app, pairs_sum_app by done. rewrite terms_value_cons.
  unfold pairs_sum at 2, term_value. cbn. rewrite nonnegative_reference, Hv by (destruct needs; lia). lia.
Qed.
Lemma comparison_in_domain op rhs v :
  is_i64 v → in_flat_domain (comparison_domain op rhs) v = true ↔ op_holds op v rhs.
Proof using. unfold is_i64. destruct op; cbn; rewrite orb_false_r, andb_true_iff, !Z.leb_le; lia. Qed.
Lemma linear_comparison_means cmp variables c :
  (le_constant (lc_expression cmp) ≠ 0 → needs = true) → is_i64 (expression_value σ (lc_expression cmp)) →
  linear_comparison_constraint cmp ints variables 0 = Ok c → native_means c (comparison_holds σ cmp).
Proof using Hrep.
  intros Hneeds Hi64. unfold linear_comparison_constraint. rewrite result_bind_Ok. intros ([vs cs] & Hf & Hc).
  apply result_bind_Ok in Hc as ([] & _ & [= <-]). split; [done|].
  unfold constraint_satisfied. cbn [cp_enforcement_literal native_constraint forallb negb orb cp_constraint form_holds lp_domain lp_vars lp_coeffs].
  assert (linear_sum x vs cs = expression_value σ (lc_expression cmp)) as ->.
  { apply pushed_terms in Hf; [|by destruct (negb _)]. rewrite Hf. unfold expression_value. f_equal.
    destruct (Z.eqb_spec (le_constant (lc_expression cmp)) 0) as [->|Hne]; [done|].
    cbn [negb fst snd]. rewrite linear_sum_single, nonnegative_reference, (rp_one _ _ _ _ _ _ Hrep) by first [lia|by apply Hneeds]. lia. }
  by apply comparison_in_domain.
Qed.

(** *** Absolute differences *)
Lemma difference_value i j u v :
  0 ≤ i → 0 ≤ j → variable_value x i = u → variable_value x j = v →
  linear_expression_value x (difference_expression i j) = u - v.
Proof using.
  intros Hi Hj Hu Hv. unfold difference_expression. destruct (Z.eqb_spec i j) as [->|].
  - unfold linear_expression_value, linear_sum. cbn [lx_vars lx_coeffs lx_offset zip_with foldr]. lia.
  - unfold linear_expression_value, linear_sum. cbn [lx_vars lx_coeffs lx_offset zip_with foldr]. rewrite !nonnegative_reference, Hu, Hv by done. lia.
Qed.
Lemma abs_difference_means target l r variables c :
  abs_difference_constraint target l r ints variables = Ok c →
  native_means c (σ target = Z.abs (σ l - σ r)).
Proof using Hrep.
  unfold abs_difference_constraint. rewrite result_bind_Ok. intros (ti & Hti%ok_or_Ok & Hc).
  apply result_bind_Ok in Hc as (li & Hli%ok_or_Ok & Hc). apply result_bind_Ok in Hc as (ri & Hri%ok_or_Ok & Hc).
  apply result_bind_Ok in Hc as ([] & _ & Hc). apply result_bind_Ok in Hc as ([] & _ & [= <-]).
  destruct (rp_integer _ _ _ _ _ _ Hrep _ _ Hti) as [Ht Htv], (rp_integer _ _ _ _ _ _ Hrep _ _ Hli) as [Hl Hlv],
    (rp_integer _ _ _ _ _ _ Hrep _ _ Hri) as [Hr Hrv].
  assert (0 ≤ ti ∧ 0 ≤ li ∧ 0 ≤ ri) as (Ht0 & Hl0 & Hr0) by (destruct needs; lia).
  split; [done|]. unfold constraint_satisfied. cbn [cp_enforcement_literal native_constraint forallb negb orb cp_constraint form_holds la_target la_exprs fmap list_fmap].
  rewrite (difference_value li ri (σ l) (σ r)), (difference_value ri li (σ r) (σ l)) by done.
  assert (linear_expression_value x {| lx_vars := [ti]; lx_coeffs := [1]; lx_offset := 0 |} = σ target) as ->.
  { unfold linear_expression_value. cbn [lx_vars lx_coeffs lx_offset]. rewrite linear_sum_single, nonnegative_reference, Htv by done. lia. }
  rewrite andb_true_r, !andb_true_iff, bool_decide_eq_true, !Z.leb_le, !elem_of_cons, elem_of_nil. lia.
Qed.

(** *** Constraint records *)
Definition add_constraints (cs : list ConstraintProto) (model : CpModelProto) : CpModelProto :=
  {| cm_variables := cm_variables model; cm_constraints := cm_constraints model ++ cs;
     cm_objective := cm_objective model; cm_assumptions := cm_assumptions model |}.
(** The constraints a step has pushed, and what they mean together. *)
Definition pushed (model model' : CpModelProto) (P : Prop) : Prop :=
  ∃ cs, model' = add_constraints cs model ∧ (forallb (constraint_satisfied x) cs = true ↔ P).
Definition pushed_free (model model' : CpModelProto) (P : Prop) : Prop :=
  ∃ cs, model' = add_constraints cs model ∧ Forall (λ c, cp_enforcement_literal c = []) cs ∧
    (forallb (constraint_satisfied x) cs = true ↔ P).
Lemma pushed_one c P Q model : native_means c P → P ↔ Q → pushed_free model (push_constraint c model) Q.
Proof using.
  intros [Hc Hsat] HPQ. exists [c]. split_and!; [done|by apply Forall_singleton|]. cbn. by rewrite andb_true_r, Hsat.
Qed.
Lemma pushed_two c d P Q R model :
  native_means c P → native_means d Q → (P ∧ Q) ↔ R →
  pushed_free model (push_constraint d (push_constraint c model)) R.
Proof using.
  intros [Hc Hcs] [Hd Hds] HR. exists [c; d]. split_and!.
  - unfold push_constraint, add_constraints. cbn. by rewrite <-app_assoc.
  - by do 2 (apply Forall_cons_2; [done|]).
  - cbn. by rewrite andb_true_r, andb_true_iff, Hcs, Hds.
Qed.
Lemma bool_constraint_means make ls b P :
  form_holds x (make {| ba_literals := ls |}) = b → b = true ↔ P → native_means (boolean_constraint make ls) P.
Proof using. intros <- HP. by split. Qed.
Lemma clause_means l r m n :
  literal_holds x m = l → literal_holds x n = r → native_means (boolean_constraint CpBoolOr [m; n]) (l = true ∨ r = true).
Proof using.
  intros Hm Hn. eapply bool_constraint_means; [done|]. cbn. by rewrite Hm, Hn, orb_false_r, orb_true_iff.
Qed.
Lemma expression_value_i64 e :
  respects (int_domains problem) σ → expression_wf (int_domains problem) e → is_i64 (expression_value σ e).
Proof using.
  intros Hσ [Hc _ (lo & hi & Hb)]. pose proof (tb_prefixes _ _ _ _ _ Hb σ (length (le_terms e)) Hσ Hc) as H.
  by rewrite take_ge in H.
Qed.
Lemma implication_means antecedent consequent l r model :
  translate_literal bools antecedent = Ok l → translate_literal bools consequent = Ok r →
  pushed_free model (push_constraint (boolean_constraint CpBoolOr [bitwise_not l; r]) model)
    (lit_true β antecedent → lit_true β consequent).
Proof using Hrep.
  intros Hl%translate_literal_holds Hr%translate_literal_holds. destruct Hl as [_ Hl], Hr as [Hr _].
  eapply pushed_one; [by apply clause_means|]. rewrite negb_true_iff, bool_decide_eq_false, bool_decide_eq_true.
  destruct (decide (lit_true β antecedent)); tauto.
Qed.
Lemma equivalence_means left_ right_ l r model :
  translate_literal bools left_ = Ok l → translate_literal bools right_ = Ok r →
  pushed_free model
    (push_constraint (boolean_constraint CpBoolOr [l; bitwise_not r])
       (push_constraint (boolean_constraint CpBoolOr [bitwise_not l; r]) model))
    (lit_true β left_ ↔ lit_true β right_).
Proof using Hrep.
  intros Hl%translate_literal_holds Hr%translate_literal_holds. destruct Hl as [Hl Hl'], Hr as [Hr Hr'].
  eapply pushed_two; [by apply clause_means..|]. rewrite !negb_true_iff, !bool_decide_eq_false, !bool_decide_eq_true.
  destruct (decide (lit_true β left_)), (decide (lit_true β right_)); tauto.
Qed.
Lemma literals_means make ls ns P model :
  translate_literals ls bools = Ok ns → (form_holds x (make {| ba_literals := ns |}) = true ↔ P) →
  pushed_free model (push_constraint (boolean_constraint make ns) model) P.
Proof using. intros _ HP. by eapply pushed_one; [by eapply bool_constraint_means|]. Qed.
Lemma cardinality_pushed ls min max c P model :
  cardinality_constraint ls min max bools = Ok c → (min ≤ Z.of_nat (trues β ls) ≤ max ↔ P) →
  pushed_free model (push_constraint c model) P.
Proof using Hrep. intros Hc HP. eapply pushed_one; [by eapply cardinality_means|done]. Qed.

(** A comparison with a constant asks for the constant variable. *)
Definition constant_available (body : Constraint_) : Prop :=
  match body with LinearComparison_ cmp => le_constant (lc_expression cmp) ≠ 0 → needs = true | _ => True end.
Lemma body_means body enforced model model' :
  respects (int_domains problem) σ →
  constraint_wf (bool_ids problem) (int_domains problem) (dom (interval_values problem)) body →
  constant_available body →
  translate_constraint_body body enforced bools ints 0 model = Ok model' →
  pushed_free model model' (constraint_holds problem β σ body).
Proof using Hrep.
  intros Hσ Hwf Hone Hb. destruct body; cbn [translate_constraint_body] in Hb; try done;
    rewrite ?result_bind_Ok in Hb.
  - destruct Hb as (ns & Hn & [= <-]). eapply literals_means; [done|]. by apply some_literal_holds.
  - destruct Hb as (ns & Hn & [= <-]). eapply literals_means; [done|]. by apply all_literals_hold.
  - destruct Hb as (m & Hm & Hb). apply result_bind_Ok in Hb as (n & Hn & [= <-]). by apply implication_means.
  - destruct Hb as (m & Hm & Hb). apply result_bind_Ok in Hb as (n & Hn & [= <-]). by apply equivalence_means.
  - destruct enforced; apply result_bind_Ok in Hb as (c & Hc & [= <-]).
    + eapply cardinality_pushed; [done|]. cbn. lia.
    + eapply literals_means; [done|]. cbn. rewrite (holding_trues _ _ Hc), Z.leb_le. lia.
  - destruct enforced; apply result_bind_Ok in Hb as (c & Hc & [= <-]).
    + eapply cardinality_pushed; [done|]. cbn. lia.
    + eapply literals_means; [done|]. cbn. rewrite (holding_trues _ _ Hc), Z.eqb_eq. lia.
  - destruct Hb as (c & Hc & [= <-]). by eapply cardinality_pushed.
  - destruct Hb as (c & Hc & [= <-]). eapply pushed_one; [|done].
    eapply linear_comparison_means; [done| |done]. by apply expression_value_i64.
  - destruct Hb as (c & Hc & [= <-]). eapply pushed_one; [|done]. by eapply abs_difference_means.
Qed.

Lemma enforced_satisfied enforcement cs :
  Forall (λ c, cp_enforcement_literal c = []) cs →
  forallb (constraint_satisfied x) (with_enforcement enforcement <$> cs) = true ↔
  (forallb (literal_holds x) enforcement = true → forallb (constraint_satisfied x) cs = true).
Proof using.
  induction 1 as [|c cs Hc _ IH]; [done|]. cbn [fmap list_fmap forallb]. rewrite !andb_true_iff, IH.
  unfold constraint_satisfied at 1 3. rewrite Hc. cbn. destruct (forallb (literal_holds x) enforcement); cbn; [tauto|].
  by repeat split.
Qed.
Lemma enforce_added model cs enforcement :
  enforce_from (length (cm_constraints model)) enforcement (add_constraints cs model) =
  add_constraints (with_enforcement enforcement <$> cs) model.
Proof using. unfold enforce_from, add_constraints. cbn. by rewrite take_app_length, drop_app_length. Qed.
Lemma record_means r st st' :
  respects (int_domains problem) σ → record_wf problem r → constant_available (cr_body r) →
  translate_record bools ints 0 st r = Ok st' → pushed st.1 st'.1 (record_holds problem β σ r).
Proof using Hrep.
  destruct st as [model indices]. intros Hσ Hwf Hone. unfold translate_record. rewrite result_bind_Ok.
  intros (enf & Henf & Hr). apply result_bind_Ok in Hr as (model' & Hb & Hr).
  apply result_bind_Ok in Hr as (range & _ & [= <-]).
  apply body_means in Hb as (cs & -> & Hfree & Hcs); [|done|by apply Hwf|done].
  exists (with_enforcement enf <$> cs). cbn [fst]. rewrite enforce_added. split; [done|].
  by rewrite (enforced_satisfied _ _ Hfree), (all_literals_hold _ _ Henf), Hcs.
Qed.
Lemma constraints_mean rs : ∀ st st',
  respects (int_domains problem) σ → Forall (record_wf problem) rs →
  Forall (λ r, constant_available (cr_body r)) rs →
  fold_m (translate_record bools ints 0) st rs = Ok st' →
  pushed st.1 st'.1 (Forall (record_holds problem β σ) rs).
Proof using Hrep.
  intros st st' Hσ Hwf Hone. revert st. induction Hwf as [|r rs Hr _ IH]; intros st; cbn [fold_m].
  { intros [= <-]. exists []. split; [|by split]. destruct st as [[] ?]. unfold add_constraints. cbn. by rewrite app_nil_r. }
  apply Forall_cons_1 in Hone as [Hone1 Hone]. rewrite result_bind_Ok. intros (st1 & Hr1 & Hrs).
  apply record_means in Hr1 as (cs & Hm & Hcs); [|done..]. apply (IH Hone) in Hrs as (ds & Hm' & Hds).
  exists (cs ++ ds). rewrite Hm', Hm. split.
  - unfold add_constraints. cbn. by rewrite app_assoc.
  - by rewrite forallb_app, andb_true_iff, Hcs, Hds, Forall_cons.
Qed.

(** *** Assumptions *)
Lemma assumptions_mean m0 model by_literal :
  translate_assumptions problem bools m0 = Ok (model, by_literal) →
  ∃ ls, model = {| cm_variables := cm_variables m0; cm_constraints := cm_constraints m0;
                   cm_objective := cm_objective m0; cm_assumptions := cm_assumptions m0 ++ ls |} ∧
    (forallb (literal_holds x) ls = true ↔ Forall (λ a, lit_true β (as_literal a)) (assumptions problem)).
Proof using Hrep.
  intros Hf. apply (result_fold_m_inv _ (λ done_ st, ∃ ls,
     st.1 = {| cm_variables := cm_variables m0; cm_constraints := cm_constraints m0;
               cm_objective := cm_objective m0; cm_assumptions := cm_assumptions m0 ++ ls |} ∧
     (forallb (literal_holds x) ls = true ↔ Forall (λ a, lit_true β (as_literal a)) done_))) with (done_ := []) in Hf.
  - exact Hf.
  - intros [m1 b1] a [m2 b2] done_ (ls & Hm & Hls). cbn [fst] in *. rewrite result_bind_Ok. intros (n & Hn & [= <- <-]).
    exists (ls ++ [n]). split; [by rewrite Hm; unfold push_assumption; cbn; rewrite app_assoc|].
    rewrite forallb_app, andb_true_iff, Hls, Forall_app, Forall_singleton. cbn.
    by rewrite andb_true_r, (proj1 (translate_literal_holds _ _ Hn)), bool_decide_eq_true.
  - exists []. cbn. rewrite app_nil_r. destruct m0. by repeat split.
Qed.

(** *** Objective *)
(** The terms and the constant collected so far: together they are worth [v]; the constant's own index is
    still free, and without that index there is no constant. *)
Record collected (st : gmap Z Z * Z) (v : Z) : Prop := {
  cl_value : map_sum x st.1 + st.2 = v;
  cl_free : needs = true → st.1 !! 0 = None;
  cl_constant : needs = false → st.2 = 0
}.
Lemma objective_terms_value weight ts : ∀ m m' constant v,
  collected (m, constant) v → fold_m (add_objective_term ints weight) m ts = Ok m' →
  collected (m', constant) (v + weight * terms_value σ ts).
Proof using Hrep.
  induction ts as [|t ts IH]; intros m m' constant v Hc; cbn [fold_m].
  { intros [= <-]. change (terms_value σ []) with 0. by rewrite Z.mul_0_r, Z.add_0_r. }
  rewrite result_bind_Ok. intros (m1 & Ht & Hf). unfold add_objective_term in Ht.
  apply result_bind_Ok in Ht as (i & Hi%ok_or_Ok & Ht). apply result_bind_Ok in Ht as (k & Hk%ok_or_Ok & Ht).
  apply result_bind_Ok in Ht as (c & Hc'%ok_or_Ok & [= <-]).
  unfold checked_i128 in Hk, Hc'. destruct (_ && _) in Hk; [|done]. injection Hk as <-.
  destruct (_ && _) in Hc'; [|done]. injection Hc' as <-.
  destruct (rp_integer _ _ _ _ _ _ Hrep _ _ Hi) as [Hpos Hv].
  rewrite terms_value_cons, Z.mul_add_distr_l, Z.add_assoc. eapply IH, Hf. destruct Hc as [H1 H2 H3]. cbn [fst snd] in *.
  split; cbn [fst snd].
  - rewrite map_sum_add, nonnegative_reference, Hv by (destruct needs; lia). unfold term_value. lia.
  - intros Hn. rewrite Hn in Hpos. rewrite lookup_insert_ne by lia. by apply H2.
  - done.
Qed.
Definition objective_constants (ts : list ObjectiveTerm) : Prop :=
  Forall (λ t, le_constant (ot_expression t) ≠ 0 → needs = true) ts.
Lemma objective_expressions_value weight ts : ∀ st st' v,
  objective_constants ts → collected st v →
  fold_m (add_objective_expression ints weight) st ts = Ok st' →
  collected st' (v + weight * foldr Z.add 0 ((λ t, expression_value σ (ot_expression t)) <$> ts)).
Proof using Hrep.
  intros st st' v Hone. revert st v. induction Hone as [|t ts Ht _ IH]; intros [m constant] v Hc; cbn [fold_m].
  { intros [= <-]. cbn. by rewrite Z.mul_0_r, Z.add_0_r. }
  rewrite result_bind_Ok. intros (st1 & Hst & Hf). unfold add_objective_expression in Hst.
  apply result_bind_Ok in Hst as (k & Hk%ok_or_Ok & Hst). apply result_bind_Ok in Hst as (c & Hc'%ok_or_Ok & Hst).
  apply result_bind_Ok in Hst as (m1 & Hm & [= <-]).
  unfold checked_i128 in Hk, Hc'. destruct (_ && _) in Hk; [|done]. injection Hk as <-.
  destruct (_ && _) in Hc'; [|done]. injection Hc' as <-. destruct Hc as [H1 H2 H3]. cbn [fst snd] in *.
  assert (collected (m, constant + le_constant (ot_expression t) * weight)
            (v + weight * le_constant (ot_expression t))) as Hc1.
  { split; cbn [fst snd]; [lia|done|]. intros Hn. rewrite H3 by done.
    destruct (decide (le_constant (ot_expression t) = 0)) as [->|Hne]; [done|]. apply Ht in Hne. congruence. }
  eapply objective_terms_value in Hm; [|exact Hc1]. apply (IH _ _ Hm) in Hf.
  cbn [fmap list_fmap foldr]. unfold expression_value at 1.
  rewrite !Z.mul_add_distr_l, !Z.add_assoc in *. done.
Qed.
Lemma objective_levels_value ls : ∀ weights st st' v,
  Forall (λ l, objective_constants (ol_terms l)) ls → collected st v →
  fold_m (add_objective_level ints) st (zip ls weights) = Ok st' →
  collected st' (v + scalar_value ls weights (level_value σ <$> ls)).
Proof using Hrep.
  intros weights st st' v Hone. revert weights st v.
  induction Hone as [|l ls Hl _ IH]; intros [|w weights] st v Hc; cbn [zip zip_with fold_m].
  1-3: intros [= <-]; cbn; by rewrite Z.add_0_r.
  rewrite result_bind_Ok. intros (st1 & Hst & Hf). unfold add_objective_level in Hst. cbn [fst snd] in Hst.
  eapply objective_expressions_value in Hst; [|done..]. apply (IH _ _ _ Hst) in Hf.
  cbn [fmap list_fmap scalar_value]. rewrite Z.add_assoc.
  replace (w * signed (ol_direction l) (level_value σ l)) with (signed_weight l w * level_value σ l); [done|].
  unfold signed_weight, signed. destruct (ol_direction l); lia.
Qed.
Lemma coefficients_entries (entries : list (Z * Z)) (st : list Z * list Z) vars coeffs :
  fold_m (λ st entry, c ← ok_or NativeIntegerOverflow (checked_i64 entry.2);
                      Ok (st.1 ++ [entry.1], st.2 ++ [c])) st entries = Ok (vars, coeffs) →
  vars = st.1 ++ entries.*1 ∧ coeffs = st.2 ++ entries.*2.
Proof using.
  revert st. induction entries as [|e entries IH]; intros [vs cs]; cbn [fold_m].
  { intros [= <- <-]. cbn. by rewrite !app_nil_r. }
  rewrite result_bind_Ok. intros (st1 & Hst & Hf). apply result_bind_Ok in Hst as (c & Hc%ok_or_Ok & [= <-]).
  apply checked_i64_Some in Hc as [-> _]. apply IH in Hf as [-> ->]. cbn. by rewrite <-!app_assoc.
Qed.
Lemma objective_means weights model model' :
  Forall (λ l, objective_constants (ol_terms l)) (op_levels (objectives problem)) → cm_objective model = None →
  translate_objective problem weights ints 0 model = Ok model' →
  cm_variables model' = cm_variables model ∧ cm_constraints model' = cm_constraints model ∧
  cm_assumptions model' = cm_assumptions model ∧
  let ls := op_levels (objectives problem) in
  objective_sum model' x = scalar_value ls weights (level_value σ <$> ls).
Proof using Hrep.
  intros Hone Hnone. unfold translate_objective.
  destruct (bool_decide_reflect (op_levels (objectives problem) = [])) as [->|_].
  { intros [= <-]. split_and!; [done..|]. unfold objective_sum. by rewrite Hnone. }
  rewrite result_bind_Ok. intros ([m constant] & Hf & Hm). apply result_bind_Ok in Hm as ([vs cs] & Hv & Hm).
  apply result_bind_Ok in Hm as ([] & _ & [= <-]). split_and!; [done..|]. cbn zeta.
  apply (objective_levels_value _ _ _ _ 0) in Hf as [Hsum Hfree Hconst]; [|done|by split].
  unfold i64_coefficients in Hv. apply coefficients_entries in Hv as [-> ->]. cbn [fst snd app] in *.
  unfold objective_sum. cbn [cm_objective with_objective co_vars co_coeffs].
  rewrite Z.add_0_l in Hsum. rewrite linear_sum_pairs, zip_unzip, btree_entries_sum, map_sum_nonzero, <-Hsum.
  destruct (Z.eqb_spec constant 0) as [->|Hne]; cbn [negb]; [lia|].
  destruct needs; [|by specialize (Hconst eq_refl)].
  rewrite map_sum_fresh, nonnegative_reference, (rp_one _ _ _ _ _ _ Hrep) by (done || auto). lia.
Qed.
End meaning.
