(* ===== verification/TranslationExact.v ===== *)
(** * Native solutions are feasible assignments

    The solutions of the translated model and the planning assignments that meet every domain, constraint
    and assumption correspond one to one; the native objective is the scalarized lexicographic objective,
    so the native optima are the lexicographically best feasible assignments. *)
From stdpp Require Import base tactics list gmap strings.
From Stdlib Require Import ZArith Lia Sorted.
From S2P Require Import Prelude Ordering Protocol Control Budget Ids DomainIr Model Analysis Erasure.
From S2P Require Import Validation ValidationAgreement Bounds Scoping Provenance.
From S2P Require Import Lexicographic Admission Projection ProjectionFacts Evaluator EvaluatorFacts Translation TranslationFacts.
Open Scope Z_scope.

(** ** Declared integers *)
Lemma ints_declared l m id d :
  foldl add_int m l !! id = Some d → (∃ i, VInteger i ∈ l ∧ iv_id i = id ∧ iv_domain i = d) ∨ m !! id = Some d.
Proof.
  revert m. induction l as [|v l IH]; intros m; cbn; [by right|]. intros [(i & Hi & H)|H]%IH.
  { left. exists i. split; [by right|done]. }
  destruct v as [v|v|v]; cbn in H; [by right| |by right].
  apply lookup_insert_Some in H as [[<- <-]|[_ H]]; [|by right]. left. exists v. split; [by left|done].
Qed.
Lemma ints_untouched l m id : id ∉ canonical_id <$> l → foldl add_int m l !! id = m !! id.
Proof.
  revert m. induction l as [|v l IH]; intros m; [done|]. rewrite fmap_cons, not_elem_of_cons. intros [Hne Hl].
  cbn. rewrite IH by done. destruct v as [v|v|v]; cbn in *; [done| |done]. by rewrite lookup_insert_ne.
Qed.
Lemma ints_lookup l m i :
  NoDup (canonical_id <$> l) → VInteger i ∈ l → foldl add_int m l !! iv_id i = Some (iv_domain i).
Proof.
  revert m. induction l as [|v l IH]; intros m; [by intros _ ?%elem_of_nil|]. rewrite fmap_cons, NoDup_cons.
  intros [Hv Hnd] [<-|Hi]%elem_of_cons; cbn; [|by apply IH].
  rewrite ints_untouched by done. by rewrite lookup_insert_eq.
Qed.
Lemma canonical_unique l j k v w :
  NoDup (canonical_id <$> l) → l !! j = Some v → l !! k = Some w → canonical_id v = canonical_id w → j = k.
Proof.
  intros Hnd Hj Hk Heq. eapply NoDup_lookup; [exact Hnd| |].
  - by rewrite list_lookup_fmap, Hj.
  - rewrite list_lookup_fmap, Hk. cbn. by rewrite Heq.
Qed.

Section solutions.
Context (problem : PlanningProblem) (limits : PlanningIrLimitsV1) `{!Admissible problem limits}.
Context (Hno : existsb is_interval (variables problem) = false).
Notation needs := (needs_constant_one problem).

Lemma ids_unique : NoDup (canonical_id <$> variables problem).
Proof using Admissible0. apply strictly_sorted_by_NoDup, (adm_variables_sorted (problem := problem)). Qed.
Lemma not_interval v : v ∈ variables problem → is_interval v = false.
Proof using Hno.
  intros Hv. apply not_true_iff_false. intros Hi. apply not_true_iff_false in Hno. apply Hno, existsb_exists.
  exists v. split; [by apply list_elem_of_In|done].
Qed.
(** The constant and the variables, in the order of the native model. *)
Definition native_variables : list IntegerVariableProto :=
  constant_variables needs ++ (native_variable <$> variables problem).

Lemma in_native_domain β σ v :
  respects (int_domains problem) σ → v ∈ variables problem →
  in_flat_domain (native_domain v) (scalar_of β σ v) = true.
Proof using Hno Admissible0.
  intros Hσ Hv. pose proof (not_interval v Hv) as Hi. destruct v as [b|i|]; cbn; [by destruct (β _)| |done].
  rewrite flatten_domain_contains. apply Hσ. apply ints_lookup; [apply ids_unique|done].
Qed.
Lemma domains_respected_forall vs xs :
  domains_respected vs xs = true ↔ Forall2 (λ v y, in_flat_domain (ivp_domain v) y = true) vs xs.
Proof using.
  unfold domains_respected. rewrite andb_true_iff, bool_decide_eq_true. revert xs.
  induction vs as [|v vs IH]; intros [|y xs]; cbn.
  - split; [constructor|done].
  - split; [by intros [? _]|by inversion 1].
  - split; [by intros [? _]|by inversion 1].
  - rewrite andb_true_iff, Forall2_cons, <-IH. split; [intros (H1 & H2 & H3)|intros (H1 & H2 & H3)];
      split_and!; try done; lia.
Qed.
Lemma native_values_respected β σ :
  respects (int_domains problem) σ → domains_respected native_variables (native_values problem β σ) = true.
Proof using Hno Admissible0.
  intros Hσ. apply domains_respected_forall, Forall2_app.
  - unfold constant_variables, constant_values. destruct needs; by repeat constructor.
  - apply Forall2_fmap, Forall_Forall2_diag, Forall_forall. intros v Hv. by apply in_native_domain.
Qed.

(** The assignment a list of native values stands for. *)
Definition position (f : Variable_ → bool) : option nat := fst <$> list_find (λ v, f v = true) (variables problem).
Definition value_at (x : list Z) (f : Variable_ → bool) : Z :=
  match position f with
  | Some k => variable_value x (Z.of_nat (length (constant_variables needs) + k))
  | None => 0
  end.
Definition is_named (id : string) (v : Variable_) : bool := bool_decide (canonical_id v = id).
Definition booleans_of (x : list Z) (id : string) : bool := value_at x (is_named id) =? 1.
Definition integers_of (x : list Z) (id : string) : Z := value_at x (is_named id).
Lemma value_at_lookup x k v :
  variables problem !! k = Some v →
  value_at x (is_named (canonical_id v)) = variable_value x (Z.of_nat (length (constant_variables needs) + k)).
Proof using Admissible0.
  intros Hk. unfold value_at, position, is_named.
  destruct (list_find (λ w, bool_decide (canonical_id w = canonical_id v) = true) (variables problem)) as [[j w]|] eqn:Hf.
  - apply list_find_Some in Hf as (Hj & Hw%bool_decide_eq_true & _). cbn.
    by rewrite (canonical_unique _ _ _ _ _ ids_unique Hj Hk Hw).
  - apply list_find_None in Hf. rewrite Forall_forall in Hf. apply list_elem_of_lookup_2 in Hk.
    destruct (Hf v Hk). by apply bool_decide_eq_true.
Qed.
Lemma in_boolean_domain y : in_flat_domain BOOLEAN_DOMAIN y = true → Z.b2z (y =? 1) = y.
Proof using. cbn. rewrite orb_false_r, andb_true_iff, !Z.leb_le. intros. destruct (Z.eqb_spec y 1); cbn; lia. Qed.
Lemma native_scalars x : domains_respected native_variables x = true →
  ∀ k v, variables problem !! k = Some v →
    ∃ y, x !! (length (constant_variables needs) + k)%nat = Some y ∧
      in_flat_domain (native_domain v) y = true ∧ scalar_of (booleans_of x) (integers_of x) v = y.
Proof using Hno Admissible0.
  intros Hx%domains_respected_forall k v Hk.
  assert (native_variables !! (length (constant_variables needs) + k)%nat = Some (native_variable v)) as Hn.
  { unfold native_variables. rewrite lookup_app_r, list_lookup_fmap by lia.
    replace (_ + k - _)%nat with k by lia. by rewrite Hk. }
  destruct (Forall2_lookup_l _ _ _ _ _ Hx Hn) as (y & Hy & Hd). exists y. split_and!; [done..|].
  pose proof (value_at_lookup x k v Hk) as Hv. unfold variable_value in Hv. rewrite Nat2Z.id, Hy in Hv. cbn in Hv.
  pose proof (not_interval v (list_elem_of_lookup_2 _ _ _ Hk)) as Hi.
  destruct v as [b|i|]; [| |done]; cbn [scalar_of]; unfold booleans_of, integers_of;
    cbn [canonical_id] in Hv; rewrite Hv; [by apply in_boolean_domain|done].
Qed.
Lemma native_values_of x :
  domains_respected native_variables x = true → x = native_values problem (booleans_of x) (integers_of x).
Proof using Hno Admissible0.
  intros Hx. pose proof (native_scalars x Hx) as Hs. apply domains_respected_forall in Hx.
  unfold native_values, native_variables in *. apply Forall2_app_inv_l in Hx as (l1 & l2 & H1 & H2 & Heq).
  assert (l1 = constant_values needs) as Hl1.
  { unfold constant_variables, constant_values in *. destruct needs; [|by inversion H1].
    inversion H1 as [|? y ? ? Hy Hr]; subst. inversion Hr; subst. cbn in Hy. f_equal. lia. }
  assert (length (constant_variables needs) = length l1) as Hlen by by apply Forall2_length in H1.
  enough (l2 = scalar_of (booleans_of x) (integers_of x) <$> variables problem) as Hl2
    by (rewrite Heq at 1; by rewrite Hl1, Hl2).
  apply list_eq. intros k. rewrite list_lookup_fmap.
  destruct (variables problem !! k) as [v|] eqn:Hk.
  - destruct (Hs k v Hk) as (y & Hy & _ & Hsc). cbn. rewrite Hsc, <-Hy, Heq, Hlen, lookup_app_r by lia.
    f_equal. lia.
  - cbn. apply lookup_ge_None in Hk. apply lookup_ge_None. apply Forall2_length in H2. rewrite length_fmap in H2. lia.
Qed.
Lemma respects_of x : domains_respected native_variables x = true → respects (int_domains problem) (integers_of x).
Proof using Hno Admissible0.
  intros Hx id d Hd. apply ints_declared in Hd as [(i & Hi & <- & <-)|Hd]; [|done].
  apply list_elem_of_lookup in Hi as [k Hk]. destruct (native_scalars x Hx k _ Hk) as (y & _ & Hy & Hsc).
  cbn in Hsc, Hy. unfold in_domain. by rewrite <-flatten_domain_contains, Hsc.
Qed.
End solutions.

(** ** The translated model *)
(** Every domain, constraint and assumption of the problem is met. *)
Record feasible (problem : PlanningProblem) (β : string → bool) (σ : string → Z) : Prop := {
  fe_domains : respects (int_domains problem) σ;
  fe_constraints : Forall (record_holds problem β σ) (constraints problem);
  fe_assumptions : Forall (λ a, lit_true β (as_literal a)) (assumptions problem)
}.
(** The score of an assignment, level by level. *)
Definition score (problem : PlanningProblem) (σ : string → Z) : ScoreVector :=
  let ls := op_levels (objectives problem) in score_of ls (level_value σ <$> ls).

Lemma constants_available problem :
  Forall (λ r, constant_available (needs_constant_one problem) (cr_body r)) (constraints problem).
Proof.
  apply Forall_forall. intros r Hr. unfold constant_available. destruct (cr_body r) eqn:Hb; try done. intros Hne.
  unfold needs_constant_one. apply orb_true_iff. left. apply existsb_exists. exists r.
  split; [by apply list_elem_of_In|]. rewrite Hb. by apply negb_true_iff, Z.eqb_neq.
Qed.
Lemma objective_constants_available problem :
  Forall (λ l, objective_constants (needs_constant_one problem) (ol_terms l)) (op_levels (objectives problem)).
Proof.
  apply Forall_forall. intros l Hl. apply Forall_forall. intros t Ht Hne.
  unfold needs_constant_one. apply orb_true_iff. right. apply existsb_exists. exists l.
  split; [by apply list_elem_of_In|]. apply existsb_exists. exists t. split; [by apply list_elem_of_In|].
  by apply negb_true_iff, Z.eqb_neq.
Qed.

(** The stages of an accepted translation. *)
Record stages (problem : PlanningProblem) (weights : list Z) (t : VariableTranslation)
    (model : CpModelProto) (maps : TranslationMaps) : Prop := {
  sg_no_interval : existsb is_interval (variables problem) = false;
  sg_weights : lexicographic_strategy (objectives problem) = ExactScalarization weights;
  sg_variables : translate_variable_domains_validated problem (needs_constant_one problem) = Ok t;
  sg_rest : ∃ m1 m2 by_literal indices requests,
    translate_assumptions problem (vt_boolean_indices t) (vt_model t) = Ok (m1, by_literal) ∧
    translate_candidate_assignments (vt_boolean_indices t) (vt_integer_indices t) = Ok requests ∧
    translate_constraints problem (vt_boolean_indices t) (vt_integer_indices t) 0 m1 = Ok (m2, indices) ∧
    translate_objective problem weights (vt_integer_indices t) 0 m2 = Ok model ∧
    maps = retain_translation_maps problem weights (vt_boolean_indices t) (vt_integer_indices t) by_literal
             indices requests
}.
Lemma translate_model_stages blake3_hex problem limits model maps :
  translate_model blake3_hex problem limits = Ok (model, maps) →
  validate blake3_hex problem limits = Ok tt ∧ ∃ weights t, stages problem weights t model maps.
Proof.
  unfold translate_model. rewrite result_bind_Ok. intros ([] & Hv%map_err_Ok & Ht). split; [done|].
  destruct (existsb is_interval (variables problem)) eqn:Hno; [done|].
  apply result_bind_Ok in Ht as ([] & _ & Ht). apply result_bind_Ok in Ht as (weights & Hw & Ht).
  destruct (lexicographic_strategy (objectives problem)) as [ws|] eqn:Hs; [|done]. injection Hw as ->.
  apply result_bind_Ok in Ht as (t & Hvars & Ht). apply result_bind_Ok in Ht as ([m1 by_literal] & Ha & Ht).
  apply result_bind_Ok in Ht as (requests & Hreq & Ht). apply result_bind_Ok in Ht as ([m2 indices] & Hc & Ht).
  apply result_bind_Ok in Ht as (m3 & Ho & [= <- <-]).
  exists weights, t. split; [done..|]. by exists m1, m2, by_literal, indices, requests.
Qed.
Lemma stages_meaning problem limits weights t model maps β σ :
  Admissible problem limits → stages problem weights t model maps → respects (int_domains problem) σ →
  let x := native_values problem β σ in
  let ls := op_levels (objectives problem) in
  cm_variables model = native_variables problem ∧
  (forallb (constraint_satisfied x) (cm_constraints model) = true ↔
   Forall (record_holds problem β σ) (constraints problem)) ∧
  (forallb (literal_holds x) (cm_assumptions model) = true ↔
   Forall (λ a, lit_true β (as_literal a)) (assumptions problem)) ∧
  objective_sum model x = scalar_value ls weights (level_value σ <$> ls).
Proof.
  intros Hadm [Hno _ Hvars (m1 & m2 & by_literal & indices & requests & Ha & _ & Hc & Ho & _)] Hσ x ls.
  apply translated_variables in Hvars; [|done]. pose proof (native_represents _ _ β σ Hvars) as Hrep.
  destruct (assumptions_mean _ _ _ _ _ _ _ Hrep _ _ _ Ha) as (lits & -> & Hlits).
  unfold translate_constraints in Hc.
  apply (constraints_mean problem _ _ _ _ _ _ Hrep) in Hc as (cs & Hm2 & Hcs);
    [|done|apply (adm_constraints (limits := limits))|apply constants_available].
  cbn [fst] in Hm2. rewrite (vtr_model _ _ _ Hvars) in Hm2. unfold add_constraints in Hm2. cbn in Hm2. subst m2.
  apply (objective_means problem _ _ _ _ _ _ Hrep) in Ho as (Hv & Hcons & Has & Hobj);
    [|apply objective_constants_available|done].
  rewrite Hv, Hcons, Has. done.
Qed.
Lemma solution_iff problem limits weights t model maps x :
  Admissible problem limits → stages problem weights t model maps →
  is_solution model x = true ↔ ∃ β σ, feasible problem β σ ∧ x = native_values problem β σ.
Proof.
  intros Hadm Hst. pose proof (sg_no_interval _ _ _ _ _ Hst) as Hno.
  unfold is_solution. rewrite !andb_true_iff. split.
  - destruct (respects_exists _ (adm_ints (limits := limits) (problem := problem))) as [σ0 Hσ0].
    destruct (stages_meaning _ _ _ _ _ _ (λ _, false) σ0 Hadm Hst Hσ0) as (Hv & _). rewrite Hv.
    intros [[Hx Hc] Ha]. pose proof (respects_of _ _ Hno _ Hx) as Hσ.
    pose proof (native_values_of _ _ Hno _ Hx) as Heq.
    exists (booleans_of problem x), (integers_of problem x). split; [|done].
    destruct (stages_meaning _ _ _ _ _ _ (booleans_of problem x) _ Hadm Hst Hσ) as (_ & Hc' & Ha' & _).
    rewrite <-Heq in Hc', Ha'. split; [done|by apply Hc'|by apply Ha'].
  - intros (β & σ & [Hσ Hc Ha] & ->).
    destruct (stages_meaning _ _ _ _ _ _ β _ Hadm Hst Hσ) as (-> & Hc' & Ha' & _).
    split_and!; [by eapply native_values_respected|by apply Hc'|by apply Ha'].
Qed.
Lemma scores_by_objective blake3_hex problem limits weights t model maps β σ β' σ' :
  typed_limits limits → max_objective_levels limits ≤ MAX_SCORE_LEVELS →
  validate blake3_hex problem limits = Ok tt → stages problem weights t model maps →
  respects (int_domains problem) σ → respects (int_domains problem) σ' →
  ScoreVector_compare (score problem σ) (score problem σ') =
  Ok (Z.compare (objective_sum model (native_values problem β σ))
                (objective_sum model (native_values problem β' σ'))).
Proof.
  intros Hl Hmax Hv Hst Hσ Hσ'. pose proof (validate_admits _ _ _ Hl Hv) as Hadm.
  destruct (stages_meaning _ _ _ _ _ _ β _ Hadm Hst Hσ) as (_ & _ & _ & ->).
  destruct (stages_meaning _ _ _ _ _ _ β' _ Hadm Hst Hσ') as (_ & _ & _ & ->).
  apply scores_compare_scalar; [|apply Hadm| |apply Hst|by eapply admitted_levels..].
  - eapply Forall_impl; [apply Hadm|]. by intros level [? _ _ _ _].
  - pose proof (adm_level_count (problem := problem) (limits := limits)). lia.
Qed.

(** C6. Under limits that allow at most [MAX_SCORE_LEVELS] objective levels, as the default ones do,
    a model [translate_supported_model] encodes has exactly the feasible planning assignments as
    solutions, each written out as its native values, and its optima are exactly those no feasible
    assignment beats under [ScoreVector::compare]: the CP-SAT model neither loses nor invents a
    plan, and optimizes the lexicographic objective. *)
Theorem translation_is_exact blake3_hex encode_to_vec problem limits translated :
  typed_limits limits → max_objective_levels limits ≤ MAX_SCORE_LEVELS →
  translate_supported_model blake3_hex encode_to_vec problem limits = Ok translated →
  ∃ model, cp_model_proto translated = encode_to_vec model ∧
    (∀ x, is_solution model x = true ↔ ∃ β σ, feasible problem β σ ∧ x = native_values problem β σ) ∧
    (∀ β σ, feasible problem β σ →
       is_optimal model (native_values problem β σ) ↔
       ∀ β' σ', feasible problem β' σ' →
         ∃ order, ScoreVector_compare (score problem σ) (score problem σ') = Ok order ∧ order ≠ Gt).
Proof.
  intros Hl Hmax. unfold translate_supported_model. rewrite result_bind_Ok. intros ([model maps] & Hm & Ht).
  apply result_bind_Ok in Ht as (n & _ & Ht). apply result_bind_Ok in Ht as (k & _ & [= <-]).
  apply translate_model_stages in Hm as (Hv & weights & t & Hst).
  pose proof (validate_admits _ _ _ Hl Hv) as Hadm. exists model. split; [done|].
  assert (∀ x, is_solution model x = true ↔ ∃ β σ, feasible problem β σ ∧ x = native_values problem β σ) as Hsol
    by (intros x; by eapply solution_iff). split; [done|].
  intros β σ Hf. unfold is_optimal. split.
  - intros [_ Hbest] β' σ' Hf'. eexists. split; [eapply (scores_by_objective _ _ _ _ _ _ _ β σ β' σ'); try done; by eapply fe_domains|].
    apply Z.compare_le_iff, Hbest, Hsol. by exists β', σ'.
  - intros Hbest. split; [apply Hsol; by exists β, σ|]. intros y (β' & σ' & Hf' & ->)%Hsol.
    destruct (Hbest β' σ' Hf') as (order & Horder & Hne).
    rewrite (scores_by_objective _ _ _ _ _ _ _ β σ β' σ' Hl Hmax Hv Hst) in Horder by (by eapply fe_domains).
    injection Horder as <-. by apply Z.compare_le_iff.
Qed.
