(* ===== verification/CandidateFacts.v ===== *)
(** * Decoded candidates are assignments

    A worker's candidate decodes exactly when it reports, in any order, the requested values of one
    assignment within the domains; the decoded values are then that assignment, total over the declared
    variables, and the objective levels are its exact level values. *)
From stdpp Require Import base tactics list gmap strings.
From Stdlib Require Import ZArith Lia Sorted.
From S2P Require Import Prelude Ordering Protocol Control Budget Ids DomainIr Model Analysis Erasure.
From S2P Require Import Validation ValidationAgreement Bounds Scoping Provenance.
From S2P Require Import Lexicographic Admission Projection ProjectionFacts Evaluator EvaluatorFacts CanonicalFacts.
From S2P Require Import Translation TranslationFacts TranslationExact.
Open Scope Z_scope.

(** ** Consecutive keys *)
Lemma zip_keys {V} p (l : list V) : (zip (seqZ p (len l)) l).*1 = seqZ p (len l).
Proof. apply fst_zip. rewrite length_seqZ. unfold len. lia. Qed.
Lemma consecutive_sorted {V} p (l : list V) : strictly_sorted_by fst (zip (seqZ p (len l)) l) = true.
Proof.
  revert p. induction l as [|v l IH]; intros p; [done|].
  unfold len. cbn [length]. rewrite Nat2Z.inj_succ, seqZ_cons by lia. replace (Z.pred (Z.succ _)) with (len l) by (unfold len; lia).
  cbn [zip zip_with]. apply strictly_sorted_by_cons. split; [|apply IH].
  apply Forall_forall. intros [k w] Hk. apply (list_elem_of_fmap_2 fst) in Hk. rewrite zip_keys in Hk.
  apply elem_of_seqZ in Hk. cbn in *. unfold ltb. apply Z.compare_lt_iff. lia.
Qed.
Lemma btree_entries_seq {V} (m : gmap Z V) p l :
  (∀ k v, m !! k = Some v ↔ ∃ i, l !! i = Some v ∧ k = p + Z.of_nat i) →
  btree_entries m = zip (seqZ p (len l)) l.
Proof.
  intros Hm. unfold btree_entries.
  assert (NoDup (zip (seqZ p (len l)) l).*1) as Hnd by (rewrite zip_keys; apply NoDup_seqZ).
  assert (m = list_to_map (zip (seqZ p (len l)) l)) as ->.
  { apply map_eq. intros k. apply option_eq. intros v. rewrite Hm, <-elem_of_list_to_map by done.
    rewrite list_elem_of_lookup. setoid_rewrite lookup_zip_with_Some. setoid_rewrite lookup_seqZ. split.
    - intros (i & Hi & ->). apply lookup_lt_Some in Hi as Hlt. exists i, (p + Z.of_nat i), v. unfold len. split_and!; [done|done|lia|done].
    - intros (i & ? & ? & [= -> ->] & [-> _] & Hi). by exists i. }
  rewrite (sort_by_key_perm_eq fst _ _ (map_to_list_to_map _ Hnd)).
  - apply sort_by_key_id, consecutive_sorted.
  - by rewrite (map_to_list_to_map _ Hnd).
Qed.

(** ** Requests *)
Definition requested_variable (v : Variable_) : CandidateProjectionVariable :=
  match v with
  | VBoolean b => CpvBoolean (bv_id b)
  | VInteger i => CpvInteger (iv_id i)
  | VInterval i => CpvInteger (itv_id i)
  end.
Lemma inserted_sound {V} (f : string → V) (l : list (string * Z)) (m : gmap Z V) j c :
  foldl (λ m '(id, i), <[i := f id]> m) m l !! j = Some c → (∃ id, (id, j) ∈ l ∧ c = f id) ∨ m !! j = Some c.
Proof.
  revert m. induction l as [|[id i] l IH]; intros m; cbn; [by right|]. intros [(id' & Hin & ->)|H]%IH.
  { left. exists id'. split; [by right|done]. }
  apply lookup_insert_Some in H as [[-> <-]|[_ H]]; [|by right]. left. exists id. split; [by left|done].
Qed.
Lemma inserted_complete {V} (f : string → V) (l : list (string * Z)) (m : gmap Z V) j :
  is_Some (m !! j) ∨ (∃ id, (id, j) ∈ l) → is_Some (foldl (λ m '(id, i), <[i := f id]> m) m l !! j).
Proof.
  revert m. induction l as [|[id i] l IH]; intros m; cbn.
  { intros [?|[id ?%elem_of_nil]]; done. }
  intros H. apply IH. destruct (decide (i = j)) as [->|Hne]; [left; rewrite lookup_insert_eq; by eexists|].
  rewrite lookup_insert_ne by done. destruct H as [H|(id' & [[= <- <-]|H]%elem_of_cons)]; [by left|done|].
  right. by exists id'.
Qed.

Section requests.
Context (offset : nat) (vs : list Variable_) (bools ints : gmap string Z).
Context (Hb : indexes is_boolean offset vs bools) (Hi : indexes is_integer offset vs ints).
Context (Hno : existsb is_interval vs = false) (Hnd : NoDup (canonical_id <$> vs)).

Lemma indexed (kind : string → Variable_ → Prop) m id k v :
  indexes kind offset vs m → (∀ id v, kind id v → canonical_id v = id) → vs !! k = Some v → kind id v →
  m !! id = Some (Z.of_nat offset + Z.of_nat k).
Proof using Hnd.
  intros [H1 H2] Hkind Hk Hv. destruct (H2 id v) as [j Hj]; [by eapply list_elem_of_lookup_2|done|].
  rewrite Hj. f_equal. apply H1 in Hj as (k' & w & Hk' & Hw & ->).
  rewrite (canonical_unique _ k' k w v Hnd Hk' Hk) by (by rewrite (Hkind _ _ Hv), (Hkind _ _ Hw)). lia.
Qed.
Lemma requested_lookup j c :
  requested_variables bools ints !! j = Some c ↔
  ∃ k, (requested_variable <$> vs) !! k = Some c ∧ j = Z.of_nat offset + Z.of_nat k.
Proof using Hb Hi Hno Hnd.
  assert (∀ j c, requested_variables bools ints !! j = Some c →
    ∃ k, (requested_variable <$> vs) !! k = Some c ∧ j = Z.of_nat offset + Z.of_nat k) as Hsound.
  { clear j c. intros j c. unfold requested_variables. intros [(id & Hin & ->)|Hj]%inserted_sound.
    - apply btree_iter_elem, Hi in Hin as (k & v & Hk & (i & -> & <-) & ->). exists k.
      rewrite list_lookup_fmap, Hk. split; [done|lia].
    - apply inserted_sound in Hj as [(id & Hin & ->)|Hj]; [|done].
      apply btree_iter_elem, Hb in Hin as (k & v & Hk & (i & -> & <-) & ->). exists k.
      rewrite list_lookup_fmap, Hk. split; [done|lia]. }
  split; [apply Hsound|]. intros (k & Hk & ->).
  assert (is_Some (requested_variables bools ints !! (Z.of_nat offset + Z.of_nat k))) as [d Hd].
  { rewrite list_lookup_fmap in Hk. destruct (vs !! k) as [v|] eqn:Hv; [|done].
    unfold requested_variables. apply inserted_complete. apply list_elem_of_lookup_2 in Hv as Hin.
    destruct v as [b|i|i].
    - left. apply inserted_complete. right. exists (bv_id b). apply btree_iter_elem. apply (indexed is_boolean) with (VBoolean b); try done.
      + by intros ?? (? & -> & <-).
      + by exists b.
    - right. exists (iv_id i). apply btree_iter_elem. apply (indexed is_integer) with (VInteger i); try done.
      + by intros ?? (? & -> & <-).
      + by exists i.
    - apply not_true_iff_false in Hno. destruct Hno. apply existsb_exists. exists (VInterval i).
      split; [by apply list_elem_of_In|done]. }
  destruct (Hsound _ _ Hd) as (k' & Hk' & Heq). assert (k = k') as <- by lia. congruence.
Qed.

(** The requests name the scalar variables in order, and the retained map says which they are. *)
Definition requests_for : list ProjectionRequest :=
  zip_with (λ k i, {| pq_projection_id := k; pq_cp_sat_variable_index := i |})
    (seqZ 0 (len vs)) (seqZ (Z.of_nat offset) (len vs)).
Lemma requests_from entries : ∀ position requests variables result,
  fold_m request_candidate (position, (requests, variables)) entries = Ok result →
  result.2.1 = requests ++ zip_with (λ k i, {| pq_projection_id := k; pq_cp_sat_variable_index := i |})
                             (seqZ position (len entries)) entries.*1 ∧
  (∀ k c, result.2.2 !! k = Some c ↔
     (∃ i, entries.*2 !! i = Some c ∧ k = position + Z.of_nat i) ∨
     (k < position ∨ position + len entries ≤ k) ∧ variables !! k = Some c).
Proof using.
  induction entries as [|e entries IH]; intros position requests variables result; cbn [fold_m].
  { intros [= <-]. cbn. rewrite app_nil_r. split; [done|]. intros k c. unfold len. cbn.
    split; [intros H; right; split; [lia|done]|by intros [(i & [=] & _)|[_ H]]]. }
  rewrite result_bind_Ok. intros (st & Hst & Hf). unfold request_candidate in Hst.
  apply result_bind_Ok in Hst as (p & Hp%ok_or_Ok & [= <-]). apply checked_u64_Some in Hp as [-> _].
  apply IH in Hf as [-> Hvars]. unfold len in *. cbn [length].
  rewrite Nat2Z.inj_succ, (seqZ_cons position) by lia. rewrite Z.pred_succ. split.
  { cbn [fmap list_fmap zip_with]. rewrite <-app_assoc. cbn. by rewrite <-Z.add_1_r. }
  intros k c. rewrite Hvars, lookup_insert_Some. split.
  - intros [(i & Hi' & ->)|[Hk [[<- <-]|[Hne Hv]]]].
    + left. exists (S i). split; [done|lia].
    + left. exists 0%nat. split; [done|lia].
    + right. split; [lia|done].
  - intros [([|i] & Hi' & ->)|[Hk Hv]].
    + right. injection Hi' as <-. split; [lia|]. left. split; [lia|done].
    + left. exists i. split; [done|lia].
    + right. split; [lia|]. right. split; [lia|done].
Qed.
Lemma requests_exact requests variables :
  translate_candidate_assignments bools ints = Ok (requests, variables) →
  requests = requests_for ∧
  ∀ k c, variables !! k = Some c ↔ ∃ i, (requested_variable <$> vs) !! i = Some c ∧ k = Z.of_nat i.
Proof using Hb Hi Hno Hnd.
  unfold translate_candidate_assignments. intros Hf.
  destruct (fold_m _ _ _) as [[n r]|] eqn:Hr; [|done]. injection Hf as ->.
  apply requests_from in Hr as [Hreq Hvar]. cbn [fst snd app] in *.
  rewrite (btree_entries_seq _ (Z.of_nat offset) (requested_variable <$> vs)) in Hreq, Hvar
    by (intros; apply requested_lookup).
  assert (len (requested_variable <$> vs) = len vs) as Hlen by (unfold len; by rewrite length_fmap).
  assert (len (zip (seqZ (Z.of_nat offset) (len vs)) (requested_variable <$> vs)) = len vs) as Hzip.
  { unfold len. rewrite length_zip_with, length_seqZ, length_fmap. lia. }
  rewrite Hlen, Hzip in Hreq. rewrite Hlen in Hvar. split.
  - rewrite Hreq. rewrite <-Hlen at 2. by rewrite zip_keys, Hlen.
  - intros k c. rewrite Hvar, snd_zip by (rewrite length_fmap, length_seqZ; unfold len; lia). split.
    + intros [H|[_ [=]]]. done.
    + by left.
Qed.
End requests.

(** ** Collecting *)
Definition projected_pair (p : ProjectedValue) : Z * Z := (pv_projection_id p, pv_value p).
Lemma projected_ids l : (projected_pair <$> l).*1 = pv_projection_id <$> l.
Proof. by rewrite <-list_fmap_compose. Qed.
Lemma duplicates_stay l m d : d ≠ [] → (foldl collect_projected_value (m, d) l).2 ≠ [].
Proof.
  revert m d. induction l as [|p l IH]; intros m d Hd; [done|].
  cbn [foldl collect_projected_value]. apply IH. destruct (m !! _); [|done].
  intros Hn. assert (pv_projection_id p ∈ ord_sort (pv_projection_id p :: d)) as Hin
    by (apply elem_of_ord_sort; by left). by rewrite Hn, elem_of_nil in Hin.
Qed.
Lemma collected_from l m m' :
  foldl collect_projected_value (m, []) l = (m', []) ↔
  NoDup (pv_projection_id <$> l) ∧ (∀ id, id ∈ pv_projection_id <$> l → m !! id = None) ∧
  m' = foldl (λ m p, <[pv_projection_id p := pv_value p]> m) m l.
Proof.
  revert m. induction l as [|p l IH]; intros m; cbn [foldl fmap list_fmap].
  { split; [intros [= ->]; split_and!; [constructor|by intros id ?%elem_of_nil|done]|by intros (_ & _ & ->)]. }
  cbn [collect_projected_value]. destruct (m !! pv_projection_id p) as [v|] eqn:Hp.
  - split.
    + intros H. destruct (duplicates_stay l (<[pv_projection_id p:=pv_value p]> m) (ord_sort [pv_projection_id p])); [done|].
      cbn in H |- *. by rewrite H.
    + intros (_ & Hfresh & _). rewrite Hfresh in Hp by (by left). done.
  - rewrite IH, NoDup_cons. split.
    + intros (Hnd & Hfresh & ->). split_and!; [|done| |done].
      * intros Hin. apply Hfresh in Hin. by rewrite lookup_insert_eq in Hin.
      * intros id [->|Hin]%elem_of_cons; [done|]. apply Hfresh in Hin. by apply lookup_insert_None in Hin as [? _].
    + intros ([Hnot Hnd] & Hfresh & ->). split_and!; [done| |done]. intros id Hin.
      rewrite lookup_insert_ne by (intros <-; done). apply Hfresh. by right.
Qed.
Lemma projected_map l (m : gmap Z Z) :
  NoDup (pv_projection_id <$> l) →
  ∀ k v, foldl (λ m p, <[pv_projection_id p := pv_value p]> m) m l !! k = Some v ↔
    (k, v) ∈ projected_pair <$> l ∨ (k ∉ pv_projection_id <$> l ∧ m !! k = Some v).
Proof.
  revert m. induction l as [|p l IH]; intros m; cbn [fmap list_fmap foldl].
  { intros _ k v. rewrite elem_of_nil. set_solver. }
  intros [Hnot Hnd]%NoDup_cons k v. rewrite IH by done. rewrite not_elem_of_cons, elem_of_cons, lookup_insert_Some.
  unfold projected_pair at 2. split.
  - intros [H|[Hk [[<- <-]|[Hne Hm]]]]; [by left; right|by left; left|by right].
  - intros [[[= -> ->]|H]|[[Hne Hk] Hm]]; [|by left|].
    + right. split; [done|by left].
    + right. split; [done|]. by right.
Qed.
Lemma collect_exact candidate m :
  collect_projected_values candidate = Ok m ↔
  NoDup (pv_projection_id <$> values candidate) ∧
  ∀ k v, m !! k = Some v ↔ (k, v) ∈ projected_pair <$> values candidate.
Proof.
  unfold collect_projected_values. transitivity (foldl collect_projected_value (∅, []) (values candidate) = (m, [])).
  { destruct (foldl collect_projected_value (∅, []) (values candidate)) as [m' [|d ds]]; split; congruence. }
  rewrite collected_from. split.
  - intros (Hnd & _ & ->). split; [done|]. intros k v. rewrite projected_map by done. rewrite lookup_empty. naive_solver.
  - intros [Hnd Hm]. split_and!; [done|done|]. apply map_eq. intros k. apply option_eq. intros v.
    rewrite Hm, projected_map by done. rewrite lookup_empty. naive_solver.
Qed.

(** ** Decoding values *)
Definition assign_value (β : string → bool) (σ : string → Z) (values : CandidateValues) (v : Variable_) :
    CandidateValues :=
  match v with
  | VBoolean b => {| booleans := <[bv_id b := β (bv_id b)]> (booleans values); integers := integers values |}
  | VInteger i => {| booleans := booleans values; integers := <[iv_id i := σ (iv_id i)]> (integers values) |}
  | VInterval _ => values
  end.
(** The candidate values of an assignment. *)
Definition candidate_of (problem : PlanningProblem) (β : string → bool) (σ : string → Z) : CandidateValues :=
  foldl (assign_value β σ) {| booleans := ∅; integers := ∅ |} (variables problem).
Lemma assigned_boolean β σ vs acc id :
  id ∈ foldl add_bool (dom (booleans acc)) vs → (∀ id b, booleans acc !! id = Some b → b = β id) →
  booleans (foldl (assign_value β σ) acc vs) !! id = Some (β id).
Proof.
  revert acc. induction vs as [|v vs IH]; intros acc; cbn [foldl].
  { intros [b Hb]%elem_of_dom Hacc. rewrite Hb. f_equal. by apply Hacc. }
  intros Hid Hacc. apply IH; destruct v as [b|i|i]; cbn [assign_value booleans add_bool] in *; try done.
  - rewrite dom_insert_L. exact Hid.
  - intros id' b' [[<- <-]|[_ H]]%lookup_insert_Some; [done|by apply Hacc].
Qed.
Lemma assigned_integer β σ vs acc (ints : gmap string IntDomain) id :
  dom ints = dom (integers acc) → declared_int (foldl add_int ints vs) id →
  (∀ id z, integers acc !! id = Some z → z = σ id) →
  integers (foldl (assign_value β σ) acc vs) !! id = Some (σ id).
Proof.
  revert acc ints. induction vs as [|v vs IH]; intros acc ints Hdom; cbn [foldl].
  { intros Hd%elem_of_dom Hacc. rewrite Hdom in Hd. apply elem_of_dom in Hd as [z Hz]. rewrite Hz. f_equal. by apply Hacc. }
  intros Hid Hacc. eapply IH; [|exact Hid|]; destruct v as [b|i|i]; cbn [assign_value integers add_int] in *; try done.
  - by rewrite !dom_insert_L, Hdom.
  - intros id' b' [[<- <-]|[_ H]]%lookup_insert_Some; [done|by apply Hacc].
Qed.
Lemma candidate_total problem β σ :
  respects (int_domains problem) σ → total_candidate problem (candidate_of problem β σ) β σ.
Proof.
  intros Hσ. split; [| |done].
  - intros id Hid. apply assigned_boolean; [|done]. cbn. rewrite dom_empty_L. exact Hid.
  - intros id Hid. eapply assigned_integer; [|exact Hid|done]. cbn. by rewrite !dom_empty_L.
Qed.

Section decode.
Context (translated : TranslatedCpSatModel) (problem : PlanningProblem).
Context (Hdomains : ∀ i, VInteger i ∈ variables problem → integer_domain translated (iv_id i) = Some (iv_domain i)).

Definition requests_at (p : Z) (vs : list Variable_) : Prop :=
  ∀ k v, vs !! k = Some v → candidate_projection_variable translated (p + Z.of_nat k) = Some (requested_variable v).
Lemma requests_tail p v vs : requests_at p (v :: vs) → requests_at (p + 1) vs.
Proof using. intros H k w Hk. replace (p + 1 + Z.of_nat k) with (p + Z.of_nat (S k)) by lia. by apply H. Qed.
Lemma decode_one acc p v y acc' :
  candidate_projection_variable translated p = Some (requested_variable v) → v ∈ variables problem →
  is_interval v = false → decode_value translated acc (p, y) = Ok acc' →
  in_flat_domain (native_domain v) y = true ∧
  ∀ β σ, scalar_of β σ v = y → acc' = assign_value β σ acc v.
Proof using Hdomains.
  unfold decode_value. intros -> Hin Hno. destruct v as [b|i|]; [| |done]; cbn [requested_variable].
  - rewrite result_bind_Ok. intros (c & Hc & [= <-]). cbn.
    destruct (Z.eqb_spec y 0) as [->|]; [|destruct (Z.eqb_spec y 1) as [->|]; [|done]]; injection Hc as <-;
      (split; [done|]); intros β σ; cbn [assign_value scalar_of]; destruct (β _); done.
  - rewrite result_bind_Ok, Hdomains by done. intros (d & [= <-] & Hc). destruct (contains _ y) eqn:Hy; [|done].
    injection Hc as <-. cbn. rewrite flatten_domain_contains. split; [done|]. by intros β σ <-.
Qed.
Lemma decode_one_ok acc p v β σ :
  candidate_projection_variable translated p = Some (requested_variable v) → v ∈ variables problem →
  is_interval v = false → in_flat_domain (native_domain v) (scalar_of β σ v) = true →
  decode_value translated acc (p, scalar_of β σ v) = Ok (assign_value β σ acc v).
Proof using Hdomains.
  unfold decode_value. intros -> Hin Hno. destruct v as [b|i|]; [| |done]; cbn [requested_variable scalar_of].
  - intros _. cbn [assign_value]. by destruct (β (bv_id b)).
  - cbn [native_domain]. rewrite flatten_domain_contains, Hdomains by done. cbn. by intros ->.
Qed.
Lemma decode_values vs : ∀ p ys acc acc',
  vs ⊆ variables problem → Forall (λ v, is_interval v = false) vs → requests_at p vs → length ys = length vs →
  fold_m (decode_value translated) acc (zip (seqZ p (len ys)) ys) = Ok acc' →
  Forall2 (λ v y, in_flat_domain (native_domain v) y = true) vs ys.
Proof using Hdomains.
  intros p ys acc acc' Hsub Hno. revert p ys acc.
  induction Hno as [|v vs Hv _ IH]; intros p [|y ys] acc Hreq Hlen; try done.
  unfold len. cbn [length]. rewrite Nat2Z.inj_succ, seqZ_cons, Z.pred_succ by lia. cbn [zip zip_with fold_m].
  rewrite result_bind_Ok. intros (acc1 & Hd & Hf).
  apply decode_one with (v := v) in Hd as [Hy _]; [|by specialize (Hreq 0%nat v eq_refl); rewrite Z.add_0_r in Hreq|set_solver|done].
  constructor; [done|]. eapply IH; [set_solver|by apply requests_tail in Hreq|cbn in Hlen; lia|].
  by rewrite <-Z.add_1_r in Hf.
Qed.
Lemma decode_assigned vs β σ : ∀ p acc,
  vs ⊆ variables problem → Forall (λ v, is_interval v = false) vs → requests_at p vs →
  Forall (λ v, in_flat_domain (native_domain v) (scalar_of β σ v) = true) vs →
  fold_m (decode_value translated) acc (zip (seqZ p (len vs)) (scalar_of β σ <$> vs)) =
  Ok (foldl (assign_value β σ) acc vs).
Proof using Hdomains.
  intros p acc Hsub Hno Hreq Hdom. revert p acc Hreq.
  induction Hno as [|v vs Hv _ IH]; intros p acc Hreq; [done|]. apply Forall_cons_1 in Hdom as [Hd Hdom].
  unfold len. cbn [length]. rewrite Nat2Z.inj_succ, seqZ_cons, Z.pred_succ by lia. cbn [fmap list_fmap zip zip_with fold_m].
  rewrite decode_one_ok; [|by specialize (Hreq 0%nat v eq_refl); rewrite Z.add_0_r in Hreq|set_solver|done|done].
  rewrite Ok_bind. rewrite <-Z.add_1_r. apply IH; [set_solver|done|by apply requests_tail in Hreq].
Qed.
End decode.

(** ** Objective levels *)
Section levels.
Context (problem : PlanningProblem) (limits : PlanningIrLimitsV1) `{!Admissible problem limits}.
Context (decoded : CandidateValues) (β : string → bool) (σ : string → Z).
Context (total : total_candidate problem decoded β σ).

Lemma expression_evaluated level l value :
  Forall (λ t, declared_int (int_domains problem) (lt_variable t)) l →
  Forall (λ t, is_i64 (term_value σ t)) l → (∀ k, is_i64 (value + terms_value σ (take k l))) →
  fold_m (evaluate_expression_term level decoded) value l = Ok (value + terms_value σ l).
Proof using total.
  intros Hdecl. revert value. induction Hdecl as [|t l Ht _ IH]; intros value Hp Hk; cbn [fold_m].
  { change (terms_value σ []) with 0. by rewrite Z.add_0_r. }
  apply Forall_cons_1 in Hp as [Htp Hp]. pose proof (Hk 1%nat) as H1.
  cbn [take] in H1. rewrite take_0, terms_value_cons in H1. change (terms_value σ []) with 0 in H1. rewrite Z.add_0_r in H1.
  unfold evaluate_expression_term at 2. rewrite (tc_integers _ _ _ _ total _ Ht). cbn [ok_or]. rewrite Ok_bind.
  unfold i64_checked_mul, i64_checked_add. fold (term_value σ t). rewrite (checked_i64_ok _ Htp). cbn [ok_or].
  rewrite Ok_bind, (checked_i64_ok _ H1). cbn [ok_or]. rewrite Ok_bind, IH; [|done|].
  - f_equal. rewrite terms_value_cons. lia.
  - intros k. specialize (Hk (S k)). cbn [take] in Hk. rewrite terms_value_cons in Hk. by rewrite <-Z.add_assoc.
Qed.
Lemma terms_evaluated level ts value :
  Forall (λ t, expression_wf (int_domains problem) (ot_expression t)) ts →
  (∀ k, is_i64 (value + foldr Z.add 0 ((λ t, expression_value σ (ot_expression t)) <$> take k ts))) →
  fold_m (evaluate_term level decoded) value ts =
  Ok (value + foldr Z.add 0 ((λ t, expression_value σ (ot_expression t)) <$> ts)).
Proof using total.
  intros Hwf. revert value. induction Hwf as [|t ts [Hc _ (lo & hi & Hb)] _ IH]; intros value Hk; cbn [fold_m].
  { cbn. by rewrite Z.add_0_r. }
  pose proof (tc_respects _ _ _ _ total) as Hσ. pose proof (Hk 1%nat) as H1.
  cbn [take fmap list_fmap foldr] in H1. rewrite take_0 in H1. cbn [fmap list_fmap foldr] in H1. rewrite Z.add_0_r in H1.
  unfold evaluate_term at 2. rewrite expression_evaluated;
    [|apply Hb|by apply (tb_products _ _ _ _ _ Hb)|intros k; by apply (tb_prefixes _ _ _ _ _ Hb)].
  rewrite Ok_bind. unfold i64_checked_add. fold (expression_value σ (ot_expression t)).
  rewrite (checked_i64_ok _ H1). cbn [ok_or]. rewrite Ok_bind, IH.
  - cbn [fmap list_fmap foldr]. f_equal. lia.
  - intros k. specialize (Hk (S k)). cbn [take fmap list_fmap foldr] in Hk. by rewrite <-Z.add_assoc.
Qed.
Lemma levels_evaluated acc ls :
  Forall (level_wf problem) ls →
  fold_m (evaluate_level decoded) acc ls = Ok (acc ++ (level_value σ <$> ls)).
Proof using total.
  intros Hls. revert acc. induction Hls as [|l ls Hl _ IH]; intros acc; cbn [fold_m].
  { cbn. by rewrite app_nil_r. }
  pose proof (tc_respects _ _ _ _ total) as Hσ. unfold evaluate_level at 2.
  rewrite terms_evaluated; [|apply Hl|intros k; by apply Hl]. rewrite Ok_bind, Z.add_0_l. fold (level_value σ l).
  destruct (lw_values _ _ Hl σ Hσ) as [Hlo Hhi].
  rewrite (proj2 (Z.leb_le _ _) Hlo), (proj2 (Z.leb_le _ _) Hhi). cbn [andb]. rewrite Ok_bind, IH.
  cbn [fmap list_fmap]. by rewrite <-app_assoc.
Qed.
End levels.

(** ** The whole decoder *)
Lemma find_none {A} (f : A → bool) l : List.find f l = None ↔ ∀ a, a ∈ l → f a = false.
Proof.
  split; [intros H a Ha; by eapply List.find_none, list_elem_of_In|].
  intros H. destruct (List.find f l) as [a|] eqn:Hf; [|done]. apply List.find_some in Hf as [Hin Ha].
  apply list_elem_of_In, H in Hin. congruence.
Qed.
Lemma elem_of_consecutive {V} p (l : list V) k v :
  (k, v) ∈ zip (seqZ p (len l)) l ↔ ∃ i, l !! i = Some v ∧ k = p + Z.of_nat i.
Proof.
  rewrite list_elem_of_lookup. setoid_rewrite lookup_zip_with_Some. setoid_rewrite lookup_seqZ. split.
  - intros (i & ? & ? & [= -> ->] & [-> _] & Hi). by exists i.
  - intros (i & Hi & ->). apply lookup_lt_Some in Hi as Hlt. exists i, (p + Z.of_nat i), v.
    unfold len. split_and!; [done|done|lia|done].
Qed.
Lemma collect_consecutive candidate ys :
  projected_pair <$> values candidate ≡ₚ zip (seqZ 0 (len ys)) ys →
  ∃ m, collect_projected_values candidate = Ok m ∧ btree_entries m = zip (seqZ 0 (len ys)) ys ∧
    ∀ k v, m !! k = Some v ↔ ∃ i, ys !! i = Some v ∧ k = Z.of_nat i.
Proof.
  intros Hp. exists (list_to_map (projected_pair <$> values candidate)).
  assert (NoDup (pv_projection_id <$> values candidate)) as Hnd
    by (rewrite <-projected_ids, Hp, zip_keys; apply NoDup_seqZ).
  assert (∀ k v, list_to_map (M := gmap Z Z) (projected_pair <$> values candidate) !! k = Some v ↔
    ∃ i, ys !! i = Some v ∧ k = Z.of_nat i) as Hm.
  { intros k v. rewrite <-elem_of_list_to_map by (by rewrite projected_ids). rewrite Hp. apply elem_of_consecutive. }
  split_and!; [|by apply btree_entries_seq|done]. apply collect_exact. split; [done|]. intros k v.
  symmetry. apply elem_of_list_to_map. by rewrite projected_ids.
Qed.
Lemma consecutive_map (m : gmap Z Z) n :
  (∀ k, is_Some (m !! k) ↔ 0 ≤ k < Z.of_nat n) →
  ∃ ys, length ys = n ∧ ∀ k v, m !! k = Some v ↔ ∃ i, ys !! i = Some v ∧ k = Z.of_nat i.
Proof.
  intros Hm. exists ((λ i, default 0 (m !! Z.of_nat i)) <$> seq 0 n). split; [by rewrite length_fmap, length_seq|].
  intros k v. setoid_rewrite list_lookup_fmap. split.
  - intros Hk. destruct (proj1 (Hm k)) as [H1 H2]; [by eexists|]. exists (Z.to_nat k).
    rewrite lookup_seq_lt by lia. cbn. rewrite Z2Nat.id by lia. rewrite Hk. split; [done|lia].
  - intros (i & Hi & ->). destruct (seq 0 n !! i) as [j|] eqn:Hj; [|done]. apply lookup_seq in Hj as [-> Hlt].
    injection Hi as <-. cbn. destruct (proj2 (Hm (Z.of_nat i))) as [y Hy]; [lia|]. by rewrite Hy.
Qed.

Lemma decode_reduces translated n candidate d :
  pq_projection_id <$> worker_projection_requests translated = seqZ 0 (Z.of_nat n) →
  (∀ k, is_Some (candidate_projection_variable translated k) ↔ 0 ≤ k < Z.of_nat n) →
  decode_projected_candidate translated candidate = Ok d ↔
  ∃ ys, length ys = n ∧ projected_pair <$> values candidate ≡ₚ zip (seqZ 0 (len ys)) ys ∧
    (decoded ← fold_m (decode_value translated) {| booleans := ∅; integers := ∅ |} (zip (seqZ 0 (len ys)) ys);
     objective_values ← evaluate_objectives translated decoded;
     Ok {| dc_values := decoded; dc_objective_values := objective_values |}) = Ok d.
Proof.
  intros Hreq Hvar. unfold decode_projected_candidate. rewrite Hreq. split.
  - rewrite result_bind_Ok. intros (m & [Hnd Hm]%collect_exact & Hd).
    destruct (List.find _ (btree_entries m).*1) eqn:Hun; [done|].
    destruct (List.find _ (seqZ 0 _)) eqn:Hmiss; [done|]. rewrite find_none in Hun. rewrite find_none in Hmiss.
    destruct (consecutive_map m n) as (ys & Hlen & Hys).
    { intros k. split.
      - intros [v Hv]. apply Hvar, not_eq_None_Some. apply (bool_decide_eq_false_1 (_ = None)), Hun.
        apply list_elem_of_fmap. exists (k, v). split; [done|]. unfold btree_entries.
        by rewrite sort_by_key_perm, elem_of_map_to_list.
      - intros Hk. apply not_eq_None_Some. apply (bool_decide_eq_false_1 (_ = None)), Hmiss. by apply elem_of_seqZ. }
    exists ys. rewrite (btree_entries_seq m 0 ys) in Hd by done. split_and!; [done| |done].
    apply NoDup_Permutation.
    + apply (NoDup_fmap_1 fst). by rewrite projected_ids.
    + apply (NoDup_fmap_1 fst). rewrite zip_keys. apply NoDup_seqZ.
    + intros [k v]. by rewrite <-Hm, Hys, elem_of_consecutive.
  - intros (ys & Hlen & Hp & Hd). destruct (collect_consecutive _ _ Hp) as (m & -> & Hentries & Hm).
    rewrite Ok_bind, Hentries. rewrite (proj2 (find_none _ _)), (proj2 (find_none _ _)); [done|..].
    + intros k [H1 H2]%elem_of_seqZ. apply bool_decide_eq_false. destruct (lookup_lt_is_Some_2 ys (Z.to_nat k)) as [v Hv]; [lia|].
      rewrite (proj2 (Hm k v)); [done|]. exists (Z.to_nat k). split; [done|lia].
    + intros k Hk. rewrite zip_keys in Hk. apply elem_of_seqZ in Hk. apply bool_decide_eq_false, not_eq_None_Some, Hvar.
      unfold len in Hk. lia.
Qed.
Lemma integer_domains_retained problem :
  collect_map (omap (λ v, match v with VInteger v => Some (iv_id v, iv_domain v) | _ => None end) (variables problem)) =
  int_domains problem.
Proof.
  unfold collect_map, int_domains. generalize (∅ : gmap string IntDomain). induction (variables problem) as [|v vs IH]; [done|].
  intros m. destruct v; cbn; apply IH.
Qed.
(** What a worker that has found the native values [x] reports. *)
Definition requested_values (translated : TranslatedCpSatModel) (x : list Z) : list ProjectedValue :=
  (λ r, {| pv_projection_id := pq_projection_id r; pv_value := variable_value x (pq_cp_sat_variable_index r) |})
    <$> worker_projection_requests translated.
Lemma requested_pairs offset vs needs β σ :
  offset = length (constant_variables needs) →
  (λ r, (pq_projection_id r,
         variable_value (constant_values needs ++ (scalar_of β σ <$> vs)) (pq_cp_sat_variable_index r)))
    <$> requests_for offset vs = zip (seqZ 0 (len vs)) (scalar_of β σ <$> vs).
Proof.
  intros ->. apply list_eq. intros k. unfold requests_for. rewrite list_lookup_fmap, !lookup_zip_with, list_lookup_fmap.
  destruct (vs !! k) as [v|] eqn:Hk.
  - apply lookup_lt_Some in Hk as Hlt. rewrite !lookup_seqZ_lt by (unfold len; lia). cbn.
    do 2 f_equal. rewrite <-(native_lookup needs vs β σ k v Hk). f_equal. lia.
  - apply lookup_ge_None in Hk. rewrite !lookup_seqZ_ge by (unfold len; lia). done.
Qed.
Lemma projected_pair_perm l k : projected_pair <$> l ≡ₚ projected_pair <$> k ↔ l ≡ₚ k.
Proof.
  split; [|by intros ->]. intros H.
  apply (fmap_Permutation (λ p, {| pv_projection_id := p.1; pv_value := p.2 |})) in H.
  rewrite <-!list_fmap_compose in H.
  assert (∀ l : list ProjectedValue, ((λ p, {| pv_projection_id := p.1; pv_value := p.2 |}) ∘ projected_pair) <$> l = l) as Hid.
  { intros j. rewrite <-(list_fmap_id j) at 2. apply list_fmap_ext. by intros i []. }
  by rewrite !Hid in H.
Qed.

Section decoder.
Context (problem : PlanningProblem) (limits : PlanningIrLimitsV1) `{!Admissible problem limits}.
Context (weights : list Z) (t : VariableTranslation) (model : CpModelProto) (translated : TranslatedCpSatModel).
Context (Hst : stages problem weights t model (tr_maps translated)).

Lemma decoder_maps :
  worker_projection_requests translated = requests_for (length (constant_variables (needs_constant_one problem))) (variables problem) ∧
  (∀ k c, candidate_projection_variable translated k = Some c ↔
     ∃ i, (requested_variable <$> variables problem) !! i = Some c ∧ k = Z.of_nat i) ∧
  (∀ i, VInteger i ∈ variables problem → integer_domain translated (iv_id i) = Some (iv_domain i)) ∧
  objective_plan translated = objectives problem.
Proof using Hst Admissible0.
  destruct Hst as [Hno _ Hv (m1 & m2 & by_literal & indices & [requests vars] & _ & Hreq & _ & _ & Hmaps)].
  apply translated_variables in Hv as [_ Hb Hi]; [|done].
  apply (requests_exact _ _ _ _ Hb Hi) in Hreq as [Hr Hvar]; [|done|by eapply ids_unique].
  unfold worker_projection_requests, candidate_projection_variable, integer_domain, objective_plan. rewrite Hmaps.
  cbn [retain_translation_maps tm_worker_projection_requests tm_candidate_projection_variables tm_integer_domains
       tm_objective_plan fst snd].
  split_and!; [done..| |done]. intros i Hin. rewrite integer_domains_retained.
  apply ints_lookup; [by eapply ids_unique|done].
Qed.
Lemma requested_values_pairs β σ :
  projected_pair <$> requested_values translated (native_values problem β σ) =
  zip (seqZ 0 (len (variables problem))) (scalar_of β σ <$> variables problem).
Proof using Hst Admissible0.
  unfold requested_values. rewrite <-list_fmap_compose, (proj1 decoder_maps).
  unfold native_values. by rewrite <-(requested_pairs _ _ (needs_constant_one problem) β σ eq_refl).
Qed.
Lemma scalars_only : Forall (λ v, is_interval v = false) (variables problem).
Proof using Hst. apply Forall_forall. intros v Hv. by eapply not_interval; [apply Hst|]. Qed.
Lemma decode_of_assignment β σ :
  respects (int_domains problem) σ →
  (decoded ← fold_m (decode_value translated) {| booleans := ∅; integers := ∅ |}
               (zip (seqZ 0 (len (variables problem))) (scalar_of β σ <$> variables problem));
   objective_values ← evaluate_objectives translated decoded;
   Ok {| dc_values := decoded; dc_objective_values := objective_values |}) =
  Ok {| dc_values := candidate_of problem β σ;
        dc_objective_values := level_value σ <$> op_levels (objectives problem) |}.
Proof using Hst Admissible0.
  intros Hσ. destruct decoder_maps as (_ & Hvar & Hdom & Hplan).
  rewrite (decode_assigned translated problem Hdom); [|done|apply scalars_only| |].
  - rewrite Ok_bind. unfold evaluate_objectives. fold (candidate_of problem β σ).
    rewrite (levels_evaluated problem _ β σ (candidate_total problem β σ Hσ)), Hplan; [done|].
    rewrite Hplan. apply (adm_levels (limits := limits)).
  - intros k v Hk. apply Hvar. exists k. split; [by rewrite list_lookup_fmap, Hk|lia].
  - apply Forall_forall. intros v Hv. by apply (in_native_domain problem limits (sg_no_interval _ _ _ _ _ Hst)).
Qed.
Lemma decoder_exact candidate d :
  decode_projected_candidate translated candidate = Ok d ↔
  ∃ β σ, respects (int_domains problem) σ ∧
    values candidate ≡ₚ requested_values translated (native_values problem β σ) ∧
    d = {| dc_values := candidate_of problem β σ;
           dc_objective_values := level_value σ <$> op_levels (objectives problem) |}.
Proof using Hst Admissible0.
  destruct decoder_maps as (Hreq & Hvar & Hdom & Hplan).
  rewrite (decode_reduces translated (length (variables problem))).
  - setoid_rewrite <-projected_pair_perm. setoid_rewrite requested_values_pairs. split.
    + intros (ys & Hlen & Hp & Hd). apply result_bind_Ok in Hd as Hd'. destruct Hd' as (decoded & Hdec & _).
      apply decode_values with (problem := problem) (vs := variables problem) in Hdec as Hys;
        [|done|done|apply scalars_only|..|done].
      2:{ intros k v Hk. apply Hvar. exists k. split; [by rewrite list_lookup_fmap, Hk|lia]. }
      set (x := constant_values (needs_constant_one problem) ++ ys).
      assert (domains_respected (native_variables problem) x = true) as Hx.
      { apply domains_respected_forall, Forall2_app; [|by apply Forall2_fmap_l].
        unfold constant_variables, constant_values. destruct (needs_constant_one problem); by repeat constructor. }
      pose proof (respects_of _ _ (sg_no_interval _ _ _ _ _ Hst) x Hx) as Hσ.
      apply (native_values_of _ _ (sg_no_interval _ _ _ _ _ Hst)) in Hx as Heq.
      apply app_inv_head in Heq. unfold len in Hp, Hd. rewrite Hlen in Hp, Hd.
      exists (booleans_of problem x), (integers_of problem x). split_and!; [done|by rewrite Heq in Hp|].
      rewrite Heq in Hd. unfold len in *. rewrite decode_of_assignment in Hd by done. congruence.
    + intros (β & σ & Hσ & Hp & ->). exists (scalar_of β σ <$> variables problem).
      assert (len (scalar_of β σ <$> variables problem) = len (variables problem)) as -> by (unfold len; by rewrite length_fmap).
      split_and!; [by rewrite length_fmap|done|by apply decode_of_assignment].
  - rewrite Hreq. unfold requests_for. apply list_eq. intros k. rewrite list_lookup_fmap, lookup_zip_with.
    destruct (decide (k < length (variables problem))%nat).
    + by rewrite !lookup_seqZ_lt by (unfold len; lia).
    + by rewrite !lookup_seqZ_ge by (unfold len; lia).
  - intros k. split.
    + intros [c (i & Hi%lookup_lt_Some & ->)%Hvar]. rewrite length_fmap in Hi. lia.
    + intros Hk. destruct (lookup_lt_is_Some_2 (requested_variable <$> variables problem) (Z.to_nat k)) as [c Hc];
        [rewrite length_fmap; lia|]. exists c. apply Hvar. exists (Z.to_nat k). split; [done|lia].
Qed.
End decoder.

(** C34. A worker candidate decodes exactly when it reports, once each and in any order, the
    requested values of the native values of one assignment within the integer domains. The result
    is then that assignment, defined on every declared variable, with its exact objective level
    values; so values the translated model's solutions carry always decode, and nothing else does. *)
Theorem candidate_decoding_exact blake3_hex encode_to_vec problem limits translated candidate d :
  typed_limits limits → translate_supported_model blake3_hex encode_to_vec problem limits = Ok translated →
  (decode_projected_candidate translated candidate = Ok d ↔
   ∃ β σ, respects (int_domains problem) σ ∧
     values candidate ≡ₚ requested_values translated (native_values problem β σ) ∧
     d = {| dc_values := candidate_of problem β σ;
            dc_objective_values := level_value σ <$> op_levels (objectives problem) |}) ∧
  (∀ β σ, respects (int_domains problem) σ → total_candidate problem (candidate_of problem β σ) β σ).
Proof.
  intros Hl. unfold translate_supported_model. rewrite result_bind_Ok. intros ([model maps] & Hm & Ht).
  apply result_bind_Ok in Ht as (n & _ & Ht). apply result_bind_Ok in Ht as (k & _ & [= <-]).
  apply translate_model_stages in Hm as (Hv & weights & t & Hst).
  pose proof (validate_admits _ _ _ Hl Hv) as Hadm. split; [|apply candidate_total]. by eapply decoder_exact.
Qed.
