(* ===== verification/SolverApi.v ===== *)
(** * Solver contracts

    Models [crates/eutheto-solver-api/src/contracts.rs] and the solve options of
    [crates/eutheto-types/src/contracts.rs]: the executable identity of a backend, the dispatch budget
    derived from one observation of the parent budget, the routed request, the candidate and evidence
    types and the hard-limited sink that stands between a backend and the router.  The serialization of
    solve options and the digest are parameters. *)
From stdpp Require Import base tactics list gmap strings.
From Stdlib Require Import ZArith Lia Ascii.
From S2P Require Import Prelude Ordering Protocol Control Budget Ids DomainIr Model Analysis Validation Canonical.
From S2P Require Import Projection Session.
Open Scope Z_scope.

(** ** Solve options *)
Inductive BackendSelection := SelectAuto | SelectSpecific (backend : string).
Inductive SolveMode := ModeQuick | ModeBalanced | ModeDeep | ModeCustom.
Inductive WorkerThreadPolicy := ThreadsAuto | ThreadsExact (count : Z).
Inductive ExplanationMode := ExplainNone | ExplainStandard | ExplainDetailed.
Inductive PreservationPolicy := PreserveNone | PreferExisting | RequireExisting.
Inductive ReproducibilityMode := Performance | Deterministic.
Record SolveOptions := {
  so_backend : BackendSelection;
  so_mode : SolveMode;
  so_time_limit_milliseconds : Z;
  so_memory_limit_bytes : option Z;
  so_worker_threads : WorkerThreadPolicy;
  so_random_seed : Z;
  so_solution_limit : option Z;
  so_stop_after_first_feasible : bool;
  so_collect_intermediate_solutions : bool;
  so_explanation_mode : ExplanationMode;
  so_preserve_existing : PreservationPolicy;
  so_reproducibility : ReproducibilityMode;
  so_resource_limits : Budget.ResourceLimits
}.
#[global] Instance BackendSelection_eq_dec : EqDecision BackendSelection.
Proof. solve_decision. Defined.
#[global] Instance SolveMode_eq_dec : EqDecision SolveMode.
Proof. solve_decision. Defined.
#[global] Instance WorkerThreadPolicy_eq_dec : EqDecision WorkerThreadPolicy.
Proof. solve_decision. Defined.
#[global] Instance ExplanationMode_eq_dec : EqDecision ExplanationMode.
Proof. solve_decision. Defined.
#[global] Instance PreservationPolicy_eq_dec : EqDecision PreservationPolicy.
Proof. solve_decision. Defined.
#[global] Instance ReproducibilityMode_eq_dec : EqDecision ReproducibilityMode.
Proof. solve_decision. Defined.
#[global] Instance ResourceLimits_eq_dec : EqDecision Budget.ResourceLimits.
Proof. solve_decision. Defined.
#[global] Instance SolveOptions_eq_dec : EqDecision SolveOptions.
Proof. solve_decision. Defined.
Inductive SolveOptionsError := ZeroMemoryLimit | ZeroWorkerThreads | ZeroSolutionLimit.
Definition SolveOptions_validate (options : SolveOptions) : Result SolveOptionsError unit :=
  if bool_decide (so_memory_limit_bytes options = Some 0) then Err ZeroMemoryLimit
  else if bool_decide (so_worker_threads options = ThreadsExact 0) then Err ZeroWorkerThreads
  else if bool_decide (so_solution_limit options = Some 0) then Err ZeroSolutionLimit
  else Ok tt.

(** ** Executable identity *)
Definition MAX_RUNTIME_VERSION_BYTES : Z := 64.
Record BackendRuntimeIdentity := {
  bi_backend_id : string; bi_backend_version : string; bi_adapter_version : string;
  bi_worker_version : string; bi_solver_version : string; bi_protocol_major : Z; bi_protocol_minor : Z
}.
Inductive BackendRuntimeIdentityError :=
| InvalidBackendVersion | InvalidAdapterVersion | InvalidWorkerVersion | InvalidSolverVersion | ZeroProtocolMajor.
Definition valid_runtime_version (value : string) : bool :=
  let bytes := String.list_ascii_of_string value in
  negb (bool_decide (bytes = [])) && (len bytes <=? MAX_RUNTIME_VERSION_BYTES)
  && match bytes with c :: _ => is_ascii_alphanumeric c | [] => false end
  && forallb (λ c, is_ascii_alphanumeric c || bool_decide (c ∈ ["."%char; "-"%char; "+"%char])) bytes.
Definition BackendRuntimeIdentity_validate (identity : BackendRuntimeIdentity) :
    Result BackendRuntimeIdentityError unit :=
  _ ← for_each (λ '(value, error), if negb (valid_runtime_version value) then Err error else Ok tt)
        [(bi_backend_version identity, InvalidBackendVersion);
         (bi_adapter_version identity, InvalidAdapterVersion);
         (bi_worker_version identity, InvalidWorkerVersion);
         (bi_solver_version identity, InvalidSolverVersion)];
  if bi_protocol_major identity =? 0 then Err ZeroProtocolMajor else Ok tt.
Definition BackendRuntimeIdentity_new (backend_id backend_version adapter_version worker_version
    solver_version : string) (protocol_major protocol_minor : Z) :
    Result BackendRuntimeIdentityError BackendRuntimeIdentity :=
  let identity := {| bi_backend_id := backend_id; bi_backend_version := backend_version;
                     bi_adapter_version := adapter_version; bi_worker_version := worker_version;
                     bi_solver_version := solver_version; bi_protocol_major := protocol_major;
                     bi_protocol_minor := protocol_minor |} in
  _ ← BackendRuntimeIdentity_validate identity;
  Ok identity.

(** ** Errors and limits *)
Inductive OutputError :=
| OeInvalidLimits
| OeInvalidDiagnosticCode
| OeUnsafeDiagnosticLine
| OeInvalidEvidenceRef
| OeInvalidProgressPhase
| OeInvalidProgressPercent
| OeProgressLimitExceeded
| OeDiagnosticLimitExceeded
| OeCandidateLimitExceeded
| OeCandidateAssignmentLimitExceeded
| OeCancelled
| OeParentDeadlineExceeded
| OeBackendLimitExceeded
| OeEvidenceLimitExceeded
| OeInvalidObjectiveDimension
| OeNonMonotonicCandidateTime
| OeBackendProgressAuthorityViolation
| OeUnknownBoolean (id : string)
| OeUnknownInteger (id : string)
| OeMissingBoolean (id : string)
| OeMissingInteger (id : string)
| OeOutOfDomain (id : string)
| OeDownstreamProgressRejected.
Notation OR := (Result OutputError).
Definition u32_max : Z := 2 ^ 32 - 1.
Definition checked_u32 (z : Z) : option Z := if (0 <=? z) && (z <=? u32_max) then Some z else None.
Record SolverApiLimits := {
  max_candidates : Z;
  max_candidate_assignments : Z;
  max_progress_events : Z;
  max_diagnostic_lines : Z;
  max_evidence_refs_per_candidate : Z
}.
Definition SolverApiLimits_DEFAULT : SolverApiLimits := {|
  max_candidates := 128; max_candidate_assignments := 100000; max_progress_events := 4096;
  max_diagnostic_lines := 256; max_evidence_refs_per_candidate := 64 |}.
Definition SolverApiLimits_validate (limits : SolverApiLimits) : OR SolverApiLimits :=
  if (max_candidates limits =? 0) || (max_candidate_assignments limits =? 0)
     || (max_progress_events limits =? 0) || (max_diagnostic_lines limits =? 0)
     || (max_evidence_refs_per_candidate limits =? 0)
  then Err OeInvalidLimits else Ok limits.
Definition with_intermediate_candidate_reserve (limits : SolverApiLimits) : SolverApiLimits := {|
  max_candidates := Z.min (max_candidates limits + 1) u32_max;
  max_candidate_assignments := Z.min (max_candidate_assignments limits * 2) u32_max;
  max_progress_events := max_progress_events limits;
  max_diagnostic_lines := max_diagnostic_lines limits;
  max_evidence_refs_per_candidate := max_evidence_refs_per_candidate limits |}.

(** ** Dispatch budget *)
Record SolveDispatchBudget := {
  parent_view : SolveBudgetView;
  remaining_at_dispatch : Z;
  backend_limit : Z;
  search_limit : Z
}.
Inductive BackendStopReason := StopCancelled | StopDeadlineExceeded | StopBackendLimitExceeded.
Definition u64_saturating_sub (a b : Z) : Z := Z.max (a - b) 0.
Definition millis_or_zero (value : Z) : Z :=
  match DurationMillis_new value with Ok millis => millis | Err _ => 0 end.
Definition SolveDispatchBudget_from_view (w : World) (view : SolveBudgetView) (backend_cap : option Z)
    (acceptance_reserve completion_reserve : Z) : SolveDispatchBudget :=
  let remaining := remaining_milliseconds (view_snapshot w view) in
  let available := millis_or_zero (u64_saturating_sub remaining acceptance_reserve) in
  let limit := match backend_cap with Some cap => Z.min cap available | None => available end in
  {| parent_view := view; remaining_at_dispatch := remaining; backend_limit := limit;
     search_limit := millis_or_zero (u64_saturating_sub limit completion_reserve) |}.
Definition child_view (budget : SolveDispatchBudget) : SolveBudgetView := phase_view (parent_view budget).
Definition elapsed_milliseconds_value (budget : SolveDispatchBudget) (remaining : Z) : Z :=
  u64_saturating_sub (remaining_at_dispatch budget) remaining.
Definition remaining_now (w : World) (budget : SolveDispatchBudget) : Z :=
  remaining_milliseconds (view_snapshot w (parent_view budget)).
(** Durations in nanoseconds. *)
Definition remaining_search_duration (w : World) (budget : SolveDispatchBudget) : Z :=
  to_duration (u64_saturating_sub (search_limit budget) (elapsed_milliseconds_value budget (remaining_now w budget))).
Definition remaining_backend_duration (w : World) (budget : SolveDispatchBudget) : Z :=
  to_duration (u64_saturating_sub (backend_limit budget) (elapsed_milliseconds_value budget (remaining_now w budget))).
Definition elapsed_milliseconds (w : World) (budget : SolveDispatchBudget) : Z :=
  match DurationMillis_new (elapsed_milliseconds_value budget (remaining_now w budget)) with
  | Ok elapsed => elapsed
  | Err _ => DURATION_MILLIS_MAX_V1
  end.
Definition stop_reason (w : World) (budget : SolveDispatchBudget) : option BackendStopReason :=
  let snapshot := view_snapshot w (parent_view budget) in
  if cancelled snapshot then Some StopCancelled
  else if expired snapshot || (remaining_milliseconds snapshot =? 0) then Some StopDeadlineExceeded
  else if backend_limit budget <=? elapsed_milliseconds_value budget (remaining_milliseconds snapshot)
  then Some StopBackendLimitExceeded
  else None.
Definition dispatch_preparation_budget (budget : SolveDispatchBudget) (limits : PlanningIrLimitsV1) (id : nat)
    (env : nat → World) : PlanningPreparationBudget := budget_new (Solve (child_view budget)) limits id env.

(** ** Requests *)
Record SolveRequest := {
  sr_backend_id : string;
  sr_backend_version : string;
  sr_adapter_version : string;
  sr_problem : PlanningProblem;
  sr_summary : option PlanningProblemSummary;
  sr_prepared : option PreparedPlanningModel;
  sr_options : SolveOptions;
  sr_model_hash : string;
  sr_solve_fingerprint : string;
  sr_dispatch_budget : SolveDispatchBudget
}.
Section requests.
Context (blake3_hex : list Z → string).
(** [serde_json::to_vec]; [None] is a serialization error. *)
Context (serialize_options : SolveOptions → option (list Z)).

Definition SolveRequest_construct (w : World) (backend_id backend_version adapter_version : string)
    (problem : PlanningProblem) (summary : option PlanningProblemSummary)
    (prepared : option PreparedPlanningModel) (model_hash : string) (options : SolveOptions)
    (budget : SolveBudgetView) (backend_cap : option Z) (acceptance_reserve completion_reserve : Z) :
    option SolveRequest :=
  canonical_options ← serialize_options options;
  let solve_fingerprint := routed_solve_fingerprint blake3_hex
    {| sf_canonical_ir_hash := model_hash; sf_backend_id := backend_id; sf_backend_version := backend_version;
       sf_adapter_version := adapter_version; sf_canonical_options := canonical_options |} in
  Some {| sr_backend_id := backend_id; sr_backend_version := backend_version;
          sr_adapter_version := adapter_version; sr_problem := problem; sr_summary := summary;
          sr_prepared := prepared; sr_options := options; sr_model_hash := model_hash;
          sr_solve_fingerprint := solve_fingerprint;
          sr_dispatch_budget :=
            SolveDispatchBudget_from_view w budget backend_cap acceptance_reserve completion_reserve |}.
Definition SolveRequest_new (w : World) (backend_id backend_version adapter_version : string)
    (problem : PlanningProblem) (summary : PlanningProblemSummary) (options : SolveOptions)
    (budget : SolveBudgetView) (backend_cap : option Z) (acceptance_reserve completion_reserve : Z) :
    option SolveRequest :=
  SolveRequest_construct w backend_id backend_version adapter_version problem (Some summary) None
    (su_canonical_ir_hash summary) options budget backend_cap acceptance_reserve completion_reserve.
Definition SolveRequest_new_prepared (w : World) (backend_id backend_version adapter_version : string)
    (prepared : PreparedPlanningModel) (options : SolveOptions)
    (budget : SolveBudgetView) (backend_cap : option Z) (acceptance_reserve completion_reserve : Z) :
    option SolveRequest :=
  SolveRequest_construct w backend_id backend_version adapter_version (pp_problem prepared) None (Some prepared)
    (su_canonical_ir_hash (pp_summary prepared)) options budget backend_cap acceptance_reserve completion_reserve.
End requests.
(** [None] is the [unreachable!] of a request without a summary. *)
Definition sr_summary_of (request : SolveRequest) : option PlanningProblemSummary :=
  match sr_summary request, sr_prepared request with
  | Some summary, _ => Some summary
  | None, Some prepared => Some (pp_summary prepared)
  | None, None => None
  end.
Definition release_prepared (owners : nat) (request : SolveRequest) : Prep unit :=
  match sr_prepared request with
  | None => mret tt
  | Some prepared => release owners prepared
  end.

(** ** Diagnostics and evidence references *)
Definition MAX_DIAGNOSTIC_CODE_BYTES : Z := 96.
Definition MAX_DIAGNOSTIC_LINE_BYTES : Z := 512.
Definition MAX_EVIDENCE_ID_BYTES : Z := 160.
Record SafeDiagnosticLine := { dl_code : string; dl_message : string }.
Definition SafeDiagnosticLine_new (code message : string) : OR SafeDiagnosticLine :=
  if bool_decide (code = EmptyString) || (MAX_DIAGNOSTIC_CODE_BYTES <? str_len code)
     || negb (forallb (λ c, is_ascii_lowercase c || is_ascii_digit c
                            || bool_decide (c ∈ ["."%char; "_"%char; "-"%char]))
                (String.list_ascii_of_string code))
  then Err OeInvalidDiagnosticCode
  else if bool_decide (message = EmptyString) || (MAX_DIAGNOSTIC_LINE_BYTES <? str_len message)
          || existsb is_control (chars message)
  then Err OeUnsafeDiagnosticLine
  else Ok {| dl_code := code; dl_message := message |}.
Definition BackendEvidenceRef_new (value : string) : OR string :=
  let segments := split_dot (String.list_ascii_of_string value) in
  if (3 <=? str_len value) && (str_len value <=? MAX_EVIDENCE_ID_BYTES) && (2 <=? len segments)
     && forallb (λ segment, negb (bool_decide (segment = []))
          && forallb (λ c, is_ascii_lowercase c || is_ascii_digit c
                           || bool_decide (c ∈ ["_"%char; "-"%char])) segment) segments
  then Ok value else Err OeInvalidEvidenceRef.
(** [BackendError::new] and the conversion of an output error, whose message prints the error. *)
Record BackendError := { be_code : string; be_message : string }.
Definition BackendError_new (code message : string) : OR BackendError :=
  line ← SafeDiagnosticLine_new code message;
  Ok {| be_code := dl_code line; be_message := dl_message line |}.

(** ** Candidates, progress and outcomes *)
Record BackendObjectiveEvidence := { objective_values : list Z }.
Record ModelReductionSummary := { variables_removed : Z; constraints_removed : Z }.
Record IncumbentSummary := {
  is_sequence : Z; is_observed_after_milliseconds : Z; is_objective : option BackendObjectiveEvidence
}.
Record BoundSummary := { bs_observed_after_milliseconds : Z; bound_values : list Z }.
Inductive SolveStatus :=
| StatusOptimal | StatusFeasible | StatusInfeasible | StatusUnbounded | StatusNoSolutionWithinLimit
| StatusCancelled | StatusInvalidModel | StatusBackendUnavailable | StatusBackendFailed.
Record SolveCompletionSummary := { sc_status : SolveStatus; accepted_candidate_count : Z }.
(** A percentage is the bits of its [f32]. *)
Inductive SolveProgressEvent :=
| EvQueued
| EvCompiling (phase : string) (percent : option Z)
| EvBackendStarted (backend : string)
| EvPresolveSummary (summary : ModelReductionSummary)
| EvIncumbentFound (summary : IncumbentSummary)
| EvBoundImproved (summary : BoundSummary)
| EvLogLine (line : SafeDiagnosticLine)
| EvVerifying
| EvExplaining
| EvCompleted (summary : SolveCompletionSummary).
Record CandidateSubmission := {
  cs_values : CandidateValues;
  cs_observed_after_milliseconds : Z;
  cs_objective : option BackendObjectiveEvidence;
  cs_evidence_refs : list string
}.
Record BackendCandidate := {
  bc_sequence : Z;
  bc_values : CandidateValues;
  bc_observed_after_milliseconds : Z;
  bc_objective : option BackendObjectiveEvidence;
  bc_evidence_refs : list string
}.
Inductive BackendTerminationReason :=
| OptimalityClaimed | CandidateFound | InfeasibilityClaimed | UnboundedClaimed | TimeLimit | SolutionLimit
| TerminationCancelled | TerminationInvalidModel | TerminationUnavailable | TerminationFailed.
#[global] Instance BackendTerminationReason_eq_dec : EqDecision BackendTerminationReason.
Proof. solve_decision. Defined.
Record BackendTimingEvidence := {
  translation_serialization_milliseconds : Z;
  worker_startup_milliseconds : option Z;
  handshake_milliseconds : option Z;
  solver_milliseconds : option Z;
  protocol_decode_milliseconds : option Z
}.
Record BackendModelCountEvidence := {
  planning_variable_count : Z; planning_constraint_count : Z;
  bm_translated_variable_count : Z; bm_translated_constraint_count : Z
}.
Definition BACKEND_STATISTIC_MAX_V1 : Z := 9007199254740991.
Record BackendWorkerStatistics := {
  ws_wall_time_milliseconds : option Z; ws_user_time_milliseconds : option Z;
  ws_deterministic_time_milliseconds : option Z; ws_conflicts : option Z; ws_branches : option Z;
  ws_binary_propagations : option Z; ws_integer_propagations : option Z
}.
Record BackendAppliedParameterEvidence := {
  ap_wall_time_milliseconds : option Z; ap_memory_limit_bytes : option Z; ap_worker_threads : Z;
  ap_random_seed : Z; ap_stop_after_first_feasible : bool; ap_emit_intermediate_solutions : bool;
  ap_log_search_progress : bool; ap_deterministic_test_profile : bool
}.
Record BackendReproducibilityEvidence := {
  re_backend_version : string; re_adapter_version : string; re_worker_version : string;
  re_engine_version : string; re_protocol_major : Z; re_protocol_minor : Z;
  re_applied_options : SolveOptions; re_applied_parameters : BackendAppliedParameterEvidence;
  re_model_fingerprint_sha256 : string; re_applied_parameters_sha256 : option string
}.
Record BackendExecutionEvidence := {
  ee_timings : BackendTimingEvidence; ee_model_counts : BackendModelCountEvidence;
  ee_worker_statistics : option BackendWorkerStatistics; ee_reproducibility : BackendReproducibilityEvidence
}.
Inductive BackendAssumptionCoreUnavailableReason := CoreNotReturned | CoreInvalid.
Inductive BackendAssumptionCoreEvidence :=
| CoreSufficient (literals : list Literal)
| CoreUnavailable (reason : BackendAssumptionCoreUnavailableReason).
Record BackendTerminationEvidence := {
  te_remaining_at_dispatch_milliseconds : Z;
  te_backend_limit_milliseconds : Z;
  te_elapsed_milliseconds : Z;
  te_first_incumbent_milliseconds : option Z;
  te_objective : option BackendObjectiveEvidence;
  te_best_bound_values : option (list Z);
  te_assumption_core : option BackendAssumptionCoreEvidence;
  te_evidence_refs : list string;
  te_execution : option BackendExecutionEvidence
}.
Record BackendSolveOutcome := {
  oc_backend_id : string;
  oc_model_hash : string;
  oc_solve_fingerprint : string;
  oc_termination : BackendTerminationReason;
  oc_evidence : BackendTerminationEvidence
}.
Definition conclusive_status_without_candidate (outcome : BackendSolveOutcome) : option SolveStatus :=
  match oc_termination outcome with
  | InfeasibilityClaimed => Some StatusInfeasible
  | UnboundedClaimed => Some StatusUnbounded
  | TimeLimit | SolutionLimit => Some StatusNoSolutionWithinLimit
  | TerminationCancelled => Some StatusCancelled
  | TerminationInvalidModel => Some StatusInvalidModel
  | TerminationUnavailable => Some StatusBackendUnavailable
  | TerminationFailed => Some StatusBackendFailed
  | OptimalityClaimed | CandidateFound => None
  end.
Record BackendSolveResult := {
  br_outcome : BackendSolveOutcome; br_candidates : list BackendCandidate; br_progress_event_count : Z
}.

(** ** Validation of what a backend hands over *)
Definition validate_objective_evidence {E} (error : E) (evidence : option BackendObjectiveEvidence)
    (objective_level_count : Z) : Result E unit :=
  match evidence with
  | Some value => if negb (len (objective_values value) =? objective_level_count) then Err error else Ok tt
  | None => Ok tt
  end.
(** Finite and within [0.0..=100.0]: a non-negative [f32] orders like its bits, and [-0.0] is zero. *)
Definition valid_percent (bits : Z) : bool := (bits <=? 1120403456) || (bits =? 2 ^ 31).
Definition validate_progress_event (event : SolveProgressEvent) (objective_level_count : Z) : OR unit :=
  match event with
  | EvVerifying | EvExplaining | EvCompleted _ => Err OeBackendProgressAuthorityViolation
  | EvCompiling phase percent =>
      if bool_decide (phase = EmptyString) || (96 <? str_len phase) || existsb is_control (chars phase)
      then Err OeInvalidProgressPhase
      else match percent with
           | Some bits => if negb (valid_percent bits) then Err OeInvalidProgressPercent else Ok tt
           | None => Ok tt
           end
  | EvIncumbentFound summary =>
      validate_objective_evidence OeInvalidObjectiveDimension (is_objective summary) objective_level_count
  | EvBoundImproved summary =>
      if negb (len (bound_values summary) =? objective_level_count) then Err OeInvalidObjectiveDimension
      else Ok tt
  | EvQueued | EvBackendStarted _ | EvPresolveSummary _ | EvLogLine _ => Ok tt
  end.

(** The identifiers the loop collects, and its check of the integer values. *)
Definition expected_values (candidate : CandidateValues) (st : list string * list string) (variable : Variable_) :
    OR (list string * list string) :=
  let '(expected_bools, expected_ints) := st in
  match variable with
  | VBoolean value => Ok (expected_bools ++ [bv_id value], expected_ints)
  | VInteger value =>
      match integers candidate !! iv_id value with
      | Some v => if negb (contains (iv_domain value) v) then Err (OeOutOfDomain (iv_id value))
                  else Ok (expected_bools, expected_ints ++ [iv_id value])
      | None => Ok (expected_bools, expected_ints ++ [iv_id value])
      end
  | VInterval _ => Ok (expected_bools, expected_ints)
  end.
Definition reject_first (make : string → OutputError) (wrong : string → bool) (ids : list string) : OR unit :=
  match List.find wrong ids with Some id => Err (make id) | None => Ok tt end.
(** The sets of expected identifiers are ordered, like the maps of values. *)
Definition validate_candidate_values (problem : PlanningProblem) (candidate : CandidateValues) : OR unit :=
  '(expected_bools, expected_ints) ← fold_m (expected_values candidate) ([], []) (variables problem);
  _ ← reject_first OeUnknownBoolean (λ id, negb (bool_decide (id ∈ expected_bools)))
        (btree_iter (booleans candidate)).*1;
  _ ← reject_first OeUnknownInteger (λ id, negb (bool_decide (id ∈ expected_ints)))
        (btree_iter (integers candidate)).*1;
  _ ← reject_first OeMissingBoolean (λ id, bool_decide (booleans candidate !! id = None))
        (btree_set expected_bools);
  reject_first OeMissingInteger (λ id, bool_decide (integers candidate !! id = None)) (btree_set expected_ints).

(** Work and memory for the complete output of a diagnostic run. *)
Definition diagnostic_output_admission (problem : PlanningProblem) (limits : SolverApiLimits) :
    Result PlanningPreparationError (Z * Z) :=
  let scalars := List.filter (λ v, match v with VInterval _ => false | _ => true end) (variables problem) in
  let assignment_bound := Z.min (default u64_max (checked_u64 (len scalars))) (max_candidate_assignments limits) in
  let candidate_count := max_candidates limits in
  let evidence_bound := max_evidence_refs_per_candidate limits in
  per_candidate ← ok_or PrepArithmeticOverflow
    (v ← u64_checked_mul assignment_bound 256;
     v ← u64_checked_add v (u64_saturating_mul evidence_bound 192);
     u64_checked_add v 4096);
  retained_output ← ok_or PrepArithmeticOverflow (u64_checked_mul candidate_count per_candidate);
  per_validation ← ok_or PrepArithmeticOverflow
    (v ← u64_checked_mul assignment_bound 192; u64_checked_add v 8192);
  validation_maps ← ok_or PrepArithmeticOverflow (u64_checked_mul candidate_count per_validation);
  let clone_scratch := retained_output in
  transient ← ok_or PrepArithmeticOverflow
    (v ← u64_checked_add retained_output validation_maps; u64_checked_add v clone_scratch);
  per_work ← ok_or PrepArithmeticOverflow (v ← u64_checked_mul assignment_bound 8; u64_checked_add v 64);
  work ← ok_or PrepArithmeticOverflow (u64_checked_mul candidate_count per_work);
  Ok (work, transient).

(** ** The bounded sink *)
Record BoundedBackendOutput (Sink : Type) := {
  bo_problem : PlanningProblem;
  bo_progress : Sink;
  bo_dispatch_budget : SolveDispatchBudget;
  bo_limits : SolverApiLimits;
  bo_candidates : list BackendCandidate;
  bo_progress_event_count : Z;
  bo_candidate_assignment_count : Z;
  bo_contract_rejection : option OutputError;
  bo_diagnostic_line_count : Z;
  bo_preparation_reservation : Z
}.
Arguments bo_problem {_} _.
Arguments bo_progress {_} _.
Arguments bo_dispatch_budget {_} _.
Arguments bo_limits {_} _.
Arguments bo_candidates {_} _.
Arguments bo_progress_event_count {_} _.
Arguments bo_candidate_assignment_count {_} _.
Arguments bo_contract_rejection {_} _.
Arguments bo_diagnostic_line_count {_} _.
Arguments bo_preparation_reservation {_} _.

Section output.
(** The progress sink behind the output. *)
Context {Sink : Type} (emit : SolveProgressEvent → Sink → Result OutputError unit * Sink).
Notation Output := (BoundedBackendOutput Sink).
Notation OM := (SE Output OutputError).

Definition empty_output (problem : PlanningProblem) (progress : Sink) (dispatch_budget : SolveDispatchBudget)
    (limits : SolverApiLimits) (reservation : Z) : Output := {|
  bo_problem := problem; bo_progress := progress; bo_dispatch_budget := dispatch_budget; bo_limits := limits;
  bo_candidates := []; bo_progress_event_count := 0; bo_candidate_assignment_count := 0;
  bo_contract_rejection := None; bo_diagnostic_line_count := 0; bo_preparation_reservation := reservation |}.
Definition BoundedBackendOutput_new (problem : PlanningProblem) (progress : Sink)
    (dispatch_budget : SolveDispatchBudget) (limits : SolverApiLimits) : OR Output :=
  limits ← SolverApiLimits_validate limits;
  Ok (empty_output problem progress dispatch_budget limits 0).
Inductive BoundedOutputAdmissionError :=
| AdmissionOutput (e : OutputError)
| AdmissionPreparation (e : PlanningPreparationError).
Definition new_with_preparation (problem : PlanningProblem) (progress : Sink)
    (dispatch_budget : SolveDispatchBudget) (limits : SolverApiLimits) :
    SE PlanningPreparationBudget BoundedOutputAdmissionError Output := λ preparation,
  let '(checked, preparation) := budget_check preparation in
  match checked with
  | Err e => (Err (AdmissionPreparation e), preparation)
  | Ok _ =>
      match SolverApiLimits_validate limits with
      | Err e => (Err (AdmissionOutput e), preparation)
      | Ok limits =>
          match diagnostic_output_admission problem limits with
          | Err e => (Err (AdmissionPreparation e), preparation)
          | Ok (work, transient) =>
              let '(worked, preparation) := reserve_work work preparation in
              match worked with
              | Err e => (Err (AdmissionPreparation e), preparation)
              | Ok _ =>
                  let '(reserved, preparation) := reserve_transient transient preparation in
                  match reserved with
                  | Err e => (Err (AdmissionPreparation e), preparation)
                  | Ok _ => (Ok (empty_output problem progress dispatch_budget limits transient), preparation)
                  end
              end
          end
      end
  end.

Definition budget_error (w : World) (output : Output) : option OutputError :=
  match stop_reason w (bo_dispatch_budget output) with
  | Some StopCancelled => Some OeCancelled
  | Some StopDeadlineExceeded => Some OeParentDeadlineExceeded
  | Some StopBackendLimitExceeded => Some OeBackendLimitExceeded
  | None => None
  end.
Definition with_rejection (rejection : option OutputError) (output : Output) : Output := {|
  bo_problem := bo_problem output; bo_progress := bo_progress output;
  bo_dispatch_budget := bo_dispatch_budget output; bo_limits := bo_limits output;
  bo_candidates := bo_candidates output; bo_progress_event_count := bo_progress_event_count output;
  bo_candidate_assignment_count := bo_candidate_assignment_count output;
  bo_contract_rejection := rejection; bo_diagnostic_line_count := bo_diagnostic_line_count output;
  bo_preparation_reservation := bo_preparation_reservation output |}.
Definition reject {A} (error : OutputError) : OM A := λ output,
  (Err error,
   match bo_contract_rejection output with
   | None => with_rejection (Some error) output
   | Some _ => output
   end).
Definition with_progress (progress : Sink) (events lines : Z) (output : Output) : Output := {|
  bo_problem := bo_problem output; bo_progress := progress;
  bo_dispatch_budget := bo_dispatch_budget output; bo_limits := bo_limits output;
  bo_candidates := bo_candidates output; bo_progress_event_count := events;
  bo_candidate_assignment_count := bo_candidate_assignment_count output;
  bo_contract_rejection := bo_contract_rejection output; bo_diagnostic_line_count := lines;
  bo_preparation_reservation := bo_preparation_reservation output |}.
Definition is_log_line (event : SolveProgressEvent) : bool :=
  match event with EvLogLine _ => true | _ => false end.
Definition emit_progress (w : World) (event : SolveProgressEvent) : OM unit := λ output,
  match budget_error w output with
  | Some error => reject error output
  | None =>
      match validate_progress_event event (len (op_levels (objectives (bo_problem output)))) with
      | Err error => (Err error, output)
      | Ok _ =>
          if max_progress_events (bo_limits output) <=? bo_progress_event_count output
          then (Err OeProgressLimitExceeded, output)
          else if is_log_line event && (max_diagnostic_lines (bo_limits output) <=? bo_diagnostic_line_count output)
          then (Err OeDiagnosticLimitExceeded, output)
          else
            let lines := if is_log_line event then bo_diagnostic_line_count output + 1
                         else bo_diagnostic_line_count output in
            let '(sent, progress) := emit event (bo_progress output) in
            match sent with
            | Err error => (Err error, with_progress progress (bo_progress_event_count output) lines output)
            | Ok _ => (Ok tt, with_progress progress (bo_progress_event_count output + 1) lines output)
            end
      end
  end.

Definition assignment_count (candidate : CandidateValues) : Z :=
  Z.of_nat (size (booleans candidate)) + Z.of_nat (size (integers candidate)).
Definition with_candidate (accepted : BackendCandidate) (count : Z) (output : Output) : Output := {|
  bo_problem := bo_problem output; bo_progress := bo_progress output;
  bo_dispatch_budget := bo_dispatch_budget output; bo_limits := bo_limits output;
  bo_candidates := bo_candidates output ++ [accepted];
  bo_progress_event_count := bo_progress_event_count output;
  bo_candidate_assignment_count := count;
  bo_contract_rejection := bo_contract_rejection output;
  bo_diagnostic_line_count := bo_diagnostic_line_count output;
  bo_preparation_reservation := bo_preparation_reservation output |}.
(** [Vec::last] *)
Definition earlier_than_last (candidate : CandidateSubmission) (candidates : list BackendCandidate) : bool :=
  match last candidates with
  | Some previous => cs_observed_after_milliseconds candidate <? bc_observed_after_milliseconds previous
  | None => false
  end.
(** The budget is read on entry and again before the candidate is stored. *)
Definition submit_candidate (w_entry w_commit : World) (candidate : CandidateSubmission) : OM BackendCandidate :=
  λ output,
  match budget_error w_entry output with
  | Some error => reject error output
  | None =>
      if max_candidates (bo_limits output) <=? len (bo_candidates output)
      then reject OeCandidateLimitExceeded output
      else if max_evidence_refs_per_candidate (bo_limits output) <? len (cs_evidence_refs candidate)
      then reject OeEvidenceLimitExceeded output
      else
        match checked_u32 (assignment_count (cs_values candidate)) with
        | None => reject OeCandidateAssignmentLimitExceeded output
        | Some assignment_count =>
            match (count ← checked_u32 (bo_candidate_assignment_count output + assignment_count);
                   if count <=? max_candidate_assignments (bo_limits output) then Some count else None) with
            | None => reject OeCandidateAssignmentLimitExceeded output
            | Some next_assignment_count =>
                match validate_objective_evidence OeInvalidObjectiveDimension (cs_objective candidate)
                        (len (op_levels (objectives (bo_problem output)))) with
                | Err error => (Err error, output)
                | Ok _ =>
                    if earlier_than_last candidate (bo_candidates output)
                    then (Err OeNonMonotonicCandidateTime, output)
                    else
                      match validate_candidate_values (bo_problem output) (cs_values candidate) with
                      | Err error => (Err error, output)
                      | Ok _ =>
                          match checked_u32 (len (bo_candidates output) + 1) with
                          | None => (Err OeCandidateLimitExceeded, output)
                          | Some sequence =>
                              let accepted := {|
                                bc_sequence := sequence; bc_values := cs_values candidate;
                                bc_observed_after_milliseconds := cs_observed_after_milliseconds candidate;
                                bc_objective := cs_objective candidate;
                                bc_evidence_refs := cs_evidence_refs candidate |} in
                              match budget_error w_commit output with
                              | Some error => reject error output
                              | None => (Ok accepted, with_candidate accepted next_assignment_count output)
                              end
                          end
                      end
                end
            end
        end
  end.
Definition into_result (output : Output) (outcome : BackendSolveOutcome) : BackendSolveResult :=
  {| br_outcome := outcome; br_candidates := bo_candidates output;
     br_progress_event_count := bo_progress_event_count output |}.
Definition into_candidates_with_reservation (output : Output) : list BackendCandidate * Z :=
  (bo_candidates output, bo_preparation_reservation output).
End output.

(** * The checks on a finished outcome

    Models [validate_outcome] of [crates/eutheto-solver-api/src/preflight.rs]: what the router checks of a
    backend's terminal outcome and candidates before anything is projected or verified. *)
Inductive OutcomeError :=
| OcInvalidLimits
| OcBackendMismatch
| OcModelHashMismatch
| OcSolveFingerprintMismatch
| OcBudgetEvidenceMismatch
| OcBackendLimitExceeded
| OcInvalidFirstIncumbentTime
| OcOutputLimitExceeded
| OcCandidateAssignmentLimitExceeded
| OcInvalidObjectiveDimension
| OcBestBoundOutsideDeclaredRange
| OcBestBoundContradictsObjective
| OcNonMonotonicCandidateTime
| OcCandidateSequenceMismatch
| OcCandidateAfterTermination
| OcMissingCandidate
| OcCandidateContradictsTermination
| OcUnrequestedCancellation
| OcPrematureTimeLimit
| OcFirstIncumbentMismatch
| OcExecutionBackendVersionMismatch
| OcExecutionAdapterVersionMismatch
| OcExecutionOptionsMismatch
| OcExecutionModelCountMismatch
| OcInvalidExecutionEvidence
| OcInvalidAssumptionCoreEvidence.
Notation OC := (Result OutcomeError).
Definition oc_require (ok : bool) (error : OutcomeError) : OC unit := if ok then Ok tt else Err error.

(** ** Assumption cores *)
(** [slice::binary_search(..).is_ok()] on a strictly sorted slice, which the caller has checked, is
    membership. *)
Definition validate_assumption_core (request : SolveRequest) (outcome : BackendSolveOutcome) : OC unit :=
  let problem := sr_problem request in
  let safe_profile := negb (bool_decide (assumptions problem = []))
                      && bool_decide (op_levels (objectives problem) = [])
                      && bool_decide (so_worker_threads (sr_options request) = ThreadsExact 1) in
  let expected := safe_profile && bool_decide (oc_termination outcome = InfeasibilityClaimed) in
  match te_assumption_core (oc_evidence outcome) with
  | None => if expected then Err OcInvalidAssumptionCoreEvidence else Ok tt
  | Some core =>
      if negb expected then Err OcInvalidAssumptionCoreEvidence
      else
        match core with
        | CoreSufficient literals =>
            if bool_decide (literals = []) || (len (assumptions problem) <? len literals)
               || negb (forallb (λ '(a, b), ltb a b) (windows2 literals))
            then Err OcInvalidAssumptionCoreEvidence
            else
              let matched := len (List.filter (λ a, bool_decide (as_literal a ∈ literals)) (assumptions problem)) in
              if negb (matched =? len literals) then Err OcInvalidAssumptionCoreEvidence else Ok tt
        | CoreUnavailable _ => Ok tt
        end
  end.

(** ** Execution evidence *)
Definition is_ascii_graphic (c : ascii) : bool := (33 <=? byte_code c) && (byte_code c <=? 126).
Definition valid_version_field (value : string) : bool :=
  let bytes := String.list_ascii_of_string value in
  negb (bool_decide (bytes = [])) && (len bytes <=? 64) && forallb is_ascii_graphic bytes.
Definition valid_sha256 (value : string) : bool :=
  let bytes := String.list_ascii_of_string value in
  (len bytes =? 64)
  && forallb (λ c, is_ascii_digit c || ((97 <=? byte_code c) && (byte_code c <=? 102))) bytes.
Definition i32_try_from_u64 (n : Z) : option Z := if n <=? 2 ^ 31 - 1 then Some n else None.
Definition applied_parameters_mismatch (options : SolveOptions) (applied : BackendAppliedParameterEvidence)
    (expected_seed : Z) : bool :=
  negb (ap_random_seed applied =? expected_seed)
  || (ap_worker_threads applied =? 0)
  || negb (Bool.eqb (ap_stop_after_first_feasible applied) (so_stop_after_first_feasible options))
  || (ap_emit_intermediate_solutions applied && negb (so_collect_intermediate_solutions options))
  || negb (Bool.eqb (ap_deterministic_test_profile applied)
             (bool_decide (so_reproducibility options = Deterministic)))
  || match so_worker_threads options with
     | ThreadsExact count => negb (ap_worker_threads applied =? count)
     | ThreadsAuto => false
     end.
Definition timing_spans (t : BackendTimingEvidence) : list Z :=
  [translation_serialization_milliseconds t; default 0 (worker_startup_milliseconds t);
   default 0 (handshake_milliseconds t); default 0 (solver_milliseconds t);
   default 0 (protocol_decode_milliseconds t)].
Definition statistics_counters (s : BackendWorkerStatistics) : list Z :=
  omap id [ws_conflicts s; ws_branches s; ws_binary_propagations s; ws_integer_propagations s].
Definition validate_execution_evidence (request : SolveRequest) (outcome : BackendSolveOutcome) : OC unit :=
  match te_execution (oc_evidence outcome) with
  | None => Ok tt
  | Some execution =>
      let r := ee_reproducibility execution in
      let applied := re_applied_parameters r in
      _ ← oc_require (bool_decide (re_backend_version r = sr_backend_version request)) OcExecutionBackendVersionMismatch;
      _ ← oc_require (bool_decide (re_adapter_version r = sr_adapter_version request)) OcExecutionAdapterVersionMismatch;
      _ ← oc_require (bool_decide (re_applied_options r = sr_options request)) OcExecutionOptionsMismatch;
      expected_seed ← ok_or OcInvalidExecutionEvidence (i32_try_from_u64 (so_random_seed (sr_options request)));
      _ ← oc_require (negb (applied_parameters_mismatch (sr_options request) applied expected_seed))
            OcInvalidExecutionEvidence;
      (** Every constructed request has a summary. *)
      summary ← ok_or OcExecutionModelCountMismatch (sr_summary_of request);
      _ ← oc_require ((planning_variable_count (ee_model_counts execution) =? su_variable_count summary)
                      && (planning_constraint_count (ee_model_counts execution) =? su_constraint_count summary))
            OcExecutionModelCountMismatch;
      _ ← oc_require (negb (existsb (λ v, te_elapsed_milliseconds (oc_evidence outcome) <? v)
                              (timing_spans (ee_timings execution))
                            || match ap_wall_time_milliseconds applied with
                               | Some v => (v =? 0) || (te_backend_limit_milliseconds (oc_evidence outcome) <? v)
                               | None => false
                               end)) OcInvalidExecutionEvidence;
      oc_require (negb ((re_protocol_major r =? 0)
                        || negb (valid_version_field (re_worker_version r))
                        || negb (valid_version_field (re_engine_version r))
                        || negb (valid_sha256 (re_model_fingerprint_sha256 r))
                        || match re_applied_parameters_sha256 r with
                           | Some v => negb (valid_sha256 v) | None => false end
                        || match ee_worker_statistics execution with
                           | Some s => existsb (λ v, BACKEND_STATISTIC_MAX_V1 <? v) (statistics_counters s)
                           | None => false
                           end)) OcInvalidExecutionEvidence
  end.

(** ** Candidates *)
Definition add_assignments (limits : SolverApiLimits) (count : Z) (candidate : BackendCandidate) : OC Z :=
  candidate_count ← ok_or OcCandidateAssignmentLimitExceeded
    (booleans_ ← checked_u64 (Z.of_nat (size (booleans (bc_values candidate))));
     integers_ ← checked_u64 (Z.of_nat (size (integers (bc_values candidate))));
     u64_checked_add booleans_ integers_);
  ok_or OcCandidateAssignmentLimitExceeded
    (total ← u64_checked_add count candidate_count;
     if total <=? max_candidate_assignments limits then Some total else None).
Definition validate_candidate (levels termination_elapsed : Z) (candidates : list BackendCandidate) (index : nat)
    (candidate : BackendCandidate) : OC unit :=
  expected ← ok_or OcOutputLimitExceeded (checked_u32 (Z.of_nat index + 1));
  _ ← oc_require (bc_sequence candidate =? expected) OcCandidateSequenceMismatch;
  _ ← oc_require (bc_observed_after_milliseconds candidate <=? termination_elapsed) OcCandidateAfterTermination;
  _ ← validate_objective_evidence OcInvalidObjectiveDimension (bc_objective candidate) levels;
  oc_require (negb (match index with
                    | O => false
                    | S previous =>
                        match candidates !! previous with
                        | Some p => bc_observed_after_milliseconds candidate <? bc_observed_after_milliseconds p
                        | None => false
                        end
                    end)) OcNonMonotonicCandidateTime.
Definition validate_candidates (request : SolveRequest) (candidates : list BackendCandidate)
    (limits : SolverApiLimits) (termination_elapsed : Z) : OC unit :=
  _ ← oc_require (len candidates <=? max_candidates limits) OcOutputLimitExceeded;
  _ ← fold_m (add_assignments limits) 0 candidates;
  let levels := len (op_levels (objectives (sr_problem request))) in
  enumerate_each (validate_candidate levels termination_elapsed candidates) candidates.

(** ** Bounds *)
Definition bound_consistent (direction : OptimizationDirection) (bound value : Z) : bool :=
  match direction with Minimize => bound <=? value | Maximize => value <=? bound end.
Definition validate_bound_level (evidence : list BackendObjectiveEvidence) (index : nat)
    (entry : Z * ObjectiveLevel) : OC unit :=
  let '(bound, level) := entry in
  _ ← oc_require ((ol_lower_bound level <=? bound) && (bound <=? ol_upper_bound level))
        OcBestBoundOutsideDeclaredRange;
  for_each (λ evidence,
    value ← ok_or OcInvalidObjectiveDimension (objective_values evidence !! index);
    oc_require (bound_consistent (ol_direction level) bound value) OcBestBoundContradictsObjective) evidence.
Definition validate_best_bound_evidence (request : SolveRequest) (bounds : option (list Z))
    (objective : option BackendObjectiveEvidence) (candidates : list BackendCandidate) : OC unit :=
  match bounds with
  | None => Ok tt
  | Some bounds =>
      let levels := op_levels (objectives (sr_problem request)) in
      if bool_decide (levels = []) || bool_decide (bounds = []) || negb (len bounds =? len levels)
      then Err OcInvalidObjectiveDimension
      else enumerate_each (validate_bound_level (option_list objective ++ omap bc_objective candidates))
             (zip bounds levels)
  end.

(** ** The whole outcome *)
Definition termination_coherent (w_measured w_cancelled : World) (request : SolveRequest)
    (outcome : BackendSolveOutcome) (has_candidates : bool) : OC unit :=
  let budget := sr_dispatch_budget request in
  let measured_elapsed := elapsed_milliseconds w_measured budget in
  let elapsed := te_elapsed_milliseconds (oc_evidence outcome) in
  match oc_termination outcome with
  | OptimalityClaimed | CandidateFound => oc_require has_candidates OcMissingCandidate
  | InfeasibilityClaimed | UnboundedClaimed | TerminationInvalidModel | TerminationUnavailable
  | TerminationFailed => oc_require (negb has_candidates) OcCandidateContradictsTermination
  | TerminationCancelled =>
      oc_require (cancelled (view_snapshot w_cancelled (child_view budget))) OcUnrequestedCancellation
  | TimeLimit =>
      oc_require (negb ((measured_elapsed <? search_limit budget) || (elapsed <? search_limit budget)
                        || (measured_elapsed <? elapsed))) OcPrematureTimeLimit
  | SolutionLimit => Ok tt
  end.
Definition validate_outcome (w_measured w_cancelled : World) (request : SolveRequest)
    (outcome : BackendSolveOutcome) (candidates : list BackendCandidate) (limits : SolverApiLimits) : OC unit :=
  let evidence := oc_evidence outcome in
  let levels := len (op_levels (objectives (sr_problem request))) in
  _ ← map_err (λ _, OcInvalidLimits) (SolverApiLimits_validate limits);
  _ ← oc_require (bool_decide (oc_backend_id outcome = sr_backend_id request)) OcBackendMismatch;
  _ ← oc_require (bool_decide (oc_model_hash outcome = sr_model_hash request)) OcModelHashMismatch;
  _ ← oc_require (bool_decide (oc_solve_fingerprint outcome = sr_solve_fingerprint request)) OcSolveFingerprintMismatch;
  _ ← oc_require ((te_remaining_at_dispatch_milliseconds evidence =? remaining_at_dispatch (sr_dispatch_budget request))
                  && (te_backend_limit_milliseconds evidence =? backend_limit (sr_dispatch_budget request)))
        OcBudgetEvidenceMismatch;
  _ ← oc_require (te_elapsed_milliseconds evidence <=? te_backend_limit_milliseconds evidence) OcBackendLimitExceeded;
  _ ← oc_require (match te_first_incumbent_milliseconds evidence with
                  | Some value => value <=? te_elapsed_milliseconds evidence | None => true end)
        OcInvalidFirstIncumbentTime;
  _ ← validate_execution_evidence request outcome;
  _ ← validate_assumption_core request outcome;
  _ ← oc_require (len (te_evidence_refs evidence) <=? max_evidence_refs_per_candidate limits) OcOutputLimitExceeded;
  _ ← validate_objective_evidence OcInvalidObjectiveDimension (te_objective evidence) levels;
  _ ← validate_candidates request candidates limits (te_elapsed_milliseconds evidence);
  _ ← validate_best_bound_evidence request (te_best_bound_values evidence) (te_objective evidence) candidates;
  _ ← termination_coherent w_measured w_cancelled request outcome (negb (bool_decide (candidates = [])));
  oc_require (bool_decide (te_first_incumbent_milliseconds evidence
                           = bc_observed_after_milliseconds <$> head candidates)) OcFirstIncumbentMismatch.
