(* ===== verification/Adapter.v ===== *)
(** * Worker terminals, evidence and progress

    Models [status.rs], [evidence.rs] and [progress.rs] of [crates/eutheto-solver-ortools/src]: how a
    protocol-validated completion is classified, the exact evidence the adapter retains while a worker
    runs, and the worker bounds that can be reported exactly. *)
From stdpp Require Import base tactics list gmap strings.
From Stdlib Require Import ZArith Lia.
From S2P Require Import Prelude Ordering Protocol Control Budget DomainIr Model Analysis Projection Session.
From S2P Require Import Translation SolverApi.
Open Scope Z_scope.

(** ** Terminals *)
Inductive CandidateProofClaim := ProofOptimal | ProofFeasible.
Inductive WorkerLimitKind := LimitTime | LimitSolution | LimitMemory | LimitResource.
Inductive CandidateStopCause := CauseOptimal | CauseLimit (limit : WorkerLimitKind).
Inductive AdapterDefectKind := InvalidTranslatedModel | UnsupportedTranslatedModel | InvalidAppliedParameters.
Inductive WorkerUnavailableKind := UnavailableHandshakeRejected | UnavailableOrToolsInitialization.
Inductive WorkerFailureKind :=
| FailureMalformedFrame | FailureProtocolViolation | FailureInternal | FailureUnknownTermination
| FailureProtocolInvariant.
Inductive NormalizedWorkerTerminal :=
| TerminalCandidate (proof : CandidateProofClaim) (stopped_by : CandidateStopCause)
| TerminalInfeasible
| TerminalNoSolutionWithinLimit (limit : WorkerLimitKind)
| TerminalCancelled (candidate_available : bool)
| TerminalAdapterDefect (kind : AdapterDefectKind)
| TerminalBackendUnavailable (kind : WorkerUnavailableKind)
| TerminalBackendFailed (kind : WorkerFailureKind) (retryable : bool).
Definition feasible_at_limit (limit : WorkerLimitKind) : NormalizedWorkerTerminal :=
  TerminalCandidate ProofFeasible (CauseLimit limit).
Definition normalize_finished (finished : Finished) : NormalizedWorkerTerminal :=
  let status := WorkerSolveStatus_try_from (fn_status finished) in
  let termination := TerminationReason_try_from (fn_termination_reason finished) in
  let candidate_available := bool_decide (is_Some (fn_final_candidate finished)) in
  match status, termination with
  | Some WsOptimal, Some TrOptimal => TerminalCandidate ProofOptimal CauseOptimal
  | Some WsFeasible, Some TrTimeLimit => feasible_at_limit LimitTime
  | Some WsFeasible, Some TrSolutionLimit => feasible_at_limit LimitSolution
  | Some WsFeasible, Some TrMemoryLimit => feasible_at_limit LimitMemory
  | Some WsFeasible, Some TrCancelled => TerminalCancelled true
  | Some WsInfeasible, Some TrInfeasible => TerminalInfeasible
  | Some WsNoSolution, Some TrTimeLimit => TerminalNoSolutionWithinLimit LimitTime
  | Some WsNoSolution, Some TrMemoryLimit => TerminalNoSolutionWithinLimit LimitMemory
  | Some WsCancelled, Some TrCancelled => TerminalCancelled candidate_available
  | Some WsInvalidModel, Some TrInvalidModel => TerminalAdapterDefect InvalidTranslatedModel
  | Some WsFailed, Some TrInternalError => TerminalBackendFailed FailureInternal false
  | Some WsNoSolution, Some TrUnknown => TerminalBackendFailed FailureUnknownTermination false
  | _, _ => TerminalBackendFailed FailureProtocolInvariant false
  end.
Definition normalize_worker_error (error : WorkerError) : NormalizedWorkerTerminal :=
  match WorkerErrorCode_try_from (we_code error) with
  | Some MalformedFrame => TerminalBackendFailed FailureMalformedFrame (we_retryable error)
  | Some ProtocolViolation => TerminalBackendFailed FailureProtocolViolation (we_retryable error)
  | Some UnsupportedModel => TerminalAdapterDefect UnsupportedTranslatedModel
  | Some WecInvalidModel => TerminalAdapterDefect InvalidTranslatedModel
  | Some InvalidParameters => TerminalAdapterDefect InvalidAppliedParameters
  | Some ResourceLimit => TerminalNoSolutionWithinLimit LimitResource
  | Some OrtoolsInitialization => TerminalBackendUnavailable UnavailableOrToolsInitialization
  | Some WecInternal => TerminalBackendFailed FailureInternal (we_retryable error)
  | Some WecUnspecified | None => TerminalBackendFailed FailureProtocolInvariant false
  end.
Definition normalize_terminal (completion : CompletedSession) : NormalizedWorkerTerminal :=
  match completion with
  | CompletedRejection _ => TerminalBackendUnavailable UnavailableHandshakeRejected
  | CompletedSolve evidence =>
      match worker_body (terminal_frame evidence) with
      | Some (WorkerFinished finished) => normalize_finished finished
      | Some (WorkerErrorBody error) => normalize_worker_error error
      | _ => TerminalBackendFailed FailureProtocolInvariant false
      end
  end.

(** ** Evidence *)
Record ObjectiveContract := { oc_direction : OptimizationDirection; oc_lower_bound : Z; oc_upper_bound : Z }.
Record AdapterEvidenceRecorder := {
  ar_remaining_at_dispatch_milliseconds : Z;
  ar_backend_limit_milliseconds : Z;
  ar_objective_contracts : list ObjectiveContract;
  ar_first_incumbent_milliseconds : option Z;
  ar_last_observed_milliseconds : option Z;
  ar_latest_objective : option BackendObjectiveEvidence;
  ar_latest_bound_values : option (list Z);
  ar_assumption_core : option BackendAssumptionCoreEvidence
}.
Inductive AdapterEvidenceError :=
| NonMonotonicObservationTime
| MissingObjectiveEvidence
| UnexpectedObjectiveEvidence
| ObjectiveDimensionMismatch
| BoundUnavailableForObjectivePlan
| BoundOutsideDeclaredRange
| BoundContradictsCandidate
| BoundRegressed
| CompletionBeforeObservation.
Notation AE := (Result AdapterEvidenceError).
Definition with_contracts (contracts : list ObjectiveContract) (remaining limit : Z) : AdapterEvidenceRecorder := {|
  ar_remaining_at_dispatch_milliseconds := remaining; ar_backend_limit_milliseconds := limit;
  ar_objective_contracts := contracts; ar_first_incumbent_milliseconds := None;
  ar_last_observed_milliseconds := None; ar_latest_objective := None; ar_latest_bound_values := None;
  ar_assumption_core := None |}.
Definition contract_of (level : ObjectiveLevel) : ObjectiveContract := {|
  oc_direction := ol_direction level; oc_lower_bound := ol_lower_bound level;
  oc_upper_bound := ol_upper_bound level |}.
Definition AdapterEvidenceRecorder_new (translated : TranslatedCpSatModel) (remaining limit : Z) :
    AdapterEvidenceRecorder :=
  with_contracts (contract_of <$> op_levels (objective_plan translated)) remaining limit.
Definition validate_bound_against_objective (r : AdapterEvidenceRecorder) (bounds objective : list Z) : AE unit :=
  match ar_objective_contracts r with
  | [contract] =>
      match bounds, objective with
      | [bound], [objective] =>
          let consistent := match oc_direction contract with
                            | Minimize => bound <=? objective
                            | Maximize => objective <=? bound
                            end in
          if consistent then Ok tt else Err BoundContradictsCandidate
      | _, _ => Err ObjectiveDimensionMismatch
      end
  | _ => Err BoundUnavailableForObjectivePlan
  end.
Definition validate_time (r : AdapterEvidenceRecorder) (observed : Z) : AE unit :=
  match ar_last_observed_milliseconds r with
  | Some previous => if observed <? previous then Err NonMonotonicObservationTime else Ok tt
  | None => Ok tt
  end.
Definition bound_strictly_improves (direction : OptimizationDirection) (previous next : Z) : bool :=
  match direction with Minimize => previous <? next | Maximize => next <? previous end.
Definition observed_candidate (objective : option BackendObjectiveEvidence) (observed : Z)
    (r : AdapterEvidenceRecorder) : AdapterEvidenceRecorder := {|
  ar_remaining_at_dispatch_milliseconds := ar_remaining_at_dispatch_milliseconds r;
  ar_backend_limit_milliseconds := ar_backend_limit_milliseconds r;
  ar_objective_contracts := ar_objective_contracts r;
  ar_first_incumbent_milliseconds :=
    match ar_first_incumbent_milliseconds r with None => Some observed | Some first => Some first end;
  ar_last_observed_milliseconds := Some observed;
  ar_latest_objective := objective;
  ar_latest_bound_values := ar_latest_bound_values r;
  ar_assumption_core := ar_assumption_core r |}.
Definition record_candidate_evidence (objective : option BackendObjectiveEvidence) (observed : Z)
    (r : AdapterEvidenceRecorder) : AE AdapterEvidenceRecorder :=
  objective ← match objective, bool_decide (ar_objective_contracts r = []) with
              | None, true => Ok None
              | None, false => Err MissingObjectiveEvidence
              | Some _, true => Err UnexpectedObjectiveEvidence
              | Some objective, false =>
                  if negb (len (objective_values objective) =? len (ar_objective_contracts r))
                  then Err ObjectiveDimensionMismatch
                  else
                    _ ← match ar_latest_bound_values r with
                        | Some bound => validate_bound_against_objective r bound (objective_values objective)
                        | None => Ok tt
                        end;
                    Ok (Some objective)
              end;
  _ ← validate_time r observed;
  Ok (observed_candidate objective observed r).
Definition record_candidate (candidate : BackendCandidate) : AdapterEvidenceRecorder → AE AdapterEvidenceRecorder :=
  record_candidate_evidence (bc_objective candidate) (bc_observed_after_milliseconds candidate).
Definition record_submission (candidate : CandidateSubmission) : AdapterEvidenceRecorder → AE AdapterEvidenceRecorder :=
  record_candidate_evidence (cs_objective candidate) (cs_observed_after_milliseconds candidate).
Definition observed_bound (bounds : option (list Z)) (observed : Z) (r : AdapterEvidenceRecorder) :
    AdapterEvidenceRecorder := {|
  ar_remaining_at_dispatch_milliseconds := ar_remaining_at_dispatch_milliseconds r;
  ar_backend_limit_milliseconds := ar_backend_limit_milliseconds r;
  ar_objective_contracts := ar_objective_contracts r;
  ar_first_incumbent_milliseconds := ar_first_incumbent_milliseconds r;
  ar_last_observed_milliseconds := Some observed;
  ar_latest_objective := ar_latest_objective r;
  ar_latest_bound_values := bounds;
  ar_assumption_core := ar_assumption_core r |}.
(** [Ok false] is an exact duplicate, which only moves the observation time. *)
Definition record_bound (bound : BoundSummary) (r : AdapterEvidenceRecorder) : AE (bool * AdapterEvidenceRecorder) :=
  let observed := bs_observed_after_milliseconds bound in
  match ar_objective_contracts r with
  | [contract] =>
      match bound_values bound with
      | [bound_value] =>
          if negb ((oc_lower_bound contract <=? bound_value) && (bound_value <=? oc_upper_bound contract))
          then Err BoundOutsideDeclaredRange
          else
            let record :=
              _ ← match ar_latest_objective r with
                  | Some objective => validate_bound_against_objective r (bound_values bound) (objective_values objective)
                  | None => Ok tt
                  end;
              _ ← validate_time r observed;
              Ok (true, observed_bound (Some (bound_values bound)) observed r) in
            match ar_latest_bound_values r ≫= head with
            | Some previous =>
                if previous =? bound_value then
                  _ ← validate_time r observed;
                  Ok (false, observed_bound (ar_latest_bound_values r) observed r)
                else if negb (bound_strictly_improves (oc_direction contract) previous bound_value)
                then Err BoundRegressed
                else record
            | None => record
            end
      | _ => Err ObjectiveDimensionMismatch
      end
  | _ => Err BoundUnavailableForObjectivePlan
  end.
Definition record_assumption_core (core : BackendAssumptionCoreEvidence) (r : AdapterEvidenceRecorder) :
    AdapterEvidenceRecorder := {|
  ar_remaining_at_dispatch_milliseconds := ar_remaining_at_dispatch_milliseconds r;
  ar_backend_limit_milliseconds := ar_backend_limit_milliseconds r;
  ar_objective_contracts := ar_objective_contracts r;
  ar_first_incumbent_milliseconds := ar_first_incumbent_milliseconds r;
  ar_last_observed_milliseconds := ar_last_observed_milliseconds r;
  ar_latest_objective := ar_latest_objective r;
  ar_latest_bound_values := ar_latest_bound_values r;
  ar_assumption_core := Some core |}.
Definition recorder_finish (elapsed : Z) (r : AdapterEvidenceRecorder) : AE BackendTerminationEvidence :=
  if match ar_last_observed_milliseconds r with Some observed => elapsed <? observed | None => false end
  then Err CompletionBeforeObservation
  else Ok {| te_remaining_at_dispatch_milliseconds := ar_remaining_at_dispatch_milliseconds r;
             te_backend_limit_milliseconds := ar_backend_limit_milliseconds r;
             te_elapsed_milliseconds := elapsed;
             te_first_incumbent_milliseconds := ar_first_incumbent_milliseconds r;
             te_objective := ar_latest_objective r;
             te_best_bound_values := ar_latest_bound_values r;
             te_assumption_core := ar_assumption_core r;
             te_evidence_refs := [];
             te_execution := None |}.

(** ** Progress *)
(** The value of a finite [f64] with no fractional part, from its bits; [None] for the others. *)
Definition f64_integer (bits : Z) : option Z :=
  let exponent := bits / 2 ^ 52 mod 2 ^ 11 in
  let fraction := bits mod 2 ^ 52 in
  let mantissa := if exponent =? 0 then fraction else 2 ^ 52 + fraction in
  let shift := Z.max exponent 1 - 1075 in
  if exponent =? 2047 then None
  else
    magnitude ← (if 0 <=? shift then Some (mantissa * 2 ^ shift)
                 else if mantissa mod 2 ^ (- shift) =? 0 then Some (mantissa / 2 ^ (- shift)) else None);
    Some (if bits <? 2 ^ 63 then magnitude else - magnitude).
Definition MAX_SAFE_F64_INTEGER : Z := 9007199254740991.
Definition i64_checked_neg (a : Z) : option Z := checked_i64 (- a).
Definition exact_level_bound (level : ObjectiveLevel) (weight native_bound : Z) : option Z :=
  if weight <=? 0 then None
  else
    native_bound ← f64_integer native_bound;
    if negb ((- MAX_SAFE_F64_INTEGER <=? native_bound) && (native_bound <=? MAX_SAFE_F64_INTEGER)) then None
    else
      signed ← match ol_direction level with
               | Minimize => Some native_bound
               | Maximize => i64_checked_neg native_bound
               end;
      if negb (Z.rem signed weight =? 0) then None
      else
        let bound := Z.quot signed weight in
        if (ol_lower_bound level <=? bound) && (bound <=? ol_upper_bound level) then Some bound else None.
Definition exact_single_level_bound (translated : TranslatedCpSatModel) (native_bounds : list Z) : option Z :=
  match op_levels (objective_plan translated), native_bounds with
  | [level], [native_bound] =>
      weight ← objective_weight translated (ol_id level);
      exact_level_bound level weight native_bound
  | _, _ => None
  end.
Inductive OrToolsProgressError := InvalidProgressKind (kind : Z).
Definition bound_progress (translated : TranslatedCpSatModel) (progress : Progress) (observed : Z) :
    Result OrToolsProgressError (option SolveProgressEvent) :=
  match ProgressKind_try_from (pg_kind progress) with
  | None | Some PkUnspecified => Err (InvalidProgressKind (pg_kind progress))
  | Some Presolve | Some Search => Ok None
  | Some BoundImproved =>
      Ok ((λ bound, EvBoundImproved {| bs_observed_after_milliseconds := observed; bound_values := [bound] |})
          <$> exact_single_level_bound translated (pg_best_bound_values progress))
  end.
Definition candidate_submission (translated : TranslatedCpSatModel) (candidate : ProjectedCandidate) (observed : Z) :
    CD CandidateSubmission :=
  decoded ← decode_projected_candidate translated candidate;
  Ok {| cs_values := dc_values decoded;
        cs_observed_after_milliseconds := observed;
        cs_objective := if bool_decide (dc_objective_values decoded = []) then None
                        else Some {| objective_values := dc_objective_values decoded |};
        cs_evidence_refs := [] |}.
Definition candidate_progress (candidate : BackendCandidate) : SolveProgressEvent :=
  EvIncumbentFound {| is_sequence := bc_sequence candidate;
                      is_observed_after_milliseconds := bc_observed_after_milliseconds candidate;
                      is_objective := bc_objective candidate |}.
