(* ===== verification/AdapterFacts.v ===== *)
(** * The adapter reports what happened

    Completed sessions are classified by the raw CP-SAT status; a worker bound is reported only when it
    bounds the level of every feasible assignment; and the recorder's final evidence is the first and the
    latest observation, in order of time, with a bound no recorded objective contradicts. *)
From stdpp Require Import base tactics list gmap strings.
From Stdlib Require Import ZArith Lia Sorted.
From S2P Require Import Prelude Ordering Protocol Control Budget Ids DomainIr Model Analysis Validation.
From S2P Require Import Bounds Scoping Lexicographic Admission Projection Evaluator EvaluatorFacts Session SessionFacts.
From S2P Require Import Translation TranslationFacts TranslationExact SolverApi Adapter.
Open Scope Z_scope.

(** ** Terminals *)
Lemma coherent_raw raw status termination available :
  finished_outcome_is_coherent raw status termination available = true →
  raw = 0 ∨ raw = 1 ∨ raw = 2 ∨ raw = 3 ∨ raw = 4.
Proof.
  destruct raw as [|p|p]; [by left| |done]. destruct p as [[p|p|]|[p|p|]|]; try done; [|destruct p; try done|..]; lia.
Qed.
Lemma coherent_normalized finished status termination :
  WorkerSolveStatus_try_from (fn_status finished) = Some status →
  TerminationReason_try_from (fn_termination_reason finished) = Some termination →
  finished_outcome_is_coherent (fn_raw_cp_sat_status finished) status termination
    (bool_decide (is_Some (fn_final_candidate finished))) = true →
  let terminal := normalize_finished finished in
  (∀ retryable, terminal ≠ TerminalBackendFailed FailureProtocolInvariant retryable) ∧
  (terminal = TerminalCandidate ProofOptimal CauseOptimal ↔ fn_raw_cp_sat_status finished = 4) ∧
  (terminal = TerminalInfeasible ↔ fn_raw_cp_sat_status finished = 3) ∧
  (∀ proof cause, terminal = TerminalCandidate proof cause → is_Some (fn_final_candidate finished)) ∧
  (∀ available, terminal = TerminalCancelled available →
     available = bool_decide (is_Some (fn_final_candidate finished))).
Proof.
  intros Hs Ht. unfold normalize_finished. rewrite Hs, Ht. generalize (fn_raw_cp_sat_status finished) as raw.
  intros raw Hcoherent. pose proof (coherent_raw _ _ _ _ Hcoherent) as Hraw. revert Hcoherent.
  destruct (bool_decide_reflect (is_Some (fn_final_candidate finished))) as [Hc|Hc];
    destruct Hraw as [-> |[-> |[-> |[-> | ->]]]]; destruct status, termination; cbn;
    intros; try discriminate; split_and!; intros; simplify_eq; try done; split; done.
Qed.

(** A completed session is classified by what CP-SAT itself reported: optimality exactly for
    the raw status OPTIMAL, infeasibility exactly for INFEASIBLE, a candidate only when the finished
    frame carries one, cancellation with the right availability; and no completed session is an
    invariant failure. *)
Theorem terminal_classification_exact sha256 semver_parses ex events completion :
  into_completion (run_session sha256 semver_parses ex events) = Ok completion →
  let terminal := normalize_terminal completion in
  (∀ retryable, terminal ≠ TerminalBackendFailed FailureProtocolInvariant retryable) ∧
  (∀ evidence finished, completion = CompletedSolve evidence →
     worker_body (terminal_frame evidence) = Some (WorkerFinished finished) →
     (terminal = TerminalCandidate ProofOptimal CauseOptimal ↔ fn_raw_cp_sat_status finished = 4) ∧
     (terminal = TerminalInfeasible ↔ fn_raw_cp_sat_status finished = 3) ∧
     (∀ proof cause, terminal = TerminalCandidate proof cause → is_Some (fn_final_candidate finished)) ∧
     (∀ available, terminal = TerminalCancelled available →
        available = bool_decide (is_Some (fn_final_candidate finished)))).
Proof.
  unfold into_completion. pose proof (run_consistent sha256 semver_parses ex events) as [_ Hx].
  destruct (phase _) as [| | | | | | | | | |e|]; try done; intros [= <-]; cbn [normalize_terminal].
  { split; [done|]. intros ev finished [=]. }
  cbn in Hx. remember (terminal_frame e) as f eqn:Hf. destruct Hx as [ev0 c r frame _ [(fin & Hw & _ & Hfin)|(err & code & Hw & _ & Hcode & Hne & _)]]; rewrite Hw.
  - apply validate_finished_Ok in Hfin as (_ & _ & (status & termination & H1 & H2 & H3) & _).
    destruct (coherent_normalized _ _ _ H1 H2 H3) as (Hinv & Hrest). split; [done|].
    intros ev finished [= <-] Hb. rewrite <-Hf, Hw in Hb. injection Hb as <-. exact Hrest.
  - split; [|intros ev finished [= <-] Hb; rewrite <-Hf, Hw in Hb; done].
    intros retryable. unfold normalize_worker_error. rewrite Hcode. by destruct code.
Qed.

(** ** Bounds *)
Lemma exact_level_bound_scaled level weight bits b :
  exact_level_bound level weight bits = Some b →
  0 < weight ∧ ol_lower_bound level ≤ b ≤ ol_upper_bound level ∧
  f64_integer bits = Some (signed (ol_direction level) (b * weight)).
Proof.
  unfold exact_level_bound. destruct (Z.leb_spec weight 0); [done|]. destruct (f64_integer bits) as [v|]; [|done]. cbn.
  destruct (negb _); [done|]. intros Hb.
  assert (∃ s, signed (ol_direction level) s = v ∧
    (if negb (Z.rem s weight =? 0) then None
     else if (ol_lower_bound level <=? Z.quot s weight) && (Z.quot s weight <=? ol_upper_bound level)
          then Some (Z.quot s weight) else None) = Some b) as (s & Hs & Hsb).
  { destruct (ol_direction level); cbn in Hb.
    - by exists v.
    - unfold i64_checked_neg in Hb. destruct (checked_i64 (- v)) as [s|] eqn:Hs; [|done].
      apply checked_i64_Some in Hs as [-> _]. exists (- v). split; [cbn; lia|done]. }
  destruct (Z.eqb_spec (Z.rem s weight) 0) as [Hr|]; [|done]. cbn [negb] in Hsb.
  destruct (_ && _) eqn:Hrange; [|done]. injection Hsb as <-. apply andb_true_iff in Hrange as [H1%Z.leb_le H2%Z.leb_le].
  split_and!; [done..|]. rewrite <-Hs. do 2 f_equal. pose proof (Z.quot_rem' s weight). lia.
Qed.
Lemma bound_transfers direction weight b v :
  0 < weight → signed direction (b * weight) ≤ weight * signed direction v → bound_consistent direction b v = true.
Proof. intros Hw. destruct direction; cbn; rewrite Z.leb_le; nia. Qed.

(** C35. A bound the adapter reports is a bound. When a worker's native bound holds for every
    solution of the translated model, the level bound [bound_progress] emits for it lies in the
    declared range of the only level and no feasible assignment is better than it. *)
Theorem reported_bound_is_valid blake3_hex encode_to_vec problem limits translated progress observed summary v :
  typed_limits limits → translate_supported_model blake3_hex encode_to_vec problem limits = Ok translated →
  bound_progress translated progress observed = Ok (Some (EvBoundImproved summary)) →
  (∀ bits, pg_best_bound_values progress = [bits] → f64_integer bits = Some v) →
  (∃ model, cp_model_proto translated = encode_to_vec model ∧
     translate_model blake3_hex problem limits = Ok (model, tr_maps translated) ∧
     ((∀ x, is_solution model x = true → v ≤ objective_sum model x) →
      ∃ level b, op_levels (objectives problem) = [level] ∧ bound_values summary = [b] ∧
        ol_lower_bound level ≤ b ≤ ol_upper_bound level ∧
        ∀ β σ, feasible problem β σ → bound_consistent (ol_direction level) b (level_value σ level) = true)).
Proof.
  intros Hl Ht Hp Hbits. unfold translate_supported_model in Ht.
  apply result_bind_Ok in Ht as ([model maps] & Hm & Ht). apply result_bind_Ok in Ht as (n & _ & Ht).
  apply result_bind_Ok in Ht as (k & _ & [= <-]). exists model. split_and!; [done|done|]. intros Hbound.
  apply translate_model_stages in Hm as (Hv & weights & t & Hst). pose proof (validate_admits _ _ _ Hl Hv) as Hadm.
  assert (maps = retain_translation_maps problem weights (tm_boolean_indices maps) (tm_integer_indices maps)
    (tm_assumptions_by_literal maps) (tm_constraint_indices maps)
    (tm_worker_projection_requests maps, tm_candidate_projection_variables maps)) as Hmaps.
  { destruct Hst as [_ _ _ (m1 & m2 & bl & ix & [rq rv] & _ & _ & _ & _ & ->)]. done. }
  unfold bound_progress in Hp. destruct (ProgressKind_try_from _) as [[]|]; try done. injection Hp as Hp.
  unfold exact_single_level_bound, objective_plan, objective_weight in Hp. cbn [tr_maps] in Hp.
  rewrite Hmaps in Hp. cbn [retain_translation_maps tm_objective_plan tm_objective_weights] in Hp.
  destruct (op_levels (objectives problem)) as [|level [|]] eqn:Hlv; try done.
  destruct (pg_best_bound_values progress) as [|bits [|]]; try done. specialize (Hbits bits eq_refl).
  destruct weights as [|weight [|]]; cbn in Hp; try done; [rewrite lookup_insert_eq in Hp|rewrite lookup_insert_eq in Hp].
  all: cbn in Hp; destruct (exact_level_bound level weight bits) as [b|] eqn:Hb; [|done].
  all: injection Hp as <-; apply exact_level_bound_scaled in Hb as (Hw & Hrange & Hnative).
  all: exists level, b; split_and!; [done|done|lia|lia|]; intros β σ Hf.
  all: destruct (stages_meaning _ _ _ _ _ _ β σ Hadm Hst (fe_domains _ _ _ Hf)) as (_ & _ & _ & Hobj).
  all: rewrite Hlv in Hobj; cbn in Hobj; apply bound_transfers with weight; [done|].
  all: assert (v ≤ objective_sum model (native_values problem β σ)) as Hle
         by (apply Hbound; eapply solution_iff; [done..|]; by exists β, σ).
  all: rewrite Hnative in Hbits; injection Hbits as <-; lia.
Qed.

(** ** Recorded evidence *)
Lemma Sorted_snoc {A} (R : A → A → Prop) l x : Sorted R l → (∀ y, last l = Some y → R y x) → Sorted R (l ++ [x]).
Proof.
  induction 1 as [|a l Hl IH Ha]; intros Hx; [by repeat constructor|]. cbn. destruct l as [|b l].
  - constructor; [by repeat constructor|]. constructor. by apply Hx.
  - constructor; [apply IH; by rewrite last_cons_cons in Hx|]. by inversion Ha; constructor.
Qed.
Lemma sorted_below_last l m : Sorted Z.le l → (∀ y, last l = Some y → y ≤ m) → Forall (λ x, x ≤ m) l.
Proof.
  induction 1 as [|a l Hl IH Ha]; intros Hx; [done|]. destruct l as [|b l].
  - constructor; [by apply Hx|done].
  - rewrite last_cons_cons in Hx. specialize (IH Hx). constructor; [|done].
    apply Forall_cons_1 in IH as [Hb _]. inversion Ha; subst. lia.
Qed.

Inductive RecorderOp :=
| OpCandidate (objective : option BackendObjectiveEvidence) (observed : Z)
| OpBound (bound : BoundSummary)
| OpCore (core : BackendAssumptionCoreEvidence).
Definition record_op (r : AdapterEvidenceRecorder) (op : RecorderOp) : AE AdapterEvidenceRecorder :=
  match op with
  | OpCandidate objective observed => record_candidate_evidence objective observed r
  | OpBound bound => map_ok snd (record_bound bound r)
  | OpCore core => Ok (record_assumption_core core r)
  end.
Definition op_times (ops : list RecorderOp) : list Z :=
  omap (λ op, match op with
              | OpCandidate _ observed => Some observed
              | OpBound bound => Some (bs_observed_after_milliseconds bound)
              | OpCore _ => None end) ops.
Definition candidate_times (ops : list RecorderOp) : list Z :=
  omap (λ op, match op with OpCandidate _ observed => Some observed | _ => None end) ops.
Definition candidate_objectives (ops : list RecorderOp) : list (option BackendObjectiveEvidence) :=
  omap (λ op, match op with OpCandidate objective _ => Some objective | _ => None end) ops.
Definition recorded_bounds (ops : list RecorderOp) : list (list Z) :=
  omap (λ op, match op with OpBound bound => Some (bound_values bound) | _ => None end) ops.
(** The objective has one value per level, or the problem has no objective. *)
Definition objective_fits (levels : nat) (objective : option BackendObjectiveEvidence) : Prop :=
  match objective with
  | Some evidence => levels ≠ 0%nat ∧ length (objective_values evidence) = levels
  | None => levels = 0%nat
  end.
(** A bound for the only level, in its range and not worse than the one before. *)
Definition bound_follows (direction : OptimizationDirection) (previous next : list Z) : Prop :=
  ∃ p n, previous = [p] ∧ next = [n] ∧ (p = n ∨ bound_strictly_improves direction p n = true).
Definition bound_fits (contracts : list ObjectiveContract) (bounds : list Z) : Prop :=
  ∃ c b, contracts = [c] ∧ bounds = [b] ∧ oc_lower_bound c ≤ b ≤ oc_upper_bound c.
Definition bound_agrees (contracts : list ObjectiveContract) (bounds : list Z)
    (evidence : BackendObjectiveEvidence) : Prop :=
  ∃ c b v, contracts = [c] ∧ bounds = [b] ∧ objective_values evidence = [v] ∧
    bound_consistent (oc_direction c) b v = true.

Record recorded (contracts : list ObjectiveContract) (ops : list RecorderOp) (r : AdapterEvidenceRecorder) : Prop := {
  rc_contracts : ar_objective_contracts r = contracts;
  rc_first : ar_first_incumbent_milliseconds r = head (candidate_times ops);
  rc_last : ar_last_observed_milliseconds r = last (op_times ops);
  rc_sorted : Sorted Z.le (op_times ops);
  rc_objective : ar_latest_objective r = last (candidate_objectives ops) ≫= id;
  rc_dimensions : Forall (objective_fits (length contracts)) (candidate_objectives ops);
  rc_bound : ar_latest_bound_values r = last (recorded_bounds ops);
  rc_ranges : Forall (bound_fits contracts) (recorded_bounds ops);
  rc_improving c : contracts = [c] → Sorted (bound_follows (oc_direction c)) (recorded_bounds ops);
  rc_agrees bounds evidence : ar_latest_bound_values r = Some bounds → ar_latest_objective r = Some evidence →
    bound_agrees contracts bounds evidence
}.
Lemma validate_time_ok r observed :
  validate_time r observed = Ok tt → ∀ t, ar_last_observed_milliseconds r = Some t → t ≤ observed.
Proof. unfold validate_time. intros H t Ht. rewrite Ht in H. destruct (Z.ltb_spec observed t); [done|lia]. Qed.
Lemma validate_bound_ok r bounds evidence :
  validate_bound_against_objective r bounds (objective_values evidence) = Ok tt →
  bound_agrees (ar_objective_contracts r) bounds evidence.
Proof.
  unfold validate_bound_against_objective. destruct (ar_objective_contracts r) as [|c [|]]; try done.
  destruct bounds as [|b [|]], (objective_values evidence) as [|v [|]] eqn:Hv; try done.
  intros H. exists c, b, v. split_and!; [done..|]. unfold bound_consistent. by destruct (oc_direction c), (_ <=? _).
Qed.
Lemma head_snoc {A} (l : list A) x : head (l ++ [x]) = match head l with None => Some x | Some y => Some y end.
Proof. by destruct l. Qed.

Lemma recorded_candidate contracts ops r objective observed r' :
  recorded contracts ops r → record_candidate_evidence objective observed r = Ok r' →
  recorded contracts (ops ++ [OpCandidate objective observed]) r'.
Proof.
  intros [Hc Hf Hl Hs Ho Hd Hb Hr Hi Ha]. unfold record_candidate_evidence. rewrite result_bind_Ok.
  intros (obj & Hobj & Ht). apply result_bind_Ok in Ht as ([] & Htime & [= <-]).
  assert (obj = objective ∧ objective_fits (length contracts) objective ∧
    (∀ bounds evidence, ar_latest_bound_values r = Some bounds → objective = Some evidence →
       bound_agrees contracts bounds evidence)) as (-> & Hfit & Hagree).
  { rewrite Hc in Hobj. destruct objective as [evidence|], (bool_decide_reflect (contracts = [])) as [->|Hne]; try done.
    - destruct (Z.eqb_spec (len (objective_values evidence)) (len contracts)) as [Hlen|]; [|done]. cbn [negb] in Hobj.
      apply result_bind_Ok in Hobj as ([] & Hv & [= <-]). split_and!; [done| |].
      + split; [by destruct contracts|unfold len in Hlen; lia].
      + intros bounds ev Hbs [= <-]. rewrite Hbs in Hv. apply validate_bound_ok in Hv. by rewrite Hc in Hv.
    - injection Hobj as <-. done. }
  pose proof (validate_time_ok _ _ Htime) as Hle.
  split; cbn [observed_candidate ar_objective_contracts ar_first_incumbent_milliseconds ar_last_observed_milliseconds
              ar_latest_objective ar_latest_bound_values];
    unfold op_times, candidate_times, candidate_objectives, recorded_bounds in *; rewrite ?omap_app; cbn.
  - done.
  - rewrite head_snoc, Hf. done.
  - by rewrite last_snoc.
  - apply Sorted_snoc; [done|]. intros y Hy. apply Hle. by rewrite Hl.
  - by rewrite last_snoc.
  - apply Forall_app. split; [done|]. by apply Forall_singleton.
  - by rewrite app_nil_r.
  - by rewrite app_nil_r.
  - rewrite app_nil_r. apply Hi.
  - apply Hagree.
Qed.
Lemma record_bound_ok bound r flag r' :
  record_bound bound r = Ok (flag, r') →
  ∃ c b, ar_objective_contracts r = [c] ∧ bound_values bound = [b] ∧ oc_lower_bound c ≤ b ≤ oc_upper_bound c ∧
    validate_time r (bs_observed_after_milliseconds bound) = Ok tt ∧
    r' = observed_bound (if flag then Some [b] else ar_latest_bound_values r) (bs_observed_after_milliseconds bound) r ∧
    (∀ p, ar_latest_bound_values r ≫= head = Some p →
       if flag then bound_strictly_improves (oc_direction c) p b = true else p = b) ∧
    (flag = false → is_Some (ar_latest_bound_values r ≫= head)) ∧
    (flag = true → ∀ evidence, ar_latest_objective r = Some evidence → bound_agrees [c] [b] evidence).
Proof.
  unfold record_bound. destruct (ar_objective_contracts r) as [|c [|]] eqn:Hc; try done.
  destruct (bound_values bound) as [|b [|]] eqn:Hb; try done. intros H. exists c, b.
  destruct (negb _) eqn:Hrange; [done|]. apply negb_false_iff, andb_true_iff in Hrange as [H1%Z.leb_le H2%Z.leb_le].
  assert ((_ ← match ar_latest_objective r with
               | Some objective => validate_bound_against_objective r [b] (objective_values objective)
               | None => Ok tt end;
           _ ← validate_time r (bs_observed_after_milliseconds bound);
           Ok (true, observed_bound (Some [b]) (bs_observed_after_milliseconds bound) r)) = Ok (flag, r') →
    flag = true ∧ r' = observed_bound (Some [b]) (bs_observed_after_milliseconds bound) r ∧
    validate_time r (bs_observed_after_milliseconds bound) = Ok tt ∧
    ∀ evidence, ar_latest_objective r = Some evidence → bound_agrees [c] [b] evidence) as Hrecord.
  { rewrite result_bind_Ok. intros ([] & Hv & Ht). apply result_bind_Ok in Ht as ([] & Ht & [= <- <-]).
    split_and!; [done..|]. intros evidence He. rewrite He in Hv. apply validate_bound_ok in Hv. by rewrite Hc in Hv. }
  destruct (ar_latest_bound_values r ≫= head) as [p|] eqn:Hp.
  - destruct (Z.eqb_spec p b) as [->|Hne].
    + apply result_bind_Ok in H as ([] & Ht & [= <- <-]). split_and!; [done..| | |]; [by intros ? [= ->]|done|done].
    + destruct (bound_strictly_improves _ _ _) eqn:Hi; [|done]. cbn [negb] in H.
      apply Hrecord in H as (-> & -> & Ht & Ha). split_and!; [done..| | |done]; [by intros ? [= ->]|done].
  - apply Hrecord in H as (-> & -> & Ht & Ha). split_and!; [done..|done].
Qed.
Lemma recorded_bound_step contracts ops r bound flag r' :
  recorded contracts ops r → record_bound bound r = Ok (flag, r') → recorded contracts (ops ++ [OpBound bound]) r'.
Proof.
  intros [Hc Hf Hl Hs Ho Hd Hb Hr Hi Ha] Hrec.
  apply record_bound_ok in Hrec as (c & b & Hcon & Hbv & Hrange & Htime & -> & Hp & Hsome & Hagree).
  rewrite Hc in Hcon. pose proof (validate_time_ok _ _ Htime) as Hle.
  assert (flag = false → ar_latest_bound_values r = Some [b]) as Hsame.
  { intros ->. destruct Hsome as [p Hhead]; [done|]. specialize (Hp p Hhead). subst p.
    destruct (ar_latest_bound_values r) as [bs|] eqn:Hbs; [|done]. symmetry in Hb.
    apply last_Some_elem_of in Hb. rewrite Forall_forall in Hr. destruct (Hr _ Hb) as (c' & b' & _ & -> & _).
    cbn in Hhead. congruence. }
  split; cbn [observed_bound ar_objective_contracts ar_first_incumbent_milliseconds ar_last_observed_milliseconds
              ar_latest_objective ar_latest_bound_values];
    unfold op_times, candidate_times, candidate_objectives, recorded_bounds in *; rewrite ?omap_app; cbn;
    rewrite ?app_nil_r, ?last_snoc, ?Hbv; try done.
  - apply Sorted_snoc; [done|]. intros y Hy. apply Hle. by rewrite Hl.
  - destruct flag; [done|]. by apply Hsame.
  - apply Forall_app. split; [done|]. apply Forall_singleton. by exists c, b.
  - intros c' Hc'. apply Sorted_snoc; [by apply Hi|]. intros bs Hlast. rewrite <-Hb in Hlast.
    assert (c' = c) as -> by congruence. pose proof Hlast as Hin. rewrite Hb in Hin. apply last_Some_elem_of in Hin.
    rewrite Forall_forall in Hr. destruct (Hr _ Hin) as (c' & p & _ & -> & _). exists p, b. split_and!; [done..|].
    specialize (Hp p). rewrite Hlast in Hp. specialize (Hp eq_refl). destruct flag; [by right|by left].
  - intros bounds evidence Hbs He. destruct flag; [|by apply Ha]. injection Hbs as <-. rewrite Hcon. by apply Hagree.
Qed.
Lemma recorded_op contracts ops r op r' :
  recorded contracts ops r → record_op r op = Ok r' → recorded contracts (ops ++ [op]) r'.
Proof.
  intros Hr. destruct op as [objective observed|bound|core]; cbn [record_op].
  - by apply recorded_candidate.
  - destruct (record_bound bound r) as [[flag r1]|] eqn:Hb; [|done]. cbn. intros [= <-]. by eapply recorded_bound_step.
  - intros [= <-]. destruct Hr as [Hc Hf Hl Hs Ho Hd Hb Hr Hi Ha].
    split; cbn; unfold op_times, candidate_times, candidate_objectives, recorded_bounds in *;
      rewrite ?omap_app; cbn; rewrite ?app_nil_r; done.
Qed.
Lemma recorded_all translated remaining limit ops r :
  fold_m record_op (AdapterEvidenceRecorder_new translated remaining limit) ops = Ok r →
  recorded (contract_of <$> op_levels (objective_plan translated)) ops r ∧
  ar_remaining_at_dispatch_milliseconds r = remaining ∧ ar_backend_limit_milliseconds r = limit.
Proof.
  intros Hf. apply (result_fold_m_inv record_op (λ ops r,
    recorded (contract_of <$> op_levels (objective_plan translated)) ops r ∧
    ar_remaining_at_dispatch_milliseconds r = remaining ∧ ar_backend_limit_milliseconds r = limit)) with (done_ := []) in Hf.
  - done.
  - intros r0 op r1 done_ (Hr & H1 & H2) Hop. split; [by eapply recorded_op|].
    destruct op as [objective observed|bound|core]; cbn [record_op] in Hop.
    + unfold record_candidate_evidence in Hop. apply result_bind_Ok in Hop as (obj & _ & Hop).
      by apply result_bind_Ok in Hop as ([] & _ & [= <-]).
    + destruct (record_bound bound r0) as [[flag r2]|] eqn:Hb; [|done]. injection Hop as <-. cbn.
      by apply record_bound_ok in Hb as (c & b & _ & _ & _ & _ & -> & _).
    + by injection Hop as <-.
  - split; [|done]. split; cbn; done || constructor.
Qed.

(** The evidence a recorder hands out is exactly what it was told, in order of time. The
    first-incumbent time is that of the first recorded candidate, the objective that of the latest,
    the bound the latest; observation times never go back and none is after the end; every objective
    has one value per level; bounds stay in the declared range, never get worse and do not
    contradict the latest objective. *)
Theorem recorder_evidence_exact translated remaining limit ops r elapsed evidence :
  fold_m record_op (AdapterEvidenceRecorder_new translated remaining limit) ops = Ok r →
  recorder_finish elapsed r = Ok evidence →
  let contracts := contract_of <$> op_levels (objective_plan translated) in
  te_first_incumbent_milliseconds evidence = head (candidate_times ops) ∧
  te_objective evidence = last (candidate_objectives ops) ≫= id ∧
  te_best_bound_values evidence = last (recorded_bounds ops) ∧
  Sorted Z.le (op_times ops) ∧ Forall (λ t, t ≤ te_elapsed_milliseconds evidence) (op_times ops) ∧
  Forall (objective_fits (length contracts)) (candidate_objectives ops) ∧
  Forall (bound_fits contracts) (recorded_bounds ops) ∧
  (∀ c, contracts = [c] → Sorted (bound_follows (oc_direction c)) (recorded_bounds ops)) ∧
  (∀ bounds objective, te_best_bound_values evidence = Some bounds → te_objective evidence = Some objective →
     bound_agrees contracts bounds objective).
Proof.
  intros Hall Hfin contracts. apply recorded_all in Hall as ([Hc Hf Hl Hs Ho Hd Hb Hr Hi Ha] & _ & _).
  unfold recorder_finish in Hfin. destruct (match _ with Some _ => _ | None => _ end) eqn:Hlate; [done|].
  injection Hfin as <-. cbn [te_first_incumbent_milliseconds te_objective te_best_bound_values te_elapsed_milliseconds].
  split_and!; try done. apply sorted_below_last; [done|]. intros y Hy. rewrite Hl, Hy in Hlate. lia.
Qed.
