(* ===== verification/SolverApiFacts.v ===== *)
(** * What the solver contracts guarantee

    The dispatch budget keeps its reserves; the bounded sink holds only complete, in-domain, numbered and
    time-ordered candidates within its limits, whatever the backend does; and an outcome assembled from the
    sink and the adapter's recorder passes every check of [validate_outcome] that is about them. *)
From stdpp Require Import base tactics list gmap strings.
From Stdlib Require Import ZArith Lia Sorted.
From S2P Require Import Prelude Ordering Protocol Control Budget Ids DomainIr Model Analysis Validation.
From S2P Require Import Bounds Scoping Admission Projection Evaluator EvaluatorFacts Canonical.
From S2P Require Import Translation TranslationExact SolverApi Adapter AdapterFacts.
Open Scope Z_scope.

(** ** Reserves *)
Lemma millis_or_zero_id v : v ≤ DURATION_MILLIS_MAX_V1 → millis_or_zero v = v.
Proof. intros H. unfold millis_or_zero, DurationMillis_new. destruct (Z.ltb_spec DURATION_MILLIS_MAX_V1 v); [lia|done]. Qed.
Lemma snapshot_millis w view : remaining_milliseconds (view_snapshot w view) ≤ DURATION_MILLIS_MAX_V1.
Proof.
  unfold view_snapshot, snapshot_until. destruct (remaining_duration_until _ _) as [r e].
  cbn [remaining_milliseconds]. unfold from_duration_floor_saturating.
  destruct (checked_u64 _) as [v|] eqn:Hv; [|lia]. apply checked_u64_Some in Hv as [-> _]. lia.
Qed.
Lemma dispatch_limits w view cap acceptance completion :
  0 ≤ acceptance → 0 ≤ completion →
  let budget := SolveDispatchBudget_from_view w view cap acceptance completion in
  let available := u64_saturating_sub (remaining_at_dispatch budget) acceptance in
  remaining_at_dispatch budget = remaining_milliseconds (view_snapshot w view) ∧
  backend_limit budget = (match cap with Some c => Z.min c available | None => available end) ∧
  search_limit budget = u64_saturating_sub (backend_limit budget) completion.
Proof.
  intros Ha Hc. cbn zeta. unfold SolveDispatchBudget_from_view. cbn [remaining_at_dispatch backend_limit search_limit].
  pose proof (snapshot_millis w view) as Hmax. set (rem := remaining_milliseconds _) in *.
  assert (millis_or_zero (u64_saturating_sub rem acceptance) = u64_saturating_sub rem acceptance) as ->.
  { apply millis_or_zero_id. unfold u64_saturating_sub, DURATION_MILLIS_MAX_V1 in *. lia. }
  split_and!; [done..|]. apply millis_or_zero_id. unfold u64_saturating_sub, DURATION_MILLIS_MAX_V1 in *. destruct cap; lia.
Qed.

(** The reserves of a dispatched solve are never spent. The search and backend limits fit in
    the time observed at dispatch and under the cap; as long as [stop_reason] lets a backend go on,
    the parent is neither cancelled nor expired and has more than the acceptance reserve left; and
    as long as search time remains, more than the completion reserve of the backend's own time
    remains. *)
Theorem dispatch_reserves_kept w0 view cap acceptance completion w :
  0 ≤ acceptance → 0 ≤ completion → (∀ c, cap = Some c → 0 ≤ c) →
  let budget := SolveDispatchBudget_from_view w0 view cap acceptance completion in
  0 ≤ search_limit budget ≤ backend_limit budget ∧
  (backend_limit budget = 0 ∨ backend_limit budget + acceptance ≤ remaining_at_dispatch budget) ∧
  (∀ c, cap = Some c → backend_limit budget ≤ c) ∧
  (stop_reason w budget = None →
     acceptance < remaining_now w budget ∧ cancelled (view_snapshot w view) = false ∧
     expired (view_snapshot w view) = false) ∧
  (0 < remaining_search_duration w budget → to_duration completion < remaining_backend_duration w budget).
Proof.
  intros Ha Hc Hcap budget. destruct (dispatch_limits w0 view cap acceptance completion Ha Hc) as (Hr & Hb & Hs).
  fold budget in Hr, Hb, Hs. assert (0 ≤ backend_limit budget) as Hb0.
  { rewrite Hb. unfold u64_saturating_sub. destruct cap as [c|]; [specialize (Hcap c eq_refl)|]; lia. }
  split_and!.
  - rewrite Hs. unfold u64_saturating_sub. lia.
  - rewrite Hs. unfold u64_saturating_sub. lia.
  - rewrite Hb. unfold u64_saturating_sub. destruct cap as [c|]; [specialize (Hcap c eq_refl)|]; lia.
  - intros c ->. rewrite Hb. lia.
  - unfold stop_reason, remaining_now. change (parent_view budget) with view.
    destruct (cancelled _); [done|]. destruct (expired _); [done|]. cbn [orb].
    destruct (remaining_milliseconds _ =? 0); [done|].
    destruct (Z.leb_spec (backend_limit budget) (elapsed_milliseconds_value budget (remaining_milliseconds (view_snapshot w view))))
      as [|Hlt]; [done|]. intros _. split_and!; [|done..]. rewrite Hb in Hlt.
    unfold elapsed_milliseconds_value, u64_saturating_sub in Hlt. destruct cap; lia.
  - unfold remaining_search_duration, remaining_backend_duration, to_duration, elapsed_milliseconds_value. rewrite Hs.
    unfold u64_saturating_sub. lia.
Qed.

(** ** Complete candidates *)
(** A value for every declared Boolean and integer and for nothing else, every integer in its domain. *)
Record complete_values (problem : PlanningProblem) (candidate : CandidateValues) : Prop := {
  cv_booleans : dom (booleans candidate) = bool_ids problem;
  cv_integers : dom (integers candidate) = dom (int_domains problem);
  cv_domains i v : VInteger i ∈ variables problem → integers candidate !! iv_id i = Some v → in_domain (iv_domain i) v
}.
Definition boolean_id (v : Variable_) : option string := match v with VBoolean b => Some (bv_id b) | _ => None end.
Definition integer_id (v : Variable_) : option string := match v with VInteger i => Some (iv_id i) | _ => None end.
Lemma expected_values_ok candidate vs : ∀ bs ns result,
  fold_m (expected_values candidate) (bs, ns) vs = Ok result ↔
  result = (bs ++ omap boolean_id vs, ns ++ omap integer_id vs) ∧
  ∀ i v, VInteger i ∈ vs → integers candidate !! iv_id i = Some v → in_domain (iv_domain i) v.
Proof.
  induction vs as [|x vs IH]; intros bs ns result; cbn [fold_m].
  { cbn. rewrite !app_nil_r. split; [intros [= <-]; split; [done|]; by intros i v ?%elem_of_nil|by intros [-> _]]. }
  rewrite result_bind_Ok. setoid_rewrite elem_of_cons. split.
  - intros ([bs1 ns1] & Hx & Hf). apply IH in Hf as [-> Hd]. destruct x as [b|i|i]; cbn in Hx |- *.
    + injection Hx as <- <-. rewrite <-app_assoc. split; [done|]. intros j v [[=]|Hj]; by apply Hd.
    + destruct (integers candidate !! iv_id i) as [z|] eqn:Hz.
      * destruct (contains (iv_domain i) z) eqn:Hc; [|done]. injection Hx as <- <-. rewrite <-app_assoc. split; [done|].
        intros j v [[= ->]|Hj]; [intros Hv; unfold in_domain; congruence|by apply Hd].
      * injection Hx as <- <-. rewrite <-app_assoc. split; [done|]. intros j v [[= ->]|Hj]; [congruence|by apply Hd].
    + injection Hx as <- <-. split; [done|]. intros j v [[=]|Hj]; by apply Hd.
  - intros [-> Hd]. destruct x as [b|i|i]; cbn.
    + eexists (_, _). split; [done|]. apply IH. rewrite <-app_assoc. split; [done|]. intros j v Hj. apply Hd. by right.
    + destruct (integers candidate !! iv_id i) as [z|] eqn:Hz.
      * specialize (Hd i z (or_introl eq_refl) Hz) as Hc. unfold in_domain in Hc. rewrite Hc. cbn.
        eexists (_, _). split; [done|]. apply IH. rewrite <-app_assoc. split; [done|]. intros j v Hj. apply Hd. by right.
      * eexists (_, _). split; [done|]. apply IH. rewrite <-app_assoc. split; [done|]. intros j v Hj. apply Hd. by right.
    + eexists (_, _). split; [done|]. apply IH. split; [done|]. intros j v Hj. apply Hd. by right.
Qed.
Lemma reject_first_ok make wrong ids : reject_first make wrong ids = Ok tt ↔ ∀ id, id ∈ ids → wrong id = false.
Proof.
  unfold reject_first. destruct (List.find wrong ids) as [id|] eqn:Hf.
  - split; [done|]. intros H. apply List.find_some in Hf as [Hin Hw]. rewrite H in Hw by (by apply list_elem_of_In). done.
  - split; [|done]. intros _ id Hin. by eapply List.find_none, list_elem_of_In.
Qed.
Lemma known_ids {V} make (m : gmap string V) (expected : list string) `{∀ id, Decision (id ∈ expected)} :
  reject_first make (λ id, negb (bool_decide (id ∈ expected))) (btree_iter m).*1 = Ok tt ↔
  ∀ id, id ∈ dom m → id ∈ expected.
Proof.
  rewrite reject_first_ok. setoid_rewrite negb_false_iff. setoid_rewrite bool_decide_eq_true.
  assert (∀ id, id ∈ (btree_iter m).*1 ↔ id ∈ dom m) as Hk; [|by setoid_rewrite Hk].
  intros id. unfold btree_iter. rewrite sort_by_key_perm, elem_of_dom, list_elem_of_fmap. split.
  - intros ([k v] & -> & Hin%elem_of_map_to_list). by eexists.
  - intros [v Hv]. exists (id, v). split; [done|]. by apply elem_of_map_to_list.
Qed.
Lemma present_ids {V} make (m : gmap string V) (expected : list string) :
  reject_first make (λ id, bool_decide (m !! id = None)) (btree_set expected) = Ok tt ↔
  ∀ id, id ∈ expected → id ∈ dom m.
Proof.
  rewrite reject_first_ok. setoid_rewrite elem_of_btree_set. setoid_rewrite bool_decide_eq_false.
  setoid_rewrite elem_of_dom. by setoid_rewrite <-not_eq_None_Some.
Qed.
Lemma declared_booleans vs acc id : id ∈ foldl add_bool acc vs ↔ id ∈ acc ∨ id ∈ omap boolean_id vs.
Proof.
  revert acc. induction vs as [|v vs IH]; intros acc; cbn [foldl]; [cbn; rewrite elem_of_nil; tauto|].
  rewrite IH. destruct v as [b|i|i]; cbn [add_bool omap list_omap boolean_id]; set_solver.
Qed.
Lemma declared_integers vs (acc : gmap string IntDomain) id :
  id ∈ dom (foldl add_int acc vs) ↔ id ∈ dom acc ∨ id ∈ omap integer_id vs.
Proof.
  revert acc. induction vs as [|v vs IH]; intros acc; cbn [foldl]; [cbn; rewrite elem_of_nil; tauto|].
  rewrite IH. destruct v as [b|i|i]; cbn [add_int omap list_omap integer_id]; rewrite ?dom_insert; set_solver.
Qed.
Lemma validate_candidate_values_exact problem candidate :
  validate_candidate_values problem candidate = Ok tt ↔ complete_values problem candidate.
Proof.
  unfold validate_candidate_values.
  transitivity ((∀ i v, VInteger i ∈ variables problem → integers candidate !! iv_id i = Some v → in_domain (iv_domain i) v) ∧
    (∀ id, id ∈ dom (booleans candidate) ↔ id ∈ bool_ids problem) ∧
    (∀ id, id ∈ dom (integers candidate) ↔ id ∈ dom (int_domains problem))).
  - unfold bool_ids, int_domains. setoid_rewrite declared_booleans. setoid_rewrite declared_integers. split.
    + rewrite result_bind_Ok. intros ([bs ns] & [[= -> ->] Hd]%expected_values_ok & H).
      apply result_bind_Ok in H as ([] & H1 & H). apply result_bind_Ok in H as ([] & H2 & H).
      apply result_bind_Ok in H as ([] & H3 & H4).
      pose proof (proj1 (known_ids _ _ _) H1) as K1. pose proof (proj1 (known_ids _ _ _) H2) as K2.
      pose proof (proj1 (present_ids _ _ _) H3) as K3. pose proof (proj1 (present_ids _ _ _) H4) as K4.
      clear H1 H2 H3 H4. split_and!; [done| |]; intros id; rewrite ?dom_empty_L, elem_of_empty; naive_solver.
    + intros (Hd & Hb & Hi). rewrite (proj2 (expected_values_ok _ _ _ _ _) (conj eq_refl Hd)), Ok_bind.
      setoid_rewrite dom_empty_L in Hi. setoid_rewrite elem_of_empty in Hb. setoid_rewrite elem_of_empty in Hi.
      rewrite (proj2 (known_ids OeUnknownBoolean _ _)) by naive_solver.
      rewrite Ok_bind, (proj2 (known_ids OeUnknownInteger _ _)) by naive_solver.
      rewrite Ok_bind, (proj2 (present_ids OeMissingBoolean _ _)) by naive_solver. rewrite Ok_bind.
      apply present_ids. naive_solver.
  - split; [intros (Hd & Hb & Hi); split; [by apply set_eq|by apply set_eq|done]|].
    intros [Hb Hi Hd]. rewrite Hb, Hi. done.
Qed.
(** Complete values are a total candidate for the evaluator and the projection. *)
Lemma complete_is_total problem limits candidate :
  Admissible problem limits → complete_values problem candidate →
  total_candidate problem candidate (λ id, default false (booleans candidate !! id))
    (λ id, default 0 (integers candidate !! id)).
Proof.
  intros Hadm [Hb Hi Hd].
  assert (∀ id, declared_int (int_domains problem) id → ∃ v, integers candidate !! id = Some v) as Hint.
  { intros id Hid. apply elem_of_dom in Hid. rewrite <-Hi in Hid. by apply elem_of_dom in Hid. }
  split.
  - intros id Hid. rewrite <-Hb in Hid. apply elem_of_dom in Hid as [v Hv]. by rewrite Hv.
  - intros id [v Hv]%Hint. by rewrite Hv.
  - intros id d Hid. destruct (Hint id) as [v Hv]; [by eexists|]. rewrite Hv. cbn.
    apply ints_declared in Hid as [(i & Hin & <- & <-)|Hid]; [|done]. by eapply Hd.
Qed.

(** ** The sink *)
Definition total_assignments (candidates : list BackendCandidate) : Z :=
  foldr Z.add 0 ((λ c, assignment_count (bc_values c)) <$> candidates).
Lemma total_assignments_snoc l c :
  total_assignments (l ++ [c]) = total_assignments l + assignment_count (bc_values c).
Proof. unfold total_assignments. rewrite fmap_app, foldr_app. cbn. induction (_ <$> l); cbn; lia. Qed.
Arguments total_assignments : simpl never.
Definition typed_api_limits (limits : SolverApiLimits) : Prop :=
  Forall (λ v, 0 ≤ v ≤ u32_max)
    [max_candidates limits; max_candidate_assignments limits; max_progress_events limits;
     max_diagnostic_lines limits; max_evidence_refs_per_candidate limits].
Definition levels_of (problem : PlanningProblem) : list ObjectiveLevel := op_levels (objectives problem).
Definition dimension_fits (problem : PlanningProblem) (objective : option BackendObjectiveEvidence) : Prop :=
  ∀ evidence, objective = Some evidence → len (objective_values evidence) = len (levels_of problem).

Section sink.
Context {Sink : Type} (emit : SolveProgressEvent → Sink → Result OutputError unit * Sink).
Context (problem : PlanningProblem) (limits : SolverApiLimits).
Notation Output := (BoundedBackendOutput Sink).

(** The candidates of a sink: within the limits, numbered, in order of time and complete. *)
Record candidates_ok (candidates : list BackendCandidate) : Prop := {
  co_count : len candidates ≤ max_candidates limits;
  co_assignments : total_assignments candidates ≤ max_candidate_assignments limits;
  co_numbered i c : candidates !! i = Some c → bc_sequence c = Z.of_nat i + 1;
  co_times : Sorted Z.le (bc_observed_after_milliseconds <$> candidates);
  co_dimensions : Forall (λ c, dimension_fits problem (bc_objective c)) candidates;
  co_evidence : Forall (λ c, len (bc_evidence_refs c) ≤ max_evidence_refs_per_candidate limits) candidates;
  co_complete : Forall (λ c, complete_values problem (bc_values c)) candidates
}.
Record sink_ok (output : Output) : Prop := {
  so_problem : bo_problem output = problem;
  so_limits : bo_limits output = limits;
  so_candidates : candidates_ok (bo_candidates output);
  so_assignments : bo_candidate_assignment_count output = total_assignments (bo_candidates output);
  so_events : 0 ≤ bo_progress_event_count output ≤ max_progress_events limits;
  so_lines : 0 ≤ bo_diagnostic_line_count output ≤ max_diagnostic_lines limits
}.
Lemma candidates_ok_snoc candidates c :
  candidates_ok candidates → len candidates < max_candidates limits →
  total_assignments candidates + assignment_count (bc_values c) ≤ max_candidate_assignments limits →
  bc_sequence c = len candidates + 1 →
  (∀ p, last candidates = Some p → bc_observed_after_milliseconds p ≤ bc_observed_after_milliseconds c) →
  dimension_fits problem (bc_objective c) → len (bc_evidence_refs c) ≤ max_evidence_refs_per_candidate limits →
  complete_values problem (bc_values c) → candidates_ok (candidates ++ [c]).
Proof using.
  intros [H1 H2 H3 H4 H5 H6 H7] Hcount Htotal Hseq Htime Hdim Hev Hval. split.
  - unfold len in *. rewrite length_app. cbn. lia.
  - rewrite total_assignments_snoc. lia.
  - intros i d [Hi|[Hge Hi]]%lookup_app_Some; [by apply H3|]. apply list_lookup_singleton_Some in Hi as [Hi <-].
    rewrite Hseq. unfold len. lia.
  - rewrite fmap_app. apply Sorted_snoc; [done|]. intros y Hy. rewrite fmap_last in Hy.
    destruct (last candidates) as [p|] eqn:Hp; [|done]. injection Hy as <-. by apply Htime.
  - apply Forall_app. split; [done|]. by apply Forall_singleton.
  - apply Forall_app. split; [done|]. by apply Forall_singleton.
  - apply Forall_app. split; [done|]. by apply Forall_singleton.
Qed.
Lemma rejected_ok {A} error output : sink_ok output → sink_ok (reject (A := A) error output).2.
Proof using. intros [H1 H2 H3 H4 H5 H6]. unfold reject. cbn. destruct (bo_contract_rejection output); by split. Qed.
Lemma emit_progress_ok w event output : sink_ok output → sink_ok (emit_progress emit w event output).2.
Proof using.
  intros Hok. unfold emit_progress. destruct (budget_error w output); [by apply rejected_ok|].
  destruct (validate_progress_event _ _); [|done]. destruct Hok as [H1 H2 H3 H4 H5 H6]. rewrite H2.
  destruct (Z.leb_spec (max_progress_events limits) (bo_progress_event_count output)); [by split|].
  destruct (is_log_line event && _) eqn:Hline; [by split|].
  assert (0 ≤ (if is_log_line event then bo_diagnostic_line_count output + 1 else bo_diagnostic_line_count output)
            ≤ max_diagnostic_lines limits) as Hlines.
  { destruct (is_log_line event); [|done]. cbn in Hline. lia. }
  destruct (emit event (bo_progress output)) as [[[]|e] progress]; cbn; split; cbn; try done; lia.
Qed.
Lemma submit_candidate_ok w1 w2 candidate output : sink_ok output → sink_ok (submit_candidate w1 w2 candidate output).2.
Proof using.
  intros Hok. unfold submit_candidate. destruct (budget_error w1 output); [by apply rejected_ok|].
  destruct (Z.leb_spec (max_candidates (bo_limits output)) (len (bo_candidates output))) as [|Hcount]; [by apply rejected_ok|].
  destruct (Z.ltb_spec (max_evidence_refs_per_candidate (bo_limits output)) (len (cs_evidence_refs candidate))) as [|Hev];
    [by apply rejected_ok|].
  destruct (checked_u32 (assignment_count _)) as [n|] eqn:Hn; [|by apply rejected_ok].
  destruct (checked_u32 (bo_candidate_assignment_count output + n)) as [m|] eqn:Hm; cbn [mbind option_bind];
    [|by apply rejected_ok].
  destruct (Z.leb_spec m (max_candidate_assignments (bo_limits output))) as [Hle|]; [|by apply rejected_ok].
  destruct (validate_objective_evidence _ _ _) eqn:Hdim; [|done].
  destruct (earlier_than_last _ _) eqn:Htime; [done|].
  destruct (validate_candidate_values _ _) as [[]|] eqn:Hvals; [|done].
  destruct (checked_u32 (len _ + 1)) as [sequence|] eqn:Hseq; [|done].
  destruct (budget_error w2 output); [by apply rejected_ok|]. destruct Hok as [H1 H2 H3 H4 H5 H6].
  unfold checked_u32 in Hn, Hm, Hseq. destruct (_ && _) in Hn; [|done]. injection Hn as <-.
  destruct (_ && _) in Hm; [|done]. injection Hm as <-. destruct (_ && _) in Hseq; [|done]. injection Hseq as <-.
  rewrite H1 in *. rewrite H2 in *. split; cbn; try done.
  - apply candidates_ok_snoc; cbn; try done.
    + by rewrite <-H4.
    + intros p Hp. unfold earlier_than_last in Htime. rewrite Hp in Htime. lia.
    + intros evidence He. unfold validate_objective_evidence in Hdim. rewrite He in Hdim.
      by destruct (Z.eqb_spec (len (objective_values evidence)) (len (op_levels (objectives problem)))).
    + by apply validate_candidate_values_exact.
  - by rewrite total_assignments_snoc, H4.
Qed.

(** What a backend does with its sink. *)
Inductive SinkCall :=
| CallEmit (w : World) (event : SolveProgressEvent)
| CallSubmit (w_entry w_commit : World) (candidate : CandidateSubmission).
Definition run_call (output : Output) (call : SinkCall) : Output :=
  match call with
  | CallEmit w event => (emit_progress emit w event output).2
  | CallSubmit w_entry w_commit candidate => (submit_candidate w_entry w_commit candidate output).2
  end.
Lemma run_calls_ok calls output : sink_ok output → sink_ok (foldl run_call output calls).
Proof using.
  revert output. induction calls as [|call calls IH]; intros output Hok; [done|]. apply IH.
  destruct call; [by apply emit_progress_ok|by apply submit_candidate_ok].
Qed.
Lemma new_sink_nonneg progress budget output :
  Forall (Z.le 0) [max_candidates limits; max_candidate_assignments limits; max_progress_events limits;
                   max_diagnostic_lines limits] →
  BoundedBackendOutput_new problem progress budget limits = Ok output → sink_ok output.
Proof using.
  intros Hl. unfold BoundedBackendOutput_new. rewrite result_bind_Ok. intros (l & Hl' & [= <-]).
  unfold SolverApiLimits_validate in Hl'. destruct (_ || _); [done|]. injection Hl' as <-.
  rewrite !Forall_cons in Hl. destruct Hl as (H1 & H2 & H3 & H4 & _).
  split; cbn; try done; try lia; split; cbn; try done; try constructor; unfold len, total_assignments; cbn; lia.
Qed.
Lemma new_sink_ok progress budget output :
  typed_api_limits limits → BoundedBackendOutput_new problem progress budget limits = Ok output → sink_ok output.
Proof using.
  unfold typed_api_limits. rewrite !Forall_cons. intros (H1 & H2 & H3 & H4 & _).
  apply new_sink_nonneg. repeat constructor; lia.
Qed.
End sink.

(** C37. Whatever calls a backend makes, in any order and with any clock, a sink holds only
    candidates that fit the contract: no more than the limits allow in number, in assignments and in
    evidence references, numbered from one without gaps, in order of time, each a complete
    assignment whose integers are in their domains, and each either without objective evidence,
    which the sink does not ask for, or with exactly one objective value per level. The sink's own
    count of assignments is exact, and its progress events and diagnostic lines stay within their
    limits. *)
Theorem sink_candidates_conform {Sink} emit problem limits budget (progress : Sink) output calls :
  typed_api_limits limits → BoundedBackendOutput_new problem progress budget limits = Ok output →
  let final := foldl (run_call emit) output calls in
  candidates_ok problem limits (bo_candidates final) ∧
  bo_candidate_assignment_count final = total_assignments (bo_candidates final) ∧
  bo_progress_event_count final ≤ max_progress_events limits ∧
  bo_diagnostic_line_count final ≤ max_diagnostic_lines limits ∧
  (∀ planning_limits c, Admissible problem planning_limits → c ∈ bo_candidates final →
     ∃ β σ, total_candidate problem (bc_values c) β σ).
Proof.
  intros Hl Hnew final. apply new_sink_ok in Hnew; [|done].
  apply (run_calls_ok emit problem limits calls) in Hnew as [H1 H2 H3 H4 H5 H6].
  split_and!; [done|done|apply H5|apply H6|]. intros planning_limits c Hadm Hc.
  pose proof (co_complete _ _ _ H3) as Hall. rewrite Forall_forall in Hall.
  eexists _, _. eapply complete_is_total; [done|]. by apply Hall.
Qed.

(** ** Accepted outcomes *)
Lemma enumerate_each_ok {E A} (f : nat → A → Result E unit) l :
  (∀ i a, l !! i = Some a → f i a = Ok tt) → enumerate_each f l = Ok tt.
Proof.
  unfold enumerate_each. intros Hf. assert (∀ k, (∀ i a, l !! i = Some a → f (k + i)%nat a = Ok tt) → for_each_from k f l = Ok tt) as H.
  { clear Hf. induction l as [|a l IH]; intros k Hf; [done|]. cbn [for_each_from].
    pose proof (Hf 0%nat a eq_refl) as H0. rewrite Nat.add_0_r in H0. rewrite H0, Ok_bind. apply IH.
    intros i b Hi. replace (S k + i)%nat with (k + S i)%nat by lia. by apply Hf. }
  by apply H.
Qed.
Lemma sorted_adjacent l i x y : Sorted Z.le l → l !! i = Some x → l !! S i = Some y → x ≤ y.
Proof.
  intros Hs. revert i. induction Hs as [|a l _ IH Ha]; intros [|i] Hx Hy; try done.
  - injection Hx as ->. cbn in Hy. destruct l as [|b l]; [done|]. injection Hy as ->. by inversion Ha.
  - by eapply IH.
Qed.
Lemma oc_require_ok b e : oc_require b e = Ok tt ↔ b = true.
Proof. by destruct b. Qed.
Lemma validate_dimension_ok {E} (e : E) problem objective :
  dimension_fits problem objective → validate_objective_evidence e objective (len (levels_of problem)) = Ok tt.
Proof.
  intros H. unfold validate_objective_evidence. destruct objective as [evidence|]; [|done].
  by rewrite (H _ eq_refl), Z.eqb_refl.
Qed.
Lemma assignments_counted limits candidates : ∀ count,
  typed_api_limits limits → 0 ≤ count → count + total_assignments candidates ≤ max_candidate_assignments limits →
  fold_m (add_assignments limits) count candidates = Ok (count + total_assignments candidates).
Proof.
  intros count Hl. revert count. induction candidates as [|c candidates IH]; intros count H0 Hmax; cbn [fold_m].
  { unfold total_assignments. cbn. by rewrite Z.add_0_r. }
  assert (total_assignments (c :: candidates) = assignment_count (bc_values c) + total_assignments candidates) as Hc by done.
  assert (0 ≤ total_assignments candidates) as Hnn.
  { unfold total_assignments. clear. induction candidates as [|d l IH]; cbn; [done|]. unfold assignment_count in *. lia. }
  unfold typed_api_limits in Hl. rewrite !Forall_cons in Hl. destruct Hl as (L1 & L2 & L3 & L4 & L5 & _).
  assert (∀ z, 0 ≤ z ≤ max_candidate_assignments limits → checked_u64 z = Some z) as Hchk.
  { intros z Hz. unfold checked_u64, u32_max, u64_max in *. rewrite (proj2 (Z.leb_le 0 z)), (proj2 (Z.leb_le z _)) by lia. done. }
  unfold add_assignments at 2. unfold assignment_count in Hc. unfold u64_checked_add.
  rewrite Hchk by lia. cbn [mbind option_bind]. rewrite Hchk by lia. cbn [mbind option_bind]. rewrite Hchk by lia.
  cbn [ok_or]. rewrite Ok_bind, Hchk by lia. cbn [mbind option_bind]. rewrite (proj2 (Z.leb_le _ _)) by lia.
  cbn [ok_or]. rewrite Ok_bind, IH by lia. f_equal. lia.
Qed.
Lemma candidates_validated request limits candidates elapsed :
  typed_api_limits limits → candidates_ok (sr_problem request) limits candidates →
  Forall (λ c, bc_observed_after_milliseconds c ≤ elapsed) candidates →
  validate_candidates request candidates limits elapsed = Ok tt.
Proof.
  intros Hl [H1 H2 H3 H4 H5 H6 H7] Helapsed. unfold validate_candidates. fold (levels_of (sr_problem request)).
  rewrite (proj2 (oc_require_ok _ OcOutputLimitExceeded)) by (by apply Z.leb_le). rewrite Ok_bind, assignments_counted by (done || lia).
  rewrite Ok_bind. unfold typed_api_limits in Hl. rewrite !Forall_cons in Hl. destruct Hl as (L1 & _).
  apply enumerate_each_ok. intros i c Hi. unfold validate_candidate.
  assert (checked_u32 (Z.of_nat i + 1) = Some (Z.of_nat i + 1)) as ->.
  { apply lookup_lt_Some in Hi. unfold checked_u32, len in *. rewrite (proj2 (Z.leb_le 0 _)), (proj2 (Z.leb_le _ u32_max)) by lia. done. }
  cbn [ok_or]. rewrite Ok_bind, (proj2 (oc_require_ok _ OcCandidateSequenceMismatch)) by (apply Z.eqb_eq; by apply H3).
  pose proof (list_elem_of_lookup_2 _ _ _ Hi) as Hin. rewrite Forall_forall in Helapsed, H5.
  rewrite Ok_bind, (proj2 (oc_require_ok _ OcCandidateAfterTermination)) by (apply Z.leb_le; by apply Helapsed).
  rewrite Ok_bind, validate_dimension_ok by (by apply H5). rewrite Ok_bind. apply oc_require_ok, negb_true_iff.
  destruct i as [|i]; [done|]. destruct (candidates !! i) as [p|] eqn:Hp; [|done]. apply Z.ltb_ge.
  eapply (sorted_adjacent (bc_observed_after_milliseconds <$> candidates) i); [done|by rewrite list_lookup_fmap, Hp|].
  by rewrite list_lookup_fmap, Hi.
Qed.
(** The bound a recorder retained agrees with every candidate no better than the latest. *)
Definition latest_is_best (problem : PlanningProblem) (candidates : list BackendCandidate) : Prop :=
  ∀ level latest c evidence u v,
    levels_of problem = [level] → last (bc_objective <$> candidates) = Some (Some latest) →
    c ∈ candidates → bc_objective c = Some evidence →
    objective_values latest = [u] → objective_values evidence = [v] →
    bound_consistent (ol_direction level) u v = true.
Lemma bound_consistent_trans direction b u v :
  bound_consistent direction b u = true → bound_consistent direction u v = true → bound_consistent direction b v = true.
Proof. destruct direction; cbn; lia. Qed.
Lemma for_each_ok {E A} (f : A → Result E unit) l : (∀ a, a ∈ l → f a = Ok tt) → for_each f l = Ok tt.
Proof.
  induction l as [|a l IH]; intros Hf; [done|]. cbn [for_each]. rewrite Hf by (by left). rewrite Ok_bind. apply IH.
  intros b Hb. apply Hf. by right.
Qed.
Lemma bounds_validated request bounds objective candidates :
  let problem := sr_problem request in
  let contracts := contract_of <$> levels_of problem in
  Forall (λ c, dimension_fits problem (bc_objective c)) candidates →
  objective = last (bc_objective <$> candidates) ≫= id →
  (∀ bs, bounds = Some bs → bound_fits contracts bs) →
  (∀ bs o, bounds = Some bs → objective = Some o → bound_agrees contracts bs o) →
  Forall (λ c, levels_of problem ≠ [] → is_Some (bc_objective c)) candidates →
  latest_is_best problem candidates → validate_best_bound_evidence request bounds objective candidates = Ok tt.
Proof.
  intros problem contracts Hdim Hobj Hfits Hagree Hsome Hbest. unfold validate_best_bound_evidence. fold problem.
  destruct bounds as [bs|]; [|done]. destruct (Hfits bs eq_refl) as (c & b & Hc & -> & Hrange).
  fold (levels_of problem). subst contracts. destruct (levels_of problem) as [|level [|]] eqn:Hlv; try done.
  injection Hc as <-. cbn [bool_decide orb]. rewrite !bool_decide_false by done. cbn [orb negb].
  change (negb (len [b] =? len [level])) with false. cbv iota.
  assert (∀ e, e ∈ option_list objective ++ omap bc_objective candidates →
    ∃ v, objective_values e = [v] ∧ bound_consistent (ol_direction level) b v = true) as Hall.
  { assert (∀ o, objective = Some o → ∃ u, objective_values o = [u] ∧ bound_consistent (ol_direction level) b u = true) as Hlatest.
    { intros o Ho. destruct (Hagree _ o eq_refl Ho) as (c & b' & u & [= <-] & [= <-] & Hu & Hcons). by exists u. }
    intros e [He|He]%elem_of_app.
    - destruct objective as [o|]; [|by apply elem_of_nil in He]. apply list_elem_of_singleton in He as ->. by apply Hlatest.
    - apply list_elem_of_omap in He as (c & Hin & Hce). rewrite Forall_forall in Hdim. specialize (Hdim c Hin e Hce).
      rewrite Hlv in Hdim. destruct (objective_values e) as [|v [|]] eqn:Hv; [done| |unfold len in Hdim; cbn in Hdim; lia]. exists v. split; [done|].
      destruct (last candidates) as [lc|] eqn:Hlast; [|by apply last_None in Hlast as ->; apply elem_of_nil in Hin].
      rewrite Forall_forall in Hsome. destruct (Hsome lc) as [o Ho]; [by eapply last_Some_elem_of|by rewrite ?Hlv|].
      assert (last (bc_objective <$> candidates) = Some (Some o)) as Hlo by (by rewrite fmap_last, Hlast, <-Ho).
      rewrite Hlo in Hobj. destruct (Hlatest o Hobj) as (u & Hu & Hbu). eapply bound_consistent_trans; [exact Hbu|].
      by eapply (Hbest level o c e). }
  cbn [zip zip_with]. apply enumerate_each_ok. intros [|i] a Ha; [|done]. injection Ha as <-. unfold validate_bound_level.
  rewrite (proj2 (oc_require_ok _ OcBestBoundOutsideDeclaredRange)) by (cbn in Hrange; rewrite andb_true_iff, !Z.leb_le; done).
  rewrite Ok_bind. apply for_each_ok. intros e (v & Hv & Hcons)%Hall. rewrite Hv. cbn. by rewrite Hcons.
Qed.

(** The outcome of a backend that fed every candidate to its sink and its recorder. *)
Record assembled {Sink} (emit : SolveProgressEvent → Sink → Result OutputError unit * Sink)
    (request : SolveRequest) (limits : SolverApiLimits) (translated : TranslatedCpSatModel)
    (candidates : list BackendCandidate) (ops : list RecorderOp) (evidence : BackendTerminationEvidence)
    (elapsed : Z) : Prop := {
  as_sink : ∃ progress output calls,
    BoundedBackendOutput_new (sr_problem request) progress (sr_dispatch_budget request) limits = Ok output ∧
    candidates = bo_candidates (foldl (run_call emit) output calls);
  as_plan : objective_plan translated = objectives (sr_problem request);
  as_recorder : ∃ r, fold_m record_op (AdapterEvidenceRecorder_new translated
      (remaining_at_dispatch (sr_dispatch_budget request)) (backend_limit (sr_dispatch_budget request))) ops = Ok r ∧
    recorder_finish elapsed r = Ok evidence;
  as_objectives : candidate_objectives ops = bc_objective <$> candidates;
  as_times : candidate_times ops = bc_observed_after_milliseconds <$> candidates
}.
Lemma candidate_times_observed ops t : t ∈ candidate_times ops → t ∈ op_times ops.
Proof.
  unfold candidate_times, op_times. rewrite !list_elem_of_omap. intros (op & Hop & Ht). exists op.
  split; [done|]. by destruct op.
Qed.
Lemma fits_dimension problem objective :
  objective_fits (length (contract_of <$> levels_of problem)) objective →
  dimension_fits problem objective ∧ (levels_of problem ≠ [] → is_Some objective).
Proof.
  rewrite length_fmap. destruct objective as [evidence|]; cbn.
  - intros [_ Hlen]. split; [|by eexists]. intros e [= <-]. unfold len. by rewrite Hlen.
  - intros Hnil. split; [done|]. by rewrite (nil_length_inv _ Hnil).
Qed.

(** What [validate_outcome] looks at. *)
Record evidence_facts (request : SolveRequest) (limits : SolverApiLimits) (candidates : list BackendCandidate)
    (evidence : BackendTerminationEvidence) (elapsed : Z) : Prop := {
  ef_limits : SolverApiLimits_validate limits = Ok limits;
  ef_remaining : te_remaining_at_dispatch_milliseconds evidence = remaining_at_dispatch (sr_dispatch_budget request);
  ef_limit : te_backend_limit_milliseconds evidence = backend_limit (sr_dispatch_budget request);
  ef_elapsed : te_elapsed_milliseconds evidence = elapsed;
  ef_first : te_first_incumbent_milliseconds evidence = bc_observed_after_milliseconds <$> head candidates;
  ef_refs : te_evidence_refs evidence = [];
  ef_objective : dimension_fits (sr_problem request) (te_objective evidence);
  ef_candidates : validate_candidates request candidates limits elapsed = Ok tt;
  ef_before : Forall (λ c, bc_observed_after_milliseconds c ≤ elapsed) candidates;
  ef_bounds : validate_best_bound_evidence request (te_best_bound_values evidence) (te_objective evidence) candidates = Ok tt
}.
Lemma new_sink_limits {Sink} problem (progress : Sink) budget limits output :
  BoundedBackendOutput_new problem progress budget limits = Ok output → SolverApiLimits_validate limits = Ok limits.
Proof.
  unfold BoundedBackendOutput_new. rewrite result_bind_Ok. intros (l & Hv & _). unfold SolverApiLimits_validate in *.
  by destruct (_ || _).
Qed.
Lemma assembled_facts {Sink} emit request limits translated candidates ops evidence elapsed :
  typed_api_limits limits → assembled (Sink := Sink) emit request limits translated candidates ops evidence elapsed →
  latest_is_best (sr_problem request) candidates → evidence_facts request limits candidates evidence elapsed.
Proof.
  intros Hl [(progress & output & calls & Hnew & Hcand) Hplan (r & Hrec & Hfin) Hobj Htimes] Hbest.
  pose proof (new_sink_limits _ _ _ _ _ Hnew) as Hlimits.
  apply new_sink_ok in Hnew; [|done]. apply (run_calls_ok emit _ limits calls) in Hnew as [_ _ Hok _ _ _].
  rewrite <-Hcand in Hok. pose proof (recorded_all _ _ _ _ _ Hrec) as ([Rc Rf Rl Rs Ro Rd Rb Rr Ri Ra] & Hrem & Hlim).
  unfold recorder_finish in Hfin. destruct (match _ with Some _ => _ | None => _ end) eqn:Hlate; [done|].
  injection Hfin as <-. rewrite Hplan in *. fold (levels_of (sr_problem request)) in *. rewrite Hobj in Rd, Ro. rewrite Htimes in Rf.
  assert (Forall (λ t, t ≤ elapsed) (op_times ops)) as Hbefore.
  { apply sorted_below_last; [done|]. intros y Hy. rewrite Rl, Hy in Hlate. lia. }
  assert (Forall (λ c, bc_observed_after_milliseconds c ≤ elapsed) candidates) as Hcbefore.
  { apply Forall_forall. intros c Hc. rewrite Forall_forall in Hbefore. apply Hbefore, candidate_times_observed.
    rewrite Htimes. by apply list_elem_of_fmap_2. }
  assert (Forall (λ o, dimension_fits (sr_problem request) o ∧ (levels_of (sr_problem request) ≠ [] → is_Some o))
            (bc_objective <$> candidates)) as Hdims by (eapply Forall_impl; [exact Rd|apply fits_dimension]).
  assert (dimension_fits (sr_problem request) (ar_latest_objective r)) as Hlatest.
  { rewrite Ro. destruct (last (bc_objective <$> candidates)) as [o|] eqn:Ho; [|by intros e]. apply last_Some_elem_of in Ho. rewrite Forall_forall in Hdims.
    by apply Hdims. }
  rewrite Forall_fmap in Hdims. split; cbn; try done.
  - rewrite Rf. by destruct candidates.
  - by apply candidates_validated.
  - apply bounds_validated; [apply Hok|done| |done| |done].
    + intros bs Hbs. rewrite Rb in Hbs. apply last_Some_elem_of in Hbs. rewrite Forall_forall in Rr. by apply Rr.
    + eapply Forall_impl; [exact Hdims|]. by intros c [_ H].
Qed.

(** ** Execution evidence *)
(** What the evidence of a run that a backend attaches must say: the versions and options of the request, its
    parameters as they were applied, the counts of its summary, durations within the elapsed time and the limit,
    and well-formed versions, digests and counters. *)
Record execution_conforms (request : SolveRequest) (elapsed limit : Z) (execution : BackendExecutionEvidence) : Prop := {
  xc_backend_version : re_backend_version (ee_reproducibility execution) = sr_backend_version request;
  xc_adapter_version : re_adapter_version (ee_reproducibility execution) = sr_adapter_version request;
  xc_options : re_applied_options (ee_reproducibility execution) = sr_options request;
  xc_seed : let seed := so_random_seed (sr_options request) in
    seed < 2 ^ 31 ∧ ap_random_seed (re_applied_parameters (ee_reproducibility execution)) = seed;
  xc_threads : let threads := ap_worker_threads (re_applied_parameters (ee_reproducibility execution)) in
    threads ≠ 0 ∧ ∀ count, so_worker_threads (sr_options request) = ThreadsExact count → threads = count;
  xc_stop : ap_stop_after_first_feasible (re_applied_parameters (ee_reproducibility execution))
            = so_stop_after_first_feasible (sr_options request);
  xc_intermediate : ap_emit_intermediate_solutions (re_applied_parameters (ee_reproducibility execution)) = true →
    so_collect_intermediate_solutions (sr_options request) = true;
  xc_deterministic : ap_deterministic_test_profile (re_applied_parameters (ee_reproducibility execution)) = true ↔
    so_reproducibility (sr_options request) = Deterministic;
  xc_counts : ∃ summary, sr_summary_of request = Some summary ∧
    planning_variable_count (ee_model_counts execution) = su_variable_count summary ∧
    planning_constraint_count (ee_model_counts execution) = su_constraint_count summary;
  xc_spans : Forall (λ span, span ≤ elapsed) (timing_spans (ee_timings execution));
  xc_wall_time v : ap_wall_time_milliseconds (re_applied_parameters (ee_reproducibility execution)) = Some v →
    v ≠ 0 ∧ v ≤ limit;
  xc_protocol : re_protocol_major (ee_reproducibility execution) ≠ 0;
  xc_versions : valid_version_field (re_worker_version (ee_reproducibility execution)) = true ∧
    valid_version_field (re_engine_version (ee_reproducibility execution)) = true;
  xc_model_digest : valid_sha256 (re_model_fingerprint_sha256 (ee_reproducibility execution)) = true;
  xc_parameter_digest v : re_applied_parameters_sha256 (ee_reproducibility execution) = Some v → valid_sha256 v = true;
  xc_statistics s : ee_worker_statistics execution = Some s →
    Forall (λ v, v ≤ BACKEND_STATISTIC_MAX_V1) (statistics_counters s)
}.
Lemma existsb_above bound l : existsb (λ v, bound <? v) l = false ↔ Forall (λ v, v ≤ bound) l.
Proof.
  induction l as [|v l IH]; cbn; [done|]. by rewrite orb_false_iff, Forall_cons, IH, Z.ltb_ge.
Qed.
Lemma seed_fits n seed : i32_try_from_u64 n = Some seed ↔ n < 2 ^ 31 ∧ seed = n.
Proof. unfold i32_try_from_u64. destruct (Z.leb_spec n (2 ^ 31 - 1)); naive_solver lia. Qed.
Lemma parameters_match options applied seed :
  applied_parameters_mismatch options applied seed = false ↔
  ap_random_seed applied = seed ∧
  (ap_worker_threads applied ≠ 0 ∧ ∀ count, so_worker_threads options = ThreadsExact count → ap_worker_threads applied = count) ∧
  ap_stop_after_first_feasible applied = so_stop_after_first_feasible options ∧
  (ap_emit_intermediate_solutions applied = true → so_collect_intermediate_solutions options = true) ∧
  (ap_deterministic_test_profile applied = true ↔ so_reproducibility options = Deterministic).
Proof.
  unfold applied_parameters_mismatch. rewrite !orb_false_iff, !negb_false_iff, Z.eqb_eq, Z.eqb_neq, !eqb_true_iff, andb_false_iff, negb_false_iff.
  assert (ap_deterministic_test_profile applied = bool_decide (so_reproducibility options = Deterministic) ↔
          (ap_deterministic_test_profile applied = true ↔ so_reproducibility options = Deterministic)) as ->.
  { destruct (ap_deterministic_test_profile applied); case_bool_decide; naive_solver. }
  assert ((match so_worker_threads options with
           | ThreadsExact count => negb (ap_worker_threads applied =? count) | ThreadsAuto => false end) = false ↔
          ∀ count, so_worker_threads options = ThreadsExact count → ap_worker_threads applied = count) as ->.
  { destruct (so_worker_threads options); rewrite ?negb_false_iff, ?Z.eqb_eq; naive_solver. }
  destruct (ap_emit_intermediate_solutions applied); naive_solver.
Qed.
Lemma execution_validated request outcome execution :
  te_execution (oc_evidence outcome) = Some execution →
  validate_execution_evidence request outcome = Ok tt ↔
  execution_conforms request (te_elapsed_milliseconds (oc_evidence outcome))
    (te_backend_limit_milliseconds (oc_evidence outcome)) execution.
Proof.
  intros He. unfold validate_execution_evidence. rewrite He.
  rewrite !unit_bind_Ok, !oc_require_ok, !bool_decide_eq_true. split.
  - intros (H1 & H2 & H3 & H). apply result_bind_Ok in H as (seed & Hseed%ok_or_Ok%seed_fits & H).
    apply unit_bind_Ok in H as [Hp%oc_require_ok%negb_true_iff%parameters_match H]. destruct Hp as (P1 & P2 & P3 & P4 & P5).
    apply result_bind_Ok in H as (summary & Hs%ok_or_Ok & H). rewrite !unit_bind_Ok, !oc_require_ok, !negb_true_iff in H.
    rewrite !orb_false_iff, andb_true_iff, !Z.eqb_eq, Z.eqb_neq, !negb_false_iff, existsb_above in H.
    destruct H as ([C1 C2] & [S1 S2] & ((((V1 & V2) & V3) & V4) & V5) & V6). destruct Hseed as [Hb ->]. split; try done.
    + by exists summary.
    + intros v Hv. rewrite Hv, orb_false_iff, Z.eqb_neq, Z.ltb_ge in S2. done.
    + intros v Hv. rewrite Hv in V5. by apply negb_false_iff in V5.
    + intros s Hst. rewrite Hst in V6. by apply existsb_above.
  - intros [H1 H2 H3 [Hb H4] H5 H6 H7 H8 (summary & Hs & C1 & C2) H9 H10 H11 [H12 H13] H14 H15 H16]. split_and!; try done.
    rewrite (proj2 (seed_fits _ _) (conj Hb eq_refl)). cbn [ok_or]. rewrite Ok_bind.
    apply unit_bind_Ok. split; [by apply oc_require_ok, negb_true_iff, parameters_match|].
    rewrite Hs. cbn [ok_or]. rewrite Ok_bind, !unit_bind_Ok, !oc_require_ok, !negb_true_iff.
    rewrite !orb_false_iff, andb_true_iff, !Z.eqb_eq, Z.eqb_neq, !negb_false_iff, existsb_above. split_and!; try done.
    + destruct (ap_wall_time_milliseconds _) as [v|] eqn:Hv; [|done]. destruct (H10 v eq_refl).
      by rewrite orb_false_iff, Z.eqb_neq, Z.ltb_ge.
    + destruct (re_applied_parameters_sha256 _) as [v|] eqn:Hv; [|done]. by rewrite (H15 v eq_refl).
    + destruct (ee_worker_statistics execution) as [st|] eqn:Hst; [|done]. by apply existsb_above, H16.
Qed.
(** [evidence.execution = execution] *)
Definition with_execution (execution : option BackendExecutionEvidence) (evidence : BackendTerminationEvidence) :
    BackendTerminationEvidence := {|
  te_remaining_at_dispatch_milliseconds := te_remaining_at_dispatch_milliseconds evidence;
  te_backend_limit_milliseconds := te_backend_limit_milliseconds evidence;
  te_elapsed_milliseconds := te_elapsed_milliseconds evidence;
  te_first_incumbent_milliseconds := te_first_incumbent_milliseconds evidence;
  te_objective := te_objective evidence; te_best_bound_values := te_best_bound_values evidence;
  te_assumption_core := te_assumption_core evidence; te_evidence_refs := te_evidence_refs evidence;
  te_execution := execution |}.

(** C36. The router's check of an outcome a backend assembles, in full. When the candidates went
    through the sink and the recorder, the identities are the request's, the elapsed time is within
    the backend limit and the latest incumbent is the best, [validate_outcome] accepts the outcome
    exactly when three things hold: the execution evidence the backend attached to what the recorder
    finished, if it attached any, conforms — its versions, options, applied parameters and model
    counts are the request's, its durations are within the elapsed time and the limit, its versions,
    digests and counters are well formed — and the assumption core and the termination reason pass
    their own checks. *)
Theorem assembled_outcome_accepted {Sink} emit w_measured w_cancelled request limits translated candidates ops
    evidence execution elapsed termination :
  typed_api_limits limits → assembled (Sink := Sink) emit request limits translated candidates ops evidence elapsed →
  elapsed ≤ backend_limit (sr_dispatch_budget request) → latest_is_best (sr_problem request) candidates →
  let outcome := {| oc_backend_id := sr_backend_id request; oc_model_hash := sr_model_hash request;
                    oc_solve_fingerprint := sr_solve_fingerprint request; oc_termination := termination;
                    oc_evidence := with_execution execution evidence |} in
  validate_outcome w_measured w_cancelled request outcome candidates limits = Ok tt ↔
  (∀ e, execution = Some e → execution_conforms request elapsed (backend_limit (sr_dispatch_budget request)) e) ∧
  validate_assumption_core request outcome = Ok tt ∧
  termination_coherent w_measured w_cancelled request outcome (negb (bool_decide (candidates = []))) = Ok tt.
Proof.
  intros Hl Has Helapsed Hbest outcome. apply (assembled_facts _ _ _ _ _ _ _ _ Hl) in Has; [|done].
  destruct Has as [H1 H2 H3 H4 H5 H6 H8 H9 H10 H11].
  assert (validate_execution_evidence request outcome = Ok tt ↔
    ∀ e, execution = Some e → execution_conforms request elapsed (backend_limit (sr_dispatch_budget request)) e) as <-.
  { destruct execution as [e|]; [|done]. rewrite (execution_validated request outcome e) by done. cbn. rewrite H3, H4. naive_solver. }
  unfold validate_outcome. subst outcome. cbv zeta.
  cbn [oc_backend_id oc_model_hash oc_solve_fingerprint]. cbn [oc_evidence with_execution te_remaining_at_dispatch_milliseconds
    te_backend_limit_milliseconds te_elapsed_milliseconds te_first_incumbent_milliseconds te_objective te_best_bound_values
    te_evidence_refs]. fold (levels_of (sr_problem request)).
  rewrite (bool_decide_true (sr_backend_id request = _)), (bool_decide_true (sr_model_hash request = _)),
    (bool_decide_true (sr_solve_fingerprint request = _)), (bool_decide_true (te_first_incumbent_milliseconds evidence = _)) by done.
  rewrite H1, H2, H3, H4, H6, H9, H11, !Z.eqb_refl, (proj2 (Z.leb_le _ _) Helapsed), validate_dimension_ok by done.
  assert ((match te_first_incumbent_milliseconds evidence with Some value => value <=? elapsed | None => true end) = true) as ->.
  { rewrite H5. destruct candidates as [|c candidates]; [done|]. cbn. apply Z.leb_le. by apply Forall_cons_1 in H10 as [? _]. }
  assert ((len (@nil string) <=? max_evidence_refs_per_candidate limits) = true) as ->.
  { unfold typed_api_limits in Hl. rewrite !Forall_cons in Hl. apply Z.leb_le. apply Hl. }
  cbn [map_err oc_require andb]. rewrite !Ok_bind, !unit_bind_Ok.
  split; [by intros (? & ? & ? & _)|by intros (? & ? & ?)].
Qed.
