(* ===== verification/Support.v ===== *)
(** * Backend descriptors, the support matrix and compatibility

    Models [crates/eutheto-solver-api/src/descriptor.rs], [support.rs], [registry.rs] and the
    compatibility half of [preflight.rs], and, of [crates/eutheto-solver-ortools/src],
    [descriptor.rs] and [compatibility.rs].  An error the source stores as the text of another error
    carries that error here. *)
From stdpp Require Import base tactics list gmap strings.
From Stdlib Require Import ZArith Lia Ascii.
From S2P Require Import Prelude Ordering Control Budget Ids DomainIr Model Analysis Validation Canonical.
From S2P Require Import Protocol Session SolverApi.
Open Scope string_scope.
Open Scope list_scope.
Open Scope Z_scope.

(** * The checked-in support matrix

    The constants of [crates/eutheto-solver-api/src/generated_support_matrix.rs], value by value. *)
Definition SUPPORT_MATRIX_SCHEMA_VERSION : Z := 1.
Definition SUPPORT_MATRIX_IR_SCHEMA_VERSION : Z := 2.
(** Identifier, category and gate of every feature. *)
Definition SUPPORT_FEATURES : list (string * string * string) := [
  ("ir.absolute-difference", "primitive", "unconditional");
  ("ir.all-different", "primitive", "unconditional");
  ("ir.allowed-table", "primitive", "unconditional");
  ("ir.assumptions", "solve", "unconditional");
  ("ir.at-most-one", "primitive", "unconditional");
  ("ir.bool-and", "primitive", "unconditional");
  ("ir.bool-or", "primitive", "unconditional");
  ("ir.cardinality-range", "primitive", "unconditional");
  ("ir.cumulative", "primitive", "unconditional");
  ("ir.element", "primitive", "unconditional");
  ("ir.equality", "primitive", "unconditional");
  ("ir.equivalence", "primitive", "unconditional");
  ("ir.exactly-one", "primitive", "unconditional");
  ("ir.forbidden-table", "primitive", "unconditional");
  ("ir.implication", "primitive", "unconditional");
  ("ir.integer-linear", "primitive", "unconditional");
  ("ir.maximum", "primitive", "unconditional");
  ("ir.minimum", "primitive", "unconditional");
  ("ir.multipass-objectives", "objective", "unconditional");
  ("ir.no-overlap", "primitive", "unconditional");
  ("ir.objective-penalty", "objective", "unconditional");
  ("ir.objective-reward", "objective", "unconditional");
  ("ir.optional-interval", "primitive", "unconditional");
  ("ir.reified-linear-comparison", "primitive", "unconditional");
  ("ir.scalarized-objectives", "objective", "unconditional");
  ("projection.absent", "projection", "unconditional");
  ("projection.boolean", "projection", "unconditional");
  ("projection.integer", "projection", "unconditional");
  ("projection.interval", "projection", "unconditional");
  ("solve.cancellation", "solve", "unconditional");
  ("solve.deterministic-mode", "solve", "unconditional");
  ("solve.infeasibility-evidence", "solve", "unconditional");
  ("solve.intermediate-candidates", "solve", "unconditional");
  ("solve.proof-and-bounds", "solve", "unconditional");
  ("solve.resource-limits", "solve", "unconditional")].
(** Identifier, backend version and adapter version. *)
Definition PRODUCTION_BACKENDS : list (string * string * string) :=
  [("solver.ortools-cp-sat", "9.15.6755", "0.1.0")].
Record GeneratedCell := {
  gc_backend : string; gc_feature : string; gc_level : string; gc_restriction_id : string;
  gc_reason : string; gc_remediation : string; gc_fixture_id : string
}.
Definition cell (backend feature level restriction_id reason remediation fixture_id : string) : GeneratedCell :=
  {| gc_backend := backend; gc_feature := feature; gc_level := level; gc_restriction_id := restriction_id;
     gc_reason := reason; gc_remediation := remediation; gc_fixture_id := fixture_id |}.
Definition PRODUCTION_SUPPORT_CELLS : list GeneratedCell := [
  cell "solver.ortools-cp-sat" "ir.absolute-difference" "supported" ""
    ""
    ""
    "translation::tests::absolute_difference_translates_to_exact_lin_max_and_preserves_enforcement";
  cell "solver.ortools-cp-sat" "ir.all-different" "unsupported" ""
    "The Phase 03 OR-Tools adapter does not translate this planning-IR primitive."
    "Reformulate the model using supported primitives or choose a compatible backend."
    "translation::tests::unsupported_scalar_primitives_are_rejected_before_translation";
  cell "solver.ortools-cp-sat" "ir.allowed-table" "unsupported" ""
    "The Phase 03 OR-Tools adapter does not translate this planning-IR primitive."
    "Reformulate the model using supported primitives or choose a compatible backend."
    "translation::tests::unsupported_scalar_primitives_are_rejected_before_translation";
  cell "solver.ortools-cp-sat" "ir.assumptions" "degraded" "single-worker-satisfaction-assumptions"
    "Assumptions require a single-worker satisfaction model with presolve disabled; OR-Tools 9.15 upstream issue #5141 prevents a general presolve-enabled claim."
    "Remove all objective levels and select exactly one worker, or choose a compatible backend."
    "translation::tests::assumptions_translate_signed_literals_with_source_map";
  cell "solver.ortools-cp-sat" "ir.at-most-one" "supported" ""
    ""
    ""
    "translation::tests::one_of_constraints_preserve_empty_and_literal_semantics";
  cell "solver.ortools-cp-sat" "ir.bool-and" "supported" ""
    ""
    ""
    "translation::tests::boolean_relations_have_exact_clause_encodings";
  cell "solver.ortools-cp-sat" "ir.bool-or" "supported" ""
    ""
    ""
    "translation::tests::bool_or_clauses_preserve_exact_cp_sat_literal_semantics";
  cell "solver.ortools-cp-sat" "ir.cardinality-range" "supported" ""
    ""
    ""
    "translation::tests::cardinality_ranges_shift_negative_literals_and_combine_variables";
  cell "solver.ortools-cp-sat" "ir.cumulative" "unsupported" ""
    "The Phase 03 OR-Tools adapter does not translate this planning-IR primitive."
    "Reformulate the model using supported primitives or choose a compatible backend."
    "translation::tests::unsupported_interval_primitives_are_rejected_during_translation_preflight";
  cell "solver.ortools-cp-sat" "ir.element" "unsupported" ""
    "The Phase 03 OR-Tools adapter does not translate this planning-IR primitive."
    "Reformulate the model using supported primitives or choose a compatible backend."
    "translation::tests::unsupported_scalar_primitives_are_rejected_before_translation";
  cell "solver.ortools-cp-sat" "ir.equality" "unsupported" ""
    "The Phase 03 OR-Tools adapter does not translate this planning-IR primitive."
    "Reformulate the model using supported primitives or choose a compatible backend."
    "translation::tests::unsupported_scalar_primitives_are_rejected_before_translation";
  cell "solver.ortools-cp-sat" "ir.equivalence" "supported" ""
    ""
    ""
    "translation::tests::boolean_relations_have_exact_clause_encodings";
  cell "solver.ortools-cp-sat" "ir.exactly-one" "supported" ""
    ""
    ""
    "translation::tests::one_of_constraints_preserve_empty_and_literal_semantics";
  cell "solver.ortools-cp-sat" "ir.forbidden-table" "unsupported" ""
    "The Phase 03 OR-Tools adapter does not translate this planning-IR primitive."
    "Reformulate the model using supported primitives or choose a compatible backend."
    "translation::tests::unsupported_scalar_primitives_are_rejected_before_translation";
  cell "solver.ortools-cp-sat" "ir.implication" "supported" ""
    ""
    ""
    "translation::tests::boolean_relations_have_exact_clause_encodings";
  cell "solver.ortools-cp-sat" "ir.integer-linear" "supported" ""
    ""
    ""
    "translation::tests::integer_linear_comparisons_preserve_constants_coefficients_and_bounds";
  cell "solver.ortools-cp-sat" "ir.maximum" "unsupported" ""
    "The Phase 03 OR-Tools adapter does not translate this planning-IR primitive."
    "Reformulate the model using supported primitives or choose a compatible backend."
    "translation::tests::unsupported_scalar_primitives_are_rejected_before_translation";
  cell "solver.ortools-cp-sat" "ir.minimum" "unsupported" ""
    "The Phase 03 OR-Tools adapter does not translate this planning-IR primitive."
    "Reformulate the model using supported primitives or choose a compatible backend."
    "translation::tests::unsupported_scalar_primitives_are_rejected_before_translation";
  cell "solver.ortools-cp-sat" "ir.multipass-objectives" "unsupported" ""
    "The Phase 03 adapter supports only objectives with a proven exact scalarization."
    "Use an exactly scalarizable objective or choose a backend with multipass support."
    "translation::tests::objective_requiring_multipass_is_rejected_before_dispatch";
  cell "solver.ortools-cp-sat" "ir.no-overlap" "unsupported" ""
    "The Phase 03 OR-Tools adapter does not translate this planning-IR primitive."
    "Reformulate the model using supported primitives or choose a compatible backend."
    "translation::tests::unsupported_interval_primitives_are_rejected_during_translation_preflight";
  cell "solver.ortools-cp-sat" "ir.objective-penalty" "supported" ""
    ""
    ""
    "translation::tests::bounded_objective_terms_preserve_coefficients_constants_and_kinds";
  cell "solver.ortools-cp-sat" "ir.objective-reward" "supported" ""
    ""
    ""
    "translation::tests::bounded_objective_terms_preserve_coefficients_constants_and_kinds";
  cell "solver.ortools-cp-sat" "ir.optional-interval" "unsupported" ""
    "The Phase 03 OR-Tools adapter does not translate this planning-IR primitive."
    "Reformulate the model using supported primitives or choose a compatible backend."
    "translation::tests::unsupported_interval_primitives_are_rejected_during_translation_preflight";
  cell "solver.ortools-cp-sat" "ir.reified-linear-comparison" "unsupported" ""
    "The Phase 03 OR-Tools adapter does not translate this planning-IR primitive."
    "Reformulate the model using supported primitives or choose a compatible backend."
    "translation::tests::unsupported_scalar_primitives_are_rejected_before_translation";
  cell "solver.ortools-cp-sat" "ir.scalarized-objectives" "supported" ""
    ""
    ""
    "translation::tests::exact_lexicographic_objective_normalizes_mixed_directions";
  cell "solver.ortools-cp-sat" "projection.absent" "supported" ""
    ""
    ""
    "translation::tests::candidate_projection_requests_include_only_projection_and_objective_inputs";
  cell "solver.ortools-cp-sat" "projection.boolean" "supported" ""
    ""
    ""
    "candidate::tests::decodes_typed_values_and_recomputes_exact_objectives";
  cell "solver.ortools-cp-sat" "projection.integer" "supported" ""
    ""
    ""
    "candidate::tests::decodes_typed_values_and_recomputes_exact_objectives";
  cell "solver.ortools-cp-sat" "projection.interval" "unsupported" ""
    "The adapter cannot reconstruct general interval projections from the current worker protocol."
    "Request scalar projections or choose a backend with interval projection support."
    "translation::tests::interval_variables_are_rejected_during_translation_preflight";
  cell "solver.ortools-cp-sat" "solve.cancellation" "supported" ""
    ""
    ""
    "supervisor::deadline_and_explicit_cancellation_remain_distinct";
  cell "solver.ortools-cp-sat" "solve.deterministic-mode" "supported" ""
    ""
    ""
    "workers/ortools/tests/native_tests.cc::TestRealSolveOrderingAndMapping";
  cell "solver.ortools-cp-sat" "solve.infeasibility-evidence" "degraded" "single-worker-satisfaction-assumptions"
    "Sufficient cores are available only for nonempty assumptions in single-worker satisfaction diagnostics with presolve disabled. Empty, malformed or missing cores remain explicitly unavailable and do not prove foundational infeasibility."
    "Run a diagnostic without objective levels and with exactly one worker; ordinary optimization infeasibility does not produce a mapped core."
    "backend::tests::assumption_core_mapping_is_complete_and_signed_without_partial_output";
  cell "solver.ortools-cp-sat" "solve.intermediate-candidates" "degraded" "first-and-final-only"
    "The worker emits only the first projected incumbent before its final candidate; later intermediate improvements remain private until terminal. Original-domain acceptance still checks each exposed candidate."
    "Use a backend with full intermediate-history support if every search improvement must be visible."
    "headless_worker::first_verified_worker_checkpoint_is_viewable_before_proof_and_survives_cancellation";
  cell "solver.ortools-cp-sat" "solve.proof-and-bounds" "degraded" "single-objective-level-bound"
    "Exact bound progress is available only for a single objective level; a scalar bound cannot reconstruct a multi-level lexicographic vector."
    "Use one objective level or choose a backend with exact multi-level bound evidence."
    "progress::tests::bound_progress_emits_only_exact_single_level_evidence";
  cell "solver.ortools-cp-sat" "solve.resource-limits" "degraded" "wall-time-and-worker-count-only"
    "Wall-clock and worker-thread limits are enforced, but process-memory and candidate-count limits are not implemented."
    "Leave memoryLimitBytes and solutionLimit unset or choose a backend that enforces them."
    "compatibility::tests::report_accepts_only_the_exact_advertised_phase03_surface"].
Definition DEFERRED_BACKEND_CANDIDATES : list (string * string * Z) := [("solver.pumpkin", "0.5.0", 8)].

(** ** Identifiers of backends and features *)
Definition namespaced_segment (segment : list ascii) : bool :=
  negb (bool_decide (segment = [])) && (len segment <=? 63)
  && forallb (λ c, is_ascii_lowercase c || is_ascii_digit c || bool_decide (c = "-"%char)) segment
  && match head segment with Some c => is_ascii_alphanumeric c | None => false end
  && match last segment with Some c => is_ascii_alphanumeric c | None => false end.
Definition validate_namespaced_id (value : string) : bool :=
  let segments := split_dot (String.list_ascii_of_string value) in
  (str_len value <=? 128) && (2 <=? len segments) && forallb namespaced_segment segments.
Inductive NamespacedIdError := NamespacedIdError_.
Definition BackendId_new (value : string) : Result NamespacedIdError string :=
  if validate_namespaced_id value then Ok value else Err NamespacedIdError_.

Definition MAX_FEATURE_ID_BYTES : Z := 160.
Definition MAX_REASON_BYTES : Z := 512.
Inductive SupportMatrixError :=
| SmUnsupportedMatrixVersion (version : Z)
| SmPlanningIrVersionMismatch (version : Z)
| SmInvalidFeatureId (value : string)
| SmInvalidBackendId (value : string)
| SmUnknownGeneratedCategory (value : string)
| SmOrphanGeneratedCell (backend : string)
| SmInvalidBackendVersion (backend : string)
| SmInvalidAdapterVersion (backend : string)
| SmDuplicateFeature (feature : string)
| SmDuplicateCell (backend feature : string)
| SmInvalidCell (feature : string)
| SmIncompleteColumn (backend : string)
| SmDuplicateBackend (backend : string)
| SmDeferredBackendClaimed (backend : string)
| SmDuplicateDeferredBackend (backend : string)
| SmBackendMissing (backend : string)
| SmDescriptorVersionMismatch (backend : string)
| SmDescriptorCapabilitiesMismatch (backend : string).
Notation SMR := (Result SupportMatrixError).
Definition valid_feature_id (value : string) : bool :=
  let segments := split_dot (String.list_ascii_of_string value) in
  (3 <=? str_len value) && (str_len value <=? MAX_FEATURE_ID_BYTES) && (2 <=? len segments)
  && forallb (λ segment, negb (bool_decide (segment = []))
       && forallb (λ c, is_ascii_lowercase c || is_ascii_digit c || bool_decide (c = "-"%char)) segment) segments.
Definition SupportFeatureId_new (value : string) : SMR string :=
  if valid_feature_id value then Ok value else Err (SmInvalidFeatureId value).

(** ** Descriptors *)
Definition MAX_DISPLAY_NAME_BYTES : Z := 120.
Definition MAX_VERSION_BYTES : Z := 64.
Definition MAX_LICENSE_FIELD_BYTES : Z := 256.
Definition MAX_SOURCE_URL_BYTES : Z := 2048.
Inductive SolverDistribution := BuiltIn | BundledWorker | UserProvided.
Inductive BackendStability := Stable | Beta | Experimental.
Record LicenseMetadata := { spdx_expression : string; license_name : string; source_url : option string }.
Record SolverCapabilities := { supported : gset string; degraded : gset string }.
#[global] Instance SolverCapabilities_eq_dec : EqDecision SolverCapabilities.
Proof. solve_decision. Defined.
Definition available (capabilities : SolverCapabilities) : gset string :=
  supported capabilities ∪ degraded capabilities.
Record SolverDescriptor := {
  sd_id : string; display_name : string; sd_version : string; sd_adapter_version : string;
  distribution : SolverDistribution; license : LicenseMetadata; stability : BackendStability;
  capabilities : SolverCapabilities
}.
Inductive DescriptorError :=
| InvalidDisplayName | InvalidVersion | InvalidDescriptorAdapterVersion | InvalidLicense | InvalidSourceUrl
| OverlappingCapability (feature : string).
Definition has_control (value : string) : bool := existsb is_control (chars value).
Definition valid_version (value : string) : bool :=
  let bytes := String.list_ascii_of_string value in
  negb (bool_decide (bytes = [])) && (len bytes <=? MAX_VERSION_BYTES)
  && match head bytes with Some c => is_ascii_alphanumeric c | None => false end
  && forallb (λ c, is_ascii_alphanumeric c || bool_decide (c ∈ ["."%char; "-"%char; "+"%char])) bytes.
Definition SolverDescriptor_validate (d : SolverDescriptor) : Result DescriptorError unit :=
  if bool_decide (display_name d = "") || (MAX_DISPLAY_NAME_BYTES <? str_len (display_name d))
     || has_control (display_name d)
  then Err InvalidDisplayName
  else if negb (valid_version (sd_version d)) then Err InvalidVersion
  else if negb (valid_version (sd_adapter_version d)) then Err InvalidDescriptorAdapterVersion
  else if bool_decide (spdx_expression (license d) = "")
     || (MAX_LICENSE_FIELD_BYTES <? str_len (spdx_expression (license d)))
     || has_control (spdx_expression (license d))
     || bool_decide (license_name (license d) = "")
     || (MAX_LICENSE_FIELD_BYTES <? str_len (license_name (license d)))
     || has_control (license_name (license d))
  then Err InvalidLicense
  else if match source_url (license d) with
          | Some url => (MAX_SOURCE_URL_BYTES <? str_len url) || negb (String.prefix "https://" url)
                        || has_control url
          | None => false
          end
  then Err InvalidSourceUrl
  else match ord_sort (elements (supported (capabilities d) ∩ degraded (capabilities d))) with
       | feature :: _ => Err (OverlappingCapability feature)
       | [] => Ok tt
       end.

(** ** The support matrix *)
Inductive SupportFeatureCategory := CategoryPrimitive | CategoryObjective | CategoryProjection | CategorySolve.
Inductive SupportFeatureGate := Unconditional | Enabled (gate : string).
Record SupportFeature := { sf_id : string; sf_category : SupportFeatureCategory; sf_gate : SupportFeatureGate }.
Inductive SupportCell :=
| Supported (fixture_id : string)
| Degraded (restriction_id reason remediation fixture_id : string)
| Unsupported (reason remediation fixture_id : string).
Inductive CompatibilityLevel := LevelSupported | LevelDegraded | LevelUnsupported.
#[global] Instance CompatibilityLevel_eq_dec : EqDecision CompatibilityLevel.
Proof. solve_decision. Defined.
Definition cell_level (cell : SupportCell) : CompatibilityLevel :=
  match cell with
  | Supported _ => LevelSupported
  | Degraded _ _ _ _ => LevelDegraded
  | Unsupported _ _ _ => LevelUnsupported
  end.
Definition valid_contract_text (value : string) : bool :=
  negb (bool_decide (value = "")) && (str_len value <=? MAX_FEATURE_ID_BYTES) && negb (has_control value).
Definition valid_reason (value : string) : bool :=
  negb (bool_decide (value = "")) && (str_len value <=? MAX_REASON_BYTES) && negb (has_control value).
Definition cell_validate (cell : SupportCell) : bool :=
  match cell with
  | Supported fixture_id => valid_contract_text fixture_id
  | Degraded restriction_id reason remediation fixture_id =>
      valid_contract_text restriction_id && valid_reason reason && valid_reason remediation
      && valid_contract_text fixture_id
  | Unsupported reason remediation fixture_id =>
      valid_reason reason && valid_reason remediation && valid_contract_text fixture_id
  end.
Record BackendSupportColumn := {
  bs_backend_id : string; bs_backend_version : string; bs_adapter_version : string;
  bs_cells : list (string * SupportCell)
}.
Record DeferredBackendCandidate := {
  db_backend_id : string; db_candidate_version : string; db_owning_phase : Z
}.
Record ValidatedBackendColumn := {
  vb_backend_version : string; vb_adapter_version : string; vb_cells : gmap string SupportCell
}.
Record CapabilityMatrix := {
  cm_schema_version : Z;
  cm_planning_ir_schema_version : Z;
  cm_features : gmap string SupportFeature;
  cm_backends : gmap string ValidatedBackendColumn;
  cm_deferred_candidates : list DeferredBackendCandidate
}.
Definition add_feature (m : gmap string SupportFeature) (feature : SupportFeature) :
    SMR (gmap string SupportFeature) :=
  if bool_decide (is_Some (m !! sf_id feature)) then Err (SmDuplicateFeature (sf_id feature))
  else Ok (<[sf_id feature := feature]> m).
Definition check_column_versions (column : BackendSupportColumn) : SMR unit :=
  if negb (valid_contract_text (bs_backend_version column))
  then Err (SmInvalidBackendVersion (bs_backend_id column))
  else if negb (valid_contract_text (bs_adapter_version column))
  then Err (SmInvalidAdapterVersion (bs_backend_id column))
  else Ok tt.
Definition add_cell (backend : string) (cells : gmap string SupportCell) (entry : string * SupportCell) :
    SMR (gmap string SupportCell) :=
  if negb (cell_validate entry.2) then Err (SmInvalidCell entry.1)
  else if bool_decide (is_Some (cells !! entry.1)) then Err (SmDuplicateCell backend entry.1)
  else Ok (<[entry.1 := entry.2]> cells).
Definition add_column (feature_ids : gset string) (backends : gmap string ValidatedBackendColumn)
    (column : BackendSupportColumn) : SMR (gmap string ValidatedBackendColumn) :=
  cells ← fold_m (add_cell (bs_backend_id column)) ∅ (bs_cells column);
  if negb (bool_decide (dom cells = feature_ids)) then Err (SmIncompleteColumn (bs_backend_id column))
  else if bool_decide (is_Some (backends !! bs_backend_id column))
  then Err (SmDuplicateBackend (bs_backend_id column))
  else Ok (<[bs_backend_id column :=
               {| vb_backend_version := bs_backend_version column;
                  vb_adapter_version := bs_adapter_version column; vb_cells := cells |}]> backends).
Definition add_deferred (backends : gmap string ValidatedBackendColumn) (ids : gset string)
    (candidate : DeferredBackendCandidate) : SMR (gset string) :=
  if bool_decide (is_Some (backends !! db_backend_id candidate))
  then Err (SmDeferredBackendClaimed (db_backend_id candidate))
  else if bool_decide (db_backend_id candidate ∈ ids)
  then Err (SmDuplicateDeferredBackend (db_backend_id candidate))
  else Ok ({[db_backend_id candidate]} ∪ ids).
Definition CapabilityMatrix_new (schema_version planning_ir_schema_version : Z) (features : list SupportFeature)
    (columns : list BackendSupportColumn) (deferred_candidates : list DeferredBackendCandidate) :
    SMR CapabilityMatrix :=
  if negb (schema_version =? SUPPORT_MATRIX_SCHEMA_VERSION)
  then Err (SmUnsupportedMatrixVersion schema_version)
  else if negb (planning_ir_schema_version =? SUPPORT_MATRIX_IR_SCHEMA_VERSION)
  then Err (SmPlanningIrVersionMismatch planning_ir_schema_version)
  else
    feature_map ← fold_m add_feature ∅ features;
    _ ← for_each check_column_versions columns;
    backends ← fold_m (add_column (dom feature_map)) ∅ columns;
    _ ← fold_m (add_deferred backends) ∅ deferred_candidates;
    Ok {| cm_schema_version := schema_version; cm_planning_ir_schema_version := planning_ir_schema_version;
          cm_features := feature_map; cm_backends := backends;
          cm_deferred_candidates := deferred_candidates |}.
Definition parse_category (value : string) : SMR SupportFeatureCategory :=
  if bool_decide (value = "primitive") then Ok CategoryPrimitive
  else if bool_decide (value = "objective") then Ok CategoryObjective
  else if bool_decide (value = "projection") then Ok CategoryProjection
  else if bool_decide (value = "solve") then Ok CategorySolve
  else Err (SmUnknownGeneratedCategory value).
Definition parse_gate (value : string) : SupportFeatureGate :=
  if bool_decide (value = "unconditional") then Unconditional else Enabled value.
Definition generated_feature (row : string * string * string) : SMR SupportFeature :=
  let '(id, category, gate) := row in
  id ← SupportFeatureId_new id;
  category ← parse_category category;
  Ok {| sf_id := id; sf_category := category; sf_gate := parse_gate gate |}.
Definition generated_cell (row : GeneratedCell) : SMR (string * SupportCell) :=
  feature_id ← SupportFeatureId_new (gc_feature row);
  if bool_decide (gc_level row = "supported") then Ok (feature_id, Supported (gc_fixture_id row))
  else if bool_decide (gc_level row = "degraded")
  then Ok (feature_id, Degraded (gc_restriction_id row) (gc_reason row) (gc_remediation row) (gc_fixture_id row))
  else if bool_decide (gc_level row = "unsupported")
  then Ok (feature_id, Unsupported (gc_reason row) (gc_remediation row) (gc_fixture_id row))
  else Err (SmInvalidCell feature_id).
Definition generated_id (id : string) : SMR string := map_err (λ _, SmInvalidBackendId id) (BackendId_new id).
Definition generated_column (row : string * string * string) : SMR BackendSupportColumn :=
  let '(id, version, adapter_version) := row in
  cells ← mapM generated_cell (filter (λ c, gc_backend c = id) PRODUCTION_SUPPORT_CELLS);
  id ← generated_id id;
  Ok {| bs_backend_id := id; bs_backend_version := version; bs_adapter_version := adapter_version;
        bs_cells := cells |}.
Definition generated_deferred (row : string * string * Z) : SMR DeferredBackendCandidate :=
  let '(id, version, phase) := row in
  id ← generated_id id;
  Ok {| db_backend_id := id; db_candidate_version := version; db_owning_phase := phase |}.
Definition CapabilityMatrix_generated : SMR CapabilityMatrix :=
  features ← mapM generated_feature SUPPORT_FEATURES;
  _ ← match list_find (λ c, gc_backend c ∉ map (λ row, row.1.1) PRODUCTION_BACKENDS) PRODUCTION_SUPPORT_CELLS with
      | Some (_, orphan) => Err (SmOrphanGeneratedCell (gc_backend orphan))
      | None => Ok tt
      end;
  columns ← mapM generated_column PRODUCTION_BACKENDS;
  deferred_candidates ← mapM generated_deferred DEFERRED_BACKEND_CANDIDATES;
  CapabilityMatrix_new SUPPORT_MATRIX_SCHEMA_VERSION SUPPORT_MATRIX_IR_SCHEMA_VERSION features columns
    deferred_candidates.
Definition production_backend_ids (matrix : CapabilityMatrix) : list string := (btree_iter (cm_backends matrix)).*1.
Definition backend_columns (matrix : CapabilityMatrix) : list BackendSupportColumn :=
  (λ '(id, column), {| bs_backend_id := id; bs_backend_version := vb_backend_version column;
                       bs_adapter_version := vb_adapter_version column;
                       bs_cells := btree_iter (vb_cells column) |}) <$> btree_iter (cm_backends matrix).

(** ** Reports *)
Record RequiredFeature := { rq_id : string; rq_usage_count : Z; rq_path : string }.
Record UnsupportedFeature := {
  uf_feature_id : string; uf_usage_count : Z; uf_path : string; uf_reason : string; uf_remediation : string
}.
Record CompatibilityWarning := {
  cw_feature_id : string; cw_usage_count : Z; cw_path : string; cw_restriction_id : string;
  cw_reason : string; cw_remediation : string
}.
Record ModelCostEstimate := { mc_variables : Z; mc_constraints : Z; mc_references : Z }.
Record CompatibilityReport := {
  cr_level : CompatibilityLevel;
  unsupported_features : list UnsupportedFeature;
  warnings : list CompatibilityWarning;
  estimated_translation_cost : option ModelCostEstimate
}.
Definition compatible (report : CompatibilityReport) : bool :=
  negb (bool_decide (cr_level report = LevelUnsupported)).
Definition unsupported_entry (required : RequiredFeature) (reason remediation : string) : UnsupportedFeature :=
  {| uf_feature_id := rq_id required; uf_usage_count := rq_usage_count required; uf_path := rq_path required;
     uf_reason := reason; uf_remediation := remediation |}.
Definition report_entry (column : option ValidatedBackendColumn)
    (st : list UnsupportedFeature * list CompatibilityWarning) (required : RequiredFeature) :
    list UnsupportedFeature * list CompatibilityWarning :=
  match column ≫= (λ column, vb_cells column !! rq_id required) with
  | Some (Supported _) => st
  | Some (Degraded restriction_id reason remediation _) =>
      (st.1, st.2 ++ [{| cw_feature_id := rq_id required; cw_usage_count := rq_usage_count required;
                         cw_path := rq_path required; cw_restriction_id := restriction_id;
                         cw_reason := reason; cw_remediation := remediation |}])
  | Some (Unsupported reason remediation _) => (st.1 ++ [unsupported_entry required reason remediation], st.2)
  | None => (st.1 ++ [unsupported_entry required "The backend has no support-matrix claim for this feature."
                        "Choose a backend with a tested support claim."], st.2)
  end.
Definition report_level (unsupported : list UnsupportedFeature) (warnings : list CompatibilityWarning) :
    CompatibilityLevel :=
  match unsupported, warnings with
  | _ :: _, _ => LevelUnsupported
  | [], _ :: _ => LevelDegraded
  | [], [] => LevelSupported
  end.
Definition report (matrix : CapabilityMatrix) (backend : string) (requirements : list RequiredFeature)
    (cost : option ModelCostEstimate) : CompatibilityReport :=
  let '(unsupported, warnings) := foldl (report_entry (cm_backends matrix !! backend)) ([], []) requirements in
  let unsupported := sort_by_key uf_feature_id unsupported in
  let warnings := sort_by_key cw_feature_id warnings in
  {| cr_level := report_level unsupported warnings; unsupported_features := unsupported; warnings := warnings;
     estimated_translation_cost := cost |}.
Definition cells_at (level : CompatibilityLevel) (cells : gmap string SupportCell) : gset string :=
  dom (filter (λ kv, cell_level kv.2 = level) cells).
Definition backend_capabilities (matrix : CapabilityMatrix) (backend : string) : SMR SolverCapabilities :=
  column ← ok_or (SmBackendMissing backend) (cm_backends matrix !! backend);
  Ok {| supported := cells_at LevelSupported (vb_cells column);
        degraded := cells_at LevelDegraded (vb_cells column) |}.
Definition validate_descriptor (matrix : CapabilityMatrix) (d : SolverDescriptor) : SMR unit :=
  column ← ok_or (SmBackendMissing (sd_id d)) (cm_backends matrix !! sd_id d);
  if negb (bool_decide (sd_version d = vb_backend_version column))
     || negb (bool_decide (sd_adapter_version d = vb_adapter_version column))
  then Err (SmDescriptorVersionMismatch (sd_id d))
  else
    capabilities' ← backend_capabilities matrix (sd_id d);
    if negb (bool_decide (capabilities d = capabilities')) then Err (SmDescriptorCapabilitiesMismatch (sd_id d))
    else Ok tt.
