(* ===== verification/Preflight.v ===== *)
(** * Compatibility, preflight and the backend registry

    Models the compatibility half of [crates/eutheto-solver-api/src/preflight.rs], [registry.rs], and,
    of [crates/eutheto-solver-ortools/src], [descriptor.rs] and [compatibility.rs].  A backend is the
    record of what its trait answers without being run; running it is the environment's. *)
From stdpp Require Import base tactics list gmap strings.
From Stdlib Require Import ZArith Lia Ascii.
From S2P Require Import Prelude Ordering Protocol Control Budget Ids DomainIr Model Analysis Validation Canonical.
From S2P Require Import Session SolverApi Support.
Open Scope string_scope.
Open Scope list_scope.
Open Scope Z_scope.

(** ** Requirements of a model and its options *)
Inductive OrToolsDescriptorError :=
| OdInvalidBackendIdentifier (error : NamespacedIdError)
| OdInvalidCapability (error : SupportMatrixError)
| OdInvalidDescriptor (error : DescriptorError).
(** Whose text an invalid descriptor is reported with. *)
Inductive DescriptorText := TextOfDescriptor (error : DescriptorError) | TextOfOrTools (error : OrToolsDescriptorError).
Inductive PreflightError :=
| PfInvalidDescriptor (error : DescriptorText)
| PfRequestBackendMismatch
| PfBackendVersionMismatch
| PfUnresolvedBackendSelection
| PfAdapterVersionMismatch
| PfOptionBackendMismatch
| PfCancelled
| PfDeadlineExceeded
| PfMatrix (error : SupportMatrixError)
| PfInvalidProblem (error : CanonicalError)
| PfSummaryMismatch
| PfInvalidSolveOptions
| PfInternalFeature (error : SupportMatrixError)
| PfIncompatible (report : CompatibilityReport).
Notation PFR := (Result PreflightError).
Definition capability_name (capability : Capability) : string :=
  match capability with
  | CapBoolOr => "ir.bool-or"
  | CapBoolAnd => "ir.bool-and"
  | CapImplication => "ir.implication"
  | CapEquivalence => "ir.equivalence"
  | CapAtMostOne => "ir.at-most-one"
  | CapExactlyOne => "ir.exactly-one"
  | CapCardinalityRange => "ir.cardinality-range"
  | CapLinearComparison => "ir.integer-linear"
  | CapReifiedLinearComparison => "ir.reified-linear-comparison"
  | CapAllDifferent => "ir.all-different"
  | CapAllowedTable => "ir.allowed-table"
  | CapForbiddenTable => "ir.forbidden-table"
  | CapElement => "ir.element"
  | CapMin => "ir.minimum"
  | CapMax => "ir.maximum"
  | CapEquality => "ir.equality"
  | CapAbsDifference => "ir.absolute-difference"
  | CapNoOverlap => "ir.no-overlap"
  | CapCumulative => "ir.cumulative"
  | CapOptionalIntervals => "ir.optional-interval"
  | CapObjectivePenalty => "ir.objective-penalty"
  | CapObjectiveReward => "ir.objective-reward"
  | CapAssumptions => "ir.assumptions"
  | CapBooleanProjection => "projection.boolean"
  | CapIntegerProjection => "projection.integer"
  | CapIntervalProjection => "projection.interval"
  | CapAbsentProjection => "projection.absent"
  end.
Definition support_feature (id : string) : PFR string := map_err PfInternalFeature (SupportFeatureId_new id).
Definition capability_feature (capability : Capability) : PFR string := support_feature (capability_name capability).
Definition required_feature (id : string) (usage_count : Z) (path : string) : PFR RequiredFeature :=
  id ← support_feature id;
  Ok {| rq_id := id; rq_usage_count := usage_count; rq_path := path |}.
(** The entries of a [BTreeMap] keyed by capability, in declaration order. *)
Definition capability_iter (counts : gmap Capability Z) : list (Capability * Z) :=
  omap (λ c, pair c <$> counts !! c) all_capabilities.
Definition required_capability (entry : Capability * Z) : PFR RequiredFeature :=
  id ← capability_feature entry.1;
  Ok {| rq_id := id; rq_usage_count := entry.2; rq_path := "planningProblem.manifest.capabilityCounts" |}.
(** A requirement that is only present under a condition. *)
Definition required_when (condition : bool) (id : string) (usage_count : Z) (path : string) :
    PFR (list RequiredFeature) :=
  if condition then required ← required_feature id usage_count path; Ok [required] else Ok [].
Definition strategy_requirement (summary : PlanningProblemSummary) : PFR (list RequiredFeature) :=
  match su_lexicographic_strategy summary with
  | ExactScalarization _ =>
      required_when (0 <? su_objective_level_count summary) "ir.scalarized-objectives"
        (su_objective_level_count summary) "planningProblem.objectives"
  | Multipass =>
      required_when true "ir.multipass-objectives" (su_objective_level_count summary) "planningProblem.objectives"
  end.
Definition requirements_for (summary : PlanningProblemSummary) (options : SolveOptions) :
    PFR (list RequiredFeature) :=
  capabilities ← mapM required_capability (capability_iter (capability_counts (su_manifest summary)));
  strategy ← strategy_requirement summary;
  cancellation ← required_when true "solve.cancellation" 1 "solveOptions.timeLimitMilliseconds";
  resources ← required_when true "solve.resource-limits" 1 "solveOptions.resourceLimits";
  deterministic ← required_when (bool_decide (so_reproducibility options = Deterministic))
    "solve.deterministic-mode" 1 "solveOptions.reproducibility";
  intermediate ← required_when (so_collect_intermediate_solutions options)
    "solve.intermediate-candidates" 1 "solveOptions.collectIntermediateSolutions";
  proof ← required_when (0 <? su_objective_level_count summary)
    "solve.proof-and-bounds" (su_objective_level_count summary) "planningProblem.objectives";
  explanation ← required_when (negb (bool_decide (so_explanation_mode options = ExplainNone)))
    "solve.infeasibility-evidence" 1 "solveOptions.explanationMode";
  Ok (capabilities ++ strategy ++ cancellation ++ resources ++ deterministic ++ intermediate ++ proof
      ++ explanation).
Definition compatibility_for (matrix : CapabilityMatrix) (backend : string) (summary : PlanningProblemSummary)
    (options : SolveOptions) : PFR CompatibilityReport :=
  required ← requirements_for summary options;
  let estimate := {| mc_variables := su_variable_count summary; mc_constraints := su_constraint_count summary;
                     mc_references := su_total_reference_count summary |} in
  Ok (report matrix backend required (Some estimate)).

(** ** Preflight *)
#[global] Instance UnsupportedFeature_eq_dec : EqDecision UnsupportedFeature.
Proof. solve_decision. Defined.
#[global] Instance LexicographicStrategy_eq_dec : EqDecision LexicographicStrategy.
Proof. solve_decision. Defined.
#[global] Instance FeatureUsageManifest_eq_dec : EqDecision FeatureUsageManifest.
Proof. solve_decision. Defined.
#[global] Instance MathematicalComponent_eq_dec : EqDecision MathematicalComponent.
Proof. solve_decision. Defined.
#[global] Instance ComponentAnalysis_eq_dec : EqDecision ComponentAnalysis.
Proof. solve_decision. Defined.
#[global] Instance PlanningProblemSummary_eq_dec : EqDecision PlanningProblemSummary.
Proof. solve_decision. Defined.
#[global] Instance PlanningIrLimitsV1_eq_dec : EqDecision PlanningIrLimitsV1.
Proof. solve_decision. Defined.
#[global] Instance PlanningProblem_eq_dec : EqDecision PlanningProblem.
Proof. solve_decision. Defined.
Definition view_is_cancelled (w : World) (view : SolveBudgetView) : bool :=
  is_cancelled (tokens w) (cancellation (view_state view)).
(** What the clock and the tokens show at the two checks, and to the preparation budget of the summary. *)
Record PreflightWorlds := { pw_cancelled : World; pw_expired : World; pw_budget_id : nat; pw_env : nat → World }.
Definition preflight_guards (worlds : PreflightWorlds) (matrix : CapabilityMatrix) (descriptor : SolverDescriptor)
    (request : SolveRequest) : PFR unit :=
  _ ← map_err (PfInvalidDescriptor ∘ TextOfDescriptor) (SolverDescriptor_validate descriptor);
  if negb (bool_decide (sr_backend_id request = sd_id descriptor)) then Err PfRequestBackendMismatch
  else if negb (bool_decide (sr_backend_version request = sd_version descriptor)) then Err PfBackendVersionMismatch
  else if negb (bool_decide (sr_adapter_version request = sd_adapter_version descriptor))
  then Err PfAdapterVersionMismatch
  else
    _ ← match so_backend (sr_options request) with
        | SelectAuto => Err PfUnresolvedBackendSelection
        | SelectSpecific id =>
            if negb (bool_decide (id = sr_backend_id request)) then Err PfOptionBackendMismatch else Ok tt
        end;
    let view := child_view (sr_dispatch_budget request) in
    if view_is_cancelled (pw_cancelled worlds) view then Err PfCancelled
    else if is_expired (pw_expired worlds) view || (backend_limit (sr_dispatch_budget request) =? 0)
    then Err PfDeadlineExceeded
    else map_err PfMatrix (validate_descriptor matrix descriptor).
(** A prepared request shares the problem of its prepared model, so that the source's pointer comparison
    and equality agree on every request its constructors make. *)
Definition prepared_matches (limits : PlanningIrLimitsV1) (request : SolveRequest) (summary : PlanningProblemSummary) :
    bool :=
  match sr_prepared request with
  | Some prepared => bool_decide (pp_limits prepared = limits)
                     && bool_decide (pp_problem prepared = sr_problem request)
                     && bool_decide (pp_summary prepared = summary)
  | None => false
  end.
Section preflight.
Context (blake3_hex : list Z → string).
Context (serialize_problem : PlanningProblem → Bytes).
Context (serialize_view : CanonicalHashProblem → Bytes).
Definition check_summary (worlds : PreflightWorlds) (limits : PlanningIrLimitsV1) (request : SolveRequest)
    (summary : PlanningProblemSummary) : PFR unit :=
  if prepared_matches limits request summary then Ok tt
  else
    let preparation := dispatch_preparation_budget (sr_dispatch_budget request) limits (pw_budget_id worlds)
                         (pw_env worlds) in
    actual ← map_err PfInvalidProblem
      (summarize_with_budget blake3_hex serialize_problem serialize_view (sr_problem request) limits preparation).1;
    if bool_decide (bps_summary actual = summary) then Ok tt else Err PfSummaryMismatch.
(** [None] is the [unreachable!] of a request without a summary. *)
Definition preflight (worlds : PreflightWorlds) (matrix : CapabilityMatrix) (descriptor : SolverDescriptor)
    (request : SolveRequest) : option (PFR CompatibilityReport) :=
  match preflight_guards worlds matrix descriptor request with
  | Err error => Some (Err error)
  | Ok _ =>
      let limits := tightened_by limits_default (so_resource_limits (sr_options request)) in
      summary ← sr_summary_of request;
      Some (_ ← check_summary worlds limits request summary;
            _ ← map_err (λ _, PfInvalidSolveOptions) (SolveOptions_validate (sr_options request));
            report ← compatibility_for matrix (sr_backend_id request) summary (sr_options request);
            if compatible report then Ok report else Err (PfIncompatible report))
  end.
End preflight.

(** ** The registry *)
Record SolverBackend := {
  sb_descriptor : SolverDescriptor;
  sb_runtime_identity : BackendRuntimeIdentity;
  sb_completion_reserve : Z;
  sb_compatibility : PlanningProblemSummary → SolveOptions → CompatibilityReport
}.
Record SolverRegistry := { rg_matrix : CapabilityMatrix; rg_backends : gmap string SolverBackend }.
Inductive RegistryError :=
| RgInvalidDescriptor (error : DescriptorError)
| RgInvalidRuntimeIdentity (backend : string) (error : BackendRuntimeIdentityError)
| RgRuntimeIdentityBackendIdMismatch (descriptor_backend_id identity_backend_id : string)
| RgRuntimeIdentityBackendVersionMismatch (backend : string)
| RgRuntimeIdentityAdapterVersionMismatch (backend : string)
| RgDuplicateBackend (backend : string)
| RgMatrixMismatch (error : SupportMatrixError)
| RgRegistryMatrixSetMismatch.
Notation RGR := (Result RegistryError).
Definition register_backend (matrix : CapabilityMatrix) (registered : gmap string SolverBackend)
    (backend : SolverBackend) : RGR (gmap string SolverBackend) :=
  let descriptor := sb_descriptor backend in
  let identity := sb_runtime_identity backend in
  let id := sd_id descriptor in
  _ ← map_err RgInvalidDescriptor (SolverDescriptor_validate descriptor);
  _ ← map_err (RgInvalidRuntimeIdentity id) (BackendRuntimeIdentity_validate identity);
  if negb (bool_decide (bi_backend_id identity = id))
  then Err (RgRuntimeIdentityBackendIdMismatch id (bi_backend_id identity))
  else if negb (bool_decide (bi_backend_version identity = sd_version descriptor))
  then Err (RgRuntimeIdentityBackendVersionMismatch id)
  else if negb (bool_decide (bi_adapter_version identity = sd_adapter_version descriptor))
  then Err (RgRuntimeIdentityAdapterVersionMismatch id)
  else if bool_decide (is_Some (registered !! id)) then Err (RgDuplicateBackend id)
  else
    _ ← map_err RgMatrixMismatch (validate_descriptor matrix descriptor);
    Ok (<[id := backend]> registered).
Definition SolverRegistry_new (matrix : CapabilityMatrix) (backends : list SolverBackend) : RGR SolverRegistry :=
  registered ← fold_m (register_backend matrix) ∅ backends;
  let matrix_ids := production_backend_ids matrix in
  if negb (forallb (λ id, bool_decide (id ∈ matrix_ids)) (btree_iter registered).*1)
  then Err RgRegistryMatrixSetMismatch
  else Ok {| rg_matrix := matrix; rg_backends := registered |}.
Definition SolverRegistry_production : RGR SolverRegistry :=
  matrix ← map_err RgMatrixMismatch CapabilityMatrix_generated;
  SolverRegistry_new matrix [].
Definition registry_get (registry : SolverRegistry) (id : string) : option SolverBackend := rg_backends registry !! id.
Definition registry_descriptors (registry : SolverRegistry) : list SolverDescriptor :=
  (λ entry : string * SolverBackend, sb_descriptor entry.2) <$> btree_iter (rg_backends registry).

(** ** The OR-Tools backend *)
Definition ORTOOLS_BACKEND_ID : string := "solver.ortools-cp-sat".
Definition ORTOOLS_VERSION : string := "9.15.6755".
Definition ORTOOLS_ADAPTER_VERSION : string := "0.1.0".
Definition ortools_descriptor : Result OrToolsDescriptorError SolverDescriptor :=
  id ← map_err OdInvalidBackendIdentifier (BackendId_new ORTOOLS_BACKEND_ID);
  matrix ← map_err OdInvalidCapability CapabilityMatrix_generated;
  capabilities ← map_err OdInvalidCapability (backend_capabilities matrix id);
  let descriptor := {|
    sd_id := id; display_name := "OR-Tools CP-SAT"; sd_version := ORTOOLS_VERSION;
    sd_adapter_version := ORTOOLS_ADAPTER_VERSION; distribution := BundledWorker;
    license := {| spdx_expression := "Apache-2.0"; license_name := "Apache License 2.0";
                  source_url := Some "https://github.com/google/or-tools/archive/refs/tags/v9.15.tar.gz" |};
    stability := Beta; capabilities := capabilities |} in
  _ ← map_err OdInvalidDescriptor (SolverDescriptor_validate descriptor);
  Ok descriptor.
Definition unsupported_option (id : string) (usage_count : Z) (path reason remediation : string) :
    PFR UnsupportedFeature :=
  feature_id ← support_feature id;
  Ok {| uf_feature_id := feature_id; uf_usage_count := usage_count; uf_path := path; uf_reason := reason;
        uf_remediation := remediation |}.
(** [report.unsupported_features.push] under a condition. *)
Definition push_unsupported_when (condition : bool) (entry : PFR UnsupportedFeature) (unsupported : list UnsupportedFeature) :
    PFR (list UnsupportedFeature) :=
  if condition then entry ← entry; Ok (unsupported ++ [entry]) else Ok unsupported.
Definition restrict_assumptions (summary : PlanningProblemSummary) (options : SolveOptions)
    (unsupported : list UnsupportedFeature) : PFR (list UnsupportedFeature) :=
  if 0 <? su_assumption_count summary then
    unsupported ← push_unsupported_when (0 <? su_objective_level_count summary)
      (unsupported_option "ir.assumptions" (su_assumption_count summary) "planningProblem.objectives"
         "The sufficient-assumption diagnostic profile is available only for satisfaction models; an objective level remains objective-bearing even when it has no terms."
         "Remove all objective levels or choose a backend that supports assumption diagnostics with objectives.")
      unsupported;
    push_unsupported_when (negb (bool_decide (so_worker_threads options = ThreadsExact 1)))
      (unsupported_option "solve.infeasibility-evidence" 1 "solveOptions.workerThreads"
         "The sufficient-assumption diagnostic profile requires exactly one worker thread; automatic worker selection is not admitted."
         "Set workerThreads to exact count 1 or choose a backend with multi-worker assumption diagnostics.")
      unsupported
  else Ok unsupported.
Definition restrict_resources (options : SolveOptions)
    (st : list UnsupportedFeature * list CompatibilityWarning) :
    PFR (list UnsupportedFeature * list CompatibilityWarning) :=
  if bool_decide (is_Some (so_memory_limit_bytes options)) || bool_decide (is_Some (so_solution_limit options)) then
    feature_id ← support_feature "solve.resource-limits";
    let entry := {|
      uf_feature_id := feature_id; uf_usage_count := 1;
      uf_path := if bool_decide (is_Some (so_memory_limit_bytes options))
                 then "solveOptions.memoryLimitBytes" else "solveOptions.solutionLimit";
      uf_reason := "The Phase 03 adapter does not enforce requested process-memory or candidate-count limits.";
      uf_remediation := "Remove the unsupported limit or choose a backend that enforces it." |} in
    Ok (st.1 ++ [entry], filter (λ warning, cw_feature_id warning ≠ feature_id) st.2)
  else Ok st.
Definition restrict_search (options : SolveOptions) (unsupported : list UnsupportedFeature) :
    PFR (list UnsupportedFeature) :=
  unsupported ← push_unsupported_when (2 ^ 31 - 1 <? so_random_seed options)
    (unsupported_option "solve.deterministic-mode" 1 "solveOptions.randomSeed"
       "OR-Tools accepts only signed 32-bit random seeds." "Choose a random seed no greater than 2147483647.")
    unsupported;
  unsupported ← push_unsupported_when
    (match so_worker_threads options with
     | ThreadsExact count => MAX_ORTOOLS_WORKER_THREADS <? count
     | ThreadsAuto => false
     end)
    (unsupported_option "solve.resource-limits" 1 "solveOptions.workerThreads"
       "The requested worker count exceeds the pinned worker protocol limit." "Choose at most 10000 worker threads.")
    unsupported;
  push_unsupported_when
    (bool_decide (so_reproducibility options = Deterministic)
     && (negb (so_random_seed options =? 1) || negb (bool_decide (so_worker_threads options = ThreadsExact 1))))
    (unsupported_option "solve.deterministic-mode" 1 "solveOptions.reproducibility"
       "The pinned deterministic worker profile requires random seed 1 and exactly one worker thread."
       "Set randomSeed to 1 and workerThreads to exact count 1.")
    unsupported.
Definition ortools_compatibility (matrix : CapabilityMatrix) (summary : PlanningProblemSummary)
    (options : SolveOptions) : PFR CompatibilityReport :=
  descriptor ← map_err (PfInvalidDescriptor ∘ TextOfOrTools) ortools_descriptor;
  _ ← map_err PfMatrix (validate_descriptor matrix descriptor);
  report ← compatibility_for matrix (sd_id descriptor) summary options;
  unsupported ← restrict_assumptions summary options (unsupported_features report);
  '(unsupported, warnings') ← restrict_resources options (unsupported, warnings report);
  unsupported ← restrict_search options unsupported;
  let cost := estimated_translation_cost report in
  Ok (if bool_decide (unsupported = [])
      then {| cr_level := cr_level report; unsupported_features := unsupported; warnings := warnings';
              estimated_translation_cost := cost |}
      else {| cr_level := LevelUnsupported;
              unsupported_features := sort_by_key (λ entry, (uf_feature_id entry, uf_path entry)) unsupported;
              warnings := warnings'; estimated_translation_cost := cost |}).
(** The backend's own report: unsupported when the descriptor, the matrix or a requirement is invalid. *)
Definition OrToolsBackend_compatibility (matrix : CapabilityMatrix) (problem : PlanningProblemSummary)
    (options : SolveOptions) : CompatibilityReport :=
  match ortools_compatibility matrix problem options with
  | Ok report => report
  | Err _ => {| cr_level := LevelUnsupported; unsupported_features := []; warnings := [];
                estimated_translation_cost := None |}
  end.
