(* ===== verification/PreflightFacts.v ===== *)
(** * What compatibility and preflight decide

    A summary reflects its problem; the requirements derived from it and the generated matrix make
    the OR-Tools report compatible exactly when the guards of the translator accept the model and the
    options stay within the adapter's profile. *)
From stdpp Require Import base tactics list gmap strings.
From Stdlib Require Import ZArith Lia Ascii.
From S2P Require Import Prelude Ordering Protocol Control Budget Ids DomainIr Model Analysis Validation ValidationAgreement.
From S2P Require Import Admission Canonical CanonicalFacts Accounting SolverApi Translation.
From S2P Require Import Support Preflight.
Open Scope string_scope.
Open Scope list_scope.
Open Scope Z_scope.

(** ** Summaries reflect their problem *)
Record summarizes blake3_hex (problem : PlanningProblem) (summary : PlanningProblemSummary) : Prop := {
  sm_manifest : su_manifest summary = feature_usage problem;
  sm_strategy : su_lexicographic_strategy summary = lexicographic_strategy (objectives problem);
  sm_assumptions : su_assumption_count summary = len (assumptions problem);
  sm_levels : su_objective_level_count summary = len (op_levels (objectives problem));
  sm_variables : su_variable_count summary = len (variables problem);
  sm_constraints : su_constraint_count summary = len (constraints problem);
  sm_components : su_components summary = analyze_components blake3_hex problem
}.
Lemma summary_inner_summarizes blake3_hex problem manifest analysis hash s :
  manifest = feature_usage problem → bca_analysis analysis = analyze_components blake3_hex problem →
  (∃ ctx ctx', summary_from_canonical_inner problem manifest analysis hash ctx = (Ok s, ctx')) →
  summarizes blake3_hex problem (bps_summary s).
Proof.
  intros -> Ha (ctx & ctx' & H). unfold summary_from_canonical_inner in H.
  apply se_bind_Ok in H as (guard & ctx1 & _ & H). unfold on_err in H. cbv beta in H.
  match type of H with (match (match ?m ?c with _ => _ end) with _ => _ end = _) =>
    destruct (m c) as [[s0|e] ctx2] eqn:Hm end; [|done].
  injection H as -> ->.
  apply se_bind_Ok in Hm as (? & c3 & _ & Hm). apply se_bind_Ok in Hm as (counts & c4 & _ & Hm).
  apply se_bind_Ok in Hm as (extremes & c5 & _ & Hm). apply se_bind_Ok in Hm as ([n e] & c6 & _ & Hm).
  apply se_ret_Ok in Hm as [-> ->]. by constructor.
Qed.
Lemma cvalid_with_budget_Ok blake3_hex problem limits b manifest a b' :
  cvalid_with_budget blake3_hex problem limits b = (Ok (manifest, a), b') →
  validate blake3_hex problem limits = Ok tt ∧ manifest = feature_usage problem ∧
  bca_analysis a = analyze_components blake3_hex problem.
Proof.
  unfold cvalid_with_budget.
  destruct (validate_with_budget blake3_hex problem limits b) as [[[m a']|e] b1] eqn:H; [|done].
  intros [= -> -> ->]. apply validate_with_budget_Ok in H as (refs & total_refs & Hcore & -> & Ha & Hf).
  split; [|done]. unfold validate, Validation.validate_outcome. rewrite Hcore. cbn. by rewrite <-Ha.
Qed.
Lemma with_budget_Ok {A} (m : AM A) b a b' :
  cprep (with_budget m) b = (Ok a, b') → ∃ ctx ctx', m ctx = (Ok a, ctx').
Proof.
  unfold cprep, with_budget. exists (Some b). destruct (m (Some b)) as [[x|e] [b1|]]; simplify_eq/=; eauto.
Qed.
Lemma summarize_with_budget_summarizes blake3_hex serialize_problem serialize_view problem limits b s b' :
  summarize_with_budget blake3_hex serialize_problem serialize_view problem limits b = (Ok s, b') →
  validate blake3_hex problem limits = Ok tt ∧ summarizes blake3_hex problem (bps_summary s).
Proof.
  intros (n & b1 & b2 & H)%admit_serialized_Ok.
  apply se_bind_Ok in H as ([manifest analysis] & b3 & Hv & H).
  apply cvalid_with_budget_Ok in Hv as (Hv & Hm & Ha). split; [done|].
  apply se_bind_Ok in H as (hash & b4 & _ & H).
  eapply (summary_inner_summarizes _ _ _ analysis); [exact Hm|exact Ha|by eapply with_budget_Ok].
Qed.
Lemma summarizes_capabilities blake3_hex problem caps summary :
  summarizes blake3_hex (set_capabilities caps problem) summary → summarizes blake3_hex problem summary.
Proof. by intros []; constructor. Qed.
Lemma summarize_summarizes blake3_hex serialize_problem serialize_view problem limits b summary b' :
  typed_limits limits →
  summarize blake3_hex serialize_problem serialize_view problem limits b = (Ok summary, b') →
  validate blake3_hex problem limits = Ok tt ∧ summarizes blake3_hex problem summary.
Proof.
  intros Hl (n & b1 & b2 & H)%admit_serialized_Ok.
  apply se_bind_Ok in H as ([] & b3 & Hv & H). unfold cvalid in Hv.
  apply se_lift_Ok in Hv as [Hv%map_err_Ok _]. split; [exact Hv|].
  apply se_bind_Ok in H as (canonical & b4 & Hc & H). unfold cmodel in Hc.
  apply se_lift_Ok in Hc as [Hc%map_err_Ok _].
  pose proof (validate_admits _ _ _ Hl Hv) as Hadm. rewrite (canonicalize_admitted problem limits) in Hc.
  injection Hc as <-. eapply summarizes_capabilities.
  apply se_bind_Ok in H as (? & b5 & _ & H). apply se_bind_Ok in H as (hash & b6 & _ & H).
  apply se_lift_Ok in H as [Hs%map_err_Ok _]. unfold summary_from_canonical in Hs.
  apply result_bind_Ok in Hs as (s & Hs & [= <-]).
  eapply (summary_inner_summarizes _ _ _ {| bca_analysis := _; bca_reservation := None |}); [done|done|].
  exists None. match type of Hs with (?p).1 = _ => destruct p as [r c] eqn:Hp end. cbn in Hs. subst r. eauto.
Qed.

(** ** Reports *)
Definition cell_for (matrix : CapabilityMatrix) (backend feature : string) : option SupportCell :=
  cm_backends matrix !! backend ≫= λ column, vb_cells column !! feature.
(** The matrix claims the feature, fully or with a restriction. *)
Definition admits (matrix : CapabilityMatrix) (backend feature : string) : bool :=
  match cell_for matrix backend feature with
  | Some (Supported _) | Some (Degraded _ _ _ _) => true
  | _ => false
  end.
Lemma report_entries_unsupported matrix backend required st :
  (foldl (report_entry (cm_backends matrix !! backend)) st required).1 = [] ↔
  st.1 = [] ∧ Forall (λ r, admits matrix backend (rq_id r) = true) required.
Proof.
  revert st. induction required as [|r required IH]; intros st; cbn [foldl].
  - split; [by intros ->|by intros []].
  - rewrite IH, Forall_cons. unfold report_entry, admits, cell_for.
    destruct (cm_backends matrix !! backend ≫= _) as [[]|]; cbn; (try naive_solver);
      (split; [intros [?%app_eq_nil ?]; naive_solver|naive_solver]).
Qed.
Lemma report_unsupported matrix backend required cost :
  unsupported_features (report matrix backend required cost) = [] ↔
  Forall (λ r, admits matrix backend (rq_id r) = true) required.
Proof.
  pose proof (report_entries_unsupported matrix backend required ([], [])) as H. unfold report.
  destruct (foldl _ _ required) as [u w]. cbn in *. split.
  - intros Hs. apply H. apply Permutation_nil. rewrite <-Hs. apply sort_by_key_perm.
  - intros Hr. by rewrite (proj2 H) by (split; [done|exact Hr]).
Qed.
Lemma report_level_unsupported matrix backend required cost :
  cr_level (report matrix backend required cost) = LevelUnsupported ↔
  unsupported_features (report matrix backend required cost) ≠ [].
Proof.
  unfold report. destruct (foldl _ _ _) as [u w]. cbn.
  destruct (sort_by_key uf_feature_id u), (sort_by_key cw_feature_id w); cbn; naive_solver.
Qed.

(** ** Requirements *)
Definition required_of (id : string) (usage_count : Z) (path : string) : RequiredFeature :=
  {| rq_id := id; rq_usage_count := usage_count; rq_path := path |}.
Lemma required_when_Ok condition id n path :
  valid_feature_id id = true →
  required_when condition id n path = Ok (if condition then [required_of id n path] else []).
Proof.
  intros H. unfold required_when, required_feature, support_feature, SupportFeatureId_new. rewrite H.
  by destruct condition.
Qed.
Lemma capability_feature_Ok c : capability_feature c = Ok (capability_name c).
Proof. by destruct c. Qed.
Definition capability_path : string := "planningProblem.manifest.capabilityCounts".
Lemma required_capabilities_Ok l :
  mapM required_capability l =
  Ok ((λ entry : Capability * Z, required_of (capability_name entry.1) entry.2 capability_path) <$> l).
Proof.
  induction l as [|[c n] l IH]; [done|]. cbn [mapM fmap list_fmap]. rewrite IH. unfold required_capability.
  rewrite capability_feature_Ok. done.
Qed.
Lemma elem_of_all_capabilities c : c ∈ all_capabilities.
Proof. by destruct c; apply (bool_decide_unpack _). Qed.
Lemma elem_of_capability_iter counts c n : (c, n) ∈ capability_iter counts ↔ counts !! c = Some n.
Proof.
  unfold capability_iter. rewrite list_elem_of_omap. split.
  - intros (c' & _ & H). apply fmap_Some in H as (n' & Hn & [= -> ->]). done.
  - intros H. exists c. rewrite H. split; [apply elem_of_all_capabilities|done].
Qed.
Definition option_requirements (summary : PlanningProblemSummary) (options : SolveOptions) : list RequiredFeature :=
  let levels := su_objective_level_count summary in
  match su_lexicographic_strategy summary with
  | ExactScalarization _ =>
      if 0 <? levels then [required_of "ir.scalarized-objectives" levels "planningProblem.objectives"] else []
  | Multipass => [required_of "ir.multipass-objectives" levels "planningProblem.objectives"]
  end
  ++ [required_of "solve.cancellation" 1 "solveOptions.timeLimitMilliseconds"]
  ++ [required_of "solve.resource-limits" 1 "solveOptions.resourceLimits"]
  ++ (if bool_decide (so_reproducibility options = Deterministic)
      then [required_of "solve.deterministic-mode" 1 "solveOptions.reproducibility"] else [])
  ++ (if so_collect_intermediate_solutions options
      then [required_of "solve.intermediate-candidates" 1 "solveOptions.collectIntermediateSolutions"] else [])
  ++ (if 0 <? levels then [required_of "solve.proof-and-bounds" levels "planningProblem.objectives"] else [])
  ++ (if negb (bool_decide (so_explanation_mode options = ExplainNone))
      then [required_of "solve.infeasibility-evidence" 1 "solveOptions.explanationMode"] else []).
Lemma requirements_for_Ok summary options :
  requirements_for summary options =
  Ok (((λ entry : Capability * Z, required_of (capability_name entry.1) entry.2 capability_path) <$>
         capability_iter (capability_counts (su_manifest summary))) ++ option_requirements summary options).
Proof.
  unfold requirements_for, strategy_requirement, option_requirements. rewrite required_capabilities_Ok.
  destruct (su_lexicographic_strategy summary); rewrite !required_when_Ok by done; done.
Qed.
Lemma compatibility_for_Ok matrix backend summary options :
  ∃ required cost,
    requirements_for summary options = Ok required ∧
    compatibility_for matrix backend summary options = Ok (report matrix backend required (Some cost)).
Proof.
  unfold compatibility_for. rewrite requirements_for_Ok. eexists _, _. split; [done|]. done.
Qed.
(** Every requirement derived from the summary is claimed by the matrix. *)
Lemma requirements_admitted matrix backend summary options required :
  requirements_for summary options = Ok required →
  Forall (λ r, admits matrix backend (rq_id r) = true) required ↔
  (∀ c, c ∈ dom (capability_counts (su_manifest summary)) → admits matrix backend (capability_name c) = true) ∧
  Forall (λ r, admits matrix backend (rq_id r) = true) (option_requirements summary options).
Proof.
  rewrite requirements_for_Ok. intros [= <-]. rewrite Forall_app, Forall_fmap. f_equiv.
  rewrite Forall_forall. split.
  - intros H c [n Hn]%elem_of_dom. apply (H (c, n)). by apply elem_of_capability_iter.
  - intros H [c n] Hc%elem_of_capability_iter. cbn. apply H. by apply elem_of_dom_2 in Hc.
Qed.

(** ** The OR-Tools report *)
Definition generated_claims (matrix : CapabilityMatrix) : bool :=
  forallb (λ c, Bool.eqb (admits matrix ORTOOLS_BACKEND_ID (capability_name c)) (supports_capability c)) all_capabilities
  && forallb (admits matrix ORTOOLS_BACKEND_ID)
       ["ir.scalarized-objectives"; "solve.cancellation"; "solve.resource-limits"; "solve.deterministic-mode";
        "solve.intermediate-candidates"; "solve.proof-and-bounds"; "solve.infeasibility-evidence"]
  && negb (admits matrix ORTOOLS_BACKEND_ID "ir.multipass-objectives").
Lemma generated_matrix_claims matrix : CapabilityMatrix_generated = Ok matrix → generated_claims matrix = true.
Proof.
  assert (match CapabilityMatrix_generated with Ok m => generated_claims m | Err _ => false end = true) as H
    by (vm_compute; reflexivity).
  intros Hm. by rewrite Hm in H.
Qed.
Lemma ortools_descriptor_agrees matrix :
  CapabilityMatrix_generated = Ok matrix →
  ∃ d, ortools_descriptor = Ok d ∧ sd_id d = ORTOOLS_BACKEND_ID ∧ sd_version d = ORTOOLS_VERSION ∧
    sd_adapter_version d = ORTOOLS_ADAPTER_VERSION ∧ SolverDescriptor_validate d = Ok tt ∧
    validate_descriptor matrix d = Ok tt.
Proof.
  assert (match CapabilityMatrix_generated, ortools_descriptor with
          | Ok m, Ok d => bool_decide (sd_id d = ORTOOLS_BACKEND_ID) && bool_decide (sd_version d = ORTOOLS_VERSION)
              && bool_decide (sd_adapter_version d = ORTOOLS_ADAPTER_VERSION)
              && is_ok (SolverDescriptor_validate d) && is_ok (validate_descriptor m d)
          | _, _ => false
          end = true) as H by (vm_compute; reflexivity).
  intros Hm. rewrite Hm in H. destruct ortools_descriptor as [d|e]; [|discriminate H]. exists d.
  apply andb_prop in H as [H H5]. apply andb_prop in H as [H H4]. apply andb_prop in H as [H H3].
  apply andb_prop in H as [H1 H2]. apply bool_decide_eq_true in H1, H2, H3.
  destruct (SolverDescriptor_validate d) as [[]|]; [|discriminate H4].
  destruct (validate_descriptor matrix d) as [[]|]; [|discriminate H5]. clear Hm. split_and!; done.
Qed.
(** The options the adapter serves, for a model with the given numbers of assumptions and levels. *)
Record ortools_profile (assumptions levels : Z) (options : SolveOptions) : Prop := {
  op_assumptions : 0 < assumptions → levels ≤ 0 ∧ so_worker_threads options = ThreadsExact 1;
  op_memory : so_memory_limit_bytes options = None;
  op_solutions : so_solution_limit options = None;
  op_seed : so_random_seed options ≤ 2 ^ 31 - 1;
  op_threads : ∀ count, so_worker_threads options = ThreadsExact count → count ≤ MAX_ORTOOLS_WORKER_THREADS;
  op_deterministic : so_reproducibility options = Deterministic →
    so_random_seed options = 1 ∧ so_worker_threads options = ThreadsExact 1
}.
Lemma push_unsupported_when_Ok condition id n path reason remediation unsupported :
  valid_feature_id id = true →
  ∃ unsupported', push_unsupported_when condition (unsupported_option id n path reason remediation) unsupported
      = Ok unsupported' ∧
    (unsupported' = [] ↔ unsupported = [] ∧ condition = false).
Proof.
  intros H. unfold push_unsupported_when, unsupported_option, support_feature, SupportFeatureId_new. rewrite H.
  destruct condition; (eexists; split; [reflexivity|]).
  - split; [by intros [_ ?]%app_eq_nil|naive_solver].
  - naive_solver.
Qed.
Lemma restrict_assumptions_Ok summary options unsupported :
  ∃ unsupported', restrict_assumptions summary options unsupported = Ok unsupported' ∧
    (unsupported' = [] ↔ unsupported = [] ∧
       (0 < su_assumption_count summary →
          su_objective_level_count summary ≤ 0 ∧ so_worker_threads options = ThreadsExact 1)).
Proof.
  unfold restrict_assumptions. destruct (Z.ltb_spec 0 (su_assumption_count summary)) as [Ha|Ha].
  - destruct (push_unsupported_when_Ok (0 <? su_objective_level_count summary) "ir.assumptions"
      (su_assumption_count summary) "planningProblem.objectives"
      "The sufficient-assumption diagnostic profile is available only for satisfaction models; an objective level remains objective-bearing even when it has no terms."
      "Remove all objective levels or choose a backend that supports assumption diagnostics with objectives."
      unsupported) as (u1 & -> & H1); [done|]. cbn [mbind Result_bind].
    destruct (push_unsupported_when_Ok (negb (bool_decide (so_worker_threads options = ThreadsExact 1)))
      "solve.infeasibility-evidence" 1 "solveOptions.workerThreads"
      "The sufficient-assumption diagnostic profile requires exactly one worker thread; automatic worker selection is not admitted."
      "Set workerThreads to exact count 1 or choose a backend with multi-worker assumption diagnostics."
      u1) as (u2 & H2e & H2); [done|]. exists u2. split; [exact H2e|].
    rewrite H2, H1, Z.ltb_ge, negb_false_iff, bool_decide_eq_true. naive_solver.
  - eexists. split; [done|]. split; [intros ->; split; [done|lia]|by intros []].
Qed.
Lemma restrict_resources_Ok options st :
  ∃ st', restrict_resources options st = Ok st' ∧
    (st'.1 = [] ↔ st.1 = [] ∧ so_memory_limit_bytes options = None ∧ so_solution_limit options = None).
Proof.
  unfold restrict_resources.
  destruct (so_memory_limit_bytes options), (so_solution_limit options); cbn;
    (eexists; split; [reflexivity|]); cbn; (split; [by intros [_ ?]%app_eq_nil|naive_solver]) || naive_solver.
Qed.
Lemma restrict_search_Ok options unsupported :
  ∃ unsupported', restrict_search options unsupported = Ok unsupported' ∧
    (unsupported' = [] ↔ unsupported = [] ∧ so_random_seed options ≤ 2 ^ 31 - 1 ∧
       (∀ count, so_worker_threads options = ThreadsExact count → count ≤ MAX_ORTOOLS_WORKER_THREADS) ∧
       (so_reproducibility options = Deterministic →
          so_random_seed options = 1 ∧ so_worker_threads options = ThreadsExact 1)).
Proof.
  unfold restrict_search.
  edestruct (push_unsupported_when_Ok (2 ^ 31 - 1 <? so_random_seed options)) as (u1 & E1 & H1);
    [|rewrite E1; cbn [mbind Result_bind]]; [done|].
  edestruct (push_unsupported_when_Ok (match so_worker_threads options with
     | ThreadsExact count => MAX_ORTOOLS_WORKER_THREADS <? count | ThreadsAuto => false end)) as (u2 & E2 & H2);
    [|rewrite E2; cbn [mbind Result_bind]]; [done|].
  edestruct (push_unsupported_when_Ok (bool_decide (so_reproducibility options = Deterministic)
     && (negb (so_random_seed options =? 1) || negb (bool_decide (so_worker_threads options = ThreadsExact 1)))))
    as (u3 & E3 & H3); [|exists u3; split; [exact E3|]]; [done|].
  rewrite H3, H2, H1. rewrite Z.ltb_ge, andb_false_iff, orb_false_iff, !negb_false_iff, bool_decide_eq_false,
    bool_decide_eq_true, Z.eqb_eq.
  destruct (so_worker_threads options) as [|count]; [naive_solver|].
  rewrite Z.ltb_ge. destruct (decide (so_reproducibility options = Deterministic)); naive_solver.
Qed.
Lemma reject_unsupported_spec problem :
  reject_unsupported_capabilities problem = Ok tt ↔
  ∀ c, c ∈ dom (capability_counts (feature_usage problem)) → supports_capability c = true.
Proof.
  unfold reject_unsupported_capabilities, required_capabilities. case_bool_decide as Hf; split; try done.
  - intros _ c Hc. destruct (supports_capability c) eqn:Hs; [done|]. exfalso.
    apply (not_elem_of_nil c). rewrite <-Hf. apply list_elem_of_filter.
    split; [done|apply elem_of_all_capabilities].
  - intros H. destruct Hf. apply elem_of_nil_inv. intros c [[Hc Hs] _]%list_elem_of_filter.
    by rewrite H in Hs.
Qed.
Lemma option_requirements_admitted matrix summary options :
  CapabilityMatrix_generated = Ok matrix →
  Forall (λ r, admits matrix ORTOOLS_BACKEND_ID (rq_id r) = true) (option_requirements summary options) ↔
  su_lexicographic_strategy summary ≠ Multipass.
Proof.
  intros Hm%generated_matrix_claims. unfold generated_claims in Hm.
  apply andb_prop in Hm as [[_ Ho]%andb_prop Hn%negb_true_iff].
  cbn [forallb] in Ho. rewrite !andb_true_iff in Ho. destruct Ho as (H1 & H2 & H3 & H4 & H5 & H6 & H7 & _).
  unfold option_requirements. rewrite !Forall_app.
  destruct (su_lexicographic_strategy summary) as [w|].
  - split; [done|]. intros _. repeat split; repeat case_match; repeat constructor; assumption.
  - split; [|done]. intros [[Hc _]%Forall_cons _]. cbn in Hc. by rewrite Hn in Hc.
Qed.
Lemma ortools_compatibility_spec matrix summary options :
  CapabilityMatrix_generated = Ok matrix →
  ∃ report, ortools_compatibility matrix summary options = Ok report ∧
    (compatible report = true ↔
     (∀ c, c ∈ dom (capability_counts (su_manifest summary)) → supports_capability c = true) ∧
     su_lexicographic_strategy summary ≠ Multipass ∧
     ortools_profile (su_assumption_count summary) (su_objective_level_count summary) options).
Proof.
  intros Hm. destruct (ortools_descriptor_agrees matrix Hm) as (d & Hd & Hid & _ & _ & _ & Hv).
  unfold ortools_compatibility. rewrite Hd. cbn [map_err mbind Result_bind]. rewrite Hv, Hid. cbn [map_err].
  destruct (compatibility_for_Ok matrix ORTOOLS_BACKEND_ID summary options) as (required & cost & Hr & ->).
  cbn [mbind Result_bind].
  destruct (restrict_assumptions_Ok summary options
    (unsupported_features (report matrix ORTOOLS_BACKEND_ID required (Some cost)))) as (u1 & -> & H1).
  cbn [mbind Result_bind].
  destruct (restrict_resources_Ok options
    (u1, warnings (report matrix ORTOOLS_BACKEND_ID required (Some cost)))) as ([u2 w2] & -> & H2).
  cbn [mbind Result_bind]. cbn [fst] in H2. destruct (restrict_search_Ok options u2) as (u3 & -> & H3).
  cbn [mbind Result_bind]. eexists. split; [reflexivity|].
  assert (u3 = [] ↔
     (∀ c, c ∈ dom (capability_counts (su_manifest summary)) → supports_capability c = true) ∧
     su_lexicographic_strategy summary ≠ Multipass ∧
     ortools_profile (su_assumption_count summary) (su_objective_level_count summary) options) as Hu.
  { rewrite H3, H2, H1, report_unsupported, (requirements_admitted _ _ _ _ _ Hr),
      (option_requirements_admitted _ _ _ Hm).
    assert ((∀ c, c ∈ dom (capability_counts (su_manifest summary)) →
               admits matrix ORTOOLS_BACKEND_ID (capability_name c) = true) ↔
            (∀ c, c ∈ dom (capability_counts (su_manifest summary)) → supports_capability c = true)) as ->.
    { apply generated_matrix_claims in Hm. unfold generated_claims in Hm.
      apply andb_prop in Hm as [[Hc _]%andb_prop _]. rewrite forallb_forall in Hc.
      assert (∀ c, admits matrix ORTOOLS_BACKEND_ID (capability_name c) = supports_capability c) as Heq
        by (intros c; apply Bool.eqb_prop, Hc, list_elem_of_In, elem_of_all_capabilities).
      clear -Heq. by setoid_rewrite Heq. }
    clear. split; [intros [[[[? ?] ?] [? ?]] [? [? ?]]]; split; [done|split; [done|by constructor]]|intros (? & ? & []); tauto]. }
  clear Hm Hd Hv Hr. rewrite <-Hu. unfold compatible. rewrite negb_true_iff, bool_decide_eq_false.
  destruct (decide (u3 = [])) as [He|He]; [rewrite bool_decide_true by exact He|rewrite bool_decide_false by exact He];
    cbn [cr_level].
  - split; [done|]. intros _. rewrite report_level_unsupported. intros Hn. apply Hn.
    apply H3 in He as [He _]. apply H2 in He as [He _]. by apply H1 in He as [He _].
  - split; [done|]. intros ->. by destruct He.
Qed.

(** C29. The report of the OR-Tools backend on the summary of a problem is compatible exactly when
    the translator's guards on capabilities and objective accept the problem (every capability it
    uses is translated and its objective has an exact scalarization) and the solve options stay
    within the adapter's profile: no memory or solution limit, a seed and thread count the worker
    protocol can carry, and the single-worker profiles of deterministic and assumption runs. The
    checked-in support matrix, the requirements derived from a summary and the translator therefore
    agree on every capability. *)
Theorem ortools_report_exact blake3_hex serialize_problem serialize_view problem limits b s b' matrix options :
  CapabilityMatrix_generated = Ok matrix →
  summarize_with_budget blake3_hex serialize_problem serialize_view problem limits b = (Ok s, b') →
  validate blake3_hex problem limits = Ok tt ∧
  ∃ report, ortools_compatibility matrix (bps_summary s) options = Ok report ∧
    (compatible report = true ↔
     reject_unsupported_capabilities problem = Ok tt ∧
     (∃ weights, lexicographic_strategy (objectives problem) = ExactScalarization weights) ∧
     ortools_profile (len (assumptions problem)) (len (op_levels (objectives problem))) options).
Proof.
  intros Hm [Hv Hs]%summarize_with_budget_summarizes. split; [exact Hv|].
  destruct (ortools_compatibility_spec matrix (bps_summary s) options Hm) as (r & Hr & Hc). exists r.
  split; [exact Hr|]. rewrite Hc, reject_unsupported_spec. destruct Hs as [-> -> -> -> _ _ _].
  assert (lexicographic_strategy (objectives problem) ≠ Multipass ↔
          ∃ weights, lexicographic_strategy (objectives problem) = ExactScalarization weights) as ->; [|done].
  clear. destruct (lexicographic_strategy (objectives problem)) as [w|]; split; [by exists w|done|done|by intros []].
Qed.
