(* ===== verification/Router.v ===== *)
(** * Routing decisions

    Models [crates/eutheto-solver-router/src/decision.rs] and [profile.rs]: the profile of an effort
    mode, the backends considered in registry order, the choice and its fallbacks, and what is done
    with independent components.  The clock does not matter to an uncontrolled summary; its worlds
    are passed through. *)
From stdpp Require Import base tactics list gmap strings.
From Stdlib Require Import ZArith Lia Ascii.
From S2P Require Import Prelude Ordering Control Budget Ids DomainIr Model Analysis Validation Canonical.
From S2P Require Import SolverApi Support Preflight.
Open Scope string_scope.
Open Scope list_scope.
Open Scope Z_scope.

(** ** Profiles *)
Definition ROUTING_PROFILE_VERSION : Z := 1.
Record RoutingProfile := {
  rp_version : Z; rp_mode : SolveMode; rp_backend_cap_milliseconds : Z; rp_allow_fallback : bool
}.
Definition QUICK_V1 : RoutingProfile := {|
  rp_version := ROUTING_PROFILE_VERSION; rp_mode := ModeQuick; rp_backend_cap_milliseconds := 1000;
  rp_allow_fallback := true |}.
Definition BALANCED_V1 : RoutingProfile := {|
  rp_version := ROUTING_PROFILE_VERSION; rp_mode := ModeBalanced; rp_backend_cap_milliseconds := 3000;
  rp_allow_fallback := true |}.
Definition DEEP_V1 : RoutingProfile := {|
  rp_version := ROUTING_PROFILE_VERSION; rp_mode := ModeDeep; rp_backend_cap_milliseconds := 30000;
  rp_allow_fallback := true |}.
Definition for_mode (mode : SolveMode) : option RoutingProfile :=
  match mode with
  | ModeQuick => Some QUICK_V1
  | ModeBalanced => Some BALANCED_V1
  | ModeDeep => Some DEEP_V1
  | ModeCustom => None
  end.
Definition backend_cap (profile : RoutingProfile) : Z :=
  match DurationMillis_new (rp_backend_cap_milliseconds profile) with
  | Ok value => value
  | Err _ => DURATION_MILLIS_MAX_V1
  end.

(** ** Diagnostics and dispositions *)
Definition ROUTER_POLICY_VERSION : Z := 1.
Record RouterPolicy := { po_version : Z; po_max_diagnostics : nat }.
Definition RouterPolicy_default : RouterPolicy := {| po_version := ROUTER_POLICY_VERSION; po_max_diagnostics := 32 |}.
Record RouterDiagnostic := { rd_code : string; rd_message : string }.
Definition fixed_diagnostic (code message : string) : RouterDiagnostic := {| rd_code := code; rd_message := message |}.
(** [code.len() <= 96] and graphic bytes only, or a fixed code. *)
Definition safe_code (code : string) : string :=
  if (str_len code <=? 96) && forallb is_ascii_graphic (String.list_ascii_of_string code) then code
  else "solver.backend_failure".
Definition diagnostic_backend_code (code : string) : RouterDiagnostic :=
  {| rd_code := safe_code code; rd_message := "backend failed before producing a candidate" |}.
Inductive CompatibilityAssessment :=
| AssessedCompatible | AssessedMatrixIncompatible | AssessedBackendIncompatible | AssessedError.
#[global] Instance CompatibilityAssessment_eq_dec : EqDecision CompatibilityAssessment.
Proof. solve_decision. Defined.
Record ConsideredBackend := {
  cb_backend_id : string; cb_matrix_report : option CompatibilityReport;
  cb_backend_report : option CompatibilityReport; cb_assessment : CompatibilityAssessment
}.
Inductive OverrideHandling :=
| OverrideAutomatic
| CompatibleOverride (backend : string)
| UnknownOverride (backend : string)
| IncompatibleOverride (backend : string).
Inductive SplitDisposition :=
| SplitInvalidModel
| SplitSingleComponent
| SplitMissingAuthorization
| SplitComponentHashMismatch (authorized_hash actual_hash : string)
| SplitMissingDomainMergeContract
| SplitProjectionNotIndependent
| SplitAuthorizedWholeModelOnly (authorization : SplitAuthorization) (component_ids : list string).
Inductive DecisionStatus := Ready | DecisionInvalidModel | UnsupportedOverride | NoCompatibleBackend.
#[global] Instance DecisionStatus_eq_dec : EqDecision DecisionStatus.
Proof. solve_decision. Defined.
Record RoutingDecision := {
  de_policy_version : Z;
  de_profile : option RoutingProfile;
  de_profile_contract_version : Z;
  de_requested_backend : BackendSelection;
  de_status : DecisionStatus;
  de_summary : option PlanningProblemSummary;
  de_component_analysis : ComponentAnalysis;
  de_split : SplitDisposition;
  de_considered_backends : list ConsideredBackend;
  de_chosen_backend : option string;
  de_override_handling : OverrideHandling;
  de_fallback_order : list string;
  de_diagnostics : list RouterDiagnostic
}.
Record BackendSelectionResult := {
  bsr_status : DecisionStatus; bsr_chosen_backend : option string; bsr_override_handling : OverrideHandling;
  bsr_fallback_order : list string; bsr_diagnostics : list RouterDiagnostic
}.
Definition bounded_diagnostics (policy : RouterPolicy) (diagnostics : list RouterDiagnostic) :
    list RouterDiagnostic := take (po_max_diagnostics policy) diagnostics.

(** ** Considering and selecting backends *)
Definition assess (matrix backend : option CompatibilityReport) : CompatibilityAssessment :=
  match matrix, backend with
  | Some m, Some b => if compatible m && compatible b then AssessedCompatible
                      else if negb (compatible m) then AssessedMatrixIncompatible
                      else AssessedBackendIncompatible
  | Some m, None => if negb (compatible m) then AssessedMatrixIncompatible else AssessedError
  | None, _ => AssessedError
  end.
Definition result_ok {E A} (r : Result E A) : option A := match r with Ok a => Some a | Err _ => None end.
Definition consider (registry : SolverRegistry) (summary : PlanningProblemSummary) (options : SolveOptions)
    (descriptor : SolverDescriptor) : ConsideredBackend :=
  let matrix_report := result_ok (compatibility_for (rg_matrix registry) (sd_id descriptor) summary options) in
  let backend_report := (λ backend, sb_compatibility backend summary options) <$>
                          registry_get registry (sd_id descriptor) in
  {| cb_backend_id := sd_id descriptor; cb_matrix_report := matrix_report; cb_backend_report := backend_report;
     cb_assessment := assess matrix_report backend_report |}.
Definition considered_backends (registry : SolverRegistry) (summary : PlanningProblemSummary)
    (options : SolveOptions) : list ConsideredBackend :=
  consider registry summary options <$> registry_descriptors registry.
Definition automatic_selection (compatible_ids : list string) : BackendSelectionResult :=
  match compatible_ids with
  | chosen :: rest => {| bsr_status := Ready; bsr_chosen_backend := Some chosen;
                         bsr_override_handling := OverrideAutomatic; bsr_fallback_order := rest;
                         bsr_diagnostics := [] |}
  | [] => {| bsr_status := NoCompatibleBackend; bsr_chosen_backend := None;
             bsr_override_handling := OverrideAutomatic; bsr_fallback_order := [];
             bsr_diagnostics := [fixed_diagnostic "solver.no_compatible_backend"
                                   "no supplied registry backend is compatible"] |}
  end.
Definition specific_selection (matching : option ConsideredBackend) (requested : string) : BackendSelectionResult :=
  match matching with
  | Some entry =>
      if bool_decide (cb_assessment entry = AssessedCompatible)
      then {| bsr_status := Ready; bsr_chosen_backend := Some requested;
              bsr_override_handling := CompatibleOverride requested; bsr_fallback_order := [];
              bsr_diagnostics := [] |}
      else {| bsr_status := UnsupportedOverride; bsr_chosen_backend := None;
              bsr_override_handling := IncompatibleOverride requested; bsr_fallback_order := [];
              bsr_diagnostics := [fixed_diagnostic "solver.incompatible_override"
                                    "the requested backend is incompatible with this model or options"] |}
  | None => {| bsr_status := UnsupportedOverride; bsr_chosen_backend := None;
               bsr_override_handling := UnknownOverride requested; bsr_fallback_order := [];
               bsr_diagnostics := [fixed_diagnostic "solver.unknown_override"
                                     "the requested backend is not present in the supplied registry"] |}
  end.
Definition compatible_ids (considered : list ConsideredBackend) : list string :=
  cb_backend_id <$> filter (λ entry, cb_assessment entry = AssessedCompatible) considered.
Definition select_backend (considered : list ConsideredBackend) (requested_backend : BackendSelection) :
    BackendSelectionResult :=
  match requested_backend with
  | SelectAuto => automatic_selection (compatible_ids considered)
  | SelectSpecific requested =>
      specific_selection (snd <$> list_find (λ entry, cb_backend_id entry = requested) considered) requested
  end.
Definition override_handling_without_summary (selection : BackendSelection) : OverrideHandling :=
  match selection with SelectAuto => OverrideAutomatic | SelectSpecific id => UnknownOverride id end.
Definition split_disposition (problem : PlanningProblem) (analysis : ComponentAnalysis) : SplitDisposition :=
  if len (components analysis) <=? 1 then SplitSingleComponent
  else match split_authorization problem with
       | None => SplitMissingAuthorization
       | Some authorization =>
           if negb (bool_decide (sa_component_hash authorization = component_hash analysis))
           then SplitComponentHashMismatch (sa_component_hash authorization) (component_hash analysis)
           else if bool_decide (sa_domain_merge_contract authorization = "") then SplitMissingDomainMergeContract
           else if negb (sa_projection_independent authorization) then SplitProjectionNotIndependent
           else SplitAuthorizedWholeModelOnly authorization (mc_id <$> components analysis)
       end.

(** ** The decision *)
Section decision.
Context (blake3_hex : list Z → string).
Context (serialize_problem : PlanningProblem → Bytes).
Context (serialize_view : CanonicalHashProblem → Bytes).
Definition invalid_decision (policy : RouterPolicy) (profile : option RoutingProfile) (options : SolveOptions)
    (component_analysis : ComponentAnalysis) (split : SplitDisposition) : RoutingDecision := {|
  de_policy_version := po_version policy; de_profile := profile;
  de_profile_contract_version := ROUTING_PROFILE_VERSION; de_requested_backend := so_backend options;
  de_status := DecisionInvalidModel; de_summary := None; de_component_analysis := component_analysis;
  de_split := split; de_considered_backends := []; de_chosen_backend := None;
  de_override_handling := override_handling_without_summary (so_backend options); de_fallback_order := [];
  de_diagnostics := bounded_diagnostics policy
    [fixed_diagnostic "solver.invalid_model" "planning IR validation failed before backend selection"] |}.
(** The preparation budget [summarize] allocates for itself. *)
Record UncontrolledRun := { ur_token : nat; ur_id : nat; ur_env : nat → World }.
Definition RouterPolicy_decide (run : UncontrolledRun) (policy : RouterPolicy) (registry : SolverRegistry)
    (problem : PlanningProblem) (options : SolveOptions) : RoutingDecision :=
  let profile := for_mode (so_mode options) in
  let limits := tightened_by limits_default (so_resource_limits options) in
  match validate blake3_hex problem limits with
  | Err _ => invalid_decision policy profile options
               {| components := []; edge_count := 0; component_hash := "" |} SplitInvalidModel
  | Ok _ =>
      let component_analysis := analyze_components blake3_hex problem in
      let split := split_disposition problem component_analysis in
      match (summarize blake3_hex serialize_problem serialize_view problem limits
               (budget_uncontrolled (ur_token run) limits (ur_id run) (ur_env run))).1 with
      | Err _ => invalid_decision policy profile options component_analysis split
      | Ok summary =>
          let considered := considered_backends registry summary options in
          let selection := select_backend considered (so_backend options) in
          {| de_policy_version := po_version policy; de_profile := profile;
             de_profile_contract_version := ROUTING_PROFILE_VERSION; de_requested_backend := so_backend options;
             de_status := bsr_status selection; de_summary := Some summary;
             de_component_analysis := component_analysis; de_split := split;
             de_considered_backends := considered; de_chosen_backend := bsr_chosen_backend selection;
             de_override_handling := bsr_override_handling selection;
             de_fallback_order := bsr_fallback_order selection;
             de_diagnostics := bounded_diagnostics policy (bsr_diagnostics selection) |}
      end
  end.
End decision.
