(* ===== verification/Execution.v ===== *)
(** * Routed execution

    Models [crates/eutheto-solver-router/src/execution.rs]: the attempts of one routed solve, each
    with its preflight, its backend run behind the bounded sink, the review of what it retained and
    the decision to fall back.  The environment decides what the source does not: the worlds its
    successive clock and token readings observe, what a backend submits and how it completes, when
    the notification of a first candidate is received, and what the reviewer answers.  A reviewer is
    a function of the calls made to it so far, which is what its mutable state can depend on.

    A computation of an attempt is one of the state-and-error monad whose early return is the
    terminal the source finishes with ([AttemptControl::Finish]). *)
From stdpp Require Import base tactics list gmap strings.
From Stdlib Require Import ZArith Lia Ascii.
From S2P Require Import Prelude Ordering Control Budget Ids DomainIr Model Analysis Validation Canonical.
From S2P Require Import SolverApi Support Preflight Router.
Open Scope string_scope.
Open Scope list_scope.
Open Scope Z_scope.

(** ** Records of an execution *)
Inductive CandidateReview :=
| AwaitingIndependentVerification
| Verified (objective_matches : bool)
| VerificationFailed (diagnostic_code : string)
| Interrupted (reason : OperationInterruption)
| ResourceLimitExceeded.
(** A code is a fixed text, a backend's code, or the text of an output error. *)
Inductive FailureCode := CodeText (code : string) | CodeOfOutputError (error : OutputError).
Inductive AttemptTermination :=
| AtPreflightRejected (code : string)
| AtBackendError (code : FailureCode)
| AtOutcomeContractFailure (code : string)
| AtBackendOutcome (reason : BackendTerminationReason)
| AtCandidateAwaitingVerification
| AtCandidateVerified
| AtVerificationQuarantined (diagnostic_code : string)
| AtReviewCancelled
| AtReviewDeadlineExceeded
| AtReviewResourceLimitExceeded
| AtParentCancelled
| AtParentDeadlineExceeded.
Record AttemptRecord := {
  ar_backend_id : string;
  ar_backend_version : string;
  ar_adapter_version : string;
  ar_solve_fingerprint : string;
  ar_invocation_index : option Z;
  ar_remaining_at_dispatch_milliseconds : Z;
  ar_backend_limit_milliseconds : Z;
  ar_preflight_compatibility : option CompatibilityReport;
  ar_candidate_count : Z;
  ar_termination : AttemptTermination;
  ar_backend_failure_code : option FailureCode;
  ar_outcome : option BackendSolveOutcome;
  ar_fallback_eligible : bool;
  ar_fallback_taken : bool
}.
Inductive ExecutionTerminalReason :=
| TrInvalidModel | TrUnsupportedOverride | TrNoCompatibleBackend | TrPreflightRejected | TrBackendTerminated
| TrBackendFailure | TrCandidateAwaitingVerification | TrCandidateVerified | TrVerificationQuarantined
| TrSharedOutputLimitExhausted | TrReviewResourceLimitExceeded | TrParentDeadlineExceeded | TrCancelled.
#[global] Instance ExecutionTerminalReason_eq_dec : EqDecision ExecutionTerminalReason.
Proof. solve_decision. Defined.
#[global] Instance SolveStatus_eq_dec : EqDecision SolveStatus.
Proof. solve_decision. Defined.
#[global] Instance BackendStopReason_eq_dec : EqDecision BackendStopReason.
Proof. solve_decision. Defined.
(** Durations in nanoseconds. *)
Record RouterObservations := {
  ro_started_after : Z; ro_finished_after : Z; ro_backend_elapsed : Z;
  ro_first_candidate_after : option Z; ro_first_verified_feasible_after : option Z
}.
Record RouterExecutionRecord := {
  er_decision : RoutingDecision;
  er_solve_options : SolveOptions;
  er_attempts : list AttemptRecord;
  er_invocation_count : Z;
  er_terminal_status : SolveStatus;
  er_terminal_reason : ExecutionTerminalReason;
  er_selected_candidate : option BackendCandidate;
  er_first_verified_feasible_milliseconds : option Z;
  er_diagnostics : list RouterDiagnostic
}.
Record RouterExecution := {
  re_record : RouterExecutionRecord;
  re_observations : option RouterObservations;
  re_last_trusted_elapsed : option Z
}.

(** ** Observations of the parent clock *)
Record ObservationState := {
  os_observations : option RouterObservations; os_last_elapsed : option Z; os_review_elapsed : option Z
}.
Definition representable_elapsed (elapsed : Z) : bool :=
  match checked_u64 (as_millis elapsed) with
  | Some milliseconds => is_ok (DurationMillis_new milliseconds)
  | None => false
  end.
Definition parent_elapsed (parent : SolveBudgetState) (w : World) : option Z :=
  checked_elapsed w (parent_phase_view parent).
(** [Option::filter] *)
Definition keep {A} (p : A → bool) (o : option A) : option A := o ≫= λ a, if p a then Some a else None.
Definition ObservationState_new (parent : SolveBudgetState) (w : World) : ObservationState :=
  let start := keep representable_elapsed (parent_elapsed parent w) in
  {| os_observations := (λ started_after,
       {| ro_started_after := started_after; ro_finished_after := started_after; ro_backend_elapsed := 0;
          ro_first_candidate_after := None; ro_first_verified_feasible_after := None |}) <$> start;
     os_last_elapsed := start; os_review_elapsed := Some 0 |}.
Definition not_before (previous : option Z) (time : Z) : bool :=
  match previous with Some p => p <=? time | None => true end.
(** The common end of [sample] and [retain_candidate_at]: trust the reading or taint the timings. *)
Definition trust (elapsed : option Z) (o : ObservationState) : option Z * ObservationState :=
  let elapsed := keep (not_before (os_last_elapsed o)) (keep representable_elapsed elapsed) in
  (elapsed,
   match elapsed with
   | Some time => {| os_observations := os_observations o; os_last_elapsed := Some time;
                     os_review_elapsed := os_review_elapsed o |}
   | None => {| os_observations := None; os_last_elapsed := os_last_elapsed o;
                os_review_elapsed := os_review_elapsed o |}
   end).
Definition sample (parent : SolveBudgetState) (w : World) (o : ObservationState) : option Z * ObservationState :=
  trust (parent_elapsed parent w) o.
Definition with_observations (f : RouterObservations → RouterObservations) (o : ObservationState) : ObservationState :=
  {| os_observations := f <$> os_observations o; os_last_elapsed := os_last_elapsed o;
     os_review_elapsed := os_review_elapsed o |}.
Definition since_start (elapsed : option Z) (r : RouterObservations) : option Z :=
  elapsed ≫= λ time, duration_checked_sub time (ro_started_after r).
Definition note_first_candidate (elapsed : option Z) (r : RouterObservations) : RouterObservations :=
  match ro_first_candidate_after r with
  | Some _ => r
  | None => {| ro_started_after := ro_started_after r; ro_finished_after := ro_finished_after r;
               ro_backend_elapsed := ro_backend_elapsed r; ro_first_candidate_after := since_start elapsed r;
               ro_first_verified_feasible_after := ro_first_verified_feasible_after r |}
  end.
(** [w] is read when the admission was not timed. *)
Definition retain_candidate_at (parent : SolveBudgetState) (w : World) (captured_elapsed : option Z)
    (o : ObservationState) : ObservationState :=
  let '(elapsed, o) := trust (match captured_elapsed with
                              | Some time => Some time
                              | None => parent_elapsed parent w
                              end) o in
  with_observations (note_first_candidate elapsed) o.
Definition with_first_verified (elapsed : option Z) (r : RouterObservations) : RouterObservations :=
  match ro_first_verified_feasible_after r with
  | Some _ => r
  | None => {| ro_started_after := ro_started_after r; ro_finished_after := ro_finished_after r;
               ro_backend_elapsed := ro_backend_elapsed r;
               ro_first_candidate_after := ro_first_candidate_after r;
               ro_first_verified_feasible_after := elapsed |}
  end.
Definition mark_verified (parent : SolveBudgetState) (w : World) (o : ObservationState) : ObservationState :=
  let '(elapsed, o) := sample parent w o in
  with_observations (λ r, with_first_verified (since_start elapsed r) r) o.
Definition span (start end_ : option Z) : option Z :=
  start ≫= λ start, end_ ≫= λ end_, duration_checked_sub end_ start.
Definition exclude_review (parent : SolveBudgetState) (w : World) (start : option Z) (o : ObservationState) :
    ObservationState :=
  let '(end_, o) := sample parent w o in
  {| os_observations := os_observations o; os_last_elapsed := os_last_elapsed o;
     os_review_elapsed := os_review_elapsed o ≫= λ total, span start end_ ≫= λ elapsed,
                            duration_checked_add total elapsed |}.
Definition finish_backend (parent : SolveBudgetState) (w : World) (start : option Z) (o : ObservationState) :
    ObservationState :=
  let '(end_, o) := sample parent w o in
  let elapsed := span start end_ ≫= λ elapsed, os_review_elapsed o ≫= λ review, duration_checked_sub elapsed review in
  {| os_observations := os_observations o ≫= λ r, elapsed ≫= λ elapsed,
       (λ total, {| ro_started_after := ro_started_after r; ro_finished_after := ro_finished_after r;
                    ro_backend_elapsed := total; ro_first_candidate_after := ro_first_candidate_after r;
                    ro_first_verified_feasible_after := ro_first_verified_feasible_after r |}) <$>
       duration_checked_add (ro_backend_elapsed r) elapsed;
     os_last_elapsed := os_last_elapsed o; os_review_elapsed := Some 0 |}.

(** ** Terminals *)
Record Terminal := {
  tl_status : SolveStatus; tl_reason : ExecutionTerminalReason; tl_selected_candidate : option BackendCandidate
}.
Definition Terminal_new (status : SolveStatus) (reason : ExecutionTerminalReason) : Terminal :=
  {| tl_status := status; tl_reason := reason; tl_selected_candidate := None |}.
Definition initial_terminal (status : DecisionStatus) : option Terminal :=
  match status with
  | DecisionInvalidModel => Some (Terminal_new StatusInvalidModel TrInvalidModel)
  | UnsupportedOverride => Some (Terminal_new StatusBackendUnavailable TrUnsupportedOverride)
  | NoCompatibleBackend => Some (Terminal_new StatusBackendUnavailable TrNoCompatibleBackend)
  | Ready => None
  end.
Definition backend_order (decision : RoutingDecision) : list string :=
  option_list (de_chosen_backend decision) ++ de_fallback_order decision.
Definition stopped_after_backend (w : World) (budget : SolveDispatchBudget) : option (AttemptTermination * Terminal) :=
  match stop_reason w budget with
  | Some StopCancelled => Some (AtParentCancelled, Terminal_new StatusCancelled TrCancelled)
  | Some StopDeadlineExceeded =>
      Some (AtParentDeadlineExceeded, Terminal_new StatusNoSolutionWithinLimit TrParentDeadlineExceeded)
  | Some StopBackendLimitExceeded | None => None
  end.
Definition pre_dispatch_terminal (w : World) (budget : SolveDispatchBudget) :
    option (Terminal * list RouterDiagnostic) :=
  match stop_reason w budget with
  | Some StopCancelled => Some (Terminal_new StatusCancelled TrCancelled, [])
  | Some StopDeadlineExceeded => Some (Terminal_new StatusNoSolutionWithinLimit TrParentDeadlineExceeded, [])
  | Some StopBackendLimitExceeded =>
      Some (Terminal_new StatusNoSolutionWithinLimit TrPreflightRejected,
            [{| rd_code := "solver.dispatch_budget_exhausted";
                rd_message := "No backend execution time remains within the original operation budget." |}])
  | None => None
  end.
Definition preflight_report_from_error (error : PreflightError) : option CompatibilityReport :=
  match error with PfIncompatible report => Some report | _ => None end.
Definition preflight_terminal (error : PreflightError) : SolveStatus * ExecutionTerminalReason :=
  match error with
  | PfCancelled => (StatusCancelled, TrCancelled)
  | PfDeadlineExceeded => (StatusNoSolutionWithinLimit, TrParentDeadlineExceeded)
  | PfInvalidProblem _ | PfSummaryMismatch | PfInvalidSolveOptions => (StatusInvalidModel, TrPreflightRejected)
  | PfInvalidDescriptor _ | PfRequestBackendMismatch | PfBackendVersionMismatch | PfUnresolvedBackendSelection
  | PfOptionBackendMismatch | PfAdapterVersionMismatch | PfMatrix _ | PfInternalFeature _ | PfIncompatible _ =>
      (StatusBackendUnavailable, TrPreflightRejected)
  end.
Definition preflight_code (error : PreflightError) : string :=
  match error with
  | PfInvalidDescriptor _ => "solver.preflight.invalid_descriptor"
  | PfRequestBackendMismatch => "solver.preflight.request_backend_mismatch"
  | PfBackendVersionMismatch => "solver.preflight.backend_version_mismatch"
  | PfUnresolvedBackendSelection => "solver.preflight.unresolved_selection"
  | PfOptionBackendMismatch => "solver.preflight.option_backend_mismatch"
  | PfAdapterVersionMismatch => "solver.preflight.adapter_version_mismatch"
  | PfCancelled => "solver.preflight.cancelled"
  | PfDeadlineExceeded => "solver.preflight.deadline_exceeded"
  | PfMatrix _ => "solver.preflight.matrix"
  | PfInvalidProblem _ => "solver.preflight.invalid_problem"
  | PfSummaryMismatch => "solver.preflight.summary_mismatch"
  | PfInvalidSolveOptions => "solver.preflight.invalid_options"
  | PfInternalFeature _ => "solver.preflight.internal_feature"
  | PfIncompatible _ => "solver.preflight.incompatible"
  end.
Definition outcome_error_code (error : OutcomeError) : string :=
  match error with
  | OcInvalidLimits => "solver.outcome.invalid_limits"
  | OcBackendMismatch => "solver.outcome.backend_mismatch"
  | OcModelHashMismatch => "solver.outcome.model_hash_mismatch"
  | OcSolveFingerprintMismatch => "solver.outcome.solve_fingerprint_mismatch"
  | OcBudgetEvidenceMismatch => "solver.outcome.budget_mismatch"
  | OcBackendLimitExceeded => "solver.outcome.backend_limit_exceeded"
  | OcInvalidFirstIncumbentTime => "solver.outcome.first_incumbent_time"
  | OcOutputLimitExceeded => "solver.outcome.output_limit"
  | OcCandidateAssignmentLimitExceeded => "solver.outcome.candidate_assignment_limit"
  | OcInvalidObjectiveDimension => "solver.outcome.objective_dimension"
  | OcBestBoundOutsideDeclaredRange => "solver.outcome.best_bound_range"
  | OcBestBoundContradictsObjective => "solver.outcome.best_bound_contradiction"
  | OcNonMonotonicCandidateTime => "solver.outcome.candidate_time_order"
  | OcCandidateSequenceMismatch => "solver.outcome.candidate_sequence"
  | OcCandidateAfterTermination => "solver.outcome.candidate_after_termination"
  | OcMissingCandidate => "solver.outcome.missing_candidate"
  | OcCandidateContradictsTermination => "solver.outcome.candidate_contradiction"
  | OcUnrequestedCancellation => "solver.outcome.unrequested_cancellation"
  | OcPrematureTimeLimit => "solver.outcome.premature_time_limit"
  | OcFirstIncumbentMismatch => "solver.outcome.first_incumbent_mismatch"
  | OcExecutionBackendVersionMismatch => "solver.outcome.execution_backend_version"
  | OcExecutionAdapterVersionMismatch => "solver.outcome.execution_adapter_version"
  | OcExecutionOptionsMismatch => "solver.outcome.execution_options"
  | OcExecutionModelCountMismatch => "solver.outcome.execution_model_counts"
  | OcInvalidExecutionEvidence => "solver.outcome.execution_evidence"
  | OcInvalidAssumptionCoreEvidence => "solver.outcome.assumption_core_evidence"
  end.
Definition safe_backend_code (error : BackendError) : string := safe_code (be_code error).
Definition terminal_from_outcome (outcome : BackendSolveOutcome) :
    AttemptTermination * SolveStatus * ExecutionTerminalReason * bool :=
  let status := default StatusBackendFailed (conclusive_status_without_candidate outcome) in
  let fallback := bool_decide (oc_termination outcome ∈ [TerminationUnavailable; TerminationFailed; TimeLimit]) in
  let reason := if bool_decide (oc_termination outcome ∈ [TerminationUnavailable; TerminationFailed])
                then TrBackendFailure
                else if bool_decide (oc_termination outcome = TerminationCancelled) then TrCancelled
                else TrBackendTerminated in
  (AtBackendOutcome (oc_termination outcome), status, reason, fallback).
Definition selected_optimal_candidate (selected : BackendCandidate) (candidates : list BackendCandidate)
    (outcome : option BackendSolveOutcome) : bool :=
  match outcome with
  | None => false
  | Some outcome =>
      if negb (bool_decide (oc_termination outcome = OptimalityClaimed))
         || match last candidates with
            | Some final => negb (bc_sequence final =? bc_sequence selected)
            | None => true
            end
      then false
      else match bc_objective selected, te_objective (oc_evidence outcome) with
           | Some selected_objective, Some final_objective =>
               bool_decide (objective_values selected_objective = objective_values final_objective)
               && bool_decide (te_best_bound_values (oc_evidence outcome) = Some (objective_values final_objective))
           | _, _ => false
           end
  end.

(** ** Dispositions of reviewed candidates *)
Record CandidateDisposition := {
  cd_termination : AttemptTermination; cd_status : SolveStatus; cd_reason : ExecutionTerminalReason;
  cd_selected_candidate : option BackendCandidate; cd_diagnostic : option RouterDiagnostic
}.
Definition interrupted_review (reason : OperationInterruption) : CandidateDisposition :=
  let '(termination, status, reason) :=
    match reason with
    | Cancelled => (AtReviewCancelled, StatusCancelled, TrCancelled)
    | DeadlineExceeded => (AtReviewDeadlineExceeded, StatusNoSolutionWithinLimit, TrParentDeadlineExceeded)
    end in
  {| cd_termination := termination; cd_status := status; cd_reason := reason; cd_selected_candidate := None;
     cd_diagnostic := None |}.
Definition quarantined (diagnostic_code : string) : CandidateDisposition := {|
  cd_termination := AtVerificationQuarantined diagnostic_code; cd_status := StatusBackendFailed;
  cd_reason := TrVerificationQuarantined; cd_selected_candidate := None;
  cd_diagnostic := Some (diagnostic_backend_code diagnostic_code) |}.
Definition review_exhausted : CandidateDisposition := {|
  cd_termination := AtReviewResourceLimitExceeded; cd_status := StatusNoSolutionWithinLimit;
  cd_reason := TrReviewResourceLimitExceeded; cd_selected_candidate := None;
  cd_diagnostic := Some {| rd_code := "verification.resource_limit";
    rd_message := "Independent verification could not complete within its resource limit." |} |}.
Definition verified (selected : BackendCandidate) (optimal : bool) : CandidateDisposition := {|
  cd_termination := AtCandidateVerified; cd_status := if optimal then StatusOptimal else StatusFeasible;
  cd_reason := TrCandidateVerified; cd_selected_candidate := Some selected; cd_diagnostic := None |}.
Definition awaiting (selected : option BackendCandidate) : CandidateDisposition := {|
  cd_termination := AtCandidateAwaitingVerification; cd_status := StatusNoSolutionWithinLimit;
  cd_reason := TrCandidateAwaitingVerification; cd_selected_candidate := selected; cd_diagnostic := None |}.
Definition contract_failure (termination : AttemptTermination) : CandidateDisposition := {|
  cd_termination := termination; cd_status := StatusBackendFailed; cd_reason := TrBackendFailure;
  cd_selected_candidate := None; cd_diagnostic := None |}.
Record EarlyCandidateReview := { ec_candidate : BackendCandidate; ec_review : CandidateReview }.
Definition is_verified (review : CandidateReview) : bool := match review with Verified _ => true | _ => false end.
Definition terminal_disposition (terminal : BackendCandidate) (candidates : list BackendCandidate)
    (review : CandidateReview) (early_review : option EarlyCandidateReview) (outcome : option BackendSolveOutcome) :
    CandidateDisposition :=
  match review with
  | VerificationFailed diagnostic_code => quarantined diagnostic_code
  | Interrupted reason => interrupted_review reason
  | ResourceLimitExceeded => review_exhausted
  | Verified objective_matches =>
      verified terminal (objective_matches && selected_optimal_candidate terminal candidates outcome)
  | AwaitingIndependentVerification =>
      match early_review with
      | Some early => if is_verified (ec_review early) then verified (ec_candidate early) false else awaiting None
      | None => awaiting None
      end
  end.

(** ** Shared output limits *)
Record RemainingOutput := {
  rm_candidates : Z; rm_candidate_assignments : Z; rm_progress_events : Z; rm_diagnostic_lines : Z
}.
Definition RemainingOutput_new (limits : SolverApiLimits) : RemainingOutput := {|
  rm_candidates := max_candidates limits; rm_candidate_assignments := max_candidate_assignments limits;
  rm_progress_events := max_progress_events limits; rm_diagnostic_lines := max_diagnostic_lines limits |}.
Definition exhausted (remaining : RemainingOutput) : bool :=
  (rm_candidates remaining =? 0) || (rm_candidate_assignments remaining =? 0)
  || (rm_progress_events remaining =? 0) || (rm_diagnostic_lines remaining =? 0).
Definition remaining_limits (remaining : RemainingOutput) (configured : SolverApiLimits) : SolverApiLimits := {|
  max_candidates := rm_candidates remaining; max_candidate_assignments := rm_candidate_assignments remaining;
  max_progress_events := rm_progress_events remaining; max_diagnostic_lines := rm_diagnostic_lines remaining;
  max_evidence_refs_per_candidate := max_evidence_refs_per_candidate configured |}.
(** [u32::try_from(..).unwrap_or(u32::MAX)] *)
Definition candidate_count (candidates : list BackendCandidate) : Z :=
  default u32_max (checked_u32 (len candidates)).
Inductive BackendCompletion := Returned (result : Result BackendError BackendSolveOutcome) | TimedOut.
Record BackendRun := {
  ru_completion : BackendCompletion;
  ru_stop_reason : option BackendStopReason;
  ru_candidates : list BackendCandidate;
  ru_candidate_assignments_used : Z;
  ru_progress_used : Z;
  ru_diagnostic_used : Z;
  ru_output_error : option OutputError;
  ru_early_review : option EarlyCandidateReview
}.
Definition consume (run : BackendRun) (remaining : RemainingOutput) : RemainingOutput := {|
  rm_candidates := u64_saturating_sub (rm_candidates remaining) (candidate_count (ru_candidates run));
  rm_candidate_assignments := u64_saturating_sub (rm_candidate_assignments remaining) (ru_candidate_assignments_used run);
  rm_progress_events := u64_saturating_sub (rm_progress_events remaining) (ru_progress_used run);
  rm_diagnostic_lines := u64_saturating_sub (rm_diagnostic_lines remaining) (ru_diagnostic_used run) |}.

(** ** Attempts *)
Record AttemptBase := {
  ab_backend_id : string; ab_backend_version : string; ab_adapter_version : string; ab_solve_fingerprint : string;
  ab_invocation_index : option Z; ab_remaining_at_dispatch_milliseconds : Z; ab_backend_limit_milliseconds : Z;
  ab_preflight_compatibility : option CompatibilityReport
}.
Definition AttemptBase_new (backend_id : string) (request : SolveRequest) (invocation_index : Z)
    (preflight_report : CompatibilityReport) : AttemptBase := {|
  ab_backend_id := backend_id; ab_backend_version := sr_backend_version request;
  ab_adapter_version := sr_adapter_version request; ab_solve_fingerprint := sr_solve_fingerprint request;
  ab_invocation_index := Some invocation_index;
  ab_remaining_at_dispatch_milliseconds := remaining_at_dispatch (sr_dispatch_budget request);
  ab_backend_limit_milliseconds := backend_limit (sr_dispatch_budget request);
  ab_preflight_compatibility := Some preflight_report |}.
Record AttemptConclusion := {
  ac_candidate_count : Z; ac_termination : AttemptTermination; ac_backend_failure_code : option FailureCode;
  ac_outcome : option BackendSolveOutcome; ac_fallback_eligible : bool; ac_fallback_taken : bool
}.
Definition attempt_finish (attempt : AttemptBase) (conclusion : AttemptConclusion) : AttemptRecord := {|
  ar_backend_id := ab_backend_id attempt; ar_backend_version := ab_backend_version attempt;
  ar_adapter_version := ab_adapter_version attempt; ar_solve_fingerprint := ab_solve_fingerprint attempt;
  ar_invocation_index := ab_invocation_index attempt;
  ar_remaining_at_dispatch_milliseconds := ab_remaining_at_dispatch_milliseconds attempt;
  ar_backend_limit_milliseconds := ab_backend_limit_milliseconds attempt;
  ar_preflight_compatibility := ab_preflight_compatibility attempt;
  ar_candidate_count := ac_candidate_count conclusion; ar_termination := ac_termination conclusion;
  ar_backend_failure_code := ac_backend_failure_code conclusion; ar_outcome := ac_outcome conclusion;
  ar_fallback_eligible := ac_fallback_eligible conclusion; ar_fallback_taken := ac_fallback_taken conclusion |}.
Definition preflight_attempt (backend_id : string) (request : SolveRequest) (error : PreflightError) :
    AttemptRecord := {|
  ar_backend_id := backend_id; ar_backend_version := sr_backend_version request;
  ar_adapter_version := sr_adapter_version request; ar_solve_fingerprint := sr_solve_fingerprint request;
  ar_invocation_index := None;
  ar_remaining_at_dispatch_milliseconds := remaining_at_dispatch (sr_dispatch_budget request);
  ar_backend_limit_milliseconds := backend_limit (sr_dispatch_budget request);
  ar_preflight_compatibility := preflight_report_from_error error; ar_candidate_count := 0;
  ar_termination := AtPreflightRejected (preflight_code error); ar_backend_failure_code := None;
  ar_outcome := None; ar_fallback_eligible := false; ar_fallback_taken := false |}.

(** ** The state of an execution and its environment *)
Record ExecutionState := {
  es_decision : RoutingDecision;
  es_solve_options : SolveOptions;
  es_attempts : list AttemptRecord;
  es_counter : Z;
  es_diagnostics : list RouterDiagnostic;
  es_observation : ObservationState
}.
Definition ExecutionState_new (decision : RoutingDecision) (solve_options : SolveOptions)
    (observation : ObservationState) : ExecutionState := {|
  es_decision := decision; es_solve_options := solve_options; es_attempts := []; es_counter := 0;
  es_diagnostics := de_diagnostics decision; es_observation := observation |}.
(** The calls a reviewer has received. *)
Notation ReviewCalls := (list (string * BackendCandidate)).
Record Exec (Sink : Type) := {
  x_state : ExecutionState;
  x_remaining : RemainingOutput;
  x_worlds : nat → World;
  x_observed : nat;
  x_reviews : ReviewCalls;
  x_sink : Sink
}.
Arguments x_state {_} _.
Arguments x_remaining {_} _.
Arguments x_worlds {_} _.
Arguments x_observed {_} _.
Arguments x_reviews {_} _.
Arguments x_sink {_} _.
Inductive ExecutionStop := Finish (terminal : Terminal) | Panicked.

(** What a backend does with the sink, and how its future ends.  [bb_review_after] is the number of
    calls after which the router's loop is polled and may receive the notification of a candidate. *)
Inductive BackendCall := BcEmit (event : SolveProgressEvent) | BcSubmit (candidate : CandidateSubmission).
Record BackendBehaviour := {
  bb_calls : list BackendCall; bb_review_after : nat; bb_completion : BackendCompletion
}.
(** [CountingProgress] around the caller's sink. *)
Definition counting_emit {Sink} (emit : SolveProgressEvent → Sink → Result OutputError unit * Sink)
    (event : SolveProgressEvent) (progress : Sink * Z) : Result OutputError unit * (Sink * Z) :=
  let count := if is_log_line event then Z.min (progress.2 + 1) u32_max else progress.2 in
  let '(sent, sink) := emit event progress.1 in (sent, (sink, count)).
Record CandidateNotification := { cn_candidate : BackendCandidate; cn_admitted_after : option Z }.
(** [oo_sender] holds while the sender has not been taken; [oo_pending] is the channel of capacity one. *)
Record ObservedOutput (Sink : Type) := {
  oo_output : BoundedBackendOutput (Sink * Z);
  oo_sender : bool;
  oo_pending : option CandidateNotification;
  oo_first_candidate_seen : bool;
  oo_first_candidate_elapsed : option Z;
  oo_candidate_rejection : option OutputError;
  oo_track_candidate_rejection : bool
}.
Arguments oo_output {_} _.
Arguments oo_sender {_} _.
Arguments oo_pending {_} _.
Arguments oo_first_candidate_seen {_} _.
Arguments oo_first_candidate_elapsed {_} _.
Arguments oo_candidate_rejection {_} _.
Arguments oo_track_candidate_rejection {_} _.

Section execution.
Context {Sink : Type} (emit : SolveProgressEvent → Sink → Result OutputError unit * Sink).
Context (reviewer : ReviewCalls → string → BackendCandidate → CandidateReview).
Context (behaviour : Z → BackendBehaviour).
Context (parent : SolveBudgetState).
Notation Exec := (Exec Sink).

(** *** Readings, reviews and updates *)
Definition observe {E} : SE Exec E World := λ x,
  (Ok (x_worlds x (x_observed x)),
   {| x_state := x_state x; x_remaining := x_remaining x; x_worlds := x_worlds x;
      x_observed := S (x_observed x); x_reviews := x_reviews x; x_sink := x_sink x |}).
Definition update_state {E} (f : ExecutionState → ExecutionState) : SE Exec E unit := λ x,
  (Ok tt, {| x_state := f (x_state x); x_remaining := x_remaining x; x_worlds := x_worlds x;
             x_observed := x_observed x; x_reviews := x_reviews x; x_sink := x_sink x |}).
Definition set_observation (o : ObservationState) (s : ExecutionState) : ExecutionState := {|
  es_decision := es_decision s; es_solve_options := es_solve_options s; es_attempts := es_attempts s;
  es_counter := es_counter s; es_diagnostics := es_diagnostics s; es_observation := o |}.
Definition push_diagnostics (l : list RouterDiagnostic) (s : ExecutionState) : ExecutionState := {|
  es_decision := es_decision s; es_solve_options := es_solve_options s; es_attempts := es_attempts s;
  es_counter := es_counter s; es_diagnostics := es_diagnostics s ++ l; es_observation := es_observation s |}.
Definition push_attempt (a : AttemptRecord) (s : ExecutionState) : ExecutionState := {|
  es_decision := es_decision s; es_solve_options := es_solve_options s; es_attempts := es_attempts s ++ [a];
  es_counter := es_counter s; es_diagnostics := es_diagnostics s; es_observation := es_observation s |}.
Definition update_remaining {E} (f : RemainingOutput → RemainingOutput) : SE Exec E unit := λ x,
  (Ok tt, {| x_state := x_state x; x_remaining := f (x_remaining x); x_worlds := x_worlds x;
             x_observed := x_observed x; x_reviews := x_reviews x; x_sink := x_sink x |}).
Definition set_sink {E} (sink : Sink) : SE Exec E unit := λ x,
  (Ok tt, {| x_state := x_state x; x_remaining := x_remaining x; x_worlds := x_worlds x;
             x_observed := x_observed x; x_reviews := x_reviews x; x_sink := sink |}).
Definition get {E} : SE Exec E Exec := λ x, (Ok x, x).
(** A method of the observation state that reads the clock once. *)
Definition observing {E A} (f : World → ObservationState → A * ObservationState) : SE Exec E A :=
  w ← observe;
  x ← get;
  let '(a, o) := f w (es_observation (x_state x)) in
  _ ← update_state (set_observation o);
  mret a.
Definition observed {E} (f : World → ObservationState → ObservationState) : SE Exec E unit :=
  observing (λ w o, (tt, f w o)).
Definition review {E} (backend_id : string) (candidate : BackendCandidate) : SE Exec E CandidateReview := λ x,
  (Ok (reviewer (x_reviews x) backend_id candidate),
   {| x_state := x_state x; x_remaining := x_remaining x; x_worlds := x_worlds x; x_observed := x_observed x;
      x_reviews := x_reviews x ++ [(backend_id, candidate)]; x_sink := x_sink x |}).
(** [BackendInvocationCounter::mark_invocation] *)
Definition mark_invocation {E} : SE Exec E Z :=
  x ← get;
  let value := Z.min (es_counter (x_state x) + 1) u32_max in
  _ ← update_state (λ s, {| es_decision := es_decision s; es_solve_options := es_solve_options s;
                            es_attempts := es_attempts s; es_counter := value;
                            es_diagnostics := es_diagnostics s; es_observation := es_observation s |});
  mret value.

(** *** Reviews *)
Definition stopped_interruption {E} : SE Exec E (option OperationInterruption) :=
  w ← observe;
  let snapshot := snapshot_until w parent (deadline parent) in
  mret (if cancelled snapshot then Some Cancelled
        else if expired snapshot || (remaining_milliseconds snapshot =? 0) then Some DeadlineExceeded
        else None).
Fixpoint review_candidates {E} (backend_id : string) (all rest : list BackendCandidate)
    (outcome : option BackendSolveOutcome) : SE Exec E CandidateDisposition :=
  match rest with
  | [] => mret (awaiting (head all))
  | candidate :: rest =>
      stopped ← stopped_interruption;
      match stopped with
      | Some reason => mret (interrupted_review reason)
      | None =>
          answer ← review backend_id candidate;
          stopped ← stopped_interruption;
          match stopped with
          | Some reason => mret (interrupted_review reason)
          | None =>
              match answer with
              | VerificationFailed diagnostic_code => mret (quarantined diagnostic_code)
              | Interrupted reason => mret (interrupted_review reason)
              | ResourceLimitExceeded => mret review_exhausted
              | Verified objective_matches =>
                  mret (verified candidate (objective_matches && selected_optimal_candidate candidate all outcome))
              | AwaitingIndependentVerification => review_candidates backend_id all rest outcome
              end
          end
      end
  end.
Definition mark_if_verified {E} (answer : CandidateReview) : SE Exec E unit :=
  if is_verified answer then observed (mark_verified parent) else mret tt.
Definition review_intermediate_candidate {E} (backend_id : string) (candidate : BackendCandidate) :
    SE Exec E CandidateReview :=
  stopped ← stopped_interruption;
  match stopped with
  | Some reason => mret (Interrupted reason)
  | None =>
      answer ← review backend_id candidate;
      _ ← mark_if_verified answer;
      mret answer
  end.
Definition review_terminal_candidate {E} (backend_id : string) (candidate : BackendCandidate) :
    SE Exec E CandidateReview :=
  stopped ← stopped_interruption;
  match stopped with
  | Some reason => mret (Interrupted reason)
  | None =>
      answer ← review backend_id candidate;
      _ ← mark_if_verified answer;
      stopped ← stopped_interruption;
      match stopped with
      | Some reason => mret (Interrupted reason)
      | None => mret answer
      end
  end.

(** *** One backend run *)
Definition observed_submit {E} (candidate : CandidateSubmission) (ob : ObservedOutput Sink) :
    SE Exec E (ObservedOutput Sink) :=
  w_entry ← observe;
  w_commit ← observe;
  match submit_candidate w_entry w_commit candidate (oo_output ob) with
  | (Err error, output) =>
      mret {| oo_output := output; oo_sender := oo_sender ob; oo_pending := oo_pending ob;
              oo_first_candidate_seen := oo_first_candidate_seen ob;
              oo_first_candidate_elapsed := oo_first_candidate_elapsed ob;
              oo_candidate_rejection := if oo_track_candidate_rejection ob then Some error
                                        else oo_candidate_rejection ob;
              oo_track_candidate_rejection := oo_track_candidate_rejection ob |}
  | (Ok retained, output) =>
      w ← observe;
      let admitted_after := parent_elapsed parent w in
      mret {| oo_output := output; oo_sender := false;
              oo_pending := if oo_sender ob
                            then Some {| cn_candidate := retained; cn_admitted_after := admitted_after |}
                            else oo_pending ob;
              oo_first_candidate_seen := true;
              oo_first_candidate_elapsed := if oo_first_candidate_seen ob then oo_first_candidate_elapsed ob
                                            else admitted_after;
              oo_candidate_rejection := oo_candidate_rejection ob;
              oo_track_candidate_rejection := oo_track_candidate_rejection ob |}
  end.
Definition observed_call {E} (ob : ObservedOutput Sink) (call : BackendCall) : SE Exec E (ObservedOutput Sink) :=
  match call with
  | BcSubmit candidate => observed_submit candidate ob
  | BcEmit event =>
      w ← observe;
      let output := (emit_progress (counting_emit emit) w event (oo_output ob)).2 in
      mret {| oo_output := output; oo_sender := oo_sender ob; oo_pending := oo_pending ob;
              oo_first_candidate_seen := oo_first_candidate_seen ob;
              oo_first_candidate_elapsed := oo_first_candidate_elapsed ob;
              oo_candidate_rejection := oo_candidate_rejection ob;
              oo_track_candidate_rejection := oo_track_candidate_rejection ob |}
  end.
(** Receiving the notification and reviewing its candidate, unless one was reviewed before. *)
Definition receive_notification {E} (backend_id : string) (early_review : option EarlyCandidateReview)
    (ob : ObservedOutput Sink) : SE Exec E (option EarlyCandidateReview) :=
  match early_review, oo_pending ob with
  | None, Some notification =>
      let candidate := cn_candidate notification in
      _ ← observed (λ w, retain_candidate_at parent w (cn_admitted_after notification));
      review_started ← observing (sample parent);
      answer ← review_intermediate_candidate backend_id candidate;
      _ ← observed (λ w, exclude_review parent w review_started);
      mret (Some {| ec_candidate := candidate; ec_review := answer |})
  | _, _ => mret early_review
  end.
Definition run_calls {E} (backend_id : string) (collect_intermediate : bool) (b : BackendBehaviour)
    (ob : ObservedOutput Sink) : SE Exec E (ObservedOutput Sink * option EarlyCandidateReview) :=
  if collect_intermediate then
    ob ← fold_m observed_call ob (take (bb_review_after b) (bb_calls b));
    early_review ← receive_notification backend_id None ob;
    ob ← fold_m observed_call ob (drop (bb_review_after b) (bb_calls b));
    early_review ← receive_notification backend_id early_review ob;
    mret (ob, early_review)
  else
    ob ← fold_m observed_call ob (bb_calls b);
    mret (ob, None).
Definition split_rejection (rejection : option OutputError) : option BackendStopReason * option OutputError :=
  match rejection with
  | Some OeCancelled => (Some StopCancelled, None)
  | Some OeParentDeadlineExceeded => (Some StopDeadlineExceeded, None)
  | Some OeBackendLimitExceeded => (Some StopBackendLimitExceeded, None)
  | Some error => (None, Some error)
  | None => (None, None)
  end.
Definition final_stop_reason {E} (first : option BackendStopReason) (budget : SolveDispatchBudget)
    (completion : BackendCompletion) : SE Exec E (option BackendStopReason) :=
  match first with
  | Some reason => mret (Some reason)
  | None =>
      w ← observe;
      mret (match stop_reason w budget, completion with
            | Some reason, _ => Some reason
            | None, TimedOut => Some StopBackendLimitExceeded
            | None, Returned _ => None
            end)
  end.
Definition run_backend {E} (backend_id : string) (problem : PlanningProblem) (request : SolveRequest)
    (limits : SolverApiLimits) (invocation_index : Z) : SE Exec E (Result OutputError BackendRun) :=
  let collect_intermediate := so_collect_intermediate_solutions (sr_options request) in
  let b := behaviour invocation_index in
  x ← get;
  match BoundedBackendOutput_new problem (x_sink x, 0) (sr_dispatch_budget request) limits with
  | Err error => mret (Err error)
  | Ok output =>
      '(ob, early_review) ← run_calls backend_id collect_intermediate b
        {| oo_output := output; oo_sender := collect_intermediate; oo_pending := None;
           oo_first_candidate_seen := false; oo_first_candidate_elapsed := None;
           oo_candidate_rejection := None; oo_track_candidate_rejection := collect_intermediate |};
      let output := oo_output ob in
      _ ← set_sink (bo_progress output).1;
      let rejection := match bo_contract_rejection output with
                       | Some error => Some error
                       | None => oo_candidate_rejection ob
                       end in
      _ ← (if negb collect_intermediate && negb (bool_decide (bo_candidates output = []))
           then observed (λ w, retain_candidate_at parent w (oo_first_candidate_elapsed ob))
           else mret tt);
      let '(first, output_error) := split_rejection rejection in
      final ← final_stop_reason first (sr_dispatch_budget request) (bb_completion b);
      mret (Ok {| ru_completion := bb_completion b; ru_stop_reason := final;
                  ru_candidates := bo_candidates output;
                  ru_candidate_assignments_used := bo_candidate_assignment_count output;
                  ru_progress_used := bo_progress_event_count output;
                  ru_diagnostic_used := (bo_progress output).2;
                  ru_output_error := output_error; ru_early_review := early_review |})
  end.

(** *** Conclusions of an attempt *)
Notation XM := (SE Exec ExecutionStop).
Definition finish {A} (terminal : Terminal) : XM A := se_fail (Finish terminal).
Definition record_output_rejection {A} (attempt : AttemptBase) (error_code : OutputError) : XM A :=
  _ ← update_state (push_diagnostics [diagnostic_backend_code "solver.output_limits"]);
  _ ← update_state (push_attempt (attempt_finish attempt {|
        ac_candidate_count := 0; ac_termination := AtBackendError (CodeOfOutputError error_code);
        ac_backend_failure_code := Some (CodeOfOutputError error_code); ac_outcome := None;
        ac_fallback_eligible := false; ac_fallback_taken := false |}));
  finish (Terminal_new StatusBackendFailed TrSharedOutputLimitExhausted).
Definition failure_code (completion : BackendCompletion) : option FailureCode :=
  match completion with
  | Returned (Err error) => Some (CodeText (safe_backend_code error))
  | Returned (Ok _) | TimedOut => None
  end.
Definition check_outcome (request : SolveRequest) (outcome : BackendSolveOutcome) (candidates : list BackendCandidate)
    (limits : SolverApiLimits) : XM (Result OutcomeError unit) :=
  w_measured ← observe;
  w_cancelled ← observe;
  mret (validate_outcome w_measured w_cancelled request outcome candidates limits).
(** The early returns of [finish_intermediate_candidate]: a disposition, or the validated outcome. *)
Definition intermediate_outcome (run : BackendRun) (request : SolveRequest) (limits : SolverApiLimits) :
    XM (CandidateDisposition + option BackendSolveOutcome) :=
  if bool_decide (ru_stop_reason run = Some StopBackendLimitExceeded) then mret (inr None)
  else match ru_completion run with
       | Returned (Err error) =>
           if bool_decide (be_code error = "solver.output_contract")
           then mret (inl (contract_failure (AtBackendError (CodeText (be_code error)))))
           else mret (inr None)
       | Returned (Ok outcome) =>
           checked ← check_outcome request outcome (ru_candidates run) limits;
           match checked with
           | Err error => mret (inl (contract_failure (AtOutcomeContractFailure (outcome_error_code error))))
           | Ok _ => mret (inr (Some outcome))
           end
       | TimedOut => mret (inr None)
       end.
Definition is_verification_failed (review : CandidateReview) : bool :=
  match review with VerificationFailed _ => true | _ => false end.
Definition terminal_review (backend_id : string) (run : BackendRun) (terminal : BackendCandidate) : XM CandidateReview :=
  match ru_early_review run with
  | Some early => if is_verification_failed (ec_review early)
                     || (bc_sequence (ec_candidate early) =? bc_sequence terminal)
                  then mret (ec_review early)
                  else review_terminal_candidate backend_id terminal
  | None => review_terminal_candidate backend_id terminal
  end.
Definition finish_intermediate_candidate (backend_id : string) (run : BackendRun) (request : SolveRequest)
    (limits : SolverApiLimits) : XM (CandidateDisposition * option BackendSolveOutcome) :=
  outcome ← intermediate_outcome run request limits;
  match outcome with
  | inl disposition => mret (disposition, None)
  | inr validated_outcome =>
      match last (ru_candidates run) with
      | None => mret (contract_failure (AtOutcomeContractFailure "solver.output_contract"), None)
      | Some terminal =>
          answer ← terminal_review backend_id run terminal;
          mret (terminal_disposition terminal (ru_candidates run) answer (ru_early_review run) validated_outcome,
                validated_outcome)
      end
  end.
Definition finish_final_candidates (backend_id : string) (run : BackendRun) (request : SolveRequest)
    (limits : SolverApiLimits) : XM (CandidateDisposition * option BackendSolveOutcome) :=
  let review_without_outcome :=
    disposition ← review_candidates backend_id (ru_candidates run) (ru_candidates run) None;
    mret (disposition, None) in
  if bool_decide (ru_stop_reason run = Some StopBackendLimitExceeded) then review_without_outcome
  else match ru_completion run with
       | Returned (Err _) | TimedOut => review_without_outcome
       | Returned (Ok outcome) =>
           checked ← check_outcome request outcome (ru_candidates run) limits;
           match checked with
           | Err error => mret (contract_failure (AtOutcomeContractFailure (outcome_error_code error)), None)
           | Ok _ =>
               disposition ← review_candidates backend_id (ru_candidates run) (ru_candidates run) (Some outcome);
               mret (disposition, Some outcome)
           end
       end.
Definition finish_candidate_attempt (attempt : AttemptBase) (run : BackendRun) (request : SolveRequest)
    (limits : SolverApiLimits) : XM Terminal :=
  '(disposition, validated_outcome) ←
    (if so_collect_intermediate_solutions (sr_options request)
     then finish_intermediate_candidate (ab_backend_id attempt) run request limits
     else finish_final_candidates (ab_backend_id attempt) run request limits);
  _ ← update_state (push_diagnostics (option_list (cd_diagnostic disposition)));
  _ ← update_state (push_attempt (attempt_finish attempt {|
        ac_candidate_count := candidate_count (ru_candidates run); ac_termination := cd_termination disposition;
        ac_backend_failure_code := failure_code (ru_completion run); ac_outcome := validated_outcome;
        ac_fallback_eligible := false; ac_fallback_taken := false |}));
  mret {| tl_status := cd_status disposition; tl_reason := cd_reason disposition;
          tl_selected_candidate := cd_selected_candidate disposition |}.
(** A timeout that is not the backend limit is the [unreachable!] of the source. *)
Definition empty_conclusion (run : BackendRun) (request : SolveRequest) (limits : SolverApiLimits) :
    XM (AttemptTermination * SolveStatus * ExecutionTerminalReason * bool * option BackendSolveOutcome) :=
  if bool_decide (ru_stop_reason run = Some StopBackendLimitExceeded)
  then mret (AtBackendOutcome TimeLimit, StatusNoSolutionWithinLimit, TrBackendTerminated, true, None)
  else match ru_completion run with
       | Returned (Err error) =>
           mret (AtBackendError (CodeText (safe_backend_code error)), StatusBackendFailed, TrBackendFailure, true, None)
       | Returned (Ok outcome) =>
           checked ← check_outcome request outcome (ru_candidates run) limits;
           match checked with
           | Err error => mret (AtOutcomeContractFailure (outcome_error_code error), StatusBackendFailed,
                                TrBackendFailure, true, None)
           | Ok _ => mret (terminal_from_outcome outcome, Some outcome)
           end
       | TimedOut => se_fail Panicked
       end.
Definition finish_empty_attempt (attempt : AttemptBase) (run : BackendRun) (request : SolveRequest)
    (limits : SolverApiLimits) (position order_len : nat) : XM unit :=
  '(termination, status, reason, fallback_eligible, validated_outcome) ← empty_conclusion run request limits;
  w ← observe;
  x ← get;
  let snapshot := view_snapshot w (parent_phase_view parent) in
  let fallback_taken :=
    fallback_eligible
    && match de_profile (es_decision (x_state x)) with Some profile => rp_allow_fallback profile | None => true end
    && (position + 1 <? order_len)%nat && negb (cancelled snapshot) && negb (expired snapshot)
    && negb (remaining_milliseconds snapshot =? 0) in
  _ ← update_state (push_attempt (attempt_finish attempt {|
        ac_candidate_count := 0; ac_termination := termination;
        ac_backend_failure_code := failure_code (ru_completion run); ac_outcome := validated_outcome;
        ac_fallback_eligible := fallback_eligible; ac_fallback_taken := fallback_taken |}));
  if fallback_taken then mret tt else finish (Terminal_new status reason).
Definition is_limit_error (error : OutputError) : bool :=
  match error with
  | OeCandidateLimitExceeded | OeCandidateAssignmentLimitExceeded | OeProgressLimitExceeded
  | OeDiagnosticLimitExceeded | OeEvidenceLimitExceeded => true
  | _ => false
  end.
Definition finish_output_error (attempt : AttemptBase) (run : BackendRun) (collect_intermediate : bool)
    (error : OutputError) : XM unit :=
  if negb collect_intermediate || bool_decide (ru_candidates run = []) then record_output_rejection attempt error
  else
    let error_code := if is_limit_error error then "solver.output_limits" else "solver.output_contract" in
    _ ← update_state (push_diagnostics [diagnostic_backend_code error_code]);
    _ ← update_state (push_attempt (attempt_finish attempt {|
          ac_candidate_count := candidate_count (ru_candidates run);
          ac_termination := AtBackendError (CodeText error_code);
          ac_backend_failure_code := Some (CodeText error_code); ac_outcome := None;
          ac_fallback_eligible := false; ac_fallback_taken := false |}));
    finish (Terminal_new StatusBackendFailed TrBackendFailure).

(** *** One attempt *)
Definition pre_attempt_terminal : XM unit :=
  w ← observe;
  x ← get;
  let snapshot := view_snapshot w (parent_phase_view parent) in
  if cancelled snapshot then finish (Terminal_new StatusCancelled TrCancelled)
  else if expired snapshot || (remaining_milliseconds snapshot =? 0)
  then finish (Terminal_new StatusNoSolutionWithinLimit TrParentDeadlineExceeded)
  else if exhausted (x_remaining x) then finish (Terminal_new StatusBackendFailed TrSharedOutputLimitExhausted)
  else mret tt.
Definition dispatch_guard (budget : SolveDispatchBudget) : XM unit :=
  w ← observe;
  match pre_dispatch_terminal w budget with
  | Some (terminal, diagnostics) => _ ← update_state (push_diagnostics diagnostics); finish terminal
  | None => mret tt
  end.

Context (blake3_hex : list Z → string).
Context (serialize_problem : PlanningProblem → Bytes).
Context (serialize_view : CanonicalHashProblem → Bytes).
Context (serialize_options : SolveOptions → option (list Z)).
(** The preparation budget of the preflight of the attempt at a position. *)
Context (preparation : nat → nat * (nat → World)).
Context (registry : SolverRegistry) (problem : PlanningProblem) (acceptance_reserve : Z).

Definition attempt_options (backend_id : string) (options : SolveOptions) : SolveOptions := {|
  so_backend := SelectSpecific backend_id; so_mode := so_mode options;
  so_time_limit_milliseconds := so_time_limit_milliseconds options;
  so_memory_limit_bytes := so_memory_limit_bytes options; so_worker_threads := so_worker_threads options;
  so_random_seed := so_random_seed options; so_solution_limit := so_solution_limit options;
  so_stop_after_first_feasible := so_stop_after_first_feasible options;
  so_collect_intermediate_solutions := so_collect_intermediate_solutions options;
  so_explanation_mode := so_explanation_mode options; so_preserve_existing := so_preserve_existing options;
  so_reproducibility := so_reproducibility options; so_resource_limits := so_resource_limits options |}.
Definition solve_request (w : World) (backend_id : string) (backend : SolverBackend)
    (summary : PlanningProblemSummary) (options : SolveOptions) (profile : option RoutingProfile) :
    option SolveRequest :=
  SolveRequest_new blake3_hex serialize_options w backend_id (sd_version (sb_descriptor backend))
    (sd_adapter_version (sb_descriptor backend)) problem summary (attempt_options backend_id options)
    (parent_phase_view parent) (backend_cap <$> profile) acceptance_reserve (sb_completion_reserve backend).
Definition preflight_or_reject (backend_id : string) (backend : SolverBackend) (request : SolveRequest)
    (position : nat) : XM CompatibilityReport :=
  w_cancelled ← observe;
  w_expired ← observe;
  match preflight blake3_hex serialize_problem serialize_view
          {| pw_cancelled := w_cancelled; pw_expired := w_expired; pw_budget_id := (preparation position).1;
             pw_env := (preparation position).2 |}
          (rg_matrix registry) (sb_descriptor backend) request with
  | None => se_fail Panicked
  | Some (Ok report) => mret report
  | Some (Err error) =>
      _ ← update_state (push_attempt (preflight_attempt backend_id request error));
      let '(status, reason) := preflight_terminal error in
      finish (Terminal_new status reason)
  end.
Definition conclude_run (limits : SolverApiLimits) (attempt : AttemptBase) (request : SolveRequest)
    (run : BackendRun) (position order_len : nat) : XM unit :=
  _ ← update_remaining (consume run);
  w ← observe;
  match stopped_after_backend w (sr_dispatch_budget request) with
  | Some (termination, terminal) =>
      _ ← update_state (push_attempt (attempt_finish attempt {|
            ac_candidate_count := candidate_count (ru_candidates run); ac_termination := termination;
            ac_backend_failure_code := None; ac_outcome := None; ac_fallback_eligible := false;
            ac_fallback_taken := false |}));
      finish terminal
  | None =>
      match ru_output_error run with
      | Some error =>
          finish_output_error attempt run (so_collect_intermediate_solutions (sr_options request)) error
      | None =>
          if bool_decide (ru_candidates run = [])
          then finish_empty_attempt attempt run request limits position order_len
          else terminal ← finish_candidate_attempt attempt run request limits; finish terminal
      end
  end.
Definition configured_limits (limits : SolverApiLimits) (options : SolveOptions) : SolverApiLimits :=
  if so_collect_intermediate_solutions options then with_intermediate_candidate_reserve limits else limits.
Definition run_attempt (limits : SolverApiLimits) (summary : PlanningProblemSummary) (backend_id : string)
    (position order_len : nat) : XM unit :=
  _ ← pre_attempt_terminal;
  match registry_get registry backend_id with
  | None =>
      _ ← update_state (push_diagnostics [diagnostic_backend_code "solver.registry_lookup"]);
      finish (Terminal_new StatusBackendUnavailable TrBackendFailure)
  | Some backend =>
      w ← observe;
      x ← get;
      let options := es_solve_options (x_state x) in
      match solve_request w backend_id backend summary options (de_profile (es_decision (x_state x))) with
      | None =>
          _ ← update_state (push_diagnostics [diagnostic_backend_code "solver.request_fingerprint"]);
          finish (Terminal_new StatusInvalidModel TrPreflightRejected)
      | Some request =>
          _ ← dispatch_guard (sr_dispatch_budget request);
          report ← preflight_or_reject backend_id backend request position;
          _ ← dispatch_guard (sr_dispatch_budget request);
          invocation_index ← mark_invocation;
          x ← get;
          let attempt_limits := remaining_limits (x_remaining x) (configured_limits limits options) in
          let attempt := AttemptBase_new backend_id request invocation_index report in
          backend_started ← observing (sample parent);
          run ← run_backend backend_id problem request attempt_limits invocation_index;
          _ ← observed (λ w, finish_backend parent w backend_started);
          match run with
          | Err error => record_output_rejection attempt error
          | Ok run => conclude_run attempt_limits attempt request run position order_len
          end
      end
  end.

(** *** The whole execution *)
Fixpoint run_attempts (limits : SolverApiLimits) (summary : PlanningProblemSummary) (position order_len : nat)
    (order : list string) : XM unit :=
  match order with
  | [] => mret tt
  | backend_id :: order =>
      _ ← run_attempt limits summary backend_id position order_len;
      run_attempts limits summary (S position) order_len order
  end.
Definition with_finished (finished_after : Z) (r : RouterObservations) : RouterObservations := {|
  ro_started_after := ro_started_after r; ro_finished_after := finished_after;
  ro_backend_elapsed := ro_backend_elapsed r; ro_first_candidate_after := ro_first_candidate_after r;
  ro_first_verified_feasible_after := ro_first_verified_feasible_after r |}.
Definition state_finish (policy : RouterPolicy) (terminal : Terminal) (x : Exec) : RouterExecution :=
  let s := x_state x in
  let '(finished, o) := sample parent (x_worlds x (x_observed x)) (es_observation s) in
  let o := match finished with Some t => with_observations (with_finished t) o | None => o end in
  {| re_observations := os_observations o; re_last_trusted_elapsed := os_last_elapsed o;
     re_record := {| er_decision := es_decision s; er_solve_options := es_solve_options s;
                     er_attempts := es_attempts s; er_invocation_count := es_counter s;
                     er_terminal_status := tl_status terminal; er_terminal_reason := tl_reason terminal;
                     er_selected_candidate := tl_selected_candidate terminal;
                     er_first_verified_feasible_milliseconds := None;
                     er_diagnostics := bounded_diagnostics policy (es_diagnostics s) |} |}.
Definition first_verified (o : option RouterObservations) : option Z := o ≫= ro_first_verified_feasible_after.
Definition with_first_verified_milliseconds (elapsed : option Z) (r : RouterExecutionRecord) : RouterExecutionRecord := {|
  er_decision := er_decision r; er_solve_options := er_solve_options r; er_attempts := er_attempts r;
  er_invocation_count := er_invocation_count r; er_terminal_status := er_terminal_status r;
  er_terminal_reason := er_terminal_reason r; er_selected_candidate := er_selected_candidate r;
  er_first_verified_feasible_milliseconds :=
    elapsed ≫= λ time, checked_u64 (as_millis time) ≫= λ time, result_ok (DurationMillis_new time);
  er_diagnostics := er_diagnostics r |}.
(** What [execute] does when an attempt finishes. *)
Definition finish_execution (policy : RouterPolicy) (terminal : Terminal) (x : Exec) : RouterExecution :=
  if bool_decide (tl_reason terminal = TrCandidateVerified) then
    let o := es_observation (x_state x) in
    let '(elapsed, x) :=
      match first_verified (os_observations o) with
      | Some _ => (None, x)
      | None =>
          let '(time, o) := sample parent (x_worlds x (x_observed x)) o in
          (os_observations o ≫= since_start time,
           {| x_state := set_observation o (x_state x); x_remaining := x_remaining x; x_worlds := x_worlds x;
              x_observed := S (x_observed x); x_reviews := x_reviews x; x_sink := x_sink x |})
      end in
    let execution := state_finish policy terminal x in
    let observations := with_first_verified elapsed <$> re_observations execution in
    {| re_record := with_first_verified_milliseconds (first_verified observations) (re_record execution);
       re_observations := observations; re_last_trusted_elapsed := re_last_trusted_elapsed execution |}
  else state_finish policy terminal x.
(** The execution and the calls its reviewer received; [None] is a panic. *)
Definition execute (run : UncontrolledRun) (policy : RouterPolicy) (limits : SolverApiLimits)
    (options : SolveOptions) (worlds : nat → World) (sink : Sink) : option (RouterExecution * ReviewCalls) :=
  let observation := ObservationState_new parent (worlds 0%nat) in
  let decision := RouterPolicy_decide blake3_hex serialize_problem serialize_view run policy registry problem options in
  let x := {| x_state := ExecutionState_new decision options observation;
              x_remaining := RemainingOutput_new (configured_limits limits options);
              x_worlds := worlds; x_observed := 1; x_reviews := []; x_sink := sink |} in
  match initial_terminal (de_status decision), de_summary decision with
  | Some terminal, _ => Some (state_finish policy terminal x, [])
  | None, None => Some (state_finish policy (Terminal_new StatusInvalidModel TrInvalidModel) x, [])
  | None, Some summary =>
      let order := backend_order decision in
      match run_attempts limits summary 0 (length order) order x with
      | (Ok _, x) =>
          Some (state_finish policy (Terminal_new StatusBackendUnavailable TrNoCompatibleBackend) x, x_reviews x)
      | (Err (Finish terminal), x) => Some (finish_execution policy terminal x, x_reviews x)
      | (Err Panicked, _) => None
      end
  end.
End execution.
