(* ===== verification/RouterFacts.v ===== *)
(** * What a routing decision guarantees

    Registered backends agree with the matrix under their own identifiers; the decision ranks the
    compatible ones by identifier and never names another. *)
From stdpp Require Import base tactics list gmap strings.
From Stdlib Require Import ZArith Lia Ascii.
From S2P Require Import Prelude Ordering Control Budget Ids DomainIr Model Analysis Validation Admission Canonical.
From S2P Require Import ProjectionFacts SolverApi Support Preflight PreflightFacts Router Execution.
Open Scope string_scope.
Open Scope list_scope.
Open Scope Z_scope.

(** ** The registry *)
(** A registered backend is stored under its identifier and is what the matrix describes. *)
Record registered_ok (matrix : CapabilityMatrix) (id : string) (backend : SolverBackend) : Prop := {
  ro_id : sd_id (sb_descriptor backend) = id;
  ro_descriptor : SolverDescriptor_validate (sb_descriptor backend) = Ok tt;
  ro_identity : BackendRuntimeIdentity_validate (sb_runtime_identity backend) = Ok tt;
  ro_identity_id : bi_backend_id (sb_runtime_identity backend) = id;
  ro_identity_version : bi_backend_version (sb_runtime_identity backend) = sd_version (sb_descriptor backend);
  ro_identity_adapter :
    bi_adapter_version (sb_runtime_identity backend) = sd_adapter_version (sb_descriptor backend);
  ro_matrix : validate_descriptor matrix (sb_descriptor backend) = Ok tt
}.
Lemma register_backend_Ok matrix registered backend registered' :
  register_backend matrix registered backend = Ok registered' →
  ∃ id, registered !! id = None ∧ registered' = <[id := backend]> registered ∧ registered_ok matrix id backend.
Proof.
  unfold register_backend. intros ([] & H1%map_err_Ok & H)%result_bind_Ok.
  apply result_bind_Ok in H as ([] & H2%map_err_Ok & H).
  repeat case_bool_decide; simplify_eq/=.
  apply result_bind_Ok in H as ([] & Hm%map_err_Ok & [= <-]).
  eexists. split; [|split; [reflexivity|by constructor]]. by apply eq_None_not_Some.
Qed.
Lemma registry_wf matrix backends registry :
  SolverRegistry_new matrix backends = Ok registry →
  rg_matrix registry = matrix ∧
  map_Forall (registered_ok matrix) (rg_backends registry) ∧
  (∀ backend, backend ∈ backends ↔ ∃ id, rg_backends registry !! id = Some backend).
Proof.
  unfold SolverRegistry_new. intros (registered & Hf & H)%result_bind_Ok.
  destruct (negb _); [discriminate H|]. injection H as <-. cbn. split; [done|].
  refine (result_fold_m_inv (register_backend matrix)
    (λ done_ m, map_Forall (registered_ok matrix) m ∧ ∀ backend, backend ∈ done_ ↔ ∃ id, m !! id = Some backend)
    _ backends ∅ registered [] _ Hf); [|split; [apply map_Forall_empty|set_solver]].
  clear. intros b backend b' done_ [Hall Hin] (id & Hnone & -> & Hok)%register_backend_Ok. split.
  - by apply map_Forall_insert_2.
  - intros backend'. rewrite elem_of_app, list_elem_of_singleton, Hin. split.
    + intros [[id' Hid']| ->]; [exists id'|exists id; apply lookup_insert_eq].
      rewrite lookup_insert_ne; [done|]. by intros ->; rewrite Hnone in Hid'.
    + intros [id' Hid']. destruct (decide (id = id')) as [->|Hne].
      * rewrite lookup_insert_eq in Hid'. naive_solver.
      * rewrite lookup_insert_ne in Hid' by done. eauto.
Qed.

(** ** Selection *)
Lemma tightened_typed caller : typed_limits (tightened_by limits_default caller).
Proof.
  unfold typed_limits, wf_limits, tightened_by, limits_default, min_u64, u64_max, i64_max.
  cbn [max_abs_value max_abs_coefficient max_provenance_depth max_variables].
  split_and!; try lia. destruct (Z.ltb_spec 100000 (caller_max_variables caller)); lia.
Qed.
(** A backend the matrix and the backend itself both report compatible. *)
Definition routable (registry : SolverRegistry) (summary : PlanningProblemSummary) (options : SolveOptions)
    (id : string) : Prop :=
  ∃ backend report, rg_backends registry !! id = Some backend ∧
    compatibility_for (rg_matrix registry) id summary options = Ok report ∧ compatible report = true ∧
    compatible (sb_compatibility backend summary options) = true.
Lemma assess_compatible m b :
  assess m b = AssessedCompatible ↔
  ∃ m' b', m = Some m' ∧ b = Some b' ∧ compatible m' = true ∧ compatible b' = true.
Proof.
  split.
  - destruct m as [m|]; [|done]. destruct b as [b|]; unfold assess.
    + destruct (compatible m) eqn:Hm, (compatible b) eqn:Hb; try done. intros _. by exists m, b.
    + by destruct (compatible m).
  - intros (m' & b' & -> & -> & Hm & Hb). unfold assess. by rewrite Hm, Hb.
Qed.
Lemma result_ok_Some {E A} (r : Result E A) a : result_ok r = Some a ↔ r = Ok a.
Proof. destruct r; cbn; naive_solver. Qed.
Lemma consider_compatible registry summary options descriptor :
  cb_assessment (consider registry summary options descriptor) = AssessedCompatible ↔
  routable registry summary options (sd_id descriptor).
Proof.
  unfold consider, routable, registry_get. cbn [cb_assessment]. rewrite assess_compatible. split.
  - intros (m & b & Hm%result_ok_Some & (backend & Hb & ->)%fmap_Some & ? & ?). eauto 8.
  - intros (backend & m & Hb & Hm & ? & ?). exists m, (sb_compatibility backend summary options).
    rewrite Hb, Hm. done.
Qed.
Lemma sorted_keys_filter {A} (key : A → string) (P : A → Prop) `{∀ a, Decision (P a)} (l : list A) :
  strictly_sorted (key <$> l) = true → strictly_sorted (key <$> filter P l) = true.
Proof.
  unfold strictly_sorted. rewrite !strictly_sorted_by_spec. induction l as [|a l IH]; [done|].
  cbn [fmap list_fmap]. inversion 1 as [|? ? Hs Ha]; subst. rewrite filter_cons.
  destruct (decide (P a)); cbn [fmap list_fmap]; [|by apply IH]. constructor; [by apply IH|].
  rewrite Forall_forall in Ha |- *. intros k (b & -> & Hb)%list_elem_of_fmap.
  apply Ha, list_elem_of_fmap_2. by apply list_elem_of_filter in Hb as [_ Hb].
Qed.
Section selection.
Context (matrix : CapabilityMatrix) (registry : SolverRegistry).
Context (Hwf : map_Forall (registered_ok matrix) (rg_backends registry)).
Lemma descriptor_ids :
  sd_id <$> registry_descriptors registry = (btree_iter (rg_backends registry)).*1.
Proof using Hwf.
  unfold registry_descriptors. rewrite <-list_fmap_compose. apply list_fmap_ext. intros i [id backend] Hi. cbn.
  apply list_elem_of_lookup_2, btree_iter_elem in Hi. by apply Hwf in Hi as [].
Qed.
Lemma considered_ids summary options :
  cb_backend_id <$> considered_backends registry summary options = (btree_iter (rg_backends registry)).*1.
Proof using Hwf. rewrite <-descriptor_ids. unfold considered_backends. by rewrite <-list_fmap_compose. Qed.
Lemma considered_sorted summary options :
  strictly_sorted (cb_backend_id <$> considered_backends registry summary options) = true.
Proof using Hwf.
  rewrite considered_ids. pose proof (btree_iter_sorted (rg_backends registry)) as H.
  unfold strictly_sorted. apply strictly_sorted_by_spec. apply strictly_sorted_by_spec in H.
  induction H as [|[id b] l Hs IH Ha]; cbn; constructor; [done|].
  rewrite Forall_fmap. exact Ha.
Qed.
Lemma considered_elem summary options id :
  (∃ entry, entry ∈ considered_backends registry summary options ∧ cb_backend_id entry = id ∧
     cb_assessment entry = AssessedCompatible) ↔ routable registry summary options id.
Proof using Hwf.
  split.
  - intros (entry & (d & -> & Hd)%list_elem_of_fmap & Hid & Ha). cbn in Hid. subst id.
    by apply consider_compatible.
  - intros Hr. pose proof Hr as (backend & report & Hb & _).
    assert (sd_id (sb_descriptor backend) = id) as Hid by (by apply Hwf in Hb as []).
    exists (consider registry summary options (sb_descriptor backend)). split_and!.
    + apply list_elem_of_fmap_2. unfold registry_descriptors.
      apply (list_elem_of_fmap_2 (λ e : string * SolverBackend, sb_descriptor e.2) _ (id, backend)).
      by apply btree_iter_elem.
    + done.
    + apply consider_compatible. by rewrite Hid.
Qed.
Lemma elem_of_compatible_ids summary options id :
  id ∈ compatible_ids (considered_backends registry summary options) ↔ routable registry summary options id.
Proof using Hwf.
  rewrite <-considered_elem. unfold compatible_ids. rewrite list_elem_of_fmap. split.
  - intros (e & -> & [? ?]%list_elem_of_filter). eauto.
  - intros (e & ? & <- & ?). exists e. split; [done|]. by apply list_elem_of_filter.
Qed.
Lemma find_considered summary options id :
  (∃ entry, snd <$> list_find (λ entry, cb_backend_id entry = id) (considered_backends registry summary options)
     = Some entry ∧ cb_assessment entry = AssessedCompatible) ↔ routable registry summary options id.
Proof using Hwf.
  rewrite <-considered_elem. split.
  - intros (entry & ([i e] & Hf & ->)%fmap_Some & Ha). apply list_find_Some in Hf as (Hl & <- & _).
    exists e. split; [by eapply list_elem_of_lookup_2|done].
  - intros (entry & [i Hi]%list_elem_of_lookup & Hid & Ha).
    destruct (list_find (λ entry, cb_backend_id entry = id) (considered_backends registry summary options))
      as [[j e]|] eqn:Hf.
    + exists e. split; [done|]. apply list_find_Some in Hf as (Hj & He & _).
      assert (i = j) as <-; [|congruence].
      pose proof (considered_sorted summary options) as Hs. apply strictly_sorted_NoDup in Hs.
      eapply NoDup_lookup; [exact Hs|rewrite list_lookup_fmap, Hi; reflexivity|].
      rewrite list_lookup_fmap, Hj. cbn. congruence.
    + apply list_find_None in Hf. rewrite Forall_forall in Hf. exfalso.
      apply (Hf entry); [by eapply list_elem_of_lookup_2|done].
Qed.
End selection.
Lemma automatic_order l :
  option_list (bsr_chosen_backend (automatic_selection l)) ++ bsr_fallback_order (automatic_selection l) = l.
Proof. by destruct l. Qed.
Lemma automatic_ready l : bsr_status (automatic_selection l) = Ready ↔ l ≠ [].
Proof. destruct l; cbn; naive_solver. Qed.
Lemma specific_order matching requested :
  option_list (bsr_chosen_backend (specific_selection matching requested)) ++
    bsr_fallback_order (specific_selection matching requested) =
  (if bool_decide (bsr_status (specific_selection matching requested) = Ready) then [requested] else []) ∧
  (bsr_status (specific_selection matching requested) = Ready ↔
   ∃ entry, matching = Some entry ∧ cb_assessment entry = AssessedCompatible).
Proof.
  unfold specific_selection. destruct matching as [entry|]; [case_bool_decide|]; cbn; naive_solver.
Qed.
(** A decision with a summary was made on an admissible problem. *)
Lemma decide_admits blake3_hex serialize_problem serialize_view run policy registry problem options summary :
  de_summary (RouterPolicy_decide blake3_hex serialize_problem serialize_view run policy registry problem options)
    = Some summary → Admissible problem (tightened_by limits_default (so_resource_limits options)).
Proof.
  unfold RouterPolicy_decide. destruct (validate blake3_hex problem _) as [[]|e] eqn:Hv; [|done]. intros _.
  eapply validate_admits; [apply tightened_typed|exact Hv].
Qed.

(** C28. The order in which a routing decision tries backends. With an automatic choice it lists
    exactly the registered backends that both the support matrix and the backend itself report
    compatible, in strictly increasing order of identifier, and the decision is ready exactly when
    there is one. With a requested backend it lists that backend alone if it is such a backend and
    nothing otherwise, so no override is ever replaced by another backend. A decision without a
    summary is the one on an invalid model, and a summary reflects the validated problem. *)
Theorem routing_decision_exact blake3_hex serialize_problem serialize_view run policy matrix backends registry
    problem options :
  SolverRegistry_new matrix backends = Ok registry →
  let d := RouterPolicy_decide blake3_hex serialize_problem serialize_view run policy registry problem options in
  match de_summary d with
  | None => de_status d = DecisionInvalidModel ∧ backend_order d = []
  | Some summary =>
      validate blake3_hex problem (tightened_by limits_default (so_resource_limits options)) = Ok tt ∧
      summarizes blake3_hex problem summary ∧
      strictly_sorted (backend_order d) = true ∧
      (de_status d = Ready ↔ backend_order d ≠ []) ∧
      ∀ id, id ∈ backend_order d ↔
        routable registry summary options id ∧
        match so_backend options with SelectAuto => True | SelectSpecific requested => id = requested end
  end.
Proof.
  intros Hr d. apply registry_wf in Hr as (Hm & Hwf & _). unfold d, RouterPolicy_decide.
  destruct (validate blake3_hex problem _) as [[]|e] eqn:Hv; [|done].
  match goal with |- context [(summarize ?a ?b ?c ?p ?l ?s).1] =>
    destruct (summarize a b c p l s) as [[summary|e] s'] eqn:Hs end; [|done].
  cbn [fst de_summary]. apply summarize_summarizes in Hs as [_ Hs]; [|apply tightened_typed].
  split; [done|]. split; [exact Hs|].
  unfold backend_order. cbn [de_chosen_backend de_fallback_order de_status].
  destruct (so_backend options) as [|requested] eqn:Hb; cbn [select_backend].
  - rewrite automatic_order, automatic_ready. split_and!; [|done|].
    + apply sorted_keys_filter. by eapply considered_sorted.
    + intros id. rewrite (elem_of_compatible_ids matrix registry Hwf). tauto.
  - destruct (specific_order (snd <$> list_find (λ entry, cb_backend_id entry = requested)
      (considered_backends registry summary options)) requested) as [-> Hready].
    rewrite (find_considered matrix registry Hwf) in Hready.
    case_bool_decide as Hd; (split_and!; [done|split; done|]); intros id.
    + rewrite list_elem_of_singleton. split; [intros ->; by rewrite <-Hready|by intros []].
    + split; [by intros ?%not_elem_of_nil|]. intros [Hid ->]. by apply Hready in Hid.
Qed.
