(* ===== verification/ExecutionFacts.v ===== *)
(** * What a routed execution guarantees

    Every verified result was verified by the reviewer, every attempt was dispatched in the order of
    the decision, and a fallback follows only an attempt that retained no candidate. *)
From stdpp Require Import base tactics list gmap strings.
From Stdlib Require Import ZArith Lia Ascii.
From S2P Require Import Prelude Ordering Control Budget Ids DomainIr Model Analysis Validation Admission Canonical.
From S2P Require Import Projection ProjectionFacts SolverApi SolverApiFacts Support Preflight PreflightFacts.
From S2P Require Import Router Execution RouterFacts.
Open Scope string_scope.
Open Scope list_scope.
Open Scope Z_scope.

Create HintDb exec discriminated.
(** The goal that a constructor is not among listed ones. *)
Ltac not_listed := rewrite !not_elem_of_cons; split_and!; try done; apply not_elem_of_nil.

(** ** Triples over the reviews, the attempts and the counter *)
Section core.
Context {Sink : Type}.
Notation Exec := (Exec Sink).
Definition Core : Type := ReviewCalls → list AttemptRecord → Z → Prop.
Definition spare (remaining : RemainingOutput) : Prop :=
  0 ≤ rm_candidates remaining ∧ 0 ≤ rm_candidate_assignments remaining ∧ 0 ≤ rm_progress_events remaining ∧
  0 ≤ rm_diagnostic_lines remaining.
Definition holds (φ : Core) (x : Exec) : Prop :=
  spare (x_remaining x) ∧ φ (x_reviews x) (es_attempts (x_state x)) (es_counter (x_state x)).
(** A computation that touches neither reviews, attempts nor counter, and does not stop. *)
Definition silent {E A} (m : SE Exec E A) : Prop :=
  ∀ x, ∃ a x', m x = (Ok a, x') ∧ (spare (x_remaining x) → spare (x_remaining x')) ∧ x_reviews x' = x_reviews x ∧
    es_attempts (x_state x') = es_attempts (x_state x) ∧ es_counter (x_state x') = es_counter (x_state x).
Lemma triple_silent {E A} (m : SE Exec E A) φ R : silent m → triple (holds φ) m (λ _, holds φ) R.
Proof.
  intros Hm x [Hs Hx]. destruct (Hm x) as (a & x' & -> & H0 & H1 & H2 & H3). unfold holds in *.
  rewrite H1, H2, H3. auto.
Qed.
Lemma silent_ret {E A} (a : A) : silent (mret a : SE Exec E A).
Proof. intros x. by eexists _, _. Qed.
Lemma silent_bind {E A B} (m : SE Exec E A) (k : A → SE Exec E B) :
  silent m → (∀ a, silent (k a)) → silent (m ≫= k).
Proof.
  intros Hm Hk x. destruct (Hm x) as (a & x1 & Hx & H0 & H1 & H2 & H3).
  destruct (Hk a x1) as (b & x2 & Hb & H4 & H5 & H6 & H7).
  exists b, x2. unfold mbind, SE_bind. rewrite Hx, Hb. split_and!; [done|auto|congruence..].
Qed.
Lemma silent_observe {E} : silent (observe (E := E) (Sink := Sink)).
Proof. intros x. by eexists _, _. Qed.
Lemma silent_get {E} : silent (get (E := E) (Sink := Sink)).
Proof. intros x. by eexists _, _. Qed.
Lemma silent_diagnostics {E} l : silent (update_state (E := E) (Sink := Sink) (push_diagnostics l)).
Proof. intros x. by eexists _, _. Qed.
Lemma silent_observation {E} o : silent (update_state (E := E) (Sink := Sink) (set_observation o)).
Proof. intros x. by eexists _, _. Qed.
Lemma silent_consume {E} run : silent (update_remaining (E := E) (Sink := Sink) (consume run)).
Proof.
  intros x. eexists _, _. split_and!; [reflexivity| |done..]. intros _. unfold spare, consume, u64_saturating_sub. cbn. lia.
Qed.
Lemma silent_sink {E} s : silent (set_sink (E := E) (Sink := Sink) s).
Proof. intros x. by eexists _, _. Qed.
Lemma silent_observing {E A} f : silent (observing (E := E) (A := A) (Sink := Sink) f).
Proof.
  unfold observing. apply silent_bind; [apply silent_observe|]. intros w. apply silent_bind; [apply silent_get|].
  intros x. destruct (f w _). apply silent_bind; [apply silent_observation|]. intros _. apply silent_ret.
Qed.
Lemma silent_observed {E} f : silent (observed (E := E) (Sink := Sink) f).
Proof. apply silent_observing. Qed.
Lemma silent_if {E A} (c : bool) (m n : SE Exec E A) : silent m → silent n → silent (if c then m else n).
Proof. by destruct c. Qed.
Lemma triple_push_attempt {E} a (φ : Core) (R : E → Exec → Prop) :
  triple (holds (λ r as_ n, φ r (as_ ++ [a]) n)) (update_state (push_attempt a)) (λ _, holds φ) R.
Proof. intros x Hx. exact Hx. Qed.
Lemma triple_mark_invocation {E} (φ : Core) (R : E → Exec → Prop) :
  triple (holds φ) mark_invocation
    (λ value, holds (λ r as_ n, ∃ n0, φ r as_ n0 ∧ value = n ∧ n = Z.min (n0 + 1) u32_max)) R.
Proof. intros x [Hs Hx]. unfold mark_invocation, get, update_state, holds, mbind, SE_bind. cbn. eauto. Qed.
Lemma holds_ret {E A} (a : A) (φ : Core) (ψ : A → Core) (R : E → Exec → Prop) :
  (∀ r as_ n, φ r as_ n → ψ a r as_ n) → triple (holds φ) (mret a) (λ a, holds (ψ a)) R.
Proof. intros H. apply triple_ret. intros x [Hs Hx]. split; auto. Qed.
Lemma holds_weaken {E A} (φ φ' : Core) (m : SE Exec E A) Q R :
  triple (holds φ') m Q R → (∀ r as_ n, φ r as_ n → φ' r as_ n) → triple (holds φ) m Q R.
Proof. intros Hm H. eapply triple_conseq; [exact Hm|intros x [Hs Hx]; split; auto|done|done]. Qed.
Lemma holds_fact {E A} (φ : Core) (ψ : Prop) (m : SE Exec E A) Q R :
  (ψ → triple (holds φ) m Q R) → triple (holds (λ r as_ n, φ r as_ n ∧ ψ)) m Q R.
Proof. intros H x (Hs & Hx & Hψ). by apply (H Hψ). Qed.
Lemma triple_get {E A} (k : Exec → SE Exec E A) (φ : Core) Q R :
  (∀ x, spare (x_remaining x) → triple (holds φ) (k x) Q R) → triple (holds φ) (get ≫= k) Q R.
Proof. intros H x Hx. by apply (H x (proj1 Hx)). Qed.
(** Silent first steps of a computation. *)
Lemma triple_skip {E A B} (m : SE Exec E A) (k : A → SE Exec E B) φ Q R :
  silent m → (∀ a, triple (holds φ) (k a) Q R) → triple (holds φ) (m ≫= k) Q R.
Proof. intros Hm Hk. eapply triple_bind; [by apply triple_silent|]. exact Hk. Qed.
End core.
#[export] Hint Resolve silent_ret silent_observe silent_get silent_diagnostics silent_observation silent_consume
  silent_sink silent_observing silent_observed silent_if : exec.
#[export] Hint Extern 5 (silent (_ ≫= _)) => (apply silent_bind; [|intros ?]) : exec.
Ltac skip := eapply triple_skip; [by auto with exec|intros ?].

(** ** Reviews *)
Section reviews.
Context {Sink : Type} (emit : SolveProgressEvent → Sink → Result OutputError unit * Sink).
Context (reviewer : ReviewCalls → string → BackendCandidate → CandidateReview).
Context (parent : SolveBudgetState).
Notation Exec := (Exec Sink).
(** Among [calls], the reviewer was asked about the candidate and gave the answer. *)
Definition reviewed (calls : ReviewCalls) (backend_id : string) (candidate : BackendCandidate)
    (answer : CandidateReview) : Prop :=
  ∃ before after, calls = before ++ (backend_id, candidate) :: after ∧ reviewer before backend_id candidate = answer.
Lemma reviewed_snoc calls call id c answer : reviewed calls id c answer → reviewed (calls ++ [call]) id c answer.
Proof using. intros (before & after & -> & H). exists before, (after ++ [call]). by rewrite <-app_assoc. Qed.
(** Facts about reviews that further reviews keep. *)
Definition lasting (φ : Core) : Prop := ∀ r as_ n call, φ r as_ n → φ (r ++ [call]) as_ n.
Lemma triple_review {E} id c (φ : Core) (R : E → Exec → Prop) :
  lasting φ →
  triple (holds φ) (review reviewer id c) (λ answer, holds (λ r as_ n, φ r as_ n ∧ reviewed r id c answer)) R.
Proof using.
  intros Hφ x [Hs Hx]. unfold review, holds in *. cbn. split; [done|]. split; [by apply Hφ|]. by exists (x_reviews x), [].
Qed.
Lemma silent_stopped {E} : silent (stopped_interruption parent (E := E) (Sink := Sink)).
Proof using. unfold stopped_interruption. auto with exec. Qed.
Lemma silent_mark_if_verified {E} answer : silent (mark_if_verified parent answer (E := E) (Sink := Sink)).
Proof using. unfold mark_if_verified. auto with exec. Qed.
Hint Resolve silent_stopped silent_mark_if_verified : exec.

(** The disposition of reviewed candidates: what it selects as verified was verified. *)
Record disposition_ok (calls : ReviewCalls) (backend_id : string) (candidates : list BackendCandidate)
    (outcome : option BackendSolveOutcome) (d : CandidateDisposition) : Prop := {
  do_status : cd_status d = StatusOptimal ∨ cd_status d = StatusFeasible ↔ cd_reason d = TrCandidateVerified;
  do_infeasible : cd_status d ≠ StatusInfeasible;
  do_verified : cd_reason d = TrCandidateVerified → ∃ c matches,
    cd_termination d = AtCandidateVerified ∧ cd_selected_candidate d = Some c ∧ c ∈ candidates ∧
    reviewed calls backend_id c (Verified matches) ∧
    (cd_status d = StatusOptimal → matches = true ∧ selected_optimal_candidate c candidates outcome = true)
}.
Lemma disposition_plain calls id candidates outcome d :
  cd_status d ∉ [StatusOptimal; StatusFeasible; StatusInfeasible] → cd_reason d ≠ TrCandidateVerified →
  disposition_ok calls id candidates outcome d.
Proof using.
  rewrite !not_elem_of_cons. intros (H1 & H2 & H3 & _) Hr. constructor; [|done|done]. tauto.
Qed.
Lemma disposition_verified calls id candidates outcome c matches :
  c ∈ candidates → reviewed calls id c (Verified matches) →
  disposition_ok calls id candidates outcome (verified c (matches && selected_optimal_candidate c candidates outcome)).
Proof using.
  intros Hc Hr. constructor; cbn.
  - destruct (matches && _); tauto.
  - by destruct (matches && _).
  - intros _. exists c, matches. split_and!; try done. destruct (matches && _) eqn:Ho; [|done]. intros _.
    by apply andb_prop in Ho.
Qed.
Lemma disposition_interrupted calls id candidates outcome reason :
  disposition_ok calls id candidates outcome (interrupted_review reason).
Proof using. apply disposition_plain; destruct reason; cbn; set_solver. Qed.
Lemma disposition_failed calls id candidates outcome termination :
  disposition_ok calls id candidates outcome (contract_failure termination).
Proof using. apply disposition_plain; cbn; set_solver. Qed.
Lemma disposition_awaiting calls id candidates outcome selected :
  disposition_ok calls id candidates outcome (awaiting selected).
Proof using. apply disposition_plain; cbn; set_solver. Qed.
Lemma disposition_quarantined calls id candidates outcome code :
  disposition_ok calls id candidates outcome (quarantined code).
Proof using. apply disposition_plain; cbn; set_solver. Qed.
Lemma disposition_exhausted calls id candidates outcome : disposition_ok calls id candidates outcome review_exhausted.
Proof using. apply disposition_plain; cbn; set_solver. Qed.
End reviews.
#[export] Hint Resolve silent_stopped silent_mark_if_verified : exec.
#[export] Hint Resolve disposition_interrupted disposition_failed disposition_awaiting disposition_quarantined
  disposition_exhausted : exec.

Section candidate_reviews.
Context {Sink : Type} (emit : SolveProgressEvent → Sink → Result OutputError unit * Sink).
Context (reviewer : ReviewCalls → string → BackendCandidate → CandidateReview).
Context (parent : SolveBudgetState).
Notation Exec := (Exec Sink).
Notation reviewed := (reviewed reviewer).
Notation disposition_ok := (disposition_ok reviewer).

Lemma review_candidates_spec {E} id all rest outcome (φ : Core) (R : E → Exec → Prop) :
  lasting φ → rest ⊆ all →
  triple (holds φ) (review_candidates reviewer parent id all rest outcome)
    (λ d, holds (λ r as_ n, φ r as_ n ∧ disposition_ok r id all outcome d)) R.
Proof using.
  intros Hφ. induction rest as [|c rest IH]; intros Hsub; cbn [review_candidates].
  - apply holds_ret. intros r as_ n Hx. split; auto with exec.
  - skip. destruct a as [reason|]; [apply holds_ret; intros r as_ n Hx; split; auto with exec|].
    eapply triple_bind; [by apply triple_review|]. intros answer. skip.
    destruct a as [reason|]; [apply holds_ret; intros r as_ n [Hx _]; split; auto with exec|].
    destruct answer as [|matches|code|reason|].
    + eapply holds_weaken; [apply IH; intros y Hy; apply Hsub; by constructor|by intros r as_ n []].
    + apply holds_ret. intros r as_ n [Hx Hr]. split; [done|]. apply disposition_verified; [apply Hsub; constructor|done].
    + apply holds_ret. intros r as_ n [Hx _]. split; auto with exec.
    + apply holds_ret. intros r as_ n [Hx _]. split; auto with exec.
    + apply holds_ret. intros r as_ n [Hx _]. split; auto with exec.
Qed.
(** A verified answer was given by the reviewer. *)
Definition answer_ok (r : ReviewCalls) (id : string) (c : BackendCandidate) (answer : CandidateReview) : Prop :=
  is_verified answer = true → reviewed r id c answer.
Lemma review_intermediate_spec {E} id c (φ : Core) (R : E → Exec → Prop) :
  lasting φ →
  triple (holds φ) (review_intermediate_candidate reviewer parent id c)
    (λ answer, holds (λ r as_ n, φ r as_ n ∧ answer_ok r id c answer)) R.
Proof using.
  intros Hφ. unfold review_intermediate_candidate. skip.
  destruct a as [reason|]; [apply holds_ret; intros r as_ n Hx; by split|].
  eapply triple_bind; [by apply triple_review|]. intros answer. skip. apply holds_ret. intros r as_ n [Hx Hr]. split; [exact Hx|intros _; exact Hr].
Qed.
Lemma review_terminal_spec {E} id c (φ : Core) (R : E → Exec → Prop) :
  lasting φ →
  triple (holds φ) (review_terminal_candidate reviewer parent id c)
    (λ answer, holds (λ r as_ n, φ r as_ n ∧ answer_ok r id c answer)) R.
Proof using.
  intros Hφ. unfold review_terminal_candidate. skip.
  destruct a as [reason|]; [apply holds_ret; intros r as_ n Hx; by split|].
  eapply triple_bind; [by apply triple_review|]. intros answer. skip. skip.
  destruct a0 as [reason|]; apply holds_ret; intros r as_ n [Hx Hr]; (split; [exact Hx|]); [done|intros _; exact Hr].
Qed.

(** ** Runs *)
Context (problem : PlanningProblem) (limits : SolverApiLimits).
Record run_ok (r : ReviewCalls) (id : string) (run : BackendRun) : Prop := {
  rk_candidates : candidates_ok problem limits (ru_candidates run);
  rk_early : ∀ early, ru_early_review run = Some early →
    ec_candidate early ∈ ru_candidates run ∧ answer_ok r id (ec_candidate early) (ec_review early)
}.
Record observed_ok (ob : ObservedOutput Sink) : Prop := {
  oo_sink : sink_ok problem limits (oo_output ob);
  oo_notified : ∀ notification, oo_pending ob = Some notification →
    cn_candidate notification ∈ bo_candidates (oo_output ob)
}.
Lemma emit_keeps_candidates {S} (e : SolveProgressEvent → S → Result OutputError unit * S) w event output :
  bo_candidates (emit_progress e w event output).2 = bo_candidates output.
Proof using.
  unfold emit_progress. destruct (budget_error w output).
  { unfold reject. by destruct (bo_contract_rejection output). }
  repeat (case_match; try done).
Qed.
Lemma submit_candidates {S} w1 w2 c (output : BoundedBackendOutput S) :
  match submit_candidate w1 w2 c output with
  | (Ok retained, output') => bo_candidates output' = bo_candidates output ++ [retained]
  | (Err _, output') => bo_candidates output' = bo_candidates output
  end.
Proof using.
  assert (∀ A error, bo_candidates (reject (A := A) error output).2 = bo_candidates output) as Hr
    by (intros; unfold reject; by destruct (bo_contract_rejection output)).
  unfold submit_candidate, reject in *. cbn in Hr. specialize (Hr unit).
  repeat (case_match; simplify_eq/=; try done; try (by apply (Hr OeCancelled))).
Qed.
Definition keeps_candidates (ob ob' : ObservedOutput Sink) : Prop :=
  ∀ c, c ∈ bo_candidates (oo_output ob) → c ∈ bo_candidates (oo_output ob').
Lemma observed_call_spec {E} call ob (φ : Core) (R : E → Exec → Prop) :
  observed_ok ob →
  triple (holds φ) (observed_call emit parent ob call)
    (λ ob', holds (λ r as_ n, φ r as_ n ∧ observed_ok ob' ∧ keeps_candidates ob ob')) R.
Proof using.
  intros [Hs Hn]. destruct call as [event|c]; unfold observed_call.
  - skip. apply holds_ret. intros r as_ n Hx. split; [done|]. split; [constructor; cbn|].
    + by apply emit_progress_ok.
    + rewrite emit_keeps_candidates. exact Hn.
    + intros c. cbn. by rewrite emit_keeps_candidates.
  - unfold observed_submit. skip. skip. pose proof (submit_candidate_ok problem limits a a0 c _ Hs) as Hok.
    pose proof (submit_candidates a a0 c (oo_output ob)) as Hc.
    destruct (submit_candidate a a0 c (oo_output ob)) as [[retained|error] output']; cbn in Hok, Hc.
    + skip. apply holds_ret. intros r as_ n Hx. split; [done|]. split; [constructor; cbn; [done|]|].
      * intros notification. rewrite Hc. destruct (oo_sender ob); [intros [= <-]; apply elem_of_app; right; by apply list_elem_of_singleton|].
        intros ?%Hn. apply elem_of_app. by left.
      * intros d Hd. cbn. rewrite Hc. apply elem_of_app. by left.
    + apply holds_ret. intros r as_ n Hx. split; [done|]. split; [constructor; cbn; [done|by rewrite Hc]|].
      intros d Hd. cbn. by rewrite Hc.
Qed.
Lemma observed_calls_spec {E} calls ob (φ : Core) (R : E → Exec → Prop) :
  observed_ok ob →
  triple (holds φ) (fold_m (observed_call emit parent) ob calls)
    (λ ob', holds (λ r as_ n, φ r as_ n ∧ observed_ok ob' ∧ keeps_candidates ob ob')) R.
Proof using.
  intros Hob. set (I := λ (_ : list BackendCall) ob',
    holds (λ r as_ n, φ r as_ n ∧ observed_ok ob' ∧ keeps_candidates ob ob') : Exec → Prop).
  eapply (triple_conseq _ (I [] ob) _ (I calls)); [|intros x [Hs Hx]; split; [exact Hs|split; [exact Hx|split; [exact Hob|intros c; exact id]]]|done|intros e x; exact id].
  apply triple_fold_m.
  intros done_ ob1 call x (Hs & Hx & Hok & Hk).
  pose proof (observed_call_spec (E := E) call ob1 φ R Hok x (conj Hs Hx)) as H. destruct (observed_call _ _ _ _ _) as [[ob2|e] x'].
  - destruct H as (H0 & H1 & H2 & H3). split_and!; [done..|]. intros c Hc. by apply H3, Hk.
  - done.
Qed.

(** The early review of a run, if there is one. *)
Definition early_ok (r : ReviewCalls) (id : string) (ob : ObservedOutput Sink) (early : option EarlyCandidateReview) :
    Prop :=
  ∀ e, early = Some e → ec_candidate e ∈ bo_candidates (oo_output ob) ∧ answer_ok r id (ec_candidate e) (ec_review e).
Lemma early_ok_keeps r id ob ob' early : keeps_candidates ob ob' → early_ok r id ob early → early_ok r id ob' early.
Proof using. intros Hk He e Hs. destruct (He e Hs). split; [by apply Hk|done]. Qed.
Lemma lasting_early id ob early φ : lasting φ → lasting (λ r as_ n, φ r as_ n ∧ early_ok r id ob early).
Proof using.
  intros Hφ r as_ n call [Hx He]. split; [by apply Hφ|]. intros e Hs. destruct (He e Hs) as [Hc Ha]. split; [done|].
  intros Hv. by apply reviewed_snoc, Ha.
Qed.
Lemma receive_notification_spec {E} id early ob (φ : Core) (R : E → Exec → Prop) :
  lasting φ → observed_ok ob →
  triple (holds (λ r as_ n, φ r as_ n ∧ early_ok r id ob early)) (receive_notification reviewer parent id early ob)
    (λ early', holds (λ r as_ n, φ r as_ n ∧ early_ok r id ob early')) R.
Proof using.
  intros Hφ [_ Hn]. unfold receive_notification. destruct early as [e|]; [by apply holds_ret|].
  destruct (oo_pending ob) as [notification|] eqn:Hp; [|by apply holds_ret].
  skip. skip. eapply triple_bind; [eapply holds_weaken; [apply review_intermediate_spec, Hφ|by intros r as_ n []]|].
  intros answer. skip. apply holds_ret. intros r as_ n [Hx Ha]. split; [done|]. intros e [= <-]. cbn. split; [by apply Hn|done].
Qed.
Lemma run_calls_spec {E} id collect b ob (φ : Core) (R : E → Exec → Prop) :
  lasting φ → observed_ok ob →
  triple (holds φ) (run_calls emit reviewer parent id collect b ob)
    (λ p, holds (λ r as_ n, φ r as_ n ∧ observed_ok p.1 ∧ early_ok r id p.1 p.2)) R.
Proof using.
  intros Hφ Hob. unfold run_calls. destruct collect.
  - eapply triple_bind; [by apply observed_calls_spec|]. intros ob1. apply holds_fact. intros [Hok1 _].
    eapply triple_bind; [eapply holds_weaken; [by apply (receive_notification_spec id None ob1 φ)|by split]|].
    intros early1. eapply triple_bind; [by apply observed_calls_spec|]. intros ob2. apply holds_fact. intros [Hok2 Hk].
    eapply triple_bind; [eapply holds_weaken; [by apply (receive_notification_spec id early1 ob2 φ)|]|].
    { intros r as_ n [Hx He]. split; [exact Hx|]. by eapply early_ok_keeps. }
    intros early2. apply holds_ret. intros r as_ n [? ?]. by split_and!.
  - eapply triple_bind; [by apply observed_calls_spec|]. intros ob1. apply holds_ret. intros r as_ n (? & ? & _).
    split_and!; [done|done|]. by intros e.
Qed.
Lemma silent_final_stop {E} first budget completion :
  silent (final_stop_reason first budget completion (E := E) (Sink := Sink)).
Proof using. unfold final_stop_reason. destruct first; auto with exec. Qed.
Hint Resolve silent_final_stop : exec.
Lemma run_backend_spec {E} behaviour id request index (φ : Core) (R : E → Exec → Prop) :
  lasting φ → Forall (Z.le 0) [max_candidates limits; max_candidate_assignments limits; max_progress_events limits;
                               max_diagnostic_lines limits] →
  triple (holds φ) (run_backend emit reviewer behaviour parent id problem request limits index)
    (λ run, holds (λ r as_ n, φ r as_ n ∧ match run with Ok run => run_ok r id run | Err _ => True end)) R.
Proof using.
  intros Hφ Hl. unfold run_backend. skip.
  destruct (BoundedBackendOutput_new problem _ _ limits) as [output|error] eqn:Hnew;
    [|apply holds_ret; intros r as_ n Hx; by split].
  eapply triple_bind; [apply run_calls_spec; [exact Hφ|]|].
  { constructor; cbn; [by eapply new_sink_nonneg|done]. }
  intros [ob early]. skip. skip. destruct (split_rejection _) as [first error].
  skip. apply holds_ret. intros r as_ n (Hx & [Hs _] & He). split; [exact Hx|]. constructor; cbn; [by apply Hs|exact He].
Qed.
End candidate_reviews.
#[export] Hint Resolve silent_final_stop : exec.

Lemma sequence_inj problem limits candidates c d :
  candidates_ok problem limits candidates → c ∈ candidates → d ∈ candidates → bc_sequence c = bc_sequence d → c = d.
Proof.
  intros Hc [i Hi]%list_elem_of_lookup [j Hj]%list_elem_of_lookup Hs.
  rewrite (co_numbered _ _ _ Hc _ _ Hi), (co_numbered _ _ _ Hc _ _ Hj) in Hs.
  assert (i = j) as -> by lia. congruence.
Qed.

(** ** Conclusions *)
Section conclusions.
Context {Sink : Type} (emit : SolveProgressEvent → Sink → Result OutputError unit * Sink).
Context (reviewer : ReviewCalls → string → BackendCandidate → CandidateReview).
Context (parent : SolveBudgetState) (problem : PlanningProblem).
Notation Exec := (Exec Sink).

(** A terminal that reports no result of a backend. *)
Definition plain (t : Terminal) : Prop :=
  tl_status t ∉ [StatusOptimal; StatusFeasible; StatusInfeasible] ∧ tl_reason t ≠ TrCandidateVerified.
(** The outcome passed the checks of a request for this problem and backend. *)
Definition outcome_validated (backend_id : string) (outcome : BackendSolveOutcome) (candidates : list BackendCandidate) :
    Prop :=
  ∃ w1 w2 request limits, sr_problem request = problem ∧ sr_backend_id request = backend_id ∧
    validate_outcome w1 w2 request outcome candidates limits = Ok tt.
(** The terminal of a dispatched attempt against its record and the reviewer's calls. *)
Record terminal_ok (r : ReviewCalls) (attempt : AttemptRecord) (t : Terminal) : Prop := {
  to_status : tl_status t = StatusOptimal ∨ tl_status t = StatusFeasible ↔ tl_reason t = TrCandidateVerified;
  to_infeasible : tl_status t = StatusInfeasible → ∃ outcome,
    ar_outcome attempt = Some outcome ∧ oc_termination outcome = InfeasibilityClaimed ∧
    ar_candidate_count attempt = 0 ∧ outcome_validated (ar_backend_id attempt) outcome [];
  to_verified : tl_reason t = TrCandidateVerified → ∃ c matches candidates,
    ar_termination attempt = AtCandidateVerified ∧ tl_selected_candidate t = Some c ∧ c ∈ candidates ∧
    (∃ limits, candidates_ok problem limits candidates) ∧
    reviewed reviewer r (ar_backend_id attempt) c (Verified matches) ∧
    (tl_status t = StatusOptimal → matches = true ∧ ∃ outcome, ar_outcome attempt = Some outcome ∧
       outcome_validated (ar_backend_id attempt) outcome candidates ∧
       selected_optimal_candidate c candidates (Some outcome) = true)
}.
Lemma plain_ok r attempt t : plain t → terminal_ok r attempt t.
Proof using.
  intros [Hs Hr]. rewrite !not_elem_of_cons in Hs. destruct Hs as (H1 & H2 & H3 & _). constructor; [tauto|done|done].
Qed.
Lemma plain_new status reason :
  status ∉ [StatusOptimal; StatusFeasible; StatusInfeasible] → reason ≠ TrCandidateVerified →
  plain (Terminal_new status reason).
Proof using. by split. Qed.
(** The record of a dispatched attempt. *)
Record attempt_ok (backend_id : string) (index : Z) (attempt : AttemptRecord) : Prop := {
  ao_id : ar_backend_id attempt = backend_id;
  ao_index : ar_invocation_index attempt = Some index;
  ao_report : ∃ report, ar_preflight_compatibility attempt = Some report ∧ compatible report = true;
  ao_fallback : ar_fallback_taken attempt = true →
    ar_fallback_eligible attempt = true ∧ ar_candidate_count attempt = 0 ∧
    ∀ outcome, ar_outcome attempt = Some outcome →
      oc_termination outcome ∈ [TerminationUnavailable; TerminationFailed; TimeLimit]
}.

Context (id : string) (request : SolveRequest) (index : Z) (report : CompatibilityReport).
Context (Hproblem : sr_problem request = problem) (Hid : sr_backend_id request = id).
Context (Hreport : compatible report = true).
Context (as0 : list AttemptRecord) (limits : SolverApiLimits).
Notation base := (AttemptBase_new id request index report).
Lemma attempt_final conclusion :
  ac_fallback_taken conclusion = false → attempt_ok id index (attempt_finish base conclusion).
Proof using Hreport. intros H. constructor; cbn; [done|done|eauto|by rewrite H]. Qed.
(** The state before the attempt is recorded, and the stop after it. *)
Definition before (ψ : ReviewCalls → Prop) : Core := λ r as_ n, as_ = as0 ∧ n = index ∧ ψ r.
Definition stopped (e : ExecutionStop) : Exec → Prop :=
  match e with
  | Panicked => λ _, True
  | Finish t => holds (λ r as_ n, ∃ attempt, as_ = as0 ++ [attempt] ∧ n = index ∧ attempt_ok id index attempt ∧
                         ar_fallback_taken attempt = false ∧ terminal_ok r attempt t)
  end.
Lemma conclude_spec {A} conclusion t (ψ : ReviewCalls → Prop) (Q : A → Exec → Prop) :
  ac_fallback_taken conclusion = false → (∀ r, ψ r → terminal_ok r (attempt_finish base conclusion) t) →
  triple (holds (before ψ)) (update_state (push_attempt (attempt_finish base conclusion)) ≫= λ _, finish t) Q stopped.
Proof using Hreport.
  intros Hf Ht x (Hs & Ha & Hn & Hψ). unfold finish, se_fail, mbind, SE_bind. cbn. split; [exact Hs|].
  exists (attempt_finish base conclusion). rewrite <-Ha. split_and!; [done|exact Hn|by apply attempt_final|exact Hf|by apply Ht].
Qed.
Lemma output_rejection_spec {A} error ψ (Q : A → Exec → Prop) :
  triple (holds (before ψ)) (record_output_rejection base error) Q stopped.
Proof using Hreport.
  unfold record_output_rejection. skip. apply conclude_spec; [done|]. intros r _.
  apply plain_ok, plain_new; set_solver.
Qed.
Lemma output_error_spec run collect error ψ (Q : unit → Exec → Prop) :
  triple (holds (before ψ)) (finish_output_error base run collect error) Q stopped.
Proof using Hreport.
  unfold finish_output_error. destruct (_ || _); [apply output_rejection_spec|]. skip.
  apply conclude_spec; [done|]. intros r _. apply plain_ok, plain_new; set_solver.
Qed.
Lemma silent_check_outcome outcome candidates : silent (Sink := Sink) (check_outcome request outcome candidates limits).
Proof using. unfold check_outcome. auto with exec. Qed.
Lemma check_outcome_spec outcome candidates ψ :
  triple (holds (before ψ)) (check_outcome request outcome candidates limits)
    (λ checked, holds (λ r as_ n, before ψ r as_ n ∧ (checked = Ok tt → outcome_validated id outcome candidates)))
    stopped.
Proof using Hproblem Hid.
  unfold check_outcome. skip. skip. apply holds_ret. intros r as_ n Hx. split; [exact Hx|].
  intros Hv. by eexists _, _, request, limits.
Qed.
Notation run_ok := (run_ok reviewer problem limits).
Lemma lasting_run run : lasting (before (λ r, run_ok r id run)).
Proof using.
  intros r as_ n call (Ha & Hn & [Hc He]). split_and!; [done..|]. constructor; [done|]. intros early Hs.
  destruct (He early Hs) as [Hin Hans]. split; [done|]. intros Hv. by apply reviewed_snoc, Hans.
Qed.
(** A disposition with its outcome, as the terminal of the attempt. *)
Definition concluded (run : BackendRun) (r : ReviewCalls) (p : CandidateDisposition * option BackendSolveOutcome) : Prop :=
  run_ok r id run ∧ disposition_ok reviewer r id (ru_candidates run) p.2 p.1 ∧
  (∀ outcome, p.2 = Some outcome → outcome_validated id outcome (ru_candidates run)).
Lemma concluded_ret run d v (R : ExecutionStop → Exec → Prop) :
  (∀ r, run_ok r id run → disposition_ok reviewer r id (ru_candidates run) v d) →
  (∀ outcome, v = Some outcome → outcome_validated id outcome (ru_candidates run)) →
  triple (holds (before (λ r, run_ok r id run))) (mret (d, v)) (λ p, holds (before (λ r, concluded run r p))) R.
Proof using. intros Hd Hv. apply holds_ret. intros r as_ n (-> & -> & Hr). split_and!; [done..|]. split_and!; auto. Qed.
Lemma final_candidates_spec run :
  triple (holds (before (λ r, run_ok r id run)))
    (finish_final_candidates reviewer parent id run request limits)
    (λ p, holds (before (λ r, concluded run r p))) stopped.
Proof using Hproblem Hid.
  unfold finish_final_candidates.
  assert (∀ outcome, (∀ o, outcome = Some o → outcome_validated id o (ru_candidates run)) →
    triple (holds (before (λ r, run_ok r id run)))
      (d ← review_candidates reviewer parent id (ru_candidates run) (ru_candidates run) outcome;
       mret (d, outcome)) (λ p, holds (before (λ r, concluded run r p))) stopped) as Hreview.
  { intros outcome Ho. eapply triple_bind; [apply review_candidates_spec; [apply lasting_run|done]|].
    intros d. apply holds_ret. intros r as_ n [(-> & -> & Hr) Hd]. by split_and!. }
  case_bool_decide; [by apply Hreview|]. destruct (ru_completion run) as [[outcome|error]|]; [|by apply Hreview..].
  eapply triple_bind; [apply check_outcome_spec|]. intros checked. apply holds_fact. intros Hv.
  destruct checked as [[]|error].
  - apply Hreview. intros o [= <-]. auto.
  - apply concluded_ret; [|done]. intros. apply disposition_failed.
Qed.
(** *** Candidates reviewed while the backend ran *)
Lemma intermediate_outcome_spec run ψ :
  triple (holds (before ψ)) (intermediate_outcome run request limits)
    (λ o, holds (λ r as_ n, before ψ r as_ n ∧
       match o with
       | inl d => ∃ termination, d = contract_failure termination
       | inr v => ∀ outcome, v = Some outcome → outcome_validated id outcome (ru_candidates run)
       end)) stopped.
Proof using Hproblem Hid.
  unfold intermediate_outcome. case_bool_decide; [by apply holds_ret|].
  destruct (ru_completion run) as [[outcome|error]|]; [|case_bool_decide; apply holds_ret; eauto|by apply holds_ret].
  { eapply triple_bind; [apply check_outcome_spec|]. intros checked. apply holds_fact. intros Hv.
    destruct checked as [[]|error]; apply holds_ret; [|eauto]. intros r as_ n Hx. split; [done|].
    intros o [= <-]. by apply Hv. }
  intros r as_ n Hx. by split.
Qed.
Lemma terminal_review_spec run terminal :
  terminal ∈ ru_candidates run →
  triple (holds (before (λ r, run_ok r id run))) (terminal_review reviewer parent id run terminal)
    (λ answer, holds (λ r as_ n, before (λ r, run_ok r id run) r as_ n ∧ answer_ok reviewer r id terminal answer)) stopped.
Proof using.
  intros Hin. unfold terminal_review. destruct (ru_early_review run) as [early|] eqn:He;
    [|apply review_terminal_spec, lasting_run].
  destruct (_ || _) eqn:Hc; [|apply review_terminal_spec, lasting_run].
  apply holds_ret. intros r as_ n Hx. split; [done|]. destruct Hx as (_ & _ & [Hk Hr]).
  destruct (Hr early He) as [Hearly Hans]. apply orb_prop in Hc as [Hf|Hs%Z.eqb_eq].
  - intros Hv. by destruct (ec_review early).
  - by rewrite <-(sequence_inj _ _ _ _ _ Hk Hearly Hin Hs).
Qed.
Lemma terminal_disposition_ok r run terminal answer v :
  run_ok r id run → last (ru_candidates run) = Some terminal → answer_ok reviewer r id terminal answer →
  disposition_ok reviewer r id (ru_candidates run) v
    (terminal_disposition terminal (ru_candidates run) answer (ru_early_review run) v).
Proof using.
  intros [_ He] Hl Ha. assert (terminal ∈ ru_candidates run) as Hin by (by apply last_Some_elem_of).
  destruct answer as [|matches|code|reason|]; cbn [terminal_disposition].
  - destruct (ru_early_review run) as [early|]; [|apply disposition_awaiting].
    destruct (He early eq_refl) as [Hearly Hans].
    destruct (ec_review early) as [|matches| | |] eqn:Hr; cbn [is_verified]; try apply disposition_awaiting.
    constructor; cbn; [tauto|done|]. intros _. exists (ec_candidate early), matches. split_and!; try done. by apply Hans.
  - apply disposition_verified; [done|]. by apply Ha.
  - apply disposition_quarantined.
  - apply disposition_interrupted.
  - apply disposition_exhausted.
Qed.
Lemma intermediate_candidate_spec run :
  triple (holds (before (λ r, run_ok r id run)))
    (finish_intermediate_candidate reviewer parent id run request limits)
    (λ p, holds (before (λ r, concluded run r p))) stopped.
Proof using Hproblem Hid.
  unfold finish_intermediate_candidate. eapply triple_bind; [apply intermediate_outcome_spec|]. intros o.
  apply holds_fact. intros Ho. destruct o as [d|v].
  { destruct Ho as [termination ->]. apply concluded_ret; [|done]. intros. apply disposition_failed. }
  destruct (last (ru_candidates run)) as [terminal|] eqn:Hl.
  - eapply triple_bind; [apply terminal_review_spec; by apply last_Some_elem_of|]. intros answer.
    apply holds_ret. intros r as_ n [(-> & -> & Hr) Ha]. split_and!; try done. split_and!; [done|by apply terminal_disposition_ok|done].
  - apply concluded_ret; [|done]. intros. apply disposition_failed.
Qed.

(** *** The two ways an attempt with a run ends *)
Lemma concluded_terminal run conclusion r p :
  concluded run r p → ac_outcome conclusion = p.2 → ac_termination conclusion = cd_termination p.1 →
  terminal_ok r (attempt_finish base conclusion)
    {| tl_status := cd_status p.1; tl_reason := cd_reason p.1; tl_selected_candidate := cd_selected_candidate p.1 |}.
Proof using.
  intros ([Hk _] & [H1 H2 H3] & Hv) Hout Hterm. constructor; cbn; [done|by intros ?%H2|].
  intros (c & matches & Ht & Hsel & Hin & Hrev & Hopt)%H3. exists c, matches, (ru_candidates run).
  rewrite Hterm, Hout. split_and!; try done; [by exists limits|]. intros [Hm Hso]%Hopt. split; [done|].
  destruct p.2 as [outcome|] eqn:Hp; [|done]. exists outcome. split_and!; [done|by apply Hv|done].
Qed.
Lemma candidate_attempt_spec {A} run (Q : A → Exec → Prop) :
  triple (holds (before (λ r, run_ok r id run)))
    (terminal ← finish_candidate_attempt reviewer parent base run request limits; finish terminal) Q stopped.
Proof using Hproblem Hid Hreport.
  eapply (triple_bind _ _ _ (λ t, stopped (Finish t))); [|intros t; apply triple_fail; auto].
  unfold finish_candidate_attempt.
  eapply (triple_bind _ _ _ (λ p, holds (before (λ r, concluded run r p)))).
  { destruct (so_collect_intermediate_solutions _); [apply intermediate_candidate_spec|apply final_candidates_spec]. }
  intros [d v]. skip. intros x (Hs & Ha & Hn & Hc). cbn. split; [exact Hs|]. rewrite <-Ha.
  eexists. split_and!; [reflexivity|exact Hn|by apply attempt_final|done|].
  by apply (concluded_terminal run _ _ (d, v)).
Qed.
(** An attempt without candidates, by what it concludes. *)
Definition empty_ok (p : AttemptTermination * SolveStatus * ExecutionTerminalReason * bool * option BackendSolveOutcome) :
    Prop :=
  let '(termination, status, reason, eligible, v) := p in
  status ∉ [StatusOptimal; StatusFeasible] ∧ reason ≠ TrCandidateVerified ∧
  (status = StatusInfeasible → ∃ outcome, v = Some outcome ∧ oc_termination outcome = InfeasibilityClaimed) ∧
  (∀ outcome, v = Some outcome → outcome_validated id outcome [] ∧
     (eligible = true → oc_termination outcome ∈ [TerminationUnavailable; TerminationFailed; TimeLimit])).
Lemma terminal_from_outcome_ok outcome : outcome_validated id outcome [] → empty_ok (terminal_from_outcome outcome, Some outcome).
Proof using.
  intros Hv. unfold terminal_from_outcome, conclusive_status_without_candidate. cbn [empty_ok]. split_and!.
  - destruct (oc_termination outcome); cbn; not_listed.
  - by repeat case_bool_decide.
  - intros Hs. exists outcome. split; [done|]. by destruct (oc_termination outcome).
  - intros o [= <-]. split; [exact Hv|]. by intros H%bool_decide_eq_true.
Qed.
Lemma empty_conclusion_spec run :
  ru_candidates run = [] →
  triple (holds (before (λ _, True))) (empty_conclusion run request limits)
    (λ p, holds (λ r as_ n, before (λ _, True) r as_ n ∧ empty_ok p)) stopped.
Proof using Hproblem Hid.
  intros Hnil. unfold empty_conclusion.
  assert (∀ termination status reason, status ∉ [StatusOptimal; StatusFeasible; StatusInfeasible] →
    reason ≠ TrCandidateVerified → empty_ok (termination, status, reason, true, None)) as Hplain.
  { intros termination status reason Hs Hr. rewrite !not_elem_of_cons in Hs. destruct Hs as (H1 & H2 & H3 & _).
    unfold empty_ok. rewrite !not_elem_of_cons. split_and!; try done. apply not_elem_of_nil. }
  assert (StatusNoSolutionWithinLimit ∉ [StatusOptimal; StatusFeasible; StatusInfeasible] ∧
          StatusBackendFailed ∉ [StatusOptimal; StatusFeasible; StatusInfeasible]) as [Hno Hfail]
    by (split; not_listed).
  case_bool_decide; [apply holds_ret; intros r as_ n Hx; split; [done|by apply Hplain]|].
  destruct (ru_completion run) as [[outcome|error]|].
  - rewrite Hnil. eapply triple_bind; [apply check_outcome_spec|]. intros checked. apply holds_fact. intros Hv.
    destruct checked as [[]|error]; apply holds_ret; intros r as_ n Hx; (split; [done|]); [|by apply Hplain].
    apply terminal_from_outcome_ok. by apply Hv.
  - apply holds_ret; intros r as_ n Hx; split; [done|by apply Hplain].
  - by apply triple_fail.
Qed.
(** The attempt is recorded and the next backend follows. *)
Definition continued (position order_len : nat) : Exec → Prop :=
  holds (λ r as_ n, ∃ attempt, as_ = as0 ++ [attempt] ∧ n = index ∧ attempt_ok id index attempt ∧
           ar_fallback_taken attempt = true ∧ (position + 1 < order_len)%nat).
Lemma empty_attempt_spec run position order_len :
  ru_candidates run = [] →
  triple (holds (before (λ _, True))) (finish_empty_attempt parent base run request limits position order_len)
    (λ _, continued position order_len) stopped.
Proof using Hproblem Hid Hreport.
  intros Hnil. unfold finish_empty_attempt. eapply triple_bind; [by apply empty_conclusion_spec|].
  intros [[[[termination status] reason] eligible] v]. apply holds_fact. intros (Hs & Hr & Hinf & Hout). skip.
  intros x (Hsp & Ha & Hn & _). cbn -[AttemptBase_new]. unfold mbind, SE_bind. cbn -[AttemptBase_new].
  set (taken := _ && negb _). destruct taken eqn:Ht; cbn -[AttemptBase_new]; (split; [exact Hsp|]).
  - unfold taken in Ht. rewrite !andb_true_iff in Ht. destruct Ht as [[[[[Hel _] Hpos] _] _] _].
    apply Nat.ltb_lt in Hpos. eexists. rewrite <-Ha. split_and!; [reflexivity|exact Hn| |done|exact Hpos].
    constructor; cbn; [done|done|eauto|]. intros _. split_and!; [done|done|]. intros o Ho. by apply (Hout o).
  - eexists. rewrite <-Ha. split_and!; [reflexivity|exact Hn|by apply attempt_final|done|].
    rewrite !not_elem_of_cons in Hs. destruct Hs as (H1 & H2 & _). constructor; cbn; [tauto| |done].
    intros (o & -> & Ho)%Hinf. exists o. split_and!; try done. by apply Hout.
Qed.
Lemma conclude_run_spec run position order_len :
  triple (holds (before (λ r, run_ok r id run)))
    (conclude_run reviewer parent limits base request run position order_len)
    (λ _, continued position order_len) stopped.
Proof using Hproblem Hid Hreport.
  unfold conclude_run. skip. skip.
  assert (∀ w t, stopped_after_backend w (sr_dispatch_budget request) = Some t → plain t.2) as Hplain.
  { intros w t. unfold stopped_after_backend. destruct (stop_reason _ _) as [[]|]; try done; intros [= <-]; apply plain_new; try done; not_listed. }
  destruct (stopped_after_backend _ _) as [[termination terminal]|] eqn:Ht.
  - apply conclude_spec; [done|]. intros r _. apply plain_ok. by apply Hplain in Ht.
  - destruct (ru_output_error run); [apply output_error_spec|]. case_bool_decide as Hnil; [|apply candidate_attempt_spec].
    eapply holds_weaken; [by apply empty_attempt_spec|]. by intros r as_ n (? & ? & _).
Qed.
End conclusions.
