(* ===== verification/RoutedExecution.v ===== *)
(** * The attempts of a routed execution and its result

    Composes the specifications of [ExecutionFacts] over the backends of a routing decision: which
    attempts are recorded, in what order, and what the result of the execution guarantees. *)
From stdpp Require Import base tactics list gmap strings.
From Stdlib Require Import ZArith Lia Ascii.
From S2P Require Import Prelude Ordering Control Budget Ids DomainIr Model Analysis Validation Admission Canonical.
From S2P Require Import Projection Evaluator EvaluatorFacts SolverApi SolverApiFacts Support Preflight PreflightFacts.
From S2P Require Import Router Execution RouterFacts ExecutionFacts.
Open Scope string_scope.
Open Scope list_scope.
Open Scope Z_scope.

(** ** One attempt *)
Section attempts.
Context {Sink : Type} (emit : SolveProgressEvent → Sink → Result OutputError unit * Sink).
Context (reviewer : ReviewCalls → string → BackendCandidate → CandidateReview).
Context (behaviour : Z → BackendBehaviour) (parent : SolveBudgetState).
Context (blake3_hex : list Z → string) (serialize_problem : PlanningProblem → Bytes).
Context (serialize_view : CanonicalHashProblem → Bytes) (serialize_options : SolveOptions → option (list Z)).
Context (preparation : nat → nat * (nat → World)).
Context (registry : SolverRegistry) (problem : PlanningProblem) (acceptance_reserve : Z).
Notation Exec := (Exec Sink).
Notation terminal_ok := (terminal_ok reviewer problem).

(** An attempt whose preflight refused the request: no backend ran. *)
Record refused (id : string) (a : AttemptRecord) : Prop := {
  rf_id : ar_backend_id a = id;
  rf_index : ar_invocation_index a = None;
  rf_termination : ∃ error, ar_termination a = AtPreflightRejected (preflight_code error);
  rf_fallback : ar_fallback_taken a = false
}.
Definition next (n : Z) : Z := Z.min (n + 1) u32_max.
(** The three ways an attempt of backend [id] ends an execution that has recorded [as0]. *)
Definition attempt_stopped (id : string) (as0 : list AttemptRecord) (n0 : Z) (t : Terminal) : Core := λ r as_ n,
  (as_ = as0 ∧ n = n0 ∧ plain t) ∨
  (∃ a, as_ = as0 ++ [a] ∧ n = n0 ∧ refused id a ∧ plain t) ∨
  (∃ a, as_ = as0 ++ [a] ∧ n = next n0 ∧ attempt_ok id n a ∧ ar_fallback_taken a = false ∧ terminal_ok r a t).
Definition on_stop (φ : Terminal → Core) (e : ExecutionStop) : Exec → Prop :=
  match e with Panicked => λ _, True | Finish t => holds (φ t) end.
Definition at_ (as0 : list AttemptRecord) (n0 : Z) : Core := λ r as_ n, as_ = as0 ∧ n = n0.
Lemma finish_plain {A} id as0 n0 t (Q : A → Exec → Prop) :
  plain t → triple (holds (at_ as0 n0)) (finish t) Q (on_stop (attempt_stopped id as0 n0)).
Proof using. intros Ht. apply triple_fail. intros x (Hs & Ha & Hn). split; [exact Hs|]. by left. Qed.
Lemma pre_attempt_spec id as0 n0 :
  triple (holds (at_ as0 n0)) (pre_attempt_terminal parent) (λ _, holds (at_ as0 n0))
    (on_stop (attempt_stopped id as0 n0)).
Proof using.
  unfold pre_attempt_terminal. skip. skip.
  repeat case_match; [apply finish_plain; split; [not_listed|done]..|by apply holds_ret].
Qed.
Lemma dispatch_guard_spec id as0 n0 budget :
  triple (holds (at_ as0 n0)) (dispatch_guard budget) (λ _, holds (at_ as0 n0))
    (on_stop (attempt_stopped id as0 n0)).
Proof using.
  unfold dispatch_guard. skip. destruct (pre_dispatch_terminal _ _) as [[t ds]|] eqn:Ht; [|by apply holds_ret].
  skip. apply finish_plain. unfold pre_dispatch_terminal in Ht.
  destruct (stop_reason _ _) as [[]|]; try done; injection Ht as <- <-; split; try done; not_listed.
Qed.
Lemma preflight_Ok worlds matrix descriptor request report :
  preflight blake3_hex serialize_problem serialize_view worlds matrix descriptor request = Some (Ok report) →
  compatible report = true.
Proof using.
  unfold preflight. destruct (preflight_guards _ _ _ _); [|done]. destruct (sr_summary_of request); [|done].
  cbn [mbind option_bind]. intros [= H]. repeat (apply result_bind_Ok in H as (? & _ & H)).
  destruct (compatible _) eqn:Hc; [|done]. by injection H as <-.
Qed.
Lemma preflight_or_reject_spec id as0 n0 backend request position :
  triple (holds (at_ as0 n0))
    (preflight_or_reject blake3_hex serialize_problem serialize_view preparation registry id backend request position)
    (λ report, holds (λ r as_ n, at_ as0 n0 r as_ n ∧ compatible report = true))
    (on_stop (attempt_stopped id as0 n0)).
Proof using.
  unfold preflight_or_reject. skip. skip.
  destruct (preflight _ _ _ _ _ _ _) as [[report|error]|] eqn:Hp; [| |by apply triple_fail].
  - apply holds_ret. intros r as_ n Hx. split; [done|]. by eapply preflight_Ok.
  - destruct (preflight_terminal error) as [status reason] eqn:Ht.
    intros x (Hs & Ha & Hn). cbn. split; [exact Hs|]. right. left. eexists. rewrite <-Ha.
    split_and!; [reflexivity|exact Hn|constructor; cbn; [done|done|eauto|done]|].
    destruct error; injection Ht as <- <-; split; try done; not_listed.
Qed.
Lemma solve_request_for w id backend summary options profile request :
  solve_request parent blake3_hex serialize_options problem acceptance_reserve w id backend summary options profile
    = Some request → sr_problem request = problem ∧ sr_backend_id request = id.
Proof using.
  unfold solve_request, SolveRequest_new, SolveRequest_construct. intros (o & _ & [= <-])%bind_Some. done.
Qed.
Definition attempt_continued (id : string) (as0 : list AttemptRecord) (n0 : Z) (position order_len : nat) : Core :=
  λ r as_ n, ∃ a, as_ = as0 ++ [a] ∧ n = next n0 ∧ attempt_ok id n a ∧ ar_fallback_taken a = true ∧
    (position + 1 < order_len)%nat.
Lemma run_attempt_spec limits summary id position order_len as0 n0 :
  triple (holds (at_ as0 n0))
    (run_attempt emit reviewer behaviour parent blake3_hex serialize_problem serialize_view serialize_options
       preparation registry problem acceptance_reserve limits summary id position order_len)
    (λ _, holds (attempt_continued id as0 n0 position order_len)) (on_stop (attempt_stopped id as0 n0)).
Proof using.
  unfold run_attempt. eapply triple_bind; [apply pre_attempt_spec|]. intros [].
  destruct (registry_get registry id) as [backend|]; [|skip; apply finish_plain; split; [not_listed|done]].
  skip. skip. destruct (solve_request _ _ _ _ _ _ _ _ _ _ _) as [request|] eqn:Hrequest;
    [|skip; apply finish_plain; split; [not_listed|done]].
  apply solve_request_for in Hrequest as [Hproblem Hid].
  eapply triple_bind; [apply dispatch_guard_spec|]. intros [].
  eapply triple_bind; [apply preflight_or_reject_spec|]. intros report. apply holds_fact. intros Hreport.
  eapply triple_bind; [apply dispatch_guard_spec|]. intros [].
  eapply triple_bind; [apply triple_mark_invocation|]. intros index.
  eapply (holds_weaken _ (λ r as_ n, before index as0 (λ _, True) r as_ n ∧ index = next n0));
    [|intros r as_ n (n1 & [-> ->] & -> & ->); by split_and!].
  apply holds_fact. intros ->. apply triple_get. intros x Hspare.
  eapply (triple_conseq _ _ _ (λ _, continued id (next n0) as0 position order_len)
    _ (stopped reviewer problem id (next n0) as0)); [|done| |].
  - skip. eapply triple_bind; [apply (run_backend_spec emit reviewer parent problem); [by intros r as_ n call (? & ? & _)|]|].
    { destruct Hspare as (? & ? & ? & ?). by repeat constructor. }
    intros [run|error]; skip; [|apply holds_fact; intros _; by apply output_rejection_spec].
    eapply holds_weaken; [by apply conclude_run_spec|]. intros r as_ n [(-> & -> & _) Hr]. by split_and!.
  - intros _ s (Hs & a' & Ha & Hn & H). split; [done|]. exists a'. by rewrite Hn.
  - intros [t|] s; [|done]. intros (Hs & a' & Ha & Hn & H). split; [done|]. right. right. exists a'. by rewrite Hn.
Qed.

(** ** All attempts *)
Lemma holds_fix {E A} (φ : Core) (m : SE Exec E A) Q R :
  (∀ r as0 n0, φ r as0 n0 → triple (holds (at_ as0 n0)) m Q R) → triple (holds φ) m Q R.
Proof using. intros H x [Hs Hx]. by apply (H _ _ _ Hx). Qed.
Definition counted (i : nat) : Z := Z.min (Z.of_nat i) u32_max.
Lemma next_counted i : next (counted i) = counted (S i).
Proof using. unfold next, counted. lia. Qed.
(** The attempts that were followed by a fallback: one per backend of a proper prefix of the order. *)
Definition tried (order : list string) (as_ : list AttemptRecord) : Prop :=
  ∀ i a, as_ !! i = Some a → ∃ id, order !! i = Some id ∧ attempt_ok id (counted (S i)) a ∧
    ar_fallback_taken a = true ∧ (S i < length order)%nat.
Lemma tried_snoc order as_ id a :
  tried order as_ → order !! length as_ = Some id → attempt_ok id (counted (S (length as_))) a →
  ar_fallback_taken a = true → (S (length as_) < length order)%nat → tried order (as_ ++ [a]).
Proof using.
  intros Ht Ho Ha Hf Hl i b [Hi|[Hi Hb]]%lookup_app_Some; [by apply Ht|].
  apply list_lookup_singleton_Some in Hb as [Hb <-]. replace i with (length as_) by lia. eauto.
Qed.
Definition finished (order : list string) (t : Terminal) : Core := λ r as_ n, ∃ done_ id,
  tried order done_ ∧ order !! length done_ = Some id ∧
  attempt_stopped id done_ (counted (length done_)) t r as_ n.
Lemma run_attempts_spec limits summary order rest : ∀ pre,
  order = pre ++ rest →
  triple (holds (λ r as_ n, tried order as_ ∧ length as_ = length pre ∧ n = counted (length pre)))
    (run_attempts emit reviewer behaviour parent blake3_hex serialize_problem serialize_view serialize_options
       preparation registry problem acceptance_reserve limits summary (length pre) (length order) rest)
    (λ _, holds (λ r as_ n, tried order as_ ∧ length as_ = length order ∧ n = counted (length order)))
    (on_stop (finished order)).
Proof using.
  induction rest as [|id rest IH]; intros pre Horder; cbn [run_attempts].
  - apply holds_ret. intros r as_ n (Ht & Hl & Hn). subst order. rewrite app_nil_r in *. by split_and!.
  - apply holds_fix. intros _ as0 n0 (Ht & Hl & ->).
    assert (order !! length as0 = Some id) as Hid by (rewrite Horder, Hl; by apply list_lookup_middle).
    eapply triple_bind.
    + eapply triple_conseq; [apply run_attempt_spec|done|intros u x Hx; exact Hx|].
      intros [t|] x; [|done]. intros [Hs Hx]. split; [exact Hs|]. exists as0, id. split_and!; [done|done|by rewrite Hl].
    + intros []. replace (S (length pre)) with (length (pre ++ [id])) by (rewrite length_app; cbn; lia).
      eapply holds_weaken; [apply IH; by rewrite Horder, <-app_assoc|].
      intros r as_ n (a & -> & -> & Ha & Hf & Hlen). rewrite next_counted in *. rewrite !length_app. cbn [length].
      rewrite Hl, Nat.add_1_r. split_and!; [|done|done].
      eapply tried_snoc; rewrite ?Hl; [exact Ht|by rewrite <-Hl|exact Ha|exact Hf|lia].
Qed.
End attempts.

(** ** The decision and the options are fixed *)
Section frame.
Context {Sink : Type} (emit : SolveProgressEvent → Sink → Result OutputError unit * Sink).
Context (reviewer : ReviewCalls → string → BackendCandidate → CandidateReview).
Context (behaviour : Z → BackendBehaviour) (parent : SolveBudgetState).
Notation Exec := (Exec Sink).
Definition frame (x : Exec) : RoutingDecision * SolveOptions :=
  (es_decision (x_state x), es_solve_options (x_state x)).
Definition keeps {E A} (m : SE Exec E A) : Prop := ∀ x, frame (m x).2 = frame x.
Lemma keeps_bind {E A B} (m : SE Exec E A) (k : A → SE Exec E B) : keeps m → (∀ a, keeps (k a)) → keeps (m ≫= k).
Proof using.
  intros Hm Hk x. unfold mbind, SE_bind. specialize (Hm x). destruct (m x) as [[a|e] x']; [|done].
  rewrite <-Hm. apply Hk.
Qed.
Lemma keeps_fold_m {E A B} (f : B → A → SE Exec E B) l : (∀ b a, keeps (f b a)) → ∀ b, keeps (fold_m f b l).
Proof using. intros Hf. induction l as [|a l IH]; intros b; [done|]. apply keeps_bind; [done|]. apply IH. Qed.
Lemma keeps_triple {E A} (m : SE Exec E A) P Q R x :
  keeps m → triple P m Q R → P x →
  match m x with (Ok a, x') => Q a x' ∧ frame x' = frame x | (Err e, x') => R e x' ∧ frame x' = frame x end.
Proof using. intros Hk Hm Hx. specialize (Hk x). specialize (Hm x Hx). destruct (m x) as [[a|e] x']; by split. Qed.
Ltac keep :=
  lazymatch goal with
  | |- keeps (_ ≫= _) => apply keeps_bind; [|intros ?]
  | |- keeps (fold_m _ _ _) => apply keeps_fold_m; intros ? ?
  | |- keeps (match ?c with _ => _ end) => destruct c
  | |- keeps (mret _) => by intros ?
  | |- keeps (se_fail _) => by intros ?
  | |- keeps (finish _) => by intros ?
  | |- keeps observe => by intros ?
  | |- keeps get => by intros ?
  | |- keeps (set_sink _) => by intros ?
  | |- keeps (update_remaining _) => by intros ?
  | |- keeps (update_state _) => by intros ?
  | |- keeps (review _ _ _) => by intros ?
  | |- keeps (let '(_, _) := ?p in _) => destruct p
  | |- keeps ?m => let h := head_of m in unfold h
  end.
Lemma keeps_review_candidates {E} id all rest outcome :
  keeps (review_candidates (E := E) (Sink := Sink) reviewer parent id all rest outcome).
Proof using. induction rest as [|c rest IH]; cbn [review_candidates]; repeat (exact IH || keep). Qed.
Lemma keeps_run_backend {E} id problem request limits index :
  keeps (run_backend (E := E) emit reviewer behaviour parent id problem request limits index).
Proof using. repeat keep. Qed.
Lemma keeps_candidate_attempt attempt run request limits :
  keeps (finish_candidate_attempt reviewer parent (Sink := Sink) attempt run request limits).
Proof using. unfold finish_candidate_attempt. repeat (apply keeps_review_candidates || keep). Qed.
Lemma keeps_conclude_run limits attempt request run position order_len :
  keeps (conclude_run reviewer parent (Sink := Sink) limits attempt request run position order_len).
Proof using. repeat (apply keeps_candidate_attempt || keep). Qed.
Context (blake3_hex : list Z → string) (serialize_problem : PlanningProblem → Bytes).
Context (serialize_view : CanonicalHashProblem → Bytes) (serialize_options : SolveOptions → option (list Z)).
Context (preparation : nat → nat * (nat → World)).
Context (registry : SolverRegistry) (problem : PlanningProblem) (acceptance_reserve : Z).
Lemma keeps_run_attempts limits summary order_len order : ∀ position,
  keeps (run_attempts emit reviewer behaviour parent blake3_hex serialize_problem serialize_view serialize_options
    preparation registry problem acceptance_reserve limits summary position order_len order).
Proof using.
  induction order as [|id order IH]; intros position; cbn [run_attempts]; [by intros ?|].
  apply keeps_bind; [|intros _; apply IH].
  unfold run_attempt. repeat (apply keeps_run_backend || apply keeps_conclude_run || keep).
Qed.
End frame.

(** ** The whole execution *)
Lemma optimal_selected problem limits c candidates outcome :
  candidates_ok problem limits candidates → c ∈ candidates →
  selected_optimal_candidate c candidates (Some outcome) = true →
  oc_termination outcome = OptimalityClaimed ∧ last candidates = Some c ∧
  ∃ objective, bc_objective c = Some objective ∧
    te_best_bound_values (oc_evidence outcome) = Some (objective_values objective).
Proof.
  intros Hk Hc. unfold selected_optimal_candidate. case_bool_decide as Ht; [|done]. cbn [negb orb].
  destruct (last candidates) as [final|] eqn:Hl; [|done]. destruct (Z.eqb_spec (bc_sequence final) (bc_sequence c)) as [Hs|]; [|done].
  cbn [negb]. destruct (bc_objective c) as [o|] eqn:Ho; [|done]. destruct (te_objective _) as [o'|]; [|done].
  intros [H1%bool_decide_eq_true H2%bool_decide_eq_true]%andb_prop. split; [done|]. split.
  - f_equal. eapply sequence_inj; [exact Hk|by apply last_Some_elem_of|done|done].
  - exists o. by rewrite H1.
Qed.
Section execution.
Context {Sink : Type} (emit : SolveProgressEvent → Sink → Result OutputError unit * Sink).
Context (reviewer : ReviewCalls → string → BackendCandidate → CandidateReview).
Context (behaviour : Z → BackendBehaviour) (parent : SolveBudgetState).
Context (blake3_hex : list Z → string) (serialize_problem : PlanningProblem → Bytes).
Context (serialize_view : CanonicalHashProblem → Bytes) (serialize_options : SolveOptions → option (list Z)).
Context (preparation : nat → nat * (nat → World)).
Context (registry : SolverRegistry) (problem : PlanningProblem) (acceptance_reserve : Z).
Context (run : UncontrolledRun) (policy : RouterPolicy) (limits : SolverApiLimits) (options : SolveOptions).
Context (worlds : nat → World) (sink : Sink).
Notation decision :=
  (RouterPolicy_decide blake3_hex serialize_problem serialize_view run policy registry problem options).
Notation execution_of :=
  (execute emit reviewer behaviour parent blake3_hex serialize_problem serialize_view serialize_options preparation
     registry problem acceptance_reserve run policy limits options worlds sink).

(** The record of an execution that ends with a terminal in a state. *)
Record recorded (t : Terminal) (x : Exec Sink) (execution : RouterExecution) : Prop := {
  rc_decision : er_decision (re_record execution) = es_decision (x_state x);
  rc_options : er_solve_options (re_record execution) = es_solve_options (x_state x);
  rc_attempts : er_attempts (re_record execution) = es_attempts (x_state x);
  rc_count : er_invocation_count (re_record execution) = es_counter (x_state x);
  rc_terminal : t = {| tl_status := er_terminal_status (re_record execution);
                       tl_reason := er_terminal_reason (re_record execution);
                       tl_selected_candidate := er_selected_candidate (re_record execution) |}
}.
Lemma state_finish_recorded t x : recorded t x (state_finish parent policy t x).
Proof using. unfold state_finish. destruct (sample _ _ _). by constructor; destruct t. Qed.
Lemma finish_execution_recorded t x : recorded t x (finish_execution parent policy t x).
Proof using.
  unfold finish_execution. case_bool_decide; [|apply state_finish_recorded].
  destruct (first_verified _); [|destruct (sample _ _ _) as [time o]];
    match goal with |- context [state_finish ?p ?q ?t ?x] => pose proof (state_finish_recorded t x) as [] end;
    by constructor.
Qed.
Lemma configured_nonneg : typed_api_limits limits → spare (RemainingOutput_new (configured_limits limits options)).
Proof using.
  unfold typed_api_limits. rewrite !Forall_cons. intros (H1 & H2 & H3 & H4 & _).
  unfold configured_limits, with_intermediate_candidate_reserve, spare.
  destruct (so_collect_intermediate_solutions options); cbn; unfold u32_max in *; lia.
Qed.
Definition result_of (execution : RouterExecution) : Terminal :=
  let r := re_record execution in
  {| tl_status := er_terminal_status r; tl_reason := er_terminal_reason r;
     tl_selected_candidate := er_selected_candidate r |}.
(** Either nothing was attempted, or the attempts are those of [finished]. *)
Definition routed (execution : RouterExecution) (calls : ReviewCalls) : Prop :=
  let r := re_record execution in
  er_decision r = decision ∧ er_solve_options r = options ∧
  ((er_attempts r = [] ∧ er_invocation_count r = 0 ∧ plain (result_of execution)) ∨
   (is_Some (de_summary decision) ∧
    finished reviewer problem (backend_order decision) (result_of execution) calls (er_attempts r)
      (er_invocation_count r))).
Lemma routed_untried t x execution calls :
  recorded t x execution → plain t → es_attempts (x_state x) = [] → es_counter (x_state x) = 0 →
  frame (Sink := Sink) x = (decision, options) → routed execution calls.
Proof using.
  intros [H1 H2 H3 H4 H5] Ht Ha Hn [= Hd Ho]. unfold routed, result_of. rewrite H1, H2, H3, H4, <-H5.
  split; [exact Hd|]. split; [exact Ho|]. left. split; [exact Ha|]. split; [exact Hn|exact Ht].
Qed.
Lemma tried_all_nil order as_ : tried order as_ → length as_ = length order → as_ = [].
Proof using.
  intros Ht Hl. destruct as_ as [|a as_]; [done|]. destruct (lookup_lt_is_Some_2 (a :: as_) (length as_)) as [b Hb]; [cbn; lia|].
  apply Ht in Hb as (_ & _ & _ & _ & Hlt). cbn in Hl. lia.
Qed.
Lemma execute_routed execution calls :
  typed_api_limits limits → execution_of = Some (execution, calls) → routed execution calls.
Proof using.
  intros Hl%configured_nonneg Hex. unfold execute in Hex.
  destruct (initial_terminal (de_status decision)) as [t|] eqn:Hi.
  { injection Hex as <- <-. eapply routed_untried; [apply state_finish_recorded| |reflexivity..].
    destruct (de_status decision); simplify_eq/=; (split; [not_listed|done]). }
  destruct (de_summary decision) as [summary|] eqn:Hsum.
  2:{ injection Hex as <- <-. eapply routed_untried; [apply state_finish_recorded| |reflexivity..]. split; [not_listed|done]. }
  match type of Hex with context [run_attempts _ _ _ _ _ _ _ _ _ _ _ _ _ _ _ _ _ ?x] => set (x0 := x) in Hex end.
  pose proof (keeps_triple _ _ _ _ x0
    (keeps_run_attempts emit reviewer behaviour parent blake3_hex serialize_problem serialize_view serialize_options
       preparation registry problem acceptance_reserve limits summary (length (backend_order decision))
       (backend_order decision) 0)
    (run_attempts_spec emit reviewer behaviour parent blake3_hex serialize_problem serialize_view serialize_options
       preparation registry problem acceptance_reserve limits summary (backend_order decision) (backend_order decision)
       [] eq_refl)) as Hrun.
  cbn [length] in Hrun.
  destruct (run_attempts _ _ _ _ _ _ _ _ _ _ _ _ _ _ _ _ _ x0) as [[[]|[t|]] x]; [| |done]; injection Hex as <- <-;
    (destruct Hrun as [Hx Hf]; [split; [exact Hl|split_and!; [intros i a Ha; discriminate Ha|done|done]]|]); cbn [on_stop] in Hx.
  - destruct Hx as (_ & Ht & Hlen & Hn). pose proof (tried_all_nil _ _ Ht Hlen) as Hnil.
    eapply routed_untried; [apply state_finish_recorded|split; [not_listed|done]|exact Hnil| |exact Hf].
    by rewrite Hn, <-Hlen, Hnil.
  - destruct (finish_execution_recorded t x) as [H1 H2 H3 H4 H5]. destruct Hx as [_ Hx].
    injection Hf as Hd Ho. unfold routed, result_of. rewrite H1, H2, H3, H4, <-H5, Hsum. split_and!; [done..|]. right. by split.
Qed.

(** The verified end of an execution, and its infeasible end. *)
Definition verified_end (execution : RouterExecution) (calls : ReviewCalls) : Prop :=
  let r := re_record execution in ∃ attempt c matches,
     last (er_attempts r) = Some attempt ∧ ar_termination attempt = AtCandidateVerified ∧
     er_selected_candidate r = Some c ∧ reviewed reviewer calls (ar_backend_id attempt) c (Verified matches) ∧
     (∃ β σ, total_candidate problem (bc_values c) β σ) ∧
     (er_terminal_status r = StatusOptimal → matches = true ∧ ∃ outcome candidates objective,
        ar_outcome attempt = Some outcome ∧ last candidates = Some c ∧
        outcome_validated problem (ar_backend_id attempt) outcome candidates ∧
        oc_termination outcome = OptimalityClaimed ∧ bc_objective c = Some objective ∧
        te_best_bound_values (oc_evidence outcome) = Some (objective_values objective)).
Definition infeasible_end (execution : RouterExecution) : Prop :=
  let r := re_record execution in ∃ attempt outcome,
     last (er_attempts r) = Some attempt ∧ ar_outcome attempt = Some outcome ∧ ar_candidate_count attempt = 0 ∧
     oc_termination outcome = InfeasibilityClaimed ∧ outcome_validated problem (ar_backend_id attempt) outcome [].
Lemma routed_ends execution calls :
  typed_api_limits limits → execution_of = Some (execution, calls) →
  let r := re_record execution in
  (er_terminal_status r = StatusOptimal ∨ er_terminal_status r = StatusFeasible ↔
   er_terminal_reason r = TrCandidateVerified) ∧
  (er_terminal_reason r = TrCandidateVerified → verified_end execution calls) ∧
  (er_terminal_status r = StatusInfeasible → infeasible_end execution).
Proof using.
  intros Hl Hex. apply execute_routed in Hex as (_ & _ & H); [|exact Hl]. cbn zeta.
  assert (plain (result_of execution) ∨ ∃ attempt, is_Some (de_summary decision) ∧
    last (er_attempts (re_record execution)) = Some attempt ∧
    terminal_ok reviewer problem calls attempt (result_of execution)) as [[Hs Hr]|(attempt & Hsum & Hlast & [H1 H2 H3])].
  { destruct H as [(_ & _ & Hp)|(Hsum & done_ & id & _ & _ & [(_ & _ & Hp)|[(a & _ & _ & _ & Hp)|(a & Ha & _ & _ & _ & Ht)]])];
      [by left..|]. right. exists a. by rewrite Ha, last_snoc. }
  - rewrite !not_elem_of_cons in Hs. cbn in Hs, Hr. destruct Hs as (? & ? & ? & _). split_and!; [tauto|done|done].
  - cbn in H1, H2, H3. split_and!; [exact H1| |].
    + intros (c & matches & candidates & Hterm & Hsel & Hin & [l Hk] & Hrev & Hopt)%H3.
      exists attempt, c, matches. split_and!; [done..| |].
      * destruct Hsum as [summary Hsum]. apply decide_admits in Hsum.
        pose proof (co_complete _ _ _ Hk) as Hc. rewrite Forall_forall in Hc.
        eexists _, _. eapply complete_is_total; [exact Hsum|by apply Hc].
      * intros [Hm (o & Ho & Hval & Hsel')]%Hopt. split; [done|].
        destruct (optimal_selected _ _ _ _ _ Hk Hin Hsel') as (Hcl & Hla & objective & Hob & Hb).
        exists o, candidates, objective. by split_and!.
    + intros (o & Ho & Hcl & Hcnt & Hval)%H2. exists attempt, o. by split_and!.
Qed.

(** C7. What an execution reports is backed by what happened. It reports an optimal or a feasible
    result exactly when its reason is a verified candidate; the candidate it then selects was given
    to the reviewer by the last attempt's backend and answered as verified, and its values determine
    an assignment of every variable of the problem, each in its domain. A result is optimal only if
    moreover the reviewer confirmed the objective, and the backend's outcome passed validation,
    claimed optimality, and proved a bound equal to the objective of this last candidate. The result
    is infeasible only if a validated outcome without candidates claimed it. *)
Theorem routed_result_sound execution calls :
  typed_api_limits limits → execution_of = Some (execution, calls) →
  let r := re_record execution in
  (er_terminal_status r = StatusOptimal ∨ er_terminal_status r = StatusFeasible ↔
   er_terminal_reason r = TrCandidateVerified) ∧
  (er_terminal_reason r = TrCandidateVerified → ∃ attempt c matches,
     last (er_attempts r) = Some attempt ∧ ar_termination attempt = AtCandidateVerified ∧
     er_selected_candidate r = Some c ∧ reviewed reviewer calls (ar_backend_id attempt) c (Verified matches) ∧
     (∃ β σ, total_candidate problem (bc_values c) β σ) ∧
     (er_terminal_status r = StatusOptimal → matches = true ∧ ∃ outcome candidates objective,
        ar_outcome attempt = Some outcome ∧ last candidates = Some c ∧
        outcome_validated problem (ar_backend_id attempt) outcome candidates ∧
        oc_termination outcome = OptimalityClaimed ∧ bc_objective c = Some objective ∧
        te_best_bound_values (oc_evidence outcome) = Some (objective_values objective))) ∧
  (er_terminal_status r = StatusInfeasible → ∃ attempt outcome,
     last (er_attempts r) = Some attempt ∧ ar_outcome attempt = Some outcome ∧ ar_candidate_count attempt = 0 ∧
     oc_termination outcome = InfeasibilityClaimed ∧ outcome_validated problem (ar_backend_id attempt) outcome []).
Proof using. apply routed_ends. Qed.

Lemma tried_ids order as_ : tried order as_ → ar_backend_id <$> as_ = take (length as_) order.
Proof using.
  intros Ht. apply list_eq. intros i. rewrite list_lookup_fmap.
  destruct (as_ !! i) as [a|] eqn:Ha; cbn.
  - rewrite lookup_take_lt by (by apply lookup_lt_Some in Ha). by apply Ht in Ha as (id & -> & [-> _ _ _] & _).
  - symmetry. apply lookup_take_None. right. by apply lookup_ge_None.
Qed.
Lemma tried_ids_snoc order as_ id a :
  tried order as_ → order !! length as_ = Some id → ar_backend_id a = id →
  (ar_backend_id <$> as_ ++ [a]) `prefix_of` order.
Proof using.
  intros Ht Ho Ha. rewrite fmap_app, (tried_ids order) by done. cbn. rewrite Ha, <-(take_S_r _ _ _ Ho). apply prefix_take.
Qed.
(** The attempts whose backend was invoked. *)
Definition invoked (as_ : list AttemptRecord) : list AttemptRecord :=
  filter (λ a, is_Some (ar_invocation_index a)) as_.
Lemma tried_invoked order as_ : tried order as_ → invoked as_ = as_.
Proof using.
  intros Ht. unfold invoked.
  assert (Forall (λ a, is_Some (ar_invocation_index a)) as_) as Hall.
  { rewrite Forall_lookup. intros i a (id & _ & [_ -> _ _] & _)%Ht. eauto. }
  clear Ht. induction Hall as [|a l Ha _ IH]; [done|]. rewrite filter_cons_True by done. f_equal. exact IH.
Qed.
Lemma invoked_snoc as_ a :
  invoked (as_ ++ [a]) = invoked as_ ++ (if ar_invocation_index a then [a] else []).
Proof using.
  unfold invoked. rewrite filter_app. f_equal. destruct (ar_invocation_index a) eqn:Ha.
  - rewrite filter_cons_True, filter_nil; [done|]. rewrite Ha. eauto.
  - rewrite filter_cons_False, filter_nil; [done|]. rewrite Ha. by intros [].
Qed.
(** One recorded attempt, at a position among [attempts]. *)
Definition attempt_recorded (order : list string) (attempts : list AttemptRecord) (i : nat) (a : AttemptRecord) : Prop :=
  ((S i < length attempts)%nat → ar_fallback_taken a = true) ∧
  (ar_fallback_taken a = true →
     ar_fallback_eligible a = true ∧ ar_candidate_count a = 0 ∧ (S i < length order)%nat ∧
     ∀ outcome, ar_outcome a = Some outcome →
       oc_termination outcome ∈ [TerminationUnavailable; TerminationFailed; TimeLimit]) ∧
  match ar_invocation_index a with
  | Some index => index = Z.min (Z.of_nat (S i)) u32_max ∧
      ∃ report, ar_preflight_compatibility a = Some report ∧ compatible report = true
  | None => S i = length attempts ∧ ∃ error, ar_termination a = AtPreflightRejected (preflight_code error)
  end.
Lemma tried_recorded order done_ attempts i a : tried order done_ → done_ !! i = Some a → attempt_recorded order attempts i a.
Proof using.
  intros Ht (id & _ & [_ Hi Hr Hf] & Hfall & Hlt)%Ht. unfold attempt_recorded. rewrite Hi.
  split; [done|]. split; [|by split]. intros _. destruct (Hf Hfall) as (? & ? & ?). by split_and!.
Qed.
Lemma last_recorded order done_ i a b :
  tried order done_ → attempt_recorded order (done_ ++ [b]) (length done_) b → (done_ ++ [b]) !! i = Some a →
  attempt_recorded order (done_ ++ [b]) i a.
Proof using.
  intros Ht Hb [Hi|[Hge Hi]]%lookup_app_Some; [by eapply tried_recorded|].
  apply list_lookup_singleton_Some in Hi as [Hi <-]. by replace i with (length done_) by lia.
Qed.
Lemma refused_recorded order done_ id a : refused id a → attempt_recorded order (done_ ++ [a]) (length done_) a.
Proof using.
  intros [_ Hi Ht Hf]. unfold attempt_recorded. rewrite length_app, Hi, Hf. cbn [length].
  split; [lia|]. split; [done|]. split; [lia|exact Ht].
Qed.
Lemma invoked_recorded order done_ id a :
  attempt_ok id (counted (S (length done_))) a → ar_fallback_taken a = false →
  attempt_recorded order (done_ ++ [a]) (length done_) a.
Proof using.
  intros [_ Hi Hr _] Hf. unfold attempt_recorded. rewrite length_app, Hi, Hf. cbn [length].
  split; [lia|]. split; [done|]. by split.
Qed.
(** C26. The attempts of an execution. They are those of a prefix of the backends in the order of
    the decision, one each. Every attempt but the last was followed by a fallback, and a fallback is
    taken only from an eligible attempt that retained no candidate, whose outcome, if one was
    accepted, is unavailable, failed or a time limit, and only while a backend remains. A backend is
    invoked only after a compatible preflight report and with the index of its attempt; an attempt
    without an invocation is the last one, refused by its preflight. The invocation count is the
    number of invoked attempts. *)
Theorem attempts_follow_decision execution calls :
  typed_api_limits limits → execution_of = Some (execution, calls) →
  let attempts := er_attempts (re_record execution) in
  er_decision (re_record execution) = decision ∧
  (ar_backend_id <$> attempts) `prefix_of` backend_order decision ∧
  er_invocation_count (re_record execution) = Z.min (len (invoked attempts)) u32_max ∧
  ∀ i a, attempts !! i = Some a → attempt_recorded (backend_order decision) attempts i a.
Proof using.
  intros Hl Hex. apply execute_routed in Hex as (Hd & _ & H); [|exact Hl]. cbn zeta. split; [exact Hd|].
  destruct H as [(-> & -> & _)|(_ & done_ & id & Ht & Ho & H)]; [split_and!; [apply prefix_nil|done|by intros i a]|].
  pose proof (tried_invoked _ _ Ht) as Hinv.
  destruct H as [(-> & -> & _)|[(b & -> & -> & Hb & _)|(b & -> & -> & Hb & Hf & _)]].
  - rewrite Hinv, (tried_ids (backend_order decision)) by done. split_and!; [apply prefix_take|done|].
    intros i a. by apply tried_recorded.
  - rewrite invoked_snoc, Hinv, (rf_index _ _ Hb), app_nil_r. split_and!; [|done|].
    + by eapply tried_ids_snoc, rf_id.
    + intros i a. apply last_recorded; [done|]. by eapply refused_recorded.
  - rewrite next_counted in *. rewrite invoked_snoc, Hinv, (ao_index _ _ _ Hb). split_and!.
    + by eapply tried_ids_snoc, ao_id.
    + unfold len. rewrite length_app. cbn [length]. by rewrite Nat.add_1_r.
    + intros i a. apply last_recorded; [done|]. by eapply invoked_recorded.
Qed.
End execution.
