(* ===== verification/ExecutionReturns.v ===== *)
(** * Every routed execution returns

    The router's [unreachable!] arms are not reached: time and cancellation only move forward, so a
    backend that timed out for another reason than its own limit is stopped before its empty attempt
    is concluded, and every request carries its summary. *)
From stdpp Require Import base tactics list gmap strings relations.
From Stdlib Require Import ZArith Lia Ascii.
From S2P Require Import Prelude Ordering Control Budget Ids DomainIr Model Analysis Validation Canonical.
From S2P Require Import SolverApi Support Preflight Router Execution RoutedExecution.
Open Scope string_scope.
Open Scope list_scope.
Open Scope Z_scope.

(** ** Successive observations *)
(** The clock does not run backwards and tokens are only created, derived and cancelled. *)
Record successive (worlds : nat → World) : Prop := {
  sv_store : wf_store (tokens (worlds 0%nat));
  sv_tokens i : rtc token_step (tokens (worlds i)) (tokens (worlds (S i)));
  sv_now i : now (worlds i) ≤ now (worlds (S i))
}.
(** The parent of a dispatch is cancelled or out of time. *)
Definition halted (budget : SolveDispatchBudget) (w : World) : Prop :=
  stop_reason w budget = Some StopCancelled ∨ stop_reason w budget = Some StopDeadlineExceeded.
Section observations.
Context (worlds : nat → World) (Hw : successive worlds).
Lemma successive_later i j : (i ≤ j)%nat →
  wf_store (tokens (worlds i)) ∧ rtc token_step (tokens (worlds i)) (tokens (worlds j)) ∧ now (worlds i) ≤ now (worlds j).
Proof using Hw.
  assert (∀ k, wf_store (tokens (worlds k))) as Hwf.
  { induction k as [|k IH]; [apply Hw|]. eapply token_steps_wf; [apply Hw|exact IH]. }
  induction 1 as [|j _ (_ & IH1 & IH2)]; [split_and!; [apply Hwf|done|done]|]. split_and!; [apply Hwf| |].
  - etrans; [exact IH1|apply Hw].
  - etrans; [exact IH2|apply Hw].
Qed.
Lemma halted_check budget w : halted budget w ↔ ∃ e, control_check w (Solve (parent_view budget)) = Err e.
Proof using.
  unfold halted, stop_reason. cbn [control_check]. destruct (cancelled _); [naive_solver|].
  destruct (expired _ || _); [naive_solver|]. case_match; naive_solver.
Qed.
Lemma halted_later budget i j : (i ≤ j)%nat → halted budget (worlds i) → halted budget (worlds j).
Proof using Hw.
  intros Hij. rewrite !halted_check. intros [e He]. destruct (successive_later i j Hij) as (H1 & H2 & H3).
  by eapply interruption_is_permanent.
Qed.
End observations.

(** ** Computations that only move forward and do not panic *)
Section forward.
Context {Sink : Type} (emit : SolveProgressEvent → Sink → Result OutputError unit * Sink).
Context (reviewer : ReviewCalls → string → BackendCandidate → CandidateReview).
Context (behaviour : Z → BackendBehaviour) (parent : SolveBudgetState).
Notation Exec := (Exec Sink).
Notation XM := (SE Exec ExecutionStop).
(** [x'] is a later state of the same environment. *)
Definition later (x x' : Exec) : Prop := x_worlds x' = x_worlds x ∧ (x_observed x ≤ x_observed x')%nat.
#[local] Instance later_preorder : PreOrder later.
Proof using. split; [by split|]. intros x y z [H1 H2] [H3 H4]. split; [congruence|lia]. Qed.
Definition forward {A} (m : XM A) : Prop := ∀ x, later x (m x).2 ∧ (m x).1 ≠ Err Panicked.
Lemma forward_bind {A B} (m : XM A) (k : A → XM B) : forward m → (∀ a, forward (k a)) → forward (m ≫= k).
Proof using.
  intros Hm Hk x. destruct (Hm x) as [H1 H2]. unfold mbind, SE_bind. destruct (m x) as [[a|e] x']; cbn in *.
  - destruct (Hk a x') as [H3 H4]. split; [by etrans|done].
  - split; [done|]. congruence.
Qed.
Lemma forward_fold_m {A B} (f : B → A → XM B) l : (∀ b a, forward (f b a)) → ∀ b, forward (fold_m f b l).
Proof using.
  intros Hf. induction l as [|a l IH]; intros b; [by intros x|]. apply forward_bind; [done|]. apply IH.
Qed.
Lemma forward_observe : forward observe.
Proof using. intros x. split; [split; cbn; [done|lia]|done]. Qed.
End forward.
Ltac advance :=
  lazymatch goal with
  | |- forward (_ ≫= _) => apply forward_bind; [|intros ?]
  | |- forward (fold_m _ _ _) => apply forward_fold_m; intros ? ?
  | |- forward observe => apply forward_observe
  | |- forward (match ?c with _ => _ end) => destruct c
  | |- forward (let '(_, _) := ?p in _) => destruct p
  | |- forward (mret _) => by intros ?
  | |- forward (finish _) => by intros ?
  | |- forward get => by intros ?
  | |- forward (set_sink _) => by intros ?
  | |- forward (update_remaining _) => by intros ?
  | |- forward (update_state _) => by intros ?
  | |- forward (review _ _ _) => by intros ?
  | |- forward ?m => let h := head_of m in unfold h
  end.
Section forward_parts.
Context {Sink : Type} (emit : SolveProgressEvent → Sink → Result OutputError unit * Sink).
Context (reviewer : ReviewCalls → string → BackendCandidate → CandidateReview).
Context (behaviour : Z → BackendBehaviour) (parent : SolveBudgetState).
Lemma forward_review_candidates id all rest outcome :
  forward (review_candidates (Sink := Sink) reviewer parent id all rest outcome).
Proof using. induction rest as [|c rest IH]; cbn [review_candidates]; repeat (exact IH || advance). Qed.
Lemma forward_candidate_attempt attempt run request limits :
  forward (finish_candidate_attempt reviewer parent (Sink := Sink) attempt run request limits).
Proof using. unfold finish_candidate_attempt. repeat (apply forward_review_candidates || advance). Qed.
Lemma forward_receive id early ob : forward (receive_notification (Sink := Sink) reviewer parent id early ob).
Proof using. repeat advance. Qed.
End forward_parts.

(** ** A timeout is the backend's own limit unless the parent has stopped *)
(** Errors that do not report a stop of the parent. *)
Definition unstopped (error : OutputError) : Prop := error ≠ OeCancelled ∧ error ≠ OeParentDeadlineExceeded.
Lemma reject_first_error make wrong ids e :
  (∀ id, unstopped (make id)) → reject_first make wrong ids = Err e → unstopped e.
Proof. intros Hm. unfold reject_first. destruct (List.find wrong ids); [|done]. intros [= <-]. apply Hm. Qed.
Lemma expected_values_error candidate vs : ∀ st e, fold_m (expected_values candidate) st vs = Err e → unstopped e.
Proof.
  induction vs as [|v vs IH]; intros [bs ns] e; [done|]. cbn [fold_m]. unfold mbind, Result_bind.
  destruct (expected_values candidate (bs, ns) v) as [st|e'] eqn:Hv; [apply IH|]. intros [= <-].
  cbn in Hv. repeat (case_match; simplify_eq/=); by split.
Qed.
Lemma candidate_values_error problem candidate e : validate_candidate_values problem candidate = Err e → unstopped e.
Proof.
  unfold validate_candidate_values. destruct (fold_m _ _ _) as [[bs ns]|e'] eqn:Hf.
  - cbn [mbind Result_bind]. intros H.
    repeat match type of H with
    | (reject_first ?m ?w ?l ≫= _) = _ => destruct (reject_first m w l) as [[]|e'] eqn:?; cbn [mbind Result_bind] in H
    end; simplify_eq; (eapply reject_first_error; [|eassumption]); by split.
  - intros [= <-]. by eapply expected_values_error.
Qed.
Section timeouts.
Context {Sink : Type} (emit : SolveProgressEvent → Sink → Result OutputError unit * Sink).
Context (reviewer : ReviewCalls → string → BackendCandidate → CandidateReview).
Context (behaviour : Z → BackendBehaviour) (parent : SolveBudgetState).
Context (worlds : nat → World) (Hw : successive worlds) (budget : SolveDispatchBudget).
Notation Exec := (Exec Sink).
Notation XM := (SE Exec ExecutionStop).
Definition has_halted (n : nat) : Prop := ∃ i, (i < n)%nat ∧ halted budget (worlds i).
Lemma has_halted_mono n m : (n ≤ m)%nat → has_halted n → has_halted m.
Proof using. intros Hnm (i & Hi & H). exists i. split; [lia|done]. Qed.
Lemma has_halted_now n : has_halted n → halted budget (worlds n).
Proof using Hw. intros (i & Hi & H). eapply halted_later; [exact Hw| |exact H]. lia. Qed.
(** A rejection that names the parent's stop was recorded after one. *)
Definition rejection_timed (rejection : option OutputError) (n : nat) : Prop :=
  rejection = Some OeCancelled ∨ rejection = Some OeParentDeadlineExceeded → has_halted n.
Record observed_timed (ob : ObservedOutput Sink) (n : nat) : Prop := {
  ot_budget : bo_dispatch_budget (oo_output ob) = budget;
  ot_contract : rejection_timed (bo_contract_rejection (oo_output ob)) n;
  ot_candidate : rejection_timed (oo_candidate_rejection ob) n
}.
Lemma observed_timed_mono ob n m : (n ≤ m)%nat → observed_timed ob n → observed_timed ob m.
Proof using.
  intros Hnm [H1 H2 H3]. constructor; [done| |]; intros H; (eapply has_halted_mono; [exact Hnm|]); auto.
Qed.
Lemma budget_error_timed {S} w (output : BoundedBackendOutput S) n i :
  bo_dispatch_budget output = budget → (i < n)%nat → w = worlds i → rejection_timed (budget_error w output) n.
Proof using.
  intros Hb Hi -> H. exists i. split; [done|]. unfold budget_error in H. rewrite Hb in H. unfold halted.
  destruct (stop_reason (worlds i) budget) as [[]|]; [by left|by right|destruct H; done..].
Qed.
Lemma reject_timed {S A} error (output : BoundedBackendOutput S) n :
  rejection_timed (bo_contract_rejection output) n → rejection_timed (Some error) n →
  rejection_timed (bo_contract_rejection (reject (A := A) error output).2) n.
Proof using. intros H1 H2. unfold reject. destruct (bo_contract_rejection output) eqn:Hr; cbn; by rewrite ?Hr. Qed.
Lemma reject_budget {S A} error (output : BoundedBackendOutput S) :
  bo_dispatch_budget (reject (A := A) error output).2 = bo_dispatch_budget output.
Proof using. unfold reject. by destruct (bo_contract_rejection output). Qed.
Lemma emit_timed {S} (e : SolveProgressEvent → S → Result OutputError unit * S) w event output n i :
  bo_dispatch_budget output = budget → rejection_timed (bo_contract_rejection output) n → (i < n)%nat → w = worlds i →
  bo_dispatch_budget (emit_progress e w event output).2 = budget ∧
  rejection_timed (bo_contract_rejection (emit_progress e w event output).2) n.
Proof using.
  intros Hb Hr Hi Hwi. unfold emit_progress. pose proof (budget_error_timed w output n i Hb Hi Hwi) as Ht.
  destruct (budget_error w output) as [error|].
  - rewrite reject_budget. split; [done|by apply reject_timed].
  - repeat (case_match; try done).
Qed.
Lemma submit_timed {S} w1 w2 c (output : BoundedBackendOutput S) n i j :
  bo_dispatch_budget output = budget → rejection_timed (bo_contract_rejection output) n →
  (i < n)%nat → w1 = worlds i → (j < n)%nat → w2 = worlds j →
  bo_dispatch_budget (submit_candidate w1 w2 c output).2 = budget ∧
  rejection_timed (bo_contract_rejection (submit_candidate w1 w2 c output).2) n ∧
  match (submit_candidate w1 w2 c output).1 with Err error => rejection_timed (Some error) n | Ok _ => True end.
Proof using.
  intros Hb Hr Hi H1 Hj H2. pose proof (budget_error_timed w1 output n i Hb Hi H1) as Ht1.
  pose proof (budget_error_timed w2 output n j Hb Hj H2) as Ht2.
  assert (∀ error, rejection_timed (Some error) n →
    bo_dispatch_budget (reject (A := BackendCandidate) error output).2 = budget ∧
    rejection_timed (bo_contract_rejection (reject (A := BackendCandidate) error output).2) n ∧
    rejection_timed (Some error) n) as Hrej.
  { intros error He. rewrite reject_budget. split_and!; [done|by apply reject_timed|done]. }
  assert (∀ error, unstopped error → rejection_timed (Some error) n) as Hother
    by (intros error [? ?] [[= ?]|[= ?]]; done).
  unfold submit_candidate. destruct (budget_error w1 output) as [e1|]; [by apply Hrej|].
  case_match; [by apply Hrej, Hother|]. case_match; [by apply Hrej, Hother|].
  case_match; [|by apply Hrej, Hother]. case_match; [|by apply Hrej, Hother].
  case_match; [|split_and!; [done|done|]]; [|apply Hother; unfold validate_objective_evidence in *; repeat (case_match; simplify_eq/=); by split].
  case_match; [split_and!; [done|done|by apply Hother]|].
  case_match; [|split_and!; [done|done|]; apply Hother; by eapply candidate_values_error].
  case_match; [|split_and!; [done|done|by apply Hother]].
  destruct (budget_error w2 output) as [e2|]; [by apply Hrej|]. by split_and!.
Qed.
(** The environment is the given one and [φ] holds of the number of observations made. *)
Definition timed (φ : nat → Prop) (x : Exec) : Prop := x_worlds x = worlds ∧ φ (x_observed x).
Definition calm (e : ExecutionStop) (_ : Exec) : Prop := e ≠ Panicked.
Definition rising (φ : nat → Prop) : Prop := ∀ n m, (n ≤ m)%nat → φ n → φ m.
Lemma timed_forward {A} (m : XM A) φ : forward m → rising φ → triple (timed φ) m (λ _, timed φ) calm.
Proof using.
  intros Hm Hφ x [Hx Hn]. destruct (Hm x) as [[H1 H2] H3]. unfold timed, calm.
  destruct (m x) as [[a|e] x']; cbn in *; [|congruence]. split; [congruence|]. by eapply Hφ.
Qed.
Lemma timed_skip {A B} (m : XM A) (k : A → XM B) φ Q :
  forward m → rising φ → (∀ a, triple (timed φ) (k a) Q calm) → triple (timed φ) (m ≫= k) Q calm.
Proof using. intros Hm Hφ Hk. eapply triple_bind; [by apply timed_forward|]. exact Hk. Qed.
Lemma rising_observed ob : rising (observed_timed ob).
Proof using. intros n m. apply observed_timed_mono. Qed.
Lemma observed_call_timed ob call :
  triple (timed (observed_timed ob)) (observed_call (E := ExecutionStop) emit parent ob call)
    (λ ob', timed (observed_timed ob')) calm.
Proof using.
  intros x [Hx Hob]. destruct call as [event|c].
  - unfold observed_call, mbind, SE_bind, observe. cbn -[emit_progress]. rewrite Hx. split; [done|]. cbn -[emit_progress].
    eapply (observed_timed_mono _ _ (S (x_observed x))) in Hob as [Hb Hc Hk]; [|lia].
    destruct (emit_timed (counting_emit emit) (worlds (x_observed x)) event (oo_output ob) (S (x_observed x)) (x_observed x)
      Hb Hc ltac:(lia) eq_refl) as [H1 H2]. by constructor.
  - unfold observed_call, observed_submit, mbind, SE_bind, observe. cbn -[submit_candidate]. rewrite Hx.
    assert (observed_timed ob (S (S (x_observed x)))) as [Hb Hc Hk] by (eapply observed_timed_mono; [|exact Hob]; lia).
    destruct (submit_timed (worlds (x_observed x)) (worlds (S (x_observed x))) c (oo_output ob) (S (S (x_observed x)))
      (x_observed x) (S (x_observed x)) Hb Hc ltac:(lia) eq_refl ltac:(lia) eq_refl) as (H1 & H2 & H3).
    destruct (submit_candidate _ _ c (oo_output ob)) as [[retained|error] output]; cbn in *; (split; [done|]).
    + eapply (observed_timed_mono _ (S (S (x_observed x)))); [cbn; lia|]. by constructor.
    + constructor; cbn; [done|done|]. by destruct (oo_track_candidate_rejection ob).
Qed.
Lemma observed_calls_timed calls ob :
  triple (timed (observed_timed ob)) (fold_m (observed_call (E := ExecutionStop) emit parent) ob calls)
    (λ ob', timed (observed_timed ob')) calm.
Proof using.
  apply (triple_fold_m _ (λ _ ob, timed (observed_timed ob))). intros _ ob' call. apply observed_call_timed.
Qed.
Lemma run_calls_timed id collect b ob :
  triple (timed (observed_timed ob)) (run_calls (E := ExecutionStop) emit reviewer parent id collect b ob)
    (λ p, timed (observed_timed p.1)) calm.
Proof using.
  unfold run_calls. destruct collect.
  - eapply triple_bind; [apply observed_calls_timed|]. intros ob1.
    apply timed_skip; [apply forward_receive|apply rising_observed|]. intros early1.
    eapply triple_bind; [apply observed_calls_timed|]. intros ob2.
    apply timed_skip; [apply forward_receive|apply rising_observed|]. intros early2. by apply triple_ret.
  - eapply triple_bind; [apply observed_calls_timed|]. intros ob1. by apply triple_ret.
Qed.
(** A run that timed out reached the backend's limit or found the parent stopped. *)
Definition run_timed (run : BackendRun) (n : nat) : Prop :=
  ru_completion run = TimedOut → ru_stop_reason run = Some StopBackendLimitExceeded ∨ has_halted n.
Lemma rising_run run : rising (run_timed run).
Proof using. intros n m Hnm Hr Ht. destruct (Hr Ht); [by left|right]. by eapply has_halted_mono. Qed.
Lemma final_stop_timed first completion :
  triple (timed (λ n, first = Some StopCancelled ∨ first = Some StopDeadlineExceeded → has_halted n))
    (final_stop_reason (E := ExecutionStop) (Sink := Sink) first budget completion)
    (λ final, timed (λ n, completion = TimedOut → final = Some StopBackendLimitExceeded ∨ has_halted n)) calm.
Proof using.
  intros x [Hx Hf]. destruct first as [reason|]; cbn; (split; [done|]); intros ->.
  - destruct reason; [right; auto|right; auto|by left].
  - destruct (stop_reason (x_worlds x (x_observed x)) budget) as [[]|] eqn:Hs; [right..|by left|by left];
      exists (x_observed x); (split; [cbn; lia|]); rewrite <-Hx; [by left|by right].
Qed.
Lemma run_backend_timed id problem request limits index φ :
  sr_dispatch_budget request = budget → rising φ →
  triple (timed φ) (run_backend (E := ExecutionStop) emit reviewer behaviour parent id problem request limits index)
    (λ run, timed (λ n, match run with Ok run => run_timed run n | Err _ => True end)) calm.
Proof using.
  intros Hb Hφ. unfold run_backend. apply timed_skip; [by intros ?|done|]. intros x.
  destruct (BoundedBackendOutput_new _ _ _ limits) as [output|error] eqn:Hnew; [|apply triple_ret; by intros s []].
  eapply triple_bind.
  { eapply triple_conseq; [apply run_calls_timed| |done|done]. intros s [Hs _]. split; [exact Hs|].
    apply result_bind_Ok in Hnew as (l & _ & [= <-]). constructor; cbn; [done|by intros []..]. }
  intros [ob early]. cbn [fst]. apply timed_skip; [by intros ?|apply rising_observed|]. intros _.
  apply timed_skip; [repeat advance|apply rising_observed|]. intros _.
  destruct (split_rejection _) as [first error] eqn:Hsplit. rewrite Hb.
  eapply triple_bind.
  { eapply triple_conseq; [apply (final_stop_timed first)| |intros final s Hs; exact Hs|done].
    intros s [Hs [_ Hc Hk]]. split; [exact Hs|]. intros Hfirst.
    destruct (bo_contract_rejection (oo_output ob)) as [e|]; [apply Hc|apply Hk];
      [destruct e|destruct (oo_candidate_rejection ob) as [e|]; [destruct e|]]; simplify_eq/=;
      destruct Hfirst; simplify_eq; auto. }
  intros final. by apply triple_ret.
Qed.

(** ** Attempts *)
Lemma forward_empty_attempt attempt run request limits position order_len :
  (ru_completion run = TimedOut → ru_stop_reason run = Some StopBackendLimitExceeded) →
  forward (finish_empty_attempt parent (Sink := Sink) attempt run request limits position order_len).
Proof using.
  intros Ht. unfold finish_empty_attempt. apply forward_bind; [|intros ?; repeat advance].
  unfold empty_conclusion. case_bool_decide as Hs; [advance|].
  destruct (ru_completion run) as [[outcome|error]|]; [repeat advance..|]. destruct Hs. by apply Ht.
Qed.
Definition any (n : nat) : Prop := True.
Lemma conclude_run_calm limits attempt request run position order_len :
  sr_dispatch_budget request = budget →
  triple (timed (run_timed run)) (conclude_run reviewer parent limits attempt request run position order_len)
    (λ _, timed any) calm.
Proof using Hw.
  intros Hb. unfold conclude_run. apply timed_skip; [by intros ?|apply rising_run|]. intros _.
  eapply (triple_bind _ _ _ (λ w x, (ru_completion run = TimedOut → ru_stop_reason run = Some StopBackendLimitExceeded ∨
    halted budget w) ∧ timed any x)).
  { intros x [Hx Hr]. cbn. split; [|by split]. intros [H|H]%Hr; [by left|right]. rewrite Hx. by apply has_halted_now. }
  intros w. apply triple_pure. intros Ht. apply timed_forward; [|done].
  destruct (stopped_after_backend w _) as [[termination terminal]|] eqn:Hs; [repeat advance|].
  destruct (ru_output_error run); [repeat advance|]. case_bool_decide.
  - apply forward_empty_attempt. intros [H1|H1]%Ht; [done|]. exfalso. unfold stopped_after_backend in Hs. rewrite Hb in Hs.
    destruct H1 as [H1|H1]; by rewrite H1 in Hs.
  - apply forward_bind; [apply forward_candidate_attempt|intros ?; advance].
Qed.
End timeouts.
Section returns.
Context {Sink : Type} (emit : SolveProgressEvent → Sink → Result OutputError unit * Sink).
Context (reviewer : ReviewCalls → string → BackendCandidate → CandidateReview).
Context (behaviour : Z → BackendBehaviour) (parent : SolveBudgetState).
Context (blake3_hex : list Z → string) (serialize_problem : PlanningProblem → Bytes).
Context (serialize_view : CanonicalHashProblem → Bytes) (serialize_options : SolveOptions → option (list Z)).
Context (preparation : nat → nat * (nat → World)).
Context (registry : SolverRegistry) (problem : PlanningProblem) (acceptance_reserve : Z).
Context (worlds : nat → World) (Hw : successive worlds).
Lemma solve_request_summary w id backend summary options profile request :
  solve_request parent blake3_hex serialize_options problem acceptance_reserve w id backend summary options profile
    = Some request → sr_summary request = Some summary.
Proof using.
  unfold solve_request, SolveRequest_new, SolveRequest_construct. by intros (o & _ & [= <-])%bind_Some.
Qed.
Lemma forward_preflight id backend request position :
  is_Some (sr_summary request) →
  forward (Sink := Sink) (preflight_or_reject blake3_hex serialize_problem serialize_view preparation registry id backend
    request position).
Proof using.
  intros [summary Hs]. unfold preflight_or_reject. do 2 (apply forward_bind; [apply forward_observe|intros ?]).
  destruct (preflight _ _ _ _ _ _ _) as [[report|error]|] eqn:Hp; [repeat advance..|].
  unfold preflight, sr_summary_of in Hp. rewrite Hs in Hp. by destruct (preflight_guards _ _ _ _).
Qed.
Lemma run_attempt_calm limits summary id position order_len :
  triple (timed worlds any)
    (run_attempt (Sink := Sink) emit reviewer behaviour parent blake3_hex serialize_problem serialize_view serialize_options
       preparation registry problem acceptance_reserve limits summary id position order_len)
    (λ _, timed worlds any) calm.
Proof using Hw.
  unfold run_attempt. apply timed_skip; [repeat advance|done|]. intros _.
  destruct (registry_get registry id) as [backend|]; [|apply timed_forward; [repeat advance|done]].
  do 2 (apply timed_skip; [repeat advance|done|]; intros ?).
  destruct (solve_request _ _ _ _ _ _ _ _ _ _ _) as [request|] eqn:Hr; [|apply timed_forward; [repeat advance|done]].
  apply solve_request_summary in Hr.
  apply timed_skip; [repeat advance|done|]. intros _.
  apply timed_skip; [apply forward_preflight; eauto|done|]. intros report.
  do 4 (apply timed_skip; [repeat advance|done|]; intros ?).
  eapply triple_bind; [by apply (run_backend_timed emit reviewer behaviour parent worlds (sr_dispatch_budget request))|].
  intros [run|error]; cbn beta iota.
  - apply timed_skip; [repeat advance|apply rising_run|]. intros _. by apply conclude_run_calm.
  - apply timed_skip; [repeat advance|done|]. intros _. apply timed_forward; [repeat advance|done].
Qed.
Lemma run_attempts_calm limits summary order_len order : ∀ position,
  triple (timed worlds any)
    (run_attempts (Sink := Sink) emit reviewer behaviour parent blake3_hex serialize_problem serialize_view serialize_options
       preparation registry problem acceptance_reserve limits summary position order_len order)
    (λ _, timed worlds any) calm.
Proof using Hw.
  induction order as [|id order IH]; intros position; cbn [run_attempts]; [by apply triple_ret|].
  eapply triple_bind; [apply run_attempt_calm|]. intros []. apply IH.
Qed.

(** C27. Every routed execution returns a record: whatever the backends submit, however they
    complete and whatever the reviewer answers, no failure of an attempt is lost in a panic. The arm
    for a timeout that is not the backend's own limit is not reached, because a parent that was
    cancelled or out of time when the backend ended is still so when the attempt is concluded; it is
    enough that the clock does not run backwards and that tokens are only created, derived and
    cancelled. *)
Theorem execution_returns run policy limits options sink :
  ∃ execution calls,
    execute emit reviewer behaviour parent blake3_hex serialize_problem serialize_view serialize_options preparation
      registry problem acceptance_reserve run policy limits options worlds sink = Some (execution, calls).
Proof using Hw.
  unfold execute.
  set (d := RouterPolicy_decide _ _ _ _ _ _ _ _).
  destruct (initial_terminal (de_status d)); [eauto|]. destruct (de_summary d) as [summary|]; [|eauto].
  match goal with |- context [run_attempts _ _ _ _ _ _ _ _ _ _ _ _ ?l ?s ?p ?n ?o ?x] =>
    pose proof (run_attempts_calm l s n o p x (conj eq_refl I)) as Hrun end.
  destruct (run_attempts _ _ _ _ _ _ _ _ _ _ _ _ _ _ _ _ _ _) as [[[]|[t|]] x]; [eauto|eauto|]. by destruct Hrun.
Qed.
End returns.
