(* ===== verification/VerificationIr.v ===== *)
(** * Verification scopes, reports and accepted results

    Models the verification contracts of [crates/eutheto-domain-ir/src/lib.rs]: the scope of required
    rules, the context a verifier is bound to, its report, and the accepted result that pairs a
    normalized solution with a report.  Identities that are UUIDs in the source are their canonical
    text, which is ordered as they are. *)
From stdpp Require Import base tactics list gmap strings.
From Stdlib Require Import ZArith Lia Ascii.
From S2P Require Import Prelude Ordering Budget Ids DomainIr Model CanonicalFacts.
Open Scope string_scope.
Open Scope list_scope.
Open Scope Z_scope.

Notation DCR := (Result DomainContractError).

Definition VERIFICATION_SCOPE_SCHEMA_VERSION : Z := 1.
Definition VERIFICATION_CONTEXT_SCHEMA_VERSION : Z := 1.
Definition VERIFICATION_REPORT_SCHEMA_VERSION : Z := 2.
Definition ACCEPTED_RESULT_SCHEMA_VERSION : Z := 2.
Definition MAX_DOMAIN_CONTRACT_JSON_BYTES : Z := 16 * 1024 * 1024.
Definition MAX_VERIFICATION_WARNINGS : Z := 10000.
Definition MAX_VERIFICATION_METRICS : Z := 1024.
Definition MAX_VERIFICATION_FACTS : Z := 64.
Definition MAX_VERIFICATION_ENTITIES : Z := 256.
Definition MAX_VERIFICATION_EVIDENCE : Z := 64.
Definition MAX_VERIFICATION_TEXT_BYTES : Z := 4096.

Definition hex_byte (c : ascii) : bool := is_ascii_digit c || ((97 <=? byte_code c) && (byte_code c <=? 102)).
Definition valid_blake3 (value : string) : bool :=
  (Z.of_nat (String.length value) =? 64) && forallb hex_byte (String.list_ascii_of_string value).
Definition validate_hash (value : string) : DCR unit := if valid_blake3 value then Ok tt else Err InvalidBlake3.
Definition validate_message_key (value : string) : DCR unit :=
  if valid_id value then Ok tt else Err InvalidMessageKey.

(** ** Serialization *)
(** What [serde_json] writes for a record: [js_bytes] is [to_vec], [js_value] is [to_vec] of
    [to_value], and [js_without field] is [to_vec] of that value without a field; [None] is an error,
    or a field that is not there. *)
Record Json (A : Type) := {
  js_bytes : A → option (list Z); js_value : A → option (list Z); js_without : string → A → option (list Z)
}.
Arguments js_bytes {_} _ _.
Arguments js_value {_} _ _.
Arguments js_without {_} _ _ _.
Section hashing.
Context (blake3_hex : list Z → string).
(** The length check and digest of [canonical_hash], on the bytes written. *)
Definition digest_bounded (bytes : list Z) : DCR string :=
  if MAX_DOMAIN_CONTRACT_JSON_BYTES <? len bytes then Err (LimitExceeded "domain contract JSON bytes")
  else Ok (blake3_hex bytes).
Definition canonical_hash {A} (json : Json A) (value : A) : DCR string :=
  bytes ← ok_or CanonicalSerialization (js_bytes json value);
  digest_bounded bytes.
Definition ensure_domain_contract_size {A} (json : Json A) (value : A) : DCR unit :=
  bytes ← ok_or CanonicalSerialization (js_bytes json value);
  if MAX_DOMAIN_CONTRACT_JSON_BYTES <? len bytes then Err (LimitExceeded "domain contract JSON bytes") else Ok tt.
Definition checksum_without_field {A} (json : Json A) (value : A) (field : string) : DCR string :=
  complete_bytes ← ok_or CanonicalSerialization (js_value json value);
  if MAX_DOMAIN_CONTRACT_JSON_BYTES <? len complete_bytes then Err (LimitExceeded "domain contract JSON bytes")
  else
    bytes ← ok_or CanonicalSerialization (js_without json field value);
    digest_bounded bytes.
(** [parse_domain_json], with [serde_json::from_slice] a parameter. *)
Definition parse_domain_json {A} (from_slice : list Z → option A) (bytes : list Z) : DCR A :=
  if MAX_DOMAIN_CONTRACT_JSON_BYTES <? len bytes then Err (LimitExceeded "domain contract JSON bytes")
  else ok_or MalformedJson (from_slice bytes).

(** ** Normalized solutions *)
Context (json_solution : Json NormalizedSolution).
Definition NormalizedSolution_canonical_hash (self : NormalizedSolution) : DCR string :=
  _ ← NormalizedSolution_validate self;
  canonical_hash json_solution self.
End hashing.

(** ** Facts and metrics *)
Inductive VerificationValue :=
| VvBoolean (value : bool)
| VvInteger (value : Z)
| VvText (value : string)
| VvEntity (value : DomainEntityRef).
Definition VerificationValue_validate (self : VerificationValue) : DCR unit :=
  match self with
  | VvText value =>
      if bool_decide (value = "") || (MAX_VERIFICATION_TEXT_BYTES <? Z.of_nat (String.length value))
      then Err InvalidVerificationText else Ok tt
  | _ => Ok tt
  end.
Inductive MetricValue := MetricInteger (value : Z) | MetricRatio (numerator denominator : Z).
Definition MetricValue_validate (self : MetricValue) : DCR unit :=
  match self with
  | MetricRatio _ denominator => if denominator =? 0 then Err InvalidMetricRatio else Ok tt
  | MetricInteger _ => Ok tt
  end.
Definition btree_values {V} (m : gmap string V) : list V := (btree_iter m).*2.
Definition validate_fact_map (facts : gmap string VerificationValue) : DCR unit :=
  if MAX_VERIFICATION_FACTS <? Z.of_nat (size facts) then Err (LimitExceeded "verification facts")
  else for_each VerificationValue_validate (btree_values facts).
Definition validate_metrics (metrics : gmap string MetricValue) : DCR unit :=
  if MAX_VERIFICATION_METRICS <? Z.of_nat (size metrics) then Err (LimitExceeded "verification metrics")
  else for_each MetricValue_validate (btree_values metrics).

(** ** Scopes *)
Record RequiredRuleBinding := { rb_rule_id : string; rb_semantic_hash : string }.
#[global] Instance RequiredRuleBinding_eq_dec : EqDecision RequiredRuleBinding.
Proof. solve_decision. Defined.
Record VerificationScope := {
  vs_schema_version : Z; vs_scenario_id : string; vs_scenario_revision : Z;
  vs_required_rules : list RequiredRuleBinding; vs_checksum : string
}.
Section scopes.
Context (blake3_hex : list Z → string) (json_scope : Json VerificationScope).
Definition VerificationScope_new (scenario_id : string) (scenario_revision : Z)
    (required_rules : list RequiredRuleBinding) : DCR VerificationScope :=
  _ ← validate_revision scenario_revision;
  if MAX_VERIFICATION_RULES <? len required_rules then Err (LimitExceeded "required rules")
  else
    let required_rules := sort_by_key rb_rule_id required_rules in
    _ ← for_each (λ '(a, b),
          if bool_decide (rb_rule_id a = rb_rule_id b) then Err (DuplicateRequiredRule (rb_rule_id a)) else Ok tt)
          (windows2 required_rules);
    _ ← for_each (λ binding, validate_hash (rb_semantic_hash binding)) required_rules;
    let scope checksum := {| vs_schema_version := VERIFICATION_SCOPE_SCHEMA_VERSION; vs_scenario_id := scenario_id;
      vs_scenario_revision := scenario_revision; vs_required_rules := required_rules; vs_checksum := checksum |} in
    checksum ← checksum_without_field blake3_hex json_scope (scope "") "checksum";
    _ ← ensure_domain_contract_size json_scope (scope checksum);
    Ok (scope checksum).
Definition VerificationScope_validate (self : VerificationScope) : DCR unit :=
  if negb (vs_schema_version self =? VERIFICATION_SCOPE_SCHEMA_VERSION)
  then Err (UnsupportedVersion (vs_schema_version self))
  else
    _ ← validate_revision (vs_scenario_revision self);
    if MAX_VERIFICATION_RULES <? len (vs_required_rules self) then Err (LimitExceeded "required rules")
    else if negb (strictly_sorted_by rb_rule_id (vs_required_rules self)) then Err NonCanonicalRequiredRules
    else
      _ ← for_each (λ binding, validate_hash (rb_semantic_hash binding)) (vs_required_rules self);
      _ ← validate_hash (vs_checksum self);
      checksum ← checksum_without_field blake3_hex json_scope self "checksum";
      if negb (bool_decide (checksum = vs_checksum self)) then Err ChecksumMismatch else Ok tt.
Definition VerificationScope_from_json (from_slice : list Z → option VerificationScope) (bytes : list Z) :
    DCR VerificationScope :=
  value ← parse_domain_json from_slice bytes;
  _ ← VerificationScope_validate value;
  Ok value.
End scopes.

(** ** Contexts *)
Record VerificationContextV1 := {
  vc_schema_version : Z; vc_scenario_id : string; vc_evaluated_revision : Z; vc_document_hash : string;
  vc_planning_model_hash : string; vc_normalized_solution_hash : string; vc_verification_scope_checksum : string
}.
Definition VerificationContextV1_validate (self : VerificationContextV1) : DCR unit :=
  if negb (vc_schema_version self =? VERIFICATION_CONTEXT_SCHEMA_VERSION)
  then Err (UnsupportedVersion (vc_schema_version self))
  else
    _ ← validate_revision (vc_evaluated_revision self);
    for_each validate_hash [vc_document_hash self; vc_planning_model_hash self; vc_normalized_solution_hash self;
                            vc_verification_scope_checksum self].
Definition VerificationContextV1_new (scenario_id : string) (evaluated_revision : Z)
    (document_hash planning_model_hash normalized_solution_hash verification_scope_checksum : string) :
    DCR VerificationContextV1 :=
  let value := {| vc_schema_version := VERIFICATION_CONTEXT_SCHEMA_VERSION; vc_scenario_id := scenario_id;
    vc_evaluated_revision := evaluated_revision; vc_document_hash := document_hash;
    vc_planning_model_hash := planning_model_hash; vc_normalized_solution_hash := normalized_solution_hash;
    vc_verification_scope_checksum := verification_scope_checksum |} in
  _ ← VerificationContextV1_validate value;
  Ok value.
Definition VerificationContextV1_from_json (from_slice : list Z → option VerificationContextV1) (bytes : list Z) :
    DCR VerificationContextV1 :=
  value ← parse_domain_json from_slice bytes;
  _ ← VerificationContextV1_validate value;
  Ok value.

(** ** Evaluations and warnings *)
Record RuleEvaluation := {
  re_rule_id : string; re_satisfied : bool; re_affected_entities : list DomainEntityRef; re_message_key : string;
  re_expected : gmap string VerificationValue; re_observed : gmap string VerificationValue; re_evidence : list string
}.
Definition RuleEvaluation_validate (self : RuleEvaluation) : DCR unit :=
  _ ← validate_message_key (re_message_key self);
  if MAX_VERIFICATION_ENTITIES <? len (re_affected_entities self) then Err (LimitExceeded "affected entities")
  else if negb (strictly_sorted (re_affected_entities self)) then Err NonCanonicalAffectedEntities
  else if MAX_VERIFICATION_EVIDENCE <? len (re_evidence self) then Err (LimitExceeded "verification evidence")
  else if negb (strictly_sorted (re_evidence self)) then Err NonCanonicalVerificationEvidence
  else
    _ ← validate_fact_map (re_expected self);
    validate_fact_map (re_observed self).
Definition RuleEvaluation_canonicalize (self : RuleEvaluation) : DCR RuleEvaluation :=
  let affected_entities := ord_sort (re_affected_entities self) in
  if negb (strictly_sorted affected_entities) && (1 <? len affected_entities) then Err DuplicateAffectedEntity
  else
    let evidence := ord_sort (re_evidence self) in
    if negb (strictly_sorted evidence) && (1 <? len evidence) then Err DuplicateVerificationEvidence
    else
      let evaluation := {| re_rule_id := re_rule_id self; re_satisfied := re_satisfied self;
        re_affected_entities := affected_entities; re_message_key := re_message_key self;
        re_expected := re_expected self; re_observed := re_observed self; re_evidence := evidence |} in
      _ ← RuleEvaluation_validate evaluation;
      Ok evaluation.
Record VerificationWarning := {
  vw_id : string; vw_message_key : string; vw_affected_entities : list DomainEntityRef;
  vw_facts : gmap string VerificationValue
}.
Definition VerificationWarning_validate (self : VerificationWarning) : DCR unit :=
  _ ← validate_message_key (vw_message_key self);
  if MAX_VERIFICATION_ENTITIES <? len (vw_affected_entities self) then Err (LimitExceeded "affected entities")
  else if negb (strictly_sorted (vw_affected_entities self)) then Err NonCanonicalAffectedEntities
  else validate_fact_map (vw_facts self).
Definition VerificationWarning_canonicalize (self : VerificationWarning) : DCR VerificationWarning :=
  let affected_entities := ord_sort (vw_affected_entities self) in
  if negb (strictly_sorted affected_entities) && (1 <? len affected_entities) then Err DuplicateAffectedEntity
  else
    let warning := {| vw_id := vw_id self; vw_message_key := vw_message_key self;
      vw_affected_entities := affected_entities; vw_facts := vw_facts self |} in
    _ ← VerificationWarning_validate warning;
    Ok warning.

(** ** Reports *)
Record VerificationReport := {
  vr_schema_version : Z; vr_accepted : bool; vr_scenario_id : string; vr_evaluated_revision : Z;
  vr_document_hash : string; vr_planning_model_hash : string; vr_normalized_solution_hash : string;
  vr_verification_scope_checksum : string; vr_required_rule_results : list RuleEvaluation; vr_score : ScoreVector;
  vr_warnings : list VerificationWarning; vr_metrics : gmap string MetricValue; vr_checksum : string
}.
Section reports.
Context (blake3_hex : list Z → string) (json_report : Json VerificationReport).
Definition VerificationReport_new (context : VerificationContextV1) (required_rule_results : list RuleEvaluation)
    (score : ScoreVector) (warnings : list VerificationWarning) (metrics : gmap string MetricValue) :
    DCR VerificationReport :=
  _ ← VerificationContextV1_validate context;
  if MAX_VERIFICATION_RULES <? len required_rule_results then Err (LimitExceeded "rule evaluations")
  else
    required_rule_results ← mapM RuleEvaluation_canonicalize required_rule_results;
    let required_rule_results := sort_by_key re_rule_id required_rule_results in
    _ ← for_each (λ '(a, b),
          if bool_decide (re_rule_id a = re_rule_id b) then Err (DuplicateRuleEvaluation (re_rule_id a)) else Ok tt)
          (windows2 required_rule_results);
    if MAX_VERIFICATION_WARNINGS <? len warnings then Err (LimitExceeded "verification warnings")
    else
      warnings ← mapM VerificationWarning_canonicalize warnings;
      let warnings := sort_by_key vw_id warnings in
      _ ← for_each (λ '(a, b), if bool_decide (vw_id a = vw_id b) then Err DuplicateVerificationWarning else Ok tt)
            (windows2 warnings);
      _ ← validate_current_shape score;
      _ ← validate_metrics metrics;
      let report checksum := {| vr_schema_version := VERIFICATION_REPORT_SCHEMA_VERSION;
        vr_accepted := forallb re_satisfied required_rule_results; vr_scenario_id := vc_scenario_id context;
        vr_evaluated_revision := vc_evaluated_revision context; vr_document_hash := vc_document_hash context;
        vr_planning_model_hash := vc_planning_model_hash context;
        vr_normalized_solution_hash := vc_normalized_solution_hash context;
        vr_verification_scope_checksum := vc_verification_scope_checksum context;
        vr_required_rule_results := required_rule_results; vr_score := score; vr_warnings := warnings;
        vr_metrics := metrics; vr_checksum := checksum |} in
      checksum ← checksum_without_field blake3_hex json_report (report "") "checksum";
      _ ← ensure_domain_contract_size json_report (report checksum);
      Ok (report checksum).
Definition VerificationReport_validate (self : VerificationReport) : DCR unit :=
  if negb (vr_schema_version self =? VERIFICATION_REPORT_SCHEMA_VERSION)
  then Err (UnsupportedVersion (vr_schema_version self))
  else
    _ ← validate_revision (vr_evaluated_revision self);
    _ ← for_each validate_hash [vr_document_hash self; vr_planning_model_hash self; vr_normalized_solution_hash self;
                                vr_verification_scope_checksum self; vr_checksum self];
    if MAX_VERIFICATION_RULES <? len (vr_required_rule_results self) then Err (LimitExceeded "rule evaluations")
    else if negb (strictly_sorted_by re_rule_id (vr_required_rule_results self)) then Err NonCanonicalRuleEvaluations
    else
      _ ← for_each RuleEvaluation_validate (vr_required_rule_results self);
      _ ← validate_current_shape (vr_score self);
      if MAX_VERIFICATION_WARNINGS <? len (vr_warnings self) then Err (LimitExceeded "verification warnings")
      else if negb (strictly_sorted_by vw_id (vr_warnings self)) then Err NonCanonicalVerificationWarnings
      else
        _ ← for_each VerificationWarning_validate (vr_warnings self);
        _ ← validate_metrics (vr_metrics self);
        if negb (bool_decide (vr_accepted self = forallb re_satisfied (vr_required_rule_results self)))
        then Err InconsistentVerification
        else
          checksum ← checksum_without_field blake3_hex json_report self "checksum";
          if negb (bool_decide (checksum = vr_checksum self)) then Err ChecksumMismatch else Ok tt.
End reports.

(** ** Accepted results *)
Record AcceptedResult := {
  ac_schema_version : Z; ac_solution : NormalizedSolution; ac_verification : VerificationReport; ac_checksum : string
}.
Section results.
Context (blake3_hex : list Z → string) (json_solution : Json NormalizedSolution).
Context (json_report : Json VerificationReport) (json_result : Json AcceptedResult).
Definition validate_result_binding (solution : NormalizedSolution) (verification : VerificationReport) : DCR unit :=
  _ ← NormalizedSolution_validate solution;
  _ ← VerificationReport_validate blake3_hex json_report verification;
  let mismatch := Err VerificationBindingMismatch in
  if negb (bool_decide (ns_scenario_id solution = vr_scenario_id verification)) then mismatch
  else if negb (ns_scenario_revision solution =? vr_evaluated_revision verification) then mismatch
  else
    hash ← NormalizedSolution_canonical_hash blake3_hex json_solution solution;
    if negb (bool_decide (hash = vr_normalized_solution_hash verification)) then mismatch
    else if negb (vr_accepted verification) || negb (feasibility (vr_score verification) =? 0)
    then Err NotVerifiedFeasible
    else Ok tt.
Definition AcceptedResult_new (solution : NormalizedSolution) (verification : VerificationReport) :
    DCR AcceptedResult :=
  _ ← validate_result_binding solution verification;
  let result checksum := {| ac_schema_version := ACCEPTED_RESULT_SCHEMA_VERSION; ac_solution := solution;
    ac_verification := verification; ac_checksum := checksum |} in
  checksum ← checksum_without_field blake3_hex json_result (result "") "checksum";
  _ ← ensure_domain_contract_size json_result (result checksum);
  Ok (result checksum).
Definition AcceptedResult_validate (self : AcceptedResult) : DCR unit :=
  if negb (ac_schema_version self =? ACCEPTED_RESULT_SCHEMA_VERSION)
  then Err (UnsupportedVersion (ac_schema_version self))
  else
    _ ← validate_result_binding (ac_solution self) (ac_verification self);
    _ ← validate_hash (ac_checksum self);
    checksum ← checksum_without_field blake3_hex json_result self "checksum";
    if negb (bool_decide (checksum = ac_checksum self)) then Err ChecksumMismatch else Ok tt.
End results.

(** ** What is built validates *)
(** A scope, a report or an accepted result that could be built passes its own validation, and a scope
    comes back from its JSON text.  What [serde_json] and BLAKE3 contribute is stated as laws of the
    serializer and of the digest. *)
(** ** Sorted without duplicates *)
Lemma windows_strict {E A} (key : A → string) (e : A → E) l :
  for_each (λ '(a, b), if bool_decide (key a = key b) then Err (e a) else Ok tt) (windows2 (sort_by_key key l)) = Ok tt →
  strictly_sorted_by key (sort_by_key key l) = true.
Proof.
  intros H. apply strictly_sorted_by_spec. pose proof (sort_by_key_sorted key l) as Hs.
  induction Hs as [|x k Hs IH Hall]; [constructor|]. destruct k as [|y k]; [repeat constructor|].
  rewrite windows2_cons in H. cbn [for_each] in H. apply result_bind_Ok in H as ([] & Hxy & H).
  case_bool_decide as Hne; [done|]. specialize (IH H). constructor; [done|].
  apply Forall_cons in Hall as [Hle _]. apply le_lt_eq in Hle as [Hlt|]; [|done].
  constructor; [done|]. inversion IH as [|? ? _ Hy]. eapply Forall_impl; [exact Hy|].
  intros z Hz. by eapply lt_trans.
Qed.
Lemma mapM_Ok {E A B} (f : A → Result E B) l k : mapM f l = Ok k → Forall2 (λ x y, f x = Ok y) l k.
Proof.
  revert k. induction l as [|x l IH]; intros k; cbn; [by intros [= <-]|].
  intros (y & Hy & H)%result_bind_Ok. apply result_bind_Ok in H as (k' & Hk & [= <-]). by constructor; [|apply IH].
Qed.

(** ** Checksums *)
(** A record with a checksum field, written by [serde_json]: a field that is left out does not show,
    and a record and its value tree have texts of one length. *)
Class ChecksumJson {A} (json : Json A) (set_checksum : string → A → A) : Prop := {
  cj_without : ∀ c v, js_without json "checksum" (set_checksum c v) = js_without json "checksum" v;
  cj_length : ∀ v bytes, js_bytes json v = Some bytes → ∃ bytes', js_value json v = Some bytes' ∧ len bytes' = len bytes
}.
Definition set_scope_checksum (c : string) (v : VerificationScope) : VerificationScope :=
  {| vs_schema_version := vs_schema_version v; vs_scenario_id := vs_scenario_id v;
     vs_scenario_revision := vs_scenario_revision v; vs_required_rules := vs_required_rules v; vs_checksum := c |}.
Definition set_report_checksum (c : string) (v : VerificationReport) : VerificationReport :=
  {| vr_schema_version := vr_schema_version v; vr_accepted := vr_accepted v; vr_scenario_id := vr_scenario_id v;
     vr_evaluated_revision := vr_evaluated_revision v; vr_document_hash := vr_document_hash v;
     vr_planning_model_hash := vr_planning_model_hash v; vr_normalized_solution_hash := vr_normalized_solution_hash v;
     vr_verification_scope_checksum := vr_verification_scope_checksum v;
     vr_required_rule_results := vr_required_rule_results v; vr_score := vr_score v; vr_warnings := vr_warnings v;
     vr_metrics := vr_metrics v; vr_checksum := c |}.
Definition set_result_checksum (c : string) (v : AcceptedResult) : AcceptedResult :=
  {| ac_schema_version := ac_schema_version v; ac_solution := ac_solution v; ac_verification := ac_verification v;
     ac_checksum := c |}.
(** The digest is 64 lowercase hexadecimal digits. *)
Definition hex_digest (blake3_hex : list Z → string) : Prop := ∀ bytes, valid_blake3 (blake3_hex bytes) = true.

Section contracts.
Context (blake3_hex : list Z → string) (Hhex : hex_digest blake3_hex).
Context (json_scope : Json VerificationScope) (json_report : Json VerificationReport).
Context (json_solution : Json NormalizedSolution) (json_result : Json AcceptedResult).
Context {Jscope : ChecksumJson json_scope set_scope_checksum}.
Context {Jreport : ChecksumJson json_report set_report_checksum}.
Context {Jresult : ChecksumJson json_result set_result_checksum}.

Lemma digest_valid bytes d : digest_bounded blake3_hex bytes = Ok d → validate_hash d = Ok tt.
Proof using Hhex. unfold digest_bounded, validate_hash. destruct (_ <? _); [done|]. intros [= <-]. by rewrite Hhex. Qed.
Lemma checksum_valid {A} (json : Json A) v field c :
  checksum_without_field blake3_hex json v field = Ok c → validate_hash c = Ok tt.
Proof using Hhex.
  intros (b & _ & H)%result_bind_Ok. destruct (_ <? _); [done|].
  apply result_bind_Ok in H as (b' & _ & H). by eapply digest_valid.
Qed.
(** Setting the checksum that was computed does not change it. *)
Lemma checksum_sealed {A} (json : Json A) set_checksum `{!ChecksumJson json set_checksum} v c :
  checksum_without_field blake3_hex json v "checksum" = Ok c →
  ensure_domain_contract_size json (set_checksum c v) = Ok tt →
  checksum_without_field blake3_hex json (set_checksum c v) "checksum" = Ok c.
Proof using.
  intros (b & _ & H)%result_bind_Ok (b' & Hb'%ok_or_Ok & Hs)%result_bind_Ok.
  destruct (_ <? len b); [done|]. destruct (cj_length (set_checksum := set_checksum) _ _ Hb') as (b'' & Hv & Hl).
  unfold checksum_without_field. rewrite Hv. cbn [ok_or mbind Result_bind]. rewrite Hl. rewrite cj_without.
  by destruct (_ <? len b').
Qed.
Lemma scope_new_valid scenario_id revision rules scope :
  VerificationScope_new blake3_hex json_scope scenario_id revision rules = Ok scope →
  VerificationScope_validate blake3_hex json_scope scope = Ok tt.
Proof using Hhex Jscope.
  unfold VerificationScope_new, VerificationScope_validate. intros ([] & Hr & H)%result_bind_Ok.
  destruct (_ <? len rules) eqn:Hl; [done|]. cbn zeta in H. apply result_bind_Ok in H as ([] & Hw%windows_strict & H).
  apply result_bind_Ok in H as ([] & Hh & H). apply result_bind_Ok in H as (c & Hc & H).
  apply result_bind_Ok in H as ([] & Hs & [= <-]). cbn.
  rewrite Hr. cbn. unfold len in *. rewrite sort_by_key_perm, Hl, Hw. cbn. rewrite Hh. cbn.
  rewrite (checksum_valid _ _ _ _ Hc). cbn.
  pose proof (checksum_sealed json_scope set_scope_checksum _ _ Hc Hs) as Hseal. unfold set_scope_checksum in Hseal. cbn in Hseal.
  rewrite Hseal. cbn. by rewrite bool_decide_true.
Qed.
Lemma evaluation_canonical e e' :
  RuleEvaluation_canonicalize e = Ok e' →
  re_rule_id e' = re_rule_id e ∧ re_satisfied e' = re_satisfied e ∧ RuleEvaluation_validate e' = Ok tt.
Proof using.
  unfold RuleEvaluation_canonicalize. cbn zeta. destruct (_ && _); [done|]. destruct (_ && _); [done|].
  intros ([] & Hv & [= <-])%result_bind_Ok. done.
Qed.
Lemma warning_canonical w w' :
  VerificationWarning_canonicalize w = Ok w' → VerificationWarning_validate w' = Ok tt.
Proof using.
  unfold VerificationWarning_canonicalize. cbn zeta. destruct (_ && _); [done|].
  intros ([] & Hv & [= <-])%result_bind_Ok. done.
Qed.
Lemma Forall2_validated {A B} (R : A → B → Prop) (P : B → Prop) l k : (∀ a b, R a b → P b) → Forall2 R l k → Forall P k.
Proof using. intros HP H. induction H; constructor; eauto. Qed.
Lemma context_hashes context :
  VerificationContextV1_validate context = Ok tt →
  validate_revision (vc_evaluated_revision context) = Ok tt ∧
  Forall (λ h, validate_hash h = Ok tt) [vc_document_hash context; vc_planning_model_hash context;
    vc_normalized_solution_hash context; vc_verification_scope_checksum context].
Proof using.
  unfold VerificationContextV1_validate. destruct (negb _); [done|].
  intros ([] & Hr & Hh)%result_bind_Ok. split; [done|]. by apply for_each_Ok.
Qed.
Lemma report_new_valid context results score warnings metrics report :
  VerificationReport_new blake3_hex json_report context results score warnings metrics = Ok report →
  VerificationReport_validate blake3_hex json_report report = Ok tt.
Proof using Hhex Jreport.
  unfold VerificationReport_new. intros ([] & [Hrev Hhash]%context_hashes & H)%result_bind_Ok.
  destruct (_ <? len results) eqn:Hl; [done|].
  apply result_bind_Ok in H as (results' & Hres%mapM_Ok & H). apply result_bind_Ok in H as ([] & Hw%windows_strict & H).
  destruct (_ <? len warnings) eqn:Hlw; [done|].
  apply result_bind_Ok in H as (warnings' & Hwar%mapM_Ok & H). apply result_bind_Ok in H as ([] & Hww%windows_strict & H).
  apply result_bind_Ok in H as ([] & Hscore & H). apply result_bind_Ok in H as ([] & Hmet & H).
  apply result_bind_Ok in H as (c & Hc & H). apply result_bind_Ok in H as ([] & Hs & [= <-]).
  pose proof (checksum_sealed json_report set_report_checksum _ _ Hc Hs) as Hseal.
  unfold set_report_checksum in Hseal. cbn in Hseal. unfold VerificationReport_validate. cbn. rewrite Hrev. cbn.
  assert (Forall (λ h, validate_hash h = Ok tt) [vc_document_hash context; vc_planning_model_hash context;
    vc_normalized_solution_hash context; vc_verification_scope_checksum context; c]) as Hall%for_each_Ok.
  { change ([?a; ?b; ?d; ?e; c]) with ([a; b; d; e] ++ [c]). apply Forall_app. split; [done|].
    constructor; [by eapply checksum_valid|constructor]. }
  cbn [for_each] in Hall. rewrite Hall. cbn.
  assert (for_each RuleEvaluation_validate (sort_by_key re_rule_id results') = Ok tt) as Hev.
  { apply for_each_Ok, sort_by_key_Forall. eapply Forall2_validated; [|exact Hres].
    intros e e' He. by apply evaluation_canonical in He as (_ & _ & ?). }
  assert (for_each VerificationWarning_validate (sort_by_key vw_id warnings') = Ok tt) as Hwv.
  { apply for_each_Ok, sort_by_key_Forall. eapply Forall2_validated; [|exact Hwar]. intros w w'. apply warning_canonical. }
  assert (length (sort_by_key re_rule_id results') = length results) as Hlr
    by (by rewrite sort_by_key_perm, (Forall2_length _ _ _ Hres)).
  assert (length (sort_by_key vw_id warnings') = length warnings) as Hlw'
    by (by rewrite sort_by_key_perm, (Forall2_length _ _ _ Hwar)).
  unfold len in *. rewrite Hlr, Hl, Hw. cbn. rewrite Hev. cbn. rewrite Hscore. cbn.
  rewrite Hlw', Hlw, Hww. cbn. rewrite Hwv. cbn. rewrite Hmet. cbn. rewrite bool_decide_true by done. cbn.
  rewrite Hseal. cbn. by rewrite bool_decide_true.
Qed.
Lemma accepted_new_valid solution report result :
  AcceptedResult_new blake3_hex json_solution json_report json_result solution report = Ok result →
  AcceptedResult_validate blake3_hex json_solution json_report json_result result = Ok tt.
Proof using Hhex Jresult.
  unfold AcceptedResult_new, AcceptedResult_validate. intros ([] & Hb & H)%result_bind_Ok.
  apply result_bind_Ok in H as (c & Hc & H). apply result_bind_Ok in H as ([] & Hs & [= <-]).
  pose proof (checksum_sealed json_result set_result_checksum _ _ Hc Hs) as Hseal.
  unfold set_result_checksum in Hseal. cbn in *. rewrite Hb. cbn. rewrite (checksum_valid _ _ _ _ Hc). cbn.
  rewrite Hseal. cbn. by rewrite bool_decide_true.
Qed.
(** A contract within the size bound is read back from the text that was written. *)
Lemma parse_domain_written {A} (json : Json A) (from_slice : list Z → option A) v bytes :
  js_bytes json v = Some bytes → from_slice bytes = Some v → ensure_domain_contract_size json v = Ok tt →
  parse_domain_json from_slice bytes = Ok v.
Proof using.
  intros Hb Hf Hs. unfold parse_domain_json, ensure_domain_contract_size in *. rewrite Hb in Hs. cbn in Hs.
  rewrite Hf. by destruct (_ <? _).
Qed.
Lemma scope_new_size scenario_id revision rules scope :
  VerificationScope_new blake3_hex json_scope scenario_id revision rules = Ok scope →
  ensure_domain_contract_size json_scope scope = Ok tt.
Proof using.
  intros ([] & _ & H)%result_bind_Ok. destruct (_ <? _); [done|]. apply result_bind_Ok in H as ([] & _ & H).
  apply result_bind_Ok in H as ([] & _ & H). apply result_bind_Ok in H as (c & _ & H).
  by apply result_bind_Ok in H as ([] & Hs & [= <-]).
Qed.
End contracts.

Section roundtrip.
Context (blake3_hex : list Z → string) (json_scope : Json VerificationScope) (json_report : Json VerificationReport).
Context (json_solution : Json NormalizedSolution) (json_result : Json AcceptedResult).
Context (from_slice : list Z → option VerificationScope).
(** The verification contracts that can be built are the ones that validate: a scope, a report
    or an accepted result that its constructor returned passes its own validation, checksum
    included, and a scope comes back unchanged from the text that was written for it. *)
Theorem built_contracts_validate :
  hex_digest blake3_hex → ChecksumJson json_scope set_scope_checksum →
  ChecksumJson json_report set_report_checksum → ChecksumJson json_result set_result_checksum →
  (∀ scope bytes, js_bytes json_scope scope = Some bytes → from_slice bytes = Some scope) →
  (∀ id revision rules scope bytes, VerificationScope_new blake3_hex json_scope id revision rules = Ok scope →
     js_bytes json_scope scope = Some bytes →
     VerificationScope_from_json blake3_hex json_scope from_slice bytes = Ok scope) ∧
  (∀ context results score warnings metrics report,
     VerificationReport_new blake3_hex json_report context results score warnings metrics = Ok report →
     VerificationReport_validate blake3_hex json_report report = Ok tt) ∧
  (∀ solution report result,
     AcceptedResult_new blake3_hex json_solution json_report json_result solution report = Ok result →
     AcceptedResult_validate blake3_hex json_solution json_report json_result result = Ok tt).
Proof using.
  intros Hhex Hs Hr Ha Hread. split_and!.
  - intros id revision rules scope bytes Hn Hb. unfold VerificationScope_from_json.
    rewrite (parse_domain_written json_scope from_slice scope) by eauto using scope_new_size. cbn.
    by rewrite (scope_new_valid blake3_hex Hhex json_scope _ _ _ _ Hn).
  - intros *. by apply report_new_valid.
  - intros *. by apply accepted_new_valid.
Qed.
End roundtrip.
