(* ===== verification/Counterfactual.v ===== *)
(** * Counterfactual conditions and their additive compilation

    Models the counterfactual contracts of [crates/eutheto-domain-ir/src/explanation.rs] — the
    condition with its satisfaction by a solution, and the compilation binding — and
    [validate_counterfactual_problem] of [crates/eutheto-explain/src/counterfactual.rs], which admits a
    derived planning problem only as an additive compilation of its base.  The theorem says which
    derived problems are admitted, and that their feasible assignments are the base's feasible
    assignments that meet the added constraints, scored as the base scores them. *)
From stdpp Require Import base tactics list gmap strings.
From Stdlib Require Import ZArith Lia Sorted.
From S2P Require Import Prelude Ordering Control Budget Ids DomainIr Model Analysis Validation Admission Canonical.
From S2P Require Import Scoping CanonicalFacts Evaluator EvaluatorFacts Conflict TranslationExact Router VerificationIr.
Open Scope string_scope.
Open Scope list_scope.
Open Scope Z_scope.

(** ** Conditions *)
Definition COUNTERFACTUAL_CONDITION_SCHEMA_VERSION : Z := 1.
Definition COUNTERFACTUAL_COMPILATION_BINDING_SCHEMA_VERSION : Z := 1.
Definition validate_version (actual expected : Z) : DCR unit :=
  if actual =? expected then Ok tt else Err (UnsupportedVersion actual).

Inductive CounterfactualConditionPayloadV1 :=
| ForceAssignmentValue (assignment_id : string) (value : AssignmentValue)
| ForbidAssignmentValue (assignment_id : string) (value : AssignmentValue)
| ReplaceAssignment (target_assignment_id replaced_assignment_id : string).
Definition CounterfactualConditionPayloadV1_validate (self : CounterfactualConditionPayloadV1) : DCR unit :=
  match self with
  | ForceAssignmentValue _ value | ForbidAssignmentValue _ value =>
      match value with AVInterval interval => AssignedInterval_validate interval | _ => Ok tt end
  | ReplaceAssignment target_assignment_id replaced_assignment_id =>
      if bool_decide (target_assignment_id = "") || bool_decide (replaced_assignment_id = "")
      then explanation_error "counterfactual replacement assignment ids"
      else if bool_decide (target_assignment_id = replaced_assignment_id)
      then explanation_error "counterfactual replacement assignments must be distinct"
      else Ok tt
  end.
Definition condition_assignment_id (condition : CounterfactualConditionPayloadV1) : string :=
  match condition with
  | ForceAssignmentValue assignment_id _ | ForbidAssignmentValue assignment_id _ => assignment_id
  | ReplaceAssignment target_assignment_id _ => target_assignment_id
  end.

Record CounterfactualConditionV1 := {
  cc_schema_version : Z; cc_condition : CounterfactualConditionPayloadV1; cc_checksum : string
}.
(** [assignments.iter().find(|assignment| assignment.id == id)] *)
Definition find_assignment (id : string) (solution : NormalizedSolution) : option DomainAssignment :=
  snd <$> list_find (λ a, da_id a = id) (ns_assignments solution).
Definition counterfactual_condition_satisfied (condition : CounterfactualConditionV1)
    (solution : NormalizedSolution) : bool :=
  match find_assignment (condition_assignment_id (cc_condition condition)) solution with
  | None => false
  | Some assignment =>
      match cc_condition condition with
      | ForceAssignmentValue _ value => bool_decide (da_value assignment = value)
      | ForbidAssignmentValue _ value => negb (bool_decide (da_value assignment = value))
      | ReplaceAssignment _ replaced_assignment_id =>
          match da_value assignment with AVBoolean true => true | _ => false end
          && match find_assignment replaced_assignment_id solution with
             | Some replaced => match da_value replaced with AVBoolean false => true | _ => false end
             | None => false
             end
      end
  end.

Section conditions.
Context (blake3_hex : list Z → string) (json_condition : Json CounterfactualConditionV1).
Definition CounterfactualConditionV1_new (condition : CounterfactualConditionPayloadV1) :
    DCR CounterfactualConditionV1 :=
  _ ← CounterfactualConditionPayloadV1_validate condition;
  let value checksum := {| cc_schema_version := COUNTERFACTUAL_CONDITION_SCHEMA_VERSION;
                           cc_condition := condition; cc_checksum := checksum |} in
  checksum ← checksum_without_field blake3_hex json_condition (value "") "checksum";
  _ ← ensure_domain_contract_size json_condition (value checksum);
  Ok (value checksum).
Definition CounterfactualConditionV1_validate (self : CounterfactualConditionV1) : DCR unit :=
  _ ← validate_version (cc_schema_version self) COUNTERFACTUAL_CONDITION_SCHEMA_VERSION;
  _ ← CounterfactualConditionPayloadV1_validate (cc_condition self);
  _ ← validate_hash (cc_checksum self);
  checksum ← checksum_without_field blake3_hex json_condition self "checksum";
  if negb (bool_decide (checksum = cc_checksum self)) then Err ChecksumMismatch else Ok tt.
End conditions.

(** ** Compilation bindings *)
Record CounterfactualCompilationBindingV1 := {
  cb_schema_version : Z; cb_base_model_hash : string; cb_condition_checksum : string;
  cb_derived_model_hash : string; cb_objective_policy_hash : string; cb_checksum : string
}.
Section bindings.
Context (blake3_hex : list Z → string) (json_binding : Json CounterfactualCompilationBindingV1).
Definition CounterfactualCompilationBindingV1_validate_payload (self : CounterfactualCompilationBindingV1) : DCR unit :=
  _ ← validate_version (cb_schema_version self) COUNTERFACTUAL_COMPILATION_BINDING_SCHEMA_VERSION;
  _ ← for_each validate_hash
        [cb_base_model_hash self; cb_condition_checksum self; cb_derived_model_hash self;
         cb_objective_policy_hash self];
  if bool_decide (cb_base_model_hash self = cb_derived_model_hash self)
  then explanation_error "unchanged counterfactual model" else Ok tt.
Definition CounterfactualCompilationBindingV1_new (base_model_hash condition_checksum derived_model_hash
    objective_policy_hash : string) : DCR CounterfactualCompilationBindingV1 :=
  let value checksum := {| cb_schema_version := COUNTERFACTUAL_COMPILATION_BINDING_SCHEMA_VERSION;
    cb_base_model_hash := base_model_hash; cb_condition_checksum := condition_checksum;
    cb_derived_model_hash := derived_model_hash; cb_objective_policy_hash := objective_policy_hash;
    cb_checksum := checksum |} in
  _ ← CounterfactualCompilationBindingV1_validate_payload (value "");
  checksum ← checksum_without_field blake3_hex json_binding (value "") "checksum";
  Ok (value checksum).
Definition CounterfactualCompilationBindingV1_validate (self : CounterfactualCompilationBindingV1) : DCR unit :=
  _ ← CounterfactualCompilationBindingV1_validate_payload self;
  _ ← validate_hash (cb_checksum self);
  checksum ← checksum_without_field blake3_hex json_binding self "checksum";
  if negb (bool_decide (checksum = cb_checksum self)) then Err ChecksumMismatch else Ok tt.
End bindings.

(** ** Baseline preservation *)
Definition COUNTERFACTUAL_CONDITION_HASH_METADATA_KEY : string := "eutheto.counterfactual.condition_hash".
Inductive CounterfactualValidationError :=
| InvalidBase (error : ValidationError)
| InvalidDerived (error : ValidationError)
| InvalidCondition (error : DomainContractError)
| BaselineMutation (field : string)
| InvalidConditionMetadata
| MissingConditionConstraint
| InvalidConditionProvenance
| ModelHash (error : CanonicalError)
| UnchangedModelHash
| InvalidBinding (error : DomainContractError).
Notation CVR := (Result CounterfactualValidationError).

Definition require_equal {T} `{EqDecision T} (base derived : T) (field : string) : CVR unit :=
  if bool_decide (base = derived) then Ok tt else Err (BaselineMutation field).
Definition validate_condition_metadata (base derived : PlanningProblem) (condition : CounterfactualConditionV1) :
    CVR unit :=
  key ← map_err (λ _, InvalidConditionMetadata) (PlanningId_new COUNTERFACTUAL_CONDITION_HASH_METADATA_KEY);
  let kept := pm_compile_metadata (metadata base) in
  if bool_decide (is_Some (kept !! key)) then Err InvalidConditionMetadata
  else
    let expected := <[key := PText (cc_checksum condition)]> kept in
    if negb (bool_decide (pm_compile_metadata (metadata derived) = expected)) then Err InvalidConditionMetadata
    else Ok tt.

(** The two loops walk what is left of both slices, from the indices on. *)
Fixpoint provenance_additions (base derived : list ProvenanceRecord) (added : gset string) : CVR (gset string) :=
  match derived with
  | [] => if bool_decide (base = []) then Ok added else Err (BaselineMutation "provenance")
  | record :: derived' =>
      match base with
      | original :: base' =>
          match cmp (pr_id original) (pr_id record) with
          | Lt => Err (BaselineMutation "provenance")
          | Eq =>
              if negb (bool_decide (original = record)) then Err (BaselineMutation "provenance")
              else provenance_additions base' derived' added
          | Gt =>
              if negb (bool_decide (pr_source_kind record = Derived)) then Err InvalidConditionProvenance
              else provenance_additions base derived' ({[pr_id record]} ∪ added)
          end
      | [] =>
          if negb (bool_decide (pr_source_kind record = Derived)) then Err InvalidConditionProvenance
          else provenance_additions [] derived' ({[pr_id record]} ∪ added)
      end
  end.
Definition validate_provenance_additions (base derived : list ProvenanceRecord) : CVR (gset string) :=
  provenance_additions base derived ∅.
Fixpoint constraint_additions (base derived : list ConstraintRecord) (added_provenance : gset string)
    (additions : nat) : CVR nat :=
  match derived with
  | [] => if bool_decide (base = []) then Ok additions else Err (BaselineMutation "constraints")
  | record :: derived' =>
      match base with
      | original :: base' =>
          match cmp (cr_id original) (cr_id record) with
          | Lt => Err (BaselineMutation "constraints")
          | Eq =>
              if negb (bool_decide (original = record)) then Err (BaselineMutation "constraints")
              else constraint_additions base' derived' added_provenance additions
          | Gt =>
              if negb (bool_decide (cr_provenance record ∈ added_provenance)) then Err InvalidConditionProvenance
              else constraint_additions base derived' added_provenance (S additions)
          end
      | [] =>
          if negb (bool_decide (cr_provenance record ∈ added_provenance)) then Err InvalidConditionProvenance
          else constraint_additions [] derived' added_provenance (S additions)
      end
  end.
Definition validate_constraint_additions (base derived : list ConstraintRecord) (added_provenance : gset string) :
    CVR nat := constraint_additions base derived added_provenance 0.

(** The metadata fields that are compared one by one. *)
Definition kept_metadata (base derived : PlanningMetadata) : bool :=
  bool_decide (pm_pack_id base = pm_pack_id derived)
  && bool_decide (pm_scenario_id base = pm_scenario_id derived)
  && (pm_scenario_revision base =? pm_scenario_revision derived)
  && (pm_projection_version base =? pm_projection_version derived)
  && bool_decide (pm_compiler_id base = pm_compiler_id derived)
  && bool_decide (pm_compiler_version base = pm_compiler_version derived)
  && bool_decide (pm_display_text base = pm_display_text derived).

Section validation.
Context (blake3_hex : list Z → string).
Context (serialize_problem : PlanningProblem → Bytes) (serialize_view : CanonicalHashProblem → Bytes).
Context (json_condition : Json CounterfactualConditionV1).
Context (json_binding : Json CounterfactualCompilationBindingV1).

(** [canonical_ir_hash] on its own uncontrolled budget; [run] is its environment. *)
Definition hash_under (run : UncontrolledRun) (problem : PlanningProblem) (limits : PlanningIrLimitsV1) :
    Result CanonicalError string :=
  (canonical_ir_hash blake3_hex serialize_problem serialize_view problem limits
     (budget_uncontrolled (ur_token run) limits (ur_id run) (ur_env run))).1.
Definition validate_counterfactual_problem (base_run derived_run : UncontrolledRun) (base derived : PlanningProblem)
    (condition : CounterfactualConditionV1) (objective_policy_hash : string) (limits : PlanningIrLimitsV1) :
    CVR CounterfactualCompilationBindingV1 :=
  _ ← map_err InvalidBase (validate blake3_hex base limits);
  _ ← map_err InvalidDerived (validate blake3_hex derived limits);
  _ ← map_err InvalidCondition (CounterfactualConditionV1_validate blake3_hex json_condition condition);
  _ ← require_equal (schema_version base) (schema_version derived) "schema version";
  _ ← require_equal (variables base) (variables derived) "variables";
  _ ← require_equal (objectives base) (objectives derived) "objectives";
  _ ← require_equal (assumptions base) (assumptions derived) "assumptions";
  _ ← require_equal (projections base) (projections derived) "projections";
  _ ← require_equal (declared_capabilities base) (declared_capabilities derived) "declared capabilities";
  _ ← require_equal (split_authorization base) (split_authorization derived) "split authorization";
  if negb (kept_metadata (metadata base) (metadata derived)) then Err (BaselineMutation "metadata") else
  _ ← validate_condition_metadata base derived condition;
  added_provenance ← validate_provenance_additions (provenance base) (provenance derived);
  added_constraints ← validate_constraint_additions (constraints base) (constraints derived) added_provenance;
  if (added_constraints =? 0)%nat then Err MissingConditionConstraint else
  base_model_hash ← map_err ModelHash (hash_under base_run base limits);
  derived_model_hash ← map_err ModelHash (hash_under derived_run derived limits);
  if bool_decide (base_model_hash = derived_model_hash) then Err UnchangedModelHash else
  map_err InvalidBinding
    (CounterfactualCompilationBindingV1_new blake3_hex json_binding base_model_hash (cc_checksum condition)
       derived_model_hash objective_policy_hash).
End validation.

(** ** Conditions: lemmas *)
Definition set_condition_checksum (c : string) (v : CounterfactualConditionV1) : CounterfactualConditionV1 :=
  {| cc_schema_version := cc_schema_version v; cc_condition := cc_condition v; cc_checksum := c |}.
(** A condition its constructor returned passes its own validation, checksum included. *)
Lemma condition_new_valid blake3_hex json_condition payload condition :
  hex_digest blake3_hex → ChecksumJson json_condition set_condition_checksum →
  CounterfactualConditionV1_new blake3_hex json_condition payload = Ok condition →
  CounterfactualConditionV1_validate blake3_hex json_condition condition = Ok tt.
Proof.
  intros Hhex Hj ([] & Hp & H)%result_bind_Ok. cbn zeta in H. apply result_bind_Ok in H as (c & Hc & H).
  apply result_bind_Ok in H as ([] & Hs & [= <-]). unfold CounterfactualConditionV1_validate. cbn.
  rewrite Hp. cbn. rewrite (checksum_valid _ Hhex _ _ _ _ Hc). cbn.
  pose proof (checksum_sealed blake3_hex json_condition set_condition_checksum _ _ Hc Hs) as Hseal.
  unfold set_condition_checksum in Hseal. cbn in Hseal. rewrite Hseal. cbn. by rewrite bool_decide_true.
Qed.
Lemma find_assignment_Some id solution a :
  NoDup (da_id <$> ns_assignments solution) →
  find_assignment id solution = Some a ↔ a ∈ ns_assignments solution ∧ da_id a = id.
Proof.
  intros Hnd. unfold find_assignment. split.
  - intros ([i b] & Hf & ->)%fmap_Some. apply list_find_Some in Hf as (Hi & Hb & _).
    split; [by eapply list_elem_of_lookup_2|done].
  - intros [[i Hi]%list_elem_of_lookup <-].
    destruct (list_find (λ b, da_id b = da_id a) (ns_assignments solution)) as [[j b]|] eqn:Hf; cbn.
    + apply list_find_Some in Hf as (Hj & Hb & _). f_equal. apply (inj Some). rewrite <-Hi, <-Hj. f_equal.
      eapply NoDup_lookup; [exact Hnd| |]; rewrite list_lookup_fmap; [by rewrite Hj|rewrite Hi]. cbn. by rewrite Hb.
    + apply list_find_None in Hf. rewrite Forall_forall in Hf. by destruct (Hf a (list_elem_of_lookup_2 _ _ _ Hi)).
Qed.
(** What a solution must contain to satisfy a condition. *)
Definition meets (payload : CounterfactualConditionPayloadV1) (l : list DomainAssignment) : Prop :=
  match payload with
  | ForceAssignmentValue id value => ∃ a, a ∈ l ∧ da_id a = id ∧ da_value a = value
  | ForbidAssignmentValue id value => ∃ a, a ∈ l ∧ da_id a = id ∧ da_value a ≠ value
  | ReplaceAssignment target replaced =>
      (∃ a, a ∈ l ∧ da_id a = target ∧ da_value a = AVBoolean true) ∧
      (∃ a, a ∈ l ∧ da_id a = replaced ∧ da_value a = AVBoolean false)
  end.
Lemma found_iff id solution (P : AssignmentValue → bool) :
  NoDup (da_id <$> ns_assignments solution) →
  match find_assignment id solution with Some a => P (da_value a) | None => false end = true ↔
  ∃ a, a ∈ ns_assignments solution ∧ da_id a = id ∧ P (da_value a) = true.
Proof.
  intros Hnd. destruct (find_assignment id solution) as [a|] eqn:Hf.
  - apply find_assignment_Some in Hf as [Ha Hid]; [|done]. split; [naive_solver|]. intros (b & Hb & Hb' & HP).
    pose proof (proj2 (find_assignment_Some id _ b Hnd) (conj Hb Hb')) as H1.
    pose proof (proj2 (find_assignment_Some id _ a Hnd) (conj Ha Hid)) as H2. by simplify_eq.
  - split; [done|]. intros (b & Hb & Hb' & _).
    by rewrite (proj2 (find_assignment_Some id _ b Hnd) (conj Hb Hb')) in Hf.
Qed.
Lemma condition_satisfied_iff condition solution :
  NoDup (da_id <$> ns_assignments solution) →
  counterfactual_condition_satisfied condition solution = true ↔ meets (cc_condition condition) (ns_assignments solution).
Proof.
  intros Hnd. unfold counterfactual_condition_satisfied, meets.
  destruct (cc_condition condition) as [id v|id v|t r]; cbn [condition_assignment_id].
  - pose proof (found_iff id solution (λ x, bool_decide (x = v)) Hnd) as H.
    setoid_rewrite bool_decide_eq_true in H. exact H.
  - pose proof (found_iff id solution (λ x, negb (bool_decide (x = v))) Hnd) as H.
    setoid_rewrite negb_true_iff in H. setoid_rewrite bool_decide_eq_false in H. rewrite <-H.
    by destruct (find_assignment id solution).
  - assert (∀ b x, (match x with AVBoolean c => Bool.eqb b c | _ => false end) = true ↔ x = AVBoolean b) as Hx
      by (intros b [[]| | |]; destruct b; naive_solver).
    pose proof (found_iff t solution (λ x, match x with AVBoolean c => Bool.eqb true c | _ => false end) Hnd) as Ht.
    pose proof (found_iff r solution (λ x, match x with AVBoolean c => Bool.eqb false c | _ => false end) Hnd) as Hr.
    setoid_rewrite Hx in Ht. setoid_rewrite Hx in Hr. rewrite <-Ht, <-Hr, <-andb_true_iff.
    destruct (find_assignment t solution) as [a|]; [|done].
    destruct (da_value a) as [[]| | |], (find_assignment r solution) as [b|]; try done;
      destruct (da_value b) as [[]| | |]; done.
Qed.

(** ** Walking two sorted slices *)
(** The loop the two validators share: [accept_record] is what they do with an added record. *)
Section walking.
Context {A S : Type} `{EqDecision A} (key : A → string) (field : string).
Context (accept_record : S → A → CVR S).
Fixpoint walk (base derived : list A) (s : S) : CVR S :=
  match derived with
  | [] => if bool_decide (base = []) then Ok s else Err (BaselineMutation field)
  | record :: derived' =>
      match base with
      | original :: base' =>
          match cmp (key original) (key record) with
          | Lt => Err (BaselineMutation field)
          | Eq => if negb (bool_decide (original = record)) then Err (BaselineMutation field) else walk base' derived' s
          | Gt => s' ← accept_record s record; walk base derived' s'
          end
      | [] => s' ← accept_record s record; walk [] derived' s'
      end
  end.
(** The records of [derived] that [base] does not have. *)
Definition added (base derived : list A) : list A := filter (λ r, r ∉ base) derived.
Lemma added_cons base x derived :
  added base (x :: derived) = if decide (x ∈ base) then added base derived else x :: added base derived.
Proof using. unfold added. rewrite filter_cons. repeat case_decide; done. Qed.
Lemma added_nil derived : added [] derived = derived.
Proof using.
  induction derived as [|y derived IH]; [done|]. by rewrite added_cons, decide_False, IH by apply not_elem_of_nil.
Qed.
Lemma added_keep x base derived : x ∉ derived → added (x :: base) derived = added base derived.
Proof using EqDecision0.
  induction derived as [|y derived IH]; [done|]. rewrite not_elem_of_cons, !added_cons. intros [Hne Hx].
  rewrite IH by done. repeat case_decide; try done; set_solver -key field accept_record.
Qed.
Lemma before_not_elem x l : Forall (λ y, key x ≺ key y) l → x ∉ l.
Proof using. rewrite Forall_forall. intros H Hx%H. by apply lt_irrefl in Hx. Qed.
Lemma before_below (x y : A) l : key x ≺ key y → Forall (λ z, key y ≺ key z) l → Forall (λ z, key x ≺ key z) l.
Proof using. intros Hxy Hl. eapply Forall_impl; [exact Hl|]. intros z. by apply cmp_lt_trans. Qed.

(** On slices sorted by their identities the walk accepts exactly when every base record survives and every
    added record is admitted, in order. *)
Lemma walk_Ok base derived s s' :
  strictly_sorted_by key base = true → strictly_sorted_by key derived = true →
  walk base derived s = Ok s' ↔ (∀ r, r ∈ base → r ∈ derived) ∧ fold_m accept_record s (added base derived) = Ok s'.
Proof using.
  revert base s. induction derived as [|y derived IH]; intros base s Hb Hd; cbn [walk].
  { change (added base []) with (@nil A). destruct base as [|x base]; cbn.
    - set_solver.
    - split; [done|]. intros [H _]. destruct (not_elem_of_nil x). apply H. by left. }
  apply strictly_sorted_by_cons in Hd as [Hy Hd]. destruct base as [|x base].
  { rewrite added_nil. cbn [fold_m]. rewrite !result_bind_Ok.
    split; [intros (s1 & H1 & H2%IH)|intros (H1 & s1 & H2 & H3)]; [|done..|].
    - rewrite added_nil in H2. split; [intros r Hr; by apply not_elem_of_nil in Hr|naive_solver].
    - exists s1. split; [done|]. apply IH; [done..|]. split; [intros r Hr; by apply not_elem_of_nil in Hr|].
      by rewrite added_nil. }
  pose proof Hb as [Hx Hb']%strictly_sorted_by_cons.
  pose proof (cmp_opp (key x) (key y)) as Hopp. destruct (cmp (key x) (key y)) eqn:Hc; cbn in Hopp.
  - apply cmp_eq_iff in Hc. destruct (bool_decide_reflect (x = y)) as [->|Hne]; cbn [negb].
    + rewrite added_cons, decide_True by by left. rewrite (added_keep y) by by apply before_not_elem.
      rewrite IH by done. split; intros [H1 H2]; (split; [|done]); intros r Hr.
      * apply elem_of_cons in Hr as [->|Hr]; [by left|right; by apply H1].
      * assert (r ∈ y :: derived) as [->|?]%elem_of_cons; [apply H1; by right| |done].
        by destruct (before_not_elem y base Hx).
    + split; [done|]. intros [H _]. assert (x ∈ y :: derived) as [|Hin]%elem_of_cons; [apply H; by left|done|].
      destruct (before_not_elem x derived); [by rewrite Hc|done].
  - split; [done|]. intros [H _]. destruct (before_not_elem x (y :: derived)); [|apply H; by left].
    constructor; [done|]. by eapply before_below.
  - assert (y ∉ x :: base) as Hn.
    { apply before_not_elem. constructor; [done|]. by eapply before_below. }
    rewrite added_cons, decide_False by done. cbn [fold_m]. rewrite !result_bind_Ok.
    assert ((∀ r, r ∈ x :: base → r ∈ y :: derived) ↔ (∀ r, r ∈ x :: base → r ∈ derived)) as ->.
    { split; intros H r Hr; [|right; by apply H]. specialize (H r Hr). apply elem_of_cons in H as [->|?]; done. }
    split; [intros (s1 & H1 & H2%IH)|intros (H1 & s1 & H2 & H3)]; [naive_solver|done..|].
    exists s1. split; [done|]. by apply IH.
Qed.
End walking.

Lemma provenance_walks base derived s :
  provenance_additions base derived s =
  walk pr_id "provenance" (λ s r,
    if negb (bool_decide (pr_source_kind r = Derived)) then Err InvalidConditionProvenance
    else Ok ({[pr_id r]} ∪ s)) base derived s.
Proof.
  revert base s. induction derived as [|y derived IH]; intros [|x base] s; [done..| |]; cbn [provenance_additions walk].
  - destruct (negb _); [done|]. apply IH.
  - destruct (cmp _ _); [|done|]; (destruct (negb _); [done|]); apply IH.
Qed.
Lemma constraints_walk base derived ids n :
  constraint_additions base derived ids n =
  walk cr_id "constraints" (λ n r,
    if negb (bool_decide (cr_provenance r ∈ ids)) then Err InvalidConditionProvenance else Ok (S n)) base derived n.
Proof.
  revert base n. induction derived as [|y derived IH]; intros [|x base] n; [done..| |]; cbn [constraint_additions walk].
  - destruct (negb _); [done|]. apply IH.
  - destruct (cmp _ _); [|done|]; (destruct (negb _); [done|]); apply IH.
Qed.
(** Admitting records one by one with a check that does not look at the state. *)
Lemma fold_admit {E A S} (test : A → bool) (e : E) (next : S → A → S) l s s' :
  fold_m (λ s r, if negb (test r) then Err e else Ok (next s r)) s l = Ok s' ↔
  Forall (λ r, test r = true) l ∧ s' = foldl next s l.
Proof.
  revert s. induction l as [|r l IH]; intros s; cbn; [split; [intros [= ->]|intros [_ ->]]; done|].
  rewrite Forall_cons. destruct (test r); cbn; [rewrite IH|]; naive_solver.
Qed.
Lemma foldl_ids l s : foldl (λ s r, {[pr_id r]} ∪ s) s l = list_to_set (pr_id <$> l) ∪ s :> gset string.
Proof. revert s. induction l as [|r l IH]; intros s; cbn; [set_solver|]. rewrite IH. set_solver. Qed.
Lemma foldl_count {A} (l : list A) n : foldl (λ n _, S n) n l = (length l + n)%nat.
Proof. revert n. induction l as [|r l IH]; intros n; cbn; [done|]. rewrite IH. lia. Qed.

Lemma provenance_additions_Ok base derived ids :
  strictly_sorted_by pr_id base = true → strictly_sorted_by pr_id derived = true →
  validate_provenance_additions base derived = Ok ids ↔
  (∀ r, r ∈ base → r ∈ derived) ∧ Forall (λ r, pr_source_kind r = Derived) (added base derived) ∧
  ids = list_to_set (pr_id <$> added base derived).
Proof.
  intros Hb Hd. unfold validate_provenance_additions. rewrite provenance_walks, walk_Ok by done.
  rewrite (fold_admit _ _ (λ s r, {[pr_id r]} ∪ s)), foldl_ids, union_empty_r_L.
  by setoid_rewrite bool_decide_eq_true.
Qed.
Lemma constraint_additions_Ok base derived ids n :
  strictly_sorted_by cr_id base = true → strictly_sorted_by cr_id derived = true →
  validate_constraint_additions base derived ids = Ok n ↔
  (∀ r, r ∈ base → r ∈ derived) ∧ Forall (λ r, cr_provenance r ∈ ids) (added base derived) ∧
  n = length (added base derived).
Proof.
  intros Hb Hd. unfold validate_constraint_additions. rewrite constraints_walk, walk_Ok by done.
  rewrite (fold_admit _ _ (λ n _, S n)), foldl_count, Nat.add_0_r.
  by setoid_rewrite bool_decide_eq_true.
Qed.

(** ** Additive compilations *)
(** The base problem with other constraints and provenance, and the condition recorded in its metadata. *)
Definition extension_of (base : PlanningProblem) (checksum : string) (cs : list ConstraintRecord)
    (ps : list ProvenanceRecord) : PlanningProblem :=
  let meta := metadata base in {|
  schema_version := schema_version base; variables := variables base; constraints := cs;
  objectives := objectives base; assumptions := assumptions base; projections := projections base;
  provenance := ps;
  metadata := {|
    pm_pack_id := pm_pack_id meta; pm_scenario_id := pm_scenario_id meta;
    pm_scenario_revision := pm_scenario_revision meta; pm_projection_version := pm_projection_version meta;
    pm_compiler_id := pm_compiler_id meta; pm_compiler_version := pm_compiler_version meta;
    pm_compile_metadata :=
      <[COUNTERFACTUAL_CONDITION_HASH_METADATA_KEY := PText checksum]> (pm_compile_metadata meta);
    pm_display_text := pm_display_text meta |};
  declared_capabilities := declared_capabilities base; split_authorization := split_authorization base |}.
Definition new_constraints (base derived : PlanningProblem) : list ConstraintRecord :=
  added (constraints base) (constraints derived).
Definition new_provenance (base derived : PlanningProblem) : list ProvenanceRecord :=
  added (provenance base) (provenance derived).
(** Nothing of the base is changed or lost; at least one constraint is new, and every new constraint is
    justified by new derived provenance. *)
Record additive (base derived : PlanningProblem) (checksum : string) : Prop := {
  ad_shape : derived = extension_of base checksum (constraints derived) (provenance derived);
  ad_fresh_key : pm_compile_metadata (metadata base) !! COUNTERFACTUAL_CONDITION_HASH_METADATA_KEY = None;
  ad_provenance_kept r : r ∈ provenance base → r ∈ provenance derived;
  ad_provenance_derived : Forall (λ r, pr_source_kind r = Derived) (new_provenance base derived);
  ad_constraints_kept r : r ∈ constraints base → r ∈ constraints derived;
  ad_constraints_justified :
    Forall (λ r, cr_provenance r ∈ pr_id <$> new_provenance base derived) (new_constraints base derived);
  ad_some_constraint : new_constraints base derived ≠ []
}.

Lemma require_equal_Ok {T} `{EqDecision T} (x y : T) field : require_equal x y field = Ok tt ↔ x = y.
Proof. unfold require_equal. case_bool_decide; done. Qed.
Lemma condition_metadata_Ok base derived condition :
  validate_condition_metadata base derived condition = Ok tt ↔
  pm_compile_metadata (metadata base) !! COUNTERFACTUAL_CONDITION_HASH_METADATA_KEY = None ∧
  pm_compile_metadata (metadata derived) =
    <[COUNTERFACTUAL_CONDITION_HASH_METADATA_KEY := PText (cc_checksum condition)]> (pm_compile_metadata (metadata base)).
Proof.
  unfold validate_condition_metadata.
  change (PlanningId_new _) with (Ok (E := PlanningIdError) COUNTERFACTUAL_CONDITION_HASH_METADATA_KEY).
  cbn [map_err mbind Result_bind]. case_bool_decide as Hs; [|apply eq_None_not_Some in Hs; case_bool_decide; naive_solver].
  destruct Hs as [v Hv]. rewrite Hv. naive_solver.
Qed.
Lemma kept_metadata_iff (a b : PlanningMetadata) :
  kept_metadata a b = true ↔
  b = {| pm_pack_id := pm_pack_id a; pm_scenario_id := pm_scenario_id a;
         pm_scenario_revision := pm_scenario_revision a; pm_projection_version := pm_projection_version a;
         pm_compiler_id := pm_compiler_id a; pm_compiler_version := pm_compiler_version a;
         pm_compile_metadata := pm_compile_metadata b; pm_display_text := pm_display_text a |}.
Proof.
  unfold kept_metadata. rewrite !andb_true_iff, !Z.eqb_eq, !bool_decide_eq_true. destruct a, b; cbn. split; [|by intros [=]].
  intros ((((((-> & ->) & ->) & ->) & ->) & ->) & ->). done.
Qed.

Lemma extension_iff base derived checksum :
  derived = extension_of base checksum (constraints derived) (provenance derived) ↔
  schema_version base = schema_version derived ∧ variables base = variables derived ∧
  objectives base = objectives derived ∧ assumptions base = assumptions derived ∧
  projections base = projections derived ∧ declared_capabilities base = declared_capabilities derived ∧
  split_authorization base = split_authorization derived ∧
  kept_metadata (metadata base) (metadata derived) = true ∧
  pm_compile_metadata (metadata derived) =
    <[COUNTERFACTUAL_CONDITION_HASH_METADATA_KEY := PText checksum]> (pm_compile_metadata (metadata base)).
Proof.
  rewrite kept_metadata_iff. split.
  - intros ->. done.
  - intros (H1 & H2 & H3 & H4 & H5 & H6 & H7 & H8 & H9). unfold extension_of. destruct derived as [v vs cs os as_ ps pv m c sp].
    cbn in *. subst. f_equal. rewrite H8. cbn. by rewrite H9.
Qed.
Lemma elem_of_ids (id : string) (l : list ProvenanceRecord) :
  id ∈ (list_to_set (pr_id <$> l) : gset string) ↔ id ∈ pr_id <$> l.
Proof. by rewrite elem_of_list_to_set. Qed.

Section exact.
Context (blake3_hex : list Z → string).
Context (serialize_problem : PlanningProblem → Bytes) (serialize_view : CanonicalHashProblem → Bytes).
Context (json_condition : Json CounterfactualConditionV1).
Context (json_binding : Json CounterfactualCompilationBindingV1).
Notation check := (validate_counterfactual_problem blake3_hex serialize_problem serialize_view json_condition json_binding).
Notation model_hash_under := (hash_under blake3_hex serialize_problem serialize_view).
Context (base_run derived_run : UncontrolledRun) (base derived : PlanningProblem).
Context (condition : CounterfactualConditionV1) (policy : string) (limits : PlanningIrLimitsV1).
Context (Hlimits : typed_limits limits).

Lemma hash_under_Ok run problem h :
  model_hash_under run problem limits = Ok h → h = hash_of blake3_hex serialize_view problem.
Proof using Hlimits.
  unfold hash_under. destruct (canonical_ir_hash _ _ _ _ _ _) as [r b] eqn:Hr. cbn. intros ->.
  by apply canonical_ir_hash_Ok in Hr.
Qed.
(** The two walks together, on validated problems. *)
Lemma walks_Ok (ids : gset string) n :
  Admissible base limits → Admissible derived limits →
  validate_provenance_additions (provenance base) (provenance derived) = Ok ids ∧
  validate_constraint_additions (constraints base) (constraints derived) ids = Ok n ↔
  (∀ r, r ∈ provenance base → r ∈ provenance derived) ∧
  Forall (λ r, pr_source_kind r = Derived) (new_provenance base derived) ∧
  (∀ r, r ∈ constraints base → r ∈ constraints derived) ∧
  Forall (λ r, cr_provenance r ∈ pr_id <$> new_provenance base derived) (new_constraints base derived) ∧
  ids = list_to_set (pr_id <$> new_provenance base derived) ∧ n = length (new_constraints base derived).
Proof using.
  intros Hb Hd.
  rewrite provenance_additions_Ok by apply adm_provenance_sorted.
  rewrite constraint_additions_Ok by apply adm_constraints_sorted.
  unfold new_provenance, new_constraints. setoid_rewrite <-elem_of_ids.
  split; [intros ((? & ? & ->) & ? & ? & ->)|intros (? & ? & ? & ? & -> & ->)]; done.
Qed.
Lemma accepted_iff binding :
  check base_run derived_run base derived condition policy limits = Ok binding ↔
  validate blake3_hex base limits = Ok tt ∧ validate blake3_hex derived limits = Ok tt ∧
  CounterfactualConditionV1_validate blake3_hex json_condition condition = Ok tt ∧
  additive base derived (cc_checksum condition) ∧
  ∃ h h', model_hash_under base_run base limits = Ok h ∧ model_hash_under derived_run derived limits = Ok h' ∧
    h ≠ h' ∧ CounterfactualCompilationBindingV1_new blake3_hex json_binding h (cc_checksum condition) h' policy = Ok binding.
Proof using Hlimits.
  unfold validate_counterfactual_problem.
  rewrite !unit_bind_Ok, guard_Ok, negb_false_iff, unit_bind_Ok, !map_err_Ok, !require_equal_Ok, condition_metadata_Ok.
  split.
  - intros (Hb & Hd & Hcond & E1 & E2 & E3 & E4 & E5 & E6 & E7 & E8 & [Hfresh E9] & H).
    apply result_bind_Ok in H as (ids & Hp & H). apply result_bind_Ok in H as (n & Hc & H).
    apply guard_Ok in H as [Hn H]. apply result_bind_Ok in H as (h & Hh%map_err_Ok & H).
    apply result_bind_Ok in H as (h' & Hh'%map_err_Ok & H). apply guard_Ok in H as [Hne%bool_decide_eq_false H].
    apply map_err_Ok in H. pose proof (conj Hp Hc) as Hw.
    apply walks_Ok in Hw as (K1 & K2 & K3 & K4 & _ & ->); [|by eapply validate_admits..].
    split_and!; [done..| |by exists h, h']. split; [by apply extension_iff|done..|].
    apply Nat.eqb_neq in Hn. intros Hnil. by rewrite Hnil in Hn.
  - intros (Hb & Hd & Hcond & [Hshape%extension_iff Hfresh K1 K2 K3 K4 K5] & h & h' & Hh & Hh' & Hne & Hnew).
    destruct Hshape as (E1 & E2 & E3 & E4 & E5 & E6 & E7 & E8 & E9). split_and!; [done..|].
    destruct (walks_Ok (list_to_set (pr_id <$> new_provenance base derived)) (length (new_constraints base derived)))
      as [_ [Hp Hc]]; [by eapply validate_admits..|done|].
    rewrite Hp. cbn [mbind Result_bind]. rewrite Hc. cbn [mbind Result_bind].
    apply guard_Ok. split; [by destruct (new_constraints base derived)|]. rewrite Hh, Hh'. cbn [map_err mbind Result_bind].
    apply guard_Ok. split; [by apply bool_decide_eq_false|]. by rewrite Hnew.
Qed.

(** Feasibility and scores of an additive compilation. *)
Lemma additive_feasible checksum β σ :
  additive base derived checksum →
  feasible derived β σ ↔ feasible base β σ ∧ Forall (record_holds base β σ) (new_constraints base derived).
Proof using.
  intros [Hshape _ _ _ Hkept _ _]. unfold new_constraints.
  assert (∀ r, record_holds derived β σ r ↔ record_holds base β σ r) as Hr by (intros r; by rewrite Hshape).
  assert (int_domains derived = int_domains base) as Hi by by rewrite Hshape.
  assert (assumptions derived = assumptions base) as Ha by by rewrite Hshape.
  split.
  - intros [F1 F2 F3]. rewrite Hi in F1. rewrite Ha in F3. rewrite Forall_forall in F2. split; [split|]; [done| |done|].
    + apply Forall_forall. intros r Hin. by apply Hr, F2, Hkept.
    + apply Forall_forall. intros r [_ Hin]%list_elem_of_filter. by apply Hr, F2.
  - intros [[F1 F2 F3] F4]. split; [by rewrite Hi| |by rewrite Ha]. rewrite !Forall_forall in *.
    intros r Hin. apply Hr. destruct (decide (r ∈ constraints base)); [by apply F2|].
    apply F4, list_elem_of_filter. done.
Qed.
Lemma additive_score checksum σ : additive base derived checksum → score derived σ = score base σ.
Proof using. intros [Hshape _ _ _ _ _ _]. by rewrite Hshape. Qed.
Lemma binding_new_fields h h' binding :
  CounterfactualCompilationBindingV1_new blake3_hex json_binding h (cc_checksum condition) h' policy = Ok binding →
  cb_base_model_hash binding = h ∧ cb_derived_model_hash binding = h' ∧
  cb_condition_checksum binding = cc_checksum condition ∧ cb_objective_policy_hash binding = policy.
Proof using. intros ([] & _ & (c & _ & [= <-])%result_bind_Ok)%result_bind_Ok. done. Qed.
End exact.

(** C13. A derived problem passes for a counterfactual of its base exactly when all of this holds:
    both problems are valid; the condition is valid, its checksum included; the derived problem is
    the base with additions only — the same variables, objectives, assumptions, projections,
    capabilities and metadata, the condition's checksum recorded under the reserved key, which the
    base does not use, every constraint and provenance record of the base kept, at least one
    constraint added, and each added constraint justified by added derived provenance —; both models
    hash, to different hashes; and the binding of these hashes, the condition and the objective
    policy can be constructed, which asks for well-formed digests. Then the binding carries the
    canonical hashes of the two models and the condition's checksum, and the feasible assignments of
    the derived problem are those of the base that meet the added constraints, with the score the
    base gives them: asking what would happen never invents a plan or changes how plans are ranked. *)
Theorem counterfactual_compilation_exact blake3_hex serialize_problem serialize_view json_condition json_binding
    base_run derived_run base derived condition policy limits :
  typed_limits limits →
  let check := validate_counterfactual_problem blake3_hex serialize_problem serialize_view json_condition json_binding
                 base_run derived_run base derived condition policy limits in
  (∀ binding, check = Ok binding ↔
     validate blake3_hex base limits = Ok tt ∧ validate blake3_hex derived limits = Ok tt ∧
     CounterfactualConditionV1_validate blake3_hex json_condition condition = Ok tt ∧
     additive base derived (cc_checksum condition) ∧
     ∃ h h', hash_under blake3_hex serialize_problem serialize_view base_run base limits = Ok h ∧
       hash_under blake3_hex serialize_problem serialize_view derived_run derived limits = Ok h' ∧ h ≠ h' ∧
       CounterfactualCompilationBindingV1_new blake3_hex json_binding h (cc_checksum condition) h' policy = Ok binding) ∧
  (∀ binding, check = Ok binding →
     cb_base_model_hash binding = hash_of blake3_hex serialize_view base ∧
     cb_derived_model_hash binding = hash_of blake3_hex serialize_view derived ∧
     cb_base_model_hash binding ≠ cb_derived_model_hash binding ∧
     cb_condition_checksum binding = cc_checksum condition ∧
     (∀ β σ, feasible derived β σ ↔
        feasible base β σ ∧ Forall (record_holds base β σ) (new_constraints base derived)) ∧
     (∀ σ, score derived σ = score base σ)).
Proof.
  intros Hl check. split; [intros binding; by apply accepted_iff|].
  intros binding (_ & _ & _ & Hadd & h & h' & Hh & Hh' & Hne & Hnew)%accepted_iff; [|done].
  apply hash_under_Ok in Hh as ->; [|done]. apply hash_under_Ok in Hh' as ->; [|done].
  apply binding_new_fields in Hnew as (-> & -> & -> & _). split_and!; [done..| |].
  - intros β σ. by eapply additive_feasible.
  - intros σ. by eapply additive_score.
Qed.
