(* ===== verification/Json.v ===== *)
(** * JSON values

    What the application uses of [serde_json]: the values, the length of their compact text, and the
    accessors of [Value].  A number is its canonical text.  An object is a list of entries; [Value]
    keeps the entries in the order of their keys. *)
From stdpp Require Import base tactics list gmap strings sorting.
From Stdlib Require Import ZArith Lia Ascii.
From S2P Require Import Prelude Ordering Budget Ids.
Open Scope string_scope.
Open Scope list_scope.
Open Scope Z_scope.

(** ** JSON values and their compact text *)
Inductive JsonValue :=
| JNull
| JBool (value : bool)
| JNumber (text : string)
| JString (value : string)
| JArray (values : list JsonValue)
| JObject (entries : list (string * JsonValue)).
(** The bytes [serde_json] writes for one byte of a string. *)
Definition escape_len (c : ascii) : Z :=
  let n := byte_code c in
  if (n =? 34) || (n =? 92) || (n =? 8) || (n =? 9) || (n =? 10) || (n =? 12) || (n =? 13) then 2
  else if n <? 32 then 6 else 1.
Definition sum_of {A} (f : A → Z) (l : list A) : Z := foldr (λ a n, f a + n) 0 l.
Definition string_len (value : string) : Z := 2 + sum_of escape_len (String.list_ascii_of_string value).
(** The commas of a sequence. *)
Definition commas {A} (l : list A) : Z := Z.max 0 (len l - 1).
Fixpoint json_len (value : JsonValue) : Z :=
  match value with
  | JNull => 4
  | JBool b => if b then 4 else 5
  | JNumber text => Z.of_nat (String.length text)
  | JString s => string_len s
  | JArray values => 2 + commas values + sum_of json_len values
  | JObject entries =>
      2 + commas entries + sum_of (λ '(key, v), string_len key + 1 + json_len v) entries
  end.

(** ** Values as they are kept *)
(** Induction over values with the hypothesis for every member. *)
Lemma JsonValue_rect' (P : JsonValue → Prop) :
  P JNull → (∀ b, P (JBool b)) → (∀ t, P (JNumber t)) → (∀ s, P (JString s)) →
  (∀ l, Forall P l → P (JArray l)) → (∀ l, Forall P l.*2 → P (JObject l)) → ∀ v, P v.
Proof.
  intros H1 H2 H3 H4 H5 H6. fix IH 1. intros [| | | |l|l]; [auto..| |].
  - apply H5. induction l; constructor; auto.
  - apply H6. induction l as [|[k v] l IHl]; constructor; [apply IH|exact IHl].
Qed.
(** No object of the value has a key twice. *)
Fixpoint distinct_keys (value : JsonValue) : Prop :=
  match value with
  | JArray values => foldr (λ v P, distinct_keys v ∧ P) True values
  | JObject entries => NoDup entries.*1 ∧ foldr (λ '(_, v) P, distinct_keys v ∧ P) True entries
  | _ => True
  end.
(** The value as it is kept: every object in the order of its keys. *)
Fixpoint kept (value : JsonValue) : JsonValue :=
  match value with
  | JArray values => JArray (kept <$> values)
  | JObject entries => JObject (sort_by_key fst ((λ '(key, v), (key, kept v)) <$> entries))
  | scalar => scalar
  end.
Definition keep_entry : string * JsonValue → string * JsonValue := λ '(key, v), (key, kept v).
Definition entry_len : string * JsonValue → Z := λ '(key, v), string_len key + 1 + json_len v.
Definition distinct_entry : string * JsonValue → Prop := λ e, distinct_keys e.2.

(** ** Lengths *)
Lemma sum_of_app {A} (f : A → Z) l k : sum_of f (l ++ k) = sum_of f l + sum_of f k.
Proof. induction l as [|a l IH]; cbn; [done|]. unfold sum_of in *. lia. Qed.
Lemma sum_of_perm {A} (f : A → Z) l k : l ≡ₚ k → sum_of f l = sum_of f k.
Proof. intros H. induction H as [|a l k _ IH|a b l|l k m _ IH1 _ IH2]; unfold sum_of in *; cbn; lia. Qed.
Lemma sum_of_nonneg {A} (f : A → Z) l : (∀ a, 0 ≤ f a) → 0 ≤ sum_of f l.
Proof. intros H. induction l as [|a l IH]; cbn; [done|]. specialize (H a). unfold sum_of in *. lia. Qed.
Lemma string_len_nonneg s : 0 ≤ string_len s.
Proof.
  unfold string_len. enough (0 ≤ sum_of escape_len (String.list_ascii_of_string s)) by lia.
  apply sum_of_nonneg. intros c. unfold escape_len. repeat case_match; lia.
Qed.
Lemma distinct_Forall values : distinct_keys (JArray values) ↔ Forall distinct_keys values.
Proof. cbn. induction values as [|v l IH]; cbn; [done|]. rewrite Forall_cons. by rewrite IH. Qed.
Lemma distinct_entries entries :
  distinct_keys (JObject entries) ↔ NoDup entries.*1 ∧ Forall distinct_entry entries.
Proof.
  cbn. apply and_iff_compat_l. induction entries as [|[k v] l IH]; cbn; [done|]. rewrite Forall_cons. by rewrite IH.
Qed.

Lemma json_len_nonneg v : 0 ≤ json_len v.
Proof.
  induction v as [| | | |l IH|l IH] using JsonValue_rect'; cbn [json_len]; [lia|destruct b; lia|lia|apply string_len_nonneg|..].
  - enough (0 ≤ sum_of json_len l) by (unfold commas; lia).
    induction IH as [|v l Hv _ IH]; unfold sum_of in *; cbn; lia.
  - enough (0 ≤ sum_of entry_len l) by (unfold commas, entry_len in *; lia).
    induction l as [|[k v] l IHl]; [done|]. apply Forall_cons in IH as [Hv IH]. specialize (IHl IH).
    pose proof (string_len_nonneg k). unfold sum_of in *. cbn in *. lia.
Qed.
Lemma entry_len_nonneg e : 0 ≤ entry_len e.
Proof. destruct e as [k v]. cbn. pose proof (string_len_nonneg k). pose proof (json_len_nonneg v). lia. Qed.
Lemma kept_len v : json_len (kept v) = json_len v.
Proof.
  induction v as [| | | |l IH|l IH] using JsonValue_rect'; cbn [kept json_len]; [done..| |].
  - unfold commas, len. rewrite length_fmap. f_equal. induction IH as [|v l Hv _ IHl]; [done|]. unfold sum_of in *. cbn. lia.
  - fold keep_entry entry_len. pose proof (sort_by_key_perm fst (keep_entry <$> l)) as Hp.
    rewrite (sum_of_perm _ _ _ Hp). unfold commas, len. rewrite (Permutation_length Hp), length_fmap. f_equal. clear Hp.
    induction l as [|[k v] l IHl]; [done|]. apply Forall_cons in IH as [Hv IH]. specialize (IHl IH).
    unfold sum_of in *. cbn in *. lia.
Qed.


(** ** Accessors *)
(** [Map::get] of an object with distinct keys. *)
Fixpoint object_get (entries : list (string * JsonValue)) (key : string) : option JsonValue :=
  match entries with
  | [] => None
  | (k, v) :: rest => if bool_decide (k = key) then Some v else object_get rest key
  end.
Definition contains_key (entries : list (string * JsonValue)) (key : string) : bool := bool_decide (key ∈ entries.*1).
Definition as_object (value : JsonValue) : option (list (string * JsonValue)) :=
  match value with JObject entries => Some entries | _ => None end.
Definition as_array (value : JsonValue) : option (list JsonValue) :=
  match value with JArray values => Some values | _ => None end.
Definition as_str (value : JsonValue) : option string := match value with JString s => Some s | _ => None end.
Definition as_bool (value : JsonValue) : option bool := match value with JBool b => Some b | _ => None end.
(** [Value::get] with a key. *)
Definition value_get (value : JsonValue) (key : string) : option JsonValue := as_object value ≫= λ o, object_get o key.
(** The integers are the numbers written as decimal digits, after a minus sign when negative. *)
Fixpoint decimal (acc : Z) (s : list ascii) : option Z :=
  match s with
  | [] => Some acc
  | c :: s => let n := byte_code c in if (48 <=? n) && (n <=? 57) then decimal (10 * acc + (n - 48)) s else None
  end.
Definition integer_text (text : string) : option Z :=
  match String.list_ascii_of_string text with
  | [] => None
  | c :: [] => decimal 0 [c]
  | c :: s => if byte_code c =? 45 then Z.opp <$> decimal 0 s else decimal 0 (c :: s)
  end.
Definition as_i64 (value : JsonValue) : option Z :=
  match value with JNumber text => integer_text text ≫= checked_i64 | _ => None end.
Definition as_u64 (value : JsonValue) : option Z :=
  match value with JNumber text => integer_text text ≫= checked_u64 | _ => None end.
Definition is_object (value : JsonValue) : bool := match value with JObject _ => true | _ => false end.
Definition is_array (value : JsonValue) : bool := match value with JArray _ => true | _ => false end.
Definition is_string (value : JsonValue) : bool := match value with JString _ => true | _ => false end.
Definition is_boolean (value : JsonValue) : bool := match value with JBool _ => true | _ => false end.
Definition is_null (value : JsonValue) : bool := match value with JNull => true | _ => false end.

(** [PartialEq] of values: the two zeros of floating point are equal. *)
Definition is_float_zero (text : string) : bool := bool_decide (text = "0.0" ∨ text = "-0.0").
Definition number_eqb (a b : string) : bool := bool_decide (a = b) || (is_float_zero a && is_float_zero b).
Fixpoint json_eqb (a b : JsonValue) {struct a} : bool :=
  match a, b with
  | JNull, JNull => true
  | JBool a, JBool b => Bool.eqb a b
  | JNumber a, JNumber b => number_eqb a b
  | JString a, JString b => bool_decide (a = b)
  | JArray a, JArray b =>
      (fix eqb (a b : list JsonValue) : bool :=
         match a, b with
         | [], [] => true
         | x :: a, y :: b => json_eqb x y && eqb a b
         | _, _ => false
         end) a b
  | JObject a, JObject b =>
      (fix eqb (a b : list (string * JsonValue)) : bool :=
         match a, b with
         | [], [] => true
         | (k, x) :: a, (l, y) :: b => bool_decide (k = l) && json_eqb x y && eqb a b
         | _, _ => false
         end) a b
  | _, _ => false
  end.

Lemma json_eqb_refl v : json_eqb v v = true.
Proof.
  induction v as [|b|t|s|l IH|l IH] using JsonValue_rect'; cbn; [done|by destruct b|..].
  - unfold number_eqb. by rewrite bool_decide_true.
  - by rewrite bool_decide_true.
  - induction IH as [|v l Hv _ IHl]; [done|]. by rewrite Hv.
  - induction l as [|[k v] l IHl]; [done|]. apply Forall_cons in IH as [Hv IH]. cbn in Hv.
    rewrite bool_decide_true by done. rewrite Hv. cbn. by apply IHl.
Qed.
Lemma object_get_Some entries key v : object_get entries key = Some v → (key, v) ∈ entries.
Proof.
  induction entries as [|[k w] l IH]; cbn; [done|]. case_bool_decide as H; [intros [= ->]; subst; left|]. right. by apply IH.
Qed.
