(* ===== verification/Portable.v ===== *)
(** * The policy of portable JSON

    Models [crates/eutheto-types/src/portable.rs]: the one recursive policy that command application,
    import and export share, over values and streamed over text, and the extraction of declared
    references.  Strings are their UTF-8 bytes.  What [serde_json] streams is the tree of the text, in
    the order of the text.  The lower case of a character outside ASCII is the parameter
    [unicode_lowercase], the table of the standard library; [parse_uuid] is the uuid crate's parser. *)
From stdpp Require Import base tactics list gmap strings sorting.
From Stdlib Require Import ZArith Lia Ascii.
From S2P Require Import Prelude Ordering Protocol Budget Ids DomainIr Json.
Open Scope string_scope.
Open Scope list_scope.
Open Scope Z_scope.

(** ** Text: what the policy uses of [str] and [char] *)
Module Text.
Definition starts_with (prefix text : list Z) : bool := bool_decide (take (length prefix) text = prefix).
Definition strip_prefix (prefix text : list Z) : option (list Z) :=
  if starts_with prefix text then Some (drop (length prefix) text) else None.
Definition strip_suffix (suffix text : list Z) : option (list Z) :=
  reverse <$> strip_prefix (reverse suffix) (reverse text).
Definition ends_with (suffix text : list Z) : bool := bool_decide (is_Some (strip_suffix suffix text)).
Fixpoint contains (needle text : list Z) : bool :=
  starts_with needle text || match text with [] => false | _ :: text => contains needle text end.
(** [str::split] by a predicate on characters. *)
Fixpoint split (separator : Z → bool) (text : list Z) : list (list Z) :=
  match text with
  | [] => [[]]
  | c :: text =>
      if separator c then [] :: split separator text
      else match split separator text with
           | segment :: rest => (c :: segment) :: rest
           | [] => [[c]]
           end
  end.
Definition to_ascii_lowercase (c : Z) : Z := if in_range 65 90 c then c + 32 else c.
Definition is_ascii_lowercase (c : Z) : bool := in_range 97 122 c.
Definition is_ascii_uppercase (c : Z) : bool := in_range 65 90 c.
Definition is_ascii_digit (c : Z) : bool := in_range 48 57 c.
Definition is_ascii_alphanumeric (c : Z) : bool := is_ascii_lowercase c || is_ascii_uppercase c || is_ascii_digit c.
(** [char::is_whitespace]: the characters with the property White_Space. *)
Definition is_whitespace (c : Z) : bool :=
  in_range 9 13 c || (c =? 32) || (c =? 133) || (c =? 160) || (c =? 5760) || in_range 8192 8202 c
  || in_range 8232 8233 c || (c =? 8239) || (c =? 8287) || (c =? 12288).
Fixpoint trim_start (text : list Z) : list Z :=
  match text with c :: rest => if is_whitespace c then trim_start rest else text | [] => [] end.
Definition trim_end (text : list Z) : list Z := reverse (trim_start (reverse text)).
Definition trim (text : list Z) : list Z := trim_end (trim_start text).
(** [str::lines]: the terminator of a line is a line feed, with the carriage return before it. *)
Fixpoint split_inclusive_lf (text : list Z) : list (list Z) :=
  match text with
  | [] => []
  | c :: text =>
      if c =? 10 then [c] :: split_inclusive_lf text
      else match split_inclusive_lf text with
           | line :: rest => (c :: line) :: rest
           | [] => [[c]]
           end
  end.
Definition line_of (line : list Z) : list Z :=
  match strip_suffix [10] line with
  | None => line
  | Some line => default line (strip_suffix [13] line)
  end.
Definition lines (text : list Z) : list (list Z) := line_of <$> split_inclusive_lf text.
(** The characters of well-formed bytes. *)
Definition decode (bytes : list Z) : list Z := omap id (utf8_chunks bytes).
End Text.
Import Text.
Notation lit := as_bytes (only parsing).

(** ** Limits and the counters of a traversal *)
Record PortableJsonLimits := { max_depth : Z; max_string_bytes : Z; max_collection_items : Z }.
Record StreamingJsonBudget := { sb_limits : PortableJsonLimits; sb_nodes : Z; sb_items : Z; sb_string_bytes : Z }.
Definition fresh_budget (limits : PortableJsonLimits) : StreamingJsonBudget :=
  {| sb_limits := limits; sb_nodes := 0; sb_items := 0; sb_string_bytes := 0 |}.
(** The error of a refused value is its message. *)
Notation JM := (SE StreamingJsonBudget string).
Definition budget_node (depth : Z) : JM unit := λ b,
  if max_depth (sb_limits b) <? depth then (Err "portable JSON nesting limit exceeded", b)
  else match u64_checked_add (sb_nodes b) 1 with
       | None => (Err "portable JSON node count overflow", b)
       | Some nodes =>
           let b := {| sb_limits := sb_limits b; sb_nodes := nodes; sb_items := sb_items b;
                       sb_string_bytes := sb_string_bytes b |} in
           if max_collection_items (sb_limits b) <? nodes
           then (Err "portable JSON aggregate node limit exceeded", b)
           else (Ok tt, b)
       end.
Definition budget_item (container_items : Z) : JM unit := λ b,
  if max_collection_items (sb_limits b) <=? container_items
  then (Err "portable JSON container item limit exceeded", b)
  else match u64_checked_add (sb_items b) 1 with
       | None => (Err "portable JSON item count overflow", b)
       | Some items =>
           let b := {| sb_limits := sb_limits b; sb_nodes := sb_nodes b; sb_items := items;
                       sb_string_bytes := sb_string_bytes b |} in
           if max_collection_items (sb_limits b) <? items
           then (Err "portable JSON aggregate item limit exceeded", b)
           else (Ok tt, b)
       end.
Definition budget_string (value : string) (key : bool) : JM unit := λ b,
  if max_string_bytes (sb_limits b) <? len (as_bytes value)
  then (Err (if key then "portable JSON object key limit exceeded" else "portable JSON string limit exceeded"), b)
  else match u64_checked_add (sb_string_bytes b) (len (as_bytes value)) with
       | None => (Err "portable JSON string byte count overflow", b)
       | Some string_bytes =>
           (Ok tt, {| sb_limits := sb_limits b; sb_nodes := sb_nodes b; sb_items := sb_items b;
                      sb_string_bytes := string_bytes |})
       end.

(** ** Strings *)
Definition looks_like_private_key_pem (text : list Z) : bool :=
  existsb (λ line,
    match strip_prefix (lit "-----begin ") (trim line) with
    | None => false
    | Some marker =>
        match strip_suffix (lit "-----") marker with
        | None => false
        | Some label => ends_with (lit "private key") (trim_end label)
        end
    end) (lines text).
Definition is_auth_line (line : list Z) : bool :=
  let line := trim line in
  let credential :=
    match strip_prefix (lit "authorization:") line with
    | Some rest => trim_start rest
    | None => match strip_prefix (lit "proxy-authorization:") line with
              | Some rest => trim_start rest
              | None => line
              end
    end in
  existsb (λ scheme,
    match strip_prefix scheme credential with
    | Some value => negb (bool_decide (trim value = []))
    | None => false
    end) [lit "bearer "; lit "basic "; lit "digest "; lit "aws4-hmac-sha256 "]
  || starts_with (lit "cookie:") line || starts_with (lit "set-cookie:") line || starts_with (lit "x-api-key:") line.
Definition looks_like_auth_material (text : list Z) : bool := existsb is_auth_line (lines text).
Definition looks_like_database_path (text : list Z) : bool :=
  let candidate := default text (head (split (λ c, (c =? 63) || (c =? 35)) text)) in
  existsb (λ suffix, ends_with suffix candidate) [lit ".db"; lit ".db3"; lit ".sqlite"; lit ".sqlite3"].
Definition is_windows_device_name (text : list Z) : bool :=
  let leaf := default text (last (split (λ c, (c =? 47) || (c =? 92)) text)) in
  let stem := default leaf (head (split (λ c, c =? 46) leaf)) in
  bool_decide (stem ∈ [lit "con"; lit "prn"; lit "aux"; lit "nul"])
  || match (match strip_prefix (lit "com") stem with Some n => Some n | None => strip_prefix (lit "lpt") stem end) with
     | Some [digit] => in_range 49 57 digit
     | _ => false
     end.
Definition validate_string (text : string) (limits : PortableJsonLimits) : Result string unit :=
  if max_string_bytes limits <? len (as_bytes text) then Err "string limit exceeded"
  else
    let lower := to_ascii_lowercase <$> as_bytes text in
    let absolute_path :=
      starts_with (lit "/") lower || starts_with (lit "file://") lower || starts_with (lit "\\") lower
      || ((2 <? len lower) && bool_decide (lower !! 1%nat = Some 58)
          && match lower !! 2%nat with Some c => (c =? 92) || (c =? 47) | None => false end) in
    let database_path := looks_like_database_path lower in
    let device_path := is_windows_device_name lower || starts_with (lit "device://") lower in
    if absolute_path || database_path || device_path
    then Err "device-specific, database, or local filesystem path is not portable"
    else
      let template :=
        (contains (lit "{{") lower && contains (lit "}}") lower)
        || (contains (lit "{%") lower && contains (lit "%}") lower)
        || (contains (lit "<%") lower && contains (lit "%>") lower) in
      let active :=
        starts_with (lit "#!") lower || contains (lit "<script") lower || contains (lit "javascript:") lower
        || contains (lit "<svg") lower in
      if template || active || looks_like_private_key_pem (decode lower) || looks_like_auth_material (decode lower)
      then Err "executable, credential, or template-like content is not portable"
      else Ok tt.

(** ** Field names *)
(** Namespaces of capabilities and extensions. *)
Definition is_portable_namespace (namespace : string) : bool :=
  bool_decide (46 ∈ as_bytes namespace)
  && forallb (λ segment, negb (bool_decide (segment = []))
                         && forallb (λ byte, is_ascii_alphanumeric byte || (byte =? 45) || (byte =? 95)) segment)
       (split (λ c, c =? 46) (as_bytes namespace)).
Fixpoint field_tokens_from (characters token : list Z) (previous : option Z) (tokens : list (list Z)) : list (list Z) :=
  match characters with
  | [] => if bool_decide (token = []) then tokens else tokens ++ [token]
  | character :: rest =>
      if negb (is_ascii_alphanumeric character)
      then field_tokens_from rest [] None (if bool_decide (token = []) then tokens else tokens ++ [token])
      else
        let boundary :=
          negb (bool_decide (token = [])) && is_ascii_uppercase character
          && match previous with
             | Some previous =>
                 is_ascii_lowercase previous || is_ascii_digit previous
                 || (is_ascii_uppercase previous
                     && match rest with next :: _ => is_ascii_lowercase next | [] => false end)
             | None => false
             end in
        if boundary
        then field_tokens_from rest [to_ascii_lowercase character] (Some character) (tokens ++ [token])
        else field_tokens_from rest (token ++ [to_ascii_lowercase character]) (Some character) tokens
  end.
Definition field_tokens (field : string) : list (list Z) := field_tokens_from (chars field) [] None [].
Definition COMPACT_BASES : list string :=
  ["auth"; "authentication"; "authenticator"; "authorization"; "authorizationheader"; "bearer"; "secret"; "secrets";
   "token"; "tokens"; "credential"; "credentials"; "password"; "passphrase"; "apikey"; "accesskey"; "clientsecret";
   "privatekey"; "privatekeypem"; "secretkey"; "signingkey"; "encryptionkey"; "cookie"; "sessioncookie"; "keychain";
   "vault"; "keystore"; "connectionstring"; "dsn"; "databasepath"; "databasefile"; "sqlitedatabase"; "sqlitepath";
   "devicepath"; "executablepath"; "commandline"].
Definition COMPACT_SUFFIXES : list string := ["id"; "raw"; "ref"; "reference"; "handle"; "item"].
Definition compact_prohibited_field (normalized : list Z) : bool :=
  existsb (λ base, ends_with (lit base) normalized) COMPACT_BASES
  || existsb (λ suffix, match strip_suffix (lit suffix) normalized with
                        | Some stem => existsb (λ base, ends_with (lit base) stem) COMPACT_BASES
                        | None => false
                        end) COMPACT_SUFFIXES.
Definition ALLOWED_FIELDS : list string :=
  ["secretary"; "tokenizedlabel"; "passwordpolicy"; "passwordpolicyname"; "vaultedceiling"; "externalcredentiallabel";
   "authenticationstatus"; "authenticationlabel"; "authenticationmethod"; "templateid"; "templatecount"; "templatename"].
Definition PROHIBITED_TOKENS : list string :=
  ["auth"; "authentication"; "authenticator"; "authorization"; "bearer"; "secret"; "secrets"; "token"; "tokens";
   "credential"; "credentials"; "password"; "passphrase"; "cookie"; "keychain"; "vault"; "keystore"; "dsn"; "template";
   "script"; "executable"].
Definition PROHIBITED_PAIRS : list (list string * list string) :=
  [(["api"; "access"; "private"; "signing"; "encryption"], ["key"]); (["database"], ["path"; "file"]);
   (["sqlite"], ["database"; "path"]); (["connection"], ["string"]); (["device"], ["path"]); (["command"], ["line"])].

Section policy.
Context (unicode_lowercase : Z → list Z).
Definition char_to_lowercase (c : Z) : list Z := if c <? 128 then [to_ascii_lowercase c] else unicode_lowercase c.
Definition normalize_field (field : string) : list Z :=
  filter (λ c, c ≠ 45 ∧ c ≠ 95) (chars field) ≫= char_to_lowercase.
Definition is_prohibited_field (field : string) : bool :=
  let normalized := normalize_field field in
  if bool_decide (normalized ∈ (lit <$> ALLOWED_FIELDS)) then false
  else
    let tokens := field_tokens field in
    if existsb (λ token, bool_decide (token ∈ (lit <$> PROHIBITED_TOKENS))) tokens then true
    else if existsb (λ pair, existsb (λ pattern, bool_decide (pair.1 ∈ (lit <$> pattern.1))
                                                 && bool_decide (pair.2 ∈ (lit <$> pattern.2))) PROHIBITED_PAIRS)
              (windows2 tokens) then true
    else compact_prohibited_field normalized.
Definition redistribution_field (field : string) : bool :=
  bool_decide (normalize_field field = lit "redistributionpermitted").

(** ** The policy over a value *)
Definition depth_saturating_add (depth : Z) : Z := u64_saturating_add depth 1.
Definition validate_text (text : string) : JM unit :=
  _ ← budget_string text false;
  se_state (λ b, (validate_string text (sb_limits b), b)).
Section members.
Context (validate_json_at : JsonValue → Z → JM unit) (depth : Z).
Fixpoint validate_items (index : nat) (values : list JsonValue) : JM unit :=
  match values with
  | [] => mret tt
  | item :: values =>
      _ ← budget_item (Z.of_nat index);
      _ ← validate_json_at item (depth_saturating_add depth);
      validate_items (S index) values
  end.
Fixpoint validate_fields (index : nat) (entries : list (string * JsonValue)) : JM unit :=
  match entries with
  | [] => mret tt
  | (key, item) :: entries =>
      _ ← budget_string key true;
      _ ← budget_item (Z.of_nat index);
      _ ← if is_prohibited_field key then se_fail ("prohibited field " ++ key ++ " cannot be serialized")%string
          else if redistribution_field key && json_eqb item (JBool false)
          then se_fail "provider-restricted content cannot be serialized"
          else validate_json_at item (depth_saturating_add depth);
      validate_fields (S index) entries
  end.
End members.
Fixpoint validate_json_at (value : JsonValue) (depth : Z) {struct value} : JM unit :=
  _ ← budget_node depth;
  match value with
  | JString text => validate_text text
  | JArray values => validate_items validate_json_at depth 0 values
  | JObject entries => validate_fields validate_json_at depth 0 entries
  | JNull | JBool _ | JNumber _ => mret tt
  end.
Definition validate_nonsecret_portable_json (value : JsonValue) (limits : PortableJsonLimits) : Result string unit :=
  (validate_json_at value 0 (fresh_budget limits)).1.

(** ** The policy while the text is read *)
Definition nesting_checked_add (depth : Z) : JM Z :=
  se_lift (ok_or "portable JSON nesting overflow" (u64_checked_add depth 1)).
Section stream_members.
Context (stream_value : JsonValue → Z → bool → JM unit) (depth : Z).
(** [visit_seq]: an element is counted after it was read. *)
Fixpoint stream_seq (count : nat) (elements : list JsonValue) : JM unit :=
  match elements with
  | [] => mret tt
  | element :: elements =>
      _ ← stream_value element depth false;
      _ ← budget_item (Z.of_nat count);
      stream_seq (S count) elements
  end.
Fixpoint stream_map (keys : list string) (entries : list (string * JsonValue)) : JM unit :=
  match entries with
  | [] => mret tt
  | (key, value) :: entries =>
      _ ← budget_string key true;
      if bool_decide (key ∈ keys) then se_fail "duplicate portable JSON object key"
      else
        _ ← budget_item (len keys);
        if is_prohibited_field key then se_fail "prohibited portable JSON field"
        else
          _ ← stream_value value depth (redistribution_field key);
          stream_map (key :: keys) entries
  end.
End stream_members.
(** [StreamingJsonSeed::deserialize] and the visitor. *)
Fixpoint stream_value (value : JsonValue) (depth : Z) (reject_false : bool) {struct value} : JM unit :=
  _ ← budget_node depth;
  match value with
  | JNull | JNumber _ => mret tt
  | JBool value =>
      if reject_false && negb value then se_fail "provider-restricted content cannot be serialized" else mret tt
  | JString text => validate_text text
  | JArray elements => depth ← nesting_checked_add depth; stream_seq stream_value depth 0 elements
  | JObject entries => depth ← nesting_checked_add depth; stream_map stream_value depth [] entries
  end.
(** [text] is the tree of the bytes as [serde_json] reads them, or its error. *)
Definition validate_nonsecret_portable_json_bytes (text : Result string JsonValue) (limits : PortableJsonLimits) :
    Result string unit :=
  text ← text; (stream_value text 0 false (fresh_budget limits)).1.

(** ** Declared references *)
(** A UUID is its canonical text; [parse_uuid] also gives its version. *)
Context (parse_uuid : string → option (string * Z)).
Definition parse_scenario_id (value : JsonValue) (field : string) : Result string string :=
  let invalid := ("declared field " ++ field ++ " must be a UUID string")%string in
  text ← ok_or invalid (as_str value);
  id ← ok_or invalid (parse_uuid text);
  if negb (id.2 =? 7) then Err ("declared field " ++ field ++ " must be a UUIDv7 string")%string else Ok id.1.
Notation RM E := (SE (gset string) E).
Definition insert_reference {E} (id : string) : RM E unit := λ references, (Ok tt, {[id]} ∪ references).
Section scenario_members.
Context (collect : JsonValue → RM string unit).
Definition collect_scenario_entry (entry : string * JsonValue) : RM string unit :=
  let '(key, value) := entry in
  if bool_decide (normalize_field key = lit "scenarioid")
  then id ← se_lift (parse_scenario_id value key); insert_reference id
  else if bool_decide (normalize_field key = lit "scenarioids")
  then
    ids ← se_lift (ok_or ("declared field " ++ key ++ " must be an array")%string (as_array value));
    for_each (λ id, id ← se_lift (parse_scenario_id id key); insert_reference id) ids
  else collect value.
Fixpoint collect_scenario_members (values : list JsonValue) : RM string unit :=
  match values with [] => mret tt | value :: values => _ ← collect value; collect_scenario_members values end.
Fixpoint collect_scenario_entries (entries : list (string * JsonValue)) : RM string unit :=
  match entries with
  | [] => mret tt
  | entry :: entries => _ ← collect_scenario_entry (entry.1, entry.2); collect_scenario_entries entries
  end.
End scenario_members.
Fixpoint collect_scenario_references (value : JsonValue) : RM string unit :=
  match value with
  | JArray values => collect_scenario_members collect_scenario_references values
  | JObject entries => collect_scenario_entries collect_scenario_references entries
  | JNull | JBool _ | JNumber _ | JString _ => mret tt
  end.
Definition extract_scenario_references (value : JsonValue) : Result string (gset string) :=
  let '(result, references) := collect_scenario_references value ∅ in _ ← result; Ok references.

Inductive AssetReferenceVisitControl := Continue | Stop.
Section assets.
(** The visitor is a step on its own state; [from_error] is [E::from]. *)
Context {S E : Type} (from_error : string → E) (visit : string → SE S E AssetReferenceVisitControl).
Fixpoint visit_asset_items (key : string) (items : list JsonValue) : SE S E AssetReferenceVisitControl :=
  match items with
  | [] => mret Continue
  | item :: items =>
      reference ← se_lift (ok_or (from_error ("declared asset reference list " ++ key ++ " must contain strings")%string)
                             (as_str item));
      control ← visit reference;
      match control with Stop => mret Stop | Continue => visit_asset_items key items end
  end.
Definition visit_asset_entry (collect : JsonValue → SE S E AssetReferenceVisitControl) (key : string) (value : JsonValue) :
    SE S E AssetReferenceVisitControl :=
  let normalized := normalize_field key in
  if bool_decide (normalized ∈ (lit <$> ["asset"; "assetid"; "assetkey"; "assetpath"]))
  then
    reference ← se_lift (ok_or (from_error ("declared asset reference " ++ key ++ " must be a string")%string) (as_str value));
    visit reference
  else if bool_decide (normalized ∈ (lit <$> ["assets"; "assetids"; "assetkeys"; "assetpaths"]))
  then
    items ← se_lift (ok_or (from_error ("declared asset reference list " ++ key ++ " must be an array")%string)
                       (as_array value));
    visit_asset_items key items
  else collect value.
Section asset_members.
Context (collect : JsonValue → SE S E AssetReferenceVisitControl).
Fixpoint collect_asset_members (values : list JsonValue) : SE S E AssetReferenceVisitControl :=
  match values with
  | [] => mret Continue
  | value :: values =>
      control ← collect value;
      match control with Stop => mret Stop | Continue => collect_asset_members values end
  end.
Fixpoint collect_asset_reference_entries (entries : list (string * JsonValue)) : SE S E AssetReferenceVisitControl :=
  match entries with
  | [] => mret Continue
  | (key, value) :: entries =>
      control ← visit_asset_entry collect key value;
      match control with Stop => mret Stop | Continue => collect_asset_reference_entries entries end
  end.
End asset_members.
Fixpoint collect_asset_references (value : JsonValue) : SE S E AssetReferenceVisitControl :=
  match value with
  | JArray values => collect_asset_members collect_asset_references values
  | JObject entries => collect_asset_reference_entries collect_asset_references entries
  | JNull | JBool _ | JNumber _ | JString _ => mret Continue
  end.
Definition visit_asset_references (value : JsonValue) : SE S E unit := _ ← collect_asset_references value; mret tt.
Definition visit_asset_reference_map (entries : list (string * JsonValue)) : SE S E unit :=
  _ ← collect_asset_reference_entries collect_asset_references entries; mret tt.
End assets.
Definition extract_asset_references (value : JsonValue) : Result string (gset string) :=
  let '(result, references) :=
    visit_asset_references id (λ reference, _ ← insert_reference reference; mret Continue) value ∅ in
  _ ← result; Ok references.

(** ** Retained results *)
Definition unique_normalized_field (object : list (string * JsonValue)) (normalized display : string) :
    Result string (string * JsonValue) :=
  match filter (λ entry, normalize_field entry.1 = lit normalized) object with
  | [] => Err ("retained result is missing " ++ display)%string
  | [entry] => Ok entry
  | _ => Err ("retained result contains ambiguous " ++ display ++ " fields")%string
  end.
Definition extract_result_id (value : JsonValue) : Result string string :=
  object ← ok_or "retained result must be a JSON object" (as_object value);
  entry ← unique_normalized_field object "resultid" "resultId";
  text ← ok_or ("retained result " ++ entry.1 ++ " must be a string")%string (as_str entry.2);
  id ← ok_or ("retained result " ++ entry.1 ++ " must be a UUID")%string (parse_uuid text);
  if negb (id.2 =? 7) then Err ("retained result " ++ entry.1 ++ " must be a UUIDv7")%string else Ok id.1.
Definition self_declared_uuid (key : string) (value : JsonValue) : option string :=
  match parse_uuid key, value_get value "id" with
  | Some (identity, _), Some (JString text) =>
      match parse_uuid text with
      | Some (declared, _) => if bool_decide (identity = declared) then Some identity else None
      | None => None
      end
  | _, _ => None
  end.
Section self_declared.
Context {S E : Type} (visit : string → SE S E unit).
Section self_declared_members.
Context (visit_value : JsonValue → SE S E unit).
Fixpoint visit_self_declared_members (values : list JsonValue) : SE S E unit :=
  match values with [] => mret tt | value :: values => _ ← visit_value value; visit_self_declared_members values end.
Fixpoint visit_self_declared_entries (entries : list (string * JsonValue)) : SE S E unit :=
  match entries with
  | [] => mret tt
  | (key, value) :: entries =>
      _ ← match self_declared_uuid key value with Some identity => visit identity | None => mret tt end;
      _ ← visit_value value;
      visit_self_declared_entries entries
  end.
End self_declared_members.
Fixpoint visit_self_declared_uuids (value : JsonValue) : SE S E unit :=
  match value with
  | JArray values => visit_self_declared_members visit_self_declared_uuids values
  | JObject entries => visit_self_declared_entries visit_self_declared_uuids entries
  | JNull | JBool _ | JNumber _ | JString _ => mret tt
  end.
End self_declared.
Definition collect_self_declared_uuids (value : JsonValue) : gset string :=
  (visit_self_declared_uuids (E := Empty_set) insert_reference value ∅).2.

(** The envelope of an archived result; [parse_timestamp] is the parser of the jiff crate. *)
Context (parse_timestamp : string → bool).
Definition ARCHIVAL_RESULT_FORMAT : string := "eutheto/archival-result".
(** [value[field]] *)
Definition index (value : JsonValue) (field : string) : JsonValue := default JNull (value_get value field).
Definition invalid_archival : string := "invalid archival-result V1 envelope".
Definition ARCHIVAL_ROOT_FIELDS : list string :=
  ["format"; "schemaVersion"; "resultId"; "scenarioId"; "scenarioRevision"; "archive"].
Definition ARCHIVAL_REQUIRED_FIELDS : list string :=
  ["resultId"; "scenarioId"; "scenarioRevision"; "solveRunId"; "status"; "accepted"; "createdAt"; "normalizedSolution";
   "score"; "verificationReport"].
Definition is_archival_result (value : JsonValue) : Result string bool :=
  if negb (bool_decide (match value_get value "format" with Some v => as_str v | None => None end
                        = Some ARCHIVAL_RESULT_FORMAT)) then Ok false
  else
    root ← ok_or invalid_archival (as_object value);
    if negb (len root =? len ARCHIVAL_ROOT_FIELDS)
       || existsb (λ key, negb (bool_decide (key ∈ ARCHIVAL_ROOT_FIELDS))) root.*1
       || negb (bool_decide (as_u64 (index value "schemaVersion") = Some 1))
       || bool_decide (as_u64 (index value "scenarioRevision") = None)
    then Err invalid_archival
    else
      _ ← for_each (λ field, _ ← parse_scenario_id (index value field) field; Ok tt) ["resultId"; "scenarioId"];
      let archived := index value "archive" in
      archive ← ok_or invalid_archival (as_object archived);
      if existsb (λ field, negb (contains_key archive field)) ARCHIVAL_REQUIRED_FIELDS
         || existsb (λ key, negb (bool_decide (key ∈ ARCHIVAL_REQUIRED_FIELDS))
                            && negb (bool_decide (key ∈ ["explanationIndex"; "evidence"]))) archive.*1
         || bool_decide (as_u64 (index archived "scenarioRevision") = None)
         || bool_decide (as_bool (index archived "accepted") = None)
         || match as_str (index archived "status") with Some s => bool_decide (s = "") | None => true end
      then Err invalid_archival
      else
        _ ← for_each (λ field, _ ← parse_scenario_id (index archived field) field; Ok tt)
              ["resultId"; "scenarioId"; "solveRunId"];
        created_at ← ok_or invalid_archival (as_str (index archived "createdAt"));
        if parse_timestamp created_at then Ok true else Err invalid_archival.
Definition collect_result_owned_uuids (value : JsonValue) : Result string (gset string) :=
  archival ← is_archival_result value;
  let owned := if (archival : bool) then ∅ else collect_self_declared_uuids value in
  id ← extract_result_id value;
  Ok ({[id]} ∪ owned).
Record ScenarioRevisionReference := { srr_scenario_id : string; srr_scenario_revision : Z }.
(** [None] is the panic of [Revision::new] above [REVISION_MAX_V1]. *)
Definition extract_result_dependency (value : JsonValue) : option (Result string ScenarioRevisionReference) :=
  match (_ ← is_archival_result value;
         object ← ok_or "retained result must be a JSON object" (as_object value);
         scenario ← unique_normalized_field object "scenarioid" "scenarioId";
         scenario_id ← parse_scenario_id scenario.2 scenario.1;
         revision ← unique_normalized_field object "scenariorevision" "scenarioRevision";
         revision ← ok_or "retained result scenarioRevision must be an integer" (as_u64 revision.2);
         Ok (scenario_id, revision)) with
  | Err error => Some (Err error)
  | Ok (scenario_id, revision) =>
      if REVISION_MAX_V1 <? revision then None
      else Some (Ok {| srr_scenario_id := scenario_id; srr_scenario_revision := revision |})
  end.
End policy.
