(* ===== verification/PortableFacts.v ===== *)
(** * What the portable policy admits

    The policy over a value and the policy streamed over its text charge the same nodes, items and
    bytes and refuse the same content, although they visit members in different orders and count an
    element before or after it is read.  Both are characterized by the measures of the value. *)
From stdpp Require Import base tactics list gmap strings sorting.
From Stdlib Require Import ZArith Lia Ascii.
From S2P Require Import Prelude Ordering Protocol Budget Ids DomainIr Json Portable.
Import Text.
Open Scope string_scope.
Open Scope list_scope.
Open Scope Z_scope.
Create HintDb costs discriminated.

(** ** Measures *)
Definition max_of {A} (f : A → Z) (l : list A) : Z := foldr (λ a n, Z.max (f a) n) 0 l.
Fixpoint json_nodes (value : JsonValue) : Z :=
  match value with
  | JArray values => 1 + sum_of json_nodes values
  | JObject entries => 1 + sum_of (λ '(_, v), json_nodes v) entries
  | _ => 1
  end.
(** The members below a value, counted at every container. *)
Fixpoint json_items (value : JsonValue) : Z :=
  match value with
  | JArray values => len values + sum_of json_items values
  | JObject entries => len entries + sum_of (λ '(_, v), json_items v) entries
  | _ => 0
  end.
(** The depth of the deepest node below a value. *)
Fixpoint json_height (value : JsonValue) : Z :=
  match value with
  | JArray values => max_of (λ v, 1 + json_height v) values
  | JObject entries => max_of (λ '(_, v), 1 + json_height v) entries
  | _ => 0
  end.
Fixpoint json_string_bytes (value : JsonValue) : Z :=
  match value with
  | JString text => len (as_bytes text)
  | JArray values => sum_of json_string_bytes values
  | JObject entries => sum_of (λ '(key, v), len (as_bytes key) + json_string_bytes v) entries
  | _ => 0
  end.
Definition typed_json_limits (limits : PortableJsonLimits) : Prop :=
  0 ≤ max_depth limits < u64_max ∧ 0 ≤ max_string_bytes limits ≤ u64_max ∧ 0 ≤ max_collection_items limits ≤ u64_max.

Section content.
Context (unicode_lowercase : Z → list Z) (limits : PortableJsonLimits).
Definition key_allowed (key : string) : Prop :=
  len (as_bytes key) ≤ max_string_bytes limits ∧ is_prohibited_field unicode_lowercase key = false.
(** Every string is portable, every key allowed, and nothing is marked as not redistributable. *)
Fixpoint content_allowed (value : JsonValue) : Prop :=
  match value with
  | JString text => validate_string text limits = Ok tt
  | JArray values => foldr (λ v P, content_allowed v ∧ P) True values
  | JObject entries =>
      foldr (λ '(key, v) P, (key_allowed key ∧ ¬ (redistribution_field unicode_lowercase key ∧ v = JBool false) ∧
                             content_allowed v) ∧ P) True entries
  | _ => True
  end.
Definition entry_allowed (entry : string * JsonValue) : Prop :=
  key_allowed entry.1 ∧ ¬ (redistribution_field unicode_lowercase entry.1 ∧ entry.2 = JBool false) ∧
  content_allowed entry.2.
Lemma content_array values : content_allowed (JArray values) ↔ Forall content_allowed values.
Proof. cbn. induction values as [|v l IH]; cbn; [done|]. by rewrite Forall_cons, IH. Qed.
Lemma content_object entries : content_allowed (JObject entries) ↔ Forall entry_allowed entries.
Proof. cbn. induction entries as [|[k v] l IH]; cbn; [done|]. by rewrite Forall_cons, IH. Qed.
End content.
#[global] Arguments entry_allowed : simpl never.

Lemma max_of_le {A} (f : A → Z) l n : 0 ≤ n → max_of f l ≤ n ↔ Forall (λ a, f a ≤ n) l.
Proof. intros Hn. unfold max_of. induction l as [|a l IH]; cbn; [done|]. rewrite Forall_cons, Z.max_lub_iff. by rewrite IH. Qed.
Lemma max_of_nonneg {A} (f : A → Z) l : 0 ≤ max_of f l.
Proof. unfold max_of. induction l as [|a l IH]; cbn; lia. Qed.
Lemma sum_of_cons {A} (f : A → Z) a l : sum_of f (a :: l) = f a + sum_of f l.
Proof. done. Qed.
Lemma max_of_cons {A} (f : A → Z) a l : max_of f (a :: l) = Z.max (f a) (max_of f l).
Proof. done. Qed.
Definition entry_nodes : string * JsonValue → Z := λ '(_, v), json_nodes v.
Definition entry_items : string * JsonValue → Z := λ '(_, v), json_items v.
Definition entry_height : string * JsonValue → Z := λ '(_, v), 1 + json_height v.
Definition entry_string_bytes : string * JsonValue → Z := λ '(key, v), len (as_bytes key) + json_string_bytes v.
Lemma len_nonneg {A} (l : list A) : 0 ≤ len l.
Proof. unfold len. lia. Qed.

(** Every node but the root is an item of its container. *)
Lemma items_are_nodes v : json_items v = json_nodes v - 1.
Proof.
  induction v as [| | | |l IH|l IH] using JsonValue_rect'; cbn [json_items json_nodes]; [lia..| |].
  - enough (len l + sum_of json_items l = sum_of json_nodes l) by lia.
    induction IH as [|v l Hv _ IHl]; [done|]. rewrite !sum_of_cons. unfold len in *. cbn [length]. lia.
  - fold entry_items entry_nodes. enough (len l + sum_of entry_items l = sum_of entry_nodes l) by lia.
    induction l as [|[k v] l IHl]; [done|]. apply Forall_cons in IH as [Hv IH]. specialize (IHl IH). cbn in Hv.
    rewrite !sum_of_cons. cbn [entry_items entry_nodes]. unfold len in *. cbn [length]. lia.
Qed.
Lemma json_nodes_pos v : 1 ≤ json_nodes v.
Proof.
  induction v as [| | | |l IH|l IH] using JsonValue_rect'; cbn [json_nodes]; [lia..| |].
  - enough (0 ≤ sum_of json_nodes l) by lia. induction IH; [done|]. rewrite sum_of_cons. lia.
  - fold entry_nodes. enough (0 ≤ sum_of entry_nodes l) by lia.
    induction l as [|[k v] l IHl]; [done|]. apply Forall_cons in IH as [Hv IH]. specialize (IHl IH). cbn in Hv.
    rewrite sum_of_cons. cbn [entry_nodes]. lia.
Qed.
Lemma json_string_bytes_nonneg v : 0 ≤ json_string_bytes v.
Proof.
  induction v as [| | |s|l IH|l IH] using JsonValue_rect'; cbn [json_string_bytes]; [done..|apply len_nonneg| |].
  - induction IH; [done|]. rewrite sum_of_cons. lia.
  - fold entry_string_bytes. induction l as [|[k v] l IHl]; [done|]. apply Forall_cons in IH as [Hv IH]. specialize (IHl IH).
    cbn in Hv. rewrite sum_of_cons. cbn [entry_string_bytes]. pose proof (len_nonneg (as_bytes k)). lia.
Qed.
Lemma json_height_nonneg v : 0 ≤ json_height v.
Proof. destruct v; cbn [json_height]; try done; apply max_of_nonneg. Qed.

(** ** What a traversal charges *)
Record Cost := { co_nodes : Z; co_items : Z; co_bytes : Z }.
Definition cost_add (a b : Cost) : Cost :=
  {| co_nodes := co_nodes a + co_nodes b; co_items := co_items a + co_items b; co_bytes := co_bytes a + co_bytes b |}.
Definition cost_of (v : JsonValue) : Cost :=
  {| co_nodes := json_nodes v; co_items := json_items v; co_bytes := json_string_bytes v |}.
Definition nonneg_cost (c : Cost) : Prop := 0 ≤ co_nodes c ∧ 0 ≤ co_items c ∧ 0 ≤ co_bytes c.

Section traversal.
Context (unicode_lowercase : Z → list Z) (limits : PortableJsonLimits) (Hlimits : typed_json_limits limits).
Record open_budget (b : StreamingJsonBudget) : Prop := {
  ob_limits : sb_limits b = limits;
  ob_nodes : 0 ≤ sb_nodes b ≤ max_collection_items limits;
  ob_items : 0 ≤ sb_items b ≤ max_collection_items limits;
  ob_bytes : 0 ≤ sb_string_bytes b ≤ u64_max
}.
Definition fits (b : StreamingJsonBudget) (c : Cost) : Prop :=
  sb_nodes b + co_nodes c ≤ max_collection_items limits ∧ sb_items b + co_items c ≤ max_collection_items limits ∧
  sb_string_bytes b + co_bytes c ≤ u64_max.
Definition spent (b : StreamingJsonBudget) (c : Cost) : StreamingJsonBudget :=
  {| sb_limits := sb_limits b; sb_nodes := sb_nodes b + co_nodes c; sb_items := sb_items b + co_items c;
     sb_string_bytes := sb_string_bytes b + co_bytes c |}.
(** [charges m c φ]: [m] succeeds exactly when [φ] holds and [c] is left, and spends [c]. *)
Definition charges {A} (m : JM A) (c : Cost) (φ : Prop) (a : A) : Prop := ∀ b, open_budget b →
  match m b with
  | (Ok a', b') => φ ∧ fits b c ∧ a' = a ∧ b' = spent b c
  | (Err _, _) => ¬ (φ ∧ fits b c)
  end.

Lemma open_spent b c : open_budget b → nonneg_cost c → fits b c → open_budget (spent b c).
Proof. intros [H1 H2 H3 H4] (? & ? & ?) (? & ? & ?). split; cbn; [done|lia..]. Qed.
Lemma spent_add b c c' : spent (spent b c) c' = spent b (cost_add c c').
Proof. unfold spent, cost_add. cbn. f_equal; lia. Qed.
Lemma fits_add b c c' : nonneg_cost c → nonneg_cost c' → fits b c ∧ fits (spent b c) c' ↔ fits b (cost_add c c').
Proof. unfold fits, nonneg_cost, spent, cost_add. cbn. lia. Qed.
Lemma charges_bind {A B} (m : JM A) (k : A → JM B) c c' (φ φ' : Prop) a b :
  charges m c φ a → charges (k a) c' φ' b → nonneg_cost c → nonneg_cost c' →
  charges (m ≫= k) (cost_add c c') (φ ∧ φ') b.
Proof.
  intros Hm Hk Hc Hc' b0 Hb. specialize (Hm b0 Hb). unfold mbind, SE_bind. destruct (m b0) as [[a'|e] b1].
  - destruct Hm as (Hφ & Hf & -> & ->). specialize (Hk _ (open_spent _ _ Hb Hc Hf)).
    destruct (k a (spent b0 c)) as [[b'|e] b2].
    + destruct Hk as (Hφ' & Hf' & -> & ->). rewrite spent_add. rewrite <-fits_add by done. done.
    + rewrite <-fits_add by done. naive_solver.
  - rewrite <-fits_add by done. naive_solver.
Qed.
Lemma charges_iff {A} (m : JM A) c c' (φ φ' : Prop) a :
  charges m c φ a → c = c' → (∀ b, open_budget b → fits b c → φ ↔ φ') → charges m c' φ' a.
Proof.
  intros H <- Hφ b Hb. specialize (H b Hb). specialize (Hφ b Hb). destruct (m b) as [[]]; naive_solver.
Qed.
Definition no_cost : Cost := {| co_nodes := 0; co_items := 0; co_bytes := 0 |}.
Definition node_cost : Cost := {| co_nodes := 1; co_items := 0; co_bytes := 0 |}.
Definition item_cost : Cost := {| co_nodes := 0; co_items := 1; co_bytes := 0 |}.
Definition bytes_cost (n : Z) : Cost := {| co_nodes := 0; co_items := 0; co_bytes := n |}.
Lemma spent_none b : spent b no_cost = b.
Proof. destruct b. unfold spent, no_cost. cbn. by rewrite !Z.add_0_r. Qed.
Lemma charges_ret {A} (a : A) : charges (mret a) no_cost True a.
Proof.
  intros b [H1 H2 H3 H4]. unfold mret, SE_ret. rewrite spent_none. split_and!; [done| |done|done].
  unfold fits. cbn. lia.
Qed.
Lemma charges_fail {A} e c (a : A) : charges (se_fail e) c False a.
Proof. intros b Hb. cbn. naive_solver. Qed.
Lemma charges_lift {A} (r : Result string A) (φ : Prop) a : (r = Ok a ↔ φ) → (∀ a', r = Ok a' → a' = a) → charges (se_lift r) no_cost φ a.
Proof.
  intros H Hu b Hb. cbn. pose proof (charges_ret a b Hb) as Hr. cbn in Hr. destruct r as [a'|e].
  - specialize (Hu a' eq_refl) as ->. naive_solver.
  - intros [Hφ _]. apply H in Hφ. done.
Qed.
Lemma charges_node d : charges (budget_node d) node_cost (d ≤ max_depth limits) tt.
Proof.
  intros b [H1 H2 H3 H4]. destruct Hlimits as (Hd & Hs & Hi). unfold budget_node. rewrite H1.
  destruct (Z.ltb_spec (max_depth limits) d); [lia|]. unfold u64_checked_add, checked_u64, fits. cbn [co_nodes co_items co_bytes node_cost].
  destruct ((0 <=? sb_nodes b + 1) && (sb_nodes b + 1 <=? u64_max)) eqn:E.
  - cbn [sb_limits]. destruct (Z.ltb_spec (max_collection_items limits) (sb_nodes b + 1)); [lia|].
    split_and!; try done; try lia. unfold spent. cbn. by rewrite H1, !Z.add_0_r.
  - apply andb_false_iff in E as [E|E]; apply Z.leb_gt in E; lia.
Qed.
Lemma charges_item i : charges (budget_item i) item_cost (i < max_collection_items limits) tt.
Proof.
  intros b [H1 H2 H3 H4]. destruct Hlimits as (Hd & Hs & Hi). unfold budget_item. rewrite H1.
  destruct (Z.leb_spec (max_collection_items limits) i); [lia|]. unfold u64_checked_add, checked_u64, fits. cbn [co_nodes co_items co_bytes item_cost].
  destruct ((0 <=? sb_items b + 1) && (sb_items b + 1 <=? u64_max)) eqn:E.
  - cbn [sb_limits]. destruct (Z.ltb_spec (max_collection_items limits) (sb_items b + 1)); [lia|].
    split_and!; try done; try lia. unfold spent. cbn. by rewrite H1, !Z.add_0_r.
  - apply andb_false_iff in E as [E|E]; apply Z.leb_gt in E; lia.
Qed.
Lemma charges_string s key :
  charges (budget_string s key) (bytes_cost (len (as_bytes s))) (len (as_bytes s) ≤ max_string_bytes limits) tt.
Proof.
  intros b [H1 H2 H3 H4]. pose proof (len_nonneg (as_bytes s)). unfold budget_string. rewrite H1.
  destruct (Z.ltb_spec (max_string_bytes limits) (len (as_bytes s))); [lia|].
  unfold u64_checked_add, checked_u64, fits. cbn [co_nodes co_items co_bytes bytes_cost].
  destruct ((0 <=? sb_string_bytes b + len (as_bytes s)) && (sb_string_bytes b + len (as_bytes s) <=? u64_max)) eqn:E.
  - apply andb_true_iff in E as [_ E%Z.leb_le]. split_and!; try done; try lia. unfold spent. cbn. by rewrite H1, !Z.add_0_r.
  - apply andb_false_iff in E as [E|E]; apply Z.leb_gt in E; lia.
Qed.
Lemma validate_string_bytes s : validate_string s limits = Ok tt → len (as_bytes s) ≤ max_string_bytes limits.
Proof. unfold validate_string. destruct (Z.ltb_spec (max_string_bytes limits) (len (as_bytes s))); [done|lia]. Qed.
Lemma charges_text s : charges (validate_text s) (bytes_cost (len (as_bytes s))) (validate_string s limits = Ok tt) tt.
Proof.
  unfold validate_text. eapply charges_iff;
    [eapply (charges_bind _ _ _ no_cost _ (validate_string s limits = Ok tt)); [apply charges_string| | |]|..].
  - intros b Hb. unfold se_state. rewrite (ob_limits b Hb). pose proof (charges_ret tt b Hb) as Hr. cbn in Hr.
    destruct (validate_string s limits) as [[]|]; naive_solver.
  - pose proof (len_nonneg (as_bytes s)). by unfold nonneg_cost; cbn.
  - done.
  - unfold cost_add, bytes_cost. f_equal; cbn; lia.
  - intros b _ _. split; [by intros [_ ?]|]. intros H. split; [by apply validate_string_bytes|done].
Qed.

(** ** The policy over a value *)
Notation allowed := (content_allowed unicode_lowercase limits).
Notation allowed_entry := (entry_allowed unicode_lowercase limits).
Definition members_cost (n : Z) (nodes items bytes : Z) : Cost :=
  {| co_nodes := nodes; co_items := n + items; co_bytes := bytes |}.
Definition array_cost (l : list JsonValue) : Cost :=
  members_cost (len l) (sum_of json_nodes l) (sum_of json_items l) (sum_of json_string_bytes l).
Definition object_cost (l : list (string * JsonValue)) : Cost :=
  members_cost (len l) (sum_of entry_nodes l) (sum_of entry_items l) (sum_of entry_string_bytes l).
Lemma json_items_nonneg v : 0 ≤ json_items v.
Proof using. rewrite items_are_nodes. pose proof (json_nodes_pos v). lia. Qed.
Lemma cost_of_nonneg v : nonneg_cost (cost_of v).
Proof using.
  pose proof (json_nodes_pos v). pose proof (json_items_nonneg v). pose proof (json_string_bytes_nonneg v).
  unfold nonneg_cost. cbn. lia.
Qed.
Lemma array_cost_nonneg l : nonneg_cost (array_cost l).
Proof using.
  unfold nonneg_cost. cbn. pose proof (len_nonneg l).
  pose proof (sum_of_nonneg json_items l json_items_nonneg).
  pose proof (sum_of_nonneg json_string_bytes l json_string_bytes_nonneg).
  pose proof (sum_of_nonneg json_nodes l (λ v, Z.le_trans _ _ _ Z.le_0_1 (json_nodes_pos v))). lia.
Qed.
Lemma object_cost_nonneg l : nonneg_cost (object_cost l).
Proof using.
  unfold nonneg_cost. cbn. pose proof (len_nonneg l).
  assert (0 ≤ sum_of entry_items l) by (apply sum_of_nonneg; intros []; apply json_items_nonneg).
  assert (0 ≤ sum_of entry_nodes l) by (apply sum_of_nonneg; intros [k v]; pose proof (json_nodes_pos v); cbn; lia).
  assert (0 ≤ sum_of entry_string_bytes l)
    by (apply sum_of_nonneg; intros [k v]; pose proof (len_nonneg (as_bytes k)); pose proof (json_string_bytes_nonneg v); cbn; lia).
  lia.
Qed.
Lemma string_cost_nonneg s : nonneg_cost (bytes_cost (len (as_bytes s))).
Proof using. pose proof (len_nonneg (as_bytes s)). unfold nonneg_cost. by cbn. Qed.
Lemma unit_cost_nonneg : nonneg_cost node_cost ∧ nonneg_cost item_cost ∧ nonneg_cost no_cost.
Proof using. unfold nonneg_cost. cbn. lia. Qed.
Lemma cost_add_nonneg a b : nonneg_cost a → nonneg_cost b → nonneg_cost (cost_add a b).
Proof using. unfold nonneg_cost. cbn. lia. Qed.
#[local] Hint Resolve cost_of_nonneg array_cost_nonneg object_cost_nonneg string_cost_nonneg cost_add_nonneg : costs.
#[local] Hint Extern 0 (nonneg_cost node_cost) => apply unit_cost_nonneg : costs.
#[local] Hint Extern 0 (nonneg_cost item_cost) => apply unit_cost_nonneg : costs.
#[local] Hint Extern 0 (nonneg_cost no_cost) => apply unit_cost_nonneg : costs.
Lemma saturating_inside d : 0 ≤ d ≤ max_depth limits → depth_saturating_add d = d + 1.
Proof using Hlimits. destruct Hlimits as [? _]. unfold depth_saturating_add, u64_saturating_add. lia. Qed.
Lemma charges_stop {A B} (m : JM A) (k : A → JM B) c c' a b : charges m c False a → charges (m ≫= k) c' False b.
Proof using.
  intros H b0 Hb. specialize (H b0 Hb). unfold mbind, SE_bind. destruct (m b0) as [[a'|e] b1]; [by destruct H|naive_solver].
Qed.
Definition member_room {A} (i : nat) (l : list A) : Prop := l = [] ∨ Z.of_nat i + len l ≤ max_collection_items limits.
Lemma member_room_cons {A} i (a : A) l :
  member_room i (a :: l) ↔ Z.of_nat i < max_collection_items limits ∧ member_room (S i) l.
Proof using.
  unfold member_room, len. cbn [length]. split; [intros [|H]; [done|]|].
  - split; [lia|]. destruct l; [by left|right; cbn in *; lia].
  - intros [? [->|?]]; right; cbn; lia.
Qed.
Definition visited (visit : Z → JM unit) (d : Z) (v : JsonValue) : Prop :=
  charges (visit d) (cost_of v) (d + json_height v ≤ max_depth limits ∧ allowed v) tt.
Lemma entry_visited visit d (k : string) (v : JsonValue) : visited visit d v →
  charges (if is_prohibited_field unicode_lowercase k then se_fail ("prohibited field " ++ k ++ " cannot be serialized")%string
           else if redistribution_field unicode_lowercase k && json_eqb v (JBool false)
           then se_fail "provider-restricted content cannot be serialized"
           else visit d)
    (cost_of v)
    (is_prohibited_field unicode_lowercase k = false ∧ ¬ (redistribution_field unicode_lowercase k ∧ v = JBool false) ∧
     d + json_height v ≤ max_depth limits ∧ allowed v) tt.
Proof using.
  intros H. destruct (is_prohibited_field _ k); [eapply charges_iff; [apply charges_fail|done|naive_solver]|].
  assert (json_eqb v (JBool false) = true ↔ v = JBool false) as Hv by (destruct v as [|[]| | | |]; cbn; naive_solver).
  destruct (redistribution_field _ k) eqn:Hr; cbn [andb].
  - destruct (json_eqb v (JBool false)); [eapply charges_iff; [apply charges_fail|done|naive_solver]|].
    eapply charges_iff; [exact H|done|]. naive_solver.
  - eapply charges_iff; [exact H|done|]. naive_solver.
Qed.

Notation visit_at := (validate_json_at unicode_lowercase).
Definition visits (v : JsonValue) : Prop := ∀ d, 0 ≤ d → visited (visit_at v) d v.
Lemma items_charged l : Forall visits l → ∀ i d, 0 ≤ d ≤ max_depth limits →
  charges (validate_items visit_at d i l) (array_cost l)
    (member_room i l ∧ Forall (λ v, d + 1 + json_height v ≤ max_depth limits) l ∧ Forall allowed l) tt.
Proof using Hlimits.
  destruct unit_cost_nonneg as (Hnode & Hitem & Hno).
  induction 1 as [|v l Hv _ IH]; intros i d Hd; cbn [validate_items].
  { eapply charges_iff; [apply charges_ret|done|]. intros _ _ _. rewrite !Forall_nil. unfold member_room. naive_solver. }
  rewrite (saturating_inside d Hd).
  eapply charges_iff; [eapply charges_bind; [apply charges_item|eapply charges_bind; [apply Hv; lia|apply IH, Hd| |]| |]|..]; [auto 4 with costs..| |].
  - unfold cost_add, array_cost, members_cost, cost_of, len. cbn [length co_nodes co_items co_bytes item_cost].
    rewrite !sum_of_cons. f_equal; lia.
  - intros _ _ _. rewrite member_room_cons, !Forall_cons. naive_solver.
Qed.
Lemma fields_charged l : Forall visits l.*2 → ∀ i d, 0 ≤ d ≤ max_depth limits →
  charges (validate_fields unicode_lowercase visit_at d i l) (object_cost l)
    (member_room i l ∧ Forall (λ e, d + entry_height e ≤ max_depth limits) l ∧ Forall allowed_entry l) tt.
Proof using Hlimits.
  destruct unit_cost_nonneg as (Hnode & Hitem & Hno).
  induction l as [|[k v] l IH]; intros Hall i d Hd; cbn [validate_fields].
  { eapply charges_iff; [apply charges_ret|done|]. intros _ _ _. rewrite !Forall_nil. unfold member_room. naive_solver. }
  apply Forall_cons in Hall as [Hv Hall]. specialize (IH Hall). rewrite (saturating_inside d Hd).
  eapply charges_iff; [eapply charges_bind; [apply charges_string|eapply charges_bind; [apply charges_item|
    eapply charges_bind; [apply entry_visited, Hv; lia|apply IH, Hd| |]| |]| |]|..]; [auto 5 with costs..| |].
  - unfold cost_add, object_cost, members_cost, cost_of, len. cbn [length co_nodes co_items co_bytes item_cost bytes_cost].
    rewrite !sum_of_cons. cbn [entry_nodes entry_items entry_string_bytes]. unfold len. f_equal; lia.
  - intros _ _ _. rewrite member_room_cons, !Forall_cons. cbn [entry_height]. rewrite (Z.add_assoc d 1).
    change (allowed_entry (k, v)) with (key_allowed unicode_lowercase limits k ∧ ¬ (redistribution_field unicode_lowercase k ∧ v = JBool false) ∧ allowed v).
    unfold key_allowed. tauto.
Qed.
Lemma room_at_top {A} (l : list A) b c : open_budget b → fits b c → len l ≤ co_items c → member_room 0 l.
Proof using. intros Hb (_ & Hi & _) Hl. right. destruct (ob_items b Hb). cbn. lia. Qed.
Lemma height_below {A} (f : A → Z) d l : 0 ≤ d ≤ max_depth limits →
  d + max_of f l ≤ max_depth limits ↔ Forall (λ a, d + f a ≤ max_depth limits) l.
Proof using.
  intros Hd. transitivity (max_of f l ≤ max_depth limits - d); [lia|]. rewrite max_of_le by lia.
  apply Forall_iff. intros a. lia.
Qed.
Lemma json_visits v : visits v.
Proof using Hlimits.
  destruct unit_cost_nonneg as (Hnode & Hitem & Hno).
  induction v as [|b|t|s|l IH|l IH] using JsonValue_rect'; intros d Hd; unfold visited; cbn [validate_json_at].
  all: destruct (decide (d ≤ max_depth limits)) as [Hin|Hout];
    [|eapply charges_iff; [eapply (charges_stop _ _ node_cost); eapply charges_iff; [apply charges_node|done|naive_solver]|done|];
      match goal with |- context [json_height ?v] => pose proof (json_height_nonneg v) end; naive_solver lia].
  1-3: eapply charges_iff; [eapply charges_bind; [apply charges_node|apply charges_ret|done|done]|done|cbn; naive_solver lia].
  - eapply charges_iff; [eapply charges_bind; [apply charges_node|apply charges_text|auto with costs..]|done|].
    cbn. naive_solver lia.
  - eapply charges_iff; [eapply charges_bind; [apply charges_node|apply items_charged; [done|lia]|auto with costs..]|done|].
    intros b Hb Hf. rewrite content_array. cbn [json_height]. rewrite height_below by lia.
    assert (Forall (λ v, d + 1 + json_height v ≤ max_depth limits) l ↔ Forall (λ v, d + (1 + json_height v) ≤ max_depth limits) l)
      as -> by (apply Forall_iff; intros; lia).
    assert (member_room 0 l) as Hroom.
    { eapply room_at_top; [exact Hb|exact Hf|]. cbn. pose proof (sum_of_nonneg json_items l json_items_nonneg). lia. }
    naive_solver.
  - eapply charges_iff; [eapply charges_bind; [apply charges_node|apply fields_charged; [done|lia]|auto with costs..]|done|].
    intros b Hb Hf. rewrite content_object. cbn [json_height]. fold entry_height. rewrite height_below by lia.
    assert (member_room 0 l) as Hroom.
    { eapply room_at_top; [exact Hb|exact Hf|]. cbn.
      assert (0 ≤ sum_of entry_items l) by (apply sum_of_nonneg; intros []; apply json_items_nonneg). lia. }
    naive_solver.
Qed.

(** ** The policy while the text is read *)
Notation stream := (stream_value unicode_lowercase).
Definition streams (v : JsonValue) : Prop := ∀ d reject_false, 0 ≤ d →
  charges (stream v d reject_false) (cost_of v)
    (d + json_height v ≤ max_depth limits ∧ allowed v ∧ distinct_keys v ∧ ¬ (reject_false ∧ v = JBool false)) tt.
Lemma seq_charged l : Forall streams l → ∀ i d, 0 ≤ d →
  charges (stream_seq stream d i l) (array_cost l)
    (member_room i l ∧ Forall (λ v, d + json_height v ≤ max_depth limits) l ∧ Forall allowed l ∧ Forall distinct_keys l) tt.
Proof using Hlimits.
  induction 1 as [|v l Hv _ IH]; intros i d Hd; cbn [stream_seq].
  { eapply charges_iff; [apply charges_ret|done|]. intros _ _ _. rewrite !Forall_nil. unfold member_room. naive_solver. }
  eapply charges_iff; [eapply charges_bind; [apply Hv, Hd|eapply charges_bind; [apply charges_item|apply IH, Hd| |]| |]|..];
    [auto 4 with costs..| |].
  - unfold cost_add, array_cost, members_cost, cost_of, len. cbn [length co_nodes co_items co_bytes item_cost].
    rewrite !sum_of_cons. f_equal; lia.
  - intros _ _ _. rewrite member_room_cons, !Forall_cons. split; [tauto|]. intros (? & ? & ? & ?).
    split_and!; try tauto.
Qed.
Definition fresh_keys (keys : list string) (l : list (string * JsonValue)) : Prop :=
  NoDup l.*1 ∧ Forall (λ key, key ∉ keys) l.*1.
Lemma fresh_keys_cons keys k v l :
  fresh_keys keys ((k, v) :: l) ↔ k ∉ keys ∧ fresh_keys (k :: keys) l.
Proof using.
  unfold fresh_keys. cbn. rewrite NoDup_cons, Forall_cons.
  assert (Forall (λ key, key ∉ k :: keys) l.*1 ↔ k ∉ l.*1 ∧ Forall (λ key, key ∉ keys) l.*1) as ->; [|tauto].
  rewrite !Forall_forall. setoid_rewrite not_elem_of_cons. split; [|naive_solver]. intros H. split; [|naive_solver].
  intros Hk. by destruct (H k Hk).
Qed.
Lemma map_charged l : Forall streams l.*2 → ∀ keys d, 0 ≤ d →
  charges (stream_map unicode_lowercase stream d keys l) (object_cost l)
    (member_room (length keys) l ∧ fresh_keys keys l ∧ Forall (λ e, d + json_height e.2 ≤ max_depth limits) l ∧
     Forall allowed_entry l ∧ Forall distinct_entry l) tt.
Proof using Hlimits.
  induction l as [|[k v] l IH]; intros Hall keys d Hd; cbn [stream_map].
  { eapply charges_iff; [apply charges_ret|done|]. intros _ _ _. rewrite !Forall_nil. unfold member_room, fresh_keys.
    split; [intros _|done]. split_and!; try done; [by left|constructor]. }
  apply Forall_cons in Hall as [Hv Hall]. specialize (IH Hall (k :: keys) d Hd).
  assert (charges (_ ← budget_item (len keys);
      if is_prohibited_field unicode_lowercase k then se_fail "prohibited portable JSON field"
      else _ ← stream v d (redistribution_field unicode_lowercase k); stream_map unicode_lowercase stream d (k :: keys) l)
      (cost_add item_cost (cost_add (cost_of v) (object_cost l)))
      (Z.of_nat (length keys) < max_collection_items limits ∧ is_prohibited_field unicode_lowercase k = false ∧
       (d + json_height v ≤ max_depth limits ∧ allowed v ∧ distinct_keys v ∧
        ¬ (redistribution_field unicode_lowercase k ∧ v = JBool false)) ∧
       member_room (S (length keys)) l ∧ fresh_keys (k :: keys) l ∧ Forall (λ e, d + json_height e.2 ≤ max_depth limits) l ∧
       Forall allowed_entry l ∧ Forall distinct_entry l) tt) as Hrest.
  { eapply charges_bind; [apply charges_item| |auto with costs..].
    destruct (is_prohibited_field _ k); [eapply charges_iff; [apply charges_fail|reflexivity|naive_solver]|].
    eapply charges_iff; [eapply charges_bind; [apply Hv, Hd|apply IH|auto with costs..]|done|]. intros. cbn [length]. tauto. }
  match type of Hrest with charges _ ?c ?φ _ =>
    eapply charges_iff; [eapply (charges_bind _ _ _ c _ (k ∉ keys ∧ φ)); [apply charges_string| |auto 4 with costs..]|..] end.
  - case_bool_decide as Hk; [eapply charges_iff; [apply charges_fail|done|naive_solver]|].
    eapply charges_iff; [exact Hrest|done|]. intros _ _ _. split; [intros H; split; [done|exact H]|by intros [_ ?]].
  - unfold cost_add, object_cost, members_cost, cost_of, len. cbn [length co_nodes co_items co_bytes item_cost bytes_cost].
    rewrite !sum_of_cons. cbn [entry_nodes entry_items entry_string_bytes]. unfold len. f_equal; lia.
  - intros _ _ _. rewrite member_room_cons, fresh_keys_cons, !Forall_cons.
    change (allowed_entry (k, v)) with
      (key_allowed unicode_lowercase limits k ∧ ¬ (redistribution_field unicode_lowercase k ∧ v = JBool false) ∧ allowed v).
    unfold key_allowed. change (distinct_entry (k, v)) with (distinct_keys v). cbn [snd]. tauto.
Qed.
Lemma nesting_inside d : 0 ≤ d ≤ max_depth limits → charges (nesting_checked_add d) no_cost True (d + 1).
Proof using Hlimits.
  intros Hd. destruct Hlimits as [? _].
  assert (u64_checked_add d 1 = Some (d + 1)) as E by (apply checked_u64_Some; unfold is_u64; lia).
  unfold nesting_checked_add. rewrite E. apply charges_lift; cbn; [done|by intros ? [= ->]].
Qed.
Lemma below_of {A} (f : A → Z) d l :
  Forall (λ a, d + 1 + f a ≤ max_depth limits) l ↔ Forall (λ a, d + (1 + f a) ≤ max_depth limits) l.
Proof using. apply Forall_iff. intros a. lia. Qed.
Lemma cost_add_none c : cost_add no_cost c = c.
Proof using. by destruct c. Qed.
Lemma json_streams v : streams v.
Proof using Hlimits.
  destruct unit_cost_nonneg as (Hnode & Hitem & Hno).
  induction v as [|b|t|s|l IH|l IH] using JsonValue_rect'; intros d rf Hd; cbn [stream_value].
  all: destruct (decide (d ≤ max_depth limits)) as [Hin|Hout];
    [|eapply charges_iff; [eapply (charges_stop _ _ node_cost); eapply charges_iff; [apply charges_node|done|naive_solver]|done|];
      match goal with |- context [json_height ?v] => pose proof (json_height_nonneg v) end; naive_solver lia].
  1,3: eapply charges_iff; [eapply charges_bind; [apply charges_node|apply charges_ret|done|done]|done|cbn; naive_solver lia].
  - eapply charges_iff; [eapply (charges_bind _ _ _ no_cost _ (¬ (rf ∧ JBool b = JBool false))); [apply charges_node| |done|done]|done|].
    + destruct rf, b; cbn [andb negb]; try (eapply charges_iff; [apply charges_ret|done|naive_solver]).
      eapply charges_iff; [apply charges_fail|done|naive_solver].
    + cbn. naive_solver lia.
  - eapply charges_iff; [eapply charges_bind; [apply charges_node|apply charges_text|auto with costs..]|done|].
    cbn. naive_solver lia.
  - eapply charges_iff; [eapply charges_bind; [apply charges_node|eapply charges_bind; [apply nesting_inside; lia|
      apply seq_charged; [done|lia]|auto with costs..]|auto with costs..]|by rewrite cost_add_none|].
    rewrite cost_add_none. intros b Hb Hf. rewrite content_array, distinct_Forall. cbn [json_height]. rewrite height_below by lia.
    rewrite below_of.
    assert (member_room 0 l) as Hroom.
    { eapply room_at_top; [exact Hb|exact Hf|]. cbn. pose proof (sum_of_nonneg json_items l json_items_nonneg). lia. }
    naive_solver.
  - eapply charges_iff; [eapply charges_bind; [apply charges_node|eapply charges_bind; [apply nesting_inside; lia|
      apply map_charged; [done|lia]|auto with costs..]|auto with costs..]|by rewrite cost_add_none|].
    rewrite cost_add_none. intros b Hb Hf. rewrite content_object, distinct_entries. cbn [json_height]. rewrite height_below by lia.
    rewrite (below_of (λ e, json_height e.2)). unfold fresh_keys.
    assert (Forall (λ e, d + (1 + json_height e.2) ≤ max_depth limits) l ↔
            Forall (λ a, d + (let '(_, v) := a in 1 + json_height v) ≤ max_depth limits) l) as ->
      by (apply Forall_iff; by intros []).
    assert (member_room 0 l) as Hroom.
    { eapply room_at_top; [exact Hb|exact Hf|]. cbn.
      assert (0 ≤ sum_of entry_items l) by (apply sum_of_nonneg; intros []; apply json_items_nonneg). lia. }
    assert (Forall (λ key, key ∉ []) l.*1) by (apply Forall_forall; set_solver).
    cbn [length]. naive_solver.
Qed.
End traversal.

(** ** The measures of a value as it is kept *)
Lemma max_of_perm {A} (f : A → Z) l k : l ≡ₚ k → max_of f l = max_of f k.
Proof. intros H. unfold max_of. induction H as [|a l k _ IH|a b l|l k m _ IH1 _ IH2]; cbn; lia. Qed.
Lemma sum_of_fmap {A B} (g : A → B) (f : B → Z) (f' : A → Z) l :
  Forall (λ a, f (g a) = f' a) l → sum_of f (g <$> l) = sum_of f' l.
Proof. induction 1 as [|a l Ha _ IH]; [done|]. rewrite fmap_cons, !sum_of_cons. lia. Qed.
Lemma max_of_fmap {A B} (g : A → B) (f : B → Z) (f' : A → Z) l :
  Forall (λ a, f (g a) = f' a) l → max_of f (g <$> l) = max_of f' l.
Proof. induction 1 as [|a l Ha _ IH]; [done|]. rewrite fmap_cons, !max_of_cons. lia. Qed.
Lemma Forall_iff_strong {A} (P Q : A → Prop) l : Forall (λ a, P a ↔ Q a) l → Forall P l ↔ Forall Q l.
Proof. induction 1 as [|a l Ha _ IH]; [done|]. by rewrite !Forall_cons, Ha, IH. Qed.
Section kept.
Context (unicode_lowercase : Z → list Z) (limits : PortableJsonLimits).
Record same_measures (v w : JsonValue) : Prop := {
  sm_nodes : json_nodes v = json_nodes w; sm_height : json_height v = json_height w;
  sm_bytes : json_string_bytes v = json_string_bytes w;
  sm_content : content_allowed unicode_lowercase limits v ↔ content_allowed unicode_lowercase limits w;
  sm_false : v = JBool false ↔ w = JBool false
}.
Lemma kept_measures v : same_measures (kept v) v.
Proof.
  induction v as [| | | |l IH|l IH] using JsonValue_rect'; [done..| |]; cbn [kept].
  - split; [..|done].
    + cbn [json_nodes]. f_equal. apply sum_of_fmap. by eapply Forall_impl; [exact IH|intros ? []].
    + cbn [json_height]. apply max_of_fmap. eapply Forall_impl; [exact IH|]. intros ? []. lia.
    + cbn [json_string_bytes]. apply sum_of_fmap. by eapply Forall_impl; [exact IH|intros ? []].
    + rewrite !content_array, Forall_fmap. apply Forall_iff_strong. eapply Forall_impl; [exact IH|]. by intros ? [].
  - fold keep_entry. pose proof (sort_by_key_perm fst (keep_entry <$> l)) as Hp.
    assert (Forall (λ e, same_measures (kept e.2) e.2) l) as He by (by apply Forall_fmap in IH).
    split; [..|done].
    + cbn [json_nodes]. f_equal. rewrite (sum_of_perm _ _ _ Hp). apply sum_of_fmap.
      eapply Forall_impl; [exact He|]. by intros [] [].
    + cbn [json_height]. rewrite (max_of_perm _ _ _ Hp). apply max_of_fmap.
      eapply Forall_impl; [exact He|]. intros [] []. cbn in *. lia.
    + cbn [json_string_bytes]. rewrite (sum_of_perm _ _ _ Hp). apply sum_of_fmap.
      eapply Forall_impl; [exact He|]. intros [] []. cbn in *. lia.
    + rewrite !content_object, Hp, Forall_fmap. apply Forall_iff_strong. eapply Forall_impl; [exact He|].
      intros [k v] [_ _ _ Hc Hf]. unfold entry_allowed. cbn in *. tauto.
Qed.
End kept.

(** ** Acceptance *)
Section acceptance.
Context (unicode_lowercase : Z → list Z) (limits : PortableJsonLimits) (Hlimits : typed_json_limits limits).
Lemma fresh_open : open_budget limits (fresh_budget limits).
Proof using Hlimits. destruct Hlimits as (? & ? & ?). split; cbn; [done|lia..|]. unfold u64_max. lia. Qed.
Definition portable_value (v : JsonValue) : Prop :=
  json_height v ≤ max_depth limits ∧ json_nodes v ≤ max_collection_items limits ∧ json_string_bytes v ≤ u64_max ∧
  content_allowed unicode_lowercase limits v.
Lemma charges_fresh (m : JM unit) v (φ : Prop) : charges limits m (cost_of v) φ tt →
  (m (fresh_budget limits)).1 = Ok tt ↔
  φ ∧ json_nodes v ≤ max_collection_items limits ∧ json_string_bytes v ≤ u64_max.
Proof using Hlimits.
  intros H. specialize (H _ fresh_open). unfold fits in H. cbn [fresh_budget sb_nodes sb_items sb_string_bytes cost_of co_nodes co_items co_bytes] in H.
  rewrite items_are_nodes in H. destruct (m (fresh_budget limits)) as [[[]|e] b']; cbn [fst].
  - split; [|done]. intros _. destruct H as (? & (? & ? & ?) & _). split_and!; [done|lia..].
  - split; [done|]. intros (Hφ & Hn & Hb). exfalso. apply H. split_and!; [done|lia..].
Qed.
Lemma portable_admitted v :
  validate_nonsecret_portable_json unicode_lowercase v limits = Ok tt ↔ portable_value v.
Proof using Hlimits.
  unfold validate_nonsecret_portable_json, portable_value.
  rewrite (charges_fresh _ v _ (json_visits unicode_lowercase limits Hlimits v 0 ltac:(done))). rewrite Z.add_0_l. tauto.
Qed.

Lemma portable_kept v : portable_value (kept v) ↔ portable_value v.
Proof using.
  destruct (kept_measures unicode_lowercase limits v) as [Hn Hh Hb Hc _]. unfold portable_value. by rewrite Hn, Hh, Hb, Hc.
Qed.

(** C21. Reading portable JSON as a stream and checking the value it reads to is one policy: the
    streamed check admits a text exactly when no object in it repeats a key and the check over the
    value admits what is kept, although the two visit the members of an object in different orders
    and count an element before or after it is read. Both admit exactly the values within the depth,
    node and byte limits with no prohibited key, string or restricted content. *)
Theorem portable_policies_agree text :
  (validate_nonsecret_portable_json_bytes unicode_lowercase (Ok text) limits = Ok tt ↔
   distinct_keys text ∧ validate_nonsecret_portable_json unicode_lowercase (kept text) limits = Ok tt) ∧
  (validate_nonsecret_portable_json unicode_lowercase (kept text) limits = Ok tt ↔ portable_value text).
Proof using Hlimits.
  rewrite portable_admitted, portable_kept. split; [|done].
  unfold validate_nonsecret_portable_json_bytes, portable_value. cbn [mbind Result_bind].
  rewrite (charges_fresh _ text _ (json_streams unicode_lowercase limits Hlimits text 0 false ltac:(done))).
  rewrite Z.add_0_l. split; [tauto|]. intros (? & ? & ? & ? & ?). split_and!; try tauto.
Qed.
End acceptance.

(** ** Parts of an admitted value *)
Section parts.
Context (unicode_lowercase : Z → list Z) (limits : PortableJsonLimits).
Notation portable := (portable_value unicode_lowercase limits).
Lemma sum_of_elem {A} (f : A → Z) a l : (∀ a, 0 ≤ f a) → a ∈ l → f a ≤ sum_of f l.
Proof.
  intros Hf. induction 1 as [a l|a b l _ IH]; rewrite sum_of_cons; [pose proof (sum_of_nonneg f l Hf)|specialize (Hf b)]; lia.
Qed.
Lemma max_of_elem {A} (f : A → Z) a l : a ∈ l → f a ≤ max_of f l.
Proof. induction 1 as [a l|a b l _ IH]; rewrite max_of_cons; lia. Qed.
(** A member of a portable object is portable, and its key is allowed. *)
Lemma portable_member key v entries : portable (JObject entries) → (key, v) ∈ entries →
  portable v ∧ entry_allowed unicode_lowercase limits (key, v).
Proof.
  intros (Hh & Hn & Hb & Hc) Hin. rewrite content_object, Forall_forall in Hc. specialize (Hc _ Hin).
  split; [|done]. cbn [json_height json_nodes json_string_bytes] in *. fold entry_height entry_nodes entry_string_bytes in *.
  pose proof (max_of_elem entry_height _ _ Hin). cbn in H.
  pose proof (sum_of_elem entry_nodes _ _ ltac:(intros [? w]; pose proof (json_nodes_pos w); cbn; lia) Hin). cbn in H0.
  pose proof (sum_of_elem entry_string_bytes _ _ ltac:(intros [? w]; pose proof (json_string_bytes_nonneg w);
    cbn; pose proof (len_nonneg (as_bytes s)); lia) Hin). cbn in H1.
  pose proof (len_nonneg (as_bytes key)). split_and!; [lia..|apply Hc].
Qed.
Lemma portable_element v values : portable (JArray values) → v ∈ values → portable v.
Proof.
  intros (Hh & Hn & Hb & Hc) Hin. rewrite content_array, Forall_forall in Hc. specialize (Hc _ Hin).
  cbn [json_height json_nodes json_string_bytes] in *.
  pose proof (max_of_elem (λ v, 1 + json_height v) _ _ Hin). cbn in H.
  pose proof (sum_of_elem json_nodes _ _ ltac:(intros w; pose proof (json_nodes_pos w); lia) Hin).
  pose proof (sum_of_elem json_string_bytes _ _ json_string_bytes_nonneg Hin). split_and!; [lia..|done].
Qed.
End parts.
