(* ===== verification/ObjectiveContext.v ===== *)
(** * Recorded objective contexts

    Models [crates/eutheto-domain-ir/src/objective_context.rs]: the recorded objective selection of a
    run, its baseline bindings, and the byte-limited reading of a captured original.  What
    [serde_json] offers while it reads is the tree of the text; a number is its canonical text.  An
    object is read in the order of its text, and kept in the order of its keys. *)
From stdpp Require Import base tactics list gmap strings sorting.
From Stdlib Require Import ZArith Lia Ascii.
From S2P Require Import Prelude Ordering Budget Ids DomainIr Model VerificationIr Json.
Open Scope string_scope.
Open Scope list_scope.
Open Scope Z_scope.

Definition RUN_OBJECTIVE_CONTEXT_SCHEMA_VERSION : Z := 3.
Definition MAX_CAPTURED_BASELINE_BYTES : Z := 512 * 1024.
Definition AUTHORED_OBJECTIVE_PROFILE_ID : string := "eutheto.objective.authored".

(** ** The byte limit and the reader *)
Inductive CapturedError := CapturedBytes | DuplicateObjectKey | CapturedNull.
Definition limit_consume (bytes : Z) : SE Z CapturedError unit := λ limit,
  if bytes <=? limit then (Ok tt, limit - bytes) else (Err CapturedBytes, limit).
(** [CapturedBaselineByteLimit::charge]: the writer of [serde_json] consumes the value's bytes. *)
Definition limit_charge (value : JsonValue) : SE Z CapturedError unit := limit_consume (json_len value).
Definition charged (value : JsonValue) : SE Z CapturedError JsonValue := _ ← limit_charge value; mret value.
Definition prefix_bytes {A} (values : list A) : Z := match values with [] => 0 | _ => 1 end.
Section visitors.
Context (read : Z → JsonValue → SE Z CapturedError JsonValue).
Fixpoint visit_seq (values rest : list JsonValue) : SE Z CapturedError (list JsonValue) :=
  match rest with
  | [] => mret values
  | element :: rest =>
      value ← read (prefix_bytes values) element;
      visit_seq (values ++ [value]) rest
  end.
Fixpoint visit_map (values rest : list (string * JsonValue)) : SE Z CapturedError (list (string * JsonValue)) :=
  match rest with
  | [] => mret values
  | (key, element) :: rest =>
      _ ← limit_consume (1 + prefix_bytes values);
      _ ← limit_charge (JString key);
      if bool_decide (key ∈ values.*1) then se_fail DuplicateObjectKey
      else
        value ← read 0 element;
        visit_map (values ++ [(key, value)]) rest
  end.
End visitors.
Fixpoint captured_value (prefix : Z) (input : JsonValue) {struct input} : SE Z CapturedError JsonValue :=
  _ ← limit_consume prefix;
  match input with
  | JArray elements => _ ← limit_consume 2; values ← visit_seq captured_value [] elements; mret (JArray values)
  | JObject entries =>
      _ ← limit_consume 2;
      values ← visit_map captured_value [] entries;
      mret (JObject (sort_by_key fst values))
  | scalar => charged scalar
  end.
Definition deserialize_captured_original (input : JsonValue) : Result CapturedError JsonValue :=
  match (captured_value 0 input MAX_CAPTURED_BASELINE_BYTES).1 with
  | Ok JNull => Err CapturedNull
  | r => r
  end.
Definition validate_captured_baseline_size (value : JsonValue) : DCR unit :=
  match (limit_charge value MAX_CAPTURED_BASELINE_BYTES).1 with
  | Ok _ => Ok tt
  | Err _ => Err (LimitExceeded "captured baseline JSON bytes")
  end.

(** ** References to accepted results *)
Record AcceptedResultRefV1 := { rr_solution_id : string; rr_result_checksum : string }.
Definition AcceptedResultRefV1_validate (self : AcceptedResultRefV1) : DCR unit :=
  validate_hash (rr_result_checksum self).
Definition AcceptedResultRefV1_from_result (blake3_hex : list Z → string) (json_solution : Json NormalizedSolution)
    (json_report : Json VerificationReport) (json_result : Json AcceptedResult) (result : AcceptedResult) :
    DCR AcceptedResultRefV1 :=
  _ ← AcceptedResult_validate blake3_hex json_solution json_report json_result result;
  Ok {| rr_solution_id := ns_solution_id (ac_solution result); rr_result_checksum := ac_checksum result |}.

(** ** Baselines *)
Inductive RunObjectiveOperation := OpOptimize | OpRepair.
#[global] Instance RunObjectiveOperation_eq_dec : EqDecision RunObjectiveOperation.
Proof. solve_decision. Defined.
Record RunBaselineOriginal := {
  bo_entity : DomainEntityRef; bo_pair_content_hash : string; bo_accepted_result : AcceptedResultRefV1;
  bo_source_scenario_id : string; bo_source_revision : Z; bo_source_document_hash : string;
  bo_source_run_id : string; bo_source_run_input_checksum : string; bo_source_run_manifest_checksum : string
}.
Definition RunBaselineOriginal_validate_for (self : RunBaselineOriginal) (scenario_id : string) : DCR unit :=
  if negb (bool_decide (bo_source_scenario_id self = scenario_id))
  then Err (InvalidObjectiveContext "original scenario")
  else
    _ ← validate_revision (bo_source_revision self);
    _ ← AcceptedResultRefV1_validate (bo_accepted_result self);
    for_each validate_hash [bo_pair_content_hash self; bo_source_document_hash self;
                            bo_source_run_input_checksum self; bo_source_run_manifest_checksum self].
Inductive RunBaselineSelection :=
| OriginalAccepted
| ManualSelection (entity : DomainEntityRef) (record_checksum admission_source_scenario_id : string)
    (admission_source_revision : Z) (admission_source_document_hash : string).
Record RunBaselineBinding := {
  bb_original : RunBaselineOriginal; bb_selection : RunBaselineSelection;
  bb_selected_pair_content_hash : string; bb_captured_original : option JsonValue
}.
Definition is_original_accepted (selection : RunBaselineSelection) : bool :=
  match selection with OriginalAccepted => true | ManualSelection _ _ _ _ _ => false end.
Definition RunBaselineBinding_validate_for (self : RunBaselineBinding) (scenario_id : string) : DCR unit :=
  let original := bb_original self in
  _ ← RunBaselineOriginal_validate_for original scenario_id;
  _ ← validate_hash (bb_selected_pair_content_hash self);
  _ ← match bb_captured_original self with
      | Some captured =>
          if negb (is_original_accepted (bb_selection self))
          then Err (InvalidObjectiveContext "captured manual selection")
          else validate_captured_baseline_size captured
      | None => Ok tt
      end;
  match bb_selection self with
  | OriginalAccepted =>
      if negb (bool_decide (bb_selected_pair_content_hash self = bo_pair_content_hash original))
      then Err (InvalidObjectiveContext "original pair content") else Ok tt
  | ManualSelection entity record_checksum admission_source_scenario_id admission_source_revision
      admission_source_document_hash =>
      if negb (bool_decide (admission_source_scenario_id = scenario_id))
         || bool_decide (entity = bo_entity original)
      then Err (InvalidObjectiveContext "manual identity")
      else
        _ ← validate_revision admission_source_revision;
        _ ← validate_hash record_checksum;
        validate_hash admission_source_document_hash
  end.
Record RunExternalBaselineBinding := { xb_entity : DomainEntityRef; xb_selected_pair_content_hash : string }.

(** ** Objective contexts *)
Record RunObjectiveContext := {
  obj_schema_version : Z; obj_pack_id : string; obj_profile_id : string; obj_semantic_version : Z;
  obj_operation : RunObjectiveOperation; obj_baseline : option RunBaselineBinding;
  obj_external_baseline : option RunExternalBaselineBinding
}.
Definition is_some {A} (o : option A) : bool := match o with Some _ => true | None => false end.
Definition RunObjectiveContext_authored (pack_id : string) : DCR RunObjectiveContext :=
  if valid_id AUTHORED_OBJECTIVE_PROFILE_ID
  then Ok {| obj_schema_version := 1; obj_pack_id := pack_id; obj_profile_id := AUTHORED_OBJECTIVE_PROFILE_ID;
             obj_semantic_version := 1; obj_operation := OpOptimize; obj_baseline := None;
             obj_external_baseline := None |}
  else Err (InvalidObjectiveContext "authored profile").
Definition has_baseline (self : RunObjectiveContext) : bool :=
  is_some (obj_baseline self) || is_some (obj_external_baseline self).
Definition RunObjectiveContext_validate_for (self : RunObjectiveContext) (pack_id scenario_id : string) : DCR unit :=
  let version := obj_schema_version self in
  let captured := match obj_baseline self with Some b => is_some (bb_captured_original b) | None => false end in
  if negb ((version =? 1) || (version =? 2) || (version =? RUN_OBJECTIVE_CONTEXT_SCHEMA_VERSION))
  then Err (UnsupportedVersion version)
  else if negb (Bool.eqb (version =? 2) captured)
  then Err (InvalidObjectiveContext "captured baseline version")
  else if negb (Bool.eqb (version =? 3) (is_some (obj_external_baseline self)))
          || (is_some (obj_baseline self) && is_some (obj_external_baseline self))
  then Err (InvalidObjectiveContext "external baseline version or source")
  else if negb (obj_semantic_version self =? 1) then Err (InvalidObjectiveContext "semantic version")
  else if negb (bool_decide (obj_pack_id self = pack_id)) then Err (InvalidObjectiveContext "pack identity")
  else if bool_decide (obj_profile_id self = AUTHORED_OBJECTIVE_PROFILE_ID)
          && (negb (bool_decide (obj_operation self = OpOptimize)) || has_baseline self)
  then Err (InvalidObjectiveContext "authored operation")
  else if bool_decide (obj_operation self = OpRepair) && negb (has_baseline self)
  then Err (InvalidObjectiveContext "repair baseline")
  else
    _ ← match obj_baseline self with
        | Some baseline => RunBaselineBinding_validate_for baseline scenario_id
        | None => Ok tt
        end;
    match obj_external_baseline self with
    | Some baseline => validate_hash (xb_selected_pair_content_hash baseline)
    | None => Ok tt
    end.

(** ** What the reader admits *)
(** [reads m need φ a]: [m] returns [a] after consuming [need] bytes exactly when [φ] holds and they are left. *)
Definition reads {A} (m : SE Z CapturedError A) (need : Z) (φ : Prop) (a : A) : Prop := ∀ limit,
  0 ≤ limit → match m limit with
  | (Ok a', rest) => φ ∧ need ≤ limit ∧ a' = a ∧ rest = limit - need
  | (Err e, _) => ¬ (φ ∧ need ≤ limit) ∧ e ≠ CapturedNull
  end.
Lemma reads_consume n : reads (limit_consume n) n True tt.
Proof. intros limit Hl. unfold limit_consume. destruct (Z.leb_spec n limit); [done|]. split; [|done]. lia. Qed.
Lemma reads_bind {A B} (m : SE Z CapturedError A) (k : A → SE Z CapturedError B) n n' (φ φ' : Prop) a b :
  0 ≤ n' → reads m n φ a → reads (k a) n' φ' b → reads (m ≫= k) (n + n') (φ ∧ φ') b.
Proof.
  intros Hn Hm Hk limit Hl. specialize (Hm limit Hl). unfold mbind, SE_bind.
  destruct (m limit) as [[a'|e] rest].
  - destruct Hm as (Hφ & Hle & -> & ->). ospecialize (Hk (limit - n) _); [lia|].
    destruct (k a (limit - n)) as [[b'|e] rest].
    + destruct Hk as (? & ? & ? & ->). split_and!; [done|done|lia|done|lia].
    + destruct Hk as [Hk ?]. split; [|done]. intros [[_ ?] ?]. apply Hk. split; [done|lia].
  - destruct Hm as [Hm ?]. split; [|done]. intros [[? _] ?]. apply Hm. split; [done|lia].
Qed.
Lemma reads_ret {A} (a : A) : reads (mret a) 0 True a.
Proof. intros limit Hl. cbn. split_and!; [done|lia|done|lia]. Qed.
Lemma reads_iff {A} (m : SE Z CapturedError A) n n' (φ φ' : Prop) a : reads m n φ a → n = n' → φ ↔ φ' → reads m n' φ' a.
Proof. intros H <- Hφ limit Hl. specialize (H limit Hl). destruct (m limit) as [[]]; naive_solver. Qed.
Lemma prefix_nonneg {A} (l : list A) : 0 ≤ prefix_bytes l.
Proof. by destruct l. Qed.
(** The separators in front of [rest], after [values]. *)
Definition separators {A B} (values : list A) (rest : list B) : Z :=
  match values with [] => commas rest | _ => len rest end.
Lemma separators_cons {A B} (values : list A) (b : B) rest a :
  separators values (b :: rest) = prefix_bytes values + separators (values ++ [a]) rest.
Proof. unfold separators, commas, prefix_bytes, len. destruct values; cbn [app length]; lia. Qed.
Lemma separators_nonneg {A B} (values : list A) (rest : list B) : 0 ≤ separators values rest.
Proof. unfold separators, commas, len. destruct values; lia. Qed.

Lemma app_snoc {A} (l : list A) x k : l ++ x :: k = (l ++ [x]) ++ k.
Proof. by rewrite <-app_assoc. Qed.
Definition reads_value (v : JsonValue) : Prop :=
  ∀ prefix, 0 ≤ prefix → reads (captured_value prefix v) (prefix + json_len v) (distinct_keys v) (kept v).
Lemma reads_seq rest : Forall reads_value rest → ∀ values,
  reads (visit_seq captured_value values rest) (separators values rest + sum_of json_len rest)
    (Forall distinct_keys rest) (values ++ (kept <$> rest)).
Proof.
  induction 1 as [|v rest Hv _ IH]; intros values; cbn [visit_seq].
  - rewrite app_nil_r. eapply reads_iff; [apply reads_ret|by destruct values|]. by rewrite Forall_nil.
  - rewrite fmap_cons, (app_snoc values).
    eapply reads_iff; [eapply reads_bind; [|apply Hv, prefix_nonneg|apply IH]|..].
    + pose proof (separators_nonneg (values ++ [kept v]) rest).
      pose proof (sum_of_nonneg json_len rest json_len_nonneg). lia.
    + rewrite (separators_cons values v rest (kept v)). unfold sum_of. cbn. lia.
    + by rewrite Forall_cons.
Qed.
Lemma reads_fail {A} n (φ : Prop) (a : A) : ¬ φ → reads (se_fail DuplicateObjectKey) n φ a.
Proof. intros H limit Hl. cbn. split; [|done]. by intros [? _]. Qed.
Definition fresh_entries (values rest : list (string * JsonValue)) : Prop :=
  NoDup rest.*1 ∧ Forall distinct_entry rest ∧ Forall (λ key, key ∉ values.*1) rest.*1.
Lemma fresh_cons values k v v' rest :
  fresh_entries values ((k, v) :: rest) ↔
  k ∉ values.*1 ∧ distinct_keys v ∧ fresh_entries (values ++ [(k, v')]) rest.
Proof.
  unfold fresh_entries. cbn. rewrite NoDup_cons, !Forall_cons, fmap_app. cbn.
  assert (Forall (λ key, key ∉ values.*1 ++ [k]) rest.*1 ↔ Forall (λ key, key ∉ values.*1) rest.*1 ∧ k ∉ rest.*1) as ->.
  { rewrite !Forall_forall. setoid_rewrite elem_of_app. setoid_rewrite list_elem_of_singleton. naive_solver. }
  unfold distinct_entry at 1. naive_solver.
Qed.
Lemma reads_map rest : Forall reads_value rest.*2 → ∀ values,
  reads (visit_map captured_value values rest) (separators values rest + sum_of entry_len rest)
    (fresh_entries values rest) (values ++ (keep_entry <$> rest)).
Proof.
  induction rest as [|[k v] rest IH]; intros Hall values; cbn [visit_map].
  { rewrite app_nil_r. eapply reads_iff; [apply reads_ret|by destruct values|].
    unfold fresh_entries. rewrite !Forall_nil. split; [intros _|done]. split_and!; [constructor|done|done]. }
  apply Forall_cons in Hall as [Hv Hall]. specialize (IH Hall).
  pose proof (separators_nonneg (values ++ [(k, kept v)]) rest). pose proof (sum_of_nonneg entry_len rest entry_len_nonneg).
  pose proof (string_len_nonneg k). pose proof (json_len_nonneg v). rewrite fmap_cons, (app_snoc values). cbn [keep_entry].
  assert (reads (if bool_decide (k ∈ values.*1) then se_fail DuplicateObjectKey
                 else value ← captured_value 0 v; visit_map captured_value (values ++ [(k, value)]) rest)
            ((0 + json_len v) + (separators (values ++ [(k, kept v)]) rest + sum_of entry_len rest))
            (k ∉ values.*1 ∧ distinct_keys v ∧ fresh_entries (values ++ [(k, kept v)]) rest)
            ((values ++ [(k, kept v)]) ++ (keep_entry <$> rest))) as Hrest.
  { case_bool_decide as Hk; [apply reads_fail; by intros [? _]|].
    eapply reads_iff; [eapply reads_bind; [|apply Hv; done|apply IH]|done|naive_solver]. lia. }
  eapply reads_iff; [eapply reads_bind; [|apply reads_consume|eapply reads_bind; [|apply reads_consume|exact Hrest]]|..].
  - cbn [json_len]. lia.
  - lia.
  - rewrite (separators_cons values (k, v) rest (k, kept v)). unfold sum_of in *. cbn in *. lia.
  - rewrite (fresh_cons _ _ _ (kept v)). naive_solver.
Qed.
Lemma captured_reads v : reads_value v.
Proof.
  assert (∀ prefix scalar (φ : Prop), 0 ≤ prefix → φ →
    reads (_ ← limit_consume prefix; charged scalar) (prefix + json_len scalar) φ scalar) as Hscalar.
  { intros prefix s φ Hp Hφ. pose proof (json_len_nonneg s).
    eapply reads_iff; [eapply reads_bind; [|apply reads_consume|eapply reads_bind; [|apply reads_consume|apply reads_ret]]|..];
      [lia|lia|lia|naive_solver]. }
  induction v as [| | | |l IH|l IH] using JsonValue_rect'; intros prefix Hp; cbn [captured_value]; [by apply Hscalar..| |].
  - pose proof (separators_nonneg ([] : list JsonValue) l) as Hs. cbn [separators] in Hs.
    pose proof (sum_of_nonneg json_len l json_len_nonneg).
    eapply reads_iff; [eapply reads_bind; [|apply reads_consume|eapply reads_bind; [|apply reads_consume|
      eapply reads_bind; [|apply reads_seq, IH|apply reads_ret]]]|..]; cbn [separators]; [lia..|cbn [json_len]; lia|].
    rewrite distinct_Forall. naive_solver.
  - pose proof (separators_nonneg ([] : list JsonValue) l) as Hs. cbn [separators] in Hs.
    pose proof (sum_of_nonneg entry_len l entry_len_nonneg).
    eapply reads_iff; [eapply reads_bind; [|apply reads_consume|eapply reads_bind; [|apply reads_consume|
      eapply reads_bind; [|apply reads_map, IH|apply reads_ret]]]|..]; cbn [separators]; [lia..|cbn [json_len]; fold entry_len; lia|].
    rewrite distinct_entries. unfold fresh_entries. cbn. rewrite (Forall_forall (λ key, key ∉ [])). set_solver.
Qed.
Lemma captured_original_spec input v :
  deserialize_captured_original input = Ok v ↔
  v = kept input ∧ input ≠ JNull ∧ distinct_keys input ∧ json_len v ≤ MAX_CAPTURED_BASELINE_BYTES.
Proof.
  pose proof (captured_reads input 0 ltac:(lia) MAX_CAPTURED_BASELINE_BYTES ltac:(done)) as H.
  unfold deserialize_captured_original. rewrite Z.add_0_l in H. rewrite <-kept_len in H.
  assert (kept input = JNull ↔ input = JNull) as Hnull by by destruct input.
  destruct (captured_value 0 input _) as [[a|e] rest]; cbn [fst].
  - destruct H as (Hd & Hl & -> & _). destruct (kept input) eqn:Hk; naive_solver.
  - naive_solver.
Qed.

(** A captured original is read exactly when it is not null, no object in it repeats a key and
    its compact text has at most [MAX_CAPTURED_BASELINE_BYTES] bytes; the charges made while it is
    read add up to the text that is later written, so that what was read passes the size check
    again. *)
Theorem captured_original_exact input v :
  (deserialize_captured_original input = Ok v ↔
   v = kept input ∧ input ≠ JNull ∧ distinct_keys input ∧ json_len v ≤ MAX_CAPTURED_BASELINE_BYTES) ∧
  (deserialize_captured_original input = Ok v → validate_captured_baseline_size v = Ok tt).
Proof.
  split; [apply captured_original_spec|]. intros (_ & _ & _ & Hl)%captured_original_spec.
  unfold validate_captured_baseline_size, limit_charge, limit_consume. by rewrite (proj2 (Z.leb_le _ _) Hl).
Qed.
