(* ===== verification/Scenario.v ===== *)
(** * Scenario documents and commands

    Models the documents, commands, changes and results of [crates/eutheto-types/src/contracts.rs],
    how [serde] writes them, the owned identities of [crates/eutheto-types/src/identity.rs], and the
    errors of [crates/eutheto-domain-api/src/lib.rs].  An identifier is the canonical text of its
    UUID, whose order is the order of the UUID; a timestamp is its canonical text.  A [BTreeMap] is a
    finite map read in the order of its keys. *)
From stdpp Require Import base tactics list gmap strings sorting pretty.
From Stdlib Require Import ZArith Lia Ascii.
From S2P Require Import Prelude Ordering Protocol Budget Ids DomainIr Json Portable.
Open Scope string_scope.
Open Scope list_scope.
Open Scope Z_scope.

(** ** Errors of domain packs *)
(** The payloads of [SetupValidation] and of the capability errors are their text. *)
Inductive DomainPackError :=
| PackDuplicate (id : string) | PackUnavailable (id : string) | PackMissingMetadata (what : string)
| PackInvalidVersion (what : string) | PackCatalogMismatch (what : string) | PackUnsupportedVersion (version : Z)
| PackUnknownCommand (name : string) | PackInvalidPayload (path message : string) | PackSetupValidation (issue : string)
| PackBatchInverseTooLarge | PackMutationOutputLimit | PackCancelled | PackBudgetExpired | PackResourceLimitExceeded
| PackUnsupportedExplanationCapability (capability : string) | PackUnsupportedDomainCapability (capability : string)
| PackContract (what : string).
Record DomainPackRef := { dr_id : string; dr_schema_version : Z }.
(** [sdoc_content] is the metadata, settings, domain maps and extensions; the acceptance gate leaves it to the
    pack and takes it as a parameter. *)
Record ScenarioDocument (Content : Type) := {
  sdoc_format_version : Z; sdoc_scenario_id : string; sdoc_domain_pack : DomainPackRef; sdoc_content : Content
}.
Arguments sdoc_format_version {_} _.
Arguments sdoc_scenario_id {_} _.
Arguments sdoc_domain_pack {_} _.
Arguments sdoc_content {_} _.

(** ** Documents *)
Definition SCENARIO_FORMAT_VERSION : Z := 1.
Definition MAX_SCENARIO_DOCUMENT_BYTES : Z := 16 * 1024 * 1024.
Inductive ScenarioFormat := EuthetoScenario.
Record ScenarioMetadata := { sm_title : string; sm_description : string; sm_created_at : string; sm_updated_at : string }.
Inductive UnitSystem := Metric | UsCustomary.
Inductive GapPolicy := GapReject | MoveForward | PackDefined.
Inductive OverlapPolicy := Earlier | Later | OverlapReject.
Record Horizon := { hz_start : string; hz_end : string }.
Record ScenarioSettings := {
  ss_time_zone : string; ss_locale : string; ss_units : UnitSystem; ss_horizon : Horizon; ss_gap_policy : GapPolicy;
  ss_overlap_policy : OverlapPolicy
}.
#[global] Instance ScenarioMetadata_eq_dec : EqDecision ScenarioMetadata.
Proof. solve_decision. Defined.
#[global] Instance ScenarioSettings_eq_dec : EqDecision ScenarioSettings.
Proof.
  assert (EqDecision UnitSystem) by solve_decision. assert (EqDecision GapPolicy) by solve_decision.
  assert (EqDecision OverlapPolicy) by solve_decision. assert (EqDecision Horizon) by solve_decision. solve_decision.
Defined.
#[global] Instance DomainPackRef_eq_dec : EqDecision DomainPackRef.
Proof. solve_decision. Defined.
Notation Records := (gmap string JsonValue).
Record ScenarioDomain := {
  sd_entities : Records; sd_rules : Records; sd_preferences : Records; sd_locked_assignments : Records
}.
Record ScenarioContent := {
  sc_format : ScenarioFormat; sc_metadata : ScenarioMetadata; sc_settings : ScenarioSettings; sc_domain : ScenarioDomain;
  sc_extensions : Records
}.
Notation Document := (ScenarioDocument ScenarioContent).
Definition document_domain (document : Document) : ScenarioDomain := sc_domain (sdoc_content document).
Definition document_settings (document : Document) : ScenarioSettings := sc_settings (sdoc_content document).
Definition ScenarioDocument_new (scenario_id : string) (domain_pack : DomainPackRef) (metadata : ScenarioMetadata)
    (settings : ScenarioSettings) (domain : ScenarioDomain) (extensions : Records) : Document :=
  {| sdoc_format_version := SCENARIO_FORMAT_VERSION; sdoc_scenario_id := scenario_id; sdoc_domain_pack := domain_pack;
     sdoc_content := {| sc_format := EuthetoScenario; sc_metadata := metadata; sc_settings := settings;
                        sc_domain := domain; sc_extensions := extensions |} |}.
(** Assignments to [document.domain] and [document.settings]. *)
Definition with_domain (domain : ScenarioDomain) (document : Document) : Document :=
  let content := sdoc_content document in
  {| sdoc_format_version := sdoc_format_version document; sdoc_scenario_id := sdoc_scenario_id document;
     sdoc_domain_pack := sdoc_domain_pack document;
     sdoc_content := {| sc_format := sc_format content; sc_metadata := sc_metadata content;
                        sc_settings := sc_settings content; sc_domain := domain;
                        sc_extensions := sc_extensions content |} |}.
Definition with_settings (settings : ScenarioSettings) (document : Document) : Document :=
  let content := sdoc_content document in
  {| sdoc_format_version := sdoc_format_version document; sdoc_scenario_id := sdoc_scenario_id document;
     sdoc_domain_pack := sdoc_domain_pack document;
     sdoc_content := {| sc_format := sc_format content; sc_metadata := sc_metadata content; sc_settings := settings;
                        sc_domain := sc_domain content; sc_extensions := sc_extensions content |} |}.
Definition with_entities (m : Records) (d : ScenarioDomain) : ScenarioDomain :=
  {| sd_entities := m; sd_rules := sd_rules d; sd_preferences := sd_preferences d;
     sd_locked_assignments := sd_locked_assignments d |}.
Definition with_rules (m : Records) (d : ScenarioDomain) : ScenarioDomain :=
  {| sd_entities := sd_entities d; sd_rules := m; sd_preferences := sd_preferences d;
     sd_locked_assignments := sd_locked_assignments d |}.
Definition with_preferences (m : Records) (d : ScenarioDomain) : ScenarioDomain :=
  {| sd_entities := sd_entities d; sd_rules := sd_rules d; sd_preferences := m;
     sd_locked_assignments := sd_locked_assignments d |}.
Definition with_locked_assignments (m : Records) (d : ScenarioDomain) : ScenarioDomain :=
  {| sd_entities := sd_entities d; sd_rules := sd_rules d; sd_preferences := sd_preferences d;
     sd_locked_assignments := m |}.

(** ** Commands *)
Record DomainCommandEnvelope := { dc_command_type : string; dc_payload : JsonValue }.
Record SetScenarioSettings := { sss_settings : ScenarioSettings; sss_restoration : option JsonValue }.
Inductive ScenarioCommand :=
| AddEntity (entity_id : string) (value : JsonValue)
| UpdateEntity (entity_id : string) (value : JsonValue)
| RemoveEntity (entity_id : string)
| AddRule (rule_id : string) (value : JsonValue)
| UpdateRule (rule_id : string) (value : JsonValue)
| RemoveRule (rule_id : string)
| SetPreference (preference_id : string) (value : option JsonValue)
| LockAssignment (assignment_id : string) (value : JsonValue)
| UnlockAssignment (assignment_id : string)
| SetSettings (settings : SetScenarioSettings)
| ApplyDomainCommand (envelope : DomainCommandEnvelope)
| ApplyBatch (label : option string) (commands : list ScenarioCommand).
Record ActorRef := { ar_actor_id : option string; ar_display_name : string }.
Inductive CommandSource := SourceDesktop | SourceCli | SourceImport | SourceSystem | SourceUndo | SourceRedo.
Record CommandEnvelope := {
  ce_command_id : string; ce_scenario_id : string; ce_expected_revision : Z; ce_actor : ActorRef; ce_source : CommandSource;
  ce_command : ScenarioCommand
}.
Inductive ChangeKind := Added | Updated | Removed | Locked | Unlocked.
Record Change := {
  ch_kind : ChangeKind; ch_path : string; ch_before : option JsonValue; ch_after : option JsonValue
}.
Inductive ValidationSeverity := SeverityInfo | SeverityWarning | SeverityError.
(** A resource is its kind and identifier. *)
Record ResourceRef := { rs_type : string; rs_id : string }.
Record ValidationIssue := {
  vi_code : string; vi_severity : ValidationSeverity; vi_message : string; vi_field_path : option string;
  vi_resource : option ResourceRef
}.
Record ValidationDelta := { vd_added : list ValidationIssue; vd_resolved : list string }.
Record CommandResult := {
  cr_new_revision : Z; cr_changes : list Change; cr_validation_delta : ValidationDelta; cr_inverse : option ScenarioCommand
}.
(** A domain batch, its mutation and the mutation of settings ([crates/eutheto-domain-api/src/lib.rs]). *)
Record DomainBatchCommand := {
  db_schema_version : Z; db_pack_id : string; db_scenario_schema_version : Z; db_label : option string;
  db_commands : list DomainCommandEnvelope
}.
Record DomainChange := { dch_command_index : Z; dch_value : JsonValue }.
Record DomainMutation := {
  dm_document : Document; dm_results : list JsonValue; dm_changes : list DomainChange; dm_inverse : DomainBatchCommand
}.
Record DomainSettingsMutation := { dsm_domain : ScenarioDomain; dsm_inverse_payload : option JsonValue }.

(** ** What [serde] writes *)
Definition record_entries (m : Records) : list (string * JsonValue) := sort_by_key fst (map_to_list m).
Definition json_records (m : Records) : JsonValue := JObject (record_entries m).
Definition json_integer (n : Z) : JsonValue := JNumber (pretty n).
Definition json_optional {A} (f : A → JsonValue) (o : option A) : JsonValue := from_option f JNull o.
Definition json_horizon (h : Horizon) : JsonValue :=
  JObject [("start", JString (hz_start h)); ("end", JString (hz_end h))].
Definition json_settings (s : ScenarioSettings) : JsonValue :=
  JObject [("timeZone", JString (ss_time_zone s)); ("locale", JString (ss_locale s));
           ("units", JString (match ss_units s with Metric => "metric" | UsCustomary => "us-customary" end));
           ("horizon", json_horizon (ss_horizon s));
           ("gapPolicy", JString (match ss_gap_policy s with
                                  | GapReject => "reject" | MoveForward => "moveForward" | PackDefined => "packDefined" end));
           ("overlapPolicy", JString (match ss_overlap_policy s with
                                      | Earlier => "earlier" | Later => "later" | OverlapReject => "reject" end))].
Definition json_domain (d : ScenarioDomain) : JsonValue :=
  JObject [("entities", json_records (sd_entities d)); ("rules", json_records (sd_rules d));
           ("preferences", json_records (sd_preferences d));
           ("lockedAssignments", json_records (sd_locked_assignments d))].
Definition json_metadata (m : ScenarioMetadata) : JsonValue :=
  JObject [("title", JString (sm_title m)); ("description", JString (sm_description m));
           ("createdAt", JString (sm_created_at m)); ("updatedAt", JString (sm_updated_at m))].
Definition json_document (document : Document) : JsonValue :=
  let content := sdoc_content document in
  JObject [("format", JString (match sc_format content with EuthetoScenario => "eutheto/scenario" end));
           ("formatVersion", json_integer (sdoc_format_version document));
           ("scenarioId", JString (sdoc_scenario_id document));
           ("domainPack", JObject [("id", JString (dr_id (sdoc_domain_pack document)));
                                   ("schemaVersion", json_integer (dr_schema_version (sdoc_domain_pack document)))]);
           ("metadata", json_metadata (sc_metadata content)); ("settings", json_settings (sc_settings content));
           ("domain", json_domain (sc_domain content)); ("extensions", json_records (sc_extensions content))].
(** Commands carry their tag and payload side by side. *)
Definition json_tagged (tag : string) (payload : list (string * JsonValue)) : JsonValue :=
  JObject [("type", JString tag); ("payload", JObject payload)].
Definition json_envelope (e : DomainCommandEnvelope) : list (string * JsonValue) :=
  [("commandType", JString (dc_command_type e)); ("payload", dc_payload e)].
Definition json_settings_payload (s : SetScenarioSettings) : list (string * JsonValue) :=
  [("settings", json_settings (sss_settings s)); ("restoration", json_optional id (sss_restoration s))].
Definition json_batch (label : option string) (commands : list JsonValue) : JsonValue :=
  json_tagged "applyBatch" [("label", json_optional JString label); ("commands", JArray commands)].
Fixpoint json_command (command : ScenarioCommand) : JsonValue :=
  match command with
  | AddEntity id value => json_tagged "addEntity" [("entityId", JString id); ("value", value)]
  | UpdateEntity id value => json_tagged "updateEntity" [("entityId", JString id); ("value", value)]
  | RemoveEntity id => json_tagged "removeEntity" [("entityId", JString id)]
  | AddRule id value => json_tagged "addRule" [("ruleId", JString id); ("value", value)]
  | UpdateRule id value => json_tagged "updateRule" [("ruleId", JString id); ("value", value)]
  | RemoveRule id => json_tagged "removeRule" [("ruleId", JString id)]
  | SetPreference id value => json_tagged "setPreference" [("preferenceId", JString id); ("value", json_optional (λ v, v) value)]
  | LockAssignment id value => json_tagged "lockAssignment" [("assignmentId", JString id); ("value", value)]
  | UnlockAssignment id => json_tagged "unlockAssignment" [("assignmentId", JString id)]
  | SetSettings settings => json_tagged "setScenarioSettings" (json_settings_payload settings)
  | ApplyDomainCommand envelope => json_tagged "applyDomainCommand" (json_envelope envelope)
  | ApplyBatch label commands => json_batch label (json_command <$> commands)
  end.
Definition json_change (c : Change) : JsonValue :=
  JObject [("kind", JString (match ch_kind c with
                             | Added => "added" | Updated => "updated" | Removed => "removed" | Locked => "locked"
                             | Unlocked => "unlocked" end));
           ("path", JString (ch_path c)); ("before", json_optional id (ch_before c)); ("after", json_optional id (ch_after c))].
Definition json_changes (changes : list Change) : JsonValue := JArray (json_change <$> changes).
Definition json_issue (i : ValidationIssue) : JsonValue :=
  JObject [("code", JString (vi_code i));
           ("severity", JString (match vi_severity i with
                                 | SeverityInfo => "info" | SeverityWarning => "warning" | SeverityError => "error" end));
           ("message", JString (vi_message i)); ("fieldPath", json_optional JString (vi_field_path i));
           ("resource", json_optional (λ r, JObject [("type", JString (rs_type r)); ("id", JString (rs_id r))]) (vi_resource i))].
Definition json_delta (d : ValidationDelta) : JsonValue :=
  JObject [("added", JArray (json_issue <$> vd_added d)); ("resolved", JArray (JString <$> vd_resolved d))].
Definition json_result (r : CommandResult) : JsonValue :=
  JObject [("newRevision", json_integer (cr_new_revision r)); ("changeSet", JObject [("changes", json_changes (cr_changes r))]);
           ("validationDelta", json_delta (cr_validation_delta r)); ("inverse", json_optional json_command (cr_inverse r))].
Definition json_domain_batch (b : DomainBatchCommand) : JsonValue :=
  JObject [("schemaVersion", json_integer (db_schema_version b)); ("packId", JString (db_pack_id b));
           ("scenarioSchemaVersion", json_integer (db_scenario_schema_version b)); ("label", json_optional JString (db_label b));
           ("commands", JArray (JObject <$> (json_envelope <$> db_commands b)))].
Definition json_domain_changes (changes : list DomainChange) : JsonValue :=
  JArray ((λ c, JObject [("commandIndex", json_integer (dch_command_index c)); ("value", dch_value c)]) <$> changes).
(** [serde_json::to_value]: every object in the order of its keys. *)
Definition to_value (text : JsonValue) : JsonValue := kept text.

(** ** Owned identities *)
Record SemanticCapability := { cap_id : string; cap_version : Z }.
Record ScenarioSnapshotV1 := {
  sn_format : ScenarioFormat; sn_schema_version : Z; sn_revision : Z; sn_document : Document;
  sn_required_capabilities : list SemanticCapability; sn_semantic_extensions : Records; sn_extensions : Records
}.
Section identities.
Context (parse_uuid : string → option (string * Z)).
Definition record_values (m : Records) : list JsonValue := (record_entries m).*2.
Definition record_keys (m : Records) : list string := (record_entries m).*1.
Definition visit_document_identities {S E} (document : Document) (extensions : list JsonValue) (visit : string → SE S E unit) :
    SE S E unit :=
  let domain := document_domain document in
  _ ← visit (sdoc_scenario_id document);
  _ ← for_each visit (record_keys (sd_entities domain) ++ record_keys (sd_rules domain)
                      ++ record_keys (sd_preferences domain) ++ record_keys (sd_locked_assignments domain));
  for_each (visit_self_declared_uuids parse_uuid visit)
    (record_values (sd_entities domain) ++ record_values (sd_rules domain) ++ record_values (sd_preferences domain)
     ++ record_values (sd_locked_assignments domain) ++ extensions).
Definition collect_document_identities (document : Document) (extensions : list JsonValue) : gset string :=
  (visit_document_identities (E := Empty_set) document extensions insert_reference ∅).2.
(** The error is the identity defined twice. *)
Definition insert_unseen (identity : string) : SE (gset string) string unit := λ seen,
  if bool_decide (identity ∈ seen) then (Err identity, seen) else (Ok tt, {[identity]} ∪ seen).
Definition validate_document_identities (document : Document) (extensions : list JsonValue) : Result string unit :=
  (visit_document_identities document extensions insert_unseen ∅).1.
Definition snapshot_extensions (scenario : ScenarioSnapshotV1) : list JsonValue :=
  record_values (sn_semantic_extensions scenario) ++ record_values (sc_extensions (sdoc_content (sn_document scenario)))
  ++ record_values (sn_extensions scenario).
Definition collect_scenario_owned_uuids (scenario : ScenarioSnapshotV1) : gset string :=
  collect_document_identities (sn_document scenario) (snapshot_extensions scenario).
Definition collect_document_owned_uuids (document : Document) : gset string :=
  collect_document_identities document (record_values (sc_extensions (sdoc_content document))).
Definition validate_scenario_owned_uuid_uniqueness (scenario : ScenarioSnapshotV1) : Result string unit :=
  validate_document_identities (sn_document scenario) (snapshot_extensions scenario).
Definition validate_document_owned_uuid_uniqueness (document : Document) : Result string unit :=
  validate_document_identities document (record_values (sc_extensions (sdoc_content document))).

(** *** The identities visited *)
Fixpoint self_declared (value : JsonValue) : list string :=
  match value with
  | JArray values => values ≫= self_declared
  | JObject entries =>
      entries ≫= λ '(key, v), option_list (self_declared_uuid parse_uuid key v) ++ self_declared v
  | _ => []
  end.
Definition document_identities (document : Document) (extensions : list JsonValue) : list string :=
  let domain := document_domain document in
  sdoc_scenario_id document
  :: (record_keys (sd_entities domain) ++ record_keys (sd_rules domain) ++ record_keys (sd_preferences domain)
      ++ record_keys (sd_locked_assignments domain))
  ++ ((record_values (sd_entities domain) ++ record_values (sd_rules domain) ++ record_values (sd_preferences domain)
       ++ record_values (sd_locked_assignments domain) ++ extensions) ≫= self_declared).
Lemma for_each_app {S E A} (f : A → SE S E unit) l k s :
  for_each f (l ++ k) s = (_ ← for_each f l; for_each f k) s.
Proof using.
  revert s. induction l as [|a l IH]; intros s; cbn; [done|]. unfold mbind, SE_bind. destruct (f a s) as [[]]; [|done].
  rewrite IH. done.
Qed.
Lemma bind_ext {S E A B} (m : SE S E A) (k k' : A → SE S E B) s : (∀ a s, k a s = k' a s) → (m ≫= k) s = (m ≫= k') s.
Proof using. intros H. unfold mbind, SE_bind. destruct (m s) as [[]]; [apply H|done]. Qed.
Lemma for_each_bind {S E A B} (f : B → SE S E unit) (g : A → list B) (h : A → SE S E unit) l :
  Forall (λ a, ∀ s, h a s = for_each f (g a) s) l → ∀ s, for_each h l s = for_each f (l ≫= g) s.
Proof using.
  induction 1 as [|a l Ha _ IH]; intros s; [done|]. cbn [for_each]. rewrite bind_cons, for_each_app.
  set (r := l ≫= g) in *. unfold mbind, SE_bind. rewrite Ha.
  destruct (for_each f (g a) s) as [[]]; [apply IH|done].
Qed.
Lemma visits_self_declared {S E} (visit : string → SE S E unit) v s :
  visit_self_declared_uuids parse_uuid visit v s = for_each visit (self_declared v) s.
Proof using.
  revert s. induction v as [|b|t|x|l IH|l IH] using JsonValue_rect'; intros s; cbn [visit_self_declared_uuids self_declared]; [done..| |].
  - trans (for_each (visit_self_declared_uuids parse_uuid visit) l s).
    + clear IH. revert s. induction l as [|v l IHl]; intros s; cbn; [done|]. apply bind_ext. auto.
    + apply for_each_bind, IH.
  - trans (for_each (λ '(key, v), _ ← match self_declared_uuid parse_uuid key v with Some i => visit i | None => mret tt end;
                                   visit_self_declared_uuids parse_uuid visit v) l s).
    + clear IH. revert s. induction l as [|[k v] l IHl]; intros s; cbn; [done|]. unfold mbind, SE_bind.
      destruct (match self_declared_uuid parse_uuid k v with Some i => visit i | None => mret tt end s) as [[]]; [|done].
      destruct (visit_self_declared_uuids parse_uuid visit v s0) as [[]]; [apply IHl|done].
    + apply for_each_bind. apply Forall_fmap in IH. eapply Forall_impl; [exact IH|]. intros [k v] Hv s'. cbn in Hv.
      rewrite for_each_app. unfold mbind, SE_bind. destruct (self_declared_uuid parse_uuid k v) as [i|]; cbn.
      * unfold mbind, SE_bind. destruct (visit i s') as [[[]|]]; [apply Hv|done].
      * apply Hv.
Qed.
Lemma visits_identities {S E} document extensions (visit : string → SE S E unit) s :
  visit_document_identities document extensions visit s = for_each visit (document_identities document extensions) s.
Proof using.
  unfold visit_document_identities, document_identities. cbn [for_each]. apply bind_ext. intros _ s1.
  rewrite for_each_app. apply bind_ext. intros _ s2. apply for_each_bind, Forall_true. intros v s'. apply visits_self_declared.
Qed.
Lemma for_each_unseen l seen :
  (for_each insert_unseen l seen).1 = Ok tt ↔ NoDup l ∧ Forall (λ i, i ∉ seen) l.
Proof using.
  clear parse_uuid. revert seen. induction l as [|i l IH]; intros seen; cbn [for_each].
  { split; [intros _; split; constructor|done]. }
  rewrite NoDup_cons, Forall_cons. unfold mbind, SE_bind, insert_unseen at 1. case_bool_decide as Hi; cbn [fst].
  - split; [done|]. tauto.
  - rewrite IH, !Forall_forall. set_solver.
Qed.
Lemma for_each_inserted {E} l seen : (for_each (M := SE (gset string) E) insert_reference l seen).2 = list_to_set l ∪ seen.
Proof using.
  clear parse_uuid. revert seen. induction l as [|i l IH]; intros seen; [cbn; set_solver|].
  cbn [for_each]. unfold mbind, SE_bind, insert_reference at 1. rewrite IH. set_solver.
Qed.

(** C38. The identities a scenario owns are admitted exactly when none of them is defined twice,
    across the scenario, the keys of its four maps and every object, at any depth of its records and
    extensions, whose own [id] names its key; the collected set holds exactly these identities. *)
Theorem owned_identities_unique document extensions :
  (validate_document_identities document extensions = Ok tt ↔ NoDup (document_identities document extensions)) ∧
  (∀ i, i ∈ collect_document_identities document extensions ↔ i ∈ document_identities document extensions).
Proof using.
  unfold validate_document_identities, collect_document_identities. rewrite !visits_identities. split.
  - rewrite for_each_unseen. split; [by intros [? _]|]. intros H. split; [done|]. apply Forall_forall. set_solver.
  - intros i. rewrite for_each_inserted. set_solver.
Qed.
End identities.
