(* ===== verification/Contract.v ===== *)
(** * Contract schemas

    Models [crates/eutheto-domain-api/src/schema.rs] and the batch, command and identifier checks of
    [crates/eutheto-domain-api/src/lib.rs]: the small schema vocabulary of domain packs, the checks of
    values against a schema, and the byte counter that measures JSON.  [parse_uuid] is the uuid
    crate's parser.  A pattern of a checked schema starts with a caret. *)
From stdpp Require Import base tactics list gmap strings sorting pretty.
From Stdlib Require Import ZArith Lia Ascii.
From S2P Require Import Prelude Ordering Protocol Budget Ids DomainIr Json Portable PortableFacts Scenario.
Import Text.
Open Scope string_scope.
Open Scope list_scope.
Open Scope Z_scope.

Notation PR := (Result DomainPackError).
Definition invalid_error (path message : string) : DomainPackError := PackInvalidPayload path message.
Definition invalid {A} (path message : string) : PR A := Err (invalid_error path message).

(** ** Measuring *)
(** [JsonByteCounter::write] *)
Definition counter_write (max_bytes length : Z) (bytes : Z) : option Z :=
  total ← u64_checked_add bytes length; if total <=? max_bytes then Some total else None.
(** The writer of [serde_json] hands the compact text to the counter, in any pieces. *)
Definition bounded_json_size (value : JsonValue) (max_bytes : Z) : PR Z :=
  ok_or (invalid_error "$" "JSON serialization failed or exceeds its byte bound") (counter_write max_bytes (json_len value) 0).

(** ** Schemas *)
Definition ALLOWED_SCHEMA_KEYWORDS : list string :=
  ["$schema"; "type"; "additionalProperties"; "required"; "properties"; "const"; "items"; "oneOf"; "format"; "minimum";
   "maximum"; "pattern"; "minLength"; "maxLength"; "minItems"; "maxItems"].
Record ContractJsonLimits := {
  cl_max_serialized_bytes : Z; cl_max_depth : Z; cl_max_string_bytes : Z; cl_max_collection_items : Z
}.
Definition ContractJsonLimits_DEFAULT : ContractJsonLimits :=
  {| cl_max_serialized_bytes := 16 * 1024 * 1024; cl_max_depth := 32; cl_max_string_bytes := 16 * 1024;
     cl_max_collection_items := 100000 |}.
Notation Object := (list (string * JsonValue)).
Definition get_str (object : Object) (key : string) : option string :=
  match object_get object key with Some v => as_str v | None => None end.
Definition get_array (object : Object) (key : string) : option (list JsonValue) :=
  match object_get object key with Some v => as_array v | None => None end.
Definition get_object (object : Object) (key : string) : option Object :=
  match object_get object key with Some v => as_object v | None => None end.
Definition validate_schema_type (object : Object) (path : string) : PR unit :=
  match object_get object "type" with
  | None => Ok tt
  | Some (JString kind) =>
      if bool_decide (kind ∈ ["object"; "array"; "string"; "integer"; "boolean"; "null"]) then Ok tt
      else invalid path ("unsupported schema type " ++ kind)%string
  | Some _ => invalid path "type must be a string"
  end.
Definition validate_schema_required (object : Object) (path : string) : PR unit :=
  match object_get object "required" with
  | None => Ok tt
  | Some required =>
      required ← ok_or (invalid_error path "required must be an array") (as_array required);
      _ ← fold_m (λ names name,
            name ← ok_or (invalid_error path "required names must be strings") (as_str name);
            if bool_decide (name ∈ names) then invalid path ("duplicate required property " ++ name)%string
            else Ok (name :: names)) [] required;
      Ok tt
  end.
Definition validate_schema_constraints (object : Object) (path : string) : PR unit :=
  _ ← match object_get object "format" with
      | None => Ok tt
      | Some format =>
          if bool_decide (as_str format ∈ [Some "uuid"; Some "scenario-change-path"; Some "signed-u32-delta"]) then Ok tt
          else invalid path "unsupported schema string format"
      end;
  _ ← match object_get object "pattern" with
      | None => Ok tt
      | Some pattern =>
          pattern ← ok_or (invalid_error path "pattern must be a string") (as_str pattern);
          if negb (starts_with (lit "^") (as_bytes pattern))
             || existsb (λ c, bool_decide (c ∈ [94; 36; 91; 40; 42; 43; 63; 92])) (chars (String.substring 1 (String.length pattern - 1) pattern))
          then invalid path "only anchored literal-prefix patterns are supported"
          else Ok tt
      end;
  _ ← for_each (λ bound,
        match object_get object bound with
        | Some value => if bool_decide (is_Some (as_i64 value)) then Ok tt
                        else invalid path (bound ++ " must be an i64 integer")%string
        | None => Ok tt
        end) ["minimum"; "maximum"];
  for_each (λ bound,
    match object_get object bound with
    | Some value => if bool_decide (is_Some (as_u64 value)) then Ok tt
                    else invalid path (bound ++ " must be a nonnegative integer")%string
    | None => Ok tt
    end) ["minLength"; "maxLength"; "minItems"; "maxItems"].
Section schema_children.
Context (validate_schema_at : JsonValue → string → Z → PR unit).
Definition validate_schema_properties (object : Object) (path : string) (depth : Z) : PR unit :=
  match object_get object "properties" with
  | None => Ok tt
  | Some properties =>
      properties ← ok_or (invalid_error path "properties must be an object") (as_object properties);
      if negb (contains_key object "additionalProperties")
      then invalid path "object properties require explicit additionalProperties"
      else if match get_array object "required" with
              | Some required => existsb (λ name, negb (contains_key properties name)) (omap as_str required)
              | None => false
              end
      then invalid path "required property is absent from properties"
      else for_each (λ entry, validate_schema_at entry.2 (path ++ "/properties/" ++ entry.1)%string (depth + 1)) properties
  end.
Definition validate_schema_children (object : Object) (path : string) (depth : Z) : PR unit :=
  _ ← match object_get object "additionalProperties" with
      | Some additional => if is_boolean additional then Ok tt
                           else validate_schema_at additional (path ++ "/additionalProperties")%string (depth + 1)
      | None => Ok tt
      end;
  _ ← match object_get object "items" with
      | Some items => validate_schema_at items (path ++ "/items")%string (depth + 1)
      | None => Ok tt
      end;
  match object_get object "oneOf" with
  | Some options =>
      options ← ok_or (invalid_error path "oneOf must be an array") (as_array options);
      if bool_decide (options = []) then invalid path "oneOf must not be empty"
      else for_each_from 0 (λ index option, validate_schema_at option (path ++ "/oneOf/" ++ pretty (N.of_nat index))%string (depth + 1)) options
  | None => Ok tt
  end.
End schema_children.
(** The depth grows at each call and is bounded: [fuel] is the depth that is left. *)
Fixpoint validate_schema_loop (fuel : nat) (schema : JsonValue) (path : string) (depth : Z) : PR unit :=
  if cl_max_depth ContractJsonLimits_DEFAULT <? depth then invalid path "schema nesting limit exceeded"
  else
    match fuel with
    | O => invalid path "schema nesting limit exceeded"
    | S fuel =>
        object ← ok_or (invalid_error path "schema must be an object") (as_object schema);
        match List.find (λ key, negb (bool_decide (key ∈ ALLOWED_SCHEMA_KEYWORDS))) object.*1 with
        | Some key => invalid path ("unsupported schema keyword " ++ key)%string
        | None =>
            _ ← validate_schema_type object path;
            _ ← validate_schema_required object path;
            _ ← validate_schema_properties (validate_schema_loop fuel) object path depth;
            _ ← validate_schema_children (validate_schema_loop fuel) object path depth;
            validate_schema_constraints object path
        end
    end.
Definition validate_schema_at (schema : JsonValue) (path : string) (depth : Z) : PR unit :=
  validate_schema_loop (S (Z.to_nat (cl_max_depth ContractJsonLimits_DEFAULT))) schema path depth.
Definition validate_contract_schema (schema : JsonValue) : PR unit := validate_schema_at schema "$" 0.

(** ** Values *)
Definition is_scenario_change_path (value : string) : bool :=
  bool_decide (value = "/settings") || starts_with (lit "/settings/") (as_bytes value) || starts_with (lit "/domain/") (as_bytes value).
(** [str::parse::<u32>] of decimal digits. *)
Definition parses_u32 (digits : list Z) : bool :=
  match decimal 0 (ascii_of_N <$> (Z.to_N <$> digits)) with Some n => n <=? 2 ^ 32 - 1 | None => false end.
Definition is_signed_u32_delta (value : string) : bool :=
  let digits := default (as_bytes value) (strip_prefix (lit "-") (as_bytes value)) in
  negb (bool_decide (digits = []))
  && ((bool_decide (digits = lit "0") && bool_decide (value = "0")) || negb (starts_with (lit "0") digits))
  && forallb is_ascii_digit digits && parses_u32 digits.
Definition as_integer (value : JsonValue) : option Z :=
  match as_i64 value with
  | Some n => Some n
  | None => match as_u64 value with Some n => checked_i64 n | None => None end
  end.
Definition get_i64 (object : Object) (key : string) : option Z :=
  match object_get object key with Some v => as_i64 v | None => None end.
Definition get_u64 (object : Object) (key : string) : option Z :=
  match object_get object key with Some v => as_u64 v | None => None end.
Definition below (bound : option Z) (n : Z) : bool := match bound with Some m => n <? m | None => false end.
Definition above (bound : option Z) (n : Z) : bool := match bound with Some m => m <? n | None => false end.
Definition validate_length_constraints (schema : Object) (value : JsonValue) (path : string) : PR unit :=
  _ ← if contains_key schema "minLength" || contains_key schema "maxLength" then
        text ← ok_or (invalid_error path "expected bounded string") (as_str value);
        let length := len (chars text) in
        if below (get_u64 schema "minLength") length || above (get_u64 schema "maxLength") length
        then invalid path "string is outside declared length bounds" else Ok tt
      else Ok tt;
  if contains_key schema "minItems" || contains_key schema "maxItems" then
    values ← ok_or (invalid_error path "expected bounded array") (as_array value);
    let length := len values in
    if below (get_u64 schema "minItems") length || above (get_u64 schema "maxItems") length
    then invalid path "array is outside declared length bounds" else Ok tt
  else Ok tt.
Definition type_matches (kind : string) (value : JsonValue) : bool :=
  if bool_decide (kind = "object") then is_object value
  else if bool_decide (kind = "array") then is_array value
  else if bool_decide (kind = "string") then is_string value
  else if bool_decide (kind = "integer") then bool_decide (is_Some (as_integer value))
  else if bool_decide (kind = "boolean") then is_boolean value
  else if bool_decide (kind = "null") then is_null value
  else false.

Section values.
Context (unicode_lowercase : Z → list Z) (parse_uuid : string → option (string * Z)).
Section value_children.
Context (validate_value_at : JsonValue → JsonValue → string → Z → ContractJsonLimits → PR unit).
Definition validate_object (schema values : Object) (path : string) (depth : Z) (limits : ContractJsonLimits) : PR unit :=
  if cl_max_collection_items limits <? len values then invalid path "object item limit exceeded"
  else
    let properties := get_object schema "properties" in
    _ ← match get_array schema "required" with
        | Some required =>
            for_each (λ name, if contains_key values name then Ok tt
                              else invalid path ("missing required property " ++ name)%string) (omap as_str required)
        | None => Ok tt
        end;
    for_each (λ entry,
      let '(name, item) := entry in
      match (match properties with Some items => object_get items name | None => None end) with
      | Some child => validate_value_at child item (path ++ "/" ++ name)%string (depth + 1) limits
      | None =>
          match object_get schema "additionalProperties" with
          | Some (JBool false) => invalid path ("unknown property " ++ name)%string
          | Some (JObject o) => validate_value_at (JObject o) item (path ++ "/" ++ name)%string (depth + 1) limits
          | Some (JBool true) | None => Ok tt
          | Some _ => invalid path "invalid additionalProperties schema"
          end
      end) values.
Definition validate_value_body (schema value : JsonValue) (path : string) (depth : Z) (limits : ContractJsonLimits) : PR unit :=
  object ← ok_or (invalid_error path "schema must be an object") (as_object schema);
  _ ← match object_get object "const" with
      | Some expected => if json_eqb value expected then Ok tt else invalid path "value does not match const"
      | None => Ok tt
      end;
  _ ← match get_array object "oneOf" with
      | Some options =>
          if len (filter (λ option, is_ok (validate_value_at option value path (depth + 1) limits) = true) options) =? 1
          then Ok tt else invalid path "value must match exactly one oneOf branch"
      | None => Ok tt
      end;
  _ ← match get_str object "type" with
      | Some kind => if type_matches kind value then Ok tt else invalid path ("expected " ++ kind)%string
      | None => Ok tt
      end;
  _ ← (if bool_decide (get_str object "format" = Some "uuid")
          && negb (match as_str value with Some text => bool_decide (is_Some (parse_uuid text)) | None => false end)
       then invalid path "expected UUID" else Ok tt);
  _ ← (if bool_decide (get_str object "format" = Some "scenario-change-path")
          && negb (match as_str value with Some text => is_scenario_change_path text | None => false end)
       then invalid path "expected scenario change field reference" else Ok tt);
  _ ← (if bool_decide (get_str object "format" = Some "signed-u32-delta")
          && negb (match as_str value with Some text => is_signed_u32_delta text | None => false end)
       then invalid path "expected signed u32 difference" else Ok tt);
  _ ← match get_str object "pattern" with
      | Some pattern =>
          let prefix := String.substring 1 (String.length pattern - 1) pattern in
          if match as_str value with Some text => starts_with (as_bytes prefix) (as_bytes text) | None => false end then Ok tt
          else invalid path ("expected prefix " ++ prefix)%string
      | None => Ok tt
      end;
  _ ← (if contains_key object "minimum" || contains_key object "maximum" then
         number ← ok_or (invalid_error path "expected bounded integer") (as_integer value);
         if below (get_i64 object "minimum") number || above (get_i64 object "maximum") number
         then invalid path "integer is outside declared bounds" else Ok tt
       else Ok tt);
  _ ← validate_length_constraints object value path;
  _ ← match as_object value with
      | Some values => validate_object object values path depth limits
      | None => Ok tt
      end;
  match as_array value with
  | Some values =>
      if cl_max_collection_items limits <? len values then invalid path "collection limit exceeded"
      else match object_get object "items" with
           | Some items =>
               for_each_from 0 (λ index item, validate_value_at items item (path ++ "/" ++ pretty (N.of_nat index))%string (depth + 1) limits) values
           | None => Ok tt
           end
  | None => Ok tt
  end.
End value_children.
(** The depth grows at each call and is bounded by the limits: [fuel] is the depth that is left. *)
Fixpoint validate_value_loop (fuel : nat) (schema value : JsonValue) (path : string) (depth : Z) (limits : ContractJsonLimits) :
    PR unit :=
  if cl_max_depth limits <? depth then invalid path "value nesting limit exceeded"
  else match fuel with
       | O => invalid path "value nesting limit exceeded"
       | S fuel => validate_value_body (validate_value_loop fuel) schema value path depth limits
       end.
Definition validate_value_at (schema value : JsonValue) (path : string) (depth : Z) (limits : ContractJsonLimits) : PR unit :=
  validate_value_loop (S (Z.to_nat (cl_max_depth limits))) schema value path depth limits.

(** [scrub_json_pointers]: the copy checked for safety has a placeholder at every declared field
    reference.  It descends into the schema: its size bounds the calls. *)
Section scrub.
Context (scrub : JsonValue → JsonValue → JsonValue → JsonValue) (limits : ContractJsonLimits).
Definition scrub_union (schema original safe : JsonValue) : JsonValue :=
  match (match value_get schema "oneOf" with Some v => as_array v | None => None end) with
  | Some options =>
      match List.find (λ branch, is_ok (validate_value_at branch original "$" 0 limits)) options with
      | Some branch => scrub branch original safe
      | None => safe
      end
  | None => safe
  end.
Definition scrub_properties (schema original safe : JsonValue) : JsonValue :=
  match (match value_get schema "properties" with Some v => as_object v | None => None end), original, safe with
  | Some properties, JObject values, JObject safe_values =>
      JObject ((λ entry : string * JsonValue,
        let '(key, safe_item) := entry in
        match object_get values key,
              (match object_get properties key with
               | Some child => Some child
               | None => value_get schema "additionalProperties"
               end) with
        | Some item, Some child => (key, scrub child item safe_item)
        | _, _ => entry
        end) <$> safe_values)
  | _, _, _ => safe
  end.
Definition scrub_items (schema original safe : JsonValue) : JsonValue :=
  match value_get schema "items", original, safe with
  | Some items, JArray values, JArray safe_values =>
      JArray (zip_with (scrub items) values safe_values ++ drop (length values) safe_values)
  | _, _, _ => safe
  end.
End scrub.
Fixpoint scrub_loop (fuel : nat) (limits : ContractJsonLimits) (schema original safe : JsonValue) : JsonValue :=
  match fuel with
  | O => safe
  | S fuel =>
      if bool_decide (match value_get schema "format" with Some v => as_str v | None => None end = Some "scenario-change-path")
         && match as_str original with Some text => is_scenario_change_path text | None => false end
      then JString "scenario-field-reference"
      else if match (match value_get schema "pattern" with Some v => as_str v | None => None end) with
              | Some pattern => starts_with (lit "^/domain/") (as_bytes pattern)
              | None => false
              end && is_string original
      then JString "domain-field-reference"
      else
        let scrub := scrub_loop fuel limits in
        let safe := scrub_union scrub limits schema original safe in
        let safe := scrub_properties scrub schema original safe in
        scrub_items scrub schema original safe
  end.
Definition scrub_json_pointers (schema original : JsonValue) (limits : ContractJsonLimits) : JsonValue :=
  scrub_loop (Z.to_nat (json_nodes schema)) limits schema original original.
Definition validate_value_with_schema (schema value : JsonValue) (limits : ContractJsonLimits) : PR unit :=
  _ ← bounded_json_size value (cl_max_serialized_bytes limits);
  _ ← map_err (invalid_error "$")
        (validate_nonsecret_portable_json unicode_lowercase (scrub_json_pointers schema value limits)
           {| max_depth := cl_max_depth limits; max_string_bytes := cl_max_string_bytes limits;
              max_collection_items := cl_max_collection_items limits |});
  validate_value_at schema value "$" 0 limits.
Definition validate_contract_value (schema value : JsonValue) (limits : ContractJsonLimits) : PR unit :=
  _ ← validate_contract_schema schema; validate_value_with_schema schema value limits.
(** [ValidatedContractSchema] is a schema that was checked. *)
Definition ValidatedContractSchema_new (schema : JsonValue) : PR JsonValue := _ ← validate_contract_schema schema; Ok schema.

(** ** Queries *)
Section query_members.
Context (validate_query_structure : JsonValue → Z → PR unit) (limits : ContractJsonLimits).
Fixpoint validate_query_items (depth : Z) (items : list JsonValue) : PR unit :=
  match items with [] => Ok tt | item :: items => _ ← validate_query_structure item depth; validate_query_items depth items end.
Fixpoint validate_query_fields (depth : Z) (fields : Object) : PR unit :=
  match fields with
  | [] => Ok tt
  | (key, item) :: fields =>
      if cl_max_string_bytes limits <? len (as_bytes key) then invalid "$" "query key byte limit exceeded"
      else _ ← validate_query_structure item depth; validate_query_fields depth fields
  end.
End query_members.
Fixpoint validate_query_structure (limits : ContractJsonLimits) (value : JsonValue) (depth : Z) {struct value} : PR unit :=
  if cl_max_depth limits <? depth then invalid "$" "query nesting limit exceeded"
  else match value with
       | JString text =>
           if cl_max_string_bytes limits <? len (as_bytes text) then invalid "$" "query string byte limit exceeded" else Ok tt
       | JArray items =>
           if cl_max_collection_items limits <? len items then invalid "$" "query collection limit exceeded"
           else validate_query_items (validate_query_structure limits) (depth + 1) items
       | JObject fields =>
           if cl_max_collection_items limits <? len fields then invalid "$" "query collection limit exceeded"
           else validate_query_fields (validate_query_structure limits) limits (depth + 1) fields
       | _ => Ok tt
       end.
Definition validate_query_parameters (schema value : JsonValue) (limits : ContractJsonLimits) : PR unit :=
  _ ← validate_contract_schema schema;
  _ ← validate_query_structure limits value 0;
  _ ← bounded_json_size value (cl_max_serialized_bytes limits);
  validate_value_at schema value "$" 0 limits.
End values.

(** ** Catalogs and descriptors of packs *)
Definition DOMAIN_BATCH_SCHEMA_VERSION : Z := 1.
Definition MAX_DOMAIN_BATCH_COMMANDS : Z := 1000.
Definition MAX_DOMAIN_MUTATION_CHANGES : Z := 85536.
Definition MAX_DOMAIN_MUTATION_CHANGE_BYTES : Z := 64 * 1024 * 1024.
Definition MAX_DOMAIN_MUTATION_RESULT_BYTES : Z := 16 * 1024 * 1024.
Record LocalizedText := { lt_key : string; lt_default_text : string }.
Record LicenseMetadata := { li_spdx_expression : string; li_attribution : string }.
Inductive DomainCapability :=
| DcCommands | DcCompilation | DcProjection | DcVerification | DcInfeasibilityDiagnostics | DcScoring | DcPortableData
| DcShareResult | DcUiManifest | DcAiTools.
#[global] Instance DomainCapability_eq_dec : EqDecision DomainCapability.
Proof. solve_decision. Defined.
Record SchemaVersionDescriptor := { sv_latest : Z; sv_migratable_from : list Z }.
Definition supports (self : SchemaVersionDescriptor) (version : Z) : bool :=
  (version =? sv_latest self) || bool_decide (version ∈ sv_migratable_from self).
Definition has_complete_migration_paths (self : SchemaVersionDescriptor) : bool :=
  negb (sv_latest self =? 0)
  && forallb (λ version, let next := version + 1 in
       (next <=? 2 ^ 32 - 1)
       && ((next =? sv_latest self) || ((next <? sv_latest self) && bool_decide (next ∈ sv_migratable_from self))))
       (sv_migratable_from self).
(** Versions are major, minor and patch; explanation capabilities are their names. *)
Record DomainPackDescriptor := {
  pd_id : string; pd_display_name : LocalizedText; pd_description : LocalizedText; pd_pack_version : Z * Z * Z;
  pd_scenario_versions : SchemaVersionDescriptor; pd_icon_id : string; pd_capabilities : list DomainCapability;
  pd_explanation_capabilities : list string; pd_portable_versions : SchemaVersionDescriptor;
  pd_portable_capabilities : list SemanticCapability; pd_share_result_schema_version : Z;
  pd_documentation_url : option string; pd_license : LicenseMetadata; pd_synthetic_test_only : bool
}.
Inductive CommandRisk := OrdinaryMutation | DestructiveMutation.
Inductive CommandReversibility := InverseCommand | Irreversible.
Record CommandDescriptor := {
  cd_id : string; cd_title : LocalizedText; cd_description : LocalizedText; cd_risk : CommandRisk;
  cd_reversibility : CommandReversibility; cd_ai_grouping_allowed : bool; cd_payload_schema : JsonValue;
  cd_result_schema : JsonValue; cd_change_schema : JsonValue; cd_valid_examples : list JsonValue;
  cd_invalid_examples : list JsonValue
}.
Inductive SetupQuerySource := StoredSource | CommandPreviewSource.
#[global] Instance SetupQuerySource_eq_dec : EqDecision SetupQuerySource.
Proof. solve_decision. Defined.
Record SetupQueryDescriptor := {
  qd_id : string; qd_title : LocalizedText; qd_description : LocalizedText; qd_sources : list SetupQuerySource;
  qd_supports_continuation : bool; qd_parameter_schema : JsonValue; qd_result_schema : JsonValue;
  qd_valid_examples : list JsonValue; qd_invalid_examples : list JsonValue
}.
Record KindDescriptor := { kd_id : string; kd_title : LocalizedText; kd_description : LocalizedText }.
Record ScoreDescriptor := { sk_id : string; sk_title : LocalizedText; sk_minimize : bool }.
Record TransferDescriptor := { tr_id : string; tr_title : LocalizedText; tr_schema_version : Z }.
Record DomainUiManifest := {
  um_setup_steps : list KindDescriptor; um_entity_kinds : list KindDescriptor; um_rule_kinds : list KindDescriptor;
  um_goal_kinds : list KindDescriptor; um_score_kinds : list ScoreDescriptor; um_provenance_kinds : list KindDescriptor;
  um_result_views : list KindDescriptor; um_importers : list TransferDescriptor; um_exporters : list TransferDescriptor
}.
Record AiToolDescriptor := {
  at_command_id : string; at_name : string; at_description : string; at_input_schema : JsonValue;
  at_valid_examples : list JsonValue
}.
Record DomainCatalog := {
  ca_pack_id : string; ca_scenario_schema_version : Z; ca_internal_schema : JsonValue; ca_portable_schema : JsonValue;
  ca_share_result_schema : JsonValue; ca_commands : list CommandDescriptor; ca_setup_queries : list SetupQueryDescriptor;
  ca_ai_tools : list AiToolDescriptor; ca_ui : DomainUiManifest
}.

Definition validate_id (value kind : string) : PR unit :=
  let segments := split (λ c, c =? 46) (as_bytes value) in
  if (len (as_bytes value) <=? 160) && (2 <=? len segments)
     && forallb (λ segment, negb (bool_decide (segment = []))
          && forallb (λ byte, is_ascii_lowercase byte || is_ascii_digit byte || (byte =? 95) || (byte =? 45)) segment) segments
  then Ok tt else Err (PackMissingMetadata (kind ++ " id")%string).
Definition validate_localized (value : LocalizedText) (name : string) : PR unit :=
  if bool_decide (lt_key value = "") || bool_decide (lt_default_text value = "") then Err (PackMissingMetadata name) else Ok tt.
Definition unique_ids_step (kind : string) (state : list string * option string) (value : string) :
    PR (list string * option string) :=
  let '(seen, previous) := state in
  if bool_decide (value ∈ seen) then Err (PackCatalogMismatch ("duplicate " ++ kind ++ " id " ++ value)%string)
  else if match previous with Some prior => negb (ltb prior value) | None => false end
  then Err (PackCatalogMismatch (kind ++ " are not in stable ascending ID order")%string)
  else Ok (value :: seen, Some value).
Definition unique_ids (values : list string) (kind : string) : PR unit :=
  _ ← fold_m (unique_ids_step kind) ([], None) values; Ok tt.
Definition validate_kind_group (values : list KindDescriptor) (name : string) : PR unit :=
  _ ← unique_ids (kd_id <$> values) name;
  for_each (λ value, _ ← validate_id (kd_id value) name; _ ← validate_localized (kd_title value) name;
                     validate_localized (kd_description value) name) values.
Definition validate_transfers (values : list TransferDescriptor) (name : string) : PR unit :=
  _ ← unique_ids (tr_id <$> values) name;
  for_each (λ value, _ ← validate_id (tr_id value) name; _ ← validate_localized (tr_title value) name;
                     if tr_schema_version value =? 0 then Err (PackInvalidVersion (tr_id value)) else Ok tt) values.
Definition DomainUiManifest_validate (self : DomainUiManifest) : PR unit :=
  _ ← validate_kind_group (um_setup_steps self) "setup steps";
  _ ← validate_kind_group (um_entity_kinds self) "entity kinds";
  _ ← validate_kind_group (um_rule_kinds self) "rule kinds";
  _ ← validate_kind_group (um_goal_kinds self) "goal kinds";
  _ ← validate_kind_group (um_provenance_kinds self) "provenance kinds";
  _ ← validate_kind_group (um_result_views self) "result views";
  _ ← unique_ids (sk_id <$> um_score_kinds self) "score kinds";
  _ ← for_each (λ score, _ ← validate_id (sk_id score) "score"; validate_localized (sk_title score) "score title")
        (um_score_kinds self);
  _ ← validate_transfers (um_importers self) "importers";
  validate_transfers (um_exporters self) "exporters".
(** The [Display] of the errors; the payloads of the capability errors are their debug text. *)
Definition DomainPackError_display (error : DomainPackError) : string :=
  match error with
  | PackDuplicate id => "duplicate domain pack " ++ id
  | PackUnavailable id => "domain pack " ++ id ++ " is unavailable"
  | PackMissingMetadata what => "missing domain-pack metadata: " ++ what
  | PackInvalidVersion what => "invalid domain-pack version: " ++ what
  | PackCatalogMismatch what => "domain catalog mismatch: " ++ what
  | PackUnsupportedVersion version => "unsupported scenario or payload version " ++ pretty version
  | PackUnknownCommand name => "unknown command " ++ name
  | PackInvalidPayload path message => "invalid domain payload at " ++ path ++ ": " ++ message
  | PackSetupValidation _ => "setup values require review"
  | PackBatchInverseTooLarge => "domain batch inverse exceeds its byte bound"
  | PackMutationOutputLimit => "domain mutation output exceeds its bound"
  | PackCancelled => "domain operation was cancelled"
  | PackBudgetExpired => "domain operation budget expired"
  | PackResourceLimitExceeded => "domain operation exceeded its resource limit"
  | PackUnsupportedExplanationCapability capability => "unsupported explanation capability " ++ capability
  | PackUnsupportedDomainCapability capability => "unsupported domain capability " ++ capability
  | PackContract what => "domain contract violation: " ++ what
  end%string.
Definition validate_schema_complete (schema : JsonValue) (name : string) : PR unit :=
  map_err (λ error, PackInvalidPayload name (DomainPackError_display error)) (validate_contract_schema schema).
Definition path_get (schema : JsonValue) (path : list string) : option JsonValue :=
  foldl (λ value key, match value with Some value => value_get value key | None => None end) (Some schema) path.
Definition schema_version (schema : JsonValue) : option Z :=
  match path_get schema ["properties"; "schemaVersion"; "const"] with Some v => as_u64 v | None => None end.
(** [ScenarioDomain::has_schema_shape] *)
Definition DOMAIN_MAP_FIELDS : list string := ["entities"; "rules"; "preferences"; "lockedAssignments"].
Definition schema_type_is (schema : option JsonValue) (kind : string) : bool :=
  match schema with
  | Some s => match value_get s "type" with Some v => bool_decide (as_str v = Some kind) | None => false end
  | None => false
  end.
Definition has_schema_shape (schema : JsonValue) : bool :=
  match value_get schema "properties", value_get schema "required" with
  | Some (JObject properties), Some (JArray required) =>
      schema_type_is (Some schema) "object"
      && match value_get schema "additionalProperties" with Some (JBool false) => true | _ => false end
      && (len properties =? len DOMAIN_MAP_FIELDS) && (len required =? len DOMAIN_MAP_FIELDS)
      && forallb (λ field,
           match object_get properties field with
           | None => false
           | Some map =>
               schema_type_is (Some map) "object" && negb (bool_decide (is_Some (value_get map "properties")))
               && schema_type_is (value_get map "additionalProperties") "object"
               && existsb (λ item, bool_decide (as_str item = Some field)) required
           end) DOMAIN_MAP_FIELDS
  | _, _ => false
  end.

Section catalogs.
Context (unicode_lowercase : Z → list Z) (parse_uuid : string → option (string * Z)).
Notation validate_contract_value := (validate_contract_value unicode_lowercase parse_uuid).
Notation DEFAULT := ContractJsonLimits_DEFAULT.
Definition validate_parameters (self : SetupQueryDescriptor) (value : JsonValue) (limits : ContractJsonLimits) : PR unit :=
  validate_query_parameters parse_uuid (qd_parameter_schema self) value limits.
Definition SetupQueryDescriptor_validate (self : SetupQueryDescriptor) : PR unit :=
  _ ← validate_id (qd_id self) "setup query";
  _ ← validate_localized (qd_title self) "setup query title";
  _ ← validate_localized (qd_description self) "setup query description";
  if bool_decide (qd_sources self = []) then Err (PackMissingMetadata ("setup query " ++ qd_id self ++ " sources")%string)
  else
    _ ← validate_schema_complete (qd_parameter_schema self) "setup query parameters";
    _ ← validate_schema_complete (qd_result_schema self) "setup query result";
    if (len (qd_valid_examples self) =? 0) || (len (qd_invalid_examples self) =? 0)
    then Err (PackMissingMetadata ("setup query " ++ qd_id self ++ " examples")%string)
    else
      _ ← for_each (λ example, validate_parameters self example DEFAULT) (qd_valid_examples self);
      if existsb (λ example, is_ok (validate_parameters self example DEFAULT)) (qd_invalid_examples self)
      then Err (PackCatalogMismatch ("setup query " ++ qd_id self ++ " has an accepted invalid example")%string)
      else Ok tt.
Definition validate_subject (self : SetupQueryDescriptor) (source : SetupQuerySource) (has_continuation : bool) : PR unit :=
  if negb (bool_decide (source ∈ qd_sources self)) || (has_continuation && negb (qd_supports_continuation self))
  then Err (PackInvalidPayload "/query" "setup query does not support this source or continuation") else Ok tt.
Definition validate_command_descriptor (command : CommandDescriptor) : PR unit :=
  _ ← validate_id (cd_id command) "command";
  _ ← validate_localized (cd_title command) "command title";
  _ ← validate_localized (cd_description command) "command description";
  _ ← validate_schema_complete (cd_payload_schema command) "command payload";
  _ ← validate_schema_complete (cd_result_schema command) "command result";
  _ ← validate_schema_complete (cd_change_schema command) "command change";
  if (len (cd_valid_examples command) =? 0) || (len (cd_invalid_examples command) =? 0)
  then Err (PackMissingMetadata ("command " ++ cd_id command ++ " examples")%string)
  else
    _ ← for_each (λ example, validate_contract_value (cd_payload_schema command) example DEFAULT) (cd_valid_examples command);
    if existsb (λ example, is_ok (validate_contract_value (cd_payload_schema command) example DEFAULT))
         (cd_invalid_examples command)
    then Err (PackCatalogMismatch ("command " ++ cd_id command ++ " has an accepted invalid example")%string)
    else Ok tt.
Definition validate_ai_tool (commands : list CommandDescriptor) (tool : AiToolDescriptor) : PR unit :=
  if bool_decide (at_name tool = "") || bool_decide (at_description tool = "") then Err (PackMissingMetadata "AI tool")
  else
    command ← ok_or (PackCatalogMismatch ("AI tool " ++ at_name tool ++ " references unknown command " ++ at_command_id tool)%string)
                (List.find (λ command, bool_decide (cd_id command = at_command_id tool)) commands);
    if negb (json_eqb (at_input_schema tool) (cd_payload_schema command))
       || negb (json_eqb (JArray (at_valid_examples tool)) (JArray (cd_valid_examples command)))
    then Err (PackCatalogMismatch ("AI tool " ++ at_name tool ++ " drifted from command " ++ cd_id command)%string)
    else Ok tt.
Definition validate_setup_query (self : DomainCatalog) (query : SetupQueryDescriptor) : PR unit :=
  _ ← SetupQueryDescriptor_validate query;
  if existsb (λ command, bool_decide (cd_id command = qd_id query)) (ca_commands self)
  then Err (PackCatalogMismatch "setup queries cannot be mutation commands")
  else if existsb (λ view, bool_decide (kd_id view = qd_id query)) (um_result_views (ca_ui self))
  then Err (PackCatalogMismatch "setup queries cannot be accepted-result views")
  else Ok tt.
Definition DomainCatalog_validate (self : DomainCatalog) : PR unit :=
  _ ← validate_schema_complete (ca_internal_schema self) "internalSchema";
  if negb (has_schema_shape (ca_internal_schema self))
  then Err (PackCatalogMismatch "internalSchema must describe the four ScenarioDomain maps")
  else
    _ ← validate_schema_complete (ca_portable_schema self) "portableSchema";
    _ ← validate_schema_complete (ca_share_result_schema self) "shareResultSchema";
    _ ← unique_ids (cd_id <$> ca_commands self) "commands";
    _ ← for_each validate_command_descriptor (ca_commands self);
    _ ← unique_ids (qd_id <$> ca_setup_queries self) "setup queries";
    _ ← for_each (validate_setup_query self) (ca_setup_queries self);
    _ ← unique_ids (at_name <$> ca_ai_tools self) "AI tools";
    _ ← for_each (validate_ai_tool (ca_commands self)) (ca_ai_tools self);
    DomainUiManifest_validate (ca_ui self).
Definition has_capability (self : DomainPackDescriptor) (capability : DomainCapability) : bool :=
  bool_decide (capability ∈ pd_capabilities self).
Definition DomainPackDescriptor_validate (self : DomainPackDescriptor) : PR unit :=
  _ ← validate_localized (pd_display_name self) "pack display name";
  _ ← validate_localized (pd_description self) "pack description";
  if bool_decide (pd_pack_version self = (0, 0, 0)) then Err (PackInvalidVersion "pack version 0.0.0")
  else if negb (has_complete_migration_paths (pd_scenario_versions self))
          || bool_decide (0 ∈ sv_migratable_from (pd_scenario_versions self))
          || negb (has_complete_migration_paths (pd_portable_versions self))
          || (pd_share_result_schema_version self =? 0)
  then Err (PackInvalidVersion (pd_id self))
  else
    _ ← for_each (λ capability, _ ← validate_id (cap_id capability) "portable capability";
                                if cap_version capability =? 0 then Err (PackInvalidVersion (cap_id capability)) else Ok tt)
          (pd_portable_capabilities self);
    if bool_decide (pd_icon_id self = "") || bool_decide (pd_capabilities self = [])
       || bool_decide (li_spdx_expression (pd_license self) = "") || bool_decide (li_attribution (pd_license self) = "")
    then Err (PackMissingMetadata (pd_id self))
    else if has_capability self DcPortableData && (len (pd_portable_capabilities self) =? 0)
    then Err (PackCatalogMismatch (pd_id self ++ " portable capabilities")%string)
    else if has_capability self DcInfeasibilityDiagnostics
            && (negb (forallb (has_capability self) [DcCompilation; DcProjection; DcVerification; DcScoring])
                || negb (bool_decide ("Infeasibility" ∈ pd_explanation_capabilities self)))
    then Err (PackCatalogMismatch (pd_id self ++ " infeasibility diagnostic prerequisites")%string)
    else Ok tt.

(** ** The registry *)
Context {Pack : Type} (pack_descriptor : Pack → PR DomainPackDescriptor) (pack_catalog : Pack → PR DomainCatalog).
Record Registration := { rg_descriptor : DomainPackDescriptor; rg_catalog : DomainCatalog; rg_pack : Pack }.
Notation DomainPackRegistry := (gmap string Registration).
Definition catalog_agrees (descriptor : DomainPackDescriptor) (catalog : DomainCatalog) : bool :=
  bool_decide (ca_pack_id catalog = pd_id descriptor)
  && (ca_scenario_schema_version catalog =? sv_latest (pd_scenario_versions descriptor))
  && bool_decide (schema_version (ca_portable_schema catalog) = Some (sv_latest (pd_portable_versions descriptor)))
  && bool_decide (schema_version (ca_share_result_schema catalog) = Some (pd_share_result_schema_version descriptor))
  && negb (has_capability descriptor DcCommands && (len (ca_commands catalog) =? 0))
  && negb (has_capability descriptor DcAiTools && (len (ca_ai_tools catalog) =? 0))
  && negb (has_capability descriptor DcUiManifest && (len (um_result_views (ca_ui catalog)) =? 0)).
Definition register_pack (registrations : DomainPackRegistry) (pack : Pack) : PR DomainPackRegistry :=
  descriptor ← pack_descriptor pack;
  _ ← DomainPackDescriptor_validate descriptor;
  catalog ← pack_catalog pack;
  _ ← DomainCatalog_validate catalog;
  if negb (catalog_agrees descriptor catalog) then Err (PackCatalogMismatch (pd_id descriptor))
  else if bool_decide (is_Some (registrations !! pd_id descriptor)) then Err (PackDuplicate (pd_id descriptor))
  else Ok (<[pd_id descriptor := {| rg_descriptor := descriptor; rg_catalog := catalog; rg_pack := pack |}]> registrations).
Definition DomainPackRegistryBuilder_build (packs : list Pack) : PR DomainPackRegistry := fold_m register_pack ∅ packs.
Definition registry_require (self : DomainPackRegistry) (id : string) : PR Pack :=
  ok_or (PackUnavailable id) (rg_pack <$> self !! id).
Definition registry_descriptors (self : DomainPackRegistry) : list DomainPackDescriptor :=
  rg_descriptor <$> (sort_by_key fst (map_to_list self)).*2.
(** A registered command is its descriptor, whose schemas the catalog checked. *)
Definition registry_command (self : DomainPackRegistry) (pack_id command_id : string) : PR CommandDescriptor :=
  _ ← validate_id command_id "command";
  catalog ← ok_or (PackUnavailable pack_id) (rg_catalog <$> self !! pack_id);
  index ← ok_or (PackUnknownCommand command_id) (binary_search_by_key cd_id command_id (ca_commands catalog));
  ok_or (PackUnknownCommand command_id) (ca_commands catalog !! index).
Notation validate_value_with_schema := (validate_value_with_schema unicode_lowercase parse_uuid).
Definition validate_payload (self : CommandDescriptor) (value : JsonValue) : PR unit :=
  validate_value_with_schema (cd_payload_schema self) value DEFAULT.
Definition validate_result (self : CommandDescriptor) (value : JsonValue) : PR unit :=
  validate_value_with_schema (cd_result_schema self) value DEFAULT.
Definition validate_change (self : CommandDescriptor) (value : JsonValue) : PR unit :=
  validate_value_with_schema (cd_change_schema self) value DEFAULT.

(** ** Batches *)
Definition validate_header (self : DomainBatchCommand) : PR unit :=
  if negb (db_schema_version self =? DOMAIN_BATCH_SCHEMA_VERSION) then Err (PackUnsupportedVersion (db_schema_version self))
  else if db_scenario_schema_version self =? 0 then Err (PackUnsupportedVersion 0)
  else if (len (db_commands self) =? 0) || (MAX_DOMAIN_BATCH_COMMANDS <? len (db_commands self))
  then Err (PackInvalidPayload "/commands" "batch must contain 1..=1000 commands")
  else if match db_label self with Some label => 1024 <? len (as_bytes label) | None => false end
  then Err (PackInvalidPayload "/label" "batch label exceeds 1024 bytes")
  else for_each (λ command, validate_id (dc_command_type command) "command") (db_commands self).
Definition validate_encoded_size (self : DomainBatchCommand) : PR unit :=
  _ ← bounded_json_size (json_domain_batch self) MAX_SCENARIO_DOCUMENT_BYTES; Ok tt.
Definition validate_bounds (self : DomainBatchCommand) : PR unit :=
  _ ← validate_header self;
  map_err (λ _, PackInvalidPayload "/" "batch serialized size exceeds scenario limit") (validate_encoded_size self).
Definition validate_inverse_bounds (self : DomainBatchCommand) : PR unit :=
  _ ← validate_header self; map_err (λ _, PackBatchInverseTooLarge) (validate_encoded_size self).
End catalogs.
Arguments rg_descriptor {_} _.
Arguments rg_catalog {_} _.
Arguments rg_pack {_} _.
