(* ===== verification/ContractFacts.v ===== *)
(** * Contract checks and registered commands

    What a value must be to conform to a contract schema, keyword by keyword, and that the checks of
    [crates/eutheto-domain-api/src/schema.rs] accept exactly the values that conform.  The checks call
    themselves on parts that are deeper or smaller, and the fuel of their definitions never runs out.  A
    registry that was built finds exactly the commands of its catalogs. *)
From stdpp Require Import base tactics list gmap strings sorting pretty.
From Stdlib Require Import ZArith Lia Ascii.
From S2P Require Import Prelude Ordering Protocol Budget Ids DomainIr Json Portable PortableFacts Scenario Contract.
Import Text.
Open Scope string_scope.
Open Scope list_scope.
Open Scope Z_scope.
Notation PR := (Result DomainPackError).

(** ** Loops with the same bodies *)
Lemma for_each_ext {A} (f g : A → PR unit) l : (∀ a, a ∈ l → f a = g a) → for_each f l = for_each g l.
Proof.
  induction l as [|a l IH]; intros H; [done|]. cbn. rewrite (H a) by left. destruct (g a); [|done]. cbn. apply IH.
  intros b Hb. apply H. by right.
Qed.
Lemma for_each_from_ext {A} (f g : nat → A → PR unit) l i : (∀ i a, f i a = g i a) → for_each_from i f l = for_each_from i g l.
Proof. intros H. revert i. induction l as [|a l IH]; intros i; [done|]. cbn. rewrite H. destruct (g i a); [|done]. apply IH. Qed.
Lemma bind_ok_ext {A B} (m : PR A) (f g : A → PR B) : (∀ a, f a = g a) → m ≫= f = m ≫= g.
Proof. intros H. destruct m; [apply H|done]. Qed.

(** ** Schemas *)
Section schemas.
Context (f g : JsonValue → string → Z → PR unit) (depth : Z).
Hypothesis same : ∀ schema path, f schema path (depth + 1) = g schema path (depth + 1).
Lemma schema_properties_ext object path : validate_schema_properties f object path depth = validate_schema_properties g object path depth.
Proof using same.
  unfold validate_schema_properties. destruct (object_get object "properties"); [|done]. apply bind_ok_ext. intros properties.
  destruct (negb _); [done|]. destruct (match get_array object "required" with Some _ => _ | None => _ end); [done|].
  apply for_each_ext. intros. apply same.
Qed.
Lemma schema_children_ext object path : validate_schema_children f object path depth = validate_schema_children g object path depth.
Proof using same.
  unfold validate_schema_children. destruct (object_get object "additionalProperties"), (object_get object "items");
    rewrite ?same; repeat (apply bind_ok_ext; intros _); (destruct (object_get object "oneOf"); [|done]);
    apply bind_ok_ext; intros options; (case_bool_decide; [done|]); apply for_each_from_ext; intros; apply same.
Qed.
End schemas.
Definition schema_step (f : JsonValue → string → Z → PR unit) (schema : JsonValue) (path : string) (depth : Z) : PR unit :=
  if cl_max_depth ContractJsonLimits_DEFAULT <? depth then invalid path "schema nesting limit exceeded"
  else
    object ← ok_or (invalid_error path "schema must be an object") (as_object schema);
    match List.find (λ key, negb (bool_decide (key ∈ ALLOWED_SCHEMA_KEYWORDS))) object.*1 with
    | Some key => invalid path ("unsupported schema keyword " ++ key)%string
    | None =>
        _ ← validate_schema_type object path;
        _ ← validate_schema_required object path;
        _ ← validate_schema_properties f object path depth;
        _ ← validate_schema_children f object path depth;
        validate_schema_constraints object path
    end.
Lemma schema_step_ext f g depth : (∀ schema path, f schema path (depth + 1) = g schema path (depth + 1)) →
  ∀ schema path, schema_step f schema path depth = schema_step g schema path depth.
Proof.
  intros H schema path. unfold schema_step. destruct (_ <? _); [done|]. apply bind_ok_ext. intros object.
  destruct (List.find _ _); [done|]. do 2 (apply bind_ok_ext; intros _).
  rewrite (schema_properties_ext f g depth H), (schema_children_ext f g depth H). done.
Qed.
Lemma schema_loop_step fuel schema path depth :
  validate_schema_loop (S fuel) schema path depth = schema_step (validate_schema_loop fuel) schema path depth.
Proof. done. Qed.
Lemma schema_loop_fuel fuel : ∀ fuel' depth schema path,
  cl_max_depth ContractJsonLimits_DEFAULT < depth + Z.of_nat fuel → cl_max_depth ContractJsonLimits_DEFAULT < depth + Z.of_nat fuel' →
  validate_schema_loop fuel schema path depth = validate_schema_loop fuel' schema path depth.
Proof.
  induction fuel as [|fuel IH]; intros [|fuel'] depth schema path H H'; [done|..].
  - cbn [validate_schema_loop]. destruct (Z.ltb_spec (cl_max_depth ContractJsonLimits_DEFAULT) depth); [done|lia].
  - cbn [validate_schema_loop]. destruct (Z.ltb_spec (cl_max_depth ContractJsonLimits_DEFAULT) depth); [done|lia].
  - rewrite !schema_loop_step. apply schema_step_ext. intros. apply IH; lia.
Qed.
Lemma schema_unfolds schema path depth : 0 ≤ depth →
  validate_schema_at schema path depth = schema_step validate_schema_at schema path depth.
Proof.
  intros Hd. unfold validate_schema_at at 1. rewrite schema_loop_step. apply schema_step_ext. intros.
  apply schema_loop_fuel; unfold cl_max_depth, ContractJsonLimits_DEFAULT; lia.
Qed.

Lemma bounded_size_Ok v limit n : bounded_json_size v limit = Ok n ↔ n = json_len v ∧ json_len v ≤ limit ∧ json_len v ≤ u64_max.
Proof.
  unfold bounded_json_size. rewrite ok_or_Ok. unfold counter_write. pose proof (json_len_nonneg v).
  unfold u64_checked_add, checked_u64. rewrite Z.add_0_l.
  destruct ((0 <=? json_len v) && (json_len v <=? u64_max)) eqn:E; cbn.
  - apply andb_true_iff in E as [_ E%Z.leb_le]. destruct (Z.leb_spec (json_len v) limit); naive_solver lia.
  - apply andb_false_iff in E as [E%Z.leb_gt|E%Z.leb_gt]; naive_solver lia.
Qed.

(** ** What a value must be to conform *)
(** The integers the contracts know are those of 64 bits. *)
Definition integer_value (value : JsonValue) (n : Z) : Prop := as_integer value = Some n.
Inductive of_kind : string → JsonValue → Prop :=
| kind_object members : of_kind "object" (JObject members)
| kind_array values : of_kind "array" (JArray values)
| kind_string text : of_kind "string" (JString text)
| kind_integer value n : integer_value value n → of_kind "integer" value
| kind_boolean b : of_kind "boolean" (JBool b)
| kind_null : of_kind "null" JNull.
(** A scenario field reference, and the decimal numeral of a difference of two 32-bit numbers. *)
Definition field_reference (text : string) : Prop :=
  text = "/settings" ∨ ∃ rest, text = "/settings/" +:+ rest ∨ text = "/domain/" +:+ rest.
Definition signed_u32_numeral (text : string) : Prop := ∃ sign digits n,
  String.list_ascii_of_string text = sign ++ digits ∧ (sign = [] ∨ sign = ["-"%char]) ∧
  digits ≠ [] ∧ decimal 0 digits = Some n ∧ n < 2 ^ 32 ∧ (head digits = Some "0"%char → text = "0").
(** A pattern is a caret and the text a string must begin with. *)
Definition after_caret (pattern : string) : string := match pattern with String _ prefix => prefix | EmptyString => EmptyString end.
(** A measure of the value lies within the bounds that two keywords declare. *)
Definition measured_within (object : Object) (number : JsonValue → option Z) (lower upper : string) (measure : option Z) : Prop :=
  (∀ bound, object_get object lower = Some bound → ∃ n, measure = Some n ∧ ∀ m, number bound = Some m → m ≤ n) ∧
  (∀ bound, object_get object upper = Some bound → ∃ n, measure = Some n ∧ ∀ m, number bound = Some m → n ≤ m).
(** *** The text formats *)
Lemma as_bytes_eq s : as_bytes s = (λ c, Z.of_N (N_of_ascii c)) <$> String.list_ascii_of_string s.
Proof. unfold as_bytes, string_bytes. by rewrite <-list_fmap_compose. Qed.
Lemma code_inj : Inj (=) (=) (λ c : ascii, Z.of_N (N_of_ascii c)).
Proof. intros c d H%N2Z.inj. by rewrite <-(ascii_N_embedding c), <-(ascii_N_embedding d), H. Qed.
Lemma list_ascii_app a b :
  String.list_ascii_of_string (a +:+ b) = String.list_ascii_of_string a ++ String.list_ascii_of_string b.
Proof. induction a as [|c a IH]; [done|]. exact (f_equal (cons c) IH). Qed.
Lemma list_ascii_inj a b : String.list_ascii_of_string a = String.list_ascii_of_string b → a = b.
Proof. revert b. induction a as [|c a IH]; intros [|d b]; cbn; [done..|]. intros [= -> H]. by rewrite (IH b H). Qed.
Lemma starts_with_iff prefix text :
  starts_with (as_bytes prefix) (as_bytes text) = true ↔ ∃ rest, text = prefix +:+ rest.
Proof.
  unfold starts_with. rewrite bool_decide_eq_true, !as_bytes_eq, length_fmap. pose proof code_inj as Hinj. split.
  - rewrite <-fmap_take. intros H%(inj (fmap _)).
    exists (String.string_of_list_ascii (drop (length (String.list_ascii_of_string prefix)) (String.list_ascii_of_string text))).
    apply list_ascii_inj. rewrite list_ascii_app, String.list_ascii_of_string_of_list_ascii. rewrite <-H at 1. by rewrite take_drop.
  - intros [rest ->]. rewrite list_ascii_app. by rewrite <-fmap_take, take_app_length.
Qed.
Lemma field_reference_iff text : is_scenario_change_path text = true ↔ field_reference text.
Proof.
  unfold is_scenario_change_path, field_reference. rewrite !orb_true_iff, bool_decide_eq_true, !starts_with_iff. naive_solver.
Qed.
Lemma after_caret_iff pattern : String.substring 1 (String.length pattern - 1) pattern = after_caret pattern.
Proof.
  destruct pattern as [|c p]; [done|]. cbn [after_caret String.length String.substring]. rewrite Nat.sub_succ, Nat.sub_0_r.
  induction p as [|d p IH]; [done|]. cbn. by rewrite IH.
Qed.
(** The digits of a numeral after an optional sign. *)
Definition after_sign (l : list ascii) : list ascii :=
  match l with c :: r => if decide (c = "-"%char) then r else l | [] => [] end.
Lemma stripped_sign text :
  default (as_bytes text) (strip_prefix (as_bytes "-") (as_bytes text))
  = (λ c, Z.of_N (N_of_ascii c)) <$> after_sign (String.list_ascii_of_string text).
Proof.
  unfold strip_prefix. rewrite !as_bytes_eq. destruct (String.list_ascii_of_string text) as [|c l]; [done|].
  unfold starts_with, after_sign. cbn [String.list_ascii_of_string fmap list_fmap length take drop]. pose proof code_inj as Hinj.
  destruct (decide (c = "-"%char)) as [->|Hc]; [done|]. rewrite bool_decide_false; [done|].
  intros H. apply Hc, Hinj. by injection H.
Qed.
Lemma decimal_digits l : ∀ acc n, decimal acc l = Some n →
  forallb is_ascii_digit ((λ c, Z.of_N (N_of_ascii c)) <$> l) = true.
Proof.
  induction l as [|c l IH]; intros acc n; [done|]. cbn [decimal]. fold (byte_code c).
  destruct ((48 <=? byte_code c) && (byte_code c <=? 57)) eqn:Hc; [|done]. intros H. cbn [fmap list_fmap forallb].
  apply andb_true_iff. split; [exact Hc|by eapply IH].
Qed.
Lemma decimal_bytes (l : list ascii) :
  ascii_of_N <$> (Z.to_N <$> ((λ c, Z.of_N (N_of_ascii c)) <$> l)) = l.
Proof. induction l as [|c l IH]; [done|]. cbn. by rewrite N2Z.id, ascii_N_embedding, IH. Qed.
Lemma after_sign_digits digits n : decimal 0 digits = Some n → digits ≠ [] → after_sign digits = digits.
Proof. destruct digits as [|c l]; [done|]. cbn. intros H _. destruct (decide (c = "-"%char)) as [->|]; done. Qed.
Lemma delta_iff text : is_signed_u32_delta text = true ↔ signed_u32_numeral text.
Proof.
  unfold is_signed_u32_delta, signed_u32_numeral, parses_u32. rewrite stripped_sign, decimal_bytes.
  set (ds := after_sign (String.list_ascii_of_string text)). rewrite !andb_true_iff, orb_true_iff, !negb_true_iff, andb_true_iff.
  rewrite bool_decide_eq_false, !bool_decide_eq_true.
  assert (starts_with (as_bytes "0") ((λ c, Z.of_N (N_of_ascii c)) <$> ds) = true ↔ head ds = Some "0"%char) as Hz.
  { unfold starts_with. rewrite bool_decide_eq_true. destruct ds as [|c l]; cbn; [done|]. pose proof code_inj as Hinj.
    split; [intros [= H]; by rewrite (Hinj c "0"%char H)|by intros [= ->]]. }
  split.
  - intros (((Hne & Hlead) & _) & Hn). destruct (decimal 0 ds) as [n|] eqn:Hd; [|done].
    assert (∃ sign, String.list_ascii_of_string text = sign ++ ds ∧ (sign = [] ∨ sign = ["-"%char])) as (sign & Hs & Hsign).
    { subst ds. unfold after_sign. destruct (String.list_ascii_of_string text) as [|c l]; [by exists []; auto|].
      destruct (decide (c = "-"%char)) as [->|]; [by exists ["-"%char]; auto|by exists []; auto]. }
    exists sign, ds, n. split_and!; [done|done| |done|lia|].
    + intros Hnil. by rewrite Hnil in Hne.
    + intros Hh%Hz. destruct Hlead as [[_ ?]|Hlead]; [done|]. by rewrite Hh in Hlead.
  - intros (sign & digits & n & Hs & Hsign & Hne & Hd & Hn & Hzero).
    assert (ds = digits) as ->.
    { subst ds. rewrite Hs. destruct Hsign as [->| ->]; [by eapply after_sign_digits|done]. }
    rewrite Hd. split_and!; [| | |lia].
    + by intros Hnil%fmap_nil_inv.
    + destruct (starts_with _ _) eqn:Hlead; [left|by right]. pose proof (Hzero (proj1 Hz eq_refl)) as ->. split; [|done].
      destruct Hsign as [->| ->]; [|done]. cbn in Hs. by rewrite <-Hs.
    + by eapply decimal_digits.
Qed.
Lemma type_matches_iff kind value : type_matches kind value = true ↔ of_kind kind value.
Proof.
  unfold type_matches. split.
  - destruct (bool_decide_reflect (kind = "integer")) as [->|Hk].
    + cbn. intros [n Hn]%bool_decide_eq_true. by eapply kind_integer.
    + repeat case_bool_decide; subst; try done; destruct value; try done; by constructor.
  - intros []; try done. cbn. apply bool_decide_eq_true. by eexists.
Qed.
Lemma contains_key_iff object key : contains_key object key = true ↔ is_Some (object_get object key).
Proof.
  unfold contains_key. rewrite bool_decide_eq_true. induction object as [|[k v] l IH]; cbn.
  - split; [by intros ?%not_elem_of_nil|by intros [? ?]].
  - rewrite elem_of_cons, IH. case_bool_decide; [|naive_solver]. split; [by eexists|by left].
Qed.
Lemma contains_none object key : contains_key object key = false ↔ object_get object key = None.
Proof. by rewrite <-not_true_iff_false, contains_key_iff, eq_None_not_Some. Qed.
(** The check of two bounds on a measure. *)
Lemma within_iff object number lower upper (measure : option Z) e e' :
  let bound key := match object_get object key with Some v => number v | None => None end in
  (if contains_key object lower || contains_key object upper
   then n ← ok_or e measure; if below (bound lower) n || above (bound upper) n then Err e' else Ok tt
   else Ok tt : PR unit) = Ok tt ↔ measured_within object number lower upper measure.
Proof.
  cbv zeta. unfold measured_within. destruct (contains_key object lower || contains_key object upper) eqn:Hk.
  - rewrite result_bind_Ok. split.
    + intros (n & Hn%ok_or_Ok & [Hb _]%guard_Ok). apply orb_false_iff in Hb as [Hlo Hhi].
      split; intros bound Hbound; rewrite Hbound in *; exists n; (split; [done|]); intros m Hm; rewrite Hm in *; cbn in *; lia.
    + intros [Hlo Hhi]. assert (∃ n, measure = Some n) as [n ->].
      { apply orb_true_iff in Hk as [[b Hb]%contains_key_iff|[b Hb]%contains_key_iff];
          [destruct (Hlo b Hb) as (n & ? & _)|destruct (Hhi b Hb) as (n & ? & _)]; by exists n. }
      exists n. split; [done|]. apply guard_Ok. split; [|done]. apply orb_false_iff. split.
      * destruct (object_get object lower) as [b|] eqn:Eb; [|done]. destruct (Hlo b eq_refl) as (n' & [= <-] & H).
        destruct (number b) as [m|]; [|done]. specialize (H m eq_refl). cbn. lia.
      * destruct (object_get object upper) as [b|] eqn:Eb; [|done]. destruct (Hhi b eq_refl) as (n' & [= <-] & H).
        destruct (number b) as [m|]; [|done]. specialize (H m eq_refl). cbn. lia.
  - apply orb_false_iff in Hk as [->%contains_none ->%contains_none]. naive_solver.
Qed.
Lemma get_str_Some object key text : get_str object key = Some text ↔ object_get object key = Some (JString text).
Proof. unfold get_str. destruct (object_get object key) as [[]|]; cbn; naive_solver. Qed.
Lemma get_array_Some object key values : get_array object key = Some values ↔ object_get object key = Some (JArray values).
Proof. unfold get_array. destruct (object_get object key) as [[]|]; cbn; naive_solver. Qed.
Lemma as_str_Some value text : as_str value = Some text ↔ value = JString text.
Proof. destruct value; cbn; naive_solver. Qed.
(** A check of a declared string format. *)
Lemma format_iff object value name (test : string → bool) path message :
  (if bool_decide (get_str object "format" = Some name)
      && negb (match as_str value with Some text => test text | None => false end)
   then invalid path message else Ok tt : PR unit) = Ok tt ↔
  (object_get object "format" = Some (JString name) → ∃ text, value = JString text ∧ test text = true).
Proof.
  unfold invalid. rewrite guard_Ok, andb_false_iff, bool_decide_eq_false, negb_false_iff, get_str_Some.
  assert ((match as_str value with Some text => test text | None => false end) = true ↔
          ∃ text, value = JString text ∧ test text = true) as -> by (destruct value; naive_solver).
  destruct (decide (get_str object "format" = Some name)) as [H|H]; rewrite get_str_Some in H; naive_solver.
Qed.
(** Exactly one element of a list satisfies a predicate. *)
Lemma filter_one {A} (P : A → Prop) `{!∀ x, Decision (P x)} l :
  length (filter P l) = 1%nat ↔ ∃ i x, l !! i = Some x ∧ P x ∧ ∀ j y, l !! j = Some y → P y → j = i.
Proof.
  assert (∀ l, length (filter P l) = 0%nat ↔ ∀ j y, l !! j = Some y → ¬ P y) as H0.
  { clear l. intros l. rewrite length_zero_iff_nil. split.
    - intros Hl j y Hy HP. eapply not_elem_of_nil. rewrite <-Hl. apply list_elem_of_filter. split; [done|]. by eapply list_elem_of_lookup_2.
    - intros Hno. induction l as [|x l IH]; [done|]. rewrite filter_cons_False by (by apply (Hno 0%nat)). apply IH.
      intros j. apply (Hno (S j)). }
  induction l as [|x l IH]; [split; [done|]; by intros (i & x & ? & _)|]. destruct (decide (P x)) as [HP|HP].
  - rewrite filter_cons_True by done. cbn [length]. split.
    + intros [= Hl]. exists 0%nat, x. split_and!; [done..|]. intros [|j] y Hy Py; [done|]. by destruct (proj1 (H0 l) Hl j y Hy).
    + intros (i & y & Hi & Py & Hu). f_equal. apply H0. intros j z Hz Pz.
      pose proof (Hu 0%nat x eq_refl HP). pose proof (Hu (S j) z Hz Pz). lia.
  - rewrite filter_cons_False by done. rewrite IH. split.
    + intros (i & y & Hi & Py & Hu). exists (S i), y. split_and!; [done..|]. intros [|j] z Hz Pz; [by simplify_eq/=|]. f_equal. by eapply Hu.
    + intros ([|i] & y & Hi & Py & Hu); [by simplify_eq/=|]. exists i, y. split_and!; [done..|]. intros j z Hz Pz.
      pose proof (Hu (S j) z Hz Pz). lia.
Qed.

Lemma const_iff object value path :
  (match object_get object "const" with
   | Some expected => if json_eqb value expected then Ok tt else invalid path "value does not match const"
   | None => Ok tt
   end : PR unit) = Ok tt ↔ ∀ expected, object_get object "const" = Some expected → json_eqb value expected = true.
Proof.
  destruct (object_get object "const") as [expected|]; [|done]. destruct (json_eqb value expected) eqn:E; split; try done.
  - by intros _ ? [= <-].
  - intros H. by rewrite (H expected eq_refl) in E.
Qed.
Lemma type_iff object value path :
  (match get_str object "type" with
   | Some kind => if type_matches kind value then Ok tt else invalid path ("expected " ++ kind)%string
   | None => Ok tt
   end : PR unit) = Ok tt ↔ ∀ kind, object_get object "type" = Some (JString kind) → of_kind kind value.
Proof.
  setoid_rewrite <-get_str_Some. setoid_rewrite <-type_matches_iff. destruct (get_str object "type") as [kind|]; [|done].
  destruct (type_matches kind value) eqn:E; split; try done.
  - by intros _ ? [= <-].
  - intros H. by rewrite (H kind eq_refl) in E.
Qed.
Lemma pattern_iff object value path :
  (match get_str object "pattern" with
   | Some pattern =>
       let prefix := String.substring 1 (String.length pattern - 1) pattern in
       if match as_str value with Some text => starts_with (as_bytes prefix) (as_bytes text) | None => false end then Ok tt
       else invalid path ("expected prefix " ++ prefix)%string
   | None => Ok tt
   end : PR unit) = Ok tt ↔
  ∀ pattern, object_get object "pattern" = Some (JString pattern) → ∃ rest, value = JString (after_caret pattern +:+ rest).
Proof.
  setoid_rewrite <-get_str_Some. destruct (get_str object "pattern") as [pattern|]; [|done]. cbv zeta. rewrite after_caret_iff.
  pose proof (starts_with_iff (after_caret pattern)) as Hs. destruct value as [| | |text| |]; cbn [as_str].
  4: { specialize (Hs text). destruct (starts_with _ _); split; try done.
    - intros _ ? [= <-]. destruct (proj1 Hs eq_refl) as [rest ->]. by exists rest.
    - intros H. destruct (H pattern eq_refl) as [rest [= ->]]. by discriminate (proj2 Hs (ex_intro _ rest eq_refl)). }
  all: split; [done|]; intros H; by destruct (H pattern eq_refl).
Qed.
Lemma lengths_iff object value path :
  validate_length_constraints object value path = Ok tt ↔
  measured_within object as_u64 "minLength" "maxLength" ((λ text, len (chars text)) <$> as_str value) ∧
  measured_within object as_u64 "minItems" "maxItems" (len <$> as_array value).
Proof.
  unfold validate_length_constraints. rewrite unit_bind_Ok.
  rewrite <-(within_iff object as_u64 "minLength" "maxLength" _ (invalid_error path "expected bounded string")
    (invalid_error path "string is outside declared length bounds")).
  rewrite <-(within_iff object as_u64 "minItems" "maxItems" _ (invalid_error path "expected bounded array")
    (invalid_error path "array is outside declared length bounds")).
  by destruct value.
Qed.
Lemma for_each_from_Ok {A} (g : nat → A → PR unit) (P : A → Prop) l : (∀ i a, g i a = Ok tt ↔ P a) →
  ∀ k, for_each_from k g l = Ok tt ↔ Forall P l.
Proof.
  intros Hg. induction l as [|a l IH]; intros k; cbn [for_each_from]; [split; [constructor|done]|].
  by rewrite unit_bind_Ok, Forall_cons, IH, Hg.
Qed.
Section body.
Context (f : JsonValue → JsonValue → string → Z → ContractJsonLimits → PR unit) (sub : JsonValue → JsonValue → Prop).
Context (depth : Z) (limits : ContractJsonLimits).
Hypothesis Hsub : ∀ schema value path, f schema value path (depth + 1) limits = Ok tt ↔ sub schema value.
Lemma one_of_iff object value path :
  (match get_array object "oneOf" with
   | Some options =>
       if len (filter (λ option, is_ok (f option value path (depth + 1) limits) = true) options) =? 1
       then Ok tt else invalid path "value must match exactly one oneOf branch"
   | None => Ok tt
   end : PR unit) = Ok tt ↔
  ∀ options, object_get object "oneOf" = Some (JArray options) →
    ∃ i option, options !! i = Some option ∧ sub option value ∧ ∀ j other, options !! j = Some other → sub other value → j = i.
Proof using Hsub.
  assert (∀ option, is_ok (f option value path (depth + 1) limits) = true ↔ sub option value) as Hok.
  { intros option. rewrite <-(Hsub option value path). by destruct (f _ _ _ _ _) as [[]|]. }
  destruct (get_array object "oneOf") as [options|] eqn:E.
  - apply get_array_Some in E. rewrite E. setoid_rewrite <-Hok.
    assert (len (filter (λ option, is_ok (f option value path (depth + 1) limits) = true) options) =? 1 = true ↔
      length (filter (λ option, is_ok (f option value path (depth + 1) limits) = true) options) = 1%nat) as Hl
      by (unfold len; rewrite Z.eqb_eq; lia).
    rewrite filter_one in Hl. destruct (_ =? 1); split; try done.
    + intros _ ? [= <-]. by apply Hl.
    + intros H. by discriminate (proj2 Hl (H options eq_refl)).
  - split; [|done]. intros _ options H%get_array_Some. by rewrite E in H.
Qed.
Lemma members_iff object members path :
  validate_object f object members path depth limits = Ok tt ↔
  len members ≤ cl_max_collection_items limits ∧
  (∀ names name, object_get object "required" = Some (JArray names) → JString name ∈ names → name ∈ members.*1) ∧
  (∀ properties name child item, object_get object "properties" = Some (JObject properties) →
     object_get properties name = Some child → (name, item) ∈ members → sub child item) ∧
  (∀ schema name item, object_get object "additionalProperties" = Some schema →
     (∀ properties, object_get object "properties" = Some (JObject properties) → object_get properties name = None) →
     (name, item) ∈ members →
     match schema with JBool allowed => allowed = true | JObject _ => sub schema item | _ => False end).
Proof using Hsub.
  unfold validate_object, invalid. rewrite guard_Ok, Z.ltb_ge, unit_bind_Ok, for_each_Ok, Forall_forall.
  apply and_iff_compat_l. assert (∀ P Q R S : Prop, (P ↔ Q) → (R ↔ S) → (P ∧ R ↔ Q ∧ S)) as Hand by tauto. apply Hand; clear Hand.
  - destruct (get_array object "required") as [names|] eqn:E.
    + apply get_array_Some in E. rewrite E, for_each_Ok, Forall_forall. split.
      * intros H ? name [= <-] Hname. specialize (H name ltac:(apply list_elem_of_omap; by exists (JString name))).
        destruct (contains_key members name) eqn:Hc; [|done]. unfold contains_key in Hc. by apply bool_decide_eq_true in Hc.
      * intros H name (v & Hv & ->%as_str_Some)%list_elem_of_omap. unfold contains_key.
        rewrite bool_decide_true; [done|]. by apply (H names name).
    + split; [|done]. intros _ names name H%get_array_Some. by rewrite E in H.
  - unfold get_object. split.
    + intros H. split.
      * intros properties name child item Hp Hc Hin. specialize (H _ Hin). cbn in H. rewrite Hp in H. cbn [as_object] in H. rewrite Hc in H.
        by apply Hsub in H.
      * intros schema name item Ha Hno Hin. specialize (H _ Hin). cbn in H. rewrite Ha in H.
        destruct (object_get object "properties") as [[| | | | |properties]|] eqn:Hp; cbn [as_object] in H;
          try rewrite (Hno _ eq_refl) in H; destruct schema as [|[]| | | |]; try done; by apply Hsub in H.
    + intros [Hc Ha] [name item] Hin.
      assert (∀ x, (∀ properties, object_get object "properties" = Some (JObject properties) → object_get properties name = None) →
        x = match object_get object "additionalProperties" with
            | Some (JBool false) => invalid path ("unknown property " ++ name)%string
            | Some (JObject o) => f (JObject o) item (path ++ "/" ++ name)%string (depth + 1) limits
            | Some (JBool true) | None => Ok tt
            | Some _ => invalid path "invalid additionalProperties schema"
            end → x = Ok tt) as Hrest.
      { intros x Hno ->. destruct (object_get object "additionalProperties") as [schema|]; [|done].
        specialize (Ha schema name item eq_refl Hno Hin). destruct schema as [|[]| | | |]; try done. by apply Hsub. }
      destruct (object_get object "properties") as [[| | | | |properties]|] eqn:Hp; cbn [as_object];
        try (by apply Hrest; [by intros ? ?|]).
      destruct (object_get properties name) as [child|] eqn:Hch; [apply Hsub; by eapply Hc|].
      apply Hrest; [|done]. by intros ? [= <-].
Qed.
Lemma elements_iff object value path :
  (match as_array value with
   | Some values =>
       if cl_max_collection_items limits <? len values then invalid path "collection limit exceeded"
       else match object_get object "items" with
            | Some items =>
                for_each_from 0 (λ index item, f items item (path ++ "/" ++ pretty (N.of_nat index))%string (depth + 1) limits) values
            | None => Ok tt
            end
   | None => Ok tt
   end : PR unit) = Ok tt ↔
  (∀ values, value = JArray values → len values ≤ cl_max_collection_items limits) ∧
  (∀ items values item, object_get object "items" = Some items → value = JArray values → item ∈ values → sub items item).
Proof using Hsub.
  destruct value as [| | | |values|]; cbn [as_array]; try (split; [by split|done]).
  unfold invalid. rewrite guard_Ok, Z.ltb_ge. split.
  - intros [Hl H]. split; [by intros ? [= <-]|]. intros items ? item Hi [= <-] Hin. rewrite Hi in H.
    rewrite (for_each_from_Ok _ (sub items)) in H by (intros; apply Hsub). rewrite Forall_forall in H. by apply H.
  - intros [Hl H]. split; [by apply Hl|]. destruct (object_get object "items") as [items|]; [|done].
    rewrite (for_each_from_Ok _ (sub items)) by (intros; apply Hsub). apply Forall_forall. intros item Hin. by eapply H.
Qed.
End body.

(** ** Values *)
Section values.
Context (unicode_lowercase : Z → list Z) (parse_uuid : string → option (string * Z)).
Section value_ext.
Context (f g : JsonValue → JsonValue → string → Z → ContractJsonLimits → PR unit) (depth : Z) (limits : ContractJsonLimits).
Hypothesis same : ∀ schema value path, f schema value path (depth + 1) limits = g schema value path (depth + 1) limits.
Lemma object_ext schema values path : validate_object f schema values path depth limits = validate_object g schema values path depth limits.
Proof using same.
  unfold validate_object. destruct (_ <? _); [done|]. apply bind_ok_ext. intros _. apply for_each_ext. intros [name item] _.
  destruct (match get_object schema "properties" with Some _ => _ | None => _ end); [apply same|].
  destruct (object_get schema "additionalProperties") as [[]|]; (done || apply same).
Qed.
Lemma body_ext schema value path :
  validate_value_body parse_uuid f schema value path depth limits = validate_value_body parse_uuid g schema value path depth limits.
Proof using same.
  unfold validate_value_body. do 2 (apply bind_ok_ext; intros ?).
  match goal with |- ?m ≫= _ = ?m' ≫= _ => assert (m = m') as -> end.
  { destruct (get_array _ _) as [options|]; [|done].
    rewrite (list_filter_iff _ (λ option, is_ok (g option value path (depth + 1) limits) = true)); [done|]. intros option. by rewrite same. }
  do 8 (apply bind_ok_ext; intros ?).
  match goal with |- ?m ≫= _ = ?m' ≫= _ => assert (m = m') as -> end.
  { destruct (as_object value); [apply object_ext|done]. }
  apply bind_ok_ext; intros _. destruct (as_array value); [|done]. destruct (_ <? _); [done|].
  destruct (object_get _ _); [|done]. apply for_each_from_ext. intros. apply same.
Qed.
End value_ext.
Definition value_step (f : JsonValue → JsonValue → string → Z → ContractJsonLimits → PR unit) (schema value : JsonValue) (path : string)
    (depth : Z) (limits : ContractJsonLimits) : PR unit :=
  if cl_max_depth limits <? depth then invalid path "value nesting limit exceeded"
  else validate_value_body parse_uuid f schema value path depth limits.
Lemma value_loop_fuel limits fuel : ∀ fuel' depth schema value path,
  cl_max_depth limits < depth + Z.of_nat fuel → cl_max_depth limits < depth + Z.of_nat fuel' →
  validate_value_loop parse_uuid fuel schema value path depth limits = validate_value_loop parse_uuid fuel' schema value path depth limits.
Proof.
  induction fuel as [|fuel IH]; intros [|fuel'] depth schema value path H H'; [done|..]; cbn [validate_value_loop];
    (destruct (Z.ltb_spec (cl_max_depth limits) depth); [done|]); [lia|lia|].
  apply body_ext. intros. apply IH; lia.
Qed.
Lemma value_unfolds limits schema value path depth : 0 ≤ depth → 0 ≤ cl_max_depth limits →
  validate_value_at parse_uuid schema value path depth limits
  = value_step (validate_value_at parse_uuid) schema value path depth limits.
Proof.
  intros Hd Hl. unfold validate_value_at at 1, value_step. cbn [validate_value_loop]. destruct (_ <? _); [done|].
  apply body_ext. intros. apply value_loop_fuel; lia.
Qed.

(** ** Scrubbed copies *)
Definition scrub_step (limits : ContractJsonLimits) (scrub : JsonValue → JsonValue → JsonValue → JsonValue)
    (schema original safe : JsonValue) : JsonValue :=
  if bool_decide (match value_get schema "format" with Some v => as_str v | None => None end = Some "scenario-change-path")
     && match as_str original with Some text => is_scenario_change_path text | None => false end
  then JString "scenario-field-reference"
  else if match (match value_get schema "pattern" with Some v => as_str v | None => None end) with
          | Some pattern => starts_with (lit "^/domain/") (as_bytes pattern)
          | None => false
          end && is_string original
  then JString "domain-field-reference"
  else
    let safe := scrub_union parse_uuid scrub limits schema original safe in
    let safe := scrub_properties scrub schema original safe in
    scrub_items scrub schema original safe.
Lemma member_nodes schema key v : value_get schema key = Some v → json_nodes v < json_nodes schema.
Proof.
  unfold value_get. destruct schema as [| | | | |entries]; try done. cbn [as_object]. intros Hv%object_get_Some. cbn [json_nodes].
  pose proof (sum_of_elem entry_nodes _ _ ltac:(intros [? w]; pose proof (json_nodes_pos w); cbn; lia) Hv) as H.
  fold entry_nodes. change (entry_nodes (key, v)) with (json_nodes v) in H. lia.
Qed.
Lemma element_nodes v values : v ∈ values → json_nodes v < json_nodes (JArray values).
Proof.
  intros Hv. cbn [json_nodes]. pose proof (sum_of_elem json_nodes _ _ ltac:(intros w; pose proof (json_nodes_pos w); lia) Hv). lia.
Qed.
Section scrub_ext.
Context (limits : ContractJsonLimits) (f g : JsonValue → JsonValue → JsonValue → JsonValue) (schema : JsonValue).
Hypothesis same : ∀ child original safe, json_nodes child < json_nodes schema → f child original safe = g child original safe.
Lemma union_ext original safe : scrub_union parse_uuid f limits schema original safe = scrub_union parse_uuid g limits schema original safe.
Proof using same.
  unfold scrub_union. destruct (value_get schema "oneOf") as [[| | | |options|]|] eqn:E; try done. cbn [as_array].
  destruct (List.find _ options) as [branch|] eqn:Ef; [|done]. apply find_some in Ef as [Hin _]. apply same.
  apply list_elem_of_In in Hin. pose proof (element_nodes _ _ Hin). pose proof (member_nodes _ _ _ E). lia.
Qed.
Lemma properties_ext original safe : scrub_properties f schema original safe = scrub_properties g schema original safe.
Proof using same.
  unfold scrub_properties. destruct (value_get schema "properties") as [[| | | | |properties]|] eqn:E; try done. cbn [as_object].
  destruct original; try done. destruct safe; try done. f_equal. apply list_fmap_ext. intros i [key safe_item] _.
  destruct (object_get _ key); [|done]. destruct (object_get properties key) as [child|] eqn:Ec.
  - rewrite same; [done|]. pose proof (member_nodes (JObject properties) key child Ec). pose proof (member_nodes _ _ _ E). lia.
  - destruct (value_get schema "additionalProperties") as [child|] eqn:Ea; [|done]. rewrite same; [done|]. by eapply member_nodes.
Qed.
Lemma items_ext original safe : scrub_items f schema original safe = scrub_items g schema original safe.
Proof using same.
  unfold scrub_items. destruct (value_get schema "items") as [items|] eqn:E; [|done]. destruct original as [| | | |values|]; try done.
  destruct safe as [| | | |safe|]; try done. f_equal. f_equal. clear -same E. revert safe.
  induction values as [|v values IH]; intros [|s safe]; try done. cbn. rewrite same by (by eapply member_nodes). by rewrite IH.
Qed.
Lemma scrub_step_ext original safe : scrub_step limits f schema original safe = scrub_step limits g schema original safe.
Proof using same. unfold scrub_step. by rewrite union_ext, properties_ext, items_ext. Qed.
End scrub_ext.
Lemma scrub_loop_fuel limits fuel : ∀ fuel' schema original safe,
  json_nodes schema ≤ Z.of_nat fuel → json_nodes schema ≤ Z.of_nat fuel' →
  scrub_loop parse_uuid fuel limits schema original safe = scrub_loop parse_uuid fuel' limits schema original safe.
Proof.
  induction fuel as [|fuel IH]; intros [|fuel'] schema original safe H H'; pose proof (json_nodes_pos schema); [done|lia|lia|].
  change (scrub_step limits (scrub_loop parse_uuid fuel limits) schema original safe
          = scrub_step limits (scrub_loop parse_uuid fuel' limits) schema original safe).
  apply scrub_step_ext. intros. apply IH; lia.
Qed.
(** [scrub_json_pointers] of any copy. *)
Definition scrubbed (limits : ContractJsonLimits) (schema original safe : JsonValue) : JsonValue :=
  scrub_loop parse_uuid (Z.to_nat (json_nodes schema)) limits schema original safe.
Lemma scrub_unfolds limits schema original safe :
  scrubbed limits schema original safe = scrub_step limits (scrubbed limits) schema original safe.
Proof.
  unfold scrubbed at 1. pose proof (json_nodes_pos schema).
  replace (Z.to_nat (json_nodes schema)) with (S (Z.to_nat (json_nodes schema - 1))) by lia.
  change (scrub_step limits (scrub_loop parse_uuid (Z.to_nat (json_nodes schema - 1)) limits) schema original safe
          = scrub_step limits (scrubbed limits) schema original safe).
  apply scrub_step_ext. intros child o s Hc. pose proof (json_nodes_pos child). apply scrub_loop_fuel; lia.
Qed.

(** ** Conformance *)
(** What each keyword of an object schema asks of a value; [sub] is conformance to a schema inside it. *)
Record conforms_at (sub : JsonValue → JsonValue → Prop) (limits : ContractJsonLimits) (object : Object) (value : JsonValue) : Prop := {
  cf_const expected : object_get object "const" = Some expected → json_eqb value expected = true;
  cf_one_of options : object_get object "oneOf" = Some (JArray options) →
    ∃ i option, options !! i = Some option ∧ sub option value ∧
      ∀ j other, options !! j = Some other → sub other value → j = i;
  cf_type kind : object_get object "type" = Some (JString kind) → of_kind kind value;
  cf_uuid : object_get object "format" = Some (JString "uuid") →
    ∃ text id, value = JString text ∧ parse_uuid text = Some id;
  cf_reference : object_get object "format" = Some (JString "scenario-change-path") →
    ∃ text, value = JString text ∧ field_reference text;
  cf_delta : object_get object "format" = Some (JString "signed-u32-delta") →
    ∃ text, value = JString text ∧ signed_u32_numeral text;
  cf_pattern pattern : object_get object "pattern" = Some (JString pattern) →
    ∃ rest, value = JString (after_caret pattern +:+ rest);
  cf_range : measured_within object as_i64 "minimum" "maximum" (as_integer value);
  cf_length : measured_within object as_u64 "minLength" "maxLength" ((λ text, len (chars text)) <$> as_str value);
  cf_count : measured_within object as_u64 "minItems" "maxItems" (len <$> as_array value);
  cf_object_size members : value = JObject members → len members ≤ cl_max_collection_items limits;
  cf_required names name members : object_get object "required" = Some (JArray names) → JString name ∈ names →
    value = JObject members → name ∈ members.*1;
  cf_property properties name child members item : object_get object "properties" = Some (JObject properties) →
    object_get properties name = Some child → value = JObject members → (name, item) ∈ members → sub child item;
  cf_additional schema name members item : object_get object "additionalProperties" = Some schema →
    (∀ properties, object_get object "properties" = Some (JObject properties) → object_get properties name = None) →
    value = JObject members → (name, item) ∈ members →
    match schema with JBool allowed => allowed = true | JObject _ => sub schema item | _ => False end;
  cf_array_size values : value = JArray values → len values ≤ cl_max_collection_items limits;
  cf_items items values item : object_get object "items" = Some items → value = JArray values → item ∈ values → sub items item
}.
(** Conformance with [levels] of nesting left. *)
Fixpoint conforms (limits : ContractJsonLimits) (levels : nat) (schema value : JsonValue) : Prop :=
  match levels with
  | O => False
  | S levels => ∃ object, schema = JObject object ∧ conforms_at (conforms limits levels) limits object value
  end.

Lemma body_iff f sub depth limits :
  (∀ schema value path, f schema value path (depth + 1) limits = Ok tt ↔ sub schema value) → ∀ object value path,
  validate_value_body parse_uuid f (JObject object) value path depth limits = Ok tt ↔ conforms_at sub limits object value.
Proof using.
  intros Hsub object value path. unfold validate_value_body. rewrite result_bind_Ok.
  assert (∀ P : Object → Prop, (∃ o, ok_or (invalid_error path "schema must be an object") (as_object (JObject object)) = Ok o ∧ P o) ↔ P object)
    as -> by (intros P; split; [by intros (o & [= <-] & ?)|by exists object]).
  rewrite !unit_bind_Ok, const_iff, (one_of_iff f sub depth limits Hsub), type_iff, pattern_iff, lengths_iff,
    (elements_iff f sub depth limits Hsub).
  rewrite (format_iff object value "uuid" (λ text, bool_decide (is_Some (parse_uuid text)))).
  rewrite (format_iff object value "scenario-change-path"), (format_iff object value "signed-u32-delta").
  setoid_rewrite field_reference_iff. setoid_rewrite delta_iff. setoid_rewrite bool_decide_eq_true.
  change (get_i64 object "minimum") with (match object_get object "minimum" with Some v => as_i64 v | None => None end).
  change (get_i64 object "maximum") with (match object_get object "maximum" with Some v => as_i64 v | None => None end).
  unfold invalid at 1. rewrite within_iff.
  assert ((match as_object value with Some values => validate_object f object values path depth limits | None => Ok tt end) = Ok tt ↔
    ∀ members, value = JObject members → validate_object f object members path depth limits = Ok tt) as ->.
  { destruct value; cbn; split; try done; [by intros ? ? [= <-]|by intros H; apply H]. }
  setoid_rewrite (members_iff f sub depth limits Hsub). split.
  - intros (H1 & H2 & H3 & H4 & H5 & H6 & H7 & H8 & [H9 H10] & H11 & H12 & H13). split; try done.
    + intros Hu. destruct (H4 Hu) as (text & -> & [id Hid]). by exists text, id.
    + intros members Hm. by apply H11.
    + intros names name members Hr Hn Hm. by eapply H11.
    + intros properties name child members item Hp Hc Hm Hin. destruct (H11 members Hm) as (_ & _ & H & _). by eapply H.
    + intros schema name members item Ha Hno Hm Hin. destruct (H11 members Hm) as (_ & _ & _ & H). by eapply H.
  - intros [H1 H2 H3 H4 H5 H6 H7 H8 H9 H10 H11 H12 H13 H14 H15 H16]. split_and!; try done.
    + intros Hu. destruct (H4 Hu) as (text & id & -> & Hid). exists text. split; [done|by exists id].
    + intros members Hm. split_and!; [by apply H11| | |].
      * intros names name Hr Hn. by eapply H12.
      * intros properties name child item Hp Hc Hin. by eapply H13.
      * intros schema name item Ha Hno Hin. by eapply H14.
Qed.
Lemma conforms_iff limits levels : 0 ≤ cl_max_depth limits → ∀ schema value path depth, 0 ≤ depth →
  Z.of_nat levels = cl_max_depth limits + 1 - depth →
  validate_value_at parse_uuid schema value path depth limits = Ok tt ↔ conforms limits levels schema value.
Proof using.
  intros Hl. induction levels as [|levels IH]; intros schema value path depth Hd Hlv; rewrite value_unfolds by done; unfold value_step, invalid.
  - destruct (Z.ltb_spec (cl_max_depth limits) depth); [done|lia].
  - destruct (Z.ltb_spec (cl_max_depth limits) depth); [lia|]. cbn [conforms].
    assert ((∃ object, schema = JObject object) ∨ ∀ object, schema ≠ JObject object) as [[object ->]|Hno]
      by (destruct schema; (by right) || (left; by eexists)).
    + rewrite (body_iff _ (conforms limits levels)) by (intros; apply IH; lia).
      split; [by exists object|by intros (o & [= <-] & ?)].
    + split; [|by intros (o & -> & _); destruct (Hno o)]. destruct schema; try done. by destruct (Hno entries).
Qed.
Definition typed_contract_limits (limits : ContractJsonLimits) : Prop :=
  0 ≤ cl_max_serialized_bytes limits ≤ u64_max ∧ 0 ≤ cl_max_depth limits < u64_max ∧
  0 ≤ cl_max_string_bytes limits ≤ u64_max ∧ 0 ≤ cl_max_collection_items limits ≤ u64_max.
Definition portable_limits (limits : ContractJsonLimits) : PortableJsonLimits :=
  {| max_depth := cl_max_depth limits; max_string_bytes := cl_max_string_bytes limits;
     max_collection_items := cl_max_collection_items limits |}.
Lemma sized_iff limits value (k : PR unit) : typed_contract_limits limits →
  (bounded_json_size value (cl_max_serialized_bytes limits) ≫= λ _, k) = Ok tt ↔
  json_len value ≤ cl_max_serialized_bytes limits ∧ k = Ok tt.
Proof using.
  intros (Hb & _). rewrite result_bind_Ok. setoid_rewrite bounded_size_Ok. split.
  - by intros (n & (_ & ? & _) & ?).
  - intros [Hle Hk]. exists (json_len value). split_and!; [done|done|lia|done].
Qed.

(** C31. The checks of untrusted values against a contract schema accept exactly the values that
    conform. A value passes [validate_contract_value] exactly when the schema is a valid contract
    schema, the compact text of the value is within the byte limit, its copy with placeholders at
    the declared field references is portable JSON without secrets, and the value conforms to the
    schema: it equals the constant, matches exactly one of the alternatives, has the declared kind,
    format, prefix, range and lengths, has every required property, and its properties, additional
    properties and elements conform to their own schemas in turn, within the nesting and collection
    limits. [validate_query_parameters] asks the same of a value whose structure is within the query
    limits, without the portability rules. *)
Theorem accepted_values_conform limits schema value : typed_contract_limits limits →
  let levels := S (Z.to_nat (cl_max_depth limits)) in
  (validate_contract_value unicode_lowercase parse_uuid schema value limits = Ok tt ↔
     validate_contract_schema schema = Ok tt ∧ json_len value ≤ cl_max_serialized_bytes limits ∧
     portable_value unicode_lowercase (portable_limits limits) (scrub_json_pointers parse_uuid schema value limits) ∧
     conforms limits levels schema value) ∧
  (validate_query_parameters parse_uuid schema value limits = Ok tt ↔
     validate_contract_schema schema = Ok tt ∧ validate_query_structure limits value 0 = Ok tt ∧
     json_len value ≤ cl_max_serialized_bytes limits ∧ conforms limits levels schema value).
Proof.
  intros Hl levels. pose proof Hl as (_ & Hd & Hs & Hc).
  unfold validate_contract_value, validate_value_with_schema, validate_query_parameters.
  rewrite !unit_bind_Ok, !sized_iff, unit_bind_Ok, map_err_Ok by done.
  rewrite (portable_admitted unicode_lowercase (portable_limits limits)) by done.
  by rewrite (conforms_iff limits levels) by lia.
Qed.
End values.

(** ** The registry *)
Section registry.
Context (unicode_lowercase : Z → list Z) (parse_uuid : string → option (string * Z)).
Context {Pack : Type} (pack_descriptor : Pack → PR DomainPackDescriptor) (pack_catalog : Pack → PR DomainCatalog).
Lemma unique_steps kind l : ∀ seen previous state,
  fold_m (unique_ids_step kind) (seen, previous) l = Ok state →
  strictly_sorted l = true ∧ match l, previous with v :: _, Some prior => ltb prior v = true | _, _ => True end.
Proof.
  induction l as [|v l IH]; intros seen previous state H; [done|]. cbn [fold_m] in H.
  apply result_bind_Ok in H as (state1 & H1 & H2). unfold unique_ids_step in H1. case_bool_decide; [done|].
  destruct (match previous with Some _ => _ | None => _ end) eqn:Ep; [done|]. injection H1 as <-.
  destruct (IH _ _ _ H2) as [Hs Hv]. split.
  - destruct l as [|w l]; [done|]. change (ltb v w && strictly_sorted (w :: l) = true). by rewrite Hv, Hs.
  - destruct previous; [|done]. by apply negb_false_iff in Ep.
Qed.
Lemma unique_ids_sorted values kind : unique_ids values kind = Ok tt → strictly_sorted values = true.
Proof. intros (state & H & _)%result_bind_Ok. by destruct (unique_steps _ _ _ _ _ H). Qed.
Lemma sorted_by_fmap {A} (key : A → string) l : strictly_sorted (key <$> l) = strictly_sorted_by key l.
Proof.
  induction l as [|x l IH]; [done|]. destruct l as [|y l]; [done|].
  change (ltb (key x) (key y) && strictly_sorted (key <$> y :: l) = ltb (key x) (key y) && strictly_sorted_by key (y :: l)). by rewrite IH.
Qed.
Definition registered (packs : list Pack) (id : string) (r : Registration) : Prop :=
  rg_pack r ∈ packs ∧ pack_descriptor (rg_pack r) = Ok (rg_descriptor r) ∧ pack_catalog (rg_pack r) = Ok (rg_catalog r) ∧
  pd_id (rg_descriptor r) = id ∧ DomainPackDescriptor_validate (rg_descriptor r) = Ok tt ∧
  DomainCatalog_validate unicode_lowercase parse_uuid (rg_catalog r) = Ok tt ∧ catalog_agrees (rg_descriptor r) (rg_catalog r) = true.
Lemma built_from packs : ∀ registry registry', fold_m (register_pack unicode_lowercase parse_uuid pack_descriptor pack_catalog) registry packs = Ok registry' →
  size registry' = (size registry + length packs)%nat ∧
  ∀ id r, registry' !! id = Some r → registry !! id = Some r ∨ registered packs id r.
Proof.
  induction packs as [|pack packs IH]; intros registry registry' H; cbn [fold_m] in H; [injection H as <-; split; [cbn; lia|auto]|].
  apply result_bind_Ok in H as (registry1 & H1 & H2). unfold register_pack in H1.
  apply result_bind_Ok in H1 as (descriptor & Hd & H1). apply result_bind_Ok in H1 as ([] & Hvd & H1).
  apply result_bind_Ok in H1 as (catalog & Hc & H1). apply result_bind_Ok in H1 as ([] & Hvc & H1).
  destruct (catalog_agrees descriptor catalog) eqn:Ha; [|done]. cbn [negb] in H1. case_bool_decide as Hn; [done|].
  injection H1 as <-. destruct (IH _ _ H2) as [Hsize Hr]. split.
  - rewrite Hsize, map_size_insert_None by (by apply eq_None_not_Some). cbn. lia.
  - intros id r Hid. destruct (Hr id r Hid) as [Hi|(? & ?)].
    + apply lookup_insert_Some in Hi as [[<- <-]|[_ Hi]]; [right; split; [left|done]|by left].
    + right. split; [by right|done].
Qed.
Lemma catalog_commands catalog : DomainCatalog_validate unicode_lowercase parse_uuid catalog = Ok tt →
  strictly_sorted_by cd_id (ca_commands catalog) = true ∧
  ∀ command, command ∈ ca_commands catalog → validate_id (cd_id command) "command" = Ok tt.
Proof.
  unfold DomainCatalog_validate. intros ([] & _ & H)%result_bind_Ok. destruct (negb _); [done|].
  apply result_bind_Ok in H as ([] & _ & H). apply result_bind_Ok in H as ([] & _ & H).
  apply result_bind_Ok in H as ([] & Hu & H). apply result_bind_Ok in H as ([] & Hc & _). split.
  - rewrite <-sorted_by_fmap. by eapply unique_ids_sorted.
  - intros command Hin. apply for_each_Ok in Hc. rewrite Forall_forall in Hc. specialize (Hc _ Hin).
    unfold validate_command_descriptor in Hc. by apply result_bind_Ok in Hc as ([] & ? & _).
Qed.

(** C30. A registry that builds holds every pack it was given, one registration each under the
    identity of its descriptor, with a descriptor and a catalog that were validated and agree; and
    it finds a command of a pack exactly when the catalog of that pack declares it: the binary
    search over the catalog misses none. *)
Theorem registry_finds_commands packs registry :
  DomainPackRegistryBuilder_build unicode_lowercase parse_uuid pack_descriptor pack_catalog packs = Ok registry →
  size registry = length packs ∧ (∀ id r, registry !! id = Some r → registered packs id r) ∧
  ∀ pack_id command_id command, registry_command registry pack_id command_id = Ok command ↔
    cd_id command = command_id ∧ ∃ r, registry !! pack_id = Some r ∧ command ∈ ca_commands (rg_catalog r).
Proof.
  intros Hb. destruct (built_from _ _ _ Hb) as [Hsize Hr]. rewrite map_size_empty in Hsize.
  assert (∀ id r, registry !! id = Some r → registered packs id r) as Hreg.
  { intros id r Hid. destruct (Hr id r Hid) as [Hi|?]; [by rewrite lookup_empty in Hi|done]. }
  split_and!; [done|done|]. intros pack_id command_id command. unfold registry_command. split.
  - intros ([] & _ & H)%result_bind_Ok. apply result_bind_Ok in H as (catalog & (r & Hr' & ->)%ok_or_Ok%fmap_Some & H).
    apply result_bind_Ok in H as (index & Hi%ok_or_Ok & Hc%ok_or_Ok). apply binary_search_Some in Hi as (x & Hx & <-).
    rewrite Hx in Hc. injection Hc as ->. split; [done|]. exists r. split; [done|]. by eapply list_elem_of_lookup_2.
  - intros [<- (r & Hr' & [i Hi]%list_elem_of_lookup)]. pose proof (Hreg _ _ Hr') as (_ & _ & _ & _ & _ & Hc & _).
    destruct (catalog_commands _ Hc) as [Hs Hv]. rewrite (Hv command) by (by eapply list_elem_of_lookup_2). cbn.
    rewrite Hr'. cbn. rewrite (binary_search_lookup cd_id _ i command Hs Hi). cbn. by rewrite Hi.
Qed.
End registry.
