(* ===== verification/Command.v ===== *)
(** * Commands

    Models [crates/eutheto-command/src/lib.rs] and [reconciled.rs]: the pure application of a scenario
    command to a document, with its preflight, its nested batches, the commands a domain pack applies,
    the counters that bound every output, and the inverse that undoes the command.

    The pack and the cancellation token are the environment's; every poll of the token and every
    fallible call to the pack is an interaction, numbered in the order they happen.  The document is
    passed along: a command that fails returns no document. *)
From stdpp Require Import base tactics list gmap strings sorting pretty.
From Stdlib Require Import ZArith Lia Ascii.
From S2P Require Import Prelude Ordering Protocol Budget Ids DomainIr Json Portable PortableFacts Scenario Contract.
Import Text.
Open Scope string_scope.
Open Scope list_scope.
Open Scope Z_scope.

Definition MAX_BATCH_DEPTH : Z := 8.
Definition MAX_BATCH_COMMANDS : Z := 1000.
Definition MAX_COMMAND_INVERSE_BYTES : Z := 64 * 1024 * 1024.
Definition MAX_COMMAND_VALIDATION_DELTA_BYTES : Z := 16 * 1024 * 1024.
Definition MAX_COMMAND_RESULT_BYTES : Z :=
  MAX_DOMAIN_MUTATION_CHANGE_BYTES + MAX_COMMAND_INVERSE_BYTES + MAX_COMMAND_VALIDATION_DELTA_BYTES + 64 * 1024.
Definition COMMAND_JSON_LIMITS : PortableJsonLimits :=
  {| max_depth := 128; max_string_bytes := 1024 * 1024; max_collection_items := 1000000 |}.

(** ** Errors and effects *)
Inductive CommandCode :=
| BatchDepthExceeded | BatchTooLarge | DuplicateEntity | DuplicateLock | DuplicateRule | EmptyBatch | InvalidRecordShape
| MissingEntity | MissingLock | MissingPreference | MissingRule | RecordIdMismatch | ProhibitedData.
Inductive CommandError :=
| CommandCancelled
| CommandResourceLimit
| ScenarioMismatch (command_scenario_id document_scenario_id : string)
| RevisionConflict (expected actual : Z)
| CommandValidation (code : CommandCode) (path message : string)
| CommandUnsupported (pack_id command_type : string)
| InvalidDomainPayload (command_type path message : string)
| InvalidDomainBatchPayload (path message : string)
| RevisionOverflow (revision : Z).
Definition command_code_str (code : CommandCode) : string :=
  match code with
  | BatchDepthExceeded => "command.batch_depth_exceeded" | BatchTooLarge => "command.batch_too_large"
  | DuplicateEntity => "command.duplicate_entity" | DuplicateLock => "command.duplicate_assignment_lock"
  | DuplicateRule => "command.duplicate_rule" | EmptyBatch => "command.empty_batch"
  | InvalidRecordShape => "command.invalid_record_shape" | MissingEntity => "command.missing_entity"
  | MissingLock => "command.missing_assignment_lock" | MissingPreference => "command.missing_preference"
  | MissingRule => "command.missing_rule" | RecordIdMismatch => "command.record_id_mismatch"
  | ProhibitedData => "command.prohibited_data"
  end.
Definition CommandError_code (error : CommandError) : string :=
  match error with
  | CommandCancelled => "command.cancelled" | CommandResourceLimit => "command.resource_limit"
  | ScenarioMismatch _ _ => "command.scenario_mismatch" | RevisionConflict _ _ => "command.revision_conflict"
  | CommandValidation code _ _ => command_code_str code | CommandUnsupported _ _ => "command.unsupported"
  | InvalidDomainPayload _ _ _ | InvalidDomainBatchPayload _ _ => "command.invalid_domain_payload"
  | RevisionOverflow _ => "command.revision_overflow"
  end.
Record PackCommandEffect := {
  pe_changes : list Change; pe_inverse : ScenarioCommand; pe_summary : string; pe_command_type : string
}.
Record AppliedCommand := {
  ap_document : Document; ap_result : CommandResult; ap_summary : string; ap_command_type : string
}.
Definition mutation_error (message : string) : CommandError := CommandValidation InvalidRecordShape "/domainMutation" message.
Definition domain_pack_error (error : DomainPackError) : CommandError :=
  match error with
  | PackCancelled => CommandCancelled
  | PackResourceLimitExceeded => CommandResourceLimit
  | error => CommandValidation InvalidRecordShape "/domainPack"
               ("domain-pack contract rejected the operation: " ++ DomainPackError_display error)%string
  end.
Definition domain_command_error (document : Document) (envelope : DomainCommandEnvelope) (error : DomainPackError) : CommandError :=
  match error with
  | PackUnavailable _ | PackUnknownCommand _ =>
      CommandUnsupported (dr_id (sdoc_domain_pack document)) (dc_command_type envelope)
  | PackInvalidPayload path message => InvalidDomainPayload (dc_command_type envelope) path message
  | other => domain_pack_error other
  end.
Definition command_effect (kind : ChangeKind) (path : string) (before after : option JsonValue) (inverse : ScenarioCommand)
    (summary command_type : string) : PackCommandEffect :=
  {| pe_changes := [{| ch_kind := kind; ch_path := path; ch_before := before; ch_after := after |}];
     pe_inverse := inverse; pe_summary := summary; pe_command_type := command_type |}.
Definition entity_path (id : string) : string := "/domain/entities/" ++ id.
Definition rule_path (id : string) : string := "/domain/rules/" ++ id.
Definition preference_path (id : string) : string := "/domain/preferences/" ++ id.
Definition lock_path (id : string) : string := "/domain/lockedAssignments/" ++ id.
Definition command_type (command : ScenarioCommand) : string :=
  match command with
  | AddEntity _ _ => "add_entity" | UpdateEntity _ _ => "update_entity" | RemoveEntity _ => "remove_entity"
  | AddRule _ _ => "add_rule" | UpdateRule _ _ => "update_rule" | RemoveRule _ => "remove_rule"
  | SetPreference _ _ => "set_preference" | LockAssignment _ _ => "lock_assignment"
  | UnlockAssignment _ => "unlock_assignment" | SetSettings _ => "set_scenario_settings"
  | ApplyDomainCommand envelope => ("domain." ++ dc_command_type envelope)%string | ApplyBatch _ _ => "apply_batch"
  end.
Definition batch_summary (label : option string) (count : nat) : string :=
  (default "Apply batch" label ++ " (" ++ pretty (N.of_nat count) ++ " commands)")%string.
Definition preference_action (value : option JsonValue) : string := match value with Some _ => "Set" | None => "Clear" end.
Definition human_summary (command : ScenarioCommand) : string :=
  match command with
  | AddEntity id _ => "Add entity " ++ id | UpdateEntity id _ => "Update entity " ++ id
  | RemoveEntity id => "Remove entity " ++ id | AddRule id _ => "Add rule " ++ id | UpdateRule id _ => "Update rule " ++ id
  | RemoveRule id => "Remove rule " ++ id
  | SetPreference id value => preference_action value ++ " preference " ++ id
  | LockAssignment id _ => "Lock assignment " ++ id | UnlockAssignment id => "Unlock assignment " ++ id
  | SetSettings _ => "Update scenario settings"
  | ApplyDomainCommand envelope => "Apply " ++ dc_command_type envelope ++ " domain command"
  | ApplyBatch label commands => batch_summary label (length commands)
  end%string.
Definition batch_effect (label : option string) (count : nat) (changes : list Change) (inverses : list ScenarioCommand) :
    PackCommandEffect :=
  {| pe_changes := changes; pe_inverse := ApplyBatch label (reverse inverses); pe_summary := batch_summary label count;
     pe_command_type := "apply_batch" |}.
Notation CR := (Result CommandError).
Definition validate_batch_shape {A} (commands : list A) (depth : Z) : CR unit :=
  if len commands =? 0 then Err (CommandValidation EmptyBatch "/command/commands" "a batch must contain at least one command")
  else if MAX_BATCH_DEPTH <=? depth
  then Err (CommandValidation BatchDepthExceeded "/command/commands" "batch nesting may not exceed 8")
  else Ok tt.

Section command.
Context (unicode_lowercase : Z → list Z) (parse_uuid : string → option (string * Z)).

(** ** Shapes of records and documents *)
Definition validate_safe_serialized (text : JsonValue) (path : string) : CR unit :=
  map_err (CommandValidation ProhibitedData path)
    (validate_nonsecret_portable_json unicode_lowercase (to_value text) COMMAND_JSON_LIMITS).
Definition validate_map_entry (base : string) (entry : string * JsonValue) : CR unit :=
  let '(map_id, value) := entry in
  match as_object value with
  | None => Err (CommandValidation InvalidRecordShape (base ++ "/" ++ map_id)%string "record must be a JSON object")
  | Some object =>
      match object_get object "id" with
      | Some id_value =>
          if bool_decide (as_str id_value = Some map_id) then Ok tt
          else Err (CommandValidation RecordIdMismatch (base ++ "/" ++ map_id ++ "/id")%string
                      ("record id must match map key " ++ map_id)%string)
      | None => Ok tt
      end
  end.
Definition validate_map (values : Records) (base : string) : CR unit :=
  for_each (validate_map_entry base) (record_entries values).
Definition validate_document_shape (document : Document) : CR unit :=
  let domain := document_domain document in
  _ ← validate_map (sd_entities domain) "/domain/entities";
  _ ← validate_map (sd_rules domain) "/domain/rules";
  _ ← validate_map (sd_preferences domain) "/domain/preferences";
  _ ← validate_map (sd_locked_assignments domain) "/domain/lockedAssignments";
  _ ← validate_safe_serialized (json_document document) "/document";
  Ok tt.
Definition validate_record (value : JsonValue) (expected_id path : string) : CR unit :=
  match as_object value with
  | None => Err (CommandValidation InvalidRecordShape path "record must be a JSON object")
  | Some object =>
      _ ← match object_get object "id" with
          | None => Ok tt
          | Some id_value =>
              match as_str id_value with
              | None => Err (CommandValidation RecordIdMismatch (path ++ "/id")%string "record id must be a string when present")
              | Some id =>
                  if bool_decide (id = expected_id) then Ok tt
                  else Err (CommandValidation RecordIdMismatch (path ++ "/id")%string
                              ("record id " ++ id ++ " does not match map key " ++ expected_id)%string)
              end
          end;
      _ ← validate_safe_serialized value path;
      Ok tt
  end.

(** ** Leaf commands *)
Notation Step := (CR (Document * PackCommandEffect)).
Definition edit_domain (f : ScenarioDomain → ScenarioDomain) (document : Document) : Document :=
  with_domain (f (document_domain document)) document.
Definition add_entity (document : Document) (id : string) (value : JsonValue) : Step :=
  _ ← validate_record value id "/command/value";
  let entities := sd_entities (document_domain document) in
  if bool_decide (is_Some (entities !! id)) then Err (CommandValidation DuplicateEntity (entity_path id) "entity already exists")
  else Ok (edit_domain (with_entities (<[id := value]> entities)) document,
           command_effect Added (entity_path id) None (Some value) (RemoveEntity id) ("Add entity " ++ id)%string "add_entity").
Definition update_entity (document : Document) (id : string) (value : JsonValue) : Step :=
  _ ← validate_record value id "/command/value";
  let entities := sd_entities (document_domain document) in
  match entities !! id with
  | None => Err (CommandValidation MissingEntity (entity_path id) "entity does not exist")
  | Some previous =>
      Ok (edit_domain (with_entities (<[id := value]> entities)) document,
          command_effect Updated (entity_path id) (Some previous) (Some value) (UpdateEntity id previous)
            ("Update entity " ++ id)%string "update_entity")
  end.
Definition remove_entity (document : Document) (id : string) : Step :=
  let entities := sd_entities (document_domain document) in
  match entities !! id with
  | None => Err (CommandValidation MissingEntity (entity_path id) "entity does not exist")
  | Some previous =>
      Ok (edit_domain (with_entities (delete id entities)) document,
          command_effect Removed (entity_path id) (Some previous) None (AddEntity id previous)
            ("Remove entity " ++ id)%string "remove_entity")
  end.
Definition add_rule (document : Document) (id : string) (value : JsonValue) : Step :=
  _ ← validate_record value id "/command/value";
  let rules := sd_rules (document_domain document) in
  if bool_decide (is_Some (rules !! id)) then Err (CommandValidation DuplicateRule (rule_path id) "rule already exists")
  else Ok (edit_domain (with_rules (<[id := value]> rules)) document,
           command_effect Added (rule_path id) None (Some value) (RemoveRule id) ("Add rule " ++ id)%string "add_rule").
Definition update_rule (document : Document) (id : string) (value : JsonValue) : Step :=
  _ ← validate_record value id "/command/value";
  let rules := sd_rules (document_domain document) in
  match rules !! id with
  | None => Err (CommandValidation MissingRule (rule_path id) "rule does not exist")
  | Some previous =>
      Ok (edit_domain (with_rules (<[id := value]> rules)) document,
          command_effect Updated (rule_path id) (Some previous) (Some value) (UpdateRule id previous)
            ("Update rule " ++ id)%string "update_rule")
  end.
Definition remove_rule (document : Document) (id : string) : Step :=
  let rules := sd_rules (document_domain document) in
  match rules !! id with
  | None => Err (CommandValidation MissingRule (rule_path id) "rule does not exist")
  | Some previous =>
      Ok (edit_domain (with_rules (delete id rules)) document,
          command_effect Removed (rule_path id) (Some previous) None (AddRule id previous)
            ("Remove rule " ++ id)%string "remove_rule")
  end.
Definition set_preference (document : Document) (id : string) (value : option JsonValue) : Step :=
  let preferences := sd_preferences (document_domain document) in
  let previous := preferences !! id in
  _ ← match value with Some value => validate_record value id "/command/value" | None => Ok tt end;
  let changed := match value with Some value => <[id := value]> preferences | None => delete id preferences end in
  if negb (bool_decide (is_Some value)) && negb (bool_decide (is_Some previous))
  then Err (CommandValidation MissingPreference (preference_path id) "preference does not exist")
  else
    let kind := match previous, value with None, Some _ => Added | Some _, Some _ => Updated | _, _ => Removed end in
    Ok (edit_domain (with_preferences changed) document,
        command_effect kind (preference_path id) previous value (SetPreference id previous)
          (preference_action value ++ " preference " ++ id)%string "set_preference").
Definition lock_assignment (document : Document) (id : string) (value : JsonValue) : Step :=
  _ ← validate_record value id "/command/value";
  let locks := sd_locked_assignments (document_domain document) in
  if bool_decide (is_Some (locks !! id)) then Err (CommandValidation DuplicateLock (lock_path id) "assignment is already locked")
  else Ok (edit_domain (with_locked_assignments (<[id := value]> locks)) document,
           command_effect Locked (lock_path id) None (Some value) (UnlockAssignment id)
             ("Lock assignment " ++ id)%string "lock_assignment").
Definition unlock_assignment (document : Document) (id : string) : Step :=
  let locks := sd_locked_assignments (document_domain document) in
  match locks !! id with
  | None => Err (CommandValidation MissingLock (lock_path id) "assignment is not locked")
  | Some previous =>
      Ok (edit_domain (with_locked_assignments (delete id locks)) document,
          command_effect Unlocked (lock_path id) (Some previous) None (LockAssignment id previous)
            ("Unlock assignment " ++ id)%string "unlock_assignment")
  end.
Definition apply_official_test_leaf (document : Document) (command : ScenarioCommand) : Step :=
  match command with
  | AddEntity id value => add_entity document id value
  | UpdateEntity id value => update_entity document id value
  | RemoveEntity id => remove_entity document id
  | AddRule id value => add_rule document id value
  | UpdateRule id value => update_rule document id value
  | RemoveRule id => remove_rule document id
  | SetPreference id value => set_preference document id value
  | LockAssignment id value => lock_assignment document id value
  | UnlockAssignment id => unlock_assignment document id
  | SetSettings _ | ApplyDomainCommand _ | ApplyBatch _ _ =>
      Err (CommandValidation InvalidRecordShape "/command"
             "the command engine, not the legacy leaf applicator, must dispatch this command")
  end.

(** ** Packs, the token and the counters of an application *)
Record CommandPack := {
  cp_validate_fast : Document → list ValidationIssue;
  cp_apply_batch : nat → Document → DomainBatchCommand → PR DomainMutation;
  cp_reconcile_settings : nat → Document → ScenarioSettings → option JsonValue → PR DomainSettingsMutation
}.
(** [cancelled n]: what the token answers at the [n]-th interaction. *)
Context (cancelled : nat → bool) (registry : gmap string (Registration (Pack := CommandPack))).
Record ApplyContext := {
  cx_leaf_count : Z; cx_change_count : Z; cx_change_bytes : Z; cx_result_bytes : Z; cx_inverse_bytes : Z; cx_polls : nat
}.
Notation PM := (SE nat CommandError).
Notation CM := (SE ApplyContext CommandError).
Definition poll : PM unit := λ n, (if cancelled n then Err CommandCancelled else Ok tt, S n).
Definition with_polls (n : nat) (x : ApplyContext) : ApplyContext :=
  {| cx_leaf_count := cx_leaf_count x; cx_change_count := cx_change_count x; cx_change_bytes := cx_change_bytes x;
     cx_result_bytes := cx_result_bytes x; cx_inverse_bytes := cx_inverse_bytes x; cx_polls := n |}.
Definition on_polls {A} (m : PM A) : CM A := λ x, let '(r, n) := m (cx_polls x) in (r, with_polls n x).
Definition check_cancelled : CM unit := on_polls poll.
(** A call to the pack. *)
Definition interaction {E A} (f : nat → A) : SE ApplyContext E A := λ x, (Ok (f (cx_polls x)), with_polls (S (cx_polls x)) x).
Definition charge_leaves (count : Z) : CM unit := λ x,
  let x := {| cx_leaf_count := u64_saturating_add (cx_leaf_count x) count; cx_change_count := cx_change_count x;
              cx_change_bytes := cx_change_bytes x; cx_result_bytes := cx_result_bytes x;
              cx_inverse_bytes := cx_inverse_bytes x; cx_polls := cx_polls x |} in
  if MAX_BATCH_COMMANDS <? cx_leaf_count x
  then (Err (CommandValidation BatchTooLarge "/command/commands" "batch may contain at most 1000 commands"), x)
  else (Ok tt, x).
Definition with_inverse_bytes (n : Z) (x : ApplyContext) : ApplyContext :=
  {| cx_leaf_count := cx_leaf_count x; cx_change_count := cx_change_count x; cx_change_bytes := cx_change_bytes x;
     cx_result_bytes := cx_result_bytes x; cx_inverse_bytes := n; cx_polls := cx_polls x |}.
Definition charge_inverse (value : JsonValue) : CM unit := λ x,
  let remaining := Z.max 0 (MAX_COMMAND_INVERSE_BYTES - cx_inverse_bytes x) in
  match bounded_json_size value remaining with
  | Ok size => (Ok tt, with_inverse_bytes (cx_inverse_bytes x + size) x)
  | Err error => (Err (domain_pack_error error), x)
  end.
Definition charge_batch_frame (label : option string) (command_count : Z) : CM unit :=
  _ ← charge_inverse (json_batch label []);
  se_state (λ x,
    let x := with_inverse_bytes (u64_saturating_add (cx_inverse_bytes x) (Z.max 0 (command_count - 1))) x in
    if MAX_COMMAND_INVERSE_BYTES <? cx_inverse_bytes x
    then (Err (domain_pack_error PackMutationOutputLimit), x) else (Ok tt, x)).
(** The counters of [charge_output]. *)
Definition added_change_bytes (x : ApplyContext) (change_count change_bytes : Z) : Z :=
  if change_count =? 0 then cx_change_bytes x
  else u64_saturating_add (cx_change_bytes x) (Z.max 0 (change_bytes - 2) + (if cx_change_count x =? 0 then 0 else 1)).
Definition added_result_bytes (x : ApplyContext) (result_bytes : Z) : Z :=
  if 2 <? result_bytes
  then u64_saturating_add (cx_result_bytes x) (result_bytes - 2 + (if 2 <? cx_result_bytes x then 1 else 0))
  else cx_result_bytes x.
Definition charge_output (change_count change_bytes result_bytes : Z) : CM unit :=
  _ ← se_state (λ x,
    let x := {| cx_leaf_count := cx_leaf_count x; cx_change_count := u64_saturating_add (cx_change_count x) change_count;
                cx_change_bytes := added_change_bytes x change_count change_bytes;
                cx_result_bytes := added_result_bytes x result_bytes;
                cx_inverse_bytes := cx_inverse_bytes x; cx_polls := cx_polls x |} in
    if (MAX_DOMAIN_MUTATION_CHANGES <? cx_change_count x) || (MAX_DOMAIN_MUTATION_CHANGE_BYTES <? cx_change_bytes x)
       || (MAX_DOMAIN_MUTATION_RESULT_BYTES <? cx_result_bytes x)
    then (Err (domain_pack_error PackMutationOutputLimit), x) else (Ok tt, x));
  check_cancelled.
Definition measured (value : JsonValue) (limit : Z) : CR Z := map_err domain_pack_error (bounded_json_size value limit).

(** ** Preflight *)
(** [SettingsLeaf]: the settings with their tag. *)
Definition validate_settings_leaf (settings : SetScenarioSettings) : CR unit :=
  _ ← match sss_restoration settings with
      | Some restoration =>
          map_err (CommandValidation ProhibitedData "/restoration")
            (validate_nonsecret_portable_json unicode_lowercase restoration COMMAND_JSON_LIMITS)
      | None => Ok tt
      end;
  _ ← map_err (λ _, CommandResourceLimit)
        (bounded_json_size (json_tagged "setScenarioSettings" (json_settings_payload settings)) MAX_SCENARIO_DOCUMENT_BYTES);
  Ok tt.
Definition leaf_payload (leaf : ScenarioCommand) : option JsonValue :=
  match leaf with
  | AddEntity _ value | UpdateEntity _ value | AddRule _ value | UpdateRule _ value | LockAssignment _ value => Some value
  | SetPreference _ value => value
  | ApplyDomainCommand envelope => Some (dc_payload envelope)
  | _ => None
  end.
Notation FM := (SE (nat * Z) CommandError).
Definition preflight_poll : FM unit := λ '(n, remaining), let '(r, n) := poll n in (r, (n, remaining)).
Definition preflight_leaf (leaf : ScenarioCommand) : FM unit :=
  _ ← se_state (λ '(n, remaining),
        match u64_checked_sub remaining 1 with
        | Some remaining => (Ok tt, (n, remaining))
        | None => (Err (CommandValidation BatchTooLarge "/command/commands" "batch may contain at most 1000 commands"), (n, remaining))
        end);
  _ ← match leaf_payload leaf with
      | Some value =>
          se_lift (map_err (CommandValidation ProhibitedData "/command")
                     (validate_nonsecret_portable_json unicode_lowercase value COMMAND_JSON_LIMITS))
      | None => mret tt
      end;
  match leaf with SetSettings settings => se_lift (validate_settings_leaf settings) | _ => mret tt end.
Section preflight_children.
Context (preflight : ScenarioCommand → FM unit).
Fixpoint preflight_each (commands : list ScenarioCommand) : FM unit :=
  match commands with [] => mret tt | child :: commands => _ ← preflight child; preflight_each commands end.
End preflight_children.
Fixpoint preflight_settings_leaves (command : ScenarioCommand) (depth : Z) {struct command} : FM unit :=
  _ ← preflight_poll;
  match command with
  | ApplyBatch _ commands =>
      _ ← se_lift (validate_batch_shape commands depth);
      preflight_each (λ child, preflight_settings_leaves child (depth + 1)) commands
  | leaf => preflight_leaf leaf
  end.
(** The leaves that are left are dropped with the counter. *)
Definition run_preflight {A} (m : FM A) : PM A := λ n, let '(r, (n, _)) := m (n, MAX_BATCH_COMMANDS) in (r, n).
Definition preflight_command (command : ScenarioCommand) (path : string) : PM unit :=
  _ ← run_preflight (preflight_settings_leaves command 0);
  se_lift (validate_safe_serialized (json_command command) path).
Definition preflight_setup_command (command : ScenarioCommand) (path : string) : PM unit :=
  _ ← run_preflight (preflight_settings_leaves command 0);
  _ ← se_lift (map_err (λ _, CommandResourceLimit) (bounded_json_size (json_command command) MAX_SCENARIO_DOCUMENT_BYTES));
  se_lift (validate_safe_serialized (json_command command) path).

(** ** Settings *)
Definition records_eqb (a b : Records) : bool := json_eqb (json_records a) (json_records b).
Definition push_settings_change (changes : list Change) (change : Change) : CM (list Change) :=
  bytes ← se_lift (measured (json_changes [change]) MAX_DOMAIN_MUTATION_CHANGE_BYTES);
  _ ← charge_output 1 bytes 2;
  mret (changes ++ [change]).
Definition set_scenario_settings (pack : CommandPack) (document : Document) (command : SetScenarioSettings) :
    CM (Document * PackCommandEffect) :=
  reconciled ← interaction (λ n, cp_reconcile_settings pack n document (sss_settings command) (sss_restoration command));
  mutation ← se_lift (map_err domain_pack_error reconciled);
  _ ← check_cancelled;
  let domain := document_domain document in
  let changed := dsm_domain mutation in
  if negb (records_eqb (sd_rules changed) (sd_rules domain))
     || negb (records_eqb (sd_preferences changed) (sd_preferences domain))
     || negb (records_eqb (sd_locked_assignments changed) (sd_locked_assignments domain))
     || negb (bool_decide (record_keys (sd_entities changed) = record_keys (sd_entities domain)))
  then se_fail (mutation_error "settings reconciliation changed unrelated maps or identities")
  else
    _ ← for_each (λ record,
          _ ← check_cancelled;
          se_lift (map_err (CommandValidation ProhibitedData "/domain/entities")
                     (validate_nonsecret_portable_json unicode_lowercase record COMMAND_JSON_LIMITS)))
          (record_values (sd_entities changed));
    _ ← se_lift (measured (json_domain changed) MAX_SCENARIO_DOCUMENT_BYTES);
    let inverse_payload := {| sss_settings := document_settings document; sss_restoration := dsm_inverse_payload mutation |} in
    _ ← se_lift (validate_settings_leaf inverse_payload);
    let inverse := SetSettings inverse_payload in
    _ ← charge_inverse (json_command inverse);
    changes ← if bool_decide (document_settings document = sss_settings command) then mret []
              else push_settings_change []
                     {| ch_kind := Updated; ch_path := "/settings";
                        ch_before := Some (to_value (json_settings (document_settings document)));
                        ch_after := Some (to_value (json_settings (sss_settings command))) |};
    changes ← fold_m (λ changes entry,
                let '(id, after) := entry in
                _ ← check_cancelled;
                before ← se_lift (ok_or (mutation_error "settings reconciliation changed an identity")
                                    (sd_entities domain !! id));
                if json_eqb before after then mret changes
                else push_settings_change changes
                       {| ch_kind := Updated; ch_path := entity_path id; ch_before := Some before; ch_after := Some after |})
                changes (record_entries (sd_entities changed));
    let document := with_domain changed (with_settings (sss_settings command) document) in
    _ ← se_lift (measured (json_document document) MAX_SCENARIO_DOCUMENT_BYTES);
    _ ← se_lift (validate_document_shape document);
    _ ← check_cancelled;
    mret (document, {| pe_changes := changes; pe_inverse := inverse; pe_summary := "Update scenario settings";
                       pe_command_type := "set_scenario_settings" |}).

(** ** Commands of the domain pack *)
Definition domain_batch (document : Document) (commands : list DomainCommandEnvelope) : DomainBatchCommand :=
  {| db_schema_version := DOMAIN_BATCH_SCHEMA_VERSION; db_pack_id := dr_id (sdoc_domain_pack document);
     db_scenario_schema_version := dr_schema_version (sdoc_domain_pack document); db_label := None; db_commands := commands |}.
Definition json_node_count (value : JsonValue) : Z := json_nodes value.
Definition domain_change (value : JsonValue) : CR Change :=
  match value with
  | JObject object =>
      match object_get object "path" with
      | Some (JString path) =>
          if starts_with (lit "/") (as_bytes path) then
            let present key := match object_get object key with Some JNull | None => None | Some value => Some value end in
            let before := present "before" in
            let after := present "after" in
            Ok {| ch_kind := match before, after with None, Some _ => Added | Some _, None => Removed | _, _ => Updated end;
                  ch_path := path; ch_before := before; ch_after := after |}
          else Err (CommandValidation InvalidRecordShape "/domainChange/path" "domain-pack change path must be absolute")
      | _ => Err (CommandValidation InvalidRecordShape "/domainChange/path" "domain-pack change path must be absolute")
      end
  | _ => Err (CommandValidation InvalidRecordShape "/domainChange" "domain-pack change must be an object")
  end.
Notation validate_payload := (validate_payload unicode_lowercase parse_uuid).
Definition host_fields_kept (original changed : Document) : bool :=
  (sdoc_format_version changed =? sdoc_format_version original)
  && bool_decide (sdoc_scenario_id changed = sdoc_scenario_id original)
  && bool_decide (sdoc_domain_pack changed = sdoc_domain_pack original)
  && bool_decide (sc_metadata (sdoc_content changed) = sc_metadata (sdoc_content original))
  && bool_decide (document_settings changed = document_settings original)
  && records_eqb (sc_extensions (sdoc_content changed)) (sc_extensions (sdoc_content original)).
Definition validate_domain_changes (commands : list CommandDescriptor) (changes : list DomainChange) : CM unit :=
  _ ← fold_m (λ previous change,
        _ ← check_cancelled;
        if match previous with Some index => dch_command_index change <? index | None => false end
        then se_fail (mutation_error "domain changes are not in input order")
        else
          command ← se_lift (ok_or (mutation_error "domain change index is outside its input")
                               (commands !! Z.to_nat (dch_command_index change)));
          _ ← se_lift (map_err domain_pack_error (validate_change unicode_lowercase parse_uuid command (dch_value change)));
          mret (Some (dch_command_index change))) (None : option Z) changes;
  mret tt.
Definition validate_domain_mutation (original : Document) (batch : DomainBatchCommand) (mutation : DomainMutation)
    (commands : list CommandDescriptor) : CM (Z * Z) :=
  _ ← check_cancelled;
  let inverse := dm_inverse mutation in
  if negb (len (dm_results mutation) =? len (db_commands batch))
     || negb (len (db_commands inverse) =? len (db_commands batch))
     || (MAX_DOMAIN_MUTATION_CHANGES <? len (dm_changes mutation))
  then se_fail (mutation_error "domain result, change or inverse count is invalid")
  else
    result_bytes ← se_lift (measured (JArray (dm_results mutation)) MAX_DOMAIN_MUTATION_RESULT_BYTES);
    change_bytes ← se_lift (measured (json_domain_changes (dm_changes mutation)) MAX_DOMAIN_MUTATION_CHANGE_BYTES);
    if negb (host_fields_kept original (dm_document mutation))
    then se_fail (mutation_error "domain mutation changed host-owned fields")
    else
      _ ← se_lift (measured (json_document (dm_document mutation)) MAX_SCENARIO_DOCUMENT_BYTES);
      _ ← se_lift (validate_document_shape (dm_document mutation));
      if negb (bool_decide (db_pack_id inverse = db_pack_id batch))
         || negb (db_scenario_schema_version inverse =? db_scenario_schema_version batch)
      then se_fail (mutation_error "domain inverse identity does not match its input")
      else
        _ ← se_lift (map_err domain_pack_error (validate_bounds inverse));
        _ ← for_each (λ entry : CommandDescriptor * JsonValue,
              _ ← check_cancelled;
              se_lift (map_err domain_pack_error (validate_result unicode_lowercase parse_uuid entry.1 entry.2)))
              (zip commands (dm_results mutation));
        _ ← validate_domain_changes commands (dm_changes mutation);
        _ ← for_each (λ inverse,
              _ ← check_cancelled;
              se_lift (map_err domain_pack_error
                         (command ← registry_command registry (db_pack_id batch) (dc_command_type inverse);
                          validate_payload command (dc_payload inverse))))
              (db_commands inverse);
        _ ← check_cancelled;
        mret (change_bytes, result_bytes).

(** The document and the output of a run so far; inverses in the order of their commands. *)
Record DomainRunEffect := { re_document : Document; re_changes : list Change; re_inverses : list ScenarioCommand }.
Definition accept_domain_mutation (batch : DomainBatchCommand) (registered : list CommandDescriptor) (mutation : DomainMutation)
    (effect : DomainRunEffect) : CM DomainRunEffect :=
  bytes ← validate_domain_mutation (re_document effect) batch mutation registered;
  changes ← fold_m (λ changes change,
              _ ← check_cancelled;
              change ← se_lift (domain_change (dch_value change));
              mret (changes ++ [change])) [] (dm_changes mutation);
  translated_bytes ← se_lift (measured (json_changes changes) MAX_DOMAIN_MUTATION_CHANGE_BYTES);
  _ ← charge_output (len changes) (Z.max bytes.1 translated_bytes) bytes.2;
  inverses ← fold_m (λ inverses inverse,
               _ ← check_cancelled;
               _ ← charge_inverse (json_command (ApplyDomainCommand inverse));
               mret (inverses ++ [ApplyDomainCommand inverse])) [] (reverse (db_commands (dm_inverse mutation)));
  _ ← check_cancelled;
  mret {| re_document := dm_document mutation; re_changes := re_changes effect ++ changes;
          re_inverses := re_inverses effect ++ inverses |}.
(** A chunk whose inverse is too large is halved; the number of commands bounds the halvings. *)
Fixpoint apply_domain_chunk_loop (pack : CommandPack) (fuel : nat) (commands : list DomainCommandEnvelope)
    (registered : list CommandDescriptor) (effect : DomainRunEffect) : CM DomainRunEffect :=
  let batch := domain_batch (re_document effect) commands in
  _ ← check_cancelled;
  mutation ← interaction (λ n, cp_apply_batch pack n (re_document effect) batch);
  _ ← check_cancelled;
  match mutation with
  | Ok mutation => accept_domain_mutation batch registered mutation effect
  | Err error =>
      match error, fuel with
      | PackBatchInverseTooLarge, S fuel =>
          if 1 <? len commands then
            let midpoint := (length commands / 2)%nat in
            effect ← apply_domain_chunk_loop pack fuel (take midpoint commands) (take midpoint registered) effect;
            apply_domain_chunk_loop pack fuel (drop midpoint commands) (drop midpoint registered) effect
          else
            match commands with
            | [command] => se_fail (domain_command_error (re_document effect) command error)
            | _ => se_fail (domain_pack_error error)
            end
      | _, _ =>
          match commands, error with
          | [command], _ => se_fail (domain_command_error (re_document effect) command error)
          | _, PackInvalidPayload path message => se_fail (InvalidDomainBatchPayload path message)
          | _, _ => se_fail (domain_pack_error error)
          end
      end
  end.
Definition apply_domain_chunk (pack : CommandPack) (commands : list DomainCommandEnvelope) (registered : list CommandDescriptor)
    (effect : DomainRunEffect) : CM DomainRunEffect :=
  apply_domain_chunk_loop pack (length commands) commands registered effect.
(** The chunk that is being filled. *)
Record DomainChunk := {
  dk_commands : list DomainCommandEnvelope; dk_registered : list CommandDescriptor; dk_bytes : Z; dk_nodes : Z
}.
Definition DOMAIN_NODE_LIMIT : Z := cl_max_collection_items ContractJsonLimits_DEFAULT.
Definition domain_input (document : Document) (framing frame_nodes : Z) (envelope : DomainCommandEnvelope) :
    CR (CommandDescriptor * Z * Z) :=
  let error := domain_command_error document envelope in
  command ← map_err error (registry_command registry (dr_id (sdoc_domain_pack document)) (dc_command_type envelope));
  _ ← map_err error (validate_payload command (dc_payload envelope));
  size ← map_err error (bounded_json_size (JObject (json_envelope envelope)) (Z.max 0 (MAX_SCENARIO_DOCUMENT_BYTES - framing)));
  let envelope_nodes := 2 + json_node_count (dc_payload envelope) in
  if DOMAIN_NODE_LIMIT <? frame_nodes + envelope_nodes
  then Err (error (PackInvalidPayload "/commands" "domain command exceeds the batch JSON node limit"))
  else Ok (command, size, envelope_nodes).
Section domain_run.
Context (pack : CommandPack) (framing frame_nodes : Z).
Definition empty_chunk : DomainChunk :=
  {| dk_commands := []; dk_registered := []; dk_bytes := framing; dk_nodes := frame_nodes |}.
Definition flush_chunk (chunk : DomainChunk) (effect : DomainRunEffect) : CM DomainRunEffect :=
  if len (dk_commands chunk) =? 0 then mret effect
  else apply_domain_chunk pack (dk_commands chunk) (dk_registered chunk) effect.
Definition separator (chunk : DomainChunk) : Z := if len (dk_commands chunk) =? 0 then 0 else 1.
Definition push_command (chunk : DomainChunk) (envelope : DomainCommandEnvelope) (command : CommandDescriptor) (size nodes : Z) :
    DomainChunk :=
  {| dk_commands := dk_commands chunk ++ [envelope]; dk_registered := dk_registered chunk ++ [command];
     dk_bytes := dk_bytes chunk + separator chunk + size; dk_nodes := dk_nodes chunk + nodes |}.
Fixpoint domain_run_loop (envelopes : list DomainCommandEnvelope) (chunk : DomainChunk) (effect : DomainRunEffect) :
    CM DomainRunEffect :=
  match envelopes with
  | [] => flush_chunk chunk effect
  | envelope :: envelopes =>
      _ ← check_cancelled;
      match domain_input (re_document effect) framing frame_nodes envelope with
      | Err error =>
          (* An earlier command's failure is reported first. *)
          _ ← flush_chunk chunk effect;
          _ ← check_cancelled;
          se_fail error
      | Ok (command, size, nodes) =>
          if (MAX_SCENARIO_DOCUMENT_BYTES <? dk_bytes chunk + separator chunk + size)
             || (DOMAIN_NODE_LIMIT <? dk_nodes chunk + nodes)
          then
            effect ← apply_domain_chunk pack (dk_commands chunk) (dk_registered chunk) effect;
            domain_run_loop envelopes (push_command empty_chunk envelope command size nodes) effect
          else domain_run_loop envelopes (push_command chunk envelope command size nodes) effect
      end
  end.
End domain_run.
Definition apply_domain_run (pack : CommandPack) (document : Document) (envelopes : list DomainCommandEnvelope) :
    CM DomainRunEffect :=
  let frame := json_domain_batch (domain_batch document []) in
  framing ← se_lift (measured frame MAX_SCENARIO_DOCUMENT_BYTES);
  let frame_nodes := json_node_count frame in
  domain_run_loop pack framing frame_nodes envelopes (empty_chunk framing frame_nodes)
    {| re_document := document; re_changes := []; re_inverses := [] |}.

(** ** Nested application *)
Definition OFFICIAL_TEST_PACK_ID : string := "official.test".
Section children.
Context (pack : CommandPack) (apply : ScenarioCommand → Document → CM (Document * PackCommandEffect)).
(** A maximal run of domain commands is one domain batch: [run] holds it until it ends. *)
Definition flush_run (run : list DomainCommandEnvelope) (document : Document) (changes : list Change)
    (inverses : list ScenarioCommand) : CM (Document * list Change * list ScenarioCommand) :=
  if len run =? 0 then mret (document, changes, inverses)
  else
    _ ← check_cancelled;
    _ ← charge_leaves (len run);
    effect ← apply_domain_run pack document run;
    mret (re_document effect, changes ++ re_changes effect, inverses ++ re_inverses effect).
Fixpoint apply_children (children : list ScenarioCommand) (run : list DomainCommandEnvelope) (document : Document)
    (changes : list Change) (inverses : list ScenarioCommand) : CM (Document * list Change * list ScenarioCommand) :=
  match children with
  | [] => flush_run run document changes inverses
  | ApplyDomainCommand envelope :: children => apply_children children (run ++ [envelope]) document changes inverses
  | child :: children =>
      flushed ← flush_run run document changes inverses;
      let '(document, changes, inverses) := flushed in
      _ ← check_cancelled;
      applied ← apply child document;
      apply_children children [] applied.1 (changes ++ pe_changes applied.2) (inverses ++ [pe_inverse applied.2])
  end.
End children.
Definition unsupported {A} (document : Document) (command : ScenarioCommand) : CM A :=
  se_fail (CommandUnsupported (dr_id (sdoc_domain_pack document)) (command_type command)).
Definition apply_leaf (pack : CommandPack) (document : Document) (command : ScenarioCommand) : CM (Document * PackCommandEffect) :=
  _ ← charge_leaves 1;
  match command with
  | SetSettings value => set_scenario_settings pack document value
  | ApplyDomainCommand envelope =>
      run ← apply_domain_run pack document [envelope];
      match last (re_inverses run) with
      | None => se_fail (mutation_error "missing inverse")
      | Some inverse =>
          mret (re_document run,
                {| pe_changes := re_changes run; pe_inverse := inverse;
                   pe_summary := ("Apply " ++ dc_command_type envelope ++ " domain command")%string;
                   pe_command_type := ("domain." ++ dc_command_type envelope)%string |})
      end
  | command =>
      if bool_decide (dr_id (sdoc_domain_pack document) = OFFICIAL_TEST_PACK_ID) then
        applied ← se_lift (apply_official_test_leaf document command);
        bytes ← se_lift (measured (json_changes (pe_changes applied.2)) MAX_DOMAIN_MUTATION_CHANGE_BYTES);
        _ ← charge_output (len (pe_changes applied.2)) bytes 2;
        _ ← charge_inverse (json_command (pe_inverse applied.2));
        mret applied
      else unsupported document command
  end.
Fixpoint apply_nested (pack : CommandPack) (command : ScenarioCommand) (depth : Z) (document : Document) {struct command} :
    CM (Document * PackCommandEffect) :=
  _ ← check_cancelled;
  match command with
  | ApplyBatch label commands =>
      _ ← se_lift (validate_batch_shape commands depth);
      _ ← charge_batch_frame label (len commands);
      applied ← apply_children pack (λ child, apply_nested pack child (depth + 1)) commands [] document [] [];
      let '(document, changes, inverses) := applied in
      mret (document, batch_effect label (length commands) changes inverses)
  | leaf => apply_leaf pack document leaf
  end.

(** ** The change in validation *)
Definition validation_issue_key (issue : ValidationIssue) : string :=
  match vi_field_path issue with Some path => (vi_code issue ++ ":" ++ path)%string | None => vi_code issue end.
Definition poll_each {A} (l : list A) : PM unit := for_each (λ _, poll) l.
(** Maps and sets of issues are read in the order of their keys; a later issue replaces an earlier one
    with its key. *)
Definition issues_by_key (issues : list ValidationIssue) : gmap string ValidationIssue :=
  foldl (λ m issue, <[validation_issue_key issue := issue]> m) ∅ issues.
Definition added_issues (before after : list ValidationIssue) : list ValidationIssue :=
  (filter (λ entry, entry.1 ∉ validation_issue_key <$> before) (sort_by_key fst (map_to_list (issues_by_key after)))).*2.
Definition resolved_codes (before after : list ValidationIssue) : list string :=
  sort_by_key id (elements (list_to_set (C := gset string)
    (filter (λ code, code ∉ vi_code <$> after) (vi_code <$> before)))).
Definition validation_delta (before after : list ValidationIssue) : PM ValidationDelta :=
  _ ← poll_each before;
  _ ← poll_each after;
  let added := added_issues before after in
  _ ← poll_each added;
  _ ← poll_each after;
  _ ← poll_each before;
  let delta := {| vd_added := added; vd_resolved := resolved_codes before after |} in
  _ ← se_lift (map_err (λ _, CommandResourceLimit) (bounded_json_size (json_delta delta) MAX_COMMAND_VALIDATION_DELTA_BYTES));
  _ ← poll;
  mret delta.

(** ** Applying a command *)
(** [Revision::checked_next] *)
Definition checked_next (revision : Z) : option Z :=
  match u64_checked_add revision 1 with
  | Some value => if value <=? REVISION_MAX_V1 then Some value else None
  | None => None
  end.
Definition finalize_application (pack : CommandPack) (working : Document) (current_revision : Z) (effect : PackCommandEffect)
    (before_issues : list ValidationIssue) : CM AppliedCommand :=
  _ ← check_cancelled;
  _ ← se_lift (measured (json_command (pe_inverse effect)) MAX_COMMAND_INVERSE_BYTES);
  _ ← check_cancelled;
  _ ← on_polls (preflight_command (pe_inverse effect) "/inverse");
  _ ← check_cancelled;
  _ ← se_lift (validate_document_shape working);
  delta ← on_polls (validation_delta before_issues (cp_validate_fast pack working));
  _ ← check_cancelled;
  new_revision ← se_lift (ok_or (RevisionOverflow current_revision) (checked_next current_revision));
  let result := {| cr_new_revision := new_revision; cr_changes := pe_changes effect; cr_validation_delta := delta;
                   cr_inverse := Some (pe_inverse effect) |} in
  _ ← se_lift (map_err (λ _, CommandResourceLimit) (bounded_json_size (json_result result) MAX_COMMAND_RESULT_BYTES));
  _ ← check_cancelled;
  mret {| ap_document := working; ap_result := result; ap_summary := pe_summary effect;
          ap_command_type := pe_command_type effect |}.
(** [ApplyContext::new] *)
Definition ApplyContext_new (document : Document) (command : option ScenarioCommand) : PM (CommandPack * ApplyContext) := λ n,
  let id := dr_id (sdoc_domain_pack document) in
  let unsupported := CommandUnsupported id (from_option command_type "apply_batch" command) in
  match registry_require registry id with
  | Err _ => (Err unsupported, n)
  | Ok pack =>
      if negb (existsb (λ descriptor, bool_decide (pd_id descriptor = id)
                          && supports (pd_scenario_versions descriptor) (dr_schema_version (sdoc_domain_pack document)))
                 (registry_descriptors registry))
      then (Err unsupported, n)
      else match validate_document_shape document with
           | Err error => (Err error, n)
           | Ok _ => (Ok (pack, {| cx_leaf_count := 0; cx_change_count := 0; cx_change_bytes := 2; cx_result_bytes := 2;
                                   cx_inverse_bytes := 0; cx_polls := n |}), n)
           end
  end.
(** The counters are dropped with the context. *)
Definition in_context {A} (x : ApplyContext) (m : CM A) : Result CommandError A := (m x).1.
Definition apply_command_with_registry (document : Document) (current_revision : Z) (envelope : CommandEnvelope) :
    CR AppliedCommand :=
  let '(opened, n) :=
    (_ ← poll;
     _ ← preflight_command (ce_command envelope) "/command";
     _ ← (if negb (bool_decide (ce_scenario_id envelope = sdoc_scenario_id document))
          then se_fail (ScenarioMismatch (ce_scenario_id envelope) (sdoc_scenario_id document))
          else if negb (ce_expected_revision envelope =? current_revision)
          then se_fail (RevisionConflict (ce_expected_revision envelope) current_revision)
          else mret tt);
     ApplyContext_new document (Some (ce_command envelope))) 0%nat in
  opened ← opened;
  let '(pack, context) := opened in
  let before_issues := cp_validate_fast pack document in
  in_context context
    (applied ← apply_nested pack (ce_command envelope) 0 document;
     finalize_application pack applied.1 current_revision applied.2 before_issues).

(** ** Reconciled commands *)
Inductive ReconciledCommandError :=
| RcCommand (error : CommandError) | RcDraftCommand (error : CommandError) | RcReconciliation (error : DomainPackError).
Record PreparedReconciledCommand := { pr_effective_command : ScenarioCommand; pr_applied : AppliedCommand }.
Notation QM := (SE ApplyContext ReconciledCommandError).
Definition wrap {S E F A} (f : E → F) (m : SE S E A) : SE S F A := λ s, let '(r, s) := m s in (map_err f r, s).
Definition reconciliation_command (document : Document) (batch : DomainBatchCommand) : QM ScenarioCommand :=
  _ ← se_lift (map_err RcReconciliation (validate_bounds batch));
  if negb (bool_decide (db_pack_id batch = dr_id (sdoc_domain_pack document)))
     || negb (db_scenario_schema_version batch =? dr_schema_version (sdoc_domain_pack document))
  then se_fail (RcReconciliation (PackInvalidPayload "/reconciliation" "reconciliation identity must match its source document"))
  else
    let command := ApplyBatch (db_label batch) (ApplyDomainCommand <$> db_commands batch) in
    _ ← wrap RcCommand (on_polls (preflight_setup_command command "/reconciliation"));
    mret command.
Definition combine_effects (draft generated : PackCommandEffect) : PackCommandEffect :=
  batch_effect None 2 (pe_changes draft ++ pe_changes generated) [pe_inverse draft; pe_inverse generated].
Record DraftApplication := {
  da_command : ScenarioCommand; da_working : Document; da_before_issues : list ValidationIssue; da_effect : PackCommandEffect
}.
(** Both commands of a combined batch share the leaves of one preflight. *)
Definition preflight_pair (draft generated : ScenarioCommand) : PM unit :=
  run_preflight (_ ← preflight_settings_leaves draft 1; preflight_settings_leaves generated 1).
Definition prepare_draft (pack : CommandPack) (document : Document) (command : ScenarioCommand) : QM DraftApplication :=
  let before_issues := cp_validate_fast pack document in
  applied ← wrap RcDraftCommand (apply_nested pack command 0 document);
  mret {| da_command := command; da_working := applied.1; da_before_issues := before_issues; da_effect := applied.2 |}.
Definition reconcile_application (pack : CommandPack) (document : Document) (draft : option DraftApplication)
    (reconciliation : option ScenarioCommand) : QM (option (Document * list ValidationIssue * ScenarioCommand * PackCommandEffect)) :=
  match draft, reconciliation with
  | None, None => mret None
  | Some draft, None => mret (Some (da_working draft, da_before_issues draft, da_command draft, da_effect draft))
  | None, Some generated =>
      let before_issues := cp_validate_fast pack document in
      applied ← wrap RcCommand (apply_nested pack generated 0 document);
      mret (Some (applied.1, before_issues, generated, applied.2))
  | Some draft, Some generated =>
      _ ← wrap RcCommand (on_polls (preflight_pair (da_command draft) generated));
      _ ← wrap RcCommand (charge_batch_frame None 2);
      applied ← wrap RcCommand (apply_nested pack generated 1 (da_working draft));
      mret (Some (applied.1, da_before_issues draft, ApplyBatch None [da_command draft; generated],
                  combine_effects (da_effect draft) applied.2))
  end.
Definition apply_reconciled_command_with_registry (document : Document) (current_revision : Z) (draft : option ScenarioCommand)
    (reconcile : nat → Document → list Change → PR (option DomainBatchCommand)) :
    Result ReconciledCommandError (option PreparedReconciledCommand) :=
  let '(opened, n) :=
    (_ ← match draft with Some command => preflight_setup_command command "/command" | None => mret tt end;
     ApplyContext_new document draft) 0%nat in
  opened ← map_err RcCommand opened;
  let '(pack, context) := opened in
  ((_ ← wrap RcCommand check_cancelled;
    prepared ← match draft with
               | Some command => draft ← prepare_draft pack document command; mret (Some draft)
               | None => mret None
               end;
    _ ← wrap RcCommand check_cancelled;
    let prospective := from_option da_working document prepared in
    let changes := from_option (λ draft, pe_changes (da_effect draft)) [] prepared in
    answer ← interaction (λ n, reconcile n prospective changes);
    reconciliation ← se_lift (map_err RcReconciliation answer);
    _ ← wrap RcCommand check_cancelled;
    reconciliation ← match reconciliation with
                     | Some batch => command ← reconciliation_command document batch; mret (Some command)
                     | None => mret None
                     end;
    let combined := bool_decide (is_Some prepared) && bool_decide (is_Some reconciliation) in
    outcome ← reconcile_application pack document prepared reconciliation;
    match outcome with
    | None => mret None
    | Some (working, before_issues, effective_command, effect) =>
        _ ← (if combined then wrap RcCommand (on_polls (preflight_setup_command effective_command "/command")) else mret tt);
        applied ← wrap RcCommand (finalize_application pack working current_revision effect before_issues);
        mret (Some {| pr_effective_command := effective_command; pr_applied := applied |})
    end) context).1.
End command.
