(* ===== verification/CommandFacts.v ===== *)
(** * What an applied command has counted

    The counters of an application are exact: the bytes charged for inverses are the bytes of the
    inverse that is returned, although every batch frame is charged before its children are applied
    and no growing prefix is ever measured; the leaves charged are the leaves of the command. *)
From stdpp Require Import base tactics list gmap strings sorting pretty.
From Stdlib Require Import ZArith Lia Ascii.
From S2P Require Import Prelude Ordering Protocol Budget Ids DomainIr Json Portable PortableFacts Scenario Contract ContractFacts Command.
Import Text.
Open Scope string_scope.
Open Scope list_scope.
Open Scope Z_scope.
Create HintDb counting discriminated.

(** Induction over commands with the hypothesis for every command of a batch. *)
Lemma ScenarioCommand_rect' (P : ScenarioCommand → Prop) :
  (∀ c, (∀ label cs, c ≠ ApplyBatch label cs) → P c) →
  (∀ label cs, Forall P cs → P (ApplyBatch label cs)) → ∀ c, P c.
Proof.
  intros H1 H2. fix IH 1. intros c. destruct c as [| | | | | | | | | | |label cs].
  1-11: by apply H1.
  apply H2. induction cs; constructor; [apply IH|assumption].
Qed.
Fixpoint command_leaves (command : ScenarioCommand) : Z :=
  match command with ApplyBatch _ commands => sum_of command_leaves commands | _ => 1 end.
Definition inverse_bytes (c : ScenarioCommand) : Z := json_len (json_command c).
Lemma inverse_bytes_nonneg c : 0 ≤ inverse_bytes c.
Proof. apply json_len_nonneg. Qed.
Lemma command_leaves_nonneg c : 0 ≤ command_leaves c.
Proof.
  induction c as [c Hc|label cs IH] using ScenarioCommand_rect'; [destruct c; cbn; (lia || by destruct (Hc label commands))|].
  cbn [command_leaves]. induction IH; [done|]. rewrite sum_of_cons. lia.
Qed.
Lemma sum_of_map {A B} (f : B → Z) (g : A → B) l : sum_of f (g <$> l) = sum_of (λ a, f (g a)) l.
Proof. induction l as [|a l IH]; [done|]. rewrite fmap_cons, !sum_of_cons. by rewrite IH. Qed.
(** The frame of a batch, its commas and its commands. *)
Lemma batch_bytes label cs :
  inverse_bytes (ApplyBatch label cs) = json_len (json_batch label []) + commas cs + sum_of inverse_bytes cs.
Proof.
  unfold inverse_bytes at 1. cbn [json_command]. unfold json_batch, json_tagged.
  assert (∀ vs, json_len (JArray vs) = 2 + commas vs + sum_of json_len vs) as Ha by done.
  assert (∀ es, json_len (JObject es) = 2 + commas es + sum_of entry_len es) as Ho by done.
  rewrite !Ho, !sum_of_cons. cbn [entry_len]. rewrite !Ho, !sum_of_cons. cbn [entry_len]. rewrite !Ha.
  rewrite sum_of_map. fold inverse_bytes. unfold commas, len. cbn [length]. rewrite length_fmap. cbn [sum_of foldr]. lia.
Qed.

(** ** Counting *)
Definition covers_changes (cs : list Change) (x : ApplyContext) : Prop :=
  cx_change_count x = len cs ∧ json_len (json_changes cs) ≤ cx_change_bytes x.
Record within_limits (x : ApplyContext) : Prop := {
  wl_leaves : 0 ≤ cx_leaf_count x ≤ MAX_BATCH_COMMANDS;
  wl_inverse : 0 ≤ cx_inverse_bytes x ≤ MAX_COMMAND_INVERSE_BYTES;
  wl_changes : cx_change_count x ≤ MAX_DOMAIN_MUTATION_CHANGES ∧ cx_change_bytes x ≤ MAX_DOMAIN_MUTATION_CHANGE_BYTES ∧
    cx_result_bytes x ≤ MAX_DOMAIN_MUTATION_RESULT_BYTES
}.
(** From [x] to [x'], [changes] were recorded, and [inverse] bytes and [leaves] leaves charged. *)
Record grows (changes : list Change) (inverse leaves : Z) (x x' : ApplyContext) : Prop := {
  gr_inverse : cx_inverse_bytes x' = cx_inverse_bytes x + inverse;
  gr_leaves : cx_leaf_count x' = cx_leaf_count x + leaves;
  gr_changes : ∀ cs, covers_changes cs x → covers_changes (cs ++ changes) x'
}.
Notation CM := (SE ApplyContext CommandError).
Notation Outcome A := (A → list Change → Z → Z → Prop).
Definition counts {A} (m : CM A) (P : Outcome A) : Prop := ∀ x a x', within_limits x → m x = (Ok a, x') →
  within_limits x' ∧ ∃ cs i l, grows cs i l x x' ∧ P a cs i l.
Definition free {A} (P : A → Prop) : Outcome A := λ a cs i l, cs = [] ∧ i = 0 ∧ l = 0 ∧ P a.

Lemma grows_trans c1 i1 l1 c2 i2 l2 x x1 x2 :
  grows c1 i1 l1 x x1 → grows c2 i2 l2 x1 x2 → grows (c1 ++ c2) (i1 + i2) (l1 + l2) x x2.
Proof. intros [? ? H1] [? ? H2]. split; [lia|lia|]. intros cs Hc. rewrite app_assoc. auto. Qed.
Lemma grows_same x x' : cx_inverse_bytes x' = cx_inverse_bytes x → cx_leaf_count x' = cx_leaf_count x →
  cx_change_count x' = cx_change_count x → cx_change_bytes x' = cx_change_bytes x → grows [] 0 0 x x'.
Proof. intros ? ? H1 H2. split; [lia|lia|]. intros cs Hc. rewrite app_nil_r. unfold covers_changes. by rewrite H1, H2. Qed.
Lemma counts_bind {A B} (m : CM A) (k : A → CM B) P Q :
  counts m P → (∀ a cs i l, P a cs i l → counts (k a) (λ b cs' i' l', Q b (cs ++ cs') (i + i') (l + l'))) →
  counts (m ≫= k) Q.
Proof.
  intros Hm Hk x b x' Hx (a & x1 & H1 & H2)%se_bind_Ok. destruct (Hm x a x1 Hx H1) as (Hx1 & cs & i & l & Hg & HP).
  destruct (Hk a cs i l HP x1 b x' Hx1 H2) as (Hx' & cs' & i' & l' & Hg' & HQ). eauto 10 using grows_trans.
Qed.
Lemma counts_weaken {A} (m : CM A) P Q : counts m P → (∀ a cs i l, P a cs i l → Q a cs i l) → counts m Q.
Proof. intros Hm H x a x' Hx Hr. destruct (Hm x a x' Hx Hr) as (? & ? & ? & ? & ? & ?). eauto 10. Qed.
Lemma counts_free_bind {A B} (m : CM A) (k : A → CM B) R Q :
  counts m (free R) → (∀ a, R a → counts (k a) Q) → counts (m ≫= k) Q.
Proof. intros Hm Hk. eapply counts_bind; [exact Hm|]. intros a cs i l (-> & -> & -> & HR). cbn. auto. Qed.
Lemma counts_ret {A} (a : A) Q : Q a [] 0 0 → counts (mret a) Q.
Proof. intros HQ x b x' Hx [-> ->]%se_ret_Ok. split; [done|]. exists [], 0, 0. split; [by apply grows_same|done]. Qed.
Lemma counts_fail {A} e (Q : Outcome A) : counts (se_fail e) Q.
Proof. intros x a x' Hx H. by apply se_fail_Ok in H. Qed.
Lemma counts_lift {A} (r : CR A) : counts (se_lift r) (free (λ a, r = Ok a)).
Proof.
  intros x a x' Hx [Hr ->]%se_lift_Ok. split; [done|]. exists [], 0, 0. split; [by apply grows_same|done].
Qed.
Lemma counts_polls {A} (m : SE nat CommandError A) : counts (on_polls m) (free (λ _, True)).
Proof.
  intros x a x' [H1 H2 H3]. unfold on_polls. destruct (m (cx_polls x)) as [r n]. intros [= -> <-].
  split; [by split|]. exists [], 0, 0. split; [by apply grows_same|done].
Qed.
Lemma counts_check cancelled : counts (check_cancelled cancelled) (free (λ _, True)).
Proof. by apply counts_polls. Qed.
Lemma counts_interaction {A} (f : nat → A) : counts (interaction f) (free (λ a, ∃ n, a = f n)).
Proof.
  intros x a x' [H1 H2 H3] [= <- <-]. split; [by split|]. exists [], 0, 0. split; [by apply grows_same|]. repeat split; eauto.
Qed.
Lemma counts_leaves n : 0 ≤ n → counts (charge_leaves n) (λ _ cs i l, cs = [] ∧ i = 0 ∧ l = n).
Proof.
  intros Hn x a x' [H1 H2 H3]. unfold charge_leaves, u64_saturating_add. cbn [cx_leaf_count].
  destruct (Z.ltb_spec MAX_BATCH_COMMANDS (Z.min (cx_leaf_count x + n) u64_max)) as [|Hle]; [done|]. intros [= <- <-].
  assert (Z.min (cx_leaf_count x + n) u64_max = cx_leaf_count x + n) as E by (unfold MAX_BATCH_COMMANDS, u64_max in *; lia).
  rewrite E in *. split; [split; cbn; [lia|done|done]|]. exists [], 0, n. split; [|done]. split; cbn; [lia|done|].
  intros cs Hc. by rewrite app_nil_r.
Qed.
Lemma counts_inverse v : counts (charge_inverse v) (λ _ cs i l, cs = [] ∧ i = json_len v ∧ l = 0).
Proof.
  intros x a x' [H1 H2 H3]. unfold charge_inverse.
  destruct (bounded_json_size v _) as [n|] eqn:E; [|done]. apply bounded_size_Ok in E as (-> & Hle & _). intros [= <- <-].
  pose proof (json_len_nonneg v). split; [split; cbn; [done|lia|done]|].
  exists [], (json_len v), 0. split; [|done]. split; cbn; [done|lia|]. intros cs Hc. by rewrite app_nil_r.
Qed.
Lemma counts_frame label n : counts (charge_batch_frame label n)
  (λ _ cs i l, cs = [] ∧ i = json_len (json_batch label []) + Z.max 0 (n - 1) ∧ l = 0).
Proof.
  eapply counts_bind; [apply counts_inverse|]. intros _ cs i l (-> & -> & ->). intros x a x' [H1 H2 H3]. unfold se_state.
  unfold u64_saturating_add. cbn [cx_inverse_bytes with_inverse_bytes].
  destruct (Z.ltb_spec MAX_COMMAND_INVERSE_BYTES (Z.min (cx_inverse_bytes x + Z.max 0 (n - 1)) u64_max)) as [|Hle]; [done|].
  intros [= <- <-].
  assert (Z.min (cx_inverse_bytes x + Z.max 0 (n - 1)) u64_max = cx_inverse_bytes x + Z.max 0 (n - 1)) as E
    by (unfold MAX_COMMAND_INVERSE_BYTES, u64_max in *; lia).
  rewrite E in *. split; [split; cbn; [done|lia|done]|]. exists [], (Z.max 0 (n - 1)), 0. split; [|by rewrite app_nil_r].
  split; cbn; [done|lia|]. intros cs Hc. by rewrite app_nil_r.
Qed.
Lemma changes_bytes cs cs' : json_len (json_changes (cs ++ cs')) =
  json_len (json_changes cs) + (json_len (json_changes cs') - 2) + (if (len cs =? 0) || (len cs' =? 0) then 0 else 1).
Proof.
  unfold json_changes. cbn [json_len]. unfold commas, len. rewrite fmap_app, sum_of_app, !length_app, !length_fmap.
  destruct (Z.eqb_spec (Z.of_nat (length cs)) 0); destruct (Z.eqb_spec (Z.of_nat (length cs')) 0); cbn [orb]; lia.
Qed.
Lemma changes_bytes_pos cs : 2 ≤ json_len (json_changes cs).
Proof.
  unfold json_changes. cbn [json_len]. pose proof (sum_of_nonneg json_len (json_change <$> cs) json_len_nonneg).
  unfold commas. lia.
Qed.
(** Bytes at least as many as those of the changes are charged for them. *)
Lemma counts_output cancelled cs n bytes result_bytes : n = len cs → json_len (json_changes cs) ≤ bytes →
  counts (charge_output cancelled n bytes result_bytes) (λ _ cs' i l, cs' = cs ∧ i = 0 ∧ l = 0).
Proof.
  intros -> Hbytes. unfold charge_output.
  eapply (counts_bind _ _ (λ _ cs' i l, cs' = cs ∧ i = 0 ∧ l = 0)).
  - intros x a x' [H1 H2 (H3 & H4 & H5)]. unfold se_state. cbn [cx_change_count cx_change_bytes cx_result_bytes].
    destruct (_ || _) eqn:E; [done|]. intros [= <- <-].
    apply orb_false_iff in E as [[E1%Z.ltb_ge E2%Z.ltb_ge]%orb_false_iff E3%Z.ltb_ge].
    split; [split; cbn; [done|done|lia]|]. exists cs, 0, 0. split; [|done]. split; cbn; [lia|lia|].
    intros cs0 [Hn Hb]. pose proof (len_nonneg cs0). pose proof (len_nonneg cs). pose proof (changes_bytes_pos cs).
    unfold covers_changes. cbn [cx_change_count cx_change_bytes]. rewrite changes_bytes.
    unfold u64_saturating_add, MAX_DOMAIN_MUTATION_CHANGES, u64_max in *.
    split; [unfold len in *; rewrite length_app; lia|]. unfold added_change_bytes, u64_saturating_add, u64_max, MAX_DOMAIN_MUTATION_CHANGE_BYTES in *.
    rewrite Hn in *. destruct (Z.eqb_spec (len cs) 0) as [Hz|Hz].
    + rewrite orb_true_r. destruct cs; [|unfold len in Hz; cbn in Hz; lia]. change (json_len (json_changes [])) with 2. lia.
    + rewrite orb_false_r. destruct (Z.eqb_spec (len cs0) 0); lia.
  - intros _ cs' i l (-> & -> & ->). eapply counts_weaken; [apply counts_check|].
    intros _ cs' i l (-> & -> & -> & _). by rewrite app_nil_r.
Qed.
Lemma counts_for_each {A} (f : A → CM unit) l : (∀ a, counts (f a) (free (λ _, True))) → counts (for_each f l) (free (λ _, True)).
Proof.
  intros Hf. induction l as [|a l IH]; cbn [for_each]; [by apply counts_ret|].
  eapply counts_free_bind; [apply Hf|]. intros _ _. exact IH.
Qed.
Lemma counts_fold {A B} (f : B → A → CM B) (I : list A → Outcome B) done_ b l :
  (∀ b a done_ cs i l, I done_ b cs i l → counts (f b a) (λ b' cs' i' l', I (done_ ++ [a]) b' (cs ++ cs') (i + i') (l + l'))) →
  ∀ cs i n, I done_ b cs i n → counts (fold_m f b l) (λ b' cs' i' n', I (done_ ++ l) b' (cs ++ cs') (i + i') (n + n')).
Proof.
  intros Hf. revert b done_. induction l as [|a l IH]; intros b done_ cs i n Hb; cbn [fold_m].
  - apply counts_ret. by rewrite !app_nil_r, !Z.add_0_r.
  - eapply counts_bind; [apply Hf, Hb|]. intros b' cs' i' l' Hb'. cbn in Hb'.
    eapply counts_weaken; [apply (IH b' (done_ ++ [a]) _ _ _ Hb')|].
    intros b2 cs2 i2 l2. rewrite <-!app_assoc, <-!Z.add_assoc. done.
Qed.

Section counted.
Context (unicode_lowercase : Z → list Z) (parse_uuid : string → option (string * Z)).
Context (cancelled : nat → bool) (registry : gmap string (Registration (Pack := CommandPack))) (pack : CommandPack).
Notation check := (check_cancelled cancelled).
Notation check_ok := (counts_check cancelled).
(** What an applied command records, and charges for its inverse. *)
Definition applied_counts (leaves : Z) (r : Document * PackCommandEffect) (cs : list Change) (i l : Z) : Prop :=
  cs = pe_changes r.2 ∧ i = inverse_bytes (pe_inverse r.2) ∧ l = leaves.
Lemma push_counts changes change : counts (push_settings_change cancelled changes change)
  (λ changes' cs i l, changes' = changes ++ [change] ∧ cs = [change] ∧ i = 0 ∧ l = 0).
Proof.
  unfold push_settings_change. eapply counts_free_bind; [apply counts_lift|]. intros bytes Hb.
  apply map_err_Ok, bounded_size_Ok in Hb as (-> & _ & _).
  eapply counts_bind; [apply (counts_output cancelled [change]); [done|lia]|]. intros _ cs i l (-> & -> & ->).
  by apply counts_ret.
Qed.
Lemma settings_count document command :
  counts (set_scenario_settings unicode_lowercase cancelled pack document command) (applied_counts 0).
Proof.
  unfold set_scenario_settings.
  eapply counts_free_bind; [apply counts_interaction|]. intros reconciled _.
  eapply counts_free_bind; [apply counts_lift|]. intros mutation _.
  eapply counts_free_bind; [apply check_ok|]. intros _ _. destruct (_ || _); [apply counts_fail|].
  eapply counts_free_bind; [apply counts_for_each|].
  { intros record. eapply counts_free_bind; [apply check_ok|]. intros _ _. eapply counts_weaken; [apply counts_lift|].
    unfold free. naive_solver. }
  intros _ _. eapply counts_free_bind; [apply counts_lift|]. intros _ _.
  eapply counts_free_bind; [apply counts_lift|]. intros _ _.
  eapply counts_bind; [apply counts_inverse|]. intros _ cs i l (-> & -> & ->).
  eapply (counts_bind _ _ (λ changes cs i l, cs = changes ∧ i = 0 ∧ l = 0)).
  { case_bool_decide; [by apply counts_ret|]. eapply counts_weaken; [apply push_counts|]. naive_solver. }
  intros changes cs i l (-> & -> & ->).
  eapply counts_bind.
  { apply (counts_fold _ (λ _ changes' cs' i' l', cs' = changes' ∧ i' = 0 ∧ l' = 0) [] changes _) with (cs := changes) (i := 0) (n := 0); [|done].
    intros b [id after] _ cs i l (-> & -> & ->). eapply counts_free_bind; [apply check_ok|]. intros _ _.
    eapply counts_free_bind; [apply counts_lift|]. intros before _.
    destruct (json_eqb before after); [apply counts_ret; by rewrite app_nil_r|].
    eapply counts_weaken; [apply push_counts|]. naive_solver. }
  cbn beta. intros changes' cs' i' l' (Hcs & Hi & Hl).
  eapply counts_free_bind; [apply counts_lift|]. intros _ _.
  eapply counts_free_bind; [apply counts_lift|]. intros _ _.
  eapply counts_free_bind; [apply check_ok|]. intros _ _. apply counts_ret. unfold applied_counts. cbn.
  unfold inverse_bytes. rewrite app_nil_r. split_and!; [done|cbn; lia|lia].
Qed.
Definition run_counts (effect : DomainRunEffect) (n : Z) (effect' : DomainRunEffect) (cs : list Change) (i l : Z) : Prop :=
  re_changes effect' = re_changes effect ++ cs ∧ l = 0 ∧
  ∃ new, re_inverses effect' = re_inverses effect ++ new ∧ i = sum_of inverse_bytes new ∧ len new = n.
Lemma run_counts_trans e n e1 cs i l e2 n' cs' i' l' :
  run_counts e n e1 cs i l → run_counts e1 n' e2 cs' i' l' → run_counts e (n + n') e2 (cs ++ cs') (i + i') (l + l').
Proof.
  intros (H1 & -> & new & H2 & -> & <-) (H3 & -> & new' & H4 & -> & <-). split_and!; [by rewrite H3, H1, app_assoc|done|].
  exists (new ++ new'). rewrite H4, H2, app_assoc, sum_of_app. unfold len. rewrite length_app. split_and!; [done|done|lia].
Qed.
Lemma mutation_counts original batch mutation commands :
  counts (validate_domain_mutation unicode_lowercase parse_uuid cancelled registry original batch mutation commands)
    (free (λ _, len (db_commands (dm_inverse mutation)) = len (db_commands batch))).
Proof.
  unfold validate_domain_mutation. eapply counts_free_bind; [apply check_ok|]. intros _ _.
  destruct (_ || _) eqn:E; [apply counts_fail|].
  apply orb_false_iff in E as [[_ E%negb_false_iff%Z.eqb_eq]%orb_false_iff _].
  eapply counts_free_bind; [apply counts_lift|]. intros result_bytes _.
  eapply counts_free_bind; [apply counts_lift|]. intros change_bytes _. destruct (negb _); [apply counts_fail|].
  do 2 (eapply counts_free_bind; [apply counts_lift|]; intros _ _). destruct (_ || _); [apply counts_fail|].
  eapply counts_free_bind; [apply counts_lift|]; intros _ _.
  assert (∀ (r : CR unit), counts (_ ← check; se_lift r) (free (λ _, True))) as Hstep.
  { intros r. eapply counts_free_bind; [apply check_ok|]. intros _ _. eapply counts_weaken; [apply counts_lift|].
    unfold free. naive_solver. }
  eapply counts_free_bind; [apply counts_for_each; intros; apply Hstep|]. intros _ _.
  eapply (counts_free_bind _ _ (λ _, True)).
  { unfold validate_domain_changes. eapply (counts_free_bind _ _ (λ _, True)); [|intros; by apply counts_ret].
    eapply counts_weaken; [apply (counts_fold _ (λ _ _ cs i l, cs = [] ∧ i = 0 ∧ l = 0) [] None _) with (cs := []) (i := 0) (n := 0); [|done]|].
    - intros previous change _ cs i l (-> & -> & ->). eapply counts_free_bind; [apply check_ok|]. intros _ _.
      destruct (match previous with Some _ => _ | None => _ end); [apply counts_fail|].
      do 2 (eapply counts_free_bind; [apply counts_lift|]; intros ? _). by apply counts_ret.
    - cbn beta. unfold free. intros ? cs i l (? & ? & ?). done. }
  intros _ _. eapply counts_free_bind; [apply counts_for_each; intros; apply Hstep|]. intros _ _.
  eapply counts_free_bind; [apply check_ok|]. intros _ _. by apply counts_ret.
Qed.
Lemma accept_counts batch registered mutation effect :
  counts (accept_domain_mutation unicode_lowercase parse_uuid cancelled registry batch registered mutation effect)
    (run_counts effect (len (db_commands batch))).
Proof.
  unfold accept_domain_mutation. eapply counts_free_bind; [apply mutation_counts|]. intros bytes Hlen.
  eapply (counts_free_bind _ _ (λ _, True)).
  { eapply counts_weaken; [apply (counts_fold _ (λ _ _ cs i l, cs = [] ∧ i = 0 ∧ l = 0) [] [] _) with (cs := []) (i := 0) (n := 0); [|done]|].
    - intros changes change _ cs i l (-> & -> & ->). eapply counts_free_bind; [apply check_ok|]. intros _ _.
      eapply counts_free_bind; [apply counts_lift|]. intros ? _. by apply counts_ret.
    - cbn beta. intros changes cs i l (? & ? & ?). unfold free. split_and!; [done|lia|lia|exact I]. }
  intros changes _. eapply counts_free_bind; [apply counts_lift|]. intros translated Ht.
  apply map_err_Ok, bounded_size_Ok in Ht as (-> & _ & _).
  eapply counts_bind; [apply (counts_output cancelled changes); [done|lia]|]. intros _ cs i l (-> & -> & ->).
  eapply counts_bind.
  { apply (counts_fold _ (λ done_ inverses cs i l, inverses = ApplyDomainCommand <$> done_ ∧ cs = [] ∧ i = sum_of inverse_bytes inverses ∧ l = 0)
      [] [] _) with (cs := []) (i := 0) (n := 0); [|done].
    intros inverses inverse done_ cs i l (-> & -> & -> & ->). eapply counts_free_bind; [apply check_ok|]. intros _ _.
    eapply counts_bind; [apply counts_inverse|]. intros _ cs i l (-> & -> & ->). apply counts_ret.
    rewrite fmap_app, sum_of_app. split_and!; [done|done| |done]. unfold sum_of at 3. cbn. unfold inverse_bytes. lia. }
  cbn beta. intros inverses cs i l (Hi & Hcs & Hsum & Hl). eapply counts_free_bind; [apply check_ok|]. intros _ _.
  apply counts_ret. unfold run_counts. cbn. cbn in Hcs. subst cs. rewrite !app_nil_r. split_and!; [done|lia|].
  exists inverses. split_and!; [done|lia|]. subst inverses. rewrite <-Hlen. unfold len. cbn [app]. by rewrite length_fmap, length_reverse.
Qed.
Notation chunk_loop := (apply_domain_chunk_loop unicode_lowercase parse_uuid cancelled registry pack).
Lemma chunk_counts fuel : ∀ commands registered effect,
  counts (chunk_loop fuel commands registered effect) (run_counts effect (len commands)).
Proof.
  induction fuel as [|fuel IH]; intros commands registered effect; cbn [apply_domain_chunk_loop].
  all: eapply counts_free_bind; [apply check_ok|]; intros _ _; eapply counts_free_bind; [apply counts_interaction|];
    intros mutation _; eapply counts_free_bind; [apply check_ok|]; intros _ _.
  all: destruct mutation as [mutation|error]; [apply accept_counts|].
  - destruct commands as [|? []], error; apply counts_fail.
  - destruct error; try (destruct commands as [|? []]; apply counts_fail).
    destruct (1 <? len commands); [|destruct commands as [|? []]; apply counts_fail].
    eapply counts_bind; [apply IH|]. intros effect1 cs i l H1. eapply counts_weaken; [apply IH|].
    intros effect2 cs' i' l' H2. pose proof (run_counts_trans _ _ _ _ _ _ _ _ _ _ _ H1 H2) as H.
    replace (len commands) with (len (take (length commands / 2) commands) + len (drop (length commands / 2) commands)); [done|].
    unfold len. rewrite length_take, length_drop. lia.
Qed.
Lemma chunk_applied commands registered effect :
  counts (apply_domain_chunk unicode_lowercase parse_uuid cancelled registry pack commands registered effect)
    (run_counts effect (len commands)).
Proof. apply chunk_counts. Qed.
Lemma run_counts_none effect n : n = 0 → run_counts effect n effect [] 0 0.
Proof. intros ->. split_and!; [by rewrite app_nil_r|done|]. exists []. by rewrite app_nil_r. Qed.
Lemma flush_counts chunk effect :
  counts (flush_chunk unicode_lowercase parse_uuid cancelled registry pack chunk effect)
    (run_counts effect (len (dk_commands chunk))).
Proof.
  unfold flush_chunk. destruct (Z.eqb_spec (len (dk_commands chunk)) 0); [|apply chunk_applied].
  by apply counts_ret, run_counts_none.
Qed.
Lemma run_loop_counts framing frame_nodes envelopes : ∀ chunk effect,
  counts (domain_run_loop unicode_lowercase parse_uuid cancelled registry pack framing frame_nodes envelopes chunk effect)
    (run_counts effect (len (dk_commands chunk) + len envelopes)).
Proof.
  induction envelopes as [|envelope envelopes IH]; intros chunk effect; cbn [domain_run_loop].
  { eapply counts_weaken; [apply flush_counts|]. intros e cs i l. change (len (@nil DomainCommandEnvelope)) with 0. by rewrite Z.add_0_r. }
  eapply counts_free_bind; [apply check_ok|]. intros _ _.
  destruct (domain_input _ _ _ _ _ _ _) as [[[command size] nodes]|error].
  2:{ eapply counts_bind; [apply flush_counts|]. intros ? ? ? ? _. eapply counts_free_bind; [apply check_ok|]. intros _ _. apply counts_fail. }
  assert (len (envelope :: envelopes) = 1 + len envelopes) as Hlen by (unfold len; cbn; lia).
  destruct (_ || _).
  - eapply counts_bind; [apply chunk_applied|]. intros effect1 cs i l H1. eapply counts_weaken; [apply IH|].
    intros effect2 cs' i' l' H2. pose proof (run_counts_trans _ _ _ _ _ _ _ _ _ _ _ H1 H2) as H. by rewrite Hlen.
  - eapply counts_weaken; [apply IH|]. intros effect1 cs i l. cbn [dk_commands push_command].
    replace (len (dk_commands chunk ++ [envelope]) + len envelopes) with (len (dk_commands chunk) + len (envelope :: envelopes)); [done|].
    rewrite Hlen. unfold len. rewrite length_app. cbn. lia.
Qed.
Lemma domain_run_counts document envelopes :
  counts (apply_domain_run unicode_lowercase parse_uuid cancelled registry pack document envelopes)
    (λ effect cs i l, re_changes effect = cs ∧ l = 0 ∧ i = sum_of inverse_bytes (re_inverses effect) ∧
                      len (re_inverses effect) = len envelopes).
Proof.
  unfold apply_domain_run. eapply counts_free_bind; [apply counts_lift|]. intros framing _.
  eapply counts_weaken; [apply run_loop_counts|]. intros effect cs i l (H1 & H2 & new & H3 & H4 & H5). cbn in H1, H3.
  subst new. done.
Qed.
Lemma leaf_counts document command : (∀ label cs, command ≠ ApplyBatch label cs) →
  counts (apply_leaf unicode_lowercase parse_uuid cancelled registry pack document command) (applied_counts 1).
Proof.
  intros Hc. unfold apply_leaf. eapply counts_bind; [by apply counts_leaves|]. intros _ cs i l (-> & -> & ->).
  assert (∀ m, counts m (applied_counts 0) → counts m (λ b cs' i' l', applied_counts 1 b ([] ++ cs') (0 + i') (1 + l'))) as Hw.
  { intros m Hm. eapply counts_weaken; [exact Hm|]. intros r cs i l (-> & -> & ->). done. }
  assert (∀ c, counts (if bool_decide (dr_id (sdoc_domain_pack document) = OFFICIAL_TEST_PACK_ID) then
        applied ← se_lift (apply_official_test_leaf unicode_lowercase document c);
        bytes ← se_lift (measured (json_changes (pe_changes applied.2)) MAX_DOMAIN_MUTATION_CHANGE_BYTES);
        _ ← charge_output cancelled (len (pe_changes applied.2)) bytes 2;
        _ ← charge_inverse (json_command (pe_inverse applied.2));
        mret applied
      else unsupported document c) (applied_counts 0)) as Hleaf.
  { intros c. case_bool_decide; [|apply counts_fail]. eapply counts_free_bind; [apply counts_lift|]. intros applied _.
    eapply counts_free_bind; [apply counts_lift|]. intros bytes Hb. apply map_err_Ok, bounded_size_Ok in Hb as (-> & _ & _).
    eapply counts_bind; [apply (counts_output cancelled (pe_changes applied.2)); [done|lia]|]. intros _ cs i l (-> & -> & ->).
    eapply counts_bind; [apply counts_inverse|]. intros _ cs i l (-> & -> & ->). apply counts_ret.
    unfold applied_counts, inverse_bytes. rewrite !app_nil_r. split_and!; [done|lia|done]. }
  apply Hw. destruct command; try apply Hleaf; [apply settings_count|].
  eapply counts_bind; [apply domain_run_counts|]. intros effect cs i l (<- & -> & -> & Hn).
  destruct (re_inverses effect) as [|inverse []] eqn:E; [apply counts_fail| |unfold len in Hn; cbn in Hn; lia].
  cbn [last]. apply counts_ret. unfold applied_counts. cbn [snd pe_changes pe_inverse]. rewrite sum_of_cons, app_nil_r.
  change (sum_of inverse_bytes []) with 0. split_and!; [done|lia|done].
Qed.
Definition children_count (n : Z) (leaves : Z) (changes : list Change) (inverses : list ScenarioCommand)
    (r : Document * list Change * list ScenarioCommand) (cs : list Change) (i l : Z) : Prop :=
  r.1.2 = changes ++ cs ∧ l = leaves ∧
  ∃ new, r.2 = inverses ++ new ∧ i = sum_of inverse_bytes new ∧ len new = n.
Lemma flush_run_counts run document changes inverses :
  counts (flush_run unicode_lowercase parse_uuid cancelled registry pack run document changes inverses)
    (children_count (len run) (len run) changes inverses).
Proof.
  unfold flush_run. destruct (Z.eqb_spec (len run) 0) as [Hz|Hz].
  { apply counts_ret. unfold children_count. cbn. rewrite app_nil_r. split_and!; [done|lia|]. exists []. rewrite app_nil_r. done. }
  eapply counts_free_bind; [apply check_ok|]. intros _ _.
  eapply counts_bind; [apply counts_leaves, len_nonneg|]. intros _ cs i l (-> & -> & ->).
  eapply counts_bind; [apply domain_run_counts|]. intros effect cs i l (<- & -> & -> & Hn). apply counts_ret.
  unfold children_count. cbn. rewrite app_nil_r. split_and!; [done|lia|]. exists (re_inverses effect). split_and!; [done|lia|done].
Qed.
Definition nested_counts (command : ScenarioCommand) : Prop := ∀ depth document,
  counts (apply_nested unicode_lowercase parse_uuid cancelled registry pack command depth document)
    (applied_counts (command_leaves command)).
Lemma children_counts children : Forall nested_counts children → ∀ depth run document changes inverses,
  counts (apply_children unicode_lowercase parse_uuid cancelled registry pack
            (λ child, apply_nested unicode_lowercase parse_uuid cancelled registry pack child depth) children run document changes inverses)
    (children_count (len run + len children) (len run + sum_of command_leaves children) changes inverses).
Proof.
  induction 1 as [|child children Hchild _ IH]; intros depth run document changes inverses.
  { cbn [apply_children]. eapply counts_weaken; [apply flush_run_counts|]. intros r cs i l.
    change (len (@nil ScenarioCommand)) with 0. change (sum_of command_leaves []) with 0. by rewrite Z.add_0_r. }
  assert (len (child :: children) = 1 + len children) as Hlen by (unfold len; cbn; lia). rewrite Hlen, sum_of_cons.
  assert (counts (flushed ← flush_run unicode_lowercase parse_uuid cancelled registry pack run document changes inverses;
      let '(document, changes, inverses) := flushed in
      _ ← check;
      applied ← apply_nested unicode_lowercase parse_uuid cancelled registry pack child depth document;
      apply_children unicode_lowercase parse_uuid cancelled registry pack
        (λ child, apply_nested unicode_lowercase parse_uuid cancelled registry pack child depth) children [] applied.1
        (changes ++ pe_changes applied.2) (inverses ++ [pe_inverse applied.2]))
      (children_count (len run + (1 + len children)) (len run + (command_leaves child + sum_of command_leaves children)) changes inverses))
    as Hother.
  { eapply counts_bind; [apply flush_run_counts|]. intros [[document1 changes1] inverses1] cs i l (H1 & -> & new & H2 & -> & H3).
    cbn in H1, H2. subst changes1 inverses1. eapply counts_free_bind; [apply check_ok|]. intros _ _.
    eapply counts_bind; [apply Hchild|]. intros applied cs1 i1 l1 (-> & -> & ->). eapply counts_weaken; [apply IH|].
    intros r cs' i' l' (H4 & -> & new' & H5 & -> & H6). unfold children_count. split_and!.
    - by rewrite H4, <-!app_assoc.
    - change (len (@nil DomainCommandEnvelope)) with 0. lia.
    - exists (new ++ pe_inverse applied.2 :: new'). rewrite H5, <-!app_assoc, sum_of_app, sum_of_cons.
      split_and!; [done|lia|]. change (len (@nil DomainCommandEnvelope)) with 0 in H6. unfold len in *. rewrite length_app. cbn. lia. }
  destruct child; try exact Hother. cbn [apply_children]. eapply counts_weaken; [apply IH|].
  intros r cs i l. cbn [command_leaves]. assert (len (run ++ [envelope]) = len run + 1) as -> by (unfold len; rewrite length_app; cbn; lia).
  by rewrite <-!Z.add_assoc.
Qed.
Lemma nested_counted command : nested_counts command.
Proof.
  induction command as [command Hc|label commands IH] using ScenarioCommand_rect'; intros depth document.
  - assert (apply_nested unicode_lowercase parse_uuid cancelled registry pack command depth document =
      (_ ← check; apply_leaf unicode_lowercase parse_uuid cancelled registry pack document command)) as ->
      by (destruct command; (done || by destruct (Hc label commands))).
    assert (command_leaves command = 1) as -> by (destruct command; (done || by destruct (Hc label commands))).
    eapply counts_free_bind; [apply check_ok|]. intros _ _. by apply leaf_counts.
  - cbn [apply_nested]. eapply counts_free_bind; [apply check_ok|]. intros _ _.
    eapply counts_free_bind; [apply counts_lift|]. intros _ _.
    eapply counts_bind; [apply counts_frame|]. intros _ cs i l (-> & -> & ->).
    eapply counts_bind; [apply children_counts, IH|]. intros [[document1 changes] inverses] cs i l (H1 & -> & new & H2 & -> & H3).
    cbn in H1, H2. subst changes inverses. apply counts_ret. unfold applied_counts. cbn [batch_effect pe_changes pe_inverse snd].
    rewrite batch_bytes, !app_nil_r. cbn [app]. split_and!; [done| |cbn [command_leaves]; change (len (@nil DomainCommandEnvelope)) with 0; lia].
    rewrite (sum_of_perm _ _ _ (reverse_Permutation new)). unfold commas in *.
    change (len (@nil DomainCommandEnvelope)) with 0 in H3. unfold len in *. rewrite length_reverse. lia.
Qed.
End counted.

(** ** What was counted *)
Section counted_commands.
Context (unicode_lowercase : Z → list Z) (parse_uuid : string → option (string * Z)).
Context (cancelled : nat → bool) (registry : gmap string (Registration (Pack := CommandPack))).

(** C12. From counters within their limits, a command that applies leaves the counters within their
    limits, having charged one leaf for every leaf of the command and, for its inverse, exactly the
    bytes of the inverse it returns, at any depth of nested batches and runs of domain commands; the
    changes counted are exactly the changes it returns, and their bytes are covered by the bytes
    charged. *)
Theorem application_counts_exactly pack command depth document x document' effect x' :
  within_limits x →
  apply_nested unicode_lowercase parse_uuid cancelled registry pack command depth document x = (Ok (document', effect), x') →
  within_limits x' ∧
  cx_leaf_count x' = cx_leaf_count x + command_leaves command ∧
  cx_inverse_bytes x' = cx_inverse_bytes x + json_len (json_command (pe_inverse effect)) ∧
  (∀ recorded, covers_changes recorded x → covers_changes (recorded ++ pe_changes effect) x').
Proof.
  intros Hx Hr.
  destruct (nested_counted unicode_lowercase parse_uuid cancelled registry pack command depth document x _ x' Hx Hr)
    as (Hx' & cs & i & l & [H1 H2 H3] & -> & -> & ->). done.
Qed.

Lemma opened_within document command n pack x n' :
  ApplyContext_new unicode_lowercase registry document command n = (Ok (pack, x), n') → within_limits x ∧ covers_changes [] x ∧
  cx_leaf_count x = 0 ∧ cx_inverse_bytes x = 0 ∧ n = n' ∧ validate_document_shape unicode_lowercase document = Ok tt.
Proof.
  unfold ApplyContext_new. destruct (registry_require _ _) as [pack'|]; [|done]. destruct (negb _); [done|].
  destruct (validate_document_shape _ _) as [[]|] eqn:E; [|done]. intros [= _ <- <-]. split_and!; done.
Qed.
(** A successful application, step by step. *)
Lemma applied_steps document revision envelope applied :
  apply_command_with_registry unicode_lowercase parse_uuid cancelled registry document revision envelope = Ok applied →
  ∃ n pack x effect x1 delta x2,
    (preflight_command unicode_lowercase cancelled (ce_command envelope) "/command" 1%nat).1 = Ok tt ∧
    ce_scenario_id envelope = sdoc_scenario_id document ∧ ce_expected_revision envelope = revision ∧
    ApplyContext_new unicode_lowercase registry document (Some (ce_command envelope)) n = (Ok (pack, x), n) ∧
    apply_nested unicode_lowercase parse_uuid cancelled registry pack (ce_command envelope) 0 document x
      = (Ok (ap_document applied, effect), x1) ∧
    finalize_application unicode_lowercase cancelled pack (ap_document applied) revision effect (cp_validate_fast pack document) x1
      = (Ok applied, x2) ∧
    checked_next revision = Some (cr_new_revision (ap_result applied)) ∧
    ap_result applied = {| cr_new_revision := cr_new_revision (ap_result applied); cr_changes := pe_changes effect;
                           cr_validation_delta := delta; cr_inverse := Some (pe_inverse effect) |}.
Proof.
  unfold apply_command_with_registry.
  match goal with |- context [let '(_, _) := ?m in _] => destruct m as [opened n] eqn:Eo end. destruct opened as [[pack x]|]; [|done]. cbn [mbind Result_bind].
  apply se_bind_Ok in Eo as ([] & n0 & H0 & (u & n1 & H1 & (u2 & n2 & H2 & H3)%se_bind_Ok)%se_bind_Ok).
  assert (n0 = 1%nat) as -> by (unfold poll in H0; destruct (cancelled 0); congruence).
  unfold in_context. match goal with |- fst (?m x) = _ → _ => destruct (m x) as [r x2] eqn:Er end. cbn [fst]. intros ->.
  apply se_bind_Ok in Er as ([document' effect] & x1 & Ha & Hf). cbn [fst snd] in Hf.
  pose proof (opened_within _ _ _ _ _ _ H3) as (_ & _ & _ & _ & <- & _).
  destruct (bool_decide_reflect (ce_scenario_id envelope = sdoc_scenario_id document)); [|done]. cbn [negb] in H2.
  destruct (Z.eqb_spec (ce_expected_revision envelope) revision); [|done].
  pose proof Hf as Hf'. unfold finalize_application in Hf'.
  repeat match goal with H : (_ ≫= _) _ = (Ok _, _) |- _ => apply se_bind_Ok in H as (? & ? & ? & H) end.
  apply se_ret_Ok in Hf' as [-> _]. cbn [ap_document ap_result cr_new_revision] in *.
  match goal with H : se_lift (ok_or (RevisionOverflow _) _) _ = _ |- _ => apply se_lift_Ok in H as [?%ok_or_Ok _] end.
  destruct u. eexists n2, pack, x, effect, x1, _, x2. rewrite H1. split_and!; try done.
Qed.
Lemma checked_next_Some revision next : checked_next revision = Some next →
  next = revision + 1 ∧ next ≤ REVISION_MAX_V1.
Proof.
  unfold checked_next, u64_checked_add, checked_u64. destruct (_ && _); [|done]. destruct (Z.leb_spec (revision + 1) REVISION_MAX_V1); [|done].
  by intros [= <-].
Qed.

(** C22. An applied command has at most a thousand leaves, and what it returns is bounded however it
    was nested: its changes in number and in bytes, its inverse, its result; the revision is the
    next one and representable. *)
Theorem applied_command_bounded document revision envelope applied :
  apply_command_with_registry unicode_lowercase parse_uuid cancelled registry document revision envelope = Ok applied →
  let result := ap_result applied in
  command_leaves (ce_command envelope) ≤ MAX_BATCH_COMMANDS ∧
  len (cr_changes result) ≤ MAX_DOMAIN_MUTATION_CHANGES ∧
  json_len (json_changes (cr_changes result)) ≤ MAX_DOMAIN_MUTATION_CHANGE_BYTES ∧
  (∃ inverse, cr_inverse result = Some inverse ∧ json_len (json_command inverse) ≤ MAX_COMMAND_INVERSE_BYTES) ∧
  json_len (json_result result) ≤ MAX_COMMAND_RESULT_BYTES ∧
  cr_new_revision result = revision + 1 ∧ cr_new_revision result ≤ REVISION_MAX_V1.
Proof.
  intros H. destruct (applied_steps _ _ _ _ H) as (n & pack & x & effect & x1 & delta & x2 & _ & _ & _ & Ho & Ha & Hf & Hn & Hr).
  destruct (opened_within _ _ _ _ _ _ Ho) as (Hw & Hc & Hl & Hi & _).
  destruct (nested_counted unicode_lowercase parse_uuid cancelled registry pack _ 0 document x _ x1 Hw Ha)
    as ([W1 W2 (W3 & W4 & W5)] & cs & i & l & [G1 G2 G3] & E1 & E2 & E3). specialize (G3 [] Hc) as [G3 G4]. cbn [snd app] in E1, E2, G3, G4.
  apply checked_next_Some in Hn as [Hn1 Hn2]. cbv zeta. split_and!; try done.
  - lia.
  - rewrite Hr. cbn. rewrite <-E1. lia.
  - rewrite Hr. cbn [cr_changes]. rewrite <-E1. lia.
  - exists (pe_inverse effect). rewrite Hr. split; [done|]. change (inverse_bytes (pe_inverse effect) ≤ MAX_COMMAND_INVERSE_BYTES). lia.
  - unfold finalize_application in Hf.
    repeat match goal with H : (_ ≫= _) _ = (Ok _, _) |- _ => apply se_bind_Ok in H as (? & ? & ? & H) end.
    apply se_ret_Ok in Hf as [-> _]. cbn [ap_result].
    match goal with H : se_lift (map_err _ (bounded_json_size (json_result _) _)) _ = _ |- _ =>
      apply se_lift_Ok in H as [(_ & Hb & _)%map_err_Ok%bounded_size_Ok _] end.
    exact Hb.
Qed.
End counted_commands.
