(* ===== verification/CommandUndo.v ===== *)
(** * Undoing a command

    The inverse of an applied command restores the document it was applied to.  For the commands the
    engine applies itself, through any nesting of batches, the inverse can only be refused because
    what it would output is too large, or because the revision has no successor. *)
From stdpp Require Import base tactics list gmap strings sorting pretty.
From Stdlib Require Import ZArith Lia Ascii.
From S2P Require Import Prelude Ordering Protocol Budget Ids DomainIr Json Portable PortableFacts Scenario Contract ContractFacts Command CommandFacts.
Import Text.
Open Scope string_scope.
Open Scope list_scope.
Open Scope Z_scope.

(** The commands the engine applies itself: no settings and no commands of the domain pack. *)
Fixpoint engine_applied (command : ScenarioCommand) : bool :=
  match command with
  | SetSettings _ | ApplyDomainCommand _ => false
  | ApplyBatch _ commands => forallb engine_applied commands
  | _ => true
  end.
Definition byte_bound_error : DomainPackError := invalid_error "$" "JSON serialization failed or exceeds its byte bound".
(** An output is too large. *)
Definition too_large (e : CommandError) : Prop :=
  e = CommandResourceLimit ∨ e = domain_pack_error PackMutationOutputLimit ∨ e = domain_pack_error byte_bound_error.
Lemma json_limits_typed : typed_json_limits COMMAND_JSON_LIMITS.
Proof. by vm_compute. Qed.
Lemma bounded_size_Err v limit e : bounded_json_size v limit = Err e → e = byte_bound_error.
Proof. unfold bounded_json_size. destruct (counter_write _ _ _); [done|]. by intros [= <-]. Qed.
Lemma record_entries_elem (m : Records) k v : (k, v) ∈ record_entries m ↔ m !! k = Some v.
Proof. unfold record_entries. by rewrite sort_by_key_perm, elem_of_map_to_list. Qed.

(** ** Records that were admitted *)
Section records.
Context (unicode_lowercase : Z → list Z).
Notation portable := (portable_value unicode_lowercase COMMAND_JSON_LIMITS).
Lemma safe_serialized text path : validate_safe_serialized unicode_lowercase text path = Ok tt ↔ portable text.
Proof.
  unfold validate_safe_serialized, to_value. rewrite <-(portable_kept unicode_lowercase COMMAND_JSON_LIMITS text).
  rewrite <-(portable_admitted _ _ json_limits_typed). destruct (validate_nonsecret_portable_json _ _ _) as [[]|]; done.
Qed.
Definition sound_record (key : string) (v : JsonValue) : Prop :=
  ∃ object, v = JObject object ∧ (∀ i, object_get object "id" = Some i → i = JString key) ∧ portable v.
Lemma record_sound v key path : validate_record unicode_lowercase v key path = Ok tt ↔ sound_record key v.
Proof.
  unfold validate_record, sound_record. destruct v as [| | | | |object]; cbn [as_object]; try (split; [done|by intros (? & [= <-] & _)]; fail).
  all: try (split; [done|by intros (? & ? & _)]).
  rewrite result_bind_Ok. transitivity ((∀ i, object_get object "id" = Some i → i = JString key) ∧ portable (JObject object)).
  - rewrite <-(safe_serialized (JObject object) path). destruct (object_get object "id") as [i|].
    + destruct i as [| | |s| |]; cbn [as_str]; try (split; [by intros ([] & ? & _)|intros [H _]; by specialize (H _ eq_refl)]).
      case_bool_decide as Hs; [|split; [by intros ([] & ? & _)|intros [H _]; specialize (H _ eq_refl); congruence]].
      subst s. rewrite <-result_bind_Ok. cbn. destruct (validate_safe_serialized _ _ _) as [[]|]; cbn; naive_solver.
    + rewrite <-result_bind_Ok. cbn. destruct (validate_safe_serialized _ _ _) as [[]|]; cbn; naive_solver.
  - naive_solver.
Qed.
Definition sound_records (m : Records) : Prop := map_Forall sound_record m.
Definition sound (d : Document) : Prop :=
  let domain := document_domain d in
  sound_records (sd_entities domain) ∧ sound_records (sd_rules domain) ∧ sound_records (sd_preferences domain) ∧
  sound_records (sd_locked_assignments domain).
Lemma map_entry_sound base k v : validate_map_entry base (k, v) = Ok tt → portable v → sound_record k v.
Proof.
  unfold validate_map_entry. destruct v as [| | | | |object]; cbn [as_object]; try done. intros H Hp.
  exists object. split_and!; [done| |done]. intros i Hi. rewrite Hi in H. case_bool_decide as E; [|done].
  by destruct i; cbn in E; try discriminate E; injection E as ->.
Qed.
Lemma map_sound base m : validate_map m base = Ok tt → portable (json_records m) → sound_records m.
Proof.
  intros Hm Hp k v Hk. apply record_entries_elem in Hk. apply (map_entry_sound base).
  - apply for_each_Ok in Hm. rewrite Forall_forall in Hm. by apply Hm in Hk.
  - by apply (portable_member _ _ k v _ Hp).
Qed.
Lemma shape_sound d : validate_document_shape unicode_lowercase d = Ok tt → sound d.
Proof.
  unfold validate_document_shape. intros H.
  repeat (apply result_bind_Ok in H as ([] & ? & H)).
  match goal with H : validate_safe_serialized _ _ _ = _ |- _ => apply safe_serialized in H as Hp end.
  apply (portable_member _ _ "domain" (json_domain (document_domain d))) in Hp as [Hp _]; [|unfold json_document; set_solver].
  unfold json_domain in Hp.
  assert (∀ key m, (key, json_records m) ∈ [("entities", json_records (sd_entities (document_domain d)));
    ("rules", json_records (sd_rules (document_domain d))); ("preferences", json_records (sd_preferences (document_domain d)));
    ("lockedAssignments", json_records (sd_locked_assignments (document_domain d)))] → portable (json_records m)) as Hm.
  { intros key m Hin. by apply (portable_member _ _ _ _ _ Hp) in Hin as [? _]. }
  split_and!; (eapply map_sound; [eassumption|eapply Hm; repeat first [apply list_elem_of_here|apply list_elem_of_further]]).
Qed.

(** ** Leaves *)
Definition same_host (d d' : Document) : Prop :=
  sdoc_domain_pack d' = sdoc_domain_pack d ∧ sdoc_scenario_id d' = sdoc_scenario_id d.
Lemma document_eta (d : Document) f : f (document_domain d) = document_domain d → edit_domain f d = d.
Proof. destruct d as [? ? ? []]. unfold edit_domain, with_domain, document_domain. cbn. by intros ->. Qed.
Lemma edit_edit (d : Document) f g : edit_domain g (edit_domain f d) = edit_domain (λ x, g (f x)) d.
Proof. done. Qed.
Lemma sound_insert m k v : sound_records m → sound_record k v → sound_records (<[k := v]> m).
Proof. intros. by apply map_Forall_insert_2. Qed.
Lemma sound_delete m k : sound_records m → sound_records (delete k m).
Proof. intros. by apply map_Forall_delete. Qed.
Lemma leaf_undone d c d' e : sound d → apply_official_test_leaf unicode_lowercase d c = Ok (d', e) →
  sound d' ∧ same_host d d' ∧ engine_applied (pe_inverse e) = true ∧ (∀ label cs, pe_inverse e ≠ ApplyBatch label cs) ∧
  ∃ e', apply_official_test_leaf unicode_lowercase d' (pe_inverse e) = Ok (d, e') ∧ pe_inverse e' = c.
Proof.
  intros (S1 & S2 & S3 & S4) H. destruct d as [fv sid dp [fmt md st [E R P L] ext]]. cbn in S1, S2, S3, S4.
  destruct c as [key v|key v|key|key v|key v|key|key [v|]|key v|key| | |]; cbn [apply_official_test_leaf] in H; [..|done|done|done].
  all: unfold add_entity, update_entity, remove_entity, add_rule, update_rule, remove_rule, set_preference, lock_assignment, unlock_assignment in H.
  all: cbn in H.
  all: try (apply result_bind_Ok in H as ([] & Hv%record_sound & H)).
  all: match type of H with context [@lookup string JsonValue Records _ ?key ?m] => destruct (m !! key) as [previous|] eqn:Hid; [change (bool_decide (is_Some (Some previous))) with true in H|change (bool_decide (is_Some None)) with false in H] end.
  all: first [done | cbn in H; discriminate H | idtac].
  all: injection H as <- <-.
  all: try (match goal with H : sound_records ?m, H' : @lookup string JsonValue Records _ ?key ?m = Some ?v |- _ => pose proof (H key v H') as Hprevious end).
  all: split_and!; [split_and!; cbn; (assumption || (by apply sound_insert) || by apply sound_delete)|done|done|done|].
  all: cbn [command_effect pe_inverse apply_official_test_leaf].
  all: unfold add_entity, update_entity, remove_entity, add_rule, update_rule, remove_rule, set_preference, lock_assignment, unlock_assignment.
  all: try (rewrite (proj2 (record_sound _ _ _) Hprevious)); cbn.
  all: rewrite ?lookup_insert_eq, ?lookup_delete_eq; cbn.
  all: unfold edit_domain, with_domain; cbn; rewrite ?delete_insert_id, ?insert_delete_id, ?insert_insert_eq, ?insert_id by assumption.
  all: eexists; split; reflexivity.
Qed.
End records.

(** ** Computations that only fail for what they output *)
Notation CM := (SE ApplyContext CommandError).
(** At a revision, a command may be refused for the size of its output, or because the revision has no successor. *)
Definition refused (revision : Z) (e : CommandError) : Prop :=
  too_large e ∨ (e = RevisionOverflow revision ∧ REVISION_MAX_V1 ≤ revision).
Section outputs.
Context (current : Z).
(** From any counters with room for [n] leaves, [m] charges them and gives a result in [P], or is refused. *)
Definition may {A} (n : Z) (m : CM A) (P : A → Prop) : Prop := ∀ x,
  0 ≤ cx_leaf_count x → cx_leaf_count x + n ≤ MAX_BATCH_COMMANDS →
  match m x with
  | (Ok a, x') => cx_leaf_count x' = cx_leaf_count x + n ∧ P a
  | (Err e, _) => refused current e
  end.
Lemma may_bind {A B} n1 n2 (m : CM A) (k : A → CM B) P Q : 0 ≤ n1 → 0 ≤ n2 →
  may n1 m P → (∀ a, P a → may n2 (k a) Q) → may (n1 + n2) (m ≫= k) Q.
Proof.
  intros Hn1 Hn2 Hm Hk x H0 Hx. specialize (Hm x H0 ltac:(lia)). unfold mbind, SE_bind. destruct (m x) as [[a|e] x1]; [|done].
  destruct Hm as [Hc HP]. specialize (Hk a HP x1 ltac:(lia) ltac:(lia)). destruct (k a x1) as [[b|e] x2]; [|done].
  destruct Hk. split; [lia|done].
Qed.
Lemma may_free_bind {A B} n (m : CM A) (k : A → CM B) P Q : 0 ≤ n →
  may 0 m P → (∀ a, P a → may n (k a) Q) → may n (m ≫= k) Q.
Proof. intros Hn Hm Hk. apply (may_bind 0 n _ _ P); [done|done|done|done]. Qed.
Lemma may_weaken {A} n (m : CM A) (P Q : A → Prop) : may n m P → (∀ a, P a → Q a) → may n m Q.
Proof. intros Hm H x H0 Hx. specialize (Hm x H0 Hx). destruct (m x) as [[a|e] x1]; naive_solver. Qed.
Lemma may_ret {A} (a : A) (P : A → Prop) : P a → may 0 (mret a) P.
Proof. intros H x _ _. split; [lia|done]. Qed.
Lemma may_lift {A} (r : CR A) (P : A → Prop) :
  match r with Ok a => P a | Err e => refused current e end → may 0 (se_lift r) P.
Proof. intros H x _ _. unfold se_lift. destruct r; [|done]. split; [lia|done]. Qed.
Lemma may_measured v limit : may 0 (se_lift (measured v limit)) (λ _, True).
Proof.
  apply may_lift. unfold measured. destruct (bounded_json_size v limit) as [|e] eqn:E; [done|].
  apply bounded_size_Err in E as ->. cbn. unfold refused, too_large. auto.
Qed.
Lemma may_leaves n : 0 ≤ n → may n (charge_leaves n) (λ _, True).
Proof.
  intros Hn x H0 Hx. unfold charge_leaves, u64_saturating_add. cbn [cx_leaf_count].
  replace (Z.min (cx_leaf_count x + n) u64_max) with (cx_leaf_count x + n) by (unfold MAX_BATCH_COMMANDS, u64_max in *; lia).
  destruct (Z.ltb_spec MAX_BATCH_COMMANDS (cx_leaf_count x + n)); [lia|]. done.
Qed.
Lemma may_inverse v : may 0 (charge_inverse v) (λ _, True).
Proof.
  intros x H0 Hx. unfold charge_inverse. destruct (bounded_json_size v _) as [|e] eqn:E; [cbn; split; [lia|done]|].
  apply bounded_size_Err in E as ->. unfold refused, too_large. auto.
Qed.
Lemma may_frame label n : may 0 (charge_batch_frame label n) (λ _, True).
Proof.
  unfold charge_batch_frame. eapply may_free_bind; [done|apply may_inverse|]. intros _ _ x H0 Hx. unfold se_state.
  destruct (_ <? _); [unfold refused, too_large; auto|]. cbn. split; [lia|done].
Qed.

Section quiet.
Context (unicode_lowercase : Z → list Z) (parse_uuid : string → option (string * Z)).
Context (cancelled : nat → bool) (registry : gmap string (Registration (Pack := CommandPack))) (pack : CommandPack).
Hypothesis quiet : ∀ n, cancelled n = false.
Notation check := (check_cancelled cancelled).
Lemma may_check : may 0 check (λ _, True).
Proof using quiet. intros x H0 Hx. unfold check_cancelled, on_polls, poll. rewrite quiet. cbn. split; [lia|done]. Qed.
Lemma may_output n bytes result : may 0 (charge_output cancelled n bytes result) (λ _, True).
Proof using quiet.
  unfold charge_output. eapply (may_free_bind _ _ _ (λ _, True)); [done| |intros _ _; apply may_check].
  intros x H0 Hx. unfold se_state. destruct (_ || _); [unfold refused, too_large; auto|]. cbn. split; [lia|done].
Qed.
Notation nested := (apply_nested unicode_lowercase parse_uuid cancelled registry pack).
Notation children := (apply_children unicode_lowercase parse_uuid cancelled registry pack).
(** Applying [c] to [d] gives [d'] and the inverse [i]. *)
Definition runs (depth : Z) (d : Document) (c : ScenarioCommand) (d' : Document) (i : ScenarioCommand) : Prop :=
  may (command_leaves c) (nested c depth d) (λ r, r.1 = d' ∧ pe_inverse r.2 = i).
Inductive chain (depth : Z) : Document → list (ScenarioCommand * ScenarioCommand) → Document → Prop :=
| chain_nil d : chain depth d [] d
| chain_cons d c i d1 l d2 : runs depth d c d1 i → engine_applied c = true → chain depth d1 l d2 → chain depth d ((c, i) :: l) d2.
Lemma chain_app depth d l d1 k d2 : chain depth d l d1 → chain depth d1 k d2 → chain depth d (l ++ k) d2.
Proof using. induction 1; [done|]. intros. cbn. econstructor; eauto. Qed.
(** A command the engine applies is never part of a run. *)
Lemma children_cons apply child rest d changes inverses : engine_applied child = true →
  children apply (child :: rest) [] d changes inverses =
  (_ ← check; applied ← apply child d;
   children apply rest [] applied.1 (changes ++ pe_changes applied.2) (inverses ++ [pe_inverse applied.2])).
Proof using. by destruct child. Qed.
Lemma sum_leaves_nonneg cs : 0 ≤ sum_of command_leaves cs.
Proof using. apply sum_of_nonneg, command_leaves_nonneg. Qed.
Lemma chain_runs depth d l d' : chain depth d l d' → ∀ changes inverses,
  may (sum_of command_leaves l.*1) (children (λ child, nested child depth) l.*1 [] d changes inverses)
    (λ r, r.1.1 = d' ∧ r.2 = inverses ++ l.*2).
Proof using quiet.
  induction 1 as [d|d c i d1 l d2 Hr Hs _ IH]; intros changes inverses.
  { apply may_ret. by rewrite app_nil_r. }
  rewrite !fmap_cons, sum_of_cons. cbn [fst snd]. rewrite children_cons by done.
  pose proof (command_leaves_nonneg c). pose proof (sum_leaves_nonneg l.*1).
  eapply may_free_bind; [lia|apply may_check|]. intros _ _.
  eapply may_bind; [done|done|apply Hr|]. intros [d3 e] [E1 E2]. cbn in E1, E2. subst.
  eapply may_weaken; [apply IH|]. intros r [? Hi]. rewrite Hi, <-app_assoc. done.
Qed.
Definition undone (c : ScenarioCommand) : Prop := ∀ depth d x d' e x', engine_applied c = true → sound unicode_lowercase d →
  nested c depth d x = (Ok (d', e), x') →
  sound unicode_lowercase d' ∧ same_host d d' ∧ engine_applied (pe_inverse e) = true ∧
  command_leaves (pe_inverse e) = command_leaves c ∧ runs depth d' (pe_inverse e) d c.
Definition single (c : ScenarioCommand) : Prop := engine_applied c = true ∧ ∀ label cs, c ≠ ApplyBatch label cs.
Lemma single_leaves c : single c → command_leaves c = 1.
Proof using. intros [_ H]. destruct c; (done || by destruct (H label commands)). Qed.
Lemma single_applies c d : single c → apply_leaf unicode_lowercase parse_uuid cancelled registry pack d c =
  (_ ← charge_leaves 1;
   if bool_decide (dr_id (sdoc_domain_pack d) = OFFICIAL_TEST_PACK_ID) then
     applied ← se_lift (apply_official_test_leaf unicode_lowercase d c);
     bytes ← se_lift (measured (json_changes (pe_changes applied.2)) MAX_DOMAIN_MUTATION_CHANGE_BYTES);
     _ ← charge_output cancelled (len (pe_changes applied.2)) bytes 2;
     _ ← charge_inverse (json_command (pe_inverse applied.2));
     mret applied
   else unsupported d c).
Proof using. intros [Hs H]. by destruct c. Qed.
Lemma single_nested c depth d : single c →
  nested c depth d = (_ ← check; apply_leaf unicode_lowercase parse_uuid cancelled registry pack d c).
Proof using. intros [_ H]. destruct c; (done || by destruct (H label commands)). Qed.
Lemma leaf_runs d c d' e depth : single c → dr_id (sdoc_domain_pack d) = OFFICIAL_TEST_PACK_ID →
  apply_official_test_leaf unicode_lowercase d c = Ok (d', e) → runs depth d c d' (pe_inverse e).
Proof using quiet.
  intros Hc Hp He. unfold runs. rewrite single_leaves, single_nested, single_applies by done.
  eapply may_free_bind; [done|apply may_check|]. intros _ _. rewrite bool_decide_true by done.
  apply (may_bind 1 0 _ _ (λ _, True)); [done|done|by apply may_leaves|]. intros _ _.
  eapply (may_free_bind _ _ _ (λ r, r = (d', e))); [done|apply may_lift; by rewrite He|]. intros ? ->.
  eapply may_free_bind; [done|apply may_measured|]. intros bytes _.
  eapply may_free_bind; [done|apply may_output|]. intros _ _.
  eapply may_free_bind; [done|apply may_inverse|]. intros _ _. by apply may_ret.
Qed.
Lemma single_undone c : single c → undone c.
Proof using quiet.
  intros Hc depth d x d' e x' _ Hd. rewrite single_nested, single_applies by done.
  intros (_ & x1 & _ & (_ & x2 & _ & H)%se_bind_Ok)%se_bind_Ok. case_bool_decide as Hp; [|done].
  apply se_bind_Ok in H as (applied & x3 & [He _]%se_lift_Ok & H).
  repeat (apply se_bind_Ok in H as (? & ? & _ & H)). apply se_ret_Ok in H as [<- _].
  destruct (leaf_undone _ _ _ _ _ Hd He) as (Hd' & Hh & Hs & Hb & e' & He' & <-). split_and!; [done|done|done| |].
  - by rewrite !single_leaves.
  - apply leaf_runs; [done| |done]. destruct Hh as [-> _]. done.
Qed.
Lemma children_undone cs : Forall undone cs → ∀ depth d changes inverses x d' changes' inverses' x',
  forallb engine_applied cs = true → sound unicode_lowercase d →
  children (λ child, nested child depth) cs [] d changes inverses x = (Ok (d', changes', inverses'), x') →
  sound unicode_lowercase d' ∧ same_host d d' ∧ ∃ new, inverses' = inverses ++ new ∧ length new = length cs ∧
  forallb engine_applied new = true ∧ sum_of command_leaves new = sum_of command_leaves cs ∧
  chain depth d' (reverse (zip new cs)) d.
Proof using quiet.
  induction 1 as [|c cs Hc _ IH]; intros depth d changes inverses x d' changes' inverses' x' Hs Hd.
  - cbn. intros [= <- <- <- <-]. split_and!; [done|done|]. exists []. rewrite app_nil_r. split_and!; [done..|constructor].
  - cbn [forallb] in Hs. apply andb_true_iff in Hs as [Hs1 Hs2]. rewrite children_cons by done.
    intros (_ & x1 & _ & ([d1 e] & x2 & Hn & H)%se_bind_Ok)%se_bind_Ok. cbn [fst snd] in H.
    destruct (Hc depth d x1 d1 e x2 Hs1 Hd Hn) as (Hd1 & [Hh1 Hh2] & Hs & Hl & Hr).
    destruct (IH _ _ _ _ _ _ _ _ _ Hs2 Hd1 H) as (Hd' & [Hh3 Hh4] & new & -> & Hn1 & Hn2 & Hn3 & Hn4).
    split_and!; [done|split; congruence|]. exists (pe_inverse e :: new). cbn [zip_with zip forallb length].
    rewrite !sum_of_cons, <-app_assoc, reverse_cons. split_and!; [done|lia|by rewrite Hs|lia|].
    eapply chain_app; [exact Hn4|]. econstructor; [exact Hr|done|constructor].
Qed.
Lemma nested_undone c : undone c.
Proof using quiet.
  induction c as [c Hc|label cs IH] using ScenarioCommand_rect'.
  { intros depth d x d' e x' Hs. by apply single_undone. }
  intros depth d x d' e x' Hs Hd. cbn [apply_nested engine_applied] in *.
  intros (_ & x1 & _ & H)%se_bind_Ok. apply se_bind_Ok in H as ([] & x2 & [Hshape _]%se_lift_Ok & H).
  apply se_bind_Ok in H as ([] & x3 & _ & H). apply se_bind_Ok in H as ([[d1 changes] inverses] & x4 & H & Hr).
  apply se_ret_Ok in Hr as [Hr _]. injection Hr as -> ->.
  destruct (children_undone _ IH _ _ _ _ _ _ _ _ _ Hs Hd H) as (Hd' & Hh & new & -> & Hn1 & Hn2 & Hn3 & Hn4).
  cbn [batch_effect pe_inverse engine_applied command_leaves app].
  assert (sum_of command_leaves (reverse new) = sum_of command_leaves cs) as Hsum
    by (by rewrite (sum_of_perm _ _ _ (reverse_Permutation new))).
  split_and!; [done|done| |done|].
  { rewrite forallb_forall in *. intros i Hi. apply Hn2. apply list_elem_of_In, elem_of_reverse, list_elem_of_In, Hi. }
  assert (reverse new = (reverse (zip new cs)).*1) as E1 by (by rewrite fmap_reverse, fst_zip by lia).
  assert (reverse cs = (reverse (zip new cs)).*2) as E2 by (by rewrite fmap_reverse, snd_zip by lia).
  unfold runs. cbn [command_leaves apply_nested]. rewrite Hsum.
  assert (validate_batch_shape (reverse new) depth = Ok tt) as Hshape'.
  { revert Hshape. unfold validate_batch_shape, len. by rewrite length_reverse, Hn1. }
  pose proof (sum_leaves_nonneg cs).
  eapply may_free_bind; [done|apply may_check|]. intros _ _.
  eapply (may_free_bind _ _ _ (λ _, True)); [done|apply may_lift; by rewrite Hshape'|]. intros _ _.
  eapply may_free_bind; [done|apply may_frame|]. intros _ _. rewrite <-(Z.add_0_r (sum_of command_leaves cs)).
  eapply may_bind; [done|done|rewrite <-Hsum, E1; by apply chain_runs|].
  intros [[d2 changes2] inverses2] [E3 E4]. cbn in E3, E4. subst d2 inverses2. apply may_ret. split; [done|].
  cbn. f_equal. by rewrite <-E2, reverse_involutive.
Qed.
End quiet.

(** ** The whole application *)
Section whole.
Context (unicode_lowercase : Z → list Z) (parse_uuid : string → option (string * Z)).
Context (cancelled : nat → bool) (registry : gmap string (Registration (Pack := CommandPack))).
Hypothesis quiet : ∀ n, cancelled n = false.
Notation FM := (SE (nat * Z) CommandError).
(** Polling a token that is not cancelled decides nothing. *)
Definition unpolled {A} (m : FM A) : Prop := ∀ n n' remaining,
  (m (n, remaining)).1 = (m (n', remaining)).1 ∧ (m (n, remaining)).2.2 = (m (n', remaining)).2.2.
Lemma unpolled_bind {A B} (m : FM A) (k : A → FM B) : unpolled m → (∀ a, unpolled (k a)) → unpolled (m ≫= k).
Proof using.
  intros Hm Hk n n' remaining. destruct (Hm n n' remaining) as [H1 H2]. unfold mbind, SE_bind.
  destruct (m (n, remaining)) as [r [n1 r1]], (m (n', remaining)) as [r' [n1' r1']]. cbn in H1, H2. subst r' r1'.
  destruct r as [a|e]; [apply Hk|done].
Qed.
Lemma unpolled_lift {A} (r : CR A) : unpolled (se_lift r).
Proof using. done. Qed.
Lemma unpolled_leaf leaf : unpolled (preflight_leaf unicode_lowercase leaf).
Proof using.
  apply unpolled_bind.
  { intros n n' remaining. unfold se_state. by destruct (u64_checked_sub remaining 1). }
  intros _. apply unpolled_bind; [by destruct (leaf_payload leaf)|]. intros _. by destruct leaf.
Qed.
Lemma unpolled_preflight c : ∀ depth, unpolled (preflight_settings_leaves unicode_lowercase cancelled c depth).
Proof using quiet.
  assert (unpolled (preflight_poll cancelled)) as Hp.
  { intros n n' remaining. unfold preflight_poll, poll. by rewrite !quiet. }
  induction c as [c Hc|label cs IH] using ScenarioCommand_rect'; intros depth.
  - assert (preflight_settings_leaves unicode_lowercase cancelled c depth
      = (_ ← preflight_poll cancelled; preflight_leaf unicode_lowercase c)) as ->
      by (destruct c; (done || by destruct (Hc label commands))).
    apply unpolled_bind; [done|]. intros _. apply unpolled_leaf.
  - cbn [preflight_settings_leaves]. apply unpolled_bind; [done|]. intros _. apply unpolled_bind; [apply unpolled_lift|]. intros _.
    induction IH as [|c cs Hc _ IHcs]; cbn [preflight_each]; [done|]. apply unpolled_bind; [apply Hc|]. intros _. exact IHcs.
Qed.
Lemma preflight_anywhere c n path n' path' :
  (preflight_command unicode_lowercase cancelled c path n).1 = Ok tt →
  (preflight_command unicode_lowercase cancelled c path' n').1 = Ok tt.
Proof using quiet.
  unfold preflight_command, run_preflight, mbind, SE_bind.
  destruct (unpolled_preflight c 0 n n' MAX_BATCH_COMMANDS) as [H1 _].
  destruct (preflight_settings_leaves _ _ _ _ (n, _)) as [r [n1 r1]], (preflight_settings_leaves _ _ _ _ (n', _)) as [r' [n1' r1']].
  cbn in H1. subst r'. destruct r as [[]|e]; [|done]. unfold se_lift. cbn [fst]. by rewrite !safe_serialized.
Qed.
Lemma polls_pass {A} (l : list A) n : ∃ n', poll_each cancelled l n = (Ok tt, n').
Proof using quiet.
  revert n. unfold poll_each. induction l as [|a l IH]; intros n; cbn [for_each]; [by eexists|].
  unfold mbind, SE_bind, poll at 1. rewrite quiet. apply IH.
Qed.
Lemma may_delta before after : may 0 (on_polls (validation_delta cancelled before after)) (λ _, True).
Proof using quiet.
  intros x H0 Hx. unfold on_polls.
  assert (match (validation_delta cancelled before after (cx_polls x)).1 with Ok _ => True | Err e => refused current e end) as H.
  { unfold validation_delta. generalize (cx_polls x). intros n. unfold mbind, SE_bind.
    destruct (polls_pass before n) as [n1 ->]. destruct (polls_pass after n1) as [n2 ->].
    destruct (polls_pass (added_issues before after) n2) as [n3 ->]. destruct (polls_pass after n3) as [n4 ->].
    destruct (polls_pass before n4) as [n5 ->]. unfold se_lift.
    destruct (bounded_json_size _ _); cbn; [by rewrite quiet|unfold refused, too_large; auto]. }
  destruct (validation_delta _ _ _ _) as [[delta|e] n]; cbn in *; [split; [lia|done]|done].
Qed.
Lemma may_on_polls (m : SE nat CommandError unit) : (∀ n, (m n).1 = Ok tt) → may 0 (on_polls m) (λ _, True).
Proof using.
  intros H x H0 Hx. unfold on_polls. specialize (H (cx_polls x)). destruct (m (cx_polls x)) as [r n]. cbn in H. subst r.
  cbn. split; [lia|done].
Qed.
Lemma may_finalize pack working effect before :
  (∀ n, (preflight_command unicode_lowercase cancelled (pe_inverse effect) "/inverse" n).1 = Ok tt) →
  validate_document_shape unicode_lowercase working = Ok tt → 0 ≤ current →
  may 0 (finalize_application unicode_lowercase cancelled pack working current effect before)
    (λ applied, ap_document applied = working ∧ cr_inverse (ap_result applied) = Some (pe_inverse effect) ∧
                cr_new_revision (ap_result applied) = current + 1).
Proof using quiet.
  intros Hp Hw Hr0. unfold finalize_application. pose proof (may_check cancelled quiet) as Hcheck.
  eapply may_free_bind; [done|apply Hcheck|]. intros _ _.
  eapply may_free_bind; [done|apply may_measured|]. intros _ _.
  eapply may_free_bind; [done|apply Hcheck|]. intros _ _.
  eapply may_free_bind; [done|by apply may_on_polls|]. intros _ _.
  eapply may_free_bind; [done|apply Hcheck|]. intros _ _.
  eapply (may_free_bind _ _ _ (λ _, True)); [done|apply may_lift; by rewrite Hw|]. intros _ _.
  eapply may_free_bind; [done|apply may_delta|]. intros delta _.
  eapply may_free_bind; [done|apply Hcheck|]. intros _ _.
  eapply (may_free_bind _ _ _ (λ next, next = current + 1)); [done|apply may_lift|].
  { destruct (checked_next current) as [next|] eqn:E; [by apply checked_next_Some in E as [-> _]|].
    right. split; [done|]. revert E. unfold checked_next, u64_checked_add, checked_u64.
    destruct (Z.leb_spec 0 (current + 1)); [|lia].
    destruct (Z.leb_spec (current + 1) u64_max); cbn [andb]; [|unfold REVISION_MAX_V1, u64_max in *; lia].
    destruct (Z.leb_spec (current + 1) REVISION_MAX_V1); [done|lia]. }
  intros ? ->.
  eapply (may_free_bind _ _ _ (λ _, True)); [done|apply may_lift|].
  { destruct (bounded_json_size _ _); cbn; [done|unfold refused, too_large; auto]. }
  intros _ _. eapply may_free_bind; [done|apply Hcheck|]. intros _ _. by apply may_ret.
Qed.

Lemma opened_again d d' c c' n pack x n' :
  ApplyContext_new unicode_lowercase registry d c n = (Ok (pack, x), n) → same_host d d' →
  validate_document_shape unicode_lowercase d' = Ok tt →
  ∃ x', ApplyContext_new unicode_lowercase registry d' c' n' = (Ok (pack, x'), n') ∧ cx_leaf_count x' = 0.
Proof using.
  unfold ApplyContext_new. intros H [Hp _] Hs. rewrite Hp, Hs. destruct (registry_require _ _) as [pack'|]; [|done].
  destruct (negb _); [done|]. destruct (validate_document_shape _ d); [|done]. injection H as -> _. by eexists.
Qed.
Lemma apply_may d envelope pack (Q : AppliedCommand → Prop) :
  let command := ce_command envelope in
  (∀ n, (preflight_command unicode_lowercase cancelled command "/command" n).1 = Ok tt) →
  ce_scenario_id envelope = sdoc_scenario_id d → ce_expected_revision envelope = current →
  (∀ n, ∃ x, ApplyContext_new unicode_lowercase registry d (Some command) n = (Ok (pack, x), n) ∧ cx_leaf_count x = 0) →
  command_leaves command ≤ MAX_BATCH_COMMANDS →
  may (command_leaves command)
    (applied ← apply_nested unicode_lowercase parse_uuid cancelled registry pack command 0 d;
     finalize_application unicode_lowercase cancelled pack applied.1 current applied.2 (cp_validate_fast pack d)) Q →
  match apply_command_with_registry unicode_lowercase parse_uuid cancelled registry d current envelope with
  | Ok applied => Q applied
  | Err e => refused current e
  end.
Proof using quiet.
  cbv zeta. intros Hpre Hid Hrev Hopen Hl Hm. unfold apply_command_with_registry.
  rewrite bool_decide_true by done. rewrite Hrev, Z.eqb_refl. cbn [negb]. unfold mbind at 1 2 3 4, SE_bind at 1 2 3 4, poll.
  rewrite quiet. specialize (Hpre 1%nat). destruct (preflight_command _ _ _ _ 1%nat) as [r n]. cbn in Hpre. subst r.
  cbn [mret SE_ret]. destruct (Hopen n) as (x & Hx & Hx0). unfold mret, SE_ret. rewrite Hx. cbn [mbind Result_bind].
  unfold in_context. specialize (Hm x ltac:(lia) ltac:(lia)).
  unfold mbind, SE_bind in Hm |- *. destruct (apply_nested _ _ _ _ _ _ _ _ x) as [[applied|e] x1]; [|done].
  destruct (finalize_application _ _ _ _ _ _ _ x1) as [[a|e] x2]; [by destruct Hm|done].
Qed.

End whole.
End outputs.

Section undo.
Context (unicode_lowercase : Z → list Z) (parse_uuid : string → option (string * Z)).
Context (cancelled : nat → bool) (registry : gmap string (Registration (Pack := CommandPack))).
Hypothesis quiet : ∀ n, cancelled n = false.
(** C5. With a token that is never cancelled, undoing an applied command that has no settings and no
    domain commands in it restores the document, whatever the nesting of its batches: the inverse
    applied to the changed document at the next revision either gives exactly the original document,
    with the original command as its own inverse, two revisions on, or is refused because an output
    of it exceeds a byte or count limit, or with a revision overflow when the command had already
    taken the document to the last representable revision, and for no other reason. *)
Theorem undo_restores_document document revision envelope applied undo :
  0 ≤ revision → engine_applied (ce_command envelope) = true →
  apply_command_with_registry unicode_lowercase parse_uuid cancelled registry document revision envelope = Ok applied →
  ce_scenario_id undo = ce_scenario_id envelope → ce_expected_revision undo = revision + 1 →
  cr_inverse (ap_result applied) = Some (ce_command undo) →
  match apply_command_with_registry unicode_lowercase parse_uuid cancelled registry (ap_document applied)
          (cr_new_revision (ap_result applied)) undo with
  | Ok undone => ap_document undone = document ∧ cr_inverse (ap_result undone) = Some (ce_command envelope) ∧
                 cr_new_revision (ap_result undone) = revision + 2
  | Err e => too_large e ∨ (e = RevisionOverflow (revision + 1) ∧ revision + 1 = REVISION_MAX_V1)
  end.
Proof using quiet.
  intros Hr0 Hs H Hid Hrev Hinv.
  destruct (applied_steps _ _ _ _ _ _ _ _ H) as (n & pack & x & effect & x1 & delta & x2 & Hpre & Hsid & _ & Ho & Ha & Hf & Hn & He).
  destruct (opened_within _ _ _ _ _ _ _ _ Ho) as (Hw & _ & Hl & _ & _ & Hshape).
  destruct (nested_counted unicode_lowercase parse_uuid cancelled registry pack _ 0 document x _ x1 Hw Ha)
    as ([[_ Hleaves] _ _] & cs & i & l & [_ G _] & _ & _ & ->).
  rewrite He in Hinv. injection Hinv as Hinv.
  destruct (nested_undone (revision + 1) _ parse_uuid cancelled registry pack quiet _ _ _ _ _ _ _ Hs (shape_sound _ _ Hshape) Ha)
    as (_ & Hh & _ & Hll & Hruns). rewrite Hinv in *.
  apply checked_next_Some in Hn as [Hn Hmax]. rewrite Hn in Hmax |- *.
  enough (match apply_command_with_registry unicode_lowercase parse_uuid cancelled registry (ap_document applied) (revision + 1) undo with
    | Ok undone => ap_document undone = document ∧ cr_inverse (ap_result undone) = Some (ce_command envelope) ∧
                   cr_new_revision (ap_result undone) = revision + 2
    | Err e => refused (revision + 1) e end) as Hout.
  { destruct (apply_command_with_registry _ _ _ _ (ap_document applied) _ _) as [|e]; [done|].
    destruct Hout as [?|[-> ?]]; [by left|right; split; [done|lia]]. }
  assert ((∃ n, (preflight_command unicode_lowercase cancelled (ce_command undo) "/inverse" n).1 = Ok tt) ∧
          validate_document_shape unicode_lowercase (ap_document applied) = Ok tt) as [[n1 Hpre'] Hshape'].
  { unfold finalize_application in Hf. rewrite Hinv in Hf.
    repeat match goal with H : (_ ≫= _) _ = (Ok _, _) |- _ => apply se_bind_Ok in H as (? & ? & ? & H) end. split.
    - match goal with H : on_polls (preflight_command _ _ _ _) ?y = _ |- _ => exists (cx_polls y); revert H end.
      unfold on_polls. destruct (preflight_command _ _ _ "/inverse" _) as [[[]|] ?]; [done|]. by intros [=].
    - match goal with H : se_lift (validate_document_shape _ _) _ = (Ok ?u, _) |- _ => apply se_lift_Ok in H as [H _]; by destruct u end. }
  apply (apply_may (revision + 1) unicode_lowercase parse_uuid cancelled registry quiet _ _ pack).
  - intros m. by eapply preflight_anywhere.
  - rewrite Hid, Hsid. symmetry. apply Hh.
  - lia.
  - intros m. by eapply (opened_again _ _ document _ (Some (ce_command envelope)) _ n pack x).
  - lia.
  - rewrite <-(Z.add_0_r (command_leaves (ce_command undo))). pose proof (command_leaves_nonneg (ce_command undo)).
    eapply may_bind; [done|done|apply Hruns|]. intros [d2 e2] [E1 E2]. cbn in E1, E2. subst d2. cbn [fst snd].
    eapply may_weaken; [apply may_finalize; [done| |done|lia]|].
    + intros m. rewrite E2. by eapply preflight_anywhere.
    + cbn beta. rewrite E2. intros a (? & ? & ?). split_and!; [done|done|lia].
Qed.
End undo.
