(* ===== verification/CommandReplay.v ===== *)
(** * Replaying a reconciled command

    Preparing a command with what its pack adds to it, and applying the recorded command afterwards,
    are one result: the counters of the two applications differ only by a batch frame that is charged
    late, and by the interactions with the token and the pack. *)
From stdpp Require Import base tactics list gmap strings sorting pretty.
From Stdlib Require Import ZArith Lia Ascii.
From S2P Require Import Prelude Ordering Protocol Budget Ids DomainIr Json Portable PortableFacts Scenario Contract ContractFacts Command CommandFacts CommandUndo.
Import Text.
Open Scope string_scope.
Open Scope list_scope.
Open Scope Z_scope.
Create HintDb sim discriminated.
Notation CM := (SE ApplyContext CommandError).

(** The counters of [y] are those of [x], with [k] more bytes charged for inverses. *)
Record shifted (k : Z) (x y : ApplyContext) : Prop := {
  sh_leaves : cx_leaf_count y = cx_leaf_count x;
  sh_count : cx_change_count y = cx_change_count x;
  sh_changes : cx_change_bytes y = cx_change_bytes x;
  sh_results : cx_result_bytes y = cx_result_bytes x;
  sh_inverse : cx_inverse_bytes y = cx_inverse_bytes x + k
}.
(** Where [m] succeeds, [m'] succeeds with the same result from counters shifted by [k], when these have room. *)
Definition sim {A} (k : Z) (m m' : CM A) : Prop := ∀ x y a x', shifted k x y → m x = (Ok a, x') →
  cx_inverse_bytes x ≤ cx_inverse_bytes x' ∧
  (cx_inverse_bytes x' + k ≤ MAX_COMMAND_INVERSE_BYTES → ∃ y', m' y = (Ok a, y') ∧ shifted k x' y').

Section sim.
Context (k : Z) (Hk : 0 ≤ k).
Lemma sim_bind {A B} (m m' : CM A) (f f' : A → CM B) : sim k m m' → (∀ a, sim k (f a) (f' a)) → sim k (m ≫= f) (m' ≫= f').
Proof.
  intros Hm Hf x y b x' Hs (a & x1 & H1 & H2)%se_bind_Ok. destruct (Hm x y a x1 Hs H1) as [L1 R1].
  split.
  - assert (shifted k x1 {| cx_leaf_count := cx_leaf_count x1; cx_change_count := cx_change_count x1;
      cx_change_bytes := cx_change_bytes x1; cx_result_bytes := cx_result_bytes x1;
      cx_inverse_bytes := cx_inverse_bytes x1 + k; cx_polls := 0 |}) as Hs1 by by split.
    destruct (Hf a _ _ _ _ Hs1 H2). lia.
  - intros Hroom.
    assert (shifted k x1 {| cx_leaf_count := cx_leaf_count x1; cx_change_count := cx_change_count x1;
      cx_change_bytes := cx_change_bytes x1; cx_result_bytes := cx_result_bytes x1;
      cx_inverse_bytes := cx_inverse_bytes x1 + k; cx_polls := 0 |}) as Hs1 by by split.
    destruct (Hf a _ _ _ _ Hs1 H2) as [L2 _]. destruct R1 as (y1 & Hy1 & Hs2); [lia|].
    destruct (Hf a _ _ _ _ Hs2 H2) as [_ R2]. destruct (R2 Hroom) as (y2 & Hy2 & Hs3). exists y2. split; [|done].
    unfold mbind, SE_bind. by rewrite Hy1.
Qed.
Lemma sim_ret {A} (a : A) : sim k (mret a) (mret a).
Proof. intros x y b x' Hs [-> ->]%se_ret_Ok. split; [done|]. intros _. by exists y. Qed.
Lemma sim_fail {A} e (m : CM A) : sim k (se_fail e) m.
Proof. intros x y b x' Hs H. by apply se_fail_Ok in H. Qed.
Lemma sim_lift {A} (r : CR A) : sim k (se_lift r) (se_lift r).
Proof. intros x y b x' Hs [-> ->]%se_lift_Ok. split; [done|]. intros _. by exists y. Qed.
Lemma sim_interaction {A} (f : nat → A) : (∀ n n', f n = f n') → sim k (interaction f) (interaction f).
Proof.
  intros Hf x y b x' [] [= <- <-]. split; [done|]. intros _. eexists. split; [unfold interaction; by rewrite (Hf (cx_polls x) (cx_polls y))|].
  by split.
Qed.
Lemma sim_leaves n : sim k (charge_leaves n) (charge_leaves n).
Proof.
  intros x y b x' [H1 H2 H3 H4 H5]. unfold charge_leaves. rewrite H1. destruct (_ <? _); [done|]. intros [= <- <-].
  split; [done|]. intros _. eexists. split; [done|]. by split.
Qed.
Lemma sim_inverse v : sim k (charge_inverse v) (charge_inverse v).
Proof using Hk.
  intros x y b x' [H1 H2 H3 H4 H5]. unfold charge_inverse. rewrite H5. pose proof (json_len_nonneg v).
  destruct (bounded_json_size v _) as [n|] eqn:E; [|done]. apply bounded_size_Ok in E as (-> & Hle & Hu). intros [= <- <-]. cbn.
  split; [lia|]. intros Hroom. assert (bounded_json_size v (Z.max 0 (MAX_COMMAND_INVERSE_BYTES - (cx_inverse_bytes x + k))) = Ok (json_len v)) as ->.
  { apply bounded_size_Ok. split_and!; [done|lia|done]. }
  eexists. split; [done|]. split; cbn; (done || lia).
Qed.
Lemma sim_frame label n : sim k (charge_batch_frame label n) (charge_batch_frame label n).
Proof using Hk.
  unfold charge_batch_frame. apply sim_bind; [apply sim_inverse|]. intros _ x y b x' [H1 H2 H3 H4 H5]. unfold se_state.
  cbn [cx_inverse_bytes with_inverse_bytes]. rewrite H5. unfold u64_saturating_add.
  destruct (Z.ltb_spec MAX_COMMAND_INVERSE_BYTES (Z.min (cx_inverse_bytes x + Z.max 0 (n - 1)) u64_max)) as [|Hle]; [done|].
  intros [= <- <-]. cbn. assert (MAX_COMMAND_INVERSE_BYTES < u64_max) by done. split; [lia|]. intros Hroom.
  destruct (Z.ltb_spec MAX_COMMAND_INVERSE_BYTES (Z.min (cx_inverse_bytes x + k + Z.max 0 (n - 1)) u64_max)); [lia|].
  eexists. split; [done|]. split; cbn; (done || lia).
Qed.
Lemma sim_for_each {A} (f : A → CM unit) l : (∀ a, sim k (f a) (f a)) → sim k (for_each f l) (for_each f l).
Proof. intros Hf. induction l; cbn [for_each]; [apply sim_ret|]. by apply sim_bind. Qed.
Lemma sim_fold {A B} (f : B → A → CM B) l : (∀ b a, sim k (f b a) (f b a)) → ∀ b, sim k (fold_m f b l) (fold_m f b l).
Proof. intros Hf. induction l; intros b; cbn [fold_m]; [apply sim_ret|]. by apply sim_bind. Qed.
End sim.
#[export] Hint Resolve sim_ret sim_fail sim_lift sim_leaves sim_inverse sim_frame : sim.
(** One step of two runs of one program. *)
Ltac sim_step :=
  match goal with
  | |- sim _ (_ ≫= _) (_ ≫= _) => apply sim_bind; [|intros ?]
  | |- sim _ (if ?b then _ else _) _ => destruct b
  | |- sim _ (match ?e with _ => _ end) _ => destruct e
  | |- sim _ (for_each _ _) _ => apply sim_for_each; intros ?
  | |- sim _ (fold_m _ _ _) _ => apply sim_fold; intros ? ?
  | |- sim _ (let '(_, _) := ?e in _) _ => destruct e
  | _ => solve [eauto with sim]
  end.
Ltac sims := repeat sim_step.

(** A pack whose answers do not depend on when it is asked. *)
Record steady (pack : CommandPack) : Prop := {
  st_batch : ∀ n n' d b, cp_apply_batch pack n d b = cp_apply_batch pack n' d b;
  st_settings : ∀ n n' d s r, cp_reconcile_settings pack n d s r = cp_reconcile_settings pack n' d s r
}.
Section replay.
Context (unicode_lowercase : Z → list Z) (parse_uuid : string → option (string * Z)).
Context (cancelled : nat → bool) (registry : gmap string (Registration (Pack := CommandPack))).
Hypothesis quiet : ∀ n, cancelled n = false.
Section pack.
Context (pack : CommandPack) (Hpack : steady pack) (k : Z) (Hk : 0 ≤ k).
Lemma sim_polls {A} (m : SE nat CommandError A) : (∀ n n', (m n).1 = (m n').1) → sim k (on_polls m) (on_polls m).
Proof.
  intros Hm x y a x' Hs. unfold on_polls. specialize (Hm (cx_polls x) (cx_polls y)). destruct (m (cx_polls x)) as [r n], (m (cx_polls y)) as [r' n'].
  cbn in Hm. subst r'. intros [= -> <-]. split; [done|]. intros _. eexists. split; [done|]. by destruct Hs.
Qed.
Lemma sim_check : sim k (check_cancelled cancelled) (check_cancelled cancelled).
Proof using quiet. apply sim_polls. intros n n'. unfold poll. by rewrite !quiet. Qed.
Hint Resolve sim_check : sim.
Lemma sim_output n bytes result : sim k (charge_output cancelled n bytes result) (charge_output cancelled n bytes result).
Proof using quiet.
  unfold charge_output. sims. intros x y b x' [H1 H2 H3 H4 H5]. unfold se_state, added_change_bytes, added_result_bytes. cbn [cx_change_count cx_change_bytes cx_result_bytes].
  rewrite H2, H3, H4. destruct (_ || _); [done|]. intros [= <- <-]. split; [done|]. intros _. eexists. split; [done|]. by split.
Qed.
Hint Resolve sim_output : sim.
Lemma sim_push changes change : sim k (push_settings_change cancelled changes change) (push_settings_change cancelled changes change).
Proof using quiet. unfold push_settings_change. sims. Qed.
Hint Resolve sim_push : sim.
Lemma sim_settings d command :
  sim k (set_scenario_settings unicode_lowercase cancelled pack d command) (set_scenario_settings unicode_lowercase cancelled pack d command).
Proof using quiet Hpack Hk.
  unfold set_scenario_settings. apply sim_bind; [apply sim_interaction; intros; apply Hpack|]. intros reconciled. sims.
Qed.
Notation same m := (sim k m m).
Lemma sim_mutation original batch mutation commands :
  same (validate_domain_mutation unicode_lowercase parse_uuid cancelled registry original batch mutation commands).
Proof using quiet.
  unfold validate_domain_mutation, validate_domain_changes. sims.
Qed.
Hint Resolve sim_mutation : sim.
Lemma sim_accept batch registered mutation effect :
  same (accept_domain_mutation unicode_lowercase parse_uuid cancelled registry batch registered mutation effect).
Proof using quiet Hk. unfold accept_domain_mutation. sims. Qed.
Hint Resolve sim_accept : sim.
Lemma sim_chunk_loop fuel : ∀ commands registered effect,
  same (apply_domain_chunk_loop unicode_lowercase parse_uuid cancelled registry pack fuel commands registered effect).
Proof using quiet Hpack Hk.
  induction fuel as [|fuel IH]; intros commands registered effect; cbn [apply_domain_chunk_loop].
  all: apply sim_bind; [apply sim_check|intros _]; apply sim_bind; [apply sim_interaction; intros; apply Hpack|intros mutation].
  all: sims; apply IH.
Qed.
Lemma sim_chunk commands registered effect :
  same (apply_domain_chunk unicode_lowercase parse_uuid cancelled registry pack commands registered effect).
Proof using quiet Hpack Hk. apply sim_chunk_loop. Qed.
Hint Resolve sim_chunk : sim.
Lemma sim_flush chunk effect : same (flush_chunk unicode_lowercase parse_uuid cancelled registry pack chunk effect).
Proof using quiet Hpack Hk. unfold flush_chunk. sims. Qed.
Hint Resolve sim_flush : sim.
Lemma sim_run_loop framing frame_nodes envelopes : ∀ chunk effect,
  same (domain_run_loop unicode_lowercase parse_uuid cancelled registry pack framing frame_nodes envelopes chunk effect).
Proof using quiet Hpack Hk.
  induction envelopes as [|envelope envelopes IH]; intros chunk effect; cbn [domain_run_loop]; [apply sim_flush|].
  sims; apply IH.
Qed.
Lemma sim_run d envelopes : same (apply_domain_run unicode_lowercase parse_uuid cancelled registry pack d envelopes).
Proof using quiet Hpack Hk. unfold apply_domain_run. apply sim_bind; [apply sim_lift|intros]. apply sim_run_loop. Qed.
Hint Resolve sim_run sim_settings : sim.
Lemma sim_flush_run run d changes inverses :
  same (flush_run unicode_lowercase parse_uuid cancelled registry pack run d changes inverses).
Proof using quiet Hpack Hk. unfold flush_run. sims. Qed.
Lemma sim_leaf d c : same (apply_leaf unicode_lowercase parse_uuid cancelled registry pack d c).
Proof using quiet Hpack Hk. unfold apply_leaf, unsupported. sims. Qed.
(** Every batch of the command is nested less deeply than the limit. *)
Fixpoint fits (c : ScenarioCommand) (depth : Z) : Prop :=
  match c with
  | ApplyBatch _ cs => depth < MAX_BATCH_DEPTH ∧ Forall id (map (λ c, fits c (depth + 1)) cs)
  | _ => True
  end.
Notation nested := (apply_nested unicode_lowercase parse_uuid cancelled registry pack).
Definition replays (c : ScenarioCommand) : Prop := ∀ depth depth' d, fits c depth' → sim k (nested c depth d) (nested c depth' d).
Lemma sim_children cs : Forall replays cs → ∀ depth depth' run d changes inverses,
  Forall id (map (λ c, fits c depth') cs) →
  sim k (apply_children unicode_lowercase parse_uuid cancelled registry pack (λ c, nested c depth) cs run d changes inverses)
        (apply_children unicode_lowercase parse_uuid cancelled registry pack (λ c, nested c depth') cs run d changes inverses).
Proof using quiet Hpack Hk.
  induction 1 as [|c cs Hc _ IH]; intros depth depth' run d changes inverses Hf; [apply sim_flush_run|].
  cbn [map] in Hf. apply Forall_cons in Hf as [Hf1 Hf2]. unfold id in Hf1.
  assert (sim k (flushed ← flush_run unicode_lowercase parse_uuid cancelled registry pack run d changes inverses;
      let '(d, changes, inverses) := flushed in
      _ ← check_cancelled cancelled; applied ← nested c depth d;
      apply_children unicode_lowercase parse_uuid cancelled registry pack (λ c, nested c depth) cs [] applied.1
        (changes ++ pe_changes applied.2) (inverses ++ [pe_inverse applied.2]))
     (flushed ← flush_run unicode_lowercase parse_uuid cancelled registry pack run d changes inverses;
      let '(d, changes, inverses) := flushed in
      _ ← check_cancelled cancelled; applied ← nested c depth' d;
      apply_children unicode_lowercase parse_uuid cancelled registry pack (λ c, nested c depth') cs [] applied.1
        (changes ++ pe_changes applied.2) (inverses ++ [pe_inverse applied.2]))) as Hother.
  { apply sim_bind; [apply sim_flush_run|]. intros [[d1 changes1] inverses1]. apply sim_bind; [apply sim_check|]. intros _.
    apply sim_bind; [by apply Hc|]. intros applied. by apply IH. }
  destruct c; try exact Hother. by apply IH.
Qed.
Lemma sim_nested c : replays c.
Proof using quiet Hpack Hk.
  induction c as [c Hc|label cs IH] using ScenarioCommand_rect'; intros depth depth' d Hf.
  - assert (∀ depth, nested c depth d = (_ ← check_cancelled cancelled; apply_leaf unicode_lowercase parse_uuid cancelled registry pack d c)) as E
      by (intros; destruct c; (done || by destruct (Hc label commands))).
    rewrite !E. apply sim_bind; [apply sim_check|]. intros _. apply sim_leaf.
  - cbn [fits] in Hf. destruct Hf as [Hd Hf]. cbn [apply_nested]. apply sim_bind; [apply sim_check|]. intros _.
    apply sim_bind.
    { intros x y [] x' Hs [H ->]%se_lift_Ok. split; [done|]. intros _. exists y. split; [|done]. unfold se_lift.
      revert H. unfold validate_batch_shape. destruct (_ =? _); [done|]. destruct (Z.leb_spec MAX_BATCH_DEPTH depth'); [lia|done]. }
    intros _. apply sim_bind; [by apply sim_frame|]. intros _. apply sim_bind; [by apply sim_children|]. intros [[d1 changes] inverses].
    apply sim_ret.
Qed.
End pack.

(** ** Runs from shifted counters *)
Lemma unshifted x : shifted 0 x x.
Proof using. split; (done || lia). Qed.
Lemma shifted_polls k n x y : shifted k x y → shifted k (with_polls n x) y.
Proof using. by intros []. Qed.
Lemma polls_shifted n x y : shifted 0 x y → shifted 0 x (with_polls n y).
Proof using. by intros []. Qed.
Lemma shifted_within k x y : shifted k x y → 0 ≤ k → cx_inverse_bytes x + k ≤ MAX_COMMAND_INVERSE_BYTES → within_limits x → within_limits y.
Proof using. intros [H1 H2 H3 H4 H5] Hk Hr [W1 W2 W3]. split; rewrite ?H1, ?H2, ?H3, ?H4, ?H5; [done|lia|done]. Qed.
Definition yields {A} (k : Z) (x : ApplyContext) (m : CM A) (a : A) (x' : ApplyContext) : Prop :=
  ∀ y, shifted k x y → ∃ y', m y = (Ok a, y') ∧ shifted k x' y'.
Lemma replayed_bind {A B} k x (m : CM A) a x1 (f : A → CM B) b x2 :
  yields k x m a x1 → yields k x1 (f a) b x2 → yields k x (m ≫= f) b x2.
Proof using.
  intros Hm Hf y Hs. destruct (Hm y Hs) as (y1 & H1 & Hs1). destruct (Hf y1 Hs1) as (y2 & H2 & Hs2). exists y2. split; [|done].
  unfold mbind, SE_bind. by rewrite H1.
Qed.
Lemma yields_check k x : yields k x (check_cancelled cancelled) tt x.
Proof using quiet. intros y []. unfold check_cancelled, on_polls, poll. rewrite quiet. eexists. split; [done|by split]. Qed.
Lemma replayed_ret {A} k x (a : A) : yields k x (mret a) a x.
Proof using. intros y Hs. by exists y. Qed.
Lemma yields_sim {A} k (m m' : CM A) x a x' : sim k m m' → m x = (Ok a, x') →
  cx_inverse_bytes x' + k ≤ MAX_COMMAND_INVERSE_BYTES → yields k x m' a x'.
Proof using. intros Hm Hr Hroom y Hs. destruct (Hm x y a x' Hs Hr) as [_ H]. by apply H. Qed.
Lemma yields_lift {A} k x (r : CR A) a : r = Ok a → yields k x (se_lift r) a x.
Proof using. intros -> y Hs. by exists y. Qed.
Definition frame_bytes (n : Z) : Z := json_len (json_batch None []) + Z.max 0 (n - 1).
Lemma frame_charged n x x' : within_limits x → charge_batch_frame None n x = (Ok tt, x') →
  within_limits x' ∧ shifted (frame_bytes n) x x'.
Proof using.
  intros Hx H. destruct (counts_frame None n x tt x' Hx H) as (Hx' & cs & i & l & [G1 G2 _] & _ & -> & ->). split; [done|].
  revert H. unfold charge_batch_frame, mbind, SE_bind, charge_inverse, se_state.
  destruct (bounded_json_size _ _); [|done]. cbn -[json_batch json_len]. destruct (_ <? _); [done|]. intros [= <-].
  split; try done.
Qed.
Lemma yields_frame n x : within_limits x → cx_inverse_bytes x + frame_bytes n ≤ MAX_COMMAND_INVERSE_BYTES →
  ∀ y, shifted 0 x y → ∃ y', charge_batch_frame None n y = (Ok tt, y') ∧ shifted (frame_bytes n) x y'.
Proof using.
  intros [_ W _] Hroom y [H1 H2 H3 H4 H5]. unfold charge_batch_frame, mbind, SE_bind, charge_inverse, se_state.
  pose proof (json_len_nonneg (json_batch None [])) as Hn. unfold frame_bytes in *.
  assert (bounded_json_size (json_batch None []) (Z.max 0 (MAX_COMMAND_INVERSE_BYTES - cx_inverse_bytes y))
    = Ok (json_len (json_batch None []))) as ->.
  { apply bounded_size_Ok. assert (MAX_COMMAND_INVERSE_BYTES ≤ u64_max) by done. split_and!; [done|lia|lia]. }
  cbn -[json_batch json_len]. unfold u64_saturating_add. assert (MAX_COMMAND_INVERSE_BYTES < u64_max) by done.
  destruct (Z.ltb_spec MAX_COMMAND_INVERSE_BYTES (Z.min (cx_inverse_bytes y + json_len (json_batch None []) + Z.max 0 (n - 1)) u64_max)); [lia|].
  eexists. split; [done|]. split; cbn -[json_batch json_len]; (done || lia).
Qed.

(** ** Batches of two *)
Section pairs.
Context (pack : CommandPack) (Hpack : steady pack).
Notation nested := (apply_nested unicode_lowercase parse_uuid cancelled registry pack).
Notation children := (apply_children unicode_lowercase parse_uuid cancelled registry pack (λ c, nested c 1)).
(** A domain command is a run of its own. *)
Lemma run_of_one k x d envelope d1 e1 x1 : 0 ≤ k → within_limits x → cx_inverse_bytes x + k ≤ MAX_COMMAND_INVERSE_BYTES →
  yields k x (nested (ApplyDomainCommand envelope) 1 d) (d1, e1) x1 →
  yields k x (flush_run unicode_lowercase parse_uuid cancelled registry pack [envelope] d [] [])
    (d1, pe_changes e1, [pe_inverse e1]) x1.
Proof using.
  intros Hk Hx Hroom Hy y Hs. destruct (Hy y Hs) as (y' & Hr & Hs'). exists y'. split; [|done].
  pose proof (shifted_within _ _ _ Hs Hk Hroom Hx) as Hw. cbn [apply_nested apply_leaf] in Hr. unfold apply_leaf in Hr.
  apply se_bind_Ok in Hr as ([] & y1 & H1 & Hr). apply se_bind_Ok in Hr as ([] & y2 & H2 & Hr).
  apply se_bind_Ok in Hr as (run & y3 & H3 & Hr).
  destruct (counts_check cancelled _ _ _ Hw H1) as [Hw1 _]. destruct (counts_leaves 1 ltac:(lia) _ _ _ Hw1 H2) as [Hw2 _].
  destruct (domain_run_counts _ _ _ _ _ _ _ _ _ _ Hw2 H3) as (_ & ? & ? & ? & _ & _ & _ & _ & Hlen).
  destruct (re_inverses run) as [|inverse []] eqn:E; [done| |unfold len in Hlen; cbn in Hlen; lia]. cbn [last] in Hr.
  apply se_ret_Ok in Hr as [[= -> ->] ->]. unfold flush_run. change (len [envelope] =? 0) with false. cbn iota.
  change (len [envelope]) with 1. unfold mbind, SE_bind. rewrite H1, H2, H3. cbn [app]. by rewrite E.
Qed.
Lemma pair_children k x c label cs d d1 e1 x1 d2 e2 x2 :
  0 ≤ k → within_limits x → cx_inverse_bytes x + k ≤ MAX_COMMAND_INVERSE_BYTES →
  yields k x (nested c 1 d) (d1, e1) x1 → yields k x1 (nested (ApplyBatch label cs) 1 d1) (d2, e2) x2 →
  yields k x (children [c; ApplyBatch label cs] [] d [] [])
    (d2, pe_changes e1 ++ pe_changes e2, [pe_inverse e1; pe_inverse e2]) x2.
Proof using quiet.
  intros Hk Hx Hroom H1 H2.
  assert (yields k x1 (_ ← check_cancelled cancelled; applied ← nested (ApplyBatch label cs) 1 d1;
      children [] [] applied.1 (pe_changes e1 ++ pe_changes applied.2) ([pe_inverse e1] ++ [pe_inverse applied.2]))
      (d2, pe_changes e1 ++ pe_changes e2, [pe_inverse e1; pe_inverse e2]) x2) as Hsecond.
  { eapply replayed_bind; [apply yields_check|]. eapply replayed_bind; [exact H2|]. apply replayed_ret. }
  destruct c as [| | | | | | | | | |env|].
  all: try (eapply replayed_bind; [apply replayed_ret|]; cbn iota; eapply replayed_bind; [apply yields_check|];
            eapply replayed_bind; [exact H1|]; eapply replayed_bind; [apply replayed_ret|]; exact Hsecond).
  cbn [apply_children app]. eapply replayed_bind; [by apply (run_of_one k x d env d1 e1 x1)|]. exact Hsecond.
Qed.
End pairs.

(** ** Preflight and completion *)
Lemma preflight_fits c : ∀ depth s s', preflight_settings_leaves unicode_lowercase cancelled c depth s = (Ok tt, s') → fits c depth.
Proof using.
  induction c as [c Hc|label cs IH] using ScenarioCommand_rect'; intros depth s s'; [destruct c; (done || by destruct (Hc label commands))|].
  cbn [preflight_settings_leaves fits]. intros (_ & s1 & _ & H)%se_bind_Ok. apply se_bind_Ok in H as ([] & s2 & [Hs _]%se_lift_Ok & H).
  split; [revert Hs; unfold validate_batch_shape; destruct (_ =? _); [done|]; by destruct (Z.leb_spec MAX_BATCH_DEPTH depth)|].
  clear Hs s s1. revert s2 H. induction IH as [|c cs Hc _ IHcs]; intros s2 H; cbn; [constructor|].
  apply se_bind_Ok in H as ([] & s3 & H1 & H2). constructor; [by eapply Hc|by eapply IHcs].
Qed.
Lemma run_preflight_Ok {A} (m : SE (nat * Z) CommandError A) n a n' :
  run_preflight m n = (Ok a, n') → ∃ s, m (n, MAX_BATCH_COMMANDS) = (Ok a, s).
Proof using. unfold run_preflight. destruct (m _) as [r [n1 r1]]. intros [= -> _]. by eexists. Qed.
Lemma setup_preflight c path n n' path' : preflight_setup_command unicode_lowercase cancelled c path n = (Ok tt, n') →
  fits c 0 ∧ ∀ m, (preflight_command unicode_lowercase cancelled c path' m).1 = Ok tt.
Proof using quiet.
  unfold preflight_setup_command. intros H.
  apply se_bind_Ok in H as ([] & n1 & H1 & H). apply se_bind_Ok in H as (? & n2 & [_ ->]%se_lift_Ok & H).
  split; [destruct (run_preflight_Ok _ _ _ _ H1) as [s Hs]; by eapply preflight_fits|].
  intros m. apply (preflight_anywhere unicode_lowercase cancelled quiet c n path). unfold preflight_command, mbind, SE_bind. rewrite H1.
  by rewrite H.
Qed.
Lemma pair_fits c c' n n' : preflight_pair unicode_lowercase cancelled c c' n = (Ok tt, n') → fits c 1 ∧ fits c' 1.
Proof using.
  unfold preflight_pair. intros [s H]%run_preflight_Ok. apply se_bind_Ok in H as ([] & s1 & H1 & H2).
  split; by eapply preflight_fits.
Qed.
Lemma sim_finalize pack working revision effect before :
  sim 0 (finalize_application unicode_lowercase cancelled pack working revision effect before)
        (finalize_application unicode_lowercase cancelled pack working revision effect before).
Proof using quiet.
  unfold finalize_application. pose proof (sim_check 0) as Hcheck.
  assert (sim 0 (on_polls (preflight_command unicode_lowercase cancelled (pe_inverse effect) "/inverse"))
                (on_polls (preflight_command unicode_lowercase cancelled (pe_inverse effect) "/inverse"))) as Hpreflight.
  { apply sim_polls. intros n n'. unfold preflight_command, run_preflight, mbind, SE_bind.
    destruct (unpolled_preflight unicode_lowercase cancelled quiet (pe_inverse effect) 0 n n' MAX_BATCH_COMMANDS) as [H1 _].
    destruct (preflight_settings_leaves _ _ _ _ (n, _)) as [r [n1 r1]], (preflight_settings_leaves _ _ _ _ (n', _)) as [r' [n1' r1']].
    cbn in H1. subst r'. by destruct r. }
  assert (sim 0 (on_polls (validation_delta cancelled before (cp_validate_fast pack working)))
                (on_polls (validation_delta cancelled before (cp_validate_fast pack working)))) as Hdelta.
  { apply sim_polls. generalize (cp_validate_fast pack working). intros after.
    assert (∀ n, (validation_delta cancelled before after n).1 =
      map_err (λ _, CommandResourceLimit) (bounded_json_size (json_delta {| vd_added := added_issues before after;
        vd_resolved := resolved_codes before after |}) MAX_COMMAND_VALIDATION_DELTA_BYTES) ≫=
      λ _, Ok {| vd_added := added_issues before after; vd_resolved := resolved_codes before after |}) as E.
    { intros n. unfold validation_delta. unfold mbind at 1 2 3 4 5 6 7, SE_bind.
      destruct (polls_pass cancelled quiet before n) as [n1 ->]. destruct (polls_pass cancelled quiet after n1) as [n2 ->].
      destruct (polls_pass cancelled quiet (added_issues before after) n2) as [n3 ->]. destruct (polls_pass cancelled quiet after n3) as [n4 ->].
      destruct (polls_pass cancelled quiet before n4) as [n5 ->]. unfold se_lift.
      destruct (bounded_json_size _ _); cbn; [by rewrite quiet|done]. }
    intros n n'. by rewrite !E. }
  repeat (apply sim_bind; [first [exact Hcheck|exact Hpreflight|exact Hdelta|apply sim_lift]|intros ?]). apply sim_ret.
Qed.

(** ** The recorded command *)
Hypothesis steady_packs : ∀ id pack, registry_require registry id = Ok pack → steady pack.
Lemma wrap_Ok {S E F A} (f : E → F) (m : SE S E A) s a s' : wrap f m s = (Ok a, s') ↔ m s = (Ok a, s').
Proof using. unfold wrap. destruct (m s) as [[]]; cbn; naive_solver. Qed.
Lemma reopened d c n pack x n1 : ApplyContext_new unicode_lowercase registry d c n = (Ok (pack, x), n1) →
  steady pack ∧ ∀ c' n', ∃ x', ApplyContext_new unicode_lowercase registry d c' n' = (Ok (pack, x'), n') ∧ shifted 0 x x'.
Proof using steady_packs.
  unfold ApplyContext_new. destruct (registry_require _ _) as [pack'|] eqn:E; [|done]. destruct (negb _); [done|].
  destruct (validate_document_shape _ _); [|done]. intros [= -> <- _]. split; [by eapply steady_packs|]. intros c' n'. by eexists.
Qed.
Lemma applied_when d revision envelope pack x a x' :
  let command := ce_command envelope in
  (∀ n, (preflight_command unicode_lowercase cancelled command "/command" n).1 = Ok tt) →
  ce_scenario_id envelope = sdoc_scenario_id d → ce_expected_revision envelope = revision →
  (∀ n, ∃ y, ApplyContext_new unicode_lowercase registry d (Some command) n = (Ok (pack, y), n) ∧ shifted 0 x y) →
  yields 0 x (applied ← apply_nested unicode_lowercase parse_uuid cancelled registry pack command 0 d;
     finalize_application unicode_lowercase cancelled pack applied.1 revision applied.2 (cp_validate_fast pack d)) a x' →
  apply_command_with_registry unicode_lowercase parse_uuid cancelled registry d revision envelope = Ok a.
Proof using quiet.
  cbv zeta. intros Hpre Hid Hrev Hopen Hm. unfold apply_command_with_registry.
  rewrite bool_decide_true by done. rewrite Hrev, Z.eqb_refl. cbn [negb]. unfold mbind at 1 2 3 4, SE_bind at 1 2 3 4, poll.
  rewrite quiet. specialize (Hpre 1%nat). destruct (preflight_command _ _ _ _ 1%nat) as [r n]. cbn in Hpre. subst r.
  unfold mret, SE_ret. destruct (Hopen n) as (y & Hy & Hs). rewrite Hy. cbn [mbind Result_bind].
  unfold in_context. destruct (Hm y Hs) as (y' & Hr & _). unfold mbind, SE_bind in Hr |- *. by rewrite Hr.
Qed.
(** What is left of the context when only the token was polled. *)
Lemma checked_shifted x a x' : check_cancelled cancelled x = (Ok a, x') → shifted 0 x' x ∧ (within_limits x → within_limits x').
Proof using.
  unfold check_cancelled, on_polls. destruct (poll cancelled (cx_polls x)) as [r n]. intros [= -> <-]. split; [split; cbn; (done || lia)|].
  by intros [].
Qed.
Lemma polled_shifted {A} (m : SE nat CommandError A) x a x' : on_polls m x = (Ok a, x') → shifted 0 x' x ∧ (within_limits x → within_limits x').
Proof using.
  unfold on_polls. destruct (m (cx_polls x)) as [r n]. intros [= -> <-]. split; [split; cbn; (done || lia)|]. by intros [].
Qed.
Lemma counters_trans k k' x y z : shifted k x y → shifted k' y z → shifted (k + k') x z.
Proof using. intros [] []. split; (congruence || lia). Qed.
Lemma shifted_sym x y : shifted 0 x y → shifted 0 y x.
Proof using. intros []. split; (congruence || lia). Qed.
Lemma yields_from {A} k x0 x (m : CM A) a x' : shifted 0 x0 x → yields k x0 m a x' → yields k x m a x'.
Proof using. intros Hs Hm y Hy. apply Hm. by apply (counters_trans 0 k x0 x y). Qed.
Lemma yields_to {A} k x (m : CM A) a x' x1 : shifted 0 x1 x' → yields k x m a x' → yields k x m a x1.
Proof using. intros Hs Hm y Hy. destruct (Hm y Hy) as (y' & H & Hy'). exists y'. split; [done|]. by apply (counters_trans 0 k x1 x' y'). Qed.
Lemma finalized pack working revision effect before x applied x' : within_limits x →
  finalize_application unicode_lowercase cancelled pack working revision effect before x = (Ok applied, x') →
  yields 0 x (finalize_application unicode_lowercase cancelled pack working revision effect before) applied x'.
Proof using quiet.
  intros Hx H. eapply yields_sim; [apply sim_finalize|exact H|].
  assert (counts (finalize_application unicode_lowercase cancelled pack working revision effect before) (λ _ _ _ _, True)) as Hc.
  { unfold finalize_application.
    repeat (eapply counts_free_bind; [first [apply counts_check|apply counts_lift|apply counts_polls]|intros ? _]). by apply counts_ret. }
  destruct (Hc _ _ _ Hx H) as [[_ W _] _]. lia.
Qed.
Section one_pack.
Context (pack : CommandPack) (Hpack : steady pack).
Notation nested := (apply_nested unicode_lowercase parse_uuid cancelled registry pack).
Lemma nested_within c depth d x r x' : within_limits x → nested c depth d x = (Ok r, x') → within_limits x'.
Proof using. intros Hx H. by destruct (nested_counted unicode_lowercase parse_uuid cancelled registry pack c depth d x r x' Hx H). Qed.
(** An application is repeated from the same counters. *)
Lemma nested_again c depth depth' d x r x' : within_limits x → nested c depth d x = (Ok r, x') → fits c depth' →
  yields 0 x (nested c depth' d) r x'.
Proof using quiet Hpack.
  intros Hx H Hf. pose proof (nested_within _ _ _ _ _ _ Hx H) as [_ W _].
  eapply yields_sim; [by apply sim_nested|exact H|lia].
Qed.
(** A draft applied alone, then a generated batch after a frame for two, are one batch of the two. *)
Lemma combined_again c label cs d x0 x d1 e1 x1 x2 x3 d2 e2 x4 : let g := ApplyBatch label cs in
  within_limits x → shifted 0 x x0 → nested c 0 d x = (Ok (d1, e1), x1) → shifted 0 x2 x1 → within_limits x2 →
  charge_batch_frame None 2 x2 = (Ok tt, x3) → nested g 1 d1 x3 = (Ok (d2, e2), x4) → fits c 1 → fits g 1 →
  within_limits x4 ∧ yields 0 x0 (nested (ApplyBatch None [c; g]) 0 d)
    (d2, batch_effect None 2 (pe_changes e1 ++ pe_changes e2) [pe_inverse e1; pe_inverse e2]) x4.
Proof using quiet Hpack.
  intros g Hx Hs0 H1 Hs2 Hx2 Hframe H2 Hf1 Hf2. destruct (frame_charged _ _ _ Hx2 Hframe) as [Hx3 Hs3].
  assert (0 ≤ frame_bytes 2) as HF by (by vm_compute).
  pose proof (nested_within _ _ _ _ _ _ Hx H1) as Hx1. split; [exact (nested_within _ _ _ _ _ _ Hx3 H2)|].
  assert (cx_inverse_bytes x1 + frame_bytes 2 ≤ MAX_COMMAND_INVERSE_BYTES) as Hroom1
    by (destruct Hs2, Hs3, Hx3 as [_ ? _]; lia).
  assert (cx_inverse_bytes x ≤ cx_inverse_bytes x1) as Hmono.
  { destruct (sim_nested pack Hpack 0 ltac:(lia) c 0 1 d Hf1 x x _ _ (unshifted x) H1). done. }
  cbn [apply_nested]. apply (yields_from 0 x); [done|].
  eapply replayed_bind; [apply yields_check|]. eapply replayed_bind; [by apply yields_lift|].
  intros y Hy. destruct (yields_frame 2 x Hx ltac:(lia) y Hy) as (y1 & Hy1 & Hs1).
  unfold mbind at 1, SE_bind at 1. change (len [c; g]) with 2. rewrite Hy1.
  assert (yields (frame_bytes 2) x (nested c 1 d) (d1, e1) x1) as Hfirst.
  { eapply yields_sim; [by apply sim_nested|exact H1|done]. }
  assert (shifted (frame_bytes 2) x1 x3) as Hs13 by (apply (counters_trans 0 _ x1 x2 x3); [by apply shifted_sym|done]).
  assert (yields (frame_bytes 2) x1 (nested g 1 d1) (d2, e2)
    {| cx_leaf_count := cx_leaf_count x4; cx_change_count := cx_change_count x4; cx_change_bytes := cx_change_bytes x4;
       cx_result_bytes := cx_result_bytes x4; cx_inverse_bytes := cx_inverse_bytes x4 - frame_bytes 2; cx_polls := 0 |}) as Hsecond.
  { intros z Hz. destruct (nested_again g 1 1 d1 x3 _ x4 Hx3 H2 Hf2 z) as (z' & Hz' & []).
    { destruct Hz, Hs13. split; (congruence || lia). }
    exists z'. split; [done|]. split; cbn; (congruence || lia). }
  destruct (pair_children pack (frame_bytes 2) x c label cs d d1 e1 x1 d2 e2 _ HF Hx ltac:(lia) Hfirst Hsecond y1 Hs1)
    as (y2 & Hy2 & []).
  exists y2. split; [|split; cbn in *; (congruence || lia)]. unfold mbind, SE_bind. unfold g. change (0 + 1) with 1. by rewrite Hy2.
Qed.
End one_pack.

Lemma generated_batch document batch x command x' : within_limits x →
  reconciliation_command unicode_lowercase cancelled document batch x = (Ok command, x') →
  within_limits x' ∧ shifted 0 x' x ∧ (∃ label cs, command = ApplyBatch label cs) ∧ fits command 0 ∧
  ∀ m, (preflight_command unicode_lowercase cancelled command "/command" m).1 = Ok tt.
Proof using quiet.
  intros Hx. unfold reconciliation_command. intros (u & x1 & [_ ->]%se_lift_Ok & H)%se_bind_Ok. destruct (_ || _); [done|].
  apply se_bind_Ok in H as ([] & x2 & H1%wrap_Ok & [-> ->]%se_ret_Ok).
  destruct (polled_shifted _ _ _ _ H1) as [Hs Hw]. revert H1. unfold on_polls.
  destruct (preflight_setup_command _ _ _ _ _) as [r n] eqn:E. intros [= -> _].
  destruct (setup_preflight _ _ _ _ "/command" E). split_and!; eauto.
Qed.
Lemma completed pack c d x d1 e1 x1 x2 revision applied x' :
  yields 0 x (apply_nested unicode_lowercase parse_uuid cancelled registry pack c 0 d) (d1, e1) x1 →
  shifted 0 x2 x1 → within_limits x2 →
  finalize_application unicode_lowercase cancelled pack d1 revision e1 (cp_validate_fast pack d) x2 = (Ok applied, x') →
  yields 0 x (applied ← apply_nested unicode_lowercase parse_uuid cancelled registry pack c 0 d;
     finalize_application unicode_lowercase cancelled pack applied.1 revision applied.2 (cp_validate_fast pack d)) applied x'.
Proof using quiet.
  intros Hn Hs Hw Hf. eapply replayed_bind; [exact Hn|]. apply (yields_from 0 x2); [done|]. by apply finalized.
Qed.
Definition generated_as (x : ApplyContext) (generated : option ScenarioCommand) (x' : ApplyContext) : Prop :=
  match generated with
  | None => x' = x
  | Some g => within_limits x' ∧ shifted 0 x' x ∧ (∃ label cs, g = ApplyBatch label cs) ∧ fits g 0 ∧
              ∀ m, (preflight_command unicode_lowercase cancelled g "/command" m).1 = Ok tt
  end.
Lemma generated_step document reconciliation x generated x' : within_limits x →
  match reconciliation with
  | Some batch => command ← reconciliation_command unicode_lowercase cancelled document batch; mret (Some command)
  | None => mret None
  end x = (Ok generated, x') → generated_as x generated x'.
Proof using quiet.
  intros Hx. destruct reconciliation as [batch|]; [|by intros [-> ->]%se_ret_Ok].
  intros (g & x1 & H & [-> ->]%se_ret_Ok)%se_bind_Ok. by eapply generated_batch.
Qed.
Lemma both_run pack c g document d1 e1 x x1 x2 outcome x3 : steady pack → within_limits x →
  apply_nested unicode_lowercase parse_uuid cancelled registry pack c 0 document x = (Ok (d1, e1), x1) →
  generated_as x1 (Some g) x2 →
  reconcile_application unicode_lowercase parse_uuid cancelled registry pack document
    (Some {| da_command := c; da_working := d1; da_before_issues := cp_validate_fast pack document; da_effect := e1 |}) (Some g) x2
    = (Ok outcome, x3) →
  ∃ working effect, outcome = Some (working, cp_validate_fast pack document, ApplyBatch None [c; g], effect) ∧ within_limits x3 ∧
  ∀ x0, shifted 0 x x0 →
    yields 0 x0 (apply_nested unicode_lowercase parse_uuid cancelled registry pack (ApplyBatch None [c; g]) 0 document) (working, effect) x3.
Proof using quiet.
  intros Hpack Hx H1 (Hx2 & Hs2 & (label & cs & ->) & _ & _) H. cbn [reconcile_application] in H.
  apply se_bind_Ok in H as ([] & y1 & Hpair%wrap_Ok & H). apply se_bind_Ok in H as ([] & y2 & Hframe%wrap_Ok & H).
  apply se_bind_Ok in H as ([d2 e2] & y3 & H2%wrap_Ok & [-> ->]%se_ret_Ok).
  destruct (polled_shifted _ _ _ _ Hpair) as [Hs3 Hw3].
  assert (fits c 1 ∧ fits (ApplyBatch label cs) 1) as [Hf1 Hf2].
  { revert Hpair. unfold on_polls. destruct (preflight_pair _ _ _ _ _) as [r m] eqn:E. intros [= -> _]. by eapply pair_fits. }
  assert (shifted 0 y1 x1) as Hs by (by apply (counters_trans 0 0 y1 x2 x1)).
  eexists _, _. split; [done|]. split.
  - by destruct (combined_again pack Hpack c label cs document x x d1 e1 x1 y1 y2 d2 e2 y3 Hx (unshifted x) H1 Hs (Hw3 Hx2) Hframe H2 Hf1 Hf2).
  - intros x0 Hs0.
    by destruct (combined_again pack Hpack c label cs document x0 x d1 e1 x1 y1 y2 d2 e2 y3 Hx Hs0 H1 Hs (Hw3 Hx2) Hframe H2 Hf1 Hf2).
Qed.
(** A reconciled command, step by step: the draft and the generated batch apply as one command. *)
Lemma reconciled_runs document revision draft reconcile prepared :
  apply_reconciled_command_with_registry unicode_lowercase parse_uuid cancelled registry document revision draft reconcile
    = Ok (Some prepared) →
  let command := pr_effective_command prepared in
  ∃ pack n x x',
    ApplyContext_new unicode_lowercase registry document draft n = (Ok (pack, x), n) ∧
    (∀ m, (preflight_command unicode_lowercase cancelled command "/command" m).1 = Ok tt) ∧
    yields 0 x (applied ← apply_nested unicode_lowercase parse_uuid cancelled registry pack command 0 document;
       finalize_application unicode_lowercase cancelled pack applied.1 revision applied.2 (cp_validate_fast pack document))
      (pr_applied prepared) x'.
Proof using quiet steady_packs.
  unfold apply_reconciled_command_with_registry.
  match goal with |- context [let '(_, _) := ?m in _] => destruct m as [opened n] eqn:Eo end.
  destruct opened as [[pack x]|]; [|done]. cbn [mbind Result_bind map_err].
  apply se_bind_Ok in Eo as (u & n1 & Hpre & Hopen).
  pose proof (opened_within _ _ _ _ _ _ _ _ Hopen) as (Hx & _ & _ & _ & -> & _). destruct (reopened _ _ _ _ _ _ Hopen) as [Hpack _].
  match goal with |- fst (?m x) = _ → _ => destruct (m x) as [r xf] eqn:Er end. cbn [fst]. intros ->. cbv zeta.
  exists pack, n, x. apply se_bind_Ok in Er as ([] & x1 & H1%wrap_Ok & Er).
  destruct (checked_shifted _ _ _ H1) as [Hs1 Hw1]. specialize (Hw1 Hx).
  apply se_bind_Ok in Er as (prep & x2 & Hprep & Er). apply se_bind_Ok in Er as ([] & x3 & H3%wrap_Ok & Er).
  apply se_bind_Ok in Er as (answer & x4 & H4 & Er). apply se_bind_Ok in Er as (reconciliation & x5 & [_ ->]%se_lift_Ok & Er).
  apply se_bind_Ok in Er as ([] & x6 & H6%wrap_Ok & Er). apply se_bind_Ok in Er as (generated & x7 & H7 & Er).
  apply se_bind_Ok in Er as (outcome & x8 & H8 & Er).
  assert (shifted 0 x6 x2 ∧ (within_limits x2 → within_limits x6)) as [Hs6 Hw6].
  { destruct (checked_shifted _ _ _ H3) as [S3 W3], (checked_shifted _ _ _ H6) as [S6 W6]. injection H4 as _ <-.
    split; [|intros W; apply W6; by destruct (W3 W)]. destruct S3, S6. cbn in *. split; (congruence || lia). }
  clear H3 H4 H6. destruct draft as [c|].
  - apply se_bind_Ok in Hprep as (da & y1 & Hda & [-> ->]%se_ret_Ok).
    apply se_bind_Ok in Hda as ([d1 e1] & y2 & H2%wrap_Ok & [-> ->]%se_ret_Ok). destruct u.
    destruct (setup_preflight _ _ _ _ "/command" Hpre) as [Hfits Hok].
    pose proof (nested_within pack _ _ _ _ _ _ Hw1 H2) as Hw2. specialize (Hw6 Hw2). apply (generated_step _ _ _ _ _ Hw6) in H7.
    destruct generated as [g|].
    + destruct H7 as (G1 & G2 & G3).
      destruct (both_run pack c g document d1 e1 x1 y2 x7 outcome x8 Hpack Hw1 H2) as (d2 & e2 & -> & Hw8 & Hy); [|done|].
      { split; [done|]. split; [by apply (counters_trans 0 0 x7 x6 y2)|exact G3]. }
      rewrite !bool_decide_true in Er by (by eexists). cbn [andb] in Er. apply se_bind_Ok in Er as ([] & y3 & H12%wrap_Ok & Er).
      apply se_bind_Ok in Er as (applied & y4 & Hfin%wrap_Ok & [[= ->] _]%se_ret_Ok).
      destruct (polled_shifted _ _ _ _ H12) as [Hs12 Hw12]. exists y4. split_and!; [done| |].
      * revert H12. unfold on_polls. destruct (preflight_setup_command _ _ (ApplyBatch _ _) _ _) as [r m] eqn:E. intros [= -> _].
        by destruct (setup_preflight _ _ _ _ "/command" E).
      * eapply completed; [by apply Hy|exact Hs12|by apply Hw12|exact Hfin].
    + cbn in H7. subst x7. apply se_ret_Ok in H8 as [-> ->].
      apply se_bind_Ok in Er as (_ & y3 & [_ ->]%se_ret_Ok & Er). apply se_bind_Ok in Er as (applied & y4 & Hfin%wrap_Ok & [[= ->] _]%se_ret_Ok).
      exists y4. split_and!; [done|done|]. apply (yields_from 0 x1); [done|].
      eapply completed; [by eapply nested_again|exact Hs6|done|exact Hfin].
  - apply se_ret_Ok in Hprep as [-> ->]. specialize (Hw6 Hw1). apply (generated_step _ _ _ _ _ Hw6) in H7.
    destruct generated as [g|]; [|apply se_ret_Ok in H8 as [-> ->]; by apply se_ret_Ok in Er as [? _]].
    destruct H7 as (Hw7 & Hs7 & _ & Hgf & Hgp). apply se_bind_Ok in H8 as ([d1 e1] & y1 & H9%wrap_Ok & [-> ->]%se_ret_Ok).
    apply se_bind_Ok in Er as (_ & y2 & [_ ->]%se_ret_Ok & Er). apply se_bind_Ok in Er as (applied & y3 & Hfin%wrap_Ok & [[= ->] _]%se_ret_Ok).
    exists y3. split_and!; [done|done|].
    apply (yields_from 0 x7). { apply (counters_trans 0 0 x7 x6 x); [done|]. by apply (counters_trans 0 0 x6 x1 x). }
    eapply completed; [by eapply nested_again|apply unshifted|exact (nested_within pack _ _ _ _ _ _ Hw7 H9)|exact Hfin].
Qed.

(** C9. With a token that is never cancelled and packs whose answers do not depend on when they are
    asked, a reconciled command and its record are one: applying the effective command that a
    reconciliation returns, as an ordinary command on the same document at the same revision, gives
    exactly the document, changes, validation delta, inverse, revision and summary that were
    prepared, whether the command is the draft, the commands the pack generated, or a batch of both. *)
Theorem reconciled_command_replays document revision draft reconcile prepared envelope :
  apply_reconciled_command_with_registry unicode_lowercase parse_uuid cancelled registry document revision draft reconcile
    = Ok (Some prepared) →
  ce_scenario_id envelope = sdoc_scenario_id document → ce_expected_revision envelope = revision →
  ce_command envelope = pr_effective_command prepared →
  apply_command_with_registry unicode_lowercase parse_uuid cancelled registry document revision envelope
    = Ok (pr_applied prepared).
Proof using quiet steady_packs.
  intros H Hid Hrev Hc. destruct (reconciled_runs _ _ _ _ _ H) as (pack & n & x & x' & Hopen & Hpre & Hy).
  destruct (reopened _ _ _ _ _ _ Hopen) as [_ Hopened].
  eapply (applied_when document revision envelope pack x); [by rewrite Hc|done|done|by intros; apply Hopened|by rewrite Hc].
Qed.
End replay.
