(* ===== verification/CommandWitnesses.v ===== *)
(** * A concrete pack, registry and commands

    A pack that registers under the identity of the synthetic test pack, with one command that changes
    nothing and is its own inverse, a document of it, a nested batch applied to it, and a draft
    the pack adds to: the hypotheses of the theorems on commands, contracts and portable JSON hold on them. *)
From stdpp Require Import base tactics list gmap strings sorting pretty.
From Stdlib Require Import ZArith Lia Ascii.
From S2P Require Import Prelude Ordering Protocol Budget Ids DomainIr Json Portable PortableFacts Scenario Contract ContractFacts.
From S2P Require Import Command CommandFacts CommandUndo CommandReplay.
Open Scope string_scope.
Open Scope list_scope.
Open Scope Z_scope.

(** ** The pack *)
Definition sample_lowercase (c : Z) : list Z := if (65 <=? c) && (c <=? 90) then [c + 32] else [c].
Definition sample_uuid (text : string) : option (string * Z) := if (String.length text =? 36)%nat then Some (text, 7) else None.
Definition text (key : string) : LocalizedText := {| lt_key := key; lt_default_text := key |}.
Definition closed_object (properties : list (string * JsonValue)) : JsonValue :=
  JObject [("additionalProperties", JBool false); ("properties", JObject properties);
           ("required", JArray ((λ p, JString p.1) <$> properties)); ("type", JString "object")].
Definition record_map : JsonValue :=
  JObject [("additionalProperties", JObject [("type", JString "object")]); ("type", JString "object")].
Definition versioned : JsonValue := closed_object [("schemaVersion", JObject [("const", JNumber "1")])].
Definition note_command : CommandDescriptor := {|
  cd_id := "official.test.note"; cd_title := text "note"; cd_description := text "note"; cd_risk := OrdinaryMutation;
  cd_reversibility := InverseCommand; cd_ai_grouping_allowed := false;
  cd_payload_schema := closed_object [("note", JObject [("maxLength", JNumber "20"); ("type", JString "string")])];
  cd_result_schema := JObject [("type", JString "null")]; cd_change_schema := JObject [("type", JString "object")];
  cd_valid_examples := [JObject [("note", JString "hello")]]; cd_invalid_examples := [JObject []] |}.
Definition sample_catalog : DomainCatalog := {|
  ca_pack_id := "official.test"; ca_scenario_schema_version := 1;
  ca_internal_schema := closed_object ((λ field, (field, record_map)) <$> DOMAIN_MAP_FIELDS);
  ca_portable_schema := versioned; ca_share_result_schema := versioned; ca_commands := [note_command];
  ca_setup_queries := []; ca_ai_tools := [];
  ca_ui := {| um_setup_steps := []; um_entity_kinds := []; um_rule_kinds := []; um_goal_kinds := []; um_score_kinds := [];
              um_provenance_kinds := []; um_result_views := []; um_importers := []; um_exporters := [] |} |}.
Definition sample_descriptor : DomainPackDescriptor := {|
  pd_id := "official.test"; pd_display_name := text "test"; pd_description := text "test"; pd_pack_version := (0, 1, 0);
  pd_scenario_versions := {| sv_latest := 1; sv_migratable_from := [] |}; pd_icon_id := "icon"; pd_capabilities := [DcCommands];
  pd_explanation_capabilities := []; pd_portable_versions := {| sv_latest := 1; sv_migratable_from := [] |};
  pd_portable_capabilities := []; pd_share_result_schema_version := 1; pd_documentation_url := None;
  pd_license := {| li_spdx_expression := "MIT"; li_attribution := "authors" |}; pd_synthetic_test_only := true |}.
Definition sample_pack : CommandPack := {|
  cp_validate_fast := λ document,
    if bool_decide (sd_rules (document_domain document) = ∅)
    then [{| vi_code := "rules.none"; vi_severity := SeverityWarning; vi_message := "no rules"; vi_field_path := None; vi_resource := None |}]
    else [];
  cp_apply_batch := λ _ document batch,
    Ok {| dm_document := document; dm_results := replicate (length (db_commands batch)) JNull; dm_changes := [];
          dm_inverse := {| db_schema_version := 1; db_pack_id := db_pack_id batch;
                           db_scenario_schema_version := db_scenario_schema_version batch; db_label := None;
                           db_commands := reverse (db_commands batch) |} |};
  cp_reconcile_settings := λ _ document _ restoration,
    Ok {| dsm_domain := document_domain document; dsm_inverse_payload := restoration |} |}.
Definition sample_registry : gmap string (Registration (Pack := CommandPack)) :=
  {[ "official.test" := {| rg_descriptor := sample_descriptor; rg_catalog := sample_catalog; rg_pack := sample_pack |} ]}.
Definition sample_build : Result DomainPackError (gmap string (Registration (Pack := CommandPack))) :=
  DomainPackRegistryBuilder_build sample_lowercase sample_uuid (λ _, Ok sample_descriptor) (λ _, Ok sample_catalog) [sample_pack].
Lemma registry_builds : sample_build = Ok sample_registry.
Proof. vm_compute. reflexivity. Qed.
Lemma registry_witness : sample_build = Ok sample_registry ∧
  registry_command sample_registry "official.test" "official.test.note" = Ok note_command.
Proof.
  split; [exact registry_builds|].
  apply (proj2 (proj2 (proj2 (registry_finds_commands sample_lowercase sample_uuid (λ _, Ok sample_descriptor) (λ _, Ok sample_catalog)
    [sample_pack] sample_registry registry_builds)) "official.test" "official.test.note" note_command)).
  split; [reflexivity|]. eexists. split; [reflexivity|]. left.
Defined.
Lemma contract_limits_typed : typed_contract_limits ContractJsonLimits_DEFAULT.
Proof. by vm_compute. Qed.
(** A note of at most twenty characters conforms to the payload schema of its command; a longer one does not. *)
Lemma conforms_witness :
  let check value := validate_contract_value sample_lowercase sample_uuid (cd_payload_schema note_command) value ContractJsonLimits_DEFAULT in
  let conforming value := conforms sample_uuid ContractJsonLimits_DEFAULT 33 (cd_payload_schema note_command) value in
  check (JObject [("note", JString "hello")]) = Ok tt ∧ conforming (JObject [("note", JString "hello")]) ∧
  ¬ conforming (JObject [("note", JString "a note that is far too long")]).
Proof.
  cbv zeta.
  assert (validate_contract_value sample_lowercase sample_uuid (cd_payload_schema note_command) (JObject [("note", JString "hello")])
    ContractJsonLimits_DEFAULT = Ok tt) as H by (vm_compute; reflexivity).
  split; [exact H|]. split.
  - exact (proj2 (proj2 (proj2 (proj1 (proj1 (accepted_values_conform sample_lowercase sample_uuid ContractJsonLimits_DEFAULT
      (cd_payload_schema note_command) (JObject [("note", JString "hello")]) contract_limits_typed)) H)))).
  - intros Hc.
    assert (validate_query_parameters sample_uuid (cd_payload_schema note_command)
      (JObject [("note", JString "a note that is far too long")]) ContractJsonLimits_DEFAULT = Ok tt) as Hq.
    { apply (proj2 (accepted_values_conform sample_lowercase sample_uuid ContractJsonLimits_DEFAULT
        (cd_payload_schema note_command) (JObject [("note", JString "a note that is far too long")]) contract_limits_typed)).
      split; [vm_compute; reflexivity|]. split; [vm_compute; reflexivity|]. split; [apply Z.leb_le; vm_compute; reflexivity|exact Hc]. }
    vm_compute in Hq. discriminate Hq.
Defined.

(** ** The document and its commands *)
Definition sample_document : Document := {|
  sdoc_format_version := 1; sdoc_scenario_id := "00000000-0000-7000-8000-000000000001";
  sdoc_domain_pack := {| dr_id := "official.test"; dr_schema_version := 1 |};
  sdoc_content := {|
    sc_format := EuthetoScenario;
    sc_metadata := {| sm_title := "t"; sm_description := ""; sm_created_at := "2026-01-01T00:00:00Z"; sm_updated_at := "2026-01-01T00:00:00Z" |};
    sc_settings := {| ss_time_zone := "UTC"; ss_locale := "en"; ss_units := Metric;
                      ss_horizon := {| hz_start := "2026-01-01T00:00:00Z"; hz_end := "2026-02-01T00:00:00Z" |};
                      ss_gap_policy := GapReject; ss_overlap_policy := Earlier |};
    sc_domain := {| sd_entities := {[ "e1" := JObject [("id", JString "e1"); ("name", JString "a")] ]}; sd_rules := ∅;
                    sd_preferences := ∅; sd_locked_assignments := ∅ |};
    sc_extensions := ∅ |} |}.
Definition nested_batch : ScenarioCommand := ApplyBatch (Some "edit")
  [AddRule "r1" (JObject [("id", JString "r1")]);
   ApplyBatch None [UpdateEntity "e1" (JObject [("id", JString "e1"); ("name", JString "b")]); SetPreference "p1" (Some (JObject []))];
   RemoveEntity "e1"].
Definition sample_envelope (revision : Z) (command : ScenarioCommand) : CommandEnvelope := {|
  ce_command_id := "c"; ce_scenario_id := "00000000-0000-7000-8000-000000000001"; ce_expected_revision := revision;
  ce_actor := {| ar_actor_id := None; ar_display_name := "user" |}; ce_source := SourceDesktop; ce_command := command |}.
Notation apply_sample := (apply_command_with_registry sample_lowercase sample_uuid (λ _, false) sample_registry).
Definition applied_inverse (r : Result CommandError AppliedCommand) : option ScenarioCommand :=
  match r with Ok a => cr_inverse (ap_result a) | Err _ => None end.
Definition undo_command : ScenarioCommand := ApplyBatch (Some "edit")
  [AddEntity "e1" (JObject [("id", JString "e1"); ("name", JString "b")]);
   ApplyBatch None [SetPreference "p1" None; UpdateEntity "e1" (JObject [("id", JString "e1"); ("name", JString "a")])];
   RemoveRule "r1"].
Lemma sample_inverse : applied_inverse (apply_sample sample_document 4 (sample_envelope 4 nested_batch)) = Some undo_command.
Proof. vm_compute. reflexivity. Qed.
Lemma sample_applied : ∃ applied, apply_sample sample_document 4 (sample_envelope 4 nested_batch) = Ok applied ∧
  cr_inverse (ap_result applied) = Some undo_command.
Proof.
  pose proof sample_inverse as H. destruct (apply_sample sample_document 4 (sample_envelope 4 nested_batch)) as [applied|]; [|discriminate H].
  exists applied. split; [reflexivity|exact H].
Qed.
Lemma sample_undone : ∀ applied, apply_sample sample_document 4 (sample_envelope 4 nested_batch) = Ok applied →
  is_ok (apply_sample (ap_document applied) (cr_new_revision (ap_result applied)) (sample_envelope 5 undo_command)) = true.
Proof.
  assert (match apply_sample sample_document 4 (sample_envelope 4 nested_batch) with
    | Ok applied => is_ok (apply_sample (ap_document applied) (cr_new_revision (ap_result applied)) (sample_envelope 5 undo_command))
    | Err _ => true end = true) as H by (vm_compute; reflexivity).
  intros applied E. rewrite E in H. exact H.
Qed.
Lemma undo_witness : ∃ applied undone, apply_sample sample_document 4 (sample_envelope 4 nested_batch) = Ok applied ∧
  apply_sample (ap_document applied) (cr_new_revision (ap_result applied)) (sample_envelope 5 undo_command) = Ok undone ∧
  ap_document undone = sample_document ∧ cr_inverse (ap_result undone) = Some nested_batch.
Proof.
  destruct sample_applied as (applied & Ha & Hi).
  pose proof (undo_restores_document sample_lowercase sample_uuid (λ _, false) sample_registry (λ _, eq_refl) sample_document 4
    (sample_envelope 4 nested_batch) applied (sample_envelope 5 undo_command) ltac:(lia)
    ltac:(reflexivity) Ha ltac:(reflexivity) ltac:(reflexivity) Hi) as H.
  pose proof (sample_undone applied Ha) as Hok. exists applied.
  destruct (apply_sample (ap_document applied) (cr_new_revision (ap_result applied)) (sample_envelope 5 undo_command)) as [undone|]; [|discriminate Hok].
  destruct H as (H1 & H2 & _). exists undone. split; [exact Ha|]. split; [reflexivity|]. split; [exact H1|exact H2].
Defined.
Lemma bounded_witness : ∃ applied, apply_sample sample_document 4 (sample_envelope 4 nested_batch) = Ok applied ∧
  cr_new_revision (ap_result applied) = 5.
Proof.
  destruct sample_applied as (applied & Ha & _). exists applied. split; [exact Ha|].
  pose proof (applied_command_bounded sample_lowercase sample_uuid (λ _, false) sample_registry sample_document 4
    (sample_envelope 4 nested_batch) applied Ha) as (_ & _ & _ & _ & _ & H & _). rewrite H. reflexivity.
Defined.

(** ** Counters *)
Definition note (value : string) : DomainCommandEnvelope :=
  {| dc_command_type := "official.test.note"; dc_payload := JObject [("note", JString value)] |}.
Definition mixed_batch : ScenarioCommand :=
  ApplyBatch None [ApplyDomainCommand (note "a"); ApplyDomainCommand (note "b"); nested_batch; ApplyDomainCommand (note "c")].
Definition fresh_context : ApplyContext := {|
  cx_leaf_count := 0; cx_change_count := 0; cx_change_bytes := 2; cx_result_bytes := 2; cx_inverse_bytes := 0; cx_polls := 0 |}.
Notation mixed_application := (apply_nested sample_lowercase sample_uuid (λ _, false) sample_registry sample_pack mixed_batch 0 sample_document fresh_context).
Lemma mixed_applies : is_ok mixed_application.1 = true.
Proof. vm_compute. reflexivity. Qed.
Lemma fresh_within : within_limits fresh_context.
Proof. split; vm_compute; repeat split; discriminate. Qed.
Lemma counts_witness : ∃ document' effect x', within_limits fresh_context ∧ mixed_application = (Ok (document', effect), x') ∧
  cx_leaf_count x' = 7 ∧ cx_inverse_bytes x' = json_len (json_command (pe_inverse effect)).
Proof.
  pose proof mixed_applies as H. destruct mixed_application as [[[document' effect]|] x'] eqn:E; [|discriminate H].
  exists document', effect, x'. split; [exact fresh_within|]. split; [reflexivity|].
  pose proof (application_counts_exactly sample_lowercase sample_uuid (λ _, false) sample_registry sample_pack mixed_batch 0
    sample_document fresh_context document' effect x' fresh_within E) as (_ & H1 & H2 & _). split; [rewrite H1; reflexivity|].
  rewrite H2. reflexivity.
Defined.

(** ** A reconciled command *)
Definition reconcile_sample (n : nat) (document : Document) (changes : list Change) : Result DomainPackError (option DomainBatchCommand) :=
  match changes with
  | [] => Ok None
  | _ => Ok (Some {| db_schema_version := 1; db_pack_id := "official.test"; db_scenario_schema_version := 1; db_label := Some "follow";
                     db_commands := [note "added"] |})
  end.
Notation reconciled_sample := (apply_reconciled_command_with_registry sample_lowercase sample_uuid (λ _, false) sample_registry
  sample_document 4 (Some nested_batch) reconcile_sample).
Definition effective (r : Result ReconciledCommandError (option PreparedReconciledCommand)) : option ScenarioCommand :=
  match r with Ok (Some p) => Some (pr_effective_command p) | _ => None end.
Definition combined_batch : ScenarioCommand :=
  ApplyBatch None [nested_batch; ApplyBatch (Some "follow") [ApplyDomainCommand (note "added")]].
Lemma sample_effective : effective reconciled_sample = Some combined_batch.
Proof. vm_compute. reflexivity. Qed.
Lemma sample_packs_steady id pack : registry_require sample_registry id = Ok pack → steady pack.
Proof.
  unfold registry_require, sample_registry. intros H%ok_or_Ok. apply fmap_Some in H as (r & Hr & ->).
  apply lookup_singleton_Some in Hr as [_ <-]. by split.
Qed.
Lemma replay_witness : ∃ prepared, reconciled_sample = Ok (Some prepared) ∧ pr_effective_command prepared = combined_batch ∧
  apply_sample sample_document 4 (sample_envelope 4 combined_batch) = Ok (pr_applied prepared).
Proof.
  pose proof sample_effective as H. destruct reconciled_sample as [[prepared|]|] eqn:E; [|discriminate H..]. injection H as H.
  exists prepared. split; [reflexivity|]. split; [exact H|].
  exact (reconciled_command_replays sample_lowercase sample_uuid (λ _, false) sample_registry (λ _, eq_refl) sample_packs_steady
    sample_document 4 (Some nested_batch) reconcile_sample prepared (sample_envelope 4 combined_batch) E eq_refl eq_refl (eq_sym H)).
Defined.

(** ** Portable JSON *)
Definition portable_text : JsonValue := JObject [("b", JArray [JString "x"; JNumber "1"]); ("a", JBool true)].
Lemma portable_witness : typed_json_limits COMMAND_JSON_LIMITS ∧
  (validate_nonsecret_portable_json_bytes sample_lowercase (Ok portable_text) COMMAND_JSON_LIMITS = Ok tt ↔
   distinct_keys portable_text ∧ validate_nonsecret_portable_json sample_lowercase (kept portable_text) COMMAND_JSON_LIMITS = Ok tt).
Proof.
  split; [vm_compute; repeat split; discriminate|].
  exact (proj1 (portable_policies_agree sample_lowercase COMMAND_JSON_LIMITS ltac:(vm_compute; repeat split; discriminate) portable_text)).
Defined.
Lemma portable_text_admitted : validate_nonsecret_portable_json_bytes sample_lowercase (Ok portable_text) COMMAND_JSON_LIMITS = Ok tt.
Proof. vm_compute. reflexivity. Qed.
