(* ===== verification/Acceptance.v ===== *)
(** * The acceptance gate

    Models [crates/eutheto-verify/src/lib.rs]: the reviewer that projects an untrusted candidate
    through a domain pack, validates what comes back against the planning problem, has it scored and
    verified, and only then builds an accepted result.

    The pack, the clock and the operation control are the environment's.  Every call to them is an
    interaction, numbered in the order they happen; what it answers may depend on its number.  An
    early return of the source is a decision in the error position of the monad. *)
From stdpp Require Import base tactics list gmap strings.
From Stdlib Require Import ZArith Lia Ascii.
From S2P Require Import Prelude Ordering Control Budget Ids DomainIr Model Validation Canonical Projection.
From S2P Require Import SolverApi Router VerificationIr ObjectiveContext Scenario.
Open Scope string_scope.
Open Scope list_scope.
Open Scope Z_scope.

(** ** Alarms *)
Inductive CorrectnessAlarmCategory :=
| CcInvalidPlanningProblem | CcProjectionFailed | CcStructuralValidationFailed | CcVerificationScopeFailed
| CcScoreRecomputationFailed | CcRequiredRuleVerificationFailed | CcReportBindingFailed
| CcRequiredRuleCoverageFailed | CcRequiredRuleRejected | CcScoreIntegrityFailed | CcClockFailed
| CcInfeasibilityContradicted.
#[global] Instance CorrectnessAlarmCategory_eq_dec : EqDecision CorrectnessAlarmCategory.
Proof. solve_decision. Defined.
Definition category_code (self : CorrectnessAlarmCategory) : string :=
  match self with
  | CcInvalidPlanningProblem => "verification.planning_problem_invalid"
  | CcProjectionFailed => "verification.projection_failed"
  | CcStructuralValidationFailed => "verification.structure_invalid"
  | CcVerificationScopeFailed => "verification.scope_invalid"
  | CcScoreRecomputationFailed => "verification.score_failed"
  | CcRequiredRuleVerificationFailed => "verification.required_rules_failed"
  | CcReportBindingFailed => "verification.report_binding_invalid"
  | CcRequiredRuleCoverageFailed => "verification.required_rule_coverage_invalid"
  | CcRequiredRuleRejected => "verification.required_rule_rejected"
  | CcScoreIntegrityFailed => "verification.score_integrity_failed"
  | CcClockFailed => "verification.clock_invalid"
  | CcInfeasibilityContradicted => "verification.infeasibility_contradicted"
  end.
Record CorrectnessAlarm := { al_category : CorrectnessAlarmCategory; al_diagnostic_code : string }.
Definition CorrectnessAlarm_new (category : CorrectnessAlarmCategory) : CorrectnessAlarm :=
  {| al_category := category; al_diagnostic_code := category_code category |}.
(** Milliseconds. *)
Record AcceptancePhaseTimings := {
  pt_projection : Z; pt_structural_validation : Z; pt_score_recomputation : Z; pt_required_rule_verification : Z
}.
Definition AcceptancePhaseTimings_default : AcceptancePhaseTimings :=
  {| pt_projection := 0; pt_structural_validation := 0; pt_score_recomputation := 0;
     pt_required_rule_verification := 0 |}.
Inductive BackendObjectiveReconciliation := Matched | Missing | Mismatch.
#[global] Instance BackendObjectiveReconciliation_eq_dec : EqDecision BackendObjectiveReconciliation.
Proof. solve_decision. Defined.
Inductive AcceptanceDecision :=
| AdAwaiting
| AdAccepted (result : AcceptedResult) (objective_reconciliation : BackendObjectiveReconciliation)
    (timings : AcceptancePhaseTimings)
| AdQuarantined (alarm : CorrectnessAlarm) (timings : AcceptancePhaseTimings)
| AdInterrupted (reason : OperationInterruption) (timings : AcceptancePhaseTimings)
| AdResourceLimitExceeded (timings : AcceptancePhaseTimings).
Definition quarantine (category : CorrectnessAlarmCategory) (timings : AcceptancePhaseTimings) : AcceptanceDecision :=
  AdQuarantined (CorrectnessAlarm_new category) timings.

(** ** Domain packs *)
(** The operations of [DomainPack] the gate calls; the number is the interaction's. *)
Record DomainPack (Content : Type) := {
  dp_project : nat → PlanningProblem → CandidateValues → string → OperationControl →
    Result DomainPackError NormalizedSolution;
  dp_verification_scope : nat → ScenarioDocument Content → Z → OperationControl →
    Result DomainPackError VerificationScope;
  dp_verify : nat → ScenarioDocument Content → NormalizedSolution → option RunObjectiveContext →
    VerificationContextV1 → ScoreVector → OperationControl → Result DomainPackError VerificationReport;
  dp_score : nat → ScenarioDocument Content → NormalizedSolution → option RunObjectiveContext →
    OperationControl → Result DomainPackError ScoreVector
}.
Arguments dp_project {_} _ _ _ _ _ _.
Arguments dp_verification_scope {_} _ _ _ _ _.
Arguments dp_verify {_} _ _ _ _ _ _ _ _.
Arguments dp_score {_} _ _ _ _ _ _.
Definition pack_failure {T} (result : Result DomainPackError T) (category : CorrectnessAlarmCategory) :
    option CorrectnessAlarmCategory :=
  match result with
  | Ok _ | Err (PackCancelled | PackBudgetExpired | PackResourceLimitExceeded) => None
  | Err _ => Some category
  end.
Definition elapsed (start end_ : Z) : option Z :=
  value ← u64_checked_sub end_ start; result_ok (DurationMillis_new value).

(** ** Structure *)
Record StructuralValidationReport := { sr_assignment_count : Z; sr_normalized_solution_hash : string }.
Record StructuralValidationFailure := { sf_code : string; sf_assignment_id : option string }.
Definition structural {A} (code : string) (assignment_id : option string) : Result StructuralValidationFailure A :=
  Err {| sf_code := code; sf_assignment_id := assignment_id |}.
(** [iter().map(|x| (key(x), x)).collect::<BTreeMap<_, _>>()]: the last of equal keys remains. *)
Definition btree_collect {A} (key : A → string) (l : list A) : gmap string A :=
  foldl (λ m a, <[key a := a]> m) ∅ l.
Definition optional_interval (problem : PlanningProblem) (id : string) : bool :=
  existsb (λ v, match v with
                | VInterval interval => bool_decide (itv_id interval = id) && is_some (itv_presence interval)
                | _ => false
                end) (variables problem).
Definition projected_value_matches (problem : PlanningProblem) (projection : SolutionProjection)
    (value : AssignmentValue) : bool :=
  match value with
  | AVAbsent =>
      negb (sp_required projection)
      || match sp_expression projection with
         | PEInterval id => optional_interval problem id
         | PEConstant AVAbsent => true
         | _ => false
         end
  | _ =>
      match sp_expression projection, value with
      | PEBoolean _, AVBoolean _ | PEInteger _, AVInteger _ | PELinear _, AVInteger _ | PEInterval _, AVInterval _ => true
      | PEConstant expected, observed => bool_decide (expected = observed)
      | _, _ => false
      end
  end.
(** The comparison both exact-projection checks make, pairwise up to the shorter list. *)
Definition differs (observed expected : DomainAssignment) : bool :=
  negb (bool_decide (da_id observed = da_id expected)) || negb (bool_decide (da_entity observed = da_entity expected))
  || negb (bool_decide (da_value observed = da_value expected)).
Definition check_projected (problem : PlanningProblem) (assignments : gmap string DomainAssignment)
    (entry : string * SolutionProjection) : Result StructuralValidationFailure unit :=
  let '(assignment_id, projection) := entry in
  match assignments !! assignment_id with
  | None => structural "missing_assignment" (Some assignment_id)
  | Some assignment =>
      if negb (bool_decide (da_entity assignment = sp_entity projection))
      then structural "assignment_entity_mismatch" (Some assignment_id)
      else if negb (projected_value_matches problem projection (da_value assignment))
      then structural "assignment_value_kind_mismatch" (Some assignment_id)
      else Ok tt
  end.
Definition structural_err {E A} (code : string) (r : Result E A) : Result StructuralValidationFailure A :=
  map_err (λ _, {| sf_code := code; sf_assignment_id := None |}) r.

Section gate.
Context (blake3_hex : list Z → string).
Context (serialize_problem : PlanningProblem → Bytes) (serialize_view : CanonicalHashProblem → Bytes).
Context (json_solution : Json NormalizedSolution) (json_scope : Json VerificationScope).
Context (json_report : Json VerificationReport) (json_result : Json AcceptedResult).

Definition validate_exact_projection (problem : PlanningProblem) (candidate : CandidateValues)
    (expected_solution_id : string) (solution : NormalizedSolution) : Result StructuralValidationFailure unit :=
  expected ← structural_err "candidate_projection_invalid"
               (project_candidate blake3_hex problem candidate expected_solution_id limits_default);
  if existsb (λ '(o, e), differs o e) (zip (ns_assignments solution) (ns_assignments expected))
  then structural "projected_assignment_mismatch" None else Ok tt.
(** [canonical_ir_hash] allocates its own uncontrolled budget; [run] is its environment. *)
Definition model_hash (run : UncontrolledRun) (problem : PlanningProblem) : Result CanonicalError string :=
  (canonical_ir_hash blake3_hex serialize_problem serialize_view problem limits_default
     (budget_uncontrolled (ur_token run) limits_default (ur_id run) (ur_env run))).1.
Definition validate_structure (run : UncontrolledRun) (problem : PlanningProblem) (expected_model_hash : string)
    (candidate : CandidateValues) (expected_solution_id : string) (solution : NormalizedSolution) :
    Result StructuralValidationFailure StructuralValidationReport :=
  let meta := metadata problem in
  _ ← structural_err "planning_problem_invalid" (validate blake3_hex problem limits_default);
  hash ← structural_err "planning_model_hash_failed" (model_hash run problem);
  if negb (bool_decide (hash = expected_model_hash)) then structural "planning_model_hash_mismatch" None else
  _ ← structural_err "normalized_solution_invalid" (NormalizedSolution_validate solution);
  if negb (bool_decide (ns_pack_id solution = pm_pack_id meta)) then structural "pack_mismatch" None
  else if negb (bool_decide (ns_scenario_id solution = pm_scenario_id meta)) then structural "scenario_mismatch" None
  else if negb (ns_scenario_revision solution =? pm_scenario_revision meta) then structural "revision_mismatch" None
  else if negb (ns_projection_version solution =? pm_projection_version meta)
  then structural "projection_version_mismatch" None
  else if negb (bool_decide (ns_solution_id solution = expected_solution_id))
  then structural "solution_id_mismatch" None
  else
    let collected := btree_collect sp_assignment_id (projections problem) in
    if negb (Z.of_nat (size collected) =? len (projections problem))
    then structural "duplicate_projection_assignment" None
    else
      let assignments := btree_collect da_id (ns_assignments solution) in
      if negb (Z.of_nat (size assignments) =? Z.of_nat (size collected))
      then structural "assignment_set_mismatch" None
      else
        _ ← for_each (check_projected problem assignments) (btree_iter collected);
        _ ← validate_exact_projection problem candidate expected_solution_id solution;
        if u32_max <? len (ns_assignments solution) then structural "assignment_count_overflow" None
        else
          normalized_solution_hash ← structural_err "solution_hash_failed"
            (NormalizedSolution_canonical_hash blake3_hex json_solution solution);
          Ok {| sr_assignment_count := len (ns_assignments solution);
                sr_normalized_solution_hash := normalized_solution_hash |}.

(** ** Reports *)
Definition alarm_err {E A} (category : CorrectnessAlarmCategory) (r : Result E A) : Result CorrectnessAlarmCategory A :=
  map_err (λ _, category) r.
Definition bindings_match (scope : VerificationScope) (context : VerificationContextV1)
    (report : VerificationReport) : bool :=
  bool_decide (vs_scenario_id scope = vc_scenario_id context)
  && (vs_scenario_revision scope =? vc_evaluated_revision context)
  && bool_decide (vs_checksum scope = vc_verification_scope_checksum context)
  && bool_decide (vr_scenario_id report = vc_scenario_id context)
  && (vr_evaluated_revision report =? vc_evaluated_revision context)
  && bool_decide (vr_document_hash report = vc_document_hash context)
  && bool_decide (vr_planning_model_hash report = vc_planning_model_hash context)
  && bool_decide (vr_normalized_solution_hash report = vc_normalized_solution_hash context)
  && bool_decide (vr_verification_scope_checksum report = vc_verification_scope_checksum context).
Definition validate_report_integrity (scope : VerificationScope) (context : VerificationContextV1)
    (report : VerificationReport) (authoritative_score : ScoreVector) : Result CorrectnessAlarmCategory unit :=
  if negb (bool_decide (vr_score report = authoritative_score)) then Err CcScoreIntegrityFailed
  else
    _ ← alarm_err CcVerificationScopeFailed (VerificationScope_validate blake3_hex json_scope scope);
    _ ← alarm_err CcReportBindingFailed (VerificationContextV1_validate context);
    _ ← alarm_err CcReportBindingFailed (VerificationReport_validate blake3_hex json_report report);
    if negb (bindings_match scope context report) then Err CcReportBindingFailed
    else if negb (bool_decide (rb_rule_id <$> vs_required_rules scope = re_rule_id <$> vr_required_rule_results report))
    then Err CcRequiredRuleCoverageFailed
    else Ok tt.
Definition level_matches (objective : ObjectiveLevel) (verified : ScoreLevelValue) : bool :=
  let declared_categories : gset string := list_to_set (ot_category <$> ol_terms objective) in
  bool_decide (ol_id objective = sl_level_id verified)
  && bool_decide (ol_direction objective = sl_direction verified)
  && (ol_lower_bound objective <=? sl_value verified) && (sl_value verified <=? ol_upper_bound objective)
  && forallb (λ category, bool_decide (category ∈ declared_categories))
       (btree_iter (sl_category_breakdown verified)).*1.
Definition validate_score (problem : PlanningProblem) (score : ScoreVector) : Result CorrectnessAlarmCategory unit :=
  _ ← alarm_err CcScoreIntegrityFailed (validate_current_shape score);
  if negb (len (op_levels (objectives problem)) =? len (levels score)) then Err CcScoreIntegrityFailed
  else for_each (λ '(objective, verified), if level_matches objective verified then Ok tt else Err CcScoreIntegrityFailed)
         (zip (op_levels (objectives problem)) (levels score)).
Definition reconcile_backend_objective (score : ScoreVector) (backend_objective : option BackendObjectiveEvidence) :
    BackendObjectiveReconciliation :=
  match backend_objective with
  | None => Missing
  | Some objective =>
      if negb (len (objective_values objective) =? len (levels score))
         || existsb (λ '(backend, verified), negb (backend =? sl_value verified))
              (zip (objective_values objective) (levels score))
      then Mismatch else Matched
  end.
Definition validate_report (problem : PlanningProblem) (scope : VerificationScope) (context : VerificationContextV1)
    (report : VerificationReport) (authoritative_score : ScoreVector)
    (backend_objective : option BackendObjectiveEvidence) :
    Result CorrectnessAlarmCategory BackendObjectiveReconciliation :=
  _ ← validate_report_integrity scope context report authoritative_score;
  if negb (vr_accepted report) || existsb (λ e, negb (re_satisfied e)) (vr_required_rule_results report)
  then Err CcRequiredRuleRejected
  else if negb (feasibility (vr_score report) =? 0) then Err CcScoreIntegrityFailed
  else
    _ ← validate_score problem (vr_score report);
    Ok (reconcile_backend_objective (vr_score report) backend_objective).

(** ** The reviewer *)
Context {Content : Type} (serialize_document : ScenarioDocument Content → option (list Z)).
Record AcceptanceReviewer := {
  av_document : ScenarioDocument Content;
  av_scenario_revision : Z;
  av_problem : PlanningProblem;
  av_objective_context : option RunObjectiveContext;
  av_document_hash : string;
  av_planning_model_hash : string;
  av_diagnostic_reservation : Z
}.
(** The disjunction both constructors refuse. *)
Definition bindings_refused (document : ScenarioDocument Content) (scenario_revision : Z) (problem : PlanningProblem)
    (objective_context : option RunObjectiveContext) : bool :=
  (REVISION_MAX_V1 <? scenario_revision)
  || negb (bool_decide (pm_pack_id (metadata problem) = dr_id (sdoc_domain_pack document)))
  || negb (bool_decide (pm_scenario_id (metadata problem) = sdoc_scenario_id document))
  || negb (pm_scenario_revision (metadata problem) =? scenario_revision)
  || match objective_context with
     | Some recorded => negb (is_ok (RunObjectiveContext_validate_for recorded (dr_id (sdoc_domain_pack document))
                                       (sdoc_scenario_id document)))
     | None => false
     end.
Definition AcceptanceReviewer_new (run : UncontrolledRun) (document : ScenarioDocument Content) (scenario_revision : Z)
    (problem : PlanningProblem) (objective_context : option RunObjectiveContext) :
    Result CorrectnessAlarm AcceptanceReviewer :=
  let invalid := CorrectnessAlarm_new CcInvalidPlanningProblem in
  _ ← map_err (λ _, invalid) (validate blake3_hex problem limits_default);
  if bindings_refused document scenario_revision problem objective_context then Err invalid
  else
    planning_model_hash ← map_err (λ _, invalid) (model_hash run problem);
    document_bytes ← ok_or invalid (serialize_document document);
    Ok {| av_document := document; av_scenario_revision := scenario_revision; av_problem := problem;
          av_objective_context := objective_context; av_document_hash := blake3_hex document_bytes;
          av_planning_model_hash := planning_model_hash; av_diagnostic_reservation := 0 |}.

(** ** Reviewing a candidate *)
Context (pack : DomainPack Content) (clock : nat → Z) (worlds : nat → World) (runs : nat → UncontrolledRun).
Notation AM := (SE nat AcceptanceDecision).
(** One interaction with the environment. *)
Definition interact {E A} (f : nat → A) : SE nat E A := λ n, (Ok (f n), S n).
Definition now_milliseconds {E} : SE nat E Z := interact clock.
Definition interrupted {E} (control : OperationControl) (error : option DomainPackError) :
    SE nat E (option OperationInterruption) :=
  checked ← interact (λ n, control_check (worlds n) control);
  mret (match checked with
        | Err reason => Some reason
        | Ok _ => match error with
                  | Some PackCancelled => Some Cancelled
                  | Some PackBudgetExpired => Some DeadlineExceeded
                  | _ => None
                  end
        end).
Definition result_err {E A} (r : Result E A) : option E := match r with Err e => Some e | Ok _ => None end.
(** The early returns of the stages. *)
Definition quarantine_if (category : option CorrectnessAlarmCategory) (timings : AcceptancePhaseTimings) : AM unit :=
  match category with Some category => se_fail (quarantine category timings) | None => mret tt end.
Definition stop_if (reason : option OperationInterruption) (timings : AcceptancePhaseTimings) : AM unit :=
  match reason with Some reason => se_fail (AdInterrupted reason timings) | None => mret tt end.
Definition clock_failure (duration : option Z) : option CorrectnessAlarmCategory :=
  match duration with Some _ => None | None => Some CcClockFailed end.
Definition resource_or {T A} (result : Result DomainPackError T) (category : CorrectnessAlarmCategory)
    (timings : AcceptancePhaseTimings) : AM A :=
  match result with
  | Err PackResourceLimitExceeded => se_fail (AdResourceLimitExceeded timings)
  | _ => se_fail (quarantine category timings)
  end.
Definition with_projection (d : option Z) (t : AcceptancePhaseTimings) : AcceptancePhaseTimings :=
  {| pt_projection := default (pt_projection t) d; pt_structural_validation := pt_structural_validation t;
     pt_score_recomputation := pt_score_recomputation t;
     pt_required_rule_verification := pt_required_rule_verification t |}.
Definition with_structural (d : option Z) (t : AcceptancePhaseTimings) : AcceptancePhaseTimings :=
  {| pt_projection := pt_projection t; pt_structural_validation := default (pt_structural_validation t) d;
     pt_score_recomputation := pt_score_recomputation t;
     pt_required_rule_verification := pt_required_rule_verification t |}.
Definition with_score (d : option Z) (t : AcceptancePhaseTimings) : AcceptancePhaseTimings :=
  {| pt_projection := pt_projection t; pt_structural_validation := pt_structural_validation t;
     pt_score_recomputation := default (pt_score_recomputation t) d;
     pt_required_rule_verification := pt_required_rule_verification t |}.
Definition with_verification (d : option Z) (t : AcceptancePhaseTimings) : AcceptancePhaseTimings :=
  {| pt_projection := pt_projection t; pt_structural_validation := pt_structural_validation t;
     pt_score_recomputation := pt_score_recomputation t;
     pt_required_rule_verification := default (pt_required_rule_verification t) d |}.

Section candidate.
Context (self : AcceptanceReviewer) (candidate : BackendCandidate) (solution_id : string) (control : OperationControl).
(** A stage returns its result, the reading it finished with and the timings. *)
Definition projection_stage : AM (NormalizedSolution * Z * AcceptancePhaseTimings) :=
  let timings := AcceptancePhaseTimings_default in
  reason ← interrupted control None;
  _ ← stop_if reason timings;
  started ← now_milliseconds;
  projection ← interact (λ n, dp_project pack n (av_problem self) (bc_values candidate) solution_id control);
  finished ← now_milliseconds;
  let projection_elapsed := elapsed started finished in
  let timings := with_projection projection_elapsed timings in
  _ ← quarantine_if (pack_failure projection CcProjectionFailed) timings;
  reason ← interrupted control (result_err projection);
  _ ← stop_if reason timings;
  _ ← quarantine_if (clock_failure projection_elapsed) timings;
  match projection with
  | Ok solution => mret (solution, finished, timings)
  | failed => resource_or failed CcProjectionFailed timings
  end.
Definition structural_stage (solution : NormalizedSolution) (started : Z) (timings : AcceptancePhaseTimings) :
    AM (StructuralValidationReport * Z * AcceptancePhaseTimings) :=
  structural ← interact (λ n, validate_structure (runs n) (av_problem self) (av_planning_model_hash self)
                                (bc_values candidate) solution_id solution);
  finished ← now_milliseconds;
  let structural_elapsed := elapsed started finished in
  let timings := with_structural structural_elapsed timings in
  _ ← quarantine_if (match structural with Err _ => Some CcStructuralValidationFailed | Ok _ => None end) timings;
  reason ← interrupted control None;
  _ ← stop_if reason timings;
  _ ← quarantine_if (clock_failure structural_elapsed) timings;
  match structural with
  | Ok structural => mret (structural, finished, timings)
  | Err _ => se_fail (quarantine CcStructuralValidationFailed timings)
  end.
Definition score_stage (solution : NormalizedSolution) (started : Z) (timings : AcceptancePhaseTimings) :
    AM (ScoreVector * Z * AcceptancePhaseTimings) :=
  authoritative_score ← interact (λ n,
    dp_score pack n (av_document self) solution (av_objective_context self) control);
  score_finished ← now_milliseconds;
  let score_elapsed := elapsed started score_finished in
  let timings := with_score score_elapsed timings in
  _ ← quarantine_if (pack_failure authoritative_score CcScoreRecomputationFailed) timings;
  reason ← interrupted control (result_err authoritative_score);
  _ ← stop_if reason timings;
  _ ← quarantine_if (clock_failure score_elapsed) timings;
  match authoritative_score with
  | Ok score => mret (score, score_finished, timings)
  | failed => resource_or failed CcScoreRecomputationFailed timings
  end.
(** What the verification stage does with an answer of the pack: its failures take a reading of the
    clock first. *)
Definition pack_answer {T} (started : Z) (timings : AcceptancePhaseTimings) (category : CorrectnessAlarmCategory)
    (result : Result DomainPackError T) : AM T :=
  _ ← match pack_failure result category with
      | Some category =>
          failed ← now_milliseconds;
          se_fail (quarantine category (with_verification (elapsed started failed) timings))
      | None => mret tt
      end;
  reason ← interrupted control (result_err result);
  _ ← match reason with
      | Some reason =>
          stopped ← now_milliseconds;
          se_fail (AdInterrupted reason (with_verification (elapsed started stopped) timings))
      | None => mret tt
      end;
  match result with
  | Ok value => mret value
  | failed_result =>
      failed ← now_milliseconds;
      match elapsed started failed with
      | None => se_fail (quarantine CcClockFailed timings)
      | Some duration => resource_or failed_result category (with_verification (Some duration) timings)
      end
  end.
Definition verification_stage (solution : NormalizedSolution) (structural : StructuralValidationReport)
    (authoritative_score : ScoreVector) (verification_started : Z) (timings : AcceptancePhaseTimings) :
    AM AcceptanceDecision :=
  answer ← interact (λ n, dp_verification_scope pack n (av_document self) (av_scenario_revision self) control);
  verification_scope ← pack_answer verification_started timings CcVerificationScopeFailed answer;
  match VerificationContextV1_new (sdoc_scenario_id (av_document self)) (av_scenario_revision self)
          (av_document_hash self) (av_planning_model_hash self) (sr_normalized_solution_hash structural)
          (vs_checksum verification_scope) with
  | Err _ =>
      failed ← now_milliseconds;
      se_fail (quarantine CcReportBindingFailed (with_verification (elapsed verification_started failed) timings))
  | Ok context =>
      answer ← interact (λ n, dp_verify pack n (av_document self) solution (av_objective_context self) context
                                authoritative_score control);
      report ← pack_answer verification_started timings CcRequiredRuleVerificationFailed answer;
      let validation := validate_report (av_problem self) verification_scope context report authoritative_score
                          (bc_objective candidate) in
      verify_finished ← now_milliseconds;
      let verify_elapsed := elapsed verification_started verify_finished in
      let timings := with_verification verify_elapsed timings in
      _ ← quarantine_if (result_err validation) timings;
      reason ← interrupted control None;
      _ ← stop_if reason timings;
      _ ← quarantine_if (clock_failure verify_elapsed) timings;
      match validation with
      | Err _ => se_fail (quarantine CcReportBindingFailed timings)
      | Ok objective_reconciliation =>
          let accepted := AcceptedResult_new blake3_hex json_solution json_report json_result solution report in
          reason ← interrupted control None;
          _ ← stop_if reason timings;
          match accepted with
          | Ok result => mret (AdAccepted result objective_reconciliation timings)
          | Err _ => mret (quarantine CcReportBindingFailed timings)
          end
      end
  end.
Definition review_stages : AM AcceptanceDecision :=
  '(solution, finished, timings) ← projection_stage;
  '(structural, finished, timings) ← structural_stage solution finished timings;
  '(authoritative_score, score_finished, timings) ← score_stage solution finished timings;
  verification_stage solution structural authoritative_score score_finished timings.
(** [AcceptanceReviewer::review], from the given interaction on: the decision and the next interaction. *)
Definition acceptance_review (n : nat) : AcceptanceDecision * nat :=
  match review_stages n with (Ok decision, n') | (Err decision, n') => (decision, n') end.
End candidate.
End gate.
