(* ===== verification/AcceptanceFacts.v ===== *)
(** * What the acceptance gate lets through

    A candidate crosses the gate of [crates/eutheto-verify/src/lib.rs] only with everything the
    acceptance policy asks for, and whatever goes wrong is a decision of its own. *)
From stdpp Require Import base tactics list gmap strings.
From Stdlib Require Import ZArith Lia Ascii.
From S2P Require Import Prelude Ordering Control Budget Ids DomainIr Model Validation Admission Canonical CanonicalFacts.
From S2P Require Import Projection ProjectionFacts SolverApi Router VerificationIr ObjectiveContext Scenario Acceptance.
Open Scope string_scope.
Open Scope list_scope.
Open Scope Z_scope.

(** ** Collected maps *)
Lemma btree_collect_app {A} (key : A → string) l a :
  btree_collect key (l ++ [a]) = <[key a := a]> (btree_collect key l).
Proof. unfold btree_collect. by rewrite foldl_app. Qed.
Lemma btree_collect_dom {A} (key : A → string) l : dom (btree_collect key l) = list_to_set (key <$> l).
Proof.
  induction l as [|a l IH] using rev_ind; [done|].
  rewrite btree_collect_app, dom_insert_L, IH, fmap_app, list_to_set_app_L. cbn. set_solver.
Qed.
Lemma btree_collect_size {A} (key : A → string) l :
  size (btree_collect key l) = length l ↔ NoDup (key <$> l).
Proof.
  rewrite <-size_dom, btree_collect_dom. split; intros H.
  - revert H. induction l as [|a l IH]; cbn; [constructor|]. intros H.
    assert (size (list_to_set (key <$> l) : gset string) ≤ length l)%nat as Hle.
    { rewrite <-(length_fmap key l). clear. induction (key <$> l) as [|k ks IH]; cbn; [by rewrite size_empty|].
      rewrite size_union_alt. pose proof (size_singleton (C := gset string) k).
      pose proof (subseteq_size (C := gset string) (list_to_set ks ∖ {[k]}) (list_to_set ks) ltac:(set_solver)). lia. }
    destruct (decide (key a ∈ key <$> l)) as [Hin|Hin].
    + assert ({[key a]} ∪ list_to_set (key <$> l) = (list_to_set (key <$> l) : gset string)) as Heq by set_solver.
      rewrite Heq in H. lia.
    + constructor; [done|]. apply IH. rewrite size_union, size_singleton in H by set_solver. lia.
  - by rewrite size_list_to_set, length_fmap.
Qed.

(** ** Stages *)
(** Only the last step of a review accepts: an early return never does. *)
Definition refuses (d : AcceptanceDecision) : Prop := match d with AdAccepted _ _ _ => False | _ => True end.
Notation stage m Q := (triple (λ _ : nat, True) m (λ a _, Q a) (λ d _, refuses d)).
Lemma stage_bind {A B} (m : SE nat AcceptanceDecision A) (k : A → SE nat AcceptanceDecision B) (M : A → Prop) Q :
  stage m M → (∀ a, M a → stage (k a) Q) → stage (m ≫= k) Q.
Proof. intros Hm Hk. eapply triple_bind; [exact Hm|]. intros a s Ha. by apply (Hk a Ha s). Qed.
Lemma stage_interact {A} (f : nat → A) : stage (interact f) (λ a, ∃ n, f n = a).
Proof. intros n _. cbn. by exists n. Qed.
Lemma stage_ret {A} (a : A) (Q : A → Prop) : Q a → stage (mret a) Q.
Proof. by intros H n _. Qed.
Lemma stage_fail {A} d (Q : A → Prop) : refuses d → stage (se_fail d) Q.
Proof. by intros H n _. Qed.
Lemma stage_interrupted worlds control error : stage (interrupted worlds control error) (λ _, True).
Proof. by intros n _. Qed.
Lemma stage_quarantine_if category timings : stage (quarantine_if category timings) (λ _, category = None).
Proof. by intros n _; destruct category. Qed.
Lemma stage_stop_if reason timings : stage (stop_if reason timings) (λ _, reason = None).
Proof. by intros n _; destruct reason. Qed.
Lemma stage_resource_or {T A} (result : Result DomainPackError T) category timings (Q : A → Prop) :
  stage (resource_or result category timings) Q.
Proof. intros n _. destruct result as [|[]]; done. Qed.
Ltac gate_step := eapply stage_bind;
  [first [eapply stage_interact | eapply stage_interrupted | eapply stage_quarantine_if | eapply stage_stop_if]
  |cbv beta; intros ? ?].

Lemma stage_pack_answer {T} clock worlds control started timings category (result : Result DomainPackError T) :
  stage (pack_answer clock worlds control started timings category result) (λ value, result = Ok value).
Proof.
  unfold pack_answer. eapply (stage_bind _ _ (λ _, True)).
  { destruct (pack_failure result category); [|by apply stage_ret]. gate_step. by apply stage_fail. }
  intros _ _. gate_step. eapply (stage_bind _ _ (λ _, True)).
  { match goal with |- context [match ?r with Some _ => _ | None => _ end] => destruct r end; [|by apply stage_ret].
    gate_step. by apply stage_fail. }
  intros _ _. destruct result as [value|e]; [by apply stage_ret|]. gate_step.
  destruct (elapsed _ _); [apply stage_resource_or|by apply stage_fail].
Qed.

Section gate.
Context (blake3_hex : list Z → string).
Context (serialize_problem : PlanningProblem → Bytes) (serialize_view : CanonicalHashProblem → Bytes).
Context (json_solution : Json NormalizedSolution) (json_scope : Json VerificationScope).
Context (json_report : Json VerificationReport) (json_result : Json AcceptedResult).
Context {Content : Type} (serialize_document : ScenarioDocument Content → option (list Z)).
Context (pack : DomainPack Content) (clock : nat → Z) (worlds : nat → World) (runs : nat → UncontrolledRun).
Context (self : AcceptanceReviewer (Content := Content)) (candidate : BackendCandidate) (solution_id : string).
Context (control : OperationControl).
Notation validate_structure := (validate_structure blake3_hex serialize_problem serialize_view json_solution).

(** ** Structure *)
Notation hash_of := (hash_of blake3_hex serialize_view).
(** What an assignment shares with the projection of the candidate; its evidence is the pack's. *)
Definition assigned (problem : PlanningProblem) (values : CandidateValues) (p : SolutionProjection)
    (a : DomainAssignment) : Prop :=
  da_id a = sp_assignment_id p ∧ da_entity a = sp_entity p ∧ projects problem values p (da_value a).
Definition same_assignment (a b : DomainAssignment) : Prop :=
  da_id a = da_id b ∧ da_entity a = da_entity b ∧ da_value a = da_value b.
Lemma default_typed : typed_limits limits_default.
Proof using. vm_compute. repeat split; congruence. Qed.
Lemma differs_false a b : differs a b = false ↔ same_assignment a b.
Proof using.
  unfold differs, same_assignment. rewrite !orb_false_iff, !negb_false_iff, !bool_decide_eq_true. tauto.
Qed.
Lemma zip_same l k :
  length l = length k → existsb (λ '(o, e), differs o e) (zip l k) = false → Forall2 same_assignment l k.
Proof using.
  revert k. induction l as [|a l IH]; intros [|b k]; cbn; try done. intros [= Hl] [Hab H]%orb_false_iff.
  constructor; [by apply differs_false|by apply IH].
Qed.
Lemma strictly_sorted_ids s : NormalizedSolution_validate s = Ok tt → NoDup (da_id <$> ns_assignments s).
Proof using. intros [_ _ Hs _]%NormalizedSolution_validate_spec. by apply strictly_sorted_by_NoDup. Qed.

Record structured (problem : PlanningProblem) (hash : string) (values : CandidateValues) (id : string)
    (solution : NormalizedSolution) : Prop := {
  sd_valid : validate blake3_hex problem limits_default = Ok tt;
  sd_hash : hash_of problem = hash;
  sd_canonical : canonical_solution solution;
  sd_pack : ns_pack_id solution = pm_pack_id (metadata problem);
  sd_scenario : ns_scenario_id solution = pm_scenario_id (metadata problem);
  sd_revision : ns_scenario_revision solution = pm_scenario_revision (metadata problem);
  sd_projection : ns_projection_version solution = pm_projection_version (metadata problem);
  sd_id : ns_solution_id solution = id;
  sd_assignments : ∃ l, l ≡ₚ ns_assignments solution ∧ Forall2 (assigned problem values) (projections problem) l
}.
Lemma same_assigned problem values ps l k :
  Forall2 (assigns problem values) ps k → Forall2 same_assignment l k → Forall2 (assigned problem values) ps l.
Proof using.
  intros H. revert l. induction H as [|p b ps k (Hi & He & _ & Hv) _ IH]; intros l Hl.
  - apply Forall2_nil_inv_r in Hl as ->. constructor.
  - apply Forall2_cons_inv_r in Hl as (a & l' & (H1 & H2 & H3) & Hl & ->).
    constructor; [|by apply IH]. unfold assigned. by rewrite H1, H2, H3.
Qed.
Lemma model_hash_Ok run problem hash :
  model_hash blake3_hex serialize_problem serialize_view run problem = Ok hash → hash = hash_of problem.
Proof using.
  unfold model_hash. destruct (canonical_ir_hash _ _ _ _ _ _) as [r b] eqn:Hr. cbn. intros ->.
  by apply canonical_ir_hash_Ok in Hr; [|apply default_typed].
Qed.
Lemma exact_projection_Ok problem values id solution :
  typed_projections problem → validate blake3_hex problem limits_default = Ok tt →
  length (ns_assignments solution) = length (projections problem) →
  validate_exact_projection blake3_hex problem values id solution = Ok tt →
  ∃ l, l ≡ₚ ns_assignments solution ∧ Forall2 (assigned problem values) (projections problem) l.
Proof using.
  intros Hty Hv Hlen (s & Hp & H)%result_bind_Ok. apply map_err_Ok in Hp.
  pose proof (project_candidate_outcome blake3_hex problem limits_default values id default_typed Hty Hv) as Ho.
  rewrite Hp in Ho. destruct Ho as (_ & _ & l & -> & HF). cbn [solution_of ns_assignments] in H.
  destruct (existsb _ _) eqn:He; [done|]. apply zip_same in He.
  2:{ rewrite sort_by_key_perm, Hlen. by apply Forall2_length in HF. }
  pose proof (sort_by_key_perm da_id l) as Hperm.
  destruct (Permutation_Forall2 Hperm (proj2 (Forall2_flip _ _ _) He)) as (l' & Hl & HF').
  exists l'. split; [by symmetry|]. eapply same_assigned; [exact HF|]. by apply (Forall2_flip same_assignment).
Qed.
Lemma validate_structure_Ok run problem hash values id solution report :
  typed_projections problem → validate_structure run problem hash values id solution = Ok report →
  structured problem hash values id solution ∧
  NormalizedSolution_canonical_hash blake3_hex json_solution solution = Ok (sr_normalized_solution_hash report).
Proof using.
  intros Hty ([] & Hv%map_err_Ok & H)%result_bind_Ok. apply result_bind_Ok in H as (h & Hh%map_err_Ok%model_hash_Ok & H).
  case_bool_decide as Hhash; cbn [negb] in H; [|done].
  apply result_bind_Ok in H as ([] & Hs%map_err_Ok & H).
  repeat match type of H with (if negb (bool_decide ?P) then _ else _) = _ =>
    destruct (bool_decide_reflect P) as [?|]; cbn [negb] in H; [|done]
  | (if negb (?x =? ?y) then _ else _) = _ => destruct (Z.eqb_spec x y) as [?|]; cbn [negb] in H; [|done] end.
  cbn zeta in H.
  repeat match type of H with
  | (if negb (?x =? ?y) then _ else _) = _ => destruct (Z.eqb_spec x y) as [?|]; cbn [negb] in H; [|done] end.
  apply result_bind_Ok in H as ([] & _ & H). apply result_bind_Ok in H as ([] & Hex & H).
  destruct (_ <? _); [done|]. apply result_bind_Ok in H as (nh & Hn%map_err_Ok & [= <-]). split; [|done].
  apply NormalizedSolution_validate_spec in Hs as Hc.
  split; [done|by rewrite <-Hh|done..|]. eapply exact_projection_Ok; [done..| |done].
  apply strictly_sorted_ids, btree_collect_size in Hs. unfold len in *. lia.
Qed.

(** ** Reports *)
Definition level_verified (objective : ObjectiveLevel) (verified : ScoreLevelValue) : Prop :=
  ol_id objective = sl_level_id verified ∧ ol_direction objective = sl_direction verified ∧
  ol_lower_bound objective ≤ sl_value verified ≤ ol_upper_bound objective ∧
  ∀ category, is_Some (sl_category_breakdown verified !! category) → category ∈ ot_category <$> ol_terms objective.
Lemma level_matches_spec objective verified : level_matches objective verified = true ↔ level_verified objective verified.
Proof using.
  unfold level_matches, level_verified.
  rewrite !andb_true_iff, !bool_decide_eq_true, !Z.leb_le, forallb_forall.
  setoid_rewrite <-list_elem_of_In. setoid_rewrite bool_decide_eq_true.
  assert ((∀ x, x ∈ (btree_iter (sl_category_breakdown verified)).*1 →
            x ∈ (list_to_set (ot_category <$> ol_terms objective) : gset string)) ↔
          ∀ category, is_Some (sl_category_breakdown verified !! category) →
            category ∈ ot_category <$> ol_terms objective) as ->; [|tauto].
  apply forall_proper. intros category. rewrite elem_of_list_to_set.
  assert (category ∈ (btree_iter (sl_category_breakdown verified)).*1 ↔ is_Some (sl_category_breakdown verified !! category))
    as ->; [|done].
  unfold btree_iter. rewrite sort_by_key_perm, list_elem_of_fmap. split.
  - intros ([k v] & -> & H%elem_of_map_to_list). by exists v.
  - intros [v Hv]. exists (category, v). split; [done|]. by apply elem_of_map_to_list.
Qed.
Lemma zip_levels l k :
  length l = length k →
  for_each (λ '(objective, verified), if level_matches objective verified then Ok tt else Err CcScoreIntegrityFailed)
    (zip l k) = Ok tt ↔ Forall2 level_verified l k.
Proof using.
  intros Hlen. rewrite for_each_Ok. revert k Hlen. induction l as [|o l IH]; intros [|v k] Hlen; [|done..|].
  - split; [constructor|by constructor].
  - cbn [zip zip_with]. rewrite Forall_cons, Forall2_cons, IH by (cbn in Hlen; lia).
    rewrite <-level_matches_spec. destruct (level_matches o v); naive_solver.
Qed.
Lemma validate_score_Ok problem score :
  validate_score problem score = Ok tt ↔
  validate_current_shape score = Ok tt ∧ Forall2 level_verified (op_levels (objectives problem)) (levels score).
Proof using.
  unfold validate_score. rewrite result_bind_Ok. unfold alarm_err. split.
  - intros ([] & Hs%map_err_Ok & H). split; [done|].
    destruct (Z.eqb_spec (len (op_levels (objectives problem))) (len (levels score))) as [Hl|]; cbn [negb] in H; [|done].
    apply zip_levels; [unfold len in Hl; lia|done].
  - intros [Hs HF]. exists tt. split; [by apply map_err_Ok|]. apply Forall2_length in HF as Hl.
    unfold len. rewrite Hl, Z.eqb_refl. by apply zip_levels.
Qed.
(** What the backend's objective says next to the verified score. *)
Lemma zip_values l k :
  length l = length k →
  existsb (λ '(backend, verified), negb (backend =? sl_value verified)) (zip l k) = false ↔ l = sl_value <$> k.
Proof using.
  revert k. induction l as [|z l IH]; intros [|v k] Hlen; try done. cbn. rewrite orb_false_iff, negb_false_iff, Z.eqb_eq.
  rewrite IH by (cbn in Hlen; lia). split; [by intros [-> ->]|by intros [= -> ->]].
Qed.
Lemma reconcile_spec score objective :
  match reconcile_backend_objective score objective with
  | Missing => objective = None
  | Matched => ∃ o, objective = Some o ∧ objective_values o = sl_value <$> levels score
  | Mismatch => ∃ o, objective = Some o ∧ objective_values o ≠ sl_value <$> levels score
  end.
Proof using.
  unfold reconcile_backend_objective. destruct objective as [o|]; [|done].
  destruct (Z.eqb_spec (len (objective_values o)) (len (levels score))) as [Hl|Hl]; cbn [negb orb].
  - assert (length (objective_values o) = length (levels score)) as Hl' by (unfold len in Hl; lia).
    destruct (existsb _ _) eqn:He; exists o; (split; [done|]); [|by apply zip_values].
    intros H%zip_values; [|done]. congruence.
  - exists o. split; [done|]. intros Heq. apply Hl. unfold len. by rewrite Heq, length_fmap.
Qed.

Record reported (problem : PlanningProblem) (scope : VerificationScope) (context : VerificationContextV1)
    (report : VerificationReport) (score : ScoreVector) : Prop := {
  rd_score : vr_score report = score;
  rd_scope : VerificationScope_validate blake3_hex json_scope scope = Ok tt;
  rd_report : VerificationReport_validate blake3_hex json_report report = Ok tt;
  rd_bindings : vr_scenario_id report = vc_scenario_id context ∧ vr_evaluated_revision report = vc_evaluated_revision context ∧
    vr_document_hash report = vc_document_hash context ∧ vr_planning_model_hash report = vc_planning_model_hash context ∧
    vr_normalized_solution_hash report = vc_normalized_solution_hash context ∧
    vr_verification_scope_checksum report = vc_verification_scope_checksum context ∧
    vs_scenario_id scope = vc_scenario_id context ∧ vs_scenario_revision scope = vc_evaluated_revision context;
  rd_coverage : re_rule_id <$> vr_required_rule_results report = rb_rule_id <$> vs_required_rules scope;
  rd_satisfied : Forall (λ e, re_satisfied e = true) (vr_required_rule_results report);
  rd_feasible : feasibility score = 0;
  rd_levels : Forall2 level_verified (op_levels (objectives problem)) (levels score)
}.
Lemma unsatisfied_none l :
  existsb (λ e, negb (re_satisfied e)) l = false ↔ Forall (λ e, re_satisfied e = true) l.
Proof using.
  induction l as [|e l IH]; [split; [constructor|done]|]. cbn. rewrite Forall_cons, orb_false_iff, negb_false_iff. by rewrite IH.
Qed.
Lemma validate_report_Ok problem scope context report score objective reconciliation :
  validate_report blake3_hex json_scope json_report problem scope context report score objective = Ok reconciliation →
  reported problem scope context report score ∧
  reconciliation = reconcile_backend_objective score objective.
Proof using.
  intros ([] & Hi & H)%result_bind_Ok. unfold validate_report_integrity in Hi.
  case_bool_decide as Hscore; cbn [negb] in Hi; [|done].
  apply result_bind_Ok in Hi as ([] & Hs%map_err_Ok & Hi). apply result_bind_Ok in Hi as ([] & _ & Hi).
  apply result_bind_Ok in Hi as ([] & Hr%map_err_Ok & Hi).
  destruct (bindings_match scope context report) eqn:Hb; cbn [negb] in Hi; [|done].
  case_bool_decide as Hc; cbn [negb] in Hi; [|done]. clear Hi.
  unfold bindings_match in Hb. rewrite !andb_true_iff, !bool_decide_eq_true, !Z.eqb_eq in Hb.
  destruct (vr_accepted report); cbn [negb orb] in H; [|done].
  destruct (existsb _ _) eqn:He; [done|]. apply unsatisfied_none in He.
  destruct (Z.eqb_spec (feasibility (vr_score report)) 0) as [Hf|]; cbn [negb] in H; [|done].
  apply result_bind_Ok in H as ([] & [_ HF]%validate_score_Ok & [= <-]). rewrite Hscore in *.
  destruct Hb as [[[[[[[[? ?] ?] ?] ?] ?] ?] ?] ?]. split; [|done]. by split.
Qed.

(** ** The stages of a review *)
Lemma projection_stage_spec :
  stage (projection_stage pack clock worlds self candidate solution_id control)
    (λ '(solution, _, _), ∃ n, dp_project pack n (av_problem self) (bc_values candidate) solution_id control = Ok solution).
Proof using.
  unfold projection_stage. do 9 gate_step. destruct a2 as [solution|e]; [|apply stage_resource_or]. by apply stage_ret.
Qed.
Lemma structural_stage_spec solution started timings :
  stage (structural_stage blake3_hex serialize_problem serialize_view json_solution clock worlds runs self candidate
           solution_id control solution started timings)
    (λ '(report, _, _), ∃ run, validate_structure run (av_problem self) (av_planning_model_hash self)
       (bc_values candidate) solution_id solution = Ok report).
Proof using.
  unfold structural_stage. do 6 gate_step. destruct a as [report|e]; [|by apply stage_fail]. apply stage_ret.
  destruct H as [n Hn]. by exists (runs n).
Qed.
Lemma score_stage_spec solution started timings :
  stage (score_stage pack clock worlds self control solution started timings)
    (λ '(score, _, _), ∃ n, dp_score pack n (av_document self) solution (av_objective_context self) control = Ok score).
Proof using.
  unfold score_stage. do 6 gate_step. destruct a as [score|e]; [|apply stage_resource_or]. by apply stage_ret.
Qed.
(** What the verification stage accepts. *)
Record verified (solution : NormalizedSolution) (hash : string) (score : ScoreVector) (result : AcceptedResult)
    (reconciliation : BackendObjectiveReconciliation) : Prop := {
  vd_new : AcceptedResult_new blake3_hex json_solution json_report json_result solution (ac_verification result) = Ok result;
  vd_reported : ∃ n m scope context,
    dp_verification_scope pack n (av_document self) (av_scenario_revision self) control = Ok scope ∧
    VerificationContextV1_new (sdoc_scenario_id (av_document self)) (av_scenario_revision self)
      (av_document_hash self) (av_planning_model_hash self) hash (vs_checksum scope) = Ok context ∧
    dp_verify pack m (av_document self) solution (av_objective_context self) context score control =
      Ok (ac_verification result) ∧
    reported (av_problem self) scope context (ac_verification result) score;
  vd_reconciled : reconciliation = reconcile_backend_objective score (bc_objective candidate)
}.
Lemma verification_stage_spec solution structural score started timings :
  stage (verification_stage blake3_hex json_solution json_scope json_report json_result pack clock worlds self candidate
           control solution structural score started timings)
    (λ d, match d with
          | AdAccepted result reconciliation _ =>
              verified solution (sr_normalized_solution_hash structural) score result reconciliation
          | _ => True
          end).
Proof using.
  unfold verification_stage. gate_step. eapply stage_bind; [apply stage_pack_answer|cbv beta; intros scope ->].
  destruct (VerificationContextV1_new _ _ _ _ _ _) as [context|] eqn:Hc; [|gate_step; by apply stage_fail].
  gate_step. eapply stage_bind; [apply stage_pack_answer|cbv beta; intros report ->].
  do 5 gate_step. destruct (validate_report _ _ _ _ _ _ _ _ _) as [reconciliation|] eqn:Hv; [|by apply stage_fail].
  do 2 gate_step. destruct (AcceptedResult_new _ _ _ _ _ _) as [result|] eqn:Hn; apply stage_ret; [|done].
  apply validate_report_Ok in Hv as [Hr ->].
  assert (ac_verification result = report) as Heq.
  { unfold AcceptedResult_new in Hn. apply result_bind_Ok in Hn as ([] & _ & Hn).
    apply result_bind_Ok in Hn as (c & _ & Hn). by apply result_bind_Ok in Hn as ([] & _ & [= <-]). }
  destruct H as [n Hscope], H0 as [m Hm]. split; rewrite ?Heq; [done| |done]. by exists n, m, scope, context.
Qed.

(** ** What is accepted *)
(** The result belongs to the document, the problem and the candidate; every declared projection has
    exactly one assignment, with the value the candidate denotes; the report is the pack's own, about
    exactly this solution, problem and document; it covers the required rules of the scope, in order,
    and finds each satisfied; its score is the pack's, feasible, and within the declared levels; and
    the reconciliation says whether the backend claimed the same values. *)
Record accepted_properly (document : ScenarioDocument Content) (revision : Z) (problem : PlanningProblem)
    (result : AcceptedResult) (reconciliation : BackendObjectiveReconciliation) : Prop := {
  ap_valid : validate blake3_hex problem limits_default = Ok tt;
  ap_canonical : canonical_solution (ac_solution result);
  ap_identity : ns_pack_id (ac_solution result) = dr_id (sdoc_domain_pack document) ∧
    ns_scenario_id (ac_solution result) = sdoc_scenario_id document ∧
    ns_scenario_revision (ac_solution result) = revision ∧
    ns_projection_version (ac_solution result) = pm_projection_version (metadata problem) ∧
    ns_solution_id (ac_solution result) = solution_id;
  ap_assignments : ∃ l, l ≡ₚ ns_assignments (ac_solution result) ∧
    Forall2 (assigned problem (bc_values candidate)) (projections problem) l;
  ap_bound : vr_scenario_id (ac_verification result) = sdoc_scenario_id document ∧
    vr_evaluated_revision (ac_verification result) = revision ∧
    Some (vr_document_hash (ac_verification result)) = blake3_hex <$> serialize_document document ∧
    vr_planning_model_hash (ac_verification result) = hash_of problem ∧
    NormalizedSolution_canonical_hash blake3_hex json_solution (ac_solution result) =
      Ok (vr_normalized_solution_hash (ac_verification result));
  ap_rules : ∃ n scope, dp_verification_scope pack n document revision control = Ok scope ∧
    VerificationScope_validate blake3_hex json_scope scope = Ok tt ∧
    vr_verification_scope_checksum (ac_verification result) = vs_checksum scope ∧
    re_rule_id <$> vr_required_rule_results (ac_verification result) = rb_rule_id <$> vs_required_rules scope ∧
    Forall (λ e, re_satisfied e = true) (vr_required_rule_results (ac_verification result));
  ap_score : ∃ n, dp_score pack n document (ac_solution result) (av_objective_context self) control =
    Ok (vr_score (ac_verification result));
  ap_feasible : feasibility (vr_score (ac_verification result)) = 0;
  ap_levels : Forall2 level_verified (op_levels (objectives problem)) (levels (vr_score (ac_verification result)));
  ap_reconciled : reconciliation = Matched ↔ ∃ o, bc_objective candidate = Some o ∧
    objective_values o = sl_value <$> levels (vr_score (ac_verification result))
}.
Definition reviewed_as (d : AcceptanceDecision) : Prop :=
  ∃ n, (acceptance_review blake3_hex serialize_problem serialize_view json_solution json_scope json_report json_result
          pack clock worlds runs self candidate solution_id control n).1 = d.
Lemma review_stages_spec :
  stage (review_stages blake3_hex serialize_problem serialize_view json_solution json_scope json_report json_result
           pack clock worlds runs self candidate solution_id control)
    (λ d, match d with
          | AdAccepted result reconciliation _ => ∃ run solution structural score n,
              validate_structure run (av_problem self) (av_planning_model_hash self) (bc_values candidate) solution_id
                solution = Ok structural ∧
              dp_score pack n (av_document self) solution (av_objective_context self) control = Ok score ∧
              verified solution (sr_normalized_solution_hash structural) score result reconciliation
          | _ => True
          end).
Proof using.
  unfold review_stages. eapply stage_bind; [apply projection_stage_spec|intros [[solution f1] t1] _].
  eapply stage_bind; [apply structural_stage_spec|intros [[structural f2] t2] [run Hs]].
  eapply stage_bind; [apply score_stage_spec|intros [[score f3] t3] [n Hn]].
  intros k _. pose proof (verification_stage_spec solution structural score f3 t3 k I) as H.
  destruct (verification_stage _ _ _ _ _ _ _ _ _ _ _ _ _ _ _ _ k) as [[[]|] k']; [done| |done..].
  by exists run, solution, structural, score, n.
Qed.
Lemma reviewer_new_Ok run document revision problem objective_context :
  AcceptanceReviewer_new blake3_hex serialize_problem serialize_view serialize_document run document revision problem
    objective_context = Ok self →
  av_document self = document ∧ av_scenario_revision self = revision ∧ av_problem self = problem ∧
  av_objective_context self = objective_context ∧ Some (av_document_hash self) = blake3_hex <$> serialize_document document ∧
  av_planning_model_hash self = hash_of problem ∧
  pm_pack_id (metadata problem) = dr_id (sdoc_domain_pack document) ∧
  pm_scenario_id (metadata problem) = sdoc_scenario_id document ∧ pm_scenario_revision (metadata problem) = revision.
Proof using.
  intros ([] & _ & H)%result_bind_Ok. destruct (bindings_refused _ _ _ _) eqn:Hb; [done|].
  apply result_bind_Ok in H as (hash & Hh%map_err_Ok%model_hash_Ok & H).
  apply result_bind_Ok in H as (bytes & Hd%ok_or_Ok & [= <-]). cbn. rewrite Hd.
  unfold bindings_refused in Hb. rewrite !orb_false_iff, !negb_false_iff, !bool_decide_eq_true, Z.eqb_eq in Hb.
  by destruct Hb as [[[[_ ?] ?] ?] _].
Qed.
Lemma accepted_result_parts solution report result :
  AcceptedResult_new blake3_hex json_solution json_report json_result solution report = Ok result →
  ac_solution result = solution ∧ ac_verification result = report.
Proof using.
  intros ([] & _ & H)%result_bind_Ok. apply result_bind_Ok in H as (c & _ & H).
  by apply result_bind_Ok in H as ([] & _ & [= <-]).
Qed.
Lemma accepted_is_proper run document revision problem objective_context result reconciliation timings :
  AcceptanceReviewer_new blake3_hex serialize_problem serialize_view serialize_document run document revision problem
    objective_context = Ok self →
  typed_projections problem →
  reviewed_as (AdAccepted result reconciliation timings) →
  accepted_properly document revision problem result reconciliation.
Proof using.
  intros (Hdoc & Hrev & Hprob & Hctx & Hdh & Hmh & Hpk & Hsc & Hr)%reviewer_new_Ok Hty [n Hn].
  unfold acceptance_review in Hn. pose proof (review_stages_spec n I) as H.
  destruct (review_stages _ _ _ _ _ _ _ _ _ _ _ _ _ _ _ n) as [[d|d] n']; cbn in Hn; subst d; [|done].
  destruct H as (run' & solution & structural & score & k & Hst & Hk & [Hnew (k1 & k2 & scope & context & Hs & Hc & _ & Hrep) ->]).
  apply accepted_result_parts in Hnew as [Hsol _]. rewrite <-Hsol in *.
  rewrite ?Hdoc, ?Hrev, ?Hprob in *. apply validate_structure_Ok in Hst as [Hst Hhash]; [|done].
  apply result_bind_Ok in Hc as ([] & _ & [= <-]). destruct Hrep as [Hscore Hscope _ Hb Hcov Hsat Hfeas Hlev].
  cbn in Hb. destruct Hb as (B1 & B2 & B3 & B4 & B5 & B6 & _). destruct Hst as [? ? ? E1 E2 E3 E4 E5 E6].
  subst score. split; try done.
  - by rewrite E1, E2, E3.
  - by rewrite B1, B2, B3, B4, B5.
  - by exists k1, scope.
  - by exists k.
  - pose proof (reconcile_spec (vr_score (ac_verification result)) (bc_objective candidate)) as Hrec.
    destruct (reconcile_backend_objective _ _); (split; [intros Heq|intros (o & Ho & Hv)]); try done.
    + congruence.
    + destruct Hrec as (o' & Ho' & Hne). congruence.
Qed.
End gate.
