(* ===== verification/AcceptanceErrors.v ===== *)
(** * Refusals of the acceptance gate

    Every decision of [crates/eutheto-verify/src/lib.rs] other than an acceptance has a cause, and
    names it: which stage failed, that the operation was stopped, that a finite allowance was spent,
    or that the clock went backwards. *)
From stdpp Require Import base tactics list gmap strings.
From Stdlib Require Import ZArith Lia Ascii.
From S2P Require Import Prelude Ordering Control Budget Ids DomainIr Model Validation Canonical Projection.
From S2P Require Import SolverApi Router VerificationIr ObjectiveContext Scenario Acceptance.
Open Scope string_scope.
Open Scope list_scope.
Open Scope Z_scope.

(** An error a pack reports about its input, rather than about the operation. *)
Definition pack_fault (e : DomainPackError) : Prop :=
  e ≠ PackCancelled ∧ e ≠ PackBudgetExpired ∧ e ≠ PackResourceLimitExceeded.
Lemma pack_failure_Some {T} (r : Result DomainPackError T) c c' :
  pack_failure r c = Some c' → c' = c ∧ ∃ e, r = Err e ∧ pack_fault e.
Proof. destruct r as [|[]]; cbn; try done; intros [= <-]; (split; [done|]); eexists; (split; [done|done]). Qed.
Lemma pack_failure_None {T} (r : Result DomainPackError T) c e :
  pack_failure r c = None → r = Err e → e = PackCancelled ∨ e = PackBudgetExpired ∨ e = PackResourceLimitExceeded.
Proof. intros H ->. destruct e; naive_solver. Qed.

(** The errors a computation can return. *)
Definition fails_in {E A} (P : E → Prop) (r : Result E A) : Prop := match r with Err e => P e | Ok _ => True end.
Lemma fails_bind {E A B} (P : E → Prop) (r : Result E A) (k : A → Result E B) :
  fails_in P r → (∀ a, fails_in P (k a)) → fails_in P (r ≫= k).
Proof. destruct r; cbn; auto. Qed.
Lemma fails_map_err {E F A} (P : F → Prop) (f : E → F) (r : Result E A) : (∀ e, P (f e)) → fails_in P (map_err f r).
Proof. destruct r; cbn; auto. Qed.
Lemma fails_for_each {E A} (P : E → Prop) (f : A → Result E unit) l :
  (∀ a, fails_in P (f a)) → fails_in P (for_each f l).
Proof. intros H. induction l as [|a l IH]; cbn; [done|]. apply fails_bind; auto. Qed.

Section gate.
Context (blake3_hex : list Z → string).
Context (serialize_problem : PlanningProblem → Bytes) (serialize_view : CanonicalHashProblem → Bytes).
Context (json_solution : Json NormalizedSolution) (json_scope : Json VerificationScope).
Context (json_report : Json VerificationReport) (json_result : Json AcceptedResult).
Context {Content : Type}.
Context (pack : DomainPack Content) (clock : nat → Z) (worlds : nat → World) (runs : nat → UncontrolledRun).
Context (self : AcceptanceReviewer (Content := Content)) (candidate : BackendCandidate) (solution_id : string).
Context (control : OperationControl).

(** ** Causes *)
Definition projects_to (r : Result DomainPackError NormalizedSolution) : Prop :=
  ∃ n, dp_project pack n (av_problem self) (bc_values candidate) solution_id control = r.
Definition scores_to (solution : NormalizedSolution) (r : Result DomainPackError ScoreVector) : Prop :=
  ∃ n, dp_score pack n (av_document self) solution (av_objective_context self) control = r.
Definition scoped_to (r : Result DomainPackError VerificationScope) : Prop :=
  ∃ n, dp_verification_scope pack n (av_document self) (av_scenario_revision self) control = r.
Definition context_of (hash : string) (scope : VerificationScope) : DCR VerificationContextV1 :=
  VerificationContextV1_new (sdoc_scenario_id (av_document self)) (av_scenario_revision self)
    (av_document_hash self) (av_planning_model_hash self) hash (vs_checksum scope).
Definition verifies_to (solution : NormalizedSolution) (score : ScoreVector) (hash : string)
    (scope : VerificationScope) (context : VerificationContextV1) (r : Result DomainPackError VerificationReport) : Prop :=
  scoped_to (Ok scope) ∧ context_of hash scope = Ok context ∧
  ∃ n, dp_verify pack n (av_document self) solution (av_objective_context self) context score control = r.
Definition structured_to (solution : NormalizedSolution)
    (r : Result StructuralValidationFailure StructuralValidationReport) : Prop :=
  ∃ run, validate_structure blake3_hex serialize_problem serialize_view json_solution run (av_problem self)
           (av_planning_model_hash self) (bc_values candidate) solution_id solution = r.
(** Some pack operation answered with this error. *)
Definition pack_answers (e : DomainPackError) : Prop :=
  projects_to (Err e) ∨ (∃ solution, scores_to solution (Err e)) ∨ scoped_to (Err e) ∨
  ∃ solution score hash scope context, verifies_to solution score hash scope context (Err e).
(** A report the gate refused with this category, or its accepted result that could not be built. *)
Definition report_refused (category : CorrectnessAlarmCategory) : Prop :=
  ∃ solution structural score scope context report,
    structured_to solution (Ok structural) ∧ scores_to solution (Ok score) ∧
    verifies_to solution score (sr_normalized_solution_hash structural) scope context (Ok report) ∧
    validate_report blake3_hex json_scope json_report (av_problem self) scope context report score
      (bc_objective candidate) = Err category.
Definition clock_went_back : Prop := ∃ i j, (i < j)%nat ∧ clock j < clock i.
Definition interruption_cause (reason : OperationInterruption) : Prop :=
  (∃ n, control_check (worlds n) control = Err reason) ∨
  pack_answers (match reason with Cancelled => PackCancelled | DeadlineExceeded => PackBudgetExpired end).
Definition alarm_cause (category : CorrectnessAlarmCategory) : Prop :=
  match category with
  | CcProjectionFailed => ∃ e, projects_to (Err e) ∧ pack_fault e
  | CcStructuralValidationFailed => ∃ solution f, projects_to (Ok solution) ∧ structured_to solution (Err f)
  | CcScoreRecomputationFailed => ∃ solution e, scores_to solution (Err e) ∧ pack_fault e
  | CcVerificationScopeFailed => (∃ e, scoped_to (Err e) ∧ pack_fault e) ∨ report_refused category
  | CcRequiredRuleVerificationFailed => ∃ solution score hash scope context e,
      verifies_to solution score hash scope context (Err e) ∧ pack_fault e
  | CcReportBindingFailed => (∃ hash scope e, scoped_to (Ok scope) ∧ context_of hash scope = Err e) ∨
      report_refused category ∨
      ∃ solution score hash scope context report e, verifies_to solution score hash scope context (Ok report) ∧
        AcceptedResult_new blake3_hex json_solution json_report json_result solution report = Err e
  | CcRequiredRuleCoverageFailed | CcRequiredRuleRejected | CcScoreIntegrityFailed => report_refused category
  | CcClockFailed => clock_went_back
  | CcInvalidPlanningProblem | CcInfeasibilityContradicted => False
  end.
Definition caused (d : AcceptanceDecision) : Prop :=
  match d with
  | AdAwaiting => False
  | AdAccepted _ _ _ => True
  | AdQuarantined alarm _ => alarm = CorrectnessAlarm_new (al_category alarm) ∧ alarm_cause (al_category alarm)
  | AdInterrupted reason _ => interruption_cause reason
  | AdResourceLimitExceeded _ => pack_answers PackResourceLimitExceeded
  end.

(** ** Readings and answers *)
Context (Hclock : ∀ n, 0 ≤ clock n ≤ DURATION_MILLIS_MAX_V1).
Lemma elapsed_None i j : (i < j)%nat → elapsed (clock i) (clock j) = None → clock_went_back.
Proof using Hclock.
  intros Hij H. exists i, j. split; [done|]. pose proof (Hclock i). pose proof (Hclock j).
  unfold elapsed, u64_checked_sub, DurationMillis_new in H.
  destruct (checked_u64 (clock j - clock i)) as [v|] eqn:Hv; cbn in H.
  - apply checked_u64_Some in Hv as [-> _]. destruct (Z.ltb_spec DURATION_MILLIS_MAX_V1 (clock j - clock i)); [lia|done].
  - apply checked_u64_None in Hv. unfold is_u64, u64_max, DURATION_MILLIS_MAX_V1 in *. lia.
Qed.
(** The categories a report is refused with. *)
Definition report_category (c : CorrectnessAlarmCategory) : Prop :=
  match c with
  | CcScoreIntegrityFailed | CcVerificationScopeFailed | CcReportBindingFailed | CcRequiredRuleCoverageFailed
  | CcRequiredRuleRejected => True
  | _ => False
  end.
Lemma report_categories scope context report score objective c :
  validate_report blake3_hex json_scope json_report (av_problem self) scope context report score objective = Err c →
  report_category c.
Proof using.
  intros H. enough (fails_in report_category
    (validate_report blake3_hex json_scope json_report (av_problem self) scope context report score objective)) as Hf
    by (by rewrite H in Hf).
  clear H. unfold validate_report, validate_report_integrity, validate_score, alarm_err.
  repeat first [done|apply fails_bind|apply fails_map_err|apply fails_for_each; intros [? ?]|intros _|case_match].
Qed.
(** ** Stages *)
(** The stages started after every earlier reading [clock i] of theirs. *)
Definition outcome {A} (Q : A → nat → Prop) (r : Result AcceptanceDecision A * nat) : Prop :=
  match r with (Ok a, n) => Q a n | (Err d, _) => caused d end.
Lemma gate_outcome_bind {A B} (m : SE nat AcceptanceDecision A) (k : A → SE nat AcceptanceDecision B) n M Q :
  outcome M (m n) → (∀ a n', M a n' → outcome Q (k a n')) → outcome Q ((m ≫= k) n).
Proof using. unfold mbind, SE_bind. destruct (m n) as [[a|d] n']; cbn; eauto. Qed.
Lemma outcome_interact {A} (f : nat → A) n : outcome (λ a n', a = f n ∧ n' = S n) (interact f n).
Proof using. done. Qed.
Lemma outcome_quarantine {A} category timings n (Q : A → nat → Prop) :
  alarm_cause category → outcome Q (se_fail (quarantine category timings) n).
Proof using. intros H. by split. Qed.
Lemma outcome_quarantine_if category timings n :
  (∀ c, category = Some c → alarm_cause c) →
  outcome (λ _ n', category = None ∧ n' = n) (quarantine_if category timings n).
Proof using. intros H. destruct category as [c|]; [|done]. split; [done|]. by apply H. Qed.
Lemma outcome_interrupted error n :
  (∀ e, error = Some e → pack_answers e) →
  outcome (λ reason n', n' = S n ∧ (∀ r, reason = Some r → interruption_cause r) ∧
      (reason = None → error ≠ Some PackCancelled ∧ error ≠ Some PackBudgetExpired))
    (interrupted worlds control error n).
Proof using.
  intros H. unfold interrupted, mbind, SE_bind, interact, mret, SE_ret. cbn.
  destruct (control_check (worlds n) control) as [|reason] eqn:Hc.
  - split; [done|]. destruct error as [e|]; [|done]. specialize (H e eq_refl).
    destruct e; (split; [intros r Hr|intros Hr]); simplify_eq/=; try done; by right.
  - split_and!; [done| |done]. intros r [= <-]. left. by exists n.
Qed.
Lemma outcome_stop_if reason timings n :
  (∀ r, reason = Some r → interruption_cause r) → outcome (λ _ n', reason = None ∧ n' = n) (stop_if reason timings n).
Proof using. intros H. destruct reason as [r|]; [|done]. by apply H. Qed.
(** The answer of a pack that neither failed nor interrupted. *)
Lemma answer_cases {T} (r : Result DomainPackError T) category :
  pack_failure r category = None → result_err r ≠ Some PackCancelled → result_err r ≠ Some PackBudgetExpired →
  (∃ a, r = Ok a) ∨ r = Err PackResourceLimitExceeded.
Proof using.
  destruct r as [a|e]; [by left; exists a|]. intros H H1 H2. right. destruct e; cbn in *; congruence.
Qed.
Lemma outcome_resource {T A} (r : Result DomainPackError T) category timings n (Q : A → nat → Prop) :
  r = Err PackResourceLimitExceeded → pack_answers PackResourceLimitExceeded →
  outcome Q (resource_or r category timings n).
Proof using. by intros -> H. Qed.
Lemma clock_cause i j c :
  (i < j)%nat → clock_failure (elapsed (clock i) (clock j)) = Some c → alarm_cause c.
Proof using Hclock.
  intros Hij. unfold clock_failure. destruct (elapsed _ _) eqn:He; [done|]. intros [= <-]. by eapply elapsed_None.
Qed.
Tactic Notation "bind" uconstr(L) := eapply gate_outcome_bind; [eapply L|cbv beta].

Lemma projection_outcome n :
  outcome (λ '(solution, finished, _) n', projects_to (Ok solution) ∧ ∃ i, (i < n')%nat ∧ finished = clock i)
    (projection_stage pack clock worlds self candidate solution_id control n).
Proof using Hclock.
  unfold projection_stage. bind outcome_interrupted; [done|]. intros reason ? (-> & Hr & _).
  bind outcome_stop_if; [done|]. intros _ ? [_ ->].
  bind outcome_interact. intros started ? [-> ->]. bind outcome_interact. intros projection ? [Hp ->].
  assert (projects_to projection) as Hto by (by eexists).
  bind outcome_interact. intros finished ? [-> ->].
  bind outcome_quarantine_if. { intros c (-> & e & -> & He)%pack_failure_Some. by exists e. }
  intros _ ? [Hnone ->]. bind outcome_interrupted. { intros e He. left. by destruct projection; simplify_eq/=. }
  intros reason' ? (-> & Hr' & Hi). bind outcome_stop_if; [done|]. intros _ ? [-> ->].
  bind outcome_quarantine_if. { intros c. apply clock_cause. lia. }
  intros _ ? [_ ->]. destruct Hi as [Hi1 Hi2]; [done|]. destruct (answer_cases _ _ Hnone Hi1 Hi2) as [[a ->]| ->].
  - split; [done|]. eexists. split; [|done]. lia.
  - apply outcome_resource; [done|by left].
Qed.
Lemma structural_outcome solution i timings n :
  (i < n)%nat → projects_to (Ok solution) →
  outcome (λ '(report, finished, _) n', structured_to solution (Ok report) ∧ ∃ j, (j < n')%nat ∧ finished = clock j)
    (structural_stage blake3_hex serialize_problem serialize_view json_solution clock worlds runs self candidate
       solution_id control solution (clock i) timings n).
Proof using Hclock.
  intros Hin Hp. unfold structural_stage. bind outcome_interact. intros report ? [Hs ->].
  assert (structured_to solution report) as Hto by (by eexists).
  bind outcome_interact. intros finished ? [-> ->].
  bind outcome_quarantine_if. { intros c Hc. destruct report; [done|]. injection Hc as <-. by exists solution, e. }
  intros _ ? [Hnone ->]. bind outcome_interrupted; [done|]. intros reason ? (-> & Hr & _).
  bind outcome_stop_if; [done|]. intros _ ? [_ ->]. bind outcome_quarantine_if. { intros c. apply clock_cause. lia. }
  intros _ ? [_ ->]. destruct report as [report|]; [|done]. split; [done|]. eexists. split; [|done]. lia.
Qed.
Lemma score_outcome solution i timings n :
  (i < n)%nat →
  outcome (λ '(score, finished, _) n', scores_to solution (Ok score) ∧ ∃ j, (j < n')%nat ∧ finished = clock j)
    (score_stage pack clock worlds self control solution (clock i) timings n).
Proof using Hclock.
  intros Hin. unfold score_stage. bind outcome_interact. intros score ? [Hs ->].
  assert (scores_to solution score) as Hto by (by eexists).
  bind outcome_interact. intros finished ? [-> ->].
  bind outcome_quarantine_if. { intros c (-> & e & -> & He)%pack_failure_Some. by exists solution, e. }
  intros _ ? [Hnone ->].
  bind outcome_interrupted. { intros e He. right; left. exists solution. by destruct score; simplify_eq/=. }
  intros reason ? (-> & Hr & Hi). bind outcome_stop_if; [done|]. intros _ ? [-> ->].
  bind outcome_quarantine_if. { intros c. apply clock_cause. lia. }
  intros _ ? [_ ->]. destruct Hi as [Hi1 Hi2]; [done|]. destruct (answer_cases _ _ Hnone Hi1 Hi2) as [[a ->]| ->].
  - split; [done|]. eexists. split; [|done]. lia.
  - apply outcome_resource; [done|]. right; left. by exists solution.
Qed.
Lemma pack_answer_outcome {T} i timings category (r : Result DomainPackError T) n :
  (i < n)%nat → (∀ e, r = Err e → pack_answers e) → (∀ e, r = Err e → pack_fault e → alarm_cause category) →
  outcome (λ a n', r = Ok a ∧ (n < n')%nat) (pack_answer clock worlds control (clock i) timings category r n).
Proof using Hclock.
  intros Hin Ha Hf. unfold pack_answer.
  eapply (gate_outcome_bind _ _ _ (λ _ n', pack_failure r category = None ∧ n' = n)).
  { destruct (pack_failure r category) as [c|] eqn:Hc; [|done]. apply pack_failure_Some in Hc as (-> & e & -> & He).
    bind outcome_interact. intros failed ? _. apply outcome_quarantine. by eapply Hf. }
  intros _ ? [Hnone ->]. bind outcome_interrupted. { intros e He. apply Ha. by destruct r; simplify_eq/=. }
  intros reason ? (-> & Hr & Hi). eapply (gate_outcome_bind _ _ _ (λ _ n', reason = None ∧ n' = S n)).
  { destruct reason as [reason|]; [|done]. bind outcome_interact. intros stopped ? _. by apply Hr. }
  intros _ ? [-> ->]. destruct Hi as [Hi1 Hi2]; [done|]. destruct (answer_cases _ _ Hnone Hi1 Hi2) as [[a ->]| ->].
  - split; [done|lia].
  - bind outcome_interact. intros failed ? [-> ->]. destruct (elapsed _ _) eqn:He.
    + apply outcome_resource; [done|by apply Ha].
    + apply outcome_quarantine. eapply elapsed_None; [|done]. lia.
Qed.
Lemma verification_outcome solution structural score i timings n :
  (i < n)%nat → structured_to solution (Ok structural) → scores_to solution (Ok score) →
  outcome (λ d _, caused d)
    (verification_stage blake3_hex json_solution json_scope json_report json_result pack clock worlds self candidate
       control solution structural score (clock i) timings n).
Proof using Hclock.
  intros Hin Hst Hsc. unfold verification_stage. bind outcome_interact. intros answer ? [Hs ->].
  assert (scoped_to answer) as Hto by (by eexists).
  bind pack_answer_outcome; [lia|by intros e ->; right; right; left|intros e -> He; left; by exists e|].
  intros scope n1 [-> Hn1].
  destruct (VerificationContextV1_new _ _ _ _ _ _) as [context|e] eqn:Hc.
  2:{ bind outcome_interact. intros failed ? _. apply outcome_quarantine. left. by exists (sr_normalized_solution_hash structural), scope, e. }
  bind outcome_interact. intros answer ? [Hv ->].
  assert (verifies_to solution score (sr_normalized_solution_hash structural) scope context answer) as Hver
    by (split_and!; [done|done|by eexists]).
  bind pack_answer_outcome; [lia|intros e ->; right; right; right; by eexists _, _, _, _, _|
    intros e -> He; by exists solution, score, (sr_normalized_solution_hash structural), scope, context, e|].
  intros report n2 [-> Hn2]. bind outcome_interact. intros finished ? [-> ->].
  bind outcome_quarantine_if.
  { intros c Hcat. destruct (validate_report _ _ _ _ _ _ _ _ _) as [|c'] eqn:Hval; [done|]. injection Hcat as <-.
    assert (report_refused c') as Href by (by exists solution, structural, score, scope, context, report).
    destruct c'; try exact Href; try (by apply report_categories in Hval); [by right|by right; left]. }
  intros _ ? [Hnone ->]. bind outcome_interrupted; [done|]. intros reason ? (-> & Hr & _).
  bind outcome_stop_if; [done|]. intros _ ? [_ ->]. bind outcome_quarantine_if. { intros c. apply clock_cause. lia. }
  intros _ ? [_ ->]. destruct (validate_report _ _ _ _ _ _ _ _ _) as [reconciliation|]; [|done].
  bind outcome_interrupted; [done|]. intros reason' ? (-> & Hr' & _). bind outcome_stop_if; [done|]. intros _ ? [_ ->].
  destruct (AcceptedResult_new _ _ _ _ _ _) as [result|e] eqn:Hn; [done|]. split; [done|].
  right; right. by exists solution, score, (sr_normalized_solution_hash structural), scope, context, report, e.
Qed.

(** C24. Whatever a review decides has its cause: an alarm names the stage that failed and carries
    that category's code, an interruption is one of the operation or of the pack, an exhausted
    allowance is one the pack reported, a clock alarm comes from a clock that went backwards, and a
    review never leaves a candidate awaiting. *)
Theorem refusals_have_causes n :
  caused (acceptance_review blake3_hex serialize_problem serialize_view json_solution json_scope json_report json_result
            pack clock worlds runs self candidate solution_id control n).1.
Proof using Hclock.
  assert (outcome (λ d _, caused d) (review_stages blake3_hex serialize_problem serialize_view json_solution json_scope
    json_report json_result pack clock worlds runs self candidate solution_id control n)) as H.
  { unfold review_stages. eapply gate_outcome_bind; [apply projection_outcome|]. intros [[solution f1] t1] n1 [Hp (i1 & Hi1 & ->)].
    eapply gate_outcome_bind; [by apply structural_outcome|]. intros [[structural f2] t2] n2 [Hs (i2 & Hi2 & ->)].
    eapply gate_outcome_bind; [by apply score_outcome|]. intros [[score f3] t3] n3 [Hsc (i3 & Hi3 & ->)].
    by apply verification_outcome. }
  unfold acceptance_review. by destruct (review_stages _ _ _ _ _ _ _ _ _ _ _ _ _ _ _ n) as [[d|d] n'].
Qed.
End gate.
