(* ===== verification/AcceptanceComplete.v ===== *)
(** * Honest packs are accepted

    The gate of [crates/eutheto-verify/src/lib.rs] asks for nothing an honest pack cannot give: a pack
    that projects as the planning IR does, and builds its scope and its report with the constructors of
    the contracts, has every candidate accepted whose rules are satisfied. *)
From stdpp Require Import base tactics list gmap strings.
From Stdlib Require Import ZArith Lia Ascii.
From S2P Require Import Prelude Ordering Control Budget Ids DomainIr Model Scoping Validation Admission Canonical CanonicalFacts.
From S2P Require Import Projection ProjectionFacts EvaluatorFacts SolverApi Router VerificationIr.
From S2P Require Import ObjectiveContext Scenario Acceptance AcceptanceFacts.
Open Scope string_scope.
Open Scope list_scope.
Open Scope Z_scope.

(** ** Structure of an exact projection *)
Lemma btree_collect_lookup {A} (key : A → string) l a :
  NoDup (key <$> l) → a ∈ l → btree_collect key l !! key a = Some a.
Proof.
  induction l as [|b l IH] using rev_ind; [by rewrite elem_of_nil|]. rewrite fmap_app, NoDup_app, btree_collect_app. cbn.
  intros (Hl & Hb & _) [Ha | ->%list_elem_of_singleton]%elem_of_app; [|by rewrite lookup_insert_eq].
  rewrite lookup_insert_ne; [by apply IH|]. intros Heq. apply (Hb (key a)); [by apply list_elem_of_fmap_2|].
  rewrite Heq. by apply list_elem_of_singleton.
Qed.
Lemma btree_collect_elem {A} (key : A → string) l k a : btree_collect key l !! k = Some a → a ∈ l ∧ key a = k.
Proof.
  induction l as [|b l IH] using rev_ind; [done|]. rewrite btree_collect_app.
  intros [[<- <-]|[_ H]]%lookup_insert_Some; [|apply IH in H as [? ?]]; (split; [|done]); apply elem_of_app;
    [right; by apply list_elem_of_singleton|by left].
Qed.
Lemma matches_projected problem values p v :
  projects problem values p v → projected_value_matches problem p v = true.
Proof.
  unfold projected_value_matches. intros [H|(Hreq & -> & _)]; [|by rewrite Hreq].
  destruct (sp_expression p) as [id|id|e|id|c] eqn:He; cbn in H.
  - by destruct H as (b & _ & ->).
  - by destruct H as (z & _ & ->).
  - destruct H as [_ H]. rewrite (H (λ id, default 0 (integers values !! id))); [done|]. intros id z Hz. by rewrite Hz.
  - destruct H as (i & Hi & [(l & b & Hl & _ & _ & ->)|(s & d & e & _ & _ & _ & ->)]); [|done].
    destruct (sp_required p); [|done]. cbn. unfold interval_values in Hi.
    apply intervals_declared in Hi as [[Hin Hid]|Hi]; [|done]. unfold optional_interval.
    apply existsb_exists. exists (VInterval i). split; [by apply list_elem_of_In|].
    by rewrite bool_decide_true, Hl.
  - subst v. destruct c; try (by rewrite bool_decide_true). by destruct (sp_required p).
Qed.

Section gate.
Context (blake3_hex : list Z → string).
Context (serialize_problem : PlanningProblem → Bytes) (serialize_view : CanonicalHashProblem → Bytes).
Context (json_solution : Json NormalizedSolution) (json_scope : Json VerificationScope).
Context (json_report : Json VerificationReport) (json_result : Json AcceptedResult).
Context {Content : Type} (serialize_document : ScenarioDocument Content → option (list Z)).
Context (pack : DomainPack Content) (clock : nat → Z) (worlds : nat → World) (runs : nat → UncontrolledRun).
Context (self : AcceptanceReviewer (Content := Content)) (candidate : BackendCandidate) (solution_id : string).
Context (control : OperationControl).

Lemma differs_self l : existsb (λ '(o, e), differs o e) (zip l l) = false.
Proof using.
  induction l as [|a l IH]; [done|]. cbn. rewrite IH, orb_false_r. by apply differs_false.
Qed.
Lemma exact_projection_structured run problem hash values solution h :
  typed_projections problem → validate blake3_hex problem limits_default = Ok tt →
  model_hash blake3_hex serialize_problem serialize_view run problem = Ok hash →
  project_candidate blake3_hex problem values solution_id limits_default = Ok solution →
  len (projections problem) ≤ u32_max →
  NormalizedSolution_canonical_hash blake3_hex json_solution solution = Ok h →
  validate_structure blake3_hex serialize_problem serialize_view json_solution run problem hash values solution_id
    solution = Ok {| sr_assignment_count := len (projections problem); sr_normalized_solution_hash := h |}.
Proof using.
  intros Hty Hv Hh Hp Hlen Hhash.
  pose proof (project_candidate_outcome blake3_hex problem limits_default values solution_id
    (default_typed) Hty Hv) as Ho. rewrite Hp in Ho. destruct Ho as (_ & Hcan & l & Hsol & HF).
  pose proof (validate_admits _ _ _ default_typed Hv) as Hadm.
  pose proof (adm_assignments (problem := problem) (limits := limits_default)) as Hnd.
  apply NormalizedSolution_validate_spec in Hcan as Hval. apply strictly_sorted_ids in Hval as Hids.
  assert (length (ns_assignments solution) = length (projections problem)) as Hl.
  { subst solution. cbn. rewrite sort_by_key_perm. by rewrite (Forall2_length _ _ _ HF). }
  assert (ns_pack_id solution = pm_pack_id (metadata problem) ∧ ns_scenario_id solution = pm_scenario_id (metadata problem) ∧
    ns_scenario_revision solution = pm_scenario_revision (metadata problem) ∧
    ns_projection_version solution = pm_projection_version (metadata problem) ∧ ns_solution_id solution = solution_id)
    as (E1 & E2 & E3 & E4 & E5) by by subst solution.
  pose proof (proj2 (btree_collect_size sp_assignment_id (projections problem)) Hnd) as Hs1.
  pose proof (proj2 (btree_collect_size da_id (ns_assignments solution)) Hids) as Hs2.
  unfold validate_structure, structural_err. rewrite Hv. cbn. rewrite Hh. cbn. rewrite bool_decide_true by done. cbn.
  rewrite Hval. cbn. rewrite E1, E2, E3, E4, E5, !bool_decide_true, !Z.eqb_refl by done. cbn.
  unfold len in *. rewrite Hs1, Z.eqb_refl. cbn. rewrite Hs2, Hl, Z.eqb_refl. cbn.
  assert (for_each (check_projected problem (btree_collect da_id (ns_assignments solution)))
            (btree_iter (btree_collect sp_assignment_id (projections problem))) = Ok tt) as ->.
  { apply for_each_Ok, Forall_forall. intros [id p] Hin. unfold btree_iter in Hin.
    rewrite sort_by_key_perm, elem_of_map_to_list in Hin. apply btree_collect_elem in Hin as [Hin <-].
    apply list_elem_of_lookup in Hin as [k Hk]. destruct (Forall2_lookup_l _ _ _ _ _ HF Hk) as (a & Ha & (Hi & He & _ & Hpr)).
    cbn. rewrite <-Hi, btree_collect_lookup; [|done|].
    2:{ subst solution. cbn. rewrite sort_by_key_perm. by eapply list_elem_of_lookup_2. }
    rewrite bool_decide_true by done. by rewrite (matches_projected _ _ _ _ Hpr). }
  cbn. unfold validate_exact_projection, structural_err. rewrite Hp. cbn. rewrite differs_self. cbn.
  unfold u32_max, len in *. destruct (Z.ltb_spec (2 ^ 32 - 1) (Z.of_nat (length (projections problem)))); [lia|].
  by rewrite Hhash.
Qed.

(** ** Reports built by the constructors *)
Lemma strictly_sorted_by_fmap {A} (f : A → string) l :
  strictly_sorted_by (λ x : string, x) (f <$> l) = strictly_sorted_by f l.
Proof using.
  induction l as [|x l IH]; [done|]. destruct l as [|y l]; [done|]. cbn in *. by rewrite IH.
Qed.
Lemma same_sorted_keys {A B} (f : A → string) (g : B → string) l k :
  strictly_sorted_by f (sort_by_key f l) = true → strictly_sorted_by g (sort_by_key g k) = true →
  (f <$> l) ≡ₚ (g <$> k) → f <$> sort_by_key f l = g <$> sort_by_key g k.
Proof using.
  intros Hl Hk Hp. apply (strictly_sorted_by_ext (λ x : string, x)).
  - by rewrite strictly_sorted_by_fmap.
  - by rewrite strictly_sorted_by_fmap.
  - intros x. by rewrite !sort_by_key_perm, Hp.
Qed.
Lemma scope_new_parts scenario_id revision rules scope :
  VerificationScope_new blake3_hex json_scope scenario_id revision rules = Ok scope →
  vs_scenario_id scope = scenario_id ∧ vs_scenario_revision scope = revision ∧
  vs_required_rules scope = sort_by_key rb_rule_id rules ∧
  strictly_sorted_by rb_rule_id (sort_by_key rb_rule_id rules) = true.
Proof using.
  intros ([] & _ & H)%result_bind_Ok. destruct (_ <? _); [done|]. apply result_bind_Ok in H as ([] & Hw%windows_strict & H).
  apply result_bind_Ok in H as ([] & _ & H). apply result_bind_Ok in H as (c & _ & H).
  by apply result_bind_Ok in H as ([] & Hs & [= <-]).
Qed.
Lemma canonical_results results results' :
  Forall2 (λ e e', RuleEvaluation_canonicalize e = Ok e') results results' →
  re_rule_id <$> results' = re_rule_id <$> results ∧
  (Forall (λ e, re_satisfied e = true) results → Forall (λ e, re_satisfied e = true) results').
Proof using.
  induction 1 as [|e e' l l' (Hid & Hs & _)%evaluation_canonical _ [IH1 IH2]]; [done|]. cbn. rewrite Hid, IH1.
  split; [done|]. intros [He Hl]%Forall_cons. constructor; [by rewrite Hs|by apply IH2].
Qed.
Lemma report_new_parts context results score warnings metrics report :
  VerificationReport_new blake3_hex json_report context results score warnings metrics = Ok report →
  VerificationContextV1_validate context = Ok tt ∧ validate_current_shape score = Ok tt ∧
  vr_score report = score ∧
  vr_scenario_id report = vc_scenario_id context ∧ vr_evaluated_revision report = vc_evaluated_revision context ∧
  vr_document_hash report = vc_document_hash context ∧ vr_planning_model_hash report = vc_planning_model_hash context ∧
  vr_normalized_solution_hash report = vc_normalized_solution_hash context ∧
  vr_verification_scope_checksum report = vc_verification_scope_checksum context ∧
  ∃ results', vr_required_rule_results report = sort_by_key re_rule_id results' ∧
    strictly_sorted_by re_rule_id (sort_by_key re_rule_id results') = true ∧
    vr_accepted report = forallb re_satisfied (sort_by_key re_rule_id results') ∧
    Forall2 (λ e e', RuleEvaluation_canonicalize e = Ok e') results results'.
Proof using.
  intros ([] & Hc & H)%result_bind_Ok. destruct (_ <? len results); [done|].
  apply result_bind_Ok in H as (results' & Hres%mapM_Ok & H). apply result_bind_Ok in H as ([] & Hw%windows_strict & H).
  destruct (_ <? len warnings); [done|]. apply result_bind_Ok in H as (warnings' & _ & H).
  apply result_bind_Ok in H as ([] & _ & H). apply result_bind_Ok in H as ([] & Hscore & H).
  apply result_bind_Ok in H as ([] & _ & H). apply result_bind_Ok in H as (c & _ & H).
  apply result_bind_Ok in H as ([] & _ & [= <-]). cbn. split_and!; try done. by exists results'.
Qed.
Lemma honest_report problem scope context report rules results score warnings metrics objective :
  hex_digest blake3_hex → ChecksumJson json_scope set_scope_checksum → ChecksumJson json_report set_report_checksum →
  VerificationScope_new blake3_hex json_scope (vc_scenario_id context) (vc_evaluated_revision context) rules = Ok scope →
  vc_verification_scope_checksum context = vs_checksum scope →
  VerificationReport_new blake3_hex json_report context results score warnings metrics = Ok report →
  (re_rule_id <$> results) ≡ₚ (rb_rule_id <$> rules) → Forall (λ e, re_satisfied e = true) results →
  feasibility score = 0 → Forall2 level_verified (op_levels (objectives problem)) (levels score) →
  validate_report blake3_hex json_scope json_report problem scope context report score objective =
    Ok (reconcile_backend_objective score objective) ∧ vr_accepted report = true ∧ vr_score report = score.
Proof using.
  intros Hhex Js Jr Hs Hck Hr Hp Hsat Hf Hlev.
  pose proof (scope_new_valid blake3_hex Hhex json_scope _ _ _ _ Hs) as Hsv.
  pose proof (report_new_valid blake3_hex Hhex json_report _ _ _ _ _ _ Hr) as Hrv.
  apply scope_new_parts in Hs as (S1 & S2 & S3 & S4).
  apply report_new_parts in Hr as (Hc & Hshape & R1 & R2 & R3 & R4 & R5 & R6 & R7 & results' & R8 & R9 & R10 & Hcan).
  apply canonical_results in Hcan as [Hids Hsat']. specialize (Hsat' Hsat).
  apply (sort_by_key_Forall re_rule_id) in Hsat'.
  assert (vr_accepted report = true) as Hacc.
  { rewrite R10. apply forallb_forall. rewrite Forall_forall in Hsat'. intros e He%list_elem_of_In. by apply Hsat'. }
  split_and!; [|done|done]. unfold validate_report, validate_report_integrity. rewrite bool_decide_true by done. cbn.
  rewrite Hsv. cbn. rewrite Hc. cbn. rewrite Hrv. cbn.
  assert (bindings_match scope context report = true) as ->.
  { unfold bindings_match. by rewrite S1, S2, R2, R3, R4, R5, R6, R7, Hck, !bool_decide_true, !Z.eqb_refl. }
  cbn. rewrite bool_decide_true.
  2:{ rewrite S3, R8. symmetry. apply same_sorted_keys; [done..|]. by rewrite Hids. }
  cbn. rewrite Hacc, R8. cbn. rewrite (proj2 (unsatisfied_none _) Hsat'), R1, Hf. cbn.
  by rewrite (proj2 (validate_score_Ok problem score) (conj Hshape Hlev)).
Qed.
(** A record that serializes within the bound, whatever its checksum. *)
Definition fits_json {A} (json : Json A) (v : A) : Prop :=
  ∃ b b' b'', js_bytes json v = Some b ∧ js_value json v = Some b' ∧ js_without json "checksum" v = Some b'' ∧
    len b ≤ MAX_DOMAIN_CONTRACT_JSON_BYTES ∧ len b' ≤ MAX_DOMAIN_CONTRACT_JSON_BYTES ∧
    len b'' ≤ MAX_DOMAIN_CONTRACT_JSON_BYTES.
Lemma fits_checksum {A} (json : Json A) v : fits_json json v → ∃ c, checksum_without_field blake3_hex json v "checksum" = Ok c.
Proof using.
  intros (b & b' & b'' & _ & Hb' & Hb'' & _ & Hl' & Hl''). unfold checksum_without_field, digest_bounded.
  rewrite Hb'. cbn. rewrite (proj2 (Z.ltb_ge _ _) Hl'), Hb''. cbn. rewrite (proj2 (Z.ltb_ge _ _) Hl''). by eexists.
Qed.
Lemma fits_size {A} (json : Json A) v : fits_json json v → ensure_domain_contract_size json v = Ok tt.
Proof using.
  intros (b & b' & b'' & Hb & _ & _ & Hl & _ & _). unfold ensure_domain_contract_size. rewrite Hb. cbn.
  by rewrite (proj2 (Z.ltb_ge _ _) Hl).
Qed.
Definition result_with (solution : NormalizedSolution) (report : VerificationReport) (c : string) : AcceptedResult :=
  {| ac_schema_version := ACCEPTED_RESULT_SCHEMA_VERSION; ac_solution := solution; ac_verification := report;
     ac_checksum := c |}.
Lemma accepted_new_Ok solution report :
  NormalizedSolution_validate solution = Ok tt → VerificationReport_validate blake3_hex json_report report = Ok tt →
  ns_scenario_id solution = vr_scenario_id report → ns_scenario_revision solution = vr_evaluated_revision report →
  NormalizedSolution_canonical_hash blake3_hex json_solution solution = Ok (vr_normalized_solution_hash report) →
  vr_accepted report = true → feasibility (vr_score report) = 0 →
  (∀ c, fits_json json_result (result_with solution report c)) →
  ∃ c, AcceptedResult_new blake3_hex json_solution json_report json_result solution report = Ok (result_with solution report c).
Proof using.
  intros Hs Hr Hid Hrev Hh Ha Hf Hfit. destruct (fits_checksum _ _ (Hfit "")) as [c Hc].
  pose proof (fits_size _ _ (Hfit c)) as Hsz. unfold result_with in *.
  exists c. unfold AcceptedResult_new, validate_result_binding. rewrite Hs. cbn. rewrite Hr. cbn.
  rewrite bool_decide_true by done. cbn. rewrite (proj2 (Z.eqb_eq _ _) Hrev). cbn. rewrite Hh. cbn.
  rewrite bool_decide_true by done. cbn. rewrite Ha, Hf. cbn. rewrite Hc. cbn. by rewrite Hsz.
Qed.

(** ** An honest review *)
Context (Hcontrol : ∀ n, control_check (worlds n) control = Ok tt).
Context (Hclock : ∀ n, 0 ≤ clock n ≤ DURATION_MILLIS_MAX_V1 ∧ clock n ≤ clock (S n)).
Lemma clock_mono i j : (i ≤ j)%nat → clock i ≤ clock j.
Proof using Hclock. induction 1 as [|j _ IH]; [done|]. pose proof (Hclock j). lia. Qed.
Lemma elapsed_forward i j : (i ≤ j)%nat → ∃ d, elapsed (clock i) (clock j) = Some d.
Proof using Hclock.
  intros Hij%clock_mono. pose proof (Hclock i). pose proof (Hclock j). exists (clock j - clock i).
  unfold elapsed, u64_checked_sub, DurationMillis_new.
  assert (checked_u64 (clock j - clock i) = Some (clock j - clock i)) as ->.
  { apply checked_u64_Some. unfold is_u64, u64_max, DURATION_MILLIS_MAX_V1 in *. lia. }
  cbn. by destruct (Z.ltb_spec DURATION_MILLIS_MAX_V1 (clock j - clock i)); [lia|].
Qed.
(** Runs a stage past the readings that did not interrupt it. *)
Ltac go := unfold interrupted, now_milliseconds, mbind, SE_bind, interact, mret, SE_ret, quarantine_if, stop_if, clock_failure;
  cbn -[elapsed control_check VerificationContextV1_new]; rewrite ?Hcontrol; cbn -[elapsed control_check VerificationContextV1_new].
Ltac advance i j := let d := fresh "d" in let H := fresh "Hd" in
  destruct (elapsed_forward i j) as [d H]; [lia|]; rewrite ?H; go.
Lemma projection_returns solution n :
  (∀ n, dp_project pack n (av_problem self) (bc_values candidate) solution_id control = Ok solution) →
  ∃ t n' i, projection_stage pack clock worlds self candidate solution_id control n = (Ok (solution, clock i, t), n') ∧
    (i < n')%nat.
Proof using Hcontrol Hclock.
  intros Hp. unfold projection_stage. go. rewrite Hp. go. advance (S n) (S (S (S n))).
  eexists _, _, _. split; [reflexivity|lia].
Qed.
Lemma structural_returns solution structural i t n :
  (i < n)%nat →
  (∀ run, validate_structure blake3_hex serialize_problem serialize_view json_solution (runs run) (av_problem self)
     (av_planning_model_hash self) (bc_values candidate) solution_id solution = Ok structural) →
  ∃ t' n' j, structural_stage blake3_hex serialize_problem serialize_view json_solution clock worlds runs self candidate
    solution_id control solution (clock i) t n = (Ok (structural, clock j, t'), n') ∧ (j < n')%nat.
Proof using Hcontrol Hclock.
  intros Hin Hs. unfold structural_stage. go. rewrite Hs. go. advance i (S n). eexists _, _, _. split; [reflexivity|lia].
Qed.
Lemma score_returns solution score i t n :
  (i < n)%nat →
  (∀ n, dp_score pack n (av_document self) solution (av_objective_context self) control = Ok score) →
  ∃ t' n' j, score_stage pack clock worlds self control solution (clock i) t n = (Ok (score, clock j, t'), n') ∧
    (j < n')%nat.
Proof using Hcontrol Hclock.
  intros Hin Hs. unfold score_stage. go. rewrite Hs. go. advance i (S n). eexists _, _, _. split; [reflexivity|lia].
Qed.
Lemma answer_returns {T} i t category (a : T) n :
  pack_answer clock worlds control (clock i) t category (Ok a) n = (Ok a, S n).
Proof using Hcontrol. unfold pack_answer. go. done. Qed.
Lemma bind_interact {A B} (f : nat → A) (k : A → SE nat AcceptanceDecision B) n : (interact f ≫= k) n = k (f n) (S n).
Proof using. done. Qed.
Lemma bind_returns {A B} (m : SE nat AcceptanceDecision A) (k : A → SE nat AcceptanceDecision B) n a n' :
  m n = (Ok a, n') → (m ≫= k) n = k a n'.
Proof using. unfold mbind, SE_bind. by intros ->. Qed.
Lemma verification_returns solution structural score scope context report reconciliation result i t n :
  (i < n)%nat →
  (∀ n, dp_verification_scope pack n (av_document self) (av_scenario_revision self) control = Ok scope) →
  VerificationContextV1_new (sdoc_scenario_id (av_document self)) (av_scenario_revision self)
    (av_document_hash self) (av_planning_model_hash self) (sr_normalized_solution_hash structural) (vs_checksum scope) = Ok context →
  (∀ n, dp_verify pack n (av_document self) solution (av_objective_context self) context score control = Ok report) →
  validate_report blake3_hex json_scope json_report (av_problem self) scope context report score (bc_objective candidate) =
    Ok reconciliation →
  AcceptedResult_new blake3_hex json_solution json_report json_result solution report = Ok result →
  ∃ t' n', verification_stage blake3_hex json_solution json_scope json_report json_result pack clock worlds self candidate
    control solution structural score (clock i) t n = (Ok (AdAccepted result reconciliation t'), n').
Proof using Hcontrol Hclock.
  intros Hin Hs Hc Hv Hr Ha. unfold verification_stage.
  rewrite bind_interact, Hs. rewrite (bind_returns _ _ _ _ _ (answer_returns _ _ _ _ _)), Hc.
  rewrite bind_interact, Hv. rewrite (bind_returns _ _ _ _ _ (answer_returns _ _ _ _ _)), Hr, Ha.
  go. advance i (S (S (S (S n)))). by eexists _, _.
Qed.

(** A pack that answers a candidate as the contracts ask: the projection of the planning IR, a score
    within the declared levels, and a scope and a report from their constructors, every required rule
    evaluated and satisfied. *)
Record honest (document : ScenarioDocument Content) (revision : Z) (problem : PlanningProblem)
    (objective_context : option RunObjectiveContext) (solution : NormalizedSolution) (report : VerificationReport)
    (score : ScoreVector) : Prop := {
  ho_projects : project_candidate blake3_hex problem (bc_values candidate) solution_id limits_default = Ok solution;
  ho_project : ∀ n, dp_project pack n problem (bc_values candidate) solution_id control = Ok solution;
  ho_score : ∀ n, dp_score pack n document solution objective_context control = Ok score;
  ho_feasible : feasibility score = 0;
  ho_levels : Forall2 level_verified (op_levels (objectives problem)) (levels score);
  ho_verified : ∃ h rules scope context results warnings metrics,
    NormalizedSolution_canonical_hash blake3_hex json_solution solution = Ok h ∧
    VerificationScope_new blake3_hex json_scope (sdoc_scenario_id document) revision rules = Ok scope ∧
    (∀ n, dp_verification_scope pack n document revision control = Ok scope) ∧
    VerificationContextV1_new (sdoc_scenario_id document) revision (av_document_hash self) (av_planning_model_hash self)
      h (vs_checksum scope) = Ok context ∧
    VerificationReport_new blake3_hex json_report context results score warnings metrics = Ok report ∧
    (∀ n, dp_verify pack n document solution objective_context context score control = Ok report) ∧
    (re_rule_id <$> results) ≡ₚ (rb_rule_id <$> rules) ∧ Forall (λ e, re_satisfied e = true) results;
  ho_fits : ∀ c, fits_json json_result (result_with solution report c)
}.
(** C23. The gate accepts what an honest pack stands for: while the operation is not stopped and the
    clock does not go backwards, the review of the candidate ends with its accepted result,
    reconciled with what the backend claimed. *)
Theorem honest_candidate_accepted run document revision problem objective_context solution report score n :
  hex_digest blake3_hex → ChecksumJson json_scope set_scope_checksum → ChecksumJson json_report set_report_checksum →
  AcceptanceReviewer_new blake3_hex serialize_problem serialize_view serialize_document run document revision problem
    objective_context = Ok self →
  (∀ k, model_hash blake3_hex serialize_problem serialize_view (runs k) problem = Ok (av_planning_model_hash self)) →
  typed_projections problem → len (projections problem) ≤ u32_max →
  honest document revision problem objective_context solution report score →
  ∃ c timings n', acceptance_review blake3_hex serialize_problem serialize_view json_solution json_scope json_report
    json_result pack clock worlds runs self candidate solution_id control n =
    (AdAccepted (result_with solution report c) (reconcile_backend_objective score (bc_objective candidate)) timings, n').
Proof using Hcontrol Hclock.
  intros Hhex Js Jr Hnew Hruns Hty Hlen [Hpc Hp Hsc Hf Hlev
    (h & rules & scope & context & results & warnings & metrics & Hh & Hscope & Hds & Hc & Hrep & Hdv & Hids & Hsat) Hfits].
  pose proof Hnew as Hnew'. apply result_bind_Ok in Hnew' as ([] & Hval%map_err_Ok & _).
  apply reviewer_new_Ok in Hnew as (Hdoc & Hrev & Hprob & Hctx & _ & _ & _ & Hsid & Hsrev).
  pose proof Hc as Hc'. apply result_bind_Ok in Hc' as ([] & _ & [= Hcx]).
  destruct (honest_report problem scope context report rules results score warnings metrics (bc_objective candidate))
    as (Hvr & Hacc & Hscore); [done..| | |done|done|done|done|done|]; [by subst context|by subst context|].
  pose proof (report_new_valid blake3_hex Hhex json_report _ _ _ _ _ _ Hrep) as Hrv.
  apply report_new_parts in Hrep as (_ & _ & _ & R2 & R3 & _ & _ & R6 & _).
  pose proof (project_candidate_outcome blake3_hex problem limits_default (bc_values candidate) solution_id
    default_typed Hty Hval) as Ho. rewrite Hpc in Ho. destruct Ho as (_ & Hcan & l & Hsol & _).
  destruct (accepted_new_Ok solution report) as [c Hres]; try done.
  { by apply NormalizedSolution_validate_spec. }
  { rewrite R2. subst context solution. cbn. by rewrite Hsid. }
  { rewrite R3. subst context solution. cbn. by rewrite Hsrev. }
  { rewrite R6. by subst context. }
  { by rewrite Hscore. }
  subst document revision problem objective_context. unfold acceptance_review, review_stages.
  destruct (projection_returns solution n Hp) as (t1 & n1 & i1 & E1 & Hi1). rewrite (bind_returns _ _ _ _ _ E1).
  destruct (structural_returns solution {| sr_assignment_count := len (projections (av_problem self));
    sr_normalized_solution_hash := h |} i1 t1 n1 Hi1) as (t2 & n2 & i2 & E2 & Hi2).
  { intros k. by apply exact_projection_structured. }
  rewrite (bind_returns _ _ _ _ _ E2).
  destruct (score_returns solution score i2 t2 n2 Hi2 Hsc) as (t3 & n3 & i3 & E3 & Hi3). rewrite (bind_returns _ _ _ _ _ E3).
  edestruct (verification_returns solution {| sr_assignment_count := len (projections (av_problem self));
    sr_normalized_solution_hash := h |}) as (t4 & n4 & E4); [exact Hi3|exact Hds|exact Hc|exact Hdv|exact Hvr|exact Hres|].
  rewrite E4. by exists c, t4, n4.
Qed.
End gate.
