(* ===== verification/CandidateReviewer.v ===== *)
(** * The bridge from the router to the acceptance gate

    Models [crates/eutheto-core/src/verification.rs]: the reviewer the application gives to the router,
    which has each candidate reviewed by the acceptance gate, keeps the best accepted result, the first
    alarm and the time spent, and answers the router with a disposition; and the clock of the parent
    operation.  Callbacks are recorded in the order they are invoked. *)
From stdpp Require Import base tactics list gmap strings.
From Stdlib Require Import ZArith Lia Ascii.
From S2P Require Import Prelude Ordering Control Budget Ids DomainIr Model Validation Canonical Projection.
From S2P Require Import SolverApi Support Router Execution VerificationIr ObjectiveContext Scenario Acceptance.
Open Scope string_scope.
Open Scope list_scope.
Open Scope Z_scope.

Definition SOLUTION_ID_FAILURE_CODE : string := "verification.solution_id_generation_failed".

(** ** Timings *)
Definition add_millis (left right : Z) : option Z :=
  sum ← u64_checked_add left right; result_ok (DurationMillis_new sum).
Definition checked_sum (previous current : AcceptancePhaseTimings) : option AcceptancePhaseTimings :=
  projection ← add_millis (pt_projection previous) (pt_projection current);
  structural ← add_millis (pt_structural_validation previous) (pt_structural_validation current);
  score ← add_millis (pt_score_recomputation previous) (pt_score_recomputation current);
  rules ← add_millis (pt_required_rule_verification previous) (pt_required_rule_verification current);
  Some {| pt_projection := projection; pt_structural_validation := structural; pt_score_recomputation := score;
          pt_required_rule_verification := rules |}.
Definition decision_timings (decision : AcceptanceDecision) : AcceptancePhaseTimings :=
  match decision with
  | AdAccepted _ _ timings | AdQuarantined _ timings | AdInterrupted _ timings | AdResourceLimitExceeded timings => timings
  | AdAwaiting => AcceptancePhaseTimings_default
  end.
Record RunPhaseTimingsV1 := {
  rt_compile : option Z; rt_backend : option Z; rt_projection : option Z; rt_structural_validation : option Z;
  rt_score_recomputation : option Z; rt_required_rule_verification : option Z; rt_evidence_persistence : option Z;
  rt_optional_explanation : option Z
}.
Definition terminal_phase_timings (review_timings : option AcceptancePhaseTimings) (compile_elapsed : Z)
    (backend_elapsed : option Z) : RunPhaseTimingsV1 := {|
  rt_compile := Some compile_elapsed; rt_backend := backend_elapsed;
  rt_projection := pt_projection <$> review_timings;
  rt_structural_validation := pt_structural_validation <$> review_timings;
  rt_score_recomputation := pt_score_recomputation <$> review_timings;
  rt_required_rule_verification := pt_required_rule_verification <$> review_timings;
  rt_evidence_persistence := None; rt_optional_explanation := None |}.

(** ** The parent's clock *)
Record ParentClockObservations := { po_latest_elapsed : option Z; po_failed : bool }.
Definition ParentVerificationClock_new : ParentClockObservations := {| po_latest_elapsed := None; po_failed := false |}.
Definition mark_failed (o : ParentClockObservations) : ParentClockObservations :=
  {| po_latest_elapsed := po_latest_elapsed o; po_failed := true |}.
Definition retain_elapsed_bound (elapsed : Z) (o : ParentClockObservations) : ParentClockObservations :=
  if negb (representable_elapsed elapsed) then mark_failed o
  else {| po_latest_elapsed := Some (match po_latest_elapsed o with
                                     | Some previous => Z.max previous elapsed
                                     | None => elapsed
                                     end);
          po_failed := po_failed o |}.
Definition observe_elapsed (budget : SolveBudgetState) (w : World) (o : ParentClockObservations) :
    option Z * ParentClockObservations :=
  match parent_elapsed budget w with
  | None => (None, mark_failed o)
  | Some elapsed =>
      if negb (representable_elapsed elapsed) then (None, mark_failed o)
      else if match po_latest_elapsed o with Some previous => elapsed <? previous | None => false end
      then (None, mark_failed o)
      else (Some elapsed, {| po_latest_elapsed := Some elapsed; po_failed := po_failed o |})
  end.
Definition parent_now_milliseconds (budget : SolveBudgetState) (w : World) (o : ParentClockObservations) :
    Z * ParentClockObservations :=
  let '(elapsed, o) := observe_elapsed budget w o in
  (default DURATION_MILLIS_MAX_V1
     (elapsed ← elapsed; milliseconds ← checked_u64 (as_millis elapsed); result_ok (DurationMillis_new milliseconds)), o).

(** ** Evidence *)
Definition runtime_evidence_matches (record : RouterExecutionRecord) (identity : BackendRuntimeIdentity)
    (options : SolveOptions) : bool :=
  match last (er_attempts record) with
  | None => er_invocation_count record =? 0
  | Some attempt =>
      match ar_outcome attempt with
      | None => false
      | Some outcome =>
          match te_execution (oc_evidence outcome) with
          | None => false
          | Some execution =>
              let reproducibility := ee_reproducibility execution in
              bool_decide (ar_backend_id attempt = bi_backend_id identity)
              && bool_decide (ar_backend_version attempt = bi_backend_version identity)
              && bool_decide (ar_adapter_version attempt = bi_adapter_version identity)
              && bool_decide (re_backend_version reproducibility = bi_backend_version identity)
              && bool_decide (re_adapter_version reproducibility = bi_adapter_version identity)
              && bool_decide (re_worker_version reproducibility = bi_worker_version identity)
              && bool_decide (re_engine_version reproducibility = bi_solver_version identity)
              && (re_protocol_major reproducibility =? bi_protocol_major identity)
              && (re_protocol_minor reproducibility =? bi_protocol_minor identity)
              && bool_decide (re_applied_options reproducibility = options)
          end
      end
  end.
(** Every evidence identifier of the assignments and of the rule evaluations, bound to [true]. *)
Definition accepted_evidence (accepted : AcceptedResult) : gmap string VerificationValue :=
  foldl (λ m id, <[id := VvBoolean true]> m) ∅
    ((ns_assignments (ac_solution accepted) ≫= da_evidence)
     ++ (vr_required_rule_results (ac_verification accepted) ≫= re_evidence)).

(** ** The reviewer *)
Inductive ReviewCallback :=
| BeforeReview
| AfterReview (decision : AcceptanceDecision)
| FirstAccepted (result : AcceptedResult) (observed verified : Z).
(** The callbacks its owner has installed. *)
Record ReviewCallbacks := { rk_before_review : bool; rk_after_review : bool; rk_first_accepted : bool }.
(** [rs_interactions] numbers the interactions with the environment, [rs_callbacks] is what was invoked. *)
Record ReviewerState := {
  rs_decision : option AcceptanceDecision;
  rs_established_alarm : option CorrectnessAlarm;
  rs_review_timings : Result unit (option AcceptancePhaseTimings);
  rs_first_accepted_sent : bool;
  rs_interactions : nat;
  rs_callbacks : list ReviewCallback
}.
Definition RouterCandidateReviewer_start : ReviewerState := {|
  rs_decision := None; rs_established_alarm := None; rs_review_timings := Ok None; rs_first_accepted_sent := false;
  rs_interactions := 0; rs_callbacks := [] |}.
Definition with_decision (d : option AcceptanceDecision) (s : ReviewerState) : ReviewerState := {|
  rs_decision := d; rs_established_alarm := rs_established_alarm s; rs_review_timings := rs_review_timings s;
  rs_first_accepted_sent := rs_first_accepted_sent s; rs_interactions := rs_interactions s;
  rs_callbacks := rs_callbacks s |}.
Definition with_alarm (a : option CorrectnessAlarm) (s : ReviewerState) : ReviewerState := {|
  rs_decision := rs_decision s; rs_established_alarm := a; rs_review_timings := rs_review_timings s;
  rs_first_accepted_sent := rs_first_accepted_sent s; rs_interactions := rs_interactions s;
  rs_callbacks := rs_callbacks s |}.
Definition with_timings (t : Result unit (option AcceptancePhaseTimings)) (s : ReviewerState) : ReviewerState := {|
  rs_decision := rs_decision s; rs_established_alarm := rs_established_alarm s; rs_review_timings := t;
  rs_first_accepted_sent := rs_first_accepted_sent s; rs_interactions := rs_interactions s;
  rs_callbacks := rs_callbacks s |}.
Definition with_sent (s : ReviewerState) : ReviewerState := {|
  rs_decision := rs_decision s; rs_established_alarm := rs_established_alarm s; rs_review_timings := rs_review_timings s;
  rs_first_accepted_sent := true; rs_interactions := rs_interactions s; rs_callbacks := rs_callbacks s |}.
Definition with_interactions (n : nat) (s : ReviewerState) : ReviewerState := {|
  rs_decision := rs_decision s; rs_established_alarm := rs_established_alarm s; rs_review_timings := rs_review_timings s;
  rs_first_accepted_sent := rs_first_accepted_sent s; rs_interactions := n; rs_callbacks := rs_callbacks s |}.
Definition with_callback (installed : bool) (callback : ReviewCallback) (s : ReviewerState) : ReviewerState :=
  if installed
  then {| rs_decision := rs_decision s; rs_established_alarm := rs_established_alarm s;
          rs_review_timings := rs_review_timings s; rs_first_accepted_sent := rs_first_accepted_sent s;
          rs_interactions := rs_interactions s; rs_callbacks := rs_callbacks s ++ [callback] |}
  else s.

Section reviewer.
Context (blake3_hex : list Z → string).
Context (serialize_problem : PlanningProblem → Bytes) (serialize_view : CanonicalHashProblem → Bytes).
Context (json_solution : Json NormalizedSolution) (json_scope : Json VerificationScope).
Context (json_report : Json VerificationReport) (json_result : Json AcceptedResult).
Context {Content : Type} (pack : DomainPack Content) (clock : nat → Z) (worlds : nat → World).
Context (runs : nat → UncontrolledRun) (solution_ids : nat → option string).
Context (acceptance : AcceptanceReviewer (Content := Content)) (control : OperationControl) (installed : ReviewCallbacks).
(** An early return of [review] is its answer. *)
Notation RM := (SE ReviewerState CandidateReview).
Definition ask {A} (f : nat → A) : RM A := λ s,
  (Ok (f (rs_interactions s)), with_interactions (S (rs_interactions s)) s).
Definition modify (f : ReviewerState → ReviewerState) : RM unit := λ s, (Ok tt, f s).
Definition state : RM ReviewerState := λ s, (Ok s, s).
Definition run_acceptance (candidate : BackendCandidate) (solution_id : string) : RM AcceptanceDecision := λ s,
  let '(decision, n) := acceptance_review blake3_hex serialize_problem serialize_view json_solution json_scope json_report
    json_result pack clock worlds runs acceptance candidate solution_id control (rs_interactions s) in
  (Ok decision, with_interactions n s).
Definition optionally {A} (condition : bool) (m : RM A) : RM (option A) :=
  if condition then a ← m; mret (Some a) else mret None.

Definition reconcile_accepted_decision (decision : AcceptanceDecision) : RM (option CandidateReview) :=
  s ← state;
  match rs_decision s, decision with
  | Some (AdAccepted earlier _ _), AdAccepted later _ _ =>
      match ScoreVector_compare (vr_score (ac_verification later)) (vr_score (ac_verification earlier)) with
      | Ok Gt => mret (Some AwaitingIndependentVerification)
      | Err _ =>
          let alarm := CorrectnessAlarm_new CcScoreIntegrityFailed in
          let quarantined := AdQuarantined alarm (decision_timings decision) in
          _ ← modify (with_alarm (Some alarm));
          _ ← modify (with_decision (Some quarantined));
          _ ← modify (with_callback (rk_after_review installed) (AfterReview quarantined));
          mret (Some (VerificationFailed (al_diagnostic_code alarm)))
      | Ok _ => mret None
      end
  | _, _ => mret None
  end.
Definition established (decision : AcceptanceDecision) (s : ReviewerState) : ReviewerState :=
  match decision with
  | AdQuarantined alarm _ =>
      if negb (bool_decide (al_category alarm = CcClockFailed))
      then with_alarm (Some (default alarm (rs_established_alarm s))) s else s
  | _ => s
  end.
Definition accumulated (decision : AcceptanceDecision) (s : ReviewerState) : ReviewerState :=
  let current := decision_timings decision in
  with_timings (total ← rs_review_timings s;
                match match total with None => Some current | Some previous => checked_sum previous current end with
                | Some sum => Ok (Some sum)
                | None => Err tt
                end) s.
Definition disposition (decision : AcceptanceDecision) : CandidateReview :=
  match decision with
  | AdAwaiting => AwaitingIndependentVerification
  | AdAccepted _ reconciliation _ => Verified (bool_decide (reconciliation = Matched))
  | AdInterrupted reason _ => Interrupted reason
  | AdResourceLimitExceeded _ => ResourceLimitExceeded
  | AdQuarantined alarm _ => VerificationFailed (al_diagnostic_code alarm)
  end.
Definition router_review (candidate : BackendCandidate) : RM CandidateReview :=
  s ← state;
  match rs_established_alarm s with
  | Some alarm => se_fail (VerificationFailed (al_diagnostic_code alarm))
  | None =>
      checked ← ask (λ n, control_check (worlds n) control);
      match checked with
      | Err reason => se_fail (Interrupted reason)
      | Ok _ =>
          solution_id ← ask solution_ids;
          match solution_id with
          | None => se_fail (VerificationFailed SOLUTION_ID_FAILURE_CODE)
          | Some solution_id =>
              _ ← modify (with_callback (rk_before_review installed) BeforeReview);
              observed ← optionally (negb (rs_first_accepted_sent s) && rk_first_accepted installed) (ask clock);
              decision ← run_acceptance candidate solution_id;
              _ ← modify (established decision);
              _ ← modify (with_callback (rk_after_review installed) (AfterReview decision));
              _ ← modify (accumulated decision);
              s' ← state;
              if negb (is_ok (rs_review_timings s'))
              then se_fail (VerificationFailed "verification.phase_timing_overflow")
              else
                verified ← optionally (is_some observed) (ask clock);
                _ ← match decision, observed, verified with
                    | AdAccepted result _ _, Some observed, Some verified =>
                        checked ← ask (λ n, control_check (worlds n) control);
                        match checked with
                        | Ok _ =>
                            _ ← modify (with_callback (rk_first_accepted installed) (FirstAccepted result observed verified));
                            modify with_sent
                        | Err _ => mret tt
                        end
                    | _, _, _ => mret tt
                    end;
                reconciled ← reconcile_accepted_decision decision;
                match reconciled with
                | Some review => se_fail review
                | None =>
                    _ ← modify (with_decision (Some decision));
                    mret (disposition decision)
                end
          end
      end
  end.
(** [CandidateReviewer::review]: the answer and the state it leaves. *)
Definition candidate_review (candidate : BackendCandidate) (s : ReviewerState) : CandidateReview * ReviewerState :=
  match router_review candidate s with (Ok review, s') | (Err review, s') => (review, s') end.
(** The state after the calls the router has made. *)
Definition after_reviews (calls : ReviewCalls) : ReviewerState :=
  foldl (λ s '(_, candidate), (candidate_review candidate s).2) RouterCandidateReviewer_start calls.
(** The reviewer as the router sees it. *)
Definition router_reviewer (calls : ReviewCalls) (backend_id : string) (candidate : BackendCandidate) : CandidateReview :=
  (candidate_review candidate (after_reviews calls)).1.
End reviewer.
