(* ===== verification/ReviewedExecution.v ===== *)
(** * Routed solves with independent verification

    The reviewer of [crates/eutheto-core/src/verification.rs] in the place of the router's reviewer: what
    its answers and its state mean, and what a finished solve stands for. *)
From stdpp Require Import base tactics list gmap strings.
From Stdlib Require Import ZArith Lia Ascii.
From S2P Require Import Prelude Ordering Control Budget Ids DomainIr Model Analysis Validation Canonical Projection ProjectionFacts.
From S2P Require Import EvaluatorFacts SolverApi SolverApiFacts Support Preflight Router Execution ExecutionFacts RoutedExecution.
From S2P Require Import VerificationIr ObjectiveContext Scenario Acceptance AcceptanceFacts CandidateReviewer.
Open Scope string_scope.
Open Scope list_scope.
Open Scope Z_scope.

Section reviewer.
Context (blake3_hex : list Z → string).
Context (serialize_problem : PlanningProblem → Bytes) (serialize_view : CanonicalHashProblem → Bytes).
Context (json_solution : Json NormalizedSolution) (json_scope : Json VerificationScope).
Context (json_report : Json VerificationReport) (json_result : Json AcceptedResult).
Context {Content : Type} (serialize_document : ScenarioDocument Content → option (list Z)).
Context (pack : DomainPack Content) (clock : nat → Z) (gate_worlds : nat → World).
Context (runs : nat → UncontrolledRun) (solution_ids : nat → option string).
Context (acceptance : AcceptanceReviewer (Content := Content)) (control : OperationControl) (installed : ReviewCallbacks).
Notation candidate_review := (candidate_review blake3_hex serialize_problem serialize_view json_solution json_scope
  json_report json_result pack clock gate_worlds runs solution_ids acceptance control installed).
Notation router_review := (router_review blake3_hex serialize_problem serialize_view json_solution json_scope
  json_report json_result pack clock gate_worlds runs solution_ids acceptance control installed).
Notation router_reviewer := (router_reviewer blake3_hex serialize_problem serialize_view json_solution json_scope
  json_report json_result pack clock gate_worlds runs solution_ids acceptance control installed).
Notation after_reviews := (after_reviews blake3_hex serialize_problem serialize_view json_solution json_scope
  json_report json_result pack clock gate_worlds runs solution_ids acceptance control installed).
Notation reviewed_as c id d := (reviewed_as blake3_hex serialize_problem serialize_view json_solution json_scope
  json_report json_result pack clock gate_worlds runs acceptance c id control d).

(** ** One review *)
(** What a review does with the state it finds. *)
Definition accepted_of (d : option AcceptanceDecision) : option AcceptedResult :=
  match d with Some (AdAccepted result _ _) => Some result | _ => None end.
Definition keeps_best (s s' : ReviewerState) : Prop :=
  ∀ earlier later, accepted_of (rs_decision s) = Some earlier → accepted_of (rs_decision s') = Some later →
  later = earlier ∨ ∃ order, order ≠ Gt ∧
    ScoreVector_compare (vr_score (ac_verification later)) (vr_score (ac_verification earlier)) = Ok order.
(** The notifications of a first accepted result. *)
Definition first_accepted (callbacks : list ReviewCallback) : list AcceptedResult :=
  callbacks ≫= λ c, match c with FirstAccepted result _ _ => [result] | _ => [] end.
(** Every accepted result the reviewer holds or announced comes from a review of the gate, and at most
    one was announced. *)
Definition accepted_by_gate (result : AcceptedResult) : Prop :=
  ∃ c id reconciliation timings, reviewed_as c id (AdAccepted result reconciliation timings).
Record reviewer_inv (s : ReviewerState) : Prop := {
  ri_decision : ∀ result, accepted_of (rs_decision s) = Some result → accepted_by_gate result;
  ri_announced : if rs_first_accepted_sent s
    then ∃ result, first_accepted (rs_callbacks s) = [result] ∧ accepted_by_gate result
    else first_accepted (rs_callbacks s) = []
}.
Record review_ok (c : BackendCandidate) (s : ReviewerState) (answer : CandidateReview) (s' : ReviewerState) : Prop := {
  ro_verified : ∀ matches, answer = Verified matches → ∃ id result reconciliation timings,
    reviewed_as c id (AdAccepted result reconciliation timings) ∧ matches = bool_decide (reconciliation = Matched) ∧
    rs_decision s' = Some (AdAccepted result reconciliation timings);
  ro_best : keeps_best s s';
  ro_inv : reviewer_inv s'
}.
(** The states between the start of a review and its last step. *)
Definition reviewing (s s0 : ReviewerState) : Prop :=
  rs_decision s0 = rs_decision s ∧ rs_first_accepted_sent s0 = rs_first_accepted_sent s ∧ reviewer_inv s0.
Notation step s m Q c := (triple (reviewing s) m (λ a s0, reviewing s s0 ∧ Q a) (review_ok c s)).
Lemma keeps_same s s' : rs_decision s' = rs_decision s → keeps_best s s'.
Proof using. intros H earlier later. rewrite H. intros -> [= ->]. by left. Qed.
Lemma unverified_ok c s answer s' :
  (∀ matches, answer ≠ Verified matches) → rs_decision s' = rs_decision s → reviewer_inv s' → review_ok c s answer s'.
Proof using. intros Ha Hd Hi. split; [|by apply keeps_same|done]. intros matches H. by destruct (Ha matches). Qed.
Lemma step_fail {A} c s answer (Q : A → ReviewerState → Prop) :
  (∀ matches, answer ≠ Verified matches) → triple (reviewing s) (se_fail answer) Q (review_ok c s).
Proof using. intros Ha s0 (Hd & _ & Hi). by apply unverified_ok. Qed.
Lemma step_ask {A} c s (f : nat → A) : step s (ask f) (λ a, ∃ n, a = f n) c.
Proof using. intros s0 (Hd & Hs & [H1 H2]). split; [|by exists (rs_interactions s0)]. split_and!; [done|done|by split]. Qed.
Lemma step_modify c s f :
  (∀ s0, reviewing s s0 → reviewing s (f s0)) → step s (modify f) (λ _, True) c.
Proof using. intros Hf s0 Hs. split; [by apply Hf|done]. Qed.
Lemma step_acceptance c s id :
  step s (run_acceptance blake3_hex serialize_problem serialize_view json_solution json_scope json_report json_result pack
    clock gate_worlds runs acceptance control c id) (λ d, reviewed_as c id d) c.
Proof using.
  intros s0 (Hd & Hs & [H1 H2]). unfold run_acceptance. destruct (acceptance_review _ _ _ _ _ _ _ _ _ _ _ _ _ _ _ _) as [d n] eqn:H.
  split; [split_and!; [done|done|by split]|]. exists (rs_interactions s0). by rewrite H.
Qed.
Lemma step_optionally {A} c s b (m : SE ReviewerState CandidateReview A) (Q : A → Prop) :
  step s m Q c → step s (optionally b m) (λ o, is_some o = b) c.
Proof using.
  intros Hm. unfold optionally. destruct b; [|by intros s0 Hs].
  eapply triple_bind; [exact Hm|]. intros a s0 [Hs _]. by split.
Qed.
Lemma callback_inert installed_ callback s s0 :
  first_accepted [callback] = [] → reviewing s s0 → reviewing s (with_callback installed_ callback s0).
Proof using.
  intros Hc Hrev. pose proof Hrev as (Hd & Hs & [H1 H2]). unfold with_callback. destruct installed_; [|exact Hrev].
  split_and!; [done|done|]. split; [done|]. cbn. unfold first_accepted. rewrite bind_app.
  change (rs_callbacks s0 ≫= _) with (first_accepted (rs_callbacks s0)). change ([callback] ≫= _) with (first_accepted [callback]).
  by rewrite Hc, app_nil_r.
Qed.
Lemma established_inert d s s0 : reviewing s s0 → reviewing s (established d s0).
Proof using.
  intros Hrev. pose proof Hrev as (Hd & Hs & [H1 H2]). unfold established. destruct d; try exact Hrev.
  destruct (negb _); [|exact Hrev].
  split_and!; [done|done|by split].
Qed.
Lemma accumulated_inert d s s0 : reviewing s s0 → reviewing s (accumulated d s0).
Proof using. intros (Hd & Hs & [H1 H2]). split_and!; [done|done|by split]. Qed.
Lemma step_bind {A B} c s (m : SE ReviewerState CandidateReview A) (k : A → SE ReviewerState CandidateReview B) Q Q' :
  step s m Q c → (∀ a, Q a → triple (reviewing s) (k a) Q' (review_ok c s)) →
  triple (reviewing s) (m ≫= k) Q' (review_ok c s).
Proof using. intros Hm Hk. eapply triple_bind; [exact Hm|]. intros a s0 [Hs Ha]. by apply (Hk a Ha). Qed.

(** ** The last steps *)
Definition settled (s s0 : ReviewerState) : Prop := rs_decision s0 = rs_decision s ∧ reviewer_inv s0.
Lemma announce c s d observed verified id :
  reviewed_as c id d → (is_some observed = true → rs_first_accepted_sent s = false ∧ rk_first_accepted installed = true) →
  triple (reviewing s)
    (match d, observed, verified with
     | AdAccepted result _ _, Some observed, Some verified =>
         checked ← ask (λ n, control_check (gate_worlds n) control);
         match checked with
         | Ok _ =>
             _ ← modify (with_callback (rk_first_accepted installed) (FirstAccepted result observed verified));
             modify with_sent
         | Err _ => mret tt
         end
     | _, _, _ => mret tt
     end) (λ _ s0, settled s s0) (review_ok c s).
Proof using.
  intros Hd Hobs.
  assert (∀ s0, reviewing s s0 → settled s s0) as Hset by (by intros s0 (? & _ & ?)).
  destruct d as [|result reconciliation timings| | |]; try (by intros s0 Hs; apply Hset).
  destruct observed as [observed|]; [|by intros s0 Hs; apply Hset].
  destruct verified as [verified|]; [|by intros s0 Hs; apply Hset].
  destruct (Hobs eq_refl) as [Hsent Hinst].
  eapply step_bind; [apply step_ask|]. intros checked _. destruct checked; [|by intros s0 Hs; apply Hset].
  intros s0 (Hdec & Hs & [H1 H2]). cbn. rewrite Hinst. unfold settled. cbn. split; [done|]. split; [done|].
  cbn. rewrite Hs, Hsent in H2. exists result. split; [|by exists c, id, reconciliation, timings].
  unfold first_accepted in *. by rewrite bind_app, H2.
Qed.
(** A decision that replaces the one held. *)
Lemma replaced_ok c s s0 d id :
  settled s s0 → reviewed_as c id d →
  (∀ earlier later, accepted_of (rs_decision s) = Some earlier → accepted_of (Some d) = Some later → ∃ order, order ≠ Gt ∧
     ScoreVector_compare (vr_score (ac_verification later)) (vr_score (ac_verification earlier)) = Ok order) →
  review_ok c s (disposition d) (with_decision (Some d) s0).
Proof using.
  intros [Hdec [H1 H2]] Hd Hbest. split.
  - intros matches Hm. destruct d as [|result reconciliation timings| | |]; try done. injection Hm as <-.
    by exists id, result, reconciliation, timings.
  - intros earlier later He Hl. right. by eapply Hbest.
  - split; [|done]. intros result Hr. destruct d as [|result' reconciliation timings| | |]; try done. injection Hr as <-.
    by exists c, id, reconciliation, timings.
Qed.
Lemma alarmed_ok c s s0 d answer :
  settled s s0 → (∀ matches, answer ≠ Verified matches) → accepted_of (Some d) = None →
  review_ok c s answer (with_callback (rk_after_review installed) (AfterReview d)
    (with_decision (Some d) (with_alarm (Some (CorrectnessAlarm_new CcScoreIntegrityFailed)) s0))).
Proof using.
  intros [Hdec [H1 H2]] Ha Hd.
  assert (rs_decision (with_callback (rk_after_review installed) (AfterReview d)
    (with_decision (Some d) (with_alarm (Some (CorrectnessAlarm_new CcScoreIntegrityFailed)) s0))) = Some d) as Hdd
    by (by unfold with_callback; destruct (rk_after_review installed)).
  split.
  - intros matches H. by destruct (Ha matches).
  - intros earlier later _. by rewrite Hdd, Hd.
  - split; [intros result; by rewrite Hdd, Hd|]. unfold with_callback. destruct (rk_after_review installed); cbn; [|done].
    unfold first_accepted in *. rewrite bind_app. cbn. by rewrite app_nil_r.
Qed.
Lemma conclude c s d id :
  reviewed_as c id d →
  triple (settled s)
    (reconciled ← reconcile_accepted_decision installed d;
     match reconciled with
     | Some review => se_fail review
     | None => _ ← modify (with_decision (Some d)); mret (disposition d)
     end) (review_ok c s) (review_ok c s).
Proof using.
  intros Hd s0 Hs. pose proof Hs as [Hdec Hinv].
  unfold reconcile_accepted_decision, state, modify, mbind, SE_bind, mret, SE_ret. cbn.
  destruct (rs_decision s0) as [d0|] eqn:H0; [|apply (replaced_ok c s s0 d id Hs Hd); intros ?? He; by rewrite <-Hdec in He].
  destruct d0 as [|earlier er et| | |];
    try (apply (replaced_ok c s s0 d id Hs Hd); intros ?? He; by rewrite <-Hdec in He).
  destruct d as [|later lr lt| | |]; try (by apply (replaced_ok c s s0 _ id Hs Hd)).
  destruct (ScoreVector_compare _ _) as [order|e] eqn:Hcmp; [|by apply alarmed_ok].
  destruct order; [..|by apply unverified_ok; [|congruence|]];
    apply (replaced_ok c s s0 _ id Hs Hd); intros earlier' later' He [= <-]; rewrite <-Hdec in He; injection He as <-;
    (eexists; split; [|exact Hcmp]; done).
Qed.
Lemma router_review_ok c s :
  reviewer_inv s →
  match router_review c s with (Ok answer, s') | (Err answer, s') => review_ok c s answer s' end.
Proof using.
  intros Hinv. assert (triple (reviewing s) (router_review c) (review_ok c s) (review_ok c s)) as Ht.
  2:{ specialize (Ht s (conj eq_refl (conj eq_refl Hinv))). by destruct (router_review c s) as [[]]. }
  unfold router_review. eapply (step_bind c s state _ (λ s1, rs_first_accepted_sent s1 = rs_first_accepted_sent s)).
  { intros s0 Hs. split; [done|]. by destruct Hs as (_ & ? & _). }
  intros s1 Hs1. destruct (rs_established_alarm s1) as [alarm|]; [by apply step_fail|].
  eapply step_bind; [apply step_ask|]. intros checked _. destruct checked; [|by apply step_fail].
  eapply step_bind; [apply step_ask|]. intros id _. destruct id as [id|]; [|by apply step_fail].
  eapply step_bind; [apply step_modify; intros s0; by apply callback_inert|]. intros _ _.
  eapply step_bind; [eapply step_optionally, step_ask|]. cbv beta. intros observed Hobs.
  eapply step_bind; [apply step_acceptance|]. cbv beta. intros d Hd.
  eapply step_bind; [apply step_modify, established_inert|]. intros _ _.
  eapply step_bind; [apply step_modify; intros s0; by apply callback_inert|]. intros _ _.
  eapply step_bind; [apply step_modify, accumulated_inert|]. intros _ _.
  eapply (step_bind c s state _ (λ _, True)); [by intros s0 Hs|]. intros s2 _.
  destruct (negb (is_ok _)); [by apply step_fail|].
  eapply step_bind; [eapply step_optionally, step_ask|]. intros verified _.
  eapply triple_bind; [eapply announce; [exact Hd|]|].
  - rewrite Hobs, Hs1. intros [? ?]%andb_prop. by rewrite <-negb_true_iff.
  - intros []. by eapply conclude.
Qed.

(** ** Sequences of reviews *)
Lemma start_inv : reviewer_inv RouterCandidateReviewer_start.
Proof using. by split. Qed.
Lemma candidate_review_ok c s :
  reviewer_inv s → review_ok c s (candidate_review c s).1 (candidate_review c s).2.
Proof using.
  intros Hs%(router_review_ok c). unfold candidate_review. by destruct (router_review c s) as [[]].
Qed.
Lemma after_reviews_inv calls : reviewer_inv (after_reviews calls).
Proof using.
  unfold after_reviews. generalize start_inv. generalize RouterCandidateReviewer_start.
  induction calls as [|[id c] calls IH]; intros s Hs; [done|]. cbn. apply IH. by apply candidate_review_ok.
Qed.
(** C25. Whatever the router has asked before, the reviewer holds and announces only results the
    gate accepted, announces at most one, never replaces an accepted result by a worse one, answers
    [Verified] only for the candidate whose accepted result it then holds, and answers every
    candidate with an established alarm's code without reviewing it. *)
Theorem reviewer_keeps_best calls backend_id c :
  let s := after_reviews calls in
  let s' := after_reviews (calls ++ [(backend_id, c)]) in
  (∀ result, accepted_of (rs_decision s) = Some result → accepted_by_gate result) ∧
  (length (first_accepted (rs_callbacks s)) ≤ 1)%nat ∧
  (∀ result, result ∈ first_accepted (rs_callbacks s) → accepted_by_gate result) ∧
  keeps_best s s' ∧
  (∀ matches, router_reviewer calls backend_id c = Verified matches → ∃ id result reconciliation timings,
     reviewed_as c id (AdAccepted result reconciliation timings) ∧ matches = bool_decide (reconciliation = Matched) ∧
     rs_decision s' = Some (AdAccepted result reconciliation timings)) ∧
  (∀ alarm, rs_established_alarm s = Some alarm →
     router_reviewer calls backend_id c = VerificationFailed (al_diagnostic_code alarm) ∧ s' = s).
Proof using.
  intros s s'. pose proof (after_reviews_inv calls) as Hi. fold s in Hi.
  assert (s' = (candidate_review c s).2) as Hs' by (unfold s', after_reviews; by rewrite foldl_app).
  destruct (candidate_review_ok c s Hi) as [Hv Hb _]. rewrite <-Hs' in Hv, Hb. destruct Hi as [H1 H2].
  split_and!; [done| | |done|done|].
  - destruct (rs_first_accepted_sent s); [destruct H2 as (? & -> & _); cbn; lia|rewrite H2; cbn; lia].
  - intros result. destruct (rs_first_accepted_sent s); [destruct H2 as (? & -> & ?); by intros ->%list_elem_of_singleton|].
    rewrite H2. by intros ?%elem_of_nil.
  - intros alarm Ha. rewrite Hs'. unfold router_reviewer. fold s. unfold candidate_review, router_review, state, mbind, SE_bind.
    by rewrite Ha.
Qed.

(** ** Whole solves *)
Context {Sink : Type} (emit : SolveProgressEvent → Sink → Result OutputError unit * Sink).
Context (behaviour : Z → BackendBehaviour) (parent : SolveBudgetState).
Context (serialize_options : SolveOptions → option (list Z)) (preparation : nat → nat * (nat → World)).
Context (registry : SolverRegistry) (problem : PlanningProblem) (acceptance_reserve : Z).
Context (run : UncontrolledRun) (policy : RouterPolicy) (limits : SolverApiLimits) (options : SolveOptions).
Context (worlds : nat → World) (sink : Sink).
Notation execution_of :=
  (execute emit router_reviewer behaviour parent blake3_hex serialize_problem serialize_view serialize_options preparation
     registry problem acceptance_reserve run policy limits options worlds sink).

(** C2. A solve that reports an optimal or a feasible result has one that crossed the acceptance
    gate: the selected candidate assigns every variable within its domain, and the gate accepted its
    projection, required rules, score and bindings. When it reports an optimal result, the bound the
    backend proved is the score the pack computed independently. *)
Theorem verified_solve_sound gate_run document revision objective_context execution calls :
  typed_api_limits limits → typed_projections problem →
  AcceptanceReviewer_new blake3_hex serialize_problem serialize_view serialize_document gate_run document revision problem
    objective_context = Ok acceptance →
  execution_of = Some (execution, calls) →
  let r := re_record execution in
  er_terminal_status r = StatusOptimal ∨ er_terminal_status r = StatusFeasible →
  ∃ c solution_id result reconciliation,
    er_selected_candidate r = Some c ∧ (∃ β σ, total_candidate problem (bc_values c) β σ) ∧
    accepted_properly blake3_hex serialize_view json_solution json_scope serialize_document pack acceptance c solution_id
      control document revision problem result reconciliation ∧
    (er_terminal_status r = StatusOptimal → ∃ attempt outcome,
       last (er_attempts r) = Some attempt ∧ ar_outcome attempt = Some outcome ∧
       oc_termination outcome = OptimalityClaimed ∧
       te_best_bound_values (oc_evidence outcome) = Some (sl_value <$> levels (vr_score (ac_verification result)))).
Proof using.
  intros Hl Hty Hnew Hex r Hst. destruct (routed_ends _ _ _ _ _ _ _ _ _ _ _ _ _ _ _ _ _ _ _ _ Hl Hex) as (Hiff & Hv & _).
  apply Hiff in Hst as Hr. apply Hv in Hr as (attempt & c & matches & Hlast & _ & Hsel & (before & after & _ & Hrev) & Htot & Hopt).
  destruct (candidate_review_ok c (after_reviews before) (after_reviews_inv before)) as [Hans _ _].
  destruct (Hans matches Hrev) as (id & result & reconciliation & timings & Hgate & Hm & _).
  pose proof (accepted_is_proper blake3_hex serialize_problem serialize_view json_solution json_scope json_report json_result
    serialize_document pack clock gate_worlds runs acceptance c id control gate_run document revision problem
    objective_context result reconciliation timings Hnew Hty Hgate) as Hacc.
  exists c, id, result, reconciliation. split_and!; [done..|].
  intros Ho. destruct (Hopt Ho) as [-> (outcome & candidates & objective & Hoc & _ & _ & Hcl & Hobj & Hb)].
  exists attempt, outcome. split_and!; [done..|]. rewrite Hb. f_equal. symmetry in Hm. apply bool_decide_eq_true in Hm.
  apply (ap_reconciled _ _ _ _ _ _ _ _ _ _ _ _ _ _ _ Hacc) in Hm as (o & Ho' & Hval). congruence.
Qed.
End reviewer.

(** ** The parent's clock *)
Fixpoint readings (budget : SolveBudgetState) (ws : list World) (o : ParentClockObservations) :
    list Z * ParentClockObservations :=
  match ws with
  | [] => ([], o)
  | w :: ws =>
      let '(z, o1) := parent_now_milliseconds budget w o in
      let '(zs, o2) := readings budget ws o1 in (z :: zs, o2)
  end.
Lemma as_millis_mono a b : a ≤ b → as_millis a ≤ as_millis b.
Proof. intros H. unfold as_millis. apply Z.div_le_mono; lia. Qed.
(** One trusted reading, at or after the last one. *)
Definition trusted (budget : SolveBudgetState) (w : World) (o : ParentClockObservations) (z : Z)
    (o' : ParentClockObservations) : Prop :=
  po_failed o = false ∧ ∃ e, parent_elapsed budget w = Some e ∧ z = as_millis e ∧ po_latest_elapsed o' = Some e ∧
    ∀ p, po_latest_elapsed o = Some p → p ≤ e.
Lemma parent_reading budget w o z o' :
  parent_now_milliseconds budget w o = (z, o') →
  0 ≤ z ≤ DURATION_MILLIS_MAX_V1 ∧ (po_failed o' = false → trusted budget w o z o').
Proof.
  unfold parent_now_milliseconds, observe_elapsed.
  assert (0 ≤ DURATION_MILLIS_MAX_V1 ≤ DURATION_MILLIS_MAX_V1) as Hmax by (unfold DURATION_MILLIS_MAX_V1; lia).
  destruct (parent_elapsed budget w) as [e|] eqn:He; [|by intros [= <- <-]].
  unfold representable_elapsed. destruct (checked_u64 (as_millis e)) as [m|] eqn:Hm; cbn; [|by intros [= <- <-]].
  apply checked_u64_Some in Hm as [-> Hu]. unfold DurationMillis_new.
  destruct (Z.ltb_spec DURATION_MILLIS_MAX_V1 (as_millis e)) as [|Hle]; cbn; [by intros [= <- <-]|].
  destruct (po_latest_elapsed o) as [p|] eqn:Hp; [destruct (Z.ltb_spec e p); [by intros [= <- <-]|]|];
    cbn; rewrite (proj2 (checked_u64_Some _ _) (conj eq_refl Hu)); cbn;
    (destruct (Z.ltb_spec DURATION_MILLIS_MAX_V1 (as_millis e)); [lia|]); cbn;
    intros [= <- <-]; (split; [unfold is_u64 in Hu; lia|]); intros Hf; (split; [done|]); exists e;
    (split_and!; [done..|]); intros q; rewrite Hp; [intros [= <-]; done|done].
Qed.
(** The readings of the parent's clock are durations, and unless it is marked as failed they are the
    elapsed times of the operation, in order: a clock that went backwards is always noticed. *)
Theorem parent_clock_trusted budget ws zs o :
  readings budget ws ParentVerificationClock_new = (zs, o) →
  Forall (λ z, 0 ≤ z ≤ DURATION_MILLIS_MAX_V1) zs ∧
  (po_failed o = false → Sorted.StronglySorted Z.le zs ∧
     Forall2 (λ w z, ∃ e, parent_elapsed budget w = Some e ∧ z = as_millis e) ws zs).
Proof.
  enough (∀ o0, readings budget ws o0 = (zs, o) → Forall (λ z, 0 ≤ z ≤ DURATION_MILLIS_MAX_V1) zs ∧
    (po_failed o = false → po_failed o0 = false ∧ Sorted.StronglySorted Z.le zs ∧
       Forall (λ z, ∀ p, po_latest_elapsed o0 = Some p → as_millis p ≤ z) zs ∧
       Forall2 (λ w z, ∃ e, parent_elapsed budget w = Some e ∧ z = as_millis e) ws zs)) as H.
  { intros Hr. apply H in Hr as [H1 H2]. split; [done|]. intros Hf. by destruct (H2 Hf) as (_ & ? & _ & ?). }
  revert zs. induction ws as [|w ws IH]; intros zs o0; cbn.
  { intros [= <- <-]. split; [constructor|]. intros Hf. split_and!; [done|constructor|constructor|constructor]. }
  destruct (parent_now_milliseconds budget w o0) as [z o1] eqn:Hz. destruct (readings budget ws o1) as [zs' o2] eqn:Hr.
  intros [= <- <-]. apply parent_reading in Hz as [Hb Ht]. destruct (IH _ _ Hr) as [H1 H2]. split; [by constructor|].
  intros Hf. destruct (H2 Hf) as (Hf1 & Hs & Hge & HF). destruct (Ht Hf1) as (Hf0 & e & He & -> & Hl & Hp).
  assert (Forall (Z.le (as_millis e)) zs') as Hall by (eapply Forall_impl; [exact Hge|]; cbv beta; eauto).
  split_and!; [done|by constructor| |constructor; [by exists e|done]].
  constructor; [intros p Hp'; by apply as_millis_mono, Hp|].
  eapply Forall_impl; [exact Hall|]. cbv beta. intros z Hz p Hp'. pose proof (as_millis_mono p e (Hp p Hp')). lia.
Qed.
