(* ===== verification/Witnesses.v ===== *)
(** * The theorems on concrete data

    Each property with hypotheses, applied where they hold: small token stores and budgets, short
    lists of ranges and tasks, and the sample problem and candidate of the first section. *)
From stdpp Require Import base tactics list gmap strings relations.
From Stdlib Require Import ZArith Lia Sorted.
From S2P Require Import Prelude Ordering Control Budget Ids DomainIr Model Analysis UnionFind Components.
From S2P Require Import Lexicographic Validation ValidationAgreement Bounds Provenance Scoping Admission.
From S2P Require Import Canonical CanonicalFacts Projection ProjectionFacts Evaluator.
From S2P Require Import EvaluatorFacts.
Open Scope Z_scope.

(** * Sample problems

    A small scheduling problem — one optional task on a machine of capacity one, its length traded
    against its start — with a candidate, used to exercise the development on concrete data. *)
(** A stand-in for the digest: the theorems hold for every function of the bytes. *)
Definition sample_digest (bytes_ : list Z) : string := "digest".

Definition range_of (lo hi : Z) : IntDomain := {| inclusive_ranges := [{| start := lo; end_ := hi |}] |}.
Definition sample_int (id : string) (lo hi : Z) : Variable_ :=
  VInteger {| iv_id := id; iv_domain := range_of lo hi; iv_provenance := "prov.root" |}.
Definition sample_task : IntervalVariable := {|
  itv_id := "var.task"; itv_start := "var.start"; itv_duration := "var.length"; itv_end := "var.end";
  itv_presence := Some (Literal_positive "var.active"); itv_provenance := "prov.task" |}.
Definition sample_variables : list Variable_ :=
  [VBoolean {| bv_id := "var.active"; bv_provenance := "prov.root" |};
   sample_int "var.end" 0 20; sample_int "var.length" 2 5; sample_int "var.start" 0 10;
   VInterval sample_task].
Definition term_of (id : string) (c : Z) : LinearTerm := {| lt_variable := id; lt_coefficient := c |}.
(** [2 * length + start] *)
Definition sample_expression : LinearExpression :=
  {| le_terms := [term_of "var.length" 2; term_of "var.start" 1]; le_constant := 0 |}.
Definition sample_constraint (id : string) (body : Constraint_) : ConstraintRecord :=
  {| cr_id := id; cr_body := body; cr_enforcement := []; cr_provenance := "prov.task"; cr_tags := [] |}.
Definition sample_capacity : ConstraintRecord :=
  sample_constraint "con.capacity" (Cumulative ["var.task"] [1] 1).
Definition sample_limit : ConstraintRecord :=
  sample_constraint "con.limit"
    (LinearComparison_ {| lc_expression := sample_expression; lc_op := LessOrEqual; lc_rhs := 18 |}).
Definition sample_level (id var : string) (dir : OptimizationDirection) (lo hi : Z) : ObjectiveLevel := {|
  ol_id := id; ol_direction := dir; ol_lower_bound := lo; ol_upper_bound := hi;
  ol_terms := [{| ot_id := "obj.term"; ot_expression := {| le_terms := [term_of var 1]; le_constant := 0 |};
                  ot_kind := Penalty; ot_category := "cat.time"; ot_provenance := "prov.root" |}];
  ol_provenance := "prov.root" |}.
Definition sample_levels : list ObjectiveLevel :=
  [sample_level "lvl.first" "var.start" Minimize 0 10; sample_level "lvl.second" "var.length" Maximize 2 5].
Definition sample_entity : DomainEntityRef := {| entity_kind := "kind.job"; entity_id := "job.one" |}.
Definition sample_projection (id assignment : string) (e : ProjectionExpression) : SolutionProjection := {|
  sp_id := id; sp_assignment_id := assignment; sp_entity := sample_entity; sp_required := true;
  sp_expression := e; sp_provenance := "prov.task" |}.
Definition sample_projections : list SolutionProjection :=
  [sample_projection "pro.load" "out.load" (PELinear sample_expression);
   sample_projection "pro.task" "out.task" (PEInterval "var.task")].
Definition sample_record (id : string) (parent_ : option string) : ProvenanceRecord := {|
  pr_id := id; pr_source_kind := RequiredRule; pr_source_id := "rule.one"; pr_entity_refs := [];
  pr_message_key := "message"; pr_parameters := ∅; pr_parent := parent_ |}.
Definition sample_provenance : list ProvenanceRecord :=
  [sample_record "prov.root" None; sample_record "prov.task" (Some "prov.root")].
Definition sample_problem : PlanningProblem := {|
  schema_version := PLANNING_IR_SCHEMA_VERSION;
  variables := sample_variables;
  constraints := [sample_capacity; sample_limit];
  objectives := {| op_levels := sample_levels |};
  assumptions := [{| as_id := "asm.one"; as_literal := Literal_positive "var.active";
                     as_required_rules := ["rule.one"]; as_provenance := "prov.root" |}];
  projections := sample_projections;
  provenance := sample_provenance;
  metadata := {| pm_pack_id := "pack.sample"; pm_scenario_id := "scenario"; pm_scenario_revision := 7;
                 pm_projection_version := 1; pm_compiler_id := "compiler.sample";
                 pm_compiler_version := "1"; pm_compile_metadata := ∅; pm_display_text := ∅ |};
  declared_capabilities :=
    list_to_set [CapLinearComparison; CapCumulative; CapOptionalIntervals; CapObjectivePenalty;
                 CapAssumptions; CapIntegerProjection; CapIntervalProjection];
  split_authorization := None
|}.
Definition sample_candidate : CandidateValues := {|
  booleans := {[ "var.active" := true ]};
  integers := <["var.start" := 4]> (<["var.length" := 3]> {["var.end" := 7]})
|}.
Definition sample_booleans (id : string) : bool := true.
Definition sample_integers (id : string) : Z :=
  if decide (id = "var.start") then 4 else if decide (id = "var.length") then 3 else 7.

(** Serializers that write the number of variables. *)
Definition sample_bytes (n : Z) : Bytes := {| by_chunks := [[n]]; by_complete := true |}.
Definition sample_serialize (problem : PlanningProblem) : Bytes := sample_bytes (len (variables problem)).
Definition sample_view (view : CanonicalHashProblem) : Bytes := sample_bytes (len (ch_variables view)).

(** ** Control and budgets *)
Definition two_tokens : TokenStore := (CancellationToken_child 0 (CancellationToken_new []).2).2.
Lemma two_tokens_reachable : reachable_store two_tokens.
Proof.
  eapply rtc_l; [apply (step_new [])|]. eapply rtc_l; [|apply rtc_refl]. apply step_child. cbn. lia.
Qed.
Lemma cancel_witness :
  is_cancelled (CancellationToken_cancel 0 two_tokens) 1 = true ↔
  is_cancelled two_tokens 1 = true ∨ anc two_tokens 0 1.
Proof. apply cancel_reaches_exactly_descendants; [apply two_tokens_reachable|cbn; lia]. Defined.
Definition sample_parent : SolveBudgetState := {| started_at := 0; deadline := 5000000; cancellation := 0 |}.
Definition calm_world (time : Z) : World := {| now := time; tokens := two_tokens |}.
Lemma phase_witness :
  control_check (calm_world 9000000) (Solve (phase_view (parent_phase_view sample_parent))) =
  Err DeadlineExceeded.
Proof.
  apply (phase_check_respects_parent_deadline sample_parent _ (calm_world 9000000)
    (derived_phase _ _ (derived_parent _))); [reflexivity|cbn; lia].
Defined.
Lemma interruption_witness :
  ∃ e, control_check (calm_world 9000000) (Solve (parent_phase_view sample_parent)) = Err e.
Proof.
  apply (interruption_is_permanent (calm_world 6000000) (calm_world 9000000) _ DeadlineExceeded);
    [apply reachable_wf, two_tokens_reachable|apply rtc_refl|cbn; lia|reflexivity].
Defined.
Lemma roundtrip_witness : DurationMillis_try_from (to_duration 250) = Ok 250.
Proof. apply duration_millis_roundtrip. unfold DURATION_MILLIS_MAX_V1. lia. Defined.

Definition charged_budget : PlanningPreparationBudget := (reserve_work 7 quiet_budget).2.
Lemma history_witness : accounted (charged_budget, []).
Proof.
  apply (budget_history_accounted (Cancellation 0) limits_default 0 (λ _, quiet_world));
    [cbn; lia|cbn; lia|]. eapply rtc_l; [|apply rtc_refl]. apply bs_work. lia.
Defined.
Definition one_reservation : TransientReservation := {| counter := 0; bytes := 100 |}.
Definition reserved_budget : PlanningPreparationBudget := (reserve_transient_owned 100 quiet_budget).2.
Lemma drop_witness : ∃ b', drop_reservation one_reservation reserved_budget = Some b'.
Proof.
  apply (reservation_drop_never_panics (Cancellation 0) limits_default 0 (λ _, quiet_world)
    reserved_budget [one_reservation] one_reservation 0); [cbn; lia|cbn; lia| |by left].
  eapply rtc_l; [|apply rtc_refl]. apply (bs_owned 100); [lia|]. vm_compute. reflexivity.
Defined.
Definition two_chunks : Encoding := {| enc_chunks := [100; 30]; enc_complete := true |}.
Lemma precharge_witness :
  130 = total_of id (enc_chunks two_chunks) ∧
  work (precharge_serialized two_chunks 200 quiet_budget).2 = work quiet_budget + 3.
Proof.
  destruct (precharge_counts_exactly two_chunks 200 quiet_budget 130
    (precharge_serialized two_chunks 200 quiet_budget).2) as (H1 & _ & _ & H2 & _);
    [vm_compute; reflexivity|]. split; [exact H1|]. rewrite H2. reflexivity.
Defined.
Lemma grammar_witness :
  ∃ segs, String.list_ascii_of_string "var.start" = join_dot segs ∧ (2 ≤ length segs)%nat ∧
          Forall namespace_segment segs.
Proof. apply planning_id_grammar. reflexivity. Defined.

(** ** Domains and expressions *)
Definition two_ranges : list InclusiveRange := [{| start := 5; end_ := 9 |}; {| start := 1; end_ := 4 |}].
Lemma two_ranges_i64 : Forall range_i64 two_ranges.
Proof. repeat constructor; cbn; unfold i64_min, i64_max; lia. Qed.
Lemma two_ranges_ok : Forall range_ok two_ranges.
Proof. repeat constructor; unfold range_ok; cbn; lia. Qed.
Lemma normalization_witness :
  ∃ d, IntDomain_new two_ranges = Ok d ∧ canonical_ranges (inclusive_ranges d) ∧
       ∀ v, contains d v = true ↔ ∃ r, r ∈ two_ranges ∧ start r ≤ v ≤ end_ r.
Proof. apply int_domain_normalization; [apply two_ranges_i64|done|apply two_ranges_ok]. Defined.
Lemma range_of_canonical lo hi : lo ≤ hi → canonical_ranges (inclusive_ranges (range_of lo hi)).
Proof. intros H. split; [by repeat constructor|by repeat constructor]. Qed.
Lemma range_of_i64 lo hi : is_i64 lo → is_i64 hi → Forall range_i64 (inclusive_ranges (range_of lo hi)).
Proof. intros. apply Forall_singleton. by split. Qed.
Lemma small_i64 z : -1000000 ≤ z ≤ 1000000 → is_i64 z.
Proof. unfold is_i64, i64_min, i64_max. lia. Qed.
Lemma canonical_form_witness : IntDomain_new (inclusive_ranges (range_of 1 9)) = Ok (range_of 1 9).
Proof.
  apply (int_domain_canonical_form (range_of 1 9) (range_of 1 9));
    [apply range_of_i64; apply small_i64; lia|done|apply range_of_canonical; lia|apply range_of_canonical; lia].
Defined.
Lemma expression_witness :
  expression_value (λ _, 3) sample_expression = 0 + terms_value (λ _, 3) [term_of "var.start" 1; term_of "var.length" 2].
Proof. apply linear_expression_normal_form. vm_compute. reflexivity. Defined.
Definition empty_solution : NormalizedSolution :=
  {| ns_schema_version := 1; ns_pack_id := "pack.sample"; ns_scenario_id := "scenario";
     ns_scenario_revision := 7; ns_projection_version := 1; ns_solution_id := "solution";
     ns_assignments := [] |}.
Lemma solution_witness : NormalizedSolution_canonicalize empty_solution = Ok empty_solution.
Proof. apply solution_canonicalize_spec. split; [done|done|done|constructor]. Defined.

(** ** Analysis *)
Lemma union_witness :
  ∃ res b', union_ {| parent := seq 0 4; size_ := replicate 4 1 |} 0 3 (Some quiet_budget) = (res, Some b') ∧
    work quiet_budget ≤ work b' ≤ work quiet_budget + 6 + 2 * Z.of_nat ((Nat.log2 4 + 1) / 2).
Proof.
  apply (union_work_is_logarithmic 4); [unfold u64_max; lia|apply rf_init|lia|lia].
Defined.
Lemma components_witness :
  is_partition sample_problem (components (analyze_components sample_digest sample_problem)).
Proof. apply components_are_connected_components, Z.leb_le. vm_compute. reflexivity. Defined.

Definition sample_plan : ObjectivePlan := {| op_levels := sample_levels |}.
Lemma sample_levels_ordered : Forall (λ l, ol_lower_bound l ≤ ol_upper_bound l) (op_levels sample_plan).
Proof. repeat constructor; cbn; lia. Qed.
Lemma in_sample_levels x y : 0 ≤ x ≤ 10 → 2 ≤ y ≤ 5 → Forall2 in_level (op_levels sample_plan) [x; y].
Proof. intros Hx Hy. unfold sample_plan, sample_levels. repeat constructor; cbn; lia. Qed.
Lemma scalarization_witness :
  Z.compare (scalar_value sample_levels [4; 1] [3; 5]) (scalar_value sample_levels [4; 1] [4; 2]) =
  lex_cmp sample_levels [3; 5] [4; 2].
Proof.
  apply (scalarization_is_exact sample_plan [4; 1] [3; 5] [4; 2]);
    [apply sample_levels_ordered|vm_compute; reflexivity|apply in_sample_levels; lia..].
Defined.
Lemma scores_witness :
  ScoreVector_compare (score_of sample_levels [3; 5]) (score_of sample_levels [4; 2]) =
  Ok (Z.compare (scalar_value sample_levels [4; 1] [3; 5]) (scalar_value sample_levels [4; 1] [4; 2])).
Proof.
  apply (scalarization_agrees_with_scores sample_plan [4; 1] [3; 5] [4; 2]);
    [apply sample_levels_ordered|apply (bool_decide_unpack _); vm_compute; exact I|apply Z.leb_le; reflexivity
    |vm_compute; reflexivity|apply in_sample_levels; lia..].
Defined.

(** ** Validation *)
Lemma default_limits_typed : typed_limits limits_default.
Proof. repeat split; apply Z.leb_le; reflexivity. Qed.
Lemma sample_accepted : validate sample_digest sample_problem limits_default = Ok tt.
Proof. vm_compute. reflexivity. Qed.
Lemma sample_accepted_with_budget :
  is_ok (validate_with_budget sample_digest sample_problem limits_default quiet_budget).1 = true.
Proof. vm_compute. reflexivity. Qed.
Lemma range_domain_ok lo hi : -1000000 ≤ lo ≤ hi → hi ≤ 1000000 → domain_ok (range_of lo hi).
Proof.
  intros. split; [apply range_of_canonical; lia|apply range_of_i64; apply small_i64; lia].
Qed.
Lemma equation_witness :
  (validate_interval_equation (range_of 0 10) (range_of 2 5) (range_of 0 20) 4 None).1 = Ok tt ↔
  some_sum (inclusive_ranges (range_of 0 10)) (inclusive_ranges (range_of 2 5)) (in_domain (range_of 0 20)).
Proof. apply interval_equation_exact; apply range_domain_ok; lia. Defined.
Definition sample_ints : gmap string IntDomain := int_domains sample_problem.
Lemma sample_ints_ok : ints_ok sample_ints.
Proof. apply (validate_admits _ _ _ default_limits_typed sample_accepted). Qed.
Lemma bounds_witness : ∃ σ, respects sample_ints σ ∧ expression_value σ sample_expression = 20.
Proof.
  apply (expression_bounds_exact sample_expression sample_ints limits_default "here" None None 4 20);
    [apply small_i64; cbn; lia|apply sample_ints_ok|vm_compute; reflexivity].
Defined.
Lemma chains_witness :
  (∃ completed,
     fold_m (validate_provenance_record limits_default sample_provenance)
       (replicate (length sample_provenance) None) sample_provenance None = (Ok completed, None)) ↔
  Forall (λ r, validate_record_fields limits_default r None = (Ok tt, None)) sample_provenance ∧
  chains_bounded (max_provenance_depth limits_default) sample_provenance.
Proof. apply provenance_chains_exact; [reflexivity|]. split; apply Z.leb_le; reflexivity. Defined.
Lemma coverage_witness :
  validate_provenance_coverage sample_problem None = (Ok tt, None) ↔
  ∀ id, in_use sample_provenance (.∈ named_ids sample_problem) id ↔ id ∈ pr_id <$> sample_provenance.
Proof. apply (provenance_coverage_exact sample_problem). reflexivity. Defined.
Lemma coverage_holds : validate_provenance_coverage sample_problem None = (Ok tt, None).
Proof. vm_compute. reflexivity. Qed.

(** ** Accepted problems *)
Lemma sample_respects : respects (int_domains sample_problem) sample_integers.
Proof.
  intros id d Hd. unfold int_domains in Hd. cbn in Hd. rewrite !lookup_insert_Some in Hd.
  destruct Hd as [[<- <-]|[_ [[<- <-]|[_ [[<- <-]|[_ Hd]]]]]]; [reflexivity..|]. by rewrite lookup_empty in Hd.
Qed.
Lemma accepted_scalarization_witness :
  let ls := op_levels (objectives sample_problem) in
  ScoreVector_compare (score_of ls (level_value sample_integers <$> ls))
    (score_of ls (level_value sample_integers <$> ls)) =
  Ok (Z.compare (scalar_value ls [4; 1] (level_value sample_integers <$> ls))
                (scalar_value ls [4; 1] (level_value sample_integers <$> ls))).
Proof.
  apply (accepted_scalarization_is_exact sample_digest sample_problem limits_default [4; 1] sample_integers
    sample_integers); [apply default_limits_typed|apply Z.leb_le; reflexivity|apply sample_accepted|vm_compute; reflexivity
    |apply sample_respects..].
Defined.
Lemma sample_canonical :
  canonicalize sample_problem =
  Ok (set_capabilities (required_capabilities (feature_usage sample_problem)) sample_problem).
Proof.
  eapply canonicalize_admitted, (validate_admits _ _ _ default_limits_typed sample_accepted).
Qed.
Lemma canonical_witness :
  canonicalize sample_problem =
  Ok (set_capabilities (required_capabilities (feature_usage sample_problem)) sample_problem).
Proof.
  apply (canonicalize_accepted_is_identity sample_digest _ limits_default);
    [apply default_limits_typed|apply sample_accepted].
Defined.
Lemma hash_witness :
  let plain := canonical_ir_hash sample_digest sample_serialize sample_view sample_problem limits_default quiet_budget in
  let budgeted := canonical_ir_hash_with_budget sample_digest sample_serialize sample_view sample_problem
                    limits_default quiet_budget in
  ∃ h h', plain.1 = Ok h ∧ budgeted.1 = Ok h' ∧ h = h'.
Proof.
  intros plain budgeted. exists "digest", "digest". split_and!; [vm_compute; reflexivity..|].
  apply (canonical_hash_is_semantic sample_digest sample_serialize sample_view sample_problem sample_problem
    limits_default quiet_budget plain.2 "digest" quiet_budget budgeted.2 "digest");
    [apply default_limits_typed|reflexivity|vm_compute; reflexivity|vm_compute; reflexivity].
Defined.
Definition sample_fingerprint : SolveFingerprintInput := {|
  sf_canonical_ir_hash := "hash"; sf_backend_id := "backend"; sf_backend_version := "1";
  sf_adapter_version := "2"; sf_canonical_options := [7] |}.
Lemma fingerprint_witness : sample_fingerprint = sample_fingerprint.
Proof.
  apply fingerprint_preimage_injective; [repeat split; apply Z.leb_le; reflexivity..|reflexivity].
Defined.
Lemma idempotent_witness :
  ∃ c, canonicalize sample_problem = Ok c ∧ canonicalize c = Ok c.
Proof.
  eexists. split; [apply sample_canonical|].
  apply (canonicalize_idempotent sample_problem); [|apply sample_canonical].
  repeat constructor; apply Z.leb_le; reflexivity.
Defined.
Definition shuffled_problem : PlanningProblem := {|
  schema_version := schema_version sample_problem; variables := reverse (variables sample_problem);
  constraints := reverse (constraints sample_problem); objectives := objectives sample_problem;
  assumptions := assumptions sample_problem; projections := reverse (projections sample_problem);
  provenance := reverse (provenance sample_problem); metadata := metadata sample_problem;
  declared_capabilities := ∅; split_authorization := None |}.
Lemma shuffled_reordered : reordered sample_problem shuffled_problem.
Proof. split; cbn [variables constraints assumptions projections provenance shuffled_problem]; try done; by rewrite reverse_Permutation. Qed.
Lemma order_witness :
  canonicalize shuffled_problem =
  Ok (set_capabilities (required_capabilities (feature_usage sample_problem)) sample_problem).
Proof.
  apply (canonical_form_is_order_insensitive sample_problem); [apply shuffled_reordered| |apply sample_canonical].
  repeat split; apply (bool_decide_unpack _); vm_compute; exact I.
Defined.

(** ** Candidates *)
Lemma sample_projections_typed : typed_projections sample_problem.
Proof. repeat constructor. Qed.
Lemma projection_witness :
  is_ok (project_candidate sample_digest sample_problem sample_candidate "solution" limits_default) = true ∧
  match project_candidate sample_digest sample_problem sample_candidate "solution" limits_default with
  | Ok s => fits sample_problem sample_candidate ∧ canonical_solution s ∧
      ∃ l, s = solution_of sample_problem "solution" l ∧
           Forall2 (assigns sample_problem sample_candidate) (projections sample_problem) l
  | Err e => fault sample_problem sample_candidate e ∨
      fits sample_problem sample_candidate ∧ revision_too_large sample_problem e
  end.
Proof.
  split; [vm_compute; reflexivity|].
  apply projection_is_faithful; [apply default_limits_typed|apply sample_projections_typed|apply sample_accepted].
Defined.
(** The sample at the first revision that does not fit in a normalized solution: it is accepted, and its
    projection refused. *)
Definition late_problem : PlanningProblem :=
  let meta := metadata sample_problem in {|
  schema_version := schema_version sample_problem; variables := variables sample_problem;
  constraints := constraints sample_problem; objectives := objectives sample_problem;
  assumptions := assumptions sample_problem; projections := projections sample_problem;
  provenance := provenance sample_problem;
  metadata := {| pm_pack_id := pm_pack_id meta; pm_scenario_id := pm_scenario_id meta;
    pm_scenario_revision := REVISION_MAX_V1 + 1; pm_projection_version := pm_projection_version meta;
    pm_compiler_id := pm_compiler_id meta; pm_compiler_version := pm_compiler_version meta;
    pm_compile_metadata := pm_compile_metadata meta; pm_display_text := pm_display_text meta |};
  declared_capabilities := declared_capabilities sample_problem;
  split_authorization := split_authorization sample_problem |}.
Lemma late_revision_refused :
  validate sample_digest late_problem limits_default = Ok tt ∧
  project_candidate sample_digest late_problem sample_candidate "solution" limits_default
  = Err (DomainContract (LimitExceeded "scenario revision")).
Proof. split; vm_compute; reflexivity. Qed.
Lemma sample_total : total_candidate sample_problem sample_candidate sample_booleans sample_integers.
Proof.
  split; [|intros id [d Hd]|apply sample_respects].
  - intros id Hid. unfold bool_ids in Hid. cbn in Hid. assert (id = "var.active") as -> by set_solver. reflexivity.
  - unfold int_domains in Hd. cbn in Hd. rewrite !lookup_insert_Some in Hd.
    destruct Hd as [[<- _]|[_ [[<- _]|[_ [[<- _]|[_ Hd]]]]]]; [reflexivity..|]. by rewrite lookup_empty in Hd.
Qed.
Lemma evaluator_witness :
  match evaluate_record sample_capacity sample_problem sample_candidate with
  | Ok b => b = true ↔ record_holds sample_problem sample_booleans sample_integers sample_capacity ∧
                       ¬ pinched sample_problem sample_booleans sample_integers sample_capacity
  | Err e => ∃ id, e = InvalidInterval_ id ∧ incoherent sample_problem sample_booleans sample_integers id
  end.
Proof.
  apply (evaluator_decides_constraints sample_digest _ limits_default);
    [apply default_limits_typed|apply sample_accepted|apply sample_total|by left].
Defined.
(** An empty interval at five inside one from zero to ten, on one machine: they share no instant, and the
    evaluator refuses them. *)
Definition fixed_interval (id start_ duration end_ : string) : Variable_ :=
  VInterval {| itv_id := id; itv_start := start_; itv_duration := duration; itv_end := end_; itv_presence := None;
               itv_provenance := "prov.task" |}.
Definition machine : ConstraintRecord := sample_constraint "con.machine" (NoOverlap ["itv.point"; "itv.span"]).
Definition point_problem : PlanningProblem := {|
  schema_version := PLANNING_IR_SCHEMA_VERSION;
  variables := [fixed_interval "itv.point" "var.five" "var.zero" "var.five";
                fixed_interval "itv.span" "var.zero" "var.ten" "var.ten";
                sample_int "var.five" 5 5; sample_int "var.ten" 10 10; sample_int "var.zero" 0 0];
  constraints := [machine];
  objectives := {| op_levels := [] |}; assumptions := [];
  projections := [sample_projection "pro.point" "out.point" (PEInterval "itv.point")];
  provenance := sample_provenance; metadata := metadata sample_problem;
  declared_capabilities := list_to_set [CapNoOverlap; CapIntervalProjection];
  split_authorization := None |}.
Definition point_values (id : string) : Z := if decide (id = "var.five") then 5 else if decide (id = "var.ten") then 10 else 0.
Definition point_candidate : CandidateValues := {|
  booleans := ∅; integers := <["var.five" := 5]> (<["var.ten" := 10]> {["var.zero" := 0]}) |}.
Lemma empty_interval_refused :
  validate sample_digest point_problem limits_default = Ok tt ∧
  evaluate_record machine point_problem point_candidate = Ok false ∧
  record_holds point_problem sample_booleans point_values machine ∧ pinched point_problem sample_booleans point_values machine.
Proof.
  assert (tasks point_problem sample_booleans point_values ((., 0) <$> ["itv.point"; "itv.span"]) = [(5, 5, 0); (0, 10, 0)])
    as Ht by (vm_compute; reflexivity).
  split_and!; [vm_compute; reflexivity..| |]; unfold record_holds, pinched; cbn [machine sample_constraint cr_body cr_enforcement
    constraint_holds pinched_body]; rewrite Ht.
  - intros _ [|[|i]] [|[|j]] x y instant Hij Hx Hy; try done; simplify_eq/=; unfold covers; cbn; lia.
  - split; [constructor|]. exists 0%nat, 1%nat, (5, 5, 0), (0, 10, 0). split_and!; (done || lia).
Qed.
Definition two_tasks : list (Z * Z * Z) := [(0, 5, 2); (3, 8, 1)].
Lemma cumulative_witness :
  Forall (λ t, load two_tasks t ≤ 3) [0; 3] ↔ ∀ t, load two_tasks t ≤ 3.
Proof.
  apply (cumulative_starts_suffice two_tasks 3 [0; 3]);
    [lia|repeat constructor; cbn; lia|unfold i64_max; cbn; lia|cbn; set_solver].
Defined.

(** ** Explanations *)
(** A conflict of two groups one of which suffices, a full deletion pass over it, and the core of the
    sample problem. *)
From S2P Require Import Conflict ConflictFacts AssumptionFacts.
(** ** A deletion pass *)
Definition first_group : ConflictGroupV1 := {| group_id := "group.a"; required_rules := ["rule.a"] |}.
Definition second_group : ConflictGroupV1 := {| group_id := "group.b"; required_rules := ["rule.b"] |}.
Definition needs_second (groups : list ConflictGroupV1) : Prop := second_group ∈ groups.
#[global] Instance needs_second_monotone : Monotone needs_second.
Proof. intros l k Hsub Hl. by apply Hsub. Qed.
Definition pass_budget : SolveBudgetView :=
  parent_phase_view {| started_at := 0; deadline := 5000000; cancellation := 0 |}.
Definition pass_world : World := {| now := 1; tokens := (CancellationToken_new []).2 |}.
Definition fresh_pass : ConflictShrinker := {|
  remaining := [first_group; second_group]; pending := None; initial_group_count := 2;
  attempted_trials := 0; max_trials := 8; index := 0; budget := pass_budget; stop_reason := None;
  foundational := false |}.
Definition second_only : ConflictShrinkSummaryV1 := {|
  cs_initial_group_count := 2; cs_remaining_group_count := 1; cs_attempted_trials := 2;
  cs_max_trials := 8; cs_stop_reason := StopCompleted |}.
Definition finished_pass : ConflictShrinker := {|
  remaining := [second_group]; pending := None; initial_group_count := 2;
  attempted_trials := 2; max_trials := 8; index := 1; budget := pass_budget;
  stop_reason := Some StopCompleted; foundational := false |}.
Definition minimal_evidence : InfeasibilityEvidenceV1 := Conflict [second_group] ProvenMinimal second_only.
(** Drop the first group (still infeasible), try to drop the second (feasible), finish. *)
Lemma shrink_witness :
  InfeasibilityEvidenceV1_validate minimal_evidence = Ok tt ∧
  [second_group] `sublist_of` [first_group; second_group] ∧ needs_second [second_group].
Proof.
  destruct (shrink_evidence_sound needs_second [first_group; second_group] 8 pass_budget fresh_pass finished_pass
    minimal_evidence)
    as (Hv & Hsub & Hinf & _).
  - lia.
  - vm_compute. reflexivity.
  - right. by left.
  - eapply rtc_l; [eapply (step_next _ pass_world); vm_compute; reflexivity|].
    eapply rtc_l; [eapply (step_complete _ pass_world TrialInfeasible); [by left|vm_compute; reflexivity]|].
    eapply rtc_l; [eapply (step_next _ pass_world); vm_compute; reflexivity|].
    eapply rtc_l; [eapply (step_complete _ pass_world TrialFeasible); [by intros ?%elem_of_nil|vm_compute; reflexivity]|].
    apply rtc_refl.
  - vm_compute. reflexivity.
  - by split_and!.
Defined.
Definition still_needs_second (groups : list ConflictGroupV1) : bool := bool_decide (second_group ∈ groups).
Lemma pass_witness :
  drive 3 (λ _, pass_world) (λ _, pass_world) (λ _, conclusive still_needs_second) 0 fresh_pass
  = Some (Ok minimal_evidence).
Proof.
  apply (shrink_pass_returns [first_group; second_group] 8 pass_budget fresh_pass
    (λ _, pass_world) (λ _, pass_world) (λ _ _, TrialInconclusive) 3);
    [lia|vm_compute; reflexivity|vm_compute; reflexivity|vm_compute; congruence|by intros k; vm_compute..].
Defined.

(** ** Mapping a core *)
Definition core_literals : list Literal := [Literal_positive "var.active"].
Definition core_groups : list ConflictGroupV1 := [{| group_id := "asm.one"; required_rules := ["rule.one"] |}].
Lemma core_maps : map_assumption_literals sample_digest sample_problem core_literals limits_default = Ok core_groups.
Proof. vm_compute. reflexivity. Qed.
Lemma mapping_witness :
  validate sample_digest sample_problem limits_default = Ok tt ∧ NoDup core_literals ∧
  core_groups = assumption_group <$> filter (λ a, as_literal a ∈ core_literals) (assumptions sample_problem) ∧
  length core_groups = length core_literals ∧
  (∀ max b, ∃ s, ConflictShrinker_new core_groups max b = Ok s).
Proof.
  assert (typed_limits limits_default) as Ht by (vm_compute; repeat split; congruence).
  pose proof (mapped_core_characterized sample_digest sample_problem core_literals limits_default
    Ht ltac:(vm_compute; congruence) ltac:(vm_compute; congruence)) as Hm.
  rewrite core_maps in Hm. exact Hm.
Defined.
Definition whole_encoding (problem : PlanningProblem) : Encoding := {| enc_chunks := [100]; enc_complete := true |}.
Lemma mapping_budget_witness :
  match map_assumption_literals_with_budget sample_digest whole_encoding sample_problem core_literals limits_default
          quiet_budget with
  | (Ok mapped, b') => mg_groups mapped = core_groups ∧ transient_bytes b' = transient_bytes quiet_budget + mg_transient_bytes mapped
  | (Err _, _) => False
  end.
Proof.
  pose proof (budgeted_mapping_balanced sample_digest whole_encoding sample_problem core_literals limits_default
    quiet_budget ltac:(vm_compute; split; congruence) ltac:(vm_compute; split; congruence)) as Hb.
  rewrite core_maps in Hb.
  destruct (map_assumption_literals_with_budget _ _ _ _ _ _) as [[mapped|e] b'] eqn:Hm.
  - destruct Hb as (Hg & Ht & _). split; [by injection Hg|exact Ht].
  - vm_compute in Hm. discriminate Hm.
Defined.
