(* ===== verification/ProtocolWitnesses.v ===== *)
(** * The protocol theorems on concrete data

    Small payloads, a stream in pieces, an encoder, a whole session and a burst of diagnostics. *)
From stdpp Require Import base tactics list gmap strings.
From Stdlib Require Import ZArith Lia.
From S2P Require Import Prelude Ordering Protocol Strict Frame VarintFacts StrictFacts FrameFacts.
From S2P Require Import Session SessionFacts Stderr.
Open Scope Z_scope.

Lemma bytes_of (l : list Z) : forallb (λ b, (0 <=? b) && (b <? 256)) l = true → Forall is_byte l.
Proof.
  rewrite forallb_forall. intros H. apply Forall_forall. intros b Hb%list_elem_of_In.
  specialize (H b Hb). apply andb_true_iff in H as [?%Z.leb_le ?%Z.ltb_lt]. by split.
Qed.

(** ** Varints and strict validation *)
Lemma varint_witness : parse_varint [172; 2] 0 = Ok (300, 2).
Proof.
  apply varint_parsed_iff_written; [by apply bytes_of|lia|vm_compute; congruence|].
  split; [split; vm_compute; congruence|]. split; vm_compute; reflexivity.
Defined.
Definition sample_field (name : string) (label : Label) (kind : Type_) : FieldSchema := {|
  fs_name := name; fs_full_name := String.append "sample.Message." name; fs_label := label; fs_kind := kind;
  fs_type_name := None; fs_oneof := None |}.
Definition sample_schema : WireSchema := {|
  messages := {[ "sample.Message" := {|
    ms_fields := {[ 1 := sample_field "count" LabelOptional TUint32; 2 := sample_field "name" LabelOptional TString;
                    3 := sample_field "items" LabelRepeated TUint64 ]};
    ms_reserved_ranges := [(9, 11)] |} ]};
  enums := ∅ |}.
(** A count, a name, two packed items and an unknown field. *)
Definition sample_payload : list Z := [8; 5; 18; 2; 104; 105; 26; 3; 172; 2; 1; 32; 7].
Lemma strict_witness : conforms sample_schema POLICY_JSON_VALUE (Z.to_nat (max_nesting_depth POLICY_JSON_VALUE))
  "sample.Message" sample_payload.
Proof.
  apply strict_validation_sound; [by apply bytes_of|vm_compute; congruence|vm_compute; reflexivity].
Defined.

(** ** Frames *)
(** A frame of two bytes and the first byte of the next, in pieces, with an interruption. *)
Definition sample_reader : list ReadEvent :=
  [Chunk [0; 0]; ReadError Interrupted; Chunk [0; 2; 7]; Chunk [9; 1]].
Lemma read_witness :
  ∃ reader', read_frame (λ _, true) Handshake POLICY_JSON_VALUE sample_reader = (Ok (Some [7; 9]), reader') ∧
    stream reader' = [1].
Proof.
  destruct (read_frame_is_inspect_frame (λ _, true) Handshake POLICY_JSON_VALUE sample_reader)
    as (reader' & Hr & Hc).
  - repeat constructor; done.
  - by apply bytes_of.
  - done.
  - exists reader'. split; [rewrite Hr; vm_compute; reflexivity|].
    apply (Hc {| payload := [7; 9]; remainder := [1] |}). vm_compute. reflexivity.
Defined.
Definition sample_message : Message := {| encoded_len := 2; encode := Ok [8; 1] |}.
#[global] Instance sample_encoder : SolveEncoder := {|
  parameters_message _ := sample_message; projection_message _ := sample_message;
  limits_message _ := sample_message; solve_encoded_len _ := 55 |}.
#[global] Instance sample_encoder_lawful : LawfulEncoder.
Proof. by apply (Build_LawfulEncoder _ (λ _, [8; 1]) (λ _, [8; 1]) (λ _, [8; 1])). Defined.
Definition zeros : list Z := repeat 0 32.
Definition sample_request : SolveRequest := {|
  sq_request_id := "r1"; sq_cp_model_proto := [1; 2; 3];
  sq_parameters := Some {| pm_random_seed := None; pm_stop_after_first_feasible := None;
    pm_emit_intermediate_solutions := None; pm_log_search_progress := None;
    pm_deterministic_test_profile := None |};
  sq_projections := [{| pq_projection_id := 4; pq_cp_sat_variable_index := 0 |}];
  sq_resource_limits := Some {| rl_wall_time_millis := 1000; rl_memory_bytes := None; rl_worker_threads := 1 |};
  sq_model_fingerprint := zeros |}.
Definition empty_writer : Writer := {| written := []; outcomes := [] |}.
Lemma frames_witness :
  inspect_frame ([0; 0; 0; 2; 8; 1] ++ [5]) Handshake POLICY_JSON_VALUE
  = Ok {| payload := [8; 1]; remainder := [5] |} ∧
  written (write_solve_request_frame (λ _, true) sample_request POLICY_JSON_VALUE empty_writer).2
  = solve_frame sample_request.
Proof.
  destruct (frames_read_back (λ _, true) sample_message [8; 1] Handshake POLICY_JSON_VALUE sample_request
    empty_writer [5] ltac:(done)) as [Hread Hwrite].
  split; [apply Hread; vm_compute; reflexivity|].
  destruct (write_solve_request_frame (λ _, true) sample_request POLICY_JSON_VALUE empty_writer) as [[[]|e] w] eqn:Hw.
  - destruct Hwrite as [Hwrite _]. exact Hwrite.
  - vm_compute in Hw. discriminate Hw.
Defined.

(** ** A session *)
Definition no_hash (bytes : list Z) : list Z := zeros.
Definition any_version (version : string) : bool := true.
Definition sample_expectations : HandshakeExpectations := {|
  ex_protocol_major := protocol_major POLICY_JSON_VALUE; ex_protocol_minor := protocol_minor POLICY_JSON_VALUE;
  ex_worker_identity := "worker"; ex_worker_version := "1.0.0"; ex_backend_id := "ortools";
  ex_ortools_version := "9.0.0"; ex_adapter_version := "1.0.0"; ex_manifest_sha256 := zeros;
  ex_required_capabilities := list_to_set [1; 4]; ex_expected_advertised_capabilities := list_to_set [1; 4] |}.
Definition sample_handshake : ParentFrame := {| parent_body := Some (ParentHandshakeRequest {|
  hq_protocol_major := protocol_major POLICY_JSON_VALUE; hq_protocol_minor := protocol_minor POLICY_JSON_VALUE;
  hq_core_version := "1.0.0"; hq_expected_backend_id := "ortools"; hq_required_capabilities := [1; 4];
  hq_expected_manifest_sha256 := zeros |}) |}.
Definition sample_success : WorkerFrame := {| worker_body := Some (WorkerHandshakeResponse {|
  outcome := Some (Success {|
    hs_protocol_major := protocol_major POLICY_JSON_VALUE; hs_protocol_minor := protocol_minor POLICY_JSON_VALUE;
    hs_worker_identity := "worker"; hs_worker_version := "1.0.0"; hs_backend_id := "ortools";
    hs_ortools_version := "9.0.0"; hs_adapter_version := "1.0.0"; hs_manifest_sha256 := zeros;
    hs_capabilities := [1; 4] |}) |}) |}.
Definition sample_finished : Finished := {|
  fn_request_id := "r1"; fn_raw_cp_sat_status := 4; fn_status := 1; fn_termination_reason := 1;
  fn_final_candidate := Some {| values := [{| pv_projection_id := 4; pv_value := 7 |}] |};
  fn_objective_values := []; fn_best_bound_values := []; fn_wall_time_seconds := None;
  fn_user_time_seconds := None; fn_deterministic_time := None; fn_conflicts := None; fn_branches := None;
  fn_binary_propagations := None; fn_integer_propagations := None; fn_sufficient_assumptions := [];
  fn_applied_parameters_sha256 := zeros; fn_model_fingerprint := zeros |}.
Definition sample_terminal : WorkerFrame := {| worker_body := Some (WorkerFinished sample_finished) |}.
Definition sample_session : list SessionEvent :=
  [EvParent sample_handshake; EvWorker sample_success;
   EvParent {| parent_body := Some (ParentSolveRequest sample_request) |}; EvTighten 900;
   EvWorker {| worker_body := Some (WorkerStarted {| sd_request_id := "r1"; sd_model_fingerprint := zeros |}) |};
   EvWorker sample_terminal; EvEof; EvExit 0].
Lemma session_witness :
  ∃ frame solve,
    EvParent frame ∈ sample_session ∧ parent_body frame = Some (ParentSolveRequest solve) ∧
    fn_request_id sample_finished = sq_request_id solve ∧
    (∀ candidate, fn_final_candidate sample_finished = Some candidate →
       pv_projection_id <$> values candidate ≡ₚ pq_projection_id <$> sq_projections solve).
Proof.
  destruct (finished_evidence_correlated no_hash any_version sample_expectations sample_session
    {| terminal_frame := sample_terminal |} sample_finished)
    as (frame & solve & requested & millis & Hin & Hbody & Hid & _ & _ & _ & _ & _ & Hcand & _).
  - vm_compute. reflexivity.
  - reflexivity.
  - exists frame, solve. split_and!; [exact Hin|exact Hbody|exact Hid|]. intros c Hc. apply Hcand. exact Hc.
Defined.
Definition sample_parameters (seed : Z) : NormalizedAppliedParameters := {|
  wall_time_millis := 1000; worker_threads := 1; random_seed := seed; stop_after_first_feasible := false;
  emit_intermediate_solutions := false; log_search_progress := false; deterministic_test_profile := false |}.
Lemma preimage_witness :
  length (applied_parameters_preimage (sample_parameters 1)) = 56%nat ∧
  (applied_parameters_preimage (sample_parameters 1) = applied_parameters_preimage (sample_parameters (-1)) →
   sample_parameters 1 = sample_parameters (-1)).
Proof. apply applied_parameters_preimage_injective; split; cbn; lia. Defined.

(** ** Diagnostics *)
(** Two pushes that overflow a ceiling of 24 bytes, with an escape and a truncated sequence in them. *)
Definition sample_chunks : list (list Z) := [as_bytes "a long message "; [27; 91; 195]; as_bytes "and more of it"].
Definition fresh_stderr : BoundedStderr := {| retained := []; stderr_max := 24; truncated := false |}.
Lemma stderr_witness :
  let s := fold_left (λ s bytes, push bytes s) sample_chunks fresh_stderr in
  truncated s = true ∧ len (retained s) ≤ 24.
Proof.
  destruct (stderr_accumulates 24 fresh_stderr sample_chunks) as (_ & Ht & Hle & _).
  - vm_compute. reflexivity.
  - vm_compute. reflexivity.
  - split; [apply Ht; vm_compute; reflexivity|exact Hle].
Defined.
