(* ===== verification/SolverWitnesses.v ===== *)
(** * The solver boundary on concrete data

    A problem without intervals, its native model and a decoded candidate; a completed session, a reported bound, a recorder, a dispatch budget and a sink with one candidate. *)
From stdpp Require Import base tactics list gmap strings.
From Stdlib Require Import ZArith Lia.
From S2P Require Import Prelude Ordering Protocol Control Budget Ids DomainIr Model Analysis.
From S2P Require Import Validation Bounds Scoping Admission Canonical Projection Evaluator EvaluatorFacts Session.
From S2P Require Import Translation TranslationFacts TranslationExact CandidateFacts.
From S2P Require Import SolverApi Adapter AdapterFacts SolverApiFacts.
From S2P Require Import Witnesses ProtocolWitnesses.
Open Scope Z_scope.

(** ** Translation *)
Definition scalar_expression : LinearExpression :=
  {| le_terms := [term_of "var.length" 2; term_of "var.start" 1]; le_constant := 1 |}.
Definition scalar_constraints : list ConstraintRecord :=
  [{| cr_id := "con.choice"; cr_body := AtMostOne [Literal_positive "var.active"; Literal_positive "var.idle"];
      cr_enforcement := [Literal_positive "var.active"]; cr_provenance := "prov.task"; cr_tags := [] |};
   sample_constraint "con.gap" (AbsDifference "var.length" "var.end" "var.start");
   sample_constraint "con.limit"
     (LinearComparison_ {| lc_expression := scalar_expression; lc_op := LessOrEqual; lc_rhs := 18 |})].
Definition scalar_problem : PlanningProblem := {|
  schema_version := PLANNING_IR_SCHEMA_VERSION;
  variables := [VBoolean {| bv_id := "var.active"; bv_provenance := "prov.root" |};
                sample_int "var.end" 0 20;
                VBoolean {| bv_id := "var.idle"; bv_provenance := "prov.root" |};
                sample_int "var.length" 2 5; sample_int "var.start" 0 10];
  constraints := scalar_constraints;
  objectives := {| op_levels := sample_levels |};
  assumptions := assumptions sample_problem;
  projections := [sample_projection "pro.load" "out.load" (PELinear sample_expression)];
  provenance := sample_provenance;
  metadata := metadata sample_problem;
  declared_capabilities :=
    list_to_set [CapAtMostOne; CapAbsDifference; CapLinearComparison; CapObjectivePenalty; CapAssumptions;
                 CapIntegerProjection];
  split_authorization := None
|}.
Definition scalar_booleans (id : string) : bool := bool_decide (id = "var.active").
(** A stand-in for the message encoder: the theorems hold for every function of the model. *)
Definition sample_encode (model : CpModelProto) : list Z :=
  [len (cm_variables model); len (cm_constraints model)].
Notation scalar_translation := (translate_supported_model sample_digest sample_encode scalar_problem limits_default).

Lemma is_ok_exists {E A} (r : Result E A) : (match r with Ok _ => true | Err _ => false end) = true → ∃ a, r = Ok a.
Proof. destruct r as [a|]; [by exists a|done]. Qed.
Lemma scalar_translates : ∃ translated, scalar_translation = Ok translated.
Proof. apply is_ok_exists. vm_compute. reflexivity. Qed.
Lemma scalar_respects : respects (int_domains scalar_problem) sample_integers.
Proof.
  intros id d Hd. unfold int_domains in Hd. cbn in Hd. rewrite !lookup_insert_Some in Hd.
  destruct Hd as [[<- <-]|[_ [[<- <-]|[_ [[<- <-]|[_ Hd]]]]]]; [reflexivity..|]. by rewrite lookup_empty in Hd.
Qed.
Lemma scalar_feasible : feasible scalar_problem scalar_booleans sample_integers.
Proof.
  split; [apply scalar_respects| |].
  - repeat apply Forall_cons_2; [| | |done].
    + intros _. apply Nat.leb_le. reflexivity.
    + intros _. reflexivity.
    + intros _. cbn. apply Z.leb_le. reflexivity.
  - repeat apply Forall_cons_2; [reflexivity|done].
Qed.
Lemma translation_witness :
  ∃ translated model, scalar_translation = Ok translated ∧ cp_model_proto translated = sample_encode model ∧
    is_solution model [1; 1; 7; 0; 3; 4] = true.
Proof.
  destruct scalar_translates as [t H].
  destruct (translation_is_exact sample_digest sample_encode scalar_problem limits_default t)
    as (model & He & Hsol & _); [apply default_limits_typed|apply Z.leb_le; reflexivity|exact H|].
  exists t, model. split_and!; [exact H|exact He|]. apply Hsol.
  exists scalar_booleans, sample_integers. split; [apply scalar_feasible|vm_compute; reflexivity].
Defined.
Lemma decoding_witness :
  ∃ translated, scalar_translation = Ok translated ∧
    decode_projected_candidate translated
      {| values := requested_values translated (native_values scalar_problem scalar_booleans sample_integers) |} =
    Ok {| dc_values := candidate_of scalar_problem scalar_booleans sample_integers; dc_objective_values := [4; 3] |}.
Proof.
  destruct scalar_translates as [t H].
  exists t. split; [exact H|].
  apply (candidate_decoding_exact sample_digest sample_encode scalar_problem limits_default t);
    [apply default_limits_typed|exact H|].
  exists scalar_booleans, sample_integers. split_and!; [apply scalar_respects|done|reflexivity].
Defined.

(** ** Sessions *)
Lemma terminal_witness :
  normalize_terminal (CompletedSolve {| terminal_frame := sample_terminal |}) ≠
    TerminalBackendFailed FailureProtocolInvariant false ∧
  (normalize_terminal (CompletedSolve {| terminal_frame := sample_terminal |}) = TerminalInfeasible ↔
   fn_raw_cp_sat_status sample_finished = 3).
Proof.
  destruct (terminal_classification_exact no_hash any_version sample_expectations sample_session
    (CompletedSolve {| terminal_frame := sample_terminal |})) as [Hinv Hrest]; [vm_compute; reflexivity|].
  split; [apply Hinv|]. apply (Hrest {| terminal_frame := sample_terminal |} sample_finished eq_refl eq_refl).
Defined.

(** ** Bounds *)
Definition single_problem : PlanningProblem := {|
  schema_version := schema_version scalar_problem; variables := variables scalar_problem;
  constraints := constraints scalar_problem;
  objectives := {| op_levels := [sample_level "lvl.first" "var.start" Minimize 0 10] |};
  assumptions := assumptions scalar_problem; projections := projections scalar_problem;
  provenance := provenance scalar_problem; metadata := metadata scalar_problem;
  declared_capabilities := declared_capabilities scalar_problem; split_authorization := None |}.
Notation single_translation := (translate_supported_model sample_digest sample_encode single_problem limits_default).
(** A bound of zero. *)
Definition sample_progress : Progress := {|
  pg_request_id := "request"; pg_kind := 3; pg_objective_values := []; pg_best_bound_values := [0];
  pg_wall_time_seconds := None; pg_deterministic_time := None |}.
Lemma is_ok_with {E A} (r : Result E A) (P : A → bool) :
  (match r with Ok a => P a | Err _ => false end) = true → ∃ a, r = Ok a ∧ P a = true.
Proof. destruct r as [a|]; [by exists a|done]. Qed.
Lemma single_translates : ∃ translated summary, single_translation = Ok translated ∧
  bound_progress translated sample_progress 5 = Ok (Some (EvBoundImproved summary)).
Proof.
  destruct (is_ok_with single_translation (λ t, match bound_progress t sample_progress 5 with
    | Ok (Some (EvBoundImproved _)) => true | _ => false end)) as (t & Ht & Hb); [vm_compute; reflexivity|].
  destruct (bound_progress t sample_progress 5) as [[[]|]|] eqn:Hp; try discriminate Hb. exists t, summary.
  split; [exact Ht|exact Hp].
Qed.
Lemma bound_witness :
  ∃ translated model, single_translation = Ok translated ∧ cp_model_proto translated = sample_encode model ∧
    ((∀ x, is_solution model x = true → 0 ≤ objective_sum model x) →
     ∃ level b, op_levels (objectives single_problem) = [level] ∧ ol_lower_bound level ≤ b ≤ ol_upper_bound level).
Proof.
  destruct single_translates as (t & summary & Ht & Hp).
  destruct (reported_bound_is_valid sample_digest sample_encode single_problem limits_default t sample_progress 5 summary 0)
    as (model & He & _ & Hb); [apply default_limits_typed|exact Ht|exact Hp|intros bits Hbits; injection Hbits as <-; reflexivity|].
  exists t, model. split; [exact Ht|]. split; [exact He|]. intros Hsol.
  destruct (Hb Hsol) as (level & b & Hl & _ & Hr & _). exists level, b. split; [exact Hl|exact Hr].
Defined.

(** ** A recorder *)
Definition incumbent (start length : Z) : option BackendObjectiveEvidence := Some {| objective_values := [start; length] |}.
Notation scalar_plan_translates := (∃ translated, scalar_translation = Ok translated ∧
  objective_plan translated = objectives scalar_problem).
Lemma scalar_translates_plan : scalar_plan_translates.
Proof.
  destruct (is_ok_with scalar_translation (λ t, bool_decide (objective_plan t = objectives scalar_problem)))
    as (t & Ht & Hb); [vm_compute; reflexivity|]. apply bool_decide_eq_true in Hb. exists t. split; [exact Ht|exact Hb].
Qed.
Definition sample_ops : list RecorderOp := [OpCandidate (incumbent 4 3) 7].
Definition recorder_after : AdapterEvidenceRecorder := {|
  ar_remaining_at_dispatch_milliseconds := 5000; ar_backend_limit_milliseconds := 4000;
  ar_objective_contracts := contract_of <$> sample_levels; ar_first_incumbent_milliseconds := Some 7;
  ar_last_observed_milliseconds := Some 7; ar_latest_objective := incumbent 4 3; ar_latest_bound_values := None;
  ar_assumption_core := None |}.
Definition recorder_evidence : BackendTerminationEvidence := {|
  te_remaining_at_dispatch_milliseconds := 5000; te_backend_limit_milliseconds := 4000; te_elapsed_milliseconds := 9;
  te_first_incumbent_milliseconds := Some 7; te_objective := incumbent 4 3; te_best_bound_values := None;
  te_assumption_core := None; te_evidence_refs := []; te_execution := None |}.
Lemma scalar_recorder translated :
  objective_plan translated = objectives scalar_problem →
  fold_m record_op (AdapterEvidenceRecorder_new translated 5000 4000) sample_ops = Ok recorder_after.
Proof. intros Hplan. unfold AdapterEvidenceRecorder_new. rewrite Hplan. vm_compute. reflexivity. Qed.
Lemma recorder_witness :
  te_first_incumbent_milliseconds recorder_evidence = head (candidate_times sample_ops) ∧
  Forall (λ t, t ≤ te_elapsed_milliseconds recorder_evidence) (op_times sample_ops).
Proof.
  destruct scalar_translates_plan as (t & _ & Hplan).
  destruct (recorder_evidence_exact t 5000 4000 sample_ops recorder_after 9 recorder_evidence)
    as (H1 & _ & _ & _ & H2 & _); [apply scalar_recorder; exact Hplan|reflexivity|].
  split; [exact H1|exact H2].
Defined.

(** ** A dispatch budget and a sink *)
Definition sample_world : World := {| now := 0; tokens := (CancellationToken_new []).2 |}.
Definition later_world : World := {| now := 7000000; tokens := tokens sample_world |}.
Definition sample_budget_view : SolveBudgetView :=
  parent_phase_view {| started_at := 0; deadline := 5000000000; cancellation := 0 |}.
Definition sample_dispatch : SolveDispatchBudget :=
  SolveDispatchBudget_from_view sample_world sample_budget_view (Some 4000) 500 100.
Lemma reserves_witness :
  500 < remaining_now later_world sample_dispatch ∧
  to_duration 100 < remaining_backend_duration later_world sample_dispatch.
Proof.
  destruct (dispatch_reserves_kept sample_world sample_budget_view (Some 4000) 500 100 later_world)
    as (_ & _ & _ & Hstop & Hsearch); [lia|lia|intros c Hc; injection Hc as <-; lia|].
  split; [apply Hstop; vm_compute; reflexivity|apply Hsearch; apply Z.ltb_lt; vm_compute; reflexivity].
Defined.
Definition sample_emit (event : SolveProgressEvent) (seen : nat) : Result OutputError unit * nat := (Ok tt, S seen).
Definition scalar_submission : CandidateSubmission := {|
  cs_values := {| booleans := <["var.active" := true]> {["var.idle" := false]};
                  integers := <["var.start" := 4]> (<["var.length" := 3]> {["var.end" := 7]}) |};
  cs_observed_after_milliseconds := 7; cs_objective := incumbent 4 3; cs_evidence_refs := [] |}.
Definition sample_calls : list SinkCall :=
  [CallEmit later_world (EvBackendStarted "ortools"); CallSubmit later_world later_world scalar_submission].
Definition sample_sink : BoundedBackendOutput nat :=
  empty_output scalar_problem 0%nat sample_dispatch SolverApiLimits_DEFAULT 0.
Definition sample_candidates : list BackendCandidate :=
  bo_candidates (foldl (run_call sample_emit) sample_sink sample_calls).
Lemma default_api_limits_typed : typed_api_limits SolverApiLimits_DEFAULT.
Proof. repeat (apply Forall_cons_2; [split; apply Z.leb_le; reflexivity|]). apply Forall_nil_2. Qed.
Lemma sink_witness :
  length sample_candidates = 1%nat ∧ candidates_ok scalar_problem SolverApiLimits_DEFAULT sample_candidates.
Proof.
  destruct (sink_candidates_conform sample_emit scalar_problem SolverApiLimits_DEFAULT sample_dispatch 0%nat sample_sink
    sample_calls) as (H & _); [apply default_api_limits_typed|reflexivity|].
  split; [vm_compute; reflexivity|exact H].
Defined.

(** ** An outcome *)
Definition sample_options : SolveOptions := {|
  so_backend := SelectAuto; so_mode := ModeBalanced; so_time_limit_milliseconds := 5000; so_memory_limit_bytes := None;
  so_worker_threads := ThreadsExact 1; so_random_seed := 7; so_solution_limit := None;
  so_stop_after_first_feasible := false; so_collect_intermediate_solutions := false;
  so_explanation_mode := ExplainNone; so_preserve_existing := PreserveNone; so_reproducibility := Deterministic;
  so_resource_limits := {| caller_max_entities := 1; caller_max_rules := 1; caller_max_variables := 1;
                           caller_max_constraints := 1 |} |}.
Definition scalar_summary : option PlanningProblemSummary :=
  match (summarize sample_digest sample_serialize sample_view scalar_problem limits_default quiet_budget).1 with
  | Ok summary => Some summary | Err _ => None
  end.
Definition sample_solve_request : SolveRequest := {|
  sr_backend_id := "ortools"; sr_backend_version := "9"; sr_adapter_version := "1"; sr_problem := scalar_problem;
  sr_summary := scalar_summary; sr_prepared := None; sr_options := sample_options; sr_model_hash := "model";
  sr_solve_fingerprint := "solve"; sr_dispatch_budget := sample_dispatch |}.
Lemma scalar_assembled translated :
  objective_plan translated = objectives scalar_problem →
  assembled sample_emit sample_solve_request SolverApiLimits_DEFAULT translated sample_candidates sample_ops
    recorder_evidence 9.
Proof.
  intros Hplan. split.
  - exists 0%nat, sample_sink, sample_calls. split; reflexivity.
  - exact Hplan.
  - exists recorder_after. split; [|reflexivity].
    change (remaining_at_dispatch (sr_dispatch_budget sample_solve_request)) with 5000.
    change (backend_limit (sr_dispatch_budget sample_solve_request)) with 4000. apply scalar_recorder. exact Hplan.
  - vm_compute. reflexivity.
  - vm_compute. reflexivity.
Qed.
Definition sample_execution : BackendExecutionEvidence := {|
  ee_timings := {| translation_serialization_milliseconds := 2; worker_startup_milliseconds := Some 1;
    handshake_milliseconds := Some 1; solver_milliseconds := Some 5; protocol_decode_milliseconds := Some 0 |};
  ee_model_counts := {| planning_variable_count := len (variables scalar_problem);
    planning_constraint_count := len (constraints scalar_problem);
    bm_translated_variable_count := 6; bm_translated_constraint_count := 4 |};
  ee_worker_statistics := Some {| ws_wall_time_milliseconds := Some 5; ws_user_time_milliseconds := None;
    ws_deterministic_time_milliseconds := None; ws_conflicts := Some 3; ws_branches := Some 8;
    ws_binary_propagations := None; ws_integer_propagations := Some 21 |};
  ee_reproducibility := {| re_backend_version := "9"; re_adapter_version := "1"; re_worker_version := "9.12";
    re_engine_version := "9.12"; re_protocol_major := 1; re_protocol_minor := 0; re_applied_options := sample_options;
    re_applied_parameters := {| ap_wall_time_milliseconds := Some 3900; ap_memory_limit_bytes := None;
      ap_worker_threads := 1; ap_random_seed := 7; ap_stop_after_first_feasible := false;
      ap_emit_intermediate_solutions := false; ap_log_search_progress := true; ap_deterministic_test_profile := true |};
    re_model_fingerprint_sha256 := String.concat "" (replicate 64 "a"); re_applied_parameters_sha256 := None |} |}.
Lemma sample_execution_conforms : execution_conforms sample_solve_request 9 4000 sample_execution.
Proof.
  apply (execution_validated sample_solve_request {| oc_backend_id := "ortools"; oc_model_hash := "model";
    oc_solve_fingerprint := "solve"; oc_termination := CandidateFound;
    oc_evidence := with_execution (Some sample_execution) recorder_evidence |} sample_execution eq_refl).
  vm_compute. reflexivity.
Qed.
Lemma outcome_witness :
  validate_outcome later_world later_world sample_solve_request
    {| oc_backend_id := "ortools"; oc_model_hash := "model"; oc_solve_fingerprint := "solve";
       oc_termination := CandidateFound; oc_evidence := with_execution (Some sample_execution) recorder_evidence |}
    sample_candidates SolverApiLimits_DEFAULT = Ok tt.
Proof.
  destruct scalar_translates_plan as (t & _ & Hplan).
  apply (assembled_outcome_accepted sample_emit later_world later_world sample_solve_request SolverApiLimits_DEFAULT t
    sample_candidates sample_ops recorder_evidence (Some sample_execution) 9 CandidateFound);
    [apply default_api_limits_typed|apply scalar_assembled; exact Hplan|apply Z.leb_le; vm_compute; reflexivity
    |intros level latest c evidence u v Hl; discriminate Hl|].
  split; [|split; vm_compute; reflexivity].
  intros e [= <-]. change (backend_limit (sr_dispatch_budget sample_solve_request)) with 4000. exact sample_execution_conforms.
Defined.
