(* ===== verification/RouterWitnesses.v ===== *)
(** * Concrete routed executions

    The registry of the generated support matrix with an OR-Tools backend, a backend that submits one
    candidate and claims it optimal, and a reviewer that verifies it: the hypotheses of the theorems
    on routing and execution hold together, and the execution they describe reports an optimum. *)
From stdpp Require Import base tactics list gmap strings relations.
From Stdlib Require Import ZArith Lia Ascii.
From S2P Require Import Prelude Ordering Control Budget Ids DomainIr Model Analysis Validation Admission Canonical.
From S2P Require Import Translation EvaluatorFacts SolverApi SolverApiFacts Support Preflight PreflightFacts Router.
From S2P Require Import Execution RouterFacts ExecutionFacts RoutedExecution ExecutionReturns.
From S2P Require Import Witnesses SolverWitnesses.
Open Scope string_scope.
Open Scope list_scope.
Open Scope Z_scope.

(** ** A problem without assumptions, its report and its registry *)
Definition routed_problem : PlanningProblem := {|
  schema_version := PLANNING_IR_SCHEMA_VERSION; variables := variables scalar_problem;
  constraints := scalar_constraints; objectives := objectives single_problem; assumptions := [];
  projections := projections scalar_problem; provenance := sample_provenance; metadata := metadata sample_problem;
  declared_capabilities := list_to_set [CapAtMostOne; CapAbsDifference; CapLinearComparison; CapObjectivePenalty;
                                        CapIntegerProjection];
  split_authorization := None |}.
Definition router_options : SolveOptions := {|
  so_backend := SelectAuto; so_mode := ModeBalanced; so_time_limit_milliseconds := 5000; so_memory_limit_bytes := None;
  so_worker_threads := ThreadsExact 1; so_random_seed := 1; so_solution_limit := None;
  so_stop_after_first_feasible := false; so_collect_intermediate_solutions := false;
  so_explanation_mode := ExplainNone; so_preserve_existing := PreserveNone; so_reproducibility := Deterministic;
  so_resource_limits := {| caller_max_entities := 10; caller_max_rules := 10; caller_max_variables := 100;
                           caller_max_constraints := 100 |} |}.
Notation summarized :=
  (summarize_with_budget sample_digest sample_serialize sample_view routed_problem limits_default quiet_budget).
Lemma summary_exists : ∃ s b', summarized = (Ok s, b').
Proof.
  destruct summarized as [[s|e] b'] eqn:H; [eauto|]. exfalso.
  assert (is_ok summarized.1 = true) as Hok by (vm_compute; reflexivity). rewrite H in Hok. discriminate Hok.
Qed.
Lemma matrix_exists : ∃ matrix, CapabilityMatrix_generated = Ok matrix.
Proof. apply is_ok_exists. vm_compute. reflexivity. Qed.
Lemma report_witness :
  ∃ matrix s b' report, CapabilityMatrix_generated = Ok matrix ∧ summarized = (Ok s, b') ∧
    ortools_compatibility matrix (bps_summary s) router_options = Ok report ∧ compatible report = true.
Proof.
  destruct matrix_exists as [matrix Hm]. destruct summary_exists as (s & b' & Hs).
  destruct (ortools_report_exact sample_digest sample_serialize sample_view routed_problem limits_default quiet_budget s b'
    matrix router_options Hm Hs) as (_ & report & Hr & Hc).
  exists matrix, s, b', report. split; [exact Hm|]. split; [exact Hs|]. split; [exact Hr|].
  clear Hm Hs Hr. apply Hc. split; [vm_compute; reflexivity|]. split.
  - eexists. vm_compute. reflexivity.
  - split; [intros H; vm_compute in H; discriminate H|reflexivity|reflexivity|vm_compute; discriminate| |intros _; split; reflexivity].
    intros count Hc'. injection Hc' as <-. vm_compute. discriminate.
Defined.
Definition get_ok {E A} (r : Result E A) (fallback : A) : A := match r with Ok a => a | Err _ => fallback end.
Definition no_matrix : CapabilityMatrix := {| cm_schema_version := 0; cm_planning_ir_schema_version := 0;
  cm_features := ∅; cm_backends := ∅; cm_deferred_candidates := [] |}.
Definition router_matrix : CapabilityMatrix := get_ok CapabilityMatrix_generated no_matrix.
Definition router_backends : list SolverBackend :=
  match ortools_descriptor with
  | Err _ => []
  | Ok d => [{| sb_descriptor := d;
      sb_runtime_identity := {| bi_backend_id := sd_id d; bi_backend_version := sd_version d;
        bi_adapter_version := sd_adapter_version d; bi_worker_version := "0.1.0"; bi_solver_version := sd_version d;
        bi_protocol_major := 1; bi_protocol_minor := 0 |};
      sb_completion_reserve := 100; sb_compatibility := OrToolsBackend_compatibility router_matrix |}]
  end.
Notation registered := (SolverRegistry_new router_matrix router_backends).
Definition router_registry := get_ok registered {| rg_matrix := no_matrix; rg_backends := ∅ |}.
Definition routed_submission : CandidateSubmission := {|
  cs_values := cs_values scalar_submission; cs_observed_after_milliseconds := 7;
  cs_objective := Some {| objective_values := [4] |}; cs_evidence_refs := [] |}.
Definition routed_outcome : BackendSolveOutcome := {|
  oc_backend_id := "solver.ortools-cp-sat"; oc_model_hash := "digest"; oc_solve_fingerprint := "digest";
  oc_termination := OptimalityClaimed;
  oc_evidence := {| te_remaining_at_dispatch_milliseconds := 5000; te_backend_limit_milliseconds := 3000;
    te_elapsed_milliseconds := 9; te_first_incumbent_milliseconds := Some 7;
    te_objective := Some {| objective_values := [4] |}; te_best_bound_values := Some [4];
    te_assumption_core := None; te_evidence_refs := []; te_execution := None |} |}.
Definition routed_behaviour (index : Z) : BackendBehaviour := {|
  bb_calls := [BcEmit (EvBackendStarted "solver.ortools-cp-sat"); BcSubmit routed_submission]; bb_review_after := 0;
  bb_completion := Returned (Ok routed_outcome) |}.
Notation routed_execution := (execute sample_emit (λ _ _ _, Verified true) routed_behaviour
  {| started_at := 0; deadline := 5000000000; cancellation := 0 |} sample_digest sample_serialize sample_view (λ _, Some [1])
  (λ _, (0%nat, λ _, quiet_world)) router_registry routed_problem 500 {| ur_token := 0; ur_id := 0; ur_env := λ _, quiet_world |}
  RouterPolicy_default SolverApiLimits_DEFAULT router_options (λ _, sample_world) 0%nat).

(** ** The decision and the execution *)
Lemma registry_exists : registered = Ok router_registry.
Proof.
  unfold router_registry. destruct registered as [r|e] eqn:H; [reflexivity|]. exfalso.
  assert (is_ok registered = true) as Hok by (vm_compute; reflexivity). rewrite H in Hok. discriminate Hok.
Qed.
Notation routed_decision := (RouterPolicy_decide sample_digest sample_serialize sample_view
  {| ur_token := 0; ur_id := 0; ur_env := λ _, quiet_world |} RouterPolicy_default router_registry routed_problem
  router_options).
Lemma decision_witness :
  backend_order routed_decision = ["solver.ortools-cp-sat"] ∧ de_status routed_decision = Ready.
Proof.
  pose proof (routing_decision_exact sample_digest sample_serialize sample_view
    {| ur_token := 0; ur_id := 0; ur_env := λ _, quiet_world |} RouterPolicy_default router_matrix router_backends
    router_registry routed_problem router_options registry_exists) as H.
  assert (backend_order routed_decision = ["solver.ortools-cp-sat"]) as Ho by (vm_compute; reflexivity).
  split; [exact Ho|]. cbv zeta in H. rewrite Ho in H. destruct (de_summary routed_decision).
  - destruct H as (_ & _ & _ & H & _). apply H. discriminate.
  - destruct H as [_ H]. discriminate H.
Defined.
Lemma execution_exists : ∃ execution calls, routed_execution = Some (execution, calls) ∧
  er_terminal_status (re_record execution) = StatusOptimal ∧ er_terminal_reason (re_record execution) = TrCandidateVerified.
Proof.
  destruct routed_execution as [[execution calls]|] eqn:H.
  - exists execution, calls. split; [reflexivity|].
    assert (match routed_execution with
            | Some (e, _) => bool_decide (er_terminal_status (re_record e) = StatusOptimal) &&
                             bool_decide (er_terminal_reason (re_record e) = TrCandidateVerified)
            | None => false end = true) as Hs by (vm_compute; reflexivity).
    rewrite H in Hs. apply andb_prop in Hs as [H1%bool_decide_eq_true H2%bool_decide_eq_true]. by split.
  - exfalso. assert (bool_decide (is_Some routed_execution) = true) as Hs by (vm_compute; reflexivity).
    rewrite H in Hs. discriminate Hs.
Qed.
Lemma result_witness :
  ∃ execution calls attempt c, routed_execution = Some (execution, calls) ∧
    last (er_attempts (re_record execution)) = Some attempt ∧ er_selected_candidate (re_record execution) = Some c ∧
    ∃ β σ, total_candidate routed_problem (bc_values c) β σ.
Proof.
  destruct execution_exists as (execution & calls & Hex & _ & Hreason).
  pose proof (routed_result_sound _ _ _ _ _ _ _ _ _ _ _ _ _ _ _ _ _ _ execution calls default_api_limits_typed Hex)
    as (_ & Hv & _).
  destruct (Hv Hreason) as (attempt & c & matches & Hl & _ & Hs & _ & Ht & _).
  exists execution, calls, attempt, c. split; [exact Hex|]. split; [exact Hl|]. split; [exact Hs|exact Ht].
Defined.
Lemma attempts_witness :
  ∃ execution calls, routed_execution = Some (execution, calls) ∧
    (ar_backend_id <$> er_attempts (re_record execution)) `prefix_of` backend_order routed_decision.
Proof.
  destruct execution_exists as (execution & calls & Hex & _).
  pose proof (attempts_follow_decision _ _ _ _ _ _ _ _ _ _ _ _ _ _ _ _ _ _ execution calls default_api_limits_typed Hex)
    as (_ & Hp & _).
  exists execution, calls. split; [exact Hex|exact Hp].
Defined.
Lemma sample_worlds_successive : successive (λ _, sample_world).
Proof.
  constructor; [|intros i; apply rtc_refl|intros i; apply Z.le_refl].
  apply reachable_wf. eapply rtc_l; [apply step_new|apply rtc_refl].
Qed.
Lemma returns_witness : ∃ execution calls, routed_execution = Some (execution, calls).
Proof. apply execution_returns. apply sample_worlds_successive. Defined.

(** ** Mandatory interval variables *)
(** An interval that is always present and in no constraint. *)
Definition mandatory_task : IntervalVariable := {|
  itv_id := "var.task"; itv_start := "var.start"; itv_duration := "var.length"; itv_end := "var.end";
  itv_presence := None; itv_provenance := "prov.root" |}.
Definition interval_problem : PlanningProblem := {|
  schema_version := PLANNING_IR_SCHEMA_VERSION; variables := variables routed_problem ++ [VInterval mandatory_task];
  constraints := constraints routed_problem; objectives := objectives routed_problem; assumptions := [];
  projections := projections routed_problem; provenance := provenance routed_problem;
  metadata := metadata routed_problem; declared_capabilities := declared_capabilities routed_problem;
  split_authorization := None |}.
(** Such an interval uses no capability, so the backend reports the problem compatible, and its
    translator then refuses it. *)
Example mandatory_interval_reported_compatible :
  match (summarize_with_budget sample_digest sample_serialize sample_view interval_problem limits_default quiet_budget).1 with
  | Ok s => compatible (OrToolsBackend_compatibility router_matrix (bps_summary s) router_options)
  | Err _ => false
  end = true ∧
  translate_supported_model sample_digest sample_encode interval_problem limits_default = Err UnsupportedIntervalVariable.
Proof. split; vm_compute; reflexivity. Qed.
