(* ===== verification/GateWitnesses.v ===== *)
(** * A concrete solve through the acceptance gate

    The routed solve of the sample problem with the application's reviewer in place, a domain pack that
    answers as the contracts ask, and serializers that write records injectively: the hypotheses of the
    theorems on the gate hold together, and the solve they describe reports a verified optimum. *)
From stdpp Require Import base tactics list gmap strings countable.
From Stdlib Require Import ZArith Lia Ascii.
From S2P Require Import Prelude Ordering Control Budget Ids DomainIr Model Analysis Validation Admission Canonical.
From S2P Require Import Projection ProjectionFacts EvaluatorFacts SolverApi SolverApiFacts Support Router Execution RoutedExecution.
From S2P Require Import VerificationIr ObjectiveContext Scenario Acceptance AcceptanceFacts AcceptanceErrors AcceptanceComplete.
From S2P Require Import CandidateReviewer ReviewedExecution TranslationExact Counterfactual.
From S2P Require Import Witnesses SolverWitnesses RouterWitnesses.
Open Scope string_scope.
Open Scope list_scope.
Open Scope Z_scope.

(** ** The environment of the gate *)
Definition sixteen : string := "0123456789abcdef".
Definition hex_sample (bytes : list Z) : string := sixteen +:+ sixteen +:+ sixteen +:+ sixteen.
Lemma hex_sample_digest : hex_digest hex_sample.
Proof. intros bytes. reflexivity. Qed.
(** A record is written as the number of its fields; the one without its checksum, as that of the rest. *)
Definition scope_fields (v : VerificationScope) : Z * string * Z * list (string * string) :=
  (vs_schema_version v, vs_scenario_id v, vs_scenario_revision v,
   (λ r, (rb_rule_id r, rb_semantic_hash r)) <$> vs_required_rules v).
Definition scope_of (fields : Z * string * Z * list (string * string)) (checksum : string) : VerificationScope :=
  let '(version, scenario_id, revision, rules) := fields in
  {| vs_schema_version := version; vs_scenario_id := scenario_id; vs_scenario_revision := revision;
     vs_required_rules := (λ '(id, hash), {| rb_rule_id := id; rb_semantic_hash := hash |}) <$> rules;
     vs_checksum := checksum |}.
Definition written (p : positive) : list Z := [Zpos p].
Definition json_scope : Json VerificationScope := {|
  js_bytes := λ v, Some (written (encode (scope_fields v, vs_checksum v)));
  js_value := λ v, Some (written (encode (scope_fields v, vs_checksum v)));
  js_without := λ _ v, Some (written (encode (scope_fields v))) |}.
Definition read_scope (bytes : list Z) : option VerificationScope :=
  match bytes with
  | [Zpos p] => (λ '(fields, checksum), scope_of fields checksum) <$>
                  (decode p : option ((Z * string * Z * list (string * string)) * string))
  | _ => None
  end.
Lemma scope_read scope bytes : js_bytes json_scope scope = Some bytes → read_scope bytes = Some scope.
Proof.
  intros [= <-]. cbn. rewrite decode_encode. cbn. f_equal. destruct scope as [v s r rules c]. unfold scope_of, scope_fields. cbn.
  f_equal. induction rules as [|[id h] l IH]; [done|]. cbn. by rewrite IH.
Qed.
Definition json_any (A : Type) : Json A := {|
  js_bytes := λ _, Some [1]; js_value := λ _, Some [1]; js_without := λ _ _, Some [0] |}.
#[global] Instance json_scope_laws : ChecksumJson json_scope set_scope_checksum.
Proof. split; [done|]. intros v bytes [= <-]. by eexists. Qed.
#[global] Instance json_any_laws A (set : string → A → A) : ChecksumJson (json_any A) set.
Proof. split; [done|]. intros v bytes [= <-]. by eexists. Qed.
Lemma contracts_witness :
  ∃ scope bytes, VerificationScope_new hex_sample json_scope "scenario" 7
      [{| rb_rule_id := "rule.b"; rb_semantic_hash := hex_sample [] |}; {| rb_rule_id := "rule.a"; rb_semantic_hash := hex_sample [] |}]
      = Ok scope ∧ js_bytes json_scope scope = Some bytes ∧
    VerificationScope_from_json hex_sample json_scope read_scope bytes = Ok scope.
Proof.
  destruct (built_contracts_validate hex_sample json_scope (json_any _) (json_any _) (json_any _) read_scope
    hex_sample_digest _ _ _ scope_read) as (H & _).
  destruct (is_ok_exists (VerificationScope_new hex_sample json_scope "scenario" 7
      [{| rb_rule_id := "rule.b"; rb_semantic_hash := hex_sample [] |}; {| rb_rule_id := "rule.a"; rb_semantic_hash := hex_sample [] |}]))
    as [scope Hn]; [vm_compute; reflexivity|].
  exists scope. eexists. split; [exact Hn|]. split; [reflexivity|]. eapply H; [exact Hn|reflexivity].
Defined.

(** ** The document, the pack and the reviewer *)
Definition gate_document : ScenarioDocument unit := {|
  sdoc_format_version := 1; sdoc_scenario_id := "scenario";
  sdoc_domain_pack := {| dr_id := "pack.sample"; dr_schema_version := 1 |}; sdoc_content := tt |}.
Definition gate_score : ScoreVector := {|
  feasibility := 0;
  levels := [{| sl_level_id := "lvl.first"; sl_value := 4; sl_direction := Minimize;
                sl_category_breakdown := {["cat.time" := 4]} |}] |}.
Definition gate_rules : list RequiredRuleBinding := [{| rb_rule_id := "rule.a"; rb_semantic_hash := hex_sample [] |}].
Definition gate_results : list RuleEvaluation := [{|
  re_rule_id := "rule.a"; re_satisfied := true; re_affected_entities := []; re_message_key := "rule.kept";
  re_expected := ∅; re_observed := ∅; re_evidence := ["prov.root"] |}].
Notation gate_scope := (VerificationScope_new hex_sample json_scope "scenario" 7 gate_rules).
Definition unavailable {E A} (r : Result E A) : Result DomainPackError A := map_err (λ _, PackContract "unavailable") r.
Definition gate_pack : DomainPack unit := {|
  dp_project := λ _ problem values id _, unavailable (project_candidate hex_sample problem values id limits_default);
  dp_verification_scope := λ _ _ _ _, unavailable gate_scope;
  dp_verify := λ _ _ _ _ context score _,
    unavailable (VerificationReport_new hex_sample (json_any _) context gate_results score [] ∅);
  dp_score := λ _ _ _ _ _, Ok gate_score |}.
Definition quiet_run : UncontrolledRun := {| ur_token := 0; ur_id := 0; ur_env := λ _, quiet_world |}.
Notation gate_new := (AcceptanceReviewer_new hex_sample sample_serialize sample_view (λ _, Some [1]) quiet_run gate_document 7
  routed_problem None).
Definition gate_control : OperationControl := Cancellation 0.
Definition gate_candidate : BackendCandidate := {|
  bc_sequence := 0; bc_values := cs_values routed_submission; bc_observed_after_milliseconds := 7;
  bc_objective := Some {| objective_values := [4] |}; bc_evidence_refs := [] |}.
Lemma gate_exists : ∃ gate, gate_new = Ok gate.
Proof. apply is_ok_exists. vm_compute. reflexivity. Qed.
Notation gate_review gate := (acceptance_review hex_sample sample_serialize sample_view (json_any _) json_scope (json_any _)
  (json_any _) gate_pack (λ _, 3) (λ _, sample_world) (λ _, quiet_run) gate gate_candidate "solution" gate_control 0).
Lemma gate_accepts : match gate_new with Ok gate => match (gate_review gate).1 with AdAccepted _ Matched _ => true | _ => false end | _ => false end = true.
Proof. vm_compute. reflexivity. Qed.
(** The reviewer of a problem that could be bound. *)
Definition gate : AcceptanceReviewer (Content := unit) := get_ok gate_new {|
  av_document := gate_document; av_scenario_revision := 0; av_problem := routed_problem; av_objective_context := None;
  av_document_hash := ""; av_planning_model_hash := ""; av_diagnostic_reservation := 0 |}.
Lemma gate_new_Ok : gate_new = Ok gate.
Proof. unfold gate. by destruct gate_exists as [g ->]. Qed.
Lemma gate_model_hash : model_hash hex_sample sample_serialize sample_view quiet_run routed_problem = Ok (av_planning_model_hash gate).
Proof. vm_compute. reflexivity. Qed.
Lemma gate_projections_typed : typed_projections routed_problem.
Proof. repeat constructor. Qed.
Lemma gate_levels : Forall2 level_verified (op_levels (objectives routed_problem)) (levels gate_score).
Proof. constructor; [apply level_matches_spec; vm_compute; reflexivity|constructor]. Qed.

(** ** An honest review *)
Lemma get_ok_Ok {E A} (r : Result E A) d : is_ok r = true → r = Ok (get_ok r d).
Proof. by destruct r. Qed.
Definition gate_solution : NormalizedSolution :=
  get_ok (project_candidate hex_sample routed_problem (bc_values gate_candidate) "solution" limits_default)
    {| ns_schema_version := 0; ns_pack_id := ""; ns_scenario_id := ""; ns_scenario_revision := 0; ns_projection_version := 0;
       ns_solution_id := ""; ns_assignments := [] |}.
Definition gate_scope_built : VerificationScope := get_ok gate_scope (scope_of (0, "", 0, []) "").
Notation gate_context_new := (VerificationContextV1_new "scenario" 7 (av_document_hash gate) (av_planning_model_hash gate)
  (hex_sample []) (vs_checksum gate_scope_built)).
Definition gate_context : VerificationContextV1 := get_ok gate_context_new
  {| vc_schema_version := 0; vc_scenario_id := ""; vc_evaluated_revision := 0; vc_document_hash := "";
     vc_planning_model_hash := ""; vc_normalized_solution_hash := ""; vc_verification_scope_checksum := "" |}.
Notation gate_report_new := (VerificationReport_new hex_sample (json_any _) gate_context gate_results gate_score [] ∅).
Definition gate_report : VerificationReport := get_ok gate_report_new
  {| vr_schema_version := 0; vr_accepted := false; vr_scenario_id := ""; vr_evaluated_revision := 0; vr_document_hash := "";
     vr_planning_model_hash := ""; vr_normalized_solution_hash := ""; vr_verification_scope_checksum := "";
     vr_required_rule_results := []; vr_score := gate_score; vr_warnings := []; vr_metrics := ∅; vr_checksum := "" |}.
Lemma gate_projected :
  project_candidate hex_sample routed_problem (bc_values gate_candidate) "solution" limits_default = Ok gate_solution.
Proof. apply get_ok_Ok. vm_compute. reflexivity. Qed.
Lemma gate_scope_Ok : gate_scope = Ok gate_scope_built.
Proof. apply get_ok_Ok. vm_compute. reflexivity. Qed.
Lemma gate_context_Ok : gate_context_new = Ok gate_context.
Proof. apply get_ok_Ok. vm_compute. reflexivity. Qed.
Lemma gate_report_Ok : gate_report_new = Ok gate_report.
Proof. apply get_ok_Ok. vm_compute. reflexivity. Qed.
Lemma gate_honest : honest hex_sample (json_any _) json_scope (json_any _) (json_any _) gate_pack gate gate_candidate
  "solution" gate_control gate_document 7 routed_problem None gate_solution gate_report gate_score.
Proof.
  split.
  - exact gate_projected.
  - intros n. unfold gate_pack, dp_project. by rewrite gate_projected.
  - reflexivity.
  - reflexivity.
  - exact gate_levels.
  - exists (hex_sample []), gate_rules, gate_scope_built, gate_context, gate_results, [], ∅. split_and!.
    + vm_compute. reflexivity.
    + exact gate_scope_Ok.
    + intros n. unfold gate_pack, dp_verification_scope. by rewrite gate_scope_Ok.
    + exact gate_context_Ok.
    + exact gate_report_Ok.
    + intros n. unfold gate_pack, dp_verify. by rewrite gate_report_Ok.
    + reflexivity.
    + repeat constructor.
  - intros c. exists [1], [1], [0]. by split_and!.
Qed.
Lemma honest_witness : ∃ c timings n',
  gate_review gate = (AdAccepted (result_with gate_solution gate_report c) Matched timings, n').
Proof.
  apply (honest_candidate_accepted hex_sample sample_serialize sample_view (json_any _) json_scope (json_any _)
    (json_any _) (λ _, Some [1]) gate_pack (λ _, 3) (λ _, sample_world) (λ _, quiet_run) gate gate_candidate "solution"
    gate_control ltac:(intros n; reflexivity) ltac:(intros n; vm_compute; repeat split; discriminate) quiet_run gate_document 7
    routed_problem None gate_solution gate_report gate_score 0 hex_sample_digest json_scope_laws (json_any_laws _ _) gate_new_Ok).
  - intros k. exact gate_model_hash.
  - exact gate_projections_typed.
  - vm_compute. discriminate.
  - exact gate_honest.
Defined.
(** A candidate without values: its projection fails, and the review says so. *)
Definition empty_candidate : BackendCandidate := {|
  bc_sequence := 0; bc_values := {| booleans := ∅; integers := ∅ |}; bc_observed_after_milliseconds := 7;
  bc_objective := None; bc_evidence_refs := [] |}.
Notation empty_review := (acceptance_review hex_sample sample_serialize sample_view (json_any _) json_scope (json_any _)
  (json_any _) gate_pack (λ _, 3) (λ _, sample_world) (λ _, quiet_run) gate empty_candidate "solution" gate_control 0).
Lemma refusal_witness :
  (∃ timings, empty_review.1 = AdQuarantined (CorrectnessAlarm_new CcProjectionFailed) timings) ∧
  ∃ e, projects_to gate_pack gate empty_candidate "solution" gate_control (Err e) ∧ pack_fault e.
Proof.
  assert (∃ timings, empty_review.1 = AdQuarantined (CorrectnessAlarm_new CcProjectionFailed) timings) as [timings H].
  { eexists. vm_compute. reflexivity. }
  split; [by exists timings|].
  pose proof (refusals_have_causes hex_sample sample_serialize sample_view (json_any _) json_scope (json_any _)
    (json_any _) gate_pack (λ _, 3) (λ _, sample_world) (λ _, quiet_run) gate empty_candidate "solution" gate_control
    ltac:(intros n; vm_compute; repeat split; discriminate) 0) as Hc.
  rewrite H in Hc. exact (proj2 Hc).
Defined.

(** ** A verified solve *)
Definition gate_outcome : BackendSolveOutcome := {|
  oc_backend_id := "solver.ortools-cp-sat"; oc_model_hash := hex_sample []; oc_solve_fingerprint := hex_sample [];
  oc_termination := OptimalityClaimed; oc_evidence := oc_evidence routed_outcome |}.
Definition gate_behaviour (index : Z) : BackendBehaviour := {|
  bb_calls := bb_calls (routed_behaviour index); bb_review_after := 0; bb_completion := Returned (Ok gate_outcome) |}.
Definition gate_callbacks : ReviewCallbacks := {| rk_before_review := true; rk_after_review := true; rk_first_accepted := true |}.
Notation gate_reviewer := (router_reviewer hex_sample sample_serialize sample_view (json_any _) json_scope (json_any _)
  (json_any _) gate_pack (λ _, 3) (λ _, sample_world) (λ _, quiet_run) (λ _, Some "solution") gate gate_control gate_callbacks).
Notation gate_execution := (execute sample_emit gate_reviewer gate_behaviour
  {| started_at := 0; deadline := 5000000000; cancellation := 0 |} hex_sample sample_serialize sample_view (λ _, Some [1])
  (λ _, (0%nat, λ _, quiet_world)) router_registry routed_problem 500 quiet_run RouterPolicy_default SolverApiLimits_DEFAULT
  router_options (λ _, sample_world) 0%nat).
Lemma gate_execution_optimal :
  match gate_execution with
  | Some (e, _) => bool_decide (er_terminal_status (re_record e) = StatusOptimal)
  | None => false
  end = true.
Proof. vm_compute. reflexivity. Qed.
Lemma solve_witness : ∃ execution calls c solution_id result reconciliation,
  gate_execution = Some (execution, calls) ∧ er_selected_candidate (re_record execution) = Some c ∧
  accepted_properly hex_sample sample_view (json_any _) json_scope (λ _, Some [1]) gate_pack gate c solution_id gate_control
    gate_document 7 routed_problem result reconciliation ∧
  ∃ outcome, te_best_bound_values (oc_evidence outcome) = Some (sl_value <$> levels (vr_score (ac_verification result))).
Proof.
  pose proof gate_execution_optimal as Hopt. destruct gate_execution as [[execution calls]|] eqn:Hex; [|discriminate Hopt].
  apply bool_decide_eq_true in Hopt. exists execution, calls.
  destruct (verified_solve_sound hex_sample sample_serialize sample_view (json_any _) json_scope (json_any _) (json_any _)
    (λ _, Some [1]) gate_pack (λ _, 3) (λ _, sample_world) (λ _, quiet_run) (λ _, Some "solution") gate gate_control
    gate_callbacks sample_emit gate_behaviour {| started_at := 0; deadline := 5000000000; cancellation := 0 |}
    (λ _, Some [1]) (λ _, (0%nat, λ _, quiet_world)) router_registry routed_problem 500 quiet_run RouterPolicy_default
    SolverApiLimits_DEFAULT router_options (λ _, sample_world) 0%nat quiet_run gate_document 7 None execution calls
    default_api_limits_typed gate_projections_typed gate_new_Ok Hex (or_introl Hopt))
    as (c & id & result & reconciliation & Hsel & _ & Hacc & Ho).
  exists c, id, result, reconciliation. split; [reflexivity|]. split; [exact Hsel|]. split; [exact Hacc|].
  destruct (Ho Hopt) as (attempt & outcome & _ & _ & _ & Hb). by exists outcome.
Defined.

(** ** A counterfactual of the sample problem *)
(** A digest that tells apart texts whose bytes have different sums. *)
Definition sum_digest (bytes : list Z) : string :=
  let digit := if Z.odd (foldr Z.add 0 bytes) then "1" else "0" in
  String.concat "" (replicate 64 digit).
Definition view_constraints (view : CanonicalHashProblem) : Bytes := sample_bytes (len (ch_constraints view)).
Definition sample_condition : CounterfactualConditionV1 := {|
  cc_schema_version := 1; cc_condition := ForceAssignmentValue "out.load" (AVInteger 9);
  cc_checksum := sum_digest [0] |}.
(** The load is at most nine, between the constraints the base has. *)
Definition condition_constraint : ConstraintRecord := {|
  cr_id := "con.condition";
  cr_body := LinearComparison_ {| lc_expression := sample_expression; lc_op := LessOrEqual; lc_rhs := 9 |};
  cr_enforcement := []; cr_provenance := "prov.condition"; cr_tags := [] |}.
Definition condition_provenance : ProvenanceRecord := {|
  pr_id := "prov.condition"; pr_source_kind := Derived; pr_source_id := "rule.one"; pr_entity_refs := [];
  pr_message_key := "message"; pr_parameters := ∅; pr_parent := Some "prov.root" |}.
Definition conditioned_problem : PlanningProblem :=
  extension_of sample_problem (cc_checksum sample_condition)
    [sample_capacity; condition_constraint; sample_limit] (condition_provenance :: sample_provenance).
Definition check_condition (derived : PlanningProblem) : Result CounterfactualValidationError CounterfactualCompilationBindingV1 :=
  validate_counterfactual_problem sum_digest sample_serialize view_constraints (json_any _) (json_any _)
    quiet_run quiet_run sample_problem derived sample_condition (sum_digest [1]) limits_default.
Lemma counterfactual_witness :
  is_ok (check_condition conditioned_problem) = true ∧
  (∀ β σ, feasible conditioned_problem β σ ↔
     feasible sample_problem β σ ∧ Forall (record_holds sample_problem β σ) [condition_constraint]) ∧
  check_condition (extension_of sample_problem (cc_checksum sample_condition) [sample_capacity; condition_constraint]
    (condition_provenance :: sample_provenance)) = Err (BaselineMutation "constraints").
Proof.
  destruct (counterfactual_compilation_exact sum_digest sample_serialize view_constraints (json_any _) (json_any _)
    quiet_run quiet_run sample_problem conditioned_problem sample_condition (sum_digest [1]) limits_default
    default_typed) as [_ H].
  split; [vm_compute; reflexivity|]. split; [|vm_compute; reflexivity]. intros β σ.
  destruct (check_condition conditioned_problem) as [binding|e] eqn:Hc; [|by vm_compute in Hc].
  destruct (H binding Hc) as (_ & _ & _ & _ & Hf & _). exact (Hf β σ).
Defined.
